(* ===== verification/_CoqProject ===== *)
-Q . S2P
Prelude.v
Bytes.v
HostMem.v
AddrSpace.v
Segments.v
Isa.v
Vm.v
Frame.v
SoftFp.v
Interp.v
InterpFacts.v
MemSyscalls.v
Fork.v
Writes.v
SetupStack.v
Kernel.v
Signals.v
SigCalls.v
Futex.v
Session.v
FdTable.v
Process.v
Paths.v
VirtualFs.v
Procfs.v
FileSys.v
Confine.v
FileIo.v
Waiting.v
Sockets.v
Loader.v
Discover.v
Jit.v
Link.v
A64.v
A64Run.v
A64Emit.v
A64Laws.v
A64Alu.v
Rsp.v
Gdb.v
GdbFacts.v
GdbDemo.v
GdbSafe.v
GdbStop.v
GdbReply.v
GdbMem.v
Ld.v
LdDemo.v
LdLayout.v
LdSym.v
LdReloc.v
LdRun.v
LdOut.v
LdPlace.v
LdFile.v
LdRel.v
LdMerge.v
LdPartial.v
