(* ===== verification/Prelude.v ===== *)
(** * bpfvm: a verification library for the user-space BPF virtual machine

    bpfvm runs Linux programs compiled to (extended) eBPF machine code: its own
    linker makes ELF files from objects, the loader puts such a file into a guest
    address space, an interpreter or a JIT executes it, a POSIX layer implements
    the system calls of the guest on the host, and a GDB server lets a client
    trace it.  The library models these parts and proves what makes them correct.

    ** Parts of the program and where they are modelled

    _The machine_ (src/src/insn.h, insn.cpp, elf_loader.h, frame_slot.h,
    include/bpf_fp.h).
    - HostMem: the host's blocks, page protections and shared references.
    - AddrSpace: [class vm]'s segment table and TLB; [addmem], [unmap],
      [mmu], [mmu_w] and the copy-on-write of [memmap::cow_data].
    - Segments: the steps the memory calls and fork perform on one segment.
    - Isa: the instruction format; the two ALU classes, the jump conditions.
    - SoftFp: the virtual floating-point and wide-integer instructions.
    - Vm: the machine record, the flag word, the monad of the member functions
      and the interfaces [SyscallHandler], [DebugHooks], [Jit].
    - Frame: the frame word, [push_frame], [pop_frame], [alloca].
    - Interp, InterpFacts: the handlers of every opcode, [do_syscall],
      [deliver_signal], [safepoint], [step], [run], and their theorems.
    - SetupStack, Writes: [setup_stack], [run(options, info)].
    - Bytes: little-endian fields of structures in byte lists.

    _The POSIX layer_ (src/src/posix/).
    - MemSyscalls (memory.cpp): mmap, munmap, mprotect, madvise.
    - Kernel (posix_syscall.h, fs.h, signal_queue.cpp): tasks, thread groups,
      process groups, sessions, terminals, shared state, open files.
    - Signals, SigCalls (signal.cpp, posix_syscall.cpp): queueing, delivery,
      masks, actions, sigsuspend, signal frames, setjmp, exit and exit_group.
    - Futex (futex.cpp); Session (session.cpp, the ioctls of job control).
    - FdTable (fd_ops.cpp, fs.cpp, parts of file_io.cpp and signal.cpp).
    - Fork, Process (process.cpp, posix_syscall.cpp): clone, exit, wait,
      identity calls, prctl, script headers.
    - Paths, FileSys (filesystem.cpp, fs.cpp, file_io.cpp): guest paths, their
      resolution below the root, the calls on paths.
    - VirtualFs, Procfs (fs.cpp, procfs.cpp): synthetic directories, files and
      devices; the tree of /proc, its texts, lookup through links.
    - Confine: what path resolution guarantees as a whole.
    - FileIo (file_io.cpp); Waiting (fd_ops.cpp, posix_syscall.cpp): poll,
      select, ioctl and fcntl, clock and machine calls; Sockets (socket.cpp).

    _Compilation_ (src/src/jit/).
    - Discover, Jit, Link (jit_compiler.cpp, jit.h): which instructions a
      compiled function covers; the registry, the cache, the hot counters and
      the arenas; the code that is put together, against the contract of an
      emitter ([Link.EmitterLaws]).
    - A64, A64Run, A64Emit (aarch64_emitter.cpp, jit_base_emitter.h): the
      instruction words, what the processor does with those of arithmetic and
      control, the emitter.  A64Laws: it keeps the contract; A64Alu: its code
      computes what the interpreter computes.

    _Programs as files_.
    - Ld, LdOut (elf_linker.cpp): [Linker::run] from the input files to
      relocated sections, and [write_elf]: symbol tables, dynamic sections,
      headers, payload.  The state of class [Linker] is the record [Linker];
      the pool of bytes is the memories of the objects.
    - LdLayout, LdSym, LdReloc, LdRun, LdPlace, LdFile: the theorems on the
      layout, on symbols, on relocation, on a whole link and on the file it
      writes; LdDemo: a small link.
    - LdRel: the partial link (-r), from merging to the file; LdMerge, LdPartial:
      sections, symbols and relocations survive it.
    - Loader (elf_loader.cpp): headers, placing, mapping, the dynamic linker.

    _The GDB server_ (gdb_server.cpp, gdb_server.h).
    - Rsp: numbers and packets; Gdb: the task table, the hooks, all-stop, every
      handler and the sessions.  The guest and the client act through events
      between the sleeps of the server.
    - GdbFacts, GdbSafe, GdbStop, GdbReply, GdbMem: the theorems; GdbDemo: input
      for their witnesses.

    Every definition keeps the name of the function it translates where that
    is possible.  A machine integer is a [Z] and its wrap-around is written out
    ([uwrap], [sval] below).  C++ objects shared by pointers (segments' pages,
    tasks, groups, open files) are entries of maps whose keys are the pointers,
    so that aliasing is visible.  An instruction is a computation in the monad
    [Vm.M]: it threads the machine and returns or blocks; a system call is a
    function on the kernel record; the linker computes in [Ld.res], whose
    outcomes are a result, a reported error and an access outside of an array.
    A function that runs under one lock is one atomic step; the theorems on
    interleavings (InterpFacts, SigCalls, Futex, Session, FdTable, Process,
    GdbSafe, GdbStop) quantify over all sequences of such steps.

    ** What the theorems show

    - Memory: the TLB refines the segment table; copy-on-write is invisible to
      the writer and isolates address spaces; mmap, munmap and mprotect do what
      their results say; no access reaches an unmapped host page.
    - Instructions: the arithmetic against a reference semantics, loads, stores
      and atomics against the guest's view of memory, round trips of the
      instruction format, of frames and of floating-point bit patterns.
    - The machine: well-formedness and isolation in every interleaving, for
      every law-abiding system-call layer, debugger and JIT; termination within
      the instruction budget; restart of interrupted system calls.
    - Processes: fork's child and its isolation; the start-up stack as the
      guest reads it; the tree of processes, wait's choice, exit of a group.
    - Signals and futexes: no deliverable signal lies in a queue unnoticed,
      every deliverable signal is taken, frames save and restore the context,
      no futex wake-up is lost.
    - Job control and descriptors: the invariants of process groups, sessions,
      descriptor tables and open files under every sequence of calls.
    - Files: paths end below the root, lookup ends, passed descriptors and
      socket addresses are translated faithfully.
    - Programs: every relocation of a link is carried out and nothing else is
      changed; sections get disjoint places with the right permissions; a name
      stands for its first strong definition; the loader maps exactly the bytes
      of a file, and the file of a static link runs into the memory the linker
      meant it to be ([LdFile.linked_program_loads]); a partial link keeps
      sections, symbols and relocations ([LdPartial.partial_link_faithful]).
    - The JIT: discovery is exact and ends, every loop has a safepoint, the
      cache and the registry agree, every jump of the AArch64 code goes where
      the BPF jump goes, its arithmetic and comparisons are the interpreter's.
    - The debugger: the task table is sound in every session, a stop is reported
      only when every traced thread is at rest, every packet has at most one
      reply, memory reads back what was written.

    Behaviour of the code that departs from its documentation is stated as
    lemmas on concrete runs, next to the definitions they are about.

    ** Bounds and fuel

    - [run] and the loop of wide memory operations recurse on the instruction
      budget or on a length; [budget_terminates] shows the budget is enough
      whenever the handlers return.
    - Blocking loops (wait4, sigsuspend, [wait_for], a stopped task) recurse on
      the list of words the task observes after each wake-up: when it is used
      up the computation is still blocked, which is what the code does then.
      The loops of the GDB server take one turn per entry of a script of events.
    - [mprotect] recurses on the number of segments above its start and the
      search for a free descriptor on the size of the table plus one: both are
      shown sufficient ([mprotect_contract], [fds_emplace_lowest]).
    - [queue_signal] nests at most twice (a stop sends SIGCHLD to the parent,
      SIGCHLD never stops): the two levels are written out.
    - Lookup of paths has the fuel of the code's own limits (40 links) and the
      length of the path ([Procfs.lookup_terminates]); discovery pops at most
      one entry per instruction of the segment ([Discover.discover_exact]); the
      reader of archives takes 60 bytes or more per turn, so the length of the
      file is enough.

    ** Parameters

    What the host decides is an argument of the definitions: whether its
    mmap, mprotect and allocations succeed ([HostEnv], [HostAlloc]), rounding details the C++
    standard leaves open ([HostFp]), the iteration order of
    [std::unordered_map] ([HashOrder], [StringOrder]), the host's files and
    descriptors ([HostFds], [HostFs], [HostIo], [HostNet], [HostLib],
    [HostFacts]), the random bytes of the start-up stack, the contents of mapped
    files.  [VmView] is what the POSIX layer reads of other machines.  [LibElf]
    is what libelf reports of an input object.  [JitEmitter] is an emitter of
    host code, [A64Layout] the offsets of the fields the emitted code reaches,
    [A64Cpu] the instructions of the processor that have no meaning of their own
    here.

    ** Not modelled

    - The x86 emitter: a second instance of [JitEmitter] over a variable-length
      encoding, with a semantics of its own.
    - The LLVM passes: they rewrite LLVM IR through the LLVM library.
    - In the linker the passes over DWARF data (the debug sections of the output
      are an argument of [write_file]); the option parsing of ld_main.cpp.
    - The part of execve that replaces the running program.
    - Host terminals, option parsing, printing: input and output of the host.
    - Tests, generated thunks, vendored headers.
    - The C++ memory model: atomics and locks are taken as sequentially
      consistent steps. *)

From Stdlib Require Import Lia.
From stdpp Require Import base numbers list gmap strings option.

#[global] Set Default Goal Selector "!".

Declare Scope bpf_scope.
Delimit Scope bpf_scope with bpf.
Open Scope Z_scope.

(** ** Machine integers

    A [w]-bit unsigned C integer is a [Z] in [[0, 2^w)]; every C conversion to
    an unsigned type is [uwrap w], every reinterpretation as the signed type of
    the same width is [sval w].  The source only uses two's complement. *)

Definition uwrap (w z : Z) : Z := z mod 2 ^ w.

Definition sval (w z : Z) : Z :=
  let u := z mod 2 ^ w in
  if u <? 2 ^ (w - 1) then u else u - 2 ^ w.

Abbreviation u8 := (uwrap 8).
Abbreviation u16 := (uwrap 16).
Abbreviation u32 := (uwrap 32).
Abbreviation u64 := (uwrap 64).
Abbreviation s8 := (sval 8).
Abbreviation s16 := (sval 16).
Abbreviation s32 := (sval 32).
Abbreviation s64 := (sval 64).

Definition in_u64 (z : Z) : Prop := 0 <= z < 2 ^ 64.

(** C's [~m] on a [uint64_t] and [x & ~m]. *)
Definition andnot (x m : Z) : Z := Z.ldiff x m.

(** C truth value of an integer expression. *)
Definition nz (z : Z) : bool := negb (z =? 0).

(** ** Arithmetic automation *)

(** [mlia]: linear arithmetic modulo the machine-integer wrappers. *)
Ltac mlia :=
  unfold in_u64, uwrap in *;
  first [ lia | Z.to_euclidean_division_equations; lia ].

(** Split every boolean comparison of the goal into its two cases. *)
Ltac zcases :=
  repeat match goal with
  | |- context [?a <? ?b] => destruct (Z.ltb_spec a b)
  | |- context [?a <=? ?b] => destruct (Z.leb_spec a b)
  | |- context [?a =? ?b] => destruct (Z.eqb_spec a b)
  | |- context [?a >? ?b] => rewrite (Z.gtb_ltb a b)
  | |- context [?a >=? ?b] => rewrite (Z.geb_leb a b)
  end.

(** Turn boolean comparisons in the hypotheses into propositions. *)
Ltac zprops :=
  repeat match goal with
  | H : _ && _ = true |- _ => apply andb_true_iff in H as [? ?]
  | H : _ || _ = false |- _ => apply orb_false_iff in H as [? ?]
  | H : negb _ = true |- _ => apply negb_true_iff in H
  | H : negb _ = false |- _ => apply negb_false_iff in H
  | H : (_ <? _) = true |- _ => apply Z.ltb_lt in H
  | H : (_ <? _) = false |- _ => apply Z.ltb_ge in H
  | H : (_ <=? _) = true |- _ => apply Z.leb_le in H
  | H : (_ <=? _) = false |- _ => apply Z.leb_gt in H
  | H : (_ =? _) = true |- _ => apply Z.eqb_eq in H
  | H : (_ =? _) = false |- _ => apply Z.eqb_neq in H
  | H : (_ >? _) = _ |- _ => rewrite Z.gtb_ltb in H
  | H : (_ >=? _) = _ |- _ => rewrite Z.geb_leb in H
  end.

(** ** Wrapping lemmas *)

Lemma uwrap_range w z : 0 <= w -> 0 <= uwrap w z < 2 ^ w.
Proof. intros Hw. apply Z.mod_pos_bound. by apply Z.pow_pos_nonneg. Qed.

Lemma u64_range z : 0 <= u64 z < 2 ^ 64.
Proof. by apply uwrap_range. Qed.

Lemma u32_range z : 0 <= u32 z < 2 ^ 32.
Proof. by apply uwrap_range. Qed.

Lemma uwrap_small w z : 0 <= z < 2 ^ w -> uwrap w z = z.
Proof. apply Z.mod_small. Qed.

Lemma uwrap_idem w z : uwrap w (uwrap w z) = uwrap w z.
Proof. apply Zmod_mod. Qed.

Lemma uwrap_add_l w a b : uwrap w (uwrap w a + b) = uwrap w (a + b).
Proof. unfold uwrap. apply Zplus_mod_idemp_l. Qed.

Lemma uwrap_add_r w a b : uwrap w (a + uwrap w b) = uwrap w (a + b).
Proof. unfold uwrap. apply Zplus_mod_idemp_r. Qed.

Lemma uwrap_sub_l w a b : uwrap w (uwrap w a - b) = uwrap w (a - b).
Proof. unfold uwrap. apply Zminus_mod_idemp_l. Qed.

Lemma uwrap_sub_r w a b : uwrap w (a - uwrap w b) = uwrap w (a - b).
Proof. unfold uwrap. apply Zminus_mod_idemp_r. Qed.

(** Narrowing twice is narrowing once. *)
Lemma uwrap_uwrap v w z : 0 <= v <= w -> uwrap v (uwrap w z) = uwrap v z.
Proof.
  intros Hvw. unfold uwrap.
  replace w with (v + (w - v)) by lia. rewrite Z.pow_add_r by lia.
  apply Z.mod_mod_divide. exists (2 ^ (w - v)). lia.
Qed.

Lemma sval_range w z : 0 < w -> - 2 ^ (w - 1) <= sval w z < 2 ^ (w - 1).
Proof.
  intros Hw. unfold sval.
  assert (2 ^ w = 2 * 2 ^ (w - 1)) as Hp.
  { rewrite <- Z.pow_succ_r by lia. f_equal. lia. }
  pose proof (Z.mod_pos_bound z (2 ^ w) ltac:(apply Z.pow_pos_nonneg; lia)).
  cbn zeta. zcases; lia.
Qed.

Lemma uwrap_sval w z : 0 < w -> uwrap w (sval w z) = uwrap w z.
Proof.
  intros Hw. unfold sval, uwrap. cbn zeta. zcases.
  - apply Zmod_mod.
  - rewrite <- (Zminus_mod_idemp_r _ (2 ^ w)), Z_mod_same_full, Z.sub_0_r.
    apply Zmod_mod.
Qed.

Lemma sval_uwrap w z : sval w (uwrap w z) = sval w z.
Proof. unfold sval, uwrap. by rewrite Zmod_mod. Qed.

Lemma sval_small w z : 0 <= z < 2 ^ (w - 1) -> 0 < w -> sval w z = z.
Proof.
  intros Hz Hw. unfold sval.
  assert (2 ^ w = 2 * 2 ^ (w - 1)) as Hp.
  { rewrite <- Z.pow_succ_r by lia. f_equal. lia. }
  rewrite Z.mod_small by lia. cbn zeta. zcases; lia.
Qed.

(** The signed reading of a word is the unique signed integer it encodes. *)
Lemma sval_unique w z v :
  0 < w -> - 2 ^ (w - 1) <= v < 2 ^ (w - 1) -> uwrap w z = uwrap w v -> sval w z = v.
Proof.
  intros Hw Hv Heq. rewrite <- sval_uwrap, Heq.
  assert (2 ^ w = 2 * 2 ^ (w - 1)) as Hp.
  { rewrite <- Z.pow_succ_r by lia. f_equal. lia. }
  unfold sval, uwrap. rewrite Zmod_mod. cbn zeta.
  destruct (Z.le_gt_cases 0 v).
  - rewrite Z.mod_small by lia. zcases; lia.
  - assert (v mod 2 ^ w = v + 2 ^ w) as ->.
    { rewrite <- (Z_mod_plus_full v 1 (2 ^ w)). rewrite Z.mod_small; lia. }
    zcases; lia.
Qed.

(** ** Bit fields *)

Lemma land_mask z n : 0 <= n -> Z.land z (2 ^ n - 1) = z mod 2 ^ n.
Proof. intros. rewrite <- Z.land_ones by lia. by rewrite Z.ones_equiv. Qed.

(** A field below bit [n] and one starting at bit [n] do not interact. *)
Lemma lor_shiftl_add a b n :
  0 <= n -> 0 <= a < 2 ^ n -> Z.lor a (Z.shiftl b n) = a + b * 2 ^ n.
Proof.
  intros Hn Ha. rewrite Z.shiftl_mul_pow2 by lia.
  assert (Z.land a (b * 2 ^ n) = 0) as Hd.
  { apply Z.bits_inj'. intros i Hi.
    rewrite Z.land_spec, Z.bits_0, <- Z.shiftl_mul_pow2, Z.shiftl_spec by lia.
    destruct (Z.lt_ge_cases i n) as [Hlt|Hge].
    - rewrite (Z.testbit_neg_r b) by lia. apply andb_false_r.
    - rewrite <- (Z.mod_small a (2 ^ n)) by lia.
      rewrite Z.mod_pow2_bits_high by lia. done. }
  rewrite <- Z.lxor_lor by done. symmetry. by apply Z.add_nocarry_lxor.
Qed.

(** Testing one bit through a mask. *)
Lemma nz_land_pow2 z n : 0 <= n -> nz (Z.land z (2 ^ n)) = Z.testbit z n.
Proof.
  intros Hn. unfold nz.
  assert (Z.land z (2 ^ n) = if Z.testbit z n then 2 ^ n else 0) as ->.
  { apply Z.bits_inj'. intros i Hi. rewrite Z.land_spec, Z.pow2_bits_eqb by lia.
    destruct (Z.eqb_spec n i) as [->|Hne].
    - destruct (Z.testbit z i) eqn:E; cbn.
      + by rewrite Z.pow2_bits_true by lia.
      + by rewrite Z.bits_0.
    - rewrite andb_false_r. destruct (Z.testbit z n); [|by rewrite Z.bits_0].
      by rewrite Z.pow2_bits_false by lia. }
  pose proof (Z.pow_pos_nonneg 2 n ltac:(lia) Hn).
  destruct (Z.testbit z n); zcases; (lia || done).
Qed.

Lemma land_range_l a b w : 0 <= a < 2 ^ w -> 0 <= b -> 0 <= Z.land a b < 2 ^ w.
Proof.
  intros Ha Hb. destruct (Z.lt_ge_cases w 0) as [?|Hw].
  { rewrite Z.pow_neg_r in Ha by lia. lia. }
  split; [apply Z.land_nonneg; lia|].
  apply Z.le_lt_trans with a; [|lia].
  pose proof (Z.add_nocarry_lxor (Z.land a b) (Z.ldiff a b)) as Hadd.
  assert (Z.land (Z.land a b) (Z.ldiff a b) = 0) as Hz.
  { apply Z.bits_inj'. intros i Hi. rewrite !Z.land_spec, Z.ldiff_spec, Z.bits_0.
    destruct (Z.testbit a i), (Z.testbit b i); done. }
  rewrite Z.lxor_lor in Hadd by done. specialize (Hadd Hz).
  assert (Z.lor (Z.land a b) (Z.ldiff a b) = a) as Hor.
  { apply Z.bits_inj'. intros i Hi. rewrite Z.lor_spec, !Z.land_spec, Z.ldiff_spec.
    destruct (Z.testbit a i), (Z.testbit b i); done. }
  assert (0 <= Z.ldiff a b) by (apply Z.ldiff_nonneg; lia). lia.
Qed.

(** A number is below [2^w] exactly when its bits vanish from [w] on. *)
Lemma bits_lt_pow2 z w :
  0 <= w -> 0 <= z -> (forall i, w <= i -> Z.testbit z i = false) -> z < 2 ^ w.
Proof.
  intros Hw Hz Hb. assert (z mod 2 ^ w = z) as <-.
  { apply Z.bits_inj'. intros i Hi. destruct (Z.lt_ge_cases i w).
    - by rewrite Z.mod_pow2_bits_low by lia.
    - rewrite Z.mod_pow2_bits_high by lia. symmetry. apply Hb. lia. }
  apply Z.mod_pos_bound, Z.pow_pos_nonneg; lia.
Qed.

Lemma testbit_high z w i : 0 <= z < 2 ^ w -> 0 <= w <= i -> Z.testbit z i = false.
Proof.
  intros Hz Hi. rewrite <- (Z.mod_small z (2 ^ w)) by lia.
  apply Z.mod_pow2_bits_high; lia.
Qed.

Lemma lor_range a b w :
  0 <= w -> 0 <= a < 2 ^ w -> 0 <= b < 2 ^ w -> 0 <= Z.lor a b < 2 ^ w.
Proof.
  intros Hw Ha Hb. split; [apply Z.lor_nonneg; lia|].
  apply bits_lt_pow2; [lia|apply Z.lor_nonneg; lia|]. intros i Hi.
  by rewrite Z.lor_spec, (testbit_high a w), (testbit_high b w) by lia.
Qed.

Lemma lxor_range a b w :
  0 <= w -> 0 <= a < 2 ^ w -> 0 <= b < 2 ^ w -> 0 <= Z.lxor a b < 2 ^ w.
Proof.
  intros Hw Ha Hb. split; [apply Z.lxor_nonneg; lia|].
  apply bits_lt_pow2; [lia|apply Z.lxor_nonneg; lia|]. intros i Hi.
  by rewrite Z.lxor_spec, (testbit_high a w), (testbit_high b w) by lia.
Qed.

Lemma ldiff_range a b w : 0 <= w -> 0 <= a < 2 ^ w -> 0 <= Z.ldiff a b < 2 ^ w.
Proof.
  intros Hw Ha. split; [apply Z.ldiff_nonneg; lia|].
  apply bits_lt_pow2; [lia|apply Z.ldiff_nonneg; lia|]. intros i Hi.
  by rewrite Z.ldiff_spec, (testbit_high a w) by lia.
Qed.

Lemma shiftr_range a n w : 0 <= n -> 0 <= a < 2 ^ w -> 0 <= Z.shiftr a n < 2 ^ w.
Proof.
  intros Hn Ha. rewrite Z.shiftr_div_pow2 by lia.
  assert (0 < 2 ^ n) by (apply Z.pow_pos_nonneg; lia).
  split; [apply Z.div_pos; lia|].
  apply Z.le_lt_trans with a; [|lia]. apply Z.div_le_upper_bound; nia.
Qed.
