(* ===== verification/Bytes.v ===== *)
(** * Bytes: little-endian fields of byte lists

    The layouts the program reads and writes as whole structures (struct statx,
    control messages, ELF headers) are lists of bytes; a field of [n] bytes at
    an offset is read with [field] and written with [put_field].  [slice] is
    what a read at an offset returns. *)

From S2P Require Import Prelude.
From Stdlib Require Import Lia.
From stdpp Require Import base numbers list.

Open Scope Z_scope.

Fixpoint le_bytes (n : nat) (z : Z) : list Z :=
  match n with O => [] | S n' => z mod 256 :: le_bytes n' (z / 256) end.

Definition le_value (l : list Z) : Z := foldr (fun b x => b + 256 * x) 0 l.

Definition byte_at (l : list Z) (i : Z) : Z := nth (Z.to_nat i) l 0.
Definition field (l : list Z) (i : Z) (n : nat) : Z := le_value (take n (drop (Z.to_nat i) l)).
Definition put_field (l : list Z) (i : Z) (n : nat) (x : Z) : list Z :=
  take (Z.to_nat i) l ++ le_bytes n x ++ drop (Z.to_nat i + n) l.

(** At most [n] bytes from offset [o]. *)
Definition slice (l : list Z) (o n : Z) : list Z :=
  let size := Z.of_nat (length l) in
  if size <=? o then [] else take (Z.to_nat (Z.min n size)) (drop (Z.to_nat o) l).

(** A C string in bytes, at most [n] of them. *)
Fixpoint c_bytes (n : nat) (l : list Z) : list Z :=
  match n, l with
  | Datatypes.S n', b :: r => if b =? 0 then [] else b :: c_bytes n' r
  | _, _ => []
  end.

Definition is_byte (b : Z) : Prop := 0 <= b < 256.

Lemma le_bytes_length (n : nat) (x : Z) : length (le_bytes n x) = n.
Proof. revert x. induction n as [|n IH]; intros x; [done|]. cbn. by rewrite IH. Qed.

Lemma le_bytes_is_byte (n : nat) (x : Z) : Forall is_byte (le_bytes n x).
Proof.
  revert x. induction n as [|n IH]; intros x; [by apply list.Forall_nil|]. cbn. apply list.Forall_cons. split; [|done].
  unfold is_byte. by apply Z.mod_pos_bound.
Qed.

Lemma le_value_bytes (n : nat) (x : Z) : le_value (le_bytes n x) = x mod 2 ^ (8 * Z.of_nat n).
Proof.
  revert x. induction n as [|n IH]; intros x; [by rewrite Z.mod_1_r|].
  cbn [le_bytes le_value foldr]. fold (le_value (le_bytes n (x / 256))). rewrite IH.
  replace (8 * Z.of_nat (S n)) with (8 + 8 * Z.of_nat n) by lia. rewrite Z.pow_add_r by lia. change (2 ^ 8) with 256.
  rewrite Z.rem_mul_r by lia. done.
Qed.

Lemma le_value_range (l : list Z) : Forall is_byte l -> 0 <= le_value l < 2 ^ (8 * Z.of_nat (length l)).
Proof.
  induction 1 as [|b l Hb Hl IH]; [done|]. cbn [le_value foldr length]. fold (le_value l).
  replace (8 * Z.of_nat (S (length l))) with (8 + 8 * Z.of_nat (length l)) by lia. rewrite Z.pow_add_r by lia.
  change (2 ^ 8) with 256. unfold is_byte in Hb. nia.
Qed.

Lemma field_app (pre mid post : list Z) (o : Z) (n : nat) :
  o = Z.of_nat (length pre) -> length mid = n -> field (pre ++ mid ++ post) o n = le_value mid.
Proof. intros -> <-. unfold field. rewrite Nat2Z.id, drop_app_length, take_app_length. done. Qed.

Lemma field_le (pre post : list Z) (o : Z) (n : nat) (x : Z) :
  o = Z.of_nat (length pre) -> field (pre ++ le_bytes n x ++ post) o n = x mod 2 ^ (8 * Z.of_nat n).
Proof. intros Ho. rewrite field_app by (done || apply le_bytes_length). apply le_value_bytes. Qed.

Lemma put_field_app (pre mid post : list Z) (o : Z) (n : nat) (x : Z) :
  o = Z.of_nat (length pre) -> length mid = n -> put_field (pre ++ mid ++ post) o n x = pre ++ le_bytes n x ++ post.
Proof.
  intros -> <-. unfold put_field. rewrite Nat2Z.id, take_app_length. do 2 f_equal. rewrite app_assoc. apply drop_app_length'.
  by rewrite length_app.
Qed.

Lemma field_range (l : list Z) (i : Z) (n : nat) : Forall is_byte l -> 0 <= field l i n < 2 ^ (8 * Z.of_nat n).
Proof.
  intros Hl. unfold field. pose proof (le_value_range (take n (drop (Z.to_nat i) l))) as H.
  rewrite length_take in H. specialize (H ltac:(by apply Forall_take, Forall_drop)).
  assert (2 ^ (8 * Z.of_nat (n `min` length (drop (Z.to_nat i) l))) <= 2 ^ (8 * Z.of_nat n)) by (apply Z.pow_le_mono_r; lia). lia.
Qed.

Lemma slice_length (l : list Z) (o n : Z) : Z.of_nat (length (slice l o n)) <= Z.max 0 n.
Proof. unfold slice. destruct (_ <=? _); cbn; [lia|]. rewrite length_take. lia. Qed.

Lemma slice_lookup (l : list Z) (o n : Z) (i : nat) :
  0 <= o -> Z.of_nat i < n -> slice l o n !! i = l !! (Z.to_nat o + i)%nat.
Proof.
  intros Ho Hi. unfold slice. destruct (Z.leb_spec (Z.of_nat (length l)) o) as [H|H].
  - symmetry. apply lookup_ge_None. lia.
  - destruct (decide (Z.of_nat i < Z.of_nat (length l))) as [Hl|Hl].
    + rewrite lookup_take_lt by lia. apply lookup_drop.
    + rewrite (proj2 (lookup_ge_None l _)) by lia. apply lookup_ge_None. rewrite length_take, length_drop. lia.
Qed.

Lemma slice_is_byte (l : list Z) (o n : Z) : Forall is_byte l -> Forall is_byte (slice l o n).
Proof. intros H. unfold slice. destruct (_ <=? _); [by apply list.Forall_nil|]. by apply Forall_take, Forall_drop. Qed.

Lemma c_bytes_all (n : nat) (l post : list Z) :
  Forall (fun b => b <> 0) l -> (length l < n)%nat -> c_bytes n (l ++ 0 :: post) = l.
Proof.
  intros Hl. revert n. induction Hl as [|b l Hb Hl IH]; intros [|n] Hn; cbn in *; try lia; [done|].
  destruct (Z.eqb_spec b 0); [done|]. rewrite IH by lia. done.
Qed.

Lemma c_bytes_length (n : nat) (l : list Z) : (length (c_bytes n l) <= n)%nat.
Proof. revert l. induction n as [|n IH]; intros [|b l]; cbn; try lia. destruct (b =? 0); cbn; [lia|]. specialize (IH l). lia. Qed.
