(* ===== verification/HostMem.v ===== *)
(** * HostMem: the host memory the virtual machine runs in

    The guest sees addresses; the host backs them with [mmap]ed blocks.  A host
    pointer is a block and an offset.  The model keeps, for every block, its
    bytes and its page protection, the control blocks of the
    [std::shared_ptr<unsigned char>]s that implement copy-on-write sharing
    ([memmap::cow_data]) with their use counts and deleters, and the list of
    [munmap] calls the deleters made.

    The kernel's decisions (does [mmap] succeed, does [mprotect] succeed) are
    the class [HostEnv]: every definition and theorem holds for all of them. *)

From S2P Require Import Prelude.
From Stdlib Require Import Lia.
From stdpp Require Import base numbers list gmap strings option.

Open Scope Z_scope.

(** ** Little-endian access to a byte array *)

Fixpoint load_le (f : Z -> Z) (o : Z) (n : nat) : Z :=
  match n with
  | O => 0
  | S k => f o + 256 * load_le f (o + 1) k
  end.

Definition store_le (f : Z -> Z) (o : Z) (n : nat) (v : Z) : Z -> Z := fun j =>
  if (o <=? j) && (j <? o + Z.of_nat n) then (v / 2 ^ (8 * (j - o))) mod 256 else f j.

(** ** Host state *)

Abbreviation hptr := (Z * Z)%type.

Definition padd (p : hptr) (d : Z) : hptr := (p.1, p.2 + d).

(** [PROT_*] of [sys/mman.h]. *)
Definition PROT_NONE : Z := 0.
Definition PROT_READ : Z := 1.
Definition PROT_WRITE : Z := 2.
Definition PROT_EXEC : Z := 4.

(** [DataDeleter]: [munmap]s on destruction when it owns the memory. *)
Record DataDeleter := mkDeleter { del_size : Z; del_owned : bool }.

(** The control block of a [std::shared_ptr<unsigned char>]. *)
Record shared_cb := mkcb { cb_ptr : hptr; cb_deleter : DataDeleter; cb_use : Z }.

Record host := mkhost {
  h_bytes : Z -> Z -> Z;
  h_prot : Z -> Z -> Z;
  h_next : Z;
  h_cbs : gmap Z shared_cb;
  h_cbnext : Z;
  h_unmapped : list (hptr * Z)
}.

(** Answers of the host kernel; [env_mmap_errno] is [errno] after a failed call. *)
Class HostEnv := {
  env_mmap_fails : host -> Z -> bool;
  env_mprotect_fails : host -> hptr -> Z -> Z -> bool;
  env_errno : host -> Z
}.

(** A kernel that grants every request. *)
Definition permissive_env : HostEnv :=
  {| env_mmap_fails := fun _ _ => false;
     env_mprotect_fails := fun _ _ _ _ => false;
     env_errno := fun _ => 12 |}.

Definition set_bytes (h : host) (f : Z -> Z -> Z) : host :=
  mkhost f (h_prot h) (h_next h) (h_cbs h) (h_cbnext h) (h_unmapped h).
Definition set_prot (h : host) (f : Z -> Z -> Z) : host :=
  mkhost (h_bytes h) f (h_next h) (h_cbs h) (h_cbnext h) (h_unmapped h).
Definition set_cbs (h : host) (c : gmap Z shared_cb) : host :=
  mkhost (h_bytes h) (h_prot h) (h_next h) c (h_cbnext h) (h_unmapped h).

(** Replace the contents of one block. *)
Definition upd_block (f : Z -> Z -> Z) (b : Z) (g : Z -> Z) : Z -> Z -> Z :=
  fun b' => if b' =? b then g else f b'.

Definition host_read (h : host) (p : hptr) (n : nat) : Z := load_le (h_bytes h p.1) p.2 n.

Definition host_write (h : host) (p : hptr) (n : nat) (v : Z) : host :=
  set_bytes h (upd_block (h_bytes h) p.1 (store_le (h_bytes h p.1) p.2 n v)).

(** [mmap(nullptr, size, prot, MAP_PRIVATE|MAP_ANONYMOUS, -1, 0)], successful:
    a block no pointer reaches yet, zero filled. *)
Definition host_mmap (h : host) (prot : Z) : hptr * host :=
  ((h_next h, 0),
   mkhost (upd_block (h_bytes h) (h_next h) (fun _ => 0))
          (upd_block (h_prot h) (h_next h) (fun _ => prot))
          (h_next h + 1) (h_cbs h) (h_cbnext h) (h_unmapped h)).

(** [mprotect(p, size, prot)], successful. *)
Definition host_mprotect (h : host) (p : hptr) (size prot : Z) : host :=
  set_prot h (upd_block (h_prot h) p.1 (fun j =>
    if (p.2 <=? j) && (j <? p.2 + size) then prot else h_prot h p.1 j)).

Definition host_memcpy (h : host) (dst src : hptr) (n : Z) : host :=
  set_bytes h (upd_block (h_bytes h) dst.1 (fun j =>
    if (dst.2 <=? j) && (j <? dst.2 + n)
    then h_bytes h src.1 (src.2 + (j - dst.2)) else h_bytes h dst.1 j)).

Definition host_munmap (h : host) (p : hptr) (size : Z) : host :=
  mkhost (h_bytes h) (h_prot h) (h_next h) (h_cbs h) (h_cbnext h)
         ((p, size) :: h_unmapped h).

(** [DataDeleter::operator()]. *)
Definition run_deleter (h : host) (d : DataDeleter) (p : hptr) : host :=
  if del_owned d then host_munmap h p (del_size d) else h.

(** [std::shared_ptr<unsigned char>(p, deleter)]: a fresh control block. *)
Definition shared_new (h : host) (p : hptr) (d : DataDeleter) : Z * host :=
  (h_cbnext h,
   mkhost (h_bytes h) (h_prot h) (h_next h)
          (<[h_cbnext h := mkcb p d 1]> (h_cbs h)) (h_cbnext h + 1) (h_unmapped h)).

(** Copy construction of a [shared_ptr]. *)
Definition shared_copy (h : host) (c : option Z) : host :=
  match c with
  | None => h
  | Some i => set_cbs h (alter (fun b => mkcb (cb_ptr b) (cb_deleter b) (cb_use b + 1)) i (h_cbs h))
  end.

(** [shared_ptr::reset] / destruction: the last owner runs the deleter. *)
Definition shared_reset (h : host) (c : option Z) : host :=
  match c with
  | None => h
  | Some i =>
    match h_cbs h !! i with
    | None => h
    | Some b =>
      if cb_use b =? 1
      then run_deleter (set_cbs h (delete i (h_cbs h))) (cb_deleter b) (cb_ptr b)
      else set_cbs h (<[i := mkcb (cb_ptr b) (cb_deleter b) (cb_use b - 1)]> (h_cbs h))
    end
  end.

(** [shared_ptr::use_count]. *)
Definition use_count (h : host) (c : option Z) : Z :=
  match c with
  | None => 0
  | Some i => match h_cbs h !! i with Some b => cb_use b | None => 0 end
  end.

(** [std::get_deleter<DataDeleter>(p)->owned = false]. *)
Definition disown_cb (h : host) (c : option Z) : host :=
  match c with
  | None => h
  | Some i => set_cbs h (alter (fun b =>
      mkcb (cb_ptr b) (mkDeleter (del_size (cb_deleter b)) false) (cb_use b)) i (h_cbs h))
  end.

(** ** Lemmas: bytes *)

Definition bytes_ok (h : host) : Prop := forall b o, 0 <= h_bytes h b o < 256.

Lemma load_le_ext (f g : Z -> Z) o n :
  (forall j, o <= j < o + Z.of_nat n -> f j = g j) -> load_le f o n = load_le g o n.
Proof.
  revert o. induction n as [|n IH]; intros o Hfg; [done|]. cbn.
  rewrite (Hfg o) by lia. rewrite (IH (o + 1)); [done|].
  intros j Hj. apply Hfg. lia.
Qed.

(** Reading through a window is reading the array it shows. *)
Lemma load_le_shift (f g : Z -> Z) o o' n :
  (forall j, 0 <= j < Z.of_nat n -> f (o + j) = g (o' + j)) -> load_le f o n = load_le g o' n.
Proof.
  revert o o'. induction n as [|n IH]; intros o o' Hfg; [done|]. cbn [load_le].
  assert (f o = g o') as -> by (specialize (Hfg 0 ltac:(lia)); by rewrite !Z.add_0_r in Hfg).
  rewrite (IH (o + 1) (o' + 1)); [done|].
  intros j Hj. specialize (Hfg (j + 1) ltac:(lia)).
  replace (o + 1 + j) with (o + (j + 1)) by lia. by replace (o' + 1 + j) with (o' + (j + 1)) by lia.
Qed.

Lemma load_le_range (f : Z -> Z) o n :
  (forall j, 0 <= f j < 256) -> 0 <= load_le f o n < 2 ^ (8 * Z.of_nat n).
Proof.
  intros Hf. revert o. induction n as [|n IH]; intros o; [done|].
  cbn [load_le]. specialize (IH (o + 1)). specialize (Hf o).
  replace (8 * Z.of_nat (S n)) with (8 + 8 * Z.of_nat n) by lia.
  rewrite Z.pow_add_r by lia. lia.
Qed.

(** The bytes of a loaded value are the bytes it was loaded from. *)
Lemma load_le_byte (f : Z -> Z) o n i :
  (forall j, 0 <= f j < 256) -> 0 <= i < Z.of_nat n -> (load_le f o n / 2 ^ (8 * i)) mod 256 = f (o + i).
Proof.
  intros Hf. revert o i. induction n as [|n IH]; intros o i Hi; [lia|]. cbn [load_le]. pose proof (Hf o).
  destruct (Z.eq_dec i 0) as [->|Hne].
  - rewrite Z.mul_0_r, Z.div_1_r, Z.mul_comm, Z_mod_plus_full, Z.mod_small, Z.add_0_r by lia. done.
  - replace (8 * i) with (8 + 8 * (i - 1)) by lia. rewrite Z.pow_add_r by lia. change (2 ^ 8) with 256.
    rewrite <- Z.div_div by (try apply Z.pow_pos_nonneg; lia).
    rewrite (Z.mul_comm 256), Z.div_add, (Z.div_small (f o)), Z.add_0_l, IH by lia. f_equal. lia.
Qed.

(** Reading [n] bytes written little-endian gives the value back, modulo its width. *)
Lemma load_le_split v n : forall (f : Z -> Z) o k,
  0 <= k ->
  (forall i, 0 <= i < Z.of_nat n -> f (o + i) = (v / 2 ^ (8 * (k + i))) mod 256) ->
  load_le f o n = (v / 2 ^ (8 * k)) mod 2 ^ (8 * Z.of_nat n).
Proof.
  induction n as [|n IH]; intros f o k Hk Hf.
  { cbn. by rewrite Z.mod_1_r. }
  cbn [load_le]. rewrite (IH _ (o + 1) (k + 1)); [|lia|].
  2:{ intros i Hi. rewrite <- Z.add_assoc, (Z.add_comm 1), Z.add_assoc, <- Z.add_assoc.
      rewrite (Hf (i + 1)) by lia. do 3 f_equal. lia. }
  specialize (Hf 0 ltac:(lia)). rewrite !Z.add_0_r in Hf. rewrite Hf.
  replace (8 * Z.of_nat (S n)) with (8 + 8 * Z.of_nat n) by lia.
  replace (8 * (k + 1)) with (8 * k + 8) by lia.
  rewrite !Z.pow_add_r by lia.
  rewrite (Z.rem_mul_r (v / 2 ^ (8 * k))) by (try apply Z.pow_nonzero; lia).
  rewrite Z.div_div by (try apply Z.pow_pos_nonneg; try apply Z.pow_nonzero; lia).
  done.
Qed.

Lemma load_store_same (f : Z -> Z) o n v :
  load_le (store_le f o n v) o n = v mod 2 ^ (8 * Z.of_nat n).
Proof.
  rewrite (load_le_split v n _ o 0); [by rewrite Z.div_1_r|lia|].
  intros i Hi. unfold store_le.
  destruct (Z.leb_spec o (o + i)), (Z.ltb_spec (o + i) (o + Z.of_nat n)); try lia.
  cbn. do 3 f_equal. lia.
Qed.

Lemma store_le_out (f : Z -> Z) o n v j :
  ~ (o <= j < o + Z.of_nat n) -> store_le f o n v j = f j.
Proof. intros H. unfold store_le. zcases; (lia || done). Qed.

Lemma store_le_byte (f : Z -> Z) o n v j :
  (forall j, 0 <= f j < 256) -> 0 <= store_le f o n v j < 256.
Proof.
  intros Hf. unfold store_le. destruct (_ && _); [|done].
  apply Z.mod_pos_bound. lia.
Qed.

Lemma load_store_disjoint (f : Z -> Z) o n v o' n' :
  o + Z.of_nat n <= o' \/ o' + Z.of_nat n' <= o ->
  load_le (store_le f o n v) o' n' = load_le f o' n'.
Proof. intros Hd. apply load_le_ext. intros j Hj. apply store_le_out. lia. Qed.

(** ** Lemmas: host accesses *)

Lemma upd_block_same f b g : upd_block f b g b = g.
Proof. unfold upd_block. by rewrite Z.eqb_refl. Qed.

Lemma upd_block_ne f b g b' : b' <> b -> upd_block f b g b' = f b'.
Proof. intros Hne. unfold upd_block. zcases; done. Qed.

Lemma host_read_write_same h p n v :
  host_read (host_write h p n v) p n = v mod 2 ^ (8 * Z.of_nat n).
Proof. unfold host_read, host_write. cbn. by rewrite upd_block_same, load_store_same. Qed.

(** Two accesses do not touch a common byte. *)
Definition hdisjoint (p : hptr) (n : Z) (q : hptr) (k : Z) : Prop :=
  p.1 <> q.1 \/ p.2 + n <= q.2 \/ q.2 + k <= p.2.

Lemma host_read_write_disjoint h p n v q k :
  hdisjoint p (Z.of_nat n) q (Z.of_nat k) ->
  host_read (host_write h p n v) q k = host_read h q k.
Proof.
  intros Hd. unfold host_read, host_write. cbn.
  destruct (Z.eq_dec q.1 p.1) as [E|Hne].
  - rewrite E, upd_block_same. apply load_store_disjoint. destruct Hd as [?|?]; [congruence|lia].
  - by rewrite upd_block_ne.
Qed.

Lemma host_write_byte_out h p n v b o :
  ~ (b = p.1 /\ p.2 <= o < p.2 + Z.of_nat n) ->
  h_bytes (host_write h p n v) b o = h_bytes h b o.
Proof.
  intros Hout. unfold host_write. cbn. destruct (Z.eq_dec b p.1) as [->|Hne].
  - rewrite upd_block_same, store_le_out; [done|]. naive_solver.
  - by rewrite upd_block_ne.
Qed.

Lemma bytes_ok_write h p n v : bytes_ok h -> bytes_ok (host_write h p n v).
Proof.
  intros Hb b o. unfold host_write. cbn. unfold upd_block. zcases; [|apply Hb].
  apply store_le_byte, Hb.
Qed.

Lemma bytes_ok_mmap h prot : bytes_ok h -> bytes_ok (host_mmap h prot).2.
Proof. intros Hb b o. cbn. unfold upd_block. zcases; [lia|apply Hb]. Qed.

Lemma bytes_ok_memcpy h d s n : bytes_ok h -> bytes_ok (host_memcpy h d s n).
Proof.
  intros Hb b o. cbn. unfold upd_block. destruct (_ =? _); [|apply Hb].
  destruct (_ && _); apply Hb.
Qed.

Lemma host_read_range h p n : bytes_ok h -> 0 <= host_read h p n < 2 ^ (8 * Z.of_nat n).
Proof. intros Hb. apply load_le_range, Hb. Qed.

(** The reference-count operations touch no byte and no fresh-block counter. *)
Lemma h_bytes_shared_reset h c : h_bytes (shared_reset h c) = h_bytes h.
Proof. destruct c as [i|]; cbn; [|done]. repeat case_match; try done.
  unfold run_deleter. by destruct (del_owned _). Qed.
Lemma h_next_shared_reset h c : h_next (shared_reset h c) = h_next h.
Proof. destruct c as [i|]; cbn; [|done]. repeat case_match; try done.
  unfold run_deleter. by destruct (del_owned _). Qed.
Lemma h_bytes_shared_copy h c : h_bytes (shared_copy h c) = h_bytes h.
Proof. by destruct c. Qed.
Lemma h_next_shared_copy h c : h_next (shared_copy h c) = h_next h.
Proof. by destruct c. Qed.
Lemma h_bytes_disown h c : h_bytes (disown_cb h c) = h_bytes h.
Proof. by destruct c. Qed.
Lemma h_next_disown h c : h_next (disown_cb h c) = h_next h.
Proof. by destruct c. Qed.

Create HintDb host.
#[export] Hint Resolve bytes_ok_write bytes_ok_mmap bytes_ok_memcpy host_read_range : host.
Create Rewrite HintDb host.
#[export] Hint Rewrite h_bytes_shared_reset h_next_shared_reset h_bytes_shared_copy
  h_next_shared_copy h_bytes_disown h_next_disown : host.
