(* ===== verification/AddrSpace.v ===== *)
(** * AddrSpace: guest address translation

    Models [memmap] (elf_loader.h), the software TLB ([TlbEntry], [tlb_index],
    insn.h) and the translation routines of insn.cpp: [addmem], [unmap],
    [flush_tlb], [find_map_locked], [mmu], [mmu_slow], [mmu_w], [mmu_w_slow].
    The state [mmem] is the part of [class vm] they touch (the [tlb] array and
    the [maps] vector) together with the host memory.

    Main results: translation through the TLB agrees with the segment table
    ([mmu_refines_translate]); resolving copy-on-write changes no guest byte
    ([mmu_w_transparent]) and leaves the written segment unshared, so a store
    is invisible to every other address space ([cow_isolation]). *)

From S2P Require Import Prelude HostMem.
From Stdlib Require Import Lia.
From stdpp Require Import base numbers list gmap strings option sorting.

Open Scope Z_scope.

(** ** Data *)

Definition PF_X : Z := 1.
Definition PF_W : Z := 2.
Definition PF_R : Z := 4.

(** [struct memmap]: [m_data]/[m_deleter] are the [unique_ptr] and its deleter. *)
Record memmap := mkmap {
  m_data : hptr;
  m_deleter : DataDeleter;
  m_size : Z;
  m_paddr : Z;
  m_flags : Z;
  m_cow : option Z;
  m_path : string
}.

(** [struct TlbEntry]; [t_host = None] is the null pointer of a zeroed entry. *)
Record TlbEntry := mktlb {
  t_base : Z;
  t_end : Z;
  t_host : option hptr;
  t_flags : Z;
  t_cow : bool
}.

Definition tlb_zero : TlbEntry := mktlb 0 0 None 0 false.

Definition TLB_SIZE : Z := 2048.

Definition tlb_index (addr : Z) : Z :=
  Z.land (Z.lxor (Z.shiftr addr 12) (Z.shiftr addr 20)) (TLB_SIZE - 1).

Record mmem := mkmmem {
  tlb : gmap Z TlbEntry;
  maps : list memmap;
  hst : host
}.

Definition set_host (m : mmem) (h : host) : mmem := mkmmem (tlb m) (maps m) h.

(** [memmap::set_data(p, sz, own)] on a segment whose old [data] is destroyed. *)
Definition set_data (m : memmap) (p : hptr) (sz : Z) (own : bool) : memmap :=
  mkmap p (mkDeleter sz own) (m_size m) (m_paddr m) (m_flags m) (m_cow m) (m_path m).

Definition set_cow (m : memmap) (c : option Z) : memmap :=
  mkmap (m_data m) (m_deleter m) (m_size m) (m_paddr m) (m_flags m) c (m_path m).

(** [map.data.get_deleter().owned = own]. *)
Definition set_owned (m : memmap) (own : bool) : memmap :=
  mkmap (m_data m) (mkDeleter (del_size (m_deleter m)) own)
        (m_size m) (m_paddr m) (m_flags m) (m_cow m) (m_path m).

(** The destructor of a [memmap]: members in reverse order of declaration. *)
Definition destroy_map (h : host) (m : memmap) : host :=
  run_deleter (shared_reset h (m_cow m)) (m_deleter m) (m_data m).

(** [memmap::static_map]. *)
Definition static_map (p : hptr) (size paddr : Z) (path : string) : memmap :=
  mkmap p (mkDeleter size false) size paddr PF_R None path.

(** ** Operations *)

Definition tlb_get (m : mmem) (i : Z) : TlbEntry := default tlb_zero (tlb m !! i).

Definition flush_tlb (m : mmem) : mmem := mkmmem ∅ (maps m) (hst m).

(** [vm::addmem]: insertion before the first segment whose address is not smaller. *)
Fixpoint insert_map (mp : memmap) (ms : list memmap) : list memmap :=
  match ms with
  | [] => [mp]
  | x :: r => if m_paddr x <? m_paddr mp then x :: insert_map mp r else mp :: x :: r
  end.

Definition addmem (m : mmem) (mp : memmap) : mmem :=
  flush_tlb (mkmmem (tlb m) (insert_map mp (maps m)) (hst m)).

(** [vm::unmap]: erase the first segment that starts at [addr]. *)
Fixpoint erase_map (addr : Z) (ms : list memmap) : option (memmap * list memmap) :=
  match ms with
  | [] => None
  | x :: r =>
    if addr =? m_paddr x then Some (x, r)
    else match erase_map addr r with
         | Some (y, r') => Some (y, x :: r')
         | None => None
         end
  end.

Definition unmap (m : mmem) (addr : Z) : bool * mmem :=
  match erase_map addr (maps m) with
  | Some (x, r) => (true, flush_tlb (mkmmem (tlb m) r (destroy_map (hst m) x)))
  | None => (false, m)
  end.

(** [std::upper_bound] by [paddr]: index of the first segment above [addr]. *)
Fixpoint upper_bound (addr : Z) (ms : list memmap) : nat :=
  match ms with
  | [] => O
  | x :: r => if addr <? m_paddr x then O else S (upper_bound addr r)
  end.

(** [vm::find_map_locked]: the index of the segment that contains
    [[addr, addr+size)], [None] for [maps->end()]. *)
Definition find_map_locked (ms : list memmap) (addr size : Z) : option nat :=
  let end_ := u64 (addr + size) in
  if end_ <? addr then None
  else match upper_bound addr ms with
       | O => None
       | S i =>
         match ms !! i with
         | Some it => if end_ <=? u64 (m_paddr it + m_size it) then Some i else None
         | None => None
         end
       end.

Definition tlb_entry_of (mp : memmap) : TlbEntry :=
  mktlb (m_paddr mp) (u64 (m_paddr mp + m_size mp)) (Some (m_data mp)) (m_flags mp)
        (bool_decide (is_Some (m_cow mp))).

Definition fill_tlb (m : mmem) (addr : Z) (mp : memmap) : mmem :=
  mkmmem (<[tlb_index addr := tlb_entry_of mp]> (tlb m)) (maps m) (hst m).

Definition host_of (mp : memmap) (addr : Z) : hptr := padd (m_data mp) (addr - m_paddr mp).

(** [vm::mmu_slow]. *)
Definition mmu_slow (m : mmem) (addr size : Z) : option hptr * mmem :=
  match find_map_locked (maps m) addr size with
  | None => (None, m)
  | Some i =>
    match maps m !! i with
    | None => (None, m)
    | Some mp => (Some (host_of mp addr), fill_tlb m addr mp)
    end
  end.

(** [vm::mmu]. *)
Definition mmu (m : mmem) (addr size : Z) : option hptr * mmem :=
  let end_ := u64 (addr + size) in
  if end_ <? addr then (None, m)
  else
    let entry := tlb_get m (tlb_index addr) in
    if (t_base entry <=? addr) && (end_ <=? t_end entry)
    then ((fun p => padd p (addr - t_base entry)) <$> t_host entry, m)
    else mmu_slow m addr size.

Section WithEnv.
Context {env : HostEnv}.

(** Guest permission bits as host [PROT_*] bits. *)
Definition prot_of_flags (fl : Z) : Z :=
  Z.lor (if nz (Z.land fl PF_R) then PROT_READ else PROT_NONE)
    (Z.lor (if nz (Z.land fl PF_W) then PROT_WRITE else 0)
           (if nz (Z.land fl PF_X) then PROT_EXEC else 0)).

(** The copy-on-write resolution of [vm::mmu_w_slow]: [None] when the host
    refuses; otherwise the private segment. *)
Definition resolve_cow (h : host) (mp : memmap) : option memmap * host :=
  if use_count h (m_cow mp) =? 1 then
    (* sole reference: take the pages over *)
    let h1 := disown_cb h (m_cow mp) in
    let h2 := shared_reset h1 (m_cow mp) in
    (Some (set_owned (set_cow mp None) true), h2)
  else
    let prot := Z.lor (Z.lor PROT_READ PROT_WRITE)
                      (if nz (Z.land (m_flags mp) PF_X) then PROT_EXEC else 0) in
    if env_mmap_fails h (m_size mp) then (None, h)
    else
      let '(p, h1) := host_mmap h prot in
      if env_mprotect_fails h1 (m_data mp) (m_size mp) PROT_READ
      then (None, host_munmap h1 p (m_size mp))
      else
        let h2 := host_mprotect h1 (m_data mp) (m_size mp) PROT_READ in
        let h3 := host_memcpy h2 p (m_data mp) (m_size mp) in
        let orig_prot := prot_of_flags (m_flags mp) in
        let h4 := if env_mprotect_fails h3 (m_data mp) (m_size mp) orig_prot then h3
                  else host_mprotect h3 (m_data mp) (m_size mp) orig_prot in
        let h5 := shared_reset h4 (m_cow mp) in
        let h6 := run_deleter h5 (m_deleter mp) (m_data mp) in
        (Some (set_data (set_cow mp None) p (m_size mp) true), h6).

(** [vm::mmu_w_slow]. *)
Definition mmu_w_slow (m : mmem) (addr size : Z) : option hptr * mmem :=
  match find_map_locked (maps m) addr size with
  | None => (None, m)
  | Some i =>
    match maps m !! i with
    | None => (None, m)
    | Some mp =>
      if negb (nz (Z.land (m_flags mp) PF_W)) then (None, m)
      else
        match m_cow mp with
        | None => (Some (host_of mp addr), fill_tlb m addr mp)
        | Some _ =>
          match resolve_cow (hst m) mp with
          | (None, h') => (None, set_host m h')
          | (Some mp', h') =>
            let m' := flush_tlb (mkmmem (tlb m) (<[i := mp']> (maps m)) h') in
            (Some (host_of mp' addr), fill_tlb m' addr mp')
          end
        end
    end
  end.

(** [vm::mmu_w]. *)
Definition mmu_w (m : mmem) (addr size : Z) : option hptr * mmem :=
  let end_ := u64 (addr + size) in
  if end_ <? addr then (None, m)
  else
    let entry := tlb_get m (tlb_index addr) in
    if (t_base entry <=? addr) && (end_ <=? t_end entry)
       && nz (Z.land (t_flags entry) PF_W) && negb (t_cow entry)
    then ((fun p => padd p (addr - t_base entry)) <$> t_host entry, m)
    else mmu_w_slow m addr size.

End WithEnv.

(** ** Specification *)

(** The segment [mp] contains the access. *)
Definition covers (mp : memmap) (addr size : Z) : Prop :=
  m_paddr mp <= addr /\ addr + size <= m_paddr mp + m_size mp.

Definition wf_map (mp : memmap) : Prop :=
  0 <= m_paddr mp /\ 0 < m_size mp /\ m_paddr mp + m_size mp < 2 ^ 64.

Definition below (a b : memmap) : Prop := m_paddr a + m_size a <= m_paddr b.

(** The segment table is sorted and its segments do not overlap. *)
Definition wf_maps (ms : list memmap) : Prop := Forall wf_map ms /\ StronglySorted below ms.

(** An access the code can be asked for: it does not wrap around. *)
Definition valid_access (addr size : Z) : Prop :=
  0 <= addr /\ 0 < size /\ addr + size < 2 ^ 64.

(** What translation promises: the host address of the segment that contains
    the access, and nothing else. *)
Definition translate (ms : list memmap) (addr size : Z) : option hptr :=
  match find_map_locked ms addr size with
  | Some i => (fun mp => host_of mp addr) <$> (ms !! i)
  | None => None
  end.

(** Every TLB entry describes a current segment. *)
Definition tlb_ok (m : mmem) : Prop :=
  forall i e, tlb m !! i = Some e -> exists mp, mp ∈ maps m /\ e = tlb_entry_of mp.

(** Blocks the segments use have been allocated. *)
Definition blocks_ok (h : host) (ms : list memmap) : Prop :=
  Forall (fun mp => (m_data mp).1 < h_next h) ms.

Record mem_wf (m : mmem) : Prop := {
  mwf_maps : wf_maps (maps m);
  mwf_tlb : tlb_ok m;
  mwf_blocks : blocks_ok (hst m) (maps m);
  mwf_bytes : bytes_ok (hst m)
}.

(** The byte the guest sees at [a]. *)
Definition gbyte (m : mmem) (a : Z) : option Z :=
  (fun p : hptr => h_bytes (hst m) p.1 p.2) <$> translate (maps m) a 1.

(** ** The segment table *)

Lemma upper_bound_spec ms addr :
  StronglySorted below ms -> Forall wf_map ms ->
  forall i mp, ms !! i = Some mp ->
    if decide (i < upper_bound addr ms)%nat then m_paddr mp <= addr else addr < m_paddr mp.
Proof.
  induction ms as [|x r IH]; intros Hs Hw i mp Hi; [done|].
  apply StronglySorted_inv in Hs as [Hs Hall]. apply Forall_cons in Hw as [Hx Hw].
  cbn [upper_bound]. destruct (Z.ltb_spec addr (m_paddr x)) as [Hlt|Hge].
  - destruct i as [|i]; cbn in Hi.
    + injection Hi as ->. by destruct (decide _); [lia|].
    + rewrite decide_False by lia.
      apply list_elem_of_lookup_2 in Hi. rewrite Forall_forall in Hall.
      specialize (Hall mp Hi). unfold below, wf_map in *. lia.
  - destruct i as [|i]; cbn in Hi.
    + injection Hi as ->. rewrite decide_True by lia. lia.
    + specialize (IH Hs Hw i mp Hi). repeat case_decide; (lia || done).
Qed.

Lemma upper_bound_le ms addr : (upper_bound addr ms <= length ms)%nat.
Proof. induction ms as [|x r IH]; cbn; [lia|]. zcases; lia. Qed.

(** Two segments of a well-formed table that meet are the same one. *)
Lemma below_lookup ms i j a b :
  StronglySorted below ms -> ms !! i = Some a -> ms !! j = Some b -> (i < j)%nat -> below a b.
Proof.
  revert i j. induction ms as [|x r IH]; intros i j Hs Hi Hj Hij; [done|].
  apply StronglySorted_inv in Hs as [Hs Hall].
  destruct j as [|j]; [lia|]. cbn in Hj. destruct i as [|i]; cbn in Hi.
  - injection Hi as ->. rewrite Forall_forall in Hall. eapply Hall, list_elem_of_lookup_2, Hj.
  - apply (IH i j); (done || lia).
Qed.

Lemma covers_unique ms i j a b addr size :
  StronglySorted below ms -> 0 < size ->
  ms !! i = Some a -> ms !! j = Some b -> covers a addr size -> covers b addr size -> i = j.
Proof.
  intros Hs Hsz Hi Hj Ha Hb. destruct (lt_eq_lt_dec i j) as [[H|H]|H]; [|done|].
  - pose proof (below_lookup _ _ _ _ _ Hs Hi Hj H). unfold below, covers in *. lia.
  - pose proof (below_lookup _ _ _ _ _ Hs Hj Hi H). unfold below, covers in *. lia.
Qed.

Lemma wf_map_lookup ms i mp : wf_maps ms -> ms !! i = Some mp -> wf_map mp.
Proof. intros [Hw _] Hi. by eapply Forall_lookup_1. Qed.

(** [find_map_locked] finds exactly the segment that contains the access. *)
Lemma find_map_spec ms addr size i :
  wf_maps ms -> valid_access addr size ->
  find_map_locked ms addr size = Some i <->
  exists mp, ms !! i = Some mp /\ covers mp addr size.
Proof.
  intros Hwf (Ha & Hsz & Hend). destruct Hwf as [Hw Hs] eqn:E; clear E.
  unfold find_map_locked. rewrite (uwrap_small 64) by lia.
  destruct (Z.ltb_spec (addr + size) addr); [lia|].
  split.
  - destruct (upper_bound addr ms) as [|k] eqn:Hub; [done|].
    destruct (ms !! k) as [mp|] eqn:Hk; [|done].
    destruct (Z.leb_spec (addr + size) (u64 (m_paddr mp + m_size mp))); [|done].
    intros [= ->]. exists mp. split; [done|].
    pose proof (upper_bound_spec ms addr Hs Hw i mp Hk) as Hp. rewrite Hub in Hp.
    rewrite decide_True in Hp by lia.
    pose proof (wf_map_lookup _ _ _ (conj Hw Hs) Hk) as (? & ? & ?).
    rewrite uwrap_small in * by lia. unfold covers. lia.
  - intros (mp & Hi & Hc).
    pose proof (wf_map_lookup _ _ _ (conj Hw Hs) Hi) as (? & ? & ?).
    assert (upper_bound addr ms = S i) as ->.
    { pose proof (upper_bound_spec ms addr Hs Hw i mp Hi) as Hp. unfold covers in Hc.
      case_decide as Hd; [|lia].
      destruct (decide (upper_bound addr ms = S i)) as [|Hne]; [done|].
      destruct (lookup_lt_is_Some_2 ms (S i)) as [b Hb].
      { pose proof (upper_bound_le ms addr). lia. }
      pose proof (upper_bound_spec ms addr Hs Hw (S i) b Hb) as Hq.
      rewrite decide_True in Hq by lia.
      pose proof (below_lookup ms i (S i) mp b Hs Hi Hb ltac:(lia)).
      unfold below in *. lia. }
    rewrite Hi, uwrap_small by lia. unfold covers in Hc.
    destruct (Z.leb_spec (addr + size) (m_paddr mp + m_size mp)); [done|lia].
Qed.

Lemma translate_Some ms addr size p :
  wf_maps ms -> valid_access addr size ->
  translate ms addr size = Some p <->
  exists i mp, ms !! i = Some mp /\ covers mp addr size /\ p = host_of mp addr.
Proof.
  intros Hwf Hv. unfold translate. split.
  - destruct (find_map_locked ms addr size) as [i|] eqn:Hf; [|done].
    apply find_map_spec in Hf as (mp & Hi & Hc); [|done..]. rewrite Hi. intros [= <-]. eauto.
  - intros (i & mp & Hi & Hc & ->).
    assert (find_map_locked ms addr size = Some i) as ->.
    { apply find_map_spec; eauto. }
    by rewrite Hi.
Qed.

Lemma translate_covers ms i mp addr size :
  wf_maps ms -> valid_access addr size -> ms !! i = Some mp -> covers mp addr size ->
  translate ms addr size = Some (host_of mp addr).
Proof. intros. apply translate_Some; eauto. Qed.

(** Each byte of a translated access translates to the next host byte. *)
Lemma translate_byte ms addr size p j :
  wf_maps ms -> valid_access addr size -> translate ms addr size = Some p ->
  0 <= j < size -> translate ms (addr + j) 1 = Some (padd p j).
Proof.
  intros Hwf Hv Ht Hj. apply translate_Some in Ht as (i & mp & Hi & Hc & ->); [|done..].
  destruct Hv as (? & ? & ?).
  rewrite (translate_covers ms i mp); [|done| unfold valid_access; lia |done|unfold covers in *; lia].
  unfold host_of, padd. cbn. do 2 f_equal. lia.
Qed.

(** ** The TLB *)

Lemma tlb_get_ok m i :
  tlb_ok m -> tlb_get m i = tlb_zero \/ exists k mp, maps m !! k = Some mp /\ tlb_get m i = tlb_entry_of mp.
Proof.
  intros Hok. unfold tlb_get. destruct (tlb m !! i) as [e|] eqn:He; [|by left].
  right. destruct (Hok i e He) as (mp & Hin & ->).
  apply list_elem_of_lookup in Hin as [k Hk]. eauto.
Qed.

(** A TLB hit gives the segment table's answer. *)
Lemma tlb_hit_translate m addr size :
  mem_wf m -> valid_access addr size ->
  let e := tlb_get m (tlb_index addr) in
  t_base e <= addr -> addr + size <= t_end e ->
  exists k mp, maps m !! k = Some mp /\ e = tlb_entry_of mp /\ covers mp addr size.
Proof.
  intros [Hwf Hok _ _] (Ha & Hs & He) e Hb Hend.
  destruct (tlb_get_ok m (tlb_index addr) Hok) as [Hz|(k & mp & Hk & Heq)]; fold e in Hz || fold e in Heq.
  { rewrite Hz in *. cbn in *. lia. }
  exists k, mp. split; [done|]. split; [done|]. rewrite Heq in *.
  pose proof (wf_map_lookup _ _ _ Hwf Hk) as (? & ? & ?).
  cbn in *. rewrite uwrap_small in * by lia. unfold covers. lia.
Qed.

Lemma fill_tlb_ok m addr k mp :
  tlb_ok m -> maps m !! k = Some mp -> tlb_ok (fill_tlb m addr mp).
Proof.
  intros Hok Hk i e. cbn. rewrite lookup_insert. case_decide.
  - intros [= <-]. exists mp. split; [|done]. by eapply list_elem_of_lookup_2.
  - apply Hok.
Qed.

Lemma fill_tlb_wf m addr k mp : mem_wf m -> maps m !! k = Some mp -> mem_wf (fill_tlb m addr mp).
Proof. intros [????] Hk. constructor; try done. by eapply fill_tlb_ok. Qed.

Lemma flush_tlb_wf m : wf_maps (maps m) -> blocks_ok (hst m) (maps m) -> bytes_ok (hst m) ->
  mem_wf (flush_tlb m).
Proof. intros. by constructor. Qed.

Lemma mmu_slow_spec m addr size :
  mem_wf m -> valid_access addr size ->
  (mmu_slow m addr size).1 = translate (maps m) addr size /\
  mem_wf (mmu_slow m addr size).2 /\
  maps (mmu_slow m addr size).2 = maps m /\ hst (mmu_slow m addr size).2 = hst m.
Proof.
  intros Hwf Hv. unfold mmu_slow, translate.
  destruct (find_map_locked (maps m) addr size) as [i|]; [|done].
  destruct (maps m !! i) as [mp|] eqn:Hi; [|done]. cbn.
  split; [done|]. split; [|done]. by eapply fill_tlb_wf.
Qed.

(** [mmu]: the answer of the segment table, and only the TLB may change. *)
Lemma mmu_spec m addr size :
  mem_wf m -> valid_access addr size ->
  (mmu m addr size).1 = translate (maps m) addr size /\
  mem_wf (mmu m addr size).2 /\
  maps (mmu m addr size).2 = maps m /\ hst (mmu m addr size).2 = hst m.
Proof.
  intros Hwf Hv. pose proof Hv as (Ha & Hs & He). unfold mmu.
  rewrite (uwrap_small 64) by lia. destruct (Z.ltb_spec (addr + size) addr); [lia|].
  destruct (Z.leb_spec (t_base (tlb_get m (tlb_index addr))) addr);
    [|by apply mmu_slow_spec].
  destruct (Z.leb_spec (addr + size) (t_end (tlb_get m (tlb_index addr))));
    [|by apply mmu_slow_spec].
  cbn [andb fst snd].
  destruct (tlb_hit_translate m addr size Hwf Hv) as (k & mp & Hk & Heq & Hc); [done..|].
  rewrite Heq. split; [|done].
  cbn. symmetry. eapply translate_covers; [apply Hwf|done..].
Qed.

(** Wrapped or empty ranges never reach a segment. *)
Lemma mmu_overflow m addr size :
  0 <= addr < 2 ^ 64 -> 0 < size < 2 ^ 64 -> 2 ^ 64 <= addr + size -> mmu m addr size = (None, m).
Proof.
  intros Ha Hs Ho. unfold mmu.
  assert (u64 (addr + size) = addr + size - 2 ^ 64) as ->.
  { unfold uwrap. rewrite <- (Z_mod_plus_full _ (-1)). rewrite Z.mod_small; lia. }
  destruct (Z.ltb_spec (addr + size - 2 ^ 64) addr); [done|lia].
Qed.

(** [mmu] on any machine address and any positive size. *)
Lemma mmu_any m addr size :
  mem_wf m -> 0 <= addr < 2 ^ 64 -> 0 < size < 2 ^ 64 ->
  (mmu m addr size).1 = translate (maps m) addr size /\
  mem_wf (mmu m addr size).2 /\
  maps (mmu m addr size).2 = maps m /\ hst (mmu m addr size).2 = hst m.
Proof.
  intros Hwf Ha Hs. destruct (Z.lt_ge_cases (addr + size) (2 ^ 64)) as [Hlt|Hge].
  - apply mmu_spec; [done|]. unfold valid_access. lia.
  - rewrite mmu_overflow by done. split; [|done]. unfold translate, find_map_locked.
    assert (u64 (addr + size) = addr + size - 2 ^ 64) as ->.
    { unfold uwrap. rewrite <- (Z_mod_plus_full _ (-1)). rewrite Z.mod_small; lia. }
    destruct (Z.ltb_spec (addr + size - 2 ^ 64) addr); [done|lia].
Qed.

(** After a successful translation the TLB slot of the address describes the
    segment the access lies in. *)
Lemma mmu_tlb_entry m addr size p :
  mem_wf m -> valid_access addr size -> (mmu m addr size).1 = Some p ->
  exists i mp, maps m !! i = Some mp /\ covers mp addr size /\ p = host_of mp addr /\
    tlb_get (mmu m addr size).2 (tlb_index addr) = tlb_entry_of mp.
Proof.
  intros Hwf Hv Hp. pose proof Hv as (Ha & Hs & He). unfold mmu in *.
  rewrite (uwrap_small 64) in * by lia. destruct (Z.ltb_spec (addr + size) addr); [lia|].
  destruct (_ && _) eqn:Hhit.
  - zprops. destruct (tlb_hit_translate m addr size Hwf Hv) as (k & mp & Hk & Heq & Hc); [done..|].
    cbn [fst snd] in *. rewrite Heq in *. cbn in Hp. injection Hp as <-. by exists k, mp.
  - unfold mmu_slow in *. destruct (find_map_locked (maps m) addr size) as [k|] eqn:Hf; [|done].
    apply find_map_spec in Hf as (mp & Hk & Hc); [|apply Hwf|done]. rewrite Hk in *.
    cbn [fst snd] in *. injection Hp as <-. exists k, mp. repeat split; auto; try apply Hc.
    unfold tlb_get, fill_tlb. cbn. by rewrite lookup_insert_eq.
Qed.

(** A part of a translated access translates to the same place. *)
Lemma translate_sub ms addr size p o k :
  wf_maps ms -> valid_access addr size -> translate ms addr size = Some p ->
  0 <= o -> 0 < k -> o + k <= size -> translate ms (addr + o) k = Some (padd p o).
Proof.
  intros Hw Hv Hp Ho Hk Hle. apply translate_Some in Hp as (i & mp & Hi & Hc & ->); [|done..].
  rewrite (translate_covers ms i mp); [|done|unfold valid_access in *; lia|done|unfold covers in *; lia].
  unfold host_of, padd. cbn. do 2 f_equal. lia.
Qed.

(** ** Insertion and removal of segments *)

Lemma insert_map_elem mp ms x : x ∈ insert_map mp ms <-> x = mp \/ x ∈ ms.
Proof.
  induction ms as [|y r IH]; cbn.
  - rewrite elem_of_cons, elem_of_nil. tauto.
  - destruct (m_paddr y <? m_paddr mp); rewrite !elem_of_cons, ?IH; tauto.
Qed.

(** Inserting a segment that overlaps no other keeps the table well formed. *)
Lemma insert_map_wf mp ms :
  wf_maps ms -> wf_map mp -> Forall (fun x => below x mp \/ below mp x) ms ->
  wf_maps (insert_map mp ms).
Proof.
  intros [Hw Hs] Hmp Hd. split.
  { apply Forall_forall. intros x [->|Hx]%insert_map_elem; [done|].
    by eapply Forall_forall in Hw. }
  induction ms as [|y r IH]; cbn.
  { constructor; [constructor|constructor]. }
  apply Forall_cons in Hw as [Hy Hw]. apply Forall_cons in Hd as [Hyd Hd].
  apply StronglySorted_inv in Hs as [Hs Hall].
  destruct (Z.ltb_spec (m_paddr y) (m_paddr mp)) as [Hlt|Hge].
  - constructor; [by apply IH|]. apply Forall_forall.
    intros x [->|Hx]%insert_map_elem.
    + destruct Hyd as [|Hb]; [done|]. unfold below, wf_map in *. lia.
    + by eapply Forall_forall in Hall.
  - assert (below mp y) as Hby.
    { destruct Hyd as [Hb|]; [|done]. unfold below, wf_map in *. lia. }
    constructor; [by constructor|]. constructor; [done|].
    eapply Forall_impl; [exact Hall|]. intros x. unfold below, wf_map in *. lia.
Qed.

Lemma addmem_wf m mp :
  mem_wf m -> wf_map mp -> (m_data mp).1 < h_next (hst m) ->
  Forall (fun x => below x mp \/ below mp x) (maps m) -> mem_wf (addmem m mp).
Proof.
  intros [Hw _ Hb Hby] Hmp Hblk Hd. apply flush_tlb_wf; cbn.
  - by apply insert_map_wf.
  - apply Forall_forall. intros x [->|Hx]%insert_map_elem; [done|].
    by eapply Forall_forall in Hb.
  - done.
Qed.

Lemma erase_map_sublist addr ms x r :
  erase_map addr ms = Some (x, r) -> r `sublist_of` ms /\ m_paddr x = addr /\ ms ≡ₚ x :: r.
Proof.
  revert r. induction ms as [|y s IH]; intros r; cbn; [done|].
  destruct (Z.eqb_spec addr (m_paddr y)) as [->|Hne].
  - intros [= <- <-]. split; [|done]. by apply sublist_cons.
  - destruct (erase_map addr s) as [[z t]|] eqn:He; [|done]. intros [= -> <-].
    destruct (IH t eq_refl) as (Hsub & Hpa & Hperm). split; [by apply sublist_skip|].
    split; [done|]. rewrite Hperm. constructor.
Qed.

Lemma StronglySorted_sublist {A} (R : A -> A -> Prop) l k :
  l `sublist_of` k -> StronglySorted R k -> StronglySorted R l.
Proof.
  intros Hsub. induction Hsub as [|x l k Hsub IH|x l k Hsub IH]; [done|..];
    intros Hk; apply StronglySorted_inv in Hk as [Hs Hall]; [constructor|]; auto.
  apply Forall_forall. intros y Hy. rewrite Forall_forall in Hall.
  eauto using elem_of_sublist.
Qed.

Lemma Forall_sublist_of {A} (P : A -> Prop) l k : l `sublist_of` k -> Forall P k -> Forall P l.
Proof. rewrite !Forall_forall. eauto using elem_of_sublist. Qed.

Lemma unmap_wf m addr : mem_wf m -> mem_wf (unmap m addr).2.
Proof.
  intros [[Hw Hs] Ht Hb Hby]. unfold unmap.
  destruct (erase_map addr (maps m)) as [[x r]|] eqn:He; [|by constructor].
  apply erase_map_sublist in He as (Hsub & _ & _). cbn.
  assert (h_bytes (destroy_map (hst m) x) = h_bytes (hst m)) as Hbe.
  { unfold destroy_map, run_deleter. destruct (del_owned _); cbn; by autorewrite with host. }
  assert (h_next (destroy_map (hst m) x) = h_next (hst m)) as Hne.
  { unfold destroy_map, run_deleter. destruct (del_owned _); cbn; by autorewrite with host. }
  apply flush_tlb_wf; cbn.
  - split; [by eapply Forall_sublist_of|by eapply StronglySorted_sublist].
  - eapply Forall_sublist_of; [done|]. unfold blocks_ok. by rewrite Hne.
  - unfold bytes_ok. by rewrite Hbe.
Qed.

(** ** Copy-on-write *)

Definition same_range (a b : memmap) : Prop := m_paddr a = m_paddr b /\ m_size a = m_size b.

#[export] Instance same_range_refl : Reflexive same_range.
Proof. done. Qed.

Lemma upper_bound_ext addr ms ms' :
  Forall2 same_range ms ms' -> upper_bound addr ms = upper_bound addr ms'.
Proof. induction 1 as [|x y ms ms' [Hp _] _ IH]; cbn; [done|]. by rewrite Hp, IH. Qed.

(** Translation looks only at the ranges of the segments. *)
Lemma find_map_ext addr size ms ms' :
  Forall2 same_range ms ms' -> find_map_locked ms addr size = find_map_locked ms' addr size.
Proof.
  intros Hf. unfold find_map_locked. rewrite (upper_bound_ext addr ms ms') by done.
  destruct (_ <? _); [done|]. destruct (upper_bound addr ms') as [|i]; [done|].
  destruct (ms !! i) as [a|] eqn:Ha.
  - destruct (Forall2_lookup_l _ _ _ _ _ Hf Ha) as (b & Hb & Hp & Hs).
    by rewrite Hb, Hp, Hs.
  - apply lookup_ge_None in Ha. rewrite (Forall2_length _ _ _ Hf) in Ha.
    apply lookup_ge_None in Ha. by rewrite Ha.
Qed.

Lemma wf_maps_ext ms ms' : Forall2 same_range ms ms' -> wf_maps ms -> wf_maps ms'.
Proof.
  intros Hf [Hw Hs]. split.
  - clear Hs. induction Hf as [|x y ms ms' [Hp Hz] Hf IH]; [done|].
    apply Forall_cons in Hw as [Hx Hw]. constructor; [|by apply IH].
    unfold wf_map in *. lia.
  - clear Hw. induction Hf as [|x y ms ms' [Hp Hz] Hf IH]; [constructor|].
    apply StronglySorted_inv in Hs as [Hs Hall]. constructor; [by apply IH|].
    clear IH Hs. induction Hf as [|a b ms ms' [Hp' Hz'] Hf IH]; [done|].
    apply Forall_cons in Hall as [Hx Hall]. constructor; [|by apply IH].
    unfold below in *. lia.
Qed.

Lemma same_range_insert ms i mp mp' :
  ms !! i = Some mp -> same_range mp mp' -> Forall2 same_range ms (<[i := mp']> ms).
Proof.
  intros Hi Hr. apply Forall2_same_length_lookup. split; [by rewrite length_insert|].
  intros j a b Ha Hb. destruct (decide (i = j)) as [->|Hne].
  - rewrite list_lookup_insert_eq in Hb by (by eapply lookup_lt_Some).
    by simplify_eq.
  - rewrite list_lookup_insert_ne in Hb by done. by simplify_eq.
Qed.

Section Cow.
Context {env : HostEnv}.

Lemma run_deleter_bytes h d p : h_bytes (run_deleter h d p) = h_bytes h.
Proof. unfold run_deleter. by destruct (del_owned d). Qed.

Lemma run_deleter_next h d p : h_next (run_deleter h d p) = h_next h.
Proof. unfold run_deleter. by destruct (del_owned d). Qed.

(** What resolving copy-on-write does to memory: blocks that existed keep their
    bytes, and the segment's new block holds the segment's old bytes. *)
Record cow_resolved (h : host) (mp : memmap) (h' : host) (mp' : memmap) : Prop := {
  cr_paddr : m_paddr mp' = m_paddr mp;
  cr_size : m_size mp' = m_size mp;
  cr_flags : m_flags mp' = m_flags mp;
  cr_cow : m_cow mp' = None;
  cr_block : (m_data mp').1 < h_next h';
  cr_fresh : m_data mp' = m_data mp \/ (m_data mp').1 = h_next h;
  cr_bytes : forall j, 0 <= j < m_size mp ->
    h_bytes h' (m_data mp').1 ((m_data mp').2 + j) = h_bytes h (m_data mp).1 ((m_data mp).2 + j)
}.

(** A host step that keeps every byte of the blocks allocated before it. *)
Record host_extends (h h' : host) : Prop := {
  he_next : h_next h <= h_next h';
  he_bytes : forall b o, b < h_next h -> h_bytes h' b o = h_bytes h b o;
  he_ok : bytes_ok h -> bytes_ok h'
}.

#[export] Instance host_extends_preorder : PreOrder host_extends.
Proof.
  split.
  - intros h. split; (done || lia).
  - intros h1 h2 h3 [N1 B1 O1] [N2 B2 O2]. split; [lia| |auto].
    intros b o Hb. rewrite B2 by lia. auto.
Qed.

Lemma host_extends_same_bytes h h' :
  h_next h' = h_next h -> h_bytes h' = h_bytes h -> host_extends h h'.
Proof. intros Hn Hb. split; [lia|by rewrite Hb|]. unfold bytes_ok. by rewrite Hb. Qed.

Lemma host_mmap_extends h prot : host_extends h (host_mmap h prot).2.
Proof.
  split; cbn; [lia| |apply bytes_ok_mmap]. intros b o Hb. by rewrite upd_block_ne by lia.
Qed.

Lemma host_memcpy_extends h0 h d s n :
  host_extends h0 h -> h_next h0 <= d.1 -> host_extends h0 (host_memcpy h d s n).
Proof.
  intros [N B O] Hd. split; cbn; [done| |].
  - intros b o Hb. rewrite upd_block_ne by lia. auto.
  - intros Hok. apply bytes_ok_memcpy. auto.
Qed.

Lemma resolve_cow_extends h mp : host_extends h (resolve_cow h mp).2.
Proof.
  unfold resolve_cow. destruct (use_count h (m_cow mp) =? 1); cbn [fst snd].
  { apply host_extends_same_bytes; by autorewrite with host. }
  destruct (env_mmap_fails h (m_size mp)); [done|].
  destruct (host_mmap h _) as [p h1] eqn:Hm.
  assert (p = (h_next h, 0) /\ host_extends h h1) as [Hp He1].
  { unfold host_mmap in Hm. injection Hm as <- <-. split; [done|]. apply host_mmap_extends. }
  destruct (env_mprotect_fails h1 _ _ _); cbn [fst snd].
  { etransitivity; [exact He1|]. by apply host_extends_same_bytes. }
  set (h2 := host_mprotect h1 _ _ _). set (h3 := host_memcpy h2 _ _ _).
  assert (host_extends h h3) as He3.
  { apply host_memcpy_extends; [|subst p; cbn; lia].
    etransitivity; [exact He1|]. by apply host_extends_same_bytes. }
  etransitivity; [exact He3|]. apply host_extends_same_bytes.
  - rewrite run_deleter_next, h_next_shared_reset. by destruct (env_mprotect_fails _ _ _ _).
  - rewrite run_deleter_bytes, h_bytes_shared_reset. by destruct (env_mprotect_fails _ _ _ _).
Qed.

Lemma resolve_cow_spec h mp mp' h' :
  resolve_cow h mp = (Some mp', h') -> (m_data mp).1 < h_next h -> cow_resolved h mp h' mp'.
Proof.
  unfold resolve_cow. intros Hr Hblk. destruct (use_count h (m_cow mp) =? 1).
  { injection Hr as <- <-. split; cbn; autorewrite with host; auto. }
  destruct (env_mmap_fails h (m_size mp)); [done|].
  destruct (host_mmap h _) as [p h1] eqn:Hm. unfold host_mmap in Hm. injection Hm as <- <-.
  destruct (env_mprotect_fails _ _ _ _); [done|]. injection Hr as <- <-.
  split; cbn [m_paddr m_size m_flags m_cow m_data set_data set_cow fst snd]; auto.
  - rewrite run_deleter_next, h_next_shared_reset.
    destruct (env_mprotect_fails _ _ _ _); cbn; lia.
  - intros j Hj. rewrite run_deleter_bytes, h_bytes_shared_reset.
    destruct (env_mprotect_fails _ _ _ _); cbn -[Z.add Z.sub];
      rewrite upd_block_same, upd_block_ne by lia;
      (destruct (Z.leb_spec 0 (0 + j)), (Z.ltb_spec (0 + j) (0 + m_size mp)); try lia);
      cbn [andb]; f_equal; lia.
Qed.

End Cow.

(** ** Writable translation *)

Definition map_writable (mp : memmap) : bool := nz (Z.land (m_flags mp) PF_W).

(** The segment an access lands in, private and writable, with its host address. *)
Definition private_at (ms : list memmap) (addr size : Z) (p : hptr) : Prop :=
  exists i mp, ms !! i = Some mp /\ covers mp addr size /\
    map_writable mp = true /\ m_cow mp = None /\ p = host_of mp addr.

Lemma private_at_translate ms addr size p :
  wf_maps ms -> valid_access addr size -> private_at ms addr size p ->
  translate ms addr size = Some p.
Proof. intros Hw Hv (i & mp & Hi & Hc & _ & _ & ->). by eapply translate_covers. Qed.

(** A guest byte does not depend on blocks allocated later. *)
Lemma gbyte_extends m m' a :
  maps m' = maps m -> host_extends (hst m) (hst m') -> blocks_ok (hst m) (maps m) ->
  gbyte m' a = gbyte m a.
Proof.
  intros Hm [_ Hb _] Hblk. unfold gbyte, translate. rewrite Hm.
  destruct (find_map_locked (maps m) a 1) as [i|]; [|done].
  destruct (maps m !! i) as [mp|] eqn:Hi; [|done]. cbn. f_equal. apply Hb.
  by eapply Forall_lookup_1 in Hblk.
Qed.

Section MmuW.
Context {env : HostEnv}.

(** What a call of [mmu_w] promises. *)
Record mmu_w_result (m : mmem) (addr size : Z) (o : option hptr) (m' : mmem) : Prop := {
  mw_wf : mem_wf m';
  mw_ext : host_extends (hst m) (hst m');
  mw_range : Forall2 same_range (maps m) (maps m');
  mw_gbyte : forall a, 0 <= a < 2 ^ 64 -> gbyte m' a = gbyte m a;
  mw_some : forall p, o = Some p -> private_at (maps m') addr size p
}.

Lemma mmu_w_result_refl m addr size :
  mem_wf m -> mmu_w_result m addr size None m.
Proof. intros Hw. by split. Qed.

(** Replacing a shared segment by its private copy. *)
Lemma resolve_cow_mmem m i mp mp' h' :
  mem_wf m -> maps m !! i = Some mp -> cow_resolved (hst m) mp h' mp' ->
  host_extends (hst m) h' ->
  let m' := flush_tlb (mkmmem (tlb m) (<[i := mp']> (maps m)) h') in
  mem_wf m' /\ Forall2 same_range (maps m) (maps m') /\
  (forall a, 0 <= a < 2 ^ 64 -> gbyte m' a = gbyte m a).
Proof.
  intros [Hw Ht Hblk Hby] Hi Hr He m'. pose proof He as [Hn Hb Hok].
  assert (same_range mp mp') as Hsr by (by split; rewrite ?(cr_paddr _ _ _ _ Hr), ?(cr_size _ _ _ _ Hr)).
  assert (Forall2 same_range (maps m) (maps m')) as Hf2 by (by apply (same_range_insert _ _ mp)).
  split; [|split; [done|]].
  - apply flush_tlb_wf; cbn; [by eapply wf_maps_ext| |by apply Hok].
    apply Forall_insert; [|apply Hr].
    eapply Forall_impl; [exact Hblk|]. cbn. lia.
  - intros a Ha. unfold gbyte, translate. rewrite <- (find_map_ext a 1 _ _ Hf2).
    destruct (find_map_locked (maps m) a 1) as [k|] eqn:Hf; [|done]. cbn [maps m' flush_tlb].
    destruct (decide (k = i)) as [->|Hne].
    + rewrite list_lookup_insert_eq by (by eapply lookup_lt_Some). rewrite Hi. cbn.
      destruct (Z.eq_dec (a + 1) (2 ^ 64)) as [Hw1|Hw1].
      { unfold find_map_locked in Hf. rewrite Hw1 in Hf. unfold uwrap in Hf.
        rewrite Z_mod_same_full in Hf. destruct (Z.ltb_spec 0 a); [done|lia]. }
      apply find_map_spec in Hf as (mq & Hq & Hc); [|done|unfold valid_access; lia].
      simplify_eq. unfold covers in Hc. f_equal. unfold host_of. cbn.
      rewrite (cr_paddr _ _ _ _ Hr). apply (cr_bytes _ _ _ _ Hr). lia.
    + rewrite list_lookup_insert_ne by done.
      destruct (maps m !! k) as [mk|] eqn:Hk; [|done]. cbn. f_equal. apply Hb.
      by eapply Forall_lookup_1 in Hblk.
Qed.

Lemma mmu_w_slow_spec m addr size :
  mem_wf m -> valid_access addr size ->
  mmu_w_result m addr size (mmu_w_slow m addr size).1 (mmu_w_slow m addr size).2.
Proof.
  intros Hwf Hv. unfold mmu_w_slow.
  destruct (find_map_locked (maps m) addr size) as [i|] eqn:Hf; [|by apply mmu_w_result_refl].
  apply find_map_spec in Hf as (mp & Hi & Hc); [|apply Hwf|done]. rewrite Hi.
  destruct (nz (Z.land (m_flags mp) PF_W)) eqn:Hfl; cbn [negb]; [|by apply mmu_w_result_refl].
  destruct (m_cow mp) as [c|] eqn:Hcow; cbn [fst snd].
  2:{ pose proof (mmu_w_result_refl m addr size Hwf) as [_ _ ? _ _].
      split; cbn; try done; [by eapply fill_tlb_wf|].
      intros p [= <-]. by exists i, mp. }
  pose proof (resolve_cow_extends (hst m) mp) as He.
  assert ((m_data mp).1 < h_next (hst m)) as Hblk.
  { destruct Hwf as [_ _ Hb _]. by eapply Forall_lookup_1 in Hb. }
  destruct (resolve_cow (hst m) mp) as [[mp'|] h'] eqn:Hres; cbn [fst snd] in *.
  - apply resolve_cow_spec in Hres; [|done].
    destruct (resolve_cow_mmem m i mp mp' h' Hwf Hi Hres He) as (Hw' & Hf2 & Hg).
    assert (maps (flush_tlb (mkmmem (tlb m) (<[i := mp']> (maps m)) h')) !! i = Some mp') as Hi'.
    { cbn. rewrite list_lookup_insert_eq; [done|]. by eapply lookup_lt_Some. }
    split; try done.
    + by eapply fill_tlb_wf.
    + intros p [= <-]. exists i, mp'. split; [done|]. split.
      { unfold covers in *. by rewrite (cr_paddr _ _ _ _ Hres), (cr_size _ _ _ _ Hres). }
      split; [unfold map_writable; by rewrite (cr_flags _ _ _ _ Hres)|].
      split; [apply Hres|done].
  - pose proof (mmu_w_result_refl m addr size Hwf) as [_ _ ? _ _].
    destruct Hwf as [Hw Ht Hb Hok], He as [Hn Hbs Hbok]. split; try done.
    + constructor; cbn; auto. eapply Forall_impl; [exact Hb|]. cbn. lia.
    + intros a _. by apply gbyte_extends.
Qed.

(** [mmu_w] keeps the memory well formed, changes no guest byte, and a pointer
    it returns is that of a private writable segment. *)
Lemma mmu_w_spec m addr size :
  mem_wf m -> valid_access addr size ->
  mmu_w_result m addr size (mmu_w m addr size).1 (mmu_w m addr size).2.
Proof.
  intros Hwf Hv. pose proof Hv as (Ha & Hs & He). unfold mmu_w.
  rewrite (uwrap_small 64) by lia. destruct (Z.ltb_spec (addr + size) addr); [lia|].
  destruct (_ && _) eqn:Hhit; [|by apply mmu_w_slow_spec]. zprops.
  destruct (tlb_hit_translate m addr size Hwf Hv) as (k & mp & Hk & Heq & Hc); [done..|].
  pose proof (mmu_w_result_refl m addr size Hwf) as [? ? ? ? _]. split; try done.
  cbn [fst snd]. intros p Hp. rewrite Heq in *. cbn in *. injection Hp as <-.
  exists k, mp. repeat split; try done; try apply Hc.
  match goal with H : bool_decide _ = false |- _ => apply bool_decide_eq_false in H end.
  destruct (m_cow mp) eqn:Hcw; [|done]. exfalso. eauto.
Qed.

(** A pointer into a private segment stays valid: resolving copy-on-write only
    replaces shared segments. *)
Lemma mmu_w_private m addr size a n p :
  private_at (maps m) a n p -> private_at (maps (mmu_w m addr size).2) a n p.
Proof.
  intros (i & mp & Hi & Hc & Hw & Hcow & Hp). unfold mmu_w.
  destruct (_ <? _); [by exists i, mp|]. destruct (_ && _); [by exists i, mp|].
  unfold mmu_w_slow. destruct (find_map_locked (maps m) addr size) as [k|]; [|by exists i, mp].
  destruct (maps m !! k) as [mk|] eqn:Hk; [|by exists i, mp].
  destruct (negb _); [by exists i, mp|]. destruct (m_cow mk) as [c|] eqn:Hmk; [|by exists i, mp].
  destruct (resolve_cow (hst m) mk) as [[mk'|] h']; cbn; [|by exists i, mp].
  exists i, mp. rewrite list_lookup_insert_ne; [done|]. intros ->. congruence.
Qed.

(** With a host that grants requests, [mmu_w] succeeds exactly on the accesses
    that lie in one writable segment. *)
Definition env_grants : Prop :=
  (forall h s, env_mmap_fails h s = false) /\ (forall h p s r, env_mprotect_fails h p s r = false).

Lemma mmu_w_complete m addr size i mp :
  mem_wf m -> valid_access addr size -> env_grants ->
  maps m !! i = Some mp -> covers mp addr size -> map_writable mp = true ->
  exists p, (mmu_w m addr size).1 = Some p.
Proof.
  intros Hwf Hv [Hg1 Hg2] Hi Hc Hw. pose proof Hv as (Ha & Hs & He). unfold mmu_w.
  rewrite (uwrap_small 64) by lia. destruct (Z.ltb_spec (addr + size) addr); [lia|].
  destruct (_ && _) eqn:Hhit.
  - zprops.
    destruct (tlb_hit_translate m addr size Hwf Hv) as (k & mp' & Hk & Heq & Hc'); [done..|].
    rewrite Heq. cbn. eauto.
  - unfold mmu_w_slow.
    assert (find_map_locked (maps m) addr size = Some i) as ->.
    { apply find_map_spec; eauto. apply Hwf. }
    rewrite Hi. unfold map_writable in Hw. rewrite Hw. cbn [negb].
    destruct (m_cow mp) as [c|] eqn:Hcow; [|cbn; eauto].
    unfold resolve_cow. destruct (use_count _ _ =? 1); cbn; [eauto|].
    rewrite Hg1, Hg2. cbn. eauto.
Qed.

End MmuW.

(** ** Sharing between address spaces

    [all] lists the segments of every address space on the host.  Two segments
    may use the same host bytes only as copies of one [cow_data], whose use
    count is the number of segments that hold it. *)

Fixpoint refs (c : Z) (all : list memmap) : Z :=
  match all with
  | [] => 0
  | x :: r => (if decide (m_cow x = Some c) then 1 else 0) + refs c r
  end.

Definition hrange_disjoint (a b : memmap) : Prop :=
  hdisjoint (m_data a) (m_size a) (m_data b) (m_size b).

(** A segment's [unique_ptr] covers the segment; the ones with a [cow_data] do
    not own it. *)
Definition map_own (mp : memmap) : Prop :=
  del_size (m_deleter mp) = m_size mp /\ (del_owned (m_deleter mp) = true -> m_cow mp = None).

Definition apart_from (p : hptr) (n : Z) (mp : memmap) : Prop :=
  hdisjoint p n (m_data mp) (m_size mp).

(** A control block: what its deleter would unmap belongs to its holders only. *)
Definition cb_ok (h : host) (all : list memmap) (c : Z) (b : shared_cb) : Prop :=
  c < h_cbnext h /\ (cb_ptr b).1 < h_next h /\
  (del_owned (cb_deleter b) = true ->
   Forall (fun mp => m_cow mp <> Some c -> apart_from (cb_ptr b) (del_size (cb_deleter b)) mp) all).

(** A region that was unmapped: no segment uses it. *)
Definition gone_ok (h : host) (all : list memmap) (u : hptr * Z) : Prop :=
  u.1.1 < h_next h /\ Forall (apart_from u.1 u.2) all.

Record share_ok (h : host) (all : list memmap) : Prop := {
  sh_disj : forall i j a b, all !! i = Some a -> all !! j = Some b -> i <> j ->
    hrange_disjoint a b \/ exists c, m_cow a = Some c /\ m_cow b = Some c;
  sh_use : forall i c mp, all !! i = Some mp -> m_cow mp = Some c ->
    use_count h (Some c) = refs c all;
  sh_blocks : blocks_ok h all;
  sh_own : Forall map_own all;
  sh_cbs : forall c b, h_cbs h !! c = Some b -> cb_ok h all c b;
  sh_live : Forall (gone_ok h all) (h_unmapped h)
}.

Lemma refs_nonneg c l : 0 <= refs c l.
Proof. induction l as [|x r IH]; cbn; [lia|]. case_decide; lia. Qed.

Lemma refs_one i mp c l : l !! i = Some mp -> m_cow mp = Some c -> 1 <= refs c l.
Proof.
  revert i. induction l as [|x r IH]; intros i Hi Hc; [done|]. cbn.
  pose proof (refs_nonneg c r). destruct i as [|i]; cbn in Hi.
  - simplify_eq. rewrite decide_True by done. lia.
  - specialize (IH i Hi Hc). case_decide; lia.
Qed.

Lemma refs_two i j a b c l :
  l !! i = Some a -> l !! j = Some b -> i <> j -> m_cow a = Some c -> m_cow b = Some c ->
  2 <= refs c l.
Proof.
  revert i j. induction l as [|x r IH]; intros i j Hi Hj Hne Ha Hb; [done|]. cbn.
  destruct i as [|i], j as [|j]; cbn in Hi, Hj; simplify_eq; try done.
  - pose proof (refs_one j b c r Hj Hb). rewrite decide_True by done. lia.
  - pose proof (refs_one i a c r Hi Ha). rewrite decide_True by done. lia.
  - specialize (IH i j Hi Hj ltac:(lia) Ha Hb). case_decide; lia.
Qed.

Lemma refs_insert i mp mp' c l :
  l !! i = Some mp ->
  refs c (<[i := mp']> l) =
  refs c l - (if decide (m_cow mp = Some c) then 1 else 0)
           + (if decide (m_cow mp' = Some c) then 1 else 0).
Proof.
  revert i. induction l as [|x r IH]; intros i Hi; [done|].
  destruct i as [|i]; cbn in Hi.
  - simplify_eq. change (<[0%nat := mp']> (mp :: r)) with (mp' :: r).
    cbn [refs]. repeat case_decide; lia.
  - change (<[S i := mp']> (x :: r)) with (x :: <[i := mp']> r).
    cbn [refs]. rewrite (IH i Hi). repeat case_decide; lia.
Qed.

(** A private segment shares no host byte with any other. *)
Lemma share_ok_private h all i j a b :
  share_ok h all -> all !! i = Some a -> all !! j = Some b -> i <> j ->
  m_cow a = None -> hrange_disjoint a b.
Proof.
  intros Hs Hi Hj Hne Hc. destruct (sh_disj _ _ Hs i j a b Hi Hj Hne) as [|(c & Ha & _)]; congruence.
Qed.

Lemma hrange_disjoint_sym a b : hrange_disjoint a b -> hrange_disjoint b a.
Proof. unfold hrange_disjoint, hdisjoint. intuition. Qed.

(** The control blocks of [h'] are those of [h], with other counts, some gone. *)
Definition cbs_within (h h' : host) : Prop :=
  forall c b', h_cbs h' !! c = Some b' ->
    exists b, h_cbs h !! c = Some b /\ cb_ptr b' = cb_ptr b /\ cb_deleter b' = cb_deleter b.

(** [mp'] uses the bytes of [mp], which gave up its [cow_data], or a new block. *)
Definition takes_place (h h' : host) (mp mp' : memmap) (c : Z) : Prop :=
  m_size mp' = m_size mp /\
  ((m_data mp' = m_data mp /\ h_cbs h' !! c = None) \/ h_next h <= (m_data mp').1).

Lemma apart_fresh p n mp b : p.1 < b -> b <= (m_data mp).1 -> apart_from p n mp.
Proof. intros ??. left. lia. Qed.

Lemma lookup_insert_cases {A} (l : list A) i x k y :
  (i < length l)%nat -> <[i := x]> l !! k = Some y ->
  (k = i /\ y = x) \/ (k <> i /\ l !! k = Some y).
Proof.
  intros Hi. destruct (decide (k = i)) as [->|Hne].
  - rewrite list_lookup_insert_eq by done. intros [= <-]. auto.
  - rewrite list_lookup_insert_ne by done. auto.
Qed.

(** Replacing segment [i] by a private one that meets no other segment, in a
    host where the other use counts are unchanged. *)
Lemma share_ok_replace h h' all i mp mp' c :
  share_ok h all -> all !! i = Some mp -> m_cow mp = Some c -> m_cow mp' = None ->
  h_next h <= h_next h' -> (m_data mp').1 < h_next h' ->
  (forall j b, all !! j = Some b -> j <> i -> hrange_disjoint mp' b) ->
  (forall c', c' <> c -> use_count h' (Some c') = use_count h (Some c')) ->
  (2 <= refs c all -> use_count h' (Some c) = refs c all - 1) ->
  map_own mp' -> takes_place h h' mp mp' c -> cbs_within h h' ->
  h_cbnext h' = h_cbnext h -> h_unmapped h' = h_unmapped h ->
  share_ok h' (<[i := mp']> all).
Proof.
  intros [Hd Hu Hb Hown Hcbs Hlive] Hi Hc Hc' Hn Hblk Hdis Huse Husec Ho Ht Hin Hcn Hun.
  pose proof (fun k x => lookup_insert_cases all i mp' k x (lookup_lt_Some _ _ _ Hi)) as Hlk.
  assert (Hb' := Hb). unfold blocks_ok in Hb'. rewrite list.Forall_forall in Hb'.
  split.
  - intros k l a b [[-> ->]|[Hki Hk]]%Hlk [[-> ->]|[Hli Hl]]%Hlk Hkl; try done; eauto.
    left. apply hrange_disjoint_sym. eauto.
  - intros k c' x [[-> ->]|[Hki Hk]]%Hlk Hx; [congruence|].
    rewrite (refs_insert i mp mp' c' all Hi), Hc'.
    rewrite (decide_False (P := None = Some c')) by done.
    destruct (decide (c' = c)) as [->|Hne].
    + rewrite decide_True by done. rewrite Husec; [lia|]. apply (refs_two i k mp x c all); auto.
    + rewrite decide_False by congruence. rewrite Huse by done. rewrite (Hu _ _ _ Hk Hx). lia.
  - apply Forall_insert; [|done]. eapply Forall_impl; [exact Hb|]. cbn. lia.
  - by apply Forall_insert.
  - intros c' b' Hcb. destruct (Hin c' b' Hcb) as (b & Hb0 & Hp & Hdel).
    destruct (Hcbs c' b Hb0) as (? & ? & Hap). rewrite <- Hp in *. split; [lia|]. split; [lia|].
    rewrite Hdel. intros Hod. apply Forall_insert; [by apply Hap|]. intros _.
    destruct Ht as [Hs [[Hsame Hgone]|Hfresh]]; [|by eapply apart_fresh].
    unfold apart_from. rewrite Hsame, Hs. specialize (Hap Hod).
    eapply Forall_lookup_1 in Hap; [|exact Hi]. apply Hap. rewrite Hc. congruence.
  - rewrite Hun. eapply Forall_impl; [exact Hlive|]. intros u [Hu1 Hu2]. split; [lia|].
    apply Forall_insert; [done|].
    destruct Ht as [Hs [[Hsame _]|Hfresh]]; [|by eapply apart_fresh].
    unfold apart_from. rewrite Hsame, Hs. by eapply Forall_lookup_1 in Hu2.
Qed.

Lemma use_count_cbs h h' c : h_cbs h' = h_cbs h -> use_count h' c = use_count h c.
Proof. intros E. destruct c; cbn; by rewrite ?E. Qed.

Lemma use_count_run_deleter h d p c : use_count (run_deleter h d p) c = use_count h c.
Proof. apply use_count_cbs. unfold run_deleter. by destruct (del_owned d). Qed.

Lemma use_count_reset_ne h c c' :
  c' <> c -> use_count (shared_reset h (Some c)) (Some c') = use_count h (Some c').
Proof.
  intros Hne. unfold shared_reset. destruct (h_cbs h !! c) as [b|]; [|done].
  destruct (cb_use b =? 1).
  - rewrite use_count_run_deleter. cbn. by rewrite lookup_delete_ne by done.
  - cbn. by rewrite lookup_insert_ne by done.
Qed.

Lemma use_count_reset_eq h c :
  use_count h (Some c) <> 1 -> use_count h (Some c) <> 0 ->
  use_count (shared_reset h (Some c)) (Some c) = use_count h (Some c) - 1.
Proof.
  cbn. destruct (h_cbs h !! c) as [b|] eqn:Hb; [|lia]. intros H1 _.
  destruct (Z.eqb_spec (cb_use b) 1); [lia|]. cbn. by rewrite lookup_insert_eq.
Qed.

Lemma use_count_disown h c c' : use_count (disown_cb h c) c' = use_count h c'.
Proof.
  destruct c as [i|], c' as [j|]; cbn; try done.
  rewrite lookup_alter. case_decide as Hd; [subst|done]. by destruct (h_cbs h !! j).
Qed.

Lemma cbs_within_reset h c : cbs_within h (shared_reset h c).
Proof.
  destruct c as [c|]; [|by intros c b; eauto]. unfold shared_reset. intros c' b'.
  destruct (h_cbs h !! c) as [b|] eqn:Hb; [|by eauto]. destruct (_ =? _).
  - unfold run_deleter. destruct (del_owned _); cbn; rewrite lookup_delete_Some; intros [_ ?]; eauto.
  - cbn. rewrite lookup_insert. case_decide; subst; intros ?; simplify_eq; eauto.
Qed.

Lemma cbs_within_eq h h' h'' : cbs_within h h' -> h_cbs h'' = h_cbs h' -> cbs_within h h''.
Proof. intros Hw E c b. rewrite E. apply Hw. Qed.

Lemma cbs_within_from h h' h'' : cbs_within h' h'' -> h_cbs h' = h_cbs h -> cbs_within h h''.
Proof. intros Hw E c b Hb. rewrite <- E. by apply Hw. Qed.

(** Dropping a reference that is not the last one only lowers the count. *)
Lemma shared_reset_shared h c :
  use_count h (Some c) <> 1 ->
  h_unmapped (shared_reset h (Some c)) = h_unmapped h /\
  h_cbnext (shared_reset h (Some c)) = h_cbnext h.
Proof.
  unfold shared_reset, use_count. destruct (h_cbs h !! c) as [b|]; [|done]. intros H1.
  destruct (Z.eqb_spec (cb_use b) 1); done.
Qed.

(** Taking the pages over from the sole reference drops the control block. *)
Lemma steal_host h c b :
  h_cbs h !! c = Some b -> cb_use b = 1 ->
  let h' := shared_reset (disown_cb h (Some c)) (Some c) in
  h_unmapped h' = h_unmapped h /\ h_cbnext h' = h_cbnext h /\ h_cbs h' = delete c (h_cbs h).
Proof.
  intros Hb Hu. cbn. rewrite lookup_alter, decide_True, Hb by done. cbn.
  destruct (Z.eqb_spec (cb_use b) 1); [|done]. cbn. split; [done|]. split; [done|].
  apply map_eq. intros k. rewrite !lookup_delete, lookup_alter. by repeat case_decide.
Qed.

Section Isolation.
Context {env : HostEnv}.

(** Resolving copy-on-write keeps the sharing discipline. *)
Lemma resolve_cow_share h all i mp mp' h' :
  share_ok h all -> all !! i = Some mp -> is_Some (m_cow mp) -> bytes_ok h ->
  resolve_cow h mp = (Some mp', h') -> share_ok h' (<[i := mp']> all).
Proof.
  intros Hs Hi [c Hc] Hok Hr.
  assert ((m_data mp).1 < h_next h) as Hblk by (pose proof (sh_blocks _ _ Hs) as Hb; by eapply Forall_lookup_1 in Hb).
  pose proof (resolve_cow_spec h mp mp' h' Hr Hblk) as Hcr.
  pose proof (resolve_cow_extends h mp) as Hext. rewrite Hr in Hext. cbn in Hext.
  pose proof (sh_use _ _ Hs i c mp Hi Hc) as Huc.
  pose proof (refs_one i mp c all Hi Hc) as Hge.
  pose proof (sh_own _ _ Hs) as Hown. eapply Forall_lookup_1 in Hown; [|exact Hi].
  destruct Hown as [Hdsz Hdown].
  unfold resolve_cow in Hr. rewrite Hc in Hr.
  destruct (Z.eqb_spec (use_count h (Some c)) 1) as [H1|H1].
  - apply pair_equal_spec in Hr as [Hr1 Hr2]. apply (inj Some) in Hr1. subst mp' h'.
    destruct (h_cbs h !! c) as [b|] eqn:Hb; [|cbn in H1; by rewrite Hb in H1].
    assert (cb_use b = 1) as Hb1 by (cbn in H1; by rewrite Hb in H1).
    destruct (steal_host h c b Hb Hb1) as (Hun & Hcn & Hcb).
    apply (share_ok_replace h _ all i mp _ c); auto; try apply Hext; try apply Hcr.
    + intros j d Hj Hne.
      destruct (sh_disj _ _ Hs i j mp d Hi Hj) as [Hd|(c' & Ha & Hd)]; [auto|done|].
      assert (c' = c) as -> by congruence.
      pose proof (refs_two i j mp d c all Hi Hj ltac:(auto) Ha Hd). lia.
    + intros c' Hne. by rewrite use_count_reset_ne, use_count_disown by done.
    + lia.
    + by split.
    + split; [done|]. left. by rewrite Hcb, lookup_delete_eq.
    + intros c' b' Hb'. rewrite Hcb in Hb'. apply lookup_delete_Some in Hb' as [_ Hb']. eauto.
  - destruct (env_mmap_fails h (m_size mp)); [done|].
    destruct (host_mmap h _) as [p h1] eqn:Hm. unfold host_mmap in Hm. injection Hm as <- <-.
    destruct (env_mprotect_fails _ _ _ _); [done|].
    apply pair_equal_spec in Hr as [Hr1 Hr2]. apply (inj Some) in Hr1. subst mp' h'.
    match goal with |- context [run_deleter (shared_reset ?x _) _ _] => set (h4 := x) in * end.
    assert (h_cbs h4 = h_cbs h /\ h_unmapped h4 = h_unmapped h /\ h_cbnext h4 = h_cbnext h) as (Hcb4 & Hun4 & Hcn4).
    { unfold h4. by destruct (env_mprotect_fails _ _ _ _). }
    assert (forall c', use_count h4 c' = use_count h c') as Huc4 by (intros c'; by apply use_count_cbs).
    destruct (shared_reset_shared h4 c) as [Hun5 Hcn5]; [by rewrite Huc4|].
    assert (forall d, del_owned (m_deleter mp) = false -> run_deleter d (m_deleter mp) (m_data mp) = d) as Hnd.
    { intros d Hd. unfold run_deleter. by rewrite Hd. }
    assert (del_owned (m_deleter mp) = false) as Hno.
    { destruct (del_owned (m_deleter mp)); [|done]. by rewrite Hdown in Hc. }
    apply (share_ok_replace h _ all i mp _ c); auto; try apply Hext; try apply Hcr; rewrite ?Hnd by done.
    + intros j b Hj Hne. left. cbn.
      pose proof (sh_blocks _ _ Hs) as Hb. eapply Forall_lookup_1 in Hb; [|exact Hj]. cbn in Hb. lia.
    + intros c' Hne. by rewrite use_count_reset_ne, Huc4 by done.
    + intros H2. rewrite use_count_reset_eq, Huc4; rewrite ?Huc4; lia.
    + by split.
    + split; [done|]. right. cbn. lia.
    + eapply cbs_within_from; [apply cbs_within_reset|done].
    + by rewrite Hcn5.
    + by rewrite Hun5.
Qed.

(** The host changed only in blocks nobody uses yet, or not at all; regions
    were unmapped only among the new ones. *)
Lemma share_ok_extend' h h' all new :
  share_ok h all -> h_cbs h' = h_cbs h -> h_cbnext h' = h_cbnext h -> h_next h <= h_next h' ->
  h_unmapped h' = new ++ h_unmapped h ->
  Forall (fun u : hptr * Z => h_next h <= u.1.1 < h_next h') new -> share_ok h' all.
Proof.
  intros [Hd Hu Hb Ho Hc Hl] Hcb Hcn Hn Hun Hnew. split; [done| | |done| |].
  - intros i c mp Hi Hcow. rewrite (use_count_cbs h h' (Some c) Hcb). eauto.
  - eapply Forall_impl; [exact Hb|]. cbn. lia.
  - intros c b Hcbb. rewrite Hcb in Hcbb. destruct (Hc c b Hcbb) as (? & ? & ?).
    split; [lia|]. split; [lia|done].
  - rewrite Hun. apply Forall_app. split.
    + eapply Forall_impl; [exact Hnew|]. intros u Hu'. cbn beta in Hu'. split; [lia|].
      eapply Forall_impl; [exact Hb|]. intros mp Hmp. cbn beta in Hmp. left. lia.
    + eapply Forall_impl; [exact Hl|]. intros u [? ?]. split; [lia|done].
Qed.

Lemma share_ok_extend h h' all :
  share_ok h all -> h_cbs h' = h_cbs h -> h_cbnext h' = h_cbnext h -> h_next h <= h_next h' ->
  h_unmapped h' = h_unmapped h -> share_ok h' all.
Proof. intros. by eapply (share_ok_extend' h h' all []). Qed.

Lemma resolve_cow_fail_share h mp h' all :
  share_ok h all -> resolve_cow h mp = (None, h') -> share_ok h' all.
Proof.
  intros Hs. unfold resolve_cow. destruct (use_count _ _ =? 1); [done|].
  destruct (env_mmap_fails _ _); [by intros [= <-]|]. unfold host_mmap.
  destruct (env_mprotect_fails _ _ _ _); [|done]. intros [= <-].
  apply (share_ok_extend' h _ all [((h_next h, 0), m_size mp)]); try done; cbn; [lia|].
  apply Forall_singleton. cbn. lia.
Qed.

Lemma mmu_w_share m others addr size :
  mem_wf m -> share_ok (hst m) (maps m ++ others) ->
  share_ok (hst (mmu_w m addr size).2) (maps (mmu_w m addr size).2 ++ others).
Proof.
  intros Hwf Hs. unfold mmu_w. destruct (_ <? _); [done|]. destruct (_ && _); [done|].
  unfold mmu_w_slow. destruct (find_map_locked (maps m) addr size) as [i|]; [|done].
  destruct (maps m !! i) as [mp|] eqn:Hi; [|done]. destruct (negb _); [done|].
  destruct (m_cow mp) as [c|] eqn:Hc; [|done].
  pose proof (resolve_cow_extends (hst m) mp) as Hext.
  destruct (resolve_cow (hst m) mp) as [[mp'|] h'] eqn:Hr; cbn in *.
  - rewrite <- insert_app_l by (by eapply lookup_lt_Some).
    eapply resolve_cow_share; eauto; [|apply Hwf].
    rewrite lookup_app_l; [done|]. by eapply lookup_lt_Some.
  - by eapply resolve_cow_fail_share.
Qed.

Lemma host_write_share h p n v all : share_ok h all -> share_ok (host_write h p n v) all.
Proof. intros Hs. by apply (share_ok_extend h). Qed.

Lemma covers_host_range mp addr size p :
  covers mp addr size -> p = host_of mp addr ->
  p.1 = (m_data mp).1 /\ (m_data mp).2 <= p.2 /\ p.2 + size <= (m_data mp).2 + m_size mp.
Proof. intros [? ?] ->. cbn. lia. Qed.

(** A store through a pointer from [mmu_w] touches no byte of a segment other
    than the one it was translated for. *)
Lemma store_disjoint h all i a k b p addr size n v j :
  share_ok h all -> all !! i = Some a -> all !! k = Some b -> i <> k ->
  m_cow a = None -> covers a addr size -> p = host_of a addr -> Z.of_nat n <= size ->
  0 <= j < m_size b ->
  h_bytes (host_write h p n v) (m_data b).1 ((m_data b).2 + j) = h_bytes h (m_data b).1 ((m_data b).2 + j).
Proof.
  intros Hs Hi Hk Hne Hc Hcov Hp Hn Hj. apply host_write_byte_out.
  pose proof (share_ok_private h all i k a b Hs Hi Hk Hne Hc) as Hd.
  destruct (covers_host_range a addr size p Hcov Hp) as (E & ? & ?).
  unfold hrange_disjoint, hdisjoint in Hd. intros [Eb Ho]. rewrite <- E in Hd. rewrite <- Eb in Hd.
  destruct Hd as [?|?]; [done|lia].
Qed.

End Isolation.

(** ** Guest stores *)

(** A store of an [n]-byte value through the host pointer [p]. *)
Definition store (m : mmem) (p : hptr) (n : nat) (v : Z) : mmem :=
  set_host m (host_write (hst m) p n v).

(** A load of an [n]-byte value through [p]. *)
Definition load (m : mmem) (p : hptr) (n : nat) : Z := host_read (hst m) p n.

(** The [n]-byte little-endian value the guest sees at [a] (0 for unmapped bytes). *)
Definition gload (m : mmem) (a : Z) (n : nat) : Z := load_le (fun b => default 0 (gbyte m b)) a n.

(** Loading through a translated pointer reads what the guest sees. *)
Lemma load_gload m addr size p o n :
  wf_maps (maps m) -> valid_access addr size -> translate (maps m) addr size = Some p ->
  0 <= o -> o + Z.of_nat n <= size -> load m (padd p o) n = gload m (addr + o) n.
Proof.
  intros Hw Hv Ht Ho Hn. unfold load, host_read, gload. cbn [padd fst snd].
  apply load_le_shift. intros j Hj. unfold gbyte.
  replace (addr + o + j) with (addr + (o + j)) by lia.
  rewrite (translate_byte (maps m) addr size p (o + j)) by (done || lia).
  cbn. f_equal. lia.
Qed.

Lemma gload_ext m m' a n :
  (forall j, 0 <= j < Z.of_nat n -> gbyte m (a + j) = gbyte m' (a + j)) -> gload m a n = gload m' a n.
Proof. intros H. apply load_le_shift. intros j Hj. by rewrite H. Qed.

(** The byte an address space with segments [ms] sees at [a]. *)
Definition gbyte_in (h : host) (ms : list memmap) (a : Z) : option Z :=
  (fun p : hptr => h_bytes h p.1 p.2) <$> translate ms a 1.

Lemma find_map_valid ms a i : find_map_locked ms a 1 = Some i -> 0 <= a < 2 ^ 64 -> valid_access a 1.
Proof.
  intros Hf Ha. split; [lia|]. split; [lia|].
  destruct (Z.eq_dec (a + 1) (2 ^ 64)) as [E|]; [|lia].
  unfold find_map_locked in Hf. rewrite E in Hf. unfold uwrap in Hf.
  rewrite Z_mod_same_full in Hf. destruct (Z.ltb_spec 0 a); [done|lia].
Qed.

Lemma store_wf m p n v : mem_wf m -> mem_wf (store m p n v).
Proof. intros [????]. constructor; try done. by apply bytes_ok_write. Qed.

Section Stores.
Context {env : HostEnv}.

(** A store of [n] bytes through a private pointer sets exactly the addressed
    guest bytes of its own address space. *)
Lemma store_gbyte m others addr p n v a :
  mem_wf m -> share_ok (hst m) (maps m ++ others) ->
  valid_access addr (Z.of_nat n) -> private_at (maps m) addr (Z.of_nat n) p -> 0 <= a < 2 ^ 64 ->
  gbyte (store m p n v) a =
  if (addr <=? a) && (a <? addr + Z.of_nat n)
  then Some ((v / 2 ^ (8 * (a - addr))) mod 256) else gbyte m a.
Proof.
  intros Hwf Hs Hv (i & mp & Hi & Hc & _ & Hcow & Hp) Ha.
  unfold gbyte. cbn [maps hst store set_host].
  destruct ((addr <=? a) && (a <? addr + Z.of_nat n)) eqn:Hin.
  - zprops. destruct Hv as (? & ? & ?).
    rewrite (translate_covers (maps m) i mp); [|apply Hwf|unfold valid_access; lia|done|unfold covers in *; lia].
    cbn. rewrite Hp. cbn. rewrite upd_block_same. unfold store_le. f_equal.
    destruct (Z.leb_spec ((m_data mp).2 + (addr - m_paddr mp)) ((m_data mp).2 + (a - m_paddr mp))); [|lia].
    destruct (Z.ltb_spec ((m_data mp).2 + (a - m_paddr mp)) ((m_data mp).2 + (addr - m_paddr mp) + Z.of_nat n)); [|lia].
    cbn. do 3 f_equal. lia.
  - unfold translate. destruct (find_map_locked (maps m) a 1) as [k|] eqn:Hf; [|done].
    pose proof (find_map_valid _ _ _ Hf Ha) as Hva.
    apply find_map_spec in Hf as (mk & Hk & Hck); [|apply Hwf|done]. rewrite Hk. cbn. f_equal.
    destruct (decide (k = i)) as [->|Hne].
    + simplify_eq. apply (host_write_byte_out (hst m)). cbn. intros [_ Ho].
      apply andb_false_iff in Hin. rewrite Z.leb_gt, Z.ltb_ge in Hin. lia.
    + assert (a - m_paddr mk = a - m_paddr mk + 0) by lia.
      apply (store_disjoint (hst m) (maps m ++ others) i mp k mk p addr (Z.of_nat n));
        rewrite ?lookup_app_l by (by eapply lookup_lt_Some); auto; [lia|].
      unfold covers in Hck. lia.
Qed.

(** Loading back a stored value. *)
Lemma store_gload m addr p n v :
  wf_maps (maps m) -> valid_access addr (Z.of_nat n) -> private_at (maps m) addr (Z.of_nat n) p ->
  gload (store m p n v) addr n = v mod 2 ^ (8 * Z.of_nat n).
Proof.
  intros Hw Hv Hp. rewrite <- (Z.add_0_r addr).
  rewrite <- (load_gload (store m p n v) addr (Z.of_nat n) p); [|done|done| |lia|lia].
  - unfold padd. rewrite Z.add_0_r. destruct p. apply host_read_write_same.
  - by apply private_at_translate.
Qed.

(** ... and no byte of any other address space. *)
Lemma store_gbyte_other m pre ms rest addr p n v a :
  mem_wf m -> wf_maps ms -> share_ok (hst m) (maps m ++ pre ++ ms ++ rest) ->
  private_at (maps m) addr (Z.of_nat n) p -> 0 <= a < 2 ^ 64 ->
  gbyte_in (hst (store m p n v)) ms a = gbyte_in (hst m) ms a.
Proof.
  intros Hwf Hms Hs (i & mp & Hi & Hc & _ & Hcow & Hp) Ha. unfold gbyte_in, translate.
  destruct (find_map_locked ms a 1) as [k|] eqn:Hf; [|done].
  pose proof (find_map_valid _ _ _ Hf Ha) as Hva.
  apply find_map_spec in Hf as (mk & Hk & Hck); [|done..]. rewrite Hk. cbn. f_equal.
  apply (store_disjoint (hst m) (maps m ++ pre ++ ms ++ rest) i mp
           (length (maps m) + (length pre + k)) mk p addr (Z.of_nat n)); auto.
  - rewrite lookup_app_l; [done|]. by eapply lookup_lt_Some.
  - rewrite !lookup_app_r by lia.
    replace (length (maps m) + (length pre + k) - length (maps m) - length pre)%nat with k by lia.
    rewrite lookup_app_l; [done|]. by eapply lookup_lt_Some.
  - apply lookup_lt_Some in Hi. lia.
  - lia.
  - unfold covers in Hck. lia.
Qed.

(** The bytes of blocks in use survive a host extension, for every address space. *)
Lemma gbyte_in_extends h h' ms a :
  host_extends h h' -> blocks_ok h ms -> gbyte_in h' ms a = gbyte_in h ms a.
Proof.
  intros [_ Hb _] Hblk. unfold gbyte_in, translate.
  destruct (find_map_locked ms a 1) as [i|]; [|done].
  destruct (ms !! i) as [mp|] eqn:Hi; [|done]. cbn. f_equal. apply Hb.
  by eapply Forall_lookup_1 in Hblk.
Qed.

End Stores.

(** ** Properties *)

(** C1: The software TLB is transparent: on well-formed memory [mmu] returns,
    for every access that does not wrap around, the host address the sorted
    segment table assigns to it (or null when no single segment contains the
    access), and it changes neither the segment table nor host memory and
    keeps the memory well formed. *)
Theorem mmu_refines_translate m addr size (Hwf : mem_wf m) (Hv : valid_access addr size) :
  (mmu m addr size).1 = translate (maps m) addr size /\
  mem_wf (mmu m addr size).2 /\
  maps (mmu m addr size).2 = maps m /\ hst (mmu m addr size).2 = hst m.
Proof. by apply mmu_spec. Qed.

(** C2: Copy-on-write isolation: when a pointer is obtained with [mmu_w] and
    [n] bytes are stored through it, the storing address space sees exactly the
    addressed bytes change, no other address space on the same host sees any
    byte change, and the sharing discipline still holds. *)
Theorem cow_isolation {env : HostEnv} m pre ms rest addr n p v a
  (Hwf : mem_wf m) (Hms : wf_maps ms) (Hs : share_ok (hst m) (maps m ++ pre ++ ms ++ rest))
  (Hv : valid_access addr (Z.of_nat n)) (Hp : (mmu_w m addr (Z.of_nat n)).1 = Some p)
  (Ha : 0 <= a < 2 ^ 64) :
  let m' := store (mmu_w m addr (Z.of_nat n)).2 p n v in
  gbyte m' a = (if (addr <=? a) && (a <? addr + Z.of_nat n)
                then Some ((v / 2 ^ (8 * (a - addr))) mod 256) else gbyte m a) /\
  gbyte_in (hst m') ms a = gbyte_in (hst m) ms a /\
  mem_wf m' /\ share_ok (hst m') (maps m' ++ pre ++ ms ++ rest).
Proof.
  pose proof (mmu_w_spec m addr (Z.of_nat n) Hwf Hv) as [Hw1 He1 _ Hg1 Hp1].
  pose proof (mmu_w_share m (pre ++ ms ++ rest) addr (Z.of_nat n) Hwf Hs) as Hs1.
  specialize (Hp1 p Hp). intros m'. split; [|split; [|split]].
  - unfold m'. rewrite (store_gbyte _ (pre ++ ms ++ rest) addr p n v a); auto.
    by rewrite Hg1.
  - unfold m'. rewrite (store_gbyte_other _ pre ms rest addr p n v a); auto.
    apply gbyte_in_extends; [done|]. destruct Hs as [_ _ Hb].
    apply Forall_app in Hb as [_ Hb]. apply Forall_app in Hb as [_ Hb]. by apply Forall_app in Hb as [Hb _].
  - by apply store_wf.
  - by apply host_write_share.
Qed.

(** ** A concrete address space

    Two processes share one writable page at 0x1000 copy-on-write, as after
    [fork]: control block 0 has two owners. *)

Definition demo_cb : shared_cb := mkcb (0, 0) (mkDeleter 4096 true) 2.
Definition demo_host : host :=
  mkhost (fun _ _ => 7) (fun _ _ => 3) 1 {[ 0 := demo_cb ]} 1 [].
Definition demo_map : memmap :=
  mkmap (0, 0) (mkDeleter 4096 false) 4096 0x1000 (Z.lor PF_R PF_W) (Some 0) "<anon>"%string.
Definition demo_mem : mmem := mkmmem ∅ [demo_map] demo_host.

Lemma demo_maps_wf : wf_maps [demo_map].
Proof.
  split; [|by repeat constructor]. apply Forall_singleton. unfold wf_map. cbn. lia.
Qed.

Lemma demo_mem_wf : mem_wf demo_mem.
Proof.
  split; [apply demo_maps_wf| | |].
  - intros i e He. change (tlb demo_mem) with (∅ : gmap Z TlbEntry) in He. by rewrite lookup_empty in He.
  - apply Forall_singleton. cbn. lia.
  - intros b o. cbn. lia.
Qed.

Lemma demo_share_ok : share_ok demo_host ([demo_map] ++ [] ++ [demo_map] ++ []).
Proof.
  split.
  - intros i j a b Ha Hb _. right. exists 0.
    apply list_elem_of_lookup_2 in Ha, Hb. cbn in Ha, Hb.
    rewrite !elem_of_cons, elem_of_nil in Ha, Hb.
    by destruct Ha as [->|[->|[]]], Hb as [->|[->|[]]].
  - intros i c mp Hi Hc. apply list_elem_of_lookup_2 in Hi.
    cbn in Hi. rewrite !elem_of_cons, elem_of_nil in Hi.
    assert (mp = demo_map) as -> by tauto. cbn in Hc. injection Hc as <-. reflexivity.
  - repeat constructor; cbn; lia.
  - repeat constructor; done.
  - intros c b. cbn. rewrite lookup_singleton_Some. intros [<- <-]. split; [cbn; lia|]. split; [cbn; lia|].
    intros _. by repeat constructor.
  - done.
Qed.

Lemma mmu_refines_translate_witness :
  (mmu demo_mem 0x1010 8).1 = Some (0, 0x10) /\ (mmu demo_mem 0x1ffc 8).1 = None.
Proof.
  pose proof (proj1 (mmu_refines_translate demo_mem 0x1010 8 demo_mem_wf
    ltac:(unfold valid_access; lia))) as H1.
  pose proof (proj1 (mmu_refines_translate demo_mem 0x1ffc 8 demo_mem_wf
    ltac:(unfold valid_access; lia))) as H2.
  split; [rewrite H1|rewrite H2]; reflexivity.
Defined.

Lemma cow_isolation_witness :
  let env := permissive_env in
  let m' := store (mmu_w demo_mem 0x1010 (Z.of_nat 4)).2 (1, 0x10) 4 0x01020304 in
  gbyte m' 0x1011 = Some 3 /\ gbyte_in (hst m') [demo_map] 0x1011 = Some 7.
Proof.
  destruct (@cow_isolation permissive_env demo_mem [] [demo_map] [] 0x1010 4 (1, 0x10) 0x01020304 0x1011
    demo_mem_wf demo_maps_wf demo_share_ok ltac:(unfold valid_access; lia) eq_refl ltac:(lia))
    as (H1 & H2 & _).
  split; [rewrite H1|rewrite H2]; reflexivity.
Defined.
