(* ===== verification/Segments.v ===== *)
(** * Segments: splitting, sharing and dropping segments

    The steps memory.cpp and process.cpp perform on a [memmap]: handing the
    pages of an owned segment over to a shared [cow_data] ([share_pages]),
    cutting a segment into pieces that share it ([piece]), and destroying one
    ([destroy_map]).  Each step keeps the sharing discipline [share_ok] of
    AddrSpace, so no segment in use ever points into unmapped host memory.

    [seg_at] is the abstract view of a segment table: for every guest address
    the host byte behind it and the permissions. *)

From S2P Require Import Prelude HostMem AddrSpace.
From Stdlib Require Import Lia.
From stdpp Require Import base numbers list gmap strings option sorting.

Open Scope Z_scope.

(** ** Operations *)

(** [if (!m.cow_data && owned) { m.cow_data = shared_ptr(m.data, deleter); owned = false; }] *)
Definition share_pages (h : host) (mp : memmap) : memmap * host :=
  match m_cow mp with
  | None =>
    if del_owned (m_deleter mp) then
      let '(c, h1) := shared_new h (m_data mp) (mkDeleter (del_size (m_deleter mp)) true) in
      (set_owned (set_cow mp (Some c)) false, h1)
    else (mp, h)
  | Some _ => (mp, h)
  end.

(** A new [memmap] for [sz] bytes of [mp] from guest address [lo]. *)
Definition piece (mp : memmap) (lo sz fl : Z) (path : string) : memmap :=
  mkmap (padd (m_data mp) (lo - m_paddr mp)) (mkDeleter sz false) sz lo fl (m_cow mp) path.

(** ** The view of a segment table *)

Definition seg_at (ms : list memmap) (a : Z) : option (hptr * Z) :=
  match find_map_locked ms a 1 with
  | Some i => (fun mp => (host_of mp a, m_flags mp)) <$> (ms !! i)
  | None => None
  end.

Lemma translate_seg_at ms a : translate ms a 1 = fst <$> seg_at ms a.
Proof.
  unfold translate, seg_at. destruct (find_map_locked ms a 1) as [i|]; [|done].
  by destruct (ms !! i).
Qed.

(** Equal views give equal bytes, on hosts with equal bytes. *)
Lemma gbyte_in_seg_at h h' ms ms' a :
  h_bytes h' = h_bytes h -> fst <$> seg_at ms' a = fst <$> seg_at ms a ->
  gbyte_in h' ms' a = gbyte_in h ms a.
Proof. intros Hb Hs. unfold gbyte_in. by rewrite !translate_seg_at, Hs, Hb. Qed.

Lemma seg_at_Some ms a x :
  wf_maps ms -> 0 <= a < 2 ^ 64 ->
  seg_at ms a = Some x <-> exists mp, mp ∈ ms /\ covers mp a 1 /\ x = (host_of mp a, m_flags mp).
Proof.
  intros Hwf Ha. unfold seg_at. split.
  - destruct (find_map_locked ms a 1) as [i|] eqn:Hf; [|done].
    pose proof (find_map_valid _ _ _ Hf Ha) as Hv.
    apply find_map_spec in Hf as (mp & Hi & Hc); [|done..]. rewrite Hi. intros [= <-].
    exists mp. split; [by eapply list_elem_of_lookup_2|done].
  - intros (mp & Hin & Hc & ->). apply list_elem_of_lookup in Hin as [i Hi].
    pose proof (wf_map_lookup _ _ _ Hwf Hi) as (? & ? & ?).
    assert (valid_access a 1) as Hv by (unfold valid_access, covers in *; lia).
    assert (find_map_locked ms a 1 = Some i) as -> by (apply find_map_spec; eauto).
    by rewrite Hi.
Qed.

Lemma seg_at_None ms a :
  wf_maps ms -> 0 <= a < 2 ^ 64 ->
  seg_at ms a = None <-> forall mp, mp ∈ ms -> ~ covers mp a 1.
Proof.
  intros Hwf Ha. rewrite eq_None_not_Some. split.
  - intros Hn mp Hin Hc. apply Hn. eexists. apply seg_at_Some; eauto.
  - intros Hn [x Hx]. apply seg_at_Some in Hx as (mp & Hin & Hc & _); [|done..]. by eapply Hn.
Qed.

(** Two views agree when the tables show the same segments at every address. *)
Lemma seg_at_ext ms ms' a :
  wf_maps ms -> wf_maps ms' -> 0 <= a < 2 ^ 64 ->
  (forall x, (exists mp, mp ∈ ms /\ covers mp a 1 /\ x = (host_of mp a, m_flags mp)) <->
             (exists mp, mp ∈ ms' /\ covers mp a 1 /\ x = (host_of mp a, m_flags mp))) ->
  seg_at ms a = seg_at ms' a.
Proof.
  intros Hw Hw' Ha Hx. apply option_eq. intros x.
  rewrite (seg_at_Some ms), (seg_at_Some ms') by done. apply Hx.
Qed.

(** A segment added where nothing was mapped. *)
Lemma seg_at_insert mp ms a :
  wf_maps (insert_map mp ms) -> wf_maps ms -> 0 <= a < 2 ^ 64 ->
  seg_at (insert_map mp ms) a =
  if (m_paddr mp <=? a) && (a <? m_paddr mp + m_size mp)
  then Some (host_of mp a, m_flags mp) else seg_at ms a.
Proof.
  intros Hw Hms Ha. destruct (_ && _) eqn:Hin.
  - zprops. apply seg_at_Some; [done..|]. exists mp. rewrite insert_map_elem. split; [by left|].
    unfold covers. split; [lia|done].
  - apply andb_false_iff in Hin. rewrite Z.leb_gt, Z.ltb_ge in Hin.
    apply seg_at_ext; [done..|]. intros x. split.
    + intros (m & [->|Hm]%insert_map_elem & Hc & Hx); [unfold covers in Hc; lia|eauto].
    + intros (m & Hm & Hc & Hx). exists m. rewrite insert_map_elem. auto.
Qed.

(** ** Sub-ranges *)

(** [q] shows part of the host bytes of [mp], at the same guest addresses. *)
Definition part_of (q mp : memmap) : Prop :=
  m_paddr mp <= m_paddr q /\ 0 < m_size q /\
  m_paddr q + m_size q <= m_paddr mp + m_size mp /\
  m_data q = padd (m_data mp) (m_paddr q - m_paddr mp).

Lemma part_of_refl mp : 0 < m_size mp -> part_of mp mp.
Proof. intros. unfold part_of, padd. destruct (m_data mp). cbn. split; [lia|]. split; [done|]. split; [lia|]. f_equal. lia. Qed.

Lemma part_of_wf q mp : part_of q mp -> wf_map mp -> wf_map q.
Proof. unfold part_of, wf_map. lia. Qed.

Lemma part_of_covers q mp a : part_of q mp -> covers q a 1 -> covers mp a 1.
Proof. unfold part_of, covers. lia. Qed.

Lemma part_of_host q mp a : part_of q mp -> host_of q a = host_of mp a.
Proof. intros (_ & _ & _ & Hd). unfold host_of. rewrite Hd. unfold padd. cbn. f_equal. lia. Qed.

Lemma part_of_below_l q mp b : part_of q mp -> below mp b -> below q b.
Proof. unfold part_of, below. lia. Qed.

Lemma part_of_below_r q mp a : part_of q mp -> below a mp -> below a q.
Proof. unfold part_of, below. lia. Qed.

Lemma part_of_apart q mp p n : part_of q mp -> apart_from p n mp -> apart_from p n q.
Proof.
  intros (Hlo & Hs & Hhi & Hd) [?|?]; unfold apart_from, hdisjoint; rewrite Hd; cbn; [auto|lia].
Qed.

Lemma part_of_disjoint q mp b : part_of q mp -> hrange_disjoint mp b -> hrange_disjoint q b.
Proof.
  intros Hp Hd. apply hrange_disjoint_sym. apply hrange_disjoint_sym in Hd.
  by eapply part_of_apart.
Qed.

(** Two separate parts of one segment. *)
Lemma parts_disjoint q q' mp : part_of q mp -> part_of q' mp -> below q q' -> hrange_disjoint q q'.
Proof.
  intros (? & ? & ? & Hd) (? & ? & ? & Hd') Hb. unfold hrange_disjoint, hdisjoint, below in *.
  rewrite Hd, Hd'. cbn. lia.
Qed.

Lemma piece_part mp lo sz fl pth :
  m_paddr mp <= lo -> 0 < sz -> lo + sz <= m_paddr mp + m_size mp -> part_of (piece mp lo sz fl pth) mp.
Proof. intros. unfold part_of. cbn. split; [lia|]. split; [lia|]. split; [lia|done]. Qed.

(** ** The sharing discipline *)

Lemma refs_perm c l l' : l ≡ₚ l' -> refs c l = refs c l'.
Proof. induction 1; cbn [refs]; try congruence; lia. Qed.

Lemma refs_app c l l' : refs c (l ++ l') = refs c l + refs c l'.
Proof. induction l as [|x r IH]; cbn [refs app]; [lia|]. rewrite IH. lia. Qed.

Lemma refs_pos c l : 0 < refs c l -> exists mp, mp ∈ l /\ m_cow mp = Some c.
Proof.
  induction l as [|x r IH]; cbn [refs]; [lia|]. intros H. case_decide as Hd.
  - exists x. split; [by constructor|done].
  - destruct IH as (mp & ? & ?); [lia|]. exists mp. split; [by constructor|done].
Qed.

Lemma refs_zero c l mp : refs c l = 0 -> mp ∈ l -> m_cow mp <> Some c.
Proof. intros Hz Hin Hc. apply list_elem_of_lookup in Hin as [i Hi]. pose proof (refs_one i mp c l Hi Hc). lia. Qed.

Lemma share_ok_perm h l l' : l ≡ₚ l' -> share_ok h l -> share_ok h l'.
Proof.
  intros Hp [Hd Hu Hb Ho Hc Hl]. split.
  - apply symmetry, Permutation_inj in Hp as [_ (f & Hf & Hlk)]. intros i j a b Ha Hbb Hne.
    rewrite Hlk in Ha, Hbb. eapply Hd; [exact Ha|exact Hbb|]. by intros ?%(inj f).
  - intros i c mp Hi Hcow. apply list_elem_of_lookup_2 in Hi. rewrite <- Hp in Hi.
    apply list_elem_of_lookup in Hi as [k Hk]. rewrite (Hu k c mp Hk Hcow). by apply refs_perm.
  - unfold blocks_ok. by rewrite <- Hp.
  - by rewrite <- Hp.
  - intros c b Hcb. destruct (Hc c b Hcb) as (? & ? & Hall). split; [done|]. split; [done|].
    intros Hod. rewrite <- Hp. auto.
  - eapply Forall_impl; [exact Hl|]. intros u [? Hu']. split; [done|]. by rewrite <- Hp.
Qed.

(** The order of the segments does not matter. *)
#[export] Instance share_ok_proper h : Proper ((≡ₚ) ==> iff) (share_ok h).
Proof. intros l l' Hp. split; apply share_ok_perm; [done|by symmetry]. Qed.

(** [share_ok] with its first segment set apart. *)
Lemma share_ok_cons h x r :
  share_ok h (x :: r) ->
  (forall b, b ∈ r -> hrange_disjoint x b \/ exists c, m_cow x = Some c /\ m_cow b = Some c) /\
  (forall c, 0 < refs c (x :: r) -> use_count h (Some c) = refs c (x :: r)).
Proof.
  intros Hs. split.
  - intros b Hin. apply list_elem_of_lookup in Hin as [i Hi]. by apply (sh_disj _ _ Hs 0 (S i)).
  - intros c Hc. apply refs_pos in Hc as (mp & Hin & Hcow). apply list_elem_of_lookup in Hin as [i Hi].
    by eapply sh_use.
Qed.

(** Pairwise condition of a list with a new head. *)
Lemma disj_cons x r :
  (forall b, b ∈ r -> hrange_disjoint x b \/ exists c, m_cow x = Some c /\ m_cow b = Some c) ->
  (forall i j a b, r !! i = Some a -> r !! j = Some b -> i <> j ->
    hrange_disjoint a b \/ exists c, m_cow a = Some c /\ m_cow b = Some c) ->
  forall i j a b, (x :: r) !! i = Some a -> (x :: r) !! j = Some b -> i <> j ->
    hrange_disjoint a b \/ exists c, m_cow a = Some c /\ m_cow b = Some c.
Proof.
  intros Hx Hr [|i] [|j] a b Ha Hb Hne; cbn in Ha, Hb; simplify_eq.
  - apply Hx. by eapply list_elem_of_lookup_2.
  - destruct (Hx a) as [?|(c & ? & ?)]; [by eapply list_elem_of_lookup_2| |eauto].
    left. by apply hrange_disjoint_sym.
  - eauto.
Qed.

Lemma disj_tail x r :
  (forall i j a b, (x :: r) !! i = Some a -> (x :: r) !! j = Some b -> i <> j ->
    hrange_disjoint a b \/ exists c, m_cow a = Some c /\ m_cow b = Some c) ->
  forall i j a b, r !! i = Some a -> r !! j = Some b -> i <> j ->
    hrange_disjoint a b \/ exists c, m_cow a = Some c /\ m_cow b = Some c.
Proof. intros H i j a b Hi Hj Hne. apply (H (S i) (S j)); [done..|lia]. Qed.

(** Only the first segment changed, in its [cow_data] and its owner, and the
    host got one control block for it. *)
Lemma share_pages_ok h mp r :
  share_ok h (mp :: r) ->
  let '(mp', h') := share_pages h mp in
  share_ok h' (mp' :: r) /\ h_bytes h' = h_bytes h /\ h_next h' = h_next h /\
  h_unmapped h' = h_unmapped h /\ h_prot h' = h_prot h.
Proof.
  intros Hs. unfold share_pages. destruct (m_cow mp) as [c|] eqn:Hc; [done|].
  destruct (del_owned (m_deleter mp)) eqn:Hod; [|done]. unfold shared_new.
  pose proof (share_ok_cons _ _ _ Hs) as [Hx Huse]. destruct Hs as [Hd Hu Hb Ho Hcb Hl].
  assert (forall mp', mp' ∈ mp :: r -> m_cow mp' <> Some (h_cbnext h)) as Hnew.
  { intros mp' [i Hi]%list_elem_of_lookup Hcow. pose proof (Hu i _ mp' Hi Hcow) as Huc.
    pose proof (refs_one i mp' _ _ Hi Hcow). cbn [use_count] in Huc.
    destruct (h_cbs h !! h_cbnext h) as [b|] eqn:E; cbn beta iota in Huc; [|lia]. destruct (Hcb _ _ E). lia. }
  assert (refs (h_cbnext h) r = 0) as Hz.
  { pose proof (refs_nonneg (h_cbnext h) r). destruct (Z.eq_dec (refs (h_cbnext h) r) 0); [done|].
    destruct (refs_pos (h_cbnext h) r) as (q & Hq & Hqc); [lia|]. edestruct Hnew; [by apply list_elem_of_further|done]. }
  split; [|done]. pose proof (disj_tail _ _ Hd) as Hdr. apply Forall_cons_iff in Ho as [[Ho1 Ho2] Ho].
  apply Forall_cons_iff in Hb as [Hb1 Hb2]. split.
  - apply disj_cons; [|done]. intros b Hin. destruct (Hx b Hin) as [?|(c & ? & _)]; [by left|congruence].
  - intros i c q Hi Hq. destruct (decide (c = h_cbnext h)) as [->|Hne].
    + cbn. rewrite lookup_insert_eq. cbn. rewrite decide_True by done. lia.
    + cbn. rewrite lookup_insert_ne by done. rewrite decide_False by congruence.
      destruct i as [|i]; cbn in Hi; [simplify_eq; cbn in Hq; congruence|].
      specialize (Hu (S i) c q Hi Hq). cbn in Hu. rewrite Hc, decide_False in Hu by done. exact Hu.
  - by constructor.
  - constructor; [by split|done].
  - intros c b. cbn. rewrite lookup_insert. case_decide as Hcc.
    + intros [= <-]. subst c. split; [cbn; lia|]. split; [exact Hb1|]. intros _. constructor; [done|].
      apply list.Forall_forall. intros q Hq _. cbn. rewrite Ho1.
      destruct (Hx q Hq) as [?|(c & ? & _)]; [done|congruence].
    + intros Hb. destruct (Hcb c b Hb) as (? & ? & Hall). split; [cbn; lia|]. split; [done|].
      intros Hob. specialize (Hall Hob). apply Forall_cons_iff in Hall as [Hall1 Hall2].
      constructor; [|done]. intros _. apply Hall1. congruence.
  - eapply Forall_impl; [exact Hl|]. intros u [? Hu']. split; [done|].
    apply Forall_cons_iff in Hu' as [??]. by constructor.
Qed.

Lemma share_pages_fields h mp :
  let mp' := (share_pages h mp).1 in
  m_data mp' = m_data mp /\ m_size mp' = m_size mp /\ m_paddr mp' = m_paddr mp /\
  m_flags mp' = m_flags mp /\ m_path mp' = m_path mp.
Proof. unfold share_pages. destruct (m_cow mp); [done|]. by destruct (del_owned _). Qed.

Lemma share_pages_unowned h mp : map_own mp -> del_owned (m_deleter (share_pages h mp).1) = false.
Proof.
  intros [_ Ho]. unfold share_pages. destruct (m_cow mp) as [c|] eqn:Hc; cbn.
  - destruct (del_owned (m_deleter mp)) eqn:E; [|done]. by specialize (Ho eq_refl).
  - destruct (del_owned (m_deleter mp)) eqn:E; [done|exact E].
Qed.

(** Another reference to a shared segment: a piece of it. *)
Lemma share_ok_copy h mp q r c :
  share_ok h (mp :: r) -> m_cow mp = Some c -> m_cow q = Some c -> part_of q mp -> map_own q ->
  share_ok (shared_copy h (Some c)) (q :: mp :: r).
Proof.
  intros Hs Hc Hqc Hp Hq. pose proof (share_ok_cons _ _ _ Hs) as [Hx Huse].
  assert (0 < refs c (mp :: r)) as Hpos.
  { cbn. rewrite decide_True by done. pose proof (refs_nonneg c r). lia. }
  pose proof (Huse c Hpos) as Huc. destruct Hs as [Hd Hu Hb Ho Hcb Hl]. cbn [use_count] in Huc.
  destruct (h_cbs h !! c) as [b0|] eqn:Hb0; cbn beta iota in Huc; [|lia]. split.
  - apply disj_cons; [|done]. intros b [->|Hin]%elem_of_cons; [right; eauto|].
    destruct (Hx b Hin) as [?|(c' & ? & ?)]; [|right; exists c; split; congruence].
    left. by eapply part_of_disjoint.
  - intros i c' m Hi Hm. cbn [shared_copy set_cbs use_count h_cbs].
    change (refs c' (q :: mp :: r)) with ((if decide (m_cow q = Some c') then 1 else 0) + refs c' (mp :: r)).
    assert (m ∈ q :: mp :: r) as Hin by (by eapply list_elem_of_lookup_2).
    destruct (decide (c' = c)) as [->|Hne].
    + rewrite lookup_alter, decide_True, Hb0 by done. cbn -[refs]. rewrite decide_True by done. lia.
    + rewrite lookup_alter_ne by done. rewrite decide_False by congruence.
      apply elem_of_cons in Hin as [->|Hin]; [congruence|].
      apply list_elem_of_lookup in Hin as [j Hj]. pose proof (Hu j c' m Hj Hm) as Hjj. cbn -[refs] in Hjj. lia.
  - constructor; [|done]. destruct Hp as (_ & _ & _ & Hdat). rewrite Hdat. cbn. by apply Forall_cons_iff in Hb as [? _].
  - by constructor.
  - intros c' b. cbn [shared_copy set_cbs h_cbs]. rewrite lookup_alter_Some.
    intros Hbb. assert (exists b', h_cbs h !! c' = Some b' /\ cb_ptr b = cb_ptr b' /\ cb_deleter b = cb_deleter b') as (b' & Hb' & Hbp & Hbd).
    { destruct Hbb as [(<- & b1 & ? & ->)|[? ?]]; eauto. }
    destruct (Hcb c' b' Hb') as (? & ? & Hall). unfold cb_ok. rewrite Hbp, Hbd. split; [done|].
    split; [done|]. intros Hod. specialize (Hall Hod).
    constructor; [|done]. intros Hne. apply Forall_cons_iff in Hall as [Hall _].
    eapply part_of_apart; [exact Hp|]. apply Hall. congruence.
  - eapply Forall_impl; [exact Hl|]. intros u [? Hu']. split; [done|].
    constructor; [|done]. apply Forall_cons_iff in Hu' as [? _]. by eapply part_of_apart.
Qed.

(** Destroying the first segment: its reference goes, the pages with the last one. *)
Lemma share_ok_drop h mp r : share_ok h (mp :: r) -> share_ok (destroy_map h mp) r.
Proof.
  intros Hs. pose proof (share_ok_cons _ _ _ Hs) as [Hx Huse]. destruct Hs as [Hd Hu Hb Ho Hcb Hl].
  apply Forall_cons_iff in Ho as [[Ho1 Ho2] Ho]. apply Forall_cons_iff in Hb as [Hb1 Hb2].
  pose proof (disj_tail _ _ Hd) as Hdr.
  assert (Forall (gone_ok h r) (h_unmapped h)) as Hl'.
  { eapply Forall_impl; [exact Hl|]. intros u [? Hu']. split; [done|]. by apply Forall_cons_iff in Hu' as [_ ?]. }
  assert (forall c b, h_cbs h !! c = Some b -> cb_ok h r c b) as Hcb'.
  { intros c b Hcbb. destruct (Hcb c b Hcbb) as (? & ? & Hall). split; [done|]. split; [done|].
    intros Hod. by apply Forall_cons_iff in Hall as [_ ?]; [|done]. }
  unfold destroy_map. destruct (m_cow mp) as [c|] eqn:Hc.
  - assert (del_owned (m_deleter mp) = false) as Hno.
    { destruct (del_owned (m_deleter mp)) eqn:E; [|done]. by specialize (Ho2 eq_refl). }
    unfold run_deleter at 1. rewrite Hno.
    pose proof (Huse c) as Huc. cbn [refs] in Huc. rewrite decide_True in Huc by done.
    pose proof (refs_nonneg c r) as Hnn. specialize (Huc ltac:(lia)). cbn [use_count] in Huc.
    unfold shared_reset. destruct (h_cbs h !! c) as [b|] eqn:Hbb; cbn beta iota in Huc; [|lia].
    assert (forall i c' m, r !! i = Some m -> m_cow m = Some c' -> c' <> c -> use_count h (Some c') = refs c' r) as Hother.
    { intros i c' m Hi Hm Hne. specialize (Hu (S i) c' m Hi Hm). cbn [refs] in Hu.
      rewrite decide_False in Hu by congruence. lia. }
    destruct (Z.eqb_spec (cb_use b) 1) as [H1|H1].
    + assert (refs c r = 0) as Hz by lia.
      assert (share_ok (set_cbs h (delete c (h_cbs h))) r) as Hs'.
      { split; try done.
        - intros i c' m Hi Hm. assert (c' <> c) as Hne.
          { intros ->. eapply (refs_zero c r m); [done|by eapply list_elem_of_lookup_2|done]. }
          cbn [use_count set_cbs h_cbs]. rewrite lookup_delete_ne by done. by eapply Hother.
        - intros c' b'. cbn. rewrite lookup_delete_Some. intros [_ ?]. by apply Hcb'. }
      unfold run_deleter. destruct (del_owned (cb_deleter b)) eqn:Hod; [|done].
      destruct Hs' as [H11 H12 H13 H14 H15 H16]. split; try done. cbn. constructor; [|done].
      destruct (Hcb c b Hbb) as (_ & Hblk & Hall). split; [exact Hblk|]. specialize (Hall Hod).
      apply Forall_cons_iff in Hall as [_ Hall]. apply list.Forall_forall. intros q Hq. cbn.
      rewrite list.Forall_forall in Hall. apply Hall; [done|]. by eapply refs_zero.
    + split; try done.
      * intros i c' m Hi Hm. cbn [use_count set_cbs h_cbs]. destruct (decide (c' = c)) as [->|Hne].
        -- rewrite lookup_insert_eq. cbn. lia.
        -- rewrite lookup_insert_ne by done. by eapply Hother.
      * intros c' b'. cbn. rewrite lookup_insert. case_decide as Hcc; [|apply Hcb'].
        intros [= <-]. subst c'. destruct (Hcb' c b Hbb) as (? & ? & ?). by split.
  - cbn [shared_reset]. assert (share_ok h r) as Hs'.
    { split; try done. intros i c m Hi Hm. specialize (Hu (S i) c m Hi Hm). cbn [refs] in Hu.
      by rewrite Hc, decide_False in Hu by done. }
    unfold run_deleter. destruct (del_owned (m_deleter mp)) eqn:Hod; [|done].
    destruct Hs' as [H11 H12 H13 H14 H15 H16]. split; try done. cbn. constructor; [|done].
    split; [exact Hb1|]. apply list.Forall_forall. intros q Hq. cbn. rewrite Ho1.
    destruct (Hx q Hq) as [?|(c & ? & _)]; [done|congruence].
Qed.

(** A segment without owner or [cow_data] (a static mapping) replaced by
    separate parts of it. *)
Lemma share_ok_parts h mp ps r :
  share_ok h (mp :: r) -> m_cow mp = None -> StronglySorted below ps ->
  Forall (fun q => part_of q mp /\ map_own q /\ m_cow q = None) ps -> share_ok h (ps ++ r).
Proof.
  intros Hs Hc Hsort Hps. pose proof (share_ok_cons _ _ _ Hs) as [Hx Huse].
  destruct Hs as [Hd Hu Hb Ho Hcb Hl].
  apply Forall_cons_iff in Ho as [_ Ho]. apply Forall_cons_iff in Hb as [Hb1 Hb2].
  pose proof (disj_tail _ _ Hd) as Hdr.
  assert (forall c, refs c (ps ++ r) = refs c (mp :: r)) as Hrefs.
  { intros c. rewrite refs_app. cbn. rewrite Hc, decide_False by done.
    assert (refs c ps = 0) as ->; [|lia]. clear -Hps. induction Hps as [|q l (_ & _ & Hq) _ IH]; [done|].
    cbn. by rewrite Hq, decide_False, IH by done. }
  split.
  - clear -Hsort Hps Hx Hdr Hc. induction ps as [|q l IH]; [exact Hdr|].
    apply StronglySorted_inv in Hsort as [Hsort Hall].
    apply Forall_cons_iff in Hps as [(Hq & _ & _) Hps].
    cbn [app]. apply disj_cons; [|by apply IH]. intros b [Hb|Hb]%elem_of_app.
    + left. rewrite list.Forall_forall in Hall, Hps. destruct (Hps b Hb) as (? & _ & _).
      eapply parts_disjoint; eauto.
    + destruct (Hx b Hb) as [?|(c & ? & _)]; [|congruence]. left. by eapply part_of_disjoint.
  - intros i c m Hi Hm. apply list_elem_of_lookup_2, elem_of_app in Hi as [Hi|Hi].
    + rewrite list.Forall_forall in Hps. destruct (Hps m Hi) as (_ & _ & ?). congruence.
    + apply list_elem_of_lookup in Hi as [j Hj]. rewrite Hrefs. by apply (Hu (S j) c m).
  - apply Forall_app. split; [|done]. eapply Forall_impl; [exact Hps|].
    intros q ((_ & _ & _ & Hdat) & _). cbn. by rewrite Hdat.
  - apply Forall_app. split; [|done]. eapply Forall_impl; [exact Hps|]. by intros q (_ & ? & _).
  - intros c b Hcbb. destruct (Hcb c b Hcbb) as (? & ? & Hall). split; [done|]. split; [done|].
    intros Hod. specialize (Hall Hod). apply Forall_cons_iff in Hall as [Hall1 Hall2].
    apply Forall_app. split; [|done]. eapply Forall_impl; [exact Hps|]. intros q (Hq & _) _.
    eapply part_of_apart; [exact Hq|]. apply Hall1. congruence.
  - eapply Forall_impl; [exact Hl|]. intros u [? Hu']. split; [done|].
    apply Forall_cons_iff in Hu' as [Hu1 Hu2]. apply Forall_app. split; [|done].
    eapply Forall_impl; [exact Hps|]. intros q (Hq & _). by eapply part_of_apart.
Qed.

(** A segment on a fresh host block. *)
Lemma share_ok_fresh h h' mp r :
  share_ok h r -> h_cbs h' = h_cbs h -> h_cbnext h' = h_cbnext h -> h_unmapped h' = h_unmapped h ->
  h_next h <= (m_data mp).1 < h_next h' -> m_cow mp = None -> map_own mp -> share_ok h' (mp :: r).
Proof.
  intros [Hd Hu Hb Ho Hcb Hl] Hc Hn Hun Hblk Hcow Hown.
  assert (forall b, b ∈ r -> (m_data b).1 < h_next h) as Hb' by (by apply list.Forall_forall).
  split.
  - apply disj_cons; [|done]. intros b Hin. left. left. specialize (Hb' b Hin). lia.
  - intros i c m Hi Hm. cbn [refs]. rewrite Hcow, decide_False by done.
    destruct i as [|i]; cbn in Hi; [simplify_eq; congruence|].
    rewrite (use_count_cbs h h' (Some c) Hc). rewrite (Hu i c m Hi Hm). lia.
  - constructor; [lia|]. eapply Forall_impl; [exact Hb|]. cbn. lia.
  - by constructor.
  - intros c b. rewrite Hc. intros Hcbb. destruct (Hcb c b Hcbb) as (? & ? & Hall).
    split; [lia|]. split; [lia|]. intros Hod. constructor; [|by apply Hall]. intros _. left. lia.
  - rewrite Hun. eapply Forall_impl; [exact Hl|]. intros u [? Hu']. split; [lia|].
    constructor; [|done]. left. lia.
Qed.

(** Changing what [share_ok] does not look at. *)
Lemma share_ok_ext h h' mp mp' r :
  share_ok h (mp :: r) -> h_cbs h' = h_cbs h -> h_cbnext h' = h_cbnext h ->
  h_unmapped h' = h_unmapped h -> h_next h' = h_next h ->
  m_data mp' = m_data mp -> m_size mp' = m_size mp -> m_cow mp' = m_cow mp ->
  m_deleter mp' = m_deleter mp -> share_ok h' (mp' :: r).
Proof.
  intros Hs Hc Hn Hun Hnx Hd Hsz Hcow Hdel.
  assert (share_ok h (mp' :: r)) as Hs'; [|apply (share_ok_extend h); [done..|lia|done]].
  pose proof (share_ok_cons _ _ _ Hs) as [Hx Huse]. destruct Hs as [Sd Su Sb So Scb Sl].
  pose proof (disj_tail _ _ Sd) as Hdr. apply Forall_cons_iff in So as [So1 So].
  apply Forall_cons_iff in Sb as [Sb1 Sb]. unfold hrange_disjoint in *.
  assert (forall c, refs c (mp' :: r) = refs c (mp :: r)) as Hr by (intros c; cbn; by rewrite Hcow).
  split.
  - apply disj_cons; [|done]. intros b Hb. destruct (Hx b Hb) as [?|(c & ? & ?)].
    + left. unfold hrange_disjoint. by rewrite Hd, Hsz.
    + right. exists c. by rewrite Hcow.
  - intros i c m Hi Hm. rewrite Hr. destruct i as [|i]; cbn in Hi; simplify_eq.
    + apply (Su 0%nat c mp); [done|congruence].
    + by apply (Su (S i) c m).
  - constructor; [by rewrite Hd|done].
  - constructor; [|done]. unfold map_own in *. by rewrite Hdel, Hsz, Hcow.
  - intros c b Hcbb. destruct (Scb c b Hcbb) as (? & ? & Hall). split; [done|]. split; [done|].
    intros Hod. specialize (Hall Hod). apply Forall_cons_iff in Hall as [Hall1 Hall2].
    constructor; [|done]. unfold apart_from. by rewrite Hcow, Hd, Hsz.
  - eapply Forall_impl; [exact Sl|]. intros u [? Hu']. split; [done|].
    apply Forall_cons_iff in Hu' as [Hu1 Hu2]. constructor; [|done]. unfold apart_from. by rewrite Hd, Hsz.
Qed.

(** ** Destruction *)
Lemma destroy_map_host h mp :
  h_bytes (destroy_map h mp) = h_bytes h /\ h_next (destroy_map h mp) = h_next h /\
  h_prot (destroy_map h mp) = h_prot h.
Proof.
  unfold destroy_map, run_deleter, shared_reset. destruct (m_cow mp) as [c|]; cbn.
  - destruct (h_cbs h !! c) as [b|]; [|by destruct (del_owned _)]. destruct (cb_use b =? 1).
    + unfold run_deleter. by destruct (del_owned (cb_deleter b)), (del_owned (m_deleter mp)).
    + by destruct (del_owned (m_deleter mp)).
  - by destruct (del_owned (m_deleter mp)).
Qed.

(** Several segments destroyed in turn, as by a vector's destructor. *)
Lemma share_ok_drop_all h dead r : share_ok h (dead ++ r) -> share_ok (fold_left destroy_map dead h) r.
Proof. revert h. induction dead as [|d l IH]; intros h Hs; [done|]. cbn. by apply IH, share_ok_drop. Qed.

Lemma destroy_all_host dead h :
  h_bytes (fold_left destroy_map dead h) = h_bytes h /\ h_next (fold_left destroy_map dead h) = h_next h /\
  h_prot (fold_left destroy_map dead h) = h_prot h.
Proof.
  revert h. induction dead as [|d l IH]; intros h; [done|]. cbn.
  destruct (IH (destroy_map h d)) as (-> & -> & ->). apply destroy_map_host.
Qed.

(** ** Cutting a segment

    The source holds a local [shared_ptr] while it builds the pieces; the model
    of that reference is a second copy of the (unowned) segment. *)

Definition unowned (mp : memmap) : Prop := del_owned (m_deleter mp) = false.

Definition cut_of (mp q : memmap) : Prop :=
  part_of q mp /\ map_own q /\ unowned q /\ m_cow q = m_cow mp.

Definition copies (n : nat) (h : host) (c : option Z) : host := Nat.iter n (fun h => shared_copy h c) h.

Lemma copies_host n h c :
  h_bytes (copies n h c) = h_bytes h /\ h_next (copies n h c) = h_next h /\
  h_prot (copies n h c) = h_prot h.
Proof.
  induction n as [|n (H1 & H2 & H3)]; [done|]. cbn. destruct c; cbn; by rewrite ?H1, ?H2, ?H3.
Qed.

Lemma copies_none n h : copies n h None = h.
Proof. induction n as [|n IH]; [done|exact IH]. Qed.

Lemma destroy_unowned h mp : unowned mp -> destroy_map h mp = shared_reset h (m_cow mp).
Proof. unfold unowned, destroy_map, run_deleter. by intros ->. Qed.

Lemma piece_cut mp lo sz fl pth :
  m_paddr mp <= lo -> 0 < sz -> lo + sz <= m_paddr mp + m_size mp -> cut_of mp (piece mp lo sz fl pth).
Proof. intros. split; [by apply piece_part|]. by split. Qed.

Lemma self_cut mp : unowned mp -> map_own mp -> 0 < m_size mp -> cut_of mp mp.
Proof. intros. split; [by apply part_of_refl|]. by split. Qed.

Lemma share_ok_copies h mp ps r c :
  share_ok h (mp :: r) -> m_cow mp = Some c -> Forall (cut_of mp) ps ->
  share_ok (copies (length ps) h (Some c)) (ps ++ mp :: r).
Proof.
  intros Hs Hc Hps. induction Hps as [|q l (Hq & Hqo & _ & Hqc) _ IH]; [done|]. cbn.
  apply (share_ok_perm _ (q :: mp :: l ++ r)); [solve_Permutation|].
  apply share_ok_copy; [|done|congruence|done..].
  eapply share_ok_perm; [|exact IH]. solve_Permutation.
Qed.

(** While the pieces are built: they, the old segment and the local reference. *)
Lemma cut_refs h mp ps r c :
  share_ok h (mp :: r) -> m_cow mp = Some c -> unowned mp -> 0 < m_size mp ->
  Forall (cut_of mp) ps ->
  share_ok (copies (S (length ps)) h (Some c)) (ps ++ mp :: mp :: r).
Proof.
  intros Hs Hc Hu Hsz Hps. pose proof (sh_own _ _ Hs) as Ho. apply Forall_cons_iff in Ho as [Ho _].
  eapply (share_ok_perm _ ((mp :: ps) ++ mp :: r)); [solve_Permutation|].
  apply (share_ok_copies h mp (mp :: ps)); [done..|]. constructor; [by apply self_cut|done].
Qed.

Lemma cut_none h mp ps r :
  share_ok h (mp :: r) -> m_cow mp = None -> StronglySorted below ps -> Forall (cut_of mp) ps ->
  share_ok h (ps ++ r).
Proof.
  intros Hs Hc Hsort Hps. eapply share_ok_parts; [done..|].
  eapply Forall_impl; [exact Hps|]. intros q (? & ? & _ & Hq). by rewrite Hc in Hq.
Qed.

(** The pieces replace the segment: the old vector's element and the local
    reference go. *)
Lemma cut_commit h mp ps r :
  share_ok h (mp :: r) -> unowned mp -> 0 < m_size mp -> StronglySorted below ps ->
  Forall (cut_of mp) ps ->
  forall h', h_cbs h' = h_cbs (copies (S (length ps)) h (m_cow mp)) ->
    h_cbnext h' = h_cbnext (copies (S (length ps)) h (m_cow mp)) ->
    h_unmapped h' = h_unmapped (copies (S (length ps)) h (m_cow mp)) -> h_next h' = h_next h ->
  share_ok (shared_reset (destroy_map h' mp) (m_cow mp)) (ps ++ r).
Proof.
  intros Hs Hu Hsz Hsort Hps h' E1 E2 E3 E4. destruct (copies_host (S (length ps)) h (m_cow mp)) as (_ & En & _).
  destruct (m_cow mp) as [c|] eqn:Hc.
  - rewrite <- Hc, <- (destroy_unowned (destroy_map h' mp) mp Hu).
    do 2 apply share_ok_drop. apply (share_ok_perm _ (ps ++ mp :: mp :: r)); [solve_Permutation|].
    apply (share_ok_extend (copies (S (length ps)) h (Some c))); [by apply cut_refs|done..|lia|done].
  - rewrite (destroy_unowned h' mp Hu), Hc. cbn. rewrite copies_none in *.
    apply (share_ok_extend h); [by eapply cut_none|done..|lia|done].
Qed.

(** The cut is called off: the pieces and the local reference go. *)
Lemma cut_cancel h mp ps ps' r :
  share_ok h (mp :: r) -> unowned mp -> 0 < m_size mp -> Forall (cut_of mp) ps -> ps' ≡ₚ ps ->
  share_ok (shared_reset (fold_left destroy_map ps' (copies (S (length ps)) h (m_cow mp))) (m_cow mp)) (mp :: r).
Proof.
  intros Hs Hu Hsz Hps Hp. destruct (m_cow mp) as [c|] eqn:Hc.
  - rewrite <- Hc at 2. rewrite <- (destroy_unowned _ mp Hu). apply share_ok_drop, share_ok_drop_all.
    apply (share_ok_perm _ (ps ++ mp :: mp :: r)); [by rewrite Hp|]. by apply cut_refs.
  - cbn [shared_reset]. rewrite copies_none.
    assert (forall l, Forall (cut_of mp) l -> fold_left destroy_map l h = h) as ->; [|done|by rewrite Hp].
    intros l Hl. induction Hl as [|q l (_ & _ & Hq & Hqc) _ IH]; [done|]. cbn.
    rewrite (destroy_unowned h q Hq), Hqc, Hc. exact IH.
Qed.

(** The segments of a list that hold a [cow_data]. *)
Definition holders (ms : list memmap) : list memmap := filter (fun mp => is_Some (m_cow mp)) ms.

Lemma holders_app l l' : holders (l ++ l') = holders l ++ holders l'.
Proof. apply filter_app. Qed.

Lemma destroy_holders dead h :
  Forall unowned dead -> fold_left destroy_map dead h = fold_left destroy_map (holders dead) h.
Proof.
  intros Hd. revert h. induction Hd as [|d l Hu _ IH]; intros h; [done|]. unfold holders in *.
  rewrite filter_cons. case_decide as Hc; cbn [fold_left]; [apply IH|].
  rewrite (destroy_unowned h d Hu). destruct (m_cow d) as [c|]; [by destruct Hc|apply IH].
Qed.

(** The old segment stays behind in the old vector; only the local reference goes. *)
Lemma cut_keep h mp ps r :
  share_ok h (mp :: r) -> unowned mp -> 0 < m_size mp -> StronglySorted below ps ->
  Forall (cut_of mp) ps ->
  share_ok (shared_reset (copies (S (length ps)) h (m_cow mp)) (m_cow mp)) (ps ++ holders [mp] ++ r).
Proof.
  intros Hs Hu Hsz Hsort Hps. unfold holders. rewrite filter_cons. case_decide as Hc.
  - destruct Hc as [c Hc]. rewrite <- (destroy_unowned _ mp Hu), Hc. apply share_ok_drop.
    apply (share_ok_perm _ (ps ++ mp :: mp :: r)); [cbn; solve_Permutation|]. by apply cut_refs.
  - destruct (m_cow mp) as [c|] eqn:Ec; [by destruct Hc|]. cbn [shared_reset]. rewrite copies_none.
    by eapply cut_none.
Qed.

(** ** Live memory *)

(** A translated access touches no unmapped host byte. *)
Lemma translate_live m others addr size p u :
  mem_wf m -> share_ok (hst m) (maps m ++ others) -> valid_access addr size ->
  translate (maps m) addr size = Some p -> u ∈ h_unmapped (hst m) -> hdisjoint u.1 u.2 p size.
Proof.
  intros Hwf Hs Hv Ht Hu. apply translate_Some in Ht as (i & mp & Hi & [Hc1 Hc2] & ->); [|apply Hwf|done].
  pose proof (sh_live _ _ Hs) as Hl. rewrite list.Forall_forall in Hl. destruct (Hl u Hu) as [_ Hl'].
  apply Forall_app in Hl' as [Hl' _]. eapply Forall_lookup_1 in Hl'; [|exact Hi].
  destruct Hl' as [?|?]; [by left|right]. unfold host_of. cbn. lia.
Qed.
