(* ===== verification/Isa.v ===== *)
(** * Isa: instruction format and arithmetic

    [struct bpf_insn] and the opcode constants of insn.h, the little-endian
    image of an instruction in guest memory, and the arithmetic classes of
    insn.cpp: [vm::alu64] and [vm::alu] as functions on the register values
    ([alu64_op], [alu32_op]), and the condition of every conditional jump of
    [vm::jmp] and [vm::jmp32] ([jmp_cond], [jmp32_cond]).

    Main results: encoding and decoding an instruction are inverse, the
    arithmetic agrees with the mathematical operation each opcode names
    (including division by zero and the signed overflow case), and results are
    machine words. *)

From S2P Require Import Prelude HostMem.
From Stdlib Require Import Lia.
From stdpp Require Import base numbers list option.

Open Scope Z_scope.

(** ** Instruction format *)

Record bpf_insn := mkinsn {
  code : Z;       (** opcode, 8 bits *)
  dst_reg : Z;    (** 4 bits *)
  src_reg : Z;    (** 4 bits *)
  off : Z;        (** signed 16 bits *)
  imm : Z         (** signed 32 bits *)
}.

Definition INSN_SIZE : Z := 8.

(** Instruction classes. *)
Definition BPF_LD : Z := 0x00.
Definition BPF_LDX : Z := 0x01.
Definition BPF_ST : Z := 0x02.
Definition BPF_STX : Z := 0x03.
Definition BPF_ALU : Z := 0x04.
Definition BPF_JMP : Z := 0x05.
Definition BPF_JMP32 : Z := 0x06.
Definition BPF_ALU64 : Z := 0x07.

(** Source operand. *)
Definition BPF_K : Z := 0x00.
Definition BPF_X : Z := 0x08.

(** Arithmetic operations. *)
Definition BPF_ADD : Z := 0x00.
Definition BPF_SUB : Z := 0x10.
Definition BPF_MUL : Z := 0x20.
Definition BPF_DIV : Z := 0x30.
Definition BPF_OR : Z := 0x40.
Definition BPF_AND : Z := 0x50.
Definition BPF_LSH : Z := 0x60.
Definition BPF_RSH : Z := 0x70.
Definition BPF_NEG : Z := 0x80.
Definition BPF_MOD : Z := 0x90.
Definition BPF_XOR : Z := 0xa0.
Definition BPF_MOV : Z := 0xb0.
Definition BPF_ARSH : Z := 0xc0.
Definition BPF_END : Z := 0xd0.

(** Jump operations. *)
Definition BPF_JA : Z := 0x00.
Definition BPF_JEQ : Z := 0x10.
Definition BPF_JGT : Z := 0x20.
Definition BPF_JGE : Z := 0x30.
Definition BPF_JSET : Z := 0x40.
Definition BPF_JNE : Z := 0x50.
Definition BPF_JSGT : Z := 0x60.
Definition BPF_JSGE : Z := 0x70.
Definition BPF_CALL : Z := 0x80.
Definition BPF_EXIT : Z := 0x90.
Definition BPF_JLT : Z := 0xa0.
Definition BPF_JLE : Z := 0xb0.
Definition BPF_JSLT : Z := 0xc0.
Definition BPF_JSLE : Z := 0xd0.

(** Access sizes and modes. *)
Definition BPF_W : Z := 0x00.
Definition BPF_H : Z := 0x08.
Definition BPF_B : Z := 0x10.
Definition BPF_DW : Z := 0x18.
Definition BPF_IMM : Z := 0x00.
Definition BPF_ABS : Z := 0x20.
Definition BPF_IND : Z := 0x40.
Definition BPF_MEM : Z := 0x60.
Definition BPF_MEMSX : Z := 0x80.
Definition BPF_ATOMIC : Z := 0xc0.

(** Atomic operation codes, in the [imm] field. *)
Definition BPF_FETCH : Z := 0x01.
Definition BPF_XCHG : Z := Z.lor 0xe0 BPF_FETCH.
Definition BPF_CMPXCHG : Z := Z.lor 0xf0 BPF_FETCH.

Definition insn_class (i : bpf_insn) : Z := Z.land (code i) 0x07.
Definition insn_op (i : bpf_insn) : Z := Z.land (code i) 0xf0.
Definition insn_is_x (i : bpf_insn) : bool := Z.land (code i) 0x08 =? BPF_X.
Definition insn_mode (i : bpf_insn) : Z := Z.land (code i) 0xe0.
Definition insn_width (i : bpf_insn) : Z := Z.land (code i) 0x18.

(** ** The memory image of an instruction

    [mmu] returns a host pointer that the code reads as a [bpf_insn]: one byte
    of opcode, one byte holding the two 4-bit register numbers (destination in
    the low nibble), a 16-bit offset and a 32-bit immediate, little-endian. *)

Definition decode_insn (w : Z) : bpf_insn :=
  {| code := w mod 2 ^ 8;
     dst_reg := (w / 2 ^ 8) mod 2 ^ 4;
     src_reg := (w / 2 ^ 12) mod 2 ^ 4;
     off := s16 (w / 2 ^ 16);
     imm := s32 (w / 2 ^ 32) |}.

Definition encode_insn (i : bpf_insn) : Z :=
  code i + 2 ^ 8 * dst_reg i + 2 ^ 12 * src_reg i + 2 ^ 16 * u16 (off i) + 2 ^ 32 * u32 (imm i).

(** The ranges of the C bit fields. *)
Definition insn_ok (i : bpf_insn) : Prop :=
  0 <= code i < 2 ^ 8 /\ 0 <= dst_reg i < 2 ^ 4 /\ 0 <= src_reg i < 2 ^ 4 /\
  - 2 ^ 15 <= off i < 2 ^ 15 /\ - 2 ^ 31 <= imm i < 2 ^ 31.

(** [access_size] (insn.cpp): the bytes a load or store really touches. *)
Definition access_size (c : Z) : Z :=
  let w := Z.land c 0x18 in
  if w =? BPF_DW then 8 else if w =? BPF_W then 4 else if w =? BPF_H then 2 else 1.

(** ** Arithmetic *)

Definition INT64_MIN : Z := - 2 ^ 63.
Definition INT32_MIN : Z := - 2 ^ 31.

(** [__builtin_bswap16/32/64]: the bytes of the [n]-byte value in reverse order. *)
Fixpoint bswap (n : nat) (z : Z) : Z :=
  match n with
  | O => 0
  | S k => (z mod 256) * 2 ^ (8 * Z.of_nat k) + bswap k (z / 256)
  end.

(** [vm::alu64] on the destination value: [None] is [return false].  [src] is
    the operand after the [BPF_X]/[BPF_K] selection. *)
Definition alu64_op (i : bpf_insn) (dst src : Z) : option Z :=
  let op := insn_op i in
  let signed_src := s64 src in
  if op =? BPF_ADD then Some (u64 (dst + src))
  else if op =? BPF_SUB then Some (u64 (dst - src))
  else if op =? BPF_MUL then Some (u64 (dst * src))
  else if op =? BPF_DIV then
    if off i =? 0 then Some (if negb (src =? 0) then dst / src else 0)
    else Some (if src =? 0 then 0
               else if (signed_src =? -1) && (s64 dst =? INT64_MIN) then u64 INT64_MIN
               else u64 (Z.quot (s64 dst) signed_src))
  else if op =? BPF_OR then Some (Z.lor dst src)
  else if op =? BPF_AND then Some (Z.land dst src)
  else if op =? BPF_LSH then Some (u64 (Z.shiftl dst (Z.land src 0x3f)))
  else if op =? BPF_RSH then Some (Z.shiftr dst (Z.land src 0x3f))
  else if op =? BPF_NEG then Some (u64 (- s64 dst))
  else if op =? BPF_MOD then
    if off i =? 0 then Some (if negb (src =? 0) then dst mod src else dst)
    else Some (if src =? 0 then dst
               else if (signed_src =? -1) && (s64 dst =? INT64_MIN) then 0
               else u64 (Z.rem (s64 dst) signed_src))
  else if op =? BPF_XOR then Some (Z.lxor dst src)
  else if op =? BPF_MOV then
    Some (if off i =? 0 then src
          else if off i =? 8 then u64 (s8 src)
          else if off i =? 16 then u64 (s16 src)
          else if off i =? 32 then u64 (s32 src)
          else dst)
  else if op =? BPF_ARSH then Some (u64 (Z.shiftr (s64 dst) (Z.land src 0x3f)))
  else if op =? BPF_END then
    if imm i =? 16 then Some (bswap 2 (u16 dst))
    else if imm i =? 32 then Some (bswap 4 (u32 dst))
    else if imm i =? 64 then Some (bswap 8 dst)
    else None
  else Some dst.

(** [vm::alu]: the value written to the 64-bit destination register.  [dst64] is
    the full register ([BPF_END] with width 64 uses it). *)
Definition alu32_op (i : bpf_insn) (dst64 src : Z) : option Z :=
  let op := insn_op i in
  let dst := u32 dst64 in
  let signed_src := s32 src in
  if op =? BPF_ADD then Some (u32 (dst + src))
  else if op =? BPF_SUB then Some (u32 (dst - src))
  else if op =? BPF_MUL then Some (u32 (dst * src))
  else if op =? BPF_DIV then
    if off i =? 0 then Some (if negb (src =? 0) then dst / src else 0)
    else Some (if src =? 0 then 0
               else if (signed_src =? -1) && (s32 dst =? INT32_MIN) then u32 INT32_MIN
               else u32 (Z.quot (s32 dst) signed_src))
  else if op =? BPF_OR then Some (Z.lor dst src)
  else if op =? BPF_AND then Some (Z.land dst src)
  else if op =? BPF_LSH then Some (u32 (Z.shiftl dst (Z.land src 0x1f)))
  else if op =? BPF_RSH then Some (Z.shiftr dst (Z.land src 0x1f))
  else if op =? BPF_NEG then Some (u32 (- s32 dst))
  else if op =? BPF_MOD then
    if off i =? 0 then Some (if negb (src =? 0) then dst mod src else dst)
    else Some (if src =? 0 then dst
               else if (signed_src =? -1) && (s32 dst =? INT32_MIN) then 0
               else u32 (Z.rem (s32 dst) signed_src))
  else if op =? BPF_XOR then Some (Z.lxor dst src)
  else if op =? BPF_MOV then
    Some (if off i =? 0 then src
          else if off i =? 8 then u32 (s8 src)
          else if off i =? 16 then u32 (s16 src)
          else dst)
  else if op =? BPF_ARSH then Some (u32 (Z.shiftr (s32 dst) (Z.land src 0x1f)))
  else if op =? BPF_END then
    if insn_is_x i then
      if imm i =? 16 then Some (bswap 2 (u16 dst))
      else if imm i =? 32 then Some (bswap 4 dst)
      else if imm i =? 64 then Some (bswap 8 dst64)
      else None
    else
      if imm i =? 16 then Some (u16 dst)
      else if imm i =? 32 then Some (u32 dst)
      else if imm i =? 64 then Some dst64
      else None
  else Some dst.

(** ** Jump conditions *)

(** The conditional branches of [vm::jmp]: [Some taken] for a comparison,
    [None] for [BPF_JA], [BPF_CALL], [BPF_EXIT] and the unassigned opcodes. *)
Definition jmp_cond (op dst src : Z) : option bool :=
  if op =? BPF_JEQ then Some (dst =? src)
  else if op =? BPF_JGT then Some (src <? dst)
  else if op =? BPF_JGE then Some (src <=? dst)
  else if op =? BPF_JSET then Some (nz (Z.land dst src))
  else if op =? BPF_JNE then Some (negb (dst =? src))
  else if op =? BPF_JSGT then Some (s64 src <? s64 dst)
  else if op =? BPF_JSGE then Some (s64 src <=? s64 dst)
  else if op =? BPF_JLT then Some (dst <? src)
  else if op =? BPF_JLE then Some (dst <=? src)
  else if op =? BPF_JSLT then Some (s64 dst <? s64 src)
  else if op =? BPF_JSLE then Some (s64 dst <=? s64 src)
  else None.

(** The conditional branches of [vm::jmp32], on the low halves. *)
Definition jmp32_cond (op dst src : Z) : option bool :=
  if op =? BPF_JEQ then Some (dst =? src)
  else if op =? BPF_JGT then Some (src <? dst)
  else if op =? BPF_JGE then Some (src <=? dst)
  else if op =? BPF_JSET then Some (nz (Z.land dst src))
  else if op =? BPF_JNE then Some (negb (dst =? src))
  else if op =? BPF_JSGT then Some (s32 src <? s32 dst)
  else if op =? BPF_JSGE then Some (s32 src <=? s32 dst)
  else if op =? BPF_JLT then Some (dst <? src)
  else if op =? BPF_JLE then Some (dst <=? src)
  else if op =? BPF_JSLT then Some (s32 dst <? s32 src)
  else if op =? BPF_JSLE then Some (s32 dst <=? s32 src)
  else None.

(** ** Lemmas *)

Lemma decode_ok w : 0 <= w < 2 ^ 64 -> insn_ok (decode_insn w).
Proof.
  intros Hw. unfold insn_ok, decode_insn. cbn [code dst_reg src_reg off imm].
  pose proof (sval_range 16 (w / 2 ^ 16) ltac:(lia)).
  pose proof (sval_range 32 (w / 2 ^ 32) ltac:(lia)).
  repeat split; try apply Z.mod_pos_bound; lia.
Qed.

Lemma encode_range i : insn_ok i -> 0 <= encode_insn i < 2 ^ 64.
Proof.
  intros (Hc & Hd & Hs & _ & _). unfold encode_insn.
  pose proof (uwrap_range 16 (off i) ltac:(lia)). pose proof (uwrap_range 32 (imm i) ltac:(lia)). lia.
Qed.

Lemma encode_decode w : 0 <= w < 2 ^ 64 -> encode_insn (decode_insn w) = w.
Proof.
  intros Hw. unfold encode_insn, decode_insn. cbn [code dst_reg src_reg off imm].
  rewrite !uwrap_sval by lia. unfold uwrap.
  assert (w / 2 ^ 32 mod 2 ^ 32 = w / 2 ^ 32) as ->.
  { apply Z.mod_small. Z.to_euclidean_division_equations. lia. }
  assert (w / 2 ^ 32 = w / 2 ^ 16 / 2 ^ 16) as -> by (rewrite Z.div_div by lia; done).
  assert (w / 2 ^ 16 = w / 2 ^ 12 / 2 ^ 4) as -> by (rewrite Z.div_div by lia; done).
  assert (w / 2 ^ 12 = w / 2 ^ 8 / 2 ^ 4) as -> by (rewrite Z.div_div by lia; done).
  Z.to_euclidean_division_equations. lia.
Qed.

Lemma decode_encode i : insn_ok i -> decode_insn (encode_insn i) = i.
Proof.
  destruct i as [c d s o m]. intros (Hc & Hd & Hs & Ho & Hm). cbn in *.
  unfold decode_insn, encode_insn. cbn [code dst_reg src_reg off imm].
  pose proof (uwrap_range 16 o ltac:(lia)) as Hu. pose proof (uwrap_range 32 m ltac:(lia)) as Hv.
  set (ou := uwrap 16 o) in *. set (mu := uwrap 32 m) in *.
  f_equal.
  - Z.to_euclidean_division_equations; lia.
  - Z.to_euclidean_division_equations; lia.
  - Z.to_euclidean_division_equations; lia.
  - apply sval_unique; [lia..|]. fold ou. unfold uwrap. Z.to_euclidean_division_equations; lia.
  - apply sval_unique; [lia..|]. fold mu. unfold uwrap. Z.to_euclidean_division_equations; lia.
Qed.

(** *** Signed division *)

Lemma uwrap_mul_l w a b : uwrap w (uwrap w a * b) = uwrap w (a * b).
Proof. unfold uwrap. apply Zmult_mod_idemp_l. Qed.

Lemma uwrap_mul_r w a b : uwrap w (a * uwrap w b) = uwrap w (a * b).
Proof. unfold uwrap. apply Zmult_mod_idemp_r. Qed.

Lemma sval_zero w z : 0 < w -> 0 <= z < 2 ^ w -> sval w z = 0 -> z = 0.
Proof.
  intros Hw Hz H0. rewrite <- (uwrap_small w z Hz), <- uwrap_sval, H0 by lia. apply Z.mod_0_l.
  apply Z.pow_nonzero; lia.
Qed.

(** Truncated quotient and remainder recompose the dividend modulo [2^w]. *)
Lemma quot_rem_recompose w d s :
  0 < w ->
  uwrap w (uwrap w (Z.quot (sval w d) (sval w s)) * s + uwrap w (Z.rem (sval w d) (sval w s)))
  = uwrap w d.
Proof.
  intros Hw. rewrite uwrap_add_r, <- uwrap_add_l, uwrap_mul_l.
  rewrite <- uwrap_mul_r, <- (uwrap_sval w s), uwrap_mul_r, uwrap_add_l by lia.
  rewrite (Z.mul_comm (Z.quot _ _)), <- Z.quot_rem'. by apply uwrap_sval.
Qed.

(** The explicit test for [INT_MIN / -1] computes what wrapping would. *)
Lemma sdiv64_wraps d s :
  (if (s64 s =? -1) && (s64 d =? INT64_MIN) then u64 INT64_MIN else u64 (Z.quot (s64 d) (s64 s)))
  = u64 (Z.quot (s64 d) (s64 s)).
Proof. destruct (_ && _) eqn:E; [|done]. zprops. by rewrite H, H0. Qed.

Lemma smod64_wraps d s :
  (if (s64 s =? -1) && (s64 d =? INT64_MIN) then 0 else u64 (Z.rem (s64 d) (s64 s)))
  = u64 (Z.rem (s64 d) (s64 s)).
Proof. destruct (_ && _) eqn:E; [|done]. zprops. by rewrite H, H0. Qed.

Lemma sdiv32_wraps d s :
  (if (s32 s =? -1) && (s32 d =? INT32_MIN) then u32 INT32_MIN else u32 (Z.quot (s32 d) (s32 s)))
  = u32 (Z.quot (s32 d) (s32 s)).
Proof. destruct (_ && _) eqn:E; [|done]. zprops. by rewrite H, H0. Qed.

Lemma smod32_wraps d s :
  (if (s32 s =? -1) && (s32 d =? INT32_MIN) then 0 else u32 (Z.rem (s32 d) (s32 s)))
  = u32 (Z.rem (s32 d) (s32 s)).
Proof. destruct (_ && _) eqn:E; [|done]. zprops. by rewrite H, H0. Qed.

(** What the division opcodes promise at width [w]: quotient and remainder
    recompose the dividend; the unsigned remainder is smaller than the divisor,
    the signed one is smaller in magnitude and has the dividend's sign. *)
Definition divmod_spec (w : Z) (signed : bool) (d s q r : Z) : Prop :=
  uwrap w (q * s + r) = d /\
  0 <= q < 2 ^ w /\ 0 <= r < 2 ^ w /\
  (s = 0 -> q = 0 /\ r = d) /\
  (s <> 0 -> if signed then Z.abs (sval w r) < Z.abs (sval w s) /\ 0 <= sval w r * sval w d
             else q * s + r = d /\ r < s).

Lemma udivmod_ok w d s :
  0 <= w -> 0 <= d < 2 ^ w -> 0 <= s < 2 ^ w ->
  divmod_spec w false d s (if negb (s =? 0) then d / s else 0) (if negb (s =? 0) then d mod s else d).
Proof.
  intros Hw Hd Hs. unfold divmod_spec. destruct (Z.eqb_spec s 0) as [->|Hne]; cbn [negb].
  - rewrite Z.mul_0_r, Z.add_0_l, uwrap_small by done. repeat split; lia.
  - pose proof (Z.div_mod d s Hne). pose proof (Z.mod_pos_bound d s ltac:(lia)).
    assert (d / s * s + d mod s = d) as E by lia. rewrite E, uwrap_small by done.
    pose proof (Z.div_pos d s ltac:(lia) ltac:(lia)).
    assert (d / s <= d) by (apply Z.div_le_upper_bound; nia). repeat split; lia.
Qed.

Lemma sval_small_abs w z : 0 < w -> Z.abs z < 2 ^ (w - 1) -> sval w z = z.
Proof. intros Hw Hz. apply sval_unique; [done|lia|done]. Qed.

Lemma sdivmod_ok w d s :
  0 < w -> 0 <= d < 2 ^ w -> 0 <= s < 2 ^ w ->
  divmod_spec w true d s
    (if s =? 0 then 0 else uwrap w (Z.quot (sval w d) (sval w s)))
    (if s =? 0 then d else uwrap w (Z.rem (sval w d) (sval w s))).
Proof.
  intros Hw Hd Hs. unfold divmod_spec. destruct (Z.eqb_spec s 0) as [->|Hne].
  - rewrite Z.mul_0_l, Z.add_0_l, uwrap_small by done. repeat split; lia.
  - rewrite quot_rem_recompose, uwrap_small by done.
    split; [done|]. split; [apply uwrap_range; lia|]. split; [apply uwrap_range; lia|].
    split; [lia|]. intros _.
    assert (sval w s <> 0) as Hs0 by (intros E; apply Hne; by eapply sval_zero).
    pose proof (Z.rem_bound_abs (sval w d) (sval w s) Hs0) as Hb.
    pose proof (sval_range w s Hw).
    rewrite sval_uwrap, sval_small_abs; [|done|lia]. split; [done|].
    by apply Z.rem_sign_mul.
Qed.

(** *** A reference semantics for both widths

    [alu_math w] is the result of every arithmetic opcode but [BPF_END] as an
    integer, for operands of width [w]; the instruction keeps it modulo [2^w]. *)

Definition alu_math (w : Z) (i : bpf_insn) (d s : Z) : Z :=
  let op := insn_op i in
  if op =? BPF_ADD then d + s
  else if op =? BPF_SUB then d - s
  else if op =? BPF_MUL then d * s
  else if op =? BPF_DIV then
    if s =? 0 then 0 else if off i =? 0 then d / s else Z.quot (sval w d) (sval w s)
  else if op =? BPF_OR then Z.lor d s
  else if op =? BPF_AND then Z.land d s
  else if op =? BPF_LSH then d * 2 ^ (s mod w)
  else if op =? BPF_RSH then d / 2 ^ (s mod w)
  else if op =? BPF_NEG then - d
  else if op =? BPF_MOD then
    if s =? 0 then d else if off i =? 0 then d mod s else Z.rem (sval w d) (sval w s)
  else if op =? BPF_XOR then Z.lxor d s
  else if op =? BPF_MOV then
    if off i =? 0 then s
    else if off i =? 8 then sval 8 s
    else if off i =? 16 then sval 16 s
    else if (off i =? 32) && (w =? 64) then sval 32 s
    else d
  else if op =? BPF_ARSH then sval w d / 2 ^ (s mod w)
  else d.

Lemma land_63 s : Z.land s 0x3f = s mod 64.
Proof. apply (land_mask s 6). lia. Qed.

Lemma land_31 s : Z.land s 0x1f = s mod 32.
Proof. apply (land_mask s 5). lia. Qed.

Lemma opp_sval w d : 0 < w -> uwrap w (- sval w d) = uwrap w (- d).
Proof.
  intros Hw. rewrite <- (Z.sub_0_l d), <- uwrap_sub_r, <- (uwrap_sval w d), uwrap_sub_r by lia.
  f_equal.
Qed.

Lemma alu64_math i d s :
  in_u64 d -> in_u64 s -> insn_op i <> BPF_END -> alu64_op i d s = Some (u64 (alu_math 64 i d s)).
Proof.
  intros Hd Hs Hne. unfold alu64_op, alu_math. rewrite land_63.
  pose proof (Z.mod_pos_bound s 64 ltac:(lia)) as Hm.
  destruct (Z.eqb_spec (insn_op i) BPF_END); [done|].
  rewrite sdiv64_wraps, smod64_wraps, opp_sval, Z.shiftl_mul_pow2, !Z.shiftr_div_pow2 by lia.
  repeat case_match; zprops; try done; f_equal; symmetry; try apply uwrap_small; try done;
    try (rewrite <- (Z.shiftr_div_pow2 d) by lia; apply shiftr_range; [lia|done]).
  - destruct (udivmod_ok 64 d s) as (_ & H' & _); [lia|done..|].
    destruct (Z.eqb_spec s 0); [done|]. exact H'.
  - apply lor_range; [lia|done..].
  - apply land_range_l; [done|]. unfold in_u64 in Hs; lia.
  - destruct (udivmod_ok 64 d s) as (_ & _ & H' & _); [lia|done..|].
    destruct (Z.eqb_spec s 0); [done|]. exact H'.
  - apply lxor_range; [lia|done..].
Qed.

Lemma alu32_math i d64 s :
  0 <= s < 2 ^ 32 -> insn_op i <> BPF_END ->
  alu32_op i d64 s = Some (u32 (alu_math 32 i (u32 d64) s)).
Proof.
  intros Hs Hne. unfold alu32_op, alu_math. rewrite land_31.
  pose proof (Z.mod_pos_bound s 32 ltac:(lia)) as Hm. pose proof (u32_range d64) as Hd.
  destruct (Z.eqb_spec (insn_op i) BPF_END); [done|]. rewrite andb_false_r.
  set (d := u32 d64) in *.
  rewrite sdiv32_wraps, smod32_wraps, opp_sval, Z.shiftl_mul_pow2, !Z.shiftr_div_pow2 by lia.
  repeat case_match; zprops; try done; f_equal; symmetry; try apply uwrap_small; try done;
    try (rewrite <- (Z.shiftr_div_pow2 d) by lia; apply shiftr_range; [lia|done]).
  - destruct (udivmod_ok 32 d s) as (_ & H' & _); [lia|done..|].
    destruct (Z.eqb_spec s 0); [done|]. exact H'.
  - apply lor_range; [lia|done..].
  - apply land_range_l; [done|lia].
  - destruct (udivmod_ok 32 d s) as (_ & _ & H' & _); [lia|done..|].
    destruct (Z.eqb_spec s 0); [done|]. exact H'.
  - apply lxor_range; [lia|done..].
Qed.

(** *** Byte order *)

Lemma bswap_range n z : 0 <= bswap n z < 2 ^ (8 * Z.of_nat n).
Proof.
  revert z. induction n as [|n IH]; intros z; [done|]. cbn [bswap].
  specialize (IH (z / 256)). pose proof (Z.mod_pos_bound z 256 ltac:(lia)).
  replace (8 * Z.of_nat (S n)) with (8 + 8 * Z.of_nat n) by lia.
  rewrite Z.pow_add_r by lia. nia.
Qed.

(** The most significant byte goes last. *)
Lemma bswap_snoc n z :
  bswap (S n) z = 256 * bswap n z + (z / 2 ^ (8 * Z.of_nat n)) mod 256.
Proof.
  revert z. induction n as [|n IH]; intros z.
  { cbn. rewrite Z.div_1_r. lia. }
  assert (8 * Z.of_nat (S n) = 8 + 8 * Z.of_nat n) as E by lia.
  change (bswap (S (S n)) z) with ((z mod 256) * 2 ^ (8 * Z.of_nat (S n)) + bswap (S n) (z / 256)).
  rewrite IH. cbn [bswap]. rewrite E, Z.pow_add_r by lia.
  rewrite Z.div_div by (try apply Z.pow_pos_nonneg; lia). change (2 ^ 8) with 256. ring.
Qed.

Lemma bswap_involutive n z : bswap n (bswap n z) = z mod 2 ^ (8 * Z.of_nat n).
Proof.
  revert z. induction n as [|n IH]; intros z; [cbn; by rewrite Z.mod_1_r|].
  cbn [bswap]. change (z mod 256 * 2 ^ (8 * Z.of_nat n) + bswap n (z / 256)) with (bswap (S n) z).
  rewrite bswap_snoc.
  pose proof (Z.mod_pos_bound (z / 2 ^ (8 * Z.of_nat n)) 256 ltac:(lia)) as Hb.
  set (m := (z / 2 ^ (8 * Z.of_nat n)) mod 256) in *.
  replace (256 * bswap n z + m) with (m + bswap n z * 256) by lia.
  rewrite Z_mod_plus_full, Z.div_add by lia.
  rewrite (Z.mod_small m 256), (Z.div_small m 256), Z.add_0_l, IH by lia. subst m.
  replace (8 * Z.of_nat (S n)) with (8 * Z.of_nat n + 8) by lia.
  rewrite Z.pow_add_r, Z.rem_mul_r by (try apply Z.pow_nonzero; lia).
  change (2 ^ 8) with 256. lia.
Qed.

Lemma bswap_mod n z : bswap n (z mod 2 ^ (8 * Z.of_nat n)) = bswap n z.
Proof.
  rewrite <- (bswap_involutive n z), bswap_involutive. apply Z.mod_small, bswap_range.
Qed.

(** *** Word results *)

Lemma bswap_word n z : (n <= 8)%nat -> in_u64 (bswap n z).
Proof.
  intros Hn. pose proof (bswap_range n z).
  assert (2 ^ (8 * Z.of_nat n) <= 2 ^ 64) by (apply Z.pow_le_mono_r; lia). unfold in_u64. lia.
Qed.

Lemma alu64_range i d s v : in_u64 d -> in_u64 s -> alu64_op i d s = Some v -> in_u64 v.
Proof.
  intros Hd Hs Hv. destruct (decide (insn_op i = BPF_END)) as [E|E].
  - unfold alu64_op in Hv. rewrite E in Hv. cbn -[bswap] in Hv.
    repeat case_match; simplify_eq; apply bswap_word; lia.
  - rewrite alu64_math in Hv by done. simplify_eq. apply u64_range.
Qed.

Lemma alu32_range i d s v :
  in_u64 d -> 0 <= s < 2 ^ 32 -> alu32_op i d s = Some v ->
  in_u64 v /\ (insn_op i <> BPF_END -> v < 2 ^ 32).
Proof.
  intros Hd Hs Hv. destruct (decide (insn_op i = BPF_END)) as [E|E].
  - split; [|done]. unfold alu32_op in Hv. rewrite E in Hv. cbn -[bswap] in Hv.
    pose proof (u32_range (u32 d)). pose proof (uwrap_range 16 (u32 d) ltac:(lia)).
    repeat case_match; simplify_eq; try (apply bswap_word; lia); unfold in_u64 in *; lia.
  - rewrite alu32_math in Hv by done. simplify_eq. pose proof (u32_range (alu_math 32 i (u32 d) s)).
    unfold in_u64. lia.
Qed.

(** *** Jump conditions *)

(** The register image of a 32-bit value extended with its sign. *)
Definition sext32 (z : Z) : Z := u64 (s32 z).

Lemma sext32_cases z :
  sext32 z = u32 z /\ u32 z < 2 ^ 31 \/ sext32 z = u32 z + (2 ^ 64 - 2 ^ 32) /\ 2 ^ 31 <= u32 z.
Proof.
  unfold sext32, sval. cbn zeta. fold (u32 z). pose proof (u32_range z).
  change (32 - 1) with 31. destruct (Z.ltb_spec (u32 z) (2 ^ 31)).
  - left. split; [|done]. apply uwrap_small. lia.
  - right. split; [|done]. set (u := u32 z) in *. unfold uwrap.
    rewrite <- (Z_mod_plus_full _ 1). rewrite Z.mod_small; lia.
Qed.

Lemma s64_sext32 z : s64 (sext32 z) = s32 z.
Proof.
  apply sval_unique; [lia| |].
  - pose proof (sval_range 32 z ltac:(lia)). lia.
  - unfold sext32. by rewrite uwrap_idem.
Qed.

Lemma testbit_nz z i : Z.testbit z i = true -> nz z = true.
Proof. intros Hb. unfold nz. destruct (Z.eqb_spec z 0) as [->|]; [|done]. by rewrite Z.bits_0 in Hb. Qed.

(** Sign extension as a bit pattern: the sign bit fills the high half. *)
Lemma sext32_bits z i :
  0 <= i -> Z.testbit (sext32 z) i =
  if i <? 32 then Z.testbit (u32 z) i else (i <? 64) && Z.testbit (u32 z) 31.
Proof.
  intros Hi. pose proof (u32_range z) as Hr.
  assert (forall k, 0 <= k -> Z.testbit (u32 z + k * 2 ^ 32) i =
    if i <? 32 then Z.testbit (u32 z) i else Z.testbit k (i - 32)) as Hk.
  { intros k Hk. rewrite <- lor_shiftl_add, Z.lor_spec, Z.shiftl_spec by lia.
    destruct (Z.ltb_spec i 32).
    - rewrite (Z.testbit_neg_r k) by lia. apply orb_false_r.
    - by rewrite (testbit_high (u32 z) 32) by lia. }
  destruct (sext32_cases z) as [[-> Hlt]|[-> Hge]].
  - rewrite (testbit_high (u32 z) 31 31), andb_false_r by lia.
    destruct (Z.ltb_spec i 32); [done|]. apply (testbit_high _ 32); lia.
  - replace (2 ^ 64 - 2 ^ 32) with ((2 ^ 32 - 1) * 2 ^ 32) by lia. rewrite Hk by lia.
    destruct (Z.ltb_spec i 32); [done|].
    replace (2 ^ 32 - 1) with (Z.ones 32) by done.
    assert (Z.testbit (u32 z) 31 = true) as ->.
    { apply Z.testbit_true; [lia|]. Z.to_euclidean_division_equations; lia. }
    rewrite andb_true_r. destruct (Z.ltb_spec i 64).
    + apply Z.ones_spec_low. lia.
    + apply Z.ones_spec_high. lia.
Qed.

Lemma sext32_land a b :
  nz (Z.land (sext32 a) (sext32 b)) = nz (Z.land (u32 a) (u32 b)).
Proof.
  destruct (Z.eq_dec (Z.land (u32 a) (u32 b)) 0) as [E|E].
  - rewrite E. cut (Z.land (sext32 a) (sext32 b) = 0); [by intros ->|].
    assert (forall i, Z.testbit (u32 a) i && Z.testbit (u32 b) i = false) as Hz.
    { intros i. by rewrite <- Z.land_spec, E, Z.bits_0. }
    apply Z.bits_inj'. intros i Hi. rewrite Z.land_spec, Z.bits_0, !sext32_bits by done.
    destruct (i <? 32); [apply Hz|]. destruct (i <? 64); [apply (Hz 31)|done].
  - assert (nz (Z.land (u32 a) (u32 b)) = true) as ->.
    { unfold nz. by destruct (Z.eqb_spec (Z.land (u32 a) (u32 b)) 0). }
    pose proof (u32_range a). pose proof (u32_range b).
    assert (0 <= Z.land (u32 a) (u32 b) < 2 ^ 32) as Hr by (apply land_range_l; lia).
    set (i := Z.log2 (Z.land (u32 a) (u32 b))).
    assert (0 <= i < 32) as Hi by (split; [apply Z.log2_nonneg|apply Z.log2_lt_pow2; lia]).
    apply (testbit_nz _ i). rewrite Z.land_spec, !sext32_bits by lia.
    destruct (Z.ltb_spec i 32); [|lia]. rewrite <- Z.land_spec. apply Z.bit_log2. lia.
Qed.

Lemma jmp32_cond_sext_aux op d s :
  jmp32_cond op (u32 d) (u32 s) = jmp_cond op (sext32 d) (sext32 s).
Proof.
  unfold jmp32_cond, jmp_cond. rewrite !s64_sext32, !sval_uwrap, sext32_land.
  pose proof (sext32_cases d) as Hd. pose proof (sext32_cases s) as Hs.
  pose proof (u32_range d). pose proof (u32_range s).
  repeat case_match; zprops; try done; f_equal; zcases; try done; lia.
Qed.

(** *** The division opcodes *)

Lemma alu64_div i d s :
  insn_op i = BPF_DIV -> alu64_op i d s =
  Some (if off i =? 0 then (if negb (s =? 0) then d / s else 0)
        else if s =? 0 then 0 else u64 (Z.quot (s64 d) (s64 s))).
Proof. intros E. unfold alu64_op. rewrite E, sdiv64_wraps. cbn. by case_match. Qed.

Lemma alu64_mod i d s :
  insn_op i = BPF_MOD -> alu64_op i d s =
  Some (if off i =? 0 then (if negb (s =? 0) then d mod s else d)
        else if s =? 0 then d else u64 (Z.rem (s64 d) (s64 s))).
Proof. intros E. unfold alu64_op. rewrite E, smod64_wraps. cbn. by case_match. Qed.

Lemma alu32_div i d64 s :
  insn_op i = BPF_DIV -> alu32_op i d64 s =
  Some (if off i =? 0 then (if negb (s =? 0) then u32 d64 / s else 0)
        else if s =? 0 then 0 else u32 (Z.quot (s32 (u32 d64)) (s32 s))).
Proof. intros E. unfold alu32_op. rewrite E, sdiv32_wraps. cbn. by case_match. Qed.

Lemma alu32_mod i d64 s :
  insn_op i = BPF_MOD -> alu32_op i d64 s =
  Some (if off i =? 0 then (if negb (s =? 0) then u32 d64 mod s else u32 d64)
        else if s =? 0 then u32 d64 else u32 (Z.rem (s32 (u32 d64)) (s32 s))).
Proof. intros E. unfold alu32_op. rewrite E, smod32_wraps. cbn. by case_match. Qed.

(** ** Properties *)

(** Instruction encoding is a bijection: decoding the 8-byte image of an
    instruction whose fields fit their C bit-fields gives the instruction back,
    and re-encoding any decoded 64-bit word gives the word back. *)
Theorem insn_roundtrip :
  (forall i, insn_ok i -> decode_insn (encode_insn i) = i /\ 0 <= encode_insn i < 2 ^ 64) /\
  (forall w, 0 <= w < 2 ^ 64 -> encode_insn (decode_insn w) = w /\ insn_ok (decode_insn w)).
Proof.
  split; [intros i Hi|intros w Hw].
  - split; [by apply decode_encode|by apply encode_range].
  - split; [by apply encode_decode|by apply decode_ok].
Qed.

Lemma insn_roundtrip_witness :
  let i := mkinsn 0x79 1 10 (-16) (-1) in
  insn_ok i /\ decode_insn (encode_insn i) = i /\ encode_insn i = 0xfffffffffff0a179.
Proof.
  assert (insn_ok (mkinsn 0x79 1 10 (-16) (-1))) as H.
  { unfold insn_ok. cbn. lia. }
  split; [exact H|]. split; [|reflexivity]. exact (proj1 (proj1 insn_roundtrip _ H)).
Defined.

(** C6: Both arithmetic classes implement one reference semantics: for every
    opcode but [BPF_END], [alu64] and [alu] return the mathematical result of
    the opcode on operands of their width, reduced modulo [2^64] resp. [2^32];
    shift counts are taken modulo the width and the signed-overflow division is
    covered. *)
Theorem alu_reference i d s (Hd : in_u64 d) (Hs : in_u64 s) (Hop : insn_op i <> BPF_END) :
  alu64_op i d s = Some (u64 (alu_math 64 i d s)) /\
  alu32_op i d (u32 s) = Some (u32 (alu_math 32 i (u32 d) (u32 s))).
Proof. split; [by apply alu64_math|apply alu32_math; [apply u32_range|done]]. Qed.

Lemma alu_reference_witness :
  let i := mkinsn 0x3f 1 2 1 0 in
  insn_op i <> BPF_END /\ alu64_op i (2 ^ 63) (2 ^ 64 - 1) = Some (2 ^ 63).
Proof.
  cbn zeta. split; [done|].
  rewrite (proj1 (alu_reference (mkinsn 0x3f 1 2 1 0) (2 ^ 63) (2 ^ 64 - 1)
    ltac:(unfold in_u64; lia) ltac:(unfold in_u64; lia) ltac:(done))).
  reflexivity.
Defined.

(** Division and remainder fit together for every divisor, zero and the
    overflowing signed case included: quotient times divisor plus remainder is
    the dividend modulo the width; dividing by zero gives quotient 0 and leaves
    the dividend as remainder; otherwise the remainder is smaller than the
    divisor (in magnitude, with the dividend's sign, for the signed forms). *)
Theorem alu_divmod i j d s (Hi : insn_op i = BPF_DIV) (Hj : insn_op j = BPF_MOD)
  (Hoff : off i = off j) (Hd : in_u64 d) (Hs : in_u64 s) :
  (exists q r, alu64_op i d s = Some q /\ alu64_op j d s = Some r /\
     divmod_spec 64 (negb (off i =? 0)) d s q r) /\
  (exists q r, alu32_op i d (u32 s) = Some q /\ alu32_op j d (u32 s) = Some r /\
     divmod_spec 32 (negb (off i =? 0)) (u32 d) (u32 s) q r).
Proof.
  rewrite alu64_div, alu64_mod, alu32_div, alu32_mod, <- Hoff by done.
  pose proof (u32_range d). pose proof (u32_range s).
  split; eexists _, _; (split; [done|]); (split; [done|]); destruct (off i =? 0); cbn [negb].
  - by apply udivmod_ok.
  - by apply sdivmod_ok.
  - by apply udivmod_ok.
  - by apply sdivmod_ok.
Qed.

Lemma alu_divmod_witness :
  exists q r, alu64_op (mkinsn 0x3f 1 2 1 0) (2 ^ 64 - 7) 2 = Some q /\
    alu64_op (mkinsn 0x9f 1 2 1 0) (2 ^ 64 - 7) 2 = Some r /\
    divmod_spec 64 true (2 ^ 64 - 7) 2 q r.
Proof.
  exact (proj1 (alu_divmod (mkinsn 0x3f 1 2 1 0) (mkinsn 0x9f 1 2 1 0) (2 ^ 64 - 7) 2
    eq_refl eq_refl eq_refl ltac:(unfold in_u64; lia) ltac:(unfold in_u64; lia))).
Defined.

(** The big-endian conversion of [alu] and the byte swap of [alu64] reverse
    the bytes of the selected width, so applying the instruction twice leaves
    the zero-extended low part; any other width is an illegal instruction. *)
Theorem bpf_end_involutive i d s (Hop : insn_op i = BPF_END) (Hx : insn_is_x i = true)
  (Hd : in_u64 d) :
  (forall f, (f = alu64_op \/ f = alu32_op) -> forall n, (n = 2 \/ n = 4 \/ n = 8)%nat ->
     imm i = 8 * Z.of_nat n ->
     f i d s = Some (bswap n d) /\ f i (bswap n d) s = Some (d mod 2 ^ imm i)) /\
  (~ (imm i = 16 \/ imm i = 32 \/ imm i = 64) ->
     alu64_op i d s = None /\ alu32_op i d s = None).
Proof.
  split.
  - intros f Hf n Hn Hi.
    assert (forall z, in_u64 z -> f i z s = Some (bswap n z)) as Hfz.
    { intros z Hz. pose proof (bswap_mod n z) as Hm.
      destruct Hf as [-> | ->]; unfold alu64_op, alu32_op; rewrite Hop, Hi, ?Hx;
        destruct Hn as [->|[->| ->]]; cbn -[bswap Z.pow] in *; rewrite <- Hm; unfold uwrap.
      - done.
      - done.
      - by rewrite Hm.
      - do 2 f_equal. by apply (uwrap_uwrap 16 32).
      - done.
      - by rewrite Hm. }
    split; [by apply Hfz|]. rewrite Hfz by (apply bswap_word; lia).
    by rewrite bswap_involutive, Hi.
  - intros Hn. unfold alu64_op, alu32_op. rewrite Hop, Hx. cbn -[bswap].
    destruct (Z.eqb_spec (imm i) 16); [lia|]. destruct (Z.eqb_spec (imm i) 32); [lia|].
    destruct (Z.eqb_spec (imm i) 64); [lia|]. done.
Qed.

Lemma bpf_end_involutive_witness :
  alu32_op (mkinsn 0xdc 1 0 0 32) 0x1122334455667788 0 = Some 0x88776655 /\
  alu32_op (mkinsn 0xdc 1 0 0 32) 0x88776655 0 = Some 0x55667788.
Proof.
  exact (proj1 (bpf_end_involutive (mkinsn 0xdc 1 0 0 32) 0x1122334455667788 0
    eq_refl eq_refl ltac:(unfold in_u64; lia)) alu32_op (or_intror eq_refl) 4%nat
    ltac:(lia) eq_refl).
Defined.

(** Every 32-bit conditional jump takes the decision the 64-bit jump with
    the same opcode takes on the sign-extended operands, so it depends on the
    low halves of the registers only. *)
Theorem jmp32_sign_extended op d s :
  jmp32_cond op (u32 d) (u32 s) = jmp_cond op (sext32 d) (sext32 s).
Proof. apply jmp32_cond_sext_aux. Qed.
