(* ===== verification/Vm.v ===== *)
(** * Vm: the machine state and the monad its code runs in

    [class vm] of insn.h as the record [vm], its flag constants, the register
    file, and the interfaces to the parts the virtual machine calls through
    pointers: [SyscallHandler] (insn.h; the POSIX layer implements it),
    [DebugHooks] (the GDB server installs them) and the JIT compiler.

    The member functions are computations in [M]: they thread the machine state
    and either return or block.  Blocking is the only effect of waiting on
    [wait_cv]: other threads change [flags] meanwhile, so the words observed
    after each wait are inputs ([wait_obs]), and a computation that has no
    observation left is [Blocked].

    Main results: the rules of [preserves] (a computation keeps an invariant on
    every path, blocking included), the effect of the blocking primitives
    [wait_for], [debug_park], [wakeup]. *)

From S2P Require Import Prelude HostMem AddrSpace.
From Stdlib Require Import Lia.
From stdpp Require Import base numbers list gmap strings option.

Open Scope Z_scope.

(** ** State *)

(** [struct vmOptions]; [envp] is the [std::map] in key order. *)
Record vmOptions := mkoptions {
  verbose : bool;
  raw_stack : bool;
  insn_limit : Z;
  stack_limit : Z;
  argv : list string;
  envp : list (string * string)
}.

Section State.
Context {S : Type}.

Record vm := mkvm {
  options : vmOptions;  (** [options] *)
  pc_ : Z;  (** [pc_] *)
  reg : list Z;  (** [reg[11]] *)
  flags : Z;  (** [std::atomic<uint32_t> flags] *)
  insn_count : Z;
  interp_insns : Z;
  mm : mmem;  (** [tlb], [maps] and the host memory behind them *)
  image : option Z;  (** [image_]: the entry address of the loaded program *)
  signal_depth : Z;
  tp_ : Z;  (** thread pointer *)
  restart_syscall_pc_ : Z;
  restart_nohand_ : bool;
  sys : S;  (** state of [options.sys] *)
  wait_obs : list Z;  (** flag words seen after each condition-variable wait *)
  clock_obs : list (Z * Z)  (** readings of [CLOCK_REALTIME] (seconds, nanoseconds) *)
}.

Definition set_options (x : vmOptions) (v : vm) : vm :=
  mkvm x (pc_ v) (reg v) (flags v) (insn_count v) (interp_insns v) (mm v) (image v) (signal_depth v) (tp_ v) (restart_syscall_pc_ v) (restart_nohand_ v) (sys v) (wait_obs v) (clock_obs v).
Definition set_pc (x : Z) (v : vm) : vm :=
  mkvm (options v) x (reg v) (flags v) (insn_count v) (interp_insns v) (mm v) (image v) (signal_depth v) (tp_ v) (restart_syscall_pc_ v) (restart_nohand_ v) (sys v) (wait_obs v) (clock_obs v).
Definition set_reg (x : list Z) (v : vm) : vm :=
  mkvm (options v) (pc_ v) x (flags v) (insn_count v) (interp_insns v) (mm v) (image v) (signal_depth v) (tp_ v) (restart_syscall_pc_ v) (restart_nohand_ v) (sys v) (wait_obs v) (clock_obs v).
Definition put_flags (x : Z) (v : vm) : vm :=
  mkvm (options v) (pc_ v) (reg v) x (insn_count v) (interp_insns v) (mm v) (image v) (signal_depth v) (tp_ v) (restart_syscall_pc_ v) (restart_nohand_ v) (sys v) (wait_obs v) (clock_obs v).
Definition set_insn_count (x : Z) (v : vm) : vm :=
  mkvm (options v) (pc_ v) (reg v) (flags v) x (interp_insns v) (mm v) (image v) (signal_depth v) (tp_ v) (restart_syscall_pc_ v) (restart_nohand_ v) (sys v) (wait_obs v) (clock_obs v).
Definition set_interp_insns (x : Z) (v : vm) : vm :=
  mkvm (options v) (pc_ v) (reg v) (flags v) (insn_count v) x (mm v) (image v) (signal_depth v) (tp_ v) (restart_syscall_pc_ v) (restart_nohand_ v) (sys v) (wait_obs v) (clock_obs v).
Definition set_mm (x : mmem) (v : vm) : vm :=
  mkvm (options v) (pc_ v) (reg v) (flags v) (insn_count v) (interp_insns v) x (image v) (signal_depth v) (tp_ v) (restart_syscall_pc_ v) (restart_nohand_ v) (sys v) (wait_obs v) (clock_obs v).
Definition set_image (x : option Z) (v : vm) : vm :=
  mkvm (options v) (pc_ v) (reg v) (flags v) (insn_count v) (interp_insns v) (mm v) x (signal_depth v) (tp_ v) (restart_syscall_pc_ v) (restart_nohand_ v) (sys v) (wait_obs v) (clock_obs v).
Definition set_signal_depth (x : Z) (v : vm) : vm :=
  mkvm (options v) (pc_ v) (reg v) (flags v) (insn_count v) (interp_insns v) (mm v) (image v) x (tp_ v) (restart_syscall_pc_ v) (restart_nohand_ v) (sys v) (wait_obs v) (clock_obs v).
Definition set_tp (x : Z) (v : vm) : vm :=
  mkvm (options v) (pc_ v) (reg v) (flags v) (insn_count v) (interp_insns v) (mm v) (image v) (signal_depth v) x (restart_syscall_pc_ v) (restart_nohand_ v) (sys v) (wait_obs v) (clock_obs v).
Definition set_restart_pc (x : Z) (v : vm) : vm :=
  mkvm (options v) (pc_ v) (reg v) (flags v) (insn_count v) (interp_insns v) (mm v) (image v) (signal_depth v) (tp_ v) x (restart_nohand_ v) (sys v) (wait_obs v) (clock_obs v).
Definition set_restart_nohand (x : bool) (v : vm) : vm :=
  mkvm (options v) (pc_ v) (reg v) (flags v) (insn_count v) (interp_insns v) (mm v) (image v) (signal_depth v) (tp_ v) (restart_syscall_pc_ v) x (sys v) (wait_obs v) (clock_obs v).
Definition set_sys (x : S) (v : vm) : vm :=
  mkvm (options v) (pc_ v) (reg v) (flags v) (insn_count v) (interp_insns v) (mm v) (image v) (signal_depth v) (tp_ v) (restart_syscall_pc_ v) (restart_nohand_ v) x (wait_obs v) (clock_obs v).
Definition set_wait_obs (x : list Z) (v : vm) : vm :=
  mkvm (options v) (pc_ v) (reg v) (flags v) (insn_count v) (interp_insns v) (mm v) (image v) (signal_depth v) (tp_ v) (restart_syscall_pc_ v) (restart_nohand_ v) (sys v) x (clock_obs v).
Definition set_clock_obs (x : list (Z * Z)) (v : vm) : vm :=
  mkvm (options v) (pc_ v) (reg v) (flags v) (insn_count v) (interp_insns v) (mm v) (image v) (signal_depth v) (tp_ v) (restart_syscall_pc_ v) (restart_nohand_ v) (sys v) (wait_obs v) x.

End State.
Arguments vm S : clear implicits.

(** ** Flags *)

Definition VM_EXITED : Z := 0x1.
Definition VM_STOPPED : Z := 0x2.
Definition VM_KILLED : Z := 0x4.
Definition VM_SIGNAL_PENDING : Z := 0x8.
Definition VM_BUDGET_EXCEEDED : Z := 0x10.
Definition VM_BLOCKED : Z := 0x20.
Definition VM_DEBUG_ATTACHED : Z := 0x40.
Definition VM_DEBUG_STOP : Z := 0x80.
Definition VM_JIT_ABORT : Z := 0x100.

(** [errno] values the virtual machine itself returns, and signal numbers. *)
Definition EINTR : Z := 4.
Definition ENOMEM : Z := 12.
Definition EFAULT : Z := 14.
Definition EINVAL : Z := 22.
Definition ENOSYS : Z := 38.
Definition ETIMEDOUT : Z := 110.
Definition SIGKILL : Z := 9.

(** ** The monad *)

Inductive outcome (S A : Type) :=
| Ok (a : A) (v : vm S)
| Blocked (v : vm S).
Arguments Ok {S A} a v.
Arguments Blocked {S A} v.

Definition M (S A : Type) : Type := vm S -> outcome S A.

Definition ret {S A} (a : A) : M S A := fun v => Ok a v.

Definition bind {S A B} (m : M S A) (k : A -> M S B) : M S B := fun v =>
  match m v with
  | Ok a v' => k a v'
  | Blocked v' => Blocked v'
  end.

(** The final state of an outcome. *)
Definition final {S A} (o : outcome S A) : vm S :=
  match o with Ok _ v | Blocked v => v end.

Declare Scope vm_scope.
Delimit Scope vm_scope with vm.
Notation "x <- m ;; k" := (bind m (fun x => k))
  (at level 100, m at next level, k at level 200, right associativity) : vm_scope.
Notation "m ;; k" := (bind m (fun _ => k))
  (at level 100, k at level 200, right associativity) : vm_scope.
Open Scope vm_scope.

Section Ops.
Context {S : Type}.

Definition gets {A} (f : vm S -> A) : M S A := fun v => Ok (f v) v.
Definition modify (f : vm S -> vm S) : M S unit := fun v => Ok tt (f v).
Definition waitM {A} : M S A := fun v => Blocked v.

(** [r(n)] as a value and as a target. *)
Definition r (n : Z) : M S Z := gets (fun v => reg v !!! Z.to_nat n).
Definition set_r (n x : Z) : M S unit := modify (fun v => set_reg (<[Z.to_nat n := x]> (reg v)) v).

Definition pc : M S Z := gets pc_.
Definition put_pc (x : Z) : M S unit := modify (set_pc x).
(** [pc_ += d] on the [uint64_t]. *)
Definition add_pc (d : Z) : M S unit := modify (fun v => set_pc (u64 (pc_ v + d)) v).

Definition get_flags : M S Z := gets flags.
Definition set_flags (mask : Z) : M S unit := modify (fun v => put_flags (Z.lor (flags v) mask) v).
Definition clear_flags (mask : Z) : M S unit := modify (fun v => put_flags (andnot (flags v) mask) v).

(** [flags & mask] as a condition. *)
Definition has (f mask : Z) : bool := nz (Z.land f mask).

(** *** Memory *)

Context {env : HostEnv}.

Definition mem_op {A} (f : mmem -> A * mmem) : M S A := fun v =>
  let '(a, m) := f (mm v) in Ok a (set_mm m v).

Definition mmuM (addr size : Z) : M S (option hptr) := mem_op (fun m => mmu m addr size).
Definition mmu_wM (addr size : Z) : M S (option hptr) := mem_op (fun m => mmu_w m addr size).

(** Reading and assigning an [n]-byte unsigned integer through a host pointer. *)
Definition loadM (p : hptr) (n : nat) : M S Z := gets (fun v => load (mm v) p n).
Definition storeM (p : hptr) (n : nat) (x : Z) : M S unit :=
  modify (fun v => set_mm (store (mm v) p n x) v).

(** Element [i] of a [uint64_t] array at [p]. *)
Definition load64 (p : hptr) (i : Z) : M S Z := loadM (padd p (8 * i)) 8.
Definition store64 (p : hptr) (i x : Z) : M S unit := storeM (padd p (8 * i)) 8 x.

(** *** Waiting *)

(** [pthread_cond_wait(&wait_cv, &wait_mutex)]: the flags other threads left. *)
Definition cond_wait : M S unit := fun v =>
  match wait_obs v with
  | [] => Blocked v
  | f :: l => Ok tt (set_wait_obs l (put_flags f v))
  end.

(** [clock_gettime(CLOCK_REALTIME, ..)]. *)
Definition clock_gettime : M S (Z * Z) := fun v =>
  match clock_obs v with
  | [] => Blocked v
  | t :: l => Ok t (set_clock_obs l v)
  end.

(** [vm::debug_park]; the loop consumes one observation per turn. *)
Fixpoint debug_park_loop (n : nat) : M S unit :=
  f <- get_flags ;;
  if negb (has f VM_DEBUG_STOP) || has f VM_KILLED then ret tt
  else match n with
       | O => waitM
       | Datatypes.S k => cond_wait ;; debug_park_loop k
       end.

Definition debug_park : M S unit := n <- gets (fun v => length (wait_obs v)) ;; debug_park_loop n.

Definition NSEC : Z := 1000000000.

(** The deadline of [vm::wait_for]: now plus the timeout, nanoseconds carried. *)
Definition deadline_of (now timeout : Z * Z) : Z * Z :=
  let sec := now.1 + timeout.1 in
  let nsec := now.2 + timeout.2 in
  if NSEC <=? nsec then (sec + 1, nsec - NSEC) else (sec, nsec).

Definition deadline_passed (now deadline : Z * Z) : bool :=
  (deadline.1 <? now.1) || ((now.1 =? deadline.1) && (deadline.2 <=? now.2)).

Fixpoint wait_for_loop (n : nat) (deadline : option (Z * Z)) : M S Z :=
  f <- get_flags ;;
  if negb (has f VM_BLOCKED) then ret 0
  else if has f (Z.lor VM_KILLED (Z.lor VM_SIGNAL_PENDING (Z.lor VM_STOPPED VM_DEBUG_STOP)))
  then ret (- EINTR)
  else match n with
       | O => waitM
       | Datatypes.S k =>
         now <- clock_gettime ;;
         match deadline with
         | Some d =>
           if deadline_passed now d then ret (- ETIMEDOUT)
           else cond_wait ;; wait_for_loop k deadline
         | None => cond_wait ;; wait_for_loop k deadline
         end
       end.

(** [vm::wait_for]. *)
Definition wait_for (timeout : option (Z * Z)) : M S Z :=
  deadline <- match timeout with
              | Some t => now <- clock_gettime ;; ret (Some (deadline_of now t))
              | None => ret None
              end ;;
  n <- gets (fun v => length (wait_obs v)) ;;
  wait_for_loop (Datatypes.S n) deadline.

(** [vm::wakeup], as the state change it makes. *)
Definition wakeup (clear_blocked : bool) : M S unit :=
  if clear_blocked then clear_flags VM_BLOCKED else ret tt.

End Ops.

(** ** Interfaces *)

(** [struct sig_info]: [si_sig = 0] means nothing to deliver. *)
Record sig_info := mksig_info {
  si_sig : Z;
  si_handler : Z;
  si_flags : Z;
  si_pid : Z;
  si_value : Z;
  si_code : Z;
  si_status : Z
}.

Definition no_signal : sig_info := mksig_info 0 0 0 0 0 0 0.

(** [class SyscallHandler].  [handle_signals] returns [None] for [false]. *)
Class SyscallHandler (S : Type) := {
  sys_init : M S unit;
  sys_fini : M S unit;
  syscall : Z -> M S Z;
  handle_signals : M S (option sig_info);
  build_siginfo : Z -> sig_info -> Z -> Z -> M S unit;
  sigreturn : Z -> Z -> M S Z
}.

(** [class EmptySyscall] (empty_syscall.h), with the default [build_siginfo]
    and [sigreturn] of the base class. *)
#[export] Instance EmptySyscall : SyscallHandler unit := {
  sys_init := ret tt;
  sys_fini := ret tt;
  syscall _ := ret (- ENOSYS);
  handle_signals := ret (Some no_signal);
  build_siginfo _ _ _ _ := ret tt;
  sigreturn _ fallback_pc := ret fallback_pc
}.

(** [struct DebugHooks]: callbacks of the debugger. *)
Class DebugHooks (S : Type) := {
  hook_syscall_entry : Z -> M S unit;
  hook_syscall_return : Z -> M S unit;
  hook_breakpoint : M S unit
}.

(** No debugger is attached. *)
#[export] Instance NoHooks S : DebugHooks S | 100 := {
  hook_syscall_entry _ := ret tt;
  hook_syscall_return _ := ret tt;
  hook_breakpoint := ret tt
}.

(** [jit->compile(this, pc_)] and, when it returns an entry, the call of the
    generated code: [false] for [nullptr]. *)
Class Jit (S : Type) := jit_run : M S bool.

(** A JIT that never compiles: every pc is interpreted. *)
Definition jit_off {S} : Jit S := ret false.

(** ** Invariants of computations *)

Section Keeps.
Context {S : Type} {env : HostEnv}.

(** The other address spaces on the host: [ms] is the one observed, [view]
    the bytes it is required to keep (when it is required at all). *)
Variables (pre ms rest : list memmap) (view : option (Z -> option Z)).

Definition u32_ok (z : Z) : Prop := 0 <= z < 2 ^ 32.

Record vm_wf (v : vm S) : Prop := {
  vw_len : length (reg v) = 11%nat;
  vw_reg : Forall in_u64 (reg v);
  vw_pc : in_u64 (pc_ v);
  vw_flags : u32_ok (flags v);
  vw_obs : Forall u32_ok (wait_obs v);
  vw_restart : in_u64 (restart_syscall_pc_ v);
  vw_limit : in_u64 (stack_limit (options v));
  vw_mem : mem_wf (mm v);
  vw_ms : wf_maps ms;
  vw_share : share_ok (hst (mm v)) (maps (mm v) ++ pre ++ ms ++ rest);
  vw_view : forall s, view = Some s -> forall a, 0 <= a < 2 ^ 64 -> gbyte_in (hst (mm v)) ms a = s a
}.

(** Pointers a computation holds, with the access they were translated for. *)
Definition live := list (Z * nat * hptr).

Definition inv (ps : live) (v : vm S) : Prop :=
  vm_wf v /\
  Forall (fun x : Z * nat * hptr => let '(a, n, p) := x in
    valid_access a (Z.of_nat n) /\ private_at (maps (mm v)) a (Z.of_nat n) p) ps.

(** [m] keeps the invariant on every path and its results satisfy [P]. *)
Definition keeps {A} (ps : live) (m : M S A) (P : A -> Prop) : Prop :=
  forall v, inv ps v -> match m v with Ok a v' => inv ps v' /\ P a | Blocked v' => inv [] v' end.

Lemma inv_sub ps qs v : inv ps v -> qs ⊆ ps -> inv qs v.
Proof.
  intros [Hw Hp] Hsub. split; [done|].
  rewrite list.Forall_forall in *. intros x Hx. by apply Hp, Hsub.
Qed.

Lemma inv_nil ps v : inv ps v -> inv [] v.
Proof. intros Hi. eapply inv_sub; [done|]. apply list_subseteq_nil. Qed.

Lemma keeps_ret {A} ps (a : A) (P : A -> Prop) : P a -> keeps ps (ret a) P.
Proof. by intros HP v Hv. Qed.

Lemma keeps_bind {A B} ps (m : M S A) (k : A -> M S B) P Q :
  keeps ps m P -> (forall a, P a -> keeps ps (k a) Q) -> keeps ps (bind m k) Q.
Proof.
  intros Hm Hk v Hv. specialize (Hm v Hv). unfold bind. destruct (m v) as [a v'|v']; [|done].
  destruct Hm as [Hv' HP]. by apply Hk.
Qed.

Lemma keeps_weaken {A} ps (m : M S A) (P Q : A -> Prop) :
  keeps ps m P -> (forall a, P a -> Q a) -> keeps ps m Q.
Proof.
  intros Hm HPQ v Hv. specialize (Hm v Hv). destruct (m v) as [a v'|v']; [|done].
  destruct Hm. auto.
Qed.

(** A computation that needs no live pointer may run while pointers are held,
    provided it only changes registers, flags and the TLB. *)
Lemma keeps_modify ps (f : vm S -> vm S) (P : unit -> Prop) :
  (forall v, inv ps v -> vm_wf (f v) /\ maps (mm (f v)) = maps (mm v)) -> P tt ->
  keeps ps (modify f) P.
Proof.
  intros Hf HP v Hv. destruct (Hf v Hv) as [Hw Hm]. split; [|done]. split; [done|].
  rewrite Hm. apply Hv.
Qed.

Lemma keeps_gets {A} ps (f : vm S -> A) (P : A -> Prop) :
  (forall v, inv ps v -> P (f v)) -> keeps ps (gets f) P.
Proof. intros Hf v Hv. split; [done|auto]. Qed.

Lemma keeps_block {A} ps (P : A -> Prop) : keeps ps waitM P.
Proof. intros v Hv. by eapply inv_nil. Qed.

(** *** Registers, pc, flags *)

Lemma keeps_r ps n : keeps ps (r n) in_u64.
Proof.
  apply keeps_gets. intros v [[Hl Hr _ _ _ _ _ _ _ _ _] _].
  destruct (decide (Z.to_nat n < 11)%nat) as [Hn|Hn].
  - destruct (lookup_lt_is_Some_2 (reg v) (Z.to_nat n)) as [x Hx]; [lia|].
    rewrite (list_lookup_total_correct _ _ _ Hx). by eapply Forall_lookup_1 in Hr.
  - rewrite list_lookup_total_alt, lookup_ge_None_2 by lia. cbn. unfold in_u64. cbn. lia.
Qed.

Lemma keeps_set_r ps n x : in_u64 x -> keeps ps (set_r n x) (fun _ => True).
Proof.
  intros Hx. apply keeps_modify; [|done]. intros v [Hw _]. split; [|done]. destruct Hw.
  constructor; cbn; auto; [by rewrite length_insert|by apply Forall_insert].
Qed.

Lemma keeps_pc ps : keeps ps pc in_u64.
Proof. apply keeps_gets. intros v [Hw _]. apply Hw. Qed.

Lemma keeps_put_pc ps x : in_u64 x -> keeps ps (put_pc x) (fun _ => True).
Proof.
  intros Hx. apply keeps_modify; [|done]. intros v [Hw _]. split; [|done].
  destruct Hw. by constructor.
Qed.

Lemma keeps_add_pc ps d : keeps ps (add_pc d) (fun _ => True).
Proof.
  apply keeps_modify; [|done]. intros v [Hw _]. split; [|done].
  destruct Hw. constructor; auto. apply u64_range.
Qed.

Lemma keeps_get_flags ps : keeps ps get_flags u32_ok.
Proof. apply keeps_gets. intros v [Hw _]. apply Hw. Qed.

Lemma keeps_set_flags ps m : u32_ok m -> keeps ps (set_flags m) (fun _ => True).
Proof.
  intros Hm. apply keeps_modify; [|done]. intros v [Hw _]. split; [|done].
  destruct Hw. constructor; auto. by apply lor_range.
Qed.

Lemma keeps_clear_flags ps m : keeps ps (clear_flags m) (fun _ => True).
Proof.
  apply keeps_modify; [|done]. intros v [Hw _]. split; [|done].
  destruct Hw. constructor; auto. by apply ldiff_range.
Qed.

(** *** Memory *)

(** A host step that keeps used blocks keeps the observed bytes. *)
Lemma view_extends h h' all s :
  host_extends h h' -> share_ok h all -> ms ⊆ all ->
  (forall a, 0 <= a < 2 ^ 64 -> gbyte_in h ms a = s a) ->
  forall a, 0 <= a < 2 ^ 64 -> gbyte_in h' ms a = s a.
Proof.
  intros He Hs Hsub Hv a Ha. rewrite (gbyte_in_extends h h' ms a He); [auto|].
  unfold blocks_ok. apply list.Forall_forall. intros x Hx.
  destruct Hs as [_ _ Hb]. unfold blocks_ok in Hb. rewrite list.Forall_forall in Hb. auto.
Qed.

Lemma ms_in m : ms ⊆ maps m ++ pre ++ ms ++ rest.
Proof. intros x Hx. rewrite !elem_of_app. auto. Qed.

Lemma keeps_mmu ps addr size :
  in_u64 addr -> 0 < size < 2 ^ 64 -> keeps ps (mmuM addr size) (fun _ => True).
Proof.
  intros Ha Hs v [Hw Hp]. unfold mmuM, mem_op.
  assert (mem_wf (mmu (mm v) addr size).2 /\ maps (mmu (mm v) addr size).2 = maps (mm v) /\
          hst (mmu (mm v) addr size).2 = hst (mm v)) as (H1 & H2 & H3).
  { apply mmu_any; [apply Hw|done..]. }
  destruct (mmu (mm v) addr size) as [o m]. cbn in *. split; [|done]. split.
  - destruct Hw. constructor; cbn; rewrite ?H2, ?H3; auto.
  - cbn. by rewrite H2.
Qed.

Lemma mmu_w_overflow m addr size :
  in_u64 addr -> 0 < size < 2 ^ 64 -> 2 ^ 64 <= addr + size -> mmu_w m addr size = (None, m).
Proof.
  intros Ha Hs Ho. unfold mmu_w.
  assert (u64 (addr + size) = addr + size - 2 ^ 64) as ->.
  { unfold uwrap, in_u64 in *. rewrite <- (Z_mod_plus_full _ (-1)). rewrite Z.mod_small; lia. }
  destruct (Z.ltb_spec (addr + size - 2 ^ 64) addr); [done|lia].
Qed.

Lemma mmu_w_inv ps addr n v :
  in_u64 addr -> 0 < Z.of_nat n < 2 ^ 64 -> inv ps v ->
  match mmu_wM addr (Z.of_nat n) v with
  | Ok (Some p) v' => inv ((addr, n, p) :: ps) v'
  | Ok None v' => inv ps v'
  | Blocked _ => False
  end.
Proof.
  intros Ha Hn [Hw Hp]. unfold mmu_wM, mem_op.
  destruct (Z.lt_ge_cases (addr + Z.of_nat n) (2 ^ 64)) as [Hlt|Hge].
  2:{ rewrite mmu_w_overflow by done. destruct Hw. by split; [constructor|]. }
  assert (valid_access addr (Z.of_nat n)) as Hv by (unfold valid_access, in_u64 in *; lia).
  pose proof (mmu_w_spec (mm v) addr (Z.of_nat n) (vw_mem v Hw) Hv) as [H1 H2 H3 H4 H5].
  pose proof (mmu_w_share (mm v) (pre ++ ms ++ rest) addr (Z.of_nat n) (vw_mem v Hw) (vw_share v Hw)) as H6.
  assert (forall o, inv ps (set_mm (mmu_w (mm v) addr (Z.of_nat n)).2 v) /\
     (o = (mmu_w (mm v) addr (Z.of_nat n)).1 -> forall p, o = Some p ->
      private_at (maps (mmu_w (mm v) addr (Z.of_nat n)).2) addr (Z.of_nat n) p)) as Hall.
  { intros o. split; [|by intros -> p Hpp; apply H5]. split.
    - destruct Hw. constructor; cbn; auto. intros s Hs.
      eapply view_extends; [exact H2|exact vw_share0|apply ms_in|eauto].
    - eapply list.Forall_impl; [exact Hp|]. intros [[a k] q] [? ?]. split; [done|].
      by apply mmu_w_private. }
  destruct (mmu_w (mm v) addr (Z.of_nat n)) as [o m] eqn:E. cbn in *.
  destruct (Hall o) as [Hinv Hpo]. destruct o as [p|]; [|done].
  destruct Hinv as [Hw' Hp']. split; [done|]. constructor; [|done]. split; [done|]. cbn. auto.
Qed.

(** After a successful [mmu_w] the pointer is live. *)
Lemma keeps_mmu_w {B} ps addr size n (k : option hptr -> M S B) Q :
  in_u64 addr -> size = Z.of_nat n -> 0 < size < 2 ^ 64 ->
  (forall p, keeps ((addr, n, p) :: ps) (k (Some p)) Q) -> keeps ps (k None) Q ->
  keeps ps (bind (mmu_wM addr size) k) Q.
Proof.
  intros Ha -> Hn Hsome Hnone v Hv. pose proof (mmu_w_inv ps addr n v Ha Hn Hv) as Hm. unfold bind.
  destruct (mmu_wM addr (Z.of_nat n) v) as [[p|] v'|]; [| |done].
  - specialize (Hsome p v' Hm). destruct (k (Some p) v') as [b v''|v'']; [|done].
    destruct Hsome as [Hi HQ]. split; [|done]. eapply inv_sub; [exact Hi|]. intros x Hx. by constructor.
  - by apply Hnone.
Qed.

Lemma keeps_loadM ps p n : keeps ps (loadM p n) (fun x => 0 <= x < 2 ^ (8 * Z.of_nat n)).
Proof. apply keeps_gets. intros v [Hw _]. apply host_read_range, Hw. Qed.

Lemma keeps_load64 ps p i : keeps ps (load64 p i) in_u64.
Proof. eapply keeps_weaken; [apply keeps_loadM|]. done. Qed.

Lemma storeM_inv ps a n p o k x v :
  (a, n, p) ∈ ps -> 0 <= o -> (0 < k)%nat -> o + Z.of_nat k <= Z.of_nat n -> inv ps v ->
  inv ps (set_mm (store (mm v) (padd p o) k x) v).
Proof.
  intros Hin Ho Hk Hle [Hw Hp]. assert (Hp' := Hp). rewrite list.Forall_forall in Hp'.
  destruct (Hp' _ Hin) as [Hv (i & mp & Hi & Hc & Hwr & Hcow & Hpp)].
  assert (private_at (maps (mm v)) (a + o) (Z.of_nat k) (padd p o)) as Hpr.
  { exists i, mp. repeat split; auto.
    - unfold covers in *. lia.
    - unfold covers in *. lia.
    - rewrite Hpp. unfold host_of, padd. cbn. f_equal. lia. }
  split; [|exact Hp]. destruct Hw. constructor; cbn; auto.
  - by apply store_wf.
  - by apply host_write_share.
  - intros s Hs b Hb.
    change (host_write (hst (mm v)) (padd p o) k x) with (hst (store (mm v) (padd p o) k x)).
    rewrite (store_gbyte_other (mm v) pre ms rest (a + o)) by done. eauto.
Qed.

Lemma keeps_storeM ps a n p o k x :
  (a, n, p) ∈ ps -> 0 <= o -> (0 < k)%nat -> o + Z.of_nat k <= Z.of_nat n ->
  keeps ps (storeM (padd p o) k x) (fun _ => True).
Proof. intros ???? v Hv. split; [|done]. by eapply storeM_inv. Qed.

Lemma keeps_store ps a n p k x :
  (a, n, p) ∈ ps -> (0 < k <= n)%nat -> keeps ps (storeM p k x) (fun _ => True).
Proof.
  intros Hin Hk. assert (p = padd p 0) as -> by (unfold padd; destruct p; cbn; by rewrite Z.add_0_r).
  eapply (keeps_storeM _ a n); [exact Hin|lia..].
Qed.

(** *** Waiting *)

Lemma keeps_cond_wait ps : keeps ps cond_wait (fun _ => True).
Proof.
  intros v Hv. unfold cond_wait. destruct (wait_obs v) as [|f l] eqn:Ho; [by eapply inv_nil|].
  split; [|done]. destruct Hv as [Hw Hp]. split; [|done]. destruct Hw. rewrite Ho in *.
  inversion vw_obs0; subst. constructor; cbn; auto.
Qed.

Lemma keeps_clock ps : keeps ps clock_gettime (fun _ => True).
Proof.
  intros v Hv. unfold clock_gettime. destruct (clock_obs v) as [|t l]; [by eapply inv_nil|].
  split; [|done]. destruct Hv as [Hw Hp]. split; [|done]. by destruct Hw.
Qed.

End Keeps.

(** What the parts behind the interfaces promise the virtual machine: they keep
    its invariant, and the values they hand back are machine words. *)
Class HandlerKeeps {S} (pre ms rest : list memmap) (view : option (Z -> option Z))
    `{SyscallHandler S} : Prop := {
  hk_init : keeps pre ms rest view [] sys_init (fun _ => True);
  hk_fini : keeps pre ms rest view [] sys_fini (fun _ => True);
  hk_syscall c : keeps pre ms rest view [] (syscall c) (fun _ => True);
  hk_signals : keeps pre ms rest view [] handle_signals
    (fun o => forall i, o = Some i -> in_u64 (si_handler i));
  hk_siginfo b i p s : in_u64 b -> keeps pre ms rest view [] (build_siginfo b i p s) (fun _ => True);
  hk_sigreturn b p : in_u64 b -> in_u64 p -> keeps pre ms rest view [] (sigreturn b p) in_u64
}.

Class HooksKeep {S} (pre ms rest : list memmap) (view : option (Z -> option Z))
    `{DebugHooks S} : Prop := {
  kk_entry c : keeps pre ms rest view [] (hook_syscall_entry c) (fun _ => True);
  kk_return c : keeps pre ms rest view [] (hook_syscall_return c) (fun _ => True);
  kk_break : keeps pre ms rest view [] hook_breakpoint (fun _ => True)
}.

Class JitKeeps {S} (pre ms rest : list memmap) (view : option (Z -> option Z))
    `{Jit S} : Prop :=
  jk_run : keeps pre ms rest view [] jit_run (fun _ => True).

#[export] Instance EmptySyscall_keeps pre ms rest view : HandlerKeeps pre ms rest view (S := unit).
Proof.
  constructor; intros; apply keeps_ret; try done. intros i [= <-]. unfold in_u64. cbn. lia.
Qed.

#[export] Instance NoHooks_keep S pre ms rest view :
  @HooksKeep S pre ms rest view (NoHooks S).
Proof. constructor; intros; by apply keeps_ret. Qed.

#[export] Instance jit_off_keeps S pre ms rest view : @JitKeeps S pre ms rest view jit_off.
Proof. by apply keeps_ret. Qed.

(** *** Automation

    [keep] walks a computation: it applies the rule of each primitive, splits
    conditions and matches, and leaves the side conditions it cannot decide. *)

Create HintDb keeps.
#[export] Hint Resolve keeps_r keeps_set_r keeps_pc keeps_put_pc keeps_add_pc keeps_get_flags
  keeps_set_flags keeps_clear_flags keeps_mmu keeps_loadM keeps_load64 keeps_cond_wait keeps_clock
  keeps_block hk_init hk_fini hk_syscall hk_signals hk_siginfo hk_sigreturn
  kk_entry kk_return kk_break jk_run : keeps.

Ltac word_side :=
  first [ assumption | exact I | apply u64_range | solve [unfold in_u64, u32_ok in *; cbn in *; lia]
        | solve [split; vm_compute; congruence] ].

#[export] Hint Extern 2 (in_u64 _) => word_side : keeps.
#[export] Hint Extern 2 (u32_ok _) => word_side : keeps.
#[export] Hint Extern 2 (_ < _ < _) => lia : keeps.

Ltac keep_prim :=
  lazymatch goal with
  | |- keeps _ _ _ _ _ (ret _) _ => apply keeps_ret
  | |- keeps _ _ _ _ _ waitM _ => apply keeps_block
  | |- keeps _ _ _ _ _ (if ?b then _ else _) _ => destruct b eqn:?
  | |- keeps _ _ _ _ _ (match ?o with Some _ => _ | None => _ end) _ => destruct o eqn:?
  | |- keeps _ _ _ _ _ (bind (mmu_wM ?a ?s) _) _ =>
    apply (keeps_mmu_w _ _ _ _ _ a s (Z.to_nat s)); [try word_side|try lia|try lia|intros ?|]
  | |- keeps _ _ _ _ _ (bind _ _) _ =>
    eapply keeps_bind; [solve [eauto 4 with keeps] | intros ? ?]
  | |- keeps _ _ _ _ _ _ _ => eapply keeps_weaken; [solve [eauto 4 with keeps] | done]
  end.

Ltac keep := repeat (keep_prim; cbn beta iota in * ).

Section Parking.
Context {S : Type}.
Variables (pre ms rest : list memmap) (view : option (Z -> option Z)).

Lemma keeps_debug_park : keeps (S := S) pre ms rest view [] debug_park (fun _ => True).
Proof.
  unfold debug_park. eapply (keeps_bind _ _ _ _ _ _ _ (fun _ => True)); [by apply keeps_gets|].
  intros n _. induction n as [|n IH]; cbn [debug_park_loop]; keep; done.
Qed.

Lemma keeps_wait_for t : keeps (S := S) pre ms rest view [] (wait_for t) (fun _ => True).
Proof.
  unfold wait_for. apply (keeps_bind _ _ _ _ _ _ _ (fun _ => True)).
  { destruct t; keep; done. }
  intros d _. eapply (keeps_bind _ _ _ _ _ _ _ (fun _ => True)); [by apply keeps_gets|].
  intros n _. generalize (Datatypes.S n). intros k.
  induction k as [|k IH]; cbn [wait_for_loop]; keep; try done.
Qed.

End Parking.
#[export] Hint Resolve keeps_debug_park keeps_wait_for : keeps.

(** ** Reasoning about results *)

Section Inversion.
Context {S : Type} {env : HostEnv}.

Lemma bind_Ok {A B} (m : M S A) (k : A -> M S B) v b w :
  bind m k v = Ok b w -> exists a u, m v = Ok a u /\ k a u = Ok b w.
Proof. unfold bind. destruct (m v) as [a u|u]; [eauto|done]. Qed.

(** Did the computation return [true]?  Decidable without evaluating the final
    state, which concrete runs use. *)
Definition returned_true (o : outcome S bool) : bool :=
  match o with Ok true _ => true | _ => false end.

Lemma returned_true_eq (o : outcome S bool) : returned_true o = true -> o = Ok true (final o).
Proof. by destruct o as [[|] v|v]. Qed.

Lemma mmuM_eq addr size (v : vm S) :
  mmuM addr size v = Ok (mmu (mm v) addr size).1 (set_mm (mmu (mm v) addr size).2 v).
Proof. unfold mmuM, mem_op. by destruct (mmu (mm v) addr size). Qed.

Lemma mmu_wM_eq addr size (v : vm S) :
  mmu_wM addr size v = Ok (mmu_w (mm v) addr size).1 (set_mm (mmu_w (mm v) addr size).2 v).
Proof. unfold mmu_wM, mem_op. by destruct (mmu_w (mm v) addr size). Qed.

Lemma set_mm_mm (v : vm S) m : mm (set_mm m v) = m.
Proof. done. Qed.

Lemma set_mm_set_mm (v : vm S) m m' : set_mm m' (set_mm m v) = set_mm m' v.
Proof. done. Qed.

Lemma set_mm_id (v : vm S) : set_mm (mm v) v = v.
Proof. by destruct v. Qed.

(** Running a computation that only changes the memory. *)
Lemma run_bind {A B : Type} (m : M S A) (k : A -> M S B) v a m' :
  m v = Ok a (set_mm m' v) -> bind m k v = k a (set_mm m' v).
Proof. unfold bind. by intros ->. Qed.

End Inversion.

(** Take the first step of a successful run apart. *)
Ltac minv H :=
  let a := fresh "x" in let u := fresh "u" in let H1 := fresh "Hm" in
  apply bind_Ok in H as (a & u & H1 & H).

(** ** Total computations

    [always P m]: from a state satisfying [P], [m] returns (it does not block)
    in a state satisfying [P]. *)

Section Always.
Context {S : Type} {env : HostEnv}.
Variable P : vm S -> Prop.

Definition always {A} (m : M S A) : Prop :=
  forall v, P v -> match m v with Ok _ v' => P v' | Blocked _ => False end.

Lemma always_ret {A} (a : A) : always (ret a).
Proof. by intros v Hv. Qed.

Lemma always_bind {A B} (m : M S A) (k : A -> M S B) :
  always m -> (forall a, always (k a)) -> always (bind m k).
Proof.
  intros Hm Hk v Hv. specialize (Hm v Hv). unfold bind. destruct (m v) as [a u|u]; [|done]. by apply Hk.
Qed.

Lemma always_gets {A} (f : vm S -> A) : always (gets f).
Proof. by intros v Hv. Qed.

Lemma always_modify f : (forall v, P v -> P (f v)) -> always (modify f).
Proof. intros Hf v Hv. by apply Hf. Qed.

Lemma always_mem_op {A} (f : mmem -> A * mmem) :
  (forall v m, P v -> P (set_mm m v)) -> always (mem_op f).
Proof. intros Hm v Hv. unfold mem_op. destruct (f (mm v)). by apply Hm. Qed.

End Always.

(** [alw tac] proves [always P m] by following [m]; [tac] closes the state
    updates. *)
Ltac alw_step tac :=
  lazymatch goal with
  | |- always _ (ret _) => apply always_ret
  | |- always _ (if ?b then _ else _) => destruct b
  | |- always _ (match ?o with Some _ => _ | None => _ end) => destruct o
  | |- always _ (bind _ _) => apply always_bind; [|intros ?]
  | |- always _ (gets _) => apply always_gets
  | |- always _ (modify _) => apply always_modify; solve [tac]
  | |- always _ (mem_op _) => apply always_mem_op; solve [tac]
  | |- always _ _ => solve [eauto 2 with always]
  end.
Create HintDb always.
Ltac alw tac := repeat (alw_step tac).
