(* ===== verification/Frame.v ===== *)
(** * Frame: guest call frames

    The frame word [frame_base[0]] and its accessors (insn.h), the frame slots
    the linker puts before every function (frame_slot.h), and the stack
    operations of insn.cpp: [frame_size_of], [log_mem_violation],
    [push_frame], [pop_frame] and [alloca].

    Main results: the fields of the frame word are independent, popping the
    frame [push_frame] built restores the saved registers, the stack pointer
    and the return address ([push_pop_roundtrip]), a pushed frame never lies
    below the stack, and [alloca] moves the lower bound by exactly the
    requested amount. *)

From S2P Require Import Prelude HostMem AddrSpace Vm.
From Stdlib Require Import Lia.
From stdpp Require Import base numbers list gmap strings option.

Open Scope Z_scope.
Open Scope vm_scope.

(** ** The frame word *)

Definition STACK_SIZE : Z := 16 * 1024 * 1024.
Definition STACK_BASE : Z := 0x10000000.
Definition NORMAL_FRAME_SIZE : Z := 64.
Definition SIGNAL_FRAME_SIZE : Z := 128.
Definition SIGINFO_FRAME_SI_OFF : Z := SIGNAL_FRAME_SIZE.
Definition SIGINFO_FRAME_UC_OFF : Z := SIGINFO_FRAME_SI_OFF + 128.
Definition SIGNAL_FRAME_SIGINFO_SIZE : Z := SIGINFO_FRAME_UC_OFF + 264.

Definition FRAME_FLAG_SIGNAL : Z := 2 ^ 48.
Definition FRAME_FLAG_SIGINFO : Z := 2 ^ 49.
Definition FRAME_SIZE_MASK : Z := 0xFFFFFF.
Definition FRAME_ALLOCA_MASK : Z := 0xFFFFFF.
Definition FRAME_ALLOCA_SHIFT : Z := 24.

Definition frame_flags_make (is_sig : bool) (stack_size alloca_len : Z) : Z :=
  Z.lor (Z.land stack_size FRAME_SIZE_MASK)
    (Z.lor (Z.land (u64 (Z.shiftl alloca_len FRAME_ALLOCA_SHIFT))
                   (Z.shiftl FRAME_ALLOCA_MASK FRAME_ALLOCA_SHIFT))
           (if is_sig then FRAME_FLAG_SIGNAL else 0)).
Definition frame_is_signal (flags0 : Z) : bool := nz (Z.land flags0 FRAME_FLAG_SIGNAL).
Definition frame_has_siginfo (flags0 : Z) : bool := nz (Z.land flags0 FRAME_FLAG_SIGINFO).
Definition frame_stack_size (flags0 : Z) : Z := Z.land flags0 FRAME_SIZE_MASK.
Definition frame_alloca_len (flags0 : Z) : Z :=
  Z.land (Z.shiftr flags0 FRAME_ALLOCA_SHIFT) FRAME_ALLOCA_MASK.
Definition frame_total_len (flags0 : Z) : Z := frame_stack_size flags0 + frame_alloca_len flags0.

(** Frame slots (frame_slot.h). *)
Definition FRAME_SLOT_MAGIC : Z := 0x6270766D.
Definition FRAME_SLOT_SIZE_MASK : Z := 0xFFFFFFFF.
Definition FRAME_SLOT_FALLBACK : Z := 0xFFFFFFFF.
Definition make_frame_slot (frame_size : Z) : Z := Z.lor (Z.shiftl FRAME_SLOT_MAGIC 32) frame_size.

(** ** Stack operations *)

Section Ops.
Context {S : Type} {env : HostEnv}.

(** [vm::frame_size_of].  After the [mmu] call the TLB entry of the slot
    address tells the segment's end and permissions. *)
Definition frame_size_of (callee_entry : Z) : M S Z :=
  limit <- gets (fun v => stack_limit (options v)) ;;
  if callee_entry <? 8 then ret limit
  else
    let slot_addr := callee_entry - 8 in
    slot <- mmuM slot_addr 8 ;;
    match slot with
    | None => ret limit
    | Some p =>
      e <- gets (fun v => tlb_get (mm v) (tlb_index slot_addr)) ;;
      if t_end e <=? callee_entry then ret limit
      else if negb (nz (Z.land (t_flags e) PF_X)) then ret limit
      else
        x <- load64 p 0 ;;
        if negb (Z.shiftr x 32 =? FRAME_SLOT_MAGIC)
           || (Z.land x FRAME_SLOT_SIZE_MASK =? FRAME_SLOT_FALLBACK)
        then ret limit
        else ret (Z.land x FRAME_SLOT_SIZE_MASK)
    end.

Definition MAX_FRAMES : nat := 64.

(** The call-stack walk of [vm::log_mem_violation]: it prints, and reads frames
    through [mmu]. *)
Fixpoint walk_frames (depth : nat) (cur_sp : Z) : M S unit :=
  match depth with
  | O => ret tt
  | Datatypes.S k =>
    if cur_sp =? 0 then ret tt
    else
      frame_base <- mmuM cur_sp (8 * 16) ;;
      match frame_base with
      | None => ret tt
      | Some p =>
        old_sp <- load64 p 1 ;;
        ret_addr <- load64 p 2 ;;
        if (old_sp =? 0) || (old_sp <=? cur_sp) || (ret_addr =? 0) then ret tt
        else walk_frames k old_sp
      end
  end.

(** [vm::log_mem_violation]: a violation is fatal. *)
Definition log_mem_violation (addr : Z) : M S unit :=
  sp <- r 10 ;;
  walk_frames MAX_FRAMES sp ;;
  set_flags VM_KILLED ;;
  set_r 0 (128 + SIGKILL).

Definition frame_size_for (is_signal sa_siginfo : bool) : Z :=
  if is_signal then (if sa_siginfo then SIGNAL_FRAME_SIGINFO_SIZE else SIGNAL_FRAME_SIZE)
  else NORMAL_FRAME_SIZE.

(** The stores of [push_frame] into the new frame. *)
Definition write_frame (p : hptr) (word return_addr : Z) (is_signal : bool) : M S unit :=
  store64 p 0 word ;;
  r10 <- r 10 ;; store64 p 1 r10 ;;
  store64 p 2 return_addr ;;
  r6 <- r 6 ;; store64 p 3 r6 ;;
  r7 <- r 7 ;; store64 p 4 r7 ;;
  r8 <- r 8 ;; store64 p 5 r8 ;;
  r9 <- r 9 ;; store64 p 6 r9 ;;
  if is_signal then
    modify (fun v => set_signal_depth (u64 (signal_depth v + 1)) v) ;;
    r0 <- r 0 ;; store64 p 7 r0 ;;
    r1 <- r 1 ;; store64 p 8 r1 ;;
    r2 <- r 2 ;; store64 p 9 r2 ;;
    r3 <- r 3 ;; store64 p 10 r3 ;;
    r4 <- r 4 ;; store64 p 11 r4 ;;
    r5 <- r 5 ;; store64 p 12 r5
  else ret tt.

(** [vm::push_frame]. *)
Definition push_frame (return_addr callee_entry : Z) (is_signal sa_siginfo : bool) : M S bool :=
  let frame_size := frame_size_for is_signal sa_siginfo in
  r10 <- r 10 ;;
  cur_frame <- mmuM r10 8 ;;
  caller_total_len <- match cur_frame with
                      | Some p => w <- load64 p 0 ;; ret (frame_total_len w)
                      | None => ret 0
                      end ;;
  if u64 (r10 - caller_total_len - frame_size) <? STACK_BASE then
    log_mem_violation r10 ;; ret false
  else
    let sp := u64 (r10 - caller_total_len) in
    let frame_base_addr := u64 (sp - frame_size) in
    frame_base <- mmu_wM frame_base_addr (u64 (sp - frame_base_addr)) ;;
    match frame_base with
    | None => log_mem_violation frame_base_addr ;; ret false
    | Some p =>
      limit <- frame_size_of callee_entry ;;
      write_frame p (Z.lor (frame_flags_make is_signal limit 0)
                           (if sa_siginfo then FRAME_FLAG_SIGINFO else 0))
                  return_addr is_signal ;;
      set_r 10 frame_base_addr ;;
      ret true
    end.

(** The loads of [pop_frame] out of the frame record. *)
Definition read_frame (p : hptr) (is_signal : bool) : M S unit :=
  x3 <- load64 p 3 ;; set_r 6 x3 ;;
  x4 <- load64 p 4 ;; set_r 7 x4 ;;
  x5 <- load64 p 5 ;; set_r 8 x5 ;;
  x6 <- load64 p 6 ;; set_r 9 x6 ;;
  if is_signal then
    modify (fun v => set_signal_depth (u64 (signal_depth v - 1)) v) ;;
    x7 <- load64 p 7 ;; set_r 0 x7 ;;
    x8 <- load64 p 8 ;; set_r 1 x8 ;;
    x9 <- load64 p 9 ;; set_r 2 x9 ;;
    x10 <- load64 p 10 ;; set_r 3 x10 ;;
    x11 <- load64 p 11 ;; set_r 4 x11 ;;
    x12 <- load64 p 12 ;; set_r 5 x12
  else ret tt.

Context `{SyscallHandler S}.

(** [vm::pop_frame]: 0 at the bottom of the stack. *)
Definition pop_frame : M S Z :=
  sp <- r 10 ;;
  frame_base <- mmuM sp (13 * 8) ;;
  match frame_base with
  | None => ret 0
  | Some p =>
    w <- load64 p 0 ;;
    old_sp <- load64 p 1 ;;
    ret_addr <- load64 p 2 ;;
    read_frame p (frame_is_signal w) ;;
    set_r 10 old_sp ;;
    if frame_is_signal w && frame_has_siginfo w then sigreturn sp ret_addr
    else ret ret_addr
  end.

(** [vm::alloca]; [inc] and the result are [int64_t]. *)
Definition alloca (inc : Z) : M S Z :=
  r10 <- r 10 ;;
  frame <- mmu_wM r10 8 ;;
  match frame with
  | None => ret (- EFAULT)
  | Some p =>
    flags0 <- load64 p 0 ;;
    let stack_limit := frame_stack_size flags0 in
    let cur_alloca := frame_alloca_len flags0 in
    let new_alloca := s64 (cur_alloca + inc) in
    if new_alloca <? 0 then ret (- EINVAL)
    else
      let new_total := u64 (stack_limit + new_alloca) in
      if (FRAME_ALLOCA_MASK <? new_alloca) || (r10 <? u64 (STACK_BASE + new_total))
      then ret (- ENOMEM)
      else
        room <- (if 0 <? inc then o <- mmu_wM (u64 (r10 - new_total)) new_total ;;
                                  ret (bool_decide (is_Some o))
                 else ret true) ;;
        if negb room then ret (- ENOMEM)
        else
          store64 p 0 (Z.lor (andnot flags0 (Z.shiftl FRAME_ALLOCA_MASK FRAME_ALLOCA_SHIFT))
                             (u64 (Z.shiftl new_alloca FRAME_ALLOCA_SHIFT))) ;;
          ret (s64 (r10 - new_total))
  end.

End Ops.

(** ** The fields of the frame word *)

Lemma mask24_bit i : 0 <= i -> Z.testbit FRAME_SIZE_MASK i = (i <? 24).
Proof.
  intros Hi. change FRAME_SIZE_MASK with (Z.ones 24). destruct (Z.ltb_spec i 24).
  - apply Z.ones_spec_low. lia.
  - apply Z.ones_spec_high. lia.
Qed.

Lemma small_bit z w i : 0 <= z < 2 ^ w -> 0 <= w -> Z.testbit z i = (i <? w) && Z.testbit z i.
Proof.
  intros Hz Hw. destruct (Z.ltb_spec i w); [done|]. by rewrite (testbit_high z w) by lia.
Qed.

Lemma u64_bit z i : 0 <= i -> Z.testbit (u64 z) i = (i <? 64) && Z.testbit z i.
Proof.
  intros Hi. unfold uwrap. destruct (Z.ltb_spec i 64).
  - by rewrite Z.mod_pow2_bits_low by lia.
  - by rewrite Z.mod_pow2_bits_high by lia.
Qed.

(** A word with its [alloca_len] field replaced, as [alloca] writes it. *)
Definition put_alloca (w n : Z) : Z :=
  Z.lor (andnot w (Z.shiftl FRAME_ALLOCA_MASK FRAME_ALLOCA_SHIFT)) (u64 (Z.shiftl n FRAME_ALLOCA_SHIFT)).

Create Rewrite HintDb bits.
#[export] Hint Rewrite Z.lor_spec Z.land_spec Z.ldiff_spec mask24_bit u64_bit using lia : bits.

(** Compare two words bit by bit; the field boundaries are at bits 24 and 48. *)
Ltac field_bits i :=
  apply Z.bits_inj'; intros i ?;
  unfold andnot, FRAME_ALLOCA_MASK, FRAME_ALLOCA_SHIFT, FRAME_FLAG_SIGNAL, FRAME_FLAG_SIGINFO in *;
  change 0xFFFFFF with FRAME_SIZE_MASK in *;
  repeat (first [ rewrite Z.lor_spec | rewrite Z.land_spec | rewrite Z.ldiff_spec
                | rewrite Z.shiftr_spec by lia | rewrite Z.shiftl_spec by lia
                | rewrite u64_bit by lia ]).

Lemma put_alloca_len w n : 0 <= n < 2 ^ 24 -> frame_alloca_len (put_alloca w n) = n.
Proof.
  intros Hn. unfold frame_alloca_len, put_alloca. field_bits i.
  rewrite !mask24_bit by lia. replace (i + 24 - 24) with i by lia.
  rewrite (small_bit n 24 i) by lia. zcases; try lia; cbn; rewrite ?mask24_bit by lia;
    rewrite ?andb_false_r, ?andb_true_r, ?orb_false_r; done.
Qed.

Lemma put_alloca_size w n : frame_stack_size (put_alloca w n) = frame_stack_size w.
Proof.
  unfold frame_stack_size, put_alloca. field_bits i. rewrite (mask24_bit i) by lia.
  destruct (Z.ltb_spec i 24); [|by rewrite !andb_false_r].
  rewrite !(Z.testbit_neg_r _ (i - 24)) by lia. cbn.
  by rewrite !andb_true_r, andb_false_r, orb_false_r.
Qed.

Lemma flag_testbit w k : 0 <= k -> nz (Z.land w (2 ^ k)) = Z.testbit w k.
Proof. apply nz_land_pow2. Qed.

Lemma put_alloca_flags w n :
  0 <= n < 2 ^ 24 ->
  frame_is_signal (put_alloca w n) = frame_is_signal w /\
  frame_has_siginfo (put_alloca w n) = frame_has_siginfo w.
Proof.
  intros Hn. unfold frame_is_signal, frame_has_siginfo, FRAME_FLAG_SIGNAL, FRAME_FLAG_SIGINFO.
  rewrite !flag_testbit by lia. unfold put_alloca, andnot, FRAME_ALLOCA_SHIFT.
  rewrite !Z.lor_spec, !Z.ldiff_spec, !u64_bit, !Z.shiftl_spec by lia.
  rewrite (testbit_high n 24 (48 - 24)), (testbit_high n 24 (49 - 24)) by lia.
  change FRAME_ALLOCA_MASK with FRAME_SIZE_MASK. rewrite !mask24_bit by lia. cbn.
  by rewrite !andb_true_r, !orb_false_r.
Qed.

Lemma make_size sg sz al sgi :
  0 <= sz < 2 ^ 24 ->
  frame_stack_size (Z.lor (frame_flags_make sg sz al) (if sgi : bool then FRAME_FLAG_SIGINFO else 0)) = sz.
Proof.
  intros Hsz. unfold frame_stack_size, frame_flags_make. field_bits i.
  rewrite !(mask24_bit i), (small_bit sz 24 i) by lia.
  destruct (Z.ltb_spec i 24); [|by rewrite !andb_false_r].
  rewrite !(Z.testbit_neg_r _ (i - 24)) by lia.
  destruct sg, sgi; rewrite ?Z.pow2_bits_false, ?Z.bits_0 by lia; cbn;
    by rewrite ?andb_false_r, ?orb_false_r, ?andb_true_r.
Qed.

Lemma make_alloca sg sz al sgi :
  0 <= al < 2 ^ 24 ->
  frame_alloca_len (Z.lor (frame_flags_make sg sz al) (if sgi : bool then FRAME_FLAG_SIGINFO else 0)) = al.
Proof.
  intros Hal. unfold frame_alloca_len, frame_flags_make. field_bits i.
  rewrite !mask24_bit by lia. replace (i + 24 - 24) with i by lia. rewrite (small_bit al 24 i) by lia.
  destruct (Z.ltb_spec i 24); [|by rewrite !andb_false_r].
  destruct (Z.ltb_spec (i + 24) 24); [lia|]. destruct (Z.ltb_spec (i + 24) 64); [|lia].
  destruct sg, sgi; rewrite ?Z.pow2_bits_false, ?Z.bits_0 by lia; cbn;
    by rewrite ?andb_false_r, ?orb_false_r, ?andb_true_r.
Qed.

Lemma make_flags sg sz al sgi :
  let w := Z.lor (frame_flags_make sg sz al) (if sgi : bool then FRAME_FLAG_SIGINFO else 0) in
  frame_is_signal w = sg /\ frame_has_siginfo w = sgi.
Proof.
  intros w. unfold frame_is_signal, frame_has_siginfo, FRAME_FLAG_SIGNAL, FRAME_FLAG_SIGINFO in *.
  rewrite !flag_testbit by lia. subst w. unfold frame_flags_make, FRAME_ALLOCA_SHIFT.
  rewrite !Z.lor_spec, !Z.land_spec, !Z.shiftl_spec by lia.
  change FRAME_ALLOCA_MASK with FRAME_SIZE_MASK. rewrite !mask24_bit by lia. cbn.
  rewrite !andb_false_r. cbn. destruct sg, sgi; done.
Qed.

(** ** The invariant *)

Section Keeps.
Context {S : Type} {env : HostEnv}.
Variables (pre ms rest : list memmap) (view : option (Z -> option Z)).
Abbreviation keeps := (Vm.keeps (S := S) pre ms rest view).

Lemma keeps_limit ps : keeps ps (gets (fun v => stack_limit (options v))) in_u64.
Proof. apply keeps_gets. intros v [Hw _]. apply Hw. Qed.

Lemma keeps_frame_size_of ps e : in_u64 e -> keeps ps (frame_size_of e) in_u64.
Proof.
  intros He. unfold frame_size_of. eapply keeps_bind; [apply keeps_limit|]. intros l Hl.
  destruct (Z.ltb_spec e 8); [by apply keeps_ret|].
  eapply keeps_bind; [apply keeps_mmu; unfold in_u64 in *; lia|]. intros o _.
  destruct o as [p|]; [|by apply keeps_ret].
  eapply (keeps_bind _ _ _ _ _ _ _ (fun _ => True)); [by apply keeps_gets|]. intros t _.
  keep; try done. unfold in_u64 in *. apply land_range_l; [done|]. unfold FRAME_SLOT_SIZE_MASK. lia.
Qed.

Lemma keeps_walk_frames ps d sp : in_u64 sp -> keeps ps (walk_frames d sp) (fun _ => True).
Proof.
  revert sp. induction d as [|d IH]; intros sp Hsp; cbn [walk_frames]; keep; done.
Qed.

Lemma keeps_log_mem_violation ps a : keeps ps (log_mem_violation a) (fun _ => True).
Proof.
  unfold log_mem_violation. eapply keeps_bind; [apply keeps_r|]. intros sp Hsp.
  eapply keeps_bind; [by apply keeps_walk_frames|]. intros _ _. keep.
Qed.

Lemma keeps_store64 ps a n p i x :
  (a, n, p) ∈ ps -> 0 <= i -> 8 * i + 8 <= Z.of_nat n ->
  keeps ps (store64 p i x) (fun _ => True).
Proof. intros Hin Hi Hn. apply (keeps_storeM _ _ _ _ _ a n); [done|lia..]. Qed.

(** The stores of [push_frame] stay inside the frame. *)
Lemma keeps_write_frame ps a p w ra sg n :
  (a, n, p) ∈ ps -> (if sg : bool then 104 else 56) <= Z.of_nat n ->
  keeps ps (write_frame p w ra sg) (fun _ => True).
Proof.
  intros Hin Hn. unfold write_frame.
  assert (56 <= Z.of_nat n) by (destruct sg; lia).
  repeat match goal with
  | |- Vm.keeps _ _ _ _ _ (bind (store64 _ _ _) _) _ =>
    eapply keeps_bind; [eapply keeps_store64; [exact Hin|lia..]|intros _ _]
  | |- Vm.keeps _ _ _ _ _ (bind (r _) _) _ => eapply keeps_bind; [apply keeps_r|intros ? ?]
  | |- Vm.keeps _ _ _ _ _ (if sg then _ else _) _ => destruct sg
  | |- Vm.keeps _ _ _ _ _ (bind (modify _) _) _ =>
    eapply (keeps_bind _ _ _ _ _ _ _ (fun _ => True)); [|intros _ _]
  | |- Vm.keeps _ _ _ _ _ (modify _) _ => apply keeps_modify; [intros v [Hw _]; by destruct Hw|done]
  | |- Vm.keeps _ _ _ _ _ (store64 _ _ _) _ => eapply keeps_store64; [exact Hin|lia..]
  | |- Vm.keeps _ _ _ _ _ (ret _) _ => by apply keeps_ret
  end.
Qed.

Lemma frame_size_for_range sg sgi : 64 <= frame_size_for sg sgi <= 520.
Proof. destruct sg, sgi; cbv; split; discriminate. Qed.

Lemma keeps_push_frame ra ce sg sgi :
  in_u64 ra -> in_u64 ce -> keeps [] (push_frame ra ce sg sgi) (fun _ => True).
Proof.
  intros Hra Hce. unfold push_frame. pose proof (frame_size_for_range sg sgi) as Hfs.
  assert (sg = true -> 128 <= frame_size_for sg sgi) as Hfs2 by (intros ->; destruct sgi; cbv; discriminate).
  set (fs := frame_size_for sg sgi) in *.
  eapply keeps_bind; [apply keeps_r|]. intros r10 Hr10.
  eapply keeps_bind; [apply keeps_mmu; [done|lia]|]. intros cur _.
  eapply (keeps_bind _ _ _ _ _ _ _ (fun _ => True)); [destruct cur; keep; done|]. intros tot _.
  destruct (_ <? _).
  { eapply keeps_bind; [apply keeps_log_mem_violation|]. intros _ _. by apply keeps_ret. }
  set (sp := u64 (r10 - tot)). set (fb := u64 (sp - fs)).
  assert (u64 (sp - fb) = fs) as ->.
  { unfold fb. rewrite uwrap_sub_r. replace (sp - (sp - fs)) with fs by lia. apply uwrap_small. lia. }
  apply (keeps_mmu_w _ _ _ _ _ fb fs (Z.to_nat fs)); [apply u64_range|lia..| |].
  - intros p. eapply keeps_bind; [by apply keeps_frame_size_of|]. intros l Hl.
    eapply keeps_bind; [eapply (keeps_write_frame _ fb p); [apply list_elem_of_here|]|].
    { destruct sg; lia. }
    intros _ _. eapply keeps_bind; [apply keeps_set_r, u64_range|]. intros _ _. by apply keeps_ret.
  - eapply keeps_bind; [apply keeps_log_mem_violation|]. intros _ _. by apply keeps_ret.
Qed.

Lemma keeps_read_frame ps p sg : keeps ps (read_frame p sg) (fun _ => True).
Proof.
  unfold read_frame. keep; try done.
  eapply (keeps_bind _ _ _ _ _ _ _ (fun _ => True)).
  { apply keeps_modify; [|done]. intros v [Hw _]. by destruct Hw. }
  intros _ _. keep.
Qed.

Context `{SyscallHandler S, !HandlerKeeps (S := S) pre ms rest view}.

Lemma keeps_pop_frame : keeps [] pop_frame in_u64.
Proof.
  unfold pop_frame. eapply keeps_bind; [apply keeps_r|]. intros sp Hsp.
  eapply keeps_bind; [apply keeps_mmu; [done|lia]|]. intros o _.
  destruct o as [p|]; [|by apply keeps_ret].
  do 3 (eapply keeps_bind; [apply keeps_load64|]; intros ? ?).
  eapply keeps_bind; [apply keeps_read_frame|]. intros _ _. keep; auto with keeps.
Qed.

End Keeps.
#[export] Hint Resolve keeps_frame_size_of keeps_log_mem_violation keeps_push_frame
  keeps_pop_frame : keeps.

Lemma frame_fields_range w : 0 <= frame_stack_size w < 2 ^ 24 /\ 0 <= frame_alloca_len w < 2 ^ 24.
Proof.
  unfold frame_stack_size, frame_alloca_len, FRAME_ALLOCA_MASK. change 0xFFFFFF with FRAME_SIZE_MASK.
  change FRAME_SIZE_MASK with (2 ^ 24 - 1). rewrite !land_mask by lia.
  split; apply Z.mod_pos_bound; lia.
Qed.

(** The signed sum of [alloca]: overflow of the [int64_t] shows as a negative length. *)
Lemma alloca_sum cur inc :
  0 <= cur < 2 ^ 24 -> - 2 ^ 63 <= inc < 2 ^ 63 -> 0 <= s64 (cur + inc) ->
  s64 (cur + inc) = cur + inc.
Proof.
  intros Hc Hi. unfold sval. cbn zeta. change (64 - 1) with 63.
  destruct (Z.ltb_spec ((cur + inc) mod 2 ^ 64) (2 ^ 63)).
  - intros _. destruct (Z.lt_ge_cases (cur + inc) 0).
    + rewrite <- (Z_mod_plus_full _ 1), Z.mod_small in * by lia. lia.
    + rewrite Z.mod_small in * by lia. done.
  - pose proof (Z.mod_pos_bound (cur + inc) (2 ^ 64)). lia.
Qed.

Section AllocaKeeps.
Context {S : Type} {env : HostEnv}.
Variables (pre ms rest : list memmap) (view : option (Z -> option Z)).

Lemma keeps_alloca inc :
  - 2 ^ 63 <= inc < 2 ^ 63 -> Vm.keeps (S := S) pre ms rest view [] (alloca inc) (fun _ => True).
Proof.
  intros Hinc. unfold alloca. eapply keeps_bind; [apply keeps_r|]. intros r10 Hr10.
  apply (keeps_mmu_w _ _ _ _ _ r10 8 8); [done|lia..| |by apply keeps_ret]. intros p.
  eapply keeps_bind; [apply keeps_load64|]. intros w Hw.
  pose proof (frame_fields_range w) as [Hsz Hal].
  destruct (Z.ltb_spec (s64 (frame_alloca_len w + inc)) 0); [by apply keeps_ret|].
  pose proof (alloca_sum _ inc Hal Hinc ltac:(lia)) as Hsum. rewrite Hsum in *.
  destruct (_ || _) eqn:Hlim; [by apply keeps_ret|]. unfold FRAME_ALLOCA_MASK in Hlim. zprops.
  rewrite (uwrap_small 64 (frame_stack_size w + _)) by lia.
  set (tot := frame_stack_size w + (frame_alloca_len w + inc)) in *.
  eapply (keeps_bind _ _ _ _ _ _ _ (fun _ => True)).
  { destruct (Z.ltb_spec 0 inc); [|by apply keeps_ret].
    apply (keeps_mmu_w _ _ _ _ _ _ tot (Z.to_nat tot)); [apply u64_range|lia..| |].
    - intros q. by apply keeps_ret.
    - by apply keeps_ret. }
  intros room _. destruct (negb room); [by apply keeps_ret|].
  eapply keeps_bind; [|intros _ _; by apply keeps_ret].
  apply (keeps_store64 _ _ _ _ _ r10 8); [apply list_elem_of_here|lia..].
Qed.

End AllocaKeeps.
#[export] Hint Resolve keeps_alloca : keeps.

(** ** Contents of a frame *)

(** Consecutive 64-bit stores at [p]. *)
Fixpoint store_words (m : mmem) (p : hptr) (i : Z) (ws : list Z) : mmem :=
  match ws with
  | [] => m
  | w :: t => store_words (store m (padd p (8 * i)) 8 w) p (i + 1) t
  end.

Lemma store_words_maps m p i ws : maps (store_words m p i ws) = maps m.
Proof. revert m i. induction ws as [|w t IH]; intros m i; cbn; [done|]. by rewrite IH. Qed.

Lemma store_words_tlb m p i ws : tlb (store_words m p i ws) = tlb m.
Proof. revert m i. induction ws as [|w t IH]; intros m i; cbn; [done|]. by rewrite IH. Qed.

Lemma store_words_wf m p i ws : mem_wf m -> mem_wf (store_words m p i ws).
Proof. revert m i. induction ws as [|w t IH]; intros m i Hm; cbn; [done|]. by apply IH, store_wf. Qed.

(** Later stores of a run leave the earlier words alone. *)
Lemma load_store_words_before m p i ws k :
  k < i -> load (store_words m p i ws) (padd p (8 * k)) 8 = load m (padd p (8 * k)) 8.
Proof.
  revert m i. induction ws as [|w t IH]; intros m i Hk; [done|]. cbn [store_words].
  rewrite IH by lia. apply host_read_write_disjoint. right. cbn [padd fst snd]. lia.
Qed.

Lemma load_store_words m p i ws k x :
  ws !! k = Some x -> load (store_words m p i ws) (padd p (8 * (i + Z.of_nat k))) 8 = u64 x.
Proof.
  revert m i k. induction ws as [|w t IH]; intros m i k Hk; [done|]. cbn [store_words].
  destruct k as [|k].
  - cbn in Hk. injection Hk as ->. rewrite Z.add_0_r, load_store_words_before by lia.
    apply host_read_write_same.
  - replace (i + Z.of_nat (Datatypes.S k)) with (i + 1 + Z.of_nat k) by lia. by apply IH.
Qed.

Section Roundtrip.
Context {S : Type} {env : HostEnv}.

Abbreviation R v n := (reg v !!! n%nat).

(** The words a frame holds, in order. *)
Definition frame_words (v : vm S) (word ra : Z) (sg : bool) : list Z :=
  [word; R v 10; ra; R v 6; R v 7; R v 8; R v 9] ++
  if sg then [R v 0; R v 1; R v 2; R v 3; R v 4; R v 5] else [].

Definition bump_depth (d : Z) (v : vm S) : vm S := set_signal_depth (u64 (signal_depth v + d)) v.

Lemma write_frame_eq p word ra sg (v : vm S) :
  write_frame p word ra sg v =
  Ok tt (set_mm (store_words (mm v) p 0 (frame_words v word ra sg))
                (if sg then bump_depth 1 v else v)).
Proof. by destruct sg. Qed.

(** *** Frame slots *)

(** The declared frame size of a function, by the segment table alone. *)
Definition slot_size (m : mmem) (limit callee_entry : Z) : Z :=
  if callee_entry <? 8 then limit
  else match find_map_locked (maps m) (callee_entry - 8) 8 with
       | None => limit
       | Some i =>
         match maps m !! i with
         | None => limit
         | Some mp =>
           let x := load m (host_of mp (callee_entry - 8)) 8 in
           if (callee_entry <? m_paddr mp + m_size mp) && nz (Z.land (m_flags mp) PF_X)
              && (x / 2 ^ 32 =? FRAME_SLOT_MAGIC) && negb (x mod 2 ^ 32 =? FRAME_SLOT_FALLBACK)
           then x mod 2 ^ 32 else limit
         end
       end.

(** [m'] differs from [m] in its TLB only. *)
Definition same_mem (m m' : mmem) : Prop := mem_wf m' /\ maps m' = maps m /\ hst m' = hst m.

Lemma frame_size_of_eq (v : vm S) e :
  mem_wf (mm v) -> in_u64 e ->
  exists m', same_mem (mm v) m' /\
    frame_size_of e v = Ok (slot_size (mm v) (stack_limit (options v)) e) (set_mm m' v).
Proof.
  intros Hwf He. unfold frame_size_of, slot_size. cbn [bind gets].
  destruct (Z.ltb_spec e 8) as [Hlt|Hge].
  { exists (mm v). split; [by split_and!|]. by rewrite set_mm_id. }
  assert (valid_access (e - 8) 8) as Hv by (unfold valid_access, in_u64 in *; lia).
  pose proof (mmu_spec (mm v) (e - 8) 8 Hwf Hv) as (H1 & H2 & H3 & H4).
  exists (mmu (mm v) (e - 8) 8).2. split; [done|]. unfold bind at 1. rewrite mmuM_eq.
  unfold translate in H1. destruct (find_map_locked (maps (mm v)) (e - 8) 8) as [i|] eqn:Hf.
  2:{ by rewrite H1. }
  apply find_map_spec in Hf as (mp & Hi & Hc); [|apply Hwf|done]. rewrite Hi in *. cbn in H1.
  destruct (mmu_tlb_entry (mm v) (e - 8) 8 _ Hwf Hv H1) as (k & mq & Hk & Hcq & _ & Ht).
  assert (mq = mp) as ->.
  { assert (k = i) as -> by (eapply covers_unique; [apply Hwf|..]; eauto; lia). congruence. }
  rewrite H1. unfold bind, gets, load64, loadM, ret. cbn -[Z.sub Z.add Z.mul Z.shiftr Z.div Z.modulo Z.land Z.pow load].
  rewrite Ht. cbn [t_end t_flags tlb_entry_of].
  pose proof (wf_map_lookup _ _ _ (mwf_maps _ Hwf) Hi) as (? & ? & ?).
  rewrite (uwrap_small 64) by lia.
  rewrite Z.leb_antisym.
  destruct (e <? m_paddr mp + m_size mp); cbn [negb andb]; [|done].
  destruct (nz (Z.land (m_flags mp) PF_X)); cbn [negb andb]; [|done].
  assert (load (mm (set_mm (mmu (mm v) (e - 8) 8).2 v)) (padd (host_of mp (e - 8)) (8 * 0)) 8
          = load (mm v) (host_of mp (e - 8)) 8) as ->.
  { unfold load. rewrite set_mm_mm, H4. unfold host_of, padd. cbn [fst snd]. do 2 f_equal. lia. }
  set (x := load (mm v) (host_of mp (e - 8)) 8).
  rewrite Z.shiftr_div_pow2 by lia. change FRAME_SLOT_SIZE_MASK with (2 ^ 32 - 1).
  rewrite land_mask by lia.
  destruct (x / 2 ^ 32 =? FRAME_SLOT_MAGIC); cbn [negb andb orb]; [|done].
  by destruct (x mod 2 ^ 32 =? FRAME_SLOT_FALLBACK).
Qed.

(** *** What [push_frame] does *)

(** Bytes below [r10] the caller has in use, as recorded in its frame word. *)
Definition caller_len (v : vm S) : Z :=
  match translate (maps (mm v)) (R v 10) 8 with
  | Some p => frame_total_len (load (mm v) p 8)
  | None => 0
  end.

Definition new_base (v : vm S) (sg sgi : bool) : Z :=
  u64 (R v 10 - caller_len v - frame_size_for sg sgi).

Definition new_word (m : mmem) (limit ce : Z) (sg sgi : bool) : Z :=
  Z.lor (frame_flags_make sg (slot_size m limit ce) 0) (if sgi then FRAME_FLAG_SIGINFO else 0).

(** A successful [push_frame]: the machine after it.  [m1] is the memory once
    the frame's segment is private; no guest byte changed up to there. *)
Record pushed (v v1 : vm S) (ra ce : Z) (sg sgi : bool) (p : hptr) (m1 : mmem) : Prop := {
  pu_floor : STACK_BASE <= new_base v sg sgi;
  pu_regs : reg v1 = <[10%nat := new_base v sg sgi]> (reg v);
  pu_private : private_at (maps m1) (new_base v sg sgi) (frame_size_for sg sgi) p;
  pu_wf : mem_wf m1;
  pu_range : Forall2 same_range (maps (mm v)) (maps m1);
  pu_gbyte : forall a, 0 <= a < 2 ^ 64 -> gbyte m1 a = gbyte (mm v) a;
  pu_share : forall others, share_ok (hst (mm v)) (maps (mm v) ++ others) ->
               share_ok (hst m1) (maps m1 ++ others);
  pu_mm : mm v1 = store_words m1 p 0
            (frame_words v (new_word m1 (stack_limit (options v)) ce sg sgi) ra sg);
  pu_depth : signal_depth v1 = if sg then u64 (signal_depth v + 1) else signal_depth v;
  pu_rest : pc_ v1 = pc_ v /\ flags v1 = flags v /\ options v1 = options v /\ sys v1 = sys v;
  pu_restart : restart_syscall_pc_ v1 = restart_syscall_pc_ v
}.

(** The head of [push_frame]: the length recorded in the caller's frame word. *)
Lemma caller_len_eq (v : vm S) :
  mem_wf (mm v) -> in_u64 (R v 10) ->
  exists m0, same_mem (mm v) m0 /\ forall (k : Z -> M S bool),
    (cur_frame <- mmuM (R v 10) 8 ;;
     l <- match cur_frame with
          | Some p => w <- load64 p 0 ;; ret (frame_total_len w)
          | None => ret 0
          end ;; k l) v = k (caller_len v) (set_mm m0 v).
Proof.
  intros Hwf Hr. destruct (mmu_any (mm v) (R v 10) 8 Hwf Hr ltac:(lia)) as (H1 & H2 & H3 & H4).
  exists (mmu (mm v) (R v 10) 8).2. split; [done|]. intros k. unfold bind at 1. rewrite mmuM_eq, H1.
  unfold caller_len. destruct (translate _ _ _) as [p|]; [|done].
  unfold bind, load64, loadM, gets, ret, load. cbn -[Z.mul padd host_read frame_total_len].
  rewrite H4. do 2 f_equal. unfold padd. destruct p. cbn. by rewrite Z.add_0_r.
Qed.

Lemma push_frame_pushed (v v1 : vm S) ra ce sg sgi :
  mem_wf (mm v) -> in_u64 (R v 10) -> in_u64 ce ->
  push_frame ra ce sg sgi v = Ok true v1 -> exists p m1, pushed v v1 ra ce sg sgi p m1.
Proof.
  intros Hwf Hr Hce Hpush. unfold push_frame in Hpush. unfold bind at 1, r, gets at 1 in Hpush.
  destruct (caller_len_eq v Hwf Hr) as (m0 & (W0 & M0 & S0) & Heq).
  change (Z.to_nat 10) with 10%nat in Hpush. rewrite Heq in Hpush. clear Heq.
  fold (new_base v sg sgi) in Hpush.
  destruct (Z.ltb_spec (new_base v sg sgi) STACK_BASE) as [Hlt|Hge].
  { minv Hpush. discriminate. }
  pose proof (frame_size_for_range sg sgi) as Hfs.
  rewrite uwrap_sub_l in Hpush. fold (new_base v sg sgi) in Hpush.
  replace (u64 (u64 (R v 10 - caller_len v) - new_base v sg sgi)) with (frame_size_for sg sgi) in Hpush.
  2:{ unfold new_base. rewrite uwrap_sub_l, uwrap_sub_r. symmetry.
      replace (R v 10 - caller_len v - (R v 10 - caller_len v - frame_size_for sg sgi))
        with (frame_size_for sg sgi) by lia. apply uwrap_small. lia. }
  minv Hpush. rewrite mmu_wM_eq in Hm. apply (f_equal Some) in Hm.
  injection Hm as Hx Hu. destruct x as [p|]; [|by minv Hpush].
  set (base := new_base v sg sgi) in *. set (fs := frame_size_for sg sgi) in *.
  assert (valid_access base fs) as Hv.
  { assert (0 <= base < 2 ^ 64) as Hb by apply u64_range.
    destruct (Z.lt_ge_cases (base + fs) (2 ^ 64)); [unfold valid_access; lia|].
    cbn in Hx. rewrite mmu_w_overflow in Hx by (unfold in_u64; lia). done. }
  pose proof (mmu_w_spec m0 base fs W0 Hv) as [Ww We Wr Wg Ws].
  set (m2 := (mmu_w m0 base fs).2) in *. specialize (Ws p Hx).
  assert (u = set_mm m2 v) as -> by (by rewrite <- Hu). clear Hu.
  minv Hpush. rename Hm into Hsz.
  destruct (frame_size_of_eq (set_mm m2 v) ce Ww Hce) as (m1 & (W1 & M1 & S1) & Hse).
  rewrite Hse in Hsz. injection Hsz as <- <-. cbn [options set_mm mm] in Hpush.
  minv Hpush. rewrite write_frame_eq in Hm. injection Hm as <- <-.
  minv Hpush. injection Hm as <- <-. injection Hpush as <-. exists p, m1.
  assert (slot_size m2 (stack_limit (options v)) ce = slot_size m1 (stack_limit (options v)) ce) as Hss.
  { unfold slot_size, load. by rewrite M1, S1. }
  constructor; auto.
  - by destruct sg.
  - by rewrite M1.
  - rewrite M1, <- M0. exact Wr.
  - intros a Ha. transitivity (gbyte m2 a); [unfold gbyte; by rewrite M1, S1|].
    rewrite Wg by done. unfold gbyte. by rewrite M0, S0.
  - intros others Hsh. rewrite M1, S1. apply mmu_w_share; [done|]. by rewrite M0, S0.
  - unfold new_word. rewrite <- Hss. by destruct sg.
  - by destruct sg.
  - by destruct sg.
  - by destruct sg.
Qed.

(** *** What [pop_frame] does *)

(** The register file after the frame words [fw] are loaded. *)
Definition popped_regs (l : list Z) (fw : Z -> Z) (sg : bool) (r10 : Z) : list Z :=
  (if sg then [fw 7; fw 8; fw 9; fw 10; fw 11; fw 12] else take 6 l)
  ++ [fw 3; fw 4; fw 5; fw 6; r10].

Lemma reg_file_shape (l : list Z) :
  length l = 11%nat ->
  exists a0 a1 a2 a3 a4 a5 a6 a7 a8 a9 a10, l = [a0; a1; a2; a3; a4; a5; a6; a7; a8; a9; a10].
Proof. intros H. do 11 (destruct l as [|? l]; [done|]). destruct l; [|done]. by repeat eexists. Qed.

Lemma read_frame_eq p sg (v : vm S) :
  length (reg v) = 11%nat ->
  let fw k := load (mm v) (padd p (8 * k)) 8 in
  read_frame p sg v =
  Ok tt (set_reg (popped_regs (reg v) fw sg (R v 10)) (if sg then bump_depth (-1) v else v)).
Proof.
  intros Hl fw. destruct (reg_file_shape _ Hl) as (?&?&?&?&?&?&?&?&?&?&?&E).
  destruct v. cbn in E. subst reg. destruct sg; reflexivity.
Qed.

Lemma popped_regs_sp l fw gw sg a b :
  length l = 11%nat -> (forall k, gw k = fw k) ->
  <[10%nat := b]> (popped_regs l gw sg a) = popped_regs l fw sg b.
Proof.
  intros Hl Hfg. destruct (reg_file_shape _ Hl) as (?&?&?&?&?&?&?&?&?&?&?&->).
  unfold popped_regs. rewrite !Hfg. by destruct sg.
Qed.

Context `{SyscallHandler S}.

(** The machine after the frame at [r10] has been unwound. *)
Definition unwound (v : vm S) (m : mmem) (p : hptr) : vm S :=
  let fw k := load (mm v) (padd p (8 * k)) 8 in
  let sg := frame_is_signal (fw 0) in
  set_reg (popped_regs (reg v) fw sg (fw 1)) (set_mm m (if sg then bump_depth (-1) v else v)).

Lemma pop_frame_eq (v : vm S) p :
  mem_wf (mm v) -> in_u64 (R v 10) -> length (reg v) = 11%nat ->
  translate (maps (mm v)) (R v 10) 104 = Some p ->
  let fw k := load (mm v) (padd p (8 * k)) 8 in
  exists m', same_mem (mm v) m' /\
    pop_frame v =
    (if frame_is_signal (fw 0) && frame_has_siginfo (fw 0)
     then sigreturn (R v 10) (fw 2) else ret (fw 2)) (unwound v m' p).
Proof.
  intros Hwf Hr Hl Ht fw. destruct (mmu_any (mm v) (R v 10) 104 Hwf Hr ltac:(lia)) as (H1 & H2 & H3 & H4).
  exists (mmu (mm v) (R v 10) 104).2. split; [done|].
  unfold pop_frame. unfold bind at 1, r, gets at 1. change (Z.to_nat 10) with 10%nat.
  change (13 * 8) with 104. unfold bind at 1. rewrite mmuM_eq, H1, Ht.
  set (v' := set_mm (mmu (mm v) (R v 10) 104).2 v).
  assert (forall k, load (mm v') (padd p (8 * k)) 8 = fw k) as Hfw.
  { intros k. unfold fw, load. cbn. by rewrite H4. }
  unfold bind at 1, load64 at 1, loadM at 1, gets at 1. rewrite Hfw.
  unfold bind at 1, load64 at 1, loadM at 1, gets at 1. rewrite Hfw.
  unfold bind at 1, load64 at 1, loadM at 1, gets at 1. rewrite Hfw.
  unfold bind at 1. rewrite read_frame_eq by done. unfold bind at 1, set_r, modify.
  match goal with |- _ ?x = _ ?y => assert (x = y) as ->; [|done] end.
  unfold unwound. fold fw. cbn [reg set_reg].
  rewrite (popped_regs_sp _ fw) by done.
  change (load (mm v) (padd p (8 * 0)) 8) with (fw 0).
  by destruct (frame_is_signal (fw 0)).
Qed.

(** *** Putting both together *)

Lemma new_word_range m l ce sg sgi : 0 <= new_word m l ce sg sgi < 2 ^ 64.
Proof.
  unfold new_word, frame_flags_make. change FRAME_SIZE_MASK with (2 ^ 24 - 1). rewrite land_mask by lia.
  pose proof (Z.mod_pos_bound (slot_size m l ce) (2 ^ 24) ltac:(lia)).
  assert (0 <= FRAME_FLAG_SIGNAL < 2 ^ 64) by (cbv; split; congruence).
  assert (0 <= FRAME_FLAG_SIGINFO < 2 ^ 64) by (cbv; split; congruence).
  repeat (apply lor_range; [lia| |]); try (case_match; lia); try lia.
  apply land_range_l; [apply u64_range|]. cbv; congruence.
Qed.

Lemma private_valid ms base size p :
  wf_maps ms -> 0 < size -> private_at ms base size p -> valid_access base size.
Proof.
  intros Hw Hs (i & mp & Hi & Hc & _). apply (wf_map_lookup _ _ _ Hw) in Hi as (? & ? & ?).
  unfold covers in Hc. unfold valid_access. lia.
Qed.

(** The words the guest finds in a pushed frame. *)
Lemma pushed_words (v v1 : vm S) ra ce sg sgi p m1 k x :
  Forall in_u64 (reg v) -> length (reg v) = 11%nat -> in_u64 ra -> pushed v v1 ra ce sg sgi p m1 ->
  frame_words v (new_word m1 (stack_limit (options v)) ce sg sgi) ra sg !! k = Some x ->
  gload (mm v1) (new_base v sg sgi + 8 * Z.of_nat k) 8 = x.
Proof.
  intros Hr Hlen Hra Hp Hk. pose proof (frame_size_for_range sg sgi) as Hfs.
  assert (Z.of_nat k * 8 + 8 <= frame_size_for sg sgi) as Hkb.
  { assert ((if sg then 104 else 56) <= frame_size_for sg sgi) by (destruct sg, sgi; vm_compute; congruence).
    apply lookup_lt_Some in Hk. unfold frame_words in Hk. destruct sg; cbn in Hk; lia. }
  pose proof (pu_wf _ _ _ _ _ _ _ _ Hp) as Hwf.
  assert (wf_maps (maps (mm v1))) as Hw1.
  { rewrite (pu_mm _ _ _ _ _ _ _ _ Hp), store_words_maps. apply Hwf. }
  pose proof (pu_private _ _ _ _ _ _ _ _ Hp) as Hpr.
  assert (valid_access (new_base v sg sgi) (frame_size_for sg sgi)) as Hv.
  { eapply private_valid; [apply Hwf|lia|exact Hpr]. }
  rewrite <- (load_gload (mm v1) (new_base v sg sgi) (frame_size_for sg sgi) p); [|done|done| |lia|lia].
  2:{ rewrite (pu_mm _ _ _ _ _ _ _ _ Hp), store_words_maps.
      apply private_at_translate; [apply Hwf|done..]. }
  rewrite (pu_mm _ _ _ _ _ _ _ _ Hp). rewrite <- (Z.add_0_l (Z.of_nat k)).
  rewrite (load_store_words _ _ _ _ _ _ Hk). apply uwrap_small.
  assert (Forall in_u64 (frame_words v (new_word m1 (stack_limit (options v)) ce sg sgi) ra sg)) as Hall.
  { destruct (reg_file_shape _ Hlen) as (?&?&?&?&?&?&?&?&?&?&?&E). unfold frame_words. rewrite E in *.
    cbn. pose proof (new_word_range m1 (stack_limit (options v)) ce sg sgi).
    rewrite !Forall_cons_iff in Hr. destruct_and! Hr.
    destruct sg; repeat (apply Forall_cons_2; [done|]); by apply Forall_nil_2. }
  by eapply Forall_lookup_1 in Hall.
Qed.

End Roundtrip.

Section Claims.
Context {S : Type} {env : HostEnv} `{SyscallHandler S}.
Abbreviation R v n := (reg v !!! n%nat).

Lemma pushed_sp (v v1 : vm S) ra ce sg sgi p m1 :
  length (reg v) = 11%nat -> pushed v v1 ra ce sg sgi p m1 -> R v1 10 = new_base v sg sgi.
Proof.
  intros Hl Hp. rewrite (pu_regs _ _ _ _ _ _ _ _ Hp). apply list_lookup_total_insert_eq. lia.
Qed.

(** The loads of [pop_frame] find the words [push_frame] stored. *)
Lemma popped_words (v v1 v2 : vm S) ra ce sg p m1 q k x :
  Forall in_u64 (reg v) -> length (reg v) = 11%nat -> in_u64 ra -> pushed v v1 ra ce sg false p m1 ->
  mem_wf (mm v2) -> in_u64 (new_base v sg false) ->
  translate (maps (mm v2)) (new_base v sg false) 104 = Some q ->
  (forall a, new_base v sg false <= a < new_base v sg false + (if sg then 104 else 56) ->
     gbyte (mm v2) a = gbyte (mm v1) a) ->
  frame_words v (new_word m1 (stack_limit (options v)) ce sg false) ra sg !! k = Some x ->
  load (mm v2) (padd q (8 * Z.of_nat k)) 8 = x.
Proof.
  intros Hr Hl Hra Hp Hwf2 Hb Ht Hkept Hk.
  assert (Z.of_nat k * 8 + 8 <= if sg then 104 else 56) as Hkb.
  { apply lookup_lt_Some in Hk. unfold frame_words in Hk. destruct sg; cbn in Hk; lia. }
  assert (valid_access (new_base v sg false) 104) as Hv.
  { destruct (Z.lt_ge_cases (new_base v sg false + 104) (2 ^ 64)); [unfold valid_access, in_u64 in *; lia|].
    destruct (mmu_any (mm v2) _ 104 Hwf2 Hb ltac:(lia)) as (E & _).
    rewrite mmu_overflow, Ht in E by (unfold in_u64 in *; lia). done. }
  rewrite (load_gload (mm v2) (new_base v sg false) 104 q);
    [|apply Hwf2|done|done|lia|destruct sg; lia].
  rewrite (gload_ext _ (mm v1)).
  - exact (pushed_words v v1 ra ce sg false p m1 k x Hr Hl Hra Hp Hk).
  - intros j Hj. apply Hkept. destruct sg; lia.
Qed.

(** C5: Calls and returns match: if [push_frame] succeeded, and the callee came
    back to the same frame with the frame record intact and readable, then
    [pop_frame] returns the pushed return address and restores r6-r10 (for a
    signal frame r0-r10 and the signal nesting depth); for a normal call r0-r5
    are the callee's. *)
Theorem push_pop_roundtrip (v v1 v2 : vm S) ra ce sg
  (Hwf : mem_wf (mm v)) (Hl : length (reg v) = 11%nat) (Hr : Forall in_u64 (reg v))
  (Hra : in_u64 ra) (Hce : in_u64 ce)
  (Hpush : push_frame ra ce sg false v = Ok true v1)
  (Hwf2 : mem_wf (mm v2)) (Hl2 : length (reg v2) = 11%nat) (Hsp : R v2 10 = R v1 10)
  (Hread : is_Some (translate (maps (mm v2)) (R v1 10) 104))
  (Hkept : forall a, R v1 10 <= a < R v1 10 + (if sg then 104 else 56) ->
     gbyte (mm v2) a = gbyte (mm v1) a) :
  exists v3, pop_frame v2 = Ok ra v3 /\
    reg v3 = (if sg then take 6 (reg v) else take 6 (reg v2)) ++ drop 6 (reg v) /\
    (signal_depth v2 = signal_depth v1 -> in_u64 (signal_depth v) -> signal_depth v3 = signal_depth v).
Proof.
  destruct (reg_file_shape _ Hl) as (?&?&?&?&?&?&?&?&?&?&?&E).
  assert (in_u64 (R v 10)) as Hr10 by (rewrite E in *; by rewrite !Forall_cons_iff in Hr; destruct_and! Hr).
  destruct (push_frame_pushed v v1 ra ce sg false Hwf Hr10 Hce Hpush) as (p & m1 & Hp).
  rewrite (pushed_sp _ _ _ _ _ _ _ _ Hl Hp) in *. destruct Hread as [q Hq].
  assert (in_u64 (new_base v sg false)) as Hb by apply u64_range.
  set (w := new_word m1 (stack_limit (options v)) ce sg false).
  assert (forall k x, 0 <= k -> frame_words v w ra sg !! Z.to_nat k = Some x ->
            load (mm v2) (padd q (8 * k)) 8 = x) as Hfw.
  { intros k y Hk Hy. rewrite <- (Z2Nat.id k) by done. by eapply (popped_words v v1 v2 ra ce sg p m1 q). }
  destruct (pop_frame_eq v2 q Hwf2 ltac:(by rewrite Hsp) Hl2 ltac:(by rewrite Hsp)) as (m' & _ & Hpop).
  assert (load (mm v2) (padd q (8 * 0)) 8 = w) as H0 by (by apply Hfw).
  destruct (make_flags sg (slot_size m1 (stack_limit (options v)) ce) 0 false) as [Hs1 Hs2].
  fold (new_word m1 (stack_limit (options v)) ce sg false) in Hs1, Hs2. fold w in Hs1, Hs2.
  rewrite H0, Hs1, Hs2, andb_false_r in Hpop. cbn [ret] in Hpop.
  rewrite (Hfw 2 ra) in Hpop by done.
  eexists. split; [exact Hpop|]. unfold unwound. rewrite H0, Hs1. cbn [reg set_reg].
  split.
  - unfold popped_regs. rewrite E. cbn [drop take].
    rewrite (Hfw 1 (R v 10)), (Hfw 3 (R v 6)), (Hfw 4 (R v 7)), (Hfw 5 (R v 8)),
      (Hfw 6 (R v 9)) by done.
    destruct sg; [|by rewrite E].
    rewrite (Hfw 7 (R v 0)), (Hfw 8 (R v 1)), (Hfw 9 (R v 2)), (Hfw 10 (R v 3)),
      (Hfw 11 (R v 4)), (Hfw 12 (R v 5)) by done.
    by rewrite E.
  - intros Hd Hdr. pose proof (pu_depth _ _ _ _ _ _ _ _ Hp) as Hd1. destruct sg; cbn.
    + rewrite Hd, Hd1, uwrap_add_l. replace (signal_depth v + 1 + -1) with (signal_depth v) by lia.
      by apply uwrap_small.
    + by rewrite Hd, Hd1.
Qed.

End Claims.

(** ** Alloca *)

Section Alloca.
Context {S : Type} {env : HostEnv}.
Abbreviation R v n := (reg v !!! n%nat).

(** Guest memory is the same except for the 8 bytes at [base]. *)
Definition only_word (m m' : mmem) (base : Z) : Prop :=
  forall a, 0 <= a < 2 ^ 64 -> ~ (base <= a < base + 8) -> gbyte m' a = gbyte m a.

Lemma gload_same m m' a n :
  0 <= a -> a + Z.of_nat n <= 2 ^ 64 -> (forall b, 0 <= b < 2 ^ 64 -> gbyte m' b = gbyte m b) ->
  gload m' a n = gload m a n.
Proof. intros Ha Hn H. apply gload_ext. intros j Hj. apply H. lia. Qed.

(** What the outcome [rc] of [alloca inc] means. *)
Inductive alloca_outcome (v v' : vm S) (inc rc : Z) : Prop :=
| alloca_fault : rc = - EFAULT -> (mmu_w (mm v) (R v 10) 8).1 = None ->
    gload (mm v') (R v 10) 8 = gload (mm v) (R v 10) 8 -> alloca_outcome v v' inc rc
| alloca_invalid : rc = - EINVAL ->
    s64 (frame_alloca_len (gload (mm v) (R v 10) 8) + inc) < 0 ->
    gload (mm v') (R v 10) 8 = gload (mm v) (R v 10) 8 -> alloca_outcome v v' inc rc
| alloca_nomem w : rc = - ENOMEM -> w = gload (mm v) (R v 10) 8 ->
    (2 ^ 24 <= frame_alloca_len w + inc \/
     R v 10 < STACK_BASE + frame_stack_size w + frame_alloca_len w + inc \/ 0 < inc) ->
    gload (mm v') (R v 10) 8 = w -> alloca_outcome v v' inc rc
| alloca_done w n : w = gload (mm v) (R v 10) 8 -> n = frame_alloca_len w + inc -> 0 <= n < 2 ^ 24 ->
    gload (mm v') (R v 10) 8 = put_alloca w n ->
    u64 rc = R v 10 - (frame_stack_size w + n) -> STACK_BASE <= u64 rc -> alloca_outcome v v' inc rc.

Lemma put_alloca_range w n : 0 <= w < 2 ^ 64 -> 0 <= put_alloca w n < 2 ^ 64.
Proof.
  intros Hw. unfold put_alloca. apply lor_range; [lia|by apply ldiff_range|apply u64_range].
Qed.

(** The last step of [alloca]: writing the new length into the frame word. *)
Lemma alloca_write (v : vm S) others m p w n :
  mem_wf m -> share_ok (hst m) (maps m ++ others) -> valid_access (R v 10) 8 ->
  private_at (maps m) (R v 10) 8 p -> 0 <= w < 2 ^ 64 ->
  (forall a, 0 <= a < 2 ^ 64 -> gbyte m a = gbyte (mm v) a) ->
  let m' := store m (padd p (8 * 0)) 8 (put_alloca w n) in
  gload m' (R v 10) 8 = put_alloca w n /\ only_word (mm v) m' (R v 10).
Proof.
  intros Hwf Hsh Hv Hp Hw Hg m'.
  assert (padd p (8 * 0) = p) as E by (unfold padd; destruct p; cbn; by rewrite Z.add_0_r).
  unfold m'. rewrite E. split.
  - rewrite (store_gload m (R v 10) p 8) by (done || apply Hwf). apply Z.mod_small.
    by apply put_alloca_range.
  - intros a Ha Hout. rewrite (store_gbyte m others (R v 10) p 8); [|done..].
    destruct (_ && _) eqn:Hin; [zprops; lia|]. by apply Hg.
Qed.

Lemma alloca_spec_aux (v : vm S) others inc :
  mem_wf (mm v) -> in_u64 (R v 10) -> share_ok (hst (mm v)) (maps (mm v) ++ others) ->
  - 2 ^ 63 <= inc < 2 ^ 63 ->
  exists rc v', alloca inc v = Ok rc v' /\ alloca_outcome v v' inc rc /\
    reg v' = reg v /\ only_word (mm v) (mm v') (R v 10).
Proof.
  intros Hwf Hr Hsh Hinc. assert (0 <= R v 10 < 2 ^ 64) as Hr' by exact Hr.
  unfold alloca. unfold bind at 1, r, gets at 1.
  change (Z.to_nat 10) with 10%nat. unfold bind at 1. rewrite mmu_wM_eq.
  destruct (Z.lt_ge_cases (R v 10 + 8) (2 ^ 64)) as [Hlt|Hge].
  2:{ rewrite mmu_w_overflow by (done || lia). cbn. eexists _, _. split; [done|].
      rewrite set_mm_id. split; [|done]. apply alloca_fault; [done|by rewrite mmu_w_overflow by (done || lia)|done]. }
  assert (valid_access (R v 10) 8) as Hv by (unfold valid_access, in_u64 in *; lia).
  pose proof (mmu_w_spec (mm v) (R v 10) 8 Hwf Hv) as [W1 _ _ G1 P1].
  pose proof (mmu_w_share (mm v) others (R v 10) 8 Hwf Hsh) as Sh1.
  destruct (mmu_w (mm v) (R v 10) 8) as [o m1] eqn:Hmw. cbn [fst snd] in *.
  assert (gload m1 (R v 10) 8 = gload (mm v) (R v 10) 8) as Hgl
    by (apply gload_same; [lia|cbn; lia|done]).
  destruct o as [p|].
  2:{ eexists _, _. split; [done|]. split; [|split; [done|by intros a Ha _; apply G1]].
      apply alloca_fault; [done|by rewrite Hmw|done]. }
  specialize (P1 p eq_refl).
  unfold bind at 1, load64, loadM, gets at 1. rewrite set_mm_mm.
  assert (load m1 (padd p (8 * 0)) 8 = gload (mm v) (R v 10) 8) as ->.
  { rewrite <- Hgl. rewrite (load_gload m1 (R v 10) 8 p); [by rewrite Z.mul_0_r, Z.add_0_r|apply W1|done| |lia|lia].
    apply private_at_translate; [apply W1|done..]. }
  set (w := gload (mm v) (R v 10) 8).
  assert (0 <= w < 2 ^ 64) as Hw.
  { apply (load_le_range _ (R v 10) 8). intros j. unfold gbyte. destruct (translate _ _ _) as [q|]; cbn; [|lia].
    apply (mwf_bytes _ Hwf). }
  pose proof (frame_fields_range w) as [Hsz Hal].
  destruct (Z.ltb_spec (s64 (frame_alloca_len w + inc)) 0) as [Hneg|Hpos].
  { eexists _, _. split; [done|]. split; [by apply alloca_invalid|].
    split; [done|]. intros a Ha _. by apply G1. }
  pose proof (alloca_sum _ inc Hal Hinc Hpos) as Hsum. rewrite Hsum in *.
  destruct (_ || _) eqn:Hlim.
  { eexists _, _. split; [done|]. split; [|split; [done|by intros a Ha _; apply G1]].
    apply (alloca_nomem _ _ _ _ w); [done|done| |done].
    apply orb_true_iff in Hlim. unfold FRAME_ALLOCA_MASK, STACK_BASE in *.
    rewrite !Z.ltb_lt in Hlim. destruct Hlim as [?|Hlim]; [lia|].
    destruct (Z.lt_ge_cases (frame_alloca_len w + inc) (2 ^ 24)); [|lia]. right. left.
    rewrite !(uwrap_small 64) in Hlim; [lia|lia|rewrite uwrap_small; lia]. }
  unfold FRAME_ALLOCA_MASK, STACK_BASE in Hlim. zprops.
  rewrite (uwrap_small 64 (frame_stack_size w + _)) in * by lia.
  set (tot := frame_stack_size w + (frame_alloca_len w + inc)) in *.
  rewrite (uwrap_small 64) in * by lia.
  assert (u64 (s64 (R v 10 - tot)) = R v 10 - tot) as Hrc.
  { rewrite uwrap_sval by lia. apply uwrap_small. unfold in_u64 in Hr. lia. }
  assert (forall m2, mem_wf m2 -> share_ok (hst m2) (maps m2 ++ others) ->
    private_at (maps m2) (R v 10) 8 p -> (forall a, 0 <= a < 2 ^ 64 -> gbyte m2 a = gbyte (mm v) a) ->
    exists rc v', Ok (s64 (R v 10 - tot))
        (set_mm (store m2 (padd p (8 * 0)) 8 (put_alloca w (frame_alloca_len w + inc))) (set_mm m1 v)) = Ok rc v' /\
      alloca_outcome v v' inc rc /\ reg v' = reg v /\ only_word (mm v) (mm v') (R v 10)) as Hfin.
  { intros m2 Hw2 Hs2 Hp2 Hg2. eexists _, _. split; [done|].
    destruct (alloca_write v others m2 p w (frame_alloca_len w + inc)) as [Hm1 Hm2]; [done..|].
    split; [|done].
    apply (alloca_done _ _ _ _ w (frame_alloca_len w + inc)); [done|done|lia|exact Hm1|done|]. rewrite Hrc. unfold STACK_BASE. lia. }
  destruct (Z.ltb_spec 0 inc) as [Hi|Hi].
  - unfold bind at 1, bind at 1. rewrite mmu_wM_eq, set_mm_mm.
    assert (valid_access (u64 (R v 10 - tot)) tot) as Hvt.
    { rewrite (uwrap_small 64) by (unfold in_u64 in Hr; lia). unfold valid_access, in_u64 in *. lia. }
    pose proof (mmu_w_spec m1 (u64 (R v 10 - tot)) tot W1 Hvt) as [W2 _ _ G2 _].
    pose proof (mmu_w_share m1 others (u64 (R v 10 - tot)) tot W1 Sh1) as Sh2.
    pose proof (mmu_w_private m1 (u64 (R v 10 - tot)) tot _ _ _ P1) as P2.
    destruct (mmu_w m1 (u64 (R v 10 - tot)) tot) as [[q|] m2]; cbn [fst snd] in *.
    + apply Hfin; [done..|]. intros a Ha. by rewrite G2, G1.
    + eexists _, _. split; [done|].
      split; [|split; [done|intros a Ha _; cbn; by rewrite G2, G1]].
      apply (alloca_nomem _ _ _ _ w); [done|done|lia|].
      apply gload_same; [lia|cbn; lia|]. intros a Ha. cbn. by rewrite G2, G1.
  - by apply (Hfin m1).
Qed.

End Alloca.

(** ** Properties *)

(** The frame word packs four independent fields: a word built from a
    24-bit frame size, a 24-bit alloca length and the two flags gives each of
    them back, and replacing the alloca length (as [alloca] does) changes
    nothing else. *)
Theorem frame_word_fields sg sgi sz al n
  (Hsz : 0 <= sz < 2 ^ 24) (Hal : 0 <= al < 2 ^ 24) (Hn : 0 <= n < 2 ^ 24) :
  let w := Z.lor (frame_flags_make sg sz al) (if sgi : bool then FRAME_FLAG_SIGINFO else 0) in
  (frame_stack_size w = sz /\ frame_alloca_len w = al /\
   frame_is_signal w = sg /\ frame_has_siginfo w = sgi) /\
  (frame_stack_size (put_alloca w n) = sz /\ frame_alloca_len (put_alloca w n) = n /\
   frame_is_signal (put_alloca w n) = sg /\ frame_has_siginfo (put_alloca w n) = sgi).
Proof.
  intros w. destruct (make_flags sg sz al sgi) as [F1 F2]. fold w in F1, F2.
  destruct (put_alloca_flags w n Hn) as [P1 P2].
  rewrite put_alloca_size, (put_alloca_len w n Hn), P1, P2.
  split_and!; auto; try (apply make_size; lia); apply make_alloca; lia.
Qed.

Lemma frame_word_fields_witness :
  frame_alloca_len (put_alloca (Z.lor (frame_flags_make true 100 7) FRAME_FLAG_SIGINFO) 48) = 48 /\
  frame_stack_size (put_alloca (Z.lor (frame_flags_make true 100 7) FRAME_FLAG_SIGINFO) 48) = 100.
Proof.
  destruct (frame_word_fields true true 100 7 48 ltac:(lia) ltac:(lia) ltac:(lia)) as [_ (H1 & H2 & _)].
  split; [exact H2|exact H1].
Defined.

(** [frame_size_of] returns the declared size exactly when the 8 bytes
    before the function are a frame slot (magic word, not the fallback marker)
    that lies together with the function entry in one executable segment, and
    the configured stack limit otherwise; it changes nothing but the TLB. *)
Theorem frame_size_of_slot {S : Type} (v : vm S) e (Hwf : mem_wf (mm v)) (He : in_u64 e) :
  exists m', same_mem (mm v) m' /\
    frame_size_of e v = Ok (slot_size (mm v) (stack_limit (options v)) e) (set_mm m' v).
Proof. by apply frame_size_of_eq. Qed.

(** [alloca] on every branch: it fails with -EFAULT when the frame word is
    not writable, with -EINVAL when the new length would be negative (signed
    overflow included), with -ENOMEM when the length field or the stack would
    overflow or the region is not mapped, and then leaves the frame word alone;
    otherwise the alloca length grows by exactly [inc], the result is the new
    lower bound of the frame and lies in the stack.  No other guest byte and no
    register changes. *)
Theorem alloca_contract {S : Type} {env : HostEnv} (v : vm S) others inc
  (Hwf : mem_wf (mm v)) (Hr : in_u64 (reg v !!! 10%nat))
  (Hsh : share_ok (hst (mm v)) (maps (mm v) ++ others)) (Hinc : - 2 ^ 63 <= inc < 2 ^ 63) :
  exists rc v', alloca inc v = Ok rc v' /\ alloca_outcome v v' inc rc /\
    reg v' = reg v /\ only_word (mm v) (mm v') (reg v !!! 10%nat).
Proof. by apply (alloca_spec_aux v others). Qed.

(** ** A concrete machine

    A 16 MiB stack at [STACK_BASE] and one code page at 0x40000000, whose first
    word is the frame slot of the function at 0x40000008 (32 bytes of locals). *)

Definition demo_code : Z -> Z := store_le (fun _ => 0) 0 8 (make_frame_slot 32).
Definition demo_vm_host : host :=
  mkhost (fun b => if b =? 1 then demo_code else fun _ => 0) (fun _ _ => 3) 2 ∅ 0 [].
Definition demo_stack : memmap :=
  mkmap (0, 0) (mkDeleter STACK_SIZE true) STACK_SIZE STACK_BASE PF_W None "<stack>"%string.
Definition demo_text : memmap :=
  mkmap (1, 0) (mkDeleter 4096 true) 4096 0x40000000 (Z.lor PF_R PF_X) None "a.out"%string.
Definition demo_vm_mem : mmem := mkmmem ∅ [demo_stack; demo_text] demo_vm_host.
Definition demo_options : vmOptions := mkoptions false false 0 (16 * 1024) [] [].
Definition demo_vm : vm unit :=
  mkvm demo_options 0x40000008 [1; 2; 3; 4; 5; 6; 7; 8; 9; 10; STACK_BASE + STACK_SIZE - 0x8000]
       0 0 0 demo_vm_mem (Some 0x40000008) 0 0 0 false tt [] [].

Lemma demo_vm_mem_wf : mem_wf demo_vm_mem.
Proof.
  constructor.
  - split.
    + repeat constructor; cbv; congruence.
    + repeat constructor; cbv; congruence.
  - intros i e He. change (tlb demo_vm_mem) with (∅ : gmap Z TlbEntry) in He. by rewrite lookup_empty in He.
  - repeat constructor.
  - intros b o. cbn. destruct (b =? 1); [|lia]. apply store_le_byte. lia.
Qed.

Lemma demo_vm_wf : vm_wf [] [] [] None demo_vm.
Proof.
  constructor; try done; try apply demo_vm_mem_wf.
  - repeat constructor; cbv; congruence.
  - repeat constructor.
  - split.
    + intros i j a b Ha Hb Hne. left.
      destruct i as [|[|i]], j as [|[|j]]; cbn in Ha, Hb; simplify_eq; left; cbv; congruence.
    + intros i c mp Hi Hc. destruct i as [|[|i]]; cbn in Hi; simplify_eq; done.
    + repeat constructor.
    + repeat constructor; done.
    + intros c b Hcb. cbn in Hcb. by rewrite lookup_empty in Hcb.
    + constructor.
Qed.

Lemma frame_size_of_slot_witness :
  exists m', frame_size_of 0x40000008 demo_vm = Ok 32 (set_mm m' demo_vm).
Proof.
  destruct (frame_size_of_slot demo_vm 0x40000008 demo_vm_mem_wf ltac:(cbv; split; congruence))
    as (m' & _ & H).
  exists m'. exact H.
Defined.

Lemma alloca_contract_witness :
  exists rc v', alloca (env := permissive_env) 48 demo_vm = Ok rc v' /\ reg v' = reg demo_vm.
Proof.
  destruct (@alloca_contract unit permissive_env demo_vm [] 48 demo_vm_mem_wf
    ltac:(cbv; split; congruence) ltac:(apply (vw_share _ _ _ _ _ demo_vm_wf)) ltac:(lia))
    as (rc & v' & H1 & _ & H2 & _).
  exists rc, v'. split; [exact H1|exact H2].
Defined.

Definition demo_pushed : vm unit :=
  final (push_frame (env := permissive_env) 0x40000100 0x40000008 false false demo_vm).

Lemma demo_push_ok :
  push_frame (env := permissive_env) 0x40000100 0x40000008 false false demo_vm = Ok true demo_pushed.
Proof. unfold demo_pushed. apply returned_true_eq. vm_compute. reflexivity. Qed.

Lemma demo_pushed_readable :
  is_Some (translate (maps (mm demo_pushed)) (reg demo_pushed !!! 10%nat) 104).
Proof. apply (bool_decide_eq_true_1 _). vm_compute. reflexivity. Qed.

Lemma push_pop_roundtrip_witness :
  let env := permissive_env in
  let v2 := set_reg [70; 71; 72; 73; 74; 75; 0; 0; 0; 0; reg demo_pushed !!! 10%nat] demo_pushed in
  exists v3, pop_frame v2 = Ok 0x40000100 v3 /\
    reg v3 = [70; 71; 72; 73; 74; 75; 7; 8; 9; 10; STACK_BASE + STACK_SIZE - 0x8000].
Proof.
  pose proof (keeps_push_frame (env := permissive_env) [] [] [] None 0x40000100 0x40000008 false false
    ltac:(cbv; split; congruence) ltac:(cbv; split; congruence) demo_vm (conj demo_vm_wf (Forall_nil_2 _))) as Hk.
  rewrite demo_push_ok in Hk. destruct Hk as [[Hw1 _] _].
  generalize demo_pushed_readable, Hw1, demo_push_ok. clear Hw1.
  generalize demo_pushed. intros v1 Hread Hw1 Hpush. cbn zeta.
  set (v2 := set_reg _ v1).
  destruct (@push_pop_roundtrip unit permissive_env EmptySyscall demo_vm v1 v2 0x40000100 0x40000008 false
    demo_vm_mem_wf eq_refl (vw_reg _ _ _ _ _ demo_vm_wf) ltac:(cbv; split; congruence)
    ltac:(cbv; split; congruence) Hpush (vw_mem _ _ _ _ _ Hw1) eq_refl eq_refl Hread
    (fun a _ => eq_refl)) as (v3 & H1 & H2 & _).
  exists v3. split; [exact H1|]. rewrite H2. reflexivity.
Defined.
