(* ===== verification/SoftFp.v ===== *)
(** * SoftFp: virtual floating-point and wide-integer instructions

    [vm::do_softfp] (insn.cpp) with the operation numbers of bpf_fp.h.  The
    host's IEEE-754 arithmetic is Rocq's executable specification [SpecFloat];
    registers hold bit patterns, decoded and encoded by [sf_of_bits] and
    [bits_of_sf].  What the C++ standard leaves to the host (the payload of a
    NaN result, conversions out of the integer range) is the class [HostFp].

    Main results: decoding and encoding bit patterns are inverse, comparison
    and the unordered test distinguish the four IEEE relations, the wide
    multiplication and the 128-bit divisions are exact. *)

From S2P Require Import Prelude HostMem AddrSpace Isa Vm.
From Stdlib Require Import Lia SpecFloat.
From stdpp Require Import base numbers list gmap strings option.

Open Scope Z_scope.
Open Scope vm_scope.

(** ** Operation numbers *)

Definition BPF_FP_ADD_F : Z := 1.
Definition BPF_FP_SUB_F : Z := 2.
Definition BPF_FP_MUL_F : Z := 3.
Definition BPF_FP_DIV_F : Z := 4.
Definition BPF_FP_ADD_D : Z := 5.
Definition BPF_FP_SUB_D : Z := 6.
Definition BPF_FP_MUL_D : Z := 7.
Definition BPF_FP_DIV_D : Z := 8.
Definition BPF_FP_NEG_F : Z := 9.
Definition BPF_FP_NEG_D : Z := 10.
Definition BPF_FP_SQRT_F : Z := 11.
Definition BPF_FP_SQRT_D : Z := 12.
Definition BPF_FP_F2SI : Z := 13.
Definition BPF_FP_F2DI : Z := 14.
Definition BPF_FP_F2USI : Z := 15.
Definition BPF_FP_F2UDI : Z := 16.
Definition BPF_FP_D2SI : Z := 17.
Definition BPF_FP_D2DI : Z := 18.
Definition BPF_FP_D2USI : Z := 19.
Definition BPF_FP_D2UDI : Z := 20.
Definition BPF_FP_SI2F : Z := 21.
Definition BPF_FP_DI2F : Z := 22.
Definition BPF_FP_USI2F : Z := 23.
Definition BPF_FP_UDI2F : Z := 24.
Definition BPF_FP_SI2D : Z := 25.
Definition BPF_FP_DI2D : Z := 26.
Definition BPF_FP_USI2D : Z := 27.
Definition BPF_FP_UDI2D : Z := 28.
Definition BPF_FP_EXTEND : Z := 29.
Definition BPF_FP_TRUNC : Z := 30.
Definition BPF_FP_CMP_F : Z := 31.
Definition BPF_FP_CMP_D : Z := 32.
Definition BPF_FP_UNORD_F : Z := 33.
Definition BPF_FP_UNORD_D : Z := 34.
Definition BPF_FP_FABS_F : Z := 35.
Definition BPF_FP_FABS_D : Z := 36.
Definition BPF_FP_COPYSIGN_F : Z := 37.
Definition BPF_FP_COPYSIGN_D : Z := 38.
Definition BPF_FP_UMULH : Z := 39.
Definition BPF_FP_UDIV128 : Z := 40.
Definition BPF_FP_SDIV128 : Z := 41.
Definition BPF_FP_UREM128 : Z := 42.
Definition BPF_FP_SREM128 : Z := 43.

(** ** Bit patterns *)

(** A binary interchange format: [fmw] fraction bits, [few] exponent bits. *)
Record format := mkformat { fmw : Z; few : Z }.
Definition binary32 : format := mkformat 23 8.
Definition binary64 : format := mkformat 52 11.

Definition fprec (f : format) : Z := fmw f + 1.
Definition femax (f : format) : Z := 2 ^ (few f - 1).
Definition fbias (f : format) : Z := femax f - 1.
Definition fwidth (f : format) : Z := 1 + few f + fmw f.

(** The [memcpy] into a [double] or [float] ([d_in], [f_in]). *)
Definition sf_of_bits (f : format) (b : Z) : spec_float :=
  let frac := b mod 2 ^ fmw f in
  let ex := (b / 2 ^ fmw f) mod 2 ^ few f in
  let s := negb ((b / 2 ^ (few f + fmw f)) mod 2 =? 0) in
  if ex =? 0 then
    match frac with
    | Zpos m => S754_finite s m (1 - fbias f - fmw f)
    | _ => S754_zero s
    end
  else if ex =? 2 ^ few f - 1 then
    if frac =? 0 then S754_infinity s else S754_nan
  else
    match frac + 2 ^ fmw f with
    | Zpos m => S754_finite s m (ex - fbias f - fmw f)
    | _ => S754_nan
    end.

Definition sign_bit (f : format) (s : bool) : Z := if s then 2 ^ (few f + fmw f) else 0.

(** The [memcpy] out of a [double] or [float] ([d_out], [f_out]); [nan] is the
    pattern the host produced. *)
Definition bits_of_sf (f : format) (nan : Z) (x : spec_float) : Z :=
  match x with
  | S754_zero s => sign_bit f s
  | S754_infinity s => sign_bit f s + (2 ^ few f - 1) * 2 ^ fmw f
  | S754_nan => nan
  | S754_finite s m e =>
    if Zpos m <? 2 ^ fmw f then sign_bit f s + Zpos m
    else sign_bit f s + (e + fbias f + fmw f) * 2 ^ fmw f + (Zpos m - 2 ^ fmw f)
  end.

(** Host choices: the bits of a NaN result of operation [op] on operands [a],
    [b], and the value of a conversion to an integer type that cannot hold it. *)
Class HostFp := {
  fp_nan : Z -> Z -> Z -> Z;
  fp_unrepresentable : Z -> Z -> Z;
  fp_nan_range : forall op a b, 0 <= fp_nan op a b < 2 ^ 64;
  fp_unrepresentable_range : forall op a, 0 <= fp_unrepresentable op a < 2 ^ 64
}.

(** The x86 choices: the default quiet NaN, and the sign bit alone. *)
Definition x86_fp : HostFp.
Proof.
  refine {| fp_nan op _ _ := if 5 <=? op then 0xfff8000000000000 else 0xffc00000;
            fp_unrepresentable _ _ := 2 ^ 63 |}.
  - intros. destruct (_ <=? _); split; vm_compute; congruence.
  - intros. split; vm_compute; congruence.
Defined.

(** ** Operations *)

Section WithFp.
Context {fp : HostFp}.

(** Binary arithmetic in format [f]. *)
Definition fp_bin (f : format) (g : Z -> Z -> spec_float -> spec_float -> spec_float)
    (op a b : Z) : Z :=
  bits_of_sf f (fp_nan op a b) (g (fprec f) (femax f) (sf_of_bits f a) (sf_of_bits f b)).

Definition fp_sqrt (f : format) (op a : Z) : Z :=
  bits_of_sf f (fp_nan op a 0) (SFsqrt (fprec f) (femax f) (sf_of_bits f a)).

(** Negation, absolute value and sign copy act on the sign bit, also of a NaN. *)
Definition fp_neg (f : format) (a : Z) : Z := Z.lxor (uwrap (fwidth f) a) (2 ^ (few f + fmw f)).
Definition fp_abs (f : format) (a : Z) : Z := a mod 2 ^ (few f + fmw f).
Definition fp_copysign (f : format) (a b : Z) : Z :=
  fp_abs f a + sign_bit f (negb ((b / 2 ^ (few f + fmw f)) mod 2 =? 0)).

(** Truncation towards zero. *)
Definition sf_trunc (x : spec_float) : option Z :=
  match x with
  | S754_zero _ => Some 0
  | S754_finite s m e =>
    let a := if 0 <=? e then Zpos m * 2 ^ e else Zpos m / 2 ^ (- e) in
    Some (if s then - a else a)
  | _ => None
  end.

(** Conversion to an integer type with range [[lo, hi]]. *)
Definition fp_to_int (f : format) (op lo hi a : Z) : Z :=
  match sf_trunc (sf_of_bits f a) with
  | Some z => if (lo <=? z) && (z <=? hi) then u64 z else fp_unrepresentable op a
  | None => fp_unrepresentable op a
  end.

(** Conversion from an integer, rounded to nearest even. *)
Definition fp_of_int (f : format) (z : Z) : Z :=
  bits_of_sf f 0 (binary_normalize (fprec f) (femax f) z 0 false).

(** Conversion between formats. *)
Definition fp_cvt (f g : format) (op a : Z) : Z :=
  bits_of_sf g (fp_nan op a 0)
    (match sf_of_bits f a with
     | S754_finite s m e => binary_round (fprec g) (femax g) s m e
     | x => x
     end).

(** [(a < b) ? -1 : (a > b) ? 1 : 0]. *)
Definition fp_cmp (f : format) (a b : Z) : Z :=
  let x := sf_of_bits f a in let y := sf_of_bits f b in
  if SFltb x y then u64 (-1) else if SFltb y x then 1 else 0.

(** [a != a || b != b]. *)
Definition fp_unord (f : format) (a b : Z) : Z :=
  let x := sf_of_bits f a in let y := sf_of_bits f b in
  if negb (SFeqb x x) || negb (SFeqb y y) then 1 else 0.

(** The 128-bit division cases: low and high half of the result. *)
Definition div128 (op aLo aHi bLo bHi : Z) : Z * Z :=
  if (bLo =? 0) && (bHi =? 0) then (0, 0)
  else
    let res :=
      if (op =? BPF_FP_UDIV128) || (op =? BPF_FP_UREM128) then
        let a := aHi * 2 ^ 64 + aLo in
        let b := bHi * 2 ^ 64 + bLo in
        if op =? BPF_FP_UDIV128 then a / b else a mod b
      else
        let a := sval 128 (aHi * 2 ^ 64 + aLo) in
        let b := sval 128 (bHi * 2 ^ 64 + bLo) in
        if op =? BPF_FP_SDIV128 then Z.quot a b else Z.rem a b in
    (u64 res, u64 (uwrap 128 res / 2 ^ 64)).

(** The value of [r0] for the operations that only compute; [None] for the
    128-bit divisions and unknown numbers. *)
Definition softfp_value (op a b : Z) : option Z :=
  let d := binary64 in let f := binary32 in
  if op =? BPF_FP_ADD_D then Some (fp_bin d SFadd op a b)
  else if op =? BPF_FP_SUB_D then Some (fp_bin d SFsub op a b)
  else if op =? BPF_FP_MUL_D then Some (fp_bin d SFmul op a b)
  else if op =? BPF_FP_DIV_D then Some (fp_bin d SFdiv op a b)
  else if op =? BPF_FP_ADD_F then Some (u32 (fp_bin f SFadd op a b))
  else if op =? BPF_FP_SUB_F then Some (u32 (fp_bin f SFsub op a b))
  else if op =? BPF_FP_MUL_F then Some (u32 (fp_bin f SFmul op a b))
  else if op =? BPF_FP_DIV_F then Some (u32 (fp_bin f SFdiv op a b))
  else if op =? BPF_FP_NEG_D then Some (fp_neg d a)
  else if op =? BPF_FP_NEG_F then Some (fp_neg f a)
  else if op =? BPF_FP_SQRT_D then Some (fp_sqrt d op a)
  else if op =? BPF_FP_SQRT_F then Some (u32 (fp_sqrt f op a))
  else if op =? BPF_FP_D2SI then Some (fp_to_int d op (- 2 ^ 31) (2 ^ 31 - 1) a)
  else if op =? BPF_FP_D2DI then Some (fp_to_int d op (- 2 ^ 63) (2 ^ 63 - 1) a)
  else if op =? BPF_FP_D2USI then Some (fp_to_int d op 0 (2 ^ 32 - 1) a)
  else if op =? BPF_FP_D2UDI then Some (fp_to_int d op 0 (2 ^ 64 - 1) a)
  else if op =? BPF_FP_F2SI then Some (fp_to_int f op (- 2 ^ 31) (2 ^ 31 - 1) a)
  else if op =? BPF_FP_F2DI then Some (fp_to_int f op (- 2 ^ 63) (2 ^ 63 - 1) a)
  else if op =? BPF_FP_F2USI then Some (fp_to_int f op 0 (2 ^ 32 - 1) a)
  else if op =? BPF_FP_F2UDI then Some (fp_to_int f op 0 (2 ^ 64 - 1) a)
  else if op =? BPF_FP_SI2D then Some (fp_of_int d (s32 a))
  else if op =? BPF_FP_DI2D then Some (fp_of_int d (s64 a))
  else if op =? BPF_FP_USI2D then Some (fp_of_int d (u32 a))
  else if op =? BPF_FP_UDI2D then Some (fp_of_int d a)
  else if op =? BPF_FP_SI2F then Some (fp_of_int f (s32 a))
  else if op =? BPF_FP_DI2F then Some (fp_of_int f (s64 a))
  else if op =? BPF_FP_USI2F then Some (fp_of_int f (u32 a))
  else if op =? BPF_FP_UDI2F then Some (fp_of_int f a)
  else if op =? BPF_FP_EXTEND then Some (fp_cvt f d op a)
  else if op =? BPF_FP_TRUNC then Some (u32 (fp_cvt d f op a))
  else if op =? BPF_FP_CMP_D then Some (fp_cmp d a b)
  else if op =? BPF_FP_CMP_F then Some (fp_cmp f a b)
  else if op =? BPF_FP_UNORD_D then Some (fp_unord d a b)
  else if op =? BPF_FP_UNORD_F then Some (fp_unord f a b)
  else if op =? BPF_FP_FABS_D then Some (fp_abs d a)
  else if op =? BPF_FP_FABS_F then Some (fp_abs f a)
  else if op =? BPF_FP_COPYSIGN_D then Some (fp_copysign d a b)
  else if op =? BPF_FP_COPYSIGN_F then Some (fp_copysign f a b)
  else if op =? BPF_FP_UMULH then Some (a * b / 2 ^ 64)
  else None.

Definition is_div128 (op : Z) : bool :=
  (op =? BPF_FP_UDIV128) || (op =? BPF_FP_UREM128) || (op =? BPF_FP_SDIV128) || (op =? BPF_FP_SREM128).

Section Exec.
Context {S : Type} {env : HostEnv}.

(** [vm::do_softfp]. *)
Definition do_softfp (op : Z) : M S bool :=
  a <- r 1 ;; b <- r 2 ;;
  match softfp_value op a b with
  | Some x => set_r 0 (u64 x) ;; ret true
  | None =>
    if is_div128 op then
      aLo <- r 2 ;; aHi <- r 3 ;; bLo <- r 4 ;; bHi <- r 5 ;;
      let '(resLo, resHi) := div128 op aLo aHi bLo bHi in
      out_addr <- r 1 ;;
      out <- mmu_wM out_addr 8 ;;
      match out with
      | Some p => storeM p 8 resHi ;; set_r 0 resLo ;; ret true
      | None => ret false
      end
    else set_r 0 (u64 (- ENOSYS)) ;; ret true
  end.

End Exec.
End WithFp.

(** ** Bit patterns: round trip *)

Definition format_ok (f : format) : Prop := 0 < fmw f /\ 1 < few f.

Lemma binary64_ok : format_ok binary64. Proof. split; cbn; lia. Qed.
Lemma binary32_ok : format_ok binary32. Proof. split; cbn; lia. Qed.

(** A pattern is its sign, exponent and fraction. *)
Lemma pattern_split f b :
  format_ok f -> 0 <= b < 2 ^ fwidth f ->
  let frac := b mod 2 ^ fmw f in
  let ex := (b / 2 ^ fmw f) mod 2 ^ few f in
  let s := negb ((b / 2 ^ (few f + fmw f)) mod 2 =? 0) in
  b = sign_bit f s + ex * 2 ^ fmw f + frac /\ 0 <= frac < 2 ^ fmw f /\ 0 <= ex < 2 ^ few f.
Proof.
  intros [Hm He] Hb frac ex s. unfold fwidth in Hb.
  assert (0 < 2 ^ fmw f) as Hpm by (apply Z.pow_pos_nonneg; lia).
  assert (0 < 2 ^ few f) as Hpe by (apply Z.pow_pos_nonneg; lia).
  assert (2 ^ (few f + fmw f) = 2 ^ few f * 2 ^ fmw f) as Hpp by (rewrite Z.pow_add_r; lia).
  assert (2 ^ (1 + few f + fmw f) = 2 * (2 ^ few f * 2 ^ fmw f)) as Hw.
  { rewrite <- Z.add_assoc, Z.pow_add_r, Hpp by lia. lia. }
  pose proof (Z.mod_pos_bound b (2 ^ fmw f) Hpm). pose proof (Z.mod_pos_bound (b / 2 ^ fmw f) (2 ^ few f) Hpe).
  split; [|split; assumption].
  pose proof (Z.div_mod b (2 ^ fmw f) ltac:(lia)) as D1.
  pose proof (Z.div_mod (b / 2 ^ fmw f) (2 ^ few f) ltac:(lia)) as D2.
  rewrite Z.div_div, (Z.mul_comm (2 ^ fmw f)), <- Hpp in D2 by lia.
  assert (0 <= b / 2 ^ (few f + fmw f) < 2) as Hs.
  { split; [apply Z.div_pos; lia|]. apply Z.div_lt_upper_bound; lia. }
  subst s. unfold sign_bit. rewrite (Z.mod_small (b / 2 ^ (few f + fmw f)) 2) by lia.
  destruct (Z.eqb_spec (b / 2 ^ (few f + fmw f)) 0) as [E|E]; cbn [negb]; fold frac ex in D1, D2 |- *;
    nia.
Qed.

Lemma sf_bits_roundtrip f nan b :
  format_ok f -> 0 <= b < 2 ^ fwidth f -> sf_of_bits f b <> S754_nan ->
  bits_of_sf f nan (sf_of_bits f b) = b.
Proof.
  intros Hf Hb Hn. pose proof (pattern_split f b Hf Hb) as (Hsplit & Hfr & Hex). unfold sf_of_bits in *.
  set (frac := b mod 2 ^ fmw f) in *. set (ex := (b / 2 ^ fmw f) mod 2 ^ few f) in *.
  set (s := negb _) in *.
  destruct (Z.eqb_spec ex 0) as [E0|E0].
  - destruct frac as [|m|m] eqn:Ef; [cbn; lia| |lia]. cbn [bits_of_sf].
    destruct (Z.ltb_spec (Zpos m) (2 ^ fmw f)); lia.
  - destruct (Z.eqb_spec ex (2 ^ few f - 1)) as [E1|E1].
    + destruct (Z.eqb_spec frac 0); [cbn; lia|done].
    + destruct (frac + 2 ^ fmw f) as [|m|m] eqn:Ef; [done| |done]. cbn [bits_of_sf].
      destruct (Z.ltb_spec (Zpos m) (2 ^ fmw f)); [lia|].
      replace (ex - fbias f - fmw f + fbias f + fmw f) with ex by lia. lia.
Qed.

(** ** Comparison *)

Lemma pos_compare_antisym m1 m2 : Pos.compare_cont Eq m2 m1 = CompOpp (Pos.compare_cont Eq m1 m2).
Proof. exact (Pos.compare_antisym m1 m2). Qed.

Lemma SFcompare_swap x y : SFcompare y x = CompOpp <$> SFcompare x y.
Proof.
  destruct x as [sx|sx| |sx mx ex], y as [sy|sy| |sy my ey]; try done;
    try (by destruct sx); try (by destruct sy); try (by destruct sx, sy).
  cbn. rewrite (Z.compare_antisym ex ey). rewrite (pos_compare_antisym mx my).
  destruct sx, sy; try done; destruct (ex ?= ey); cbn; try done.
Qed.

Lemma SFcompare_refl x : x <> S754_nan -> SFcompare x x = Some Eq.
Proof.
  intros Hx. destruct x as [s|s| |s m e]; try done; [by destruct s|]. cbn.
  rewrite Z.compare_refl. change (Pos.compare_cont Eq m m) with (m ?= m)%positive.
  rewrite Pos.compare_refl. by destruct s.
Qed.

Lemma SFeqb_nan x : SFeqb x x = negb (match x with S754_nan => true | _ => false end).
Proof.
  destruct x as [s|s| |s m e]; unfold SFeqb; try rewrite SFcompare_refl by done; done.
Qed.

Lemma SFcompare_nan x y : SFcompare x y = None <-> x = S754_nan \/ y = S754_nan.
Proof.
  split; [|by intros [-> | ->]; [|destruct x]].
  destruct x, y; cbn; intros H; try done; auto.
Qed.

Definition fp_relation (c : option comparison) (cmp unord : Z) : Prop :=
  match c with
  | Some Lt => cmp = 2 ^ 64 - 1 /\ unord = 0
  | Some Eq => cmp = 0 /\ unord = 0
  | Some Gt => cmp = 1 /\ unord = 0
  | None => cmp = 0 /\ unord = 1
  end.

Lemma fp_relation_ok f a b :
  fp_relation (SFcompare (sf_of_bits f a) (sf_of_bits f b)) (fp_cmp f a b) (fp_unord f a b).
Proof.
  unfold fp_cmp, fp_unord. set (x := sf_of_bits f a). set (y := sf_of_bits f b).
  rewrite !SFeqb_nan. unfold SFltb. rewrite (SFcompare_swap x y).
  destruct (SFcompare x y) as [c|] eqn:E.
  - assert (x <> S754_nan /\ y <> S754_nan) as [Hx Hy].
    { split; intros Hn; [assert (SFcompare x y = None) by (apply SFcompare_nan; auto)
                        |assert (SFcompare x y = None) by (apply SFcompare_nan; auto)]; congruence. }
    destruct x, y; try done; by destruct c.
  - apply SFcompare_nan in E as [-> | ->]; [done|]. by destruct x.
Qed.

(** ** Wide integers *)

Definition join128 (p : Z * Z) : Z := p.2 * 2 ^ 64 + p.1.

Lemma join128_split z : join128 (u64 z, u64 (uwrap 128 z / 2 ^ 64)) = uwrap 128 z.
Proof.
  unfold join128. cbn [fst snd]. pose proof (uwrap_range 128 z ltac:(lia)) as Hr.
  rewrite (uwrap_small 64 (uwrap 128 z / 2 ^ 64)).
  2:{ split; [apply Z.div_pos; lia|]. apply Z.div_lt_upper_bound; lia. }
  rewrite <- (uwrap_uwrap 64 128 z) by lia. set (y := uwrap 128 z). unfold uwrap.
  pose proof (Z.div_mod y (2 ^ 64) ltac:(lia)). lia.
Qed.

Lemma join128_range lo hi : in_u64 lo -> in_u64 hi -> 0 <= join128 (lo, hi) < 2 ^ 128.
Proof. unfold in_u64, join128. cbn. lia. Qed.

Lemma div128_zero op aLo aHi : div128 op aLo aHi 0 0 = (0, 0).
Proof. done. Qed.

Lemma div128_spec (sg : bool) aLo aHi bLo bHi :
  in_u64 aLo -> in_u64 aHi -> in_u64 bLo -> in_u64 bHi -> join128 (bLo, bHi) <> 0 ->
  let q := if sg then BPF_FP_SDIV128 else BPF_FP_UDIV128 in
  let m := if sg then BPF_FP_SREM128 else BPF_FP_UREM128 in
  divmod_spec 128 sg (join128 (aLo, aHi)) (join128 (bLo, bHi))
    (join128 (div128 q aLo aHi bLo bHi)) (join128 (div128 m aLo aHi bLo bHi)).
Proof.
  intros Ha1 Ha2 Hb1 Hb2 Hnz q m.
  pose proof (join128_range aLo aHi Ha1 Ha2) as Ha. pose proof (join128_range bLo bHi Hb1 Hb2) as Hb.
  assert ((bLo =? 0) && (bHi =? 0) = false) as Hz.
  { apply not_true_iff_false. intros E. apply andb_true_iff in E as [E1 E2].
    apply Z.eqb_eq in E1, E2. subst. by cbn in Hnz. }
  unfold div128. rewrite !Hz, !join128_split. change (aHi * 2 ^ 64 + aLo) with (join128 (aLo, aHi)).
  change (bHi * 2 ^ 64 + bLo) with (join128 (bLo, bHi)).
  set (a := join128 (aLo, aHi)) in *. set (b := join128 (bLo, bHi)) in *.
  destruct sg; subst q m; cbn [orb].
  - change (BPF_FP_SDIV128 =? BPF_FP_UDIV128) with false. change (BPF_FP_SREM128 =? BPF_FP_UREM128) with false.
    pose proof (sdivmod_ok 128 a b ltac:(lia) Ha Hb) as H. destruct (Z.eqb_spec b 0); [done|]. exact H.
  - pose proof (udivmod_ok 128 a b ltac:(lia) Ha Hb) as H. destruct (Z.eqb_spec b 0); [done|].
    cbn [negb] in H. cbn [Z.eqb orb]. 
    change (BPF_FP_UDIV128 =? BPF_FP_UDIV128) with true. change (BPF_FP_UREM128 =? BPF_FP_UDIV128) with false.
    change (BPF_FP_UREM128 =? BPF_FP_UREM128) with true. cbn [orb].
    pose proof H as (_ & H1 & H2 & _).
    by rewrite (uwrap_small 128 (a / b)), (uwrap_small 128 (a mod b)) by done.
Qed.

(** ** The invariant *)

Section Keeps.
Context {S : Type} {env : HostEnv} {fp : HostFp}.
Variables (pre ms rest : list memmap) (view : option (Z -> option Z)).

Lemma keeps_do_softfp op : Vm.keeps (S := S) pre ms rest view [] (do_softfp op) (fun _ => True).
Proof.
  unfold do_softfp.
  do 2 (eapply keeps_bind; [apply keeps_r|]; intros ? ?). destruct (softfp_value _ _ _); [keep; done|].
  destruct (is_div128 op); [|keep; done].
  do 4 (eapply keeps_bind; [apply keeps_r|]; intros ? ?).
  destruct (div128 _ _ _ _ _) as [lo hi] eqn:E.
  assert (in_u64 lo) as Hlo.
  { unfold div128 in E. destruct (_ && _); injection E as <- <-; [unfold in_u64; lia|apply u64_range]. }
  eapply keeps_bind; [apply keeps_r|]. intros o Ho.
  apply (keeps_mmu_w _ _ _ _ _ o 8 8); [done|lia..| |by apply keeps_ret]. intros p.
  eapply keeps_bind; [apply (keeps_store _ _ _ _ _ o 8); [apply list_elem_of_here|lia]|]. intros _ _.
  keep; done.
Qed.

End Keeps.
#[export] Hint Resolve keeps_do_softfp : keeps.

(** ** Properties *)

(** Bit patterns and IEEE values correspond: for both formats, decoding a
    register image and encoding the value again gives the image back, for every
    pattern that is not a NaN. *)
Theorem fp_bits_roundtrip f nan b (Hf : f = binary32 \/ f = binary64)
  (Hb : 0 <= b < 2 ^ fwidth f) (Hn : sf_of_bits f b <> S754_nan) :
  bits_of_sf f nan (sf_of_bits f b) = b.
Proof.
  apply sf_bits_roundtrip; [|done..]. destruct Hf as [-> | ->]; [apply binary32_ok|apply binary64_ok].
Qed.

Lemma fp_bits_roundtrip_witness :
  bits_of_sf binary64 0 (sf_of_bits binary64 0x3ff8000000000000) = 0x3ff8000000000000 /\
  sf_of_bits binary64 0x3ff8000000000000 = S754_finite false (3 * 2 ^ 51) (-52).
Proof.
  split; [|reflexivity].
  apply (fp_bits_roundtrip binary64 0 0x3ff8000000000000); [by right|split; vm_compute; congruence|vm_compute; discriminate].
Defined.

(** The comparison and unordered-test instructions together determine the
    IEEE relation of their operands: less, equal and greater give -1, 0 and 1
    with the unordered test 0; a NaN operand gives 0 with the unordered test 1. *)
Theorem fp_compare_complete {fp : HostFp} a b :
  (exists c u, softfp_value BPF_FP_CMP_D a b = Some c /\ softfp_value BPF_FP_UNORD_D a b = Some u /\
     fp_relation (SFcompare (sf_of_bits binary64 a) (sf_of_bits binary64 b)) c u) /\
  (exists c u, softfp_value BPF_FP_CMP_F a b = Some c /\ softfp_value BPF_FP_UNORD_F a b = Some u /\
     fp_relation (SFcompare (sf_of_bits binary32 a) (sf_of_bits binary32 b)) c u).
Proof. split; eexists _, _; (split; [reflexivity|]); (split; [reflexivity|]); apply fp_relation_ok. Qed.

(** Wide integer arithmetic is exact: the high half returned by UMULH and
    the low half computed by the 64-bit multiply instruction form the full
    128-bit product; the 128-bit division and remainder instructions recompose
    the dividend, signed and unsigned, and return 0 for a zero divisor. *)
Theorem wide_arith_exact {fp : HostFp} aLo aHi bLo bHi
  (H1 : in_u64 aLo) (H2 : in_u64 aHi) (H3 : in_u64 bLo) (H4 : in_u64 bHi) :
  (exists hi lo, softfp_value BPF_FP_UMULH aLo bLo = Some hi /\
     alu64_op (mkinsn 0x2f 1 2 0 0) aLo bLo = Some lo /\ hi * 2 ^ 64 + lo = aLo * bLo) /\
  (forall sg : bool,
     let q := if sg then BPF_FP_SDIV128 else BPF_FP_UDIV128 in
     let m := if sg then BPF_FP_SREM128 else BPF_FP_UREM128 in
     if join128 (bLo, bHi) =? 0 then
       div128 q aLo aHi bLo bHi = (0, 0) /\ div128 m aLo aHi bLo bHi = (0, 0)
     else divmod_spec 128 sg (join128 (aLo, aHi)) (join128 (bLo, bHi))
            (join128 (div128 q aLo aHi bLo bHi)) (join128 (div128 m aLo aHi bLo bHi))).
Proof.
  split.
  - exists (aLo * bLo / 2 ^ 64), (u64 (aLo * bLo)). split; [done|]. split; [done|].
    unfold uwrap. pose proof (Z.div_mod (aLo * bLo) (2 ^ 64) ltac:(lia)). lia.
  - intros sg q m. destruct (Z.eqb_spec (join128 (bLo, bHi)) 0) as [E|E].
    + unfold join128, in_u64 in *. cbn in E. assert (bLo = 0 /\ bHi = 0) as [-> ->] by lia.
      split; apply div128_zero.
    + by apply div128_spec.
Qed.

Lemma wide_arith_exact_witness :
  exists hi lo, softfp_value (fp := x86_fp) BPF_FP_UMULH (2 ^ 64 - 1) (2 ^ 64 - 1) = Some hi /\
    alu64_op (mkinsn 0x2f 1 2 0 0) (2 ^ 64 - 1) (2 ^ 64 - 1) = Some lo /\
    hi * 2 ^ 64 + lo = (2 ^ 64 - 1) * (2 ^ 64 - 1).
Proof.
  apply (@wide_arith_exact x86_fp (2 ^ 64 - 1) 0 (2 ^ 64 - 1) 0); split; vm_compute; congruence.
Defined.
