(* ===== verification/Interp.v ===== *)
(** * Interp: the interpreter

    The instruction handlers of insn.cpp ([ld], [ldx], [st], [do_atomic],
    [stx], [alu64], [alu], [jmp], [jmp32]), system calls ([do_syscall]), signal
    delivery ([deliver_signal]), [safepoint], [step] and [run], composed as the
    code composes them.  System calls, the debugger and the JIT are the
    interfaces of Vm.v.

    Main results: every instruction keeps the machine well formed and touches no
    byte of another address space, whatever a law-abiding system-call layer
    does; the instruction budget bounds every run; a killed machine stops with
    status 137; an interrupted system call restarts or returns -EINTR as its
    signal demands. *)

From S2P Require Import Prelude HostMem AddrSpace Isa Vm Frame SoftFp.
From Stdlib Require Import Lia.
From stdpp Require Import base numbers list gmap strings option.

Open Scope Z_scope.
Open Scope vm_scope.

Definition SA_RESTART : Z := 0x10000000.
Definition SA_SIGINFO : Z := 4.
Definition SYSCALL_RESTART : Z := -512.
Definition SYSCALL_RESTART_NOHAND : Z := -511.

Section Interp.
Context {S : Type} {env : HostEnv} {fp : HostFp}.
Context `{SyscallHandler S} `{DebugHooks S} {jit : Jit S}.

(** The instruction a host pointer designates. *)
Definition insn_at (p : hptr) : M S bpf_insn := w <- loadM p 8 ;; ret (decode_insn w).

(** ** Signals and system calls *)

(** [restart_syscall_pc_ = 0; restart_nohand_ = false]. *)
Definition clear_restart : M S unit :=
  modify (fun v => set_restart_nohand false (set_restart_pc 0 v)).

(** [vm::deliver_signal]. *)
Definition deliver_signal : M S bool :=
  o <- handle_signals ;;
  match o with
  | None => ret false
  | Some info =>
    restart <- gets restart_syscall_pc_ ;;
    if si_sig info =? 0 then
      (if negb (restart =? 0) then put_pc restart ;; clear_restart else ret tt) ;;
      ret true
    else
      h <- mmuM (si_handler info) 8 ;;
      match h with
      | None => ret false
      | Some _ =>
        pc0 <- pc ;;
        nohand <- gets restart_nohand_ ;;
        ret_addr <- (if negb (restart =? 0) then
                       if has (si_flags info) SA_RESTART && negb nohand
                       then clear_restart ;; ret restart
                       else set_r 0 (u64 (- EINTR)) ;; clear_restart ;; ret (u64 (restart + INSN_SIZE))
                     else ret pc0) ;;
        let want_siginfo := has (si_flags info) SA_SIGINFO in
        interrupted_sp <- r 10 ;;
        ok <- push_frame ret_addr (si_handler info) true want_siginfo ;;
        if negb ok then ret false
        else
          (if want_siginfo then
             base <- r 10 ;;
             build_siginfo base info ret_addr interrupted_sp ;;
             b2 <- r 10 ;; set_r 2 (u64 (b2 + SIGINFO_FRAME_SI_OFF)) ;;
             b3 <- r 10 ;; set_r 3 (u64 (b3 + SIGINFO_FRAME_UC_OFF))
           else ret tt) ;;
          set_r 1 (u64 (si_sig info)) ;;
          put_pc (si_handler info) ;;
          ret true
      end
  end.

(** The wait of [vm::safepoint] while the process is stopped; [false] when the
    machine must leave [run]. *)
Fixpoint stop_wait (n : nat) : M S bool :=
  f <- get_flags ;;
  if has f (Z.lor VM_EXITED (Z.lor VM_KILLED VM_BUDGET_EXCEEDED)) then
    (if has f VM_KILLED then set_r 0 (128 + SIGKILL) else ret tt) ;; ret false
  else if negb (has f VM_STOPPED) then ret true
  else match n with
       | O => waitM
       | Datatypes.S k => cond_wait ;; stop_wait k
       end.

(** [vm::safepoint]. *)
Definition safepoint : M S bool :=
  clear_flags VM_JIT_ABORT ;;
  depth <- gets signal_depth ;;
  ok <- (if depth =? 0 then deliver_signal else ret true) ;;
  if negb ok then ret false
  else
    n <- gets (fun v => length (wait_obs v)) ;;
    go <- stop_wait n ;;
    if negb go then ret false else deliver_signal.

(** The debugger's stop points of [do_syscall] and [step]. *)
Definition debug_stop (hook : M S unit) : M S unit :=
  f <- get_flags ;;
  if has f VM_DEBUG_ATTACHED then
    hook ;; f' <- get_flags ;; (if has f' VM_DEBUG_STOP then debug_park else ret tt)
  else ret tt.

(** [vm::do_syscall]. *)
Definition do_syscall (call : Z) : M S bool :=
  debug_stop (hook_syscall_entry call) ;;
  rv <- syscall call ;;
  if (rv =? SYSCALL_RESTART) || (rv =? SYSCALL_RESTART_NOHAND) then
    pc0 <- pc ;;
    modify (fun v => set_restart_nohand (rv =? SYSCALL_RESTART_NOHAND) (set_restart_pc pc0 v)) ;;
    ret true
  else
    set_r 0 (u64 rv) ;;
    f <- get_flags ;;
    if has f (Z.lor VM_EXITED VM_KILLED) then ret false
    else debug_stop (hook_syscall_return call) ;; ret true.

(** ** Jumps *)

(** [vm::jmp]; [p] is the host address of the instruction, from which the call
    forms re-read their operands after the frame is pushed. *)
Definition jmp (p : hptr) (cur : bpf_insn) : M S bool :=
  let op := insn_op cur in
  src <- (if insn_is_x cur then r (src_reg cur) else ret (u64 (imm cur))) ;;
  dst <- r (dst_reg cur) ;;
  if op =? BPF_JA then add_pc (off cur * INSN_SIZE) ;; ret true
  else if op =? BPF_CALL then
    pc0 <- pc ;;
    if insn_is_x cur then
      ok <- push_frame (u64 (pc0 + INSN_SIZE)) dst false false ;;
      if negb ok then ret false
      else
        cur' <- insn_at p ;;
        t <- r (dst_reg cur') ;;
        put_pc (u64 (t - INSN_SIZE)) ;; ret true
    else if src_reg cur =? 0 then do_syscall (u32 (imm cur))
    else if src_reg cur =? 1 then
      ok <- push_frame (u64 (pc0 + INSN_SIZE)) (u64 (pc0 + INSN_SIZE + imm cur * INSN_SIZE)) false false ;;
      if negb ok then ret false
      else cur' <- insn_at p ;; add_pc (imm cur' * INSN_SIZE) ;; ret true
    else if src_reg cur =? 2 then do_softfp (u32 (imm cur))
    else ret true
  else if op =? BPF_EXIT then
    ra <- pop_frame ;;
    if ra =? 0 then ret false else put_pc (u64 (ra - INSN_SIZE)) ;; ret true
  else
    match jmp_cond op dst src with
    | Some true => add_pc (off cur * INSN_SIZE) ;; ret true
    | _ => ret true
    end.

(** [vm::jmp32]. *)
Definition jmp32 (cur : bpf_insn) : M S bool :=
  let op := insn_op cur in
  src <- (if insn_is_x cur then x <- r (src_reg cur) ;; ret (u32 x) else ret (u32 (imm cur))) ;;
  dst <- r (dst_reg cur) ;;
  if op =? BPF_JA then add_pc (imm cur * INSN_SIZE) ;; ret true
  else if (op =? BPF_CALL) || (op =? BPF_EXIT) then ret false
  else
    match jmp32_cond op (u32 dst) src with
    | Some true => add_pc (off cur * INSN_SIZE) ;; ret true
    | _ => ret true
    end.

(** ** Loads and stores *)

(** [vm::ld]: the two-slot [lddw]; the second slot is read at [cur + 1]. *)
Definition ld (p : hptr) (cur : bpf_insn) : M S bool :=
  if 10 <=? dst_reg cur then ret false
  else
    pc0 <- pc ;;
    second <- mmuM (u64 (pc0 + INSN_SIZE)) INSN_SIZE ;;
    match second with
    | None => log_mem_violation (u64 (pc0 + INSN_SIZE)) ;; ret false
    | Some _ =>
      next <- insn_at (padd p INSN_SIZE) ;;
      set_r (dst_reg cur) (Z.lor (u64 (Z.shiftl (imm next) 32)) (u32 (imm cur))) ;;
      add_pc INSN_SIZE ;; ret true
    end.

(** [vm::ldx]. *)
Definition ldx (cur : bpf_insn) : M S bool :=
  if 10 <=? dst_reg cur then ret false
  else
    base <- r (src_reg cur) ;;
    let target_addr := u64 (base + off cur) in
    let n := access_size (code cur) in
    addr <- mmuM target_addr n ;;
    match addr with
    | None => log_mem_violation target_addr ;; ret false
    | Some p =>
      x <- loadM p (Z.to_nat n) ;;
      if insn_mode cur =? BPF_MEM then set_r (dst_reg cur) x ;; ret true
      else if insn_mode cur =? BPF_MEMSX then
        if insn_width cur =? BPF_DW then ret false
        else set_r (dst_reg cur) (u64 (sval (8 * n) x)) ;; ret true
      else ret false
    end.

(** The common part of [vm::st] and the plain case of [vm::stx]. *)
Definition store_reg (cur : bpf_insn) (x : Z) : M S bool :=
  base <- r (dst_reg cur) ;;
  let target_addr := u64 (base + off cur) in
  let n := access_size (code cur) in
  addr <- mmu_wM target_addr n ;;
  match addr with
  | None => log_mem_violation target_addr ;; ret false
  | Some p => storeM p (Z.to_nat n) x ;; ret true
  end.

(** [vm::st]. *)
Definition st (cur : bpf_insn) : M S bool := store_reg cur (u64 (imm cur)).

(** The new memory value of an atomic read-modify-write of width [w] bits;
    [None] for an unknown operation.  [op] has [BPF_FETCH] removed. *)
Definition atomic_rmw (w op old src : Z) : option Z :=
  if op =? BPF_ADD then Some (uwrap w (old + src))
  else if op =? BPF_OR then Some (Z.lor old src)
  else if op =? BPF_AND then Some (Z.land old src)
  else if op =? BPF_XOR then Some (Z.lxor old src)
  else None.

(** [do_atomic<T>] with [T] of [n] bytes: [src] is the register [r(src_reg)]. *)
Definition do_atomic (p : hptr) (n : nat) (op src_reg : Z) : M S bool :=
  let w := 8 * Z.of_nat n in
  sr <- r src_reg ;;
  let src := uwrap w sr in
  old <- loadM p n ;;
  if op =? BPF_XCHG then storeM p n src ;; set_r src_reg old ;; ret true
  else if op =? BPF_CMPXCHG then
    r0 <- r 0 ;;
    (if old =? uwrap w r0 then storeM p n src else ret tt) ;;
    set_r 0 old ;; ret true
  else match atomic_rmw w op old src with
       | Some x => storeM p n x ;; ret true
       | None =>
         match atomic_rmw w (op - BPF_FETCH) old src with
         | Some x => storeM p n x ;; set_r src_reg old ;; ret true
         | None => ret false
         end
       end.

(** [vm::stx]. *)
Definition stx (cur : bpf_insn) : M S bool :=
  if insn_mode cur =? BPF_ATOMIC then
    let size := if insn_width cur =? BPF_DW then 8 else if insn_width cur =? BPF_W then 4 else 0 in
    if size =? 0 then ret false
    else
      base <- r (dst_reg cur) ;;
      let target_addr := u64 (base + off cur) in
      addr <- mmu_wM target_addr size ;;
      match addr with
      | None => log_mem_violation target_addr ;; ret false
      | Some p => do_atomic p (Z.to_nat size) (imm cur) (src_reg cur)
      end
  else x <- r (src_reg cur) ;; store_reg cur x.

(** ** Arithmetic *)

(** [vm::alu64]. *)
Definition alu64 (cur : bpf_insn) : M S bool :=
  if 10 <=? dst_reg cur then ret false
  else
    src <- (if insn_is_x cur then r (src_reg cur) else ret (u64 (imm cur))) ;;
    dst <- r (dst_reg cur) ;;
    match alu64_op cur dst src with
    | Some x => set_r (dst_reg cur) x ;; ret true
    | None => ret false
    end.

(** [vm::alu]. *)
Definition alu (cur : bpf_insn) : M S bool :=
  if 10 <=? dst_reg cur then ret false
  else
    src <- (if insn_is_x cur then x <- r (src_reg cur) ;; ret (u32 x) else ret (u32 (imm cur))) ;;
    dst <- r (dst_reg cur) ;;
    match alu32_op cur dst src with
    | Some x => set_r (dst_reg cur) x ;; ret true
    | None => ret false
    end.

(** ** The machine loop *)

(** The class dispatch of [vm::step]. *)
Definition exec (p : hptr) (cur : bpf_insn) : M S bool :=
  let c := insn_class cur in
  if c =? BPF_LD then ld p cur
  else if c =? BPF_LDX then ldx cur
  else if c =? BPF_ST then st cur
  else if c =? BPF_STX then stx cur
  else if c =? BPF_ALU then alu cur
  else if c =? BPF_ALU64 then alu64 cur
  else if c =? BPF_JMP then jmp p cur
  else if c =? BPF_JMP32 then jmp32 cur
  else ret false.

(** The JIT loop of [vm::step]: [false] when [step] returns [false].  [n] bounds
    the number of compiled functions run; the loop has not returned when it is
    used up. *)
Fixpoint jit_loop (n : nat) : M S bool :=
  match n with
  | O => waitM
  | Datatypes.S k =>
    pc_before <- pc ;;
    ran <- jit_run ;;
    if negb ran then ret true
    else
      f <- get_flags ;;
      ok <- (if nz f then safepoint else ret true) ;;
      if negb ok then ret false
      else
        pc' <- pc ;;
        if negb (pc' =? pc_before) then jit_loop k else ret true
  end.

(** The interpreted instruction of [vm::step], after the JIT loop. *)
Definition interp_step : M S bool :=
  modify (fun v => set_insn_count (u64 (insn_count v + 1))
                     (set_interp_insns (u64 (interp_insns v + 1)) v)) ;;
  cnt <- gets insn_count ;;
  limit <- gets (fun v => insn_limit (options v)) ;;
  if negb (limit =? 0) && (limit <=? cnt) then set_flags VM_BUDGET_EXCEEDED ;; ret false
  else
    f <- get_flags ;;
    ok <- (if nz f then safepoint else ret true) ;;
    if negb ok then ret false
    else
      pc0 <- pc ;;
      o <- mmuM pc0 INSN_SIZE ;;
      match o with
      | None => log_mem_violation pc0 ;; ret false
      | Some p =>
        cur <- insn_at p ;;
        if (10 <? dst_reg cur) || (10 <? src_reg cur) then log_mem_violation pc0 ;; ret false
        else debug_stop hook_breakpoint ;; cur' <- insn_at p ;; exec p cur'
      end.

(** [vm::step]. *)
Definition step (n : nat) : M S bool :=
  go <- jit_loop n ;;
  if negb go then ret false else interp_step.

(** The loop [while(step()) pc_ += sizeof(bpf_insn)] of [vm::run]. *)
Fixpoint run_loop (n : nat) : M S unit :=
  match n with
  | O => waitM
  | Datatypes.S k =>
    ok <- step n ;;
    if ok then add_pc INSN_SIZE ;; run_loop k else ret tt
  end.

(** [vm::run()]. *)
Definition run (n : nat) : M S Z :=
  sys_init ;;
  run_loop n ;;
  sys_fini ;;
  f <- get_flags ;;
  (if has f VM_BUDGET_EXCEEDED then set_r 0 255 else ret tt) ;;
  set_flags VM_EXITED ;;
  modify (set_image None) ;;
  r 0.

End Interp.

(** ** The invariant *)

Lemma access_size_cases c : access_size c = 1 \/ access_size c = 2 \/ access_size c = 4 \/ access_size c = 8.
Proof. unfold access_size. repeat case_match; auto. Qed.

Lemma access_size_range c : 0 < access_size c <= 8.
Proof. pose proof (access_size_cases c). lia. Qed.

Section Keeps.
Context {S : Type} {env : HostEnv} {fp : HostFp}.
Context `{SyscallHandler S} `{DebugHooks S} {jit : Jit S}.
Variables (pre ms rest : list memmap) (view : option (Z -> option Z)).
Context {HK : HandlerKeeps (S := S) pre ms rest view}.
Context {DK : HooksKeep (S := S) pre ms rest view}.
Context {JK : JitKeeps (S := S) pre ms rest view}.
Abbreviation keeps := (Vm.keeps (S := S) pre ms rest view).
Abbreviation any := (fun _ => True).

Lemma keeps_insn_at ps p : keeps ps (insn_at p) any.
Proof. unfold insn_at. keep; done. Qed.

Lemma keeps_restart ps : keeps ps (gets restart_syscall_pc_) in_u64.
Proof. apply keeps_gets. intros v [Hw _]. apply Hw. Qed.

Lemma keeps_set_restart ps x b :
  in_u64 x -> keeps ps (modify (fun v => set_restart_nohand b (set_restart_pc x v))) any.
Proof.
  intros Hx. apply keeps_modify; [|done]. intros v [Hw _]. split; [|done]. by destruct Hw.
Qed.

Lemma keeps_get_any {A} ps (f : vm S -> A) : keeps ps (gets f) any.
Proof. by apply keeps_gets. Qed.

Hint Resolve keeps_insn_at keeps_restart keeps_set_restart : keeps.

Lemma keeps_clear_restart ps : keeps ps clear_restart any.
Proof. apply keeps_set_restart. unfold in_u64. lia. Qed.
Hint Resolve keeps_clear_restart : keeps.

(** Where a signal handler returns to. *)
Lemma keeps_ret_addr ps info restart nohand pc0 :
  in_u64 restart -> in_u64 pc0 ->
  keeps ps (if negb (restart =? 0) then
              if has (si_flags info) SA_RESTART && negb nohand
              then clear_restart ;; ret restart
              else set_r 0 (u64 (- EINTR)) ;; clear_restart ;; ret (u64 (restart + INSN_SIZE))
            else ret pc0) in_u64.
Proof. intros Hr Hp. keep; auto using u64_range. apply u64_range. Qed.

Lemma keeps_deliver_signal : keeps [] deliver_signal any.
Proof.
  unfold deliver_signal. eapply keeps_bind; [apply hk_signals|]. intros o Ho.
  destruct o as [info|]; [|by apply keeps_ret]. specialize (Ho info eq_refl).
  eapply keeps_bind; [apply keeps_restart|]. intros rs Hrs.
  destruct (si_sig info =? 0).
  { apply (keeps_bind _ _ _ _ _ _ _ any); [keep; done|]. intros _ _. by apply keeps_ret. }
  eapply keeps_bind; [apply keeps_mmu; [done|lia]|]. intros h _. destruct h as [hp|]; [|by apply keeps_ret].
  eapply keeps_bind; [apply keeps_pc|]. intros pc0 Hpc.
  eapply keeps_bind; [apply keeps_get_any|]. intros nh _.
  eapply keeps_bind; [by apply keeps_ret_addr|]. intros ra Hra.
  eapply keeps_bind; [apply keeps_r|]. intros sp Hsp.
  eapply keeps_bind; [by apply keeps_push_frame|]. intros ok _.
  destruct (negb ok); [by apply keeps_ret|].
  apply (keeps_bind _ _ _ _ _ _ _ any).
  { destruct (has _ _); [|by apply keeps_ret]. keep. }
  intros _ _. keep; done.
Qed.
Hint Resolve keeps_deliver_signal : keeps.

Lemma keeps_stop_wait n : keeps [] (stop_wait n) any.
Proof.
  induction n as [|n IH]; cbn [stop_wait]; (eapply keeps_bind; [apply keeps_get_flags|]; intros f Hf).
  - destruct (has f _); [|keep; done].
    apply (keeps_bind _ _ _ _ _ _ _ any); [keep; done|]. intros _ _. by apply keeps_ret.
  - destruct (has f _).
    { apply (keeps_bind _ _ _ _ _ _ _ any); [keep; done|]. intros _ _. by apply keeps_ret. }
    keep; done.
Qed.

Lemma keeps_safepoint : keeps [] safepoint any.
Proof.
  unfold safepoint. eapply keeps_bind; [apply keeps_clear_flags|]. intros _ _.
  eapply keeps_bind; [apply keeps_get_any|]. intros d _.
  apply (keeps_bind _ _ _ _ _ _ _ any); [keep; done|]. intros ok _.
  destruct (negb ok); [by apply keeps_ret|].
  eapply keeps_bind; [apply keeps_get_any|]. intros n _.
  eapply keeps_bind; [apply keeps_stop_wait|]. intros go _. keep; done.
Qed.
Hint Resolve keeps_safepoint : keeps.

Lemma keeps_debug_stop hook : keeps [] hook any -> keeps [] (debug_stop hook) any.
Proof.
  intros Hh. unfold debug_stop. eapply keeps_bind; [apply keeps_get_flags|]. intros f _.
  destruct (has f _); [|by apply keeps_ret]. eapply keeps_bind; [exact Hh|]. intros _ _. keep; done.
Qed.

Lemma keeps_do_syscall c : keeps [] (do_syscall c) any.
Proof.
  unfold do_syscall. eapply keeps_bind; [apply keeps_debug_stop, kk_entry|]. intros _ _.
  eapply keeps_bind; [apply hk_syscall|]. intros rv _. destruct (_ || _).
  { eapply keeps_bind; [apply keeps_pc|]. intros pc0 Hpc.
    eapply keeps_bind; [by apply keeps_set_restart|]. intros _ _. by apply keeps_ret. }
  eapply keeps_bind; [apply keeps_set_r, u64_range|]. intros _ _.
  eapply keeps_bind; [apply keeps_get_flags|]. intros f _. destruct (has f _); [by apply keeps_ret|].
  eapply keeps_bind; [apply keeps_debug_stop, kk_return|]. intros _ _. by apply keeps_ret.
Qed.
Hint Resolve keeps_do_syscall : keeps.

Lemma keeps_operand64 ps cur :
  keeps ps (if insn_is_x cur then r (src_reg cur) else ret (u64 (imm cur))) in_u64.
Proof. keep; auto using u64_range. apply u64_range. Qed.

Lemma keeps_operand32 ps cur :
  keeps ps (if insn_is_x cur then x <- r (src_reg cur) ;; ret (u32 x) else ret (u32 (imm cur)))
    (fun x => 0 <= x < 2 ^ 32).
Proof. keep; apply u32_range. Qed.

Lemma keeps_jmp p cur : keeps [] (jmp p cur) any.
Proof.
  unfold jmp. eapply keeps_bind; [apply keeps_operand64|]. intros src Hs. cbn beta in Hs.
  eapply keeps_bind; [apply keeps_r|]. intros dst Hd.
  destruct (_ =? BPF_JA); [keep; done|].
  destruct (_ =? BPF_CALL); [keep; done|].
  destruct (_ =? BPF_EXIT); [keep; done|].
  destruct (jmp_cond _ _ _) as [[|]|]; keep; done.
Qed.

Lemma keeps_jmp32 cur : keeps [] (jmp32 cur) any.
Proof.
  unfold jmp32. eapply keeps_bind; [apply keeps_operand32|]. intros src Hs. cbn beta in Hs.
  eapply keeps_bind; [apply keeps_r|]. intros dst Hd. keep; done.
Qed.

Lemma keeps_ld p cur : keeps [] (ld p cur) any.
Proof.
  unfold ld. destruct (_ <=? _); [by apply keeps_ret|].
  eapply keeps_bind; [apply keeps_pc|]. intros pc0 Hpc.
  eapply keeps_bind; [apply keeps_mmu; [apply u64_range|unfold INSN_SIZE; lia]|]. intros o _.
  destruct o as [q|]; [|keep; done].
  eapply keeps_bind; [apply keeps_insn_at|]. intros next _.
  eapply keeps_bind; [apply keeps_set_r|intros _ _; keep; done].
  apply lor_range; [lia|apply u64_range|]. pose proof (u32_range (imm cur)). lia.
Qed.

Lemma keeps_ldx cur : keeps [] (ldx cur) any.
Proof.
  unfold ldx. pose proof (access_size_cases (code cur)) as Hn.
  destruct (_ <=? _); [by apply keeps_ret|].
  eapply keeps_bind; [apply keeps_r|]. intros base Hb.
  eapply keeps_bind; [apply keeps_mmu; [apply u64_range|lia]|]. intros o _.
  destruct o as [q|]; [|keep; done].
  eapply keeps_bind; [apply keeps_loadM|]. intros x Hx. cbn beta in Hx.
  assert (in_u64 x) as Hx'.
  { assert (2 ^ (8 * Z.of_nat (Z.to_nat (access_size (code cur)))) <= 2 ^ 64)
      by (apply Z.pow_le_mono_r; lia). unfold in_u64. lia. }
  keep; done.
Qed.

Lemma keeps_store_reg cur x : keeps [] (store_reg cur x) any.
Proof.
  unfold store_reg. pose proof (access_size_range (code cur)) as Hn.
  eapply keeps_bind; [apply keeps_r|]. intros base Hb.
  set (a := u64 (base + off cur)).
  apply (keeps_mmu_w _ _ _ _ _ a _ (Z.to_nat (access_size (code cur)))); [apply u64_range|lia..| |keep; done].
  intros p. eapply keeps_bind; [eapply keeps_store; [apply list_elem_of_here|lia]|].
  intros _ _. by apply keeps_ret.
Qed.

Lemma keeps_do_atomic a n p op sr :
  (0 < n <= 8)%nat -> keeps [(a, n, p)] (do_atomic p n op sr) any.
Proof.
  intros Hn. unfold do_atomic. eapply keeps_bind; [apply keeps_r|]. intros x Hx.
  eapply keeps_bind; [apply keeps_loadM|]. intros old Ho. cbn beta in Ho.
  assert (in_u64 old) as Ho'.
  { assert (2 ^ (8 * Z.of_nat n) <= 2 ^ 64) by (apply Z.pow_le_mono_r; lia). unfold in_u64. lia. }
  assert (forall y, keeps [(a, n, p)] (storeM p n y) any) as Hst.
  { intros y. eapply keeps_store; [apply list_elem_of_here|lia]. }
  destruct (op =? BPF_XCHG).
  { eapply keeps_bind; [apply Hst|]. intros _ _. keep; done. }
  destruct (op =? BPF_CMPXCHG).
  { eapply keeps_bind; [apply keeps_r|]. intros r0 Hr0.
    apply (keeps_bind _ _ _ _ _ _ _ any); [destruct (_ =? _); [apply Hst|by apply keeps_ret]|].
    intros _ _. keep; done. }
  destruct (atomic_rmw _ _ _ _).
  { eapply keeps_bind; [apply Hst|]. intros _ _. by apply keeps_ret. }
  destruct (atomic_rmw _ _ _ _); [|by apply keeps_ret].
  eapply keeps_bind; [apply Hst|]. intros _ _. keep; done.
Qed.

Lemma keeps_stx cur : keeps [] (stx cur) any.
Proof.
  unfold stx. destruct (_ =? BPF_ATOMIC).
  2:{ eapply keeps_bind; [apply keeps_r|]. intros x _. apply keeps_store_reg. }
  set (size := if _ =? BPF_DW then 8 else _).
  assert (size = 0 \/ size = 4 \/ size = 8) as Hs by (subst size; repeat case_match; auto).
  destruct (Z.eqb_spec size 0); [by apply keeps_ret|].
  eapply keeps_bind; [apply keeps_r|]. intros base Hb.
  set (a := u64 (base + off cur)).
  apply (keeps_mmu_w _ _ _ _ _ a _ (Z.to_nat size)); [apply u64_range|lia..| |keep; done].
  intros p. apply keeps_do_atomic. lia.
Qed.

Lemma keeps_alu64 cur : keeps [] (alu64 cur) any.
Proof.
  unfold alu64. destruct (_ <=? _); [by apply keeps_ret|].
  eapply keeps_bind; [apply keeps_operand64|]. intros src Hs. cbn beta in Hs.
  eapply keeps_bind; [apply keeps_r|]. intros dst Hd.
  destruct (alu64_op _ _ _) as [x|] eqn:E; [|by apply keeps_ret].
  pose proof (alu64_range _ _ _ _ Hd Hs E) as Hx.
  eapply keeps_bind; [by apply keeps_set_r|]. intros _ _. by apply keeps_ret.
Qed.

Lemma keeps_alu cur : keeps [] (alu cur) any.
Proof.
  unfold alu. destruct (_ <=? _); [by apply keeps_ret|].
  eapply keeps_bind; [apply keeps_operand32|]. intros src Hs. cbn beta in Hs.
  eapply keeps_bind; [apply keeps_r|]. intros dst Hd.
  destruct (alu32_op _ _ _) as [x|] eqn:E; [|by apply keeps_ret].
  destruct (alu32_range _ _ _ _ Hd Hs E) as [Hx _].
  eapply keeps_bind; [by apply keeps_set_r|]. intros _ _. by apply keeps_ret.
Qed.

Lemma keeps_exec p cur : keeps [] (exec p cur) any.
Proof.
  unfold exec, st. repeat case_match;
    auto using keeps_ld, keeps_ldx, keeps_store_reg, keeps_stx, keeps_alu, keeps_alu64, keeps_jmp, keeps_jmp32.
  by apply keeps_ret.
Qed.

Lemma keeps_jit_loop n : keeps [] (jit_loop n) any.
Proof.
  induction n as [|n IH]; cbn [jit_loop]; [apply keeps_block|].
  eapply keeps_bind; [apply keeps_pc|]. intros pc0 _.
  eapply keeps_bind; [apply jk_run|]. intros ran _. destruct (negb ran); [by apply keeps_ret|].
  eapply keeps_bind; [apply keeps_get_flags|]. intros f _.
  apply (keeps_bind _ _ _ _ _ _ _ any); [keep; done|]. intros ok _. keep; done.
Qed.

Lemma keeps_interp_step : keeps [] interp_step any.
Proof.
  unfold interp_step. apply (keeps_bind _ _ _ _ _ _ _ any).
  { apply keeps_modify; [|done]. intros v [Hw _]. split; [|done]. by destruct Hw. }
  intros _ _. eapply keeps_bind; [apply keeps_get_any|]. intros cnt _.
  eapply keeps_bind; [apply keeps_get_any|]. intros lim _.
  destruct (_ && _); [keep; done|].
  eapply keeps_bind; [apply keeps_get_flags|]. intros f _.
  apply (keeps_bind _ _ _ _ _ _ _ any); [keep; done|]. intros ok _.
  destruct (negb ok); [by apply keeps_ret|].
  eapply keeps_bind; [apply keeps_pc|]. intros pc0 Hpc.
  eapply keeps_bind; [apply keeps_mmu; [done|unfold INSN_SIZE; lia]|]. intros o _.
  destruct o as [p|]; [|keep; done].
  eapply keeps_bind; [apply keeps_insn_at|]. intros cur _. destruct (_ || _); [keep; done|].
  eapply keeps_bind; [apply keeps_debug_stop, kk_break|]. intros _ _.
  eapply keeps_bind; [apply keeps_insn_at|]. intros cur' _. apply keeps_exec.
Qed.

Lemma keeps_step n : keeps [] (step n) any.
Proof.
  unfold step. eapply keeps_bind; [apply keeps_jit_loop|]. intros go _.
  destruct (negb go); [by apply keeps_ret|apply keeps_interp_step].
Qed.

Lemma keeps_run_loop n : keeps [] (run_loop n) any.
Proof.
  induction n as [|n IH]; cbn [run_loop]; [apply keeps_block|].
  eapply keeps_bind; [apply keeps_step|]. intros ok _. keep; done.
Qed.

Lemma keeps_run n : keeps [] (run n) in_u64.
Proof.
  unfold run. eapply keeps_bind; [apply hk_init|]. intros _ _.
  eapply keeps_bind; [apply keeps_run_loop|]. intros _ _.
  eapply keeps_bind; [apply hk_fini|]. intros _ _.
  eapply keeps_bind; [apply keeps_get_flags|]. intros f _.
  apply (keeps_bind _ _ _ _ _ _ _ any); [keep; done|]. intros _ _.
  eapply keeps_bind; [apply keeps_set_flags; word_side|]. intros _ _.
  apply (keeps_bind _ _ _ _ _ _ _ any).
  { apply keeps_modify; [|done]. intros v [Hw _]. split; [|done]. by destruct Hw. }
  intros _ _. apply keeps_r.
Qed.

End Keeps.
