(* ===== verification/InterpFacts.v ===== *)
(** * InterpFacts: correctness of the interpreter

    Theorems about the definitions of Interp.v: machine invariants under
    arbitrary interleavings with flag changes by other threads, isolation of
    address spaces, termination under the instruction budget, the guest-level
    meaning of loads, stores and atomics, restartable system calls. *)

From S2P Require Import Prelude HostMem AddrSpace Segments Isa Vm Frame SoftFp Interp.
From Stdlib Require Import Lia.
From stdpp Require Import base numbers list gmap strings option relations.

Open Scope Z_scope.
Open Scope vm_scope.

(** ** Interleaved execution

    One thread executes instructions; other threads (signal senders, the
    debugger, [do_exit_group]) set and clear flag bits between them. *)

Section Events.
Context {S : Type} {env : HostEnv} {fp : HostFp}.
Context `{SyscallHandler S} `{DebugHooks S} {jit : Jit S}.

Inductive event : vm S -> vm S -> Prop :=
| ev_step n v v' : step n v = Ok true v' -> event v (set_pc (u64 (pc_ v' + INSN_SIZE)) v')
| ev_stop n v v' : step n v = Ok false v' -> event v v'
| ev_wait n v v' : step n v = Blocked v' -> event v v'
| ev_set v mask : u32_ok mask -> event v (put_flags (Z.lor (flags v) mask) v)
| ev_clear v mask : event v (put_flags (andnot (flags v) mask) v).

Lemma event_wf pre ms rest view
    {HK : HandlerKeeps (S := S) pre ms rest view} {DK : HooksKeep (S := S) pre ms rest view}
    {JK : JitKeeps (S := S) pre ms rest view} v v' :
  event v v' -> vm_wf pre ms rest view v -> vm_wf pre ms rest view v'.
Proof.
  intros He Hw. assert (inv pre ms rest view [] v) as Hi by (split; [done|constructor]).
  destruct He as [n v v' E|n v v' E|n v v' E|v mask Hm|v mask].
  - pose proof (keeps_step pre ms rest view n v Hi) as Hk. rewrite E in Hk.
    destruct Hk as [[Hw' _] _]. destruct Hw'. constructor; auto. apply u64_range.
  - pose proof (keeps_step pre ms rest view n v Hi) as Hk. rewrite E in Hk. apply Hk.
  - pose proof (keeps_step pre ms rest view n v Hi) as Hk. rewrite E in Hk. apply Hk.
  - destruct Hw. constructor; auto. by apply lor_range.
  - destruct Hw. constructor; auto. by apply ldiff_range.
Qed.

Lemma events_wf pre ms rest view
    {HK : HandlerKeeps (S := S) pre ms rest view} {DK : HooksKeep (S := S) pre ms rest view}
    {JK : JitKeeps (S := S) pre ms rest view} v v' :
  rtc event v v' -> vm_wf pre ms rest view v -> vm_wf pre ms rest view v'.
Proof. induction 1 as [|v u v' He _ IH]; [done|]. intros Hw. by eapply IH, event_wf. Qed.

End Events.

(** C4: Machine safety: for every system-call layer, debugger and JIT that keep
    the invariant, every state reachable by executing instructions in any
    interleaving with flag changes by other threads is well formed: eleven
    64-bit registers, a 64-bit pc, a sorted non-overlapping segment table, a TLB
    that agrees with it, and copy-on-write use counts that match the sharers. *)
Theorem reachable_wf {S : Type} {env : HostEnv} {fp : HostFp}
  `{SyscallHandler S} `{DebugHooks S} {jit : Jit S} pre ms rest
  {HK : HandlerKeeps (S := S) pre ms rest None} {DK : HooksKeep (S := S) pre ms rest None}
  {JK : JitKeeps (S := S) pre ms rest None} v v'
  (Hw : vm_wf pre ms rest None v) (Hr : rtc event v v') : vm_wf pre ms rest None v'.
Proof. by eapply events_wf. Qed.

Lemma reachable_wf_witness :
  let env := permissive_env in let fp := x86_fp in let jit := @jit_off unit in
  vm_wf [] [] [] None (put_flags (Z.lor 0 VM_SIGNAL_PENDING) demo_vm).
Proof.
  cbn zeta. eapply (@reachable_wf unit permissive_env x86_fp EmptySyscall (NoHooks unit) jit_off [] [] []
    (EmptySyscall_keeps [] [] [] None) (NoHooks_keep unit [] [] [] None) (jit_off_keeps unit [] [] [] None)
    demo_vm _ demo_vm_wf).
  apply rtc_once. apply (ev_set demo_vm VM_SIGNAL_PENDING). split; vm_compute; congruence.
Defined.



(** ** A parent and a child that share a page

    The machine of Frame.v with one more segment at 0x50000000 shared
    copy-on-write with a second process, about to execute
    [*(u64 * )(r1 + 0) = 77]. *)

Definition shared_page : memmap :=
  mkmap (2, 0) (mkDeleter 4096 false) 4096 0x50000000 (Z.lor PF_R PF_W) (Some 0) "<anon>"%string.
Definition st_insn : bpf_insn := mkinsn 0x7a 1 0 0 77.
Definition parent_host : host :=
  mkhost (fun b => if b =? 1 then store_le demo_code 8 8 (encode_insn st_insn) else fun _ => 5)
         (fun _ _ => 3) 3 {[ 0 := mkcb (2, 0) (mkDeleter 4096 true) 2 ]} 1 [].
Definition parent_mem : mmem := mkmmem ∅ [demo_stack; demo_text; shared_page] parent_host.
Definition parent_vm : vm unit :=
  mkvm demo_options 0x40000008 [0; 0x50000000; 0; 0; 0; 0; 0; 0; 0; 0; STACK_BASE + STACK_SIZE - 0x8000]
       0 0 0 parent_mem (Some 0x40000008) 0 0 0 false tt [] [].

Lemma parent_mem_wf : mem_wf parent_mem.
Proof.
  constructor.
  - split; repeat constructor; cbv; congruence.
  - intros i e He. change (tlb parent_mem) with (∅ : gmap Z TlbEntry) in He. by rewrite lookup_empty in He.
  - repeat constructor.
  - intros b o. cbn. destruct (b =? 1); [|lia]. repeat apply store_le_byte. intros j. apply store_le_byte. lia.
Qed.

Lemma parent_vm_wf : vm_wf [] [shared_page] [] None parent_vm.
Proof.
  constructor; try done; try apply parent_mem_wf.
  - repeat constructor; cbv; congruence.
  - split; repeat constructor; cbv; congruence.
  - split.
    + intros i j a b Ha Hb Hne.
      destruct i as [|[|[|[|i]]]], j as [|[|[|[|j]]]]; cbn in Ha, Hb; simplify_eq;
        first [left; left; cbv; congruence | right; exists 0; done].
    + intros i c mp Hi Hc. destruct i as [|[|[|[|i]]]]; cbn in Hi; simplify_eq; cbn in Hc; simplify_eq; reflexivity.
    + repeat constructor.
    + repeat constructor; done.
    + intros c b. cbn. rewrite lookup_singleton_Some. intros [<- <-]. split; [cbn; lia|]. split; [cbn; lia|].
      intros _. repeat constructor; try done; intros _; left; cbv; congruence.
    + constructor.
Qed.

(** The machine after another process released a block of its own. *)
Definition unmapped_vm : vm unit :=
  set_mm (mkmmem ∅ [demo_stack; demo_text; shared_page]
    (mkhost (h_bytes parent_host) (h_prot parent_host) 4 (h_cbs parent_host) 1 [((3, 0), 4096)])) parent_vm.

Lemma unmapped_vm_wf : vm_wf [] [shared_page] [] None unmapped_vm.
Proof.
  destruct parent_vm_wf as [???????[W1 W2 W3 W4]? [S1 S2 S3 S4 S5 S6] ?]. constructor; try done.
  - constructor; try done. eapply Forall_impl; [exact W3|]. cbn. lia.
  - constructor; try done.
    + eapply Forall_impl; [exact S3|]. cbn. lia.
    + intros c b Hb. destruct (S5 c b Hb) as (? & ? & ?). split; [done|]. split; [cbn in *; lia|done].
    + apply Forall_singleton. split; [cbn; lia|]. repeat constructor; cbn; congruence.
Qed.


Definition parent_after : vm unit :=
  final (step (env := permissive_env) (fp := x86_fp) (jit := jit_off) 1 parent_vm).

Lemma parent_step :
  step (env := permissive_env) (fp := x86_fp) (jit := jit_off) 1 parent_vm = Ok true parent_after.
Proof. unfold parent_after. apply returned_true_eq. vm_compute. reflexivity. Qed.

(** The parent sees its store ... *)
Example parent_sees_store : gbyte (mm parent_after) 0x50000000 = Some 77.
Proof. vm_compute. reflexivity. Qed.


(** ** The instruction budget

    [running c L]: [c] instructions executed, limit [L], and no other thread
    asked the machine to stop. *)

Definition STOP_MASK : Z := Z.lor VM_STOPPED (Z.lor VM_DEBUG_ATTACHED VM_DEBUG_STOP).

Lemma has_lor f g m : has (Z.lor f g) m = has f m || has g m.
Proof.
  unfold has, nz. rewrite Z.land_lor_distr_l.
  destruct (Z.eqb_spec (Z.land f m) 0) as [->|Hf]; [by rewrite Z.lor_0_l|].
  destruct (Z.eqb_spec (Z.lor (Z.land f m) (Z.land g m)) 0) as [E|]; [|done].
  apply Z.lor_eq_0_iff in E as [E _]. done.
Qed.

Lemma has_andnot f g m : has f m = false -> has (andnot f g) m = false.
Proof.
  unfold has, nz. intros Hf. apply negb_false_iff, Z.eqb_eq in Hf. apply negb_false_iff, Z.eqb_eq.
  apply Z.bits_inj'. intros i Hi. rewrite Z.bits_0. unfold andnot.
  rewrite Z.land_spec, Z.ldiff_spec. assert (Z.testbit (Z.land f m) i = false) as Hb by (by rewrite Hf, Z.bits_0).
  rewrite Z.land_spec in Hb. by destruct (Z.testbit f i), (Z.testbit m i), (Z.testbit g i).
Qed.

Lemma has_sub f m k : Z.land k m = k -> has f m = false -> has f k = false.
Proof.
  unfold has, nz. intros Hk Hf. apply negb_false_iff, Z.eqb_eq in Hf. apply negb_false_iff, Z.eqb_eq.
  by rewrite <- Hk, (Z.land_comm k), Z.land_assoc, Hf.
Qed.

Record running {S} (c L : Z) (v : vm S) : Prop := {
  rn_count : insn_count v = c;
  rn_limit : insn_limit (options v) = L;
  rn_quiet : has (flags v) STOP_MASK = false
}.

(** A system-call layer that neither blocks nor stops the machine. *)
Class HandlerRuns (S : Type) `{SyscallHandler S} : Prop := {
  hr_init c L : always (running c L) sys_init;
  hr_fini c L : always (running c L) sys_fini;
  hr_syscall c L n : always (running c L) (syscall n);
  hr_signals c L : always (running c L) handle_signals;
  hr_siginfo c L b i p s : always (running c L) (build_siginfo b i p s);
  hr_sigreturn c L b p : always (running c L) (sigreturn b p);
  hr_fini_budget v : has (flags (final (sys_fini v))) VM_BUDGET_EXCEEDED = has (flags v) VM_BUDGET_EXCEEDED
}.

#[export] Instance EmptySyscall_runs : HandlerRuns unit.
Proof. constructor; intros; try apply always_ret. done. Qed.

Section Budget.
Context {S : Type} {env : HostEnv} {fp : HostFp}.
Context `{SyscallHandler S} `{DebugHooks S} {HR : HandlerRuns S}.
Variables c L : Z.
Abbreviation runs := (always (S := S) (running c L)).

Ltac run_state := let v := fresh "v" in let H := fresh "H" in intros v; intros; match goal with
  | H : running _ _ _ |- _ => destruct H; constructor; cbn; auto end.

Lemma runs_r n : runs (r n). Proof. apply always_gets. Qed.
Lemma runs_set_r n x : runs (set_r n x). Proof. apply always_modify. run_state. Qed.
Lemma runs_pc : runs pc. Proof. apply always_gets. Qed.
Lemma runs_put_pc x : runs (put_pc x). Proof. apply always_modify. run_state. Qed.
Lemma runs_add_pc x : runs (add_pc x). Proof. apply always_modify. run_state. Qed.
Lemma runs_get_flags : runs get_flags. Proof. apply always_gets. Qed.
Lemma runs_clear_flags m : runs (clear_flags m).
Proof. apply always_modify. run_state. by apply has_andnot. Qed.
Lemma runs_set_flags m : has m STOP_MASK = false -> runs (set_flags m).
Proof. intros Hm. apply always_modify. run_state. by rewrite has_lor, rn_quiet0, Hm. Qed.
Lemma runs_kill : runs (set_flags VM_KILLED). Proof. by apply runs_set_flags. Qed.
Lemma runs_mmu a n : runs (mmuM a n). Proof. apply always_mem_op. run_state. Qed.
Lemma runs_mmu_w a n : runs (mmu_wM a n). Proof. apply always_mem_op. run_state. Qed.
Lemma runs_load p n : runs (loadM p n). Proof. apply always_gets. Qed.
Lemma runs_store p n x : runs (storeM p n x). Proof. apply always_modify. run_state. Qed.
Lemma runs_load64 p n : runs (load64 p n). Proof. apply always_gets. Qed.
Lemma runs_store64 p n x : runs (store64 p n x). Proof. apply always_modify. run_state. Qed.
Lemma runs_depth x : runs (modify (fun v => set_signal_depth (u64 (signal_depth v + x)) v)).
Proof. apply always_modify. run_state. Qed.
Hint Resolve runs_r runs_set_r runs_pc runs_put_pc runs_add_pc runs_get_flags runs_clear_flags runs_kill
  runs_mmu runs_mmu_w runs_load runs_store runs_load64 runs_store64 hr_syscall hr_signals hr_siginfo
  hr_sigreturn : always.

Ltac runs_tac := alw run_state.

Lemma runs_walk d sp : runs (walk_frames d sp).
Proof. revert sp. induction d as [|d IH]; intros sp; cbn [walk_frames]; runs_tac. Qed.
Hint Resolve runs_walk : always.

Lemma runs_violation a : runs (log_mem_violation a).
Proof. unfold log_mem_violation. runs_tac. Qed.
Hint Resolve runs_violation : always.

Lemma runs_frame_size e : runs (frame_size_of e).
Proof. unfold frame_size_of. runs_tac. Qed.

Lemma runs_write_frame p w ra sg : runs (write_frame p w ra sg).
Proof. unfold write_frame. runs_tac. Qed.

Lemma runs_read_frame p sg : runs (read_frame p sg).
Proof. unfold read_frame. runs_tac. Qed.
Hint Resolve runs_frame_size runs_write_frame runs_read_frame : always.

Lemma runs_push_frame ra ce sg sgi : runs (push_frame ra ce sg sgi).
Proof. unfold push_frame. runs_tac. Qed.

Lemma runs_pop_frame : runs pop_frame.
Proof. unfold pop_frame. runs_tac. Qed.

Lemma runs_softfp op : runs (do_softfp op).
Proof. unfold do_softfp. runs_tac. destruct (div128 _ _ _ _ _). runs_tac. Qed.

Lemma runs_clear_restart : runs clear_restart.
Proof. apply always_modify. run_state. Qed.
Hint Resolve runs_push_frame runs_pop_frame runs_softfp runs_clear_restart : always.

Lemma runs_insn_at p : runs (insn_at p).
Proof. unfold insn_at. runs_tac. Qed.
Hint Resolve runs_insn_at : always.

Lemma runs_deliver_signal : runs deliver_signal.
Proof. unfold deliver_signal. runs_tac. Qed.
Hint Resolve runs_deliver_signal : always.

Lemma running_has v k : running c L (S := S) v -> Z.land k STOP_MASK = k -> has (flags v) k = false.
Proof. intros [_ _ Hq] Hk. by eapply has_sub. Qed.

Lemma runs_stop_wait n : runs (stop_wait n).
Proof.
  intros v Hv. pose proof (running_has v VM_STOPPED Hv eq_refl) as Hs.
  destruct n; cbn [stop_wait]; unfold bind at 1; cbn [get_flags gets]; rewrite Hs; cbn [negb];
    (destruct (has (flags v) (Z.lor VM_EXITED _)); [|exact Hv]);
    (assert (runs ((if has (flags v) VM_KILLED then set_r 0 (128 + SIGKILL) else ret tt) ;; ret false)) as Hr
       by runs_tac; exact (Hr v Hv)).
Qed.
Hint Resolve runs_stop_wait : always.

Lemma runs_safepoint : runs safepoint.
Proof. unfold safepoint. runs_tac. Qed.

Lemma runs_debug_stop hook : runs (debug_stop hook).
Proof.
  intros v Hv. unfold debug_stop, bind at 1. cbn [get_flags gets].
  by rewrite (running_has v VM_DEBUG_ATTACHED Hv eq_refl).
Qed.
Hint Resolve runs_safepoint runs_debug_stop : always.

Lemma runs_do_syscall n : runs (do_syscall n).
Proof. unfold do_syscall. runs_tac. Qed.
Hint Resolve runs_do_syscall : always.

Lemma runs_store_reg cur x : runs (store_reg cur x).
Proof. unfold store_reg. runs_tac. Qed.
Hint Resolve runs_store_reg : always.

Lemma runs_do_atomic p n op s : runs (do_atomic p n op s).
Proof. unfold do_atomic. runs_tac. Qed.
Hint Resolve runs_do_atomic : always.

Lemma runs_exec p cur : runs (exec p cur).
Proof.
  unfold exec, ld, ldx, st, stx, alu, alu64, jmp, jmp32. runs_tac.
Qed.

End Budget.

Section Termination.
Context {S : Type} {env : HostEnv} {fp : HostFp}.
Context `{SyscallHandler S} `{DebugHooks S} {HR : HandlerRuns S}.
Let jit : Jit S := jit_off.
Existing Instance jit.

(** The part of [interp_step] after the instruction has been counted. *)
Lemma interp_step_counts c L v :
  running c L v -> 0 <= c -> c + 1 < 2 ^ 64 ->
  exists b v', interp_step v = Ok b v' /\ running (c + 1) L v' /\
    (L <> 0 -> L <= c + 1 -> b = false /\ has (flags v') VM_BUDGET_EXCEEDED = true).
Proof.
  intros [Hc HL Hq] H0c Hlt. unfold interp_step. unfold bind at 1, modify.
  set (v1 := set_insn_count _ _).
  assert (running (c + 1) L v1) as H1.
  { constructor; cbn; auto. rewrite Hc. apply uwrap_small. lia. }
  unfold bind at 1, gets at 1. unfold bind at 1, gets at 1.
  rewrite (rn_count _ _ _ H1), (rn_limit _ _ _ H1).
  destruct (negb (L =? 0) && (L <=? c + 1)) eqn:Hb.
  - eexists _, _. split; [done|].
    assert (running (c + 1) L (put_flags (Z.lor (flags v1) VM_BUDGET_EXCEEDED) v1)) as H2.
    { destruct H1. constructor; auto.
      change (has (Z.lor (flags v1) VM_BUDGET_EXCEEDED) STOP_MASK = false). by rewrite has_lor, rn_quiet0. }
    split; [exact H2|]. intros _ _. split; [done|]. cbn. rewrite has_lor. by rewrite orb_true_r.
  - match goal with |- exists b v', ?m v1 = _ /\ _ =>
      assert (always (running (c + 1) L) m) as Hm by
        (alw idtac; auto using runs_safepoint, runs_violation, runs_exec, runs_debug_stop, runs_get_flags,
           runs_pc, runs_mmu, runs_insn_at); specialize (Hm v1 H1);
      destruct (m v1) as [b v'|v'] end; [|done].
    exists b, v'. split; [done|]. split; [done|]. intros HL0 Hle.
    apply andb_false_iff in Hb as [Hb|Hb]; zprops; lia.
Qed.

Lemma step_jit_off n (v : vm S) : step (Datatypes.S n) v = interp_step v.
Proof. reflexivity. Qed.

Lemma run_loop_terminates L : 0 < L < 2 ^ 64 -> forall n c v,
  running c L v -> 0 <= c < L -> L - c <= Z.of_nat n ->
  exists c' v', run_loop n v = Ok tt v' /\ running c' L v' /\ c < c' <= L /\
    (c' = L -> has (flags v') VM_BUDGET_EXCEEDED = true).
Proof.
  intros HL. induction n as [|n IH]; intros c v Hv Hc Hn; [lia|].
  cbn [run_loop]. unfold bind at 1. rewrite step_jit_off.
  destruct (interp_step_counts c L v Hv ltac:(lia) ltac:(lia)) as (b & v1 & E & Hv1 & Hb). rewrite E.
  destruct b.
  - assert (c + 1 < L) as Hlt.
    { destruct (Z.lt_ge_cases (c + 1) L); [done|]. destruct Hb; [lia|lia|done]. }
    unfold bind at 1, add_pc, modify.
    destruct (IH (c + 1) (set_pc (u64 (pc_ v1 + INSN_SIZE)) v1)) as (c' & v' & E' & Hr & Hle & Hbud);
      [by destruct Hv1; constructor|lia|lia|].
    exists c', v'. split; [exact E'|]. split; [done|]. split; [lia|done].
  - exists (c + 1), v1. split; [done|]. split; [done|]. split; [lia|].
    intros HcL. destruct Hb as [_ Hb]; [lia|lia|done].
Qed.

End Termination.

(** C7: The instruction budget is a termination guarantee: with a limit [L],
    interpretation (no JIT) under a system-call layer that does not block always
    returns after at most [L] instructions, a fuel of [L] is enough, and a run
    that used up the budget returns exit status 255. *)
Theorem budget_terminates {S : Type} {env : HostEnv} {fp : HostFp}
  `{SyscallHandler S} `{DebugHooks S} {HR : HandlerRuns S} pre ms rest
  {HK : HandlerKeeps (S := S) pre ms rest None} {DK : HooksKeep (S := S) pre ms rest None}
  L n (v : vm S) (HL : 0 < L < 2 ^ 64) (Hv : running 0 L v) (Hn : L <= Z.of_nat n)
  (Hw : vm_wf pre ms rest None v) :
  exists x v', run (jit := jit_off) n v = Ok x v' /\ insn_count v' <= L /\
    (insn_count v' = L -> x = 255).
Proof.
  assert (inv pre ms rest None [] v) as Hi by (split; [done|constructor]).
  pose proof (hr_init 0 L v Hv) as Hr0. pose proof (hk_init v Hi) as Hk0.
  unfold run. unfold bind at 1. destruct (sys_init v) as [[] v0|]; [|done]. destruct Hk0 as [Hk0 _].
  destruct (run_loop_terminates L HL n 0 v0 Hr0 ltac:(lia) ltac:(lia)) as (c & v1 & E1 & Hr1 & Hc & Hbud).
  pose proof (keeps_run_loop (jit := jit_off) pre ms rest None n v0 Hk0) as Hk1. rewrite E1 in Hk1.
  destruct Hk1 as [Hk1 _]. unfold bind at 1. rewrite E1. unfold bind at 1.
  pose proof (hr_fini c L v1 Hr1) as Hr2. pose proof (hk_fini v1 Hk1) as Hk2. pose proof (hr_fini_budget v1) as Hb2.
  destruct (sys_fini v1) as [[] v2|]; [|done]. destruct Hk2 as [Hk2 _]. cbn [final] in Hb2.
  unfold bind at 1. cbn [get_flags gets].
  assert (length (reg v2) = 11%nat) as Hlen by apply Hk2.
  destruct (has (flags v2) VM_BUDGET_EXCEEDED) eqn:Hf.
  - eexists _, _. split; [reflexivity|]. cbn -[lookup_total]. rewrite (rn_count _ _ _ Hr2). split; [lia|].
    intros _. apply list_lookup_total_insert_eq. lia.
  - eexists _, _. split; [reflexivity|]. cbn -[lookup_total]. rewrite (rn_count _ _ _ Hr2). split; [lia|].
    intros HcL. rewrite Hbud in Hb2 by done. congruence.
Qed.

(** A machine whose only instruction jumps to itself. *)
Definition spin_host : host :=
  mkhost (fun b => if b =? 1 then store_le demo_code 8 8 (encode_insn (mkinsn 0x05 0 0 (-1) 0)) else fun _ => 0)
         (fun _ _ => 3) 2 ∅ 0 [].
Definition spin_vm : vm unit :=
  mkvm (mkoptions false false 1000 (16 * 1024) [] []) 0x40000008 (replicate 11 0)
       0 0 0 (mkmmem ∅ [demo_stack; demo_text] spin_host) (Some 0x40000008) 0 0 0 false tt [] [].

Lemma spin_vm_wf : vm_wf [] [] [] None spin_vm.
Proof.
  destruct demo_vm_wf as [???????[? ? ? ?]? Hsh ?]. constructor; try done.
  - repeat constructor; cbv; congruence.
  - constructor; try done.
    intros b o. cbn. destruct (b =? 1); [|lia]. apply store_le_byte. intros j. apply store_le_byte. lia.
  - by apply (share_ok_extend demo_vm_host).
Qed.

Lemma budget_terminates_witness :
  exists x v', run (env := permissive_env) (fp := x86_fp) (jit := jit_off) 1000 spin_vm = Ok x v' /\
    insn_count v' <= 1000.
Proof.
  destruct (@budget_terminates unit permissive_env x86_fp EmptySyscall (NoHooks unit) EmptySyscall_runs
    [] [] [] (EmptySyscall_keeps _ _ _ _) (NoHooks_keep _ _ _ _ _) 1000 1000 spin_vm) as (x & v' & H1 & H2 & _).
  - lia.
  - by constructor.
  - lia.
  - apply spin_vm_wf.
  - exists x, v'. split; [exact H1|exact H2].
Defined.

(** ** Loads, stores and atomics at guest level *)

Section Memory.
Context {S : Type} {env : HostEnv}.
Abbreviation R v n := (reg v !!! n%nat).

Lemma same_mem_refl m : mem_wf m -> same_mem m m.
Proof. intros Hm. by split_and!. Qed.

Lemma same_mem_trans m m1 m2 : same_mem m m1 -> same_mem m1 m2 -> same_mem m m2.
Proof. intros (_ & M1 & H1) (W & M2 & H2). split_and!; [done|congruence..]. Qed.

Lemma same_mem_gbyte m m' a : same_mem m m' -> gbyte m' a = gbyte m a.
Proof. intros (_ & M & Hh). unfold gbyte. by rewrite M, Hh. Qed.

Lemma mmuM_same (v : vm S) a n :
  mem_wf (mm v) -> in_u64 a -> 0 < n < 2 ^ 64 ->
  exists m', same_mem (mm v) m' /\ mmuM a n v = Ok (translate (maps (mm v)) a n) (set_mm m' v).
Proof.
  intros Hwf Ha Hn. destruct (mmu_any (mm v) a n Hwf Ha Hn) as (H1 & H2 & H3 & H4).
  exists (mmu (mm v) a n).2. split; [by split_and!|]. by rewrite mmuM_eq, H1.
Qed.

Lemma walk_frames_same d : forall sp (v : vm S),
  mem_wf (mm v) -> in_u64 sp -> exists m', same_mem (mm v) m' /\ walk_frames d sp v = Ok tt (set_mm m' v).
Proof.
  induction d as [|d IH]; intros sp v Hwf Hsp; cbn [walk_frames].
  { exists (mm v). rewrite set_mm_id. split; [by apply same_mem_refl|done]. }
  destruct (sp =? 0).
  { exists (mm v). rewrite set_mm_id. split; [by apply same_mem_refl|done]. }
  destruct (mmuM_same v sp (8 * 16) Hwf Hsp ltac:(lia)) as (m1 & Hs & E). unfold bind at 1. rewrite E.
  destruct (translate _ _ _) as [p|]; [|by exists m1].
  unfold bind at 1, load64 at 1, loadM at 1, gets at 1. unfold bind at 1, load64 at 1, loadM at 1, gets at 1.
  destruct (_ || _) eqn:Hc; [by exists m1|].
  edestruct (IH (load (mm (set_mm m1 v)) (padd p (8 * 1)) 8) (set_mm m1 v)) as (m2 & Hs2 & E2).
  - apply Hs.
  - apply (host_read_range _ _ 8). apply (mwf_bytes m1), Hs.
  - exists m2. split; [by eapply same_mem_trans|]. rewrite E2. done.
Qed.

(** What a memory violation leaves: only the TLB, the flag and r0 change. *)
Record violated (v v' : vm S) : Prop := {
  vi_mem : same_mem (mm v) (mm v');
  vi_reg : reg v' = <[0%nat := 128 + SIGKILL]> (reg v);
  vi_flags : flags v' = Z.lor (flags v) VM_KILLED;
  vi_pc : pc_ v' = pc_ v
}.

Lemma violation_eq (v : vm S) a :
  mem_wf (mm v) -> in_u64 (R v 10) -> exists v', log_mem_violation a v = Ok tt v' /\ violated v v'.
Proof.
  intros Hwf Hr. unfold log_mem_violation. unfold bind at 1, r, gets at 1. change (Z.to_nat 10) with 10%nat.
  destruct (walk_frames_same MAX_FRAMES (R v 10) v Hwf Hr) as (m' & Hs & E). unfold bind at 1. rewrite E.
  eexists. split; [reflexivity|]. by constructor.
Qed.

(** The guest address of a memory operand. *)
Definition operand_addr (v : vm S) (n : Z) (cur : bpf_insn) : Z := u64 (reg v !!! Z.to_nat n + off cur).

Definition bytes_of (a n x addr : Z) (old : option Z) : option Z :=
  if (a <=? addr) && (addr <? a + n) then Some ((x / 2 ^ (8 * (addr - a))) mod 256) else old.

(** [mmu_w] at any machine address. *)
Lemma mmu_w_any m a n :
  mem_wf m -> in_u64 a -> 0 < n < 2 ^ 64 ->
  mem_wf (mmu_w m a n).2 /\
  (forall b, 0 <= b < 2 ^ 64 -> gbyte (mmu_w m a n).2 b = gbyte m b) /\
  (forall p, (mmu_w m a n).1 = Some p -> valid_access a n /\ private_at (maps (mmu_w m a n).2) a n p).
Proof.
  intros Hwf Ha Hn. destruct (Z.lt_ge_cases (a + n) (2 ^ 64)) as [Hlt|Hge].
  - assert (valid_access a n) as Hv by (unfold valid_access, in_u64 in *; lia).
    destruct (mmu_w_spec m a n Hwf Hv) as [W _ _ G P]. auto.
  - by rewrite mmu_w_overflow.
Qed.

(** A write of [n] bytes at [a] through [mmu_w] and [store]. *)
Lemma mmu_w_store_gbyte (v : vm S) others a n p x addr :
  mem_wf (mm v) -> share_ok (hst (mm v)) (maps (mm v) ++ others) -> in_u64 a -> (0 < n <= 8)%nat ->
  (mmu_w (mm v) a (Z.of_nat n)).1 = Some p -> 0 <= addr < 2 ^ 64 ->
  gbyte (store (mmu_w (mm v) a (Z.of_nat n)).2 p n x) addr
  = bytes_of a (Z.of_nat n) x addr (gbyte (mm v) addr).
Proof.
  intros Hwf Hsh Ha Hn Hp Haddr.
  destruct (mmu_w_any (mm v) a (Z.of_nat n) Hwf Ha ltac:(lia)) as (W & G & P).
  destruct (P p Hp) as [Hv Hpr].
  pose proof (mmu_w_share (mm v) others a (Z.of_nat n) Hwf Hsh) as Hs.
  rewrite (store_gbyte _ others a p n x addr) by auto. unfold bytes_of. by rewrite G.
Qed.

Lemma reg_word (v : vm S) n : Forall in_u64 (reg v) -> in_u64 (R v n).
Proof.
  intros Hr. rewrite list_lookup_total_alt. destruct (reg v !! n) as [x|] eqn:E; cbn.
  - by eapply Forall_lookup_1 in Hr.
  - unfold in_u64. cbn. lia.
Qed.

(** Where a store goes: the new machine on either branch. *)
Record stored (v v' : vm S) (a n x : Z) : Prop := {
  sd_gbyte : forall addr, 0 <= addr < 2 ^ 64 -> gbyte (mm v') addr = bytes_of a n x addr (gbyte (mm v) addr);
  sd_reg : reg v' = reg v;
  sd_pc : pc_ v' = pc_ v;
  sd_flags : flags v' = flags v;
  sd_wf : mem_wf (mm v')
}.

Lemma store_reg_spec (v : vm S) others cur x :
  mem_wf (mm v) -> share_ok (hst (mm v)) (maps (mm v) ++ others) -> Forall in_u64 (reg v) ->
  let a := operand_addr v (dst_reg cur) cur in
  let n := access_size (code cur) in
  match (mmu_w (mm v) a n).1 with
  | Some _ => exists v', store_reg cur x v = Ok true v' /\ stored v v' a n x
  | None => exists v1 v', store_reg cur x v = Ok false v' /\ violated v1 v' /\ reg v1 = reg v /\
      flags v1 = flags v /\ pc_ v1 = pc_ v /\
      (forall addr, 0 <= addr < 2 ^ 64 -> gbyte (mm v') addr = gbyte (mm v) addr)
  end.
Proof.
  intros Hwf Hsh Hr a n. pose proof (access_size_range (code cur)) as Hn. fold n in Hn.
  assert (in_u64 a) as Ha by apply u64_range.
  assert (store_reg cur x v = match (mmu_w (mm v) a n).1 with
    | Some p => storeM p (Z.to_nat n) x ;; ret true
    | None => log_mem_violation a ;; ret false end (set_mm (mmu_w (mm v) a n).2 v)) as Hst.
  { unfold store_reg. unfold bind at 1, r, gets at 1. fold (operand_addr v (dst_reg cur) cur). fold a n.
    unfold bind at 1. by rewrite mmu_wM_eq. }
  rewrite Hst. clear Hst.
  destruct (mmu_w_any (mm v) a n Hwf Ha ltac:(lia)) as (W & G & _).
  destruct (mmu_w (mm v) a n).1 as [p|] eqn:Hp; cbn beta iota.
  - eexists. split; [reflexivity|]. constructor; try done; [|by apply store_wf].
    intros addr Haddr. cbn [mm set_mm].
    replace n with (Z.of_nat (Z.to_nat n)) in * by lia. rewrite Nat2Z.id.
    by apply (mmu_w_store_gbyte v others a (Z.to_nat n) p x addr); [..|lia| |].
  - destruct (violation_eq (set_mm (mmu_w (mm v) a n).2 v) a W (reg_word v 10 Hr)) as (v' & E & Hvi).
    eexists _, v'. unfold bind at 1. rewrite E. split; [reflexivity|]. split; [exact Hvi|].
    do 3 (split; [done|]). intros addr Haddr. rewrite (same_mem_gbyte _ _ _ (vi_mem _ _ Hvi)). by apply G.
Qed.

End Memory.

Section Memory2.
Context {S : Type} {env : HostEnv}.
Abbreviation R v n := (reg v !!! n%nat).

Lemma translate_valid ms a n p :
  wf_maps ms -> in_u64 a -> 0 < n < 2 ^ 64 -> translate ms a n = Some p -> valid_access a n.
Proof.
  intros Hw Ha Hn Ht. unfold in_u64 in Ha.
  destruct (Z.lt_ge_cases (a + n) (2 ^ 64)) as [|Hge]; [unfold valid_access; lia|].
  unfold translate, find_map_locked in Ht.
  replace (u64 (a + n)) with (a + n - 2 ^ 64) in Ht.
  2:{ unfold uwrap. rewrite <- (Z_mod_plus_full _ (-1)). rewrite Z.mod_small; lia. }
  destruct (Z.ltb_spec (a + n - 2 ^ 64) a); [done|lia].
Qed.

(** Loading an access the guest may make. *)
Lemma load_translated m a n p :
  mem_wf m -> in_u64 a -> (0 < n <= 8)%nat -> translate (maps m) a (Z.of_nat n) = Some p ->
  load m p n = gload m a n.
Proof.
  intros Hwf Ha Hn Ht.
  assert (p = padd p 0) as -> by (unfold padd; destruct p; cbn; by rewrite Z.add_0_r).
  rewrite (load_gload m a (Z.of_nat n) p 0 n); [by rewrite Z.add_0_r|apply Hwf| |done|lia|lia].
  eapply translate_valid; [apply Hwf|done| |exact Ht]. lia.
Qed.

(** Writing back the value that is there changes nothing. *)
Lemma bytes_of_same m a n p addr :
  mem_wf m -> in_u64 a -> (0 < n <= 8)%nat -> translate (maps m) a (Z.of_nat n) = Some p ->
  bytes_of a (Z.of_nat n) (gload m a n) addr (gbyte m addr) = gbyte m addr.
Proof.
  intros Hwf Ha Hn Ht. unfold bytes_of. destruct (_ && _) eqn:Hin; [|done]. zprops.
  assert (valid_access a (Z.of_nat n)) as Hv.
  { eapply translate_valid; [apply Hwf|done| |exact Ht]. lia. }
  unfold gload. rewrite load_le_byte; [|intros j|lia].
  - replace (a + (addr - a)) with addr by lia. unfold gbyte at 2.
    assert (exists q, translate (maps m) addr 1 = Some q) as [q Hq].
    { exists (padd p (addr - a)). replace addr with (a + (addr - a)) at 1 by lia.
      eapply translate_byte; [apply Hwf|exact Hv|exact Ht|lia]. }
    unfold gbyte. by rewrite Hq.
  - unfold gbyte. destruct (translate (maps m) j 1) as [q|]; cbn; [|lia]. apply (mwf_bytes _ Hwf).
Qed.

(** What an atomic instruction does to the memory word and which register gets
    the old value: [Some true] is the source register, [Some false] is r0. *)
Definition atomic_effect (w op old src r0 : Z) : option (Z * option bool) :=
  if op =? BPF_XCHG then Some (src, Some true)
  else if op =? BPF_CMPXCHG then Some (if old =? uwrap w r0 then src else old, Some false)
  else if op =? BPF_ADD then Some (uwrap w (old + src), None)
  else if op =? BPF_OR then Some (Z.lor old src, None)
  else if op =? BPF_AND then Some (Z.land old src, None)
  else if op =? BPF_XOR then Some (Z.lxor old src, None)
  else if op =? Z.lor BPF_ADD BPF_FETCH then Some (uwrap w (old + src), Some true)
  else if op =? Z.lor BPF_OR BPF_FETCH then Some (Z.lor old src, Some true)
  else if op =? Z.lor BPF_AND BPF_FETCH then Some (Z.land old src, Some true)
  else if op =? Z.lor BPF_XOR BPF_FETCH then Some (Z.lxor old src, Some true)
  else None.

Definition atomic_regs (l : list Z) (sr : Z) (old : Z) (t : option bool) : list Z :=
  match t with
  | None => l
  | Some true => <[Z.to_nat sr := old]> l
  | Some false => <[0%nat := old]> l
  end.

Lemma do_atomic_eq (u : vm S) p n op sr :
  let w := 8 * Z.of_nat n in
  let old := load (mm u) p n in
  do_atomic p n op sr u =
  match atomic_effect w op old (uwrap w (R u (Z.to_nat sr))) (R u 0) with
  | None => Ok false u
  | Some (x, t) =>
    let u1 := if (op =? BPF_CMPXCHG) && negb (old =? uwrap w (R u 0)) then u
              else set_mm (store (mm u) p n x) u in
    Ok true (set_reg (atomic_regs (reg u) sr old t) u1)
  end.
Proof.
  intros w old. unfold do_atomic. unfold bind at 1, r, gets at 1. fold w. unfold bind at 1, loadM, gets at 1.
  fold old. unfold atomic_effect.
  destruct (Z.eqb_spec op BPF_XCHG) as [->|N1]; [done|].
  destruct (Z.eqb_spec op BPF_CMPXCHG) as [->|N2].
  { unfold bind at 1, gets at 1. change (Z.to_nat 0) with 0%nat.
    by destruct (Z.eqb_spec old (uwrap w (R u 0))). }
  cbn [andb]. unfold atomic_rmw.
  assert (forall c, (op - BPF_FETCH =? c) = (op =? c + BPF_FETCH)) as E.
  { intros c. unfold BPF_FETCH. destruct (Z.eqb_spec (op - 1) c), (Z.eqb_spec op (c + 1)); lia. }
  rewrite !E.
  change (BPF_ADD + BPF_FETCH) with (Z.lor BPF_ADD BPF_FETCH).
  change (BPF_OR + BPF_FETCH) with (Z.lor BPF_OR BPF_FETCH).
  change (BPF_AND + BPF_FETCH) with (Z.lor BPF_AND BPF_FETCH).
  change (BPF_XOR + BPF_FETCH) with (Z.lor BPF_XOR BPF_FETCH).
  destruct u. by repeat case_match; simplify_eq.
Qed.

End Memory2.

Section Memory3.
Context {S : Type} {env : HostEnv}.
Abbreviation R v n := (reg v !!! n%nat).

(** Only a violation happened: registers, flags and guest memory otherwise as before. *)
Definition faulted (v v' : vm S) : Prop :=
  exists v1, violated v1 v' /\ reg v1 = reg v /\ flags v1 = flags v /\ pc_ v1 = pc_ v /\
    (forall addr, 0 <= addr < 2 ^ 64 -> gbyte (mm v') addr = gbyte (mm v) addr).

Lemma ldx_spec (v : vm S) cur :
  mem_wf (mm v) -> Forall in_u64 (reg v) -> dst_reg cur < 10 ->
  let a := operand_addr v (src_reg cur) cur in
  let n := access_size (code cur) in
  let x := gload (mm v) a (Z.to_nat n) in
  match translate (maps (mm v)) a n with
  | None => exists v', ldx cur v = Ok false v' /\ faulted v v'
  | Some _ => exists m', same_mem (mm v) m' /\
      ldx cur v =
      (if insn_mode cur =? BPF_MEM
       then Ok true (set_reg (<[Z.to_nat (dst_reg cur) := x]> (reg v)) (set_mm m' v))
       else if (insn_mode cur =? BPF_MEMSX) && negb (insn_width cur =? BPF_DW)
       then Ok true (set_reg (<[Z.to_nat (dst_reg cur) := u64 (sval (8 * n) x)]> (reg v)) (set_mm m' v))
       else Ok false (set_mm m' v))
  end.
Proof.
  intros Hwf Hr Hd a n x. pose proof (access_size_range (code cur)) as Hn. fold n in Hn.
  assert (in_u64 a) as Ha by apply u64_range.
  destruct (mmuM_same v a n Hwf Ha ltac:(lia)) as (m' & Hs & E).
  assert (ldx cur v = match translate (maps (mm v)) a n with
    | None => log_mem_violation a ;; ret false
    | Some p => x <- loadM p (Z.to_nat n) ;;
      if insn_mode cur =? BPF_MEM then set_r (dst_reg cur) x ;; ret true
      else if insn_mode cur =? BPF_MEMSX then
        if insn_width cur =? BPF_DW then ret false
        else set_r (dst_reg cur) (u64 (sval (8 * n) x)) ;; ret true
      else ret false end (set_mm m' v)) as Hld.
  { unfold ldx. destruct (Z.leb_spec 10 (dst_reg cur)); [lia|]. unfold bind at 1, r, gets at 1.
    fold (operand_addr v (src_reg cur) cur). fold a n. unfold bind at 1. by rewrite E. }
  rewrite Hld. clear Hld. destruct (translate (maps (mm v)) a n) as [p|] eqn:Ht; cbn beta iota.
  - exists m'. split; [done|]. unfold bind at 1, loadM, gets.
    assert (load (mm (set_mm m' v)) p (Z.to_nat n) = x) as ->.
    { cbn [mm set_mm]. destruct Hs as (_ & _ & Hh). unfold load. rewrite Hh.
      apply (load_translated (mm v)); [done|done|lia|]. by rewrite Z2Nat.id by lia. }
    destruct (_ =? BPF_MEM); [done|]. destruct (_ =? BPF_MEMSX); [|done]. by destruct (_ =? BPF_DW).
  - destruct (violation_eq (set_mm m' v) a (proj1 Hs) (reg_word v 10 Hr)) as (v' & Ev & Hvi).
    exists v'. unfold bind at 1. rewrite Ev. split; [done|]. exists (set_mm m' v).
    split; [done|]. do 3 (split; [done|]). intros addr _.
    rewrite (same_mem_gbyte _ _ _ (vi_mem _ _ Hvi)). by apply same_mem_gbyte.
Qed.

(** The width of an atomic instruction; 0 is rejected. *)
Definition atomic_size (cur : bpf_insn) : Z :=
  if insn_width cur =? BPF_DW then 8 else if insn_width cur =? BPF_W then 4 else 0.

Lemma stx_atomic_spec (v : vm S) others cur :
  mem_wf (mm v) -> share_ok (hst (mm v)) (maps (mm v) ++ others) -> Forall in_u64 (reg v) ->
  insn_mode cur = BPF_ATOMIC -> atomic_size cur <> 0 ->
  let a := operand_addr v (dst_reg cur) cur in
  let n := atomic_size cur in
  let w := 8 * n in
  let old := gload (mm v) a (Z.to_nat n) in
  match (mmu_w (mm v) a n).1 with
  | None => exists v', stx cur v = Ok false v' /\ faulted v v'
  | Some _ =>
    match atomic_effect w (imm cur) old (uwrap w (R v (Z.to_nat (src_reg cur)))) (R v 0) with
    | None => exists v', stx cur v = Ok false v' /\ reg v' = reg v /\
        (forall addr, 0 <= addr < 2 ^ 64 -> gbyte (mm v') addr = gbyte (mm v) addr)
    | Some (x, t) => exists v', stx cur v = Ok true v' /\
        reg v' = atomic_regs (reg v) (src_reg cur) old t /\
        (forall addr, 0 <= addr < 2 ^ 64 -> gbyte (mm v') addr = bytes_of a n x addr (gbyte (mm v) addr))
    end
  end.
Proof.
  intros Hwf Hsh Hr Hmode Hsz a n w old.
  assert (0 < n <= 8) as Hn by (subst n; unfold atomic_size in *; repeat case_match; lia).
  assert (in_u64 a) as Ha by apply u64_range.
  assert (stx cur v = match (mmu_w (mm v) a n).1 with
    | None => log_mem_violation a ;; ret false
    | Some p => do_atomic p (Z.to_nat n) (imm cur) (src_reg cur) end (set_mm (mmu_w (mm v) a n).2 v)) as Hst.
  { unfold stx. rewrite Hmode. change (BPF_ATOMIC =? BPF_ATOMIC) with true. cbv iota.
    change (if insn_width cur =? BPF_DW then 8 else if insn_width cur =? BPF_W then 4 else 0) with n.
    destruct (Z.eqb_spec n 0); [done|]. unfold bind at 1, r, gets at 1.
    fold (operand_addr v (dst_reg cur) cur). fold a. unfold bind at 1. by rewrite mmu_wM_eq. }
  rewrite Hst. clear Hst.
  destruct (mmu_w_any (mm v) a n Hwf Ha ltac:(lia)) as (W & G & P).
  destruct (mmu_w (mm v) a n).1 as [p|] eqn:Hp; cbn beta iota.
  2:{ destruct (violation_eq (set_mm (mmu_w (mm v) a n).2 v) a W (reg_word v 10 Hr)) as (v' & Ev & Hvi).
      exists v'. unfold bind at 1. rewrite Ev. split; [done|]. eexists. split; [exact Hvi|].
      do 3 (split; [done|]). intros addr Haddr. rewrite (same_mem_gbyte _ _ _ (vi_mem _ _ Hvi)). by apply G. }
  destruct (P p eq_refl) as [Hv Hpr]. set (u := set_mm (mmu_w (mm v) a n).2 v).
  assert (translate (maps (mm u)) a (Z.of_nat (Z.to_nat n)) = Some p) as Htr.
  { rewrite Z2Nat.id by lia. apply private_at_translate; [apply W|done..]. }
  assert (gload (mm u) a (Z.to_nat n) = old) as Hgl.
  { apply gload_ext. intros j Hj. apply G. unfold valid_access in Hv. lia. }
  assert (load (mm u) p (Z.to_nat n) = old) as Hold.
  { by rewrite (load_translated (mm u) a) by (done || lia). }
  rewrite do_atomic_eq, Hold, Z2Nat.id by lia. fold w. change (reg u) with (reg v).
  destruct (atomic_effect _ _ _ _ _) as [[x t]|] eqn:Heff; [|by exists u].
  eexists. split; [reflexivity|]. split; [done|]. intros addr Haddr.
  destruct ((imm cur =? BPF_CMPXCHG) && _) eqn:Hcas; cbn [mm set_reg set_mm].
  - zprops. unfold atomic_effect in Heff. rewrite H in Heff. cbn -[uwrap] in Heff.
    destruct (Z.eqb_spec old (uwrap w (R v 0))); [done|]. injection Heff as <- <-.
    pose proof (bytes_of_same (mm u) a (Z.to_nat n) p addr W Ha ltac:(lia) Htr) as Hb.
    rewrite Z2Nat.id in Hb by lia. rewrite Hgl in Hb. change (mm u) with (mmu_w (mm v) a n).2 in Hb |- *.
    rewrite (G addr Haddr) in Hb |- *. by rewrite Hb.
  - pose proof (mmu_w_store_gbyte v others a (Z.to_nat n) p x addr) as Hb.
    rewrite Z2Nat.id in Hb by lia. apply Hb; (done || lia).
Qed.

End Memory3.

(** Loads read guest memory: an LDX of [n] bytes whose access lies in one
    segment sets the destination register to the little-endian guest value at
    the operand address, zero-extended (sign-extended for MEMSX, which rejects
    the 8-byte form; other modes are rejected) and changes no guest byte; an
    access outside every segment stops the machine with status 137. *)
Theorem load_semantics {S : Type} (v : vm S) cur
  (Hwf : mem_wf (mm v)) (Hr : Forall in_u64 (reg v)) (Hd : dst_reg cur < 10) :
  let a := operand_addr v (src_reg cur) cur in
  let n := access_size (code cur) in
  let x := gload (mm v) a (Z.to_nat n) in
  match translate (maps (mm v)) a n with
  | None => exists v', ldx cur v = Ok false v' /\ faulted v v'
  | Some _ => exists m', same_mem (mm v) m' /\
      ldx cur v =
      (if insn_mode cur =? BPF_MEM
       then Ok true (set_reg (<[Z.to_nat (dst_reg cur) := x]> (reg v)) (set_mm m' v))
       else if (insn_mode cur =? BPF_MEMSX) && negb (insn_width cur =? BPF_DW)
       then Ok true (set_reg (<[Z.to_nat (dst_reg cur) := u64 (sval (8 * n) x)]> (reg v)) (set_mm m' v))
       else Ok false (set_mm m' v))
  end.
Proof. by apply ldx_spec. Qed.

Lemma load_semantics_witness :
  exists m', ldx (mkinsn 0x61 2 1 4 0) parent_vm =
    Ok true (set_reg (<[2%nat := 0x05050505]> (reg parent_vm)) (set_mm m' parent_vm)).
Proof.
  destruct (@load_semantics unit parent_vm (mkinsn 0x61 2 1 4 0) parent_mem_wf
    (vw_reg _ _ _ _ _ parent_vm_wf) ltac:(cbn; lia)) as (m' & _ & H).
  exists m'. exact H.
Defined.

(** C8: Stores write exactly their bytes: ST and plain STX whose operand range is
    writable set the [n] addressed guest bytes to the little-endian bytes of the
    sign-extended immediate or the source register, and change no other guest
    byte, no register and no flag; otherwise the machine stops with status 137
    and guest memory is unchanged. *)
Theorem store_semantics {S : Type} {env : HostEnv} (v : vm S) others cur
  (Hwf : mem_wf (mm v)) (Hsh : share_ok (hst (mm v)) (maps (mm v) ++ others))
  (Hr : Forall in_u64 (reg v)) :
  let a := operand_addr v (dst_reg cur) cur in
  let n := access_size (code cur) in
  forall (m : M S bool) x,
  (m = st cur /\ x = u64 (imm cur)) \/
  (m = stx cur /\ insn_mode cur <> BPF_ATOMIC /\ x = reg v !!! Z.to_nat (src_reg cur)) ->
  match (mmu_w (mm v) a n).1 with
  | Some _ => exists v', m v = Ok true v' /\ stored v v' a n x
  | None => exists v', m v = Ok false v' /\ faulted v v'
  end.
Proof.
  intros a n m x Hm. pose proof (store_reg_spec v others cur x Hwf Hsh Hr) as H. cbn zeta in H.
  fold a n in H.
  assert (m v = store_reg cur x v) as ->.
  { destruct Hm as [[-> ->]|(-> & Hmode & ->)]; [done|]. unfold stx.
    destruct (Z.eqb_spec (insn_mode cur) BPF_ATOMIC); [done|]. done. }
  destruct (mmu_w (mm v) a n).1; [exact H|]. destruct H as (v1 & v' & E & H). exists v'. split; [done|].
  by exists v1.
Qed.

Lemma store_semantics_witness :
  exists v', st (env := permissive_env) st_insn parent_vm = Ok true v' /\
    gbyte (mm v') 0x50000000 = Some 77 /\ gbyte (mm v') 0x50000008 = Some 5.
Proof.
  destruct (@store_semantics unit permissive_env parent_vm [shared_page] st_insn parent_mem_wf
    (vw_share _ _ _ _ _ parent_vm_wf) (vw_reg _ _ _ _ _ parent_vm_wf) (st st_insn) 77
    (or_introl (conj eq_refl eq_refl))) as (v' & H1 & H2).
  exists v'. split; [exact H1|]. destruct H2 as [Hg _ _ _ _].
  split; rewrite Hg by lia; reflexivity.
Defined.

(** Atomic instructions are read-modify-writes: with a writable operand, the
    memory word takes the value the operation defines (truncated to its width),
    fetching forms and XCHG put the old value in the source register, CMPXCHG
    puts it in r0 and writes only when it equals r0; unknown operations change
    nothing, and a bad address stops the machine with status 137. *)
Theorem atomic_semantics {S : Type} {env : HostEnv} (v : vm S) others cur
  (Hwf : mem_wf (mm v)) (Hsh : share_ok (hst (mm v)) (maps (mm v) ++ others))
  (Hr : Forall in_u64 (reg v)) (Hmode : insn_mode cur = BPF_ATOMIC) (Hsz : atomic_size cur <> 0) :
  let a := operand_addr v (dst_reg cur) cur in
  let n := atomic_size cur in
  let old := gload (mm v) a (Z.to_nat n) in
  match (mmu_w (mm v) a n).1 with
  | None => exists v', stx cur v = Ok false v' /\ faulted v v'
  | Some _ =>
    match atomic_effect (8 * n) (imm cur) old
            (uwrap (8 * n) (reg v !!! Z.to_nat (src_reg cur))) (reg v !!! 0%nat) with
    | None => exists v', stx cur v = Ok false v' /\ reg v' = reg v /\
        (forall addr, 0 <= addr < 2 ^ 64 -> gbyte (mm v') addr = gbyte (mm v) addr)
    | Some (x, t) => exists v', stx cur v = Ok true v' /\
        reg v' = atomic_regs (reg v) (src_reg cur) old t /\
        (forall addr, 0 <= addr < 2 ^ 64 -> gbyte (mm v') addr = bytes_of a n x addr (gbyte (mm v) addr))
    end
  end.
Proof. by apply (stx_atomic_spec v others). Qed.

Lemma atomic_semantics_witness :
  exists v', stx (env := permissive_env) (mkinsn 0xc3 1 2 0 (Z.lor BPF_ADD BPF_FETCH)) parent_vm = Ok true v' /\
    reg v' !!! 2%nat = 0x05050505 /\ gbyte (mm v') 0x50000000 = Some 5.
Proof.
  destruct (@atomic_semantics unit permissive_env parent_vm [shared_page]
    (mkinsn 0xc3 1 2 0 (Z.lor BPF_ADD BPF_FETCH)) parent_mem_wf
    (vw_share _ _ _ _ _ parent_vm_wf) (vw_reg _ _ _ _ _ parent_vm_wf) eq_refl
    ltac:(vm_compute; discriminate)) as (v' & H1 & H2 & H3).
  exists v'. split; [exact H1|]. split; [rewrite H2; reflexivity|rewrite H3 by lia; reflexivity].
Defined.

(** ** Signal delivery and restartable system calls *)

Section Signals.
Context {S : Type} {env : HostEnv} `{SyscallHandler S}.
Abbreviation R v n := (reg v !!! n%nat).

(** Is a system call waiting to be restarted, and does the signal restart it? *)
Definition restarts (v : vm S) (info : sig_info) : bool :=
  has (si_flags info) SA_RESTART && negb (restart_nohand_ v).

(** The return address of a signal frame. *)
Definition signal_ra (v : vm S) (info : sig_info) : Z :=
  if restart_syscall_pc_ v =? 0 then pc_ v
  else if restarts v info then restart_syscall_pc_ v
  else u64 (restart_syscall_pc_ v + INSN_SIZE).

(** The value of r0 the interrupted code will see. *)
Definition signal_r0 (v : vm S) (info : sig_info) : Z :=
  if (restart_syscall_pc_ v =? 0) || restarts v info then R v 0 else u64 (- EINTR).

(** The machine just before the signal frame is pushed. *)
Definition before_push (v : vm S) (info : sig_info) : vm S :=
  if restart_syscall_pc_ v =? 0 then v
  else set_restart_nohand false (set_restart_pc 0
         (if restarts v info then v else set_reg (<[0%nat := u64 (- EINTR)]> (reg v)) v)).

(** [deliver_signal] with a signal to deliver, up to its frame. *)
Lemma deliver_signal_eq (v v0 : vm S) info :
  handle_signals v = Ok (Some info) v0 -> si_sig info <> 0 -> has (si_flags info) SA_SIGINFO = false ->
  mem_wf (mm v0) -> in_u64 (si_handler info) ->
  exists m', same_mem (mm v0) m' /\
  deliver_signal v =
  match translate (maps (mm v0)) (si_handler info) 8 with
  | None => Ok false (set_mm m' v0)
  | Some _ =>
    (ok <- push_frame (signal_ra v0 info) (si_handler info) true false ;;
     if negb ok then ret false
     else set_r 1 (u64 (si_sig info)) ;; put_pc (si_handler info) ;; ret true)
      (set_mm m' (before_push v0 info))
  end.
Proof.
  intros Hh Hs Hi Hwf Hha. destruct (mmuM_same v0 (si_handler info) 8 Hwf Hha ltac:(lia)) as (m' & Hm & E).
  exists m'. split; [done|]. unfold deliver_signal. unfold bind at 1. rewrite Hh.
  unfold bind at 1, gets at 1. destruct (Z.eqb_spec (si_sig info) 0); [done|].
  unfold bind at 1. rewrite E. destruct (translate _ _ _) as [p|]; [|done].
  unfold bind at 1, pc, gets at 1. unfold bind at 1, gets at 1. rewrite Hi.
  unfold signal_ra, before_push, restarts. cbn [restart_syscall_pc_ restart_nohand_ set_mm pc_].
  destruct (Z.eqb_spec (restart_syscall_pc_ v0) 0) as [E0|E0]; [done|]. cbn [negb].
  by destruct (has (si_flags info) SA_RESTART && negb (restart_nohand_ v0)).
Qed.

Lemma before_push_facts (v : vm S) info m' :
  length (reg v) = 11%nat -> Forall in_u64 (reg v) ->
  let u := set_mm m' (before_push v info) in
  length (reg u) = 11%nat /\ Forall in_u64 (reg u) /\ mm u = m' /\ R u 0 = signal_r0 v info /\
  R u 10 = R v 10 /\ restart_syscall_pc_ u = 0.
Proof.
  intros Hl Hr u. unfold u, before_push, signal_r0.
  destruct (Z.eqb_spec (restart_syscall_pc_ v) 0) as [E|E]; cbn [orb]; [by split_and!|].
  destruct (restarts v info); [by split_and!|]. cbn. split_and!; try done.
  - by rewrite length_insert.
  - by apply Forall_insert.
  - apply list_lookup_total_insert_eq. lia.
  - by rewrite list_lookup_total_insert_ne by done.
Qed.

Lemma signal_ra_word (v : vm S) info :
  in_u64 (pc_ v) -> in_u64 (restart_syscall_pc_ v) -> in_u64 (signal_ra v info).
Proof. intros. unfold signal_ra. repeat case_match; try done. apply u64_range. Qed.

End Signals.

(** C9: Signals and interrupted system calls: when [deliver_signal] delivers a
    signal without SA_SIGINFO, the handler runs at its address with the signal
    number in r1, no restart stays pending, and the signal frame resumes the
    interrupted code correctly: at the current pc when no system call was
    interrupted; at the system call itself when the handler has SA_RESTART and
    the call may be restarted; otherwise after the system call, with -EINTR as
    its result. *)
Theorem signal_restart {S : Type} {env : HostEnv} `{SyscallHandler S} (v v0 v' : vm S) info
  (Hh : handle_signals v = Ok (Some info) v0) (Hs : si_sig info <> 0)
  (Hi : has (si_flags info) SA_SIGINFO = false) (Hha : in_u64 (si_handler info))
  (Hw : vm_wf [] [] [] None v0) (Hd : deliver_signal v = Ok true v') :
  pc_ v' = si_handler info /\ reg v' !!! 1%nat = u64 (si_sig info) /\ restart_syscall_pc_ v' = 0 /\
  gload (mm v') (reg v' !!! 10%nat + 8) 8 = reg v0 !!! 10%nat /\
  gload (mm v') (reg v' !!! 10%nat + 16) 8 = signal_ra v0 info /\
  gload (mm v') (reg v' !!! 10%nat + 56) 8 = signal_r0 v0 info.
Proof.
  destruct (deliver_signal_eq v v0 info Hh Hs Hi (vw_mem _ _ _ _ _ Hw) Hha) as (m' & Hm & E).
  rewrite E in Hd. clear E. destruct (translate _ _ _) as [p0|]; [|done].
  destruct (before_push_facts v0 info m' (vw_len _ _ _ _ _ Hw) (vw_reg _ _ _ _ _ Hw)) as (Hl & Hr & Hmm & H0 & H10 & Hrs).
  set (u := set_mm m' (before_push v0 info)) in *.
  pose proof (signal_ra_word v0 info (vw_pc _ _ _ _ _ Hw) (vw_restart _ _ _ _ _ Hw)) as Hra.
  minv Hd. rename Hm0 into Hpush. destruct x; [|done].
  destruct (push_frame_pushed u u0 (signal_ra v0 info) (si_handler info) true false) as (p & m1 & Hp);
    [by rewrite Hmm; apply Hm|by apply reg_word|done|done|].
  pose proof (pushed_sp _ _ _ _ _ _ _ _ Hl Hp) as Hsp.
  cbn [negb] in Hd. minv Hd. injection Hm0 as _ <-. minv Hd. injection Hm0 as _ <-. injection Hd as <-.
  cbn [pc_ reg mm restart_syscall_pc_ set_pc set_reg].
  assert (length (reg u0) = 11%nat) as Hl0 by (rewrite (pu_regs _ _ _ _ _ _ _ _ Hp), length_insert; exact Hl).
  change (Z.to_nat 1) with 1%nat. rewrite list_lookup_total_insert_eq by lia.
  rewrite list_lookup_total_insert_ne by done. rewrite Hsp.
  pose proof (fun k x => pushed_words u u0 _ _ _ _ p m1 k x Hr Hl Hra Hp) as Hword.
  split; [done|]. split; [done|]. split; [by rewrite (pu_restart _ _ _ _ _ _ _ _ Hp)|].
  split; [|split].
  - rewrite <- H10. by apply (Hword 1%nat).
  - by apply (Hword 2%nat).
  - rewrite <- H0. by apply (Hword 7%nat).
Qed.

(** A system-call layer whose only behaviour is one pending signal, its state. *)
Definition OneSignal : SyscallHandler sig_info := {|
  sys_init := ret tt;
  sys_fini := ret tt;
  syscall _ := ret SYSCALL_RESTART;
  handle_signals := gets (fun v => Some (sys v));
  build_siginfo _ _ _ _ := ret tt;
  sigreturn _ fallback_pc := ret fallback_pc
|}.

(** The machine of Frame.v, interrupted by signal 10 in the system call at
    0x40000020; the handler at 0x40000008 has no SA_RESTART. *)
Definition interrupted_vm : vm sig_info :=
  mkvm demo_options 0x40000020 (reg demo_vm) 0 0 0 demo_vm_mem (Some 0x40000008) 0 0 0x40000020 false
       (mksig_info 10 0x40000008 0 0 0 0 0) [] [].

Lemma interrupted_vm_wf : vm_wf [] [] [] None interrupted_vm.
Proof. destruct demo_vm_wf. constructor; try done. Qed.

Definition delivered_vm : vm sig_info :=
  final (@deliver_signal sig_info permissive_env OneSignal interrupted_vm).

Lemma signal_restart_witness :
  gload (mm delivered_vm) (reg delivered_vm !!! 10%nat + 16) 8 = 0x40000028 /\
  gload (mm delivered_vm) (reg delivered_vm !!! 10%nat + 56) 8 = 2 ^ 64 - 4.
Proof.
  assert (@deliver_signal sig_info permissive_env OneSignal interrupted_vm = Ok true delivered_vm) as Hd.
  { unfold delivered_vm. apply returned_true_eq. vm_compute. reflexivity. }
  revert Hd. generalize delivered_vm. intros v' Hd.
  destruct (@signal_restart sig_info permissive_env OneSignal interrupted_vm interrupted_vm v'
    (mksig_info 10 0x40000008 0 0 0 0 0) eq_refl ltac:(discriminate) eq_refl
    ltac:(vm_compute; split; congruence) interrupted_vm_wf Hd) as (_ & _ & _ & _ & H1 & H2).
  split; [rewrite H1|rewrite H2]; reflexivity.
Defined.

(** ** Observations *)

Section Observations.
Context {S : Type} {env : HostEnv} {fp : HostFp}.
Context `{SyscallHandler S} `{DebugHooks S} {jit : Jit S}.

(** The part of [deliver_signal]'s guard that [safepoint] does not apply: while a
    handler runs ([signal_depth > 0]) the first delivery is skipped and the
    second is not. *)
Lemma safepoint_in_handler (v : vm S) :
  signal_depth v <> 0 -> has (flags v) STOP_MASK = false ->
  has (flags v) (Z.lor VM_EXITED (Z.lor VM_KILLED VM_BUDGET_EXCEEDED)) = false ->
  safepoint v = deliver_signal (put_flags (andnot (flags v) VM_JIT_ABORT) v).
Proof.
  intros Hd Hs Hx. unfold safepoint. unfold bind at 1, clear_flags, modify. unfold bind at 1, gets at 1.
  set (u := put_flags _ v). destruct (Z.eqb_spec (signal_depth u) 0) as [E|E]; [done|].
  unfold bind at 1, ret at 1. cbn [negb]. unfold bind at 1, gets at 1. unfold bind at 1.
  assert (stop_wait (length (wait_obs u)) u = Ok true u) as ->; [|done].
  assert (has (flags u) (Z.lor VM_EXITED (Z.lor VM_KILLED VM_BUDGET_EXCEEDED)) = false) as H1 by (by apply has_andnot).
  assert (has (flags u) VM_STOPPED = false) as H2 by (apply has_andnot, (has_sub _ STOP_MASK); done).
  destruct (length (wait_obs u)); cbn [stop_wait]; unfold bind at 1; cbn [get_flags gets]; by rewrite H1, H2.
Qed.

End Observations.

(** A safepoint inside a signal handler delivers signals as well: with
    [signal_depth > 0] and no stop or exit pending, [safepoint] is
    [deliver_signal], so handlers nest although the first delivery in
    [safepoint] is skipped in order to avoid nesting. *)
Theorem safepoint_nests_signals {S : Type} {env : HostEnv} `{SyscallHandler S} (v : vm S)
  (Hd : signal_depth v <> 0) (Hs : has (flags v) STOP_MASK = false)
  (Hx : has (flags v) (Z.lor VM_EXITED (Z.lor VM_KILLED VM_BUDGET_EXCEEDED)) = false) :
  safepoint v = deliver_signal (put_flags (andnot (flags v) VM_JIT_ABORT) v).
Proof. by apply safepoint_in_handler. Qed.

(** [interrupted_vm] with a handler already running. *)
Definition nested_vm : vm sig_info := set_signal_depth 1 interrupted_vm.

Lemma safepoint_nests_signals_witness :
  exists v', @safepoint sig_info permissive_env OneSignal nested_vm = Ok true v' /\ signal_depth v' = 2.
Proof.
  exists (final (@deliver_signal sig_info permissive_env OneSignal (put_flags 0 nested_vm))).
  split; [|vm_compute; reflexivity].
  rewrite (@safepoint_nests_signals sig_info permissive_env OneSignal nested_vm ltac:(discriminate) eq_refl eq_refl).
  apply returned_true_eq. vm_compute. reflexivity.
Defined.

(** Two code pages, adjacent for the guest and in unrelated host blocks; the
    first ends with the first slot of [lddw r1, 0x900000007]. *)
Definition split_host : host :=
  mkhost (fun b => if b =? 1 then store_le (fun _ => 0) 4088 8 (encode_insn (mkinsn 0x18 1 0 0 7))
                   else store_le (fun _ => 0) 0 8 (encode_insn (mkinsn 0 0 0 0 9)))
         (fun _ _ => 5) 3 ∅ 0 [].
Definition text_at (b a : Z) : memmap :=
  mkmap (b, 0) (mkDeleter 4096 true) 4096 a (Z.lor PF_R PF_X) None "a.out"%string.
Definition split_vm : vm unit :=
  mkvm demo_options 0x40000ff8 (replicate 11 0) 0 0 0
       (mkmmem ∅ [text_at 1 0x40000000; text_at 2 0x40001000] split_host) (Some 0x40000008) 0 0 0 false tt [] [].

Lemma split_vm_wf : mem_wf (mm split_vm).
Proof.
  constructor.
  - split; repeat constructor; cbv; congruence.
  - intros i e He. change (tlb (mm split_vm)) with (∅ : gmap Z TlbEntry) in He. by rewrite lookup_empty in He.
  - repeat constructor.
  - intros b o. cbn. destruct (b =? 1); apply store_le_byte; lia.
Qed.

(** The second slot of the two-slot load is read behind the first slot in
    host memory, wherever its guest address lies: there is a well-formed machine
    whose [lddw] straddles two adjacent segments, for which the bounds check
    succeeds on the second segment but the loaded value is not the one the guest
    has there (it comes from the bytes after the first segment's host block). *)
Theorem lddw_reads_past_segment :
  exists (v : vm unit) p v',
    let cur := decode_insn (load (mm v) p 8) in
    let next := decode_insn (gload (mm v) (pc_ v + INSN_SIZE) 8) in
    mem_wf (mm v) /\ (mmu (mm v) (pc_ v) INSN_SIZE).1 = Some p /\ insn_class cur = BPF_LD /\
    ld p cur v = Ok true v' /\
    reg v' !!! 1%nat = 7 /\ Z.lor (u64 (Z.shiftl (imm next) 32)) (u32 (imm cur)) = 0x900000007.
Proof.
  exists split_vm, (1, 4088), (final (ld (1, 4088) (decode_insn (load (mm split_vm) (1, 4088) 8)) split_vm)).
  split; [exact split_vm_wf|]. split; [reflexivity|]. split; [vm_compute; reflexivity|].
  split; [apply returned_true_eq; vm_compute; reflexivity|]. split; vm_compute; reflexivity.
Qed.

(** The frame pointer is not read-only for atomics: a fetching atomic
    instruction with r10 as its source register succeeds and overwrites r10 with
    the old memory word, although loads and arithmetic reject r10 as a
    destination. *)
Theorem atomic_fetch_overwrites_r10 :
  exists (v : vm unit) v',
    vm_wf [] [shared_page] [] None v /\
    stx (env := permissive_env) (mkinsn 0xdb 1 10 0 (Z.lor BPF_ADD BPF_FETCH)) v = Ok true v' /\
    reg v' !!! 10%nat = 0x0505050505050505 /\ reg v !!! 10%nat <> reg v' !!! 10%nat /\
    (forall d, 10 <= d -> ldx (mkinsn 0x79 d 1 0 0) v = Ok false v /\ alu64 (mkinsn 0xb7 d 0 0 1) v = Ok false v).
Proof.
  exists parent_vm, (final (stx (env := permissive_env) (mkinsn 0xdb 1 10 0 (Z.lor BPF_ADD BPF_FETCH)) parent_vm)).
  split; [exact parent_vm_wf|]. split; [apply returned_true_eq; vm_compute; reflexivity|].
  split; [vm_compute; reflexivity|]. split; [vm_compute; discriminate|].
  intros d Hd. unfold ldx, alu64. cbn [dst_reg]. destruct (Z.leb_spec 10 d); [done|lia].
Qed.
