(* ===== verification/MemSyscalls.v ===== *)
(** * MemSyscalls: mmap, munmap, mprotect, madvise

    The memory system calls of posix/memory.cpp on the segment table of
    AddrSpace: [punch_hole], [do_mmap], [do_munmap], [do_mprotect],
    [do_madvise].  File descriptors are an argument ([find_fd], the descriptor
    table's lookup); the contents the host maps for a file are [host_file]. *)

From S2P Require Import Prelude HostMem AddrSpace Vm Segments.
From Stdlib Require Import Lia.
From stdpp Require Import base numbers list gmap strings option sorting.

Open Scope Z_scope.
Open Scope vm_scope.

(** ** Constants *)

Definition PAGE : Z := 0x1000.
Definition EBADF : Z := 9.
Definition EACCES : Z := 13.
Definition MAP_FIXED : Z := 0x10.
Definition MAP_ANONYMOUS : Z := 0x20.
Definition kProtMask : Z := Z.lor (Z.lor PF_R PF_W) PF_X.

(** [(x + PAGE - 1) & ~(PAGE - 1)] on 64-bit words. *)
Definition page_up (x : Z) : Z := andnot (u64 (x + PAGE - 1)) (PAGE - 1).

(** [PROT_*] bits as segment permission bits. *)
Definition flags_of_prot (prot : Z) : Z :=
  Z.lor (Z.lor (if nz (Z.land prot PROT_READ) then PF_R else 0)
               (if nz (Z.land prot PROT_WRITE) then PF_W else 0))
        (if nz (Z.land prot PROT_EXEC) then PF_X else 0).

(** ** punch_hole *)

(** One segment of [punch_hole]: the segments kept, the old segment when it was
    cut (destroyed with the old vector), the host. *)
Definition punch_one (h : host) (base end_ : Z) (m : memmap) : list memmap * list memmap * host :=
  let m_end := u64 (m_paddr m + m_size m) in
  if (end_ <=? m_paddr m) || (m_end <=? base) then ([m], [], h)
  else
    let '(m1, h1) := share_pages h m in
    let cb := m_cow m1 in
    let h2 := shared_copy h1 cb in
    let '(lseg, h3) :=
      if m_paddr m1 <? base
      then ([piece m1 (m_paddr m1) (base - m_paddr m1) (m_flags m1) (m_path m1)], shared_copy h2 cb)
      else ([], h2) in
    let '(rseg, h4) :=
      if end_ <? m_end
      then ([piece m1 end_ (m_end - end_) (m_flags m1) (m_path m1)], shared_copy h3 cb)
      else ([], h3) in
    (lseg ++ rseg, [m1], shared_reset h4 cb).

Fixpoint punch_loop (h : host) (base end_ : Z) (ml : list memmap) : list memmap * list memmap * host :=
  match ml with
  | [] => ([], [], h)
  | m :: r =>
    let '(ps, dead, h1) := punch_one h base end_ m in
    let '(ps', dead', h2) := punch_loop h1 base end_ r in
    (ps ++ ps', dead ++ dead', h2)
  end.

(** [punch_hole]; the old vector's elements are destroyed by the final move. *)
Definition punch_hole (h : host) (ml : list memmap) (base end_ : Z) : list memmap * host :=
  let '(out, dead, h1) := punch_loop h base end_ ml in (out, fold_left destroy_map dead h1).

(** ** mmap *)

Section Mmap.
Context {env : HostEnv}.
(** [ps->find_fd(fd)]: the host descriptor and path behind a guest descriptor. *)
Variable find_fd : Z -> option (Z * string).
(** Contents the host maps: descriptor, offset, index. *)
Variable host_file : Z -> Z -> Z -> Z.

(** The host's [mmap(nullptr, len, prot, flags, host_fd, offset)], successful. *)
Definition host_mmap_fd (h : host) (prot host_fd offset : Z) : hptr * host :=
  let '(p, h1) := host_mmap h prot in
  if host_fd =? -1 then (p, h1)
  else (p, set_bytes h1 (upd_block (h_bytes h1) p.1 (fun j => host_file host_fd offset j mod 256))).

(** The body of [do_mmap] after the arguments were read; [None] where the
    source reads [ml.back()] of an empty vector. *)
Definition mmap_mem (m : mmem) (addr_hint len0 prot flags fd offset : Z) : option (Z * mmem) :=
  let len := page_up len0 in
  if len =? 0 then Some (- EINVAL, m)
  else
    let fixed := nz (Z.land flags MAP_FIXED) in
    if fixed && negb (addr_hint mod PAGE =? 0) then Some (- EINVAL, m)
    else
      match (if negb (nz (Z.land flags MAP_ANONYMOUS)) then find_fd fd else Some (-1, EmptyString)) with
      | None => Some (- EBADF, m)
      | Some (host_fd, path) =>
        if env_mmap_fails (hst m) len then Some (- env_errno (hst m), m)
        else
          let '(addr, h1) := host_mmap_fd (hst m) prot host_fd offset in
          let m1 := set_host m h1 in
          let new paddr := mkmap addr (mkDeleter len true) len paddr (flags_of_prot prot) None path in
          if fixed then
            let end_ := u64 (addr_hint + len) in
            let '(ml, h2) := punch_hole (hst m1) (maps m1) addr_hint end_ in
            let m2 := flush_tlb (mkmmem (tlb m1) ml h2) in
            Some (s64 addr_hint, flush_tlb (addmem m2 (new addr_hint)))
          else
            match last (maps m1) with
            | None => None
            | Some back =>
              let next := u64 (m_paddr back + m_size back) in
              let paddr := page_up next in
              Some (s64 paddr, flush_tlb (mkmmem (tlb m1) (insert_map (new paddr) (maps m1)) (hst m1)))
            end
      end.

(** A memory operation that may have no defined continuation. *)
Definition try_mem {S A} (f : mmem -> option (A * mmem)) : M S A := fun v =>
  match f (mm v) with
  | Some (a, m) => Ok a (set_mm m v)
  | None => Blocked v
  end.

(** [PosixSyscall::do_mmap]. *)
Definition do_mmap {S} : M S Z :=
  addr_hint <- r 1 ;;
  r2 <- r 2 ;; r3 <- r 3 ;; r4 <- r 4 ;; r5 <- r 5 ;; r0 <- r 0 ;;
  try_mem (fun m => mmap_mem m addr_hint r2 (s32 r3) (s32 r4) (s32 r5) (s64 r0)).

End Mmap.

(** ** munmap, madvise *)

(** [PosixSyscall::do_munmap]. *)
Definition do_munmap {S} : M S Z :=
  a <- r 1 ;;
  ok <- mem_op (fun m => unmap m a) ;;
  ret (if ok : bool then 0 else - EINVAL).

(** [PosixSyscall::do_madvise]. *)
Definition do_madvise {S} : M S Z := ret 0.

(** ** mprotect *)

(** How the loop of [do_mprotect] ends: an early [return], or past the last
    segment with [any]. *)
Inductive mp_exit := MpError (rc : Z) | MpDone (any : bool).

Section Mprotect.
Context {env : HostEnv}.
Variables (range_lo range_hi prot new_flags : Z).

Definition new_seg_flags (fl : Z) : Z := Z.lor (andnot fl kProtMask) new_flags.

(** What the body of the loop does with segment [m]. *)
Inductive mp_action :=
| MpSkip  (** [++i; continue] *)
| MpReturn (rc : Z) (m : memmap) (h : host)  (** early return, [ml[i]] now [m] *)
| MpSplit (ps : list memmap) (h : host)  (** [ml[i]] replaced by [ps], rescan *)
| MpUpdate (m : memmap) (h : host).  (** [ml[i]] updated in place, [++i] *)

Definition mp_overlap (m : memmap) : bool :=
  negb ((range_hi <=? m_paddr m) || (u64 (m_paddr m + m_size m) <=? range_lo)).

Definition mp_split (h : host) (m : memmap) (sub_lo sub_hi : Z) : mp_action :=
  let own_host := del_owned (m_deleter m) in
  let m_end := u64 (m_paddr m + m_size m) in
  let '(m1, h1) := share_pages h m in
  let cb := m_cow m1 in
  let h2 := shared_copy h1 cb in
  let '(lseg, h3) :=
    if m_paddr m1 <? sub_lo
    then ([piece m1 (m_paddr m1) (sub_lo - m_paddr m1) (m_flags m1) EmptyString], shared_copy h2 cb)
    else ([], h2) in
  let mid := piece m1 sub_lo (sub_hi - sub_lo) (new_seg_flags (m_flags m1)) EmptyString in
  let h4 := shared_copy h3 cb in
  let '(rseg, h5) :=
    if sub_hi <? m_end
    then ([piece m1 sub_hi (m_end - sub_hi) (m_flags m1) EmptyString], shared_copy h4 cb)
    else ([], h4) in
  if own_host && env_mprotect_fails h5 (m_data mid) (m_size mid) prot then
    (* right, mid, left and cb go out of scope *)
    let h6 := fold_left destroy_map (rseg ++ [mid] ++ lseg) h5 in
    MpReturn (- env_errno h5) m1 (shared_reset h6 cb)
  else
    let h6 := if own_host then host_mprotect h5 (m_data mid) (m_size mid) prot else h5 in
    MpSplit (lseg ++ [mid] ++ rseg) (shared_reset (destroy_map h6 m1) cb).

Definition mp_body (h : host) (m : memmap) : mp_action :=
  if negb (mp_overlap m) then MpSkip
  else
    let m_end := u64 (m_paddr m + m_size m) in
    let sub_lo := Z.max range_lo (m_paddr m) in
    let sub_hi := Z.min range_hi m_end in
    if nz (Z.land (m_flags m) PF_X) && negb (nz (Z.land new_flags PF_X)) then MpReturn (- EACCES) m h
    else if (m_paddr m <? sub_lo) || (sub_hi <? m_end) then mp_split h m sub_lo sub_hi
    else if new_flags =? Z.land (m_flags m) kProtMask then MpSkip
    else
      let own_host := del_owned (m_deleter m) in
      if own_host && env_mprotect_fails h (m_data m) (m_size m) prot then MpReturn (- env_errno h) m h
      else
        let h1 := if own_host then host_mprotect h (m_data m) (m_size m) prot else h in
        MpUpdate (mkmap (m_data m) (m_deleter m) (m_size m) (m_paddr m) (new_seg_flags (m_flags m))
                        (m_cow m) (m_path m)) h1.

(** The loop; [None] when the fuel runs out. *)
Fixpoint mprotect_loop (n : nat) (h : host) (ml : list memmap) (i : nat) (any : bool)
  : option (mp_exit * list memmap * host) :=
  match n with
  | O => None
  | S k =>
    match ml !! i with
    | None => Some (MpDone any, ml, h)
    | Some m =>
      match mp_body h m with
      | MpSkip => mprotect_loop k h ml (S i) (any || mp_overlap m)
      | MpReturn rc m' h' => Some (MpError rc, <[i := m']> ml, h')
      | MpSplit ps h' => mprotect_loop k h' (take i ml ++ ps ++ drop (S i) ml) O true
      | MpUpdate m' h' => mprotect_loop k h' (<[i := m']> ml) (S i) true
      end
    end
  end.

End Mprotect.

(** At most two segments are cut (at the ends of the range), each adding at
    most two segments; the bound below allows one cut per segment. *)
Definition mprotect_fuel (ml : list memmap) : nat := (length ml + 1) * (3 * length ml + 1).

Section Syscalls.
Context {env : HostEnv}.

(** [do_mprotect] on the address space; an error returns before [flush_tlb]. *)
Definition mprotect_mem (m : mmem) (addr len prot : Z) : option (Z * mmem) :=
  match mprotect_loop addr (u64 (addr + len)) prot (flags_of_prot prot)
          (mprotect_fuel (maps m)) (hst m) (maps m) 0 false with
  | None => None
  | Some (MpError rc, ml, h) => Some (rc, mkmmem (tlb m) ml h)
  | Some (MpDone any, ml, h) =>
    Some (if any : bool then 0 else - ENOMEM, flush_tlb (mkmmem (tlb m) ml h))
  end.

(** [PosixSyscall::do_mprotect]. *)
Definition do_mprotect {S} : M S Z :=
  addr <- r 1 ;; len <- r 2 ;; prot <- r 3 ;;
  try_mem (fun m => mprotect_mem m addr len (s32 prot)).

End Syscalls.

(** ** punch_hole: lemmas *)

(** What a table looks like after the addresses [base, end_) were unmapped. *)
Definition outside (base end_ : Z) (q : memmap) : Prop :=
  m_paddr q + m_size q <= base \/ end_ <= m_paddr q.

Record punched (base end_ : Z) (ml ps : list memmap) : Prop := {
  pn_sorted : StronglySorted below ps;
  pn_parts : Forall (fun q => outside base end_ q /\
    exists m, m ∈ ml /\ part_of q m /\ m_flags q = m_flags m) ps;
  pn_rest : forall m a, m ∈ ml -> covers m a 1 -> ~ (base <= a < end_) ->
    exists q, q ∈ ps /\ covers q a 1 /\ part_of q m /\ m_flags q = m_flags m
}.

(** A host step that touches neither the bytes nor the blocks in use. *)
Definition same_bytes (h h' : host) : Prop := h_bytes h' = h_bytes h /\ h_next h' = h_next h.

#[export] Instance same_bytes_preorder : PreOrder same_bytes.
Proof. split; [done|]. intros h1 h2 h3 [??] [??]. split; congruence. Qed.

Lemma share_pages_bytes h m : same_bytes h (share_pages h m).2.
Proof. unfold share_pages. destruct (m_cow m); [done|]. by destruct (del_owned _). Qed.

Lemma copies_bytes n h c : same_bytes h (copies n h c).
Proof. by destruct (copies_host n h c) as (? & ? & _). Qed.

Lemma reset_bytes h c : same_bytes h (shared_reset h c).
Proof. split; [apply h_bytes_shared_reset|apply h_next_shared_reset]. Qed.

Lemma destroy_bytes h m : same_bytes h (destroy_map h m).
Proof. by destruct (destroy_map_host h m) as (? & ? & _). Qed.

Lemma destroy_all_bytes h ms : same_bytes h (fold_left destroy_map ms h).
Proof. by destruct (destroy_all_host ms h) as (? & ? & _). Qed.

Lemma mprotect_bytes h p n prot : same_bytes h (host_mprotect h p n prot).
Proof. done. Qed.

(** Sharing a segment's pages changes who owns them and nothing else. *)
Lemma share_pages_facts h m r :
  share_ok h (m :: r) -> wf_map m ->
  let m1 := (share_pages h m).1 in
  share_ok (share_pages h m).2 (m1 :: r) /\ unowned m1 /\ wf_map m1 /\
  m_data m1 = m_data m /\ m_size m1 = m_size m /\ m_paddr m1 = m_paddr m /\ m_flags m1 = m_flags m /\
  h_prot (share_pages h m).2 = h_prot h.
Proof.
  intros Hs Hw m1. pose proof (share_pages_ok h m r Hs) as Hok.
  destruct (share_pages_fields h m) as (E1 & E2 & E3 & E4 & _).
  pose proof (sh_own _ _ Hs) as Ho. apply Forall_cons_iff in Ho as [Ho _].
  pose proof (share_pages_unowned h m Ho) as Hu. unfold m1.
  destruct (share_pages h m) as [m' h']. destruct Hok as (? & _ & _ & _ & ?). cbn in *.
  split; [done|]. split; [done|]. split; [unfold wf_map in *; congruence|]. auto.
Qed.

Lemma part_of_same q m m1 :
  m_data m1 = m_data m -> m_size m1 = m_size m -> m_paddr m1 = m_paddr m ->
  part_of q m1 -> part_of q m.
Proof. unfold part_of. by intros -> -> ->. Qed.

Lemma covers_same m m1 a n :
  m_size m1 = m_size m -> m_paddr m1 = m_paddr m -> covers m1 a n <-> covers m a n.
Proof. unfold covers. by intros -> ->. Qed.

Lemma covers_piece m lo sz fl pth a : covers (piece m lo sz fl pth) a 1 <-> lo <= a < lo + sz.
Proof. unfold covers. cbn. lia. Qed.

Lemma punched_intro base end_ m m1 ps :
  m_data m1 = m_data m -> m_size m1 = m_size m -> m_paddr m1 = m_paddr m -> m_flags m1 = m_flags m ->
  StronglySorted below ps ->
  Forall (fun q => outside base end_ q /\ part_of q m1 /\ m_flags q = m_flags m1) ps ->
  (forall a, covers m1 a 1 -> ~ (base <= a < end_) -> exists q, q ∈ ps /\ covers q a 1) ->
  punched base end_ [m] ps.
Proof.
  intros E1 E2 E3 E4 Hs Hps Hc. split; [done| |].
  - eapply Forall_impl; [exact Hps|]. intros q (Ho & Hp & Hf). split; [done|].
    exists m. rewrite list_elem_of_singleton. split; [done|]. split; [by eapply part_of_same|congruence].
  - intros m' a ->%list_elem_of_singleton Hcov Ha.
    destruct (Hc a) as (q & Hq & Hqc); [by apply (covers_same m)|done|].
    rewrite list.Forall_forall in Hps. destruct (Hps q Hq) as (_ & Hp & Hf).
    exists q. split; [done|]. split; [done|]. split; [by eapply part_of_same|congruence].
Qed.

Lemma punch_one_spec h base end_ m r :
  share_ok h (m :: r) -> wf_map m -> base < end_ ->
  let '(ps, dead, h') := punch_one h base end_ m in
  share_ok h' (ps ++ holders dead ++ r) /\ same_bytes h h' /\ Forall unowned dead /\
  punched base end_ [m] ps.
Proof.
  intros Hs Hw Hlt. pose proof Hw as (Hw1 & Hw2 & Hw3). unfold punch_one. rewrite uwrap_small by lia.
  destruct ((end_ <=? m_paddr m) || (m_paddr m + m_size m <=? base)) eqn:Hout.
  { split; [exact Hs|]. split; [done|]. split; [done|]. apply (punched_intro _ _ m m); try done.
    - repeat constructor.
    - apply Forall_singleton. split; [|split; [by apply part_of_refl|done]].
      apply orb_true_iff in Hout as [?|?]; zprops; unfold outside; lia.
    - intros a Ha _. exists m. split; [by apply list_elem_of_singleton|done]. }
  zprops. destruct (share_pages_facts h m r Hs Hw) as (Hs1 & Hu1 & Hw' & E1 & E2 & E3 & E4 & _).
  pose proof (share_pages_bytes h m) as Hb1.
  destruct (share_pages h m) as [m1 h1]. cbn [fst snd] in *. cbn zeta.
  set (lseg := piece m1 (m_paddr m1) (base - m_paddr m1) (m_flags m1) (m_path m1)).
  set (rseg := piece m1 end_ (m_paddr m + m_size m - end_) (m_flags m1) (m_path m1)).
  set (ps := (if m_paddr m1 <? base then [lseg] else []) ++ (if end_ <? m_paddr m + m_size m then [rseg] else [])).
  assert (Forall (fun q => outside base end_ q /\ cut_of m1 q /\ m_flags q = m_flags m1) ps /\
          StronglySorted below ps) as [Hps Hsort].
  { unfold ps, lseg, rseg. destruct (Z.ltb_spec (m_paddr m1) base), (Z.ltb_spec end_ (m_paddr m + m_size m));
      (split; [repeat (apply Forall_cons_2 || apply Forall_nil_2); (split; [unfold outside; cbn; lia|]);
               (split; [apply piece_cut; lia|done]) | repeat constructor; unfold below; cbn; lia]). }
  assert (Forall (cut_of m1) ps) as Hcuts by (eapply Forall_impl; [exact Hps|]; by intros q (_ & ? & _)).
  assert (punch_hosts : forall X, (let '(lseg0, h3) := if m_paddr m1 <? base then ([lseg], shared_copy (shared_copy h1 (m_cow m1)) (m_cow m1)) else ([], shared_copy h1 (m_cow m1)) in
            let '(rseg0, h4) := if end_ <? m_paddr m + m_size m then ([rseg], shared_copy h3 (m_cow m1)) else ([], h3) in
            (lseg0 ++ rseg0, [m1], shared_reset h4 (m_cow m1))) = X ->
          X = (ps, [m1], shared_reset (copies (S (length ps)) h1 (m_cow m1)) (m_cow m1))).
  { intros X <-. unfold ps. by destruct (m_paddr m1 <? base), (end_ <? m_paddr m + m_size m). }
  match goal with |- match ?x with _ => _ end => rewrite (punch_hosts x eq_refl) end.
  split; [|split; [|split]].
  - apply cut_keep; (done || apply Hw').
  - etrans; [exact Hb1|]. etrans; [apply copies_bytes|apply reset_bytes].
  - by apply Forall_singleton.
  - apply (punched_intro _ _ m m1); try done.
    + eapply Forall_impl; [exact Hps|]. by intros q (? & (? & _) & ?).
    + intros a Ha Hn. unfold ps, lseg, rseg. unfold covers in Ha.
      destruct (Z.lt_ge_cases a base) as [Hl|Hl].
      * exists lseg. destruct (Z.ltb_spec (m_paddr m1) base); [|lia].
        rewrite elem_of_app, list_elem_of_singleton. split; [by left|]. apply covers_piece. lia.
      * exists rseg. destruct (Z.ltb_spec end_ (m_paddr m + m_size m)); [|lia].
        rewrite elem_of_app, list_elem_of_singleton. split; [by right|]. apply covers_piece. lia.
Qed.

Lemma below_parts base end_ m r ps ps' :
  wf_maps (m :: r) -> punched base end_ [m] ps -> punched base end_ r ps' ->
  punched base end_ (m :: r) (ps ++ ps').
Proof.
  intros [_ Hs] [S1 P1 C1] [S2 P2 C2]. apply StronglySorted_inv in Hs as [_ Hall].
  rewrite list.Forall_forall in Hall, P1, P2. split.
  - apply StronglySorted_app. split; [|done]. intros q q' Hq Hq'.
    destruct (P1 q Hq) as (_ & m0 & ->%list_elem_of_singleton & Hp & _).
    destruct (P2 q' Hq') as (_ & m' & Hm' & Hp' & _).
    eapply part_of_below_l; [exact Hp|]. eapply part_of_below_r; [exact Hp'|]. by apply Hall.
  - apply list.Forall_forall. intros q [Hq|Hq]%elem_of_app.
    + destruct (P1 q Hq) as (? & m0 & ->%list_elem_of_singleton & ? & ?). split; [done|].
      exists m. split; [by constructor|done].
    + destruct (P2 q Hq) as (? & m0 & ? & ? & ?). split; [done|]. exists m0. split; [by constructor|done].
  - intros m0 a [->|Hm0]%elem_of_cons Hc Ha.
    + destruct (C1 m a) as (q & ? & ?); [by apply list_elem_of_singleton|done..|].
      exists q. rewrite elem_of_app. auto.
    + destruct (C2 m0 a) as (q & ? & ?); [done..|]. exists q. rewrite elem_of_app. auto.
Qed.

Lemma punch_loop_spec base end_ : base < end_ -> forall ml h others,
  share_ok h (ml ++ others) -> wf_maps ml ->
  let '(ps, dead, h') := punch_loop h base end_ ml in
  share_ok h' (ps ++ holders dead ++ others) /\ same_bytes h h' /\ Forall unowned dead /\
  punched base end_ ml ps.
Proof.
  intros Hlt ml. induction ml as [|m r IH]; intros h others Hs Hw; cbn [punch_loop].
  { split; [exact Hs|]. split; [done|]. split; [done|]. split; [constructor|constructor|].
    by intros m a ?%elem_of_nil. }
  pose proof Hw as [Hw1 Hw2]. apply Forall_cons_iff in Hw1 as [Hm Hr]. apply StronglySorted_inv in Hw2 as [Hw2 _].
  pose proof (punch_one_spec h base end_ m (r ++ others) Hs Hm Hlt) as H1.
  destruct (punch_one h base end_ m) as [[ps dead] h1]. destruct H1 as (Hs1 & Hb1 & Hu1 & Hp1).
  specialize (IH h1 (ps ++ holders dead ++ others)).
  destruct (punch_loop h1 base end_ r) as [[ps' dead'] h2].
  destruct IH as (Hs2 & Hb2 & Hu2 & Hp2).
  { eapply share_ok_perm; [|exact Hs1]. solve_Permutation. }
  { by split. }
  split; [|split; [by etrans|split; [by apply Forall_app|by apply below_parts]]].
  rewrite holders_app. eapply share_ok_perm; [|exact Hs2]. solve_Permutation.
Qed.

(** The view of a punched table: the hole is unmapped, the rest unchanged. *)
Lemma punched_wf base end_ ml ps : wf_maps ml -> punched base end_ ml ps -> wf_maps ps.
Proof.
  intros [Hw _] [S1 P1 _]. split; [|done]. rewrite list.Forall_forall in Hw.
  eapply Forall_impl; [exact P1|]. intros q (_ & m & Hm & Hp & _). eapply part_of_wf; [exact Hp|]. by apply Hw.
Qed.

Lemma punched_seg_at base end_ ml ps a :
  wf_maps ml -> punched base end_ ml ps -> 0 <= a < 2 ^ 64 ->
  seg_at ps a = if (base <=? a) && (a <? end_) then None else seg_at ml a.
Proof.
  intros Hw Hp Ha. pose proof (punched_wf _ _ _ _ Hw Hp) as Hwp. destruct Hp as [S1 P1 C1].
  rewrite list.Forall_forall in P1. destruct (_ && _) eqn:Hin.
  - zprops. apply seg_at_None; [done..|]. intros q Hq Hc. destruct (P1 q Hq) as (Ho & _).
    unfold outside, covers in *. lia.
  - apply andb_false_iff in Hin. rewrite Z.leb_gt, Z.ltb_ge in Hin.
    apply seg_at_ext; [done..|]. intros x. split.
    + intros (q & Hq & Hc & ->). destruct (P1 q Hq) as (_ & m & Hm & Hp & Hf).
      exists m. split; [done|]. split; [by eapply part_of_covers|]. by rewrite (part_of_host q m), Hf.
    + intros (m & Hm & Hc & ->). destruct (C1 m a Hm Hc) as (q & Hq & Hqc & Hp & Hf); [lia|].
      exists q. split; [done|]. split; [done|]. by rewrite (part_of_host q m), Hf.
Qed.

Lemma punched_outside base end_ ml ps : punched base end_ ml ps -> Forall (outside base end_) ps.
Proof. intros [_ P _]. eapply Forall_impl; [exact P|]. by intros q (? & _). Qed.

Lemma punch_hole_spec h ml others base end_ :
  share_ok h (ml ++ others) -> wf_maps ml -> base < end_ ->
  let '(ps, h') := punch_hole h ml base end_ in
  share_ok h' (ps ++ others) /\ same_bytes h h' /\ punched base end_ ml ps.
Proof.
  intros Hs Hw Hlt. unfold punch_hole. pose proof (punch_loop_spec base end_ Hlt ml h others Hs Hw) as H.
  destruct (punch_loop h base end_ ml) as [[ps dead] h1]. destruct H as (Hs1 & Hb1 & Hu & Hp).
  split; [|split; [|done]].
  - rewrite (destroy_holders dead h1 Hu). apply share_ok_drop_all.
    eapply share_ok_perm; [|exact Hs1]. solve_Permutation.
  - etrans; [exact Hb1|apply destroy_all_bytes].
Qed.

(** ** mmap: lemmas *)

Lemma andnot_page x : 0 <= x -> andnot x (PAGE - 1) = x - x mod PAGE.
Proof.
  intros Hx. unfold andnot, PAGE. change (0x1000 - 1) with (Z.ones 12).
  rewrite Z.ldiff_ones_r, Z.shiftl_mul_pow2, Z.shiftr_div_pow2 by lia.
  change (2 ^ 12) with 4096. pose proof (Z.div_mod x 4096 ltac:(lia)). lia.
Qed.

Lemma page_up_aligned x : page_up x mod PAGE = 0.
Proof.
  unfold page_up. rewrite andnot_page by apply u64_range. unfold PAGE.
  set (y := u64 (x + 0x1000 - 1)). pose proof (Z.div_mod y 0x1000 ltac:(lia)) as H.
  replace (y - y mod 0x1000) with (y / 0x1000 * 0x1000) by lia. apply Z_mod_mult.
Qed.

Lemma page_up_bounds x : 0 <= x -> x + PAGE - 1 < 2 ^ 64 -> x <= page_up x < x + PAGE.
Proof.
  intros Hx Hr. unfold page_up. rewrite uwrap_small by (unfold PAGE in *; lia).
  rewrite andnot_page by (unfold PAGE in *; lia). unfold PAGE in *.
  pose proof (Z.mod_pos_bound (x + 0x1000 - 1) 0x1000 ltac:(lia)). lia.
Qed.

Lemma page_up_range x : 0 <= page_up x < 2 ^ 64.
Proof.
  unfold page_up. pose proof (u64_range (x + PAGE - 1)) as Hr. rewrite andnot_page by lia.
  set (y := u64 _) in *. unfold PAGE. pose proof (Z.mod_pos_bound y 0x1000 ltac:(lia)).
  pose proof (Z.mod_le y 0x1000 ltac:(lia) ltac:(lia)). lia.
Qed.

Lemma insert_map_perm mp ms : insert_map mp ms ≡ₚ mp :: ms.
Proof.
  induction ms as [|x r IH]; [done|]. cbn. destruct (_ <? _); [|done].
  rewrite IH. apply Permutation_swap.
Qed.

(** Every segment of a sorted table ends at or before the last one does. *)
Lemma last_bound ms back mp :
  wf_maps ms -> last ms = Some back -> mp ∈ ms ->
  m_paddr mp + m_size mp <= m_paddr back + m_size back.
Proof.
  intros [Hw Hs] Hl Hin. apply last_Some in Hl as (l & ->).
  apply elem_of_app in Hin as [Hin|Hin]; [|apply list_elem_of_singleton in Hin; subst; lia].
  apply StronglySorted_app in Hs as [Hs _]. specialize (Hs mp back Hin ltac:(by apply list_elem_of_singleton)).
  apply Forall_app in Hw as [_ Hw]. apply Forall_cons_iff in Hw as [(_ & ? & _) _]. unfold below in Hs. lia.
Qed.

Section MmapFacts.
Context {env : HostEnv}.
Variable find_fd : Z -> option (Z * string).
Variable host_file : Z -> Z -> Z -> Z.

Lemma host_mmap_fd_facts h prot fd off :
  let '(p, h1) := host_mmap_fd host_file h prot fd off in
  p = (h_next h, 0) /\ h_next h1 = h_next h + 1 /\ host_extends h h1 /\
  h_cbs h1 = h_cbs h /\ h_cbnext h1 = h_cbnext h /\ h_unmapped h1 = h_unmapped h /\
  forall j, h_bytes h1 (h_next h) j = if fd =? -1 then 0 else host_file fd off j mod 256.
Proof.
  unfold host_mmap_fd. cbn [host_mmap]. destruct (fd =? -1); cbn; split_and!; try done.
  - apply host_mmap_extends.
  - intros j. by rewrite upd_block_same.
  - split; cbn; [lia| |].
    + intros b o Hb. rewrite !upd_block_ne by lia. done.
    + intros Hok b o. cbn. unfold upd_block.
      destruct (b =? h_next h); [apply Z.mod_pos_bound; lia|apply Hok].
  - intros j. by rewrite upd_block_same.
Qed.

(** Why [mmap] can be refused. *)
Inductive mmap_refused (m : mmem) (addr len flags fd : Z) : Z -> Prop :=
| mr_len : len = 0 -> mmap_refused m addr len flags fd (- EINVAL)
| mr_align : nz (Z.land flags MAP_FIXED) = true -> addr mod PAGE <> 0 -> mmap_refused m addr len flags fd (- EINVAL)
| mr_fd : nz (Z.land flags MAP_ANONYMOUS) = false -> find_fd fd = None -> mmap_refused m addr len flags fd (- EBADF)
| mr_host : env_mmap_fails (hst m) len = true -> mmap_refused m addr len flags fd (- env_errno (hst m)).

(** The host descriptor mapped: none for an anonymous mapping. *)
Definition mmap_source (flags fd : Z) : Z :=
  if nz (Z.land flags MAP_ANONYMOUS) then -1 else from_option fst (-1) (find_fd fd).

(** [len] bytes at [base] were mapped; every other address is as before. *)
Record mapped (others : list memmap) (m m' : mmem) (base len prot src off : Z) : Prop := {
  mp_wf : mem_wf m';
  mp_host : host_extends (hst m) (hst m');
  mp_share : share_ok (hst m') (maps m' ++ others);
  mp_new : forall a, base <= a < base + len ->
    gbyte m' a = Some (if src =? -1 then 0 else host_file src off (a - base) mod 256) /\
    snd <$> seg_at (maps m') a = Some (flags_of_prot prot);
  mp_old : forall a, 0 <= a < 2 ^ 64 -> ~ (base <= a < base + len) ->
    gbyte m' a = gbyte m a /\ seg_at (maps m') a = seg_at (maps m) a
}.

(** Common part of the two placements: [ms] is the table without the hole. *)
Lemma mapped_intro others m base len prot src off path ms p h1 h2 :
  mem_wf m -> host_mmap_fd host_file (hst m) prot src off = (p, h1) ->
  0 <= base -> 0 < len -> base + len < 2 ^ 64 ->
  wf_maps ms -> Forall (outside base (base + len)) ms -> same_bytes h1 h2 ->
  (forall q, q ∈ ms -> exists m0, m0 ∈ maps m /\ part_of q m0) ->
  (forall a, 0 <= a < 2 ^ 64 -> ~ (base <= a < base + len) -> seg_at ms a = seg_at (maps m) a) ->
  let mp := mkmap p (mkDeleter len true) len base (flags_of_prot prot) None path in
  share_ok h2 (ms ++ mp :: others) ->
  mapped others m (mkmmem ∅ (insert_map mp ms) h2) base len prot src off.
Proof.
  intros Hwf Hm Hb0 Hl Hr Hms Hout [Hby Hnx] Hparts Hold mp Hshare.
  pose proof (host_mmap_fd_facts (hst m) prot src off) as Hf. rewrite Hm in Hf.
  destruct Hf as (-> & Hnext & Hext & Hcb & Hcn & Hun & Hbytes).
  assert (wf_maps (insert_map mp ms)) as Hwi.
  { apply insert_map_wf; [done|unfold wf_map; cbn; lia|]. eapply Forall_impl; [exact Hout|].
    unfold outside, below. cbn. lia. }
  assert (host_extends (hst m) h2) as Hext2.
  { etrans; [exact Hext|]. by apply host_extends_same_bytes. }
  assert (blocks_ok h2 ms) as Hblk.
  { apply list.Forall_forall. intros q Hq. destruct (Hparts q Hq) as (m0 & Hm0 & (_ & _ & _ & Hd)).
    rewrite Hd. cbn. pose proof (mwf_blocks _ Hwf) as Hb. unfold blocks_ok in Hb.
    rewrite list.Forall_forall in Hb. specialize (Hb m0 Hm0). lia. }
  assert (forall a, 0 <= a < 2 ^ 64 -> seg_at (insert_map mp ms) a =
    if (base <=? a) && (a <? base + len) then Some ((h_next (hst m), a - base), flags_of_prot prot) else seg_at ms a) as Hseg.
  { intros a Ha. rewrite seg_at_insert by done. done. }
  split; cbn [maps hst tlb].
  - apply (flush_tlb_wf (mkmmem ∅ (insert_map mp ms) h2)); cbn; [done| |apply Hext2, Hwf].
    unfold blocks_ok. rewrite insert_map_perm. constructor; [cbn; lia|done].
  - done.
  - rewrite insert_map_perm. eapply share_ok_perm; [|exact Hshare]. solve_Permutation.
  - intros a Ha. rewrite Hseg by lia.
    assert ((base <=? a) && (a <? base + len) = true) as E by (zcases; lia || done).
    split; [|by rewrite E]. unfold gbyte. cbn [maps hst]. rewrite translate_seg_at, Hseg, E by lia. cbn.
    by rewrite Hby, Hbytes.
  - intros a Ha Hn.
    assert ((base <=? a) && (a <? base + len) = false) as E by (zcases; lia || done).
    assert (seg_at (insert_map mp ms) a = seg_at (maps m) a) as Hsa by (rewrite Hseg, E by done; by apply Hold).
    split; [|exact Hsa]. change (gbyte m a) with (gbyte_in (hst m) (maps m) a).
    rewrite <- (gbyte_in_extends (hst m) h2 (maps m)) by (done || apply Hwf).
    apply (gbyte_in_seg_at h2 h2); [done|]. cbn [maps]. by rewrite Hsa.
Qed.

(** The two outcomes of [do_mmap]. *)
Inductive mmap_outcome (others : list memmap) (m : mmem) (addr len prot flags fd off : Z) : Z -> mmem -> Prop :=
| mo_refused rc : mmap_refused m addr len flags fd rc -> mmap_outcome others m addr len prot flags fd off rc m
| mo_fixed m' :
    nz (Z.land flags MAP_FIXED) = true -> addr mod PAGE = 0 ->
    mapped others m m' addr len prot (mmap_source flags fd) off ->
    mmap_outcome others m addr len prot flags fd off (s64 addr) m'
| mo_chosen m' base back :
    nz (Z.land flags MAP_FIXED) = false -> last (maps m) = Some back ->
    base = page_up (m_paddr back + m_size back) -> base mod PAGE = 0 ->
    (forall a, base <= a < base + len -> seg_at (maps m) a = None) ->
    mapped others m m' base len prot (mmap_source flags fd) off ->
    mmap_outcome others m addr len prot flags fd off (s64 base) m'.

(** The request fits into the guest address space. *)
Definition mmap_fits (m : mmem) (addr len flags : Z) : Prop :=
  if nz (Z.land flags MAP_FIXED) then addr + len < 2 ^ 64
  else forall back, last (maps m) = Some back -> page_up (m_paddr back + m_size back) + len < 2 ^ 64 /\
                    m_paddr back + m_size back + PAGE - 1 < 2 ^ 64.

Lemma mmap_fresh_share others m prot src off p h1 len base path :
  mem_wf m -> share_ok (hst m) (maps m ++ others) -> host_mmap_fd host_file (hst m) prot src off = (p, h1) ->
  share_ok h1 (maps m ++ mkmap p (mkDeleter len true) len base (flags_of_prot prot) None path :: others).
Proof.
  intros Hwf Hs Hm. pose proof (host_mmap_fd_facts (hst m) prot src off) as Hf. rewrite Hm in Hf.
  destruct Hf as (-> & Hnext & Hext & Hcb & Hcn & Hun & _).
  eapply share_ok_perm; [|apply (share_ok_fresh (hst m)); [exact Hs|exact Hcb|exact Hcn|exact Hun|..]];
    [apply Permutation_middle|cbn; lia|done|done].
Qed.

Lemma mmap_fixed_spec others m addr len prot src off path p h1 :
  mem_wf m -> share_ok (hst m) (maps m ++ others) -> 0 <= addr -> 0 < len -> addr + len < 2 ^ 64 ->
  host_mmap_fd host_file (hst m) prot src off = (p, h1) ->
  let '(ml, h2) := punch_hole h1 (maps m) addr (addr + len) in
  mapped others m (mkmmem ∅ (insert_map (mkmap p (mkDeleter len true) len addr (flags_of_prot prot) None path) ml) h2)
         addr len prot src off.
Proof.
  intros Hwf Hs Ha Hl Hr Hm. set (mp := mkmap _ _ _ _ _ _ _).
  assert (wf_maps (maps m)) as Hw by apply Hwf.
  pose proof (mmap_fresh_share others m prot src off p h1 len addr path Hwf Hs Hm) as Hs1.
  pose proof (punch_hole_spec h1 (maps m) (mp :: others) addr (addr + len) Hs1 Hw ltac:(lia)) as Hph.
  destruct (punch_hole h1 (maps m) addr (addr + len)) as [ml h2]. destruct Hph as (Hs2 & Hb & Hp).
  apply (mapped_intro others m addr len prot src off path ml p h1 h2); auto.
  - by eapply punched_wf.
  - by eapply punched_outside.
  - intros q Hq. destruct Hp as [_ P _]. rewrite list.Forall_forall in P. destruct (P q Hq) as (_ & m0 & ? & ? & _). eauto.
  - intros a Ha' Hn. rewrite (punched_seg_at _ _ _ _ _ Hw Hp Ha').
    assert ((addr <=? a) && (a <? addr + len) = false) as -> by (zcases; lia || done). done.
Qed.

Lemma mmap_chosen_spec others m back len prot src off path p h1 :
  mem_wf m -> share_ok (hst m) (maps m ++ others) -> last (maps m) = Some back -> 0 < len ->
  let base := page_up (m_paddr back + m_size back) in
  base + len < 2 ^ 64 -> m_paddr back + m_size back + PAGE - 1 < 2 ^ 64 ->
  host_mmap_fd host_file (hst m) prot src off = (p, h1) ->
  mapped others m (mkmmem ∅ (insert_map (mkmap p (mkDeleter len true) len base (flags_of_prot prot) None path) (maps m)) h1)
         base len prot src off /\
  (forall a, base <= a < base + len -> seg_at (maps m) a = None).
Proof.
  intros Hwf Hs Hlast Hl base Hr Hr' Hm. assert (wf_maps (maps m)) as Hw by apply Hwf.
  assert (Forall (fun q => m_paddr q + m_size q <= base) (maps m)) as Hall.
  { apply list.Forall_forall. intros q Hq. pose proof (last_bound _ _ _ Hw Hlast Hq).
    assert (back ∈ maps m) as Hin by (apply last_Some in Hlast as (l & ->); set_solver).
    apply list_elem_of_lookup in Hin as [i Hi]. pose proof (wf_map_lookup _ _ _ Hw Hi) as (? & ? & ?).
    pose proof (page_up_bounds (m_paddr back + m_size back) ltac:(lia) Hr'). unfold base. lia. }
  pose proof (page_up_range (m_paddr back + m_size back)) as Hbr. fold base in Hbr. split.
  - apply (mapped_intro others m base len prot src off path (maps m) p h1 h1); auto.
    + lia.
    + eapply Forall_impl; [exact Hall|]. intros q Hq. by left.
    + done.
    + intros q Hq. exists q. split; [done|]. apply part_of_refl. apply list_elem_of_lookup in Hq as [i Hi].
      by destruct (wf_map_lookup _ _ _ Hw Hi) as (_ & ? & _).
    + by eapply mmap_fresh_share.
  - intros a Ha. apply seg_at_None; [done|lia|]. intros q Hq Hc. rewrite list.Forall_forall in Hall.
    specialize (Hall q Hq). unfold covers in Hc. lia.
Qed.

Lemma mmap_mem_spec others m addr len0 prot flags fd off :
  mem_wf m -> share_ok (hst m) (maps m ++ others) -> maps m <> [] -> 0 <= addr ->
  let len := page_up len0 in
  mmap_fits m addr len flags ->
  exists rc m', mmap_mem find_fd host_file m addr len0 prot flags fd off = Some (rc, m') /\
    mmap_outcome others m addr len prot flags fd off rc m'.
Proof.
  intros Hwf Hs Hne Ha len Hfits. unfold mmap_mem. fold len.
  pose proof (page_up_range len0) as Hlr. fold len in Hlr.
  destruct (Z.eqb_spec len 0) as [Hl|Hl]; [eauto 10 using mo_refused, mr_len|].
  unfold mmap_fits in Hfits. destruct (nz (Z.land flags MAP_FIXED)) eqn:Hfx; cbn [andb].
  - destruct (Z.eqb_spec (addr mod PAGE) 0) as [Hal|Hal]; cbn [negb]; [|eauto 10 using mo_refused, mr_align].
    assert (forall src path, mmap_source flags fd = src -> exists rc m',
      (if env_mmap_fails (hst m) len then Some (- env_errno (hst m), m)
       else let '(p, h1) := host_mmap_fd host_file (hst m) prot src off in
            let '(ml, h2) := punch_hole (hst (set_host m h1)) (maps (set_host m h1)) addr (u64 (addr + len)) in
            Some (s64 addr, flush_tlb (addmem (flush_tlb (mkmmem (tlb (set_host m h1)) ml h2))
              (mkmap p (mkDeleter len true) len addr (flags_of_prot prot) None path)))) = Some (rc, m') /\
      mmap_outcome others m addr len prot flags fd off rc m') as Hgo.
    { intros src path Hsrc. destruct (env_mmap_fails (hst m) len) eqn:He; [eauto 10 using mo_refused, mr_host|].
      destruct (host_mmap_fd host_file (hst m) prot src off) as [p h1] eqn:Hm. cbn [set_host hst maps tlb].
      rewrite (uwrap_small 64) by lia.
      pose proof (mmap_fixed_spec others m addr len prot src off path p h1 Hwf Hs Ha ltac:(lia) Hfits Hm) as Hmp.
      destruct (punch_hole h1 (maps m) addr (addr + len)) as [ml h2].
      eexists _, _. split; [reflexivity|]. apply mo_fixed; [done|done|]. rewrite Hsrc. exact Hmp. }
    destruct (nz (Z.land flags MAP_ANONYMOUS)) eqn:Han; cbn [negb].
    + apply Hgo. unfold mmap_source. by rewrite Han.
    + destruct (find_fd fd) as [[src path]|] eqn:Hfd; [|eauto 10 using mo_refused, mr_fd].
      apply Hgo. unfold mmap_source. by rewrite Han, Hfd.
  - destruct (last (maps m)) as [back|] eqn:Hback; [|by apply last_None in Hback].
    destruct (Hfits back eq_refl) as [Hr1 Hr2].
    assert (back ∈ maps m) as Hin by (apply last_Some in Hback as (l & ->); set_solver).
    apply list_elem_of_lookup in Hin as [i Hi]. pose proof (wf_map_lookup _ _ _ (mwf_maps _ Hwf) Hi) as (? & ? & ?).
    assert (forall src path, mmap_source flags fd = src -> exists rc m',
      (if env_mmap_fails (hst m) len then Some (- env_errno (hst m), m)
       else let '(p, h1) := host_mmap_fd host_file (hst m) prot src off in
            match last (maps (set_host m h1)) with
            | None => None
            | Some b => Some (s64 (page_up (u64 (m_paddr b + m_size b))),
                flush_tlb (mkmmem (tlb (set_host m h1)) (insert_map
                  (mkmap p (mkDeleter len true) len (page_up (u64 (m_paddr b + m_size b))) (flags_of_prot prot) None path)
                  (maps (set_host m h1))) (hst (set_host m h1))))
            end) = Some (rc, m') /\
      mmap_outcome others m addr len prot flags fd off rc m') as Hgo.
    { intros src path Hsrc. destruct (env_mmap_fails (hst m) len) eqn:He; [eauto 10 using mo_refused, mr_host|].
      destruct (host_mmap_fd host_file (hst m) prot src off) as [p h1] eqn:Hm. cbn [set_host hst maps tlb].
      rewrite Hback. rewrite (uwrap_small 64) by lia.
      pose proof (mmap_chosen_spec others m back len prot src off path p h1 Hwf Hs Hback ltac:(lia) Hr1 Hr2 Hm) as [Hmp Hfree].
      eexists _, _. split; [reflexivity|]. eapply mo_chosen; [done|done|done|apply page_up_aligned|exact Hfree|].
      rewrite Hsrc. exact Hmp. }
    destruct (nz (Z.land flags MAP_ANONYMOUS)) eqn:Han; cbn [negb].
    + apply Hgo. unfold mmap_source. by rewrite Han.
    + destruct (find_fd fd) as [[src path]|] eqn:Hfd; [|eauto 10 using mo_refused, mr_fd].
      apply Hgo. unfold mmap_source. by rewrite Han, Hfd.
Qed.

End MmapFacts.

(** ** munmap: lemmas *)

Lemma erase_map_none addr ms : erase_map addr ms = None -> forall mp, mp ∈ ms -> m_paddr mp <> addr.
Proof.
  induction ms as [|x r IH]; cbn; intros He mp Hin; [by apply elem_of_nil in Hin|].
  destruct (Z.eqb_spec addr (m_paddr x)); [done|].
  destruct (erase_map addr r) as [[y r']|]; [done|].
  apply elem_of_cons in Hin as [->|Hin]; [congruence|by apply IH].
Qed.

Lemma erase_map_split addr ms x r :
  erase_map addr ms = Some (x, r) -> exists l1 l2, ms = l1 ++ x :: l2 /\ r = l1 ++ l2 /\ m_paddr x = addr.
Proof.
  revert r. induction ms as [|y l IH]; cbn; intros r He; [done|].
  destruct (Z.eqb_spec addr (m_paddr y)) as [E|]; [injection He as <- <-; by exists [], l|].
  destruct (erase_map addr l) as [[z r']|] eqn:Hr; [|done]. injection He as <- <-.
  destruct (IH r' eq_refl) as (l1 & l2 & -> & -> & Hx). by exists (y :: l1), l2.
Qed.

Lemma sorted_middle l1 x l2 :
  StronglySorted below (l1 ++ x :: l2) -> forall q, q ∈ l1 ++ l2 -> below q x \/ below x q.
Proof.
  intros Hs q [Hq|Hq]%elem_of_app; apply StronglySorted_app in Hs as (H1 & _ & H2).
  - left. apply H1; [done|by constructor].
  - right. apply StronglySorted_inv in H2 as [_ Hall]. rewrite list.Forall_forall in Hall. auto.
Qed.

Lemma unmap_spec m others addr :
  mem_wf m -> share_ok (hst m) (maps m ++ others) ->
  match unmap m addr with
  | (true, m') => mem_wf m' /\ same_bytes (hst m) (hst m') /\ share_ok (hst m') (maps m' ++ others) /\
      exists mp, mp ∈ maps m /\ m_paddr mp = addr /\
        forall a, 0 <= a < 2 ^ 64 -> seg_at (maps m') a =
          if (addr <=? a) && (a <? addr + m_size mp) then None else seg_at (maps m) a
  | (false, m') => m' = m /\ forall mp, mp ∈ maps m -> m_paddr mp <> addr
  end.
Proof.
  intros Hwf Hs. pose proof (unmap_wf m addr Hwf) as Hwf'. unfold unmap in *.
  destruct (erase_map addr (maps m)) as [[x r]|] eqn:He; [|split; [done|by apply erase_map_none]].
  destruct (erase_map_split _ _ _ _ He) as (l1 & l2 & Hms & -> & Hx). cbn [flush_tlb maps hst snd] in *.
  split; [done|]. split; [apply destroy_bytes|]. split.
  { apply share_ok_drop. rewrite Hms in Hs. eapply share_ok_perm; [|exact Hs]. solve_Permutation. }
  assert (x ∈ maps m) as Hxin by (rewrite Hms; set_solver).
  exists x. split; [done|]. split; [done|]. intros a Ha.
  assert (wf_maps (maps m)) as Hw by apply Hwf. assert (wf_maps (l1 ++ l2)) as Hwr by apply Hwf'.
  assert (forall q, q ∈ l1 ++ l2 -> covers q a 1 -> ~ covers x a 1) as Hdis.
  { intros q Hq Hcq Hcx. destruct Hw as [_ Hsort]. rewrite Hms in Hsort.
    destruct (sorted_middle _ _ _ Hsort q Hq); unfold below, covers in *; lia. }
  destruct (_ && _) eqn:Hin.
  - zprops. apply seg_at_None; [done..|]. intros q Hq Hc. apply (Hdis q Hq Hc). unfold covers. lia.
  - apply andb_false_iff in Hin. rewrite Z.leb_gt, Z.ltb_ge in Hin.
    apply seg_at_ext; [done..|]. intros y. split.
    + intros (q & Hq & Hc & Hy). exists q. split; [rewrite Hms; set_solver|done].
    + intros (q & Hq & Hc & Hy). exists q. split; [|done]. rewrite Hms in Hq.
      apply elem_of_app in Hq as [Hq|Hq]; [set_solver|].
      apply elem_of_cons in Hq as [->|Hq]; [unfold covers in Hc; lia|set_solver].
Qed.

(** ** mprotect: lemmas *)

Section MprotectFacts.
Context {env : HostEnv}.
Variables (lo hi prot nf : Z).
Hypothesis Hrange : 0 <= lo < hi /\ hi < 2 ^ 64.
Hypothesis Hnf : Z.land nf kProtMask = nf.

Abbreviation newf := (new_seg_flags nf).
Abbreviation exec f := (nz (Z.land f PF_X)).

Definition overlaps (m : memmap) : Prop := m_paddr m < hi /\ lo < m_paddr m + m_size m.
Definition inside (m : memmap) : Prop := lo <= m_paddr m /\ m_paddr m + m_size m <= hi.

(** The segment is as [mprotect] leaves it. *)
Definition settled (m : memmap) : Prop := overlaps m -> inside m /\ Z.land (m_flags m) kProtMask = nf.

(** The segment sticks out of the range: it has to be cut. *)
Definition sticks_out (m : memmap) : bool :=
  mp_overlap lo hi m && negb ((lo <=? m_paddr m) && (u64 (m_paddr m + m_size m) <=? hi)).

Lemma mp_overlap_spec m : wf_map m -> mp_overlap lo hi m = true <-> overlaps m.
Proof.
  intros (? & ? & ?). unfold mp_overlap, overlaps. rewrite uwrap_small by lia.
  rewrite negb_true_iff, orb_false_iff, !Z.leb_gt. lia.
Qed.

Lemma newf_land f : Z.land (newf f) kProtMask = nf.
Proof.
  unfold new_seg_flags, andnot. apply Z.bits_inj'. intros i Hi.
  rewrite Z.land_spec, Z.lor_spec, Z.ldiff_spec.
  assert (Z.testbit nf i = Z.testbit nf i && Z.testbit kProtMask i) as E.
  { rewrite <- Z.land_spec. by rewrite Hnf. }
  rewrite E. by destruct (Z.testbit f i), (Z.testbit kProtMask i), (Z.testbit nf i).
Qed.

Lemma newf_fix f : Z.land f kProtMask = nf -> newf f = f.
Proof.
  intros Hf. unfold new_seg_flags, andnot. apply Z.bits_inj'. intros i Hi.
  rewrite Z.lor_spec, Z.ldiff_spec, <- Hf, Z.land_spec.
  by destruct (Z.testbit f i), (Z.testbit kProtMask i).
Qed.

Lemma newf_idem f : newf (newf f) = newf f.
Proof. apply newf_fix, newf_land. Qed.

Lemma exec_bit f : exec f = Z.testbit f 0.
Proof. exact (nz_land_pow2 f 0 ltac:(lia)). Qed.

Lemma newf_exec f : exec (newf f) = exec nf.
Proof.
  rewrite !exec_bit. unfold new_seg_flags, andnot. rewrite Z.lor_spec, Z.ldiff_spec.
  change (Z.testbit kProtMask 0) with true. by rewrite andb_false_r.
Qed.

(** What the loop does to one segment. *)
Record reflagged (m : memmap) (ps : list memmap) : Prop := {
  rf_sorted : StronglySorted below ps;
  rf_parts : Forall (fun q => part_of q m /\
    ((m_flags q = m_flags m) \/
     (inside q /\ m_flags q = newf (m_flags m) /\ (exec (m_flags m) = true -> exec nf = true)))) ps;
  rf_cover : forall a, covers m a 1 -> exists q, q ∈ ps /\ covers q a 1
}.

Inductive body_ok (h : host) (m : memmap) (r : list memmap) : mp_action -> Prop :=
| bo_skip : settled m -> body_ok h m r MpSkip
| bo_return rc m' h' :
    share_ok h' (m' :: r) -> same_bytes h h' -> same_range m m' -> m_data m' = m_data m ->
    m_flags m' = m_flags m -> overlaps m ->
    ((rc = - EACCES /\ exec (m_flags m) = true /\ exec nf = false) \/
     exists h1 p n, rc = - env_errno h1 /\ env_mprotect_fails h1 p n prot = true) ->
    body_ok h m r (MpReturn rc m' h')
| bo_split ps h' :
    share_ok h' (ps ++ r) -> same_bytes h h' -> reflagged m ps -> overlaps m ->
    sticks_out m = true -> Forall (fun q => sticks_out q = false) ps -> (length ps <= 3)%nat ->
    body_ok h m r (MpSplit ps h')
| bo_update m' h' :
    share_ok h' (m' :: r) -> same_bytes h h' -> reflagged m [m'] -> overlaps m ->
    settled m' -> sticks_out m' = sticks_out m -> body_ok h m r (MpUpdate m' h').

Lemma sticks_out_false m :
  wf_map m -> (overlaps m -> inside m) -> sticks_out m = false.
Proof.
  intros Hw Hi. unfold sticks_out. destruct (mp_overlap lo hi m) eqn:Ho; [|done].
  apply mp_overlap_spec in Ho; [|done]. destruct (Hi Ho) as [H1 H2]. destruct Hw as (? & ? & ?).
  rewrite uwrap_small by lia. zcases; (done || lia).
Qed.

Lemma sticks_out_true m :
  wf_map m -> overlaps m -> m_paddr m < lo \/ hi < m_paddr m + m_size m -> sticks_out m = true.
Proof.
  intros Hw Ho Hs. unfold sticks_out. apply (mp_overlap_spec m Hw) in Ho as ->. destruct Hw as (? & ? & ?).
  rewrite uwrap_small by lia. zcases; (done || lia).
Qed.

Lemma mp_split_ok h m r :
  share_ok h (m :: r) -> wf_map m -> overlaps m -> m_paddr m < lo \/ hi < m_paddr m + m_size m ->
  (exec (m_flags m) = true -> exec nf = true) ->
  body_ok h m r (mp_split prot nf h m (Z.max lo (m_paddr m)) (Z.min hi (m_paddr m + m_size m))).
Proof.
  intros Hs Hw Ho Hout Hx. pose proof Hw as (Hw1 & Hw2 & Hw3). pose proof Ho as [Ho1 Ho2].
  unfold mp_split. rewrite uwrap_small by lia.
  destruct (share_pages_facts h m r Hs Hw) as (Hs1 & Hu1 & Hw' & E1 & E2 & E3 & E4 & _).
  pose proof (share_pages_bytes h m) as Hb1.
  destruct (share_pages h m) as [m1 h1]. cbn [fst snd] in *. cbn zeta.
  set (slo := Z.max lo (m_paddr m)). set (shi := Z.min hi (m_paddr m + m_size m)).
  set (lseg := piece m1 (m_paddr m1) (slo - m_paddr m1) (m_flags m1) EmptyString).
  set (mid := piece m1 slo (shi - slo) (newf (m_flags m1)) EmptyString).
  set (rseg := piece m1 shi (m_paddr m + m_size m - shi) (m_flags m1) EmptyString).
  set (ls := if m_paddr m1 <? slo then [lseg] else []).
  set (rs := if shi <? m_paddr m + m_size m then [rseg] else []).
  set (ps := ls ++ [mid] ++ rs).
  assert (Forall (cut_of m1) ps /\ StronglySorted below ps /\ (length ps <= 3)%nat) as (Hcuts & Hsort & Hlen).
  { unfold ps, ls, rs, lseg, rseg, mid.
    destruct (Z.ltb_spec (m_paddr m1) slo), (Z.ltb_spec shi (m_paddr m + m_size m)); cbn [app length];
      (split; [repeat (apply Forall_cons_2 || apply Forall_nil_2); apply piece_cut; lia|]);
      (split; [repeat constructor; unfold below; cbn; lia|lia]). }
  assert (forall A (f : list memmap -> host -> list memmap -> host -> A),
    (let '(l, h3) := if m_paddr m1 <? slo then ([lseg], shared_copy (shared_copy h1 (m_cow m1)) (m_cow m1))
                     else ([], shared_copy h1 (m_cow m1)) in
     let h4 := shared_copy h3 (m_cow m1) in
     let '(rr, h5) := if shi <? m_paddr m + m_size m then ([rseg], shared_copy h4 (m_cow m1)) else ([], h4) in
     f l h3 rr h5) = f ls (copies (S (length ls)) h1 (m_cow m1)) rs (copies (S (length ps)) h1 (m_cow m1))) as Hhosts.
  { intros A f. unfold ps, ls, rs. by destruct (m_paddr m1 <? slo), (shi <? m_paddr m + m_size m). }
  rewrite (Hhosts mp_action (fun l h3 rr h5 => if del_owned (m_deleter m) && env_mprotect_fails h5 (m_data mid) (m_size mid) prot
    then MpReturn (- env_errno h5) m1 (shared_reset (fold_left destroy_map (rr ++ [mid] ++ l) h5) (m_cow m1))
    else MpSplit (l ++ [mid] ++ rr) (shared_reset (destroy_map (if del_owned (m_deleter m)
      then host_mprotect h5 (m_data mid) (m_size mid) prot else h5) m1) (m_cow m1)))). clear Hhosts.
  pose proof (copies_bytes (S (length ps)) h1 (m_cow m1)) as Hb2.
  set (h5 := copies (S (length ps)) h1 (m_cow m1)) in *.
  destruct (_ && _) eqn:Hfail.
  - zprops. apply bo_return; try done.
    + apply cut_cancel; try done; [apply Hw'|]. unfold ps. solve_Permutation.
    + etrans; [exact Hb1|]. etrans; [exact Hb2|]. etrans; [apply destroy_all_bytes|apply reset_bytes].
    + right. eauto 10.
  - fold ps. apply bo_split; try done.
    + apply (cut_commit h1); try done; try apply Hw'; destruct (del_owned (m_deleter m)); try done; apply Hb2.
    + etrans; [exact Hb1|]. etrans; [exact Hb2|]. etrans; [|apply reset_bytes]. etrans; [|apply destroy_bytes].
      by destruct (del_owned _).
    + split; [done| |].
      * rewrite list.Forall_forall in Hcuts. apply list.Forall_forall. intros q Hq.
        split; [by destruct (Hcuts q Hq) as (Hp & _); eapply part_of_same|].
        unfold ps in Hq. rewrite !elem_of_app, list_elem_of_singleton in Hq.
        destruct Hq as [Hq|[->|Hq]].
        -- left. unfold ls in Hq. destruct (m_paddr m1 <? slo); [|by apply elem_of_nil in Hq].
           apply list_elem_of_singleton in Hq as ->. exact E4.
        -- right. split; [unfold inside, mid; cbn; lia|]. split; [cbn; by rewrite E4|done].
        -- left. unfold rs in Hq. destruct (shi <? m_paddr m + m_size m); [|by apply elem_of_nil in Hq].
           apply list_elem_of_singleton in Hq as ->. exact E4.
      * intros a Hc. unfold covers in Hc. unfold ps, ls, rs.
        destruct (Z.lt_ge_cases a slo) as [H1|H1]; [|destruct (Z.lt_ge_cases a shi) as [H2|H2]].
        -- exists lseg. destruct (Z.ltb_spec (m_paddr m1) slo); [|lia]. split; [by constructor|].
           apply covers_piece. lia.
        -- exists mid. split; [set_solver|]. apply covers_piece. lia.
        -- exists rseg. destruct (Z.ltb_spec shi (m_paddr m + m_size m)); [|lia]. split; [set_solver|].
           apply covers_piece. lia.
    + by apply sticks_out_true.
    + rewrite list.Forall_forall in Hcuts. apply list.Forall_forall. intros q Hq.
      assert (wf_map q) as Hwq by (destruct (Hcuts q Hq) as (Hp & _); by eapply part_of_wf).
      apply sticks_out_false; [done|]. intros [Hq1 Hq2]. unfold ps, ls, rs, lseg, rseg, mid in Hq.
      rewrite !elem_of_app, list_elem_of_singleton in Hq. destruct Hq as [Hq|[->|Hq]].
      * destruct (Z.ltb_spec (m_paddr m1) slo); [|by apply elem_of_nil in Hq]. apply list_elem_of_singleton in Hq as ->.
        cbn in Hq2. lia.
      * unfold inside. cbn. lia.
      * destruct (Z.ltb_spec shi (m_paddr m + m_size m)); [|by apply elem_of_nil in Hq]. apply list_elem_of_singleton in Hq as ->.
        cbn in Hq1. lia.
Qed.

Lemma mp_body_ok h m r :
  share_ok h (m :: r) -> wf_map m -> body_ok h m r (mp_body lo hi prot nf h m).
Proof.
  intros Hs Hw. pose proof Hw as (Hw1 & Hw2 & Hw3). unfold mp_body.
  destruct (mp_overlap lo hi m) eqn:Hov; cbn [negb].
  2:{ apply bo_skip. intros Ho. apply (mp_overlap_spec m Hw) in Ho. congruence. }
  apply (mp_overlap_spec m Hw) in Hov. rewrite uwrap_small by lia.
  destruct (exec (m_flags m) && negb (exec nf)) eqn:Hx.
  { zprops. apply bo_return; try done. by left. }
  assert (exec (m_flags m) = true -> exec nf = true) as Hx'.
  { intros E. rewrite E in Hx. by destruct (exec nf). }
  clear Hx.
  destruct ((m_paddr m <? Z.max lo (m_paddr m)) || (Z.min hi (m_paddr m + m_size m) <? m_paddr m + m_size m)) eqn:Hsp.
  { apply mp_split_ok; try done. apply orb_true_iff in Hsp as [?|?]; zprops; lia. }
  zprops. assert (inside m) as Hin by (unfold inside; lia).
  destruct (Z.eqb_spec nf (Z.land (m_flags m) kProtMask)) as [E|E]; [apply bo_skip; by split|].
  destruct (del_owned (m_deleter m) && env_mprotect_fails h (m_data m) (m_size m) prot) eqn:Hfail.
  { zprops. apply bo_return; try done. right. eauto 10. }
  apply bo_update; try done.
  - apply (share_ok_ext h _ m); try done; by destruct (del_owned (m_deleter m)).
  - by destruct (del_owned (m_deleter m)).
  - split; [by repeat constructor| |].
    + apply Forall_singleton. split; [by apply (part_of_refl m)|]. right. split; [done|]. by split.
    + intros a Hc. eexists. split; [by apply list_elem_of_singleton|exact Hc].
  - intros _. split; [done|]. apply newf_land.
Qed.

(** *** Whole tables *)

(** The permissions at one address before and after (part of) an [mprotect]. *)
Definition flag_step (a f f' : Z) : Prop :=
  f' = f \/ (lo <= a < hi /\ f' = newf f /\ (exec f = true -> exec nf = true)).

(** The same bytes are mapped; permissions changed only inside the range. *)
Definition reflag (ms ms' : list memmap) : Prop :=
  forall a, 0 <= a < 2 ^ 64 ->
    match seg_at ms a with
    | None => seg_at ms' a = None
    | Some (p, f) => exists f', seg_at ms' a = Some (p, f') /\ flag_step a f f'
    end.

#[local] Instance reflag_preorder : PreOrder reflag.
Proof.
  split.
  - intros ms a Ha. destruct (seg_at ms a) as [[p f]|]; [|done]. exists f. split; [done|by left].
  - intros m1 m2 m3 H12 H23 a Ha. specialize (H12 a Ha). specialize (H23 a Ha).
    destruct (seg_at m1 a) as [[p f]|].
    + destruct H12 as (f' & E & H1). rewrite E in H23. destruct H23 as (f'' & E' & H2).
      exists f''. split; [done|]. unfold flag_step in *.
      destruct H1 as [->|(? & -> & Hx)], H2 as [->|(? & -> & Hy)]; auto.
      right. by rewrite newf_idem.
    + by rewrite H12 in H23.
Qed.

Lemma splice_wf l1 m ps l2 : wf_maps (l1 ++ m :: l2) -> reflagged m ps -> wf_maps (l1 ++ ps ++ l2).
Proof.
  intros [Hw Hs] [S1 P1 _]. apply Forall_app in Hw as [Hw1 Hw2]. apply Forall_cons_iff in Hw2 as [Hm Hw2].
  apply StronglySorted_app in Hs as (Hb & Hs1 & Hs2). apply StronglySorted_inv in Hs2 as [Hs2 Hall].
  rewrite list.Forall_forall in P1, Hall. split.
  - rewrite !Forall_app. split_and!; [done| |done]. apply list.Forall_forall. intros q Hq.
    eapply part_of_wf; [by apply (P1 q)|done].
  - apply StronglySorted_app. split_and!; [|done|].
    + intros x y Hx [Hy|Hy]%elem_of_app.
      * eapply part_of_below_r; [by apply (P1 y)|]. apply Hb; [done|by constructor].
      * apply Hb; [done|by constructor].
    + apply StronglySorted_app. split_and!; [|done|done]. intros x y Hx Hy.
      eapply part_of_below_l; [by apply (P1 x)|]. by apply Hall.
Qed.

Lemma splice_reflag l1 m ps l2 :
  wf_maps (l1 ++ m :: l2) -> reflagged m ps -> reflag (l1 ++ m :: l2) (l1 ++ ps ++ l2).
Proof.
  intros Hw Hr a Ha. pose proof (splice_wf _ _ _ _ Hw Hr) as Hw'. destruct Hr as [S1 P1 C1].
  rewrite list.Forall_forall in P1.
  destruct (seg_at (l1 ++ m :: l2) a) as [[p f]|] eqn:E.
  - apply seg_at_Some in E as (x & Hx & Hc & E); [|done..]. injection E as -> ->.
    rewrite elem_of_app, elem_of_cons in Hx.
    assert (x ∈ l1 ++ l2 \/ x = m) as [Hx'| ->] by set_solver.
    + exists (m_flags x). split; [|by left]. apply seg_at_Some; [done..|]. exists x.
      split; [set_solver|done].
    + destruct (C1 a Hc) as (q & Hq & Hqc). destruct (P1 q Hq) as [Hp Hf].
      exists (m_flags q). split.
      * apply seg_at_Some; [done..|]. exists q. split; [set_solver|]. split; [done|].
        by rewrite (part_of_host q m).
      * destruct Hf as [Hf|(Hin & Hf & Hx')]; [by left|]. right. split; [|done].
        unfold inside, covers in *. lia.
  - apply seg_at_None; [done..|]. rewrite seg_at_None in E by done. intros q Hq Hc.
    rewrite !elem_of_app in Hq. destruct Hq as [Hq|[Hq|Hq]]; [eapply E; [|exact Hc]; set_solver| |eapply E; [|exact Hc]; set_solver].
    destruct (P1 q Hq) as [Hp _]. eapply (E m); [set_solver|]. by eapply part_of_covers.
Qed.

(** A segment that keeps its range, bytes and permissions. *)
Lemma reflagged_same m m' :
  0 < m_size m -> same_range m m' -> m_data m' = m_data m -> m_flags m' = m_flags m -> reflagged m [m'].
Proof.
  intros Hs [E1 E2] E3 E4. split; [by repeat constructor| |].
  - apply Forall_singleton. split; [|by left]. unfold part_of. rewrite <- E1, <- E2, E3.
    split; [lia|]. split; [done|]. split; [lia|]. unfold padd. destruct (m_data m). cbn. f_equal. lia.
  - intros a Hc. exists m'. split; [by apply list_elem_of_singleton|]. unfold covers in *. lia.
Qed.

Definition cuts (ml : list memmap) : nat := length (filter (fun m => sticks_out m = true) ml).

Lemma cuts_app l l' : cuts (l ++ l') = (cuts l + cuts l')%nat.
Proof. unfold cuts. by rewrite filter_app, length_app. Qed.

Lemma cuts_none l : Forall (fun q => sticks_out q = false) l -> cuts l = 0%nat.
Proof.
  induction 1 as [|q l Hq _ IH]; [done|]. unfold cuts in *. rewrite filter_cons, decide_False by congruence.
  exact IH.
Qed.

Lemma cuts_cons m l : cuts (m :: l) = ((if sticks_out m then 1 else 0) + cuts l)%nat.
Proof.
  unfold cuts. rewrite filter_cons. destruct (sticks_out m); [by rewrite decide_True|by rewrite decide_False].
Qed.

Lemma cuts_le ml : (cuts ml <= length ml)%nat.
Proof. apply length_filter. Qed.

(** *** The loop *)

Section Loop.
Variables (h0 : host) (ml0 others : list memmap).

Definition range_mapped : Prop := exists a, lo <= a < hi /\ is_Some (seg_at ml0 a).

Record mp_inv (h : host) (ml : list memmap) (i : nat) (any : bool) : Prop := {
  mi_share : share_ok h (ml ++ others);
  mi_wf : wf_maps ml;
  mi_bytes : same_bytes h0 h;
  mi_reflag : reflag ml0 ml;
  mi_settled : forall j m, (j < i)%nat -> ml !! j = Some m -> settled m;
  mi_any : any = true -> range_mapped;
  mi_none : any = false -> forall j m, (j < i)%nat -> ml !! j = Some m -> ~ overlaps m
}.

Definition mp_result (ex : mp_exit) (ml : list memmap) : Prop :=
  match ex with
  | MpDone any => Forall settled ml /\ (any = true <-> range_mapped)
  | MpError rc =>
    (rc = - EACCES /\ exec nf = false /\ exists a p f, lo <= a < hi /\ seg_at ml a = Some (p, f) /\ exec f = true) \/
    exists h p n, rc = - env_errno h /\ env_mprotect_fails h p n prot = true
  end.

(** An overlapping segment of the current table shows the range is mapped. *)
Lemma overlaps_mapped ml m :
  wf_maps ml -> reflag ml0 ml -> m ∈ ml -> overlaps m ->
  exists a, lo <= a < hi /\ seg_at ml a = Some (host_of m a, m_flags m) /\ is_Some (seg_at ml0 a).
Proof.
  intros Hw Hr Hin [H1 H2]. apply list_elem_of_lookup in Hin as [i Hi].
  pose proof (wf_map_lookup _ _ _ Hw Hi) as (? & ? & ?). exists (Z.max lo (m_paddr m)).
  assert (seg_at ml (Z.max lo (m_paddr m)) = Some (host_of m (Z.max lo (m_paddr m)), m_flags m)) as E.
  { apply seg_at_Some; [done|lia|]. exists m. split; [by eapply list_elem_of_lookup_2|].
    split; [unfold covers; lia|done]. }
  split; [lia|]. split; [done|]. specialize (Hr (Z.max lo (m_paddr m)) ltac:(lia)).
  destruct (seg_at ml0 _) as [x|]; [eauto|]. congruence.
Qed.

Lemma mp_inv_done h ml i any :
  mp_inv h ml i any -> (length ml <= i)%nat -> mp_result (MpDone any) ml.
Proof.
  intros [Hs Hw Hb Hr Hset Hany Hnone] Hi.
  assert (forall m, m ∈ ml -> exists j, (j < i)%nat /\ ml !! j = Some m) as Hj.
  { intros m [j Hj]%list_elem_of_lookup. exists j. split; [|done]. apply lookup_lt_Some in Hj. lia. }
  split.
  - apply list.Forall_forall. intros m Hm. destruct (Hj m Hm) as (j & ? & ?). eauto.
  - split; [done|]. intros (a & Ha & [[p f] Hx]). destruct any; [done|]. exfalso.
    specialize (Hr a ltac:(lia)). rewrite Hx in Hr. destruct Hr as (f' & E & _).
    apply seg_at_Some in E as (m & Hm & Hc & _); [|done|lia]. destruct (Hj m Hm) as (j & Hlt & Hjm).
    apply (Hnone eq_refl j m Hlt Hjm). unfold overlaps, covers in *. lia.
Qed.

Lemma mp_inv_next h ml i any m ml' h' :
  mp_inv h ml i any -> ml !! i = Some m -> forall m', reflagged m [m'] -> settled m' ->
  ml' = <[i := m']> ml -> share_ok h' (ml' ++ others) -> same_bytes h h' ->
  forall any', (any' = true -> range_mapped) -> (any' = false -> any = false /\ ~ overlaps m') ->
  mp_inv h' ml' (S i) any'.
Proof.
  intros [Hs Hw Hb Hr Hset Hany Hnone] Hi m' Hrf Hm' -> Hs' Hb' any' Ha1 Ha2.
  pose proof (take_drop_middle ml i m Hi) as Hmid.
  assert (<[i:=m']> ml = take i ml ++ [m'] ++ drop (S i) ml) as E.
  { rewrite <- Hmid at 1. rewrite insert_app_r_alt by (rewrite length_take; lia).
    rewrite length_take_le by (apply lookup_lt_Some in Hi; lia). by rewrite Nat.sub_diag. }
  split; try done.
  - rewrite E. eapply splice_wf; [|exact Hrf]. by rewrite Hmid.
  - by etrans.
  - etrans; [exact Hr|]. rewrite E. rewrite <- Hmid at 1. apply splice_reflag; [by rewrite Hmid|done].
  - intros j x Hj Hx. destruct (decide (j = i)) as [->|Hne].
    + rewrite list_lookup_insert_eq in Hx by (by eapply lookup_lt_Some). by simplify_eq.
    + rewrite list_lookup_insert_ne in Hx by done. apply (Hset j); [lia|done].
  - intros Hf j x Hj Hx. destruct (Ha2 Hf) as [Haf Hno]. destruct (decide (j = i)) as [->|Hne].
    + rewrite list_lookup_insert_eq in Hx by (by eapply lookup_lt_Some). by simplify_eq.
    + rewrite list_lookup_insert_ne in Hx by done. apply (Hnone Haf j); [lia|done].
Qed.

Lemma mprotect_loop_ok Lm : forall n h ml i any,
  mp_inv h ml i any -> (i <= length ml)%nat -> (length ml + 2 * cuts ml <= Lm)%nat ->
  (cuts ml * (Lm + 1) + (length ml - i) + 1 <= n)%nat ->
  exists ex ml' h' , mprotect_loop lo hi prot nf n h ml i any = Some (ex, ml', h') /\
    share_ok h' (ml' ++ others) /\ wf_maps ml' /\ same_bytes h0 h' /\ reflag ml0 ml' /\ mp_result ex ml'.
Proof.
  induction n as [|n IH]; intros h ml i any Hinv Hil HL Hn; [lia|]. cbn [mprotect_loop].
  destruct (ml !! i) as [m|] eqn:Hi.
  2:{ apply lookup_ge_None in Hi. pose proof (mp_inv_done _ _ _ _ Hinv Hi). destruct Hinv.
      exists (MpDone any), ml, h. by split_and!. }
  pose proof Hinv as [Hs Hw Hb Hr Hset Hany Hnone].
  pose proof (take_drop_middle ml i m Hi) as Hmid. pose proof (lookup_lt_Some _ _ _ Hi) as Hlt.
  pose proof (wf_map_lookup _ _ _ Hw Hi) as Hwm. assert (m ∈ ml) as Hin by (by eapply list_elem_of_lookup_2).
  assert (forall x, (take i ml ++ x ++ drop (S i) ml) ++ others ≡ₚ x ++ (take i ml ++ drop (S i) ml ++ others)) as Hperm.
  { intros x. rewrite <- !app_assoc. rewrite Permutation_app_swap_app. done. }
  assert (forall m', <[i:=m']> ml = take i ml ++ [m'] ++ drop (S i) ml) as Eins.
  { intros m'. rewrite <- Hmid at 1. rewrite insert_app_r_alt by (rewrite length_take; lia).
    rewrite length_take_le by lia. by rewrite Nat.sub_diag. }
  assert (share_ok h (m :: take i ml ++ drop (S i) ml ++ others)) as Hs1.
  { rewrite <- Hmid in Hs. eapply share_ok_perm; [|exact Hs]. apply (Hperm [m]). }
  assert (cuts ml = cuts (take i ml) + ((if sticks_out m then 1 else 0) + cuts (drop (S i) ml)))%nat as Hcuts.
  { rewrite <- Hmid at 1. by rewrite cuts_app, cuts_cons. }
  destruct (mp_body_ok h m _ Hs1 Hwm) as [Hsm|rc m' h' Hs' Hb' Hsr Hd Hf Ho Hrc|ps h' Hs' Hb' Hrf Ho Hst Hps Hlen|m' h' Hs' Hb' Hrf Ho Hsm Hst].
  - apply IH; [|lia..]. eapply (mp_inv_next h ml i any m); [done..| | |by rewrite list_insert_id|by rewrite ?list_insert_id|done| |].
    + apply (reflagged_same m m); [apply Hwm|done..].
    + done.
    + intros [?|Hov]%orb_true_iff; [auto|]. apply (mp_overlap_spec m Hwm) in Hov.
      destruct (overlaps_mapped ml m Hw Hr Hin Hov) as (a & ? & _ & ?). by exists a.
    + intros [? Hov]%orb_false_iff. split; [done|]. rewrite <- (mp_overlap_spec m Hwm). congruence.
  - exists (MpError rc), (<[i:=m']> ml), h'. split; [done|].
    assert (reflagged m [m']) as Hrf by (apply reflagged_same; [apply Hwm|done..]).
    assert (reflag ml (<[i:=m']> ml)) as Hrr.
    { rewrite Eins. rewrite <- Hmid at 1. apply splice_reflag; [by rewrite Hmid|done]. }
    assert (wf_maps (<[i:=m']> ml)) as Hw'.
    { rewrite Eins. eapply splice_wf; [|exact Hrf]. by rewrite Hmid. }
    split; [rewrite Eins; eapply share_ok_perm; [symmetry; apply Hperm|exact Hs']|].
    split; [done|]. split; [by etrans|]. split; [by etrans|].
    destruct Hrc as [(-> & Hx & Hnx)|?]; [left|by right]. split; [done|]. split; [done|].
    destruct (overlaps_mapped ml m Hw Hr Hin Ho) as (a & Ha & Hsa & _).
    pose proof (Hrr a ltac:(lia)) as Hra. rewrite Hsa in Hra. destruct Hra as (f' & E & Hstep).
    exists a, (host_of m a), f'. split; [done|]. split; [done|].
    destruct Hstep as [->|(_ & _ & Hxx)]; [done|]. specialize (Hxx Hx). congruence.
  - assert (wf_maps (take i ml ++ ps ++ drop (S i) ml)) as Hw'.
    { eapply splice_wf; [|exact Hrf]. by rewrite Hmid. }
    assert (cuts (take i ml ++ ps ++ drop (S i) ml) + 1 = cuts ml)%nat as Hcc.
    { rewrite !cuts_app, (cuts_none ps Hps), Hcuts, Hst. lia. }
    assert (length (take i ml ++ ps ++ drop (S i) ml) <= length ml + 2)%nat as Hll.
    { rewrite !length_app, length_take, length_drop. lia. }
    apply IH; [|lia|lia|].
    + split; try done.
      * eapply share_ok_perm; [symmetry; apply Hperm|exact Hs'].
      * by etrans.
      * etrans; [exact Hr|]. rewrite <- Hmid at 1. apply splice_reflag; [by rewrite Hmid|done].
      * intros j x Hj. lia.
      * intros _. destruct (overlaps_mapped ml m Hw Hr Hin Ho) as (a & ? & _ & ?). by exists a.
    + rewrite <- Hcc in *. nia.
  - apply IH.
    + eapply (mp_inv_next h ml i any m); [done..|exact Hrf|exact Hsm|done| |done| |done].
      * rewrite Eins. eapply share_ok_perm; [symmetry; apply Hperm|exact Hs'].
      * intros _. destruct (overlaps_mapped ml m Hw Hr Hin Ho) as (a & ? & _ & ?). by exists a.
    + rewrite length_insert. lia.
    + rewrite length_insert. rewrite Eins, !cuts_app, cuts_cons, Hst. unfold cuts at 2. cbn. lia.
    + rewrite length_insert. rewrite Eins, !cuts_app, cuts_cons, Hst. unfold cuts at 2. cbn. lia.
Qed.

End Loop.

End MprotectFacts.

(** ** Properties *)

Lemma flags_of_prot_mask prot : Z.land (flags_of_prot prot) kProtMask = flags_of_prot prot.
Proof.
  unfold flags_of_prot. by destruct (nz (Z.land prot PROT_READ)), (nz (Z.land prot PROT_WRITE)), (nz (Z.land prot PROT_EXEC)).
Qed.

(** Every outcome of [do_mprotect] on [addr, addr+len). *)
Inductive mprotect_outcome {env : HostEnv} (m : mmem) (addr len prot : Z) : Z -> mmem -> Prop :=
| mpo_done m' :
    mem_wf m' -> (exists a, addr <= a < addr + len /\ is_Some (seg_at (maps m) a)) ->
    (forall a p f, addr <= a < addr + len -> seg_at (maps m) a = Some (p, f) ->
       seg_at (maps m') a = Some (p, new_seg_flags (flags_of_prot prot) f)) ->
    mprotect_outcome m addr len prot 0 m'
| mpo_nomem m' :
    mem_wf m' -> (forall a, addr <= a < addr + len -> seg_at (maps m) a = None) ->
    mprotect_outcome m addr len prot (- ENOMEM) m'
| mpo_access m' :
    (exists a p f, addr <= a < addr + len /\ seg_at (maps m') a = Some (p, f) /\ nz (Z.land f PF_X) = true) ->
    nz (Z.land (flags_of_prot prot) PF_X) = false ->
    mprotect_outcome m addr len prot (- EACCES) m'
| mpo_host m' h p n :
    env_mprotect_fails h p n prot = true -> mprotect_outcome m addr len prot (- env_errno h) m'.

Lemma mprotect_mem_spec {env : HostEnv} m others addr len prot :
  mem_wf m -> share_ok (hst m) (maps m ++ others) -> 0 <= addr -> 0 < len -> addr + len < 2 ^ 64 ->
  exists rc m', mprotect_mem m addr len prot = Some (rc, m') /\
    mprotect_outcome m addr len prot rc m' /\
    wf_maps (maps m') /\ share_ok (hst m') (maps m' ++ others) /\ same_bytes (hst m) (hst m') /\
    reflag addr (addr + len) (flags_of_prot prot) (maps m) (maps m').
Proof.
  intros Hwf Hs Ha Hl Hr. unfold mprotect_mem. rewrite (uwrap_small 64) by lia.
  set (nf := flags_of_prot prot). set (hi := addr + len).
  assert (0 <= addr < hi /\ hi < 2 ^ 64) as Hrange by (unfold hi; lia).
  destruct (mprotect_loop_ok addr hi prot nf Hrange (flags_of_prot_mask prot) (hst m) (maps m) others
    (3 * length (maps m)) (mprotect_fuel (maps m)) (hst m) (maps m) 0 false)
    as (ex & ml & h & E & Hs' & Hw' & Hb' & Hrf & Hres).
  - split; try done; [apply Hwf|by apply reflag_preorder, flags_of_prot_mask|intros j x Hj; lia|intros _ j x Hj; lia].
  - lia.
  - pose proof (cuts_le addr hi (maps m)). lia.
  - pose proof (cuts_le addr hi (maps m)). unfold mprotect_fuel. nia.
  - rewrite E. destruct ex as [rc|any]; cbn in Hres.
    + eexists _, _. split; [reflexivity|]. split; [|by split_and!].
      destruct Hres as [(-> & Hx & Hseg)|(h1 & p & n & -> & Hf)]; [by apply mpo_access|by eapply mpo_host].
    + eexists _, _. split; [reflexivity|]. split; [|by split_and!].
      assert (mem_wf (flush_tlb (mkmmem (tlb m) ml h))) as Hwf'.
      { apply flush_tlb_wf; [done| |].
        - destruct Hs' as [_ _ Hblk _ _ _]. by apply Forall_app in Hblk as [? _].
        - intros b o. destruct Hb' as [Eb _]. cbn [hst]. rewrite Eb. apply Hwf. }
      destruct Hres as [Hset Hany]. destruct any.
      * apply mpo_done; [done|by apply Hany|]. intros a p f Haa Hsa. cbn [maps flush_tlb].
        specialize (Hrf a ltac:(lia)). rewrite Hsa in Hrf. destruct Hrf as (f' & E' & Hstep). rewrite E'.
        do 2 f_equal. destruct Hstep as [->|(_ & -> & _)]; [|done].
        apply seg_at_Some in E' as (q & Hq & Hc & E'); [|done|lia]. injection E' as -> ->.
        symmetry. apply newf_fix. rewrite list.Forall_forall in Hset. apply (Hset q Hq).
        unfold overlaps, covers in *. lia.
      * apply mpo_nomem; [done|]. intros a Haa. destruct (seg_at (maps m) a) as [x|] eqn:Hx; [|done].
        assert (false = true); [|done]. apply Hany. exists a. by rewrite Hx.
Qed.

(** C11: [do_mmap]: it is refused, leaving the machine unchanged, exactly for a
    length that rounds to zero, a misaligned MAP_FIXED address, a bad descriptor
    or when the host has no memory; otherwise [len] bytes (rounded up to pages)
    holding zeroes or the file appear at the result with the requested
    permissions, whatever was mapped there under MAP_FIXED is gone and without
    it nothing was mapped there, every other guest address keeps its bytes and
    permissions, and the memory and sharing invariants are kept. *)
Theorem mmap_contract {S : Type} {env : HostEnv} find_fd host_file (v : vm S) others
  (R := fun n => reg v !!! Z.to_nat n)
  (Hwf : mem_wf (mm v)) (Hsh : share_ok (hst (mm v)) (maps (mm v) ++ others))
  (Hne : maps (mm v) <> []) (Hr : 0 <= R 1)
  (Hfit : mmap_fits (mm v) (R 1) (page_up (R 2)) (s32 (R 4))) :
  exists rc m', do_mmap find_fd host_file v = Ok rc (set_mm m' v) /\
    mmap_outcome find_fd host_file others (mm v) (R 1) (page_up (R 2)) (s32 (R 3)) (s32 (R 4)) (s32 (R 5)) (s64 (R 0)) rc m'.
Proof.
  destruct (mmap_mem_spec find_fd host_file others (mm v) (R 1) (R 2) (s32 (R 3)) (s32 (R 4)) (s32 (R 5)) (s64 (R 0)))
    as (rc & m' & E & Ho); try done.
  exists rc, m'. split; [|done]. unfold do_mmap, bind, r, gets, try_mem.
  fold (R 1) (R 2) (R 3) (R 4) (R 5) (R 0). by rewrite E.
Qed.

(** [do_munmap]: when a segment starts at the address, that whole segment
    disappears, whatever length was passed, its host pages are released only
    with the last address space that uses them, and every other guest address is
    unchanged; otherwise the result is -EINVAL and nothing changes. *)
Theorem munmap_contract {S : Type} {env : HostEnv} (v : vm S) others
  (addr := reg v !!! 1%nat)
  (Hwf : mem_wf (mm v)) (Hsh : share_ok (hst (mm v)) (maps (mm v) ++ others)) :
  (exists m' mp, do_munmap v = Ok 0 (set_mm m' v) /\ mp ∈ maps (mm v) /\ m_paddr mp = addr /\
     mem_wf m' /\ share_ok (hst m') (maps m' ++ others) /\ same_bytes (hst (mm v)) (hst m') /\
     forall a, 0 <= a < 2 ^ 64 -> seg_at (maps m') a =
       if (addr <=? a) && (a <? addr + m_size mp) then None else seg_at (maps (mm v)) a) \/
  (do_munmap v = Ok (- EINVAL) v /\ forall mp, mp ∈ maps (mm v) -> m_paddr mp <> addr).
Proof.
  pose proof (unmap_spec (mm v) others addr Hwf Hsh) as Hu. unfold do_munmap, bind, r, gets, mem_op.
  fold addr. change (Z.to_nat 1) with 1%nat. fold addr. destruct (unmap (mm v) addr) as [[|] m'].
  - destruct Hu as (H1 & H2 & H3 & mp & H4 & H5 & H6). left. exists m', mp. by split_and!.
  - destruct Hu as (-> & Hno). right. split; [|done]. by destruct v.
Qed.

(** [do_mprotect] on a non-empty range that does not wrap around always
    returns (the rescan after a split terminates): on success every mapped
    address of the range has exactly the requested permissions, -ENOMEM means
    nothing in the range is mapped, -EACCES that it would have removed execute
    permission; on every path the mapped bytes and everything outside the range
    are unchanged, no address loses execute permission, and the segment table
    and the sharing discipline stay well formed. *)
Theorem mprotect_contract {S : Type} {env : HostEnv} (v : vm S) others
  (addr := reg v !!! 1%nat) (len := reg v !!! 2%nat) (prot := s32 (reg v !!! 3%nat))
  (Hwf : mem_wf (mm v)) (Hsh : share_ok (hst (mm v)) (maps (mm v) ++ others))
  (Ha : 0 <= addr) (Hl : 0 < len) (Hr : addr + len < 2 ^ 64) :
  exists rc m', do_mprotect v = Ok rc (set_mm m' v) /\
    mprotect_outcome (mm v) addr len prot rc m' /\
    wf_maps (maps m') /\ share_ok (hst m') (maps m' ++ others) /\ same_bytes (hst (mm v)) (hst m') /\
    reflag addr (addr + len) (flags_of_prot prot) (maps (mm v)) (maps m').
Proof.
  destruct (mprotect_mem_spec (mm v) others addr len prot) as (rc & m' & E & Ho); try done.
  exists rc, m'. split; [|done]. unfold do_mprotect, bind, r, gets, try_mem.
  change (Z.to_nat 1) with 1%nat. change (Z.to_nat 2) with 2%nat. change (Z.to_nat 3) with 3%nat.
  fold addr len prot. by rewrite E.
Qed.

(** ** Concrete address spaces *)

Definition mem_vm (m : mmem) (regs : list Z) : vm unit :=
  mkvm (mkoptions false false 0 4096 [] []) 0 regs 0 0 0 m None 0 0 0 false tt [] [].

(** [mmap(0, 100, PROT_READ|PROT_WRITE, MAP_PRIVATE|MAP_ANONYMOUS, -1, 0)] *)
Definition mmap_vm : vm unit := mem_vm demo_mem [0; 0; 100; 3; 0x22; 2 ^ 64 - 1; 0; 0; 0; 0; 0].

Lemma mmap_contract_witness :
  exists m', do_mmap (env := permissive_env) (fun _ => None) (fun _ _ _ => 0) mmap_vm = Ok 0x2000 (set_mm m' mmap_vm) /\
    mmap_outcome (env := permissive_env) (fun _ => None) (fun _ _ _ => 0) [demo_map] demo_mem 0 0x1000 3 0x22 (-1) 0 0x2000 m'.
Proof.
  destruct (@mmap_contract unit permissive_env (fun _ => None) (fun _ _ _ => 0) mmap_vm [demo_map])
    as (rc & m' & E & Ho).
  - apply demo_mem_wf.
  - apply demo_share_ok.
  - done.
  - by vm_compute.
  - intros back [= <-]. split; reflexivity.
  - assert ((match do_mmap (env := permissive_env) (fun _ => None) (fun _ _ _ => 0) mmap_vm with Ok rc _ => rc | _ => 0 end) = 0x2000) as Hrc
      by (vm_compute; reflexivity).
    rewrite E in Hrc. cbn [mmap_vm] in Hrc. subst rc. exists m'. split; [exact E|exact Ho].
Defined.

Definition munmap_vm (addr : Z) : vm unit := mem_vm demo_mem [0; addr; 100; 0; 0; 0; 0; 0; 0; 0; 0].

Lemma munmap_contract_witness :
  do_munmap (munmap_vm 0x1800) = Ok (- EINVAL) (munmap_vm 0x1800).
Proof.
  destruct (@munmap_contract unit permissive_env (munmap_vm 0x1800) [demo_map] demo_mem_wf demo_share_ok)
    as [(m' & mp & _ & Hin & Hp & _)|[E _]]; [|exact E].
  exfalso. apply list_elem_of_singleton in Hin. subst mp. by vm_compute in Hp.
Defined.

(** [mprotect(0x1400, 0x800, PROT_READ)]: the page is cut in three. *)
Definition mprotect_vm : vm unit := mem_vm demo_mem [0; 0x1400; 0x800; 1; 0; 0; 0; 0; 0; 0; 0].

Lemma mprotect_contract_witness :
  exists m', do_mprotect (env := permissive_env) mprotect_vm = Ok 0 (set_mm m' mprotect_vm) /\
    mprotect_outcome (env := permissive_env) demo_mem 0x1400 0x800 1 0 m'.
Proof.
  destruct (@mprotect_contract unit permissive_env mprotect_vm [demo_map] demo_mem_wf demo_share_ok)
    as (rc & m' & E & Ho & _); [by vm_compute..|].
  assert ((match do_mprotect (env := permissive_env) mprotect_vm with Ok rc _ => rc | _ => 1 end) = 0) as Hrc
    by (vm_compute; reflexivity).
  rewrite E in Hrc. subst rc. exists m'. split; [exact E|exact Ho].
Defined.

(** Two pages at 0x1000 on one owned block with host protection [prot]. *)
Definition own_seg (b paddr size fl : Z) : memmap :=
  mkmap (b, 0) (mkDeleter size true) size paddr fl None "<anon>"%string.
Definition two_host (prot : Z) : host := mkhost (fun _ _ => 7) (fun _ _ => prot) 2 ∅ 0 [].

(** [mprotect] with length 0 inside a segment succeeds and leaves an empty
    segment behind, which a later [munmap] of that address removes instead of
    the memory mapped there. *)
Lemma mprotect_zero_length :
  let env := permissive_env in
  let m := mkmmem ∅ [own_seg 0 0x1000 0x2000 (Z.lor PF_R PF_W)] (two_host 3) in
  match mprotect_mem m 0x2000 0 PROT_READ with
  | Some (rc, m') => rc = 0 /\ (m_size <$> maps m') = [0x1000; 0; 0x1000] /\
      (unmap m' 0x2000).1 = true /\ translate (maps (unmap m' 0x2000).2) 0x2000 8 = Some (0, 0x1000)
  | None => False
  end.
Proof. vm_compute. split_and!; reflexivity. Qed.

(** When [mprotect] fails half way it has not flushed the TLB: a segment that
    has already become read-only, also on the host, is still written through. *)
Lemma mprotect_failure_stale_tlb :
  let env := permissive_env in
  let m := mkmmem ∅ [own_seg 0 0x1000 0x1000 (Z.lor PF_R PF_W); own_seg 1 0x2000 0x1000 (Z.lor PF_R PF_X)] (two_host 3) in
  let m1 := (mmu_w m 0x1000 8).2 in
  match mprotect_mem m1 0x1000 0x2000 PROT_READ with
  | Some (rc, m') => rc = - EACCES /\ snd <$> seg_at (maps m') 0x1000 = Some PF_R /\
      (mmu_w m' 0x1000 8).1 = Some (0, 0) /\ h_prot (hst m') 0 0 = PROT_READ
  | None => False
  end.
Proof. vm_compute. split_and!; reflexivity. Qed.

(** A read-only two-page mapping whose first page is replaced with MAP_FIXED
    leaves a piece the host never re-protects: after [mprotect] makes it
    writable for the guest, [mmu_w] takes the pages over and returns a pointer
    the host still refuses to write through. *)
Lemma mprotect_split_host_readonly :
  let env := permissive_env in
  let m := mkmmem ∅ [own_seg 0 0x1000 0x2000 PF_R] (two_host PROT_READ) in
  match mmap_mem (fun _ => None) (fun _ _ _ => 0) m 0x1000 0x1000 PROT_READ (Z.lor MAP_FIXED MAP_ANONYMOUS) (-1) 0 with
  | Some (a, m1) =>
    match mprotect_mem m1 0x2000 0x1000 (Z.lor PROT_READ PROT_WRITE) with
    | Some (rc, m2) => a = 0x1000 /\ rc = 0 /\ (mmu_w m2 0x2000 8).1 = Some (0, 0x1000) /\
        h_prot (hst (mmu_w m2 0x2000 8).2) 0 0x1000 = PROT_READ
    | None => False
    end
  | None => False
  end.
Proof. vm_compute. split_and!; reflexivity. Qed.
