(* ===== verification/Fork.v ===== *)
(** * Fork: the address space and the registers of a cloned process

    The part of [PosixSyscall::do_clone] (posix/process.cpp) that builds the
    child's machine: copy-on-write sharing of every segment (or sharing of the
    whole table with CLONE_VM), the register file, stack, thread pointer and
    pc, and the CLONE_*_SETTID writes.  The registration of the child in the kernel's tables is modelled
    in Process, its descriptor table in FdTable; here the child's handler state
    is an argument ([child_sys], given the clear-child-tid address). *)

From S2P Require Import Prelude HostMem AddrSpace Vm Frame Segments.
From Stdlib Require Import Lia.
From stdpp Require Import base numbers list gmap strings option sorting.

Open Scope Z_scope.
Open Scope vm_scope.

(** ** Definitions *)

Definition CLONE_VM : Z := 0x100.
Definition CLONE_THREAD : Z := 0x10000.
Definition CLONE_SETTLS : Z := 0x80000.
Definition CLONE_PARENT_SETTID : Z := 0x100000.
Definition CLONE_CHILD_CLEARTID : Z := 0x200000.
Definition CLONE_CHILD_SETTID : Z := 0x1000000.

(** [child_map]: the same bytes, not owned, one more reference. *)
Definition child_map (m : memmap) : memmap :=
  mkmap (m_data m) (mkDeleter (m_size m) false) (m_size m) (m_paddr m) (m_flags m) (m_cow m) (m_path m).

(** The copy loop: parent segments in place, child segments added in order. *)
Fixpoint fork_maps (h : host) (ms child : list memmap) : list memmap * list memmap * host :=
  match ms with
  | [] => ([], child, h)
  | m :: r =>
    let '(m1, h1) := share_pages h m in
    let c := child_map m1 in
    let h2 := shared_copy h1 (m_cow m1) in
    let '(ps, cs, h3) := fork_maps h2 r (insert_map c child) in
    (m1 :: ps, cs, h3)
  end.

(** The child's segments and the parent's memory; the parent's TLB is flushed. *)
Definition fork_mem (m : mmem) : list memmap * mmem :=
  let '(ps, cs, h) := fork_maps (hst m) (maps m) [] in (cs, flush_tlb (mkmmem (tlb m) ps h)).

Section Clone.
Context {S : Type} {env : HostEnv}.

(** [if (p = mmu_w(a, n)) *p = x]. *)
Definition poke (a : Z) (n : nat) (x : Z) : M S unit :=
  p <- mmu_wM a (Z.of_nat n) ;;
  match p with Some p => storeM p n x | None => ret tt end.

Definition do_clone (child_sys : option Z -> S) (child_pid : Z) : M S (Z * vm S) :=
  cflags <- r 1 ;; stack <- r 2 ;; ptid <- r 3 ;; ctid <- r 4 ;; newtls <- r 5 ;;
  let is_thread := nz (Z.land cflags CLONE_THREAD) in
  let share_vm := nz (Z.land cflags CLONE_VM) in
  cs <- (if share_vm then modify (fun v => set_mm (flush_tlb (mm v)) v) ;; ret None
         else cs <- mem_op fork_mem ;; ret (Some cs)) ;;
  regs <- gets (fun v => <[0%nat := 0]> (reg v)) ;;
  (if stack =? 0 then ret tt else poke stack 8 (frame_flags_make false 0 0)) ;;
  (if nz (Z.land cflags CLONE_PARENT_SETTID) then poke ptid 4 child_pid else ret tt) ;;
  (if nz (Z.land cflags CLONE_CHILD_SETTID) then poke ctid 4 child_pid else ret tt) ;;
  v <- gets (fun v => v) ;;
  let child := mkvm (options v) (u64 (pc_ v + 8))
    (if stack =? 0 then regs else <[10%nat := stack]> regs)
    0 0 0
    (mkmmem ∅ (from_option id (maps (mm v)) cs) (hst (mm v)))
    (image v) (if is_thread then 0 else signal_depth v)
    (if nz (Z.land cflags CLONE_SETTLS) then newtls else if is_thread then 0 else tp_ v)
    0 false
    (child_sys (if nz (Z.land cflags CLONE_CHILD_CLEARTID) then Some ctid else None)) [] [] in
  ret (child_pid, child).

End Clone.

(** ** Lemmas *)

(** The segment's pages have an owner that can be shared. *)
Definition has_owner (m : memmap) : Prop := is_Some (m_cow m) \/ del_owned (m_deleter m) = true.

Lemma share_pages_cow h m : has_owner m -> is_Some (m_cow (share_pages h m).1).
Proof.
  intros Ho. unfold share_pages. destruct (m_cow m) as [c|] eqn:E; [cbn; rewrite E; eauto|].
  destruct Ho as [[c Hc]|Ho]; [congruence|]. rewrite Ho. cbn. eauto.
Qed.

Lemma insert_map_last mp ms :
  Forall (fun x => below x mp /\ 0 < m_size x) ms -> insert_map mp ms = ms ++ [mp].
Proof.
  induction 1 as [|x r [Hx Hs] _ IH]; [done|]. cbn. unfold below in Hx.
  destruct (Z.ltb_spec (m_paddr x) (m_paddr mp)); [by rewrite IH|lia].
Qed.

(** Same place, same bytes, same permissions. *)
Definition twin (m c : memmap) : Prop :=
  m_data c = m_data m /\ m_size c = m_size m /\ m_paddr c = m_paddr m /\ m_flags c = m_flags m.

Lemma twin_below_l m c x : twin m c -> below m x -> below c x.
Proof. unfold twin, below. intros (_ & -> & -> & _). done. Qed.

Lemma twin_below_r m c x : twin m c -> below x m -> below x c.
Proof. unfold twin, below. intros (_ & _ & -> & _). done. Qed.

Lemma twins_wf ms cs : Forall2 twin ms cs -> wf_maps ms -> wf_maps cs.
Proof.
  intros Ht. apply wf_maps_ext. eapply Forall2_impl; [exact Ht|]. intros m c (_ & E1 & E2 & _). by split.
Qed.

Lemma twins_seg_at ms cs a : Forall2 twin ms cs -> seg_at cs a = seg_at ms a.
Proof.
  intros Ht. unfold seg_at. rewrite (find_map_ext a 1 cs ms).
  2:{ apply Forall2_flip. eapply Forall2_impl; [exact Ht|]. intros m c (_ & E1 & E2 & _). by split. }
  destruct (find_map_locked ms a 1) as [i|]; [|done].
  pose proof (Forall2_lookup twin ms cs) as [Hl _]. specialize (Hl Ht i).
  destruct Hl as [m c (E1 & E2 & E3 & E4)|]; [|done]. cbn. unfold host_of. by rewrite E1, E3, E4.
Qed.

Lemma fork_maps_ok : forall ms h child others,
  share_ok h (ms ++ child ++ others) -> wf_maps ms -> Forall has_owner ms ->
  Forall (fun x => 0 < m_size x /\ Forall (below x) ms) child ->
  let '(ps, cs, h') := fork_maps h ms child in
  exists cs', cs = child ++ cs' /\ share_ok h' (ps ++ cs ++ others) /\
    Forall2 twin ms ps /\ Forall2 twin ms cs' /\
    h_bytes h' = h_bytes h /\ h_next h' = h_next h.
Proof.
  induction ms as [|m r IH]; intros h child others Hs Hw Ho Hc; cbn [fork_maps].
  { exists []. rewrite app_nil_r. by split_and!. }
  pose proof Hw as [Hw1 Hw2]. apply Forall_cons_iff in Hw1 as [Hm Hr]. apply StronglySorted_inv in Hw2 as [Hw2 Hall].
  apply Forall_cons_iff in Ho as [Hom Hor]. cbn [app] in Hs.
  pose proof (share_pages_ok h m _ Hs) as Hok. pose proof (share_pages_fields h m) as Hfld.
  pose proof (share_pages_cow h m Hom) as [c Hcow].
  pose proof (share_pages_unowned h m) as Hun.
  pose proof (sh_own _ _ Hs) as Hown. apply Forall_cons_iff in Hown as [Hown _]. specialize (Hun Hown).
  destruct (share_pages h m) as [m1 h1]. destruct Hok as (Hs1 & Hb1 & Hn1 & _). cbn [fst] in *.
  destruct Hfld as (E1 & E2 & E3 & E4 & E5). rewrite Hcow.
  assert (share_ok (shared_copy h1 (Some c)) (child_map m1 :: m1 :: r ++ child ++ others)) as Hs2.
  { apply (share_ok_copy h1 m1); try done.
    - unfold part_of, child_map, padd. destruct Hm as (_ & Hm2 & _). cbn. rewrite E2. split; [lia|]. split; [done|]. split; [lia|].
      destruct (m_data m1). cbn. f_equal. lia. }
  assert (insert_map (child_map m1) child = child ++ [child_map m1]) as Eins.
  { apply insert_map_last. eapply Forall_impl; [exact Hc|]. intros x [Hx1 Hx2]. split; [|done].
    apply Forall_cons_iff in Hx2 as [Hx2 _]. unfold below in *. cbn. by rewrite E3. }
  rewrite Eins. specialize (IH (shared_copy h1 (Some c)) (child ++ [child_map m1]) (m1 :: others)).
  destruct (fork_maps (shared_copy h1 (Some c)) r (child ++ [child_map m1])) as [[ps cs] h3].
  destruct IH as (cs' & Ecs & Hs3 & Ht1 & Ht2 & Hb3 & Hn3).
  - eapply share_ok_perm; [|exact Hs2]. solve_Permutation.
  - by split.
  - done.
  - apply Forall_app. split.
    + eapply Forall_impl; [exact Hc|]. intros x [? Hx2]. apply Forall_cons_iff in Hx2 as [_ ?]. by split.
    + apply Forall_singleton. cbn. rewrite E2. split; [apply Hm|].
      eapply Forall_impl; [exact Hall|]. intros x Hx. unfold below in *. cbn. by rewrite E2, E3.
  - exists (child_map m1 :: cs'). split; [by rewrite Ecs, <- app_assoc|].
    split; [eapply share_ok_perm; [|exact Hs3]; solve_Permutation|].
    split; [by constructor|]. split; [by constructor|].
    rewrite Hb3, Hn3. cbn. by rewrite Hb1, Hn1.
Qed.

Record forked (others : list memmap) (m m' : mmem) (cs : list memmap) : Prop := {
  fk_wf : mem_wf m';
  fk_child : mem_wf (mkmmem ∅ cs (hst m'));
  fk_share : share_ok (hst m') (maps m' ++ cs ++ others);
  fk_parent : forall a, seg_at (maps m') a = seg_at (maps m) a;
  fk_copy : forall a, seg_at cs a = seg_at (maps m) a;
  fk_bytes : h_bytes (hst m') = h_bytes (hst m)
}.

Lemma fork_mem_ok m others :
  mem_wf m -> share_ok (hst m) (maps m ++ others) -> Forall has_owner (maps m) ->
  forked others m (fork_mem m).2 (fork_mem m).1.
Proof.
  intros Hwf Hs Ho. unfold fork_mem. pose proof (fork_maps_ok (maps m) (hst m) [] others Hs (mwf_maps _ Hwf) Ho) as H.
  destruct (fork_maps (hst m) (maps m) []) as [[ps cs] h]. cbn [fst snd].
  destruct H as (cs' & Ecs & Hs' & Ht1 & Ht2 & Hb & Hn); [constructor|]. cbn in Ecs. subst cs'.
  pose proof (sh_blocks _ _ Hs') as Hblk. unfold blocks_ok in Hblk. rewrite !Forall_app in Hblk. destruct Hblk as (B1 & B2 & _).
  assert (bytes_ok h) as Hok by (intros b o; rewrite Hb; apply Hwf).
  split; cbn [flush_tlb maps hst].
  - apply flush_tlb_wf; cbn; [|done..]. eapply twins_wf; [exact Ht1|apply Hwf].
  - apply (flush_tlb_wf (mkmmem ∅ cs h)); cbn; [|done..]. eapply twins_wf; [exact Ht2|apply Hwf].
  - done.
  - intros a. by apply twins_seg_at.
  - intros a. by apply twins_seg_at.
  - done.
Qed.

(** ** Properties *)

(** A plain fork: a new process, no stack of its own, no SETTID writes. *)
Record plain_fork {S : Type} (v : vm S) : Prop := {
  pf_vm : nz (Z.land (reg v !!! 1%nat) CLONE_VM) = false;
  pf_thread : nz (Z.land (reg v !!! 1%nat) CLONE_THREAD) = false;
  pf_settls : nz (Z.land (reg v !!! 1%nat) CLONE_SETTLS) = false;
  pf_ptid : nz (Z.land (reg v !!! 1%nat) CLONE_PARENT_SETTID) = false;
  pf_ctid : nz (Z.land (reg v !!! 1%nat) CLONE_CHILD_SETTID) = false;
  pf_stack : reg v !!! 2%nat = 0
}.

Lemma plain_fork_eq {S : Type} {env : HostEnv} child_sys pid (v : vm S) :
  plain_fork v -> exists child, let m' := (fork_mem (mm v)).2 in
    do_clone child_sys pid v = Ok (pid, child) (set_mm m' v) /\
    reg child = <[0%nat := 0]> (reg v) /\ pc_ child = u64 (pc_ v + 8) /\ flags child = 0 /\
    tp_ child = tp_ v /\ signal_depth child = signal_depth v /\ options child = options v /\
    image child = image v /\ mm child = mkmmem ∅ (fork_mem (mm v)).1 (hst m').
Proof.
  intros [F1 F2 F3 F4 F5 F6]. unfold do_clone, bind, r, gets, mem_op, modify, ret.
  change (Z.to_nat 1) with 1%nat. change (Z.to_nat 2) with 2%nat. rewrite F1, F2, F3.
  destruct (fork_mem (mm v)) as [cs m']. cbn [fst snd reg set_mm]. rewrite F6. cbn [Z.eqb]. rewrite F4, F5.
  eexists. split; [reflexivity|]. by split_and!.
Qed.

(** [do_clone] of a plain fork: the child is the parent with result 0 and
    the pc behind the call, it sees at every address the byte and the
    permissions the parent sees, the parent's view is unchanged, both memories
    are well formed and every shared page is under copy-on-write discipline,
    with no other process affected. *)
Theorem fork_contract {S : Type} {env : HostEnv} child_sys pid (v : vm S) others
  (Hf : plain_fork v) (Hwf : mem_wf (mm v)) (Hs : share_ok (hst (mm v)) (maps (mm v) ++ others))
  (Ho : Forall has_owner (maps (mm v))) :
  exists child m', do_clone child_sys pid v = Ok (pid, child) (set_mm m' v) /\
    reg child = <[0%nat := 0]> (reg v) /\ pc_ child = u64 (pc_ v + 8) /\
    tp_ child = tp_ v /\ signal_depth child = signal_depth v /\
    mem_wf m' /\ mem_wf (mm child) /\ hst (mm child) = hst m' /\
    share_ok (hst m') (maps m' ++ maps (mm child) ++ others) /\
    (forall a, seg_at (maps m') a = seg_at (maps (mm v)) a /\
               seg_at (maps (mm child)) a = seg_at (maps (mm v)) a) /\
    (forall a, gbyte m' a = gbyte (mm v) a /\ gbyte (mm child) a = gbyte (mm v) a).
Proof.
  destruct (plain_fork_eq child_sys pid v Hf) as (child & E & H1 & H2 & _ & H3 & H4 & _ & _ & H5).
  pose proof (fork_mem_ok (mm v) others Hwf Hs Ho) as [K1 K2 K3 K4 K5 K6].
  exists child, (fork_mem (mm v)).2. rewrite H5. cbn [maps hst]. split_and!; try done.
  intros a. split; apply gbyte_in_seg_at; try done; by rewrite ?K4, ?K5.
Qed.

(** What one process sees after the other wrote [n] bytes [x] at [addr]. *)
Definition sees_write (before : mmem) (addr : Z) (n : nat) (x : Z) (m' : mmem) (others : list memmap) : Prop :=
  forall a, 0 <= a < 2 ^ 64 ->
    gbyte m' a = (if (addr <=? a) && (a <? addr + Z.of_nat n)
                  then Some ((x / 2 ^ (8 * (a - addr))) mod 256) else gbyte before a) /\
    gbyte_in (hst m') others a = gbyte before a.

Lemma write_isolated {env : HostEnv} m ms rest addr n p x before :
  mem_wf m -> wf_maps ms -> share_ok (hst m) (maps m ++ ms ++ rest) -> valid_access addr (Z.of_nat n) ->
  (mmu_w m addr (Z.of_nat n)).1 = Some p ->
  (forall a, gbyte m a = gbyte before a) -> (forall a, gbyte_in (hst m) ms a = gbyte before a) ->
  sees_write before addr n x (store (mmu_w m addr (Z.of_nat n)).2 p n x) ms.
Proof.
  intros Hwf Hms Hs Hv Hp Hb1 Hb2 a Ha.
  pose proof (mmu_w_spec m addr (Z.of_nat n) Hwf Hv) as [Hw1 He1 _ Hg1 Hp1]. specialize (Hp1 p Hp).
  pose proof (mmu_w_share m (ms ++ rest) addr (Z.of_nat n) Hwf Hs) as Hs1. split.
  - rewrite (store_gbyte _ (ms ++ rest) addr p n x a); auto. by rewrite Hg1, Hb1.
  - rewrite (store_gbyte_other _ [] ms rest addr p n x a); auto. rewrite <- Hb2.
    apply gbyte_in_extends; [done|]. pose proof (sh_blocks _ _ Hs) as Hb. unfold blocks_ok in *.
    rewrite !Forall_app in Hb. apply Hb.
Qed.

(** C12: Copy-on-write fork: after a plain fork, whatever the child stores is
    invisible to the parent and whatever the parent stores is invisible to the
    child; the writer sees exactly its own bytes change. *)
Theorem fork_isolation {S : Type} {env : HostEnv} child_sys pid (v : vm S) others child v'
  (Hf : plain_fork v) (Hwf : mem_wf (mm v)) (Hs : share_ok (hst (mm v)) (maps (mm v) ++ others))
  (Ho : Forall has_owner (maps (mm v)))
  (Hc : do_clone child_sys pid v = Ok (pid, child) v')
  addr n p x (Hv : valid_access addr (Z.of_nat n)) :
  ((mmu_w (mm child) addr (Z.of_nat n)).1 = Some p ->
   sees_write (mm v) addr n x (store (mmu_w (mm child) addr (Z.of_nat n)).2 p n x) (maps (mm v'))) /\
  ((mmu_w (mm v') addr (Z.of_nat n)).1 = Some p ->
   sees_write (mm v) addr n x (store (mmu_w (mm v') addr (Z.of_nat n)).2 p n x) (maps (mm child))).
Proof.
  destruct (plain_fork_eq child_sys pid v Hf) as (child' & E & _ & _ & _ & _ & _ & _ & _ & H5).
  rewrite E in Hc. injection Hc as <- <-. cbn [mm set_mm]. rewrite H5. cbn [maps].
  pose proof (fork_mem_ok (mm v) others Hwf Hs Ho) as [K1 K2 K3 K4 K5 K6].
  set (m' := (fork_mem (mm v)).2) in *. set (cs := (fork_mem (mm v)).1) in *.
  assert (forall a, gbyte_in (hst m') (maps m') a = gbyte (mm v) a) as G1.
  { intros a. apply gbyte_in_seg_at; [done|by rewrite K4]. }
  assert (forall a, gbyte_in (hst m') cs a = gbyte (mm v) a) as G2.
  { intros a. apply gbyte_in_seg_at; [done|by rewrite K5]. }
  split; intros Hp.
  - eapply (write_isolated _ _ others); try done; [apply K1|]. cbn [maps hst].
    eapply share_ok_perm; [|exact K3]. solve_Permutation.
  - eapply (write_isolated _ _ others); try done. apply K2.
Qed.

(** The machine of Frame.v calling fork. *)
Definition fork_vm : vm unit := set_reg [0; 17; 0; 0; 0; 0; 0; 0; 0; 0; STACK_BASE + STACK_SIZE - 0x8000] demo_vm.

Lemma fork_vm_plain : plain_fork fork_vm.
Proof. by split. Qed.

Lemma fork_vm_owned : Forall has_owner (maps (mm fork_vm)).
Proof. repeat constructor; by right. Qed.

Lemma fork_vm_share : share_ok (hst (mm fork_vm)) (maps (mm fork_vm) ++ []).
Proof. exact (vw_share _ _ _ _ _ demo_vm_wf). Qed.

Lemma fork_contract_witness :
  exists child m', do_clone (env := permissive_env) (fun _ => tt) 2 fork_vm = Ok (2, child) (set_mm m' fork_vm) /\
    pc_ child = 0x40000010 /\ mem_wf (mm child).
Proof.
  destruct (@fork_contract unit permissive_env (fun _ => tt) 2 fork_vm [] fork_vm_plain demo_vm_mem_wf fork_vm_share fork_vm_owned)
    as (child & m' & E & _ & H2 & _ & _ & _ & H3 & _).
  exists child, m'. split; [exact E|]. split; [exact H2|exact H3].
Defined.

Definition fork_result : (Z * vm unit) * vm unit :=
  match do_clone (env := permissive_env) (fun _ => tt) 2 fork_vm with
  | Ok a v' => (a, v')
  | Blocked v' => ((0, v'), v')
  end.

Lemma fork_isolation_witness :
  let env := permissive_env in
  sees_write (mm fork_vm) (STACK_BASE + 16) 8 77
    (store (mmu_w (mm fork_result.1.2) (STACK_BASE + 16) 8).2 (2, 16) 8 77) (maps (mm fork_result.2)).
Proof.
  destruct (plain_fork_eq (env := permissive_env) (fun _ => tt) 2 fork_vm fork_vm_plain) as (child & E & _).
  assert (fork_result = ((2, child), (set_mm (fork_mem (mm fork_vm)).2 fork_vm))) as Hr.
  { unfold fork_result. by rewrite E. }
  intros env.
  destruct (@fork_isolation unit env (fun _ => tt) 2 fork_vm [] fork_result.1.2 fork_result.2
    fork_vm_plain demo_vm_mem_wf fork_vm_share fork_vm_owned) with (addr := STACK_BASE + 16) (n := 8%nat) (p := (2, 16)) (x := 77)
    as [H _].
  - rewrite Hr. exact E.
  - split; [|split]; vm_compute; congruence.
  - apply H. vm_compute. reflexivity.
Defined.

(** CLONE_CHILD_SETTID without CLONE_VM: the child's id is written into the
    parent's memory; the child still reads the old value there. *)
Definition settid_vm : vm unit :=
  set_reg [0; CLONE_CHILD_SETTID; 0; 0; STACK_BASE + 16; 0; 0; 0; 0; 0; STACK_BASE + STACK_SIZE - 0x8000] demo_vm.

Lemma child_settid_writes_parent :
  match do_clone (env := permissive_env) (fun _ => tt) 2 settid_vm with
  | Ok (_, child) v' => gload (mm v') (STACK_BASE + 16) 4 = 2 /\ gload (mm child) (STACK_BASE + 16) 4 = 0
  | Blocked _ => False
  end.
Proof. vm_compute. split; reflexivity. Qed.
