(* ===== verification/Writes.v ===== *)
(** * Writes: sequences of stores through one host pointer

    What stores at offsets of one pointer change and what they leave; shared by
    the code that builds structures in guest memory (the start-up stack, the
    signal frame).  [mmu_w] on a private segment is the access they start with. *)

From S2P Require Import Prelude HostMem AddrSpace Segments.
From Stdlib Require Import Lia.
From stdpp Require Import base numbers list gmap strings option.

Open Scope Z_scope.

Definition lenZ {A} (l : list A) : Z := Z.of_nat (length l).

(** ** Writes through one pointer

    [writes p R m m']: [m'] is [m] after stores at offsets of [p] in [R]. *)

Inductive writes (p : hptr) (R : Z -> Prop) : mmem -> mmem -> Prop :=
| wr_refl m : writes p R m m
| wr_store m m1 o n x :
    writes p R m m1 -> (forall j, o <= j < o + Z.of_nat n -> R j) ->
    writes p R m (store m1 (padd p o) n x).

(** The byte at offset [o], and the [k]-th word. *)
Definition mb (m : mmem) (p : hptr) (o : Z) : Z := h_bytes (hst m) p.1 (p.2 + o).
Definition word (m : mmem) (p : hptr) (k : Z) : Z := load m (padd p (8 * k)) 8.

(** The bytes [bs] lie at offset [o]. *)
Definition at_off (m : mmem) (p : hptr) (o : Z) (bs : list Z) : Prop :=
  forall i b, bs !! i = Some b -> mb m p (o + Z.of_nat i) = b.

Lemma writes_mono p (R R' : Z -> Prop) m m' :
  writes p R m m' -> (forall j, R j -> R' j) -> writes p R' m m'.
Proof. intros Hw HR. induction Hw; [constructor|]. constructor; [done|]. auto. Qed.

Lemma writes_trans p R m1 m2 m3 : writes p R m1 m2 -> writes p R m2 m3 -> writes p R m1 m3.
Proof. intros H1 H2. induction H2; [done|]. constructor; auto. Qed.

Lemma writes_one p (R : Z -> Prop) m o n x :
  (forall j, o <= j < o + Z.of_nat n -> R j) -> writes p R m (store m (padd p o) n x).
Proof. intros. constructor; [constructor|done]. Qed.

Lemma writes_maps p R m m' : writes p R m m' -> maps m' = maps m /\ tlb m' = tlb m.
Proof. intros Hw. induction Hw as [|m m1 o n x Hw [E1 E2] HR]; [done|]. split; [exact E1|exact E2]. Qed.

Lemma writes_wf p R m m' : writes p R m m' -> mem_wf m -> mem_wf m'.
Proof. induction 1; [done|]. intros. apply store_wf. auto. Qed.

Lemma writes_share p R m m' all : writes p R m m' -> share_ok (hst m) all -> share_ok (hst m') all.
Proof. induction 1; [done|]. intros. apply host_write_share. auto. Qed.

Lemma writes_out p R m m' b o :
  writes p R m m' -> b <> p.1 \/ ~ R (o - p.2) -> h_bytes (hst m') b o = h_bytes (hst m) b o.
Proof.
  intros Hw Ho. induction Hw as [|m m1 o1 n x _ IH HR]; [done|].
  cbn [store set_host hst]. rewrite host_write_byte_out; [by apply IH|]. cbn.
  intros [-> Hr]. destruct Ho as [?|Ho]; [done|]. apply Ho, HR. lia.
Qed.

Lemma writes_mb p R m m' o : writes p R m m' -> ~ R o -> mb m' p o = mb m p o.
Proof.
  intros Hw Ho. apply (writes_out p R); [done|]. right. by replace (p.2 + o - p.2) with o by lia.
Qed.

Lemma writes_word p R m m' k :
  writes p R m m' -> (forall j, 8 * k <= j < 8 * k + 8 -> ~ R j) -> word m' p k = word m p k.
Proof.
  intros Hw Ho. unfold word, load, host_read. apply load_le_ext. intros j Hj. cbn [padd fst snd] in *.
  apply (writes_out p R); [done|]. right. apply Ho. lia.
Qed.

Lemma writes_at p R m m' o bs :
  writes p R m m' -> (forall j, o <= j < o + lenZ bs -> ~ R j) -> at_off m p o bs -> at_off m' p o bs.
Proof.
  intros Hw Ho Hb i b Hi. rewrite (writes_mb p R m m') by
    (try done; apply Ho; apply lookup_lt_Some in Hi; unfold lenZ; lia). by apply Hb.
Qed.

Lemma word_store m p k x : word (store m (padd p (8 * k)) 8 x) p k = x mod 2 ^ 64.
Proof. unfold word, load. cbn [store set_host hst]. apply (host_read_write_same (hst m)). Qed.

Lemma mb_store1 m p o x : mb (store m (padd p o) 1 x) p o = x mod 256.
Proof.
  unfold mb. cbn [store set_host hst]. unfold host_write. cbn. rewrite upd_block_same. unfold store_le.
  change (Z.of_nat 1) with 1. destruct (Z.leb_spec (p.2 + o) (p.2 + o)), (Z.ltb_spec (p.2 + o) (p.2 + o + 1)); try lia. cbn.
  by rewrite Z.sub_diag, Z.div_1_r.
Qed.

(** [mmu_w] on a private writable segment neither copies nor fails. *)
Lemma mmu_w_own {env : HostEnv} m addr size i mp :
  mem_wf m -> valid_access addr size -> maps m !! i = Some mp -> covers mp addr size ->
  map_writable mp = true -> m_cow mp = None ->
  (mmu_w m addr size).1 = Some (host_of mp addr) /\
  mem_wf (mmu_w m addr size).2 /\ maps (mmu_w m addr size).2 = maps m /\ hst (mmu_w m addr size).2 = hst m.
Proof.
  intros Hwf Hv Hi Hc Hwr Hcow. pose proof Hv as (? & ? & ?).
  unfold mmu_w. rewrite (uwrap_small 64) by lia. destruct (Z.ltb_spec (addr + size) addr); [lia|].
  destruct (_ && _) eqn:Hhit.
  - zprops. destruct (tlb_hit_translate m addr size Hwf Hv) as (k & mp' & Hk & Heq & Hc'); [done..|].
    assert (k = i) as -> by (eapply (covers_unique (maps m)); try done; apply Hwf).
    simplify_eq. rewrite Heq. by split_and!.
  - unfold mmu_w_slow.
    assert (find_map_locked (maps m) addr size = Some i) as -> by (apply find_map_spec; eauto; apply Hwf).
    rewrite Hi. unfold map_writable in Hwr. rewrite Hwr, Hcow. cbn [negb]. split; [done|].
    split; [by eapply fill_tlb_wf|done].
Qed.

(** Values of any width, at an offset of the pointer. *)
Lemma writes_load p R m m' o n :
  writes p R m m' -> (forall j, o <= j < o + Z.of_nat n -> ~ R j) -> load m' (padd p o) n = load m (padd p o) n.
Proof.
  intros Hw Ho. unfold load, host_read. apply load_le_ext. intros j Hj. cbn [padd fst snd] in *.
  apply (writes_out p R); [done|]. right. apply Ho. lia.
Qed.

Lemma load_store m p n x : load (store m p n x) p n = x mod 2 ^ (8 * Z.of_nat n).
Proof. apply host_read_write_same. Qed.

Lemma padd_padd p a b : padd (padd p a) b = padd p (a + b).
Proof. unfold padd. cbn. f_equal. lia. Qed.
