(* ===== verification/SetupStack.v ===== *)
(** * SetupStack: the initial stack of a guest program

    [vm::setup_stack] and [vm::run(options, info)] of insn.cpp: the stack
    segment, the sentinel frame, and the argc/argv/envp/auxv block the guest's
    libc parses at start-up.  The random bytes the host hands out are an
    argument. *)

From S2P Require Import Prelude HostMem AddrSpace Isa Vm Frame SoftFp Interp Segments Writes.
From Stdlib Require Import Lia.
From stdpp Require Import base numbers list gmap strings option sorting.

Open Scope Z_scope.
Open Scope vm_scope.

(** ** Data *)

(** [struct ElfLoadInfo]. *)
Record ElfLoadInfo := mkinfo {
  li_entry : Z;
  li_phdr : Z;
  li_phent : Z;
  li_phnum : Z;
  li_ldso_base : Z;
  li_app_entry : Z;
  li_app_load_base : Z;
  li_err : Z
}.

Definition AT_NULL : Z := 0.
Definition AT_PHDR : Z := 3.
Definition AT_PHENT : Z := 4.
Definition AT_PHNUM : Z := 5.
Definition AT_PAGESZ : Z := 6.
Definition AT_BASE : Z := 7.
Definition AT_ENTRY : Z := 9.
Definition AT_UID : Z := 11.
Definition AT_EUID : Z := 12.
Definition AT_GID : Z := 13.
Definition AT_EGID : Z := 14.
Definition AT_PLATFORM : Z := 15.
Definition AT_CLKTCK : Z := 17.
Definition AT_SECURE : Z := 23.
Definition AT_RANDOM : Z := 25.
Definition AT_EXECFN : Z := 31.

(** The bytes of a [std::string], and those [%s] prints of it. *)
Definition str_bytes (s : string) : list Z :=
  (fun c => Z.of_N (Ascii.N_of_ascii c)) <$> String.list_ascii_of_string s.

Fixpoint c_str (bs : list Z) : list Z :=
  match bs with
  | [] => []
  | b :: r => if b =? 0 then [] else b :: c_str r
  end.

(** What is copied for an argument, and what [sprintf("%s=%s")] writes. *)
Definition arg_item (a : string) : list Z := str_bytes a ++ [0].
Definition env_item (kv : string * string) : list Z :=
  c_str (str_bytes kv.1) ++ [61] ++ c_str (str_bytes kv.2) ++ [0].

Definition kPlatform : list Z := [98; 112; 102; 0].
Definition kRandomBytes : Z := 16.

(** The auxiliary vector before the pointer entries are filled in. *)
Definition auxv_of (info : ElfLoadInfo) : list (Z * Z) :=
  [(AT_PAGESZ, 4096); (AT_CLKTCK, 100); (AT_UID, 0); (AT_EUID, 0); (AT_GID, 0); (AT_EGID, 0);
   (AT_SECURE, 0); (AT_BASE, li_ldso_base info); (AT_PHDR, li_phdr info); (AT_PHENT, li_phent info);
   (AT_PHNUM, li_phnum info);
   (AT_ENTRY, if li_app_entry info =? 0 then li_entry info else li_app_entry info);
   (AT_PLATFORM, 0); (AT_EXECFN, 0); (AT_RANDOM, 0); (AT_NULL, 0)].

Definition strings_bytes (args : list string) (env : list (string * string)) : Z :=
  foldr (fun a n => lenZ (str_bytes a) + 1 + n) 0 args +
  foldr (fun kv n => lenZ (str_bytes kv.1) + 1 + lenZ (str_bytes kv.2) + 1 + n) 0 env.

Definition header_qwords (args : list string) (env : list (string * string)) (info : ElfLoadInfo) : Z :=
  1 + (lenZ args + 1) + (lenZ env + 1) + lenZ (auxv_of info) * 2.

Definition total_bytes (args : list string) (env : list (string * string)) (info : ElfLoadInfo) : Z :=
  header_qwords args env info * 8 + strings_bytes args env + lenZ kPlatform + kRandomBytes.

(** ** Operations *)

Section Setup.
Context {S : Type} {env : HostEnv}.

(** The stack segment, when nothing is mapped at [STACK_BASE]. *)
Definition alloc_stack (m : mmem) : option hptr * mmem :=
  if env_mmap_fails (hst m) STACK_SIZE then (None, m)
  else
    let '(p, h1) := host_mmap (hst m) (Z.lor PROT_READ PROT_WRITE) in
    (Some p, addmem (set_host m h1)
       (mkmap p (mkDeleter STACK_SIZE true) STACK_SIZE STACK_BASE PF_W None "<stack>")).

(** [memcpy(p + o, bs, len)]. *)
Fixpoint put_bytes (p : hptr) (o : Z) (bs : list Z) : M S unit :=
  match bs with
  | [] => ret tt
  | b :: r => storeM (padd p o) 1 b ;; put_bytes p (o + 1) r
  end.

(** The argv and envp loops: string, then header entry, then cursor. *)
Fixpoint put_strings (p : hptr) (idx cursor : Z) (items : list (list Z)) : M S Z :=
  match items with
  | [] => ret cursor
  | s :: r =>
    put_bytes p cursor s ;;
    store64 p idx (STACK_BASE + cursor) ;;
    put_strings p (idx + 1) (cursor + lenZ s) r
  end.

(** The value of an auxv entry with its pointer filled in. *)
Definition aux_value (platform_off execfn_ptr random_off : Z) (e : Z * Z) : Z :=
  if e.1 =? AT_PLATFORM then STACK_BASE + platform_off
  else if e.1 =? AT_EXECFN then execfn_ptr
  else if e.1 =? AT_RANDOM then STACK_BASE + random_off
  else e.2.

Fixpoint put_aux (p : hptr) (idx platform_off execfn_ptr random_off : Z) (aux : list (Z * Z)) : M S unit :=
  match aux with
  | [] => ret tt
  | e :: r =>
    store64 p idx e.1 ;;
    store64 p (idx + 1) (aux_value platform_off execfn_ptr random_off e) ;;
    put_aux p (idx + 2) platform_off execfn_ptr random_off r
  end.

(** The block at the bottom of the stack. *)
Definition fill_stack (p : hptr) (random : list Z) (args : list string) (envs : list (string * string))
    (info : ElfLoadInfo) : M S bool :=
  store64 p 0 (lenZ args) ;;
  cursor1 <- put_strings p 1 (header_qwords args envs info * 8) (arg_item <$> args) ;;
  store64 p (1 + lenZ args) 0 ;;
  let env_base := 1 + (lenZ args + 1) in
  cursor2 <- put_strings p env_base cursor1 (env_item <$> envs) ;;
  store64 p (env_base + lenZ envs) 0 ;;
  let aux_base := env_base + lenZ envs + 1 in
  put_bytes p cursor2 kPlatform ;;
  h1 <- load64 p 1 ;;
  let execfn_ptr := match args with [] => STACK_BASE + cursor2 | _ => h1 end in
  let random_off := cursor2 + lenZ kPlatform in
  put_bytes p random_off random ;;
  if negb (lenZ random =? kRandomBytes) then ret false
  else
    put_aux p aux_base cursor2 execfn_ptr random_off (auxv_of info) ;;
    set_r 1 STACK_BASE ;;
    ret true.

(** [vm::setup_stack]. *)
Definition setup_stack (random : list Z) (args : list string) (envs : list (string * string))
    (info : ElfLoadInfo) : M S bool :=
  base0 <- mmuM STACK_BASE 1 ;;
  base <- match base0 with Some p => ret (Some p) | None => mem_op alloc_stack end ;;
  match base with
  | None => ret false
  | Some stack_base =>
    set_r 10 (STACK_BASE + STACK_SIZE - 8) ;;
    sentinel <- mmu_wM (STACK_BASE + STACK_SIZE - 8) 8 ;;
    match sentinel with
    | None => ret false
    | Some s =>
      limit <- gets (fun v => stack_limit (options v)) ;;
      store64 s 0 (frame_flags_make false limit 0) ;;
      raw <- gets (fun v => raw_stack (options v)) ;;
      if raw : bool then ret true
      else if STACK_SIZE <? total_bytes args envs info then ret false
      else
        room <- mmuM STACK_BASE (total_bytes args envs info) ;;
        match room with
        | None => ret false
        | Some _ => fill_stack stack_base random args envs info
        end
    end
  end.

End Setup.

(** [vm::run(const vmOptions*, const ElfLoadInfo&)]; [n] is the fuel of [run]. *)
Definition run_program {S : Type} {env : HostEnv} {fp : HostFp} `{SyscallHandler S} `{DebugHooks S} {jit : Jit S}
    (n : nat) (random : list Z) (opts : vmOptions) (info : ElfLoadInfo) : M S Z :=
  modify (set_options opts) ;;
  modify (set_insn_count 0) ;;
  modify (set_interp_insns 0) ;;
  img <- gets image ;;
  let entry := default 0 img in
  ok <- setup_stack random (argv opts) (envp opts) info ;;
  if negb ok then ret 0
  else
    clear_flags (Z.lor VM_EXITED VM_KILLED) ;;
    put_pc entry ;;
    p <- mmuM entry INSN_SIZE ;;
    match p with
    | None => ret 0
    | Some _ =>
      push_frame 0 entry false false ;;
      run n
    end.

Definition byte_list (bs : list Z) : Prop := Forall (fun b => 0 <= b < 256) bs.

(** Goals about regions. *)
Ltac rlia := intros; cbn beta in *; lia.

Section Phases.
Context {S : Type}.

Lemma store64_eq p k x (v : vm S) : store64 p k x v = Ok tt (set_mm (store (mm v) (padd p (8 * k)) 8 x) v).
Proof. done. Qed.

Lemma load64_eq p k (v : vm S) : load64 p k v = Ok (word (mm v) p k) v.
Proof. done. Qed.

Lemma put_bytes_ok p : forall bs o (v : vm S),
  byte_list bs -> exists m', put_bytes p o bs v = Ok tt (set_mm m' v) /\
    writes p (fun j => o <= j < o + lenZ bs) (mm v) m' /\ at_off m' p o bs.
Proof.
  induction bs as [|b r IH]; intros o v Hb; cbn [put_bytes].
  { exists (mm v). split; [by rewrite set_mm_id|]. split; [constructor|by intros i b]. }
  apply Forall_cons_iff in Hb as [Hb Hr]. unfold bind, storeM, modify.
  destruct (IH (o + 1) (set_mm (store (mm v) (padd p o) 1 b) v) Hr) as (m' & E & Hw & Ha). cbn [mm set_mm] in *.
  exists m'. split; [rewrite E; by rewrite set_mm_set_mm|]. unfold lenZ in *. cbn [length]. split.
  - apply (writes_trans _ _ _ (store (mm v) (padd p o) 1 b)); [apply writes_one; rlia|].
    eapply writes_mono; [exact Hw|]. rlia.
  - intros [|i] c Hi; cbn in Hi; simplify_eq.
    + rewrite Z.add_0_r. rewrite (writes_mb _ _ _ _ _ Hw) by rlia. rewrite mb_store1. by apply Z.mod_small.
    + rewrite <- (Ha i c Hi). f_equal. lia.
Qed.

(** The strings of a loop: sizes, and where each one lies. *)
Definition items_size (items : list (list Z)) : Z := foldr (fun s n => lenZ s + n) 0 items.

Lemma items_size_nonneg items : 0 <= items_size items.
Proof. induction items as [|s r IH]; cbn [items_size foldr]; [lia|]. fold (items_size r). unfold lenZ. lia. Qed.

(** Header entry [idx] points to a copy of [s] inside [lo, hi). *)
Definition points_to (m : mmem) (p : hptr) (idx lo hi : Z) (s : list Z) : Prop :=
  exists q, lo <= q /\ q + lenZ s <= hi /\ word m p idx = STACK_BASE + q /\ at_off m p q s.

Lemma points_to_writes p R m m' idx lo hi s :
  writes p R m m' -> (forall j, 8 * idx <= j < 8 * idx + 8 -> ~ R j) ->
  (forall j, lo <= j < hi -> ~ R j) -> points_to m p idx lo hi s -> points_to m' p idx lo hi s.
Proof.
  intros Hw Hi Hr (q & H1 & H2 & H3 & H4). exists q. split; [done|]. split; [done|]. split.
  - by rewrite (writes_word _ _ _ _ _ Hw).
  - eapply writes_at; [exact Hw| |done]. intros j Hj. apply Hr. lia.
Qed.

Lemma put_strings_ok p : forall items idx cursor (v : vm S),
  Forall byte_list items -> 0 <= idx -> 8 * (idx + lenZ items) <= cursor ->
  cursor + items_size items <= STACK_SIZE ->
  exists m', put_strings p idx cursor items v = Ok (cursor + items_size items) (set_mm m' v) /\
    writes p (fun j => 8 * idx <= j < 8 * (idx + lenZ items) \/ cursor <= j < cursor + items_size items) (mm v) m' /\
    forall i s, items !! i = Some s ->
      points_to m' p (idx + Z.of_nat i) cursor (cursor + items_size items) s.
Proof.
  induction items as [|s r IH]; intros idx cursor v Hb Hidx Hcur Hsz; cbn [put_strings items_size foldr].
  { exists (mm v). split; [cbn; by rewrite Z.add_0_r, set_mm_id|]. split; [constructor|by intros i s]. }
  apply Forall_cons_iff in Hb as [Hs Hr]. fold (items_size r) in *.
  pose proof (items_size_nonneg r) as Hnn.
  assert (lenZ (s :: r) = lenZ r + 1) as Hlen by (unfold lenZ; cbn [length]; lia). rewrite Hlen in *.
  assert (0 <= lenZ s) as Hls by (unfold lenZ; lia). assert (0 <= lenZ r) as Hlr by (unfold lenZ; lia).
  cbn [items_size foldr] in Hsz. fold (items_size r) in Hsz.
  destruct (put_bytes_ok p s cursor v Hs) as (m1 & E1 & W1 & A1).
  set (m2 := store m1 (padd p (8 * idx)) 8 (STACK_BASE + cursor)).
  assert (writes p (fun j => 8 * idx <= j < 8 * idx + 8) m1 m2) as W2 by (apply writes_one; rlia).
  destruct (IH (idx + 1) (cursor + lenZ s) (set_mm m2 v)) as (m' & E3 & W3 & P3);
    [done|lia|lia|lia|]. cbn [mm set_mm] in W3.
  exists m'. split.
  { unfold bind. rewrite E1, store64_eq, set_mm_set_mm.
    change (store (mm (set_mm m1 v)) (padd p (8 * idx)) 8 (STACK_BASE + cursor)) with m2. rewrite E3.
    f_equal. lia. }
  split.
  { eapply writes_trans; [eapply writes_mono; [exact W1|rlia]|].
    eapply writes_trans; [eapply writes_mono; [exact W2|rlia]|].
    eapply writes_mono; [exact W3|]. rlia. }
  intros [|i] t Hi; cbn in Hi; simplify_eq.
  - rewrite Z.add_0_r. exists cursor. split; [lia|]. split; [lia|]. split.
    + rewrite (writes_word _ _ _ _ _ W3) by (rlia). unfold m2. rewrite word_store.
      apply Z.mod_small. unfold STACK_BASE, STACK_SIZE in *. lia.
    + eapply writes_at; [exact W3|rlia|]. eapply writes_at; [exact W2|rlia|]. exact A1.
  - destruct (P3 i t Hi) as (q & H1 & H2 & H3 & H4). exists q. split; [lia|]. split; [lia|].
    replace (idx + Z.of_nat (Datatypes.S i)) with (idx + 1 + Z.of_nat i) by lia. by split.
Qed.

Lemma put_aux_ok p po ep ro : forall aux idx (v : vm S),
  exists m', put_aux p idx po ep ro aux v = Ok tt (set_mm m' v) /\
    writes p (fun j => 8 * idx <= j < 8 * (idx + 2 * lenZ aux)) (mm v) m' /\
    forall i e, aux !! i = Some e ->
      word m' p (idx + 2 * Z.of_nat i) = e.1 mod 2 ^ 64 /\
      word m' p (idx + 2 * Z.of_nat i + 1) = aux_value po ep ro e mod 2 ^ 64.
Proof.
  induction aux as [|e r IH]; intros idx v; cbn [put_aux].
  { exists (mm v). split; [by rewrite set_mm_id|]. split; [constructor|by intros i e]. }
  assert (lenZ (e :: r) = lenZ r + 1) as Hlen by (unfold lenZ; cbn [length]; lia). rewrite Hlen.
  assert (0 <= lenZ r) as Hlr by (unfold lenZ; lia).
  set (m1 := store (mm v) (padd p (8 * idx)) 8 e.1).
  set (m2 := store m1 (padd p (8 * (idx + 1))) 8 (aux_value po ep ro e)).
  assert (writes p (fun j => 8 * idx <= j < 8 * idx + 8) (mm v) m1) as W1 by (apply writes_one; rlia).
  assert (writes p (fun j => 8 * idx + 8 <= j < 8 * idx + 16) m1 m2) as W2 by (apply writes_one; rlia).
  destruct (IH (idx + 2) (set_mm m2 v)) as (m' & E & W & P). cbn [mm set_mm] in W.
  exists m'. split; [unfold bind; rewrite !store64_eq; cbn [mm set_mm]; exact E|]. split.
  { eapply writes_trans; [eapply writes_mono; [exact W1|rlia]|].
    eapply writes_trans; [eapply writes_mono; [exact W2|rlia]|].
    eapply writes_mono; [exact W|]. rlia. }
  intros [|i] t Hi; cbn in Hi; simplify_eq.
  - rewrite Z.mul_0_r, !Z.add_0_r. split.
    + rewrite (writes_word _ _ _ _ _ W) by (rlia). rewrite (writes_word _ _ _ _ _ W2) by (rlia).
      apply word_store.
    + rewrite (writes_word _ _ _ _ _ W) by (rlia). apply word_store.
  - destruct (P i t Hi) as [H1 H2]. replace (idx + 2 * Z.of_nat (Datatypes.S i)) with (idx + 2 + 2 * Z.of_nat i) by lia. by split.
Qed.

End Phases.

(** ** The block *)

Lemma str_bytes_ok s : byte_list (str_bytes s).
Proof.
  unfold byte_list, str_bytes. apply Forall_fmap. apply list.Forall_forall. intros c _. cbn.
  pose proof (Ascii.N_ascii_bounded c). lia.
Qed.

Lemma c_str_ok bs : byte_list bs -> byte_list (c_str bs).
Proof. induction 1 as [|b r Hb _ IH]; cbn; [constructor|]. destruct (b =? 0); constructor; auto. Qed.

Lemma c_str_len bs : lenZ (c_str bs) <= lenZ bs.
Proof. unfold lenZ. induction bs as [|b r IH]; cbn [c_str length]; [lia|]. destruct (b =? 0); cbn [length]; lia. Qed.

Lemma lenZ_app {A} (l k : list A) : lenZ (l ++ k) = lenZ l + lenZ k.
Proof. unfold lenZ. rewrite length_app. lia. Qed.

Lemma lenZ_fmap {A B} (f : A -> B) l : lenZ (f <$> l) = lenZ l.
Proof. unfold lenZ. by rewrite length_fmap. Qed.

Lemma lenZ_nonneg {A} (l : list A) : 0 <= lenZ l.
Proof. unfold lenZ. lia. Qed.

Lemma arg_item_ok a : byte_list (arg_item a) /\ lenZ (arg_item a) = lenZ (str_bytes a) + 1.
Proof.
  split; [|by unfold arg_item; rewrite lenZ_app].
  apply Forall_app. split; [apply str_bytes_ok|]. by repeat constructor.
Qed.

Lemma env_item_ok kv :
  byte_list (env_item kv) /\ lenZ (env_item kv) <= lenZ (str_bytes kv.1) + 1 + lenZ (str_bytes kv.2) + 1.
Proof.
  split.
  - unfold env_item, byte_list. rewrite !Forall_app.
    split_and!; try (apply c_str_ok, str_bytes_ok); by repeat constructor.
  - unfold env_item. rewrite !lenZ_app. pose proof (c_str_len (str_bytes kv.1)). pose proof (c_str_len (str_bytes kv.2)).
    change (lenZ [61]) with 1. change (lenZ [0]) with 1. lia.
Qed.

Lemma items_ok args envs :
  Forall byte_list (arg_item <$> args) /\ Forall byte_list (env_item <$> envs) /\
  items_size (arg_item <$> args) + items_size (env_item <$> envs) <= strings_bytes args envs.
Proof.
  unfold strings_bytes. split_and!.
  - apply Forall_fmap, list.Forall_forall. intros a _. apply arg_item_ok.
  - apply Forall_fmap, list.Forall_forall. intros a _. apply env_item_ok.
  - assert (items_size (arg_item <$> args) <= foldr (fun a n => lenZ (str_bytes a) + 1 + n) 0 args).
    { induction args as [|a r IH]; [done|]. cbn [items_size foldr fmap list_fmap] in *.
      destruct (arg_item_ok a) as [_ ->]. fold (items_size (arg_item <$> r)). unfold items_size in *. lia. }
    assert (items_size (env_item <$> envs) <=
      foldr (fun kv n => lenZ (str_bytes kv.1) + 1 + lenZ (str_bytes kv.2) + 1 + n) 0 envs); [|lia].
    clear. induction envs as [|a r IH]; [done|]. cbn [items_size foldr fmap list_fmap] in *.
    destruct (env_item_ok a) as [_ ?]. unfold items_size in *. lia.
Qed.

(** The start-up block at [p]: what the guest's libc finds. *)
Record start_block (m : mmem) (p : hptr) (random : list Z) (args : list string)
    (envs : list (string * string)) (info : ElfLoadInfo) : Prop := {
  sb_argc : word m p 0 = lenZ args;
  sb_argv i a : args !! i = Some a ->
    points_to m p (1 + Z.of_nat i) 0 (total_bytes args envs info) (arg_item a);
  sb_argv_null : word m p (1 + lenZ args) = 0;
  sb_envp i e : envs !! i = Some e ->
    points_to m p (2 + lenZ args + Z.of_nat i) 0 (total_bytes args envs info) (env_item e);
  sb_envp_null : word m p (2 + lenZ args + lenZ envs) = 0;
  sb_auxv : exists po ro,
    0 <= po /\ po + 4 <= total_bytes args envs info /\ 0 <= ro /\ ro + kRandomBytes <= total_bytes args envs info /\
    at_off m p po kPlatform /\ at_off m p ro random /\
    forall i e, auxv_of info !! i = Some e ->
      word m p (3 + lenZ args + lenZ envs + 2 * Z.of_nat i) = e.1 /\
      word m p (3 + lenZ args + lenZ envs + 2 * Z.of_nat i + 1) =
        u64 (aux_value po (match args with [] => STACK_BASE + po | _ => word m p 1 end) ro e)
}.

Lemma auxv_types info i e : auxv_of info !! i = Some e -> 0 <= e.1 < 2 ^ 64.
Proof.
  intros Hi. apply list_elem_of_lookup_2 in Hi. unfold auxv_of in Hi. rewrite !elem_of_cons, elem_of_nil in Hi.
  repeat (destruct Hi as [->|Hi]; [vm_compute; split; congruence|]). done.
Qed.

Lemma points_to_widen m p idx lo hi lo' hi' s :
  lo' <= lo -> hi <= hi' -> points_to m p idx lo hi s -> points_to m p idx lo' hi' s.
Proof. intros ?? (q & ? & ? & ? & ?). exists q. split_and!; (done || lia). Qed.

Lemma fill_stack_ok {S : Type} (p : hptr) random args envs info (v : vm S) :
  byte_list random -> lenZ random = kRandomBytes -> total_bytes args envs info <= STACK_SIZE ->
  exists m', fill_stack p random args envs info v = Ok true (set_mm m' (set_reg (<[1%nat := STACK_BASE]> (reg v)) v)) /\
    writes p (fun j => 0 <= j < total_bytes args envs info) (mm v) m' /\
    start_block m' p random args envs info.
Proof.
  intros Hrb Hrl Htot. destruct (items_ok args envs) as (Ha & He & Hsz).
  pose proof (lenZ_nonneg args) as HA. pose proof (lenZ_nonneg envs) as HE.
  pose proof (items_size_nonneg (arg_item <$> args)) as HsA. pose proof (items_size_nonneg (env_item <$> envs)) as HsE.
  set (A := lenZ args) in *. set (E := lenZ envs) in *.
  set (sa := items_size (arg_item <$> args)) in *. set (se := items_size (env_item <$> envs)) in *.
  assert (header_qwords args envs info * 8 = 8 * (A + E + 35)) as HB.
  { unfold header_qwords. fold A E. change (lenZ (auxv_of info)) with 16. lia. }
  set (hb := header_qwords args envs info * 8) in *.
  assert (total_bytes args envs info = hb + strings_bytes args envs + 20) as Ht.
  { unfold total_bytes. fold hb. change (lenZ kPlatform) with 4. unfold kRandomBytes. lia. }
  set (T := total_bytes args envs info) in *.
  unfold fill_stack. fold hb A E.
  set (m1 := store (mm v) (padd p (8 * 0)) 8 A).
  assert (writes p (fun j => 0 <= j < 8) (mm v) m1) as W1 by (apply writes_one; rlia).
  destruct (put_strings_ok p (arg_item <$> args) 1 hb (set_mm m1 v)) as (m2 & E2 & W2 & P2);
    [done|lia|rewrite lenZ_fmap; lia|fold sa; lia|]. rewrite lenZ_fmap in W2. fold sa A in E2, W2, P2.
  set (m3 := store m2 (padd p (8 * (1 + A))) 8 0).
  assert (writes p (fun j => 8 * (1 + A) <= j < 8 * (1 + A) + 8) m2 m3) as W3 by (apply writes_one; rlia).
  destruct (put_strings_ok p (env_item <$> envs) (1 + (A + 1)) (hb + sa) (set_mm m3 v)) as (m4 & E4 & W4 & P4);
    [done|lia|rewrite lenZ_fmap; lia|fold se; lia|]. rewrite lenZ_fmap in W4. fold se E in E4, W4, P4.
  set (m5 := store m4 (padd p (8 * (1 + (A + 1) + E))) 8 0).
  assert (writes p (fun j => 8 * (2 + A + E) <= j < 8 * (2 + A + E) + 8) m4 m5) as W5 by (apply writes_one; rlia).
  set (po := hb + sa + se) in *.
  destruct (put_bytes_ok p kPlatform po (set_mm m5 v)) as (m6 & E6 & W6 & P6); [by repeat constructor|].
  change (lenZ kPlatform) with 4 in *.
  destruct (put_bytes_ok p random (po + 4) (set_mm m6 v)) as (m7 & E7 & W7 & P7); [done|].
  rewrite Hrl in W7. unfold kRandomBytes in W7.
  set (ep := match args with [] => STACK_BASE + po | _ :: _ => word m6 p 1 end).
  destruct (put_aux_ok p po ep (po + 4) (auxv_of info) (1 + (A + 1) + E + 1) (set_mm m7 v)) as (m8 & E8 & W8 & P8).
  change (lenZ (auxv_of info)) with 16 in W8.
  cbn [mm set_mm] in *.
  (* the later phases, seen from each entry *)
  assert (writes p (fun j => 8 * (3 + A + E) <= j) m5 m8) as W58.
  { eapply writes_trans; [eapply writes_mono; [exact W6|rlia]|].
    eapply writes_trans; [eapply writes_mono; [exact W7|rlia]|].
    eapply writes_mono; [exact W8|rlia]. }
  assert (writes p (fun j => 8 * (2 + A) <= j < hb \/ hb + sa <= j) m3 m8) as W38.
  { eapply writes_trans; [eapply writes_mono; [exact W4|rlia]|].
    eapply writes_trans; [eapply writes_mono; [exact W5|rlia]|].
    eapply writes_trans; [eapply writes_mono; [exact W6|rlia]|].
    eapply writes_trans; [eapply writes_mono; [exact W7|rlia]|].
    eapply writes_mono; [exact W8|rlia]. }
  assert (writes p (fun j => 8 * (2 + A + E) <= j < hb \/ po <= j) m4 m8) as W48.
  { eapply writes_trans; [eapply writes_mono; [exact W5|rlia]|].
    eapply writes_trans; [eapply writes_mono; [exact W6|rlia]|].
    eapply writes_trans; [eapply writes_mono; [exact W7|rlia]|].
    eapply writes_mono; [exact W8|rlia]. }
  exists m8. split; [|split].
  - rewrite (run_bind _ _ v tt m1) by done. rewrite (run_bind _ _ _ _ _ E2), set_mm_set_mm.
    rewrite (run_bind _ _ _ tt m3) by done. rewrite set_mm_set_mm, (run_bind _ _ _ _ _ E4), set_mm_set_mm.
    fold po. rewrite (run_bind _ _ _ tt m5) by done. rewrite set_mm_set_mm, (run_bind _ _ _ _ _ E6), set_mm_set_mm.
    unfold bind at 1. rewrite load64_eq. cbn [mm set_mm].
    rewrite (run_bind _ _ _ _ _ E7), set_mm_set_mm, Hrl, Z.eqb_refl. cbn [negb].
    fold ep. by rewrite (run_bind _ _ _ _ _ E8), set_mm_set_mm.
  - eapply writes_trans; [eapply writes_mono; [exact W1|rlia]|].
    eapply writes_trans; [eapply writes_mono; [exact W2|rlia]|].
    eapply writes_trans; [eapply writes_mono; [exact W3|rlia]|].
    eapply writes_trans; [eapply writes_mono; [exact W4|rlia]|].
    eapply writes_trans; [eapply writes_mono; [exact W5|rlia]|].
    eapply writes_trans; [eapply writes_mono; [exact W6|rlia]|].
    eapply writes_trans; [eapply writes_mono; [exact W7|rlia]|].
    eapply writes_mono; [exact W8|rlia].
  - split; fold A E T.
    + rewrite (writes_word _ _ _ _ _ W38), (writes_word _ _ _ _ _ W3), (writes_word _ _ _ _ _ W2) by rlia.
      unfold m1. rewrite (word_store (mm v) p 0). apply Z.mod_small. unfold STACK_SIZE in *. lia.
    + intros i a Hi. assert ((arg_item <$> args) !! i = Some (arg_item a)) as Hi' by (by rewrite list_lookup_fmap, Hi).
      assert (Z.of_nat i < A) as HiA by (apply lookup_lt_Some in Hi; unfold A, lenZ; lia).
      apply (points_to_widen _ _ _ hb (hb + sa)); [lia..|].
      apply (points_to_writes p _ m3 m8 _ _ _ _ W38); [rlia|rlia|].
      apply (points_to_writes p _ m2 m3 _ _ _ _ W3); [rlia|rlia|]. exact (P2 i _ Hi').
    + rewrite (writes_word _ _ _ _ _ W38) by rlia. unfold m3. by rewrite word_store.
    + intros i e Hi. assert ((env_item <$> envs) !! i = Some (env_item e)) as Hi' by (by rewrite list_lookup_fmap, Hi).
      assert (Z.of_nat i < E) as HiE by (apply lookup_lt_Some in Hi; unfold E, lenZ; lia).
      apply (points_to_widen _ _ _ (hb + sa) (hb + sa + se)); [lia..|].
      apply (points_to_writes p _ m4 m8 _ _ _ _ W48); [rlia|rlia|].
      replace (2 + A + Z.of_nat i) with (1 + (A + 1) + Z.of_nat i) by lia. exact (P4 i _ Hi').
    + rewrite (writes_word _ _ _ _ _ W58) by rlia. replace (2 + A + E) with (1 + (A + 1) + E) by lia.
      unfold m5. by rewrite word_store.
    + exists po, (po + 4). unfold kRandomBytes. split_and!; try lia.
      * eapply writes_at; [exact W8|change (lenZ kPlatform) with 4; rlia|].
        eapply writes_at; [exact W7|change (lenZ kPlatform) with 4; rlia|]. exact P6.
      * eapply writes_at; [exact W8|rewrite Hrl; unfold kRandomBytes; rlia|]. exact P7.
      * intros i e Hi. destruct (P8 i e Hi) as [H1 H2].
        replace (3 + A + E + 2 * Z.of_nat i) with (1 + (A + 1) + E + 1 + 2 * Z.of_nat i) by lia.
        split; [rewrite H1; apply Z.mod_small; by eapply auxv_types|]. rewrite H2. unfold ep, uwrap.
        destruct args as [|a0 args']; [done|]. assert (1 <= A) by (unfold A, lenZ; cbn [length]; lia).
        do 2 f_equal. rewrite (writes_word _ _ _ _ _ W8) by rlia. by rewrite (writes_word _ _ _ _ _ W7) by rlia.
Qed.

(** ** The stack segment *)

Definition stack_free (ms : list memmap) : Prop :=
  Forall (fun m => m_paddr m + m_size m <= STACK_BASE \/ STACK_BASE + STACK_SIZE <= m_paddr m) ms.

Definition stack_seg (p : hptr) : memmap :=
  mkmap p (mkDeleter STACK_SIZE true) STACK_SIZE STACK_BASE PF_W None "<stack>".

Lemma alloc_stack_ok {env : HostEnv} m others :
  mem_wf m -> share_ok (hst m) (maps m ++ others) -> stack_free (maps m) ->
  env_mmap_fails (hst m) STACK_SIZE = false ->
  exists p m', alloc_stack m = (Some p, m') /\ mem_wf m' /\ share_ok (hst m') (maps m' ++ others) /\
    stack_seg p ∈ maps m' /\
    forall a, 0 <= a < 2 ^ 64 -> ~ (STACK_BASE <= a < STACK_BASE + STACK_SIZE) -> gbyte m' a = gbyte m a.
Proof.
  intros Hwf Hs Hfree Hf. unfold alloc_stack. rewrite Hf. cbn [host_mmap].
  pose proof (host_mmap_extends (hst m) (Z.lor PROT_READ PROT_WRITE)) as Hext. cbn in Hext.
  eexists _, _. split; [reflexivity|]. fold (stack_seg (h_next (hst m), 0)).
  set (m1 := set_host m _). set (sp := stack_seg (h_next (hst m), 0)).
  assert (wf_map sp) as Hsp by (unfold wf_map, sp, stack_seg, STACK_BASE, STACK_SIZE; cbn; lia).
  assert (mem_wf m1) as Hwf1.
  { destruct Hwf as [W1 W2 W3 W4]. constructor; try done.
    - eapply Forall_impl; [exact W3|]. intros x Hx. cbn in *. lia.
    - by apply Hext. }
  assert (Forall (fun x => below x sp \/ below sp x) (maps m1)) as Hbel.
  { eapply Forall_impl; [exact Hfree|]. intros x Hx. unfold below, sp, stack_seg. cbn in *. lia. }
  assert (mem_wf (addmem m1 sp)) as Hwf2 by (apply addmem_wf; try done; cbn; lia).
  assert (insert_map sp (maps m) ≡ₚ sp :: maps m) as Hperm.
  { clear. induction (maps m) as [|x r IH]; [done|]. cbn. destruct (_ <? _); [|done].
    rewrite IH. apply Permutation_swap. }
  split; [done|]. split.
  - cbn [addmem flush_tlb maps hst m1 set_host]. rewrite Hperm.
    apply (share_ok_fresh (hst m)); try done. cbn. lia.
  - split; [cbn [addmem flush_tlb maps m1 set_host]; rewrite Hperm; by constructor|].
    intros a Ha Hn. change (gbyte m a) with (gbyte_in (hst m) (maps m) a).
    rewrite <- (gbyte_in_extends (hst m) (hst m1) (maps m)) by (done || apply Hwf).
    apply (gbyte_in_seg_at (hst m1) (hst m1)); [done|]. cbn [addmem flush_tlb maps m1 set_host].
    rewrite (seg_at_insert sp (maps m)) by (done || apply Hwf || apply Hwf2).
    assert ((m_paddr sp <=? a) && (a <? m_paddr sp + m_size sp) = false) as ->; [|done].
    unfold sp, stack_seg. cbn [m_paddr m_size]. zcases; (done || lia).
Qed.

(** ** What the guest reads *)

Definition gword (m : mmem) (k : Z) : Z := gload m (STACK_BASE + 8 * k) 8.

(** The bytes [bs] lie at guest address [a]. *)
Definition at_guest (m : mmem) (a : Z) (bs : list Z) : Prop :=
  forall i b, bs !! i = Some b -> gbyte m (a + Z.of_nat i) = Some b.

Record guest_start (m : mmem) (random : list Z) (args : list string)
    (envs : list (string * string)) (info : ElfLoadInfo) : Prop := {
  gs_argc : gword m 0 = lenZ args;
  gs_argv i a : args !! i = Some a -> at_guest m (gword m (1 + Z.of_nat i)) (arg_item a);
  gs_argv_null : gword m (1 + lenZ args) = 0;
  gs_envp i e : envs !! i = Some e -> at_guest m (gword m (2 + lenZ args + Z.of_nat i)) (env_item e);
  gs_envp_null : gword m (2 + lenZ args + lenZ envs) = 0;
  gs_auxv : exists pl rn, at_guest m pl kPlatform /\ at_guest m rn random /\
    forall i e, auxv_of info !! i = Some e ->
      gword m (3 + lenZ args + lenZ envs + 2 * Z.of_nat i) = e.1 /\
      gword m (3 + lenZ args + lenZ envs + 2 * Z.of_nat i + 1) =
        u64 (if e.1 =? AT_PLATFORM then pl
             else if e.1 =? AT_EXECFN then match args with [] => pl | _ => gword m 1 end
             else if e.1 =? AT_RANDOM then rn else e.2)
}.

(** A word of the stack, as the guest loads it. *)
Lemma stack_word m p k :
  mem_wf m -> stack_seg p ∈ maps m -> 0 <= k -> 8 * k + 8 <= STACK_SIZE -> gword m k = word m p k.
Proof.
  intros Hwf Hin Hk1 Hk2. apply list_elem_of_lookup in Hin as [i0 Hi0].
  symmetry. apply (load_gload m STACK_BASE STACK_SIZE); [apply Hwf| | |lia|lia].
  - unfold valid_access, STACK_BASE, STACK_SIZE. lia.
  - rewrite (translate_covers (maps m) i0 (stack_seg p)) by
      (done || apply Hwf || unfold covers, valid_access, stack_seg; cbn; lia).
    unfold host_of, padd. cbn. rewrite Z.add_0_r. by destruct p.
Qed.

Lemma guest_start_of_block m p random args envs info :
  mem_wf m -> stack_seg p ∈ maps m -> total_bytes args envs info <= STACK_SIZE ->
  lenZ random = kRandomBytes ->
  start_block m p random args envs info -> guest_start m random args envs info.
Proof.
  intros Hwf Hin Ht Hrl [B1 B2 B3 B4 B5 (po & ro & Hpo1 & Hpo2 & Hro1 & Hro2 & B6 & B7 & B8)].
  pose proof Hin as Hin'. apply list_elem_of_lookup in Hin' as [i0 Hi0].
  assert (valid_access STACK_BASE STACK_SIZE) as Hva by (unfold valid_access, STACK_BASE, STACK_SIZE; lia).
  assert (translate (maps m) STACK_BASE STACK_SIZE = Some p) as Htr.
  { rewrite (translate_covers (maps m) i0 (stack_seg p)) by
      (done || apply Hwf || unfold covers, stack_seg; cbn; lia).
    unfold host_of, padd. cbn. rewrite Z.add_0_r. by destruct p. }
  assert (forall k, 0 <= k -> 8 * k + 8 <= STACK_SIZE -> gword m k = word m p k) as HW by (by intros; apply stack_word).
  assert (forall o bs, 0 <= o -> o + lenZ bs <= STACK_SIZE -> at_off m p o bs -> at_guest m (STACK_BASE + o) bs) as HA.
  { intros o bs Ho Hob Hat j b Hj. pose proof (lookup_lt_Some _ _ _ Hj). unfold lenZ in Hob. unfold gbyte.
    replace (STACK_BASE + o + Z.of_nat j) with (STACK_BASE + (o + Z.of_nat j)) by lia.
    rewrite (translate_byte (maps m) STACK_BASE STACK_SIZE p) by (done || apply Hwf || lia).
    cbn. f_equal. exact (Hat j b Hj). }
  assert (8 * (lenZ args + lenZ envs + 35) + 20 <= total_bytes args envs info) as Hhdr.
  { unfold total_bytes, header_qwords. change (lenZ (auxv_of info)) with 16. change (lenZ kPlatform) with 4.
    unfold kRandomBytes. destruct (items_ok args envs) as (_ & _ & Hsz).
    pose proof (items_size_nonneg (arg_item <$> args)). pose proof (items_size_nonneg (env_item <$> envs)). lia. }
  pose proof (lenZ_nonneg args). pose proof (lenZ_nonneg envs).
  assert (forall idx s, points_to m p idx 0 (total_bytes args envs info) s -> 0 <= idx -> 8 * idx + 8 <= STACK_SIZE ->
            at_guest m (gword m idx) s) as HP.
  { intros idx s (q & Hq1 & Hq2 & Hq3 & Hq4) Hi1 Hi2. rewrite HW, Hq3 by done. apply HA; [done|lia|done]. }
  split.
  - by rewrite HW by lia.
  - intros i a Hi. pose proof (lookup_lt_Some _ _ _ Hi). apply HP; [by apply B2| |]; unfold lenZ in *; lia.
  - by rewrite HW by lia.
  - intros i e Hi. pose proof (lookup_lt_Some _ _ _ Hi). apply HP; [by apply B4| |]; unfold lenZ in *; lia.
  - by rewrite HW by lia.
  - exists (STACK_BASE + po), (STACK_BASE + ro). split; [apply HA; [done|change (lenZ kPlatform) with 4; lia|done]|].
    split; [apply HA; [done|unfold kRandomBytes in *; lia|done]|]. intros i e Hi.
    assert (Z.of_nat i < 16) as Hi16 by (apply lookup_lt_Some in Hi; change (length (auxv_of info)) with 16%nat in Hi; lia).
    destruct (B8 i e Hi) as [H1 H2]. rewrite !HW by lia. split; [done|]. rewrite H2. unfold aux_value.
    destruct (e.1 =? AT_PLATFORM); [done|]. destruct (e.1 =? AT_EXECFN); [|done].
    by destruct args.
Qed.

(** Stores through the stack segment's pointer leave the other guest bytes. *)
Lemma writes_gbyte {env : HostEnv} p m m' others a :
  writes p (fun j => 0 <= j < STACK_SIZE) m m' -> mem_wf m -> share_ok (hst m) (maps m ++ others) ->
  stack_seg p ∈ maps m -> 0 <= a < 2 ^ 64 -> ~ (STACK_BASE <= a < STACK_BASE + STACK_SIZE) ->
  gbyte m' a = gbyte m a.
Proof.
  intros Hw Hwf Hs Hin Ha Hout. induction Hw as [|m m1 o n x Hw IH HR]; [done|].
  rewrite <- IH by done. destruct (writes_maps _ _ _ _ Hw) as [Em _].
  destruct n as [|n].
  { unfold gbyte. cbn [store set_host hst maps]. destruct (translate (maps m1) a 1) as [q|]; [|done]. cbn.
    f_equal. apply (host_write_byte_out (hst m1) (padd p o) 0 x). lia. }
  pose proof (HR o ltac:(lia)). pose proof (HR (o + Z.of_nat n) ltac:(lia)).
  pose proof Hin as Hin'. apply list_elem_of_lookup in Hin' as [i Hi].
  rewrite (store_gbyte m1 others (STACK_BASE + o) (padd p o) (Datatypes.S n) x a).
  - destruct (_ && _) eqn:E; [|done]. zprops. unfold STACK_BASE, STACK_SIZE in *. lia.
  - by eapply writes_wf.
  - rewrite Em. by eapply writes_share.
  - unfold valid_access, STACK_BASE, STACK_SIZE in *. lia.
  - exists i, (stack_seg p). rewrite Em. split_and!; try done.
    + unfold covers, stack_seg. cbn. lia.
    + unfold host_of, padd, stack_seg. cbn. do 2 f_equal. lia.
  - done.
Qed.

(** The sentinel frame, as a word of the stack. *)
Definition kTop : Z := 2097151.

Lemma total_bytes_pos args envs info : 0 < total_bytes args envs info.
Proof.
  unfold total_bytes, header_qwords. change (lenZ (auxv_of info)) with 16. change (lenZ kPlatform) with 4.
  unfold kRandomBytes. destruct (items_ok args envs) as (_ & _ & Hsz).
  pose proof (items_size_nonneg (arg_item <$> args)). pose proof (items_size_nonneg (env_item <$> envs)).
  unfold lenZ. lia.
Qed.

(** C13: on a fresh address space [setup_stack] succeeds: it maps the stack, sets r10
    to the sentinel frame at its top and r1 to its bottom, where the guest reads
    argc, the argument and environment strings through their pointer vectors,
    each ended by a null pointer, and the auxiliary vector with the platform
    string, the program name and the 16 random bytes; the sentinel word holds the
    stack limit, and no guest byte outside the stack changes. *)
Theorem setup_stack_contract {S : Type} {env : HostEnv} (v : vm S) random args envs info others :
  mem_wf (mm v) -> share_ok (hst (mm v)) (maps (mm v) ++ others) -> stack_free (maps (mm v)) ->
  env_mmap_fails (hst (mm v)) STACK_SIZE = false -> raw_stack (options v) = false ->
  byte_list random -> lenZ random = kRandomBytes -> total_bytes args envs info <= STACK_SIZE - 8 ->
  exists m',
    setup_stack random args envs info v =
      Ok true (set_mm m' (set_reg (<[1%nat := STACK_BASE]> (<[10%nat := STACK_BASE + STACK_SIZE - 8]> (reg v))) v)) /\
    guest_start m' random args envs info /\
    gload m' (STACK_BASE + STACK_SIZE - 8) 8 = u64 (frame_flags_make false (stack_limit (options v)) 0) /\
    mem_wf m' /\ share_ok (hst m') (maps m' ++ others) /\
    forall a, 0 <= a < 2 ^ 64 -> ~ (STACK_BASE <= a < STACK_BASE + STACK_SIZE) -> gbyte m' a = gbyte (mm v) a.
Proof.
  intros Hwf Hs Hfree Hf Hraw Hrb Hrl Ht.
  destruct (mmu_spec (mm v) STACK_BASE 1 Hwf) as (Q1 & Q2 & Q3 & Q4); [unfold valid_access, STACK_BASE; lia|].
  assert (translate (maps (mm v)) STACK_BASE 1 = None) as Hnone.
  { destruct (translate _ _ _) as [q|] eqn:E; [|done].
    apply translate_Some in E as (i & mp & Hi & Hc & _); [|apply Hwf|unfold valid_access, STACK_BASE; lia].
    eapply Forall_lookup_1 in Hfree; [|exact Hi]. unfold covers, STACK_SIZE in *. lia. }
  rewrite Hnone in Q1. unfold setup_stack, mmuM. unfold bind at 1, mem_op at 1.
  destruct (mmu (mm v) STACK_BASE 1) as [q m0] eqn:Em. cbn [fst snd] in *. subst q.
  destruct (alloc_stack_ok m0 others) as (p & m1 & Ea & W1 & S1 & I1 & G1);
    [done|by rewrite Q3, Q4|by rewrite Q3|by rewrite Q4|].
  unfold bind at 1, mem_op at 1. cbn [mm set_mm]. rewrite Ea. cbn match.
  unfold bind at 1, set_r, modify. cbn [mm set_mm].
  assert (exists i, maps m1 !! i = Some (stack_seg p)) as [i1 Hi1] by by apply list_elem_of_lookup.
  destruct (mmu_w_own m1 (STACK_BASE + STACK_SIZE - 8) 8 i1 (stack_seg p)) as (U1 & U2 & U3 & U4); try done.
  unfold bind at 1, mmu_wM, mem_op at 1. cbn [mm set_mm set_reg].
  destruct (mmu_w m1 (STACK_BASE + STACK_SIZE - 8) 8) as [u m2] eqn:Eu. cbn [fst snd] in *. subst u. cbn match.
  set (s := host_of (stack_seg p) (STACK_BASE + STACK_SIZE - 8)).
  assert (padd s (8 * 0) = padd p (8 * kTop)) as Esent.
  { unfold s, host_of, padd, stack_seg, kTop, STACK_BASE, STACK_SIZE. cbn. f_equal. lia. }
  set (fl := frame_flags_make false (stack_limit (options v)) 0).
  set (m3 := store m2 (padd p (8 * kTop)) 8 fl).
  assert (writes p (fun j => 8 * kTop <= j < 8 * kTop + 8) m2 m3) as W3 by (apply writes_one; rlia).
  set (v2 := set_reg (<[10%nat := STACK_BASE + STACK_SIZE - 8]> (reg v)) v).
  set (T := total_bytes args envs info) in *.
  assert (0 < T) as HT by apply total_bytes_pos.
  assert (mem_wf m3) as Hwf3 by (eapply writes_wf; [exact W3|done]).
  destruct (mmu_spec m3 STACK_BASE T) as (R1 & R2 & R3 & R4);
    [done|unfold valid_access, STACK_BASE, STACK_SIZE in *; lia|].
  rewrite (translate_covers (maps m3) i1 (stack_seg p)) in R1.
  2: apply Hwf3.
  2: unfold valid_access, STACK_BASE, STACK_SIZE in *; lia.
  2: by change (maps m2 !! i1 = Some (stack_seg p)); rewrite U3.
  2: unfold covers, stack_seg; cbn; lia.
  destruct (mmu m3 STACK_BASE T) as [u m4] eqn:E4. cbn [fst snd] in *. subst u.
  destruct (fill_stack_ok p random args envs info (set_mm m4 v2)) as (m5 & E5 & W5 & B5); [done|done|fold T; lia|].
  cbn [mm set_mm] in W5. exists m5. split.
  - unfold bind at 1, gets at 1. unfold bind at 1, store64, storeM, modify. unfold bind at 1, gets at 1.
    rewrite Esent. cbn [options set_mm set_reg mm reg]. fold fl. fold m3. rewrite Hraw.
    destruct (Z.ltb_spec STACK_SIZE T); [lia|]. unfold bind at 1, mem_op at 1. cbn [mm set_mm set_reg].
    rewrite E4. exact E5.
  - destruct (writes_maps _ _ _ _ W5) as [M5 _].
    assert (writes p (fun j => 0 <= j < STACK_SIZE) m2 m3) as W3'
      by (eapply writes_mono; [exact W3|]; unfold kTop, STACK_SIZE; rlia).
    assert (writes p (fun j => 0 <= j < STACK_SIZE) m4 m5) as W5' by (eapply writes_mono; [exact W5|]; rlia).
    assert (maps m3 = maps m1) as M31 by exact U3.
    assert (maps m5 = maps m1) as M51 by (by rewrite M5, R3).
    assert (mem_wf m5) as Hwf5 by (by eapply writes_wf).
    assert (stack_seg p ∈ maps m5) as I5 by (by rewrite M51).
    assert (share_ok (hst m3) (maps m1 ++ others)) as S3 by (eapply writes_share; [exact W3|]; by rewrite U4).
    split; [by apply (guest_start_of_block m5 p); [..|lia|done|done]|]. split; [|split; [done|split]].
    + change (gload m5 (STACK_BASE + STACK_SIZE - 8) 8) with (gword m5 kTop).
      rewrite (stack_word m5 p kTop) by (done || unfold kTop, STACK_SIZE; lia).
      rewrite (writes_word _ _ _ _ _ W5) by (unfold kTop, T, STACK_SIZE in *; rlia).
      unfold word, load. rewrite R4. apply word_store.
    + rewrite M51. eapply writes_share; [exact W5|]. by rewrite R4.
    + intros a Ha Hout. rewrite (writes_gbyte p m4 m5 others a) by (rewrite ?R3, ?R4, ?M31; done).
      transitivity (gbyte m3 a); [unfold gbyte; by rewrite R3, R4|].
      rewrite (writes_gbyte p m2 m3 others a) by (rewrite ?U3, ?U4; done).
      transitivity (gbyte m1 a); [unfold gbyte; by rewrite U3, U4|]. rewrite G1 by done.
      unfold gbyte. by rewrite Q3, Q4.
Qed.

(** A machine whose only segment is the program text. *)
Definition start_vm : vm unit := set_mm (mkmmem ∅ [demo_text] demo_vm_host) demo_vm.
Definition start_info : ElfLoadInfo := mkinfo 0x40000008 0x40 56 2 0 0 0 0.

Lemma start_vm_wf : mem_wf (mm start_vm).
Proof.
  constructor.
  - split; repeat constructor; cbv; congruence.
  - intros i e He. change (tlb (mm start_vm)) with (∅ : gmap Z TlbEntry) in He. by rewrite lookup_empty in He.
  - repeat constructor.
  - apply demo_vm_mem_wf.
Qed.

Lemma start_vm_share : share_ok (hst (mm start_vm)) (maps (mm start_vm) ++ []).
Proof.
  split.
  - intros [|i] [|j] a b Ha Hb Hne; cbn in Ha, Hb; simplify_eq.
  - intros [|i] c mp Hi Hc; cbn in Hi; simplify_eq.
  - repeat constructor.
  - repeat constructor; done.
  - intros c b Hcb. cbn in Hcb. by rewrite lookup_empty in Hcb.
  - constructor.
Qed.

Lemma setup_stack_contract_witness :
  exists m', guest_start m' (replicate 16 7) ["prog"; "-x"]%string [("HOME", "/")]%string start_info /\
    gload m' STACK_BASE 8 = 2.
Proof.
  destruct (@setup_stack_contract unit permissive_env start_vm (replicate 16 7) ["prog"; "-x"]%string
    [("HOME", "/")]%string start_info [] start_vm_wf start_vm_share) as (m' & _ & Hg & _).
  - apply Forall_singleton. right. cbv. congruence.
  - reflexivity.
  - reflexivity.
  - repeat constructor; lia.
  - reflexivity.
  - cbv. congruence.
  - exists m'. split; [exact Hg|]. rewrite <- (Z.add_0_r STACK_BASE). exact (gs_argc _ _ _ _ _ Hg).
Defined.
