(* ===== verification/Signals.v ===== *)
(** * Signals: queueing, delivery, masks, job control stops

    signal.cpp and [SignalQueue] (signal_queue.cpp) over the kernel state, with
    [do_exit] and [do_exit_group] of process.cpp, which the default action of a
    fatal signal runs.  Each function is one atomic step of the kernel: the
    code holds the lock of the queue (or of the thread group) across it. *)

From S2P Require Import Prelude HostMem AddrSpace Isa Vm Frame SoftFp Interp Kernel.
From Stdlib Require Import Lia.
From stdpp Require Import base numbers list gmap strings option fin_maps fin_sets.

Open Scope Z_scope.
Open Scope vm_scope.

(** ** Constants *)

Definition SIGHUP : Z := 1.
Definition SIGINT : Z := 2.
Definition SIGQUIT : Z := 3.
Definition SIGILL : Z := 4.
Definition SIGTRAP : Z := 5.
Definition SIGABRT : Z := 6.
Definition SIGBUS : Z := 7.
Definition SIGFPE : Z := 8.
Definition SIGUSR1 : Z := 10.
Definition SIGSEGV : Z := 11.
Definition SIGUSR2 : Z := 12.
Definition SIGPIPE : Z := 13.
Definition SIGALRM : Z := 14.
Definition SIGTERM : Z := 15.
Definition SIGSTKFLT : Z := 16.
Definition SIGCHLD : Z := 17.
Definition SIGCONT : Z := 18.
Definition SIGSTOP : Z := 19.
Definition SIGTSTP : Z := 20.
Definition SIGTTIN : Z := 21.
Definition SIGTTOU : Z := 22.
Definition SIGXCPU : Z := 24.
Definition SIGXFSZ : Z := 25.
Definition SIGVTALRM : Z := 26.
Definition SIGPROF : Z := 27.

(** [NSIG] as signal.cpp sees it: [<signal.h>] redefines it after
    posix_syscall.h has sized [signal_actions] with its fallback, 32. *)
Definition NSIG : Z := 65.
Definition NSIG_ACTIONS : nat := 32.

Definition SI_USER : Z := 0.
Definition SI_QUEUE : Z := -1.
Definition SI_KERNEL : Z := 128.
Definition CLD_EXITED : Z := 1.
Definition CLD_KILLED : Z := 2.
Definition CLD_STOPPED : Z := 5.

Definition SIG_BLOCK : Z := 0.
Definition SIG_UNBLOCK : Z := 1.
Definition SIG_SETMASK : Z := 2.

Definition ESRCH : Z := 3.

(** [static bool is_default_term(int)]. *)
Definition is_default_term (sig : Z) : bool :=
  bool_decide (sig ∈ [SIGHUP; SIGINT; SIGQUIT; SIGILL; SIGTRAP; SIGABRT; SIGBUS; SIGFPE; SIGUSR1;
    SIGSEGV; SIGUSR2; SIGPIPE; SIGALRM; SIGTERM; SIGSTKFLT; SIGVTALRM; SIGPROF; SIGXCPU; SIGXFSZ]).

(** [static bool is_default_stop(int)]. *)
Definition is_default_stop (sig : Z) : bool := (sig =? SIGTSTP) || (sig =? SIGTTIN) || (sig =? SIGTTOU).

(** The bit of a signal in a mask, 0 for a number out of range. *)
Definition sig_bit (sig : Z) : Z := if (1 <=? sig) && (sig <? NSIG) then Z.shiftl 1 (sig - 1) else 0.

Definition is_blocked (mask sig : Z) : bool := nz (Z.land mask (sig_bit sig)).

(** ** Queueing *)

Section Queue.
Context {ord : HashOrder}.

(** [ThreadGroup::wake_waiters], [remove_waiter]. *)
Definition wake_waiters (g : Z) (k : Kernel) : Kernel :=
  match tgs k !! g with
  | None => k
  | Some tg =>
    foldl (fun k p => task_wakeup p true k) (upd_tg g (set_waiters []) k) (live_of k (waiters tg))
  end.

Definition remove_waiter (g p : Z) (k : Kernel) : Kernel :=
  upd_tg g (fun tg => set_waiters (filter (fun w => w <> p) (live_of k (waiters tg))) tg) k.

(** [notify_parent_sigchld] of task [p]; [qs] is [queue_signal]. *)
Definition sigchld_event (p : Z) (tg : ThreadGroup) : SigEvent :=
  if exited tg then
    let ec := exit_code tg in
    if 128 <=? ec then mkev SIGCHLD p CLD_KILLED (ec - 128) 0 else mkev SIGCHLD p CLD_EXITED ec 0
  else if stopped tg then mkev SIGCHLD p CLD_STOPPED (stop_sig tg) 0
  else mkev SIGCHLD p CLD_EXITED 0 0.

Definition notify_parent_sigchld (qs : Z -> SigEvent -> Kernel -> Kernel) (p g : Z) (k : Kernel) : Kernel :=
  let k1 := wake_waiters g k in
  match tgs k1 !! g with
  | None => k1
  | Some tg =>
    if ppid tg =? 0 then k1
    else match find_task k1 (ppid tg) with
         | None => k1
         | Some _ => qs (ppid tg) (sigchld_event p tg) k1
         end
  end.

(** [stop_process] of task [p] in group [g]. *)
Definition stop_process (qs : Z -> SigEvent -> Kernel -> Kernel) (p g sig : Z) (k : Kernel) : Kernel :=
  let k1 := upd_tg g (fun tg => set_stop_sig sig (set_stopped true tg)) k in
  let to_wake := live_of k1 (from_option threads [] (tgs k1 !! g)) in
  let k2 := foldl (fun k q => task_wakeup q false (task_set_flags q VM_STOPPED k)) k1 to_wake in
  match tgs k2 !! g with
  | Some tg =>
    if stop_reported tg then k2
    else notify_parent_sigchld qs p g (upd_tg g (set_reported true) k2)
  | None => k2
  end.

(** [signal_ignorable] of task [t]. *)
Definition signal_ignorable (t : Task) (sig : Z) (k : Kernel) : bool * Kernel :=
  if (sig <=? 0) || (NSIG <=? sig) then (false, k)
  else
    let '(act, k1) := read_action t sig k in
    if handler_is_ignored (a_handler act) then (true, k1)
    else if negb (handler_is_default (a_handler act)) then (false, k1)
    else (negb (is_default_term sig) && negb (is_default_stop sig), k1).

(** The common end of [queue_signal]. *)
Definition kick (p : Z) (t : Task) (k : Kernel) : Kernel := if t_host t then emit (EvKick p) k else k.

(** The enqueueing part: push and flag under the lock, then wake. *)
Definition enqueue (p : Z) (t : Task) (ev : SigEvent) (k : Kernel) : Kernel :=
  match push (pending_signals t) ev with
  | (false, _) => k
  | (true, q) =>
    kick p t (task_wakeup p false
      (upd_task p (fun t => set_t_flags (Z.lor (t_flags t) VM_SIGNAL_PENDING) (set_pending q t)) k))
  end.

(** [queue_signal] on task [p]; [qs] sends the SIGCHLD of [stop_process]. *)
Definition signal_step (qs : Z -> SigEvent -> Kernel -> Kernel) (p : Z) (ev : SigEvent) (k : Kernel) : Kernel :=
  match tasks k !! p with
  | None => k
  | Some t =>
    let sig := ev_sig ev in
    let '(stop_dfl, k) :=
      if is_default_stop sig then
        let '(act, k) := read_action t sig k in (handler_is_default (a_handler act), k)
      else (false, k) in
    if sig =? SIGKILL then
      kick p t (task_wakeup p false (task_set_flags p VM_KILLED k))
    else if (sig =? SIGSTOP) || stop_dfl then stop_process qs p (t_tg t) sig k
    else if sig =? SIGCONT then
      let k1 := upd_tg (t_tg t) (set_stopped false) k in
      foldl (fun k q => task_wakeup q false (task_clear_flags q VM_STOPPED k)) k1
        (live_of k1 (from_option threads [] (tgs k1 !! t_tg t)))
    else
      let '(ign, k) := signal_ignorable t sig k in
      if ign && negb (is_blocked (sigmask t) sig) then k
      else enqueue p t ev k
  end.

(** The recursion: SIGCHLD sends nothing further, so two levels suffice. *)
Fixpoint queue_signal (n : nat) : Z -> SigEvent -> Kernel -> Kernel :=
  match n with
  | O => fun _ _ k => k
  | Datatypes.S n' => signal_step (queue_signal n')
  end.

Definition send (p : Z) (ev : SigEvent) : Kernel -> Kernel := queue_signal 2 p ev.

(** ** Group exit *)

(** The CAS from -1 on [exit_code]. *)
Definition cas_exit_code (code : Z) (tg : ThreadGroup) : ThreadGroup :=
  if exit_code tg =? -1 then set_exit_code code tg else tg.

Definition t_group (self : Z) (k : Kernel) : Z := from_option t_tg 0 (tasks k !! self).

(** [do_exit]; [code] is the argument. *)
Definition exit_kernel (self code : Z) (k : Kernel) : Kernel :=
  task_set_flags self VM_EXITED (upd_tg (t_group self k) (cas_exit_code code) k).

Definition do_exit : M World Z :=
  a <- r 1 ;;
  let code := arg_s32 a in
  kmod (fun self => exit_kernel self code) ;;
  ret code.

(** SIGKILL to the other live threads of a group. *)
Definition kill_others (self g : Z) (k : Kernel) : Kernel :=
  foldl (fun k q => send q (mkev SIGKILL self SI_USER 0 0) k) k
    (filter (fun q => q <> self) (live_of k (from_option threads [] (tgs k !! g)))).

Definition exit_group_kernel (self code : Z) (k : Kernel) : Kernel :=
  let g := t_group self k in
  task_set_flags self VM_EXITED (kill_others self g (upd_tg g (cas_exit_code code) k)).

Definition do_exit_group : M World Z :=
  a <- r 1 ;;
  let code := arg_s32 a in
  kmod (fun self => exit_group_kernel self code) ;;
  ret code.

(** ** Delivery *)

(** [SignalFd::deliver] on the file [f]. *)
Definition sfd_takes (f : Fd) (ev : SigEvent) : bool :=
  match f_kind f with
  | KSignal mask _ => (1 <=? ev_sig ev) && (ev_sig ev <? NSIG) && is_blocked mask (ev_sig ev)
  | _ => false
  end.

Definition is_signalfd (f : Fd) : bool := match f_kind f with KSignal _ _ => true | _ => false end.

Definition sfd_write (ev : SigEvent) (f : Fd) : Fd :=
  match f_kind f with
  | KSignal mask sent => mkfd (host_fd f) (cloexec f) (f_path f) (KSignal mask (sent ++ [ev]))
  | _ => f
  end.

(** The first of the signalfds [l] that takes [ev] consumes it. *)
Fixpoint offer (l : list Z) (ev : SigEvent) (fs : gmap Z Fd) : option (gmap Z Fd) :=
  match l with
  | [] => None
  | i :: r =>
    match fs !! i with
    | Some f => if sfd_takes f ev then Some (<[i := sfd_write ev f]> fs) else offer r ev fs
    | None => offer r ev fs
    end
  end.

(** The signalfds of a process, in the order of its fd table. *)
Definition signalfds (t : Task) (k : Kernel) : list Z :=
  match shared_of k t with
  | None => []
  | Some s =>
    filter (fun i => from_option is_signalfd false (files k !! i) = true)
      (omap (fun fd => fds s !! fd) (hash_order (dom (fds s))))
  end.

Record scan_result := mkscan {
  sc_chosen : option SigEvent;
  sc_queue : list SigEvent;  (** what was not looked at *)
  sc_deferred : list SigEvent;
  sc_files : gmap Z Fd
}.

(** The loop of [handle_signals]: at most [n] events are popped. *)
Fixpoint scan (n : nat) (blocked : Z) (sfds : list Z) (q deferred : list SigEvent) (fs : gmap Z Fd) : scan_result :=
  match n, q with
  | O, _ | _, [] => mkscan None q deferred fs
  | Datatypes.S n', e :: q' =>
    if is_blocked blocked (ev_sig e) then
      match offer sfds e fs with
      | Some fs' => scan n' blocked sfds q' deferred fs'
      | None => scan n' blocked sfds q' (deferred ++ [e]) fs
      end
    else mkscan (Some e) q' deferred fs
  end.

Definition chosen_sig (c : option SigEvent) : Z := from_option ev_sig 0 c.

(** The locked part of [handle_signals]: the event chosen with its action. *)
Definition take_signal (self : Z) (k : Kernel) : option (SigEvent * signal_action) * Kernel :=
  match tasks k !! self with
  | None => (None, k)
  | Some t =>
    let r := scan BPF_SIGNAL_QUE_SIZE (sigmask t) (signalfds t k) (pending_signals t) [] (files k) in
    let q := sc_queue r ++ sc_deferred r in
    let k1 := upd_task self (set_pending q) (set_files (sc_files r) k) in
    let sig := chosen_sig (sc_chosen r) in
    let k2 := if (sig =? 0) && queue_empty q then task_clear_flags self VM_SIGNAL_PENDING k1 else k1 in
    if (0 <? sig) && (sig <? NSIG) then
      let '(act, k3) := read_action t sig k2 in
      (match sc_chosen r with Some e => Some (e, act) | None => None end, k3)
    else (None, k2)
  end.

(** [PosixSyscall::handle_signals]. *)
Definition handle_signals_posix : M World (option sig_info) :=
  c <- kernel_op take_signal ;;
  match c with
  | None => ret (Some no_signal)
  | Some (e, act) =>
    let sig := ev_sig e in
    let handler := a_handler act in
    if handler_is_ignored handler then ret (Some no_signal)
    else if handler_is_default handler then
      if is_default_term sig then
        set_r 1 (128 + sig) ;;
        rc <- do_exit_group ;;
        set_r 0 (u64 rc) ;;
        ret None
      else if is_default_stop sig then
        kmod (fun self k => stop_process send self (t_group self k) sig k) ;;
        ret (Some no_signal)
      else ret (Some no_signal)
    else ret (Some (mksig_info sig handler (u64 (a_flags act)) (ev_sender e) (ev_value e) (ev_code e) (ev_status e)))
  end.

End Queue.

(** ** What a signal does to the tasks

    [trel t t']: what sending signals may change in a task.  The mask and the
    identity stay, the queue only grows, and it grows together with the pending
    flag. *)

Definition pending_flag (t : Task) : bool := Z.testbit (t_flags t) 3.
Definition killed_flag (t : Task) : bool := Z.testbit (t_flags t) 2.

Record trel (t t' : Task) : Prop := {
  tr_mask : sigmask t' = sigmask t;
  tr_host : t_host t' = t_host t;
  tr_tid : tid_address_ t' = tid_address_ t;
  tr_tg : t_tg t' = t_tg t;
  tr_ps : t_ps t' = t_ps t;
  tr_pgrp : t_pgrp t' = t_pgrp t;
  tr_session : t_session t' = t_session t;
  tr_queue : prefix (pending_signals t) (pending_signals t');
  tr_length : (length (pending_signals t) <= BPF_SIGNAL_QUE_SIZE)%nat ->
    (length (pending_signals t') <= BPF_SIGNAL_QUE_SIZE)%nat;
  tr_pending : pending_flag t = true -> pending_flag t' = true;
  tr_new : pending_signals t' = pending_signals t \/ pending_flag t' = true;
  tr_killed : killed_flag t = true -> killed_flag t' = true
}.

#[export] Instance trel_preorder : PreOrder trel.
Proof.
  split.
  - intros t. constructor; auto.
  - intros t1 t2 t3 [] []. constructor; try congruence; auto; [by etrans|].
    destruct tr_new0, tr_new1; auto. left. congruence.
Qed.

(** Signals change the stop state and the waiters of a group. *)
Record tgrel (a b : ThreadGroup) : Prop := {
  gr_threads : threads b = threads a;
  gr_ppid : ppid b = ppid a;
  gr_exited : exited b = exited a;
  gr_code : exit_code b = exit_code a;
  gr_live : live_threads b = live_threads a;
  gr_tgid : tgid b = tgid a
}.

#[export] Instance tgrel_preorder : PreOrder tgrel.
Proof. split; [intros a; by constructor|]. intros a b c [] []. constructor; congruence. Qed.

#[export] Instance option_Forall2_preorder {A} (R : A -> A -> Prop) `{!PreOrder R} : PreOrder (option_Forall2 R).
Proof.
  split; [intros x; destruct x; by constructor|].
  intros x y z H1 H2. inversion H1; subst; inversion H2; subst; constructor. by etrans.
Qed.

(** Kernels that differ only by signals. *)
Record krel (k k' : Kernel) : Prop := {
  kr_tasks : forall p, option_Forall2 trel (tasks k !! p) (tasks k' !! p);
  kr_pids : pid_map k' = pid_map k;
  kr_shared : shared k' = shared k;
  kr_sessions : sessions k' = sessions k;
  kr_ttys : ttys k' = ttys k;
  kr_files : files k' = files k;
  kr_futexes : futexes k' = futexes k;
  kr_tgs : forall g, option_Forall2 tgrel (tgs k !! g) (tgs k' !! g)
}.

#[export] Instance krel_preorder : PreOrder krel.
Proof.
  split; [intros k; constructor; intros; reflexivity|].
  intros k1 k2 k3 [] []. constructor; try congruence; intros i; etrans; eauto.
Qed.

Lemma krel_upd_task p f k : (forall t, tasks k !! p = Some t -> trel t (f t)) -> krel k (upd_task p f k).
Proof.
  intros Hf. constructor; try reflexivity.
  intros q. rewrite tasks_upd_task. destruct (decide (q = p)) as [->|Hne]; [|reflexivity].
  destruct (tasks k !! p) as [t|] eqn:E; constructor. auto.
Qed.

Lemma krel_upd_tg g f k : (forall a, tgrel a (f a)) -> krel k (upd_tg g f k).
Proof.
  intros Hf. constructor; try reflexivity. intros i. rewrite tgs_upd_tg.
  destruct (decide (i = g)) as [->|Hne]; [|reflexivity]. destruct (tgs k !! g) as [a|]; constructor. auto.
Qed.

Lemma krel_emit e k : krel k (emit e k).
Proof. constructor; reflexivity. Qed.

Lemma trel_lor t m : trel t (set_t_flags (Z.lor (t_flags t) m) t).
Proof.
  constructor; try done; [|by left|];
    unfold pending_flag, killed_flag; cbn [t_flags set_t_flags]; rewrite Z.lor_spec; by intros ->.
Qed.

Lemma trel_ldiff t m :
  Z.testbit m 2 = false -> Z.testbit m 3 = false -> trel t (set_t_flags (andnot (t_flags t) m) t).
Proof.
  intros H2 H3. constructor; try done; [|by left|];
    unfold pending_flag, killed_flag, andnot; cbn [t_flags set_t_flags]; rewrite Z.ldiff_spec, ?H2, ?H3; by intros ->.
Qed.

Lemma krel_set_flags p m k : krel k (task_set_flags p m k).
Proof. apply krel_upd_task. intros t _. apply trel_lor. Qed.

Lemma krel_clear_flags p m k :
  Z.testbit m 2 = false -> Z.testbit m 3 = false -> krel k (task_clear_flags p m k).
Proof. intros. apply krel_upd_task. intros t _. by apply trel_ldiff. Qed.

Lemma krel_wakeup p b k : krel k (task_wakeup p b k).
Proof.
  unfold task_wakeup. destruct b; [|apply krel_emit].
  etrans; [by apply (krel_clear_flags p VM_BLOCKED)|apply krel_emit].
Qed.

Lemma krel_foldl (f : Kernel -> Z -> Kernel) l : (forall k p, krel k (f k p)) -> forall k, krel k (foldl f k l).
Proof.
  intros Hf. induction l as [|p l IH]; intros k; cbn; [done|]. etrans; [apply Hf|apply IH].
Qed.

Create HintDb signals.
#[export] Hint Resolve krel_set_flags krel_wakeup krel_emit : signals.

Section Send.
Context {ord : HashOrder}.

Lemma krel_wake_waiters g k : krel k (wake_waiters g k).
Proof.
  unfold wake_waiters. destruct (tgs k !! g) as [tg|]; [|done].
  etrans; [apply (krel_upd_tg g)|apply krel_foldl; auto with signals]. by intros a.
Qed.

Lemma krel_read_action t sig k : krel k (read_action t sig k).2.
Proof. unfold read_action. destruct (action_of k t sig); [done|apply krel_emit]. Qed.

Lemma krel_ignorable t sig k : krel k (signal_ignorable t sig k).2.
Proof.
  unfold signal_ignorable. destruct (_ || _); [done|].
  pose proof (krel_read_action t sig k) as H. destruct (read_action t sig k) as [act k1].
  by repeat case_match.
Qed.

Lemma krel_notify qs p g k : (forall p e k, krel k (qs p e k)) -> krel k (notify_parent_sigchld qs p g k).
Proof.
  intros Hq. unfold notify_parent_sigchld. etrans; [apply (krel_wake_waiters g)|].
  repeat case_match; (done || apply Hq).
Qed.

Lemma krel_stop_process qs p g sig k :
  (forall p e k, krel k (qs p e k)) -> krel k (stop_process qs p g sig k).
Proof.
  intros Hq. unfold stop_process. set (k1 := upd_tg _ _ k).
  assert (krel k k1) as H1 by (apply krel_upd_tg; by constructor).
  set (k2 := foldl _ k1 _).
  assert (krel k k2) as H2.
  { etrans; [exact H1|]. apply krel_foldl. intros k' q. etrans; [apply (krel_set_flags q VM_STOPPED)|apply krel_wakeup]. }
  destruct (tgs k2 !! g) as [tg|]; [|done]. destruct (stop_reported tg); [done|].
  etrans; [exact H2|]. etrans; [apply (krel_upd_tg g (set_reported true)); by constructor|by apply krel_notify].
Qed.

Lemma krel_kick p t k : krel k (kick p t k).
Proof. unfold kick. destruct (t_host t); [apply krel_emit|done]. Qed.

Lemma push_spec q e :
  push q e = if decide (BPF_SIGNAL_QUE_SIZE <= length q)%nat then (false, q) else (true, q ++ [e]).
Proof. done. Qed.

Lemma krel_enqueue p t ev k k0 :
  tasks k0 !! p = Some t -> krel k0 k -> tasks k !! p = Some t -> krel k (enqueue p t ev k).
Proof.
  intros H0 _ Ht. unfold enqueue. rewrite push_spec.
  destruct (decide (BPF_SIGNAL_QUE_SIZE <= length (pending_signals t))%nat) as [|Hl]; [done|].
  etrans; [|apply krel_kick]. etrans; [|apply krel_wakeup]. apply krel_upd_task. intros t' Ht'.
  simplify_eq. constructor; try done; cbn [pending_signals set_pending set_t_flags t_flags].
  - by apply prefix_app_r.
  - intros _. rewrite length_app. cbn [length]. lia.
  - unfold pending_flag. cbn [t_flags set_t_flags]. by rewrite Z.lor_spec, orb_true_r.
  - right. unfold pending_flag. cbn [t_flags set_t_flags]. by rewrite Z.lor_spec, orb_true_r.
  - unfold killed_flag. cbn [t_flags set_t_flags]. rewrite Z.lor_spec. by intros ->.
Qed.

(** Emitting leaves the tasks as they are. *)
Lemma read_action_tasks t sig k : tasks (read_action t sig k).2 = tasks k.
Proof. unfold read_action. by destruct (action_of k t sig). Qed.

Lemma ignorable_tasks t sig k : tasks (signal_ignorable t sig k).2 = tasks k.
Proof.
  unfold signal_ignorable. destruct (_ || _); [done|]. pose proof (read_action_tasks t sig k) as H.
  destruct (read_action t sig k) as [act k1]. by repeat case_match.
Qed.

Lemma krel_queue_signal n : forall p ev k, krel k (queue_signal n p ev k).
Proof.
  induction n as [|n IH]; intros p ev k; cbn [queue_signal]; [done|]. unfold signal_step.
  destruct (tasks k !! p) as [t|] eqn:Ht; [|done].
  set (x := if is_default_stop (ev_sig ev) then _ else _).
  assert (krel k x.2 /\ tasks x.2 = tasks k) as [Hx Hxt].
  { unfold x. destruct (is_default_stop (ev_sig ev)); [|done].
    pose proof (krel_read_action t (ev_sig ev) k). pose proof (read_action_tasks t (ev_sig ev) k).
    by destruct (read_action t (ev_sig ev) k). }
  destruct x as [stop_dfl k1]. cbn [fst snd] in *. etrans; [exact Hx|].
  destruct (ev_sig ev =? SIGKILL).
  { etrans; [|apply krel_kick]. etrans; [apply (krel_set_flags p VM_KILLED)|apply krel_wakeup]. }
  destruct (_ || stop_dfl); [by apply krel_stop_process|].
  destruct (ev_sig ev =? SIGCONT).
  { etrans; [apply (krel_upd_tg (t_tg t) (set_stopped false)); by constructor|].
    apply krel_foldl. intros k' q. etrans; [apply (krel_clear_flags q VM_STOPPED)|apply krel_wakeup]; done. }
  pose proof (krel_ignorable t (ev_sig ev) k1) as Hi. pose proof (ignorable_tasks t (ev_sig ev) k1) as Hit.
  destruct (signal_ignorable t (ev_sig ev) k1) as [ign k2]. cbn [fst snd] in *.
  destruct (ign && _); [done|]. etrans; [exact Hi|]. apply (krel_enqueue p t ev k2 k); try done.
  - by etrans.
  - by rewrite Hit, Hxt.
Qed.

(** The recursion of [queue_signal] is two levels deep. *)
Lemma queue_sigchld n p q tg k :
  queue_signal (Datatypes.S n) p (sigchld_event q tg) k = queue_signal 1 p (sigchld_event q tg) k.
Proof.
  assert (ev_sig (sigchld_event q tg) = SIGCHLD) as E.
  { unfold sigchld_event. by repeat case_match. }
  cbn [queue_signal]. unfold signal_step. rewrite E. by destruct (tasks k !! p).
Qed.

Lemma notify_ext qs qs' p g k :
  (forall p q tg k, qs p (sigchld_event q tg) k = qs' p (sigchld_event q tg) k) ->
  notify_parent_sigchld qs p g k = notify_parent_sigchld qs' p g k.
Proof.
  intros H. unfold notify_parent_sigchld. destruct (tgs (wake_waiters g k) !! g) as [tg|]; [|done].
  destruct (ppid tg =? 0); [done|]. destruct (find_task _ _); [apply H|done].
Qed.

Lemma queue_signal_depth n p ev k : queue_signal (Datatypes.S (Datatypes.S n)) p ev k = send p ev k.
Proof.
  change (signal_step (queue_signal (Datatypes.S n)) p ev k = signal_step (queue_signal 1) p ev k).
  unfold signal_step. destruct (tasks k !! p) as [t|]; [|done].
  destruct (if is_default_stop (ev_sig ev) then _ else _) as [stop_dfl k1].
  destruct (ev_sig ev =? SIGKILL); [done|]. destruct (_ || stop_dfl); [|done].
  unfold stop_process. destruct (tgs _ !! t_tg t) as [tg|]; [|done]. destruct (stop_reported tg); [done|].
  apply notify_ext. intros. apply queue_sigchld.
Qed.

Lemma krel_send p ev k : krel k (send p ev k).
Proof. apply krel_queue_signal. Qed.

(** SIGKILL marks a live task. *)
Lemma send_kill p e k t :
  tasks k !! p = Some t -> ev_sig e = SIGKILL ->
  exists t', tasks (send p e k) !! p = Some t' /\ killed_flag t' = true.
Proof.
  intros Ht Hs. unfold send. cbn [queue_signal]. unfold signal_step. rewrite Ht, Hs.
  change (is_default_stop SIGKILL) with false. change (SIGKILL =? SIGKILL) with true. cbn match.
  set (k1 := task_set_flags p VM_KILLED k).
  assert (tasks k1 !! p = Some (set_t_flags (Z.lor (t_flags t) VM_KILLED) t)) as H1.
  { unfold k1, task_set_flags. rewrite tasks_upd_task, decide_True, Ht by done. done. }
  exists (set_t_flags (Z.lor (t_flags t) VM_KILLED) t). split.
  - unfold kick. by destruct (t_host t).
  - unfold killed_flag. cbn [t_flags set_t_flags]. by rewrite Z.lor_spec, orb_true_r.
Qed.

Lemma krel_task k k' p t : krel k k' -> tasks k !! p = Some t -> exists t', tasks k' !! p = Some t' /\ trel t t'.
Proof. intros [H _ _ _ _ _ _ _] Ht. specialize (H p). rewrite Ht in H. inversion H; subst. eauto. Qed.

Lemma krel_task_back k k' p t' : krel k k' -> tasks k' !! p = Some t' -> exists t, tasks k !! p = Some t /\ trel t t'.
Proof. intros [H _ _ _ _ _ _ _] Ht. specialize (H p). rewrite Ht in H. inversion H; subst. eauto. Qed.

Lemma krel_group k k' g tg : krel k k' -> tgs k !! g = Some tg -> exists tg', tgs k' !! g = Some tg' /\ tgrel tg tg'.
Proof. intros [_ _ _ _ _ _ _ H] Ht. specialize (H g). rewrite Ht in H. inversion H; subst. eauto. Qed.

(** Killing a list of tasks marks each live one. *)
Lemma kill_list e l : ev_sig e = SIGKILL -> forall k q t,
  q ∈ l -> tasks k !! q = Some t ->
  exists t', tasks (foldl (fun k q => send q e k) k l) !! q = Some t' /\ killed_flag t' = true.
Proof.
  intros He. induction l as [|p l IH]; intros k q t Hq Ht; [by apply elem_of_nil in Hq|]. cbn [foldl].
  destruct (krel_task _ _ _ _ (krel_send p e k) Ht) as (t1 & H1 & _).
  apply elem_of_cons in Hq as [->|Hq]; [|by apply (IH _ q t1)].
  destruct (send_kill p e k t Ht He) as (t2 & H2 & Hk).
  destruct (krel_task (send p e k) (foldl (fun k q => send q e k) (send p e k) l) p t2) as (t3 & H3 & Hr); [|done|].
  { apply krel_foldl. intros. apply krel_send. }
  exists t3. split; [done|]. by apply (tr_killed _ _ Hr).
Qed.

Lemma krel_kill_others self g k : krel k (kill_others self g k).
Proof. unfold kill_others. apply krel_foldl. intros. apply krel_send. Qed.

(** [exit_group] ends the whole process: every other live thread of the
    group has VM_KILLED, the caller has VM_EXITED, and the exit code is the
    caller's exactly when no thread had set one before; masks, queues (which
    only grow) and the other groups' exit codes stay. *)
Theorem exit_group_kills (self code : Z) (k : Kernel) t tg
  (Ht : tasks k !! self = Some t) (Hg : tgs k !! t_tg t = Some tg) :
  let k' := exit_group_kernel self code k in
  (forall q tq, q ∈ threads tg -> q <> self -> tasks k !! q = Some tq ->
    exists tq', tasks k' !! q = Some tq' /\ has (t_flags tq') VM_KILLED = true /\
      sigmask tq' = sigmask tq /\ prefix (pending_signals tq) (pending_signals tq')) /\
  (exists t', tasks k' !! self = Some t' /\ has (t_flags t') VM_EXITED = true) /\
  (exists tg', tgs k' !! t_tg t = Some tg' /\ threads tg' = threads tg /\
    exit_code tg' = (if exit_code tg =? -1 then code else exit_code tg)) /\
  (forall g a, g <> t_tg t -> tgs k !! g = Some a -> exists b, tgs k' !! g = Some b /\ exit_code b = exit_code a).
Proof.
  intros k'. unfold k', exit_group_kernel, t_group. rewrite Ht. cbn [from_option].
  set (k1 := upd_tg (t_tg t) (cas_exit_code code) k).
  assert (tgs k1 !! t_tg t = Some (cas_exit_code code tg)) as Hg1.
  { unfold k1. by rewrite tgs_upd_tg, decide_True, Hg by done. }
  assert (threads (cas_exit_code code tg) = threads tg) as Hth by (unfold cas_exit_code; by case_match).
  pose proof (krel_kill_others self (t_tg t) k1) as H2. set (k2 := kill_others self (t_tg t) k1) in *.
  pose proof (krel_set_flags self VM_EXITED k2) as H3. split_and!.
  - intros q tq Hq Hne Htq.
    assert (exists t2, tasks k2 !! q = Some t2 /\ killed_flag t2 = true) as (t2 & Ht2 & Hk2).
    { unfold k2, kill_others. rewrite Hg1. cbn [from_option]. rewrite Hth. apply (kill_list (mkev SIGKILL self SI_USER 0 0) _ eq_refl _ q tq); [|done].
      apply list_elem_of_filter. split; [done|]. unfold live_of. apply list_elem_of_filter. split; [|done]. cbn. by eauto. }
    destruct (krel_task_back k1 k2 q t2 H2 Ht2) as (t1 & Ht1 & Hr). change (tasks k1) with (tasks k) in Ht1. simplify_eq.
    destruct (krel_task _ _ _ _ H3 Ht2) as (t3 & Ht3 & Hr3). exists t3. split; [done|]. split; [|split].
    + unfold has. change VM_KILLED with (2 ^ 2). rewrite nz_land_pow2 by done. by apply (tr_killed _ _ Hr3).
    + etrans; [apply (tr_mask _ _ Hr3)|apply (tr_mask _ _ Hr)].
    + etrans; [apply (tr_queue _ _ Hr)|apply (tr_queue _ _ Hr3)].
  - destruct (krel_task k1 k2 self t H2 Ht) as (t2 & Ht2 & _).
    exists (set_t_flags (Z.lor (t_flags t2) VM_EXITED) t2). split.
    + unfold task_set_flags. by rewrite tasks_upd_task, decide_True, Ht2 by done.
    + unfold has. change VM_EXITED with (2 ^ 0). rewrite nz_land_pow2 by done. cbn [t_flags set_t_flags].
      rewrite Z.lor_spec. by apply orb_true_r.
  - destruct (krel_group _ _ _ _ H2 Hg1) as (tg2 & Hg2 & [Ha _ _ Hb _ _]). exists tg2. split; [done|].
    split; [congruence|]. rewrite Hb. unfold cas_exit_code. by destruct (exit_code tg =? -1).
  - intros g a Hne Ha. assert (tgs k1 !! g = Some a) as Ha1 by (unfold k1; by rewrite tgs_upd_tg, decide_False by done).
    destruct (krel_group _ _ _ _ H2 Ha1) as (b & Hb & [_ _ _ Hc _ _]). by exists b.
Qed.

End Send.

(** ** Which signal is taken *)

(** Whether one of the signalfds [l] listens for the event. *)
Definition listened (fs : gmap Z Fd) (l : list Z) (e : SigEvent) : bool :=
  existsb (fun i => from_option (fun f => sfd_takes f e) false (fs !! i)) l.

(** The files after the events [pre] were offered to the signalfds [l]. *)
Fixpoint absorb (l : list Z) (pre : list SigEvent) (fs : gmap Z Fd) : gmap Z Fd :=
  match pre with
  | [] => fs
  | e :: r => absorb l r (default fs (offer l e fs))
  end.

Lemma offer_listened l e fs : is_Some (offer l e fs) <-> listened fs l e = true.
Proof.
  induction l as [|i l IH]; cbn [offer listened existsb]; [split; [intros [? [=]]|done]|].
  fold (listened fs l e). destruct (fs !! i) as [f|]; cbn [from_option orb]; [|done].
  destruct (sfd_takes f e); cbn [orb]; [split; eauto|done].
Qed.

Lemma sfd_takes_write f e e' : sfd_takes (sfd_write e' f) e = sfd_takes f e.
Proof. unfold sfd_takes, sfd_write. by destruct (f_kind f) eqn:E; cbn [f_kind]; rewrite ?E. Qed.

(** Writing to a signalfd does not change what is listened for. *)
Lemma offer_frame l e fs fs' l' e' : offer l e fs = Some fs' -> listened fs' l' e' = listened fs l' e'.
Proof.
  intros Ho. assert (forall i, from_option (fun f => sfd_takes f e') false (fs' !! i) =
    from_option (fun f => sfd_takes f e') false (fs !! i)) as Hi.
  { revert Ho. induction l as [|i l IH]; cbn [offer]; [done|].
    destruct (fs !! i) as [f|] eqn:Ef; [|done]. destruct (sfd_takes f e); [|done].
    intros [= <-] j. destruct (decide (i = j)) as [->|Hne].
    - rewrite lookup_insert_eq, Ef. cbn. apply sfd_takes_write.
    - by rewrite lookup_insert_ne. }
  induction l' as [|i l' IH]; [done|]. cbn [listened existsb]. rewrite Hi. f_equal. exact IH.
Qed.

Lemma absorb_frame l pre : forall fs l' e', listened (absorb l pre fs) l' e' = listened fs l' e'.
Proof.
  induction pre as [|e pre IH]; intros fs l' e'; [done|]. cbn [absorb]. rewrite IH.
  destruct (offer l e fs) as [fs'|] eqn:Ho; [by eapply offer_frame|done].
Qed.

(** The queue splits at the first event that is not blocked. *)
Inductive split_at (blocked : Z) : list SigEvent -> list SigEvent -> option SigEvent -> list SigEvent -> Prop :=
| sp_nil pre : Forall (fun e => is_blocked blocked (ev_sig e) = true) pre -> split_at blocked pre pre None []
| sp_cons pre e post : Forall (fun e => is_blocked blocked (ev_sig e) = true) pre ->
    is_blocked blocked (ev_sig e) = false -> split_at blocked (pre ++ e :: post) pre (Some e) post.

Lemma split_exists blocked q : exists pre c post, split_at blocked q pre c post.
Proof.
  induction q as [|e q (pre & c & post & IH)]; [exists [], None, []; by constructor|].
  destruct (is_blocked blocked (ev_sig e)) eqn:E; [|exists [], (Some e), q; by apply (sp_cons _ [])].
  exists (e :: pre), c, post. inversion IH as [pre' Hp|pre' e' post' Hp He]; subst.
  - constructor. by constructor.
  - apply (sp_cons _ (e :: pre)); [by constructor|done].
Qed.

Lemma split_nil blocked pre c post : split_at blocked [] pre c post -> pre = [] /\ c = None /\ post = [].
Proof.
  intros Hs. remember [] as q eqn:E. destruct Hs as [pre Hf|pre e post Hf He]; [by subst|].
  symmetry in E. by apply app_cons_not_nil in E.
Qed.

Lemma split_cons_blocked blocked e q pre c post :
  split_at blocked (e :: q) pre c post -> is_blocked blocked (ev_sig e) = true ->
  exists pre', pre = e :: pre' /\ split_at blocked q pre' c post.
Proof.
  intros Hs Hb. remember (e :: q) as q0 eqn:E. destruct Hs as [pre Hf|pre e' post Hf He].
  - subst. apply Forall_cons_iff in Hf as [_ ?]. exists q. split; [done|]. by constructor.
  - destruct pre as [|e1 pre]; injection E as -> <-; [congruence|].
    apply Forall_cons_iff in Hf as [_ ?]. exists pre. split; [done|]. by constructor.
Qed.

Lemma split_cons_open blocked e q pre c post :
  split_at blocked (e :: q) pre c post -> is_blocked blocked (ev_sig e) = false ->
  pre = [] /\ c = Some e /\ post = q.
Proof.
  intros Hs Hb. remember (e :: q) as q0 eqn:E. destruct Hs as [pre Hf|pre e' post Hf He].
  - subst. apply Forall_cons_iff in Hf as [? _]. congruence.
  - destruct pre as [|e1 pre]; injection E as -> <-; [done|].
    apply Forall_cons_iff in Hf as [? _]. congruence.
Qed.

Definition unheard (fs : gmap Z Fd) (l : list Z) (pre : list SigEvent) : list SigEvent :=
  filter (fun e => listened fs l e = false) pre.

Lemma scan_spec blocked l : forall n q pre c post d fs,
  split_at blocked q pre c post -> (length q <= n)%nat ->
  scan n blocked l q d fs = mkscan c post (d ++ unheard fs l pre) (absorb l pre fs).
Proof.
  induction n as [|n IH]; intros q pre c post d fs Hs Hn.
  { assert (q = []) as -> by (destruct q; cbn in Hn; [done|lia]).
    apply split_nil in Hs as (-> & -> & ->). cbn. by rewrite app_nil_r. }
  destruct q as [|e q]; [apply split_nil in Hs as (-> & -> & ->); cbn; by rewrite app_nil_r|].
  cbn [scan]. destruct (is_blocked blocked (ev_sig e)) eqn:E.
  - apply split_cons_blocked in Hs as (pre' & -> & Hs'); [|done]. cbn in Hn. cbn [absorb]. unfold unheard. rewrite filter_cons.
    destruct (offer l e fs) as [fs'|] eqn:Ho; cbn [default].
    + rewrite (IH q pre' c post d fs') by (done || lia).
      rewrite decide_False by (rewrite (proj1 (offer_listened l e fs)) by eauto; done).
      f_equal. f_equal. unfold unheard. apply list_filter_iff. intros x. by rewrite (offer_frame _ _ _ _ _ _ Ho).
    + rewrite (IH q pre' c post (d ++ [e]) fs) by (done || lia).
      rewrite decide_True, <- app_assoc; [done|].
      destruct (listened fs l e) eqn:El; [|done]. apply offer_listened in El as [? ?]. congruence.
  - apply split_cons_open in Hs as (-> & -> & ->); [|done]. cbn. by rewrite app_nil_r.
Qed.

(** The signalfd that consumes an event. *)
Definition taker (fs : gmap Z Fd) (l : list Z) (e : SigEvent) : option Z :=
  head (filter (fun i => from_option (fun f => sfd_takes f e) false (fs !! i) = true) l).

Definition sent_to (fs : gmap Z Fd) (i : Z) : list SigEvent :=
  match fs !! i with
  | Some f => match f_kind f with KSignal _ sent => sent | _ => [] end
  | None => []
  end.

Lemma offer_sent l e fs i :
  sent_to (default fs (offer l e fs)) i =
  sent_to fs i ++ (if decide (taker fs l e = Some i) then [e] else []).
Proof.
  unfold taker. induction l as [|j l IH]; cbn [offer]; [by rewrite app_nil_r|].
  rewrite filter_cons. destruct (fs !! j) as [f|] eqn:Ef; cbn [from_option].
  - destruct (sfd_takes f e) eqn:Et; [|destruct (decide (false = true)); [done|exact IH]].
    destruct (decide (true = true)); [|done]. cbn [head from_option id]. unfold sent_to.
    destruct (decide (j = i)) as [->|Hne].
    + rewrite lookup_insert_eq, Ef, decide_True by done. unfold sfd_write, sfd_takes in *. by destruct (f_kind f) eqn:Ek.
    + rewrite lookup_insert_ne by done. rewrite decide_False by congruence. by rewrite app_nil_r.
  - destruct (decide (false = true)); [done|exact IH].
Qed.

Lemma offer_taker l e fs e' : taker (default fs (offer l e fs)) l e' = taker fs l e'.
Proof.
  unfold taker. f_equal. apply list_filter_iff. intros i.
  destruct (offer l e fs) as [fs'|] eqn:Ho; [|done]. change (default fs (Some fs')) with fs'.
  pose proof (offer_frame _ _ _ _ [i] e' Ho) as H. cbn [listened existsb] in H. rewrite !orb_false_r in H.
  cbn beta. by rewrite H.
Qed.

Lemma absorb_sent l i : forall pre fs,
  sent_to (absorb l pre fs) i = sent_to fs i ++ filter (fun e => taker fs l e = Some i) pre.
Proof.
  induction pre as [|e pre IH]; intros fs; cbn [absorb]; [by rewrite app_nil_r|].
  rewrite IH, offer_sent, filter_cons, <- app_assoc. f_equal.
  rewrite (list_filter_iff _ (fun e0 => taker fs l e0 = Some i)) by (intros x; by rewrite offer_taker).
  by destruct (decide (taker fs l e = Some i)).
Qed.

(** Signal numbers a queue holds. *)
Definition valid_events (q : list SigEvent) : Prop := Forall (fun e => 0 < ev_sig e < NSIG) q.

Section Take.
Context {ord : HashOrder}.

Lemma take_signal_eq self k t pre c post :
  tasks k !! self = Some t -> (length (pending_signals t) <= BPF_SIGNAL_QUE_SIZE)%nat ->
  valid_events (pending_signals t) -> split_at (sigmask t) (pending_signals t) pre c post ->
  let rest := post ++ unheard (files k) (signalfds t k) pre in
  let k1 := upd_task self (set_pending rest) (set_files (absorb (signalfds t k) pre (files k)) k) in
  take_signal self k =
    match c with
    | Some e => let '(act, k2) := read_action t (ev_sig e) k1 in (Some (e, act), k2)
    | None => (None, if queue_empty rest then task_clear_flags self VM_SIGNAL_PENDING k1 else k1)
    end.
Proof.
  intros Ht Hl Hv Hs rest k1. unfold take_signal. rewrite Ht.
  rewrite (scan_spec (sigmask t) _ _ _ pre c post [] (files k) Hs Hl). cbn [sc_queue sc_deferred sc_chosen sc_files app].
  fold rest. fold k1. destruct c as [e|]; [|by cbn].
  assert (0 < ev_sig e < NSIG) as He.
  { unfold valid_events in Hv. rewrite list.Forall_forall in Hv. apply Hv.
    remember (Some e) as c eqn:Ec. destruct Hs as [? ?|p0 e0 post0 ? ?]; [done|].
    injection Ec as ->. apply elem_of_app. right. by left. }
  cbn [chosen_sig from_option]. destruct (Z.eqb_spec (ev_sig e) 0); [lia|]. cbn [andb].
  destruct (Z.ltb_spec 0 (ev_sig e)); [|lia]. by destruct (Z.ltb_spec (ev_sig e) NSIG); [|lia].
Qed.

(** [handle_signals] takes the first event of the queue that is not blocked,
    together with its action.  The blocked events before it are written, each to
    the first signalfd that listens for it, or put back behind the events not
    looked at; no event is lost or duplicated, the order of what stays is kept
    on either side.  The pending flag is cleared exactly when nothing was taken
    and the queue is empty, and no other task changes. *)
Theorem take_signal_contract self k t pre c post
  (Ht : tasks k !! self = Some t) (Hl : (length (pending_signals t) <= BPF_SIGNAL_QUE_SIZE)%nat)
  (Hv : valid_events (pending_signals t)) (Hs : split_at (sigmask t) (pending_signals t) pre c post) :
  let k' := (take_signal self k).2 in
  let fds := signalfds t k in
  let rest := post ++ filter (fun e => listened (files k) fds e = false) pre in
  (take_signal self k).1 = ((fun e => (e, default (mkact 0 0 0) (action_of k t (ev_sig e)))) <$> c) /\
  (exists t', tasks k' !! self = Some t' /\ pending_signals t' = rest /\ sigmask t' = sigmask t /\
    pending_flag t' = (match c, rest with None, [] => false | _, _ => pending_flag t end)) /\
  (forall q, q <> self -> tasks k' !! q = tasks k !! q) /\
  (forall i, sent_to (files k') i = sent_to (files k) i ++ filter (fun e => taker (files k) fds e = Some i) pre).
Proof.
  intros k' fds rest. unfold k'. rewrite (take_signal_eq self k t pre c post) by done.
  fold (unheard (files k) fds pre) in rest. fold fds. fold rest.
  set (k1 := upd_task self (set_pending rest) (set_files (absorb fds pre (files k)) k)).
  assert (tasks k1 !! self = Some (set_pending rest t)) as H1.
  { unfold k1. rewrite tasks_upd_task, decide_True by done. cbn [tasks set_files]. by rewrite Ht. }
  assert (forall q, q <> self -> tasks k1 !! q = tasks k !! q) as H2.
  { intros q Hq. unfold k1. by rewrite tasks_upd_task, decide_False by done. }
  assert (forall i, sent_to (files k1) i = sent_to (files k) i ++ filter (fun e => taker (files k) fds e = Some i) pre) as H3.
  { intros i. apply absorb_sent. }
  destruct c as [e|].
  - unfold read_action. change (action_of k1 t (ev_sig e)) with (action_of k t (ev_sig e)).
    cbn [fmap option_fmap option_map].
    destruct (action_of k t (ev_sig e)) as [act|]; cbn [fst snd from_option id];
      (split; [done|]; split; [|done]); exists (set_pending rest t); split_and!; try done; by destruct rest.
  - split; [done|]. cbn [snd]. destruct rest as [|e0 rest'] eqn:Er; cbn [queue_empty].
    + split; [|split; [|done]].
      * exists (set_t_flags (andnot (t_flags t) VM_SIGNAL_PENDING) (set_pending [] t)). split_and!; try done.
        -- unfold task_clear_flags. by rewrite tasks_upd_task, decide_True, H1 by done.
        -- unfold pending_flag, andnot. cbn [t_flags set_t_flags set_pending]. by rewrite Z.ldiff_spec, andb_false_r.
      * intros q Hq. unfold task_clear_flags. rewrite tasks_upd_task, decide_False by done. by apply H2.
    + split; [|done]. exists (set_pending (e0 :: rest') t). by split_and!.
Qed.

(** Taking signals until there is nothing to take, at most [n] times. *)
Fixpoint take_many (n : nat) (self : Z) (k : Kernel) : list SigEvent * Kernel :=
  match n with
  | O => ([], k)
  | Datatypes.S n' =>
    match take_signal self k with
    | (Some (e, _), k1) => let '(l, k2) := take_many n' self k1 in (e :: l, k2)
    | (None, k1) => ([], k1)
    end
  end.

Lemma filter_blocked blocked pre :
  Forall (fun e => is_blocked blocked (ev_sig e) = true) pre ->
  filter (fun e => is_blocked blocked (ev_sig e) = false) pre = [].
Proof.
  induction 1 as [|e pre He _ IH]; [done|]. rewrite filter_cons, decide_False by congruence. exact IH.
Qed.

Lemma unheard_blocked blocked fs l pre :
  Forall (fun e => is_blocked blocked (ev_sig e) = true) pre ->
  filter (fun e => is_blocked blocked (ev_sig e) = false) (unheard fs l pre) = [].
Proof.
  intros Hf. apply filter_blocked. unfold unheard. rewrite list.Forall_forall in *.
  intros e He. apply list_elem_of_filter in He as [_ He]. auto.
Qed.

Lemma take_many_spec : forall n self k t,
  tasks k !! self = Some t -> (length (pending_signals t) <= n)%nat -> (n <= BPF_SIGNAL_QUE_SIZE)%nat ->
  valid_events (pending_signals t) ->
  (take_many n self k).1 = filter (fun e => is_blocked (sigmask t) (ev_sig e) = false) (pending_signals t).
Proof.
  induction n as [|n IH]; intros self k t Ht Hn Hsz Hv.
  { by destruct (pending_signals t); cbn in Hn; [|lia]. }
  destruct (split_exists (sigmask t) (pending_signals t)) as (pre & c & post & Hs).
  destruct (take_signal_contract self k t pre c post Ht ltac:(lia) Hv Hs) as (H1 & (t' & Ht' & Hq' & Hm' & _) & _ & _).
  cbn [take_many]. destruct (take_signal self k) as [res k1] eqn:E. cbn [fst snd] in *. subst res.
  destruct Hs as [pre Hb|pre e post Hb He] eqn:Es; cbn [fmap option_fmap option_map].
  - by rewrite (filter_blocked _ _ Hb).
  - specialize (IH self k1 t' Ht'). destruct (take_many n self k1) as [l k2]. cbn [fst] in *.
    rewrite IH; [| | lia |].
    + rewrite Hm', Hq', !filter_app, filter_cons, (filter_blocked _ _ Hb), decide_True by done.
      fold (unheard (files k) (signalfds t k) pre). rewrite (unheard_blocked _ _ _ _ Hb), app_nil_r. done.
    + rewrite Hq'. rewrite !length_app in *. cbn [length] in Hn.
      pose proof (length_filter (fun e0 => listened (files k) (signalfds t k) e0 = false) pre). lia.
    + unfold valid_events in *. rewrite Hq'. apply Forall_app in Hv as [Hv1 Hv2].
      apply Forall_cons_iff in Hv2 as [_ Hv2]. apply Forall_app. split; [done|].
      rewrite list.Forall_forall in *. intros x Hx. apply list_elem_of_filter in Hx as [_ Hx]. auto.
Qed.

(** every signal that is not blocked is delivered: taking signals as often
    as the queue is long yields all the deliverable events of the queue, in the
    order they were queued, whatever the signalfds consume of the others. *)
Theorem deliverable_all_taken self k t
  (Ht : tasks k !! self = Some t) (Hl : (length (pending_signals t) <= BPF_SIGNAL_QUE_SIZE)%nat)
  (Hv : valid_events (pending_signals t)) :
  (take_many (length (pending_signals t)) self k).1 =
    filter (fun e => is_blocked (sigmask t) (ev_sig e) = false) (pending_signals t).
Proof. by apply take_many_spec. Qed.

End Take.

(** ** Witnesses *)

Lemma exit_group_kills_witness :
  exists t', tasks (exit_group_kernel 2 7 demo_kernel) !! 3 = Some t' /\ has (t_flags t') VM_KILLED = true.
Proof.
  destruct (exit_group_kills 2 7 demo_kernel (demo_task 2 1) (demo_group 2 1 [2; 3]) eq_refl eq_refl) as (H & _).
  destruct (H 3 (demo_task 2 1)) as (t' & Ht & Hk & _).
  - right. left.
  - done.
  - reflexivity.
  - by exists t'.
Defined.

(** SIGHUP blocked, then SIGUSR1 and SIGINT queued behind it. *)
Definition demo_queue : list SigEvent := [mkev 1 1 0 0 0; mkev 10 1 0 0 0; mkev 2 1 0 0 0].
Definition queue_kernel : Kernel :=
  upd_task 2 (fun t => set_t_flags VM_SIGNAL_PENDING (set_sigmask 1 (set_pending demo_queue t))) demo_kernel.
Definition queue_task : Task := set_t_flags VM_SIGNAL_PENDING (set_sigmask 1 (set_pending demo_queue (demo_task 2 1))).

Lemma demo_queue_valid : valid_events (pending_signals queue_task).
Proof. repeat constructor. Qed.

Lemma take_signal_contract_witness :
  (take_signal 2 queue_kernel).1 = Some (mkev 10 1 0 0 0, mkact 0 0 0) /\
  exists t', tasks (take_signal 2 queue_kernel).2 !! 2 = Some t' /\
    pending_signals t' = [mkev 2 1 0 0 0; mkev 1 1 0 0 0].
Proof.
  destruct (take_signal_contract 2 queue_kernel queue_task [mkev 1 1 0 0 0] (Some (mkev 10 1 0 0 0)) [mkev 2 1 0 0 0])
    as (H1 & (t' & H2 & H3 & _) & _).
  - reflexivity.
  - unfold BPF_SIGNAL_QUE_SIZE. cbn. lia.
  - exact demo_queue_valid.
  - apply (sp_cons 1 [mkev 1 1 0 0 0]); [by repeat constructor|done].
  - split; [exact H1|]. exists t'. split; [exact H2|exact H3].
Defined.

Lemma deliverable_all_taken_witness :
  (take_many 3 2 queue_kernel).1 = [mkev 10 1 0 0 0; mkev 2 1 0 0 0].
Proof.
  pose proof (deliverable_all_taken 2 queue_kernel queue_task eq_refl
    ltac:(unfold BPF_SIGNAL_QUE_SIZE; cbn; lia) demo_queue_valid) as H.
  exact H.
Defined.

(** The deferred event moves behind one queued after it. *)
Lemma deferred_overtaken :
  exists t', tasks (take_signal 2 queue_kernel).2 !! 2 = Some t' /\
    pending_signals t' = [mkev 2 1 0 0 0; mkev 1 1 0 0 0].
Proof. eexists. split; [vm_compute; reflexivity|]. reflexivity. Qed.

(** A signal number the checks accept but the action table does not have. *)
Lemma action_out_of_bounds :
  EvOutOfBounds 40 ∈ trace (send 2 (mkev 40 1 0 0 0) demo_kernel).
Proof. apply (bool_decide_unpack _). vm_compute. exact I. Qed.
