(* ===== verification/SigCalls.v ===== *)
(** * SigCalls: the signal system calls and the signal frame

    The [do_*] functions of signal.cpp that send signals, set actions and masks
    and wait for signals; [build_siginfo] and [sigreturn], which save and
    restore the interrupted context on the signal frame; the routing of
    terminal signals of posix_syscall.cpp. *)

From S2P Require Import Prelude HostMem AddrSpace Isa Vm Frame SoftFp Interp Segments Writes Kernel Signals.
From Stdlib Require Import Lia.
From stdpp Require Import base numbers list gmap strings option fin_maps fin_sets.

Open Scope Z_scope.
Open Scope vm_scope.

(** ** Sending *)

Section Sending.
Context {ord : HashOrder}.

(** The registered tasks, in the order of the task table. *)
Definition pid_tasks (k : Kernel) : list (Z * Task) :=
  omap (fun p => (fun t => (p, t)) <$> tasks k !! p) (hash_order (pid_map k)).

(** The targets of [send_sig_info]. *)
Definition kill_targets (self target_pid : Z) (k : Kernel) : list (Z * Task) :=
  if 0 <? target_pid then
    match find_task k target_pid with Some t => [(target_pid, t)] | None => [] end
  else if target_pid =? 0 then
    let own := from_option (fun t => pgid (t_pgrp t)) 0 (tasks k !! self) in
    filter (fun pt => pgid (t_pgrp pt.2) = own) (pid_tasks k)
  else if target_pid =? -1 then
    filter (fun pt => pt.1 <> 1 /\ pt.1 <> self) (pid_tasks k)
  else
    filter (fun pt => pgid (t_pgrp pt.2) = - target_pid) (pid_tasks k).

(** The delivery to one target: SIGKILL goes to its whole thread group. *)
Definition send_target (sig : Z) (ev : SigEvent) (k : Kernel) (pt : Z * Task) : Kernel :=
  if sig =? SIGKILL then
    foldl (fun k q => send q ev k) k (live_of k (from_option threads [] (group_of k pt.2)))
  else send pt.1 ev k.

(** [send_sig_info]. *)
Definition send_sig_info (target_pid sig code value : Z) (self : Z) (k : Kernel) : Z * Kernel :=
  let targets := kill_targets self target_pid k in
  if bool_decide (targets = []) then (- ESRCH, k)
  else if sig =? 0 then (0, k)
  else (0, foldl (send_target sig (mkev sig self code 0 value)) k targets).

Definition bad_sig (sig : Z) : bool := (sig <? 0) || (NSIG <=? sig).

Definition do_kill : M World Z :=
  a1 <- r 1 ;; a2 <- r 2 ;;
  let target_pid := arg_s32 a1 in
  let sig := arg_s32 a2 in
  if bad_sig sig then ret (- EINVAL)
  else kernel_op (send_sig_info target_pid sig SI_USER 0).

Definition do_tkill : M World Z :=
  a1 <- r 1 ;; a2 <- r 2 ;;
  let tid := arg_s32 a1 in
  let sig := arg_s32 a2 in
  if bad_sig sig || (tid <=? 0) then ret (- EINVAL)
  else kernel_op (fun self k =>
    match find_task k tid with
    | None => (- ESRCH, k)
    | Some _ => if sig =? 0 then (0, k) else (0, send tid (mkev sig self SI_USER 0 0) k)
    end).

Definition do_tgkill : M World Z :=
  a1 <- r 1 ;; a2 <- r 2 ;; a3 <- r 3 ;;
  let tgid_arg := arg_s32 a1 in
  let tid := arg_s32 a2 in
  let sig := arg_s32 a3 in
  if bad_sig sig || (tid <=? 0) || (tgid_arg <=? 0) then ret (- EINVAL)
  else kernel_op (fun self k =>
    match find_task k tid with
    | None => (- ESRCH, k)
    | Some t =>
      if negb (from_option tgid 0 (group_of k t) =? tgid_arg) then (- ESRCH, k)
      else if sig =? 0 then (0, k)
      else (0, send tid (mkev sig self SI_USER 0 0) k)
    end).

(** [deliver_to_ctty_fg]: [tty] is the terminal, [self] the task asked. *)
Definition fg_targets (self : Z) (tty : option Z) (k : Kernel) : list Z :=
  let target_pgid :=
    match tty with
    | Some i => from_option fg_pgrp 0 (ttys k !! i)
    | None => from_option (fun t => pgid (t_pgrp t)) 0 (tasks k !! self)
    end in
  fst <$> filter (fun pt : Z * Task => pgid (t_pgrp pt.2) = target_pgid /\
    match tty with
    | Some i => bool_decide ((sessions k !! t_session pt.2) ≫= ctty = Some i)
    | None => bool_decide (Some (t_session pt.2) = (t_session <$> tasks k !! self))
    end = true) (pid_tasks k).

Definition deliver_to_ctty_fg (tty : option Z) (sig : Z) (self : Z) (k : Kernel) : Kernel :=
  if sig <=? 0 then k
  else match tty with
  | Some i =>
    if bool_decide ((ttys k !! i) ≫= tty_owner = None) then k
    else foldl (fun k p => send p (mkev sig 0 SI_KERNEL 0 0) k) k (fg_targets self tty k)
  | None =>
    let l := fg_targets self None k in
    foldl (fun k p => send p (mkev sig 0 SI_KERNEL 0 0) k) k (if bool_decide (l = []) then [self] else l)
  end.

(** [PosixSyscall::host_signal] on the task [self]. *)
Definition host_signal (sig : Z) (self : Z) (k : Kernel) : Kernel :=
  if sig =? 0 then
    let k1 := task_wakeup self false k in
    match tasks k1 !! self with Some t => kick self t k1 | None => k1 end
  else
    deliver_to_ctty_fg (t ← tasks k !! self; s ← sessions k !! t_session t; ctty s) sig self k.

End Sending.

(** ** Actions and masks *)

Section Calls.
Context {ord : HashOrder} {env : HostEnv}.

Definition own_sigmask : M World Z := kget (fun self k => from_option sigmask 0 (tasks k !! self)).
Definition put_sigmask (m : Z) : M World unit := kmod (fun self => upd_task self (set_sigmask m)).

(** The part of [bpf::guest_siginfo] and its size. *)
Definition sizeof_guest_siginfo : Z := 128.
Definition sizeof_guest_ucontext : Z := 264.

Definition do_sigqueueinfo : M World Z :=
  a1 <- r 1 ;; a2 <- r 2 ;; uinfo_addr <- r 3 ;;
  let target_pid := arg_s32 a1 in
  let sig := arg_s32 a2 in
  if bad_sig sig then ret (- EINVAL)
  else
    si <- mmuM uinfo_addr sizeof_guest_siginfo ;;
    match si with
    | None => ret (- EFAULT)
    | Some p => value <- load64 p 3 ;; kernel_op (send_sig_info target_pid sig SI_QUEUE value)
    end.

(** Writing [ps->signal_actions[sig]]. *)
Definition write_action (sig : Z) (a : signal_action) (self : Z) (k : Kernel) : Kernel :=
  match tasks k !! self with
  | None => k
  | Some t =>
    match action_of k t sig with
    | None => emit (EvOutOfBounds sig) k
    | Some _ =>
      set_shared (alter (fun s => mkshared (<[Z.to_nat sig := a]> (signal_actions s)) (ps_umask s) (fds s) (cwd s) (root s) (exe_path s))
        (t_ps t) (shared k)) k
    end
  end.

Definition own_action (sig : Z) : M World signal_action :=
  kernel_op (fun self k => match tasks k !! self with Some t => read_action t sig k
                                                    | None => (mkact 0 0 0, k) end).

Definition do_sigaction : M World Z :=
  a1 <- r 1 ;; act_addr <- r 2 ;; oldact_addr <- r 3 ;;
  let signo := arg_s32 a1 in
  if (signo <=? 0) || (NSIG <=? signo) || (signo =? SIGKILL) || (signo =? SIGSTOP) then ret (- EINVAL)
  else
    rc <- (if negb (oldact_addr =? 0) then
             o <- mmu_wM oldact_addr 32 ;;
             match o with
             | None => ret (- EFAULT)
             | Some p =>
               cur <- own_action signo ;;
               store64 p 0 (a_handler cur) ;;
               store64 p 1 (u64 (a_flags cur)) ;;
               store64 p 2 0 ;;
               store64 p 3 (a_mask cur) ;;
               ret 0
             end
           else ret 0) ;;
    if negb (rc =? 0) then ret rc
    else if act_addr =? 0 then ret 0
    else
      a <- mmuM act_addr 32 ;;
      match a with
      | None => ret (- EFAULT)
      | Some p =>
        h <- load64 p 0 ;;
        if h =? SIG_ERR then ret (- EINVAL)
        else
          m <- load64 p 3 ;; f <- load64 p 1 ;;
          kmod (write_action signo (mkact h m (s32 f))) ;;
          ret 0
      end.

Definition SS_DISABLE : Z := 2.

Definition do_sigaltstack : M World Z :=
  old_addr <- r 2 ;;
  if negb (old_addr =? 0) then
    o <- mmu_wM old_addr 24 ;;
    match o with
    | None => ret (- EFAULT)
    | Some p => store64 p 0 0 ;; store64 p 1 SS_DISABLE ;; store64 p 2 0 ;; ret 0
    end
  else ret 0.

(** [valid]: the bits of the signal numbers below NSIG. *)
Definition valid_mask : Z := if NSIG <? 64 then Z.ones (NSIG - 1) else Z.ones 64.
Definition unblockable : Z := Z.lor (Z.shiftl 1 (SIGKILL - 1)) (Z.shiftl 1 (SIGSTOP - 1)).
Definition clean_mask (bits : Z) : Z := andnot (Z.land bits valid_mask) unblockable.

Definition new_sigmask (how old_mask bits : Z) : Z :=
  if how =? SIG_BLOCK then Z.lor old_mask bits
  else if how =? SIG_UNBLOCK then andnot old_mask bits
  else bits.

(** The rescan after a mask change: VM_SIGNAL_PENDING when something is queued. *)
Definition mask_kernel (m : Z) (self : Z) (k : Kernel) : Kernel :=
  let k1 := upd_task self (set_sigmask m) k in
  match tasks k1 !! self with
  | Some t =>
    if queue_empty (pending_signals t) then k1
    else task_wakeup self false (task_set_flags self VM_SIGNAL_PENDING k1)
  | None => k1
  end.

Definition do_sigprocmask : M World Z :=
  a1 <- r 1 ;; set_addr <- r 2 ;; old_addr <- r 3 ;;
  let how := arg_s32 a1 in
  if negb ((how =? SIG_BLOCK) || (how =? SIG_UNBLOCK) || (how =? SIG_SETMASK)) then ret (- EINVAL)
  else
    bits <- (if negb (set_addr =? 0) then
               p <- mmuM set_addr 8 ;;
               match p with None => ret None | Some p => b <- load64 p 0 ;; ret (Some b) end
             else ret (Some 0)) ;;
    match bits with
    | None => ret (- EFAULT)
    | Some bits =>
      ok <- (if negb (old_addr =? 0) then
               o <- mmu_wM old_addr 16 ;;
               match o with
               | None => ret false
               | Some p => m <- own_sigmask ;; store64 p 0 m ;; store64 p 1 0 ;; ret true
               end
             else ret true) ;;
      if negb ok then ret (- EFAULT)
      else if set_addr =? 0 then ret 0
      else
        old_mask <- own_sigmask ;;
        kmod (mask_kernel (new_sigmask how old_mask (clean_mask bits))) ;;
        ret 0
    end.

(** [parse_guest_sigset]. *)
Definition parse_guest_sigset (set_addr : Z) : M World (option Z) :=
  if set_addr =? 0 then ret (Some 0)
  else
    p <- mmuM set_addr 8 ;;
    match p with
    | None => ret None
    | Some p => b <- load64 p 0 ;; ret (Some (Z.land b valid_mask))
    end.

(** ** setjmp and longjmp *)

Definition do_sigsetjmp : M World Z :=
  env_addr <- r 1 ;; a2 <- r 2 ;;
  let savemask := arg_s32 a2 in
  e <- mmu_wM env_addr 80 ;;
  match e with
  | None => ret (- EFAULT)
  | Some p =>
    r6 <- r 6 ;; store64 p 0 r6 ;;
    r7 <- r 7 ;; store64 p 1 r7 ;;
    r8 <- r 8 ;; store64 p 2 r8 ;;
    r9 <- r 9 ;; store64 p 3 r9 ;;
    r10 <- r 10 ;; store64 p 4 r10 ;;
    pc0 <- pc ;; store64 p 5 pc0 ;;
    d <- gets signal_depth ;; store64 p 6 d ;;
    store64 p 7 0 ;;
    store64 p 8 (if savemask =? 0 then 0 else 1) ;;
    (if savemask =? 0 then ret tt else m <- own_sigmask ;; store64 p 9 m) ;;
    ret 0
  end.

Definition do_siglongjmp : M World Z :=
  env_addr <- r 1 ;; a2 <- r 2 ;;
  let val := arg_s32 a2 in
  e <- mmuM env_addr 80 ;;
  match e with
  | None => ret (- EFAULT)
  | Some p =>
    e0 <- load64 p 0 ;; set_r 6 e0 ;;
    e1 <- load64 p 1 ;; set_r 7 e1 ;;
    e2 <- load64 p 2 ;; set_r 8 e2 ;;
    e3 <- load64 p 3 ;; set_r 9 e3 ;;
    e4 <- load64 p 4 ;; set_r 10 e4 ;;
    e7 <- load64 p 7 ;; (if e7 =? 0 then ret tt else set_r 1 e7) ;;
    saved_pc <- load64 p 5 ;;
    e6 <- load64 p 6 ;; modify (set_signal_depth e6) ;;
    put_pc saved_pc ;;
    e8 <- load64 p 8 ;;
    (if e8 =? 0 then ret tt else m <- load64 p 9 ;; kmod (mask_kernel m)) ;;
    ret (if val =? 0 then 1 else val)
  end.

(** ** sigsuspend *)

(** The locked part of the loop: is something deliverable?  If not, the pending
    flag is cleared. *)
Definition deliverable (mask : Z) (q : list SigEvent) : bool :=
  existsb (fun e => nz (sig_bit (ev_sig e)) && negb (is_blocked mask (ev_sig e))) q.

Definition suspend_check (mask : Z) (self : Z) (k : Kernel) : bool * Kernel :=
  match tasks k !! self with
  | None => (false, k)
  | Some t =>
    if deliverable mask (pending_signals t) then (true, k)
    else (false, task_clear_flags self VM_SIGNAL_PENDING k)
  end.

Fixpoint sigsuspend_loop (n : nat) (mask : Z) : M World Z :=
  f <- get_flags ;;
  if has f (Z.lor VM_KILLED (Z.lor VM_STOPPED VM_DEBUG_STOP)) then ret SYSCALL_RESTART_NOHAND
  else
    d <- kernel_op (suspend_check mask) ;;
    if d : bool then ret SYSCALL_RESTART_NOHAND
    else
      set_flags VM_BLOCKED ;;
      match n with
      | O => waitM
      | Datatypes.S n' => wait_forK None ;; clear_flags VM_BLOCKED ;; sigsuspend_loop n' mask
      end.

Definition do_sigsuspend : M World Z :=
  set_addr <- r 1 ;;
  m <- parse_guest_sigset set_addr ;;
  match m with
  | None => ret (- EFAULT)
  | Some mask =>
    put_sigmask mask ;;
    n <- gets (fun v => length (w_obs (sys v))) ;;
    sigsuspend_loop n mask
  end.

(** ** The signal frame *)

(** [build_siginfo]; a failing [mmu_w] is a null dereference, after which there
    is no next state. *)
Fixpoint store_gregs (p : hptr) (i n : nat) : M World unit :=
  match n with
  | O => ret tt
  | Datatypes.S n' =>
    x <- r (Z.of_nat i) ;; store64 p (5 + Z.of_nat i) x ;; store_gregs p (Datatypes.S i) n'
  end.

Definition build_siginfo_posix (frame_base : Z) (info : sig_info) (resumed_pc interrupted_sp : Z) : M World unit :=
  si <- mmu_wM (u64 (frame_base + SIGINFO_FRAME_SI_OFF)) sizeof_guest_siginfo ;;
  uc <- mmu_wM (u64 (frame_base + SIGINFO_FRAME_UC_OFF)) sizeof_guest_ucontext ;;
  match si, uc with
  | Some p, Some u =>
    storeM p 128 0 ;;
    storeM p 4 (si_sig info) ;;
    storeM (padd p 8) 4 (si_code info) ;;
    storeM (padd p 16) 4 (si_pid info) ;;
    (if si_sig info =? SIGCHLD then storeM (padd p 24) 4 (si_status info)
     else storeM (padd p 24) 8 (si_value info)) ;;
    storeM u 264 0 ;;
    store_gregs u 0 10 ;;
    store64 u 15 interrupted_sp ;;
    store64 u 16 resumed_pc ;;
    m <- own_sigmask ;;
    storeM (padd u 136) 8 m
  | _, _ => waitM
  end.

Fixpoint load_gregs (p : hptr) (i n : nat) : M World unit :=
  match n with
  | O => ret tt
  | Datatypes.S n' =>
    x <- load64 p (5 + Z.of_nat i) ;; set_r (Z.of_nat i) x ;; load_gregs p (Datatypes.S i) n'
  end.

Definition sigreturn_posix (frame_base fallback_pc : Z) : M World Z :=
  uc <- mmuM (u64 (frame_base + SIGINFO_FRAME_UC_OFF)) sizeof_guest_ucontext ;;
  match uc with
  | None => ret fallback_pc
  | Some u =>
    load_gregs u 0 11 ;;
    bits <- loadM (padd u 136) 8 ;;
    put_sigmask (clean_mask bits) ;;
    load64 u 16
  end.

End Calls.

(** ** No signal is lost

    The steps the tasks take on the signal state.  [susp] are the tasks inside
    [do_sigsuspend]: they run no other call until a handler interrupts them. *)

Section Lost.
Context {ord : HashOrder}.

Inductive sig_step : gset Z * Kernel -> gset Z * Kernel -> Prop :=
| ss_send susp k p ev : sig_step (susp, k) (susp, send p ev k)
| ss_take susp k p :
    sig_step (susp, k)
      (match (take_signal p k).1 with Some _ => susp ∖ {[p]} | None => susp end, (take_signal p k).2)
| ss_mask susp k p m : p ∉ susp -> sig_step (susp, k) (susp, mask_kernel m p k)
| ss_sigreturn susp k p m : p ∉ susp -> sig_step (susp, k) (susp, upd_task p (set_sigmask (clean_mask m)) k)
| ss_suspend susp k p m : p ∉ susp ->
    sig_step (susp, k) ({[p]} ∪ susp, (suspend_check m p (upd_task p (set_sigmask m) k)).2)
| ss_recheck susp k p t : p ∈ susp -> tasks k !! p = Some t ->
    sig_step (susp, k) (susp, (suspend_check (sigmask t) p k).2)
| ss_flags susp k p t f : tasks k !! p = Some t -> Z.testbit f 3 = pending_flag t ->
    sig_step (susp, k) (susp, upd_task p (set_t_flags f) k).

Definition task_safe (susp : gset Z) (p : Z) (t : Task) : Prop :=
  (length (pending_signals t) <= BPF_SIGNAL_QUE_SIZE)%nat /\
  (pending_flag t = true \/ pending_signals t = [] \/
   (p ∈ susp /\ deliverable (sigmask t) (pending_signals t) = false)).

Definition signals_safe (s : gset Z * Kernel) : Prop :=
  forall p t, tasks s.2 !! p = Some t -> task_safe s.1 p t.

Lemma deliverable_sub m q q' :
  (forall e, e ∈ q' -> e ∈ q) -> deliverable m q = false -> deliverable m q' = false.
Proof.
  intros Hsub Hd. apply not_true_is_false. intros Ht. unfold deliverable in *.
  apply existsb_exists in Ht as (e & He & Hb). apply list_elem_of_In in He. apply Hsub in He.
  apply list_elem_of_In in He. apply not_true_iff_false in Hd. apply Hd. apply existsb_exists. eauto.
Qed.

Lemma sig_bit_valid sig : 0 < sig < NSIG -> nz (sig_bit sig) = true.
Proof.
  intros H. unfold sig_bit. destruct (Z.leb_spec 1 sig); [|lia]. destruct (Z.ltb_spec sig NSIG); [|lia].
  cbn [andb]. rewrite Z.shiftl_1_l. unfold nz. apply negb_true_iff, Z.eqb_neq. apply Z.pow_nonzero; lia.
Qed.

Lemma take_signal_tasks self k t :
  tasks k !! self = Some t -> (length (pending_signals t) <= BPF_SIGNAL_QUE_SIZE)%nat ->
  (exists t', tasks (take_signal self k).2 !! self = Some t' /\ sigmask t' = sigmask t /\
    (forall e, e ∈ pending_signals t' -> e ∈ pending_signals t) /\
    (length (pending_signals t') <= length (pending_signals t))%nat /\
    (pending_flag t' = pending_flag t \/ pending_signals t' = []) /\
    ((take_signal self k).1 <> None -> deliverable (sigmask t) (pending_signals t) = true)) /\
  (forall q, q <> self -> tasks (take_signal self k).2 !! q = tasks k !! q).
Proof.
  intros Ht Hl. destruct (split_exists (sigmask t) (pending_signals t)) as (pre & c & post & Hs).
  unfold take_signal. rewrite Ht, (scan_spec (sigmask t) _ _ _ pre c post [] (files k) Hs Hl).
  cbn [sc_queue sc_deferred sc_chosen sc_files app]. set (rest := post ++ unheard _ _ pre).
  set (k1 := upd_task self (set_pending rest) _).
  set (k2 := if (chosen_sig c =? 0) && queue_empty rest then _ else k1).
  assert (forall e, e ∈ rest -> e ∈ pending_signals t) as Hsub.
  { intros e He. unfold rest in He. apply elem_of_app in He as [He|He].
    - destruct Hs; [by apply elem_of_nil in He|]. apply elem_of_app. right. by right.
    - apply list_elem_of_filter in He as [_ He]. destruct Hs; [done|]. apply elem_of_app. by left. }
  assert (length rest <= length (pending_signals t))%nat as Hlen.
  { unfold rest, unheard. rewrite length_app.
    pose proof (length_filter (fun e => listened (files k) (signalfds t k) e = false) pre).
    destruct Hs; rewrite ?length_app; cbn [length] in *; lia. }
  assert (tasks k1 !! self = Some (set_pending rest t)) as H1.
  { unfold k1. rewrite tasks_upd_task, decide_True by done. cbn [tasks set_files]. by rewrite Ht. }
  assert (exists t', tasks k2 !! self = Some t' /\ sigmask t' = sigmask t /\ pending_signals t' = rest /\
    (pending_flag t' = pending_flag t \/ rest = [])) as (t' & T1 & T2 & T3 & T4).
  { unfold k2. destruct (chosen_sig c =? 0); cbn [andb]; [|exists (set_pending rest t); split_and!; auto].
    destruct rest as [|e0 r0] eqn:Er; cbn [queue_empty]; [|exists (set_pending (e0 :: r0) t); split_and!; auto].
    exists (set_t_flags (andnot (t_flags t) VM_SIGNAL_PENDING) (set_pending [] t)). split_and!; auto.
    unfold task_clear_flags. by rewrite tasks_upd_task, decide_True, H1 by done. }
  assert (forall q, q <> self -> tasks k2 !! q = tasks k !! q) as H2.
  { intros q Hq. assert (tasks k1 !! q = tasks k !! q) as E by (unfold k1; by rewrite tasks_upd_task, decide_False by done).
    unfold k2. destruct (_ && _); [|done]. unfold task_clear_flags. by rewrite tasks_upd_task, decide_False by done. }
  assert (forall res k', tasks k' = tasks k2 -> (res <> None -> exists e, c = Some e /\ 0 < ev_sig e < NSIG) ->
    let o : option (SigEvent * signal_action) * Kernel := (res, k') in
    (exists t'0, tasks o.2 !! self = Some t'0 /\ sigmask t'0 = sigmask t /\
      (forall e, e ∈ pending_signals t'0 -> e ∈ pending_signals t) /\
      (length (pending_signals t'0) <= length (pending_signals t))%nat /\
      (pending_flag t'0 = pending_flag t \/ pending_signals t'0 = []) /\
      (o.1 <> None -> deliverable (sigmask t) (pending_signals t) = true)) /\
    (forall q, q <> self -> tasks o.2 !! q = tasks k !! q)) as Hfin.
  { intros res k' Hk' Hres o. unfold o. cbn [fst snd]. rewrite Hk'. split; [|done]. exists t'. rewrite T2, T3.
    split_and!; try done. intros Hne. destruct (Hres Hne) as (e & -> & He).
    remember (Some e) as c eqn:Ec. destruct Hs as [|pre e' post Hb Hbe]; [done|]. injection Ec as ->.
    unfold deliverable. rewrite existsb_app. cbn [existsb]. rewrite sig_bit_valid, Hbe by done. cbn. by rewrite orb_true_r. }
  destruct (Z.ltb_spec 0 (chosen_sig c)) as [Hc1|]; cbn [andb]; [|by apply Hfin].
  destruct (Z.ltb_spec (chosen_sig c) NSIG) as [Hc2|]; cbn [andb]; [|by apply Hfin].
  destruct (read_action t (chosen_sig c) k2) as [act k3] eqn:Er. apply Hfin.
  - change k3 with (act, k3).2. rewrite <- Er. apply read_action_tasks.
  - intros _. destruct c as [e|]; [|cbn in Hc1; lia]. eauto.
Qed.

Lemma task_safe_trel susp p t t' : trel t t' -> task_safe susp p t -> task_safe susp p t'.
Proof.
  intros Hr [Hl Hs]. split; [by apply (tr_length _ _ Hr)|].
  destruct (tr_new _ _ Hr) as [E|E]; [|by left]. rewrite E, (tr_mask _ _ Hr).
  destruct Hs as [Hf|Hs]; [left; by apply (tr_pending _ _ Hr)|by right].
Qed.

(** A step that changes one task, judged on that task. *)
Lemma safe_upd susp susp' k k' p t t' :
  signals_safe (susp, k) -> tasks k !! p = Some t -> tasks k' !! p = Some t' ->
  (forall q, q <> p -> tasks k' !! q = tasks k !! q) -> (forall q, q <> p -> q ∈ susp -> q ∈ susp') ->
  (task_safe susp p t -> task_safe susp' p t') -> signals_safe (susp', k').
Proof.
  intros Hs Ht Ht' Hother Hsusp Hp q tq Hq. cbn [fst snd] in *. destruct (decide (q = p)) as [->|Hne].
  - simplify_eq. apply Hp. by apply (Hs p t).
  - rewrite Hother in Hq by done. destruct (Hs q tq Hq) as [Hl [H|[H|[H1 H2]]]]; split; auto.
Qed.

Lemma upd_task_same p f k t : tasks k !! p = Some t -> tasks (upd_task p f k) !! p = Some (f t).
Proof. intros Ht. by rewrite tasks_upd_task, decide_True, Ht by done. Qed.

Lemma upd_task_other p f k q : q <> p -> tasks (upd_task p f k) !! q = tasks k !! q.
Proof. intros Hq. by rewrite tasks_upd_task, decide_False by done. Qed.

(** A missing task is not created. *)
Lemma upd_task_none p f k : tasks k !! p = None -> tasks (upd_task p f k) = tasks k.
Proof. intros Hn. unfold upd_task. cbn [tasks set_tasks]. by apply alter_id; intros ? ?; simplify_eq. Qed.

Lemma suspend_check_tasks m p k t :
  tasks k !! p = Some t ->
  exists t', tasks (suspend_check m p k).2 !! p = Some t' /\ sigmask t' = sigmask t /\
    pending_signals t' = pending_signals t /\
    (pending_flag t' = pending_flag t \/ deliverable m (pending_signals t) = false) /\
    (deliverable m (pending_signals t) = true -> t' = t).
Proof.
  intros Ht. unfold suspend_check. rewrite Ht. destruct (deliverable m (pending_signals t)) eqn:Ed; cbn [snd].
  - exists t. split_and!; auto.
  - exists (set_t_flags (andnot (t_flags t) VM_SIGNAL_PENDING) t). split_and!; auto; [|congruence].
    unfold task_clear_flags. by rewrite (upd_task_same _ _ _ t).
Qed.

Lemma suspend_check_other m p k q : q <> p -> tasks (suspend_check m p k).2 !! q = tasks k !! q.
Proof.
  intros Hq. unfold suspend_check. destruct (tasks k !! p) as [t|]; [|done].
  destruct (deliverable _ _); [done|]. by apply upd_task_other.
Qed.

Lemma suspend_check_none m p k : tasks k !! p = None -> suspend_check m p k = (false, k).
Proof. intros Hn. unfold suspend_check. by rewrite Hn. Qed.

Lemma signals_safe_same susp susp' k k' :
  signals_safe (susp, k) -> tasks k' = tasks k -> (forall q, q ∈ susp -> is_Some (tasks k !! q) -> q ∈ susp') ->
  signals_safe (susp', k').
Proof.
  intros Hs Hk Hsusp q t Hq. cbn [fst snd] in *. rewrite Hk in Hq.
  destruct (Hs q t Hq) as [Hl [H|[H|[H1 H2]]]]; split; eauto 7.
Qed.

Lemma signals_safe_step s s' : sig_step s s' -> signals_safe s -> signals_safe s'.
Proof.
  intros Hst Hs. destruct Hst as [susp k p ev|susp k p|susp k p m Hp|susp k p m Hp|susp k p m Hp|susp k p t Hp Ht|susp k p t f Ht Hf].
  - intros q t' Hq. destruct (krel_task_back _ _ _ _ (krel_send p ev k) Hq) as (t & Ht & Hr).
    apply (task_safe_trel _ _ t); [done|]. by apply (Hs q t).
  - destruct (tasks k !! p) as [t|] eqn:Ht.
    2: { unfold take_signal. rewrite Ht. exact Hs. }
    destruct (Hs p t Ht) as [Hl Hsafe].
    destruct (take_signal_tasks p k t Ht Hl) as ((t' & T1 & T2 & T3 & T4 & T5 & T6) & To).
    apply (safe_upd susp _ k _ p t t'); try done.
    + intros q Hq Hin. destruct (take_signal p k).1; [|done]. set_solver.
    + intros _. split; [lia|]. destruct T5 as [T5|T5]; [|auto].
      destruct Hsafe as [Hf|[He|[Hin Hd]]].
      * left. by rewrite T5.
      * right. left. destruct (pending_signals t') as [|e ?]; [done|].
        specialize (T3 e ltac:(by left)). rewrite He in T3. by apply elem_of_nil in T3.
      * right. right. destruct (take_signal p k).1 as [x|].
        -- rewrite T6 in Hd by done. done.
        -- split; [done|]. rewrite T2. by apply (deliverable_sub _ (pending_signals t)).
  - destruct (tasks k !! p) as [t|] eqn:Ht.
    2: { apply (signals_safe_same susp susp k); [done| |done]. unfold mask_kernel.
         rewrite (upd_task_none _ _ _ Ht), Ht. by apply upd_task_none. }
    unfold mask_kernel. rewrite (upd_task_same p (set_sigmask m) k t Ht). cbn [pending_signals set_sigmask].
    destruct (queue_empty (pending_signals t)) eqn:Eq.
    + apply (safe_upd susp susp k _ p t (set_sigmask m t)); try done; [by apply upd_task_same|by intros; apply upd_task_other|].
      intros [Hl _]. split; [done|]. right. left. cbn [pending_signals set_sigmask]. by destruct (pending_signals t).
    + apply (safe_upd susp susp k _ p t (set_t_flags (Z.lor (t_flags t) VM_SIGNAL_PENDING) (set_sigmask m t))); try done.
      * cbn [tasks task_wakeup emit]. unfold task_set_flags. by rewrite (upd_task_same _ _ _ (set_sigmask m t)) by by apply upd_task_same.
      * intros q Hq. cbn [tasks task_wakeup emit]. unfold task_set_flags. by rewrite !upd_task_other by done.
      * intros [Hl _]. split; [done|]. left. unfold pending_flag. cbn [t_flags set_t_flags].
        by rewrite Z.lor_spec, orb_true_r.
  - destruct (tasks k !! p) as [t|] eqn:Ht.
    2: { apply (signals_safe_same susp susp k); [done| |done]. by apply upd_task_none. }
    apply (safe_upd susp susp k _ p t (set_sigmask (clean_mask m) t)); try done; [by apply upd_task_same|by intros; apply upd_task_other|].
    intros [Hl [Hf|[He|[Hin _]]]]; [split; auto..|done].
  - destruct (tasks k !! p) as [t|] eqn:Ht.
    2: { rewrite suspend_check_none by (by rewrite (upd_task_none _ _ _ Ht)).
         apply (signals_safe_same susp _ k); [done| |set_solver]. by apply upd_task_none. }
    destruct (suspend_check_tasks m p (upd_task p (set_sigmask m) k) (set_sigmask m t)) as (t' & T1 & T2 & T3 & T4 & T5);
      [by apply upd_task_same|]. cbn [pending_signals set_sigmask sigmask] in *.
    apply (safe_upd susp _ k _ p t t'); try done.
    + intros q Hq. rewrite suspend_check_other by done. by apply upd_task_other.
    + set_solver.
    + intros [Hl Hsafe]. split; [by rewrite T3|]. rewrite T2, T3.
      destruct (deliverable m (pending_signals t)) eqn:Ed.
      * rewrite (T5 eq_refl). destruct Hsafe as [Hf|[He|[Hin _]]]; [by left|by (right; left)|done].
      * right. right. split; [set_solver|done].
  - destruct (suspend_check_tasks (sigmask t) p k t Ht) as (t' & T1 & T2 & T3 & T4 & T5).
    apply (safe_upd susp susp k _ p t t'); try done; [by intros; apply suspend_check_other|].
    intros [Hl Hsafe]. split; [by rewrite T3|]. rewrite T2, T3.
    destruct (deliverable (sigmask t) (pending_signals t)) eqn:Ed.
    + rewrite (T5 eq_refl). destruct Hsafe as [Hf|[He|[Hin ?]]]; [by left|by (right; left)|done].
    + by right; right.
  - apply (safe_upd susp susp k _ p t (set_t_flags f t)); try done; [by apply upd_task_same|by intros; apply upd_task_other|].
    intros [Hl Hsafe]. split; [done|]. unfold pending_flag in *. cbn [t_flags set_t_flags pending_signals sigmask]. by rewrite Hf.
Qed.


End Lost.

(** ** The signal frame *)

Section SignalFrame.
Context {ord : HashOrder} {env : HostEnv}.
Implicit Types v : vm World.

Definition own_task v : option Task := tasks (w_kern (sys v)) !! w_self (sys v).
Definition own_mask v : Z := from_option sigmask 0 (own_task v).

(** The state after the kernel has been read. *)
Definition synced v : vm World :=
  set_sys (mkworld (w_self (sys v)) (self_flags (sys v) (flags v)) (w_obs (sys v))) v.

Lemma self_flags_task v t : own_task v = Some t ->
  tasks (self_flags (sys v) (flags v)) !! w_self (sys v) = Some (set_t_flags (flags v) t).
Proof. intros Ht. unfold self_flags. by apply upd_task_same. Qed.

Lemma own_sigmask_eq v t : own_task v = Some t -> own_sigmask v = Ok (sigmask t) (synced v).
Proof.
  intros Ht. unfold own_sigmask, kget, kernel_op. rewrite (self_flags_task v t Ht). cbn. by destruct v.
Qed.

Lemma own_task_synced v t : own_task v = Some t -> own_task (synced v) = Some (set_t_flags (flags v) t).
Proof. apply self_flags_task. Qed.

(** The register part of the context: word [5 + i] holds register [i]. *)
Lemma store_gregs_ok u : forall n i v,
  exists m', store_gregs u i n v = Ok tt (set_mm m' v) /\
    writes u (fun j => 8 * (5 + Z.of_nat i) <= j < 8 * (5 + Z.of_nat i + Z.of_nat n)) (mm v) m' /\
    forall j, (i <= j < i + n)%nat -> word m' u (5 + Z.of_nat j) = (reg v !!! j) mod 2 ^ 64.
Proof.
  induction n as [|n IH]; intros i v; cbn [store_gregs].
  { exists (mm v). split; [by destruct v|]. split; [constructor|]. lia. }
  set (m1 := store (mm v) (padd u (8 * (5 + Z.of_nat i))) 8 (reg v !!! i)).
  destruct (IH (Datatypes.S i) (set_mm m1 v)) as (m' & E & Hw & Hr). cbn [mm set_mm reg] in *.
  exists m'. split; [|split].
  - unfold bind, r, gets, store64, storeM, modify. rewrite Nat2Z.id. fold m1. rewrite E. by destruct v.
  - apply (writes_trans _ _ _ m1); [apply writes_one; lia|]. eapply writes_mono; [exact Hw|]. intros j. cbn beta. lia.
  - intros j Hj. destruct (decide (j = i)) as [->|Hne].
    + rewrite (writes_word _ _ _ _ _ Hw) by (intros j; lia). apply word_store.
    + apply Hr. lia.
Qed.

Lemma load_gregs_ok u : forall n i v,
  (i + n <= length (reg v))%nat ->
  exists l, load_gregs u i n v = Ok tt (set_reg l v) /\ length l = length (reg v) /\
    forall j, l !!! j = if decide (i <= j < i + n)%nat then word (mm v) u (5 + Z.of_nat j) else reg v !!! j.
Proof.
  induction n as [|n IH]; intros i v Hl; cbn [load_gregs].
  { exists (reg v). split; [by destruct v|]. split; [done|]. intros j. by rewrite decide_False by lia. }
  set (x := word (mm v) u (5 + Z.of_nat i)).
  destruct (IH (Datatypes.S i) (set_reg (<[i := x]> (reg v)) v)) as (l & E & Hll & Hj).
  { cbn [reg set_reg]. rewrite length_insert. lia. }
  cbn [reg set_reg mm] in *. rewrite length_insert in Hll. exists l. split; [|split; [done|]].
  - unfold bind, load64, loadM, gets, set_r, modify. rewrite Nat2Z.id.
    change (load (mm v) (padd u (8 * (5 + Z.of_nat i))) 8) with x. rewrite E. by destruct v.
  - intros j. rewrite Hj. destruct (decide (j = i)) as [->|Hne].
    + rewrite decide_False, decide_True by lia. by rewrite list_lookup_total_insert_eq by lia.
    + rewrite list_lookup_total_insert_ne by done.
      destruct (decide (Datatypes.S i <= j < Datatypes.S i + n)%nat), (decide (i <= j < i + Datatypes.S n)%nat); (done || lia).
Qed.

(** What [build_siginfo] leaves at the siginfo pointer [p] and the context
    pointer [u]. *)
Record frame_built (m : mmem) (p u : hptr) (info : sig_info) (regs : list Z) (pc0 sp mask : Z) : Prop := {
  fb_signo : load m (padd p 0) 4 = u32 (si_sig info);
  fb_code : load m (padd p 8) 4 = u32 (si_code info);
  fb_pid : load m (padd p 16) 4 = u32 (si_pid info);
  fb_value : if si_sig info =? SIGCHLD then load m (padd p 24) 4 = u32 (si_status info)
             else load m (padd p 24) 8 = u64 (si_value info);
  fb_gregs : forall j, (j < 10)%nat -> word m u (5 + Z.of_nat j) = u64 (regs !!! j);
  fb_sp : word m u 15 = u64 sp;
  fb_pc : word m u 16 = u64 pc0;
  fb_mask : word m u 17 = u64 mask
}.

(** The siginfo stores, then the context stores. *)
Lemma siginfo_stores p info (m : mmem) :
  let m5 := store m p 128 0 in
  let m6 := store m5 p 4 (si_sig info) in
  let m7 := store m6 (padd p 8) 4 (si_code info) in
  let m8 := store m7 (padd p 16) 4 (si_pid info) in
  let m9 := if si_sig info =? SIGCHLD then store m8 (padd p 24) 4 (si_status info)
            else store m8 (padd p 24) 8 (si_value info) in
  writes p (fun j => 0 <= j < 128) m m9 /\
  load m9 (padd p 0) 4 = u32 (si_sig info) /\ load m9 (padd p 8) 4 = u32 (si_code info) /\
  load m9 (padd p 16) 4 = u32 (si_pid info) /\
  (if si_sig info =? SIGCHLD then load m9 (padd p 24) 4 = u32 (si_status info)
   else load m9 (padd p 24) 8 = u64 (si_value info)).
Proof.
  intros m5 m6 m7 m8 m9.
  assert (padd p 0 = p) as Hp0 by (unfold padd; rewrite Z.add_0_r; by destruct p).
  assert (writes p (fun j => 0 <= j < 128) m m5) as W5.
  { unfold m5. rewrite <- Hp0 at 2. apply writes_one. lia. }
  assert (writes p (fun j => 0 <= j < 4) m5 m6) as W6.
  { unfold m6. rewrite <- Hp0 at 2. apply writes_one. lia. }
  assert (writes p (fun j => 8 <= j < 12) m6 m7) as W7 by (apply writes_one; lia).
  assert (writes p (fun j => 16 <= j < 20) m7 m8) as W8 by (apply writes_one; lia).
  assert (writes p (fun j => 24 <= j < 32) m8 m9) as W9 by (unfold m9; case_match; apply writes_one; lia).
  split_and!.
  - eapply writes_trans; [exact W5|]. eapply writes_trans; [eapply writes_mono; [exact W6|cbn beta; lia]|].
    eapply writes_trans; [eapply writes_mono; [exact W7|cbn beta; lia]|].
    eapply writes_trans; [eapply writes_mono; [exact W8|cbn beta; lia]|].
    eapply writes_mono; [exact W9|cbn beta; lia].
  - rewrite (writes_load _ _ _ _ _ _ W9) by lia. rewrite (writes_load _ _ _ _ _ _ W8) by lia.
    rewrite (writes_load _ _ _ _ _ _ W7) by lia. rewrite Hp0. apply load_store.
  - rewrite (writes_load _ _ _ _ _ _ W9) by lia. rewrite (writes_load _ _ _ _ _ _ W8) by lia. apply load_store.
  - rewrite (writes_load _ _ _ _ _ _ W9) by lia. apply load_store.
  - unfold m9. case_match; apply load_store.
Qed.

Lemma build_siginfo_ok v t frame_base info resumed_pc sp i mp :
  mem_wf (mm v) -> valid_access frame_base SIGNAL_FRAME_SIGINFO_SIZE -> maps (mm v) !! i = Some mp ->
  covers mp frame_base SIGNAL_FRAME_SIGINFO_SIZE -> map_writable mp = true -> m_cow mp = None ->
  own_task v = Some t ->
  exists m', build_siginfo_posix frame_base info resumed_pc sp v = Ok tt (set_mm m' (synced v)) /\
    mem_wf m' /\ maps m' = maps (mm v) /\
    frame_built m' (host_of mp (frame_base + 128)) (host_of mp (frame_base + 256)) info (reg v) resumed_pc sp (sigmask t).
Proof.
  intros Hwf Hva Hi Hc Hwr Hcow Ht. unfold valid_access, covers in *.
  change SIGNAL_FRAME_SIGINFO_SIZE with 520 in *.
  set (p := host_of mp (frame_base + 128)). set (u := host_of mp (frame_base + 256)).
  assert (u = padd p 128) as Hu by (unfold u, p, host_of, padd; cbn; f_equal; lia).
  destruct (mmu_w_own (mm v) (frame_base + 128) 128 i mp) as (A1 & A2 & A3 & A4);
    try done; [unfold valid_access; lia|unfold covers; lia|].
  destruct (mmu_w (mm v) (frame_base + 128) 128) as [q1 m1] eqn:E1. cbn [fst snd] in *. subst q1. fold p in E1.
  destruct (mmu_w_own m1 (frame_base + 256) 264 i mp) as (B1 & B2 & B3 & B4);
    try done; [unfold valid_access; lia|by rewrite A3|unfold covers; lia|].
  destruct (mmu_w m1 (frame_base + 256) 264) as [q2 m2] eqn:E2. cbn [fst snd] in *. subst q2. fold u in E2.
  destruct (siginfo_stores p info m2) as (W9 & L1 & L2 & L3 & L4).
  set (m9 := if si_sig info =? SIGCHLD then _ else _) in *.
  set (m10 := store m9 u 264 0).
  destruct (store_gregs_ok u 10 0 (set_mm m10 v)) as (m11 & E11 & W11 & G11). cbn [mm set_mm reg] in *.
  set (m12 := store m11 (padd u (8 * 15)) 8 sp). set (m13 := store m12 (padd u (8 * 16)) 8 resumed_pc).
  set (m14 := store m13 (padd u 136) 8 (sigmask t)).
  assert (padd u 0 = u) as Hu0 by (unfold padd; rewrite Z.add_0_r; by destruct u).
  assert (writes u (fun j => 0 <= j < 264) m9 m10) as W10.
  { unfold m10. rewrite <- Hu0 at 2. apply writes_one. lia. }
  assert (writes u (fun j => 120 <= j < 128) m11 m12) as W12 by (apply writes_one; lia).
  assert (writes u (fun j => 128 <= j < 136) m12 m13) as W13 by (apply writes_one; lia).
  assert (writes u (fun j => 136 <= j < 144) m13 m14) as W14 by (apply writes_one; lia).
  assert (writes u (fun j => 0 <= j < 264) m9 m14) as Wu.
  { eapply writes_trans; [exact W10|]. eapply writes_trans; [eapply writes_mono; [exact W11|cbn beta; lia]|].
    eapply writes_trans; [eapply writes_mono; [exact W12|cbn beta; lia]|].
    eapply writes_trans; [eapply writes_mono; [exact W13|cbn beta; lia]|].
    eapply writes_mono; [exact W14|cbn beta; lia]. }
  assert (forall o n, 0 <= o -> o + Z.of_nat n <= 128 -> load m14 (padd p o) n = load m9 (padd p o) n) as Hkeep.
  { intros o n Ho Hn. unfold load, host_read. apply load_le_ext. intros j Hj. cbn [padd fst snd] in *.
    apply (writes_out u _ _ _ _ _ Wu). right. rewrite Hu. cbn [padd snd]. lia. }
  exists m14. split; [|split; [|split]].
  - unfold build_siginfo_posix, sizeof_guest_siginfo, sizeof_guest_ucontext.
    change SIGINFO_FRAME_SI_OFF with 128. change SIGINFO_FRAME_UC_OFF with 256.
    rewrite (uwrap_small 64 (frame_base + 128)) by lia. rewrite (uwrap_small 64 (frame_base + 256)) by lia.
    rewrite (run_bind _ _ v (Some p) m1) by (unfold mmu_wM, mem_op; by rewrite E1).
    rewrite (run_bind _ _ _ (Some u) m2) by (unfold mmu_wM, mem_op; cbn [mm set_mm]; by rewrite E2).
    cbn match. rewrite set_mm_set_mm. unfold bind at 1, storeM at 1, modify at 1. unfold bind at 1, storeM at 1, modify at 1.
    unfold bind at 1, storeM at 1, modify at 1. unfold bind at 1, storeM at 1, modify at 1. cbn [mm set_mm].
    assert (forall w : vm World, (if si_sig info =? SIGCHLD then storeM (padd p 24) 4 (si_status info) else storeM (padd p 24) 8 (si_value info)) w
      = Ok tt (set_mm (if si_sig info =? SIGCHLD then store (mm w) (padd p 24) 4 (si_status info) else store (mm w) (padd p 24) 8 (si_value info)) w)) as Hif
      by (intros w; by case_match).
    unfold bind at 1. rewrite Hif. cbn [mm set_mm]. fold m9. unfold bind at 1, storeM at 1, modify at 1. cbn [mm set_mm].
    fold m10. rewrite !set_mm_set_mm. rewrite (run_bind _ _ _ _ _ E11), set_mm_set_mm.
    unfold bind at 1, store64 at 1, storeM at 1, modify at 1. unfold bind at 1, store64 at 1, storeM at 1, modify at 1.
    cbn [mm set_mm]. fold m12. fold m13. rewrite !set_mm_set_mm. unfold bind at 1.
    rewrite (own_sigmask_eq (set_mm m13 v) t Ht). reflexivity.
  - eapply writes_wf; [exact Wu|]. by eapply writes_wf.
  - rewrite (proj1 (writes_maps _ _ _ _ Wu)), (proj1 (writes_maps _ _ _ _ W9)). by rewrite B3.
  - constructor.
    + rewrite Hkeep by lia. exact L1.
    + rewrite Hkeep by lia. exact L2.
    + rewrite Hkeep by lia. exact L3.
    + destruct (si_sig info =? SIGCHLD); rewrite Hkeep by lia; exact L4.
    + intros j Hj. rewrite (writes_word _ _ _ _ _ W14) by lia. rewrite (writes_word _ _ _ _ _ W13) by lia.
      rewrite (writes_word _ _ _ _ _ W12) by lia. apply G11. lia.
    + rewrite (writes_word _ _ _ _ _ W14) by lia. rewrite (writes_word _ _ _ _ _ W13) by lia. apply word_store.
    + rewrite (writes_word _ _ _ _ _ W14) by lia. apply word_store.
    + change (padd u 136) with (padd u (8 * 17)) in m14. apply word_store.
Qed.

Lemma own_task_upd v t f w :
  own_task v = Some t -> w_kern (sys w) = upd_task (w_self (sys v)) f (w_kern (sys v)) ->
  w_self (sys w) = w_self (sys v) -> own_task w = Some (f t).
Proof. intros Ht Hk Hs. unfold own_task. rewrite Hk, Hs. by apply upd_task_same. Qed.

(** [sigreturn] through the context pointer [u]. *)
Lemma sigreturn_ok v t frame_base fb u regs pc0 sp mask :
  mem_wf (mm v) -> valid_access (frame_base + 256) 264 -> translate (maps (mm v)) (frame_base + 256) 264 = Some u ->
  length (reg v) = 11%nat -> length regs = 11%nat -> Forall in_u64 regs -> in_u64 pc0 -> in_u64 sp -> in_u64 mask ->
  own_task v = Some t ->
  (forall j, (j < 10)%nat -> word (mm v) u (5 + Z.of_nat j) = u64 (regs !!! j)) ->
  word (mm v) u 15 = u64 sp -> word (mm v) u 16 = u64 pc0 -> word (mm v) u 17 = u64 mask ->
  exists v', sigreturn_posix frame_base fb v = Ok pc0 v' /\
    reg v' = take 10 regs ++ [sp] /\ own_mask v' = clean_mask mask /\ flags v' = flags v /\
    maps (mm v') = maps (mm v) /\ hst (mm v') = hst (mm v).
Proof.
  intros Hwf Hva Htr Hl Hlr Hr Hpc Hsp Hmk Ht Hg H15 H16 H17.
  destruct (mmu_spec (mm v) (frame_base + 256) 264 Hwf Hva) as (Q1 & Q2 & Q3 & Q4).
  rewrite Htr in Q1. destruct (mmu (mm v) (frame_base + 256) 264) as [q m1] eqn:E1. cbn [fst snd] in *. subst q.
  destruct (load_gregs_ok u 11 0 (set_mm m1 v)) as (l & El & Hll & Hlj); [cbn [reg set_mm]; lia|].
  cbn [mm set_mm reg] in *.
  assert (forall k, word m1 u k = word (mm v) u k) as Hw by (intros k; unfold word, load; by rewrite Q4).
  unfold sigreturn_posix, sizeof_guest_ucontext. change SIGINFO_FRAME_UC_OFF with 256.
  rewrite (uwrap_small 64) by (unfold valid_access in Hva; lia).
  rewrite (run_bind _ _ v (Some u) m1) by (unfold mmuM, mem_op; by rewrite E1). cbn match.
  unfold bind at 1. rewrite El. unfold bind at 1, loadM, gets. cbn [mm set_mm set_reg].
  change (load m1 (padd u 136) 8) with (word m1 u 17). rewrite Hw, H17, (uwrap_small 64 mask Hmk).
  set (v1 := set_reg l (set_mm m1 v)).
  assert (own_task v1 = Some t) as Ht1 by exact Ht.
  unfold bind, put_sigmask, kmod, kernel_op. unfold load64, loadM, gets. cbn [mm set_sys put_flags].
  change (load (mm v1) (padd u (8 * 16)) 8) with (word m1 u 16). rewrite Hw, H16, (uwrap_small 64 pc0 Hpc).
  eexists. split; [reflexivity|].
  pose proof (upd_task_same _ (set_sigmask (clean_mask mask)) _ _ (self_flags_task v1 t Ht1)) as Hown.
  split_and!; try done.
  - cbn [reg set_sys put_flags v1 set_reg]. apply list_eq. intros j.
    destruct (decide (j < 11)%nat) as [Hj|Hj].
    2: { rewrite !lookup_ge_None_2; [done| |lia]. rewrite length_app, length_take. cbn [length]. lia. }
    rewrite list_lookup_lookup_total_lt by lia. rewrite Hlj, decide_True, Hw by lia.
    destruct (decide (j = 10)%nat) as [->|Hne].
    + rewrite lookup_app_r by (rewrite length_take; lia). rewrite length_take.
      replace (10 - 10 `min` length regs)%nat with 0%nat by lia. cbn [lookup list_lookup].
      change (5 + Z.of_nat 10) with 15. by rewrite H15, (uwrap_small 64 sp Hsp).
    + rewrite lookup_app_l by (rewrite length_take; lia). rewrite lookup_take_lt by lia.
      rewrite (list_lookup_lookup_total_lt regs) by lia. rewrite Hg by lia. f_equal. apply uwrap_small.
      eapply Forall_lookup_total_1; [exact Hr|lia].
  - unfold own_mask, own_task. cbn [sys set_sys put_flags w_kern w_self]. fold v1. by rewrite Hown.
  - cbn [flags set_sys put_flags]. fold v1. by rewrite Hown.
Qed.

(** C15: a handler with SA_SIGINFO that leaves its signal frame alone returns to
    the interrupted context: [build_siginfo] writes the signal's number, code,
    sender and value and saves r0..r9, the stack pointer, the pc and the mask;
    [sigreturn] in any later state with the same context bytes returns the saved
    pc and restores these registers and the mask (without SIGKILL and SIGSTOP),
    whatever the handler did to the registers, the mask and the rest of memory. *)
Theorem siginfo_roundtrip v t frame_base info resumed_pc sp i mp
  (Hwf : mem_wf (mm v)) (Hva : valid_access frame_base SIGNAL_FRAME_SIGINFO_SIZE)
  (Hi : maps (mm v) !! i = Some mp) (Hc : covers mp frame_base SIGNAL_FRAME_SIGINFO_SIZE)
  (Hwr : map_writable mp = true) (Hcow : m_cow mp = None)
  (Hl : length (reg v) = 11%nat) (Hr : Forall in_u64 (reg v)) (Hpc : in_u64 resumed_pc) (Hsp : in_u64 sp)
  (Ht : own_task v = Some t) (Hmk : in_u64 (sigmask t)) :
  exists v1, build_siginfo_posix frame_base info resumed_pc sp v = Ok tt v1 /\
    reg v1 = reg v /\ flags v1 = flags v /\
    gload (mm v1) (frame_base + 128) 4 = u32 (si_sig info) /\
    gload (mm v1) (frame_base + 136) 4 = u32 (si_code info) /\
    gload (mm v1) (frame_base + 144) 4 = u32 (si_pid info) /\
    (if si_sig info =? SIGCHLD then gload (mm v1) (frame_base + 152) 4 = u32 (si_status info)
     else gload (mm v1) (frame_base + 152) 8 = u64 (si_value info)) /\
    forall v2 t2 fb, mem_wf (mm v2) -> length (reg v2) = 11%nat -> own_task v2 = Some t2 ->
      is_Some (translate (maps (mm v2)) (frame_base + 256) 264) ->
      (forall a, frame_base + 256 <= a < frame_base + 520 -> gbyte (mm v2) a = gbyte (mm v1) a) ->
      exists v3, sigreturn_posix frame_base fb v2 = Ok resumed_pc v3 /\
        reg v3 = take 10 (reg v) ++ [sp] /\ own_mask v3 = clean_mask (sigmask t) /\ flags v3 = flags v2 /\
        maps (mm v3) = maps (mm v2) /\ hst (mm v3) = hst (mm v2).
Proof.
  destruct (build_siginfo_ok v t frame_base info resumed_pc sp i mp) as (m' & E & Hwf' & Hm' & [F1 F2 F3 F4 F5 F6 F7 F8]); try done.
  exists (set_mm m' (synced v)). change SIGNAL_FRAME_SIGINFO_SIZE with 520 in *.
  unfold valid_access, covers in *. cbn [mm set_mm] in *.
  set (p := host_of mp (frame_base + 128)) in *. set (u := host_of mp (frame_base + 256)) in *.
  assert (translate (maps m') (frame_base + 128) 128 = Some p) as Hp.
  { rewrite Hm'. apply (translate_covers _ i mp); [apply Hwf|unfold valid_access; lia|done|unfold covers; lia]. }
  assert (translate (maps m') (frame_base + 256) 264 = Some u) as Hu.
  { rewrite Hm'. apply (translate_covers _ i mp); [apply Hwf|unfold valid_access; lia|done|unfold covers; lia]. }
  assert (forall o n, 0 <= o -> o + Z.of_nat n <= 128 -> gload m' (frame_base + (128 + o)) n = load m' (padd p o) n) as HL.
  { intros o n Ho Hn. symmetry. replace (frame_base + (128 + o)) with (frame_base + 128 + o) by lia.
    apply (load_gload m' (frame_base + 128) 128); [apply Hwf'|unfold valid_access; lia|done|done|done]. }
  split; [done|]. split; [done|]. split; [done|].
  split; [change 128 with (128 + 0); by rewrite HL by lia|].
  split; [change 136 with (128 + 8); by rewrite HL by lia|].
  split; [change 144 with (128 + 16); by rewrite HL by lia|].
  split; [change 152 with (128 + 24); destruct (si_sig info =? SIGCHLD); by rewrite HL by lia|].
  intros v2 t2 fb Hwf2 Hl2 Ht2 [q Hq] Hsame.
  assert (forall k, 0 <= k -> 8 * k + 8 <= 264 -> word (mm v2) q k = word m' u k) as HW.
  { intros k Hk1 Hk2. unfold word.
    rewrite (load_gload (mm v2) (frame_base + 256) 264 q) by (try done; try apply Hwf2; unfold valid_access; lia).
    rewrite (load_gload m' (frame_base + 256) 264 u) by (try done; try apply Hwf'; unfold valid_access; lia).
    apply gload_ext. intros j Hj. apply Hsame. lia. }
  apply (sigreturn_ok v2 t2 frame_base fb q (reg v)); try done; try (rewrite HW by lia; done).
  - unfold valid_access. lia.
  - intros j Hj. rewrite HW by lia. by apply F5.
Qed.

End SignalFrame.

(** ** Witnesses *)

Lemma demo_signals_safe : signals_safe (∅, queue_kernel).
Proof.
  intros p t Ht. cbn [fst snd] in *. unfold queue_kernel in Ht. rewrite tasks_upd_task in Ht.
  split.
  - destruct (decide (p = 2)) as [->|]; [vm_compute in Ht; simplify_eq; vm_compute; lia|].
    cbn [tasks demo_kernel] in Ht. repeat (apply lookup_insert_Some in Ht as [[<- <-]|[_ Ht]]; [vm_compute; lia|]).
    apply lookup_singleton_Some in Ht as [<- <-]. vm_compute. lia.
  - destruct (decide (p = 2)) as [->|]; [vm_compute in Ht; simplify_eq; by left|]. right. left.
    cbn [tasks demo_kernel] in Ht. repeat (apply lookup_insert_Some in Ht as [[<- <-]|[_ Ht]]; [done|]).
    by apply lookup_singleton_Some in Ht as [<- <-].
Qed.


(** A machine serving task 2. *)
Definition world_vm : vm World :=
  mkvm demo_options 0x40000008 (reg demo_vm) 0 0 0 demo_vm_mem (Some 0x40000008) 0 0 0 false
    (mkworld 2 demo_kernel []) [] [].
Definition demo_info : sig_info := mksig_info 10 0x40000100 4 1 42 0 0.

Lemma siginfo_roundtrip_witness :
  exists v1 v3, build_siginfo_posix (env := permissive_env) 0x10010000 demo_info 0x40000008 0x10020000 world_vm = Ok tt v1 /\
    sigreturn_posix 0x10010000 0 v1 = Ok 0x40000008 v3 /\ reg v3 = [1; 2; 3; 4; 5; 6; 7; 8; 9; 10; 0x10020000].
Proof.
  destruct (@siginfo_roundtrip permissive_env world_vm (demo_task 2 1) 0x10010000 demo_info 0x40000008 0x10020000 0 demo_stack
    demo_vm_mem_wf ltac:(vm_compute; split_and!; congruence) eq_refl ltac:(vm_compute; split; congruence) eq_refl eq_refl
    eq_refl (vw_reg _ _ _ _ _ demo_vm_wf) ltac:(vm_compute; split; congruence) ltac:(vm_compute; split; congruence)
    eq_refl ltac:(vm_compute; split; congruence))
    as (v1 & E & Hr & _ & _ & _ & _ & _ & H).
  assert (mem_wf (mm v1) /\ own_task v1 = Some (set_t_flags 0 (demo_task 2 1)) /\ maps (mm v1) = maps demo_vm_mem) as (Hwf & Ht & Hm).
  { destruct (@build_siginfo_ok permissive_env world_vm (demo_task 2 1) 0x10010000 demo_info 0x40000008 0x10020000 0 demo_stack
      demo_vm_mem_wf ltac:(vm_compute; split_and!; congruence) eq_refl ltac:(vm_compute; split; congruence) eq_refl eq_refl eq_refl)
      as (m' & E' & Hwf' & Hm' & _).
    rewrite E' in E. injection E as <-. split; [exact Hwf'|]. split; [|exact Hm']. vm_compute. reflexivity. }
  destruct (H v1 (set_t_flags 0 (demo_task 2 1)) 0 Hwf ltac:(by rewrite Hr) Ht ltac:(rewrite Hm; vm_compute; by eexists) ltac:(done))
    as (v3 & E3 & Hr3 & _).
  exists v1, v3. split; [exact E|]. split; [exact E3|exact Hr3].
Defined.
