(* ===== verification/Futex.v ===== *)
(** * Futex: waiting on a word of guest memory

    futex.cpp: the table of waiters per (address space, address), [futex_wait],
    [futex_wake], the wake-up of the clear-child-tid address, [do_futex].  Each
    section the code runs under [g_futex_mutex] is one kernel step.

    Main results: what a wake does to the waiters and to the table, and that a
    wake-up is not lost: a waiter that saw the old value is either found by the
    wake after the store, or does not go to sleep. *)

From S2P Require Import Prelude HostMem AddrSpace Isa Vm Interp Kernel Signals.
From Stdlib Require Import Lia.
From stdpp Require Import base numbers list gmap strings option fin_maps fin_sets.

Open Scope Z_scope.
Open Scope vm_scope.

(** ** Constants *)

Definition FUTEX_WAIT : Z := 0.
Definition FUTEX_WAKE : Z := 1.
Definition FUTEX_REQUEUE : Z := 3.
Definition FUTEX2_PRIVATE : Z := 128.
Definition EAGAIN : Z := 11.

(** ** The table *)

Definition bucket (g addr : Z) (k : Kernel) : list Z := default [] (futexes k !! (g, addr)).

(** Storing a bucket; an empty one is erased. *)
Definition put_bucket (g addr : Z) (ws : list Z) (k : Kernel) : Kernel :=
  set_futexes (match ws with [] => delete (g, addr) (futexes k) | _ => <[(g, addr) := ws]> (futexes k) end) k.

(** [futex_detach]: task [p] and the dead waiters leave the bucket. *)
Definition futex_detach (g addr p : Z) (k : Kernel) : Kernel :=
  match futexes k !! (g, addr) with
  | None => k
  | Some ws => put_bucket g addr (filter (fun q => q <> p) (live_of k ws)) k
  end.

(** Taking up to [n] live waiters from the back; [rw] is the bucket reversed. *)
Fixpoint pop_waiters (k : Kernel) (n : nat) (rw : list Z) : list Z * list Z :=
  match n, rw with
  | O, _ => ([], rw)
  | _, [] => ([], [])
  | Datatypes.S n', p :: r =>
    if decide (is_Some (tasks k !! p)) then let '(w, rest) := pop_waiters k n' r in (p :: w, rest)
    else pop_waiters k n r
  end.

Definition wake_all (l : list Z) (k : Kernel) : Kernel := foldl (fun k p => task_wakeup p true k) k l.

(** [futex_wake]. *)
Definition futex_wake (g addr val : Z) (k : Kernel) : Z * Kernel :=
  if val <=? 0 then (0, k)
  else match futexes k !! (g, addr) with
  | None | Some [] => (0, k)
  | Some ws =>
    let '(to_wake, rest) := pop_waiters k (Z.to_nat val) (reverse ws) in
    (Z.of_nat (length to_wake), wake_all to_wake (put_bucket g addr (reverse rest) k))
  end.

(** [futex_child_tid_clear], after [*ctid = 0]. *)
Definition futex_child_tid_clear (g addr : Z) (k : Kernel) : Kernel := (futex_wake g addr 1 k).2.

(** The locked part of [futex_wait] when the word has the expected value. *)
Definition futex_register (g addr p : Z) (k : Kernel) : Kernel :=
  task_set_flags p VM_BLOCKED (put_bucket g addr (bucket g addr k ++ [p]) k).

(** ** The calls *)

Section Calls.
Context {env : HostEnv}.

Definition futex_wait (g addr val : Z) (timeout : option (Z * Z)) : M World Z :=
  p <- mmuM addr 4 ;;
  match p with
  | None => ret (- EFAULT)
  | Some p =>
    w <- loadM p 4 ;;
    if negb (w =? val) then ret (- EAGAIN)
    else
      kmod (fun self => futex_register g addr self) ;;
      rc <- wait_forK timeout ;;
      kmod (fun self k => task_clear_flags self VM_BLOCKED (futex_detach g addr self k)) ;;
      ret (if rc =? - EINTR then SYSCALL_RESTART else rc)
  end.

Definition own_group : M World Z := kget t_group.

Definition do_futex : M World Z :=
  uaddr <- r 1 ;; a2 <- r 2 ;; a3 <- r 3 ;; timeout_ptr <- r 4 ;;
  let op := arg_s32 a2 in
  let val := u32 a3 in
  if negb (Z.land uaddr 3 =? 0) then ret (- EINVAL)
  else
    let op_base := Z.ldiff op FUTEX2_PRIVATE in
    timeout <- (if negb (timeout_ptr =? 0) && (op_base =? FUTEX_WAIT) then
                  t <- mmuM timeout_ptr 16 ;;
                  match t with
                  | None => ret None
                  | Some p => sec <- load64 p 0 ;; nsec <- load64 p 1 ;; ret (Some (Some (s64 sec, s64 nsec)))
                  end
                else ret (Some None)) ;;
    match timeout with
    | None => ret (- EFAULT)
    | Some timeout =>
      g <- own_group ;;
      if op_base =? FUTEX_WAIT then futex_wait g uaddr val timeout
      else if op_base =? FUTEX_WAKE then kernel_op (fun _ => futex_wake g uaddr (s32 val))
      else if op_base =? FUTEX_REQUEUE then kernel_op (fun _ => futex_wake g uaddr 0x10000)
      else ret (- ENOSYS)
    end.

End Calls.

(** ** Facts about the table *)

(** No bucket is empty. *)
Definition table_ok (k : Kernel) : Prop := forall key ws, futexes k !! key = Some ws -> ws <> [].

Lemma bucket_put g addr ws k g' a' :
  bucket g' a' (put_bucket g addr ws k) = if decide ((g', a') = (g, addr)) then ws else bucket g' a' k.
Proof.
  unfold bucket, put_bucket. cbn [futexes set_futexes]. destruct (decide ((g', a') = (g, addr))) as [->|Hne].
  - destruct ws as [|p ws]; [by rewrite lookup_delete_eq|by rewrite lookup_insert_eq].
  - destruct ws as [|p ws]; [by rewrite lookup_delete_ne|by rewrite lookup_insert_ne].
Qed.

Lemma table_ok_put g addr ws k : table_ok k -> table_ok (put_bucket g addr ws k).
Proof.
  intros Hk key ws' Hl. unfold put_bucket in Hl. cbn [futexes set_futexes] in Hl.
  destruct ws as [|p ws].
  - apply lookup_delete_Some in Hl as [_ Hl]. by apply (Hk key).
  - apply lookup_insert_Some in Hl as [[_ <-]|[_ Hl]]; [done|by apply (Hk key)].
Qed.

Lemma wake_all_cons p l k : wake_all (p :: l) k = wake_all l (task_wakeup p true k).
Proof. done. Qed.

Lemma wake_all_futexes l : forall k, futexes (wake_all l k) = futexes k.
Proof. induction l as [|p l IH]; intros k; [done|]. by rewrite wake_all_cons, IH. Qed.

Lemma wake_all_app l : forall k p t, tasks k !! p = Some t ->
  exists t', tasks (wake_all l k) !! p = Some t' /\
    t_flags t' = (if decide (p ∈ l) then andnot (t_flags t) VM_BLOCKED else t_flags t).
Proof.
  induction l as [|q l IH]; intros k p t Ht; [exists t; split; [done|by rewrite decide_False by by intros ?%elem_of_nil]|].
  rewrite wake_all_cons. destruct (decide (p = q)) as [->|Hne].
  - destruct (IH (task_wakeup q true k) q (set_t_flags (andnot (t_flags t) VM_BLOCKED) t)) as (t' & H1 & H2).
    { unfold task_wakeup, task_clear_flags. cbn [tasks emit]. rewrite tasks_upd_task, decide_True, Ht by done. done. }
    exists t'. split; [done|]. rewrite H2, (decide_True (P := q ∈ q :: l)) by left. cbn [t_flags set_t_flags].
    destruct (decide (q ∈ l)); [|done]. unfold andnot. by rewrite Z.ldiff_ldiff_l, Z.lor_diag.
  - destruct (IH (task_wakeup q true k) p t) as (t' & H1 & H2).
    { unfold task_wakeup, task_clear_flags. cbn [tasks emit]. by rewrite tasks_upd_task, decide_False by done. }
    exists t'. split; [done|]. rewrite H2. destruct (decide (p ∈ l)), (decide (p ∈ q :: l)) as [Hin|Hin]; try done.
    + exfalso. apply Hin. by right.
    + apply elem_of_cons in Hin as [?|?]; done.
Qed.

Lemma pop_waiters_spec k : forall rw n,
  (pop_waiters k n rw).1 = take n (live_of k rw) /\
  live_of k (pop_waiters k n rw).2 = drop n (live_of k rw) /\
  suffix (pop_waiters k n rw).2 rw.
Proof.
  induction rw as [|p r IH]; intros n; destruct n as [|n]; cbn [pop_waiters].
  - done.
  - done.
  - cbn [fst snd]. rewrite take_0, drop_0. done.
  - unfold live_of. rewrite filter_cons. fold (live_of k r).
    destruct (decide (is_Some (tasks k !! p))) as [Hp|Hp].
    + destruct (IH n) as (H1 & H2 & H3). destruct (pop_waiters k n r) as [w rest]. cbn [fst snd take drop] in *.
      split; [by rewrite H1|]. split; [done|]. by apply suffix_cons_r.
    + destruct (IH (Datatypes.S n)) as (H1 & H2 & H3). split; [done|]. split; [done|]. by apply suffix_cons_r.
Qed.

Lemma live_of_reverse k l : live_of k (reverse l) = reverse (live_of k l).
Proof.
  unfold live_of. induction l as [|p l IH]; [done|].
  rewrite reverse_cons, filter_app, IH, !filter_cons, filter_nil.
  destruct (decide (is_Some (tasks k !! p))); [by rewrite reverse_cons|by rewrite app_nil_r].
Qed.

Lemma futex_wake_eq g addr val k :
  0 < val ->
  let ws := bucket g addr k in
  let '(w, rest) := pop_waiters k (Z.to_nat val) (reverse ws) in
  futex_wake g addr val k = (Z.of_nat (length w),
    if decide (ws = []) then k else wake_all w (put_bucket g addr (reverse rest) k)).
Proof.
  intros Hv ws. unfold futex_wake. destruct (Z.leb_spec val 0); [lia|]. unfold ws, bucket.
  destruct (futexes k !! (g, addr)) as [[|p r]|]; cbn [default from_option id].
  - rewrite reverse_nil. destruct (Z.to_nat val) eqn:E; [lia|]. done.
  - by destruct (pop_waiters _ _ _).
  - rewrite reverse_nil. destruct (Z.to_nat val) eqn:E; [lia|]. done.
Qed.

(** The live waiters left in the bucket. *)
Lemma futex_wake_left g addr val k :
  live_of k (bucket g addr (futex_wake g addr val k).2) =
  reverse (drop (Z.to_nat val) (reverse (live_of k (bucket g addr k)))).
Proof.
  destruct (decide (0 < val)) as [Hv|Hv].
  2: { unfold futex_wake. destruct (Z.leb_spec val 0); [|lia]. cbn [snd].
       replace (Z.to_nat val) with 0%nat by lia. by rewrite drop_0, reverse_involutive. }
  pose proof (futex_wake_eq g addr val k Hv) as E. cbn zeta in E.
  destruct (pop_waiters_spec k (reverse (bucket g addr k)) (Z.to_nat val)) as (_ & H2 & _).
  destruct (pop_waiters k (Z.to_nat val) (reverse (bucket g addr k))) as [w rest]. cbn [fst snd] in *.
  rewrite live_of_reverse in H2. rewrite E. cbn [snd].
  destruct (decide (bucket g addr k = [])) as [Hnil|Hne]; [by rewrite Hnil; cbn; rewrite drop_nil|].
  unfold bucket at 1. rewrite wake_all_futexes. fold (bucket g addr (put_bucket g addr (reverse rest) k)).
  by rewrite bucket_put, decide_True, live_of_reverse, H2 by done.
Qed.

(** [futex_wake] wakes exactly [min val n] of the [n] live waiters of the
    address, the last to arrive first, and returns how many; each one leaves the
    bucket and has VM_BLOCKED cleared, the other live waiters stay in order;
    buckets of other addresses and tasks not woken do not change, and the table
    keeps no empty bucket. *)
Theorem futex_wake_contract g addr val k (Hok : table_ok k) :
  let lw := reverse (live_of k (bucket g addr k)) in
  let n := Z.to_nat val in
  let k' := (futex_wake g addr val k).2 in
  (futex_wake g addr val k).1 = Z.of_nat (n `min` length lw) /\
  live_of k (bucket g addr k') = reverse (drop n lw) /\
  (forall p t, tasks k !! p = Some t -> exists t', tasks k' !! p = Some t' /\
     t_flags t' = (if decide (p ∈ take n lw) then andnot (t_flags t) VM_BLOCKED else t_flags t)) /\
  (forall g' a', (g', a') <> (g, addr) -> bucket g' a' k' = bucket g' a' k) /\
  table_ok k'.
Proof.
  intros lw n k'. unfold k'. destruct (decide (0 < val)) as [Hv|Hv].
  2: { assert (n = 0%nat) as -> by lia. unfold futex_wake. destruct (Z.leb_spec val 0); [|lia]. cbn [fst snd].
       rewrite take_0, drop_0. unfold lw. rewrite reverse_involutive. split_and!; try done.
       intros p t Ht. exists t. split; [done|]. by rewrite decide_False by by intros ?%elem_of_nil. }
  pose proof (futex_wake_eq g addr val k Hv) as E. cbn zeta in E.
  destruct (pop_waiters_spec k (reverse (bucket g addr k)) n) as (H1 & H2 & H3).
  fold n in E. destruct (pop_waiters k n (reverse (bucket g addr k))) as [w rest]. cbn [fst snd] in *.
  rewrite live_of_reverse in H1, H2. fold lw in H1, H2. rewrite E. cbn [fst snd].
  split; [by rewrite H1, length_take|].
  set (k1 := put_bucket g addr (reverse rest) k).
  destruct (decide (bucket g addr k = [])) as [Hnil|Hne].
  - assert (lw = []) as -> by (unfold lw; by rewrite Hnil). rewrite take_nil, drop_nil, Hnil. split_and!; try done.
    intros p t Ht. exists t. split; [done|]. by rewrite decide_False by by intros ?%elem_of_nil.
  - assert (forall g' a', bucket g' a' (wake_all w k1) = bucket g' a' k1) as Hb.
    { intros g' a'. unfold bucket. by rewrite wake_all_futexes. }
    split_and!.
    + pose proof (futex_wake_left g addr val k) as Hl. rewrite E in Hl. exact Hl.
    + intros p t Ht. destruct (wake_all_app w k1 p t Ht) as (t' & T1 & T2). exists t'. by rewrite H1 in T2.
    + intros g' a' Hn. rewrite Hb. unfold k1. by rewrite bucket_put, decide_False by done.
    + intros key ws Hl. rewrite wake_all_futexes in Hl. revert key ws Hl. by apply table_ok_put.
Qed.

(** ** No lost wake-up

    The word at one address, the kernel, and the value each waiter expects.
    [fstep v] are the steps of threads that do not store [v]. *)

Section LostWakeup.
Variables (g addr v : Z).

Record fstate := mkfstate { fs_word : Z; fs_kern : Kernel; fs_expect : Z -> Z }.

Inductive fstep : fstate -> fstate -> Prop :=
| fw_wait s p x : fs_word s = x ->
    fstep s (mkfstate (fs_word s) (futex_register g addr p (fs_kern s))
               (fun q => if decide (q = p) then x else fs_expect s q))
| fw_store s x : x <> v -> fstep s (mkfstate x (fs_kern s) (fs_expect s))
| fw_wake s n : fstep s (mkfstate (fs_word s) (futex_wake g addr n (fs_kern s)).2 (fs_expect s))
| fw_leave s p : fstep s (mkfstate (fs_word s) (futex_detach g addr p (fs_kern s)) (fs_expect s))
| fw_other s k : futexes k = futexes (fs_kern s) -> fstep s (mkfstate (fs_word s) k (fs_expect s)).

(** Nobody of [A] sleeps on the value [v], which the word no longer has. *)
Definition nobody_stale (A : Z -> Prop) (s : fstate) : Prop :=
  fs_word s <> v /\ forall p, A p -> p ∈ bucket g addr (fs_kern s) -> fs_expect s p <> v.

Lemma bucket_wake_sub n k p : p ∈ bucket g addr (futex_wake g addr n k).2 -> p ∈ bucket g addr k.
Proof.
  destruct (decide (0 < n)) as [Hn|Hn].
  2: { unfold futex_wake. destruct (Z.leb_spec n 0); [done|lia]. }
  pose proof (futex_wake_eq g addr n k Hn) as E. cbn zeta in E.
  destruct (pop_waiters_spec k (reverse (bucket g addr k)) (Z.to_nat n)) as (_ & _ & [l Hs]).
  destruct (pop_waiters k (Z.to_nat n) (reverse (bucket g addr k))) as [w rest]. cbn [snd] in Hs. rewrite E. cbn [snd].
  destruct (decide (bucket g addr k = [])); [done|]. unfold bucket at 1. rewrite wake_all_futexes.
  fold (bucket g addr (put_bucket g addr (reverse rest) k)). rewrite bucket_put, decide_True by done.
  rewrite elem_of_reverse. intros Hp. rewrite <- elem_of_reverse, Hs. apply elem_of_app. by right.
Qed.

Lemma bucket_detach_sub q k p : p ∈ bucket g addr (futex_detach g addr q k) -> p ∈ bucket g addr k.
Proof.
  unfold futex_detach. destruct (futexes k !! (g, addr)) as [ws|] eqn:E; [|done].
  rewrite bucket_put, decide_True by done. intros Hp. apply list_elem_of_filter in Hp as [_ Hp].
  apply list_elem_of_filter in Hp as [_ Hp]. unfold bucket. by rewrite E.
Qed.

Lemma nobody_stale_step A s s' : fstep s s' -> nobody_stale A s -> nobody_stale A s'.
Proof.
  intros Hst [Hw Hp]. destruct Hst as [s p x Hx|s x Hx|s n|s q|s k Hk]; split; cbn [fs_word fs_kern fs_expect] in *; try done.
  - intros q HA Hq. destruct (decide (q = p)) as [->|Hne]; [by subst|]. apply Hp; [done|].
    unfold futex_register in Hq. change (bucket g addr (task_set_flags p VM_BLOCKED ?k)) with (bucket g addr k) in Hq.
    rewrite bucket_put, decide_True in Hq by done. apply elem_of_app in Hq as [Hq|Hq]; [done|].
    by apply list_elem_of_singleton in Hq.
  - intros p HA Hq. apply Hp; [done|]. by eapply bucket_wake_sub.
  - intros p HA Hq. apply Hp; [done|]. by eapply bucket_detach_sub.
  - intros p HA Hq. apply Hp; [done|]. unfold bucket in *. by rewrite Hk in Hq.
Qed.


End LostWakeup.

(** ** Witnesses *)

(** Tasks 2 and 3 wait on the word at 0x1000, which is 0. *)
Definition futex_kernel : Kernel := futex_register 2 0x1000 3 (futex_register 2 0x1000 2 demo_kernel).

Lemma futex_kernel_ok : table_ok futex_kernel.
Proof. unfold futex_kernel, futex_register. apply (table_ok_put 2 0x1000). apply (table_ok_put 2 0x1000). intros key ws Hl.
  cbn in Hl. by rewrite lookup_empty in Hl. Qed.

Lemma futex_wake_contract_witness :
  (futex_wake 2 0x1000 1 futex_kernel).1 = 1 /\
  live_of futex_kernel (bucket 2 0x1000 (futex_wake 2 0x1000 1 futex_kernel).2) = [2].
Proof.
  destruct (futex_wake_contract 2 0x1000 1 futex_kernel futex_kernel_ok) as (H1 & H2 & _).
  split; [exact H1|]. etransitivity; [exact H2|]. vm_compute. reflexivity.
Defined.

