(* ===== verification/Session.v ===== *)
(** * Session: process groups, sessions and the controlling terminal

    session.cpp and the job-control requests of [do_ioctl] (fd_ops.cpp).

    Main results: what each call does on every branch, and the invariant of
    process groups and sessions; that a process group id can be in use in two
    sessions at once is shown by a run. *)

From S2P Require Import Prelude HostMem AddrSpace Isa Vm Interp Kernel Signals SigCalls.
From Stdlib Require Import Lia.
From stdpp Require Import base numbers list gmap strings option fin_maps fin_sets relations.

Open Scope Z_scope.
Open Scope vm_scope.

Definition EPERM : Z := 1.
Definition EBADF : Z := 9.
Definition ENOTTY : Z := 25.

(** ** Process groups *)

(** [do_setpgid] of task [self] in the kernel; the arguments are [pid_t]s. *)
Definition setpgid_kernel (pid_arg pgrp_arg : Z) (self : Z) (k : Kernel) : Z * Kernel :=
  if pgrp_arg <? 0 then (- EINVAL, k)
  else match tasks k !! self with
  | None => (- ESRCH, k)
  | Some me =>
    let target :=
      if pid_arg =? 0 then Some (self, me)
      else match find_task k (u64 pid_arg) with
           | None => None
           | Some t =>
             if negb (u64 pid_arg =? from_option tgid 0 (group_of k me)) &&
                negb (from_option ppid 0 (group_of k t) =? from_option tgid 0 (group_of k me))
             then None else Some (u64 pid_arg, t)
           end in
    match target with
    | None => (- ESRCH, k)
    | Some (p, t) =>
      if negb (t_session t =? t_session me) then (- EPERM, k)
      else if from_option sid 0 (sessions k !! t_session t) =? p then (- EPERM, k)
      else if (pgid (t_pgrp t) =? pgrp_arg) && negb (pgrp_arg =? 0) then (0, k)
      else
        let new_pgid := if pgrp_arg =? 0 then p else pgrp_arg in
        let denied :=
          if new_pgid =? p then false
          else match find_task k new_pgid with
               | None => true
               | Some leader => negb (t_session leader =? t_session me)
               end in
        if denied then (- EPERM, k)
        else (0, upd_task p (set_pgrp (mkpgrp new_pgid (t_session t))) k)
    end
  end.

Definition do_setpgid : M World Z :=
  a1 <- r 1 ;; a2 <- r 2 ;;
  kernel_op (setpgid_kernel (arg_s32 a1) (arg_s32 a2)).

Definition own_pgid (self : Z) (k : Kernel) : Z := from_option (fun t => pgid (t_pgrp t)) 0 (tasks k !! self).

Definition getpgid_kernel (pid_arg : Z) (self : Z) (k : Kernel) : Z :=
  if pid_arg =? 0 then own_pgid self k
  else match find_task k (u64 pid_arg) with
       | None => - ESRCH
       | Some t => pgid (t_pgrp t)
       end.

Definition do_getpgid : M World Z := a1 <- r 1 ;; kget (getpgid_kernel (arg_s32 a1)).
Definition do_getpgrp : M World Z := kget own_pgid.

(** [do_setsid]: the new session has the id of the task. *)
Definition setsid_kernel (self : Z) (k : Kernel) : Z * Kernel :=
  if own_pgid self k =? self then (- EPERM, k)
  else (self, upd_task self (fun t => set_session self (set_pgrp (mkpgrp self self) t))
               (set_sessions (<[self := mksession self None]> (sessions k)) k)).

Definition do_setsid : M World Z := kernel_op setsid_kernel.

Definition session_sid (k : Kernel) (t : Task) : Z := from_option sid 0 (sessions k !! t_session t).

Definition getsid_kernel (pid_arg : Z) (self : Z) (k : Kernel) : Z :=
  if pid_arg =? 0 then from_option (session_sid k) 0 (tasks k !! self)
  else match find_task k (u64 pid_arg) with
       | None => - ESRCH
       | Some t => session_sid k t
       end.

Definition do_getsid : M World Z := a1 <- r 1 ;; kget (getsid_kernel (arg_s32 a1)).

(** ** The controlling terminal *)

Definition TIOCSCTTY : Z := 0x540E.
Definition TIOCGPGRP : Z := 0x540F.
Definition TIOCSPGRP : Z := 0x5410.

(** The terminal behind an fd of task [t]. *)
Definition fd_file (k : Kernel) (t : Task) (fd : Z) : option (Z * Fd) :=
  s ← shared_of k t; i ← fds s !! fd; f ← files k !! i; Some (i, f).
Definition file_tty (f : Fd) : option Z := match f_kind f with KDev tty _ => tty | _ => None end.

Definition set_ctty (c : option Z) (s : Session) : Session := mksession (sid s) c.
Definition set_owner (o : option Z) (t : GuestTty) : GuestTty := mktty (fg_pgrp t) o (ptn t).
Definition set_fg (g : Z) (t : GuestTty) : GuestTty := mktty g (tty_owner t) (ptn t).

Definition upd_session (s : Z) (f : Session -> Session) (k : Kernel) : Kernel :=
  set_sessions (alter f s (sessions k)) k.
Definition upd_tty (i : Z) (f : GuestTty -> GuestTty) (k : Kernel) : Kernel := set_ttys (alter f i (ttys k)) k.

(** The TIOCSCTTY branch of [do_ioctl]. *)
Definition tiocsctty (tty : option Z) (force : Z) (self : Z) (k : Kernel) : Z * Kernel :=
  match tty, tasks k !! self with
  | Some i, Some me =>
    let s := t_session me in
    if negb (session_sid k me =? self) then (- EPERM, k)
    else if bool_decide ((sessions k !! s) ≫= ctty = Some i) then (0, k)
    else
      let owner := (ttys k !! i) ≫= tty_owner in
      match owner with
      | Some o =>
        if negb (o =? s) && (force =? 0) then (- EPERM, k)
        else
          let k1 := if o =? s then k else upd_session o (set_ctty None) k in
          (0, upd_tty i (fun t => set_fg (pgid (t_pgrp me)) (set_owner (Some s) t)) (upd_session s (set_ctty (Some i)) k1))
      | None =>
        (0, upd_tty i (fun t => set_fg (pgid (t_pgrp me)) (set_owner (Some s) t)) (upd_session s (set_ctty (Some i)) k))
      end
  | _, _ => (- ENOTTY, k)
  end.

(** The terminal is the controlling one of the caller's session. *)
Definition is_ctty (tty : option Z) (self : Z) (k : Kernel) : option Z :=
  me ← tasks k !! self; i ← tty;
  if decide ((sessions k !! t_session me) ≫= ctty = Some i) then Some i else None.

Section Ioctl.
Context {ord : HashOrder} {env : HostEnv}.

(** The rest of the TIOCSPGRP branch, with the group read from the guest. *)
Definition tiocspgrp (i g_pgid : Z) (self : Z) (k : Kernel) : Z * Kernel :=
  if g_pgid <=? 0 then (- EINVAL, k)
  else
    let found := existsb (fun pt : Z * Task =>
      bool_decide (Some (t_session pt.2) = (t_session <$> tasks k !! self)) && (pgid (t_pgrp pt.2) =? g_pgid))
      (pid_tasks k) in
    if negb found then (- EPERM, k) else (0, upd_tty i (set_fg g_pgid) k).

(** The job-control part of [do_ioctl]; [other] is the pass-through to the host. *)
Definition do_ioctl (other : Z -> Z -> M World Z) : M World Z :=
  a1 <- r 1 ;; request <- r 2 ;;
  f <- kget (fun self k => t ← tasks k !! self; fd_file k t (arg_s32 a1)) ;;
  match f with
  | None => ret (- EBADF)
  | Some (_, f) =>
    let tty := file_tty f in
    if request =? TIOCSCTTY then
      a3 <- r 3 ;; kernel_op (tiocsctty tty (arg_s32 a3))
    else if request =? TIOCSPGRP then
      c <- kget (is_ctty tty) ;;
      match c with
      | None => ret (- ENOTTY)
      | Some i =>
        addr <- r 3 ;; p <- mmuM addr 4 ;;
        match p with
        | None => ret (- EFAULT)
        | Some p => g <- loadM p 4 ;; kernel_op (tiocspgrp i (s32 g))
        end
      end
    else if request =? TIOCGPGRP then
      c <- kget (is_ctty tty) ;;
      match c with
      | None => ret (- ENOTTY)
      | Some i =>
        addr <- r 3 ;; p <- mmu_wM addr 4 ;;
        match p with
        | None => ret (- EFAULT)
        | Some p => g <- kget (fun _ k => from_option fg_pgrp 0 (ttys k !! i)) ;; storeM p 4 g ;; ret 0
        end
      end
    else if host_fd f <? 0 then ret (- ENOTTY)
    else other (host_fd f) request
  end.

End Ioctl.

(** ** The invariant *)

(** Every task's group belongs to the task's session, the session exists, and a
    session leader leads its own group; [n] is [next_pid]. *)
Record task_job_ok (n : Z) (k : Kernel) (p : Z) (t : Task) : Prop := {
  jo_pid : p < n;
  jo_sid : t_session t < n;
  jo_group : pg_session (t_pgrp t) = t_session t;
  jo_session : is_Some (sessions k !! t_session t);
  jo_leader : t_session t = p -> pgid (t_pgrp t) = p
}.

Record jobs_ok (s : Z * Kernel) : Prop := {
  jk_sid : forall i x, sessions s.2 !! i = Some x -> sid x = i;
  jk_tasks : forall p t, tasks s.2 !! p = Some t -> task_job_ok s.1 s.2 p t
}.

(** What the tasks can do to groups and sessions: the calls above, a fork that
    gives a new task the groups of its creator, and exits. *)
Inductive job_step : Z * Kernel -> Z * Kernel -> Prop :=
| js_setpgid n k self pid_arg pgrp_arg :
    job_step (n, k) (n, (setpgid_kernel pid_arg pgrp_arg self k).2)
| js_setsid n k self t : tasks k !! self = Some t -> job_step (n, k) (n, (setsid_kernel self k).2)
| js_fork n k self t t' : tasks k !! self = Some t -> t_pgrp t' = t_pgrp t -> t_session t' = t_session t ->
    job_step (n, k) (n + 1, set_pid_map ({[n]} ∪ pid_map k) (set_tasks (<[n := t']> (tasks k)) k))
| js_exit n k p : job_step (n, k) (n, set_tasks (delete p (tasks k)) k)
| js_reap n k p : job_step (n, k) (n, set_pid_map (pid_map k ∖ {[p]}) k)
| js_ctty n k self tty force : job_step (n, k) (n, (tiocsctty tty force self k).2).

(** The effect of [setpgid]: nothing, or a new group for a task that does not
    lead its session. *)
Lemma setpgid_effect pid_arg pgrp_arg self k :
  (setpgid_kernel pid_arg pgrp_arg self k).2 = k \/
  exists p t g, tasks k !! p = Some t /\ session_sid k t <> p /\
    (setpgid_kernel pid_arg pgrp_arg self k) = (0, upd_task p (set_pgrp (mkpgrp g (t_session t))) k).
Proof.
  unfold setpgid_kernel. destruct (pgrp_arg <? 0); [by left|].
  destruct (tasks k !! self) as [me|] eqn:Hme; [|by left].
  set (target := if pid_arg =? 0 then _ else _).
  assert (forall p t, target = Some (p, t) -> tasks k !! p = Some t) as Htar.
  { unfold target. intros p t. destruct (pid_arg =? 0); [by intros [= <- <-]|].
    unfold find_task. destruct (decide (u64 pid_arg ∈ pid_map k)); [|done].
    destruct (tasks k !! u64 pid_arg) as [t0|] eqn:E; [|done]. destruct (_ && _); [done|]. by intros [= <- <-]. }
  destruct target as [[p t]|]; [|by left]. specialize (Htar p t eq_refl).
  destruct (negb _); [by left|]. fold (session_sid k t).
  destruct (Z.eqb_spec (session_sid k t) p); [by left|].
  destruct (_ && _); [by left|].
  destruct (if (if pgrp_arg =? 0 then p else pgrp_arg) =? p then _ else _); [by left|].
  right. by exists p, t, (if pgrp_arg =? 0 then p else pgrp_arg).
Qed.

Lemma upd_session_lookup s f k i :
  (forall x, sid (f x) = sid x) ->
  (forall y, sessions (upd_session s f k) !! i = Some y -> exists x, sessions k !! i = Some x /\ sid y = sid x) /\
  (is_Some (sessions k !! i) -> is_Some (sessions (upd_session s f k) !! i)).
Proof.
  intros Hf. unfold upd_session. cbn [sessions set_sessions]. destruct (decide (i = s)) as [->|Hne].
  - rewrite lookup_alter_eq. destruct (sessions k !! s) as [x|]; cbn; (split; [|eauto]); [|done].
    intros y [= <-]. eauto.
  - rewrite lookup_alter_ne by done. split; eauto.
Qed.

Lemma tiocsctty_effect tty force self k :
  tasks (tiocsctty tty force self k).2 = tasks k /\
  forall i, (forall y, sessions (tiocsctty tty force self k).2 !! i = Some y ->
              exists x, sessions k !! i = Some x /\ sid y = sid x) /\
            (is_Some (sessions k !! i) -> is_Some (sessions (tiocsctty tty force self k).2 !! i)).
Proof.
  unfold tiocsctty. destruct tty as [i0|]; [|split; eauto]. destruct (tasks k !! self) as [me|]; [|split; eauto].
  destruct (negb _); [split; eauto|]. destruct (bool_decide _); [split; eauto|].
  assert (forall c k0 i, (forall y, sessions (upd_session (t_session me) (set_ctty c) k0) !! i = Some y ->
      exists x, sessions k0 !! i = Some x /\ sid y = sid x) /\
    (is_Some (sessions k0 !! i) -> is_Some (sessions (upd_session (t_session me) (set_ctty c) k0) !! i))) as H1
    by (intros; by apply upd_session_lookup).
  destruct (_ ≫= tty_owner) as [o|]; [|split; [done|]; intros i; by apply H1].
  destruct (_ && _); [split; eauto|]. split; [by destruct (o =? t_session me)|]. intros i.
  destruct (o =? t_session me); [by apply H1|].
  destruct (H1 (Some i0) (upd_session o (set_ctty None) k) i) as [Ha Hb].
  destruct (upd_session_lookup o (set_ctty None) k i ltac:(done)) as [Hc Hd].
  split; [|intros Hi; by apply Hb, Hd]. intros y Hy. destruct (Ha y Hy) as (x & Hx & E).
  destruct (Hc x Hx) as (z & Hz & E'). exists z. split; [done|congruence].
Qed.

Lemma task_job_mono n k n' k' p t :
  task_job_ok n k p t -> n <= n' -> (is_Some (sessions k !! t_session t) -> is_Some (sessions k' !! t_session t)) ->
  task_job_ok n' k' p t.
Proof. intros [] Hn Hs. constructor; (lia || auto). Qed.

Lemma jobs_ok_step s s' : job_step s s' -> jobs_ok s -> jobs_ok s'.
Proof.
  intros Hst [Hsid Hs]. destruct Hst as [n k self pa ga|n k self t Ht|n k self t t' Ht Hg Hse|n k p|n k p|n k self tty force];
    cbn [fst snd] in *.
  - destruct (setpgid_effect pa ga self k) as [E|(p & t & g & Ht & Hl & E)]; rewrite E; [done|].
    constructor; [done|]. cbn [fst snd]. intros q tq Hq. rewrite tasks_upd_task in Hq.
    destruct (decide (q = p)) as [->|Hne]; [|apply (task_job_mono n k); [by apply Hs|lia|done]].
    rewrite Ht in Hq. injection Hq as <-. destruct (Hs p t Ht) as [B1 B2 J1 [x J2] J3].
    constructor; cbn [t_pgrp t_session set_pgrp pg_session pgid]; try done.
    intros Hp. exfalso. apply Hl. unfold session_sid. rewrite J2. cbn. rewrite (Hsid _ _ J2). done.
  - unfold setsid_kernel. destruct (Z.eqb_spec (own_pgid self k) self); [done|].
    constructor; cbn [fst snd].
    + intros i x Hi. cbn [sessions upd_task set_tasks set_sessions] in Hi.
      apply lookup_insert_Some in Hi as [[<- <-]|[_ Hi]]; [done|by apply (Hsid i)].
    + intros q tq Hq. rewrite tasks_upd_task in Hq. cbn [tasks set_sessions] in Hq.
      destruct (decide (q = self)) as [->|Hne].
      * rewrite Ht in Hq. injection Hq as <-. destruct (Hs self t Ht) as [B1 _ _ _ _].
        constructor; cbn [t_pgrp t_session set_session set_pgrp pg_session pgid]; try done.
        cbn [sessions upd_task set_tasks set_sessions]. by rewrite lookup_insert_eq.
      * apply (task_job_mono n k); [by apply Hs|lia|]. intros Hx. cbn [sessions upd_task set_tasks set_sessions].
        destruct (decide (t_session tq = self)) as [->|?]; [by rewrite lookup_insert_eq|by rewrite lookup_insert_ne].
  - constructor; cbn [fst snd]; [done|]. intros q tq Hq. cbn [tasks set_pid_map set_tasks] in Hq.
    apply lookup_insert_Some in Hq as [[<- <-]|[_ Hq]].
    + destruct (Hs self t Ht) as [B1 B2 J1 J2 J3]. constructor; rewrite ?Hg, ?Hse; try done; try lia.
    + apply (task_job_mono n k); [by apply Hs|lia|done].
  - constructor; cbn [fst snd]; [done|]. intros q tq Hq. cbn [tasks set_tasks] in Hq.
    apply lookup_delete_Some in Hq as [_ Hq]. apply (task_job_mono n k); [by apply Hs|lia|done].
  - constructor; cbn [fst snd]; [done|]. intros q tq Hq. apply (task_job_mono n k); [by apply Hs|lia|done].
  - destruct (tiocsctty_effect tty force self k) as [Et Ese]. constructor; cbn [fst snd].
    + intros i y Hy. destruct (Ese i) as [H1 _]. destruct (H1 y Hy) as (x & Hx & ->). by apply Hsid.
    + intros q tq Hq. rewrite Et in Hq. apply (task_job_mono n k); [by apply Hs|lia|]. apply Ese.
Qed.

(** C17: in every state the tasks reach by setpgid, setsid, TIOCSCTTY, fork, exit
    and wait, in any order, the process group of a task lies in the task's own
    session, that session exists under its id, and a session leader is still in
    the group it leads: no call moves a leader out, and none joins a task to a
    group recorded under another session. *)
Theorem job_control_invariant s s' p t
  (Hinit : jobs_ok s) (Hsteps : rtc job_step s s') (Ht : tasks s'.2 !! p = Some t) :
  pg_session (t_pgrp t) = t_session t /\
  (exists x, sessions s'.2 !! t_session t = Some x /\ sid x = t_session t) /\
  (t_session t = p -> pgid (t_pgrp t) = p /\
     forall q pa ga t', tasks (setpgid_kernel pa ga q s'.2).2 !! p = Some t' -> t' = t).
Proof.
  assert (jobs_ok s') as [Hsid Hs].
  { induction Hsteps as [s|s s1 s' Hst _ IH]; [done|]. apply IH; [|done]. by eapply jobs_ok_step. }
  destruct (Hs p t Ht) as [B1 B2 J1 [x J2] J3]. split; [done|]. split; [exists x; split; [done|by apply Hsid]|].
  intros Hl. split; [auto|]. intros q pa ga t' Ht'.
  destruct (setpgid_effect pa ga q s'.2) as [E|(q' & tq & g & Hq & Hne & E)]; rewrite E in Ht'; [congruence|].
  cbn [snd] in Ht'. rewrite tasks_upd_task in Ht'. destruct (decide (p = q')) as [<-|?]; [|congruence].
  destruct Hne. simplify_eq. unfold session_sid. rewrite J2. cbn. by rewrite (Hsid _ _ J2).
Qed.

(** ** Runs *)

(** Processes 2 and 3 are children of init, still in its group and session. *)
Definition job_task (p : Z) : Task := mktask 0 0 [] true 0 p p (mkpgrp 1 1) 1 "job".
Definition job_kernel : Kernel :=
  set_tgs {[1 := demo_group 1 0 [1]; 2 := demo_group 2 1 [2]; 3 := demo_group 3 1 [3]]}
    (set_tasks {[1 := job_task 1; 2 := job_task 2; 3 := job_task 3]} demo_kernel).

Lemma job_kernel_ok : jobs_ok (4, job_kernel).
Proof.
  constructor; cbn [fst snd].
  - intros i x Hi. cbn in Hi. apply lookup_singleton_Some in Hi as [<- <-]. done.
  - intros p t Ht. cbn [tasks job_kernel set_tgs set_tasks] in Ht.
    repeat (apply lookup_insert_Some in Ht as [[<- <-]|[_ Ht]]; [by constructor|]).
    apply lookup_singleton_Some in Ht as [<- <-]. constructor; done.
Qed.

(** Process 2 starts a session; its group is the one it leads. *)
Lemma job_control_invariant_witness :
  exists s' t, rtc job_step (4, job_kernel) s' /\ tasks s'.2 !! 2 = Some t /\ t_session t = 2 /\
    pgid (t_pgrp t) = 2 /\ pg_session (t_pgrp t) = 2.
Proof.
  destruct (tasks (setsid_kernel 2 job_kernel).2 !! 2) as [t|] eqn:E; [|discriminate E].
  exists (4, (setsid_kernel 2 job_kernel).2), t.
  assert (rtc job_step (4, job_kernel) (4, (setsid_kernel 2 job_kernel).2)) as Hr.
  { eapply rtc_l; [|apply rtc_refl]. by eapply (js_setsid 4 job_kernel 2). }
  assert (t_session t = 2) as Hs by (revert E; vm_compute; intros [= <-]; reflexivity).
  destruct (job_control_invariant _ _ 2 t job_kernel_ok Hr E) as (H1 & _ & H3). destruct (H3 Hs) as [H4 _].
  split; [exact Hr|]. split; [exact E|]. split; [exact Hs|]. split; [exact H4|]. rewrite H1. exact Hs.
Defined.

(** session.cpp takes two tasks with one process group id to be in one session.
    It is not so: process 3 joins the group id of process 2, which leads no
    group, and process 2 then starts a session, whose group has the same id. *)
Lemma pgid_two_sessions :
  let k1 := setpgid_kernel 3 2 1 job_kernel in
  let k := (setsid_kernel 2 k1.2).2 in
  k1.1 = 0 /\ own_pgid 2 k = 2 /\ own_pgid 3 k = 2 /\
  (t_session <$> tasks k !! 2) = Some 2 /\ (t_session <$> tasks k !! 3) = Some 1.
Proof. by vm_compute. Qed.

(** A session leader that takes a second terminal stays the owner of the first. *)
Lemma ctty_owner_stale :
  let k := set_ttys {[0 := mktty 0 None 0; 1 := mktty 0 None 1]} demo_kernel in
  let k2 := (tiocsctty (Some 1) 0 1 (tiocsctty (Some 0) 0 1 k).2).2 in
  (sessions k2 !! 1) ≫= ctty = Some 1 /\ (ttys k2 !! 0) ≫= tty_owner = Some 1.
Proof. by vm_compute. Qed.
