(* ===== verification/FdTable.v ===== *)
(** * FdTable: descriptors and the files behind them

    The descriptor table of a process ([SharedState::fds] with [find_fd],
    [fds_mutate] and [fds_emplace]), the copying and closing of [Fd] objects
    (fs.cpp) and the calls of fd_ops.cpp, file_io.cpp and signal.cpp that
    change the table.  An [Fd] object is an entry of [files]: a table holds its
    key, and it is destroyed when the table drops it (calls that still hold an
    old snapshot are not modelled).  The host's [dup], [pipe2] and [fcntl] are
    parameters.

    Main results: the lowest free number is taken; in every reachable state
    each descriptor owns one live object, no two share one and none leaks;
    SIGHUP is sent exactly when the last master of a terminal is closed. *)

From S2P Require Import Prelude HostMem AddrSpace Isa Vm Kernel Signals SigCalls.
From Stdlib Require Import Lia.
From stdpp Require Import base numbers list gmap strings option fin_maps fin_sets relations.

Open Scope Z_scope.
Open Scope vm_scope.

Definition EBADF : Z := 9.
Definition ENOTTY : Z := 25.
Definition EIO : Z := 5.

Definition BPF_O_NONBLOCK : Z := 0x800.
Definition BPF_O_DIRECT : Z := 0x4000.
Definition BPF_O_LARGEFILE : Z := 0x8000.
Definition BPF_O_DIRECTORY : Z := 0x10000.
Definition BPF_O_NOFOLLOW : Z := 0x20000.
Definition BPF_O_CLOEXEC : Z := 0x80000.

Definition F_DUPFD : Z := 0.
Definition F_GETFD : Z := 1.
Definition F_SETFD : Z := 2.
Definition F_GETFL : Z := 3.
Definition F_SETFL : Z := 4.
Definition F_GETLK : Z := 5.
Definition F_SETLK : Z := 6.
Definition F_SETLKW : Z := 7.
Definition F_DUPFD_CLOEXEC : Z := 1030.
Definition FD_CLOEXEC : Z := 1.

(** ** Flag words

    The bits the host gives the four flags whose place differs between hosts. *)
Record HostFlags := mkflags { h_directory : Z; h_nofollow : Z; h_direct : Z; h_largefile : Z }.

Definition x86_flags : HostFlags := mkflags 0x10000 0x20000 0x4000 0.
Definition aarch64_flags : HostFlags := mkflags 0x4000 0x8000 0x10000 0.

Definition flag_if (b : bool) (f : Z) : Z := if b then f else 0.

Definition guest_open_flags (hf : HostFlags) (g : Z) : Z :=
  let h := andnot g (Z.lor (Z.lor BPF_O_DIRECTORY BPF_O_NOFOLLOW) (Z.lor BPF_O_DIRECT BPF_O_LARGEFILE)) in
  let h := Z.lor h (flag_if (nz (Z.land g BPF_O_DIRECTORY)) (h_directory hf)) in
  let h := Z.lor h (flag_if (nz (Z.land g BPF_O_NOFOLLOW)) (h_nofollow hf)) in
  Z.lor h (flag_if (nz (Z.land g BPF_O_DIRECT)) (h_direct hf)).

Definition host_fgetfl_to_guest (hf : HostFlags) (rc : Z) : Z :=
  let g := andnot rc (Z.lor (Z.lor (h_directory hf) (h_nofollow hf)) (h_direct hf)) in
  let g := andnot g (h_largefile hf) in
  let g := Z.lor g (flag_if (nz (Z.land rc (h_directory hf))) BPF_O_DIRECTORY) in
  let g := Z.lor g (flag_if (nz (Z.land rc (h_nofollow hf))) BPF_O_NOFOLLOW) in
  Z.lor g (flag_if (nz (Z.land rc (h_direct hf))) BPF_O_DIRECT).

Definition guest_setfl_flags (hf : HostFlags) (g : Z) : Z :=
  Z.lor (andnot g BPF_O_DIRECT) (flag_if (nz (Z.land g BPF_O_DIRECT)) (h_direct hf)).

(** ** The table *)

Definition table (k : Kernel) (ps : Z) : gmap Z Z := from_option fds ∅ (shared k !! ps).
Definition set_fds (m : gmap Z Z) (s : SharedState) : SharedState :=
  mkshared (signal_actions s) (ps_umask s) m (cwd s) (root s) (exe_path s).
Definition set_umask (u : Z) (s : SharedState) : SharedState :=
  mkshared (signal_actions s) u (fds s) (cwd s) (root s) (exe_path s).

(** [fds_mutate]: the snapshot is replaced. *)
Definition fds_mutate (ps : Z) (f : gmap Z Z -> gmap Z Z) (k : Kernel) : Kernel :=
  set_shared (alter (fun s => set_fds (f (fds s)) s) ps (shared k)) k.

(** [find_fd], with the object. *)
Definition find_fd (k : Kernel) (ps fd : Z) : option (Z * Fd) :=
  i ← table k ps !! fd; f ← files k !! i; Some (i, f).

(** [std::make_shared] of an [Fd], and its destruction. *)
Definition new_file (f : Fd) (k : Kernel) : Z * Kernel :=
  let i := fresh (dom (files k)) in (i, set_files (<[i := f]> (files k)) k).
Definition drop_file (i : Z) (k : Kernel) : Kernel := set_files (delete i (files k)) k.

(** [dev_ptmx_register]. *)
Definition dev_ptmx_register (n tty : Z) (k : Kernel) : Kernel :=
  if n <? 0 then k
  else set_ptmx (<[n := tty]> (ptmx_registry k)) (set_ttys (alter (fun t => mktty (fg_pgrp t) (tty_owner t) n) tty (ttys k)) k).

(** [while(m.count(fd)) fd++], the counter is an [int]. *)
Fixpoint first_free (n : nat) (m : gmap Z Z) (fd : Z) : Z :=
  match n with
  | O => fd
  | S n' => if decide (is_Some (m !! fd)) then first_free n' m (s32 (fd + 1)) else fd
  end.

Definition free_from (m : gmap Z Z) (min_fd : Z) : Z := first_free (S (size m)) m min_fd.

(** [fds_emplace]. *)
Definition fds_emplace (ps : Z) (handle : Fd) (min_fd : Z) (k : Kernel) : Z * Kernel :=
  let fd := free_from (table k ps) min_fd in
  let '(i, k1) := new_file handle k in
  (fd, fds_mutate ps (insert fd i) k1).

Definition own_ps (self : Z) (k : Kernel) : Z := from_option t_ps 0 (tasks k !! self).

(** ** Copying and closing *)

Class HostFds := {
  host_dup : Kernel -> Z -> Z;  (** the new host fd, or [-errno] *)
  host_pipe2 : Kernel -> Z -> Z + Z * Z;  (** [-errno], or the read and the write end *)
  host_fcntl : Kernel -> Z -> Z -> Z -> Z;  (** the result, or [-errno] *)
  host_flags : HostFlags
}.

Section Table.
Context {ord : HashOrder} {env : HostEnv} {hf : HostFds}.

Definition set_cloexec (b : bool) (f : Fd) : Fd := mkfd (host_fd f) b (f_path f) (f_kind f).

(** [Fd::clone]: [-errno] or the copy.  The copy constructor of a virtual file
    keeps the flag; the position of the copy is 0. *)
Definition fd_clone (f : Fd) (k : Kernel) : Z + Fd :=
  match f_kind f with
  | KHost | KDev _ _ =>
    let d := host_dup k (host_fd f) in
    if d <? 0 then inl d else inr (mkfd d false (f_path f) (f_kind f))
  | KSignal mask _ =>
    match host_pipe2 k 0 with
    | inl e => inl e
    | inr (p0, _) => inr (mkfd p0 false EmptyString (KSignal mask []))
    end
  | KProc data _ => inr (mkfd (host_fd f) (cloexec f) (f_path f) (KProc data 0))
  | KDir es _ => inr (mkfd (host_fd f) (cloexec f) (f_path f) (KDir es 0))
  end.

(** [master_token_.use_count()]. *)
Definition holds_token (tok : Z) (f : Fd) : bool :=
  match f_kind f with KDev _ (Some t) => t =? tok | _ => false end.
Definition token_uses (tok : Z) (k : Kernel) : nat :=
  size (filter (fun e : Z * Fd => holds_token tok e.2 = true) (files k)).

(** [Fd::on_close] of object [i]: the last master of a terminal removes its
    node from /dev/pts and hangs the terminal up. *)
Definition ptmx_erase (tty : option Z) (k : Kernel) : Kernel :=
  match tty ≫= fun i => ttys k !! i with
  | Some t => if 0 <=? ptn t then set_ptmx (delete (ptn t) (ptmx_registry k)) k else k
  | None => k
  end.

Definition on_close (self i : Z) (k : Kernel) : Kernel :=
  match files k !! i with
  | Some f =>
    match f_kind f with
    | KDev tty (Some tok) =>
      if decide (token_uses tok k = 1%nat) then deliver_to_ctty_fg tty SIGHUP self (ptmx_erase tty k) else k
    | _ => k
    end
  | None => k
  end.

(** ** The calls *)

Definition dup_kernel (old_fd self : Z) (k : Kernel) : Z * Kernel :=
  if old_fd <? 0 then (- EBADF, k)
  else match find_fd k (own_ps self k) old_fd with
  | None => (- EBADF, k)
  | Some (_, h) =>
    match fd_clone h k with
    | inl e => (e, k)
    | inr handle => fds_emplace (own_ps self k) handle 0 k
    end
  end.

Definition do_dup : M World Z := a1 <- Vm.r 1 ;; kernel_op (dup_kernel (arg_s32 a1)).

(** The end of [do_dup3]: the old object of the number is closed and replaced. *)
Definition install_fd (ps new_fd : Z) (handle : Fd) (self : Z) (k : Kernel) : Kernel :=
  let old := table k ps !! new_fd in
  let k1 := from_option (fun i => on_close self i k) k old in
  let '(i, k2) := new_file handle k1 in
  from_option drop_file id old (fds_mutate ps (insert new_fd i) k2).

Definition dup3_kernel (old_fd new_fd dflags self : Z) (k : Kernel) : Z * Kernel :=
  if (old_fd <? 0) || (new_fd <? 0) then (- EBADF, k)
  else if old_fd =? new_fd then (- EINVAL, k)
  else if nz (andnot dflags BPF_O_CLOEXEC) then (- EINVAL, k)
  else match find_fd k (own_ps self k) old_fd with
  | None => (- EBADF, k)
  | Some (_, old_h) =>
    match fd_clone old_h k with
    | inl e => (e, k)
    | inr handle =>
      let handle := if nz (Z.land dflags BPF_O_CLOEXEC) then set_cloexec true handle else handle in
      (new_fd, install_fd (own_ps self k) new_fd handle self k)
    end
  end.

Definition do_dup3 : M World Z :=
  a1 <- Vm.r 1 ;; a2 <- Vm.r 2 ;; a3 <- Vm.r 3 ;;
  kernel_op (dup3_kernel (arg_s32 a1) (arg_s32 a2) (arg_s32 a3)).

(** [do_close]. *)
Definition close_kernel (fd self : Z) (k : Kernel) : Z * Kernel :=
  match find_fd k (own_ps self k) fd with
  | None => (- EBADF, k)
  | Some (i, _) =>
    (0, drop_file i (fds_mutate (own_ps self k) (delete fd) (on_close self i k)))
  end.

Definition do_close : M World Z := a1 <- Vm.r 1 ;; kernel_op (close_kernel (arg_s32 a1)).

(** [do_pipe2], after the host's [pipe2]. *)
Definition pipe_kernel (p0 p1 pflags self : Z) (k : Kernel) : Z * Z * Kernel :=
  let ps := own_ps self k in
  let c := nz (Z.land pflags BPF_O_CLOEXEC) in
  let '(i0, k1) := new_file (mkfd p0 c EmptyString KHost) k in
  let '(i1, k2) := new_file (mkfd p1 c EmptyString KHost) k1 in
  let guest_fd0 := free_from (table k ps) 0 in
  let guest_fd1 := free_from (table k ps) (s32 (guest_fd0 + 1)) in
  (guest_fd0, guest_fd1, fds_mutate ps (fun m => <[guest_fd1 := i1]> (<[guest_fd0 := i0]> m)) k2).

Definition do_pipe2 : M World Z :=
  a1 <- Vm.r 1 ;;
  pipefd <- mmu_wM a1 8 ;;
  match pipefd with
  | None => ret (- EFAULT)
  | Some p =>
    a2 <- Vm.r 2 ;;
    let pflags := arg_s32 a2 in
    rc <- kget (fun _ k => host_pipe2 k (guest_setfl_flags host_flags (u32 pflags))) ;;
    match rc with
    | inl e => ret e
    | inr (p0, p1) =>
      fdp <- kernel_op (pipe_kernel p0 p1 pflags) ;;
      storeM p 4 (u32 fdp.1) ;; storeM (padd p 4) 4 (u32 fdp.2) ;; ret 0
    end
  end.

(** [do_fcntl]; the locks and the other commands go to the host ([other]). *)
Definition dupfd_kernel (h : Fd) (min_fd : Z) (c : bool) (self : Z) (k : Kernel) : Z * Kernel :=
  if min_fd <? 0 then (- EINVAL, k)
  else match fd_clone h k with
  | inl e => (e, k)
  | inr handle => fds_emplace (own_ps self k) (if c then set_cloexec true handle else handle) min_fd k
  end.

Definition do_fcntl (other : Z -> Z -> Z -> M World Z) : M World Z :=
  a1 <- Vm.r 1 ;;
  h <- kget (fun self k => find_fd k (own_ps self k) (arg_s32 a1)) ;;
  match h with
  | None => ret (- EBADF)
  | Some (i, h) =>
    a2 <- Vm.r 2 ;; a3 <- Vm.r 3 ;;
    let cmd := arg_s32 a2 in
    if (cmd =? F_DUPFD) || (cmd =? F_DUPFD_CLOEXEC) then
      kernel_op (dupfd_kernel h (arg_s32 a3) (cmd =? F_DUPFD_CLOEXEC))
    else if cmd =? F_GETFD then ret (if cloexec h then FD_CLOEXEC else 0)
    else if cmd =? F_SETFD then
      kmod (fun _ => upd_file i (set_cloexec (nz (Z.land a3 FD_CLOEXEC)))) ;; ret 0
    else if host_fd h <? 0 then ret (- EINVAL)
    else if cmd =? F_GETFL then
      rc <- kget (fun _ k => host_fcntl k (host_fd h) F_GETFL 0) ;;
      ret (if 0 <=? rc then host_fgetfl_to_guest host_flags rc else rc)
    else if cmd =? F_SETFL then
      kget (fun _ k => host_fcntl k (host_fd h) F_SETFL (guest_setfl_flags host_flags (u32 a3)))
    else other (host_fd h) cmd a3
  end.

(** [do_umask]. *)
Definition umask_kernel (m : Z) (self : Z) (k : Kernel) : Z * Kernel :=
  let ps := own_ps self k in
  (from_option ps_umask 0 (shared k !! ps),
   set_shared (alter (set_umask (Z.land m 0x1FF)) ps (shared k)) k).

Definition do_umask : M World Z := a1 <- Vm.r 1 ;; kernel_op (umask_kernel (u32 a1)).

(** [do_signalfd4]. *)
Definition signalfd_new (p0 mask : Z) (c : bool) (self : Z) (k : Kernel) : Z * Kernel :=
  fds_emplace (own_ps self k) (mkfd p0 c EmptyString (KSignal mask [])) 0 k.

Definition set_sfd_mask (mask : Z) (f : Fd) : Fd :=
  match f_kind f with
  | KSignal _ sent => mkfd (host_fd f) (cloexec f) (f_path f) (KSignal mask sent)
  | _ => f
  end.

Definition signalfd_update (fd mask self : Z) (k : Kernel) : Z * Kernel :=
  match find_fd k (own_ps self k) fd with
  | None => (- EBADF, k)
  | Some (i, f) => if is_signalfd f then (fd, upd_file i (set_sfd_mask mask) k) else (- EINVAL, k)
  end.

Definition do_signalfd4 : M World Z :=
  a1 <- Vm.r 1 ;; set_addr <- Vm.r 2 ;; a4 <- Vm.r 4 ;;
  let fd := arg_s32 a1 in
  let sflags := arg_s32 a4 in
  if nz (andnot sflags (Z.lor BPF_O_CLOEXEC BPF_O_NONBLOCK)) then ret (- EINVAL)
  else
    m <- parse_guest_sigset set_addr ;;
    match m with
    | None => ret (- EFAULT)
    | Some mask =>
      if fd <? 0 then
        let c := nz (Z.land sflags BPF_O_CLOEXEC) in
        rc <- kget (fun _ k => host_pipe2 k (if c then BPF_O_CLOEXEC else 0)) ;;
        match rc with
        | inl e => ret e
        | inr (p0, _) => kernel_op (signalfd_new p0 mask c)
        end
      else kernel_op (signalfd_update fd mask)
    end.

(** ** Fork, exec and exit *)

(** The copy loop of [do_clone]; on an error the copies made are destroyed. *)
Fixpoint clone_fds (l : list (Z * Z)) (acc : gmap Z Z) (k : Kernel) : Z + gmap Z Z * Kernel :=
  match l with
  | [] => inr (acc, k)
  | (fd, i) :: r =>
    match files k !! i with
    | None => clone_fds r acc k
    | Some f =>
      match fd_clone f k with
      | inl e => inl e
      | inr handle =>
        let '(j, k1) := new_file (set_cloexec (cloexec f) handle) k in
        clone_fds r (<[fd := j]> acc) k1
      end
    end
  end.

(** A table in the order its hash table is traversed. *)
Definition entries (m : gmap Z Z) : list (Z * Z) :=
  omap (fun fd => (fun i => (fd, i)) <$> m !! fd) (hash_order (dom m)).

(** The table of a forked child, in the new shared state [ps']. *)
Definition fork_fds (ps ps' : Z) (k : Kernel) : Z + Kernel :=
  match clone_fds (entries (table k ps)) ∅ k with
  | inl e => inl e
  | inr (m, k1) =>
    inr (set_shared (<[ps' := set_fds m (default (mkshared [] 0 ∅ "" "" "") (shared k !! ps))]> (shared k1)) k1)
  end.

Definition is_cloexec (k : Kernel) (i : Z) : bool := from_option cloexec false (files k !! i).

(** The end of [exec_common]: every close-on-exec object is closed, then the
    others become the table. *)
Definition exec_fds (ps self : Z) (k : Kernel) : Kernel :=
  let gone := filter (fun e : Z * Z => is_cloexec k e.2 = true) (entries (table k ps)) in
  let k1 := foldl (fun k e => on_close self e.2 k) k gone in
  foldl (fun k e => drop_file e.2 k)
    (fds_mutate ps (filter (fun e : Z * Z => is_cloexec k e.2 = false)) k1) gone.

(** The descriptors in [fini]: all are closed, then the table becomes empty. *)
Definition close_all (ps self : Z) (k : Kernel) : Kernel :=
  let gone := entries (table k ps) in
  let k1 := foldl (fun k e => on_close self e.2 k) k gone in
  foldl (fun k e => drop_file e.2 k) (fds_mutate ps (fun _ => ∅) k1) gone.

End Table.

(** ** Flags of open files *)

Lemma flag_if_testbit g a b n : 0 <= a -> 0 <= b -> 0 <= n ->
  Z.testbit (flag_if (nz (Z.land g (2 ^ a))) (2 ^ b)) n = Z.testbit g a && (b =? n).
Proof.
  intros Ha Hb Hn. rewrite nz_land_pow2 by done. unfold flag_if. destruct (Z.testbit g a); [|apply Z.testbit_0_l].
  by rewrite Z.pow2_bits_eqb.
Qed.

(** on x86_64 and on aarch64, where four of the flags sit in other places,
    the flags of an [open], read back with F_GETFL, are the guest's own, less
    O_LARGEFILE; no bit is lost or takes the place of another. *)
Theorem flags_roundtrip hf g (Hhf : hf = x86_flags \/ hf = aarch64_flags) :
  host_fgetfl_to_guest hf (guest_open_flags hf g) = andnot g BPF_O_LARGEFILE.
Proof.
  apply Z.bits_inj'. intros n Hn.
  unfold host_fgetfl_to_guest, guest_open_flags, andnot.
  change BPF_O_DIRECTORY with (2 ^ 16). change BPF_O_NOFOLLOW with (2 ^ 17). change BPF_O_DIRECT with (2 ^ 14).
  change BPF_O_LARGEFILE with (2 ^ 15).
  destruct Hhf as [->| ->]; cbn [h_directory h_nofollow h_direct h_largefile x86_flags aarch64_flags];
   change 0x10000 with (2 ^ 16); change 0x20000 with (2 ^ 17); change 0x4000 with (2 ^ 14); change 0x8000 with (2 ^ 15);
   rewrite !Z.lor_spec, !Z.ldiff_spec, !Z.lor_spec, !flag_if_testbit, !Z.pow2_bits_eqb, ?Z.bits_0 by lia;
   rewrite ?Z.lor_spec, ?Z.ldiff_spec, ?flag_if_testbit, ?Z.lor_spec, ?Z.pow2_bits_eqb by lia;
   generalize (Z.testbit g); intros B;
   destruct (Z.eqb_spec 14 n) , (Z.eqb_spec 15 n) , (Z.eqb_spec 16 n) , (Z.eqb_spec 17 n); try (exfalso; lia); subst;
   try lia; cbn; rewrite ?orb_false_r, ?andb_true_r, ?andb_false_r, ?orb_false_l; repeat match goal with |- context [B ?i] => destruct (B i) end; try done.
Qed.

Lemma flags_roundtrip_witness :
  host_fgetfl_to_guest aarch64_flags (guest_open_flags aarch64_flags (Z.lor BPF_O_NOFOLLOW BPF_O_CLOEXEC)) =
  Z.lor BPF_O_NOFOLLOW BPF_O_CLOEXEC.
Proof. etransitivity; [apply (flags_roundtrip aarch64_flags); right; reflexivity|reflexivity]. Defined.

(** ** Free descriptors *)

Lemma dense_size (m : gmap Z Z) a n : (forall j, a <= j < a + Z.of_nat n -> is_Some (m !! j)) -> (n <= size m)%nat.
Proof.
  intros H. rewrite <- size_dom. replace n with (size (list_to_set (seqZ a (Z.of_nat n)) : gset Z)).
  - apply subseteq_size. intros j Hj. apply elem_of_list_to_set, elem_of_seqZ in Hj. apply elem_of_dom. apply H. lia.
  - rewrite size_list_to_set by apply NoDup_seqZ. rewrite length_seqZ. lia.
Qed.

Lemma first_free_spec n m fd :
  0 <= fd -> fd + Z.of_nat n < 2 ^ 31 ->
  let r := first_free n m fd in
  fd <= r <= fd + Z.of_nat n /\ (forall j, fd <= j < r -> is_Some (m !! j)) /\
  (r < fd + Z.of_nat n -> m !! r = None).
Proof.
  revert fd. induction n as [|n IH]; intros fd H0 Hb; cbn [first_free]; [split_and!; intros; lia|].
  destruct (decide (is_Some (m !! fd))) as [Hs|Hn].
  2: { split_and!; [lia|lia|intros; lia|]. intros _. by destruct (m !! fd); [destruct Hn; eauto|]. }
  assert (s32 (fd + 1) = fd + 1) as -> by (apply sval_small; lia).
  destruct (IH (fd + 1)) as (H1 & H2 & H3); [lia|lia|]. split_and!; [lia|lia| |intros; apply H3; lia].
  intros j Hj. destruct (decide (j = fd)) as [->|?]; [done|]. apply H2. lia.
Qed.

(** The number the loop stops at. *)
Lemma free_from_spec m min_fd :
  0 <= min_fd -> min_fd + Z.of_nat (size m) + 1 < 2 ^ 31 ->
  let r := free_from m min_fd in
  min_fd <= r <= min_fd + Z.of_nat (size m) /\ (forall j, min_fd <= j < r -> is_Some (m !! j)) /\ m !! r = None.
Proof.
  intros H0 Hb. destruct (first_free_spec (S (size m)) m min_fd) as (H1 & H2 & H3); [lia|lia|].
  cbn zeta in *. fold (free_from m min_fd) in *.
  assert (free_from m min_fd - min_fd <= Z.of_nat (size m)) as Hle.
  { pose proof (dense_size m min_fd (Z.to_nat (free_from m min_fd - min_fd))) as Hd.
    assert (Z.to_nat (free_from m min_fd - min_fd) <= size m)%nat; [|lia].
    apply Hd. intros j Hj. apply H2. lia. }
  split_and!; [lia|lia|done|]. apply H3. lia.
Qed.

(** ** Tables and objects *)

Lemma table_fds_mutate ps f k q :
  is_Some (shared k !! ps) -> table (fds_mutate ps f k) q = if decide (q = ps) then f (table k ps) else table k q.
Proof.
  intros [s Hs]. unfold table, fds_mutate. cbn [shared set_shared]. destruct (decide (q = ps)) as [->|Hne].
  - by rewrite lookup_alter_eq, Hs.
  - by rewrite lookup_alter_ne.
Qed.

Lemma table_drop i k q : table (drop_file i k) q = table k q.
Proof. done. Qed.

Lemma krel_table k k' ps : krel k k' -> table k' ps = table k ps.
Proof. intros Hr. unfold table. by rewrite (kr_shared _ _ Hr). Qed.

Lemma krel_deliver_fg {ord : HashOrder} tty sig self k : krel k (deliver_to_ctty_fg tty sig self k).
Proof.
  unfold deliver_to_ctty_fg. destruct (sig <=? 0); [done|]. destruct tty as [i|].
  - destruct (bool_decide _); [done|]. apply krel_foldl. intros. apply krel_send.
  - apply krel_foldl. intros. apply krel_send.
Qed.

Section Facts.
Context {ord : HashOrder} {env : HostEnv} {hf : HostFds}.

Lemma krel_ptmx_erase tty k : krel k (ptmx_erase tty k).
Proof.
  unfold ptmx_erase. destruct (tty ≫= _) as [t|]; [|done]. destruct (0 <=? ptn t); [|done].
  by constructor.
Qed.

Lemma krel_on_close self i k : krel k (on_close self i k).
Proof.
  unfold on_close. destruct (files k !! i) as [f|]; [|done]. destruct (f_kind f) as [|tty [tok|]| | |]; try done.
  destruct (decide _); [|done]. etrans; [apply krel_ptmx_erase|apply krel_deliver_fg].
Qed.

Lemma krel_close_all self (l : list (Z * Z)) k : krel k (foldl (fun k e => on_close self e.2 k) k l).
Proof. revert k. induction l as [|e l IH]; intros k; cbn; [done|]. etrans; [apply krel_on_close|apply IH]. Qed.

Lemma files_drop (l : list (Z * Z)) k i :
  files (foldl (fun k e => drop_file e.2 k) k l) !! i = if decide (i ∈ l.*2) then None else files k !! i.
Proof.
  revert k. induction l as [|e l IH]; intros k; cbn [foldl fmap list_fmap]; [done|]. rewrite IH. unfold drop_file.
  cbn [files set_files]. destruct (decide (i ∈ l.*2)) as [Hi|Hi].
  - by rewrite decide_True by (by right).
  - destruct (decide (i = e.2)) as [->|Hne].
    + rewrite lookup_delete_eq. by rewrite decide_True by (by left).
    + rewrite lookup_delete_ne by done. rewrite decide_False; [done|]. rewrite elem_of_cons. naive_solver.
Qed.

Lemma shared_drop (l : list (Z * Z)) k : shared (foldl (fun k e => drop_file e.2 k) k l) = shared k.
Proof. revert k. induction l as [|e l IH]; intros k; cbn; [done|]. by rewrite IH. Qed.

Lemma tasks_drop (l : list (Z * Z)) k : tasks (foldl (fun k e => drop_file e.2 k) k l) = tasks k.
Proof. revert k. induction l as [|e l IH]; intros k; cbn; [done|]. by rewrite IH. Qed.

Lemma elem_of_entries m fd i : (fd, i) ∈ entries m <-> m !! fd = Some i.
Proof.
  unfold entries. rewrite list_elem_of_omap. split.
  - intros (x & _ & Hx). destruct (m !! x) eqn:E; [|done]. cbn in Hx. by simplify_eq.
  - intros H. exists fd. rewrite H. split; [|done]. rewrite hash_order_perm, elem_of_elements. by apply elem_of_dom.
Qed.

Lemma entries_snd m i : i ∈ (entries m).*2 <-> exists fd, m !! fd = Some i.
Proof.
  rewrite list_elem_of_fmap. split.
  - intros ([fd j] & -> & H). exists fd. by apply elem_of_entries.
  - intros [fd H]. exists (fd, i). split; [done|]. by apply elem_of_entries.
Qed.

(** ** Every descriptor owns its object *)

Definition refers (k : Kernel) (ps fd i : Z) : Prop := table k ps !! fd = Some i.

Record fd_ok (k : Kernel) : Prop := {
  fo_live : forall ps fd i, refers k ps fd i -> is_Some (files k !! i);
  fo_inj : forall ps fd ps' fd' i, refers k ps fd i -> refers k ps' fd' i -> ps = ps' /\ fd = fd';
  fo_used : forall i, is_Some (files k !! i) -> exists ps fd, refers k ps fd i;
  fo_tasks : forall p t, tasks k !! p = Some t -> is_Some (shared k !! t_ps t)
}.

(** Tables that lose the objects [G] while these are destroyed. *)
Lemma fd_ok_restrict k k' (G : Z -> Prop) :
  fd_ok k -> (forall ps fd i, refers k' ps fd i <-> refers k ps fd i /\ ~ G i) ->
  (forall i, is_Some (files k' !! i) <-> is_Some (files k !! i) /\ ~ G i) ->
  (forall p t, tasks k' !! p = Some t -> is_Some (shared k' !! t_ps t)) -> fd_ok k'.
Proof.
  intros [L I U _] HT HF Ht. constructor; [| | |done].
  - intros ps fd i [H ?]%HT. apply HF. split; [by eapply L|done].
  - intros ps fd ps' fd' i [H1 _]%HT [H2 _]%HT. by eapply I.
  - intros i [(ps & fd & H)%U Hg]%HF. exists ps, fd. by apply HT.
Qed.

(** Tables that gain new objects, each in one place. *)
Lemma fd_ok_extend k k' (N : Z -> Z -> Z -> Prop) :
  fd_ok k -> (forall ps fd i, refers k' ps fd i <-> refers k ps fd i \/ N ps fd i) ->
  (forall i, is_Some (files k' !! i) <-> is_Some (files k !! i) \/ exists ps fd, N ps fd i) ->
  (forall ps fd i, N ps fd i -> files k !! i = None) ->
  (forall ps fd ps' fd' i, N ps fd i -> N ps' fd' i -> ps = ps' /\ fd = fd') ->
  (forall p t, tasks k' !! p = Some t -> is_Some (shared k' !! t_ps t)) -> fd_ok k'.
Proof.
  intros [L I U _] HT HF Hn Hi Ht.
  assert (forall ps fd ps' fd' i, refers k ps fd i -> N ps' fd' i -> False) as Hx.
  { intros ps fd ps' fd' i H1%L H2%Hn. rewrite H2 in H1. by destruct H1. }
  constructor; [| | |done].
  - intros ps fd i [H|H]%HT; apply HF; eauto.
  - intros ps fd ps' fd' i [H1|H1]%HT [H2|H2]%HT; [by eapply I|exfalso; eauto|exfalso; eauto|by eapply Hi].
  - intros i [(ps & fd & H)%U|(ps & fd & H)]%HF; exists ps, fd; apply HT; auto.
Qed.

Lemma fd_ok_same k k' :
  fd_ok k -> (forall ps, table k' ps = table k ps) -> (forall i, is_Some (files k' !! i) <-> is_Some (files k !! i)) ->
  (forall p t, tasks k' !! p = Some t -> is_Some (shared k' !! t_ps t)) -> fd_ok k'.
Proof.
  intros Hok HT HF Ht. apply (fd_ok_restrict k k' (fun _ => False) Hok); [| |done].
  - intros ps fd i. unfold refers. rewrite HT. tauto.
  - intros i. rewrite HF. tauto.
Qed.

Lemma fd_ok_krel k k' : krel k k' -> fd_ok k -> fd_ok k'.
Proof.
  intros Hr Hok. apply (fd_ok_same k k' Hok).
  - intros ps. by apply krel_table.
  - intros i. by rewrite (kr_files _ _ Hr).
  - intros p t' Ht'. destruct (krel_task_back _ _ _ _ Hr Ht') as (t & Ht & Htr).
    rewrite (kr_shared _ _ Hr), (tr_ps _ _ Htr). by apply (fo_tasks _ Hok p).
Qed.

(** The two elementary changes of a table. *)
Lemma fd_ok_add k ps fd f :
  fd_ok k -> is_Some (shared k !! ps) -> table k ps !! fd = None ->
  fd_ok (fds_mutate ps (insert fd (new_file f k).1) (new_file f k).2).
Proof.
  intros Hok Hs Hfree. unfold new_file. cbn [fst snd]. set (i0 := fresh (dom (files k))).
  assert (files k !! i0 = None) as Hi0 by (apply not_elem_of_dom, is_fresh).
  set (k1 := set_files (<[i0 := f]> (files k)) k).
  assert (forall q, table (fds_mutate ps (insert fd i0) k1) q =
    if decide (q = ps) then <[fd := i0]> (table k ps) else table k q) as HT.
  { intros q. by rewrite (table_fds_mutate ps _ k1 q). }
  apply (fd_ok_extend k _ (fun q d i => q = ps /\ d = fd /\ i = i0) Hok).
  - intros q d i. unfold refers. rewrite HT. destruct (decide (q = ps)) as [->|Hne].
    + rewrite lookup_insert_Some. split; [|intros [H|(_ & -> & ->)]; [|by left]].
      * intros [[<- <-]|[? H]]; auto.
      * right. split; [|done]. intros <-. congruence.
    + split; [auto|]. intros [H|(? & _)]; [done|congruence].
  - intros i. cbn [files fds_mutate set_shared k1 set_files]. rewrite lookup_insert_is_Some.
    split; [|intros [H|(q & d & _ & _ & ->)]; [|by left]].
    + intros [<-|[? H]]; [right; eauto|by left].
    + destruct (decide (i0 = i)); auto.
  - intros q d i (_ & _ & ->). done.
  - intros q d q' d' i (-> & -> & _) (-> & -> & _). done.
  - intros p t Ht. cbn [tasks fds_mutate set_shared k1 set_files shared] in *.
    rewrite lookup_alter_is_Some. by apply (fo_tasks _ Hok p).
Qed.

Lemma fd_ok_close k k1 ps (gone : list (Z * Z)) F :
  fd_ok k -> krel k k1 -> is_Some (shared k !! ps) ->
  (forall fd i, F (table k ps) !! fd = Some i <-> refers k ps fd i /\ i ∉ gone.*2) ->
  (forall i, i ∈ gone.*2 -> exists fd, refers k ps fd i) ->
  fd_ok (foldl (fun k e => drop_file e.2 k) (fds_mutate ps F k1) gone).
Proof.
  intros Hok Hr Hs HF Hg. pose proof (fd_ok_krel _ _ Hr Hok) as Hok1.
  apply (fd_ok_restrict k1 _ (fun i => i ∈ gone.*2) Hok1).
  - intros q fd i. unfold refers, table at 1. rewrite shared_drop. fold (table (fds_mutate ps F k1) q).
    rewrite table_fds_mutate by (by rewrite (kr_shared _ _ Hr)). rewrite !(krel_table k k1) by done.
    destruct (decide (q = ps)) as [->|Hne]; [apply HF|]. split; [|tauto]. intros H. split; [done|].
    intros [fd' H']%Hg. by destruct (fo_inj _ Hok _ _ _ _ _ H H').
  - intros i. rewrite files_drop. cbn [files fds_mutate set_shared]. destruct (decide _); [|tauto].
    split; [by intros []|tauto].
  - intros p t. rewrite tasks_drop, shared_drop. cbn [tasks shared fds_mutate set_shared]. intros Ht.
    rewrite lookup_alter_is_Some. by apply (fo_tasks _ Hok1 p).
Qed.

(** ** The calls keep the invariant *)

Lemma fd_ok_emplace ps handle min_fd k :
  fd_ok k -> is_Some (shared k !! ps) -> 0 <= min_fd -> min_fd + Z.of_nat (size (table k ps)) + 1 < 2 ^ 31 ->
  fd_ok (fds_emplace ps handle min_fd k).2.
Proof.
  intros Hok Hs H0 Hb. pose proof (free_from_spec (table k ps) min_fd H0 Hb) as (_ & _ & Hf).
  by apply (fd_ok_add k ps _ handle Hok Hs).
Qed.

Lemma fd_ok_close_kernel fd self t k :
  tasks k !! self = Some t -> fd_ok k -> fd_ok (close_kernel fd self k).2.
Proof.
  intros Ht Hok. unfold close_kernel, find_fd, own_ps. rewrite Ht. cbn [from_option].
  destruct (table k (t_ps t) !! fd) as [i|] eqn:E; [|done]. cbn. destruct (files k !! i) as [f|] eqn:Ef; [|done]. cbn.
  apply (fd_ok_close k (on_close self i k) (t_ps t) [(fd, i)] (delete fd) Hok (krel_on_close self i k)).
  - by apply (fo_tasks _ Hok self).
  - intros d j. cbn [fmap list_fmap snd]. rewrite list_elem_of_singleton, lookup_delete_Some. split.
    + intros [Hne Hj]. split; [done|]. intros ->. by destruct (fo_inj _ Hok _ _ _ _ _ Hj E).
    + intros [Hj Hne]. split; [|done]. intros <-. unfold refers in Hj. congruence.
  - intros j ->%list_elem_of_singleton. by exists fd.
Qed.

Lemma fd_ok_install ps new_fd handle self k :
  is_Some (shared k !! ps) -> fd_ok k -> fd_ok (install_fd ps new_fd handle self k).
Proof.
  intros Hs Hok. unfold install_fd, new_file. destruct (table k ps !! new_fd) as [o|] eqn:E; cbn [from_option id].
  2: { by apply (fd_ok_add k ps new_fd handle). }
  pose proof (krel_on_close self o k) as Hr. set (k1 := on_close self o k) in *.
  set (i0 := fresh (dom (files k1))).
  assert (files k1 !! i0 = None) as Hi0 by (apply not_elem_of_dom, is_fresh).
  assert (is_Some (files k1 !! o)) as Ho by (rewrite (kr_files _ _ Hr); by apply (fo_live _ Hok ps new_fd)).
  assert (i0 <> o) as Hne0 by (intros ->; rewrite Hi0 in Ho; by destruct Ho).
  assert (fd_ok (drop_file o (fds_mutate ps (delete new_fd) k1))) as Hmid.
  { apply (fd_ok_close k k1 ps [(new_fd, o)] (delete new_fd) Hok Hr Hs).
    - intros d j. cbn [fmap list_fmap snd]. rewrite list_elem_of_singleton, lookup_delete_Some. split.
      + intros [Hne Hj]. split; [done|]. intros ->. by destruct (fo_inj _ Hok _ _ _ _ _ Hj E).
      + intros [Hj Hne]. split; [|done]. intros <-. unfold refers in Hj. congruence.
    - intros j ->%list_elem_of_singleton. by exists new_fd. }
  assert (is_Some (shared k1 !! ps)) as Hs1 by (by rewrite (kr_shared _ _ Hr)).
  set (k2 := set_files (<[i0 := handle]> (files k1)) k1).
  apply (fd_ok_extend _ _ (fun q d i => q = ps /\ d = new_fd /\ i = i0) Hmid).
  - intros q d i. unfold refers. rewrite !table_drop, !table_fds_mutate by done. change (table k2) with (table k1). destruct (decide (q = ps)) as [->|Hne].
    + rewrite lookup_insert_Some, lookup_delete_Some. naive_solver.
    + naive_solver.
  - intros i. unfold drop_file. cbn [files set_files fds_mutate set_shared k2].
    rewrite !lookup_delete_is_Some, lookup_insert_is_Some. split.
    + intros [? [<-|[? ?]]]; [right; eauto|by left].
    + intros [[? ?]|(q & d & _ & _ & ->)]; [|by auto]. split; [done|]. destruct (decide (i0 = i)); auto.
  - intros q d i (_ & _ & ->). cbn [files drop_file set_files fds_mutate set_shared]. by rewrite lookup_delete_ne.
  - intros q d q' d' i (-> & -> & _) (-> & -> & _). done.
  - intros p t Ht. cbn [tasks shared drop_file fds_mutate set_shared k2 set_files] in *.
    rewrite lookup_alter_is_Some. by apply (fo_tasks _ (fd_ok_krel _ _ Hr Hok) p).
Qed.

(** The table is nowhere near the size at which descriptor numbers overflow. *)
Definition room (k : Kernel) (ps : Z) : Prop := Z.of_nat (size (table k ps)) + 1 < 2 ^ 30.

Lemma fd_ok_pipe p0 p1 pflags self t k :
  tasks k !! self = Some t -> room k (t_ps t) -> fd_ok k -> fd_ok (pipe_kernel p0 p1 pflags self k).2.
Proof.
  intros Ht Hr Hok. unfold room in Hr. unfold pipe_kernel, own_ps, new_file. rewrite Ht. cbn [from_option].
  set (ps := t_ps t) in *. set (f0 := mkfd p0 _ _ _). set (f1 := mkfd p1 _ _ _).
  pose proof (fo_tasks _ Hok _ _ Ht) as Hs. fold ps in Hs.
  destruct (free_from_spec (table k ps) 0) as (B0 & _ & F0); [lia|lia|]. set (fd0 := free_from (table k ps) 0) in *.
  rewrite sval_small by lia. destruct (free_from_spec (table k ps) (fd0 + 1)) as (B1 & _ & F1); [lia|lia|].
  set (fd1 := free_from (table k ps) (fd0 + 1)) in *.
  pose proof (fd_ok_add k ps fd0 f0 Hok Hs F0) as Hok0. set (k0 := fds_mutate ps _ _) in Hok0.
  assert (is_Some (shared k0 !! ps)) as Hs0.
  { cbn [k0 shared fds_mutate set_shared new_file snd set_files]. by rewrite lookup_alter_is_Some. }
  assert (forall q, table k0 q = if decide (q = ps) then <[fd0 := fresh (dom (files k))]> (table k ps) else table k q) as HT0.
  { intros q. unfold k0. by rewrite table_fds_mutate. }
  assert (table k0 ps !! fd1 = None) as F1'.
  { rewrite HT0, decide_True by done. rewrite lookup_insert_ne by lia. done. }
  pose proof (fd_ok_add k0 ps fd1 f1 Hok0 Hs0 F1') as Hok1.
  cbn [fst snd]. apply (fd_ok_same _ _ Hok1).
  - intros q. rewrite !table_fds_mutate by done. change (table (new_file f1 k0).2) with (table k0).
    rewrite !HT0. destruct (decide (q = ps)) as [->|Hne]; [|done]. by rewrite decide_True.
  - intros i. done.
  - intros p tp Hp. cbn [tasks shared fds_mutate set_shared set_files] in *. rewrite lookup_alter_is_Some.
    by apply (fo_tasks _ Hok p).
Qed.

Lemma fd_ok_dup old_fd self t k :
  tasks k !! self = Some t -> room k (t_ps t) -> fd_ok k -> fd_ok (dup_kernel old_fd self k).2.
Proof.
  intros Ht Hr Hok. unfold dup_kernel, own_ps. rewrite Ht. cbn [from_option]. unfold room in Hr.
  destruct (_ <? 0); [done|]. destruct (find_fd _ _ _) as [[i h]|]; [|done].
  destruct (fd_clone h k); [done|]. apply fd_ok_emplace; [done|by apply (fo_tasks _ Hok self)|lia|lia].
Qed.

Lemma fd_ok_dupfd h min_fd c self t k :
  tasks k !! self = Some t -> min_fd + Z.of_nat (size (table k (t_ps t))) + 1 < 2 ^ 31 -> fd_ok k ->
  fd_ok (dupfd_kernel h min_fd c self k).2.
Proof.
  intros Ht Hr Hok. unfold dupfd_kernel, own_ps. rewrite Ht. cbn [from_option].
  destruct (Z.ltb_spec min_fd 0); [done|]. destruct (fd_clone h k); [done|].
  apply fd_ok_emplace; [done|by apply (fo_tasks _ Hok self)|done|done].
Qed.

Lemma fd_ok_dup3 old_fd new_fd fl self t k :
  tasks k !! self = Some t -> fd_ok k -> fd_ok (dup3_kernel old_fd new_fd fl self k).2.
Proof.
  intros Ht Hok. unfold dup3_kernel, own_ps. rewrite Ht. cbn [from_option].
  destruct (_ || _); [done|]. destruct (_ =? _); [done|]. destruct (nz (andnot _ _)); [done|].
  destruct (find_fd _ _ _) as [[i h]|]; [|done]. destruct (fd_clone h k); [done|].
  apply fd_ok_install; [|done]. by apply (fo_tasks _ Hok self).
Qed.

Lemma fd_ok_exec ps self k : is_Some (shared k !! ps) -> fd_ok k -> fd_ok (exec_fds ps self k).
Proof.
  intros Hs Hok. unfold exec_fds. apply (fd_ok_close k); [done|apply krel_close_all|done| |].
  - intros fd i. rewrite map_lookup_filter_Some. cbn [snd]. unfold refers. rewrite list_elem_of_fmap. split.
    + intros [H Hc]. split; [done|]. intros ([d j] & -> & Hj). apply list_elem_of_filter in Hj as [Hj _]. cbn in *. congruence.
    + intros [H Hn]. split; [done|]. destruct (is_cloexec k i) eqn:E; [|done]. destruct Hn. exists (fd, i).
      split; [done|]. apply list_elem_of_filter. split; [done|]. by apply elem_of_entries.
  - intros i Hi. apply list_elem_of_fmap in Hi as ([d j] & -> & Hj). apply list_elem_of_filter in Hj as [_ Hj].
    exists d. by apply elem_of_entries.
Qed.

Lemma fd_ok_close_all ps self k : is_Some (shared k !! ps) -> fd_ok k -> fd_ok (close_all ps self k).
Proof.
  intros Hs Hok. unfold close_all. apply (fd_ok_close k); [done|apply krel_close_all|done| |].
  - intros fd i. rewrite lookup_empty, entries_snd. unfold refers. split; [done|]. intros [H Hn]. destruct Hn. eauto.
  - intros i. by rewrite entries_snd.
Qed.

(** ** The child's table *)

(** [acc] holds copies made since [k0], each in one place. *)
Record copying (k0 : Kernel) (acc : gmap Z Z) (k : Kernel) : Prop := {
  cp_files : forall i, is_Some (files k !! i) <-> is_Some (files k0 !! i) \/ exists fd, acc !! fd = Some i;
  cp_new : forall fd i, acc !! fd = Some i -> files k0 !! i = None;
  cp_inj : forall fd fd' i, acc !! fd = Some i -> acc !! fd' = Some i -> fd = fd';
  cp_shared : shared k = shared k0;
  cp_tasks : tasks k = tasks k0
}.

Lemma copying_step k0 acc k fd f :
  copying k0 acc k -> acc !! fd = None -> copying k0 (<[fd := (new_file f k).1]> acc) (new_file f k).2.
Proof.
  intros [F N I S T] Hfd. unfold new_file. cbn [fst snd]. set (j := fresh (dom (files k))).
  assert (files k !! j = None) as Hj by (apply not_elem_of_dom, is_fresh).
  assert (forall d, acc !! d <> Some j) as Hacc.
  { intros d Hd. assert (is_Some (files k !! j)) as [x Hx] by (apply F; eauto). congruence. }
  constructor; [| | |done|done].
  - intros i. cbn [files set_files]. rewrite lookup_insert_is_Some. setoid_rewrite lookup_insert_Some. rewrite F.
    split.
    + intros [<-|[Hne [H|[d Hd]]]]; [right; exists fd; by left|by left|]. right. exists d. right. split; [congruence|done].
    + intros [H|[d [[<- <-]|[Hne Hd]]]]; [|by left|]; right; (split; [|eauto]).
      * intros <-. assert (is_Some (files k !! j)) as [x Hx] by (apply F; by left). congruence.
      * intros <-. by destruct (Hacc d).
  - intros d i. rewrite lookup_insert_Some. intros [[<- <-]|[_ H]]; [|by eapply N].
    destruct (files k0 !! j) eqn:E; [|done]. assert (is_Some (files k !! j)) as [x Hx] by (apply F; left; eauto). congruence.
  - intros d d' i. rewrite !lookup_insert_Some. intros [[<- <-]|[Hd H]] [[<- E]|[Hd' H']]; try done.
    + by destruct (Hacc d').
    + subst i. by destruct (Hacc d).
    + by eapply I.
Qed.

Lemma clone_fds_copying k0 l : forall acc k m k1,
  clone_fds l acc k = inr (m, k1) -> NoDup l.*1 -> (forall fd, fd ∈ l.*1 -> acc !! fd = None) ->
  copying k0 acc k -> copying k0 m k1.
Proof.
  induction l as [|[fd i] l IH]; intros acc k m k1 E Hnd Hacc Hc; cbn [clone_fds] in E; [by simplify_eq|].
  cbn [fmap list_fmap fst] in Hnd, Hacc. apply NoDup_cons in Hnd as [Hn Hnd].
  destruct (files k !! i) as [f|]; [|eapply IH; [exact E|done|intros d Hd; apply Hacc; by right|done]].
  destruct (fd_clone f k) as [e|h]; [done|].
  pose proof (copying_step k0 acc k fd (set_cloexec (cloexec f) h) Hc (Hacc fd ltac:(by left))) as Hc'.
  destruct (new_file _ k) as [j k'] eqn:En. cbn [fst snd] in Hc'. eapply IH; [exact E|done| |exact Hc'].
  intros d Hd. rewrite lookup_insert_ne; [|by intros ->]. apply Hacc. by right.
Qed.

Lemma entries_NoDup m : NoDup (entries m).*1.
Proof.
  assert ((entries m).*1 = hash_order (dom m)) as ->.
  { unfold entries. assert (forall l, (forall x, x ∈ l -> x ∈ dom m) ->
      (omap (fun fd => (fun i => (fd, i)) <$> m !! fd) l).*1 = l) as H.
    { induction l as [|x l IH]; intros Hl; [done|]. cbn [omap list_omap].
      destruct (m !! x) eqn:E; cbn.
      - f_equal. apply IH. intros y Hy. apply Hl. by right.
      - exfalso. apply (not_elem_of_dom m x) in E. apply E, Hl. by left. }
    apply H. intros x. rewrite hash_order_perm. by rewrite elem_of_elements. }
  rewrite hash_order_perm. apply NoDup_elements.
Qed.

Lemma fd_ok_fork ps ps' k k1 :
  fd_ok k -> shared k !! ps' = None -> fork_fds ps ps' k = inr k1 -> fd_ok k1.
Proof.
  intros Hok Hps'. unfold fork_fds. destruct (clone_fds _ _ _) as [e|[m k2]] eqn:E; [done|]. intros [= <-].
  assert (copying k m k2) as [F N I S T].
  { eapply clone_fds_copying; [exact E|apply entries_NoDup|by intros; apply lookup_empty|].
    constructor; [|by intros ??; rewrite lookup_empty|by intros ???; rewrite lookup_empty|done|done].
    intros i. setoid_rewrite lookup_empty. naive_solver. }
  assert (table k ps' = ∅) as Ht' by (unfold table; by rewrite Hps').
  set (s' := set_fds m _).
  assert (forall q, table (set_shared (<[ps' := s']> (shared k2)) k2) q = if decide (q = ps') then m else table k q) as HT.
  { intros q. unfold table. cbn [shared set_shared]. destruct (decide (q = ps')) as [->|Hne].
    - by rewrite lookup_insert_eq.
    - by rewrite lookup_insert_ne, S by done. }
  apply (fd_ok_extend k _ (fun q d i => q = ps' /\ m !! d = Some i) Hok).
  - intros q d i. unfold refers. rewrite HT. destruct (decide (q = ps')) as [->|Hne]; [|naive_solver].
    rewrite Ht', lookup_empty. naive_solver.
  - intros i. cbn [files set_shared]. rewrite F. naive_solver.
  - intros q d i [_ H]. by eapply N.
  - intros q d q' d' i [-> H] [-> H']. split; [done|by eapply I].
  - intros p t Ht. cbn [tasks shared set_shared] in *. rewrite T in Ht. rewrite S, lookup_insert_is_Some'. right.
    by apply (fo_tasks _ Hok p).
Qed.

(** What the tasks can do to the descriptor tables, in any interleaving. *)
Inductive fd_step : Kernel -> Kernel -> Prop :=
| ds_open k self t h : tasks k !! self = Some t -> room k (t_ps t) -> fd_step k (fds_emplace (t_ps t) h 0 k).2
| ds_dup k self t fd : tasks k !! self = Some t -> room k (t_ps t) -> fd_step k (dup_kernel fd self k).2
| ds_dup3 k self t fd fd' fl : tasks k !! self = Some t -> fd_step k (dup3_kernel fd fd' fl self k).2
| ds_dupfd k self t h min_fd c : tasks k !! self = Some t ->
    min_fd + Z.of_nat (size (table k (t_ps t))) + 1 < 2 ^ 31 -> fd_step k (dupfd_kernel h min_fd c self k).2
| ds_pipe k self t p0 p1 fl : tasks k !! self = Some t -> room k (t_ps t) -> fd_step k (pipe_kernel p0 p1 fl self k).2
| ds_close k self t fd : tasks k !! self = Some t -> fd_step k (close_kernel fd self k).2
| ds_change k i f : fd_step k (upd_file i f k)
| ds_fork k ps ps' k1 : shared k !! ps' = None -> fork_fds ps ps' k = inr k1 -> fd_step k k1
| ds_exec k self t : tasks k !! self = Some t -> fd_step k (exec_fds (t_ps t) self k)
| ds_exit k self t : tasks k !! self = Some t -> fd_step k (close_all (t_ps t) self k)
| ds_signal k k' : krel k k' -> fd_step k k'
| ds_tasks k ts : (forall p t, ts !! p = Some t -> is_Some (shared k !! t_ps t)) -> fd_step k (set_tasks ts k).

Lemma fd_ok_step k k' : fd_step k k' -> fd_ok k -> fd_ok k'.
Proof.
  intros Hst Hok. destruct Hst as [k self t h Ht Hr|k self t fd Ht Hr|k self t fd fd' fl Ht|k self t h m c Ht Hr|
    k self t p0 p1 fl Ht Hr|k self t fd Ht|k i f|k ps ps' k1 Hps E|k self t Ht|k self t Ht|k k' Hr|k ts Hts].
  - unfold room in Hr. apply fd_ok_emplace; [done|by apply (fo_tasks _ Hok self)|lia|lia].
  - by eapply fd_ok_dup.
  - by eapply fd_ok_dup3.
  - by eapply fd_ok_dupfd.
  - by eapply fd_ok_pipe.
  - by eapply fd_ok_close_kernel.
  - apply (fd_ok_same k _ Hok); [done| |by apply (fo_tasks _ Hok)].
    intros j. cbn [files upd_file set_files]. by rewrite lookup_alter_is_Some.
  - by eapply fd_ok_fork.
  - apply fd_ok_exec; [by apply (fo_tasks _ Hok self)|done].
  - apply fd_ok_close_all; [by apply (fo_tasks _ Hok self)|done].
  - by eapply fd_ok_krel.
  - by apply (fd_ok_same k _ Hok).
Qed.

(** C18: in every state reached by opening, duplicating and closing descriptors,
    fork, exec, exit and signals, in any interleaving of the tasks, every
    descriptor of every process has a live object of its own: no object is
    shared by two descriptors, none outlives its descriptor, and so closing one
    descriptor leaves every other one, of any process, as it was. *)
Theorem fd_table_invariant k k' (Hok : fd_ok k) (Hsteps : rtc fd_step k k') :
  (forall ps fd, is_Some (table k' ps !! fd) -> is_Some (find_fd k' ps fd)) /\
  (forall ps fd ps' fd' i f f', find_fd k' ps fd = Some (i, f) -> find_fd k' ps' fd' = Some (i, f') -> ps = ps' /\ fd = fd') /\
  (forall i, is_Some (files k' !! i) -> exists ps fd f, find_fd k' ps fd = Some (i, f)) /\
  (forall self t fd ps' fd', tasks k' !! self = Some t -> (ps', fd') <> (t_ps t, fd) ->
     find_fd (close_kernel fd self k').2 ps' fd' = find_fd k' ps' fd').
Proof.
  assert (fd_ok k') as Hok'.
  { induction Hsteps as [k|k k1 k' Hst _ IH]; [done|]. apply IH. by eapply fd_ok_step. }
  pose proof Hok' as [L I U Ht].
  assert (forall ps fd i, refers k' ps fd i -> exists f, find_fd k' ps fd = Some (i, f)) as Hfind.
  { intros ps fd i H. destruct (L _ _ _ H) as [f Hf]. exists f. unfold find_fd. unfold refers in H. rewrite H. cbn. by rewrite Hf. }
  assert (forall ps fd i f, find_fd k' ps fd = Some (i, f) -> refers k' ps fd i) as Hback.
  { intros ps fd i f. unfold find_fd, refers. destruct (table k' ps !! fd) as [j|]; [|done]. cbn.
    destruct (files k' !! j); [|done]. cbn. by intros [= -> _]. }
  split_and!.
  - intros ps fd [i Hi]. destruct (Hfind ps fd i Hi) as [f Hf]. eauto.
  - intros ps fd ps' fd' i f f' H1%Hback H2%Hback. by eapply I.
  - intros i (ps & fd & H)%U. destruct (Hfind _ _ _ H) as [f Hf]. eauto.
  - intros self t fd ps' fd' Hself Hne. unfold close_kernel, own_ps. rewrite Hself. cbn [from_option].
    destruct (find_fd k' (t_ps t) fd) as [[i f]|] eqn:E; [|done]. cbn [snd]. apply Hback in E.
    pose proof (krel_on_close self i k') as Hr. unfold find_fd. rewrite table_drop.
    rewrite table_fds_mutate by (rewrite (kr_shared _ _ Hr); by apply (Ht self)).
    rewrite !(krel_table k' (on_close self i k')) by done. cbn [files drop_file set_files fds_mutate set_shared]. rewrite (kr_files _ _ Hr).
    assert ((if decide (ps' = t_ps t) then delete fd (table k' (t_ps t)) else table k' ps') !! fd' = table k' ps' !! fd') as ->.
    { destruct (decide _) as [->|?]; [|done]. rewrite lookup_delete_ne; [done|]. congruence. }
    destruct (table k' ps' !! fd') as [j|] eqn:Ej; [|done]. cbn. rewrite lookup_delete_ne; [done|].
    intros <-. destruct (I _ _ _ _ _ E Ej) as [<- <-]. by destruct Hne.
Qed.

(** [fds_emplace] returns the least number from [min_fd] up that the process
    does not use, in at most as many steps as the table has entries, never
    negative and below the limit of [int]; exactly that entry is added, for an
    object of its own, and no other table changes. *)
Theorem fds_emplace_lowest ps handle min_fd k
  (Hps : is_Some (shared k !! ps)) (Hmin : 0 <= min_fd) (Hroom : min_fd + Z.of_nat (size (table k ps)) + 1 < 2 ^ 31) :
  let '(fd, k') := fds_emplace ps handle min_fd k in
  min_fd <= fd <= min_fd + Z.of_nat (size (table k ps)) /\ table k ps !! fd = None /\
  (forall j, min_fd <= j < fd -> is_Some (table k ps !! j)) /\
  (exists i, files k !! i = None /\ find_fd k' ps fd = Some (i, handle)) /\
  (forall j, j <> fd -> table k' ps !! j = table k ps !! j) /\
  (forall q, q <> ps -> table k' q = table k q) /\
  (forall i f, files k !! i = Some f -> files k' !! i = Some f).
Proof.
  unfold fds_emplace, new_file. destruct (free_from_spec (table k ps) min_fd Hmin Hroom) as (B & D & F). cbn zeta in *.
  set (fd := free_from _ _) in *. set (i0 := fresh (dom (files k))).
  assert (files k !! i0 = None) as Hi0 by (apply not_elem_of_dom, is_fresh).
  set (k1 := set_files (<[i0 := handle]> (files k)) k).
  assert (forall q, table (fds_mutate ps (insert fd i0) k1) q =
    if decide (q = ps) then <[fd := i0]> (table k ps) else table k q) as HT.
  { intros q. by rewrite (table_fds_mutate ps _ k1 q). }
  split_and!; try done; try lia.
  - exists i0. split; [done|]. unfold find_fd. rewrite HT, decide_True by done. rewrite lookup_insert_eq. cbn.
    by rewrite lookup_insert_eq.
  - intros j Hj. rewrite HT, decide_True by done. by rewrite lookup_insert_ne.
  - intros q Hq. by rewrite HT, decide_False.
  - intros i f Hf. cbn [files fds_mutate set_shared k1 set_files]. rewrite lookup_insert_ne; [done|]. congruence.
Qed.

End Facts.

(** ** Runs *)

(** A host whose [dup] returns 100 more and whose pipes are 7 and 8. *)
Definition demo_fds : HostFds := {|
  host_dup := fun _ fd => fd + 100;
  host_pipe2 := fun _ _ => inr (7, 8);
  host_fcntl := fun _ _ _ _ => 0;
  host_flags := x86_flags
|}.

Lemma demo_fd_ok : fd_ok demo_kernel.
Proof.
  assert (forall ps, table demo_kernel ps = ∅) as HT.
  { intros ps. unfold table, demo_kernel. cbn [shared]. rewrite lookup_insert. destruct (decide _); [done|].
    destruct (decide (2 = ps)) as [<-|?]; [by rewrite lookup_singleton_eq|by rewrite lookup_singleton_ne]. }
  constructor.
  - intros ps fd i. unfold refers. by rewrite HT, lookup_empty.
  - intros ps fd ps' fd' i. unfold refers. by rewrite HT, lookup_empty.
  - intros i. cbn [files demo_kernel]. rewrite lookup_empty. by intros [].
  - intros p t Ht. cbn [tasks demo_kernel] in Ht.
    repeat (apply lookup_insert_Some in Ht as [[<- <-]|[_ Ht]]; [by eexists|]).
    apply lookup_singleton_Some in Ht as [<- <-]. by eexists.
Qed.

Definition plain_fd (h : Z) : Fd := mkfd h false EmptyString KHost.

(** Task 2 opens a file, duplicates it and closes the original. *)
Lemma fd_table_invariant_witness :
  let hf := demo_fds in
  let k2 := (dup_kernel 0 2 (fds_emplace 2 (plain_fd 5) 0 demo_kernel).2).2 in
  exists i, find_fd (close_kernel 0 2 k2).2 2 1 = Some (i, plain_fd 105).
Proof.
  intros hf k2. set (t2 := demo_task 2 1).
  assert (rtc fd_step demo_kernel k2) as Hr.
  { eapply rtc_l; [apply (ds_open demo_kernel 2 t2 (plain_fd 5)); [reflexivity|vm_compute; reflexivity]|].
    apply rtc_once. apply (ds_dup _ 2 t2); [reflexivity|vm_compute; reflexivity]. }
  destruct (fd_table_invariant demo_kernel k2 demo_fd_ok Hr) as (_ & _ & _ & H).
  assert (exists i, find_fd k2 2 1 = Some (i, plain_fd 105)) as [i Hi] by (eexists; vm_compute; reflexivity).
  exists i. etransitivity; [apply (H 2 t2 0 2 1)|exact Hi]; [reflexivity|discriminate].
Defined.

Lemma fds_emplace_lowest_witness :
  let k1 := (fds_emplace 2 (plain_fd 5) 0 demo_kernel).2 in
  is_Some (table k1 2 !! 0) /\ 0 <= (fds_emplace 2 (plain_fd 6) 0 k1).1 <= 1.
Proof.
  intros k1. split; [vm_compute; eauto|].
  pose proof (fds_emplace_lowest 2 (plain_fd 6) 0 k1) as H.
  assert (is_Some (shared k1 !! 2)) as Hps by (vm_compute; eauto). specialize (H Hps ltac:(lia) ltac:(vm_compute; reflexivity)).
  destruct (fds_emplace 2 (plain_fd 6) 0 k1) as [fd k'] eqn:E. destruct H as [H _]. exact H.
Defined.

(** A process that exits with two descriptors of the master side: each is found
    in use by the other, and the foreground group of the terminal is not hung
    up.  Closing them one by one does it. *)
Definition master_fd (h : Z) : Fd := mkfd h false EmptyString (KDev (Some 0) (Some 9)).
Definition master_kernel : Kernel :=
  set_sessions {[1 := mksession 1 (Some 0)]} (set_ttys {[0 := mktty 1 (Some 1) 0]}
    (fds_emplace 2 (master_fd 6) 0 (fds_emplace 2 (master_fd 5) 0 demo_kernel).2).2).

Lemma exit_two_masters_no_hangup :
  let hf := demo_fds in
  let k := close_all 2 2 master_kernel in
  let k' := (close_kernel 1 2 (close_kernel 0 2 master_kernel).2).2 in
  table k 2 = ∅ /\ files k = ∅ /\ pending_signals <$> tasks k !! 1 = Some [] /\
  table k' 2 = ∅ /\ files k' = ∅ /\ (length ∘ pending_signals) <$> tasks k' !! 1 = Some 1%nat.
Proof. vm_compute. split_and!; reflexivity. Qed.

(** [dup] of a virtual file keeps its close-on-exec flag, which a duplicate must
    not have, and starts at 0 where a duplicate shares the position; of a
    signalfd it makes a new, empty pipe. *)
Lemma dup_keeps_cloexec :
  fd_clone (hf := demo_fds) (mkfd (-1) true "/proc/1/comm"%string (KProc "init"%string 3)) demo_kernel =
  inr (mkfd (-1) true "/proc/1/comm"%string (KProc "init"%string 0)).
Proof. done. Qed.

Lemma dup_splits_signalfd e :
  fd_clone (hf := demo_fds) (mkfd 3 false EmptyString (KSignal 1 [e])) demo_kernel = inr (mkfd 7 false EmptyString (KSignal 1 [])).
Proof. done. Qed.

(** With the largest number in use, F_DUPFD from it overflows the counter. *)
Lemma dupfd_overflow : free_from {[2 ^ 31 - 1 := 0]} (2 ^ 31 - 1) = - 2 ^ 31.
Proof. by vm_compute. Qed.

(** A stop signal the task blocks stops it all the same when its action is the
    default one: [queue_signal] does not look at the mask. *)
Lemma blocked_stop_stops :
  let k := upd_task 2 (set_sigmask (sig_bit SIGTSTP)) demo_kernel in
  stopped <$> tgs (send 2 (mkev SIGTSTP 1 0 0 0) k) !! 2 = Some true.
Proof. by vm_compute. Qed.
