(* ===== verification/Process.v ===== *)
(** * Process: creation, exit and reaping of tasks

    The life of a task in process.cpp and posix_syscall.cpp: the part of
    [do_clone] that builds and registers the child ([Fork.do_clone] is the part
    that builds its machine), [fini], [do_wait_common] with [do_wait4] and
    [do_waitid], the identity calls, the thread pointer and [do_prctl], and the
    parsing of script headers for exec.  A task is an entry of [tasks] as long
    as something holds its [vm]: the task table ([pid_map]) or its host thread
    ([t_host]).

    Main results: the tree of processes is well formed in every reachable
    state, what one [wait] claims, what the status word says, and what a script
    header is split into. *)

From S2P Require Import Prelude HostMem AddrSpace Isa Vm Interp Kernel Signals SigCalls Futex FdTable.
From Stdlib Require Import Lia.
From stdpp Require Import base numbers list gmap strings option fin_maps fin_sets relations.

Open Scope Z_scope.
Open Scope vm_scope.

Definition ECHILD : Z := 10.

Definition WNOHANG : Z := 1.
Definition WUNTRACED : Z := 2.
Definition WEXITED : Z := 4.
Definition WNOWAIT : Z := 0x1000000.

Definition P_ALL : Z := 0.
Definition P_PID : Z := 1.
Definition P_PGID : Z := 2.

Definition PR_SET_NAME : Z := 15.
Definition PR_GET_NAME : Z := 16.

(** ** Creation *)

(** The [ThreadGroup] constructor, with the parent of a fork. *)
Definition new_group (n parent : Z) : ThreadGroup := mktg n parent 1 false (-1) false (-1) false [] [].

Definition set_threads x (g : ThreadGroup) : ThreadGroup :=
  mktg (tgid g) (ppid g) (live_threads g) (exited g) (exit_code g) (stopped g) (stop_sig g) (stop_reported g) (waiters g) x.
Definition set_host_thread b (t : Task) : Task :=
  mktask (t_flags t) (sigmask t) (pending_signals t) b (tid_address_ t) (t_tg t) (t_ps t) (t_pgrp t) (t_session t) (comm_ t).

(** The last [shared_ptr] of a task's [vm] goes away. *)
Definition release (p : Z) (k : Kernel) : Kernel :=
  match tasks k !! p with
  | Some t => if t_host t || bool_decide (p ∈ pid_map k) then k else set_tasks (delete p (tasks k)) k
  | None => k
  end.

Section Life.
Context {ord : HashOrder} {env : HostEnv} {hf : HostFds}.

(** The child's [PosixSyscall]: its group and shared state are the creator's or
    new ones under its own id. *)
Definition child_task (is_thread : bool) (clear_tid : option Z) (n : Z) (t : Task) : Task :=
  mktask VM_STOPPED (sigmask t) [] false (default 0 clear_tid) (if is_thread then t_tg t else n)
    (if is_thread then t_ps t else n) (t_pgrp t) (t_session t) (comm_ t).

(** [do_clone]: [n] is [next_pid], [rc] the result of starting the host thread,
    which sets [tid] in [init].  The result, the next [next_pid] and the kernel. *)
Definition clone_kernel (is_thread : bool) (clear_tid : option Z) (rc n self : Z) (k : Kernel) : Z * Z * Kernel :=
  match tasks k !! self with
  | None => (- ESRCH, n, k)
  | Some t =>
    match (if is_thread then inr k else fork_fds (t_ps t) n k) with
    | inl e => (e, n, k)
    | inr k1 =>
      if negb (rc =? 0) then (- rc, n + 1, k)
      else
        let g := if is_thread then t_tg t else n in
        let child := child_task is_thread clear_tid n t in
        let k2 := if is_thread then upd_tg g (fun tg => set_live (live_threads tg + 1) tg) k1
                  else set_tgs (<[n := new_group n (from_option tgid 0 (group_of k t))]> (tgs k1)) k1 in
        let k3 := set_tasks (<[n := child]> (tasks k2)) k2 in
        let k4 := upd_tg g (fun tg => set_threads (threads tg ++ [n]) tg) k3 in
        let k5 := set_pid_map ({[n]} ∪ pid_map k4) k4 in
        (n, n + 1, task_wakeup n false (task_clear_flags n VM_STOPPED k5))
    end
  end.

(** [init] of the host thread; the first task registers itself and gets its
    descriptors 0, 1 and 2: duplicates of the terminal side of [pty] (with the
    pty's number), or of the host's own. *)
Definition seed_fd (ps fd h : Z) (kind : FdKind) (k : Kernel) : Kernel :=
  match table k ps !! fd with
  | Some _ => k
  | None =>
    let d := host_dup k h in
    let '(i, k1) := new_file (mkfd (if d <? 0 then -1 else d) false EmptyString kind) k in
    fds_mutate ps (insert fd i) k1
  end.

Definition init_kernel (pty : option (Z * Z)) (self : Z) (k : Kernel) : Kernel :=
  let k1 := upd_task self (set_host_thread true) k in
  match tasks k1 !! self with
  | Some t =>
    if negb (self =? 1) then k1
    else
      let k2 := upd_tg (t_tg t) (fun tg => set_threads (threads tg ++ [self]) tg) k1 in
      let k3 := set_pid_map ({[self]} ∪ pid_map k2) k2 in
      match pty with
      | Some (slave, n) =>
        let i := fresh (dom (ttys k3)) in
        let k4 := set_ttys (<[i := mktty (pgid (t_pgrp t)) (Some (t_session t)) (-1)]> (ttys k3)) k3 in
        let k5 := set_sessions (alter (fun s => mksession (sid s) (Some i)) (t_session t) (sessions k4)) k4 in
        foldl (fun k fd => seed_fd (t_ps t) fd slave (KDev (Some i) None) k) (dev_ptmx_register n i k5) [0; 1; 2]
      | None => foldl (fun k fd => seed_fd (t_ps t) fd fd KHost k) k3 [0; 1; 2]
      end
  | None => k1
  end.

(** ** Exit *)

(** The orphans of group [g] go to init; the group of every registered task is
    looked at. *)
Definition reparent_one (tg_id : Z) (k : Kernel) (pt : Z * Task) : Kernel :=
  if from_option ppid 0 (group_of k pt.2) =? tg_id then upd_tg (t_tg pt.2) (set_ppid 1) k else k.

Definition reparent (tg_id : Z) (k : Kernel) : Kernel := foldl (reparent_one tg_id) k (pid_tasks k).

(** [fini] after clear-child-tid. *)
Definition fini_kernel (self : Z) (k : Kernel) : Kernel :=
  match tasks k !! self with
  | None => k
  | Some t =>
    let g := t_tg t in
    let last := from_option live_threads 0 (tgs k !! g) =? 1 in
    let tg_id := from_option tgid 0 (tgs k !! g) in
    let k1 := upd_tg g (fun tg => set_live (live_threads tg - 1) tg) k in
    let k2 := if self =? tg_id then k1 else set_pid_map (pid_map k1 ∖ {[self]}) k1 in
    if negb last then wake_waiters g k2
    else
      let k3 := close_all (t_ps t) self k2 in
      if self =? 1 then set_pid_map (pid_map k3 ∖ {[self]}) k3
      else
        let k4 := upd_tg g (fun tg => set_exited true (cas_exit_code (128 + 9) tg)) k3 in
        reparent tg_id (notify_parent_sigchld send self g k4)
  end.

(** [fini]: the guest's word is cleared under the futex lock, and the task's
    reference to the segment table is dropped, the last one ([sole]) with the
    segments. *)
Definition fini (sole : bool) : M World unit :=
  tid <- kget (fun self k => from_option tid_address_ 0 (tasks k !! self)) ;;
  (if tid =? 0 then ret tt
   else
     p <- mmu_wM tid 4 ;;
     match p with
     | None => ret tt
     | Some p => storeM p 4 0 ;; kmod (fun self k => futex_child_tid_clear (t_group self k) tid k)
     end) ;;
  modify (set_signal_depth 0) ;;
  kmod fini_kernel ;;
  modify (fun v => set_mm (mkmmem (tlb (mm v)) []
    (if sole then fold_left destroy_map (maps (mm v)) (hst (mm v)) else hst (mm v))) v).

(** The host thread ends. *)
Definition thread_end (self : Z) (k : Kernel) : Kernel := release self (upd_task self (set_host_thread false) k).

(** ** Waiting *)

(** [match_child] on a registered task. *)
Definition match_child (own_tgid idtype id : Z) (k : Kernel) (pt : Z * Task) : bool :=
  match group_of k pt.2 with
  | None => false
  | Some g =>
    (ppid g =? own_tgid) && (pt.1 =? tgid g) &&
    (if idtype =? P_ALL then true
     else if idtype =? P_PID then pt.1 =? u64 id
     else if idtype =? P_PGID then pgid (t_pgrp pt.2) =? u64 id
     else false)
  end.

Definition child_has_event (k : Kernel) (pt : Z * Task) : bool :=
  match group_of k pt.2 with
  | None => false
  | Some g => exited g || (stopped g && stop_reported g)
  end.

(** [struct wait_event] and the result of [claim_one]. *)
Inductive wait_event :=
| WExited (child code : Z)
| WStopped (child sig : Z).

Inductive claim_result :=
| Claimed (e : wait_event)
| NoEvent
| NoChild.

(** The effect of one claim. *)
Definition claim_at (wnowait : bool) (k : Kernel) (pt : Z * Task) : option (wait_event * Kernel) :=
  match group_of k pt.2 with
  | None => None
  | Some g =>
    if exited g then
      Some (WExited pt.1 (u64 (exit_code g)),
            if wnowait then k else release pt.1 (set_pid_map (pid_map k ∖ {[pt.1]}) k))
    else if stopped g && stop_reported g then
      Some (WStopped pt.1 (stop_sig g),
            if wnowait then k else upd_tg (t_tg pt.2) (set_reported false) k)
    else None
  end.

Fixpoint claim_loop (own_tgid idtype id : Z) (wnowait any_match : bool) (l : list (Z * Task)) (k : Kernel) : claim_result * Kernel :=
  match l with
  | [] => (if any_match then NoEvent else NoChild, k)
  | pt :: r =>
    if match_child own_tgid idtype id k pt then
      match claim_at wnowait k pt with
      | Some (e, k') => (Claimed e, k')
      | None => claim_loop own_tgid idtype id wnowait true r k
      end
    else claim_loop own_tgid idtype id wnowait any_match r k
  end.

Definition own_tgid (self : Z) (k : Kernel) : Z := from_option tgid 0 (t ← tasks k !! self; group_of k t).

Definition claim_one (idtype id woptions self : Z) (k : Kernel) : claim_result * Kernel :=
  claim_loop (own_tgid self k) idtype id (nz (Z.land woptions WNOWAIT)) false (pid_tasks k) k.

(** The matching tasks, and the registration with every candidate that has no event; [true] if one has. *)
Definition wait_kids (idtype id self : Z) (k : Kernel) : list (Z * Task) :=
  filter (fun pt => match_child (own_tgid self k) idtype id k pt = true) (pid_tasks k).

Definition wait_register (kids : list (Z * Task)) (self : Z) (k : Kernel) : bool * Kernel :=
  foldl (fun '(ev, k) pt =>
    if child_has_event k pt then (true, k)
    else (ev, upd_tg (t_tg pt.2) (fun tg => set_waiters (waiters tg ++ [self]) tg) k)) (false, k) kids.

Definition wait_unregister (kids : list (Z * Task)) (self : Z) (k : Kernel) : Kernel :=
  foldl (fun k pt => remove_waiter (t_tg (snd pt)) self k) k kids.

Definition STOP_WAIT : Z := Z.lor (Z.lor VM_KILLED VM_STOPPED) (Z.lor VM_SIGNAL_PENDING VM_DEBUG_STOP).

Fixpoint wait_loop (n : nat) (idtype id woptions : Z) : M World (Z + option wait_event) :=
  f <- get_flags ;;
  if has f STOP_WAIT then ret (inl SYSCALL_RESTART)
  else
    c <- kernel_op (claim_one idtype id woptions) ;;
    match c with
    | Claimed e => ret (inr (Some e))
    | NoChild => ret (inl (- ECHILD))
    | NoEvent =>
      kids <- kget (wait_kids idtype id) ;;
      set_flags VM_BLOCKED ;;
      has_event <- kernel_op (wait_register kids) ;;
      match n with
      | O => waitM
      | Datatypes.S n' =>
        (if has_event : bool then ret 0 else wait_forK None) ;;
        clear_flags VM_BLOCKED ;;
        kmod (wait_unregister kids) ;;
        wait_loop n' idtype id woptions
      end
    end.

(** [do_wait_common]: [inl] is a result other than 0, [inr] the event if any. *)
Definition do_wait_common (idtype id woptions : Z) : M World (Z + option wait_event) :=
  c <- kernel_op (claim_one idtype id woptions) ;;
  match c with
  | Claimed e => ret (inr (Some e))
  | NoChild => ret (inl (- ECHILD))
  | NoEvent =>
    if nz (Z.land woptions WNOHANG) then ret (inr None)
    else n <- gets (fun v => length (w_obs (sys v))) ;; wait_loop n idtype id woptions
  end.

Definition wait4_exit_status (code : Z) : Z :=
  if 128 <=? code then Z.land (s32 (code - 128)) 0x7f else Z.shiftl (Z.land (s32 code) 0xff) 8.

Definition wait_status (e : wait_event) : Z :=
  match e with
  | WExited _ code => wait4_exit_status code
  | WStopped _ sig => Z.lor (Z.shiftl (Z.land sig 0xff) 8) 0x7f
  end.

Definition event_child (e : wait_event) : Z := match e with WExited p _ | WStopped p _ => p end.

Definition do_wait4 : M World Z :=
  a1 <- Vm.r 1 ;; status_addr <- Vm.r 2 ;; a3 <- Vm.r 3 ;;
  let target_pid := arg_s32 a1 in
  let woptions := arg_s32 a3 in
  self <- kget (fun self _ => self) ;;
  if nz (andnot woptions (Z.lor WNOHANG WUNTRACED)) then ret (- EINVAL)
  else if target_pid =? self then ret (- EINVAL)
  else
    status <- (if status_addr =? 0 then ret (Some None)
               else p <- mmu_wM status_addr 4 ;; ret (match p with Some p => Some (Some p) | None => None end)) ;;
    match status with
    | None => ret (- EFAULT)
    | Some status_ptr =>
      own <- kget (fun self k => from_option (fun t => pgid (t_pgrp t)) 0 (tasks k !! self)) ;;
      let '(idtype, id) :=
        if 0 <? target_pid then (P_PID, target_pid)
        else if target_pid =? -1 then (P_ALL, 0)
        else if target_pid =? 0 then (P_PGID, own)
        else (P_PGID, - target_pid) in
      rc <- do_wait_common idtype id woptions ;;
      match rc with
      | inl e => ret e
      | inr None => ret 0
      | inr (Some e) =>
        (match status_ptr with Some p => storeM p 4 (u32 (wait_status e)) | None => ret tt end) ;;
        ret (event_child e)
      end
    end.

(** The siginfo fields [do_waitid] reports. *)
Definition waitid_code (e : wait_event) : Z :=
  match e with
  | WExited _ code => if 128 <=? code then CLD_KILLED else CLD_EXITED
  | WStopped _ _ => CLD_STOPPED
  end.
Definition waitid_status (e : wait_event) : Z :=
  match e with
  | WExited _ code => if 128 <=? code then s32 (code - 128) else s32 code
  | WStopped _ sig => sig
  end.

Definition do_waitid : M World Z :=
  a1 <- Vm.r 1 ;; a2 <- Vm.r 2 ;; info_addr <- Vm.r 3 ;; a4 <- Vm.r 4 ;;
  let idtype := arg_s32 a1 in
  let id := s64 a2 in
  let woptions := arg_s32 a4 in
  if (idtype <? 0) || (2 <? idtype) then ret (- EINVAL)
  else if nz (andnot woptions (Z.lor (Z.lor WNOHANG WUNTRACED) (Z.lor WEXITED WNOWAIT)))
          || negb (nz (Z.land woptions (Z.lor WEXITED WUNTRACED))) then ret (- EINVAL)
  else if negb (idtype =? P_ALL) && (id <? 0) then ret (- EINVAL)
  else
    own <- kget (fun self k => from_option (fun t => pgid (t_pgrp t)) 0 (tasks k !! self)) ;;
    let id := if (idtype =? P_PGID) && (id =? 0) then own else id in
    rc <- do_wait_common idtype id (Z.land woptions (Z.lor (Z.lor WNOHANG WUNTRACED) WNOWAIT)) ;;
    match rc with
    | inl e => ret e
    | inr None => ret 0
    | inr (Some e) =>
      if info_addr =? 0 then ret 0
      else
        p <- mmu_wM info_addr 28 ;;
        match p with
        | None => ret (- EFAULT)
        | Some p =>
          storeM p 4 SIGCHLD ;; storeM (padd p 4) 4 0 ;; storeM (padd p 8) 4 (u32 (waitid_code e)) ;;
          storeM (padd p 16) 4 (u32 (event_child e)) ;; storeM (padd p 20) 4 0 ;;
          storeM (padd p 24) 4 (u32 (waitid_status e)) ;; ret 0
        end
    end.

(** ** Identity, thread pointer, name *)

Definition do_getpid : M World Z := kget own_tgid.
Definition do_getppid : M World Z := kget (fun self k => from_option ppid 0 (t ← tasks k !! self; group_of k t)).
Definition do_gettid : M World Z := kget (fun self _ => self).
Definition do_getuid : M World Z := ret 0.
Definition do_geteuid : M World Z := ret 0.
Definition do_getgid : M World Z := ret 0.
Definition do_getegid : M World Z := ret 0.
Definition do_getgroups : M World Z := a1 <- Vm.r 1 ;; ret (if arg_s32 a1 <? 0 then - EINVAL else 0).
Definition do_sched_yield : M World Z := ret 0.

Definition do_set_tid_address : M World Z :=
  a1 <- Vm.r 1 ;; kernel_op (fun self k => (self, upd_task self (set_tid_addr a1) k)).

Definition do_set_tls : M World Z := a1 <- Vm.r 1 ;; modify (set_tp a1) ;; ret 0.
Definition do_get_tls : M World Z := gets (fun v => s64 (tp_ v)).

(** A C string in a buffer, and the first [n] bytes of one. *)
Fixpoint c_string (l : list Z) : string :=
  match l with
  | [] => EmptyString
  | b :: r => if b =? 0 then EmptyString else String (Ascii.ascii_of_N (Z.to_N b)) (c_string r)
  end.
Definition string_bytes (s : string) : list Z :=
  (fun c => Z.of_N (Ascii.N_of_ascii c)) <$> String.list_ascii_of_string s.

Fixpoint load_bytes (p : hptr) (n : nat) : M World (list Z) :=
  match n with
  | O => ret []
  | Datatypes.S n' => b <- loadM p 1 ;; l <- load_bytes (padd p 1) n' ;; ret (b :: l)
  end.
Fixpoint store_bytes (p : hptr) (l : list Z) : M World unit :=
  match l with
  | [] => ret tt
  | b :: r => storeM p 1 b ;; store_bytes (padd p 1) r
  end.

Definition do_prctl : M World Z :=
  a1 <- Vm.r 1 ;; a2 <- Vm.r 2 ;;
  let option := arg_s32 a1 in
  if option =? PR_SET_NAME then
    p <- mmuM a2 16 ;;
    match p with
    | None => ret (- EFAULT)
    | Some p =>
      buf <- load_bytes p 16 ;;
      kmod (fun self => upd_task self (set_comm (c_string (take 15 buf)))) ;; ret 0
    end
  else if option =? PR_GET_NAME then
    p <- mmu_wM a2 16 ;;
    match p with
    | None => ret (- EFAULT)
    | Some p =>
      comm <- kget (fun self k => from_option comm_ EmptyString (tasks k !! self)) ;;
      store_bytes p (replicate 16 0) ;; store_bytes p (take 15 (string_bytes comm)) ;; ret 0
    end
  else ret (- EINVAL).

End Life.

(** ** Script headers *)

Definition is_blank (b : Z) : bool := (b =? 32) || (b =? 9).

(** The longest prefix of the buffer on which [f] holds, and the rest. *)
Fixpoint span (f : Z -> bool) (l : list Z) : list Z * list Z :=
  match l with
  | [] => ([], [])
  | b :: r => if f b then let '(x, y) := span f r in (b :: x, y) else ([], l)
  end.

(** [parse_shebang]: the interpreter and its argument. *)
Definition parse_shebang (buf : list Z) : option (list Z * list Z) :=
  match buf with
  | 35 :: 33 :: rest =>
    let '(_, l1) := span is_blank rest in
    let '(interp, l2) := span (fun b => negb (is_blank b)) l1 in
    if bool_decide (interp = []) then None
    else let '(_, arg) := span is_blank l2 in Some (interp, arg)
  | _ => None
  end.

(** ** The tree of processes

    What of the kernel the tree consists of. *)

Definition tg_view (g : ThreadGroup) : Z * Z * Z * bool := (tgid g, ppid g, live_threads g, exited g).

Record same_tree (k k' : Kernel) : Prop := {
  st_tasks : forall p, t_tg <$> tasks k' !! p = t_tg <$> tasks k !! p;
  st_pids : pid_map k' = pid_map k;
  st_tgs : forall i, tg_view <$> tgs k' !! i = tg_view <$> tgs k !! i
}.

#[export] Instance same_tree_preorder : PreOrder same_tree.
Proof.
  split; [by constructor|]. intros k1 k2 k3 [] []. constructor; intros; etrans; eauto.
Qed.

Lemma krel_same_tree k k' : krel k k' -> same_tree k k'.
Proof.
  intros Hr. constructor.
  - intros p. pose proof (kr_tasks _ _ Hr p) as H. destruct H as [t t' [? ? ? Htg ? ? ? ? ? ? ? ?]|]; [|done]. cbn. by rewrite Htg.
  - apply (kr_pids _ _ Hr).
  - intros i. pose proof (kr_tgs _ _ Hr i) as H. destruct H as [a b []|]; [|done]. cbn. unfold tg_view. congruence.
Qed.

Section Tree.
Context {ord : HashOrder} {env : HostEnv} {hf : HostFds}.

Lemma elem_of_pid_tasks k p t : (p, t) ∈ pid_tasks k <-> p ∈ pid_map k /\ tasks k !! p = Some t.
Proof.
  unfold pid_tasks. rewrite list_elem_of_omap. setoid_rewrite hash_order_perm. split.
  - intros (x & Hx & E). destruct (tasks k !! x) eqn:Ex; [|done]. cbn in E. simplify_eq. split; [by apply elem_of_elements|done].
  - intros [Hp Ht]. exists p. rewrite Ht. split; [by apply elem_of_elements|done].
Qed.

Lemma close_all_same_tree ps self k : same_tree k (close_all ps self k).
Proof.
  unfold close_all. etrans; [apply krel_same_tree, (krel_close_all self (entries (table k ps)))|].
  set (k1 := foldl _ k _). constructor.
  - intros p. by rewrite tasks_drop.
  - generalize (entries (table k ps)). intros l. change (pid_map k1) with (pid_map (fds_mutate ps (fun _ => ∅) k1)).
    generalize (fds_mutate ps (fun _ => ∅) k1). induction l as [|e l IH]; intros k0; cbn; [done|]. by rewrite IH.
  - intros i. generalize (entries (table k ps)). intros l. change (tgs k1) with (tgs (fds_mutate ps (fun _ => ∅) k1)).
    generalize (fds_mutate ps (fun _ => ∅) k1). induction l as [|e l IH]; intros k0; cbn; [done|]. by rewrite IH.
Qed.

Definition threads_of (i : Z) (run : gset Z) (k : Kernel) : gset Z :=
  filter (fun p => t_tg <$> tasks k !! p = Some i) run.

(** [n] is [next_pid], [run] the threads that have not finished. *)
Record tree_ok (n : Z) (run : gset Z) (k : Kernel) : Prop := {
  to_next : 1 < n;
  to_fresh : forall p, is_Some (tasks k !! p) -> 0 < p < n;
  to_groups : forall i, is_Some (tgs k !! i) -> i < n;
  to_reg : forall p, p ∈ pid_map k -> is_Some (tasks k !! p);
  to_run : forall p, p ∈ run -> p ∈ pid_map k;
  to_init : forall t, tasks k !! 1 = Some t -> t_tg t = 1;
  to_leader : forall p t, p ∈ pid_map k -> p ∉ run -> tasks k !! p = Some t -> t_tg t = p;
  to_group : forall p t, tasks k !! p = Some t -> is_Some (tgs k !! t_tg t);
  to_key : forall i g, tgs k !! i = Some g -> tgid g = i;
  to_live : forall i g, tgs k !! i = Some g -> live_threads g = Z.of_nat (size (threads_of i run k));
  to_exited : forall i g, tgs k !! i = Some g -> exited g = true -> live_threads g = 0;
  to_done : forall i g, tgs k !! i = Some g -> live_threads g = 0 -> i <> 1 -> exited g = true;
  to_parent : forall p t g, p ∈ pid_map k -> tasks k !! p = Some t -> tgs k !! t_tg t = Some g ->
    ppid g = 0 \/ ppid g = 1 \/ exists gp, tgs k !! ppid g = Some gp /\ exited gp = false
}.

Lemma st_task k k' p t' : same_tree k k' -> tasks k' !! p = Some t' -> exists t, tasks k !! p = Some t /\ t_tg t = t_tg t'.
Proof.
  intros Hs H. pose proof (st_tasks _ _ Hs p) as E. rewrite H in E. cbn in E.
  destruct (tasks k !! p) as [t|]; [|done]. cbn in E. exists t. split; [done|congruence].
Qed.

Lemma st_group k k' i g' : same_tree k k' -> tgs k' !! i = Some g' -> exists g, tgs k !! i = Some g /\ tg_view g = tg_view g'.
Proof.
  intros Hs H. pose proof (st_tgs _ _ Hs i) as E. rewrite H in E. cbn in E.
  destruct (tgs k !! i) as [g|]; [|done]. cbn in E. exists g. split; [done|congruence].
Qed.

Lemma st_sym k k' : same_tree k k' -> same_tree k' k.
Proof. intros []. constructor; intros; symmetry; auto. Qed.

Lemma threads_of_same k k' i run : same_tree k k' -> threads_of i run k' = threads_of i run k.
Proof.
  intros Hs. apply leibniz_equiv. intros p. unfold threads_of. rewrite !elem_of_filter. by rewrite (st_tasks _ _ Hs).
Qed.

Lemma tree_ok_same n run k k' : same_tree k k' -> tree_ok n run k -> tree_ok n run k'.
Proof.
  intros Hs [N1 F Gf R U In Ld G K L E D P]. pose proof (st_sym _ _ Hs) as Hs'.
  constructor; [done|..].
  - intros p [t' H]. destruct (st_task _ _ _ _ Hs H) as (t & Ht & _). apply F. eauto.
  - intros i [g' H]. destruct (st_group _ _ _ _ Hs H) as (g & Hg & _). apply Gf. eauto.
  - intros p Hp. rewrite (st_pids _ _ Hs) in Hp. destruct (R p Hp) as [t Ht].
    destruct (st_task _ _ _ _ Hs' Ht) as (t' & Ht' & _). eauto.
  - intros p Hp. rewrite (st_pids _ _ Hs). by apply U.
  - intros t' H. destruct (st_task _ _ _ _ Hs H) as (t & Ht & <-). by apply In.
  - intros p t' Hp Hn H. rewrite (st_pids _ _ Hs) in Hp. destruct (st_task _ _ _ _ Hs H) as (t & Ht & <-). by eapply Ld.
  - intros p t' H. destruct (st_task _ _ _ _ Hs H) as (t & Ht & <-). destruct (G p t Ht) as [g Hg].
    destruct (st_group _ _ _ _ Hs' Hg) as (g' & Hg' & _). eauto.
  - intros i g' H. destruct (st_group _ _ _ _ Hs H) as (g & Hg & [= <- _ _ _]). by eapply K.
  - intros i g' H. destruct (st_group _ _ _ _ Hs H) as (g & Hg & [= _ _ <- _]). rewrite (threads_of_same k) by done. by apply L.
  - intros i g' H. destruct (st_group _ _ _ _ Hs H) as (g & Hg & [= _ _ <- <-]). by eapply E.
  - intros i g' H. destruct (st_group _ _ _ _ Hs H) as (g & Hg & [= _ _ <- <-]). by eapply D.
  - intros p t' g' Hp H Hg'. rewrite (st_pids _ _ Hs) in Hp. destruct (st_task _ _ _ _ Hs H) as (t & Ht & Et).
    destruct (st_group _ _ _ _ Hs Hg') as (g & Hg & [= _ Ep _ _]). rewrite <- Et in Hg.
    destruct (P p t g Hp Ht Hg) as [H0|[H1|(gp & Hgp & Hx)]]; rewrite <- Ep; auto.
    right. right. destruct (st_group _ _ _ _ Hs' Hgp) as (gp' & Hgp' & [= _ _ _ Ex]). exists gp'. split; [done|congruence].
Qed.

Lemma threads_of_ge i run k p : p ∈ threads_of i run k -> (1 <= size (threads_of i run k))%nat.
Proof.
  intros Hp. destruct (decide (size (threads_of i run k) = 0%nat)) as [E|E]; [|lia].
  apply size_empty_inv in E. set_solver.
Qed.

(** A running thread's group is alive. *)
Lemma tree_run_alive n run k p t g :
  tree_ok n run k -> p ∈ run -> tasks k !! p = Some t -> tgs k !! t_tg t = Some g -> 1 <= live_threads g /\ exited g = false.
Proof.
  intros Hok Hp Ht Hg. assert (p ∈ threads_of (t_tg t) run k) as Hin.
  { unfold threads_of. apply elem_of_filter. by rewrite Ht. }
  pose proof (threads_of_ge _ _ _ _ Hin). pose proof (to_live _ _ _ Hok _ _ Hg). split; [lia|].
  destruct (exited g) eqn:E; [|done]. pose proof (to_exited _ _ _ Hok _ _ Hg E). lia.
Qed.

(** ** Steps *)

Lemma tgs_upd_tg_some f g k i x :
  tgs (upd_tg g f k) !! i = Some x -> exists y, tgs k !! i = Some y /\ x = (if decide (i = g) then f y else y).
Proof.
  rewrite tgs_upd_tg. destruct (decide (i = g)); [|eauto]. destruct (tgs k !! i) as [y|]; [|done].
  intros [= <-]. eauto.
Qed.

(** The tree with one more running thread [n] of group [g]. *)
Lemma threads_of_add n run k k' g i :
  n ∉ run -> (t_tg <$> tasks k' !! n = Some g) -> (forall p, p <> n -> t_tg <$> tasks k' !! p = t_tg <$> tasks k !! p) ->
  size (threads_of i ({[n]} ∪ run) k') = (size (threads_of i run k) + if decide (i = g) then 1 else 0)%nat.
Proof.
  intros Hn Hg Hp. assert (forall p, p ∈ run -> p <> n) as Hrn by set_solver.
  destruct (decide (i = g)) as [->|Hne].
  - assert (threads_of g ({[n]} ∪ run) k' = {[n]} ∪ threads_of g run k) as ->.
    { apply leibniz_equiv. intros p. unfold threads_of. rewrite elem_of_union, !elem_of_filter, elem_of_union, elem_of_singleton.
      split.
      - intros [H [->|Hr]]; [by left|]. right. by rewrite <- Hp by auto.
      - intros [->|[H Hr]]; [by auto|]. split; [by rewrite Hp by auto|by right]. }
    rewrite size_union, size_singleton; [lia|]. unfold threads_of. intros p. rewrite elem_of_singleton, elem_of_filter.
    intros -> [_ ?]. done.
  - assert (threads_of i ({[n]} ∪ run) k' = threads_of i run k) as ->; [|lia].
    apply leibniz_equiv. intros p. unfold threads_of. rewrite !elem_of_filter, elem_of_union, elem_of_singleton. split.
    + intros [H [->|Hr]]; [congruence|]. by rewrite <- Hp by auto.
    + intros [H Hr]. split; [by rewrite Hp by auto|by right].
Qed.

Lemma clone_fds_tree l : forall acc k m k1, clone_fds l acc k = inr (m, k1) ->
  tasks k1 = tasks k /\ pid_map k1 = pid_map k /\ tgs k1 = tgs k.
Proof.
  induction l as [|[fd i] l IH]; intros acc k m k1 E; cbn [clone_fds] in E; [by simplify_eq|].
  destruct (files k !! i) as [f|]; [|by eapply IH]. destruct (fd_clone f k); [done|].
  unfold new_file in E. destruct (IH _ _ _ _ E) as (-> & -> & ->). done.
Qed.

Lemma fork_fds_tree ps ps' k k1 : fork_fds ps ps' k = inr k1 ->
  tasks k1 = tasks k /\ pid_map k1 = pid_map k /\ tgs k1 = tgs k.
Proof.
  unfold fork_fds. destruct (clone_fds _ _ _) as [|[m k2]] eqn:E; [done|]. intros [= <-].
  by apply clone_fds_tree in E.
Qed.

(** The child of a successful [clone]. *)
Definition child_group (is_thread : bool) (t : Task) (n : Z) : Z := if is_thread then t_tg t else n.

Record cloned (is_thread : bool) (t : Task) (n : Z) (k k' : Kernel) : Prop := {
  cl_child : t_tg <$> tasks k' !! n = Some (child_group is_thread t n);
  cl_tasks : forall p, p <> n -> t_tg <$> tasks k' !! p = t_tg <$> tasks k !! p;
  cl_pids : pid_map k' = {[n]} ∪ pid_map k;
  cl_others : forall i, i <> child_group is_thread t n -> tg_view <$> tgs k' !! i = tg_view <$> tgs k !! i;
  cl_group : tg_view <$> tgs k' !! child_group is_thread t n =
    if is_thread then (fun g => (tgid g, ppid g, live_threads g + 1, exited g)) <$> tgs k !! t_tg t
    else Some (n, from_option tgid 0 (group_of k t), 1, false)
}.

Lemma clone_kernel_cases is_thread tid rc n self t k r n' k' :
  tasks k !! self = Some t -> clone_kernel is_thread tid rc n self k = (r, n', k') ->
  (k' = k /\ (n' = n \/ n' = n + 1)) \/ (r = n /\ n' = n + 1 /\ cloned is_thread t n k k').
Proof.
  intros Ht. unfold clone_kernel. rewrite Ht.
  assert (forall x, (if is_thread then inr k else fork_fds (t_ps t) n k) = inr x ->
    tasks x = tasks k /\ pid_map x = pid_map k /\ tgs x = tgs k) as Hx.
  { intros x. destruct is_thread; [by intros [= <-]|apply fork_fds_tree]. }
  destruct (if is_thread then inr k else fork_fds (t_ps t) n k) as [e|k1]; [by intros [= <- <- <-]; left; auto|].
  destruct (Hx k1 eq_refl) as (E1 & E2 & E3). destruct (negb (rc =? 0)); [by intros [= <- <- <-]; left; auto|].
  intros [= <- <- <-]. right. split; [done|]. split; [done|]. unfold task_clear_flags, task_wakeup, emit.
  constructor.
  - cbn [tasks]. rewrite tasks_upd_task, decide_True by done. cbn [tasks set_pid_map upd_tg set_tgs set_tasks].
    by rewrite lookup_insert_eq.
  - intros p Hp. cbn [tasks]. rewrite tasks_upd_task, decide_False by done.
    cbn [tasks set_pid_map upd_tg set_tgs set_tasks]. rewrite lookup_insert_ne by done. by destruct is_thread; cbn; rewrite E1.
  - cbn [pid_map upd_task set_tasks set_pid_map upd_tg set_tgs]. by destruct is_thread; cbn; rewrite E2.
  - intros i Hi. unfold child_group in Hi. cbn [tgs upd_task set_tasks set_pid_map].
    rewrite tgs_upd_tg, decide_False by done. cbn [tgs set_tasks].
    destruct is_thread; [by rewrite tgs_upd_tg, decide_False, E3 by done|].
    cbn [tgs set_tgs]. by rewrite lookup_insert_ne, E3 by done.
  - unfold child_group. cbn [tgs upd_task set_tasks set_pid_map].
    rewrite tgs_upd_tg, decide_True by done. cbn [tgs set_tasks].
    destruct is_thread.
    + rewrite tgs_upd_tg, decide_True, E3 by done. by destruct (tgs k !! t_tg t).
    + cbn [tgs set_tgs]. by rewrite lookup_insert_eq.
Qed.

(** What the child's creation leaves of the tree. *)
Section Cloned.
Variables (is_thread : bool) (n : Z) (t : Task) (k k' : Kernel) (g0 : ThreadGroup).
Hypotheses (Hc : cloned is_thread t n k k') (Hg0 : tgs k !! t_tg t = Some g0) (Hgn : tgs k !! n = None).

Definition child_view : Z * Z * Z * bool :=
  if is_thread then (tgid g0, ppid g0, live_threads g0 + 1, exited g0) else (n, tgid g0, 1, false).

Lemma cloned_child_view : tg_view <$> tgs k' !! child_group is_thread t n = Some child_view.
Proof. rewrite (cl_group _ _ _ _ _ Hc). unfold group_of, child_view. rewrite Hg0. by destruct is_thread. Qed.

Lemma cloned_groups i g' : tgs k' !! i = Some g' ->
  (i <> child_group is_thread t n /\ exists g, tgs k !! i = Some g /\ tg_view g = tg_view g') \/
  (i = child_group is_thread t n /\ tg_view g' = child_view).
Proof.
  intros Hg'. destruct (decide (i = child_group is_thread t n)) as [->|Hne]; [right; split; [done|]|left; split; [done|]].
  - pose proof cloned_child_view as X. rewrite Hg' in X. by injection X.
  - pose proof (cl_others _ _ _ _ _ Hc i Hne) as X. rewrite Hg' in X. cbn in X. destruct (tgs k !! i) as [g|]; [|done].
    exists g. split; [done|]. cbn in X. congruence.
Qed.

Lemma cloned_old i g : tgs k !! i = Some g ->
  exists g', tgs k' !! i = Some g' /\ exited g' = exited g /\ ppid g' = ppid g.
Proof.
  intros Hg. destruct (decide (i = child_group is_thread t n)) as [Hi|Hne].
  - pose proof cloned_child_view as X. rewrite <- Hi in X. unfold child_view in X. unfold child_group in Hi.
    destruct is_thread; [|congruence]. subst i. destruct (tgs k' !! t_tg t) as [g'|]; [|done].
    exists g'. injection X as _ X1 _ X2. rewrite Hg0 in Hg. injection Hg as <-. auto.
  - pose proof (cl_others _ _ _ _ _ Hc i Hne) as X. rewrite Hg in X. cbn in X. destruct (tgs k' !! i) as [g'|]; [|done].
    exists g'. by injection X as _ -> _ ->.
Qed.

Lemma cloned_tasks p t' : tasks k' !! p = Some t' ->
  (p = n /\ t_tg t' = child_group is_thread t n) \/ (p <> n /\ exists t0, tasks k !! p = Some t0 /\ t_tg t0 = t_tg t').
Proof.
  intros Ht'. destruct (decide (p = n)) as [->|Hne]; [left|right]; (split; [done|]).
  - pose proof (cl_child _ _ _ _ _ Hc) as X. rewrite Ht' in X. by injection X.
  - pose proof (cl_tasks _ _ _ _ _ Hc p Hne) as X. rewrite Ht' in X. cbn in X. destruct (tasks k !! p) as [t0|]; [|done].
    exists t0. split; [done|]. cbn in X. congruence.
Qed.

Lemma cloned_parent z :
  z = 0 \/ z = 1 \/ (exists gp, tgs k !! z = Some gp /\ exited gp = false) ->
  z = 0 \/ z = 1 \/ exists gp, tgs k' !! z = Some gp /\ exited gp = false.
Proof.
  intros [Hz|[Hz|(gp & Hgp & Hxp)]]; auto. destruct (cloned_old _ _ Hgp) as (gp' & Hgp' & Hxp' & _). right. right.
  exists gp'. split; [done|congruence].
Qed.

End Cloned.

Lemma threads_of_none n run k : (forall p t, tasks k !! p = Some t -> t_tg t <> n) -> threads_of n run k = ∅.
Proof.
  intros H. apply leibniz_equiv. intros p. unfold threads_of. rewrite elem_of_filter. split; [|set_solver].
  intros [X _]. destruct (tasks k !! p) as [tp|] eqn:Y; [|done]. cbn in X. injection X as X. by destruct (H _ _ Y).
Qed.

Lemma tree_ok_clone is_thread n run self t k k' :
  self ∈ run -> tasks k !! self = Some t -> cloned is_thread t n k k' -> tree_ok n run k ->
  tree_ok (n + 1) ({[n]} ∪ run) k'.
Proof.
  intros Hself Ht Hc Hok. pose proof Hok as [N1 F Gf R U In Ld G K L E D P].
  destruct (G _ _ Ht) as [g0 Hg0]. destruct (tree_run_alive _ _ _ _ _ _ Hok Hself Ht Hg0) as [Hal Hex].
  assert (tasks k !! n = None) as Hn by (apply eq_None_not_Some; intros ?%F; lia).
  assert (tgs k !! n = None) as Hgn by (apply eq_None_not_Some; intros ?%Gf; lia).
  assert (n ∉ run) as Hnr by (intros X%U%R; rewrite Hn in X; by destruct X).
  assert (t_tg t < n) as Htgn by (apply Gf; eauto).
  pose proof (cloned_groups is_thread n t k k' g0 Hc Hg0) as Hgrp. pose proof (cloned_old is_thread n t k k' g0 Hc Hg0 Hgn) as Hold.
  pose proof (cloned_tasks is_thread n t k k' Hc) as Htk. pose proof (cl_pids _ _ _ _ _ Hc) as C3.
  pose proof (fun i => threads_of_add n run k k' _ i Hnr (cl_child _ _ _ _ _ Hc) (cl_tasks _ _ _ _ _ Hc)) as Hsz.
  unfold child_view in Hgrp. constructor; [lia|..].
  - intros p [t' Ht']. destruct (Htk _ _ Ht') as [[-> _]|[_ (t0 & Ht0 & _)]]; [lia|].
    assert (0 < p < n) by (apply F; eauto). lia.
  - intros i [g' Hg']. destruct (Hgrp _ _ Hg') as [[_ (g & Hg & _)]|[-> _]].
    + assert (i < n) by (apply Gf; eauto). lia.
    + unfold child_group. destruct is_thread; lia.
  - intros p. rewrite C3, elem_of_union, elem_of_singleton. intros [->|Hp].
    + pose proof (cl_child _ _ _ _ _ Hc) as X. destruct (tasks k' !! n); [eauto|done].
    + destruct (R p Hp) as [t0 Ht0]. destruct (decide (p = n)) as [->|Hne]; [congruence|].
      pose proof (cl_tasks _ _ _ _ _ Hc p Hne) as X. rewrite Ht0 in X. destruct (tasks k' !! p); [eauto|done].
  - intros p. rewrite elem_of_union, elem_of_singleton, C3, elem_of_union, elem_of_singleton. intros [->|Hp]; [by left|right; by apply U].
  - intros t' Ht'. destruct (Htk _ _ Ht') as [[? _]|[_ (t0 & Ht0 & <-)]]; [lia|by apply In].
  - intros p t'. rewrite C3, !not_elem_of_union, elem_of_union, elem_of_singleton. intros Hp [Hpn Hpr] Ht'.
    destruct Hp as [->|Hp]; [done|]. destruct (Htk _ _ Ht') as [[-> _]|[_ (t0 & Ht0 & <-)]]; [done|]. by eapply Ld.
  - intros p t' Ht'. destruct (Htk _ _ Ht') as [[-> ->]|[_ (t0 & Ht0 & <-)]].
    + pose proof (cloned_child_view is_thread n t k k' g0 Hc Hg0) as X. destruct (tgs k' !! _); [eauto|done].
    + destruct (G _ _ Ht0) as [g Hg]. destruct (Hold _ _ Hg) as (g' & Hg' & _). eauto.
  - intros i g' Hg'. destruct (Hgrp _ _ Hg') as [[_ (g & Hg & [= <- _ _ _])]|[-> X]]; [by eapply K|].
    unfold child_group. destruct is_thread; injection X as -> _ _ _; [|done]. by apply K.
  - intros i g' Hg'. rewrite Hsz. destruct (Hgrp _ _ Hg') as [[Hne (g & Hg & [= _ _ <- _])]|[-> X]].
    + rewrite decide_False by done. rewrite (L _ _ Hg). lia.
    + rewrite decide_True by done. unfold child_group. destruct is_thread; injection X as _ _ -> _.
      * rewrite (L _ _ Hg0). lia.
      * rewrite threads_of_none, size_empty; [done|]. intros p tp Y <-. destruct (G _ _ Y) as [gx Hgx]. congruence.
  - intros i g' Hg' Hx. destruct (Hgrp _ _ Hg') as [[Hne (g & Hg & [= _ _ <- Hxg])]|[-> X]].
    + eapply E; [done|congruence].
    + unfold tg_view in X. destruct is_thread; congruence.
  - intros i g' Hg' Hz Hi1. destruct (Hgrp _ _ Hg') as [[Hne (g & Hg & [= _ _ Hlg <-])]|[-> X]].
    + eapply D; [done|congruence|done].
    + destruct is_thread; injection X as _ _ X _; lia.
  - intros p t' g' Hp Ht' Hg'. rewrite C3, elem_of_union, elem_of_singleton in Hp.
    apply (cloned_parent is_thread n t k k' g0 Hc Hg0 Hgn). destruct (Htk _ _ Ht') as [[-> Et]|[Hpn (t0 & Ht0 & Et)]].
    + rewrite Et in Hg'. destruct (Hgrp _ _ Hg') as [[Hne _]|[_ X]]; [done|].
      destruct is_thread; injection X as _ X _ _; rewrite X; [by eapply (P self); [apply U|..]|].
      right. right. exists g0. by rewrite (K _ _ Hg0).
    + destruct Hp as [->|Hp]; [done|]. rewrite <- Et in Hg'. destruct (G _ _ Ht0) as [g1 Hg1].
      destruct (Hold _ _ Hg1) as (g2 & Hg2 & _ & Ep). simplify_eq. rewrite Ep. by eapply (P p).
Qed.

(** ** Exit *)

Definition orphaned (tg_id : Z) (l : list (Z * Task)) (i : Z) (g : ThreadGroup) : ThreadGroup :=
  if (ppid g =? tg_id) && existsb (fun pt : Z * Task => t_tg pt.2 =? i) l then set_ppid 1 g else g.

Lemma reparent_one_spec tg_id k pt :
  tasks (reparent_one tg_id k pt) = tasks k /\ pid_map (reparent_one tg_id k pt) = pid_map k /\
  forall i, tgs (reparent_one tg_id k pt) !! i = orphaned tg_id [pt] i <$> tgs k !! i.
Proof.
  unfold reparent_one, group_of, orphaned. cbn [existsb]. split_and!; [by destruct (_ =? _)..|]. intros i.
  rewrite orb_false_r. destruct (Z.eqb_spec (t_tg pt.2) i) as [<-|Hne].
  - destruct (tgs k !! t_tg pt.2) as [g|] eqn:Eg; cbn [from_option fmap option_fmap option_map].
    + rewrite andb_true_r. destruct (ppid g =? tg_id); [|done]. by rewrite tgs_upd_tg, decide_True, Eg by done.
    + by destruct (0 =? tg_id); [rewrite tgs_upd_tg, decide_True, Eg by done|].
  - assert (tgs (if from_option ppid 0 (tgs k !! t_tg pt.2) =? tg_id then upd_tg (t_tg pt.2) (set_ppid 1) k else k) !! i
      = tgs k !! i) as ->.
    { destruct (_ =? tg_id); [|done]. rewrite tgs_upd_tg, decide_False; [done|congruence]. }
    destruct (tgs k !! i); cbn; [by rewrite andb_false_r|done].
Qed.

Lemma orphaned_keeps tg_id l i g :
  tgid (orphaned tg_id l i g) = tgid g /\ live_threads (orphaned tg_id l i g) = live_threads g /\
  exited (orphaned tg_id l i g) = exited g.
Proof. unfold orphaned. destruct (_ && _); split_and!; reflexivity. Qed.

Lemma orphaned_ppid tg_id l i g : ppid (orphaned tg_id l i g) = ppid g \/ ppid (orphaned tg_id l i g) = 1.
Proof. unfold orphaned. destruct (_ && _); [by right|by left]. Qed.

Lemma orphaned_hit tg_id l i g p t :
  ppid g = tg_id \/ ppid g = 1 -> (p, t) ∈ l -> t_tg t = i -> ppid (orphaned tg_id l i g) = 1.
Proof.
  intros Hg Hl Ht. destruct (decide (ppid g = 1)) as [E|E].
  - destruct (orphaned_ppid tg_id l i g) as [->|H]; done.
  - destruct Hg as [Hg|Hg]; [|done]. unfold orphaned. rewrite (proj2 (Z.eqb_eq _ _) Hg).
    replace (existsb _ _) with true; [done|]. symmetry. apply existsb_exists. exists (p, t). split.
    + by apply list_elem_of_In.
    + cbn. by apply Z.eqb_eq.
Qed.

Lemma orphaned_cons tg_id pt l i g : orphaned tg_id l i (orphaned tg_id [pt] i g) = orphaned tg_id (pt :: l) i g.
Proof.
  unfold orphaned. cbn [existsb]. rewrite orb_false_r. destruct (Z.eqb_spec (ppid g) tg_id) as [E|E]; cbn [andb].
  - destruct (t_tg pt.2 =? i); cbn [orb ppid set_ppid]; [|by rewrite E, Z.eqb_refl].
    by destruct (1 =? tg_id), (existsb _ l).
  - by destruct (Z.eqb_spec (ppid g) tg_id).
Qed.

Lemma reparent_list_spec tg_id l : forall k,
  tasks (foldl (reparent_one tg_id) k l) = tasks k /\ pid_map (foldl (reparent_one tg_id) k l) = pid_map k /\
  forall i, tgs (foldl (reparent_one tg_id) k l) !! i = orphaned tg_id l i <$> tgs k !! i.
Proof.
  induction l as [|pt l IH]; intros k; cbn [foldl].
  - split_and!; try done. intros i. unfold orphaned. cbn. destruct (tgs k !! i) as [g|]; cbn; [|done]. by rewrite andb_false_r.
  - destruct (IH (reparent_one tg_id k pt)) as (-> & -> & H3). destruct (reparent_one_spec tg_id k pt) as (-> & -> & R3).
    split_and!; try done. intros i. rewrite H3, R3, <- option_fmap_compose. destruct (tgs k !! i) as [g|]; [|done].
    cbn. f_equal. apply orphaned_cons.
Qed.

(** What [fini] does to the tree: [last] when the whole group is done. *)
Record finished (self gi : Z) (last : bool) (k k' : Kernel) : Prop := {
  fi_tasks : forall p, t_tg <$> tasks k' !! p = t_tg <$> tasks k !! p;
  fi_pids : pid_map k' = pid_map k \/ pid_map k' = pid_map k ∖ {[self]};
  fi_thread : self <> gi -> self ∉ pid_map k';
  fi_group : forall i g, tgs k !! i = Some g -> exists g', tgs k' !! i = Some g' /\ tgid g' = tgid g /\
    live_threads g' = live_threads g - (if decide (i = gi) then 1 else 0) /\
    exited g' = exited g || (last && bool_decide (i = gi)) /\
    (ppid g' = ppid g \/ ppid g' = 1) /\
    (last = true -> ppid g = gi -> forall p tp, p ∈ pid_map k' -> tasks k !! p = Some tp -> t_tg tp = i -> ppid g' = 1);
  fi_none : forall i, tgs k !! i = None -> tgs k' !! i = None
}.

Lemma finished_same self gi last k k1 k2 : finished self gi last k k1 -> same_tree k1 k2 -> finished self gi last k k2.
Proof.
  intros [A B C D E] Hs. constructor.
  - intros p. by rewrite (st_tasks _ _ Hs).
  - by rewrite (st_pids _ _ Hs).
  - by rewrite (st_pids _ _ Hs).
  - intros i g Hg. destruct (D i g Hg) as (g1 & Hg1 & D1 & D2 & D3 & D4 & D5).
    destruct (st_group _ _ _ _ (st_sym _ _ Hs) Hg1) as (g2 & Hg2 & [= E1 E2 E3 E4]). exists g2.
    rewrite E1, E2, E3, E4. split_and!; try done. intros H1 H2 p tp. rewrite (st_pids _ _ Hs). by apply D5.
  - intros i Hi. pose proof (st_tgs _ _ Hs i) as X. rewrite (E i Hi) in X. by destruct (tgs k2 !! i).
Qed.

(** The thread leaves its group and, unless it leads it, the task table. *)
Definition leave (self gi : Z) (k : Kernel) : Kernel :=
  let k1 := upd_tg gi (fun tg => set_live (live_threads tg - 1) tg) k in
  if self =? gi then k1 else set_pid_map (pid_map k1 ∖ {[self]}) k1.

Lemma leave_finished self gi k : finished self gi false k (leave self gi k).
Proof.
  unfold leave. destruct (Z.eqb_spec self gi) as [->|Hne].
  all: constructor; cbn [tasks pid_map tgs set_pid_map upd_tg set_tgs]; try done; auto.
  all: try (intros i g Hg; fold (upd_tg gi (fun tg => set_live (live_threads tg - 1) tg) k);
    pose proof (tgs_upd_tg gi (fun tg => set_live (live_threads tg - 1) tg) k i) as X; cbn [tgs upd_tg set_tgs] in X;
    rewrite X, Hg; destruct (decide (i = gi)); cbn; eexists; split_and!; try done; rewrite ?orb_false_r, ?Z.sub_0_r; auto).
  all: try (intros i Hg; pose proof (tgs_upd_tg gi (fun tg => set_live (live_threads tg - 1) tg) k i) as X;
    cbn [tgs upd_tg set_tgs] in X; rewrite X, Hg; by destruct (decide _)).
  set_solver.
Qed.

(** The last thread marks the group and gives its children to init. *)
Lemma exit_finished self gi k k2 :
  finished self gi false k k2 ->
  (forall p t, p ∈ pid_map k2 -> tasks k !! p = Some t -> is_Some (tasks k2 !! p)) ->
  finished self gi true k
    (reparent gi (notify_parent_sigchld send self gi (upd_tg gi (fun tg => set_exited true (cas_exit_code 137 tg)) k2))).
Proof.
  intros [A B C D E] Hp. set (k3 := upd_tg gi _ k2).
  assert (same_tree k3 (notify_parent_sigchld send self gi k3)) as Hs.
  { apply krel_same_tree, krel_notify. intros. apply krel_send. }
  set (k4 := notify_parent_sigchld send self gi k3) in *.
  destruct (reparent_list_spec gi (pid_tasks k4) k4) as (R1 & R2 & R3). fold (reparent gi k4) in R1, R2, R3.
  assert (forall p, t_tg <$> tasks k4 !! p = t_tg <$> tasks k2 !! p) as Ht4 by (intros p; apply (st_tasks _ _ Hs)).
  assert (pid_map k4 = pid_map k2) as Hp4 by apply (st_pids _ _ Hs).
  constructor.
  - intros p. by rewrite R1, Ht4.
  - by rewrite R2, Hp4.
  - by rewrite R2, Hp4.
  - intros i g Hg. destruct (D i g Hg) as (g2 & Hg2 & D1 & D2 & D3 & D4 & _).
    assert (exists g3, tgs k3 !! i = Some g3 /\ tg_view g3 = (tgid g2, ppid g2, live_threads g2, exited g2 || bool_decide (i = gi)))
      as (g3 & Hg3 & V3).
    { unfold k3. rewrite tgs_upd_tg, Hg2. destruct (decide (i = gi)) as [->|Hne].
      - rewrite bool_decide_eq_true_2 by done. cbn. eexists. split; [done|]. unfold cas_exit_code.
        by destruct (exit_code g2 =? -1), (exited g2).
      - rewrite bool_decide_eq_false_2 by done. exists g2. by rewrite orb_false_r. }
    destruct (st_group _ _ _ _ (st_sym _ _ Hs) Hg3) as (g4 & Hg4 & V4). rewrite V3 in V4. injection V4 as V1 V2 V4 V5.
    exists (orphaned gi (pid_tasks k4) i g4). rewrite R3, Hg4.
    assert (tgid (orphaned gi (pid_tasks k4) i g4) = tgid g4 /\ live_threads (orphaned gi (pid_tasks k4) i g4) = live_threads g4 /\
      exited (orphaned gi (pid_tasks k4) i g4) = exited g4) as (-> & -> & ->) by apply orphaned_keeps.
    rewrite V1, V4, V5, D1, D2, D3. rewrite orb_false_r. split_and!; try done.
    + destruct (orphaned_ppid gi (pid_tasks k4) i g4) as [->|H]; [by rewrite V2|by right].
    + intros _ Hgi p tp. rewrite R2, Hp4. intros Hpp Htp Hi.
      destruct (Hp p tp Hpp Htp) as [t2 Ht2]. pose proof (Ht4 p) as X4. rewrite Ht2 in X4.
      pose proof (A p) as XA. rewrite Ht2, Htp in XA. destruct (tasks k4 !! p) as [t4|] eqn:E4; [|done].
      apply (orphaned_hit _ _ _ _ p t4).
      * rewrite V2. destruct D4 as [->| ->]; auto.
      * apply elem_of_pid_tasks. by rewrite Hp4.
      * cbn in X4, XA. congruence.
  - intros i Hi. rewrite R3. pose proof (st_tgs _ _ Hs i) as X. unfold k3 in X. rewrite tgs_upd_tg, (E i Hi) in X.
    destruct (decide _); cbn in X; by destruct (tgs k4 !! i).
Qed.

Lemma fini_finished n run k self t g :
  tree_ok n run k -> tasks k !! self = Some t -> tgs k !! t_tg t = Some g ->
  finished self (t_tg t) ((live_threads g =? 1) && negb (self =? 1)) k (fini_kernel self k).
Proof.
  intros Hok Ht Hg. unfold fini_kernel. rewrite Ht, Hg. cbn [from_option]. rewrite (to_key _ _ _ Hok _ _ Hg).
  fold (leave self (t_tg t) k). pose proof (leave_finished self (t_tg t) k) as H2. set (k2 := leave _ _ k) in *.
  destruct (live_threads g =? 1); cbn [negb andb].
  2: { eapply finished_same; [exact H2|]. apply krel_same_tree, krel_wake_waiters. }
  pose proof (close_all_same_tree (t_ps t) self k2) as Hc. pose proof (finished_same _ _ _ _ _ _ H2 Hc) as H3.
  set (k3 := close_all (t_ps t) self k2) in *. destruct (Z.eqb_spec self 1) as [->|Hne]; cbn [negb].
  - destruct H3 as [A B C D E]. constructor; cbn [tasks pid_map tgs set_pid_map]; try done.
    + right. destruct B as [->| ->]; [done|]. set_solver.
    + set_solver.
    + intros i g1 Hg1. destruct (D i g1 Hg1) as (g2 & ? & ? & ? & ? & ? & _). exists g2. by split_and!.
  - apply exit_finished; [exact H3|]. intros p tp Hp Htp. pose proof (fi_tasks _ _ _ _ _ H3 p) as X. rewrite Htp in X.
    by destruct (tasks k3 !! p).
Qed.

Lemma threads_of_sub i run k k' self gi :
  self ∈ run -> t_tg <$> tasks k !! self = Some gi -> (forall p, t_tg <$> tasks k' !! p = t_tg <$> tasks k !! p) ->
  Z.of_nat (size (threads_of i (run ∖ {[self]}) k')) = Z.of_nat (size (threads_of i run k)) - (if decide (i = gi) then 1 else 0).
Proof.
  intros Hs Hg Ht. destruct (decide (i = gi)) as [->|Hne].
  - assert (threads_of gi run k = {[self]} ∪ threads_of gi (run ∖ {[self]}) k') as ->.
    { apply leibniz_equiv. intros p. unfold threads_of.
      rewrite elem_of_union, !elem_of_filter, elem_of_singleton, elem_of_difference, elem_of_singleton, Ht.
      split; [|by intros [->|[? [? ?]]]]. intros [? ?]. destruct (decide (p = self)); auto. }
    rewrite size_union, size_singleton; [lia|]. intros p. unfold threads_of.
    rewrite elem_of_singleton, elem_of_filter, elem_of_difference, elem_of_singleton. by intros -> [_ [_ ?]].
  - assert (threads_of i (run ∖ {[self]}) k' = threads_of i run k) as ->; [|lia].
    apply leibniz_equiv. intros p. unfold threads_of. rewrite !elem_of_filter, elem_of_difference, elem_of_singleton, Ht.
    split; [by intros [? [? _]]|]. intros [H ?]. split_and!; try done. intros ->. congruence.
Qed.

Lemma tree_ok_finish n run k k' self t g :
  tree_ok n run k -> self ∈ run -> tasks k !! self = Some t -> tgs k !! t_tg t = Some g ->
  finished self (t_tg t) ((live_threads g =? 1) && negb (self =? 1)) k k' -> tree_ok n (run ∖ {[self]}) k'.
Proof.
  intros Hok Hself Ht Hg Hf. pose proof Hok as [N1 F Gf R U In Ld G K L E D P]. pose proof Hf as [A B C Dg En].
  destruct (tree_run_alive _ _ _ _ _ _ Hok Hself Ht Hg) as [Hal Hex].
  assert (forall p t', tasks k' !! p = Some t' -> exists t0, tasks k !! p = Some t0 /\ t_tg t0 = t_tg t') as Htk.
  { intros p t' H. pose proof (A p) as X. rewrite H in X. destruct (tasks k !! p) as [t0|]; [|done]. exists t0.
    split; [done|]. by injection X. }
  assert (forall i g', tgs k' !! i = Some g' -> exists g1, tgs k !! i = Some g1) as Hgb.
  { intros i g' H. destruct (tgs k !! i) eqn:X; [eauto|]. rewrite (En i X) in H. done. }
  assert (forall p, p ∈ pid_map k' -> p ∈ pid_map k) as Hsub by (destruct B as [->| ->]; set_solver).
  constructor; [done|..].
  - intros p [t' H]. destruct (Htk _ _ H) as (t0 & Ht0 & _). apply F. eauto.
  - intros i [g' H]. apply Gf. destruct (Hgb _ _ H) as [g1 Hg1]. eauto.
  - intros p Hp. destruct (R p (Hsub p Hp)) as [t0 Ht0]. pose proof (A p) as X. rewrite Ht0 in X. destruct (tasks k' !! p); [eauto|done].
  - intros p [Hp Hn]%elem_of_difference. apply U in Hp. destruct B as [->| ->]; set_solver.
  - intros t' H. destruct (Htk _ _ H) as (t0 & Ht0 & <-). by apply In.
  - intros p t' Hp Hn H. destruct (Htk _ _ H) as (t0 & Ht0 & <-). destruct (decide (p = self)) as [->|Hne].
    + rewrite Ht in Ht0. injection Ht0 as <-. destruct (decide (self = t_tg t)); [done|]. by destruct C.
    + apply (Ld p t0); [by apply Hsub|set_solver|done].
  - intros p t' H. destruct (Htk _ _ H) as (t0 & Ht0 & <-). destruct (G _ _ Ht0) as [g1 Hg1].
    destruct (Dg _ _ Hg1) as (g' & Hg' & _). eauto.
  - intros i g' H. destruct (Hgb _ _ H) as [g1 Hg1]. destruct (Dg _ _ Hg1) as (g2 & Hg2 & X & _). simplify_eq. rewrite X. by apply K.
  - intros i g' H. destruct (Hgb _ _ H) as [g1 Hg1]. destruct (Dg _ _ Hg1) as (g2 & Hg2 & _ & X & _). simplify_eq.
    rewrite (threads_of_sub i run k k' self (t_tg t)), X, (L _ _ Hg1) by (done || by rewrite Ht). done.
  - intros i g' H Hx. destruct (Hgb _ _ H) as [g1 Hg1]. destruct (Dg _ _ Hg1) as (g2 & Hg2 & _ & X & Y & _). simplify_eq.
    rewrite X. rewrite Y in Hx. destruct (decide (i = t_tg t)) as [->|Hne].
    + simplify_eq. rewrite Hex in Hx. cbn in Hx. zprops. lia.
    + rewrite bool_decide_eq_false_2, andb_false_r, orb_false_r in Hx by done. rewrite (E _ _ Hg1 Hx). lia.
  - intros i g' H Hz Hi1. destruct (Hgb _ _ H) as [g1 Hg1]. destruct (Dg _ _ Hg1) as (g2 & Hg2 & _ & X & Y & _). simplify_eq.
    rewrite Y. rewrite X in Hz. destruct (decide (i = t_tg t)) as [->|Hne].
    + simplify_eq. rewrite bool_decide_eq_true_2 by done. replace (live_threads g =? 1) with true by (symmetry; apply Z.eqb_eq; lia).
      destruct (Z.eqb_spec self 1) as [->|]; [|by rewrite orb_true_r]. by rewrite (In _ Ht) in Hi1.
    + rewrite (D _ _ Hg1); [done|lia|done].
  - intros p t' g' Hp H Hg'. destruct (Htk _ _ H) as (t0 & Ht0 & Et). rewrite <- Et in Hg'. destruct (G _ _ Ht0) as [g1 Hg1].
    destruct (Dg _ _ Hg1) as (g2 & Hg2 & _ & _ & _ & [X|X] & Y); simplify_eq; [|auto].
    destruct (P p t0 g1 (Hsub p Hp) Ht0 Hg1) as [Z0|[Z1|(gp & Hgp & Hxp)]]; rewrite X; auto.
    destruct (Dg _ _ Hgp) as (gp' & Hgp' & _ & _ & Xp & _). rewrite Hxp in Xp. cbn [orb] in Xp.
    destruct (exited gp') eqn:Ee; [|right; right; eauto]. symmetry in Xp. apply andb_true_iff in Xp as [Xl Xi].
    apply bool_decide_eq_true_1 in Xi. right. left. rewrite <- X. by eapply Y.
Qed.

Lemma tree_ok_fini n run k self :
  tree_ok n run k -> self ∈ run -> tree_ok n (run ∖ {[self]}) (fini_kernel self k).
Proof.
  intros Hok Hself. destruct (to_reg _ _ _ Hok _ (to_run _ _ _ Hok _ Hself)) as [t Ht].
  destruct (to_group _ _ _ Hok _ _ Ht) as [g Hg]. eapply tree_ok_finish; [done|done|done|done|]. by eapply fini_finished.
Qed.

(** ** Release and wait *)

Lemma threads_of_ext i run k k' :
  (forall p, p ∈ run -> t_tg <$> tasks k' !! p = t_tg <$> tasks k !! p) -> threads_of i run k' = threads_of i run k.
Proof.
  intros H. apply leibniz_equiv. intros p. unfold threads_of. rewrite !elem_of_filter. split; intros [? ?]; (split; [|done]);
    by rewrite ?H in * by done.
Qed.

Lemma tree_ok_forget n run k p :
  p ∉ run -> p ∉ pid_map k -> tree_ok n run k -> tree_ok n run (set_tasks (delete p (tasks k)) k).
Proof.
  intros Hp Hm [N1 F Gf R U In Ld G K L E D P].
  assert (forall q t, delete p (tasks k) !! q = Some t -> tasks k !! q = Some t) as Hd by (intros q t [_ ?]%lookup_delete_Some; done).
  constructor; cbn [tasks tgs pid_map set_tasks]; try done.
  - intros q [t Ht%Hd]. apply F. eauto.
  - intros q Hq. rewrite lookup_delete_ne by (by intros ->). by apply R.
  - intros t Ht%Hd. by apply In.
  - intros q t Hq Hn Ht%Hd. by eapply Ld.
  - intros q t Ht%Hd. by eapply G.
  - intros i g Hg. rewrite (threads_of_ext i run k); [by apply L|]. intros q Hq. cbn [tasks set_tasks].
    rewrite lookup_delete_ne; [done|]. by intros ->.
  - intros q t g Hq Ht%Hd. by eapply P.
Qed.

Lemma tree_ok_release n run k p : p ∉ run -> tree_ok n run k -> tree_ok n run (release p k).
Proof.
  intros Hp Hok. unfold release. destruct (tasks k !! p) as [t|]; [|done].
  destruct (t_host t); [done|]. destruct (bool_decide _) eqn:E; [done|]. cbn [orb].
  apply bool_decide_eq_false_1 in E. by apply tree_ok_forget.
Qed.

Lemma tree_ok_unregister n run k p : p ∉ run -> tree_ok n run k -> tree_ok n run (set_pid_map (pid_map k ∖ {[p]}) k).
Proof.
  intros Hp [N1 F Gf R U In Ld G K L E D P]. constructor; cbn [tasks tgs pid_map set_pid_map]; try done.
  - intros q [Hq _]%elem_of_difference. by apply R.
  - intros q Hq. apply elem_of_difference. split; [by apply U|]. rewrite elem_of_singleton. by intros ->.
  - intros q t [Hq _]%elem_of_difference. by apply Ld.
  - intros q t g [Hq _]%elem_of_difference. by apply P.
Qed.

(** What the search of [claim_one] finds. *)
Lemma claim_loop_spec own idtype id wnowait l k : forall any,
  match claim_loop own idtype id wnowait any l k with
  | (Claimed e, k') => exists pt, pt ∈ l /\ match_child own idtype id k pt = true /\ claim_at wnowait k pt = Some (e, k')
  | (NoEvent, k') => k' = k /\ (any = true \/ exists pt, pt ∈ l /\ match_child own idtype id k pt = true) /\
      forall pt, pt ∈ l -> match_child own idtype id k pt = true -> claim_at wnowait k pt = None
  | (NoChild, k') => k' = k /\ any = false /\ forall pt, pt ∈ l -> match_child own idtype id k pt = false
  end.
Proof.
  induction l as [|pt l IH]; intros any; cbn [claim_loop].
  - destruct any; split_and!; try done; auto; by intros pt ?%elem_of_nil.
  - destruct (match_child own idtype id k pt) eqn:Em.
    + destruct (claim_at wnowait k pt) as [[e k']|] eqn:Ec; [exists pt; split_and!; try done; by left|].
      specialize (IH true). destruct (claim_loop _ _ _ _ true l k) as [[e| |] k'].
      * destruct IH as (q & ? & ? & ?). exists q. split_and!; try done. by right.
      * destruct IH as (-> & _ & H). split_and!; [done|right; exists pt; split; [by left|done]|].
        intros q [->|Hq]%elem_of_cons; [done|by apply H].
      * by destruct IH as (_ & ? & _).
    + specialize (IH any). destruct (claim_loop _ _ _ _ any l k) as [[e| |] k'].
      * destruct IH as (q & ? & ? & ?). exists q. split_and!; try done. by right.
      * destruct IH as (-> & Ha & H). split_and!; [done| |].
        -- destruct Ha as [Ha|(q & ? & ?)]; [by left|right; exists q; split; [by right|done]].
        -- intros q [->|Hq]%elem_of_cons Hm; [congruence|by apply H].
      * destruct IH as (-> & -> & H). split_and!; try done. intros q [->|Hq]%elem_of_cons; [done|by apply H].
Qed.

Lemma claim_at_spec wnowait k pt :
  match claim_at wnowait k pt with
  | None => child_has_event k pt = false
  | Some (e, k') => child_has_event k pt = true /\ event_child e = pt.1
  end.
Proof.
  unfold claim_at, child_has_event. destruct (group_of k pt.2) as [g|]; [|done].
  destruct (exited g); [done|]. by destruct (stopped g && stop_reported g).
Qed.

Lemma tree_ok_claim n run k wnowait pt e k' :
  tree_ok n run k -> pt ∈ pid_tasks k -> claim_at wnowait k pt = Some (e, k') -> tree_ok n run k'.
Proof.
  intros Hok. destruct pt as [p t]. rewrite elem_of_pid_tasks. intros [Hp Ht]. unfold claim_at, group_of. cbn [fst snd].
  destruct (tgs k !! t_tg t) as [g|] eqn:Hg; [|done]. destruct (exited g) eqn:Hx.
  - intros [= _ <-]. destruct wnowait; [done|]. assert (p ∉ run) as Hn.
    { intros Hr. destruct (tree_run_alive _ _ _ _ _ _ Hok Hr Ht Hg). congruence. }
    apply tree_ok_release; [done|]. by apply tree_ok_unregister.
  - destruct (stopped g && stop_reported g); [|done]. intros [= _ <-]. destruct wnowait; [done|].
    eapply tree_ok_same; [|exact Hok]. apply krel_same_tree, krel_upd_tg. by intros a.
Qed.

Lemma tree_ok_next n m run k : n <= m -> tree_ok n run k -> tree_ok m run k.
Proof.
  intros Hm []. constructor; try done; [lia|..].
  - intros p Hp. specialize (to_fresh0 p Hp). lia.
  - intros i Hi. specialize (to_groups0 i Hi). lia.
Qed.

(** The state: [next_pid], the threads that have not finished, the kernel. *)
Inductive tree_step : Z * gset Z * Kernel -> Z * gset Z * Kernel -> Prop :=
| ts_clone n run k self th tid rc r n' k' : self ∈ run -> clone_kernel th tid rc n self k = (r, n', k') ->
    tree_step (n, run, k) (n', if decide (n ∈ pid_map k') then {[n]} ∪ run else run, k')
| ts_init n run k self pty : self ∈ run -> self <> 1 -> tree_step (n, run, k) (n, run, init_kernel pty self k)
| ts_fini n run k self : self ∈ run -> tree_step (n, run, k) (n, run ∖ {[self]}, fini_kernel self k)
| ts_end n run k p : p ∉ run -> tree_step (n, run, k) (n, run, thread_end p k)
| ts_wait n run k self idtype id o : self ∈ run -> tree_step (n, run, k) (n, run, (claim_one idtype id o self k).2)
| ts_other n run k k' : same_tree k k' -> tree_step (n, run, k) (n, run, k').

Lemma host_thread_same_tree p b k : same_tree k (upd_task p (set_host_thread b) k).
Proof.
  constructor; try done. intros q. rewrite tasks_upd_task. destruct (decide _); [|done]. by destruct (tasks k !! q).
Qed.

Lemma tree_ok_step s s' : tree_step s s' -> tree_ok s.1.1 s.1.2 s.2 -> tree_ok s'.1.1 s'.1.2 s'.2.
Proof.
  intros Hst Hok. destruct Hst as [n run k self th tid rc r n' k' Hs Hc|n run k self pty Hs Hne|n run k self Hs|
    n run k p Hp|n run k self idtype id o Hs|n run k k' Hs]; cbn [fst snd] in *.
  - destruct (to_reg _ _ _ Hok _ (to_run _ _ _ Hok _ Hs)) as [t Ht].
    destruct (clone_kernel_cases _ _ _ _ _ _ _ _ _ _ Ht Hc) as [[-> Hn]|(-> & -> & Hcl)].
    + rewrite decide_False.
      * apply (tree_ok_next n); [lia|done].
      * intros [tn Htn]%(to_reg _ _ _ Hok). assert (0 < n < n); [|lia]. apply (to_fresh _ _ _ Hok). eauto.
    + rewrite decide_True; [by eapply tree_ok_clone|]. rewrite (cl_pids _ _ _ _ _ Hcl). set_solver.
  - unfold init_kernel. destruct (tasks (upd_task self _ k) !! self) as [t|];
      [destruct (Z.eqb_spec self 1); [done|]; cbn [negb]|]; (eapply tree_ok_same; [apply host_thread_same_tree|done]).
  - by apply tree_ok_fini.
  - unfold thread_end. apply tree_ok_release; [done|]. eapply tree_ok_same; [apply host_thread_same_tree|done].
  - unfold claim_one. pose proof (claim_loop_spec (own_tgid self k) idtype id (nz (Z.land o WNOWAIT)) (pid_tasks k) k false) as H.
    destruct (claim_loop _ _ _ _ _ _ _) as [[e| |] k']; cbn [snd].
    + destruct H as (pt & Hpt & _ & Hc). by eapply tree_ok_claim.
    + by destruct H as (-> & _).
    + by destruct H as (-> & _).
  - by eapply tree_ok_same.
Qed.

(** C19: in every state the tasks reach by cloning, exiting and waiting, in any
    interleaving and whatever signals they send: a group counts exactly its
    unfinished threads, and reports its exit only when there is none left; the
    parent of every registered process is init or has not exited, so no process
    is left without one that can wait for it; and a thread of the parent that
    waits for an exited process gets it, once, with its exit code. *)
Theorem process_tree_invariant s s'
  (Hok : tree_ok s.1.1 s.1.2 s.2) (Hsteps : rtc tree_step s s') :
  let '(n, run, k) := s' in
  (forall i g, tgs k !! i = Some g -> live_threads g = Z.of_nat (size (threads_of i run k)) /\
     (exited g = true -> threads_of i run k = ∅)) /\
  (forall p, p ∈ pid_map k -> exists t g, tasks k !! p = Some t /\ tgs k !! t_tg t = Some g /\
     (ppid g = 0 \/ ppid g = 1 \/ exists gp, tgs k !! ppid g = Some gp /\ exited gp = false)) /\
  (forall self z t g, z ∈ pid_map k -> tasks k !! z = Some t -> tgs k !! t_tg t = Some g -> z = t_tg t ->
     exited g = true -> ppid g = own_tgid self k -> n <= 2 ^ 64 ->
     exists k', claim_one P_PID z 0 self k = (Claimed (WExited z (u64 (exit_code g))), k') /\ z ∉ pid_map k').
Proof.
  assert (tree_ok s'.1.1 s'.1.2 s'.2) as Hok'.
  { induction Hsteps as [s|s s1 s' Hst _ IH]; [done|]. apply IH. by eapply tree_ok_step. }
  destruct s' as [[n run] k]. cbn [fst snd] in Hok'. pose proof Hok' as [N1 F Gf R U In Ld G K L E D P]. split_and!.
  - intros i g Hg. rewrite (L _ _ Hg). split; [done|]. intros Hx. pose proof (E _ _ Hg Hx) as H0.
    rewrite (L _ _ Hg) in H0. apply leibniz_equiv, size_empty_iff. lia.
  - intros p Hp. destruct (R p Hp) as [t Ht]. destruct (G _ _ Ht) as [g Hg]. exists t, g. split_and!; try done. by eapply P.
  - intros self z t g Hz Ht Hg Hl Hx Hpp Hn. unfold claim_one.
    pose proof (claim_loop_spec (own_tgid self k) P_PID z (nz (Z.land 0 WNOWAIT)) (pid_tasks k) k false) as H.
    assert ((z, t) ∈ pid_tasks k) as Hin by by apply elem_of_pid_tasks.
    assert (0 < z < n) by (apply F; eauto).
    assert (match_child (own_tgid self k) P_PID z k (z, t) = true) as Hm.
    { unfold match_child, group_of. cbn [fst snd]. rewrite Hg, Hpp, (K _ _ Hg), <- Hl, !Z.eqb_refl. cbn.
      apply Z.eqb_eq. symmetry. apply uwrap_small. lia. }
    assert (claim_at false k (z, t) = Some (WExited z (u64 (exit_code g)), release z (set_pid_map (pid_map k ∖ {[z]}) k))) as Hc.
    { unfold claim_at, group_of. cbn [fst snd]. by rewrite Hg, Hx. }
    change (nz (Z.land 0 WNOWAIT)) with false in *.
    destruct (claim_loop _ _ _ _ _ _ _) as [[e| |] k'].
    + destruct H as ([q tq] & Hq & Hmq & Hcq). assert (q = z) as ->.
      { unfold match_child in Hmq. cbn [fst snd] in Hmq. destruct (group_of k tq); [|done].
        change (P_PID =? P_ALL) with false in Hmq. change (P_PID =? P_PID) with true in Hmq. cbv iota in Hmq. zprops.
        match goal with H : q = uwrap 64 z |- _ => rewrite uwrap_small in H by lia; done end. }
      apply elem_of_pid_tasks in Hq as [_ Hq]. rewrite Ht in Hq. injection Hq as <-. rewrite Hc in Hcq. injection Hcq as <- <-.
      eexists. split; [done|]. unfold release. cbn [tasks set_pid_map pid_map].
      destruct (tasks k !! z) as [tz|]; [destruct (_ || _)|]; cbn [pid_map set_pid_map set_tasks]; set_solver.
    + destruct H as (_ & _ & H). rewrite (H _ Hin Hm) in Hc. done.
    + destruct H as (_ & _ & H). rewrite (H _ Hin) in Hm. done.
Qed.

(** what one [wait] finds: a matching child, a registered leader whose
    parent is the caller's process, that has exited or has stopped and not been
    reported, with that event; otherwise nothing changes and it says whether
    some child matches at all.  An exited child leaves the task table, a stopped
    one is marked as reported, and with WNOWAIT neither happens. *)
Theorem wait_contract idtype id o self k :
  match claim_one idtype id o self k with
  | (Claimed e, k') => exists t g, let p := event_child e in
      p ∈ pid_map k /\ tasks k !! p = Some t /\ tgs k !! t_tg t = Some g /\
      tgid g = p /\ ppid g = own_tgid self k /\
      (idtype = P_PID -> p = u64 id) /\ (idtype = P_PGID -> pgid (t_pgrp t) = u64 id) /\
      (exited g = true /\ e = WExited p (u64 (exit_code g)) /\
         (nz (Z.land o WNOWAIT) = false -> k' = release p (set_pid_map (pid_map k ∖ {[p]}) k)) \/
       exited g = false /\ stopped g = true /\ stop_reported g = true /\ e = WStopped p (stop_sig g) /\
         (nz (Z.land o WNOWAIT) = false -> k' = upd_tg (t_tg t) (set_reported false) k)) /\
      (nz (Z.land o WNOWAIT) = true -> k' = k)
  | (NoEvent, k') => k' = k /\ (exists pt, pt ∈ pid_tasks k /\ match_child (own_tgid self k) idtype id k pt = true) /\
      forall pt, pt ∈ pid_tasks k -> match_child (own_tgid self k) idtype id k pt = true -> child_has_event k pt = false
  | (NoChild, k') => k' = k /\ forall pt, pt ∈ pid_tasks k -> match_child (own_tgid self k) idtype id k pt = false
  end.
Proof.
  unfold claim_one. set (w := nz (Z.land o WNOWAIT)). set (own := own_tgid self k).
  pose proof (claim_loop_spec own idtype id w (pid_tasks k) k false) as H.
  destruct (claim_loop _ _ _ _ _ _ _) as [[e| |] k'].
  - destruct H as ([p t] & Hin & Hm & Hc). apply elem_of_pid_tasks in Hin as [Hp Ht].
    pose proof (claim_at_spec w k (p, t)) as Hs. rewrite Hc in Hs. destruct Hs as [_ He]. cbn [fst] in He. cbn zeta.
    unfold match_child in Hm. unfold claim_at in Hc. unfold group_of in *. cbn [fst snd] in *.
    destruct (tgs k !! t_tg t) as [g|] eqn:Hg; [|done]. zprops. exists t, g. rewrite He. split_and!; try done.
    + intros ->. match goal with H : (if P_PID =? P_ALL then _ else _) = true |- _ => by apply Z.eqb_eq end.
    + intros ->. match goal with H : (if P_PGID =? P_ALL then _ else _) = true |- _ => by apply Z.eqb_eq end.
    + destruct (exited g); [left|right].
      * injection Hc as <- <-. split_and!; try done. by intros ->.
      * destruct (stopped g), (stop_reported g); try done. injection Hc as <- <-. split_and!; try done. by intros ->.
    + intros Hw. rewrite Hw in Hc. destruct (exited g); [by injection Hc|]. destruct (_ && _); [by injection Hc|done].
  - destruct H as (-> & [?|Hex] & H); [done|]. split_and!; try done. intros pt Hin Hm. pose proof (H pt Hin Hm) as Hn.
    pose proof (claim_at_spec w k pt) as Hs. by rewrite Hn in Hs.
  - by destruct H as (-> & _ & H).
Qed.

End Tree.

(** ** Script headers *)

Definition stops (f : Z -> bool) (l : list Z) : Prop := match l with [] => True | b :: _ => f b = false end.

Lemma span_app f x y : Forall (fun b => f b = true) x -> stops f y -> span f (x ++ y) = (x, y).
Proof.
  intros Hx Hy. induction Hx as [|b x Hb _ IH]; cbn.
  - destruct y; cbn in *; [done|]. by rewrite Hy.
  - by rewrite Hb, IH.
Qed.

Lemma span_inv f l : let '(x, y) := span f l in l = x ++ y /\ Forall (fun b => f b = true) x /\ stops f y.
Proof.
  induction l as [|b l IH]; cbn; [done|]. destruct (f b) eqn:Eb; [|done].
  destruct (span f l) as [x y]. destruct IH as (-> & H1 & H2). split_and!; [done|by constructor|done].
Qed.

Lemma stops_nonblank l : stops is_blank l -> l <> [] -> stops (fun b => negb (is_blank b)) l -> False.
Proof. destruct l as [|b l]; [done|]. cbn. intros -> _. done. Qed.

(** [parse_shebang] accepts exactly the lines [#!], blanks, a word, blanks
    and an argument, and returns the word and the argument: the word is not
    empty and has no blank, the argument is the whole rest of the line, blanks
    inside it included, without those before it. *)
Theorem parse_shebang_spec buf interp arg :
  parse_shebang buf = Some (interp, arg) <->
  exists b1 b2, buf = [35; 33] ++ b1 ++ interp ++ b2 ++ arg /\
    Forall (fun b => is_blank b = true) b1 /\ Forall (fun b => is_blank b = true) b2 /\
    interp <> [] /\ Forall (fun b => negb (is_blank b) = true) interp /\
    stops is_blank arg /\ (arg <> [] -> b2 <> []).
Proof.
  split.
  - destruct buf as [|c [|d rest]]; [done|by destruct c as [|[]|]; cbn; repeat (done || case_match)|].
    destruct (decide (c = 35)) as [->|Hc]; [|intros H; exfalso; revert H; cbn; repeat case_match; naive_solver].
    destruct (decide (d = 33)) as [->|Hd]; [|intros H; exfalso; revert H; cbn; repeat case_match; naive_solver].
    cbn [parse_shebang]. pose proof (span_inv is_blank rest) as H1. destruct (span is_blank rest) as [b1 l1].
    destruct H1 as (-> & F1 & S1). pose proof (span_inv (fun b => negb (is_blank b)) l1) as H2.
    destruct (span _ l1) as [w l2]. destruct H2 as (-> & F2 & S2). destruct (bool_decide (w = [])) eqn:E; [done|].
    apply bool_decide_eq_false_1 in E. pose proof (span_inv is_blank l2) as H3. destruct (span is_blank l2) as [b2 a].
    destruct H3 as (-> & F3 & S3). intros [= <- <-]. exists b1, b2. split_and!; try done.
    intros Ha ->. by eapply stops_nonblank.
  - intros (b1 & b2 & -> & F1 & F2 & Hi & Fi & Sa & Hab). cbn [app parse_shebang].
    assert (stops is_blank (interp ++ b2 ++ arg)) as S1.
    { destruct interp as [|c i]; [done|]. cbn. apply Forall_cons_iff in Fi as [Fc _]. by apply negb_true_iff. }
    rewrite (span_app is_blank b1) by done.
    assert (stops (fun b => negb (is_blank b)) (b2 ++ arg)) as S2.
    { destruct b2 as [|c b2].
      - destruct arg; [done|]. by destruct Hab.
      - cbn. apply Forall_cons_iff in F2 as [-> _]. done. }
    rewrite (span_app (fun b => negb (is_blank b)) interp) by done.
    rewrite bool_decide_eq_false_2 by done. by rewrite (span_app is_blank b2).
Qed.

(** ** Runs *)

(** Init, and the two threads 2 and 3 of its child. *)
Lemma demo_tree_ok : tree_ok 4 {[1; 2; 3]} demo_kernel.
Proof.
  assert (forall p t, tasks demo_kernel !! p = Some t -> p ∈ ({[1; 2; 3]} : gset Z) /\ (t_tg t = 1 /\ p = 1 \/ t_tg t = 2 /\ (p = 2 \/ p = 3))) as HT.
  { intros p t Ht. cbn [tasks demo_kernel] in Ht.
    repeat (apply lookup_insert_Some in Ht as [[<- <-]|[_ Ht]]; [split; [set_solver|auto]|]).
    apply lookup_singleton_Some in Ht as [<- <-]. split; [set_solver|auto]. }
  assert (forall i g, tgs demo_kernel !! i = Some g -> i = 1 /\ g = demo_group 1 0 [1] \/ i = 2 /\ g = demo_group 2 1 [2; 3]) as HG.
  { intros i g Hg. cbn [tgs demo_kernel] in Hg. apply lookup_insert_Some in Hg as [[<- <-]|[_ Hg]]; [auto|].
    apply lookup_singleton_Some in Hg as [<- <-]. auto. }
  constructor.
  - lia.
  - intros p [t Ht]. destruct (HT p t Ht) as [_ [[_ ->]|[_ [->| ->]]]]; lia.
  - intros i [g Hg]. destruct (HG i g Hg) as [[-> _]|[-> _]]; lia.
  - intros p Hp. cbn [pid_map demo_kernel] in Hp. apply elem_of_union in Hp as [Hp|Hp]; [apply elem_of_union in Hp as [Hp|Hp]|];
      apply elem_of_singleton in Hp as ->; eexists; reflexivity.
  - done.
  - intros t Ht. destruct (HT 1 t Ht) as [_ [[? _]|[_ [?|?]]]]; done.
  - intros p t Hp Hn. by destruct Hn.
  - intros p t Ht. destruct (HT p t Ht) as [_ [[-> _]|[-> _]]]; eexists; reflexivity.
  - intros i g Hg. by destruct (HG i g Hg) as [[-> ->]|[-> ->]].
  - intros i g Hg. destruct (HG i g Hg) as [[-> ->]|[-> ->]]; vm_compute; reflexivity.
  - intros i g Hg. by destruct (HG i g Hg) as [[-> ->]|[-> ->]].
  - intros i g Hg. by destruct (HG i g Hg) as [[-> ->]|[-> ->]].
  - intros p t g _ Ht Hg. destruct (HG _ g Hg) as [[_ ->]|[_ ->]]; cbn; auto.
Qed.

(** The thread 2 exits, then 3, the last one; init reaps the process. *)
Lemma process_tree_invariant_witness :
  let hf := demo_fds in
  let k := fini_kernel 3 (fini_kernel 2 (exit_kernel 2 7 demo_kernel)) in
  exists k', claim_one P_PID 2 0 1 k = (Claimed (WExited 2 7), k') /\ 2 ∉ pid_map k'.
Proof.
  intros hf k. set (k0 := exit_kernel 2 7 demo_kernel).
  assert (same_tree demo_kernel k0) as Hs.
  { constructor; [intros p|reflexivity|intros i].
    - unfold k0, exit_kernel, task_set_flags. rewrite tasks_upd_task. destruct (decide (p = 2)) as [->|?]; reflexivity.
    - unfold k0, exit_kernel. change (tgs (task_set_flags 2 VM_EXITED ?x)) with (tgs x). rewrite tgs_upd_tg.
      destruct (decide _) as [->|?]; reflexivity. }
  assert (rtc tree_step (4, {[1; 2; 3]}, demo_kernel) (4, ({[1; 2; 3]} ∖ {[2]}) ∖ {[3]}, k)) as Hr.
  { eapply rtc_l; [by apply (ts_other 4 _ demo_kernel k0)|].
    eapply rtc_l; [apply (ts_fini 4 {[1; 2; 3]} k0 2); set_solver|]. apply rtc_once. apply ts_fini. set_solver. }
  destruct (process_tree_invariant (4, {[1; 2; 3]}, demo_kernel) _ demo_tree_ok Hr) as (_ & _ & H).
  assert (exists t, tasks k !! 2 = Some t /\ t_tg t = 2) as (t & Ht & Htg).
  { eexists. split; [vm_compute; reflexivity|reflexivity]. }
  assert (exists g, tgs k !! 2 = Some g /\ exited g = true /\ ppid g = 1 /\ exit_code g = 7) as (g & Hg & Hx & Hp & Hc).
  { eexists. split; [vm_compute; reflexivity|]. split_and!; reflexivity. }
  destruct (H 1 2 t g) as (k' & E & Hn).
  - apply (bool_decide_unpack _). vm_compute. exact I.
  - exact Ht.
  - rewrite Htg. exact Hg.
  - symmetry. exact Htg.
  - exact Hx.
  - rewrite Hp. vm_compute. reflexivity.
  - lia.
  - exists k'. rewrite Hc in E. split; [exact E|exact Hn].
Defined.

(** [wait4] reports a stop although the caller did not ask for it
    (WUNTRACED), and [waitid] an exit when it only asked for stops. *)
Lemma wait_ignores_wuntraced :
  (claim_one P_ALL 0 0 1 (send 2 (mkev SIGSTOP 1 0 0 0) demo_kernel)).1 = Claimed (WStopped 2 SIGSTOP).
Proof. by vm_compute. Qed.

(** A process that exits with 130 is taken for one killed by signal 2. *)
Lemma exit_code_as_signal : wait4_exit_status 130 = SIGINT /\ waitid_code (WExited 2 130) = CLD_KILLED.
Proof. done. Qed.
