(* ===== verification/Paths.v ===== *)
(** * Paths: guest paths and the host paths they stand for

    The part of [std::filesystem::path] the POSIX layer uses, on strings as
    libstdc++ implements it on a POSIX host ([lexically_normal], [operator/],
    [parent_path], [relative_path]); [guest_abs_path] (filesystem.cpp), the
    classification of [ResolvePath] and the host path [Path::Path] builds
    (fs.cpp), [guest_view] (elf_loader.cpp), and the reading of guest strings.

    Main results: normalising is idempotent and removes every dot and dot-dot
    from an absolute path; the host path of a guest path is the root followed by
    the guest's own components, so no guest path leaves the root. *)

From S2P Require Import Prelude HostMem AddrSpace Isa Vm Kernel FdTable.
From Stdlib Require Import Lia Ascii.
From stdpp Require Import base numbers list gmap strings option.

Open Scope Z_scope.
Open Scope vm_scope.

(** ** std::filesystem::path *)

Definition is_slash (c : Ascii.ascii) : bool := Ascii.eqb c "/"%char.

(** The pieces between slashes. *)
Fixpoint split_slash (s : string) : list string :=
  match s with
  | EmptyString => [EmptyString]
  | String c r =>
    if is_slash c then EmptyString :: split_slash r
    else match split_slash r with
         | x :: l => String c x :: l
         | [] => [String c EmptyString]
         end
  end.

(** The file names of a path. *)
Definition names (s : string) : list string := filter (fun x => x <> EmptyString) (split_slash s).

(** Names with a slash between them. *)
Definition join (l : list string) : string := String.concat "/" l.

Definition is_absolute (s : string) : bool :=
  match s with String c _ => is_slash c | EmptyString => false end.

(** One name of [lexically_normal]; the names kept so far are in reverse order. *)
Definition norm_step (absolute : bool) (st : list string) (c : string) : list string :=
  if String.eqb c "." then st
  else if String.eqb c ".." then
    match st with
    | [] => if absolute then [] else [".."%string]
    | x :: r => if String.eqb x ".." then ".."%string :: st else r
    end
  else c :: st.

Definition norm (absolute : bool) (l : list string) : list string := rev (foldl (norm_step absolute) [] l).

(** The last name is a directory by its form: empty, dot or dot-dot. *)
Definition ends_dir (s : string) : bool :=
  bool_decide (List.last (split_slash s) EmptyString ∈ [EmptyString; "."%string; ".."%string]).

(** The path whose names are [l]. *)
Definition assemble (absolute : bool) (l : list string) (dir : bool) : string :=
  let tail := match l with
              | [] => EmptyString
              | _ => if dir && negb (String.eqb (List.last l EmptyString) "..") then "/"%string else EmptyString
              end in
  let p := ((if absolute then "/"%string else EmptyString) +:+ join l +:+ tail)%string in
  if String.eqb p EmptyString then "."%string else p.

Definition lexically_normal (s : string) : string :=
  if String.eqb s EmptyString then EmptyString
  else assemble (is_absolute s) (norm (is_absolute s) (names s)) (ends_dir s).

(** [ends_slash]: the path has no file name after its last separator. *)
Definition ends_slash (s : string) : bool := String.eqb (List.last (split_slash s) EmptyString) EmptyString.

(** [a / b]. *)
Definition path_div (a b : string) : string :=
  if is_absolute b || String.eqb a EmptyString then b
  else if ends_slash a then (a +:+ b)%string else (a +:+ "/" +:+ b)%string.

(** [parent_path] of a path that is written without repeated separators. *)
Definition parent_path (s : string) : string :=
  let l := removelast (split_slash s) in
  if is_absolute s && bool_decide (length l <= 1)%nat then "/"%string else join l.

(** [s.rfind(p, 0) == 0]. *)
Definition starts_with (p s : string) : bool := String.prefix p s.

(** ** Guest paths *)

Definition AT_FDCWD : Z := -100.

(** The pieces of [guest_abs_path]: the directory a relative path starts from. *)
Definition base_dir (k : Kernel) (ps dirfd : Z) : string :=
  let c := from_option cwd EmptyString (shared k !! ps) in
  let base := if String.eqb c EmptyString then "/"%string else c in
  if dirfd =? AT_FDCWD then base
  else match find_fd k ps dirfd with
       | Some (_, h) => if String.eqb (f_path h) EmptyString then base else f_path h
       | None => base
       end.

Definition guest_abs_path (k : Kernel) (ps : Z) (path : string) (dirfd : Z) : string :=
  if String.eqb path EmptyString then path
  else
    let guest_abs :=
      if is_absolute path then lexically_normal path
      else lexically_normal (path_div (base_dir k ps dirfd) path) in
    if String.eqb guest_abs EmptyString then "/"%string else guest_abs.

(** ** Host paths *)

Definition is_proc (p : string) : bool := String.eqb p "/proc" || starts_with "/proc/" p.
Definition is_dev (p : string) : bool := String.eqb p "/dev" || starts_with "/dev/" p.

(** [while(guest.size() > 1 && guest.back() == '/') guest.pop_back()], on the
    reversed characters. *)
Fixpoint strip_rev (l : list Ascii.ascii) : list Ascii.ascii :=
  match l with
  | c :: r => if is_slash c && negb (bool_decide (r = [])) then strip_rev r else l
  | [] => l
  end.
Definition strip_slashes (s : string) : string :=
  String.string_of_list_ascii (rev (strip_rev (rev (String.list_ascii_of_string s)))).

Inductive PathKind := ProcPath | DevPath | HostPath.
#[export] Instance PathKind_eq_dec : EqDecision PathKind.
Proof. solve_decision. Defined.

Record Path := mkpath { p_kind : PathKind; p_guest : string; p_host : string }.

(** [Path::Path]: the host path. *)
Definition host_path (root guest : string) : string :=
  if String.eqb root EmptyString then guest
  else if String.eqb guest EmptyString then EmptyString
  else lexically_normal (root +:+ guest)%string.

Definition ResolvePath (root guest : string) : Path :=
  if is_proc guest then let g := strip_slashes guest in mkpath ProcPath g (host_path root g)
  else if is_dev guest then let g := strip_slashes guest in mkpath DevPath g (host_path root g)
  else mkpath HostPath guest (host_path root guest).

(** [guest_view], with the loader's root. *)
Definition guest_view (loader_root host_path : string) : string :=
  if String.eqb loader_root EmptyString then host_path
  else if String.eqb host_path loader_root then "/"%string
  else
    let prefix := (loader_root +:+ "/")%string in
    if starts_with prefix host_path
    then ("/" +:+ String.substring (String.length prefix) (String.length host_path - String.length prefix) host_path)%string
    else host_path.

(** ** Guest strings *)

Definition byte_ascii (b : Z) : Ascii.ascii := Ascii.ascii_of_N (Z.to_N (b mod 256)).

Definition bytes_string (l : list Z) : string := String.string_of_list_ascii (byte_ascii <$> l).

Section Guest.
Context {env : HostEnv}.

(** [read_c_string]: [None] for [false]. *)
Fixpoint read_c_string_loop (n : nat) (addr : Z) : M World (option string) :=
  match n with
  | O => ret None
  | Datatypes.S n' =>
    p <- mmuM addr 1 ;;
    match p with
    | None => ret None
    | Some p =>
      c <- loadM p 1 ;;
      if c =? 0 then ret (Some EmptyString)
      else s <- read_c_string_loop n' (u64 (addr + 1)) ;; ret (String (byte_ascii c) <$> s)
    end
  end.

Definition read_c_string (addr : Z) (max_len : nat) : M World (option string) :=
  if addr =? 0 then ret None else read_c_string_loop max_len addr.

(** [read_c_string_array]. *)
Fixpoint read_array_loop (n : nat) (addr : Z) (max_str_len : nat) : M World (option (list string)) :=
  match n with
  | O => ret None
  | Datatypes.S n' =>
    p <- mmuM addr 8 ;;
    match p with
    | None => ret None
    | Some p =>
      str_addr <- loadM p 8 ;;
      if str_addr =? 0 then ret (Some [])
      else
        value <- read_c_string str_addr max_str_len ;;
        match value with
        | None => ret None
        | Some x => l <- read_array_loop n' (u64 (addr + 8)) max_str_len ;; ret (cons x <$> l)
        end
    end
  end.

Definition read_c_string_array (addr : Z) (max_count max_str_len : nat) : M World (option (list string)) :=
  if addr =? 0 then ret (Some []) else read_array_loop max_count addr max_str_len.

End Guest.

(** ** Names of a path *)

#[local] Arguments String.append !_ _ /.

Lemma string_app_assoc (a b c : string) : ((a +:+ b) +:+ c = a +:+ (b +:+ c))%string.
Proof. induction a; cbn; congruence. Qed.

Lemma string_app_nil_r (a : string) : (a +:+ "" = a)%string.
Proof. induction a; cbn; congruence. Qed.

Lemma split_slash_ne s : split_slash s <> [].
Proof. destruct s as [|c s]; cbn; [done|]. destruct (is_slash c); [done|]. by destruct (split_slash s). Qed.

Lemma split_slash_app a b : split_slash (a +:+ "/" +:+ b)%string = split_slash a ++ split_slash b.
Proof.
  induction a as [|c a IH]; [done|]. change (split_slash (String c (a +:+ "/" +:+ b)%string) = split_slash (String c a) ++ split_slash b).
  cbn [split_slash]. destruct (is_slash c); [by rewrite IH|]. rewrite IH.
  by destruct (split_slash a) eqn:E; [destruct (split_slash_ne _ E)|].
Qed.

(** A string that is one piece. *)
Definition no_slash (s : string) : Prop := split_slash s = [s].

Lemma split_no_slash s : Forall no_slash (split_slash s).
Proof.
  induction s as [|c s IH]; cbn; [by repeat constructor|]. destruct (is_slash c) eqn:E; [by constructor|].
  destruct (split_slash s) as [|x l]; cbn in *; [constructor; [|done]|]; unfold no_slash in *; cbn; rewrite ?E; [done|].
  inversion_clear IH. constructor; [|done]. cbn. by rewrite E, H.
Qed.

(** A name of a path, and one that is neither dot nor dot-dot. *)
Definition valid (s : string) : Prop := no_slash s /\ s <> EmptyString.
Definition plain (s : string) : Prop := valid s /\ s <> "."%string /\ s <> ".."%string.

Lemma names_valid s : Forall valid (names s).
Proof.
  unfold names. apply list.Forall_forall. intros x [Hx Hin]%list_elem_of_filter. split; [|done].
  pose proof (split_no_slash s) as H. rewrite list.Forall_forall in H. by apply H.
Qed.

Lemma names_app a b : names (a +:+ "/" +:+ b)%string = names a ++ names b.
Proof. unfold names. by rewrite split_slash_app, list.filter_app. Qed.

Lemma names_abs_app a b : is_absolute b = true -> names (a +:+ b)%string = names a ++ names b.
Proof.
  destruct b as [|c b]; cbn; [done|]. unfold is_slash. intros ->%Ascii.eqb_eq.
  change (String "/" b) with ("/" +:+ b)%string at 1. rewrite names_app. f_equal.
Qed.

Lemma split_join l : l <> [] -> Forall no_slash l -> split_slash (join l) = l.
Proof.
  induction l as [|x [|y l] IH]; intros Hne Hl; [done| |].
  - by inversion_clear Hl.
  - inversion_clear Hl. change (join (x :: y :: l)) with (x +:+ "/" +:+ join (y :: l))%string.
    rewrite split_slash_app, IH by done. by rewrite H.
Qed.

Lemma filter_valid l : Forall valid l -> filter (fun x => x <> EmptyString) l = l.
Proof.
  induction 1 as [|x l [_ Hx] Hl IH]; [done|]. by rewrite list.filter_cons_True, IH.
Qed.

(** *** Assembled paths *)

Definition tail_slash (l : list string) (dir : bool) : bool :=
  dir && negb (bool_decide (l = [])) && negb (String.eqb (List.last l EmptyString) "..").

Lemma join_ne l : l <> [] -> Forall valid l -> exists c r, join l = String c r /\ is_slash c = false.
Proof.
  intros Hne Hl. destruct l as [|x l]; [done|]. inversion_clear Hl. destruct H as [Hs Hx].
  destruct x as [|c x]; [done|]. exists c. assert (is_slash c = false) as Hc.
  { unfold no_slash in Hs. cbn in Hs. destruct (is_slash c); [|done]. by inversion Hs. }
  destruct l; eexists; split; [reflexivity|done|reflexivity|done].
Qed.

Lemma assemble_eq a l dir : Forall valid l -> l <> [] ->
  assemble a l dir =
  ((if a then "/" else "") +:+ join l +:+ (if tail_slash l dir then "/" else ""))%string.
Proof.
  intros Hl Hne. unfold assemble, tail_slash. rewrite bool_decide_false by done. rewrite andb_true_r.
  assert ((match l with [] => "" | _ :: _ => if dir && negb (String.eqb (List.last l "") "..") then "/" else "" end =
           if dir && negb (String.eqb (List.last l "") "..") then "/" else "")%string) as -> by by destruct l.
  destruct (String.eqb_spec ((if a then "/" else "") +:+ join l +:+ (if dir && negb (String.eqb (List.last l "") "..") then "/" else ""))%string ""%string) as [E|_]; [|done].
  destruct (join_ne l Hne Hl) as (c & r & Ej & _). rewrite Ej in E. by destruct a.
Qed.

Lemma split_assemble a l dir : Forall valid l -> l <> [] ->
  split_slash (assemble a l dir) =
  (if a then [EmptyString] else []) ++ l ++ (if tail_slash l dir then [EmptyString] else []).
Proof.
  intros Hl Hne. rewrite assemble_eq by done.
  assert (split_slash (join l +:+ (if tail_slash l dir then "/" else ""))%string =
    l ++ (if tail_slash l dir then [""%string] else [])) as Hj.
  { assert (Forall no_slash l) by (eapply list.Forall_impl; [done|]; by intros ? []).
    destruct (tail_slash l dir).
    - change "/"%string with ("/" +:+ "")%string. rewrite split_slash_app, split_join by done. done.
    - rewrite string_app_nil_r, app_nil_r. by apply split_join. }
  destruct a; [|exact Hj]. change ("/" +:+ ?x)%string with ("" +:+ "/" +:+ x)%string.
  rewrite split_slash_app, Hj. done.
Qed.

Lemma names_assemble a l dir : Forall valid l -> l <> [] -> names (assemble a l dir) = l.
Proof.
  intros Hl Hne. unfold names. rewrite split_assemble, !list.filter_app, (filter_valid l) by done.
  destruct a, (tail_slash l dir); cbn; by rewrite ?app_nil_r.
Qed.

Lemma names_assemble_abs l dir : Forall valid l -> names (assemble true l dir) = l.
Proof. intros Hl. destruct l; [done|]. by apply names_assemble. Qed.

Lemma is_absolute_assemble a l dir : Forall valid l -> is_absolute (assemble a l dir) = a.
Proof.
  intros Hl. destruct (decide (l = [])) as [->|Hne]; [by destruct a|]. rewrite assemble_eq by done.
  destruct a; [done|]. destruct (join_ne l Hne Hl) as (c & r & -> & Hc). exact Hc.
Qed.

(** *** Normal forms *)

(** Dot-dots (none when the path is absolute), then plain names. *)
Definition normal (a : bool) (l : list string) : Prop :=
  exists n l', l = replicate n ".."%string ++ l' /\ Forall plain l' /\ (a = true -> n = O).

Lemma norm_step_normal a st c : normal a (rev st) -> valid c -> normal a (rev (norm_step a st c)).
Proof.
  intros (n & l' & E & Hl & Hn) Hc. unfold norm_step.
  destruct (String.eqb_spec c ".") as [|Hd]; [by exists n, l'|].
  destruct (String.eqb_spec c "..") as [->|Hdd].
  - destruct st as [|x r]; [destruct a; [by exists O, []|by exists 1%nat, []]|]. cbn in E.
    destruct (String.eqb_spec x "..") as [->|Hx].
    + destruct (decide (l' = [])) as [->|Hne].
      * rewrite app_nil_r in E. exists (S n), []. cbn [rev]. rewrite app_nil_r, E.
        split_and!; [|done|]. { by rewrite <- replicate_S_end. }
        intros ->. rewrite (Hn eq_refl) in E. by destruct (rev r).
      * exfalso. destruct (exists_last Hne) as (l2 & y & ->). rewrite app_assoc in E.
        apply app_inj_tail in E as [_ <-]. rewrite Forall_app, Forall_singleton in Hl. by destruct Hl as (_ & _ & _ & ?).
    + destruct (decide (l' = [])) as [->|Hne].
      * exfalso. rewrite app_nil_r in E. destruct n as [|n]; [by destruct (rev r)|].
        rewrite replicate_S_end in E. by apply app_inj_tail in E as [_ ?].
      * destruct (exists_last Hne) as (l2 & y & ->). rewrite app_assoc in E. apply app_inj_tail in E as [E _].
        exists n, l2. rewrite Forall_app in Hl. by destruct Hl.
  - cbn [rev]. exists n, (l' ++ [c]). rewrite E, app_assoc. split_and!; [done| |done].
    rewrite Forall_app, Forall_singleton. done.
Qed.

Lemma norm_normal a l : Forall valid l -> normal a (norm a l).
Proof.
  unfold norm. assert (normal a (rev [])) as H0 by (by exists O, []). revert H0. generalize (@nil string).
  induction l as [|c l IH]; intros st Hst Hl; [done|]. inversion_clear Hl. cbn [foldl]. apply IH; [|done].
  by apply norm_step_normal.
Qed.

Lemma norm_plain_fold a l st : Forall plain l -> foldl (norm_step a) st l = rev l ++ st.
Proof.
  revert st. induction l as [|c l IH]; intros st Hl; [done|]. inversion_clear Hl as [|? ? (Hc & Hd & Hdd) Hl'].
  cbn [foldl rev]. rewrite IH by done. unfold norm_step.
  rewrite (proj2 (String.eqb_neq c "."%string) Hd), (proj2 (String.eqb_neq c ".."%string) Hdd).
  by rewrite <- app_assoc.
Qed.

Lemma norm_id a l : normal a l -> norm a l = l.
Proof.
  intros (n & l' & -> & Hl & Hn). unfold norm. rewrite foldl_app, norm_plain_fold by done.
  assert (foldl (norm_step a) [] (replicate n ".."%string) = replicate n ".."%string) as ->.
  { destruct a; [by rewrite Hn|]. clear. assert (forall m, foldl (norm_step false) (replicate m ".."%string) (replicate n ".."%string) = replicate (n + m) ".."%string) as H.
    { induction n as [|n IH]; intros m; [done|]. cbn [replicate foldl].
      assert (norm_step false (replicate m ".."%string) ".." = replicate (S m) ".."%string) as -> by (by destruct m).
      rewrite IH. f_equal. lia. }
    specialize (H O). by rewrite Nat.add_0_r in H. }
  rewrite rev_app_distr, rev_involutive. f_equal. rewrite rev_alt. apply reverse_replicate.
Qed.

Lemma normal_valid a l : normal a l -> Forall valid l.
Proof.
  intros (n & l' & -> & Hl & _). rewrite Forall_app. split; [by apply Forall_replicate|].
  eapply list.Forall_impl; [done|]. by intros ? [].
Qed.

Lemma normal_plain l : normal true l -> Forall plain l.
Proof. intros (n & l' & -> & Hl & Hn). by rewrite Hn. Qed.

Lemma plain_normal a l : Forall plain l -> normal a l.
Proof. intros H. by exists O, l. Qed.

Lemma ends_dir_assemble a l dir : normal a l -> l <> [] ->
  tail_slash l (ends_dir (assemble a l dir)) = tail_slash l dir.
Proof.
  intros Hn Hne. pose proof (normal_valid _ _ Hn) as Hv. unfold tail_slash at 1, ends_dir.
  rewrite split_assemble by done. unfold tail_slash. rewrite (bool_decide_false (l = [])) by done.
  cbn [negb]. rewrite !andb_true_r.
  destruct (exists_last Hne) as (l2 & y & ->). rewrite List.last_last.
  destruct (String.eqb_spec y "..") as [->|Hy]; [by rewrite !andb_false_r|]. cbn [negb]. rewrite !andb_true_r.
  destruct dir.
  - by rewrite app_assoc, List.last_last, bool_decide_true by (by left).
  - rewrite app_nil_r, app_assoc, List.last_last. apply bool_decide_false.
    rewrite !elem_of_cons. intros [->|[->|[->|H]]]; [| |done|by apply elem_of_nil in H].
    + rewrite Forall_app, Forall_singleton in Hv. by destruct Hv as (_ & _ & ?).
    + destruct Hn as (n & l' & E & Hl & _). destruct (decide (l' = [])) as [->|Hne'].
      * rewrite app_nil_r in E. destruct n; [by destruct l2|]. rewrite replicate_S_end in E. by apply app_inj_tail in E as [_ ?].
      * destruct (exists_last Hne') as (l3 & z & ->). rewrite app_assoc in E. apply app_inj_tail in E as [_ <-].
        rewrite Forall_app, Forall_singleton in Hl. by destruct Hl as (_ & _ & ? & _).
Qed.

Lemma lexically_normal_ne s : s <> EmptyString ->
  lexically_normal s = assemble (is_absolute s) (norm (is_absolute s) (names s)) (ends_dir s).
Proof. intros H. unfold lexically_normal. by rewrite (proj2 (String.eqb_neq _ _) H). Qed.

Lemma assemble_not_empty a l dir : assemble a l dir <> EmptyString.
Proof. unfold assemble. by destruct (String.eqb_spec ((if a then "/" else "") +:+ join l +:+ match l with [] => "" | _ => if dir && negb (String.eqb (List.last l "") "..") then "/" else "" end)%string ""%string) as [_|H]. Qed.

(** The names of a normalised absolute path. *)
Lemma names_lexically_normal s : is_absolute s = true ->
  is_absolute (lexically_normal s) = true /\ names (lexically_normal s) = norm true (names s) /\
  Forall plain (names (lexically_normal s)).
Proof.
  intros Ha. assert (s <> EmptyString) by (by intros ->). rewrite lexically_normal_ne, Ha by done.
  pose proof (norm_normal true (names s) (names_valid s)) as Hn. pose proof (normal_valid _ _ Hn) as Hv.
  rewrite is_absolute_assemble, names_assemble_abs by done. split_and!; [done|done|by apply normal_plain].
Qed.

(** ** Confinement *)

Lemma string_of_list_app l1 l2 :
  String.string_of_list_ascii (l1 ++ l2) = (String.string_of_list_ascii l1 +:+ String.string_of_list_ascii l2)%string.
Proof. induction l1; cbn; congruence. Qed.

Lemma names_strip s : names (strip_slashes s) = names s.
Proof.
  unfold strip_slashes. rewrite <- (String.string_of_list_ascii_of_string s) at 2.
  rewrite <- (rev_involutive (String.list_ascii_of_string s)) at 2.
  generalize (rev (String.list_ascii_of_string s)) as l. induction l as [|c l IH]; [done|]. cbn [strip_rev].
  destruct (is_slash c) eqn:Ec; [|done]. destruct (bool_decide (l = [])); [done|]. cbn [negb andb].
  rewrite IH. cbn [rev]. rewrite string_of_list_app. cbn [String.string_of_list_ascii].
  apply Ascii.eqb_eq in Ec as ->. rewrite <- (string_app_nil_r (String "/" "")).
  change (String "/" "" +:+ "")%string with ("/" +:+ "")%string. rewrite names_app. by rewrite app_nil_r.
Qed.

Lemma is_absolute_strip s : is_absolute s = true -> is_absolute (strip_slashes s) = true.
Proof.
  unfold strip_slashes. rewrite <- (String.string_of_list_ascii_of_string s) at 1.
  rewrite <- (rev_involutive (String.list_ascii_of_string s)) at 1.
  generalize (rev (String.list_ascii_of_string s)) as l. induction l as [|c l IH]; [done|]. cbn [strip_rev].
  destruct (is_slash c && negb (bool_decide (l = []))) eqn:E; [|done]. intros H. apply IH.
  apply andb_true_iff in E as [_ Hne%negb_true_iff]. apply bool_decide_eq_false in Hne.
  cbn [rev] in H. destruct (rev l) as [|d r] eqn:Er; [|done].
  destruct Hne. apply (f_equal (@rev _)) in Er. by rewrite rev_involutive in Er.
Qed.

Definition abs_or_empty (s : string) : Prop := s = EmptyString \/ is_absolute s = true.

(** A root as [realpath] returns it, or none. *)
Definition root_ok (s : string) : Prop := s = EmptyString \/ is_absolute s = true /\ Forall plain (names s).

Record paths_ok (k : Kernel) : Prop := {
  po_cwd : forall ps s, shared k !! ps = Some s -> abs_or_empty (cwd s);
  po_root : forall ps s, shared k !! ps = Some s -> root_ok (root s);
  po_exe : forall ps s, shared k !! ps = Some s -> abs_or_empty (exe_path s);
  po_files : forall i f, files k !! i = Some f -> abs_or_empty (f_path f)
}.

Lemma base_dir_absolute k ps dirfd : paths_ok k -> is_absolute (base_dir k ps dirfd) = true.
Proof.
  intros Hok. unfold base_dir. set (c := from_option cwd ""%string (shared k !! ps)).
  assert (is_absolute (if String.eqb c "" then "/"%string else c) = true) as Hb.
  { destruct (String.eqb_spec c ""%string) as [|Hne]; [done|]. subst c.
    destruct (shared k !! ps) as [s|] eqn:Es; [|done]. by destruct (po_cwd _ Hok _ _ Es). }
  destruct (dirfd =? AT_FDCWD); [done|]. unfold find_fd. destruct (table k ps !! dirfd) as [i|]; [|done]. cbn.
  destruct (files k !! i) as [f|] eqn:Ef; [|done]. cbn. destruct (String.eqb_spec (f_path f) ""%string) as [|Hne]; [done|].
  by destruct (po_files _ Hok _ _ Ef).
Qed.

Lemma is_absolute_div a b : is_absolute a = true -> is_absolute (path_div a b) = true.
Proof.
  intros Ha. unfold path_div. destruct (is_absolute b) eqn:Eb; [done|]. cbn [orb].
  destruct (String.eqb_spec a ""%string) as [->|]; [done|]. destruct a as [|c a]; [done|].
  by destruct (ends_slash _).
Qed.

Lemma guest_abs_path_absolute k ps path dirfd : paths_ok k -> path <> EmptyString ->
  is_absolute (guest_abs_path k ps path dirfd) = true /\ Forall plain (names (guest_abs_path k ps path dirfd)).
Proof.
  intros Hok Hne. unfold guest_abs_path. rewrite (proj2 (String.eqb_neq _ _) Hne).
  set (p := if is_absolute path then path else path_div (base_dir k ps dirfd) path).
  assert (is_absolute p = true) as Hp.
  { subst p. destruct (is_absolute path) eqn:E; [done|]. by apply is_absolute_div, base_dir_absolute. }
  assert ((if is_absolute path then lexically_normal path else lexically_normal (path_div (base_dir k ps dirfd) path))
    = lexically_normal p) as -> by (subst p; by destruct (is_absolute path)).
  destruct (names_lexically_normal _ Hp) as (Ha & _ & Hl).
  destruct (String.eqb_spec (lexically_normal p) ""%string) as [E|_]; [by rewrite E in Ha|done].
Qed.

Lemma host_path_names r g : root_ok r -> r <> EmptyString -> is_absolute g = true -> Forall plain (names g) ->
  is_absolute (host_path r g) = true /\ names (host_path r g) = names r ++ names g.
Proof.
  intros [->|[Ha Hr]] Hne Hg Hl; [done|]. unfold host_path.
  rewrite (proj2 (String.eqb_neq _ _) Hne). destruct (String.eqb_spec g ""%string) as [->|_]; [done|].
  assert (is_absolute (r +:+ g)%string = true) as Hra by (by destruct r).
  destruct (names_lexically_normal _ Hra) as (H1 & H2 & _). rewrite names_abs_app in H2 by done.
  rewrite H2. split; [done|]. apply norm_id, plain_normal. by apply Forall_app.
Qed.

(** normalising is idempotent: a normal path is its own normal form. *)
Theorem lexically_normal_idempotent s : lexically_normal (lexically_normal s) = lexically_normal s.
Proof.
  destruct (decide (s = EmptyString)) as [->|Hne]; [done|]. rewrite (lexically_normal_ne s) by done.
  set (a := is_absolute s). set (l := norm a (names s)).
  pose proof (norm_normal a (names s) (names_valid s)) as Hn. fold l in Hn. pose proof (normal_valid _ _ Hn) as Hv.
  rewrite lexically_normal_ne by apply assemble_not_empty. rewrite is_absolute_assemble by done.
  destruct (decide (l = [])) as [->|Hl].
  - by destruct a.
  - rewrite names_assemble, (norm_id _ _ Hn) by done. rewrite (assemble_eq a l (ends_dir (assemble a l _))) by done.
    by rewrite ends_dir_assemble, <- assemble_eq by done.
Qed.

(** The normal form of the root is the root: the fallback of [guest_abs_path] is
    never taken. *)
Lemma lexically_normal_root : lexically_normal "/" = "/"%string.
Proof. done. Qed.

(** no guest path leaves the root.  Whatever path a program passes, with
    whatever directory, dot-dots included, the guest path is absolute and has
    only plain names, and the host path the file layer uses is absolute and its
    names are those of the root followed by those of the guest path. *)
Theorem guest_path_confined k ps s path dirfd :
  paths_ok k -> shared k !! ps = Some s -> root s <> EmptyString -> path <> EmptyString ->
  let g := guest_abs_path k ps path dirfd in
  let p := ResolvePath (root s) g in
  is_absolute (p_guest p) = true /\ names (p_guest p) = names g /\ Forall plain (names g) /\
  is_absolute (p_host p) = true /\ names (p_host p) = names (root s) ++ names g.
Proof.
  intros Hok Hs Hr Hp. destruct (guest_abs_path_absolute k ps path dirfd Hok Hp) as [Ha Hl]. cbn zeta.
  set (g := guest_abs_path k ps path dirfd) in *. pose proof (po_root _ Hok _ _ Hs) as Hroot.
  assert (forall g', is_absolute g' = true -> names g' = names g ->
    is_absolute (host_path (root s) g') = true /\ names (host_path (root s) g') = names (root s) ++ names g) as Hh.
  { intros g' Ha' Hn'. rewrite <- Hn'. apply host_path_names; [done|done|done|by rewrite Hn']. }
  unfold ResolvePath. destruct (is_proc g); [|destruct (is_dev g)]; cbn [p_guest p_host];
    (split_and!; [by try apply is_absolute_strip|by try apply names_strip|done|apply Hh|apply Hh]);
    try done; by (apply is_absolute_strip || apply names_strip).
Qed.

(** A program below the root [/srv/jail] that opens [../../../etc/passwd]. *)
Definition jail_kernel : Kernel :=
  set_shared {[1 := mkshared [] 0 ∅ "/home" "/srv/jail" ""]} demo_kernel.

Lemma guest_path_confined_witness :
  let p := ResolvePath "/srv/jail" (guest_abs_path jail_kernel 1 "../../../etc/./passwd" AT_FDCWD) in
  p_host p = "/srv/jail/etc/passwd"%string /\ names (p_host p) = ["srv"; "jail"; "etc"; "passwd"]%string.
Proof.
  split; [reflexivity|].
  destruct (guest_path_confined jail_kernel 1 (mkshared [] 0 ∅ "/home" "/srv/jail" "") "../../../etc/./passwd" AT_FDCWD)
    as (_ & _ & _ & _ & H); [|done|done|done|exact H].
  constructor; intros i s H; cbn in H; try (apply lookup_singleton_Some in H as [<- <-]); [by right| |by left|by rewrite lookup_empty in H].
  right. split; [done|]. repeat constructor; done.
Defined.
