(* ===== verification/VirtualFs.v ===== *)
(** * VirtualFs: synthetic directories, files and devices

    [VirtualDir] and the device layer of fs.cpp, [ProcFile] of procfs.cpp: the
    listing of a directory in records, reading a snapshot, the table of device
    nodes, and the opening of terminals.

    Main results: reading a directory to its end lists every entry once and in
    order, whatever the buffer sizes, and a directory can be continued from any
    recorded cookie; the offsets a virtual file moves to stay in range. *)

From S2P Require Import Prelude HostMem AddrSpace Isa Vm Kernel Signals FdTable Session Process Paths.
From Stdlib Require Import Lia Ascii.
From stdpp Require Import base numbers list gmap strings option pretty fin_maps.

Open Scope Z_scope.
Open Scope vm_scope.

(** ** Constants *)

Definition DT_UNKNOWN : Z := 0.
Definition DT_CHR : Z := 2.
Definition DT_DIR : Z := 4.
Definition DT_REG : Z := 8.
Definition DT_LNK : Z := 10.
Definition SEEK_SET : Z := 0.
Definition SEEK_CUR : Z := 1.
Definition SEEK_END : Z := 2.
Definition ENOENT : Z := 2.
Definition ENXIO : Z := 6.
Definition EACCES : Z := 13.
Definition EXDEV : Z := 18.
Definition ENOTDIR : Z := 20.
Definition ETXTBSY : Z := 26.
Definition EROFS : Z := 30.
Definition ELOOP : Z := 40.
Definition S_IFREG : Z := 0x8000.
Definition S_IFDIR : Z := 0x4000.
Definition S_IFLNK : Z := 0xA000.
Definition AT_SYMLINK_NOFOLLOW : Z := 0x100.
Definition INT_MAX : Z := 2 ^ 31 - 1.

(** ** VirtualDir *)

(** [struct proc_linux_dirent64]. *)
Record dirent := mkdirent { d_ino : Z; d_off : Z; d_reclen : Z; d_type : Z; d_name : string }.

Definition reclen (name : string) : Z := andnot (24 + Z.of_nat (String.length name) + 1 + 7) 7.

(** [emit]: the record, when it fits. *)
Definition emit_dirent (bufpos count cookie : Z) (e : string * Z) : option dirent :=
  if count <? bufpos + reclen e.1 then None
  else Some (mkdirent (1 + cookie) (cookie + 1) (u16 (reclen e.1)) e.2 e.1).

(** The entries listed: positions 0 and 1 are the dot entries. *)
Definition dir_items (es : list (string * Z)) : list (string * Z) :=
  ("."%string, DT_DIR) :: (".."%string, DT_DIR) :: es.

(** The records, the bytes used and the cursor after them. *)
Fixpoint dents (l : list (string * Z)) (cookie bufpos count : Z) : list dirent * Z * Z :=
  match l with
  | [] => ([], bufpos, cookie)
  | e :: r =>
    match emit_dirent bufpos count cookie e with
    | None => ([], bufpos, cookie)
    | Some d =>
      let '(ds, n, c) := dents r (cookie + 1) (bufpos + reclen e.1) count in (d :: ds, n, c)
    end
  end.

Definition dir_getdents64 (es : list (string * Z)) (idx count : Z) : list dirent * Z * Z :=
  dents (drop (Z.to_nat idx) (dir_items es)) idx 0 count.

(** [VirtualDir::lseek]: the new cursor, or [-errno]. *)
Definition dir_lseek (idx off whence : Z) : Z :=
  if whence =? SEEK_SET then (if off <? 0 then - EINVAL else off)
  else if whence =? SEEK_CUR then (if s64 (idx + off) <? 0 then - EINVAL else s64 (idx + off))
  else - EINVAL.

(** What [emit] writes of a record; the room up to [d_reclen] is left as it was. *)
Definition store_dirent (p : hptr) (d : dirent) : M World unit :=
  storeM p 8 (d_ino d) ;; storeM (padd p 8) 8 (u64 (d_off d)) ;; storeM (padd p 16) 2 (d_reclen d) ;;
  storeM (padd p 18) 1 (d_type d) ;; store_bytes (padd p 19) (string_bytes (d_name d) ++ [0]).

Fixpoint store_dirents (p : hptr) (l : list dirent) : M World unit :=
  match l with
  | [] => ret tt
  | d :: r => store_dirent p d ;; store_dirents (padd p (reclen (d_name d))) r
  end.

(** ** ProcFile *)

(** [read] and [pread]: what is read, and the position after it. *)
Definition proc_slice (data : string) (pos count : Z) : string :=
  String.substring (Z.to_nat pos) (Z.to_nat (Z.min count (Z.of_nat (String.length data) - pos))) data.

Definition proc_read (data : string) (pos count : Z) : Z + string :=
  if pos <? 0 then inl (- EINVAL)
  else if Z.of_nat (String.length data) <=? pos then inr EmptyString
  else inr (proc_slice data pos count).

Definition proc_lseek (data : string) (pos off whence : Z) : Z :=
  let base := if whence =? SEEK_SET then Some 0
              else if whence =? SEEK_CUR then Some pos
              else if whence =? SEEK_END then Some (Z.of_nat (String.length data)) else None in
  match base with
  | None => - EINVAL
  | Some base => if s64 (base + off) <? 0 then - EINVAL else s64 (base + off)
  end.

(** [readv] over segments of the given lengths: the pieces read and the new
    position. *)
Fixpoint proc_readv (data : string) (pos : Z) (lens : list Z) : list string * Z :=
  match lens with
  | [] => ([], pos)
  | len :: r =>
    if len =? 0 then let '(ps, p) := proc_readv data pos r in (EmptyString :: ps, p)
    else match proc_read data pos len with
         | inl _ => ([], pos)
         | inr s =>
           let n := Z.of_nat (String.length s) in
           if n <=? 0 then ([], pos)
           else if n <? len then ([s], pos + n)
           else let '(ps, p) := proc_readv data (pos + n) r in (s :: ps, p)
         end
  end.

(** ** Devices *)

Inductive DevInfo := HostChr | DevDir | DevSymlink (link : string).

(** [dev_nodes], in the order of the map. *)
Definition dev_nodes : list (string * DevInfo) :=
  [("/dev", DevDir); ("/dev/console", HostChr); ("/dev/fd", DevSymlink "/proc/self/fd");
   ("/dev/full", HostChr); ("/dev/null", HostChr); ("/dev/ptmx", HostChr); ("/dev/pts", DevDir);
   ("/dev/random", HostChr); ("/dev/stderr", DevSymlink "/proc/self/fd/2");
   ("/dev/stdin", DevSymlink "/proc/self/fd/0"); ("/dev/stdout", DevSymlink "/proc/self/fd/1");
   ("/dev/tty", HostChr); ("/dev/urandom", HostChr); ("/dev/zero", HostChr)]%string.

(** [std::map::find]. *)
Fixpoint find_key {A} (key : string) (l : list (string * A)) : option A :=
  match l with
  | [] => None
  | (x, a) :: r => if String.eqb key x then Some a else find_key key r
  end.

Definition kind_dtype (i : DevInfo) : Z :=
  match i with HostChr => DT_CHR | DevDir => DT_DIR | DevSymlink _ => DT_LNK end.

(** [strtol] in base 10: the value and what follows it; nothing is consumed
    without a digit. *)
Definition digit_of (c : ascii) : option Z :=
  let n := Z.of_N (N_of_ascii c) in if (48 <=? n) && (n <=? 57) then Some (n - 48) else None.
Definition is_cspace (c : ascii) : bool :=
  let n := Z.of_N (N_of_ascii c) in (n =? 32) || ((9 <=? n) && (n <=? 13)).

Fixpoint digits (s : string) (acc : Z) : Z * string :=
  match s with
  | String c r => match digit_of c with Some d => digits r (10 * acc + d) | None => (acc, s) end
  | EmptyString => (acc, s)
  end.

Fixpoint skip_space (s : string) : string :=
  match s with String c r => if is_cspace c then skip_space r else s | EmptyString => s end.

Definition strtol (s : string) : Z * string :=
  let t := skip_space s in
  let '(neg, u) := match t with
                   | String c r => if Ascii.eqb c "-" then (true, r) else if Ascii.eqb c "+" then (false, r) else (false, t)
                   | EmptyString => (false, t)
                   end in
  match u with
  | String c _ =>
    match digit_of c with
    | Some _ =>
      let '(v, e) := digits u 0 in
      (if neg then Z.max (- 2 ^ 63) (- v) else Z.min (2 ^ 63 - 1) v, e)
    | None => (0, s)
    end
  | EmptyString => (0, s)
  end.

Definition parse_dev_suffix (s : string) : Z :=
  if String.eqb s EmptyString then -1
  else let '(v, e) := strtol s in
       if negb (String.eqb e EmptyString) || (v <? 0) || (INT_MAX <? v) then -1 else v.

(** The rest of a string after its first [n] characters. *)
Definition str_from (n : nat) (s : string) : string := String.substring n (String.length s - n) s.

(** [dev_lookup]: the node, and the path to resolve instead (empty for none). *)
Definition dev_lookup (k : Kernel) (guest : string) : option DevInfo * string :=
  match find_key guest dev_nodes with
  | Some i => (Some i, EmptyString)
  | None =>
    if starts_with "/dev/pts/" guest then
      let n := parse_dev_suffix (str_from 9 guest) in
      if n <? 0 then (None, EmptyString)
      else (match ptmx_registry k !! n with Some _ => Some HostChr | None => None end, EmptyString)
    else if starts_with "/dev/fd/" guest then (None, ("/proc/self/fd" +:+ str_from 7 guest)%string)
    else (None, EmptyString)
  end.

(** [std::to_string]. *)
Definition to_string (z : Z) : string := pretty z.

Definition dev_dir_entries {ord : HashOrder} (k : Kernel) (guest : string) : list (string * Z) :=
  if String.eqb guest "/dev/pts"
  then (fun n => (to_string n, DT_CHR)) <$> hash_order (dom (ptmx_registry k))
  else omap (fun e : string * DevInfo =>
    if starts_with "/dev/" e.1 && negb (bool_decide (String.index 5 "/" e.1 <> None)) && (5 <? Z.of_nat (String.length e.1))
    then Some (str_from 5 e.1, kind_dtype e.2) else None) dev_nodes.

(** ** Listing a directory *)

(** The records of a list of entries, from a given cookie on. *)
Fixpoint records (l : list (string * Z)) (cookie : Z) : list dirent :=
  match l with
  | [] => []
  | e :: r => mkdirent (1 + cookie) (cookie + 1) (u16 (reclen e.1)) e.2 e.1 :: records r (cookie + 1)
  end.

Definition room (l : list (string * Z)) : Z := foldr (fun e n => reclen e.1 + n) 0 l.

Lemma reclen_spec (s : string) :
  (8 | reclen s) /\ 19 + Z.of_nat (String.length s) + 1 <= reclen s <= Z.of_nat (String.length s) + 32.
Proof.
  unfold reclen, andnot. set (x := 24 + _ + 1 + 7). assert (Hx : 32 <= x) by (unfold x; lia).
  assert (E : Z.ldiff x 7 = 8 * (x / 8)).
  { change 7 with (Z.ones 3). rewrite Z.ldiff_ones_r by lia. rewrite Z.shiftl_mul_pow2, Z.shiftr_div_pow2 by lia.
    change (2 ^ 3) with 8. lia. }
  rewrite E. split; [exists (x / 8); lia|].
  pose proof (Z.div_mod x 8). pose proof (Z.mod_pos_bound x 8). unfold x in *. lia.
Qed.

Lemma reclen_pos (s : string) : 0 < reclen s.
Proof. pose proof (reclen_spec s). lia. Qed.

Lemma records_app (a b : list (string * Z)) (c : Z) :
  records (a ++ b) c = records a c ++ records b (c + Z.of_nat (length a)).
Proof.
  revert c. induction a as [|e a IH]; intros c; cbn [records app length].
  - f_equal. lia.
  - rewrite IH. do 3 f_equal. lia.
Qed.

(** One call emits a maximal prefix of what is left. *)
Lemma dents_spec (l : list (string * Z)) (cookie bufpos count : Z) :
  exists n, (n <= length l)%nat /\
    dents l cookie bufpos count = (records (take n l) cookie, bufpos + room (take n l), cookie + Z.of_nat n) /\
    (bufpos <= count -> bufpos + room (take n l) <= count) /\
    (forall e, l !! n = Some e -> count < bufpos + room (take n l) + reclen e.1).
Proof.
  revert cookie bufpos. induction l as [|e l IH]; intros cookie bufpos.
  - exists O. cbn. repeat split; [lia|f_equal; [f_equal|]; lia|lia|discriminate].
  - cbn [dents]. unfold emit_dirent. destruct (Z.ltb_spec count (bufpos + reclen e.1)) as [Hlt|Hge].
    + exists O. cbn. repeat split; [lia|f_equal; [f_equal|]; lia|lia|]. intros e' [= <-]. lia.
    + destruct (IH (cookie + 1) (bufpos + reclen e.1)) as (n & Hn & -> & Hle & Hmax).
      exists (S n). cbn [take records room foldr length lookup]. split; [lia|].
      split; [f_equal; [f_equal|]; unfold room; lia|].
      split; [intros _; unfold room in *; specialize (Hle Hge); lia|].
      intros e' He'. specialize (Hmax e' He'). unfold room in *. lia.
Qed.

(** Calls one after another, with the given buffer sizes. *)
Fixpoint read_dir (es : list (string * Z)) (idx : Z) (counts : list Z) : list (list dirent * Z) * Z :=
  match counts with
  | [] => ([], idx)
  | count :: r =>
    let '(ds, n, i) := dir_getdents64 es idx count in
    let '(l, j) := read_dir es i r in ((ds, n) :: l, j)
  end.

Definition large_enough (es : list (string * Z)) (count : Z) : Prop :=
  Forall (fun e : string * Z => reclen e.1 <= count) (dir_items es).

Lemma getdents_spec (es : list (string * Z)) (i : nat) (count : Z) :
  0 <= count -> large_enough es count ->
  let rest := drop i (dir_items es) in
  exists n, dir_getdents64 es (Z.of_nat i) count = (records (take n rest) (Z.of_nat i), room (take n rest), Z.of_nat (i + n)) /\
    (n <= length rest)%nat /\ room (take n rest) <= count /\ (rest = [] \/ (0 < n)%nat).
Proof.
  intros H0 Hl rest. unfold dir_getdents64. rewrite Nat2Z.id. fold rest.
  destruct (dents_spec rest (Z.of_nat i) 0 count) as (n & Hn & E & Hle & Hmax). exists n.
  rewrite E. split; [f_equal; lia|]. split; [done|]. split; [lia|].
  destruct rest as [|e rest'] eqn:Er; [by left|right]. destruct n as [|n]; [|lia].
  specialize (Hmax e eq_refl). cbn in Hmax.
  assert (In_e : e ∈ dir_items es) by (apply list_elem_of_lookup; exists (i + 0)%nat; rewrite <- lookup_drop; fold rest; by rewrite Er).
  unfold large_enough in Hl. rewrite list.Forall_forall in Hl. specialize (Hl e In_e). cbn in *. lia.
Qed.

Lemma read_dir_from (es : list (string * Z)) (counts : list Z) (i : nat) :
  Forall (fun c => 0 <= c /\ large_enough es c) counts ->
  (length (dir_items es) <= i + length counts)%nat -> (i <= length (dir_items es))%nat ->
  concat (read_dir es (Z.of_nat i) counts).1.*1 = records (drop i (dir_items es)) (Z.of_nat i) /\
  (read_dir es (Z.of_nat i) counts).2 = Z.of_nat (length (dir_items es)) /\
  Forall2 (fun r c => r.2 <= c) (read_dir es (Z.of_nat i) counts).1 counts.
Proof.
  revert i. induction counts as [|c counts IH]; intros i Hc Hlen Hi.
  - cbn [length] in Hlen. cbn [read_dir concat fst snd fmap list_fmap]. rewrite drop_ge by lia. split; [done|]. split; [lia|constructor].
  - apply list.Forall_cons in Hc as [[H0 Hl] Hc]. cbn [read_dir].
    destruct (getdents_spec es i c H0 Hl) as (n & -> & Hn & Hroom & Hpos). set (rest := drop i (dir_items es)) in *.
    assert (Hr : length rest = (length (dir_items es) - i)%nat) by (unfold rest; apply length_drop).
    assert (Hp : rest = [] -> n = O) by (intros E; rewrite E in Hn; cbn in Hn; lia).
    assert (Hstep : (length (dir_items es) <= i + n + length counts)%nat).
    { cbn [length] in Hlen. destruct Hpos as [E|]; [|lia]. rewrite E in Hr. cbn [length] in Hr. lia. }
    destruct (IH (i + n)%nat Hc Hstep ltac:(lia)) as (Hcat & Hend & Hfit).
    destruct (read_dir es (Z.of_nat (i + n)) counts) as [l j]. cbn in *. split; [|split; [done|by constructor]].
    rewrite Hcat. rewrite <- (take_drop n rest) at 2. rewrite records_app, length_take_le by done.
    unfold rest. rewrite drop_drop. do 2 f_equal; lia.
Qed.

Lemma records_items (l : list (string * Z)) (c : Z) : (fun d => (d_name d, d_type d)) <$> records l c = l.
Proof. revert c. induction l as [|[x t] l IH]; intros c; [done|]. cbn. by rewrite IH. Qed.

Lemma records_cookies (l : list (string * Z)) (c : Z) (i : nat) (d : dirent) :
  records l c !! i = Some d -> d_off d = c + Z.of_nat i + 1.
Proof.
  revert c i. induction l as [|e l IH]; intros c i; cbn; [done|]. destruct i as [|i]; cbn.
  - intros [= <-]. cbn. lia.
  - intros H%IH. lia.
Qed.

Lemma read_dir_more (es : list (string * Z)) (count : Z) :
  dir_getdents64 es (Z.of_nat (length (dir_items es))) count = ([], 0, Z.of_nat (length (dir_items es))).
Proof. unfold dir_getdents64. rewrite Nat2Z.id, drop_ge by lia. done. Qed.

(** Listing a virtual directory is complete. Whatever sizes the guest's
    buffers have, as long as each holds the largest record and there are enough
    calls, the records of the calls together are the dot entries and the entries
    of the directory, each once and in order; no call writes more than its buffer
    holds; the next call reports the end; and a listing taken up again at the
    cookie [d_off] of any record, as [lseek] allows, goes on with the entry after
    that record. *)
Theorem dir_listing_complete (es : list (string * Z)) (counts : list Z)
    (Hc : Forall (fun c => 0 <= c /\ large_enough es c) counts)
    (Hlen : (length es + 2 <= length counts)%nat) :
  let '(rs, j) := read_dir es 0 counts in
  (fun d => (d_name d, d_type d)) <$> concat rs.*1 = (".", DT_DIR)%string :: ("..", DT_DIR)%string :: es /\
  Forall2 (fun r c => r.2 <= c) rs counts /\
  (forall count, dir_getdents64 es j count = ([], 0, j)) /\
  (forall i d, concat rs.*1 !! i = Some d ->
     dir_lseek j (d_off d) SEEK_SET = d_off d /\
     concat (read_dir es (d_off d) counts).1.*1 = drop (S i) (concat rs.*1)).
Proof.
  assert (Hd : length (dir_items es) = (length es + 2)%nat) by (cbn; lia).
  destruct (read_dir_from es counts 0 Hc) as (Hcat & Hend & Hfit); [lia|lia|].
  change (Z.of_nat 0) with 0 in *. destruct (read_dir es 0 counts) as [rs j]. cbn [fst snd] in *.
  rewrite drop_0 in Hcat. rewrite Hcat, Hend. split; [apply records_items|]. split; [done|].
  split; [apply read_dir_more|]. intros i d Hi.
  assert (Hil : (i < length (dir_items es))%nat).
  { rewrite <- (records_items (dir_items es) 0), length_fmap. by apply lookup_lt_is_Some; eauto. }
  rewrite (records_cookies _ _ _ _ Hi). replace (0 + Z.of_nat i + 1) with (Z.of_nat (S i)) by lia. split.
  - unfold dir_lseek. cbn. destruct (Z.ltb_spec (Z.of_nat (S i)) 0); lia.
  - destruct (read_dir_from es counts (S i) Hc) as (-> & _ & _); [lia|lia|].
    rewrite <- (take_drop (S i) (dir_items es)) at 2. rewrite records_app, length_take_le by lia.
    rewrite drop_app_length'; [done|].
    rewrite <- (length_fmap (fun d => (d_name d, d_type d))), records_items, length_take_le; lia.
Qed.

Lemma dir_listing_complete_witness :
  let es := [("self", DT_LNK); ("cpuinfo", DT_REG)]%string in
  (fun r : list dirent * Z => (d_name <$> r.1, r.2)) <$> (read_dir es 0 [64; 40; 24; 32; 100]).1 =
    [([".";".."]%string, 64); (["self"]%string, 32); ([], 0); (["cpuinfo"]%string, 32); ([], 0)] /\
  (fun d => (d_name d, d_type d)) <$> concat (read_dir es 0 [64; 40; 40; 40; 100]).1.*1 =
    (".", DT_DIR)%string :: ("..", DT_DIR)%string :: es.
Proof.
  split; [vm_compute; reflexivity|].
  assert (H : Forall (fun c => 0 <= c /\ large_enough [("self", DT_LNK); ("cpuinfo", DT_REG)]%string c) [64; 40; 40; 40; 100]).
  { unfold large_enough. repeat (constructor; [split; [lia|repeat (constructor; [vm_compute; discriminate|]); constructor]|]). constructor. }
  pose proof (dir_listing_complete [("self", DT_LNK); ("cpuinfo", DT_REG)]%string [64; 40; 40; 40; 100] H ltac:(cbn; lia)) as T.
  destruct (read_dir _ 0 [64; 40; 40; 40; 100]). exact (proj1 T).
Defined.

(** A buffer too small for the next record reads as the end of the directory. *)
Lemma getdents_small_buffer (es : list (string * Z)) : dir_getdents64 es 0 31 = ([], 0, 0).
Proof. reflexivity. Qed.

(** ** Reading a file *)

Lemma substring_le (n m k : nat) (s : string) :
  (String.length s - n <= k)%nat -> (k <= m)%nat -> String.substring n m s = String.substring n k s.
Proof.
  revert n m k. induction s as [|c s IH]; intros n m k H1 H2; [by destruct n, m, k|].
  destruct n as [|n]; cbn in *; [|by apply IH].
  destruct k as [|k]; [lia|]. destruct m as [|m]; [lia|]. f_equal. apply IH; lia.
Qed.

Lemma substring_length (n m : nat) (s : string) :
  String.length (String.substring n m s) = Nat.min m (String.length s - n).
Proof.
  revert n m. induction s as [|c s IH]; intros n m; [by destruct n, m|].
  destruct n as [|n], m as [|m]; cbn; rewrite ?IH; [done|f_equal; lia|lia|done].
Qed.

Lemma substring_split (n a b : nat) (s : string) :
  String.substring n (a + b) s = (String.substring n a s +:+ String.substring (n + a) b s)%string.
Proof.
  revert n a. induction s as [|c s IH]; intros n a; [by destruct n, a, b|].
  destruct n as [|n]; cbn [String.substring Nat.add].
  - destruct a as [|a]; cbn [Nat.add]; [by destruct b|]. rewrite (IH O a). done.
  - apply IH.
Qed.

Lemma substring_0 (n : nat) (s : string) : String.substring n 0 s = EmptyString.
Proof. revert n. induction s as [|c s IH]; intros [|n]; cbn; auto. Qed.

(** What is read at a position: the data there, as much as asked for. *)
Lemma proc_read_spec (data : string) (pos count : Z) :
  0 <= pos -> 0 <= count -> proc_read data pos count = inr (String.substring (Z.to_nat pos) (Z.to_nat count) data).
Proof.
  intros Hp Hc. unfold proc_read, proc_slice. destruct (Z.ltb_spec pos 0); [lia|].
  destruct (Z.leb_spec (Z.of_nat (String.length data)) pos) as [Hge|Hlt].
  - rewrite (substring_le _ _ 0) by lia. by rewrite substring_0.
  - f_equal. destruct (Z.min_spec count (Z.of_nat (String.length data) - pos)) as [[_ ->]|[Hm ->]]; [done|].
    symmetry. apply substring_le; lia.
Qed.

Definition sum_lens (lens : list Z) : Z := foldr Z.add 0 lens.

Lemma concat_cons (x : string) (l : list string) : String.concat "" (x :: l) = (x +:+ String.concat "" l)%string.
Proof. destruct l; cbn; [|done]. induction x as [|c x IH]; [done|]. change (String c x = String c (x +:+ "")). by rewrite <- IH. Qed.

Lemma append_empty_r (x : string) : (x +:+ "")%string = x.
Proof. induction x as [|c x IH]; [done|]. change (String c (x +:+ "") = String c x). by rewrite IH. Qed.

Lemma str_append_length (a b : string) : String.length (a +:+ b)%string = (String.length a + String.length b)%nat.
Proof. induction a as [|c a IH]; [done|]. change (String c a +:+ b)%string with (String c (a +:+ b)). cbn. by rewrite IH. Qed.

(** A vectored read of a file of /proc is one read of the total length. Cut
    into segments of any lengths, zero included, [readv] delivers exactly the
    bytes a single [read] of the sum of the lengths delivers at the same
    position, no byte lost or repeated at a boundary between segments, fills no
    segment past its length, and moves the position by what it delivered. *)
Theorem proc_readv_is_read (data : string) (pos : Z) (lens : list Z)
    (Hpos : 0 <= pos) (Hlens : Forall (fun n => 0 <= n) lens) :
  let '(pieces, pos') := proc_readv data pos lens in
  proc_read data pos (sum_lens lens) = inr (String.concat "" pieces) /\
  pos' = pos + Z.of_nat (String.length (String.concat "" pieces)) /\
  (length pieces <= length lens)%nat /\
  Forall2 (fun s n => Z.of_nat (String.length s) <= n) pieces (take (length pieces) lens).
Proof.
  revert pos Hpos. induction Hlens as [|n lens Hn Hlens IH]; intros pos Hpos; cbn [proc_readv sum_lens foldr].
  - rewrite proc_read_spec by lia. rewrite substring_0. cbn. repeat split; [lia|lia|constructor].
  - assert (H0 : 0 <= sum_lens lens) by (clear -Hlens; induction Hlens; cbn; [lia|]; unfold sum_lens in *; lia).
    change (foldr Z.add 0 lens) with (sum_lens lens).
    rewrite (proc_read_spec _ _ (n + sum_lens lens)) by lia.
    destruct (Z.eqb_spec n 0) as [->|Hn0].
    + specialize (IH pos Hpos). destruct (proc_readv data pos lens) as [ps p]. destruct IH as (E & -> & Hl & HF).
      rewrite proc_read_spec in E by lia. rewrite concat_cons. cbn [length take].
      change ("" +:+ ?x)%string with x. injection E as E. rewrite Z.add_0_l, E. repeat split; [lia|]. constructor; [cbn; lia|done].
    + rewrite proc_read_spec by lia. rewrite Z2Nat.inj_add by lia.
      set (s := String.substring (Z.to_nat pos) (Z.to_nat n) data).
      assert (Hs : String.length s = Nat.min (Z.to_nat n) (String.length data - Z.to_nat pos)) by apply substring_length.
      rewrite substring_split. fold s.
      destruct (Z.leb_spec (Z.of_nat (String.length s)) 0) as [Hz|Hz].
      { cbn [String.concat length take]. unfold s.
        rewrite (substring_le (Z.to_nat pos + _) _ 0) by lia.
        rewrite (substring_le (Z.to_nat pos) (Z.to_nat n) 0) by lia. rewrite !substring_0.
        repeat split; [cbn; lia|lia|constructor]. }
      destruct (Z.ltb_spec (Z.of_nat (String.length s)) n) as [Hlt|Hge].
      * cbn [String.concat]. rewrite (substring_le (Z.to_nat pos + _) _ 0) by lia. rewrite substring_0, append_empty_r.
        cbn [length take]. repeat split; [cbn; lia|]. constructor; [lia|constructor].
      * specialize (IH (pos + Z.of_nat (String.length s)) ltac:(lia)).
        destruct (proc_readv data (pos + Z.of_nat (String.length s)) lens) as [ps p]. destruct IH as (E & -> & Hl & HF).
        rewrite proc_read_spec in E by lia. injection E as E. rewrite concat_cons, <- E.
        replace (Z.to_nat (pos + Z.of_nat (String.length s))) with (Z.to_nat pos + Z.to_nat n)%nat by lia.
        rewrite str_append_length. cbn [length take]. repeat split; [lia|lia|]. constructor; [lia|done].
Qed.

Lemma proc_readv_is_read_witness :
  proc_readv "0.00 0.00" 2 [3; 0; 2; 9] = (["00 "; ""; "0."; "00"]%string, 9) /\
  proc_read "0.00 0.00" 2 14 = inr "00 0.00"%string.
Proof.
  split; [vm_compute; reflexivity|].
  assert (H : Forall (fun n => 0 <= n) [3; 0; 2; 9]) by (repeat constructor; discriminate).
  exact (proj1 (proc_readv_is_read "0.00 0.00" 2 [3; 0; 2; 9] ltac:(discriminate) H)).
Defined.

(** Offsets stay in the range of [off_t]. *)
Lemma proc_lseek_range (data : string) (pos off whence : Z) :
  proc_lseek data pos off whence = - EINVAL \/ 0 <= proc_lseek data pos off whence < 2 ^ 63.
Proof.
  unfold proc_lseek. destruct (if whence =? SEEK_SET then _ else _) as [b|]; [|by left].
  destruct (Z.ltb_spec (s64 (b + off)) 0); [by left|right].
  split; [done|]. apply (sval_range 64). lia.
Qed.
