(* ===== verification/Procfs.v ===== *)
(** * Procfs: the /proc tree, and what a path leads to

    procfs.cpp and the [Path] classes of fs.cpp: the nodes of /proc as they are
    generated from the kernel's state, [lookup], and the dispatch of open,
    readlink, statx and access over the host's files, the devices and /proc.
    The dispatch yields the action to take on the host or on an open file; what
    other threads' machines hold ([VmView]) and the host's facts ([HostFacts])
    are arguments.  [lookup] and the dispatch follow links and are given fuel.

    Main results: how many turns a lookup takes when no link leads back into
    /proc; a working directory inside /proc can make it turn for ever. *)

From S2P Require Import Prelude HostMem AddrSpace Isa Vm Kernel Signals FdTable Session Process Paths VirtualFs.
From Stdlib Require Import Lia Ascii.
From stdpp Require Import base numbers list gmap strings option pretty fin_maps.

Open Scope Z_scope.
Open Scope vm_scope.

(** ** Nodes *)

Definition O_WRONLY : Z := 0x1.
Definition O_RDWR : Z := 0x2.
Definition O_CREAT : Z := 0x40.
Definition O_TRUNC : Z := 0x200.
Definition O_APPEND : Z := 0x400.
Definition STATX_BASIC_STATS : Z := 0x7FF.

Inductive link_kind := LPlain | LFd (i : Z) | LExe (pid : Z).

(** A generator; a file whose generator dereferences a null pointer has no
    content. *)
Inductive Gen :=
| NoneGen
| FileGen (content : option string)
| LinkGen (target : string) (kind : link_kind)
| DirGen (entries : list (string * Gen)).

(** [std::map::emplace]: sorted by key, an existing key is kept. *)
Fixpoint emplace {A} (key : string) (a : A) (l : list (string * A)) : list (string * A) :=
  match l with
  | [] => [(key, a)]
  | (x, b) :: r =>
    if String.eqb key x then l
    else if String.ltb key x then (key, a) :: l else (x, b) :: emplace key a r
  end.

Definition map_of {A} (l : list (string * A)) : list (string * A) :=
  foldl (fun m e => emplace e.1 e.2 m) [] l.

(** What the tree shows of the tasks' machines. *)
Class VmView := {
  v_argv : Z -> list string;
  v_envp : Z -> list (string * string);
  v_maps : Z -> list memmap;
  v_image : Z -> bool
}.

(** What it shows of the host: the number of processors, the seconds of the
    monotonic clock as printed, the link behind a host fd. *)
Class HostFacts := {
  host_processors : Z;
  host_uptime : string;
  host_fd_link : Z -> option string;
  host_loader_root : string
}.

Definition make_comm (path : string) : string :=
  let base := List.last (split_slash path) EmptyString in
  if 15 <? Z.of_nat (String.length base) then String.substring 0 15 base else base.

Definition newline : string := String "010"%char EmptyString.
Definition nul : string := String "000"%char EmptyString.
Definition tab : string := String "009"%char EmptyString.

Definition concat_s (l : list string) : string := String.concat "" l.

Section Tree.
Context {ord : HashOrder} {vv : VmView} {hfacts : HostFacts}.
Variable k : Kernel.

(** *** Machine-wide files *)

Definition gen_cpuinfo : string :=
  let n := if host_processors <=? 0 then 1 else host_processors in
  concat_s ((fun i : nat =>
    concat_s ["processor"; tab; ": "; to_string (Z.of_nat i); newline;
              "vendor_id"; tab; ": GenuineBPF"; newline;
              "cpu family"; tab; ": 0"; newline; "model"; tab; tab; ": 0"; newline;
              "model name"; tab; ": BPF Virtual CPU"; newline; "cpu MHz"; tab; tab; ": 0.000"; newline;
              "cache size"; tab; ": 0 KB"; newline; "bogomips"; tab; ": 0.00"; newline; newline]%string)
    <$> seq 0 (Z.to_nat n)).

(** [fill_sysinfo]: total and free memory; the other sizes are 0, the unit 1. *)
Definition si_totalram : Z := Z.shiftl 2 30.
Definition si_freeram : Z := Z.shiftl 1 30.

Definition gen_meminfo : string :=
  concat_s ["MemTotal:       "; to_string (si_totalram / 1024); " kB"; newline;
            "MemFree:        "; to_string (si_freeram / 1024); " kB"; newline;
            "Buffers:        0 kB"; newline; "Cached:         0 kB"; newline;
            "SwapTotal:      0 kB"; newline; "SwapFree:       0 kB"; newline]%string.

Definition gen_uptime : string := concat_s [host_uptime; " 0.00"; newline]%string.
Definition gen_version : string := concat_s ["Linux version 6.12.0 (bpfvm) (clang)"; newline]%string.
Definition gen_filesystems : string :=
  concat_s ["nodev"; tab; "proc"; newline; "nodev"; tab; "tmpfs"; newline;
            "nodev"; tab; "devtmpfs"; newline; "nodev"; tab; "sysfs"; newline]%string.
Definition gen_loadavg : string := concat_s ["0.00 0.00 0.00 1/1 1"; newline]%string.
Definition gen_mounts : string :=
  concat_s ["proc / proc rw,relatime 0 0"; newline; "tmpfs /tmp tmpfs rw,relatime 0 0"; newline]%string.

(** *** Files of a task *)

Definition proc_state (t : Task) : string :=
  if has (t_flags t) VM_EXITED then "Z"
  else if has (t_flags t) VM_STOPPED then "T"
  else if has (t_flags t) VM_BLOCKED then "S" else "R".

Definition task_ppid (t : Task) : Z := from_option ppid 0 (group_of k t).
Definition task_sid (t : Task) : Z := from_option sid 0 (sessions k !! t_session t).

Definition gen_task_stat (id : Z) : option string :=
  t ← find_task k id;
  Some (concat_s
    ([to_string id; " ("; comm_ t; ") "; proc_state t; " "; to_string (task_ppid t); " ";
      to_string (pgid (t_pgrp t)); " "; to_string (task_sid t); " ";
      "0 0 0 0 0 0 0 0 0 0 0 0 0 0 0 1 "; "0 0 0 0 "; "0 0 0 0 0 "; "0 0 0 0 0 "; "0 0 0 0 0 0 0 ";
      "0 0"; newline]%string)).

Definition gen_task_status (id : Z) : option string :=
  t ← find_task k id;
  Some (concat_s
    (["Name:"; tab; comm_ t; newline;
      "Umask:"; tab; to_string (from_option ps_umask 0 (shared_of k t)); newline;
      "State:"; tab; proc_state t; newline;
      "Tgid:"; tab; to_string (from_option tgid 0 (group_of k t)); newline;
      "Ngid:"; tab; "0"; newline; "Pid:"; tab; to_string id; newline;
      "PPid:"; tab; to_string (task_ppid t); newline; "TracerPid:"; tab; "0"; newline;
      "Uid:"; tab; "0"; tab; "0"; tab; "0"; tab; "0"; newline;
      "Gid:"; tab; "0"; tab; "0"; tab; "0"; tab; "0"; newline;
      "FDSize:"; tab; "32"; newline; "Groups:"; newline;
      "VmSize:"; tab; "    0 kB"; newline; "VmRSS:"; tab; "    0 kB"; newline]%string)).

Definition gen_pid_cmdline (id : Z) : string :=
  match find_task k id with
  | None => EmptyString
  | Some _ => concat_s ((fun a => (a +:+ nul)%string) <$> v_argv id)
  end.

Definition gen_pid_environ (id : Z) : string :=
  match find_task k id with
  | None => EmptyString
  | Some _ => concat_s ((fun kv => (kv.1 +:+ "=" +:+ kv.2 +:+ nul)%string) <$> v_envp id)
  end.

Definition gen_task_comm (id : Z) : string :=
  match find_task k id with None => EmptyString | Some t => (comm_ t +:+ newline)%string end.

(** [%016lx]. *)
Definition hex_digit (d : Z) : ascii := ascii_of_N (Z.to_N (if d <? 10 then 48 + d else 87 + d)).
Fixpoint hex (n : nat) (z : Z) : string :=
  match n with
  | O => EmptyString
  | S n' => (hex n' (z / 16) +:+ String (hex_digit (z mod 16)) EmptyString)%string
  end.

Definition gen_pid_maps (id : Z) : string :=
  match find_task k id with
  | None => EmptyString
  | Some _ =>
    concat_s ((fun m => concat_s
      [hex 16 (m_paddr m); "-"; hex 16 (u64 (m_paddr m + m_size m)); " ";
       if nz (Z.land (m_flags m) PF_R) then "r" else "-";
       if nz (Z.land (m_flags m) PF_W) then "w" else "-";
       if nz (Z.land (m_flags m) PF_X) then "x" else "-"; "p ";
       hex 8 0; " 00:00 0"; newline]%string) <$> v_maps id)
  end.

(** *** Links and directories of a task *)

Definition fd_link_target (i : Z) : string :=
  match files k !! i with
  | None => EmptyString
  | Some f =>
    if is_signalfd f then "anon_inode:[signalfd]"
    else match (if 0 <=? host_fd f then host_fd_link (host_fd f) else None) with
         | Some l => if String.eqb l EmptyString then f_path f else guest_view host_loader_root l
         | None => f_path f
         end
  end.

Definition gen_pid_fd_entries (id : Z) : list (string * Gen) :=
  match find_task k id with
  | None => []
  | Some t => map_of ((fun e => (to_string e.1, LinkGen (fd_link_target e.2) (LFd e.2))) <$> entries (table k (t_ps t)))
  end.

Definition task_shared (id : Z) : option SharedState := t ← find_task k id; shared_of k t.
Definition cwd_target (id : Z) : string := from_option cwd EmptyString (task_shared id).
Definition exe_target (id : Z) : string :=
  match find_task k id with
  | Some _ => if v_image id then from_option exe_path EmptyString (task_shared id) else EmptyString
  | None => EmptyString
  end.

Definition proc_task_common_entries (id : Z) : list (string * Gen) :=
  map_of [("mounts", FileGen (Some gen_mounts)); ("root", LinkGen "/" LPlain);
          ("statm", FileGen (Some ("0 0 0 0 0 0 0" +:+ newline)));
          ("cmdline", FileGen (Some (gen_pid_cmdline id))); ("environ", FileGen (Some (gen_pid_environ id)));
          ("maps", FileGen (Some (gen_pid_maps id))); ("fd", DirGen (gen_pid_fd_entries id));
          ("cwd", LinkGen (cwd_target id) LPlain); ("exe", LinkGen (exe_target id) (LExe id))]%string.

Definition thread_entries (id : Z) : list (string * Gen) :=
  emplace "status" (FileGen (gen_task_status id))
    (emplace "stat" (FileGen (gen_task_stat id))
       (emplace "comm" (FileGen (Some (gen_task_comm id))) (proc_task_common_entries id))).

Definition proc_pid_task_entries (id : Z) : list (string * Gen) :=
  match find_task k id with
  | None => []
  | Some t =>
    map_of ((fun tid => (to_string tid, DirGen (thread_entries tid)))
              <$> live_of k (from_option threads [] (group_of k t)))
  end.

Definition proc_pid_entries (id : Z) : list (string * Gen) :=
  emplace "task" (DirGen (proc_pid_task_entries id)) (thread_entries id).

Definition procs : list (string * Gen) :=
  map_of [("cpuinfo", FileGen (Some gen_cpuinfo)); ("meminfo", FileGen (Some gen_meminfo));
          ("uptime", FileGen (Some gen_uptime)); ("version", FileGen (Some gen_version));
          ("filesystems", FileGen (Some gen_filesystems)); ("loadavg", FileGen (Some gen_loadavg));
          ("mounts", LinkGen "self/mounts" LPlain)]%string.

Definition own_tgid (self : Z) : Z := from_option tgid 0 (tasks k !! self ≫= group_of k).

(** [proc_root]: the top level, as task [self] sees it. *)
Definition proc_root_entries (self : Z) : list (string * Gen) :=
  emplace "thread-self" (LinkGen (to_string (own_tgid self) +:+ "/task/" +:+ to_string self) LPlain)
    (emplace "self" (LinkGen (to_string (own_tgid self)) LPlain)
       (foldl (fun m id => emplace (to_string id) (DirGen (proc_pid_entries id)) m) procs
          (hash_order (pid_map k)))).

Definition proc_root (self : Z) : Gen := DirGen (proc_root_entries self).

(** ** Lookup *)

(** The path of a link's target; [link_path] is the link. *)
Definition resolve_symlink (link_path target : string) : string :=
  if String.eqb target EmptyString then EmptyString
  else lexically_normal (if is_absolute target then target else path_div (parent_path link_path) target).

(** [to_segs]: the names after "/proc". *)
Definition to_segs (p : string) : list string := names (str_from 5 p).

Definition is_link (g : Gen) : bool := match g with LinkGen _ _ => true | _ => false end.

(** The loop of [lookup]: [rest] are the names from [segs[i]] on.  The node and
    the path that leaves /proc (empty for none); [None] when the fuel is used up. *)
Fixpoint lookup_loop (fuel : nat) (self : Z) (current : Gen) (cur_path : string) (rest : list string)
  : option (Gen * string) :=
  match fuel with
  | O => None
  | S fuel' =>
    match rest with
    | [] => Some (current, EmptyString)
    | seg :: more =>
      match current with
      | LinkGen target _ =>
        if String.eqb target EmptyString then Some (NoneGen, EmptyString)
        else
          let rs := resolve_symlink cur_path target in
          if String.eqb rs EmptyString || negb (starts_with "/proc" rs)
          then Some (NoneGen, foldl path_div rs more)
          else lookup_loop fuel' self (proc_root self) "/proc" (to_segs rs ++ more)
      | DirGen es =>
        match find_key seg es with
        | None => Some (NoneGen, EmptyString)
        | Some g =>
          let cur_path' := (cur_path +:+ "/" +:+ seg)%string in
          lookup_loop fuel' self g cur_path' (if is_link g && negb (bool_decide (more = [])) then rest else more)
        end
      | NoneGen | FileGen _ => Some (NoneGen, EmptyString)
      end
    end
  end.

Definition lookup_fuel (l : list string) : nat := 2 * length l + 16.

Definition proc_lookup (self : Z) (guest_abs : string) : option (Gen * string) :=
  let segs := to_segs guest_abs in lookup_loop (lookup_fuel segs) self (proc_root self) "/proc" segs.

(** ** Dispatch of the path operations *)

(** What [open] comes down to. *)
Inductive open_action :=
| OErr (e : Z)  (** fails with [errno = e] *)
| OHost (host : string) (oflags mode : Z) (guest : string)  (** [HostFd::open] *)
| OTty (i : Z) (guest : string) (tty : Z)  (** duplicate of an open terminal *)
| OPtmx (guest : string)  (** a new pty *)
| OPts (n oflags mode : Z) (guest : string) (tty : Z)  (** the slave of a pty *)
| ODir (guest : string) (es : list (string * Z))
| OFile (guest : string) (content : option string)
| OReopen (i oflags : Z)  (** the host file of an open file, anew *)
| OClone (i : Z) (trunc : bool)  (** a duplicate of an open file *)
| OExe (pid oflags : Z) (guest : string)
| OLoop.  (** fuel used up *)

(** [DevFd::open]. *)
Definition dev_open (self : Z) (guest : string) (oflags mode : Z) : open_action :=
  if String.eqb guest "/dev/tty" || String.eqb guest "/dev/console" then
    match t ← tasks k !! self; sessions k !! t_session t ≫= ctty with
    | None => OErr ENXIO
    | Some c =>
      match list_find (fun e : Z * Z => file_tty <$> files k !! e.2 = Some (Some c)) (entries (table k (own_ps self k))) with
      | None => OErr ENXIO
      | Some (_, (_, i)) => OTty i guest c
      end
    end
  else if String.eqb guest "/dev/ptmx" then OPtmx guest
  else if starts_with "/dev/pts/" guest then
    let n := parse_dev_suffix (str_from 9 guest) in
    match ptmx_registry k !! n with
    | None => OErr ENOENT
    | Some tty => OPts n (andnot oflags O_CREAT) mode guest tty
    end
  else match find_key guest dev_nodes with
       | Some HostChr => OHost guest oflags mode guest
       | _ => OErr ENOENT
       end.

Definition gen_dtype (g : Gen) : Z :=
  match g with DirGen _ => DT_DIR | LinkGen _ _ => DT_LNK | _ => DT_REG end.

Definition own_root (self : Z) : string := from_option root EmptyString (shared k !! own_ps self k).

Definition is_plain_host (i : Z) : bool :=
  match f_kind <$> files k !! i with Some KHost => true | _ => false end.
Definition is_signalfd_at (i : Z) : bool := from_option is_signalfd false (files k !! i).

(** [ProcPath::open] of a node; a plain link is for the caller to follow. *)
Definition node_open (guest : string) (oflags : Z) (node : Gen) : open_action + string :=
  let nofollow := nz (Z.land oflags BPF_O_NOFOLLOW) in
  match node with
  | NoneGen => inl (OErr ENOENT)
  | LinkGen _ (LFd i) =>
    if nofollow then inl (OErr ELOOP)
    else if is_plain_host i then inl (OReopen i oflags)
    else if is_signalfd_at i then inl (OErr EACCES)
    else inl (OClone i (nz (Z.land oflags O_TRUNC)))
  | LinkGen target (LExe pid) =>
    if nofollow then inl (OErr ELOOP)
    else if negb (v_image pid) then inl (OErr ENOENT)
    else if nz (Z.land oflags (Z.lor O_WRONLY O_RDWR)) then inl (OErr ETXTBSY)
    else inl (OExe pid oflags target)
  | _ =>
    if nz (Z.land oflags (Z.lor (Z.lor O_WRONLY O_RDWR) (Z.lor O_TRUNC O_APPEND))) then inl (OErr EROFS)
    else match node with
         | LinkGen t _ =>
           if nofollow then inl (OErr ELOOP)
           else let target := resolve_symlink guest t in
                if String.eqb target EmptyString then inl (OErr ENOENT) else inr target
         | DirGen es => inl (ODir guest ((fun e => (e.1, gen_dtype e.2)) <$> es))
         | FileGen c => inl (OFile guest c)
         | NoneGen => inl (OErr EINVAL)
         end
  end.

(** [ResolvePath(self, guest)->open(flags, mode)]. *)
Fixpoint path_open (fuel : nat) (self : Z) (guest : string) (oflags mode : Z) : open_action :=
  match fuel with
  | O => OLoop
  | S f =>
    let p := ResolvePath (own_root self) guest in
    match p_kind p with
    | HostPath => OHost (p_host p) oflags mode (p_guest p)
    | DevPath =>
      let '(info, escape) := dev_lookup k (p_guest p) in
      if negb (String.eqb escape EmptyString) then path_open f self escape oflags mode
      else match info with
           | Some DevDir => ODir (p_guest p) (dev_dir_entries k (p_guest p))
           | Some (DevSymlink link) =>
             if nz (Z.land oflags BPF_O_NOFOLLOW) then OErr ELOOP else path_open f self link oflags mode
           | _ => dev_open self (p_guest p) oflags mode
           end
    | ProcPath =>
      match proc_lookup self (p_guest p) with
      | None => OLoop
      | Some (node, escape) =>
        if negb (String.eqb escape EmptyString) then path_open f self escape oflags mode
        else match node_open (p_guest p) oflags node with
             | inl a => a
             | inr target => path_open f self target oflags mode
             end
      end
    end
  end.

(** [readlink]: an error, the text of the link, or the host's call. *)
Inductive link_action := LErr (e : Z) | LText (s : string) | LHost (host : string) | LLoop.

Fixpoint path_readlink (fuel : nat) (self : Z) (guest : string) : link_action :=
  match fuel with
  | O => LLoop
  | S f =>
    let p := ResolvePath (own_root self) guest in
    match p_kind p with
    | HostPath => LHost (p_host p)
    | DevPath =>
      let '(info, escape) := dev_lookup k (p_guest p) in
      if negb (String.eqb escape EmptyString) then path_readlink f self escape
      else match info with
           | None => LErr ENOENT
           | Some (DevSymlink link) => LText link
           | Some _ => LErr EINVAL
           end
    | ProcPath =>
      match proc_lookup self (p_guest p) with
      | None => LLoop
      | Some (node, escape) =>
        if negb (String.eqb escape EmptyString) then path_readlink f self escape
        else match node with
             | NoneGen => LErr ENOENT
             | LinkGen t _ => if String.eqb t EmptyString then LErr ENOENT else LText t
             | _ => LErr EINVAL
             end
      end
    end
  end.

(** [statx]: an error, a synthetic node (mode and size), or a call on the host. *)
Inductive stat_action :=
| SErr (e : Z) | SNode (mode size : Z) | SHost (host : string) (mask sflags : Z)
| SFd (i mask : Z) | SExe (pid mask : Z) | SLoop.

Definition node_stat (node : Gen) : stat_action :=
  match node with
  | FileGen _ => SNode (Z.lor S_IFREG 0x124) 0
  | DirGen _ => SNode (Z.lor S_IFDIR 0x16D) 0
  | LinkGen _ _ => SNode (Z.lor S_IFLNK 0x1FF) 0
  | NoneGen => SNode 0 0
  end.

Fixpoint path_statx (fuel : nat) (self : Z) (guest : string) (mask sflags : Z) : stat_action :=
  match fuel with
  | O => SLoop
  | S f =>
    let p := ResolvePath (own_root self) guest in
    let nofollow := nz (Z.land sflags AT_SYMLINK_NOFOLLOW) in
    match p_kind p with
    | HostPath => SHost (p_host p) mask sflags
    | DevPath =>
      let '(info, escape) := dev_lookup k (p_guest p) in
      if negb (String.eqb escape EmptyString) then path_statx f self escape STATX_BASIC_STATS sflags
      else match info with
           | None => SErr ENOENT
           | Some HostChr => SHost (p_guest p) mask sflags
           | Some DevDir => SNode (Z.lor S_IFDIR 0x16D) 0
           | Some (DevSymlink link) =>
             if nofollow then SNode (Z.lor S_IFLNK 0x1FF) (Z.of_nat (String.length link))
             else path_statx f self link mask sflags
           end
    | ProcPath =>
      match proc_lookup self (p_guest p) with
      | None => SLoop
      | Some (node, escape) =>
        if negb (String.eqb escape EmptyString) then path_statx f self escape STATX_BASIC_STATS sflags
        else match node with
             | NoneGen => SErr ENOENT
             | LinkGen t kind =>
               if nofollow then node_stat node
               else match kind with
                    | LFd i => SFd i mask
                    | LExe pid => if v_image pid then SExe pid mask else SErr ENOENT
                    | LPlain =>
                      let target := resolve_symlink (p_guest p) t in
                      if String.eqb target EmptyString then SErr ENOENT
                      else if starts_with "/proc" target then
                        match proc_lookup self target with
                        | None => SLoop
                        | Some (NoneGen, _) => SErr ENOENT
                        | Some (node', _) => node_stat node'
                        end
                      else path_statx f self target STATX_BASIC_STATS sflags
                    end
             | _ => node_stat node
             end
      end
    end
  end.

(** [access]. *)
Inductive access_action := AErr (e : Z) | AOk | AHost (host : string) (mode aflags : Z) | ALoop.

Fixpoint path_access (fuel : nat) (self : Z) (guest : string) (mode aflags : Z) : access_action :=
  match fuel with
  | O => ALoop
  | S f =>
    let p := ResolvePath (own_root self) guest in
    match p_kind p with
    | HostPath => AHost (p_host p) mode aflags
    | DevPath =>
      let '(info, escape) := dev_lookup k (p_guest p) in
      if negb (String.eqb escape EmptyString) then path_access f self escape mode aflags
      else match info with
           | None => AErr ENOENT
           | Some HostChr => AHost (p_guest p) mode aflags
           | Some _ => AOk
           end
    | ProcPath =>
      match proc_lookup self (p_guest p) with
      | None => ALoop
      | Some (node, escape) =>
        if negb (String.eqb escape EmptyString) then path_access f self escape mode aflags
        else match node with NoneGen => AErr ENOENT | _ => AOk end
      end
    end
  end.

(** The operations that change a file system: all but a host path refuse. *)
Definition path_change (self : Z) (guest : string) : Z + string :=
  let p := ResolvePath (own_root self) guest in
  match p_kind p with HostPath => inr (p_host p) | _ => inl (- EROFS) end.

(** [link] and [rename]: [-EXDEV] when either side is virtual. *)
Definition path_pair (self : Z) (old new : string) : Z + string * string :=
  let p := ResolvePath (own_root self) old in
  let q := ResolvePath (own_root self) new in
  match p_kind p with
  | ProcPath => inl (- EXDEV)
  | _ =>
    if is_proc (p_guest p) || is_proc (p_guest q) || is_dev (p_guest p) || is_dev (p_guest q) then inl (- EXDEV)
    else inr (p_host p, p_host q)
  end.

End Tree.

(** ** Lookup *)

(** *** Maps sorted by key *)

Lemma find_key_in {A} (key : string) (l : list (string * A)) (a : A) : find_key key l = Some a -> (key, a) ∈ l.
Proof.
  induction l as [|[x b] l IH]; [done|]. cbn. destruct (String.eqb_spec key x) as [->|].
  - intros [= ->]. left.
  - intros H%IH. by right.
Qed.

Lemma find_key_absent {A} (key : string) (l : list (string * A)) :
  Forall (fun e => e.1 <> key) l -> find_key key l = None.
Proof. induction 1 as [|[x b] l Hx Hl IH]; [done|]. cbn in *. by rewrite (proj2 (String.eqb_neq key x)) by congruence. Qed.

Lemma emplace_Forall {A} (P : string * A -> Prop) (key : string) (a : A) (l : list (string * A)) :
  P (key, a) -> Forall P l -> Forall P (emplace key a l).
Proof.
  intros Ha. induction 1 as [|[x b] l Hx Hl IH]; [by constructor|]. cbn.
  destruct (String.eqb key x); [by constructor|]. destruct (String.ltb key x); by repeat constructor.
Qed.

Lemma foldl_emplace_Forall {A B} (P : string * A -> Prop) (f : B -> string * A) (l : list B) (m : list (string * A)) :
  Forall (fun b => P (f b)) l -> Forall P m -> Forall P (foldl (fun m b => emplace (f b).1 (f b).2 m) m l).
Proof.
  intros Hl. revert m. induction Hl as [|b l Hb Hl IH]; intros m Hm; [done|]. cbn. apply IH, emplace_Forall; [|done].
  by destruct (f b).
Qed.

Lemma map_of_Forall {A} (P : string * A -> Prop) (l : list (string * A)) : Forall P l -> Forall P (map_of l).
Proof. intros H. apply (foldl_emplace_Forall P id); [done|constructor]. Qed.

(** *** Paths below /proc *)

Definition path_of (segs : list string) : string := foldl (fun p s => (p +:+ "/" +:+ s)%string) "/proc"%string segs.

Lemma path_of_snoc (segs : list string) (s : string) : path_of (segs ++ [s]) = (path_of segs +:+ "/" +:+ s)%string.
Proof. unfold path_of. by rewrite foldl_app. Qed.

Lemma split_path_of (segs : list string) :
  Forall valid segs -> split_slash (path_of segs) = ""%string :: "proc"%string :: segs.
Proof.
  intros H. induction segs as [|s segs IH] using rev_ind; [done|]. apply Forall_app in H as [H1 H2].
  inversion_clear H2 as [|? ? [Hs _] _]. rewrite path_of_snoc, split_slash_app, IH by done. by rewrite Hs.
Qed.

Lemma plain_valid (s : string) : plain s -> valid s.
Proof. by intros []. Qed.

Lemma plains_valid (l : list string) : Forall plain l -> Forall valid l.
Proof. intros H. eapply list.Forall_impl; [exact H|]. apply plain_valid. Qed.

Lemma str_from_app (a b : string) : str_from (String.length a) (a +:+ b)%string = b.
Proof.
  unfold str_from. rewrite str_append_length. replace (_ + _ - _)%nat with (String.length b) by lia.
  induction a as [|c a IH]; cbn [String.length].
  - change ("" +:+ b)%string with b. induction b as [|c b IH]; [done|]. cbn. by rewrite IH.
  - exact IH.
Qed.

Lemma join_split (p : string) : Paths.join (split_slash p) = p.
Proof.
  induction p as [|c p IH]; [done|]. cbn [split_slash]. unfold Paths.join in *.
  destruct (split_slash p) as [|x l] eqn:Es; [by destruct (split_slash_ne p)|]. destruct (is_slash c) eqn:E.
  - unfold is_slash in E. apply Ascii.eqb_eq in E as ->.
    change (String.concat "/" ("" :: x :: l))%string with ("/" +:+ String.concat "/" (x :: l))%string. by rewrite IH.
  - rewrite <- IH. by destruct l.
Qed.

(** A relative link below /proc leads below /proc, beside the link. *)
Lemma resolve_relative (segs : list string) (s t : string) :
  Forall plain segs -> plain s -> Forall plain (names t) -> t <> EmptyString -> is_absolute t = false ->
  let rs := resolve_symlink (path_of (segs ++ [s])) t in
  rs <> EmptyString /\ starts_with "/proc" rs = true /\ to_segs rs = segs ++ names t.
Proof.
  intros Hsegs Hs Ht Hne Hrel rs.
  assert (Hv : Forall valid (segs ++ [s])) by (apply plains_valid, Forall_app; auto).
  assert (Hp : parent_path (path_of (segs ++ [s])) = path_of segs).
  { unfold parent_path. rewrite split_path_of by done.
    change (""%string :: "proc"%string :: segs ++ [s]) with ((""%string :: "proc"%string :: segs) ++ [s]).
    rewrite removelast_last, bool_decide_false by (cbn; lia). rewrite andb_false_r.
    rewrite <- (split_path_of segs) by (by apply plains_valid). apply join_split. }
  assert (Hd : path_div (path_of segs) t = (path_of segs +:+ "/" +:+ t)%string).
  { unfold path_div. rewrite Hrel. cbn [orb]. pose proof (split_path_of segs (plains_valid _ Hsegs)) as E.
    rewrite (proj2 (String.eqb_neq _ _)) by (intros E0; rewrite E0 in E; done).
    unfold ends_slash. rewrite E. destruct (exists_last (l := "proc"%string :: segs)) as (l' & y & E'); [done|].
    rewrite E'. change (""%string :: l' ++ [y]) with ((""%string :: l') ++ [y]). rewrite List.last_last.
    rewrite (proj2 (String.eqb_neq _ _)); [done|]. intros ->.
    assert (Forall valid (l' ++ [""%string])) as [_ Hb]%Forall_app by (rewrite <- E'; constructor; [done|by apply plains_valid]).
    apply Forall_inv in Hb as [_ Hb]. by apply Hb. }
  assert (Hn : names (path_of segs +:+ "/" +:+ t)%string = "proc"%string :: segs ++ names t).
  { rewrite names_app. unfold names at 1. rewrite split_path_of by (by apply plains_valid).
    rewrite list.filter_cons_False by (by intros []). rewrite filter_valid; [done|].
    constructor; [done|by apply plains_valid]. }
  assert (Ha : is_absolute (path_of segs +:+ "/" +:+ t)%string = true).
  { destruct (path_of segs) as [|c p] eqn:E; [by pose proof (split_path_of segs (plains_valid _ Hsegs)) as E2; rewrite E in E2|].
    pose proof (split_path_of segs (plains_valid _ Hsegs)) as E2. rewrite E in E2. cbn in E2.
    change (is_slash c = true). destruct (is_slash c); [done|]. destruct (split_slash p); by injection E2. }
  assert (Hpl : Forall plain ("proc"%string :: segs ++ names t)) by (constructor; [done|by apply Forall_app]).
  assert (Hrs : exists d, rs = assemble true ("proc"%string :: segs ++ names t) d).
  { exists (ends_dir (path_of segs +:+ "/" +:+ t)%string). unfold rs, resolve_symlink.
    rewrite (proj2 (String.eqb_neq _ _) Hne), Hrel, Hp, Hd. rewrite lexically_normal_ne.
    - rewrite Ha, Hn, norm_id; [done|by apply plain_normal].
    - intros E. by rewrite E in Ha. }
  destruct Hrs as [d ->]. split; [apply assemble_not_empty|].
  pose proof (names_assemble_abs ("proc"%string :: segs ++ names t) d (plains_valid _ Hpl)) as Hna.
  assert (exists x, assemble true ("proc"%string :: segs ++ names t) d = ("/proc" +:+ x)%string /\ (x = EmptyString \/ is_absolute x = true))
    as (x & Ex & Hx).
  { rewrite assemble_eq by (try done; by apply plains_valid).
    destruct (segs ++ names t) as [|y l].
    - exists (if tail_slash ["proc"%string] d then "/" else "")%string. split; [done|]. destruct (tail_slash _ d); [by right|by left].
    - eexists ("/" +:+ Paths.join (y :: l) +:+ _)%string. split; [|by right].
      change (Paths.join ("proc"%string :: y :: l)) with ("proc" +:+ "/" +:+ Paths.join (y :: l))%string.
      rewrite !string_app_assoc. reflexivity. }
  rewrite Ex in *. split; [by destruct x|]. unfold to_segs. change 5%nat with (String.length "/proc"). rewrite str_from_app.
  destruct Hx as [->|Hx].
  - change ("/proc" +:+ "")%string with "/proc"%string in Hna. cbn in Hna. injection Hna as E. by rewrite <- E.
  - rewrite names_abs_app in Hna by done. cbn in Hna. by injection Hna.
Qed.

(** *** Trees whose links leave /proc *)

(** A target that leads out of /proc, or to nothing. *)
Definition leaves (t : string) : Prop :=
  t = EmptyString \/ (is_absolute t = true /\ starts_with "/proc" (lexically_normal t) = false).

(** Every link of a directory leaves /proc or names nothing beside it; [n] levels
    of directories lie below. *)
Fixpoint tame (n : nat) (es : list (string * Gen)) : Prop :=
  Forall (fun e : string * Gen =>
    match e.2 with
    | LinkGen t _ => leaves t \/ (plain t /\ is_absolute t = false /\ find_key t es = None)
    | DirGen es' => match n with O => False | S m => tame m es' end
    | NoneGen | FileGen _ => True
    end) es.

Lemma tame_Forall (n : nat) (es : list (string * Gen)) :
  tame n es = Forall (fun e : string * Gen =>
    match e.2 with
    | LinkGen t _ => leaves t \/ (plain t /\ is_absolute t = false /\ find_key t es = None)
    | DirGen es' => match n with O => False | S m => tame m es' end
    | NoneGen | FileGen _ => True
    end) es.
Proof. by destruct n. Qed.

Lemma names_plain (t : string) : plain t -> names t = [t].
Proof. intros [[Hs Hne] _]. unfold names. rewrite Hs, list.filter_cons_True; done. Qed.

(** The directory the names [pre] lead to without a link. *)
Fixpoint descends (g : Gen) (pre : list string) (g' : Gen) : Prop :=
  match pre with
  | [] => g' = g
  | s :: r => exists es g1, g = DirGen es /\ find_key s es = Some g1 /\ is_link g1 = false /\ descends g1 r g'
  end.

Lemma descends_snoc (g g1 g2 : Gen) (pre : list string) (s : string) (es : list (string * Gen)) :
  descends g pre g1 -> g1 = DirGen es -> find_key s es = Some g2 -> is_link g2 = false -> descends g (pre ++ [s]) g2.
Proof.
  intros H -> Hf Hl. revert g H. induction pre as [|x pre IH]; intros g H; cbn in *.
  - subst g. by exists es, g2.
  - destruct H as (es' & g' & -> & Hx & Hl' & H). exists es', g'. eauto.
Qed.

Section Termination.
Context {ord : HashOrder} {vv : VmView} {hfacts : HostFacts}.
Variable k : Kernel.
Variable self : Z.

Abbreviation loop := (lookup_loop k).

(** More fuel changes no answer. *)
Lemma lookup_loop_mono (f f' : nat) (g : Gen) (p : string) (rest : list string) (r : Gen * string) :
  (f <= f')%nat -> loop f self g p rest = Some r -> loop f' self g p rest = Some r.
Proof.
  revert f' g p rest. induction f as [|f IH]; intros f' g p rest Hle; [done|].
  destruct f' as [|f']; [lia|]. cbn [lookup_loop]. assert (Hff : (f <= f')%nat) by lia. clear Hle.
  destruct rest as [|s more]; [done|]. destruct g as [| |t kd|es]; [done|done| |].
  - destruct (String.eqb t ""); [done|]. destruct (_ || _); [done|]. by apply IH.
  - destruct (find_key s es); [|done]. by apply IH.
Qed.

(** Names that meet no link are walked one turn each. *)
Lemma walk (pre : list string) (g g' : Gen) (p : string) (f : nat) (more : list string) :
  descends g pre g' -> loop (length pre + f) self g p (pre ++ more) = loop f self g' (foldl (fun q s => q +:+ "/" +:+ s)%string p pre) more.
Proof.
  revert g p. induction pre as [|s pre IH]; intros g p H; cbn in *.
  - by subst.
  - destruct H as (es & g1 & -> & Hf & Hl & H). rewrite Hf, Hl. cbn [andb]. by apply IH.
Qed.

Lemma tame_ends (n : nat) (es : list (string * Gen)) (pre rest : list string) :
  tame n es -> Forall plain pre -> Forall plain rest -> descends (proc_root k self) pre (DirGen es) ->
  loop (2 * n + length pre + 3) self (DirGen es) (path_of pre) rest <> None.
Proof.
  revert es pre rest. induction n as [n IH] using lt_wf_ind. intros es pre rest Ht Hpre Hrest Hd.
  destruct rest as [|s more]; [rewrite Nat.add_comm; done|]. apply Forall_cons in Hrest as [Hs Hmore].
  replace (2 * n + length pre + 3)%nat with (S (2 * n + length pre + 2)) by lia. cbn [lookup_loop].
  destruct (find_key s es) as [g|] eqn:Ef; [|done].
  pose proof (find_key_in _ _ _ Ef) as Hin. rewrite tame_Forall, list.Forall_forall in Ht. pose proof (Ht _ Hin) as Hg. cbn in Hg.
  rewrite <- path_of_snoc. destruct g as [|c|t kd|es'].
  - cbn [is_link andb]. replace (2 * n + length pre + 2)%nat with (S (2 * n + length pre + 1)) by lia. by destruct more.
  - cbn [is_link andb]. replace (2 * n + length pre + 2)%nat with (S (2 * n + length pre + 1)) by lia. by destruct more.
  - cbn [is_link andb]. replace (2 * n + length pre + 2)%nat with (S (2 * n + (length pre + 1))) by lia.
    destruct (decide (more = [])) as [->|Hm]; [done|]. rewrite bool_decide_false by done. cbn [negb lookup_loop].
    destruct (String.eqb_spec t ""%string) as [|Hne]; [done|]. destruct Hg as [[|[Ha Hout]]|(Htp & Hrel & Hno)]; [done| |].
    + unfold resolve_symlink. rewrite (proj2 (String.eqb_neq _ _) Hne), Ha, Hout. by rewrite orb_true_r.
    + destruct (resolve_relative pre s t Hpre Hs) as (H1 & H2 & H3); [by rewrite names_plain; [constructor|]|done|done|].
      rewrite (proj2 (String.eqb_neq _ _) H1), H2, H3. cbn [orb negb]. rewrite names_plain by done.
      rewrite <- app_assoc. replace (2 * n + (length pre + 1))%nat with (length pre + S (2 * n))%nat by lia.
      rewrite (walk pre _ _ _ _ _ Hd). cbn [lookup_loop app]. by rewrite Hno.
  - cbn [is_link andb]. destruct n as [|n]; [done|].
    replace (2 * S n + length pre + 2)%nat with (2 * n + length (pre ++ [s]) + 3)%nat by (rewrite length_app; cbn; lia).
    apply IH; [lia|done|by apply Forall_app; auto|done|]. by eapply descends_snoc.
Qed.

(** *** The tree of the kernel *)

(** Where the links of the tasks lead: the working directories and executables
    out of /proc, and so do the descriptors, but for names such as [pipe:[3]],
    which are no descriptor's number. *)
Record links_leave : Prop := {
  ll_cwd : forall id, leaves (cwd_target k id);
  ll_exe : forall id, leaves (exe_target k id);
  ll_fd : forall i, leaves (fd_link_target k i) \/
    (plain (fd_link_target k i) /\ is_absolute (fd_link_target k i) = false /\ forall n, to_string n <> fd_link_target k i)
}.
Hypothesis Hlinks : links_leave.

Lemma tame_fd (id : Z) : tame 0 (gen_pid_fd_entries k id).
Proof.
  unfold gen_pid_fd_entries. destruct (find_task k id) as [t|]; [|constructor]. cbn [tame].
  set (l := _ <$> entries _). assert (Hk : Forall (fun e : string * Gen => exists n, e.1 = to_string n) (map_of l)).
  { apply map_of_Forall. unfold l. apply Forall_fmap, list.Forall_forall. intros [n i] _. cbn. by exists n. }
  assert (Hl : Forall (fun e : string * Gen => exists i, e.2 = LinkGen (fd_link_target k i) (LFd i)) (map_of l)).
  { apply map_of_Forall. unfold l. apply Forall_fmap, list.Forall_forall. intros [n i] _. cbn. by exists i. }
  eapply list.Forall_impl; [exact Hl|]. intros e [i ->]. destruct (ll_fd Hlinks i) as [|(H1 & H2 & H3)]; [by left|right].
  split_and!; [done|done|]. apply find_key_absent. eapply list.Forall_impl; [exact Hk|]. intros e' [n ->]. apply H3.
Qed.

Lemma leaves_root : leaves "/".
Proof. right. split; reflexivity. Qed.

Lemma tame_thread (id : Z) : tame 1 (thread_entries k id).
Proof.
  pose proof (ll_cwd Hlinks id). pose proof (ll_exe Hlinks id). pose proof leaves_root. pose proof (tame_fd id) as Hfd.
  cbn [tame]. unfold thread_entries, proc_task_common_entries.
  assert (E : forall l, Forall (fun e : string * Gen => match e.2 with LinkGen t _ => leaves t | DirGen es => tame 0 es | _ => True end) l ->
    Forall (fun e : string * Gen => match e.2 with
      | LinkGen t _ => leaves t \/ (plain t /\ is_absolute t = false /\ find_key t l = None)
      | DirGen es => tame 0 es | _ => True end) l).
  { intros l Hl. eapply list.Forall_impl; [exact Hl|]. intros [x [| | |]]; cbn; auto. }
  apply E. do 3 (apply emplace_Forall; [done|]). apply map_of_Forall. repeat (apply list.Forall_cons; split; [done|]). done.
Qed.

Lemma tame_pid (id : Z) : tame 3 (proc_pid_entries k id).
Proof.
  pose proof (tame_thread id) as Ht. unfold proc_pid_entries. rewrite tame_Forall in *.
  assert (E : forall l n, Forall (fun e : string * Gen => match e.2 with LinkGen t _ => leaves t | DirGen es => tame n es | _ => True end) l ->
    Forall (fun e : string * Gen => match e.2 with
      | LinkGen t _ => leaves t \/ (plain t /\ is_absolute t = false /\ find_key t l = None)
      | DirGen es => tame n es | _ => True end) l).
  { intros l n Hl. eapply list.Forall_impl; [exact Hl|]. intros [x [| | |]]; cbn; auto. }
  apply E. pose proof (ll_cwd Hlinks id). pose proof (ll_exe Hlinks id). pose proof leaves_root. pose proof (tame_fd id) as Hfd.
  assert (Hfd2 : tame 2 (gen_pid_fd_entries k id)).
  { rewrite tame_Forall in *. eapply list.Forall_impl; [exact Hfd|]. intros [x [| | |]]; cbn; auto. done. }
  assert (Htask : tame 2 (proc_pid_task_entries k id)).
  { unfold proc_pid_task_entries. destruct (find_task k id); [|constructor]. cbn [tame]. apply map_of_Forall, Forall_fmap.
    apply list.Forall_forall. intros tid _. cbn. apply tame_thread. }
  apply emplace_Forall; [done|]. unfold thread_entries, proc_task_common_entries.
  do 3 (apply emplace_Forall; [done|]). apply map_of_Forall. repeat (apply list.Forall_cons; split; [done|]). done.
Qed.

(** Decimal numbers are plain names. *)
Definition num_chars : list ascii := String.list_ascii_of_string "-0123456789".
Definition num_char (c : ascii) : Prop := List.In c num_chars.

Lemma num_char_spec (c : ascii) :
  num_char c -> is_slash c = false /\ c <> "."%char /\ c <> "s"%char /\ c <> "t"%char /\ c <> "m"%char.
Proof. unfold num_char. cbn. intros H. repeat destruct H as [<-|H]; try done; by repeat split. Qed.

Fixpoint num_string (s : string) : Prop :=
  match s with EmptyString => True | String c r => num_char c /\ num_string r end.

Lemma num_string_no_slash (s : string) : num_string s -> no_slash s.
Proof.
  unfold no_slash. induction s as [|c s IH]; [done|]. intros [(Hc & _)%num_char_spec Hs]. cbn. rewrite Hc, IH by done. done.
Qed.

Lemma pretty_N_char_num (x : N) : num_char (pretty_N_char x).
Proof. unfold pretty_N_char, num_char. repeat case_match; cbn; tauto. Qed.

Lemma pretty_N_go_num (x : N) (s : string) : num_string s -> num_string (pretty_N_go x s).
Proof.
  revert s. induction (N.lt_wf_0 x) as [x _ IH]. intros s Hs. destruct (decide (0 < x)%N) as [Hx|Hx].
  - rewrite pretty_N_go_step by done. apply IH; [by apply N.div_lt|]. split; [apply pretty_N_char_num|done].
  - assert (x = 0%N) as -> by lia. by rewrite pretty_N_go_0.
Qed.

Lemma pretty_N_go_ne (x : N) (s : string) : s <> EmptyString -> pretty_N_go x s <> EmptyString.
Proof.
  revert s. induction (N.lt_wf_0 x) as [x _ IH]. intros s Hs. destruct (decide (0 < x)%N) as [Hx|Hx].
  - rewrite pretty_N_go_step by done. apply IH; [by apply N.div_lt|done].
  - assert (x = 0%N) as -> by lia. by rewrite pretty_N_go_0.
Qed.

Lemma pretty_N_num (x : N) : num_string (pretty x) /\ pretty x <> EmptyString.
Proof.
  unfold pretty, pretty_N. destruct (decide (x = 0%N)); [by split; [split; [cbn; tauto|]|]|].
  split; [by apply pretty_N_go_num|]. rewrite pretty_N_go_step by lia. by apply pretty_N_go_ne.
Qed.

Lemma to_string_num (z : Z) : num_string (to_string z) /\ to_string z <> EmptyString.
Proof.
  unfold to_string, pretty, pretty_Z. destruct z as [|p|p]; [by split; [split; [cbn; tauto|]|]|apply pretty_N_num|].
  destruct (pretty_N_num (Npos p)) as [H1 H2]. split; [|done]. split; [cbn; tauto|exact H1].
Qed.

Lemma num_plain (s : string) : num_string s -> s <> EmptyString ->
  plain s /\ is_absolute s = false /\ (s <> "self" /\ s <> "thread-self" /\ s <> "mounts")%string.
Proof.
  intros Hs Hne. pose proof (num_string_no_slash s Hs) as Hn. destruct s as [|c r]; [done|]. destruct Hs as [(H1 & H2 & H3 & H4 & H5)%num_char_spec _].
  split; [split; [done|]|]; split_and!; try (by intros [= -> _]); try (by intros [= ->]). exact H1.
Qed.

(** What the top level holds. *)
Definition top_entry (e : string * Gen) : Prop :=
  match e.2 with
  | LinkGen t _ => (e.1 = "self" /\ t = to_string (own_tgid k self)) \/
      (e.1 = "thread-self" /\ t = to_string (own_tgid k self) +:+ "/task/" +:+ to_string self) \/
      (e.1 = "mounts" /\ t = "self/mounts")
  | DirGen es => tame 3 es
  | _ => True
  end%string.

Lemma top_entries : Forall top_entry (proc_root_entries k self).
Proof.
  unfold proc_root_entries. apply emplace_Forall; [right; left; done|]. apply emplace_Forall; [by left|].
  apply (foldl_emplace_Forall top_entry (fun id => (to_string id, DirGen (proc_pid_entries k id)))).
  - apply list.Forall_forall. intros id _. apply tame_pid.
  - unfold procs. apply map_of_Forall. do 6 (apply list.Forall_cons; split; [done|]). constructor; [|done]. right; right; done.
Qed.

Lemma loop_dir (f : nat) (es : list (string * Gen)) (p s : string) (more : list string) :
  loop (S f) self (DirGen es) p (s :: more) =
  match find_key s es with
  | None => Some (NoneGen, EmptyString)
  | Some g => loop f self g (p +:+ "/" +:+ s)%string (if is_link g && negb (bool_decide (more = [])) then s :: more else more)
  end.
Proof. reflexivity. Qed.

Lemma loop_link (f : nat) (t : string) (kd : link_kind) (p s : string) (more : list string) :
  t <> EmptyString -> resolve_symlink p t <> EmptyString -> starts_with "/proc" (resolve_symlink p t) = true ->
  loop (S f) self (LinkGen t kd) p (s :: more) = loop f self (proc_root k self) "/proc" (to_segs (resolve_symlink p t) ++ more).
Proof.
  intros H1 H2 H3. cbn [lookup_loop]. by rewrite (proj2 (String.eqb_neq _ _) H1), (proj2 (String.eqb_neq _ _) H2), H3.
Qed.

(** One step from the top. *)
Lemma top_step (m : nat) (s : string) (more : list string) :
  plain s -> Forall plain more ->
  (forall t kd, find_key s (proc_root_entries k self) = Some (LinkGen t kd) -> more <> [] ->
     exists l, t <> EmptyString /\ is_absolute t = false /\ names t = l /\ Forall plain l /\
       loop m self (proc_root k self) "/proc" (l ++ more) <> None) ->
  (10 <= m)%nat -> loop (S (S m)) self (proc_root k self) "/proc" (s :: more) <> None.
Proof.
  intros Hs Hmore Hlink Hm. unfold proc_root at 1. rewrite loop_dir. destruct (find_key s (proc_root_entries k self)) as [g|] eqn:Ef; [|done].
  pose proof top_entries as Ht. rewrite list.Forall_forall in Ht. specialize (Ht _ (find_key_in _ _ _ Ef)). cbn in Ht.
  destruct g as [|c|t kd|es]; cbn [is_link andb].
  - by destruct more.
  - by destruct more.
  - destruct (decide (more = [])) as [->|Hne]; [done|]. rewrite bool_decide_false by done. cbn [negb lookup_loop].
    destruct (Hlink t kd eq_refl Hne) as (l & H1 & H2 & <- & H4 & H5).
    destruct (resolve_relative [] s t ltac:(constructor) Hs H4 H1 H2) as (R1 & R2 & R3).
    change (path_of ([] ++ [s])) with ("/proc" +:+ "/" +:+ s)%string in *.
    rewrite (proj2 (String.eqb_neq _ _) H1), (proj2 (String.eqb_neq _ _) R1), R2, R3. exact H5.
  - assert (Hd : descends (proc_root k self) [s] (DirGen es)) by (by exists (proc_root_entries k self), (DirGen es)).
    pose proof (tame_ends 3 es [s] more Ht ltac:(by constructor) Hmore Hd) as H.
    destruct (loop _ _ _ _ _) as [r|] eqn:E in H; [|done]. cbn [length] in E.
    change (path_of [s]) with ("/proc" +:+ "/" +:+ s)%string in E. by rewrite (lookup_loop_mono (2 * 3 + 1 + 3) (S m) _ _ _ _ ltac:(lia) E).
Qed.

Lemma top_link (s t : string) (kd : link_kind) :
  find_key s (proc_root_entries k self) = Some (LinkGen t kd) -> top_entry (s, LinkGen t kd).
Proof. intros H. pose proof top_entries as Ht. rewrite list.Forall_forall in Ht. exact (Ht _ (find_key_in _ _ _ H)). Qed.

(** A process's own directory. *)
Lemma ends_number (n : Z) (more : list string) :
  Forall plain more -> loop 12 self (proc_root k self) "/proc" (to_string n :: more) <> None.
Proof.
  intros Hm. destruct (to_string_num n) as [Hn Hne]. destruct (num_plain _ Hn Hne) as (Hp & _ & H1 & H2 & H3).
  apply (top_step 10); [done|done| |lia]. intros t kd [[E _]|[[E _]|[E _]]]%top_link; done.
Qed.

Lemma ends_self (s : string) (more : list string) :
  plain s -> Forall plain more -> s <> "mounts"%string -> loop 14 self (proc_root k self) "/proc" (s :: more) <> None.
Proof.
  intros Hs Hm Hne. apply (top_step 12); [done|done| |lia].
  destruct (to_string_num (own_tgid k self)) as [Hn Hn0]. destruct (num_plain _ Hn Hn0) as (Hp & Ha & _).
  destruct (to_string_num self) as [Hn' Hn0']. destruct (num_plain _ Hn' Hn0') as (Hp' & _ & _).
  intros t kd [[_ ->]|[[_ ->]|[E _]]]%top_link _; [| |done].
  - exists [to_string (own_tgid k self)]. split_and!; [done|done|by apply names_plain|by constructor|by apply ends_number].
  - exists [to_string (own_tgid k self); "task"%string; to_string self].
    change "/task/"%string with ("/" +:+ "task" +:+ "/")%string. rewrite !string_app_assoc.
    split_and!; [by destruct (to_string (own_tgid k self))|by destruct (to_string (own_tgid k self))| | |].
    + rewrite !names_app, (names_plain (to_string self)), (names_plain (to_string (own_tgid k self))) by done. done.
    + repeat (constructor; [done|]). constructor.
    + apply ends_number. by repeat (constructor; [done|]).
Qed.

Lemma ends_any (rest : list string) :
  Forall plain rest -> loop 16 self (proc_root k self) "/proc" rest <> None.
Proof.
  destruct rest as [|s more]; [done|]. intros [Hs Hm]%Forall_cons. destruct (decide (s = "mounts"%string)) as [->|Hne].
  - apply (top_step 14); [done|done| |lia]. intros t kd [[E _]|[[E _]|[_ ->]]]%top_link _; [done|done|].
    exists ["self"; "mounts"]%string. split_and!; [done|done|done|by repeat constructor|]. cbn [app].
    apply ends_self; [by repeat constructor|by constructor|done].
  - destruct (loop 14 self (proc_root k self) "/proc" (s :: more)) as [r|] eqn:E; [|by apply ends_self in E].
    by rewrite (lookup_loop_mono 14 16 _ _ _ _ ltac:(lia) E).
Qed.

(** C21: A lookup below /proc ends. As long as the working directories and the
    executables of the tasks lie outside /proc, and the links behind the open
    files lead outside it or are names such as [pipe:[7]] that no directory of
    descriptors holds, looking up any normalised path finds its node, or the path
    that leaves /proc, within [2 n + 16] turns for [n] names; the links [self],
    [thread-self] and [mounts] of /proc itself, which lead back into it, and the
    links found on the way are all counted. *)
Theorem lookup_terminates (guest : string) (Hguest : Forall plain (to_segs guest)) :
  exists r, proc_lookup k self guest = Some r /\
    forall fuel, (lookup_fuel (to_segs guest) <= fuel)%nat ->
      loop fuel self (proc_root k self) "/proc" (to_segs guest) = Some r.
Proof.
  pose proof (ends_any (to_segs guest) Hguest) as H. destruct (loop 16 _ _ _ _) as [r|] eqn:E; [|done].
  exists r. split; [|intros fuel Hf]; (eapply lookup_loop_mono; [|exact E]); unfold lookup_fuel in *; lia.
Qed.

End Termination.

(** A shell that reads from a pipe. *)
Definition demo_view : VmView :=
  {| v_argv _ := ["sh"%string]; v_envp _ := []; v_maps _ := []; v_image _ := true |}.
Definition demo_facts : HostFacts :=
  {| host_processors := 1; host_uptime := "1.00"; host_fd_link _ := Some "pipe:[7]"%string; host_loader_root := "" |}.
Definition proc_kernel (c : string) : Kernel :=
  set_files {[5 := mkfd 3 false "pipe:[7]" KHost]}
    (set_shared {[1 := mkshared [] 0 {[0 := 5]} c "/" "/bin/sh"]} demo_kernel).

Lemma proc_links_leave : @links_leave demo_view demo_facts (proc_kernel "/home").
Proof.
  assert (Hs : forall id s, task_shared (proc_kernel "/home") id = Some s -> s = mkshared [] 0 {[0 := 5]} "/home" "/" "/bin/sh").
  { intros id s. unfold task_shared, shared_of. destruct (find_task _ id) as [t|]; [|done]. cbn.
    by intros [_ <-]%lookup_singleton_Some. }
  constructor.
  - intros id. unfold cwd_target. destruct (task_shared _ id) as [s|] eqn:E; [|by left]. apply Hs in E as ->. by right.
  - intros id. unfold exe_target. destruct (find_task _ id); [|by left]. cbn.
    destruct (task_shared _ id) as [s|] eqn:E; [|by left]. apply Hs in E as ->. by right.
  - intros i. unfold fd_link_target. destruct (files _ !! i) as [f|] eqn:E; [|by left; left].
    unfold proc_kernel in E. cbn [files set_files] in E. apply lookup_singleton_Some in E as [_ <-].
    right. split_and!; [by repeat split|done|].
    intros n Hn. pose proof (proj1 (to_string_num n)) as H. rewrite Hn in H. destruct H as [H _]. cbn in H. intuition discriminate.
Qed.

Lemma lookup_terminates_witness :
  @proc_lookup key_order demo_view demo_facts (proc_kernel "/home") 1 "/proc/thread-self/fd/0/x" = Some (NoneGen, EmptyString) /\
  exists r, @proc_lookup key_order demo_view demo_facts (proc_kernel "/home") 1 "/proc/self/cwd/notes" = Some r /\
    r = (NoneGen, "/home/notes"%string).
Proof.
  split; [vm_compute; reflexivity|].
  destruct (@lookup_terminates key_order demo_view demo_facts (proc_kernel "/home") 1 proc_links_leave "/proc/self/cwd/notes")
    as (r & H & _); [by repeat constructor|]. exists r. split; [exact H|]. 
  assert (E : @proc_lookup key_order demo_view demo_facts (proc_kernel "/home") 1 "/proc/self/cwd/notes" = Some (NoneGen, "/home/notes"%string))
    by (vm_compute; reflexivity).
  rewrite E in H. by injection H.
Defined.

(** A process in /proc/self/task that enters /proc/self/cwd/1: the directory is
    opened under the path it was asked for, and once that path is the working
    directory, a lookup through [cwd] turns for ever, its path one name longer
    each time. *)
Lemma cwd_lookup_diverges :
  let k := proc_kernel "/proc/self/task" in
  (exists es, @path_open key_order demo_view demo_facts k 8 1 "/proc/self/cwd/1" 0 0 = ODir "/proc/self/cwd/1" es) /\
  forall fuel, @lookup_loop key_order demo_view demo_facts (proc_kernel "/proc/self/cwd/1") fuel 1
    (@proc_root key_order demo_view demo_facts (proc_kernel "/proc/self/cwd/1") 1) "/proc" ["self"; "cwd"; "x"]%string = None.
Proof.
  split; [eexists; vm_compute; reflexivity|].
  set (k := proc_kernel "/proc/self/cwd/1"). pose (es := @proc_pid_entries key_order demo_view demo_facts k 1).
  assert (F1 : find_key "self" (@proc_root_entries key_order demo_view demo_facts k 1) = Some (LinkGen "1" LPlain)) by (vm_compute; reflexivity).
  assert (F2 : find_key "1" (@proc_root_entries key_order demo_view demo_facts k 1) = Some (DirGen es)) by (vm_compute; reflexivity).
  assert (F3 : find_key "cwd" es = Some (LinkGen "/proc/self/cwd/1" LPlain)) by (vm_compute; reflexivity).
  assert (Hturn : forall f x more,
    @lookup_loop key_order demo_view demo_facts k (5 + f) 1 (@proc_root key_order demo_view demo_facts k 1) "/proc" ("self" :: "cwd" :: x :: more)%string =
    @lookup_loop key_order demo_view demo_facts k f 1 (@proc_root key_order demo_view demo_facts k 1) "/proc" ("self" :: "cwd" :: "1" :: x :: more)%string).
  { intros f x more. unfold proc_root at 1. cbn [Nat.add]. rewrite loop_dir, F1. cbn [is_link]. rewrite bool_decide_false by done.
    cbn [negb andb]. rewrite loop_link by (vm_compute; discriminate || reflexivity).
    change (to_segs _) with ["1"%string]. cbn [app]. unfold proc_root at 1. rewrite loop_dir, F2. cbn [is_link andb]. rewrite loop_dir, F3.
    cbn [is_link]. rewrite bool_decide_false by done. cbn [negb andb]. rewrite loop_link by (vm_compute; discriminate || reflexivity). reflexivity. }
  intros fuel. assert (H : forall x more,
    @lookup_loop key_order demo_view demo_facts k fuel 1 (@proc_root key_order demo_view demo_facts k 1) "/proc" ("self" :: "cwd" :: x :: more)%string = None).
  { induction fuel as [fuel IH] using lt_wf_ind. intros x more.
    destruct (le_lt_dec 5 fuel) as [Hge|Hlt].
    - replace fuel with (5 + (fuel - 5))%nat by lia. rewrite Hturn. apply IH. lia.
    - destruct (lookup_loop _ _ _ _ _ _) as [r|] eqn:E; [|done].
      apply (lookup_loop_mono _ _ _ 5) in E; [|lia]. change 5%nat with (5 + 0)%nat in E. by rewrite Hturn in E. }
  apply H.
Qed.
