(* ===== verification/FileSys.v ===== *)
(** * FileSys: the system calls on paths

    filesystem.cpp and [do_openat] (file_io.cpp): each call reads its path from
    guest memory, makes it absolute ([Paths]), finds out what it leads to
    ([Procfs]) and takes that action on the host or on an open file.  The host's
    file system is the class [HostFs]; what it answers may depend on everything
    that happened ([host_op] records the call).  The results on these calls are in [Confine]. *)

From S2P Require Import Prelude Bytes HostMem AddrSpace Isa Vm Kernel Signals SigCalls FdTable Session Process Paths VirtualFs Procfs.
From Stdlib Require Import Lia Ascii.
From stdpp Require Import base numbers list gmap strings option fin_maps fin_sets relations.

Open Scope Z_scope.
Open Scope vm_scope.

Definition ESPIPE : Z := 29.
Definition ERANGE : Z := 34.
Definition ESRCH : Z := 3.
Definition STATX_TYPE : Z := 1.
Definition AT_EMPTY_PATH : Z := 0x1000.
Definition PATH_LIMIT : nat := 4096.

(** Calls on a host path that return 0 or an error. *)
Inductive path_call :=
| HUnlink (p : string) (f : Z)
| HMkdir (p : string) (mode : Z)
| HSymlink (target p : string)
| HChmod (p : string) (mode f : Z)
| HTruncate (p : string) (len : Z)
| HUtimens (p : string) (times : option (Z * Z * (Z * Z))) (f : Z)
| HLink (old new : string) (f : Z)
| HRename (old new : string) (f : Z)
| HAccess (p : string) (mode f : Z).

Class HostFs := {
  host_openat : Kernel -> string -> Z -> Z -> Z;  (** a host fd, or [-errno] *)
  host_reopen : Kernel -> Z -> Z -> Z;  (** the file behind a host fd, anew *)
  host_open_exe : Kernel -> Z -> Z -> Z;  (** the image of a task *)
  host_openpt : Kernel -> Z + Z * Z;  (** a pty: its master and its number *)
  host_ftruncate : Kernel -> Z -> Z -> Z;
  host_futimens : Kernel -> Z -> option (Z * Z * (Z * Z)) -> Z;
  host_path_call : Kernel -> path_call -> Z;  (** 0 or [-errno] *)
  host_readlink : Kernel -> string -> Z -> Z + list Z;
  host_statx : Kernel -> string -> Z -> Z -> Z + list Z;  (** flags, mask *)
  host_fstatx : Kernel -> Z -> Z -> Z + list Z;
  host_exe_statx : Kernel -> Z -> Z -> Z + list Z
}.

(** A call of the host. *)
Definition host_op {A} (f : Kernel -> A) : M World A := kernel_op (fun _ k => (f k, emit EvHost k)).

(** ** struct statx *)

(** The structure the synthetic nodes report: basic fields, one link, owner 0. *)
Definition stat_bytes (mode size : Z) : list Z :=
  le_bytes 4 STATX_BASIC_STATS ++ le_bytes 4 4096 ++ le_bytes 8 0 ++ le_bytes 4 1 ++ le_bytes 4 0 ++
  le_bytes 4 0 ++ le_bytes 2 mode ++ le_bytes 2 0 ++ le_bytes 8 0 ++ le_bytes 8 size ++ replicate 208 0.

Definition STATX_SIZE : Z := 256.

(** [stx_mode], and its overwriting. *)
Definition stat_mode (b : list Z) : Z := nth 28 b 0 + 256 * nth 29 b 0.
Definition set_stat_mode (mode : Z) (b : list Z) : list Z := take 28 b ++ le_bytes 2 mode ++ drop 30 b.

Definition S_ISDIR (mode : Z) : bool := Z.land mode 0xF000 =? S_IFDIR.

Section Calls.
Context {ord : HashOrder} {env : HostEnv} {hf : HostFds} {fs : HostFs} {vv : VmView} {hfacts : HostFacts}.

(** [Fd::fstatx]. *)
Definition fd_fstatx (f : Fd) (mask : Z) : M World (Z + list Z) :=
  match f_kind f with
  | KHost | KDev _ _ => host_op (fun k => host_fstatx k (host_fd f) mask)
  | KSignal _ _ =>
    rc <- host_op (fun k => host_fstatx k (host_fd f) mask) ;;
    ret (match rc with inl e => inl e | inr b => inr (set_stat_mode 0x180 b) end)
  | KProc _ _ => ret (inr (stat_bytes (Z.lor S_IFREG 0x124) 0))
  | KDir _ _ => ret (inr (stat_bytes (Z.lor S_IFDIR 0x16D) 0))
  end.

(** [Fd::ftruncate], [Fd::futimens]. *)
Definition fd_ftruncate (f : Fd) (len : Z) (k : Kernel) : Z :=
  match f_kind f with
  | KHost | KDev _ _ => host_ftruncate k (host_fd f) len
  | _ => - EINVAL
  end.

Definition fd_futimens (f : Fd) (times : option (Z * Z * (Z * Z))) : M World Z :=
  match f_kind f with
  | KProc _ _ | KDir _ _ => ret (- EROFS)
  | _ => host_op (fun k => host_futimens k (host_fd f) times)
  end.

(** ** Opening *)

(** A master token no file holds. *)
Definition file_token (f : Fd) : option Z := match f_kind f with KDev _ t => t | _ => None end.
Definition fresh_token (k : Kernel) : Z := fresh (list_to_set (C := gset Z) (omap (fun e : Z * Fd => file_token e.2) (map_to_list (files k)))).

Definition opened (d : Z) (guest : string) (kind : FdKind) : Z + Fd :=
  if d <? 0 then inl d else inr (mkfd d false guest kind).

(** The copy of an open file that [open] of its link in /proc falls back to. *)
Definition open_clone (f : Fd) (trunc : bool) (k : Kernel) : Z + Fd :=
  match fd_clone f k with
  | inl e => inl e
  | inr nf =>
    let rc := if trunc then fd_ftruncate nf 0 k else 0 in
    if (rc <? 0) && negb (rc =? - EINVAL) && negb (rc =? - ESPIPE) then inl rc else inr nf
  end.

(** Taking an open action; [None] when it has no result. *)
Definition run_open (a : open_action) (k : Kernel) : option (Z + Fd) * Kernel :=
  match a with
  | OErr e => (Some (inl (- e)), k)
  | OHost host fl mode guest => (Some (opened (host_openat k host (guest_open_flags host_flags (u32 fl)) mode) guest KHost), k)
  | OTty i guest tty =>
    (Some (opened (host_dup k (from_option host_fd (-1) (files k !! i))) guest (KDev (Some tty) None)), k)
  | OPtmx guest =>
    match host_openpt k with
    | inl e => (Some (inl e), k)
    | inr (master, n) =>
      let i := fresh (dom (ttys k)) in
      let k1 := dev_ptmx_register n i (set_ttys (<[i := mktty 0 None (-1)]> (ttys k)) k) in
      (Some (inr (mkfd master false guest (KDev (Some i) (Some (fresh_token k))))), k1)
    end
  | OPts n fl mode guest tty =>
    (Some (opened (host_openat k ("/dev/pts/" +:+ to_string n) (guest_open_flags host_flags (u32 fl)) mode) guest
                  (KDev (Some tty) None)), k)
  | ODir guest es => (Some (inr (mkfd (-1) false guest (KDir es 0))), k)
  | OFile guest (Some data) => (Some (inr (mkfd (-1) false guest (KProc data 0))), k)
  | OFile _ None => (None, emit EvNull k)
  | OReopen i fl =>
    match files k !! i with
    | None => (Some (inl (- ENOENT)), k)
    | Some f =>
      let d := host_reopen k (host_fd f) (guest_open_flags host_flags (andnot (u32 fl) (Z.lor BPF_O_NOFOLLOW BPF_O_CLOEXEC))) in
      if 0 <=? d then (Some (inr (mkfd d false (f_path f) KHost)), k)
      else if (d =? - ENOENT) || (d =? - ENOTDIR) then (Some (open_clone f (nz (Z.land fl O_TRUNC)) k), k)
      else (Some (inl d), k)
    end
  | OClone i trunc =>
    match files k !! i with
    | None => (Some (inl (- ENOENT)), k)
    | Some f => (Some (open_clone f trunc k), k)
    end
  | OExe pid fl guest =>
    (Some (opened (host_open_exe k pid (guest_open_flags host_flags (andnot (u32 fl) (Z.lor BPF_O_NOFOLLOW BPF_O_CLOEXEC)))) guest KHost), k)
  | OLoop => (None, k)
  end.

(** Links a path may go through; what is left over is [OLoop]. *)
Definition resolve_fuel : nat := 64.

Definition self_path (path : string) (dirfd self : Z) (k : Kernel) : string := guest_abs_path k (own_ps self k) path dirfd.

(** The end of [do_openat]. *)
Definition openat_kernel (path : string) (dirfd oflags mode self : Z) (k : Kernel) : option Z * Kernel :=
  let '(rc, k1) := run_open (path_open k resolve_fuel self (self_path path dirfd self k) oflags mode) k in
  match rc with
  | None => (None, k1)
  | Some (inl e) => (Some e, k1)
  | Some (inr handle) =>
    let handle := if nz (Z.land oflags BPF_O_CLOEXEC) then set_cloexec true handle else handle in
    let '(fd, k2) := fds_emplace (own_ps self k1) handle 0 k1 in (Some fd, k2)
  end.

(** A computation that does not return. *)
Definition or_stuck {A} (o : option A) : M World A := match o with Some a => ret a | None => waitM end.

(** [dirfd != AT_FDCWD && !ps->find_fd(dirfd)]. *)
Definition bad_dirfd (dirfd self : Z) (k : Kernel) : bool :=
  negb (dirfd =? AT_FDCWD) && bool_decide (find_fd k (own_ps self k) dirfd = None).

Definition with_dirfd (dirfd : Z) (m : M World Z) : M World Z :=
  bad <- kget (bad_dirfd dirfd) ;; if (bad : bool) then ret (- EBADF) else m.

Definition with_path (addr : Z) (m : string -> M World Z) : M World Z :=
  path <- read_c_string addr PATH_LIMIT ;;
  match path with None => ret (- EFAULT) | Some path => m path end.

Definition do_openat : M World Z :=
  a1 <- Vm.r 1 ;; a2 <- Vm.r 2 ;; a3 <- Vm.r 3 ;; a4 <- Vm.r 4 ;;
  let dirfd := arg_s32 a1 in
  with_dirfd dirfd
    (with_path a2 (fun path =>
       mask <- kget (fun self k => from_option ps_umask 0 (shared k !! own_ps self k)) ;;
       rc <- kernel_op (fun self k => openat_kernel path dirfd (arg_s32 a3) (andnot (u32 a4) mask) self (emit EvHost k)) ;;
       or_stuck rc)).

(** ** Changing the tree *)

Definition run_change (path : string) (dirfd : Z) (call : string -> path_call) : M World Z :=
  target <- kget (fun self k => path_change k self (self_path path dirfd self k)) ;;
  match target with
  | inl e => ret e
  | inr host => host_op (fun k => host_path_call k (call host))
  end.

Definition do_unlinkat : M World Z :=
  a1 <- Vm.r 1 ;; a2 <- Vm.r 2 ;; a3 <- Vm.r 3 ;;
  with_dirfd (arg_s32 a1) (with_path a2 (fun path => run_change path (arg_s32 a1) (fun h => HUnlink h (arg_s32 a3)))).

Definition do_mkdirat : M World Z :=
  a1 <- Vm.r 1 ;; a2 <- Vm.r 2 ;; a3 <- Vm.r 3 ;;
  with_dirfd (arg_s32 a1)
    (with_path a2 (fun path =>
       mask <- kget (fun self k => from_option ps_umask 0 (shared k !! own_ps self k)) ;;
       run_change path (arg_s32 a1) (fun h => HMkdir h (andnot (u32 a3) mask)))).

Definition do_symlinkat : M World Z :=
  a1 <- Vm.r 1 ;; a2 <- Vm.r 2 ;; a3 <- Vm.r 3 ;;
  with_dirfd (arg_s32 a2)
    (with_path a1 (fun target => with_path a3 (fun linkpath =>
       run_change linkpath (arg_s32 a2) (fun h => HSymlink target h)))).

Definition run_pair (old : string) (olddirfd : Z) (new : string) (newdirfd : Z) (call : string -> string -> path_call) : M World Z :=
  target <- kget (fun self k => path_pair k self (self_path old olddirfd self k) (self_path new newdirfd self k)) ;;
  match target with
  | inl e => ret e
  | inr (h1, h2) => host_op (fun k => host_path_call k (call h1 h2))
  end.

Definition do_linkat : M World Z :=
  a1 <- Vm.r 1 ;; a2 <- Vm.r 2 ;; a3 <- Vm.r 3 ;; a4 <- Vm.r 4 ;; a5 <- Vm.r 5 ;;
  with_dirfd (arg_s32 a1) (with_dirfd (arg_s32 a3)
    (with_path a2 (fun old => with_path a4 (fun new =>
       run_pair old (arg_s32 a1) new (arg_s32 a3) (fun h1 h2 => HLink h1 h2 (arg_s32 a5)))))).

Definition do_renameat2 : M World Z :=
  a1 <- Vm.r 1 ;; a2 <- Vm.r 2 ;; a3 <- Vm.r 3 ;; a4 <- Vm.r 4 ;; a5 <- Vm.r 5 ;;
  with_dirfd (arg_s32 a1) (with_dirfd (arg_s32 a3)
    (with_path a2 (fun old => with_path a4 (fun new =>
       run_pair old (arg_s32 a1) new (arg_s32 a3) (fun h1 h2 => HRename h1 h2 (u32 a5)))))).

Definition do_fchmodat : M World Z :=
  a1 <- Vm.r 1 ;; a2 <- Vm.r 2 ;; a3 <- Vm.r 3 ;; a4 <- Vm.r 4 ;;
  with_dirfd (arg_s32 a1)
    (with_path a2 (fun path =>
       run_change path (arg_s32 a1) (fun h => HChmod h (u32 a3) (Z.land (arg_s32 a4) AT_SYMLINK_NOFOLLOW)))).

Definition do_truncate : M World Z :=
  a1 <- Vm.r 1 ;; a2 <- Vm.r 2 ;;
  with_path a1 (fun path => run_change path AT_FDCWD (fun h => HTruncate h (s64 a2))).

(** [do_utimensat]: the two times, then by path or by descriptor. *)
Definition read_times (addr : Z) : M World (option (option (Z * Z * (Z * Z)))) :=
  if addr =? 0 then ret (Some None)
  else
    p <- mmuM addr 32 ;;
    match p with
    | None => ret None
    | Some p =>
      s0 <- loadM p 8 ;; n0 <- loadM (padd p 8) 8 ;; s1 <- loadM (padd p 16) 8 ;; n1 <- loadM (padd p 24) 8 ;;
      ret (Some (Some (s64 s0, s64 n0, (s64 s1, s64 n1))))
    end.

Definition do_utimensat : M World Z :=
  a1 <- Vm.r 1 ;; a2 <- Vm.r 2 ;; a3 <- Vm.r 3 ;; a4 <- Vm.r 4 ;;
  let dirfd := arg_s32 a1 in
  let go (path : option string) : M World Z :=
    t <- read_times a3 ;;
    match t with
    | None => ret (- EFAULT)
    | Some times =>
      match path with
      | Some path => run_change path dirfd (fun h => HUtimens h times (arg_s32 a4))
      | None =>
        if dirfd =? AT_FDCWD then ret (- EFAULT)
        else
          h <- kget (fun self k => find_fd k (own_ps self k) dirfd) ;;
          match h with None => ret (- EBADF) | Some (_, f) => fd_futimens f times end
      end
    end in
  with_dirfd dirfd (if a2 =? 0 then go None else with_path a2 (fun path => go (Some path))).

(** ** Looking *)

Definition do_readlinkat : M World Z :=
  a1 <- Vm.r 1 ;; a2 <- Vm.r 2 ;; a3 <- Vm.r 3 ;; a4 <- Vm.r 4 ;;
  with_dirfd (arg_s32 a1)
    (with_path a2 (fun path =>
       buf <- mmu_wM a3 a4 ;;
       match buf with
       | None => ret (- EFAULT)
       | Some buf =>
         act <- kget (fun self k => path_readlink k resolve_fuel self (self_path path (arg_s32 a1) self k)) ;;
         match act with
         | LErr e => ret (- e)
         | LText s =>
           let n := Z.min (Z.of_nat (String.length s)) a4 in
           store_bytes buf (take (Z.to_nat n) (string_bytes s)) ;; ret n
         | LHost h =>
           rc <- host_op (fun k => host_readlink k h a4) ;;
           match rc with
           | inl e => ret e
           | inr b => store_bytes buf (take (Z.to_nat a4) b) ;; ret (Z.of_nat (length (take (Z.to_nat a4) b)))
           end
         | LLoop => waitM
         end
       end)).

Definition store_stat (p : hptr) (rc : Z + list Z) : M World Z :=
  match rc with
  | inl e => ret e
  | inr b => store_bytes p (take (Z.to_nat STATX_SIZE) b) ;; ret 0
  end.

Definition do_statx : M World Z :=
  a1 <- Vm.r 1 ;; a2 <- Vm.r 2 ;; a3 <- Vm.r 3 ;; a4 <- Vm.r 4 ;; a5 <- Vm.r 5 ;;
  let dirfd := arg_s32 a1 in
  let mask := u32 a4 in
  with_dirfd dirfd
    (with_path a2 (fun path =>
       let sflags := if negb (String.eqb path EmptyString) && ends_slash path
                     then andnot (arg_s32 a3) AT_SYMLINK_NOFOLLOW else arg_s32 a3 in
       out <- mmu_wM a5 STATX_SIZE ;;
       match out with
       | None => ret (- EFAULT)
       | Some p =>
         if negb (dirfd =? AT_FDCWD) && nz (Z.land sflags AT_EMPTY_PATH) then
           h <- kget (fun self k => find_fd k (own_ps self k) dirfd) ;;
           match h with
           | None => ret (- EBADF)
           | Some (_, f) => rc <- fd_fstatx f mask ;; store_stat p rc
           end
         else
           act <- kget (fun self k => path_statx k resolve_fuel self (self_path path dirfd self k) mask sflags) ;;
           match act with
           | SErr e => ret (- e)
           | SNode mode size => store_stat p (inr (stat_bytes mode size))
           | SHost h m f => rc <- host_op (fun k => host_statx k h f m) ;; store_stat p rc
           | SFd i m =>
             f <- kget (fun _ k => files k !! i) ;;
             match f with None => ret (- ENOENT) | Some f => rc <- fd_fstatx f m ;; store_stat p rc end
           | SExe pid m => rc <- host_op (fun k => host_exe_statx k pid m) ;; store_stat p rc
           | SLoop => waitM
           end
       end)).

Definition do_faccessat : M World Z :=
  a1 <- Vm.r 1 ;; a2 <- Vm.r 2 ;; a3 <- Vm.r 3 ;; a4 <- Vm.r 4 ;;
  with_path a2 (fun path =>
    with_dirfd (arg_s32 a1)
      (act <- kget (fun self k => path_access k resolve_fuel self (self_path path (arg_s32 a1) self k) (arg_s32 a3) (arg_s32 a4)) ;;
       match act with
       | AErr e => ret (- e)
       | AOk => ret 0
       | AHost h m f => host_op (fun k => host_path_call k (HAccess h m f))
       | ALoop => waitM
       end)).

(** ** The working directory *)

Definition set_cwd (c : string) (s : SharedState) : SharedState :=
  mkshared (signal_actions s) (ps_umask s) (fds s) c (root s) (exe_path s).

Definition chdir_kernel (c : string) (self : Z) (k : Kernel) : Kernel :=
  set_shared (alter (set_cwd c) (own_ps self k) (shared k)) k.

Definition do_fchdir : M World Z :=
  a1 <- Vm.r 1 ;;
  h <- kget (fun self k => find_fd k (own_ps self k) (arg_s32 a1)) ;;
  match h with
  | None => ret (- EBADF)
  | Some (_, f) =>
    rc <- fd_fstatx f STATX_TYPE ;;
    match rc with
    | inl e => ret e
    | inr b =>
      if negb (S_ISDIR (stat_mode b)) then ret (- ENOTDIR)
      else if String.eqb (f_path f) EmptyString then ret (- ENOENT)
      else kmod (chdir_kernel (f_path f)) ;; ret 0
    end
  end.

Definition do_getcwd : M World Z :=
  buf_addr <- Vm.r 1 ;; size <- Vm.r 2 ;;
  if size =? 0 then ret (- ERANGE)
  else
    buf <- mmu_wM buf_addr size ;;
    match buf with
    | None => ret (- EFAULT)
    | Some p =>
      path <- kget (fun self k =>
        let c := from_option cwd EmptyString (shared k !! own_ps self k) in
        if String.eqb c EmptyString then "/"%string else c) ;;
      let n := Z.of_nat (String.length path) in
      if size <=? n then ret (- ERANGE)
      else store_bytes p (string_bytes path ++ [0]) ;; ret (n + 1)
    end.

End Calls.
