(* ===== verification/Confine.v ===== *)
(** * Confine: where guest paths lead

    What [Paths], [Procfs] and [FileSys] together guarantee: the paths the
    kernel keeps stay absolute under every call that makes or moves one, and
    every path the file layer hands to the host lies below the root of the
    process or is a device of the fixed list. *)

From S2P Require Import Prelude Bytes HostMem AddrSpace Isa Vm Kernel Signals SigCalls FdTable Session Process Paths VirtualFs Procfs FileSys.
From Stdlib Require Import Lia Ascii.
From stdpp Require Import base numbers list gmap strings option pretty fin_maps fin_sets relations.

Open Scope Z_scope.
Open Scope vm_scope.

(** ** Paths built from good paths *)

(** A path written out. *)
Ltac concrete_path :=
  split; [reflexivity|];
  match goal with |- Forall plain (names ?x) => let l := eval vm_compute in (names x) in change (Forall plain l) end;
  repeat (apply list.Forall_cons; split; [repeat split; discriminate|]); by apply list.Forall_nil.

(** Absolute, with plain names only. *)
Definition path_ok (g : string) : Prop := is_absolute g = true /\ Forall plain (names g).

Lemma proc_self_fd_ok : path_ok "/proc/self/fd".
Proof. concrete_path. Qed.

Lemma path_ok_ne (g : string) : path_ok g -> g <> EmptyString.
Proof. intros [H _] ->. done. Qed.

Lemma path_ok_normal (s : string) : is_absolute s = true -> path_ok (lexically_normal s).
Proof. intros H. destruct (names_lexically_normal s H) as (H1 & _ & H2). by split. Qed.

Lemma path_ok_strip (g : string) : path_ok g -> path_ok (strip_slashes g).
Proof. intros [H1 H2]. split; [by apply is_absolute_strip|by rewrite names_strip]. Qed.

Lemma join_snoc (l : list string) (x : string) : l <> [] -> Paths.join (l ++ [x]) = (Paths.join l +:+ "/" +:+ x)%string.
Proof.
  intros Hl. unfold Paths.join. induction l as [|y [|z l] IH]; [done|done|].
  change ((y :: z :: l) ++ [x]) with (y :: (z :: l) ++ [x]).
  change (String.concat "/" (y :: (z :: l) ++ [x])) with (y +:+ "/" +:+ String.concat "/" ((z :: l) ++ [x]))%string.
  rewrite IH by done. change (String.concat "/" (y :: z :: l)) with (y +:+ "/" +:+ String.concat "/" (z :: l))%string.
  by rewrite !string_app_assoc.
Qed.

Lemma ends_slash_inv (a : string) : a <> EmptyString -> ends_slash a = true -> exists a', a = (a' +:+ "/")%string.
Proof.
  intros Hne. unfold ends_slash.
  destruct (exists_last (split_slash_ne a)) as (l & y & E). rewrite E, List.last_last. intros ->%String.eqb_eq.
  destruct (decide (l = [])) as [->|Hl].
  - destruct Hne. rewrite <- (join_split a), E. done.
  - exists (Paths.join l). rewrite <- (join_split a), E, join_snoc by done. by rewrite append_empty_r.
Qed.

Lemma names_div (a b : string) : a <> EmptyString -> is_absolute b = false -> names (path_div a b) = names a ++ names b.
Proof.
  intros Ha Hb. unfold path_div. rewrite Hb, (proj2 (String.eqb_neq _ _) Ha). cbn [orb].
  destruct (ends_slash a) eqn:E; [|apply names_app].
  apply ends_slash_inv in E as [a' ->]; [|done]. rewrite string_app_assoc, names_app.
  change "/"%string with ("/" +:+ "")%string. by rewrite names_app, app_nil_r.
Qed.

Lemma path_ok_div (a b : string) : path_ok a -> plain b -> path_ok (path_div a b).
Proof.
  intros [Ha Hn] Hb. assert (Hrel : is_absolute b = false).
  { destruct b as [|c b]; [done|]. destruct Hb as [[Hs _] _]. unfold no_slash in Hs. cbn in *. destruct (is_slash c); [|done].
    by destruct (split_slash_ne b); injection Hs. }
  split; [by apply is_absolute_div|]. rewrite names_div; [|by intros ->|done]. apply Forall_app. split; [done|].
  rewrite names_plain by done. by constructor.
Qed.

Lemma path_ok_divs (more : list string) (a : string) : path_ok a -> Forall plain more -> path_ok (foldl path_div a more).
Proof. intros Ha Hm. revert a Ha. induction Hm; intros a Ha; [done|]. cbn. by apply IHHm, path_ok_div. Qed.

Lemma parent_absolute (s : string) : is_absolute s = true -> is_absolute (parent_path s) = true.
Proof.
  intros Ha. unfold parent_path. rewrite Ha. cbn [andb]. destruct (bool_decide_reflect (length (removelast (split_slash s)) <= 1)%nat) as [|Hl]; [done|].
  destruct s as [|c s]; [done|]. cbn in Ha. cbn [split_slash] in *. rewrite Ha in *.
  destruct (split_slash s) as [|x [|y l]] eqn:E; [cbn in Hl; lia|cbn in Hl; lia|]. by destruct l.
Qed.

Lemma resolve_symlink_ok (link t : string) :
  is_absolute link = true -> t <> EmptyString -> path_ok (resolve_symlink link t).
Proof.
  intros Hl Ht. unfold resolve_symlink. rewrite (proj2 (String.eqb_neq _ _) Ht). apply path_ok_normal.
  destruct (is_absolute t) eqn:E; [done|]. by apply is_absolute_div, parent_absolute.
Qed.

Lemma prefix_split (p s : string) : starts_with p s = true -> exists x, s = (p +:+ x)%string.
Proof.
  revert s. induction p as [|c p IH]; intros s H; [by exists s|]. destruct s as [|d s]; [done|]. unfold starts_with in *. cbn in H.
  destruct (ascii_dec c d) as [->|]; [|done]. destruct (IH s H) as [x ->]. by exists x.
Qed.

(** The names below /proc but the first, which a directory of /proc must hold. *)
Lemma to_segs_plain (g : string) : starts_with "/proc" g = true -> Forall plain (names g) -> Forall plain (tl (to_segs g)).
Proof.
  intros [x ->]%prefix_split Hn. unfold to_segs. change 5%nat with (String.length "/proc"). rewrite str_from_app.
  unfold names in *. destruct (split_slash x) as [|y l] eqn:E; [by destruct (split_slash_ne x)|].
  assert (E2 : split_slash ("/proc" +:+ x)%string = ""%string :: String "p" (String "r" (String "o" (String "c" y))) :: l).
  { change ("/proc" +:+ x)%string with (String "/" (String "p" (String "r" (String "o" (String "c" x))))). cbn. by rewrite E. }
  rewrite E2, list.filter_cons_False, list.filter_cons_True in Hn by (done || by intros []).
  apply Forall_cons in Hn as [_ Hn].
  destruct (decide (y <> EmptyString)) as [Hy|Hy].
  - by rewrite list.filter_cons_True.
  - rewrite list.filter_cons_False by done. destruct (filter _ l); [constructor|]. by apply Forall_cons in Hn as [_ ?].
Qed.

(** ** The lookup *)

Section Confine.
Context {ord : HashOrder} {vv : VmView} {hfacts : HostFacts}.
Variable k : Kernel.
Variable self : Z.

Lemma Forall_tl (l more : list string) : Forall plain (tl l) -> Forall plain more -> Forall plain (tl (l ++ more)).
Proof. destruct l as [|x l]; cbn; [intros _ H; destruct more; [constructor|by apply Forall_cons in H as [_ ?]]|]. intros. by apply Forall_app. Qed.

(** The path that leaves /proc is as good as the one looked up. *)
Lemma lookup_escape (f : nat) (g : Gen) (p : string) (rest : list string) (node : Gen) (esc : string) :
  is_absolute p = true -> Forall plain (tl rest) ->
  lookup_loop k f self g p rest = Some (node, esc) -> esc = EmptyString \/ path_ok esc.
Proof.
  revert g p rest. induction f as [|f IH]; intros g p rest Hp Hr; [done|]. cbn [lookup_loop].
  destruct rest as [|s more]; [intros [= _ <-]; by left|]. cbn [tl] in Hr. destruct g as [|c|t kd|es].
  - intros [= _ <-]; by left.
  - intros [= _ <-]; by left.
  - destruct (String.eqb_spec t "") as [_|Hne]; [intros [= _ <-]; by left|].
    pose proof (resolve_symlink_ok p t Hp Hne) as Hok. rewrite (proj2 (String.eqb_neq _ _) (path_ok_ne _ Hok)). cbn [orb].
    destruct (starts_with "/proc" (resolve_symlink p t)) eqn:Es; cbn [negb].
    + apply IH; [done|]. apply Forall_tl; [|done]. apply to_segs_plain; [done|apply Hok].
    + intros [= _ <-]. right. by apply path_ok_divs.
  - destruct (find_key s es) as [g'|]; [|intros [= _ <-]; by left]. apply IH; [by destruct p|].
    destruct (is_link g' && _); cbn [tl]; [done|]. destruct more; [constructor|]. by apply Forall_cons in Hr as [_ ?].
Qed.

Lemma proc_lookup_escape (g : string) (node : Gen) (esc : string) :
  path_ok g -> starts_with "/proc" g = true -> proc_lookup k self g = Some (node, esc) -> esc = EmptyString \/ path_ok esc.
Proof. intros [_ Hn] Hs. apply lookup_escape; [done|]. by apply to_segs_plain. Qed.

Lemma strip_rev_keep (c : ascii) (r l : list ascii) : is_slash c = false -> exists y, strip_rev (l ++ c :: r) = y ++ c :: r.
Proof.
  intros Hc. induction l as [|d l [y IH]]; cbn.
  - rewrite Hc. by exists [].
  - rewrite bool_decide_false by (by destruct l). destruct (is_slash d); cbn [negb andb]; [by exists y|by exists (d :: l)].
Qed.

Lemma list_ascii_app (a b : string) :
  String.list_ascii_of_string (a +:+ b)%string = String.list_ascii_of_string a ++ String.list_ascii_of_string b.
Proof. induction a as [|c a IH]; [done|]. change (String c a +:+ b)%string with (String c (a +:+ b)). cbn. by rewrite IH. Qed.

Lemma is_proc_starts (g : string) : is_proc g = true -> starts_with "/proc" (strip_slashes g) = true.
Proof.
  unfold is_proc. intros [->%String.eqb_eq|H]%orb_true_iff; [reflexivity|]. apply prefix_split in H as [x ->].
  unfold strip_slashes. rewrite list_ascii_app, rev_app_distr. change (rev (String.list_ascii_of_string "/proc/")) with (String.list_ascii_of_string "/corp/").
  cbn [String.list_ascii_of_string].
  destruct (strip_rev_keep "c" (String.list_ascii_of_string "orp/") (rev (String.list_ascii_of_string x) ++ ["/"%char]) eq_refl) as [y E].
  rewrite <- app_assoc in E. cbn [app String.list_ascii_of_string] in E. rewrite E, rev_app_distr. cbn [rev app].
  cbn. by destruct (String.string_of_list_ascii (rev y)).
Qed.

(** ** Dispatch *)

(** A path the host may be given: below the root, or a device. *)
Definition below_root (h : string) : Prop :=
  is_absolute h = true /\ exists l, Forall plain l /\ names h = names (own_root k self) ++ l.

Definition device (h : string) : Prop :=
  find_key h dev_nodes = Some HostChr \/
  exists s, h = ("/dev/pts/" +:+ s)%string /\ is_Some (ptmx_registry k !! parse_dev_suffix s).

Definition reachable_host (h : string) : Prop := below_root h \/ device h.

Hypothesis Hroot : root_ok (own_root k self).

Lemma host_path_below (g : string) : path_ok g -> below_root (host_path (own_root k self) g).
Proof.
  intros [Ha Hn]. destruct (decide (own_root k self = EmptyString)) as [E|E].
  - unfold host_path, below_root. rewrite E. split; [done|]. by exists (names g).
  - destruct (host_path_names _ g Hroot E Ha Hn) as [H1 H2]. split; [done|]. by exists (names g).
Qed.

Lemma resolve_ok (g : string) :
  path_ok g -> let p := ResolvePath (own_root k self) g in
  path_ok (p_guest p) /\ below_root (p_host p) /\
  (p_kind p = Paths.ProcPath -> starts_with "/proc" (p_guest p) = true).
Proof.
  intros Hg. unfold ResolvePath. destruct (is_proc g) eqn:E.
  - split_and!; cbn; [by apply path_ok_strip|by apply host_path_below, path_ok_strip|intros _; by apply is_proc_starts].
  - destruct (is_dev g); (split_and!; cbn; [|apply host_path_below|done]); (done || by apply path_ok_strip).
Qed.

Lemma dev_links_ok : Forall (fun e : string * DevInfo => match e.2 with DevSymlink l => path_ok l | _ => True end) dev_nodes.
Proof. unfold dev_nodes. repeat (apply list.Forall_cons; split; [first [exact I | concrete_path]|]). by apply list.Forall_nil. Qed.

Lemma dev_lookup_ok (g : string) (info : option DevInfo) (esc : string) :
  path_ok g -> dev_lookup k g = (info, esc) ->
  (esc = EmptyString \/ path_ok esc) /\
  match info with Some HostChr => device g | Some (DevSymlink l) => path_ok l | _ => True end.
Proof.
  intros Hg. unfold dev_lookup. destruct (find_key g dev_nodes) as [i|] eqn:Ef.
  - intros [= <- <-]. split; [by left|]. destruct i as [| |l]; [by left|done|].
    apply find_key_in in Ef. pose proof dev_links_ok as H. rewrite list.Forall_forall in H. exact (H _ Ef).
  - destruct (starts_with "/dev/pts/" g) eqn:E1.
    + apply prefix_split in E1 as [x ->]. change 9%nat with (String.length "/dev/pts/"). rewrite str_from_app.
      destruct (parse_dev_suffix x <? 0); intros [= <- <-]; (split; [by left|]); [done|].
      destruct (ptmx_registry k !! parse_dev_suffix x) eqn:E; [|done]. right. exists x. split; [done|]. by rewrite E.
    + destruct (starts_with "/dev/fd/" g) eqn:E2; intros [= <- <-]; (split; [|done]); [|by left]. right.
      apply prefix_split in E2 as [x ->]. change 7%nat with (String.length "/dev/fd").
      change ("/dev/fd/" +:+ x)%string with ("/dev/fd" +:+ ("/" +:+ x))%string in *. rewrite str_from_app.
      destruct Hg as [_ Hn]. rewrite names_app in Hn. apply Forall_app in Hn as [_ Hn]. split; [done|]. rewrite names_app.
      apply Forall_app. split; [apply (proj2 proc_self_fd_ok)|done].
Qed.

(** *** The links to executables *)

Inductive exe_absolute : Gen -> Prop :=
| ea_none : exe_absolute NoneGen
| ea_file c : exe_absolute (FileGen c)
| ea_link t kd : (match kd with LExe _ => abs_or_empty t | _ => True end) -> exe_absolute (LinkGen t kd)
| ea_dir es : Forall (fun e => exe_absolute e.2) es -> exe_absolute (DirGen es).

Hypothesis Hexe : forall ps s, shared k !! ps = Some s -> abs_or_empty (exe_path s).

Lemma exe_target_ok (id : Z) : abs_or_empty (exe_target k id).
Proof.
  unfold exe_target, task_shared. destruct (find_task k id) as [t|]; [|by left]. destruct (v_image id); [|by left]. cbn.
  destruct (shared_of k t) as [s|] eqn:E; [|by left]. by apply (Hexe (t_ps t)).
Qed.

Lemma exe_fd (id : Z) : exe_absolute (DirGen (gen_pid_fd_entries k id)).
Proof.
  constructor. unfold gen_pid_fd_entries. destruct (find_task k id); [|constructor]. apply (map_of_Forall (fun e => exe_absolute e.2)), Forall_fmap.
  apply list.Forall_forall. intros e _. by constructor.
Qed.

Lemma exe_thread (id : Z) : Forall (fun e => exe_absolute e.2) (thread_entries k id).
Proof.
  unfold thread_entries, proc_task_common_entries. do 3 (apply (emplace_Forall (fun e => exe_absolute e.2)); [constructor|]).
  pose proof (exe_fd id). pose proof (exe_target_ok id).
  apply (map_of_Forall (fun e => exe_absolute e.2)). repeat (apply list.Forall_cons; split; [first [assumption | by constructor]|]). by apply list.Forall_nil.
Qed.

Lemma exe_root : exe_absolute (proc_root k self).
Proof.
  constructor. unfold proc_root_entries. do 2 (apply (emplace_Forall (fun e => exe_absolute e.2)); [by constructor|]).
  apply (foldl_emplace_Forall (fun e => exe_absolute e.2) (fun id => (to_string id, DirGen (proc_pid_entries k id)))).
  - apply list.Forall_forall. intros id _. cbn. constructor. unfold proc_pid_entries.
    apply (emplace_Forall (fun e => exe_absolute e.2)); [|apply exe_thread]. constructor. unfold proc_pid_task_entries.
    destruct (find_task k id); [|constructor]. apply (map_of_Forall (fun e => exe_absolute e.2)), Forall_fmap.
    apply list.Forall_forall. intros tid _. cbn. constructor. apply exe_thread.
  - unfold procs. apply (map_of_Forall (fun e => exe_absolute e.2)).
    repeat (apply list.Forall_cons; split; [by constructor|]). by apply list.Forall_nil.
Qed.

Lemma lookup_exe (f : nat) (g : Gen) (p : string) (rest : list string) (node : Gen) (esc : string) :
  exe_absolute g -> lookup_loop k f self g p rest = Some (node, esc) -> exe_absolute node.
Proof.
  revert g p rest. induction f as [|f IH]; intros g p rest Hg; [done|]. cbn [lookup_loop].
  destruct rest as [|s more]; [by intros [= <- _]|]. destruct g as [|c|t kd|es]; [intros [= <- _]; constructor|intros [= <- _]; constructor| |].
  - destruct (String.eqb t ""); [intros [= <- _]; constructor|]. destruct (_ || _); [intros [= <- _]; constructor|]. apply IH, exe_root.
  - inversion Hg as [| | |es' Hes E]. destruct (find_key s es) as [g'|] eqn:Ef; [|intros [= <- _]; constructor].
    rewrite list.Forall_forall in Hes. apply IH, (Hes _ (find_key_in _ _ _ Ef)).
Qed.

(** *** The actions *)

Definition open_ok (a : open_action) : Prop :=
  match a with
  | OHost h _ _ g => reachable_host h /\ path_ok g
  | OTty _ g _ | OPtmx g | OPts _ _ _ g _ | ODir g _ | OFile g _ => path_ok g
  | OExe _ _ g => abs_or_empty g
  | OErr _ | OReopen _ _ | OClone _ _ | OLoop => True
  end.

Lemma dev_open_ok (g : string) (fl mode : Z) : path_ok g -> open_ok (dev_open k self g fl mode).
Proof.
  intros Hg. unfold dev_open. destruct (_ || _).
  - destruct (t ← _; _) as [c|]; [|done]. destruct (list_find _ _) as [[? [? ?]]|]; done.
  - destruct (String.eqb g "/dev/ptmx"); [done|]. destruct (starts_with "/dev/pts/" g).
    + destruct (ptmx_registry k !! _); done.
    + destruct (find_key g dev_nodes) as [[| |]|] eqn:E; try done. split; [|done]. right. by left.
Qed.

Lemma node_open_ok (g : string) (fl : Z) (node : Gen) :
  path_ok g -> exe_absolute node ->
  match node_open k g fl node with inl a => open_ok a | inr t => path_ok t end.
Proof.
  intros Hg Hn. unfold node_open. destruct node as [|c|t kd|es]; [done| | |].
  - by destruct (nz _).
  - assert (Ht : match kd with LExe _ => abs_or_empty t | _ => True end) by by inversion Hn.
    destruct kd as [|i|pid].
    + destruct (nz _); [done|]. destruct (nz _); [done|].
      destruct (String.eqb_spec t "") as [->|Hne]; [done|].
      pose proof (resolve_symlink_ok g t (proj1 Hg) Hne) as H. by rewrite (proj2 (String.eqb_neq _ _) (path_ok_ne _ H)).
    + destruct (nz _); [done|]. destruct (is_plain_host k i); [done|]. by destruct (is_signalfd_at k i).
    + destruct (nz _); [done|]. destruct (negb _); [done|]. by destruct (nz _).
  - by destruct (nz _).
Qed.

Lemma path_open_ok (f : nat) (g : string) (fl mode : Z) : path_ok g -> open_ok (path_open k f self g fl mode).
Proof.
  revert g. induction f as [|f IH]; intros g Hg; [done|]. cbn [path_open].
  destruct (resolve_ok g Hg) as (Hp & Hb & Hk). destruct (p_kind (ResolvePath (own_root k self) g)).
  - specialize (Hk eq_refl). destruct (proc_lookup k self _) as [[node esc]|] eqn:E; [|done].
    destruct (proc_lookup_escape _ _ _ Hp Hk E) as [->|He].
    + cbn. pose proof (node_open_ok (p_guest (ResolvePath (own_root k self) g)) fl node Hp (lookup_exe _ _ _ _ _ _ exe_root E)) as H.
      destruct (node_open k _ fl node); [exact H|by apply IH].
    + rewrite (proj2 (String.eqb_neq _ _) (path_ok_ne _ He)). by apply IH.
  - destruct (dev_lookup k _) as [info esc] eqn:E. destruct (dev_lookup_ok _ _ _ Hp E) as [[->|He] Hi].
    + cbn. destruct info as [[| |l]|]; [by apply dev_open_ok|done| |by apply dev_open_ok]. destruct (nz _); [done|by apply IH].
    + rewrite (proj2 (String.eqb_neq _ _) (path_ok_ne _ He)). by apply IH.
  - split; [by left|done].
Qed.
Definition link_ok (a : link_action) : Prop := match a with LHost h => below_root h | _ => True end.
Definition stat_ok (a : stat_action) : Prop := match a with SHost h _ _ => reachable_host h | _ => True end.
Definition access_ok (a : access_action) : Prop := match a with AHost h _ _ => reachable_host h | _ => True end.

(** The two ways a lookup sends the caller on. *)
Ltac escape_case He IH := rewrite (proj2 (String.eqb_neq _ _) (path_ok_ne _ He)); by apply IH.

Lemma path_readlink_ok (f : nat) (g : string) : path_ok g -> link_ok (path_readlink k f self g).
Proof.
  revert g. induction f as [|f IH]; intros g Hg; [done|]. cbn [path_readlink].
  destruct (resolve_ok g Hg) as (Hp & Hb & Hk). destruct (p_kind (ResolvePath (own_root k self) g)); [| |exact Hb].
  - destruct (proc_lookup k self _) as [[node esc]|] eqn:E; [|done].
    destruct (proc_lookup_escape _ _ _ Hp (Hk eq_refl) E) as [->|He]; [|escape_case He IH].
    cbn. destruct node as [| |t|]; try done. by destruct (String.eqb t "").
  - destruct (dev_lookup k _) as [info esc] eqn:E.
    destruct (dev_lookup_ok _ _ _ Hp E) as [[->|He] _]; [|escape_case He IH]. by destruct info as [[| |]|].
Qed.

Lemma path_statx_ok (f : nat) (g : string) (mask fl : Z) : path_ok g -> stat_ok (path_statx k f self g mask fl).
Proof.
  revert g mask fl. induction f as [|f IH]; intros g mask fl Hg; [done|]. cbn [path_statx].
  destruct (resolve_ok g Hg) as (Hp & Hb & Hk). destruct (p_kind (ResolvePath (own_root k self) g)); [| |by left].
  - destruct (proc_lookup k self _) as [[node esc]|] eqn:E; [|done].
    destruct (proc_lookup_escape _ _ _ Hp (Hk eq_refl) E) as [->|He]; [|escape_case He IH].
    cbn. destruct node as [| |t kd|]; try done. destruct (nz _); [done|]. destruct kd as [|i|pid]; [|done|by destruct (v_image pid)].
    destruct (String.eqb_spec t "") as [->|Hne]; [done|].
    pose proof (resolve_symlink_ok _ t (proj1 Hp) Hne) as H. rewrite (proj2 (String.eqb_neq _ _) (path_ok_ne _ H)).
    destruct (starts_with "/proc" (resolve_symlink _ _)); [|by apply IH]. clear E. destruct (lookup_loop _ _ _ _ _ _) as [[[] ?]|]; exact I.
  - destruct (dev_lookup k _) as [info esc] eqn:E.
    destruct (dev_lookup_ok _ _ _ Hp E) as [[->|He] Hi]; [|escape_case He IH]. cbn.
    destruct info as [[| |l]|]; [by right|done| |done]. destruct (nz _); [done|by apply IH].
Qed.

Lemma path_access_ok (f : nat) (g : string) (mode fl : Z) : path_ok g -> access_ok (path_access k f self g mode fl).
Proof.
  revert g. induction f as [|f IH]; intros g Hg; [done|]. cbn [path_access].
  destruct (resolve_ok g Hg) as (Hp & Hb & Hk). destruct (p_kind (ResolvePath (own_root k self) g)); [| |by left].
  - destruct (proc_lookup k self _) as [[node esc]|] eqn:E; [|done].
    destruct (proc_lookup_escape _ _ _ Hp (Hk eq_refl) E) as [->|He]; [|escape_case He IH]. by destruct node.
  - destruct (dev_lookup k _) as [info esc] eqn:E.
    destruct (dev_lookup_ok _ _ _ Hp E) as [[->|He] Hi]; [|escape_case He IH]. cbn. by destruct info as [[| |]|]; [right| | |].
Qed.

Lemma path_change_ok (g h : string) : path_ok g -> path_change k self g = inr h -> below_root h.
Proof.
  intros Hg. unfold path_change. destruct (resolve_ok g Hg) as (_ & Hb & _). destruct (p_kind _); [done|done|]. by intros [= <-].
Qed.

Lemma path_pair_ok (g g' h h' : string) :
  path_ok g -> path_ok g' -> path_pair k self g g' = inr (h, h') -> below_root h /\ below_root h'.
Proof.
  intros Hg Hg'. unfold path_pair. destruct (resolve_ok g Hg) as (_ & Hb & _). destruct (resolve_ok g' Hg') as (_ & Hb' & _).
  destruct (p_kind _); [done| |]; (destruct (_ || _); [done|]); intros [= <- <-]; done.
Qed.

End Confine.

(** ** What the calls hand to the host *)

Section Calls.
Context {ord : HashOrder} {vv : VmView} {hfacts : HostFacts}.

Lemma self_path_ok (k : Kernel) (self dirfd : Z) (path : string) :
  paths_ok k -> path <> EmptyString -> path_ok (self_path path dirfd self k).
Proof. intros Hok Hp. by apply guest_abs_path_absolute. Qed.

Lemma own_root_ok (k : Kernel) (self : Z) : paths_ok k -> root_ok (own_root k self).
Proof.
  intros Hok. unfold own_root. destruct (shared k !! _) as [s|] eqn:E; [|by left]. by apply (po_root _ Hok (own_ps self k)).
Qed.


End Calls.

(** A shell below [/srv/jail]. *)
Definition confined_kernel : Kernel :=
  set_files {[5 := mkfd 3 false "" KHost]}
    (set_shared {[1 := mkshared [] 0 {[0 := 5]} "/home" "/srv/jail" "/bin/sh"]} demo_kernel).

Lemma confined_paths_ok : paths_ok confined_kernel.
Proof.
  assert (Hs : forall ps s, shared confined_kernel !! ps = Some s -> s = mkshared [] 0 {[0 := 5]} "/home" "/srv/jail" "/bin/sh").
  { intros ps s. unfold confined_kernel. cbn [shared set_files set_shared]. by intros [_ <-]%lookup_singleton_Some. }
  constructor.
  - intros ps s ->%Hs. by right.
  - intros ps s ->%Hs. right. concrete_path.
  - intros ps s ->%Hs. by right.
  - intros i f. unfold confined_kernel. cbn [files set_files]. intros [_ <-]%lookup_singleton_Some. by left.
Qed.


(** ** The paths the kernel keeps *)

(** Nothing but kept paths: every cwd, root, executable and file path of the
    second kernel is one of the first, or empty for a file. *)
Record paths_rel (k k' : Kernel) : Prop := {
  pr_shared : forall ps s', shared k' !! ps = Some s' ->
    exists ps0 s, shared k !! ps0 = Some s /\ cwd s' = cwd s /\ root s' = root s /\ exe_path s' = exe_path s;
  pr_files : forall i f', files k' !! i = Some f' ->
    f_path f' = EmptyString \/ exists j f, files k !! j = Some f /\ f_path f' = f_path f
}.

#[export] Instance paths_rel_preorder : PreOrder paths_rel.
Proof.
  split.
  - intros k. constructor; [intros ps s H; by exists ps, s|intros i f H; right; by exists i, f].
  - intros k1 k2 k3 [S1 F1] [S2 F2]. constructor.
    + intros ps s (ps2 & s2 & H2 & -> & -> & ->)%S2. by apply (S1 ps2).
    + intros i f [E|(j & f2 & H2 & ->)]%F2; [by left|]. by apply (F1 j).
Qed.

Lemma paths_rel_ok (k k' : Kernel) : paths_rel k k' -> paths_ok k -> paths_ok k'.
Proof.
  intros [Hs Hf] Hok. constructor.
  - intros ps s (ps0 & s0 & H & -> & _)%Hs. by apply (po_cwd _ Hok ps0).
  - intros ps s (ps0 & s0 & H & _ & -> & _)%Hs. by apply (po_root _ Hok ps0).
  - intros ps s (ps0 & s0 & H & _ & _ & ->)%Hs. by apply (po_exe _ Hok ps0).
  - intros i f [E|(j & f0 & H & ->)]%Hf; [by left|by apply (po_files _ Hok j)].
Qed.

Lemma paths_rel_same (k k' : Kernel) : shared k' = shared k -> files k' = files k -> paths_rel k k'.
Proof.
  intros Hs Hf. constructor; intros i x.
  - rewrite Hs. intros H. by exists i, x.
  - rewrite Hf. intros H. right. by exists i, x.
Qed.

Lemma paths_rel_krel (k k' : Kernel) : krel k k' -> paths_rel k k'.
Proof. intros Hr. apply paths_rel_same; [apply (kr_shared _ _ Hr)|apply (kr_files _ _ Hr)]. Qed.

Lemma paths_rel_mutate (ps : Z) (g : gmap Z Z -> gmap Z Z) (k : Kernel) : paths_rel k (fds_mutate ps g k).
Proof.
  constructor; [|intros i f H; right; by exists i, f]. intros q s'. unfold fds_mutate. cbn [shared set_shared].
  rewrite lookup_alter_Some. intros [(-> & s & H & ->)|[_ H]]; [by exists q, s|by exists q, s'].
Qed.

Lemma paths_rel_drop (i : Z) (k : Kernel) : paths_rel k (drop_file i k).
Proof.
  constructor; [intros ps s H; by exists ps, s|]. intros j f. cbn [files drop_file set_files].
  intros [_ H]%lookup_delete_Some. right. by exists j, f.
Qed.

Lemma paths_rel_drops (l : list (Z * Z)) (k : Kernel) : paths_rel k (foldl (fun k e => drop_file e.2 k) k l).
Proof. revert k. induction l as [|e l IH]; intros k; cbn; [done|]. etrans; [apply paths_rel_drop|apply IH]. Qed.

(** A new object whose path is one the kernel has. *)
Definition known_path (k : Kernel) (p : string) : Prop := p = EmptyString \/ exists i f, files k !! i = Some f /\ p = f_path f.

Lemma paths_rel_new (f : Fd) (k : Kernel) : known_path k (f_path f) -> paths_rel k (new_file f k).2.
Proof.
  intros Hf. constructor; [intros ps s H; by exists ps, s|]. intros j f'. cbn [files new_file snd set_files].
  intros [[_ <-]|[_ H]]%lookup_insert_Some; [exact Hf|right; by exists j, f'].
Qed.

Section Kept.
Context {ord : HashOrder} {env : HostEnv} {hf : HostFds}.

Lemma clone_path (f f' : Fd) (k : Kernel) (i : Z) : files k !! i = Some f -> fd_clone f k = inr f' -> known_path k (f_path f').
Proof.
  intros Hi. unfold fd_clone. destruct (f_kind f).
  1, 2: destruct (_ <? 0); [done|]; intros [= <-]; right; by exists i, f.
  - destruct (host_pipe2 k 0) as [|[]]; [done|]. intros [= <-]. by left.
  - intros [= <-]. right. by exists i, f.
  - intros [= <-]. right. by exists i, f.
Qed.

Lemma paths_rel_emplace (ps : Z) (f : Fd) (m : Z) (k : Kernel) :
  known_path k (f_path f) -> paths_rel k (fds_emplace ps f m k).2.
Proof. intros Hf. unfold fds_emplace. etrans; [by apply paths_rel_new|]. apply paths_rel_mutate. Qed.

Lemma find_fd_file (k : Kernel) (ps fd i : Z) (f : Fd) : find_fd k ps fd = Some (i, f) -> files k !! i = Some f.
Proof. unfold find_fd. destruct (table k ps !! fd) as [j|]; [|done]. cbn. destruct (files k !! j) eqn:E; [|done]. by intros [= <- <-]. Qed.

Lemma paths_rel_dup (fd self : Z) (k : Kernel) : paths_rel k (dup_kernel fd self k).2.
Proof.
  unfold dup_kernel. destruct (fd <? 0); [done|]. destruct (find_fd _ _ _) as [[i h]|] eqn:E; [|done].
  destruct (fd_clone h k) as [|h'] eqn:Ec; [done|]. apply paths_rel_emplace. eapply clone_path; [by eapply find_fd_file|done].
Qed.

Lemma paths_rel_install (ps fd self : Z) (f : Fd) (k : Kernel) :
  known_path k (f_path f) -> paths_rel k (install_fd ps fd f self k).
Proof.
  intros Hf. unfold install_fd. destruct (table k ps !! fd) as [i|]; cbn [from_option id].
  - etrans; [apply paths_rel_krel, (krel_on_close self i)|].
    etrans; [apply (paths_rel_new f)|]. { unfold known_path. by rewrite (kr_files _ _ (krel_on_close self i k)). }
    etrans; [apply paths_rel_mutate|]. apply paths_rel_drop.
  - etrans; [by apply (paths_rel_new f)|]. apply paths_rel_mutate.
Qed.

Lemma paths_rel_dup3 (fd fd' fl self : Z) (k : Kernel) : paths_rel k (dup3_kernel fd fd' fl self k).2.
Proof.
  unfold dup3_kernel. do 3 (destruct (_ : bool); [done|]). destruct (find_fd _ _ _) as [[i h]|] eqn:E; [|done].
  destruct (fd_clone h k) as [|h'] eqn:Ec; [done|]. apply paths_rel_install.
  assert (known_path k (f_path h')) by (eapply clone_path; [by eapply find_fd_file|done]). by destruct (nz _).
Qed.

Lemma paths_rel_close (fd self : Z) (k : Kernel) : paths_rel k (close_kernel fd self k).2.
Proof.
  unfold close_kernel. destruct (find_fd _ _ _) as [[i h]|]; [|done]. cbn [snd].
  etrans; [apply paths_rel_krel, (krel_on_close self i)|]. etrans; [apply paths_rel_mutate|]. apply paths_rel_drop.
Qed.

Lemma paths_rel_pipe (p0 p1 fl self : Z) (k : Kernel) : paths_rel k (pipe_kernel p0 p1 fl self k).2.
Proof.
  unfold pipe_kernel. cbn [snd]. etrans; [apply (paths_rel_new (mkfd p0 (nz (Z.land fl BPF_O_CLOEXEC)) EmptyString KHost)); by left|].
  etrans; [apply (paths_rel_new (mkfd p1 (nz (Z.land fl BPF_O_CLOEXEC)) EmptyString KHost)); by left|]. apply paths_rel_mutate.
Qed.

Lemma paths_rel_clone_fds (l : list (Z * Z)) (acc m : gmap Z Z) (k k' : Kernel) : clone_fds l acc k = inr (m, k') -> paths_rel k k'.
Proof.
  revert acc k. induction l as [|[fd i] l IH]; intros acc k; cbn; [by intros [= _ <-]|].
  destruct (files k !! i) as [f|] eqn:E; [|apply IH]. destruct (fd_clone f k) as [|h] eqn:Ec; [done|].
  intros H%IH. etrans; [|exact H]. apply (paths_rel_new (set_cloexec (cloexec f) h)). exact (clone_path f h k i E Ec).
Qed.

Lemma paths_rel_fork (ps ps' : Z) (k k' : Kernel) : is_Some (shared k !! ps) -> fork_fds ps ps' k = inr k' -> paths_rel k k'.
Proof.
  intros [s Hs]. unfold fork_fds. destruct (clone_fds _ ∅ k) as [|[m k1]] eqn:E; [done|]. intros [= <-].
  destruct (paths_rel_clone_fds _ _ _ _ _ E) as [Hsh Hf]. constructor; [|exact Hf]. intros q s'.
  cbn [shared set_shared]. rewrite Hs. intros [[_ <-]|[_ H]]%lookup_insert_Some; [by exists ps, s|by apply (Hsh q)].
Qed.

Lemma paths_rel_exec (ps self : Z) (k : Kernel) : paths_rel k (exec_fds ps self k).
Proof.
  unfold exec_fds. etrans; [apply paths_rel_krel, krel_close_all|]. etrans; [apply paths_rel_mutate|]. apply paths_rel_drops.
Qed.

Lemma paths_rel_exit (ps self : Z) (k : Kernel) : paths_rel k (close_all ps self k).
Proof.
  unfold close_all. etrans; [apply paths_rel_krel, krel_close_all|]. etrans; [apply paths_rel_mutate|]. apply paths_rel_drops.
Qed.

End Kept.

(** ** Opening and changing directory *)

Section Invariant.
Context {ord : HashOrder} {env : HostEnv} {hf : HostFds} {fs : HostFs} {vv : VmView} {hfacts : HostFacts}.

Lemma abs_path_ok (g : string) : path_ok g -> abs_or_empty g.
Proof. intros [H _]. by right. Qed.

(** What [run_open] leaves of the kernel, and the path of the file it makes. *)
Lemma run_open_paths (a : open_action) (k : Kernel) :
  paths_ok k -> (exists self, open_ok k self a) ->
  paths_rel k (run_open a k).2 /\
  (forall f, (run_open a k).1 = Some (inr f) -> abs_or_empty (f_path f)).
Proof.
  intros Hok [self Ha].
  assert (Hopened : forall d g kd f, path_ok g -> Some (opened d g kd) = Some (inr f) -> abs_or_empty (f_path f)).
  { intros d g kd f Hg. unfold opened. destruct (d <? 0); [done|]. intros [= <-]. by apply abs_path_ok. }
  assert (Hclone : forall f f' i tr, files k !! i = Some f -> open_clone f tr k = inr f' -> abs_or_empty (f_path f')).
  { intros f f' i tr Hf. unfold open_clone. destruct (fd_clone f k) as [|nf] eqn:Ec; [done|].
    destruct (_ && _ && _); [done|]. intros [= <-]. destruct (clone_path _ _ _ _ Hf Ec) as [->|(j & f0 & Hj & ->)]; [by left|].
    by apply (po_files _ Hok j). }
  destruct a as [e|h fl m g|i g tty|g|n fl m g tty|g es|g [c|]|i fl|i tr|pid fl g|]; cbn [run_open open_ok] in *.
  - done.
  - split; [done|]. intros f. apply Hopened, Ha.
  - split; [done|]. intros f. by apply Hopened.
  - destruct (host_openpt k) as [|[master n]]; [done|]. cbn [fst snd]. split.
    + apply paths_rel_same; unfold dev_ptmx_register; by destruct (n <? 0).
    + intros f [= <-]. by apply abs_path_ok.
  - split; [done|]. intros f. by apply Hopened.
  - split; [done|]. intros f [= <-]. by apply abs_path_ok.
  - split; [done|]. intros f [= <-]. by apply abs_path_ok.
  - split; [by apply paths_rel_same|done].
  - destruct (files k !! i) as [f|] eqn:E; [|done]. destruct (0 <=? _); [split; [done|]; intros f' [= <-]; exact (po_files _ Hok i f E)|].
    destruct (_ || _); [|done]. split; [done|]. intros f' [= H]. by eapply Hclone.
  - destruct (files k !! i) as [f|] eqn:E; [|done]. split; [done|]. intros f' [= H]. by eapply Hclone.
  - split; [done|]. intros f. unfold opened. destruct (_ <? 0); [done|]. by intros [= <-].
  - done.
Qed.

Lemma paths_ok_emplace (ps : Z) (f : Fd) (k : Kernel) :
  paths_ok k -> abs_or_empty (f_path f) -> paths_ok (fds_emplace ps f 0 k).2.
Proof.
  intros Hok Hf. unfold fds_emplace. cbn [new_file snd]. apply (paths_rel_ok _ _ (paths_rel_mutate _ _ _)).
  constructor; [apply (po_cwd _ Hok)|apply (po_root _ Hok)|apply (po_exe _ Hok)|]. intros i f'. cbn [files set_files].
  intros [[_ <-]|[_ H]]%lookup_insert_Some; [done|by apply (po_files _ Hok i)].
Qed.

Lemma openat_paths_ok (path : string) (dirfd fl mode self : Z) (k : Kernel) :
  paths_ok k -> paths_ok (openat_kernel path dirfd fl mode self k).2.
Proof.
  intros Hok. unfold openat_kernel. set (a := path_open _ _ _ _ _ _).
  assert (H : paths_rel k (run_open a k).2 /\ (forall f, (run_open a k).1 = Some (inr f) -> abs_or_empty (f_path f))).
  { destruct (decide (path = EmptyString)) as [->|Hne].
    - assert (E : exists h, a = OHost h fl mode EmptyString) by (eexists; reflexivity). destruct E as [h ->]. split; [done|].
      intros f. cbn. unfold opened. destruct (_ <? 0); [done|]. intros [= <-]. by left.
    - apply run_open_paths; [done|]. exists self. apply path_open_ok; [by apply own_root_ok|apply (po_exe _ Hok)|by apply self_path_ok]. }
  destruct (run_open a k) as [[[e|f]|] k1]; destruct H as [Hr Hf]; cbn [fst snd] in *; [by apply (paths_rel_ok k)| |by apply (paths_rel_ok k)].
  pose proof (paths_ok_emplace (own_ps self k1) (if nz (Z.land fl BPF_O_CLOEXEC) then set_cloexec true f else f) k1) as H.
  destruct (fds_emplace _ _ 0 k1) as [fd k2]. apply H; [by apply (paths_rel_ok k)|]. specialize (Hf f eq_refl). by destruct (nz _).
Qed.

Lemma chdir_paths_ok (c : string) (self : Z) (k : Kernel) : paths_ok k -> abs_or_empty c -> paths_ok (chdir_kernel c self k).
Proof.
  intros Hok Hc. constructor; [| | |apply (po_files _ Hok)]; intros ps s; unfold chdir_kernel; cbn [shared set_shared];
    intros [(_ & s0 & H & ->)|[_ H]]%lookup_alter_Some.
  - done.
  - by apply (po_cwd _ Hok ps).
  - exact (po_root _ Hok _ s0 H).
  - exact (po_root _ Hok ps s H).
  - exact (po_exe _ Hok _ s0 H).
  - exact (po_exe _ Hok ps s H).
Qed.

(** The operations that make or move a path. *)
Inductive path_step : Kernel -> Kernel -> Prop :=
| ps_openat k path dirfd fl mode self : path_step k (openat_kernel path dirfd fl mode self k).2
| ps_fchdir k ps fd i f self : find_fd k ps fd = Some (i, f) -> path_step k (chdir_kernel (f_path f) self k)
| ps_dup k fd self : path_step k (dup_kernel fd self k).2
| ps_dup3 k fd fd' fl self : path_step k (dup3_kernel fd fd' fl self k).2
| ps_close k fd self : path_step k (close_kernel fd self k).2
| ps_pipe k p0 p1 fl self : path_step k (pipe_kernel p0 p1 fl self k).2
| ps_fork k ps ps' k' : is_Some (shared k !! ps) -> fork_fds ps ps' k = inr k' -> path_step k k'
| ps_exec k ps self : path_step k (exec_fds ps self k)
| ps_exit k ps self : path_step k (close_all ps self k)
| ps_signals k k' : krel k k' -> path_step k k'.

Lemma path_step_ok (k k' : Kernel) : path_step k k' -> paths_ok k -> paths_ok k'.
Proof.
  intros Hst Hok. destruct Hst.
  - by apply openat_paths_ok.
  - apply chdir_paths_ok; [done|]. eapply po_files; [done|]. by eapply find_fd_file.
  - by apply (paths_rel_ok _ _ (paths_rel_dup fd self k)).
  - by apply (paths_rel_ok _ _ (paths_rel_dup3 fd fd' fl self k)).
  - by apply (paths_rel_ok _ _ (paths_rel_close fd self k)).
  - by apply (paths_rel_ok _ _ (paths_rel_pipe p0 p1 fl self k)).
  - by apply (paths_rel_ok k k'); [eapply paths_rel_fork|].
  - by apply (paths_rel_ok _ _ (paths_rel_exec ps self k)).
  - by apply (paths_rel_ok _ _ (paths_rel_exit ps self k)).
  - by apply (paths_rel_ok k k'); [apply paths_rel_krel|].
Qed.

(** The paths the kernel keeps stay absolute. Whatever a run opens (files of
    the host, of /proc and of /dev, terminals, copies of open files), duplicates,
    closes, forks, executes and changes its directory to, in every state it
    reaches the working directory of every process and the path of every open
    file is absolute or unknown, so that every path a system call is given
    becomes an absolute path without dots, relative to a descriptor or not. *)
Theorem paths_stay_absolute (k k' : Kernel) (Hok : paths_ok k) (Hrun : rtc path_step k k') :
  paths_ok k' /\
  forall ps path dirfd, path <> EmptyString ->
    is_absolute (guest_abs_path k' ps path dirfd) = true /\ Forall plain (names (guest_abs_path k' ps path dirfd)).
Proof.
  assert (H : paths_ok k') by (induction Hrun; [done|]; eauto using path_step_ok). split; [done|].
  intros ps path dirfd Hne. by apply guest_abs_path_absolute.
Qed.

End Invariant.

(** A host whose files are all absent. *)
Definition demo_fs : HostFs :=
  {| host_openat _ _ _ _ := - ENOENT; host_reopen _ _ _ := - ENOENT; host_open_exe _ _ _ := - ENOENT;
     host_openpt _ := inl (- ENOENT); host_ftruncate _ _ _ := 0; host_futimens _ _ _ := 0;
     host_path_call _ _ := - ENOENT; host_readlink _ _ _ := inl (- ENOENT); host_statx _ _ _ _ := inl (- ENOENT);
     host_fstatx _ _ _ := inl (- EBADF); host_exe_statx _ _ _ := inl (- ENOENT) |}.

(** Task 1 opens its directory of tasks and enters it. *)
Lemma paths_stay_absolute_witness :
  let k1 := (@openat_kernel key_order demo_fds demo_fs demo_view demo_facts "../proc/./self/task" AT_FDCWD 0 0 1 confined_kernel).2 in
  let k2 := chdir_kernel "/proc/self/task" 1 k1 in
  guest_abs_path k2 1 "../fd/0" AT_FDCWD = "/proc/self/fd/0"%string /\
  is_absolute (guest_abs_path k2 1 "../fd/0" AT_FDCWD) = true.
Proof.
  intros k1 k2. split; [vm_compute; reflexivity|].
  assert (Hf : exists i f, find_fd k1 1 1 = Some (i, f) /\ f_path f = "/proc/self/task"%string)
    by (eexists _, _; split; [vm_compute; reflexivity|reflexivity]).
  destruct Hf as (i & f & Hf & Hp).
  assert (Hr : @rtc Kernel (@path_step key_order demo_fds demo_fs demo_view demo_facts) confined_kernel k2).
  { eapply rtc_l; [apply (ps_openat confined_kernel "../proc/./self/task" AT_FDCWD 0 0 1)|]. apply rtc_once.
    unfold k2. rewrite <- Hp. exact (ps_fchdir k1 1 1 i f 1 Hf). }
  refine (proj1 (proj2 (paths_stay_absolute confined_kernel k2 confined_paths_ok Hr) 1 "../fd/0" AT_FDCWD _)). discriminate.
Defined.
