(* ===== verification/FileIo.v ===== *)
(** * FileIo: reading and writing files

    file_io.cpp: reading and writing through the classes of fs.h, the terminal
    gate, vectors of buffers and directories.  A call translates the
    guest's buffers, acts through the class of the [Fd] object and turns an
    interrupted host call into a restart.  What the host reads, writes and
    answers is the class [HostIo]; the host never writes past the buffer it was
    given, which the [take]s below say.

    Main result: exactly when the terminal gate lets a call through. *)

From S2P Require Import Prelude Bytes HostMem AddrSpace Isa Vm Frame Interp Kernel Signals SigCalls FdTable Session Process Paths VirtualFs Procfs FileSys.
From Stdlib Require Import Lia Ascii.
From stdpp Require Import base numbers list gmap strings option fin_maps fin_sets.

Open Scope Z_scope.
Open Scope vm_scope.

(** The host's side; a result is a count or [-errno]. *)
Class HostIo := {
  host_read : Kernel -> Z -> Z -> Z + list Z;
  host_write : Kernel -> Z -> list Z -> Z;
  host_pread : Kernel -> Z -> Z -> Z -> Z + list Z;
  host_pwrite : Kernel -> Z -> list Z -> Z -> Z;
  host_lseek : Kernel -> Z -> Z -> Z -> Z;
  host_readv : Kernel -> Z -> list Z -> Z + list Z;
  host_writev : Kernel -> Z -> list (list Z) -> Z;
  host_getdents : Kernel -> Z -> Z -> Z + list Z;
  host_fsync : Kernel -> Z -> bool -> Z;
  host_sendfile : Kernel -> Z -> Z -> option Z -> Z -> Z * Z;  (** result, offset after *)
  host_tostop : Kernel -> Z -> option bool;  (** [TOSTOP], when [tcgetattr] works *)
  host_poll : Kernel -> list (Z * Z) -> Z -> Z + Z * list Z;  (** fds with events; count, revents *)
  host_eventfd : Kernel -> Z -> Z -> Z;
  host_ioctl : Kernel -> Z -> Z -> Z + list Z -> Z * list Z;  (** plain argument or buffer; buffer after *)
  host_fcntl_lock : Kernel -> Z -> Z -> list Z -> Z * list Z;
  host_clock : Kernel -> Z -> Z + list Z;
  host_seconds : Kernel -> Z;  (** of the monotonic clock *)
  host_nanosleep : Kernel -> Z -> Z -> list Z -> Z * list Z;  (** positive errno; time left *)
  host_getrandom : Kernel -> Z -> Z -> Z + list Z;
  host_prlimit : Kernel -> Z -> option (list Z) -> Z * list Z
}.

Section Io.
Context {ord : HashOrder} {env : HostEnv} {hf : HostFds} {fs : HostFs} {io : HostIo}.

(** ** The methods of the open files *)

Definition set_pos (p : Z) (f : Fd) : Fd :=
  match f_kind f with
  | KProc data _ => mkfd (host_fd f) (cloexec f) (f_path f) (KProc data p)
  | KDir es _ => mkfd (host_fd f) (cloexec f) (f_path f) (KDir es p)
  | _ => f
  end.
Definition move_pos (i p : Z) : M World unit := kmod (fun _ => upd_file i (set_pos p)).

(** What was read, cut to the buffer. *)
Definition store_read (buf : hptr) (count : Z) (rc : Z + list Z) : M World Z :=
  match rc with
  | inl e => ret e
  | inr b => let b := take (Z.to_nat count) b in store_bytes buf b ;; ret (Z.of_nat (length b))
  end.

Definition fd_read (i : Z) (f : Fd) (buf : hptr) (count : Z) : M World Z :=
  match f_kind f with
  | KProc data pos =>
    match proc_read data pos count with
    | inl e => ret e
    | inr s => move_pos i (pos + Z.of_nat (String.length s)) ;; store_read buf count (inr (string_bytes s))
    end
  | KDir _ _ => ret (- EINVAL)
  | _ => rc <- host_op (fun k => host_read k (host_fd f) count) ;; store_read buf count rc
  end.

Definition fd_write (f : Fd) (b : list Z) : M World Z :=
  match f_kind f with
  | KProc _ _ | KDir _ _ => ret (- EROFS)
  | KSignal _ _ => ret (- EINVAL)
  | _ => host_op (fun k => host_write k (host_fd f) b)
  end.

Definition fd_pread (f : Fd) (buf : hptr) (count off : Z) : M World Z :=
  match f_kind f with
  | KProc data _ =>
    match proc_read data off count with
    | inl e => ret e
    | inr s => store_read buf count (inr (string_bytes s))
    end
  | KDir _ _ => ret (- EINVAL)
  | KSignal _ _ => ret (- ESPIPE)
  | _ => rc <- host_op (fun k => host_pread k (host_fd f) count off) ;; store_read buf count rc
  end.

Definition fd_pwrite (f : Fd) (b : list Z) (off : Z) : M World Z :=
  match f_kind f with
  | KProc _ _ | KDir _ _ => ret (- EROFS)
  | KSignal _ _ => ret (- ESPIPE)
  | _ => host_op (fun k => host_pwrite k (host_fd f) b off)
  end.

Definition fd_lseek (i : Z) (f : Fd) (off whence : Z) : M World Z :=
  match f_kind f with
  | KProc data pos =>
    let p := proc_lseek data pos off whence in
    (if p <? 0 then ret tt else move_pos i p) ;; ret p
  | KDir _ idx =>
    let p := dir_lseek idx off whence in
    (if p <? 0 then ret tt else move_pos i p) ;; ret p
  | _ => host_op (fun k => host_lseek k (host_fd f) off whence)
  end.

(** Bytes into consecutive segments of host memory. *)
Fixpoint scatter (segs : list (hptr * Z)) (b : list Z) : M World unit :=
  match segs with
  | [] => ret tt
  | (p, len) :: r => store_bytes p (take (Z.to_nat len) b) ;; scatter r (drop (Z.to_nat len) b)
  end.

Definition total (segs : list (hptr * Z)) : Z := foldr (fun s n => s.2 + n) 0 segs.

Definition fd_readv (i : Z) (f : Fd) (segs : list (hptr * Z)) : M World Z :=
  match f_kind f with
  | KProc data pos =>
    let '(pieces, p) := proc_readv data pos (segs.*2) in
    move_pos i p ;; scatter segs (string_bytes (concat_s pieces)) ;;
    ret (Z.of_nat (String.length (concat_s pieces)))
  | KDir _ _ => ret (- EINVAL)
  | _ =>
    rc <- host_op (fun k => host_readv k (host_fd f) (segs.*2)) ;;
    match rc with
    | inl e => ret e
    | inr b => let b := take (Z.to_nat (total segs)) b in scatter segs b ;; ret (Z.of_nat (length b))
    end
  end.

Fixpoint gather (segs : list (hptr * Z)) : M World (list (list Z)) :=
  match segs with
  | [] => ret []
  | (p, len) :: r => b <- load_bytes p (Z.to_nat len) ;; l <- gather r ;; ret (b :: l)
  end.

Definition fd_writev (f : Fd) (bs : list (list Z)) : M World Z :=
  match f_kind f with
  | KProc _ _ | KDir _ _ => ret (- EROFS)
  | KSignal _ _ => ret (- EINVAL)
  | _ => host_op (fun k => host_writev k (host_fd f) bs)
  end.

Definition fd_getdents64 (i : Z) (f : Fd) (buf : hptr) (count : Z) : M World Z :=
  match f_kind f with
  | KProc _ _ => ret (- ENOTDIR)
  | KDir es idx =>
    let '(ds, n, idx') := dir_getdents64 es idx count in
    store_dirents buf ds ;; move_pos i idx' ;; ret n
  | _ => rc <- host_op (fun k => host_getdents k (host_fd f) count) ;; store_read buf count rc
  end.

(** ** The terminal gate *)

(** [tty_bg_check]: [Some] is the result of a call that was stopped. *)
Definition tty_bg_kernel (f : Fd) (is_read : bool) (self : Z) (k : Kernel) : option Z * Kernel :=
  match tasks k !! self, file_tty f with
  | Some t, Some i =>
    if negb (bool_decide ((sessions k !! t_session t) ≫= ctty = Some i)) then (None, k)
    else
      let fg := from_option fg_pgrp 0 (ttys k !! i) in
      if (fg =? 0) || (pgid (t_pgrp t) =? fg) then (None, k)
      else if negb is_read && bool_decide (host_tostop k (host_fd f) = Some false) then (None, k)
      else
        let sig := if is_read then SIGTTIN else SIGTTOU in
        let '(act, k1) := read_action t sig k in
        let ev := mkev sig 0 SI_KERNEL 0 0 in
        if handler_is_ignored (a_handler act) then
          if is_read then (Some (- EIO), k1) else (None, send self ev k1)
        else (Some (- EINTR), send self ev k1)
  | _, _ => (None, k)
  end.

Definition tty_bg_check (f : Fd) (is_read : bool) : M World (option Z) :=
  kernel_op (fun self k => tty_bg_kernel f is_read self (emit EvHost k)).

(** ** The calls *)

Definition own_fd (fd : Z) : M World (option (Z * Fd)) := kget (fun self k => find_fd k (own_ps self k) fd).

(** A call on an open descriptor. *)
Definition with_fd (fd : Z) (m : Z -> Fd -> M World Z) : M World Z :=
  h <- own_fd fd ;; match h with None => ret (- EBADF) | Some (i, f) => m i f end.

(** A call that may be stopped at the gate. *)
Definition gated (f : Fd) (is_read : bool) (m : M World Z) : M World Z :=
  g <- tty_bg_check f is_read ;; match g with Some rc => ret rc | None => m end.

(** [rc == -EINTR ? SYSCALL_RESTART : rc]. *)
Definition restartable (m : M World Z) : M World Z :=
  rc <- m ;; ret (if rc =? - EINTR then SYSCALL_RESTART else rc).

(** A guest buffer to write into, and one to read from. *)
Definition with_out (addr size : Z) (m : hptr -> M World Z) : M World Z :=
  p <- mmu_wM addr size ;; match p with None => ret (- EFAULT) | Some p => m p end.
Definition with_in (addr size : Z) (m : list Z -> M World Z) : M World Z :=
  p <- mmuM addr size ;;
  match p with None => ret (- EFAULT) | Some p => b <- load_bytes p (Z.to_nat size) ;; m b end.

Definition do_read : M World Z :=
  a1 <- Vm.r 1 ;; a2 <- Vm.r 2 ;; a3 <- Vm.r 3 ;;
  with_fd (arg_s32 a1) (fun i f =>
    gated f true (with_out a2 a3 (fun buf => restartable (fd_read i f buf a3)))).

Definition do_write : M World Z :=
  a1 <- Vm.r 1 ;; a2 <- Vm.r 2 ;; a3 <- Vm.r 3 ;;
  with_fd (arg_s32 a1) (fun i f =>
    gated f false (with_in a2 a3 (fun b => restartable (fd_write f b)))).

Definition do_lseek : M World Z :=
  a1 <- Vm.r 1 ;; a2 <- Vm.r 2 ;; a3 <- Vm.r 3 ;;
  with_fd (arg_s32 a1) (fun i f => fd_lseek i f (s64 a2) (arg_s32 a3)).

Definition do_ftruncate : M World Z :=
  a1 <- Vm.r 1 ;; a2 <- Vm.r 2 ;;
  with_fd (arg_s32 a1) (fun i f => host_op (fd_ftruncate f (s64 a2))).

Definition do_pread : M World Z :=
  a1 <- Vm.r 1 ;; a2 <- Vm.r 2 ;; a3 <- Vm.r 3 ;; a4 <- Vm.r 4 ;;
  with_fd (arg_s32 a1) (fun i f => with_out a2 a3 (fun buf => restartable (fd_pread f buf a3 (s64 a4)))).

Definition do_pwrite : M World Z :=
  a1 <- Vm.r 1 ;; a2 <- Vm.r 2 ;; a3 <- Vm.r 3 ;; a4 <- Vm.r 4 ;;
  with_fd (arg_s32 a1) (fun i f => with_in a2 a3 (fun b => restartable (fd_pwrite f b (s64 a4)))).

(** [translate_iovec]: the array at [p] is read while its buffers are
    translated; empty segments are dropped. *)
Fixpoint translate_loop (p : hptr) (n : nat) (writable : bool) : M World (option (list (hptr * Z))) :=
  match n with
  | O => ret (Some [])
  | Datatypes.S n' =>
    base <- loadM p 8 ;; len <- loadM (padd p 8) 8 ;;
    if len =? 0 then translate_loop (padd p 16) n' writable
    else
      buf <- (if writable then mmu_wM base len else mmuM base len) ;;
      match buf with
      | None => ret None
      | Some b =>
        l <- translate_loop (padd p 16) n' writable ;; ret (cons (b, len) <$> l)
      end
  end.

Definition translate_iovec (addr iovcnt : Z) (writable : bool) : M World (option (list (hptr * Z))) :=
  p <- mmuM addr (u64 (16 * iovcnt)) ;;
  match p with
  | None => ret None
  | Some p => translate_loop p (Z.to_nat iovcnt) writable
  end.

Definition with_iovec (addr iovcnt : Z) (writable : bool) (m : list (hptr * Z) -> M World Z) : M World Z :=
  if iovcnt <=? 0 then ret (if iovcnt =? 0 then 0 else - EINVAL)
  else
    v <- translate_iovec addr iovcnt writable ;;
    match v with
    | None => ret (- EFAULT)
    | Some segs => if bool_decide (segs = []) then ret 0 else m segs
    end.

Definition do_readv : M World Z :=
  a1 <- Vm.r 1 ;; a2 <- Vm.r 2 ;; a3 <- Vm.r 3 ;;
  with_fd (arg_s32 a1) (fun i f =>
    gated f true (with_iovec a2 (arg_s32 a3) true (fun segs => restartable (fd_readv i f segs)))).

Definition do_writev : M World Z :=
  a1 <- Vm.r 1 ;; a2 <- Vm.r 2 ;; a3 <- Vm.r 3 ;;
  with_fd (arg_s32 a1) (fun i f =>
    gated f false (with_iovec a2 (arg_s32 a3) false (fun segs => bs <- gather segs ;; restartable (fd_writev f bs)))).

Definition sync_call (data : bool) : M World Z :=
  a1 <- Vm.r 1 ;;
  with_fd (arg_s32 a1) (fun i f =>
    if host_fd f <? 0 then ret (- EINVAL) else host_op (fun k => host_fsync k (host_fd f) data)).
Definition do_fsync : M World Z := sync_call false.
Definition do_fdatasync : M World Z := sync_call true.

Definition do_sendfile : M World Z :=
  a1 <- Vm.r 1 ;; a2 <- Vm.r 2 ;; a3 <- Vm.r 3 ;; a4 <- Vm.r 4 ;;
  out_h <- own_fd (arg_s32 a1) ;; in_h <- own_fd (arg_s32 a2) ;;
  match out_h, in_h with
  | Some (_, fo), Some (_, fi) =>
    if (host_fd fo <? 0) || (host_fd fi <? 0) then ret (- EINVAL)
    else
      off <- (if a3 =? 0 then ret (Some None)
              else p <- mmuM a3 8 ;;
                   match p with None => ret None | Some p => x <- loadM p 8 ;; ret (Some (Some x)) end) ;;
      match off with
      | None => ret (- EFAULT)
      | Some off_arg =>
        rc <- host_op (fun k => host_sendfile k (host_fd fo) (host_fd fi) (s64 <$> off_arg) a4) ;;
        if rc.1 <? 0 then ret (if rc.1 =? - EINTR then SYSCALL_RESTART else rc.1)
        else
          (if a3 =? 0 then ret tt
           else p <- mmu_wM a3 8 ;; match p with None => ret tt | Some p => storeM p 8 (u64 rc.2) end) ;;
          ret rc.1
      end
  | _, _ => ret (- EBADF)
  end.

Definition do_getdents64 : M World Z :=
  a1 <- Vm.r 1 ;; a2 <- Vm.r 2 ;; a3 <- Vm.r 3 ;;
  with_fd (arg_s32 a1) (fun i f =>
    if a3 =? 0 then ret (- EINVAL) else with_out a2 a3 (fun buf => fd_getdents64 i f buf a3)).

End Io.

(** ** The gate *)

(** The call goes on exactly for a file that is not the caller's controlling
    terminal, for the foreground group (or none set), and for a write of the
    background when [TOSTOP] is known to be off or SIGTTOU is ignored. *)
Lemma tty_gate_passes {ord : HashOrder} {io : HostIo} f is_read self t k :
  tasks k !! self = Some t ->
  (tty_bg_kernel f is_read self k).1 = None <->
  (forall i, file_tty f = Some i -> (sessions k !! t_session t) ≫= ctty = Some i ->
     from_option fg_pgrp 0 (ttys k !! i) = 0 \/ pgid (t_pgrp t) = from_option fg_pgrp 0 (ttys k !! i) \/
     (is_read = false /\ (host_tostop k (host_fd f) = Some false \/
        handler_is_ignored (a_handler (read_action t SIGTTOU k).1) = true))).
Proof.
  intros Ht. unfold tty_bg_kernel. rewrite Ht. destruct (file_tty f) as [i|]; [|by split].
  destruct (bool_decide_reflect ((sessions k !! t_session t) ≫= ctty = Some i)) as [Hc|Hc]; cbn [negb].
  2: { split; [|done]. intros _ i' [= <-] Hc'. done. }
  set (fg := from_option fg_pgrp 0 (ttys k !! i)).
  destruct (Z.eqb_spec fg 0) as [H0|H0]; [split; [|done]; intros _ i' [= <-] _; by left|].
  destruct (Z.eqb_spec (pgid (t_pgrp t)) fg) as [H1|H1]; cbn [orb]; [split; [|done]; intros _ i' [= <-] _; right; by left|].
  destruct is_read; cbn [negb andb].
  - destruct (read_action t SIGTTIN k) as [act k1]. split.
    + destruct (handler_is_ignored _); done.
    + intros H. destruct (H i eq_refl Hc) as [|[|[? _]]]; done.
  - destruct (bool_decide_reflect (host_tostop k (host_fd f) = Some false)) as [H2|H2].
    { split; [|done]. intros _ i' [= <-] _. right; right. split; [done|by left]. }
    destruct (read_action t SIGTTOU k) as [act k1]. cbn [fst]. destruct (handler_is_ignored (a_handler act)) eqn:E.
    + split; [|done]. intros _ i' [= <-] _. right; right. split; [done|by right].
    + split; [done|]. intros H. destruct (H i eq_refl Hc) as [|[|[_ [|]]]]; done.
Qed.
