(* ===== verification/Waiting.v ===== *)
(** * Waiting: poll and select, and the calls on the machine

    [poll_core], [do_poll], [do_ppoll], [do_pselect6], [do_eventfd2] and the
    pass-through of [do_ioctl] and [do_fcntl] (fd_ops.cpp); the clock, random,
    limit and [alloca] calls of posix_syscall.cpp; [do_uname] and [do_sysinfo]
    (procfs.cpp).  The host waits in [host_poll]; a set of descriptors is read
    and written word by word in guest memory, as the macros of [fd_set] do.

    Main results: what [poll] counts and reports for every kind of entry, and
    where the count differs from the entries with events; the conversion of a
    timeout to milliseconds. *)

From S2P Require Import Prelude Bytes HostMem AddrSpace Isa Vm Frame Interp Kernel Signals SigCalls FdTable Session Process Paths VirtualFs Procfs FileSys FileIo.
From Stdlib Require Import Lia Ascii.
From stdpp Require Import base numbers list gmap strings option fin_maps fin_sets.

Open Scope Z_scope.
Open Scope vm_scope.

Definition POLLIN : Z := 0x1.
Definition POLLPRI : Z := 0x2.
Definition POLLOUT : Z := 0x4.
Definition POLLERR : Z := 0x8.
Definition POLLHUP : Z := 0x10.
Definition POLLNVAL : Z := 0x20.
Definition FD_SETSIZE : Z := 1024.
Definition EPERM : Z := 1.

(** ** Timeouts *)

(** Milliseconds of a [timespec] with non-negative fields. *)
Definition timeout_ms (tv_sec tv_nsec : Z) : Z :=
  if (INT_MAX - 1000) / 1000 <? tv_sec then INT_MAX else s32 (tv_sec * 1000 + tv_nsec / 1000000).

(** ** poll *)

(** What becomes of an entry of the guest's array. *)
Inductive slot :=
| Skip  (** a negative fd *)
| Preset (revents : Z)  (** decided at once, and counted *)
| Wait (hfd : Z).  (** left to the host *)

#[export] Instance slot_eq_dec : EqDecision slot.
Proof. solve_decision. Defined.

Definition poll_slot (k : Kernel) (ps : Z) (e : Z * Z) : slot :=
  if e.1 <? 0 then Skip
  else match find_fd k ps e.1 with
       | None => Preset POLLNVAL
       | Some (_, f) => if host_fd f <? 0 then Preset (Z.land e.2 (Z.lor POLLIN POLLOUT)) else Wait (host_fd f)
       end.

Definition slot_fd (s : slot) : Z := match s with Wait h => h | _ => -1 end.
Definition is_preset (s : slot) : bool := match s with Preset _ => true | _ => false end.
Definition presets (l : list slot) : Z := Z.of_nat (length (filter (fun s => is_preset s = true) l)).

(** [revents] before the host is asked, and in the end. *)
Definition early_revents (s : slot) : Z := match s with Preset r => r | _ => 0 end.
Definition final_revents (s : slot) (host : Z) : Z := match s with Wait _ => host | _ => early_revents s end.

Section Waiting.
Context {ord : HashOrder} {env : HostEnv} {hf : HostFds} {fs : HostFs} {io : HostIo}.

Fixpoint load_pollfds (p : hptr) (n : nat) : M World (list (Z * Z)) :=
  match n with
  | O => ret []
  | Datatypes.S n' =>
    fd <- loadM p 4 ;; ev <- loadM (padd p 4) 2 ;; l <- load_pollfds (padd p 8) n' ;; ret ((s32 fd, ev) :: l)
  end.

(** [revents] of consecutive entries; [None] leaves one alone. *)
Fixpoint store_revents (p : hptr) (l : list (option Z)) : M World unit :=
  match l with
  | [] => ret tt
  | x :: r => match x with Some x => storeM (padd p 6) 2 (u16 x) | None => ret tt end ;; store_revents (padd p 8) r
  end.

Definition poll_core (gfds : option hptr) (n timeout : Z) : M World Z :=
  es <- match gfds with Some p => load_pollfds p (Z.to_nat n) | None => ret [] end ;;
  slots <- kget (fun self k => poll_slot k (own_ps self k) <$> es) ;;
  match gfds with Some p => store_revents p (Some ∘ early_revents <$> slots) | None => ret tt end ;;
  rc <- host_op (fun k => host_poll k (zip (slot_fd <$> slots) es.*2) (if 0 <? presets slots then 0 else timeout)) ;;
  match rc with
  | inl e => ret e
  | inr (c, revs) =>
    match gfds with
    | Some p => store_revents p (zip_with (fun s x => match s with Wait _ => Some x | _ => None end) slots revs)
    | None => ret tt
    end ;;
    ret (c + presets slots)
  end.

Definition poll_array (addr n : Z) (m : option hptr -> M World Z) : M World Z :=
  if 0 <? n then p <- mmu_wM addr (8 * n) ;; match p with None => ret (- EFAULT) | Some p => m (Some p) end
  else m None.

Definition do_poll : M World Z :=
  a1 <- Vm.r 1 ;; n <- Vm.r 2 ;;
  if 1024 <? n then ret (- EINVAL)
  else poll_array a1 n (fun gfds => a3 <- Vm.r 3 ;; poll_core gfds n (arg_s32 a3)).

(** The optional [timespec] at [addr]. *)
Definition read_timeout (addr : Z) (m : Z -> M World Z) : M World Z :=
  if addr =? 0 then m (-1)
  else
    p <- mmuM addr 16 ;;
    match p with
    | None => ret (- EFAULT)
    | Some p =>
      s <- loadM p 8 ;; ns <- loadM (padd p 8) 8 ;;
      if (s64 s <? 0) || (s64 ns <? 0) then ret (- EINVAL) else m (timeout_ms (s64 s) (s64 ns))
    end.

Definition do_ppoll : M World Z :=
  a1 <- Vm.r 1 ;; n <- Vm.r 2 ;; a3 <- Vm.r 3 ;;
  if 1024 <? n then ret (- EINVAL)
  else read_timeout a3 (fun timeout => poll_array a1 n (fun gfds => poll_core gfds n timeout)).

(** ** pselect6 *)

(** [FD_ISSET], [FD_SET] and [FD_ZERO] on a set in memory. *)
Definition fd_isset (p : option hptr) (fd : Z) : M World bool :=
  match p with None => ret false | Some p => x <- load64 p (fd / 64) ;; ret (Z.testbit x (fd mod 64)) end.
Definition fd_set (p : option hptr) (fd : Z) : M World unit :=
  match p with
  | None => ret tt
  | Some p => x <- load64 p (fd / 64) ;; store64 p (fd / 64) (Z.setbit x (fd mod 64))
  end.
Definition fd_zero (p : option hptr) : M World unit :=
  match p with None => ret tt | Some p => store_bytes p (replicate 128 0) end.

(** What [select] waits for: host entries with their guest fd, events and
    interest in exceptions; unopened fds; virtual fds asked for reading and for
    writing. *)
Record selection := mksel {
  sel_hosts : list (Z * Z * Z * bool);
  sel_invalid : Z;
  sel_vr : list Z;
  sel_vw : list Z
}.

Definition flag (b : bool) (x : Z) : Z := if b then x else 0.

Fixpoint select_scan (r w e : option hptr) (n : nat) (fd : Z) (s : selection) : M World selection :=
  match n with
  | O => ret s
  | Datatypes.S n' =>
    in_r <- fd_isset r fd ;; in_w <- fd_isset w fd ;; in_e <- fd_isset e fd ;;
    if negb in_r && negb in_w && negb in_e then select_scan r w e n' (fd + 1) s
    else
      h <- kget (fun self k => find_fd k (own_ps self k) fd) ;;
      select_scan r w e n' (fd + 1)
        (match h with
         | None => mksel (sel_hosts s) (sel_invalid s + 1) (sel_vr s) (sel_vw s)
         | Some (_, f) =>
           if host_fd f <? 0 then
             mksel (sel_hosts s) (sel_invalid s) (sel_vr s ++ if in_r : bool then [fd] else [])
                   (sel_vw s ++ if in_w : bool then [fd] else [])
           else
             mksel (sel_hosts s ++ [(fd, host_fd f, Z.lor (flag in_r POLLIN) (flag in_w POLLOUT), in_e)])
                   (sel_invalid s) (sel_vr s) (sel_vw s)
         end)
  end.

(** The bits of the entries the host reported, and their number. *)
Fixpoint select_report (r w e : option hptr) (l : list ((Z * Z * Z * bool) * Z)) (ready : Z) : M World Z :=
  match l with
  | [] => ret ready
  | ((fd, _, _, want), rev) :: rest =>
    let is_r := nz (Z.land rev (Z.lor (Z.lor POLLIN POLLHUP) POLLERR)) in
    let is_w := nz (Z.land rev (Z.lor POLLOUT POLLERR)) in
    let is_e := nz (Z.land rev POLLPRI) && want in
    (if is_r then fd_set r fd else ret tt) ;; (if is_w then fd_set w fd else ret tt) ;;
    (if is_e then fd_set e fd else ret tt) ;;
    select_report r w e rest (ready + flag is_r 1 + flag is_w 1 + flag is_e 1)
  end.

Fixpoint fd_sets (p : option hptr) (l : list Z) : M World unit :=
  match l with [] => ret tt | fd :: rest => fd_set p fd ;; fd_sets p rest end.

Definition opt_set (addr : Z) : M World (option (option hptr)) :=
  if addr =? 0 then ret (Some None)
  else p <- mmu_wM addr 128 ;; match p with None => ret None | Some p => ret (Some (Some p)) end.

Definition do_pselect6 : M World Z :=
  a1 <- Vm.r 1 ;; a2 <- Vm.r 2 ;; a3 <- Vm.r 3 ;; a4 <- Vm.r 4 ;; a5 <- Vm.r 5 ;;
  if arg_s32 a1 <? 0 then ret (- EINVAL)
  else
    let n := Z.min (arg_s32 a1) FD_SETSIZE in
    r <- opt_set a2 ;; w <- opt_set a3 ;; e <- opt_set a4 ;;
    match r, w, e with
    | Some r, Some w, Some e =>
      read_timeout a5 (fun timeout =>
        sel <- select_scan r w e (Z.to_nat n) 0 (mksel [] 0 [] []) ;;
        let preset := sel_invalid sel + Z.of_nat (length (sel_vr sel) + length (sel_vw sel)) in
        rc <- host_op (fun k => host_poll k ((fun x : Z * Z * Z * bool => (x.1.1.2, x.1.2)) <$> sel_hosts sel)
                                          (if 0 <? preset then 0 else timeout)) ;;
        match rc with
        | inl err => ret err
        | inr (_, revs) =>
          fd_zero r ;; fd_zero w ;; fd_zero e ;;
          ready <- select_report r w e (zip (sel_hosts sel) revs) 0 ;;
          fd_sets r (sel_vr sel) ;; fd_sets w (sel_vw sel) ;;
          ret (ready + preset)
        end)
    | _, _, _ => ret (- EFAULT)
    end.

Definition do_eventfd2 : M World Z :=
  a1 <- Vm.r 1 ;; a2 <- Vm.r 2 ;;
  let fl := arg_s32 a2 in
  hfd <- host_op (fun k => host_eventfd k (u32 a1) fl) ;;
  if hfd <? 0 then ret hfd
  else kernel_op (fun self k => fds_emplace (own_ps self k) (mkfd hfd (nz (Z.land fl BPF_O_CLOEXEC)) EmptyString KHost) 0 k).

(** ** What goes to the host as it is *)

Definition TCGETS : Z := 0x5401.
Definition TCSETS : Z := 0x5402.
Definition TCSETSW : Z := 0x5403.
Definition TCSETSF : Z := 0x5404.
Definition TIOCGWINSZ : Z := 0x5413.
Definition TIOCSWINSZ : Z := 0x5414.
Definition FIONBIO : Z := 0x5421.
Definition FIONREAD : Z := 0x541B.

(** The size of the buffer behind the argument, 0 for a plain value, and whether
    the host writes it. *)
Definition ioctl_buffer (request : Z) : Z * bool :=
  if (request =? TCGETS) || (request =? TCSETS) || (request =? TCSETSW) || (request =? TCSETSF) then (60, request =? TCGETS)
  else if (request =? TIOCGWINSZ) || (request =? TIOCSWINSZ) then (8, request =? TIOCGWINSZ)
  else if (request =? FIONBIO) || (request =? FIONREAD) then (4, request =? FIONREAD)
  else let size := Z.land (Z.shiftr request 16) 0x3FFF in
       (size, negb (size =? 0) && Z.testbit request 31).

(** A host call on a buffer of the guest, which the host may write when
    [write_back] holds; [host_op]'s second result is the buffer after it. *)
Definition host_buffer (addr size : Z) (write_back : bool) (f : Kernel -> list Z -> Z * list Z) : M World Z :=
  p <- (if write_back then mmu_wM addr size else mmuM addr size) ;;
  match p with
  | None => ret (- EFAULT)
  | Some p =>
    b <- load_bytes p (Z.to_nat size) ;;
    rc <- host_op (fun k => f k b) ;;
    (if write_back then store_bytes p (take (Z.to_nat size) rc.2) else ret tt) ;; ret rc.1
  end.

Definition host_ioctl_call (hfd request : Z) : M World Z :=
  arg <- Vm.r 3 ;;
  let '(size, write_back) := ioctl_buffer request in
  if size =? 0 then rc <- host_op (fun k => host_ioctl k hfd request (inl arg)) ;; ret rc.1
  else host_buffer arg size write_back (fun k b => host_ioctl k hfd request (inr b)).

Definition do_ioctl_full : M World Z := do_ioctl host_ioctl_call.

Definition F_GETLK : Z := 5.
Definition F_SETLK : Z := 6.
Definition F_SETLKW : Z := 7.

Definition host_fcntl_call (hfd cmd arg : Z) : M World Z :=
  if cmd =? F_GETLK then host_buffer arg 32 true (fun k b => host_fcntl_lock k hfd cmd b)
  else if (cmd =? F_SETLK) || (cmd =? F_SETLKW) then host_buffer arg 32 false (fun k b => host_fcntl_lock k hfd cmd b)
  else host_op (fun k => host_fcntl k hfd cmd arg).

Definition do_fcntl_full : M World Z := do_fcntl host_fcntl_call.

(** ** The machine *)

Definition do_clock_gettime : M World Z :=
  a1 <- Vm.r 1 ;; a2 <- Vm.r 2 ;;
  with_out a2 16 (fun p =>
    rc <- host_op (fun k => host_clock k (arg_s32 a1)) ;;
    match rc with inl e => ret e | inr b => store_bytes p (take 16 b) ;; ret 0 end).

Definition clock_nanosleep_core (clk fl req_addr rem_addr : Z) : M World Z :=
  with_in req_addr 16 (fun req =>
    rem <- (if rem_addr =? 0 then ret (Some None)
            else p <- mmu_wM rem_addr 16 ;; match p with None => ret None | Some p => ret (Some (Some p)) end) ;;
    match rem with
    | None => ret (- EFAULT)
    | Some rem =>
      rc <- host_op (fun k => host_nanosleep k clk fl req) ;;
      (match rem with
       | Some p => if rc.1 =? EINTR then store_bytes p (take 16 rc.2) else ret tt
       | None => ret tt
       end) ;;
      ret (if rc.1 =? 0 then 0 else - rc.1)
    end).

Definition do_nanosleep : M World Z := a1 <- Vm.r 1 ;; a2 <- Vm.r 2 ;; clock_nanosleep_core 0 0 a1 a2.
Definition do_clock_nanosleep : M World Z :=
  a1 <- Vm.r 1 ;; a2 <- Vm.r 2 ;; a3 <- Vm.r 3 ;; a4 <- Vm.r 4 ;; clock_nanosleep_core (arg_s32 a1) (arg_s32 a2) a3 a4.

Definition do_getrandom : M World Z :=
  a1 <- Vm.r 1 ;; a2 <- Vm.r 2 ;;
  if a2 =? 0 then ret 0
  else with_out a1 a2 (fun p =>
    a3 <- Vm.r 3 ;;
    rc <- host_op (fun k => host_getrandom k a2 (u32 a3)) ;;
    match rc with
    | inl e => ret e
    | inr b => let b := take (Z.to_nat a2) b in store_bytes p b ;; ret (Z.of_nat (length b))
    end).

Definition do_alloca : M World Z := a1 <- Vm.r 1 ;; alloca (s64 a1).

Definition do_prlimit64 : M World Z :=
  pid <- Vm.r 1 ;; a2 <- Vm.r 2 ;; new_ptr <- Vm.r 3 ;; old_ptr <- Vm.r 4 ;;
  tg <- kget Process.own_tgid ;;
  if negb (pid =? 0) && negb (pid =? tg) then ret (- EPERM)
  else
    new <- (if new_ptr =? 0 then ret (Some None)
            else p <- mmuM new_ptr 16 ;;
                 match p with None => ret None | Some p => b <- load_bytes p 16 ;; ret (Some (Some b)) end) ;;
    match new with
    | None => ret (- EFAULT)
    | Some new =>
      old <- (if old_ptr =? 0 then ret (Some None)
              else p <- mmu_wM old_ptr 16 ;; match p with None => ret None | Some p => ret (Some (Some p)) end) ;;
      match old with
      | None => ret (- EFAULT)
      | Some old =>
        rc <- host_op (fun k => host_prlimit k (arg_s32 a2) new) ;;
        if rc.1 <? 0 then ret rc.1
        else (match old with Some p => store_bytes p (take 16 rc.2) | None => ret tt end) ;; ret 0
      end
    end.

(** A field of [struct utsname]: 65 bytes, the rest zero. *)
Definition uts_field (s : string) : list Z := string_bytes s ++ replicate (65 - String.length s) 0.
Definition utsname : list Z :=
  mjoin (uts_field <$> ["Linux"; "bpfvm"; "6.12.0"; "#1 SMP bpfvm"; "bpf"; "(none)"]%string).

Definition do_uname : M World Z := a1 <- Vm.r 1 ;; with_out a1 390 (fun p => store_bytes p utsname ;; ret 0).

(** [struct sysinfo]. *)
Definition sysinfo_bytes (uptime procs : Z) : list Z :=
  le_bytes 8 (u64 uptime) ++ replicate 24 0 ++ le_bytes 8 si_totalram ++ le_bytes 8 si_freeram ++ replicate 32 0 ++
  le_bytes 2 (u16 procs) ++ replicate 22 0 ++ le_bytes 4 1 ++ replicate 4 0.

Definition do_sysinfo : M World Z :=
  a1 <- Vm.r 1 ;;
  with_out a1 112 (fun p =>
    up <- host_op host_seconds ;;
    n <- kget (fun _ k => Z.of_nat (size (pid_map k))) ;;
    store_bytes p (sysinfo_bytes up n) ;; ret 0).

End Waiting.

(** ** What poll reports *)

Definition reported (l : list Z) : Z := Z.of_nat (length (filter (fun x => x <> 0) l)).
Definition silent_presets (l : list slot) : Z := Z.of_nat (length (filter (fun s => s = Preset 0) l)).

(** The answer of a host that keeps to poll(2): one [revents] per entry, none for
    an entry without a descriptor, and the number of entries that have some. *)
Definition honest_poll (l : list slot) (c : Z) (revs : list Z) : Prop :=
  length revs = length l /\ c = reported revs /\
  Forall2 (fun s x => match s with Wait _ => True | _ => x = 0 end) l revs.

Lemma reported_cons (x : Z) (l : list Z) : reported (x :: l) = reported l + flag (negb (x =? 0)) 1.
Proof.
  unfold reported. destruct (Z.eqb_spec x 0) as [->|Hx].
  - rewrite list.filter_cons_False by (by intros []). cbn. lia.
  - rewrite list.filter_cons_True by done. cbn [length negb flag]. lia.
Qed.

Lemma presets_cons (s : slot) (l : list slot) : presets (s :: l) = presets l + flag (is_preset s) 1.
Proof.
  unfold presets. destruct (is_preset s) eqn:E.
  - rewrite list.filter_cons_True by done. cbn [length flag]. lia.
  - rewrite list.filter_cons_False by congruence. cbn [flag]. lia.
Qed.

Lemma silent_cons (s : slot) (l : list slot) : silent_presets (s :: l) = silent_presets l + match s with Preset 0 => 1 | _ => 0 end.
Proof.
  unfold silent_presets. destruct (decide (s = Preset 0)) as [->|Hs].
  - rewrite list.filter_cons_True by done. cbn [length]. lia.
  - rewrite list.filter_cons_False by done. destruct s as [|[| |]|]; try done; lia.
Qed.

(** What [poll] tells. With a host that keeps to poll(2), a negative
    descriptor has no events, an unopened one POLLNVAL, a virtual file the events
    asked for among reading and writing, at once, and any other file what the
    host found; the call waits only when nothing is decided beforehand; and its
    result is the number of entries with events, plus one for each virtual file
    that was asked for neither reading nor writing, which is counted without an
    event. *)
Theorem poll_reports (k : Kernel) (ps : Z) (es : list (Z * Z)) (c : Z) (revs : list Z) :
  let slots := poll_slot k ps <$> es in
  forall (Hhost : honest_poll slots c revs),
  let out := zip_with final_revents slots revs in
  Forall2 (fun e x =>
    (e.1 < 0 -> x = 0) /\
    (0 <= e.1 -> find_fd k ps e.1 = None -> x = POLLNVAL) /\
    (0 <= e.1 -> forall i f, find_fd k ps e.1 = Some (i, f) -> host_fd f < 0 -> x = Z.land e.2 (Z.lor POLLIN POLLOUT))) es out /\
  (presets slots = 0 <-> Forall (fun s => is_preset s = false) slots) /\
  c + presets slots = reported out + silent_presets slots.
Proof.
  intros slots Hhost out. split; [|split].
  - destruct Hhost as (Hlen & _ & HF). subst out slots. clear c. revert revs Hlen HF.
    induction es as [|e es IH]; intros [|x revs] Hlen HF; [constructor|done|done|]. cbn in Hlen.
    cbn. inversion HF as [|? ? ? ? Hx HF']; subst. constructor; [|apply IH; [lia|done]]. unfold poll_slot in *.
    destruct (Z.ltb_spec e.1 0) as [Hn|Hn].
    + split_and!; [done|lia|lia].
    + destruct (find_fd k ps e.1) as [[i f]|] eqn:Ef.
      * split_and!; [lia|done|]. intros _ i' f' [= <- <-] Hh. destruct (Z.ltb_spec (host_fd f) 0); [done|lia].
      * split_and!; [lia|done|done].
  - clear. generalize slots as l. induction l as [|s l [IH1 IH2]]; [by split|]. rewrite presets_cons.
    assert (0 <= presets l) by (unfold presets; lia). split.
    + destruct (is_preset s) eqn:E; cbn; [lia|]. intros H0. constructor; [done|]. apply IH1. lia.
    + intros [E H1]%Forall_cons. rewrite E, IH2 by done. done.
  - destruct Hhost as (Hlen & -> & HF). subst out. clear -HF. induction HF as [|s x l revs Hx HF IH]; [done|].
    cbn [zip_with]. rewrite !reported_cons, presets_cons, silent_cons.
    destruct s as [|[|r|r]|h]; cbn [final_revents early_revents is_preset flag]; subst; cbn [Z.eqb negb flag]; lia.
Qed.

(** Descriptors 0, a pipe, and 3, a file of /proc asked for priority data; 9 is
    not open. *)
Definition poll_kernel : Kernel :=
  set_files {[5 := mkfd 3 false "" KHost; 6 := mkfd (-1) false "/proc/version" (KProc "Linux" 0)]}
    (set_shared {[1 := mkshared [] 0 {[0 := 5; 3 := 6]} "/" "/" ""]} demo_kernel).

Lemma poll_reports_witness :
  let es := [(0, POLLIN); (9, POLLIN); (-1, POLLIN); (3, POLLPRI)] in
  let slots := poll_slot poll_kernel 1 <$> es in
  slots = [Wait 3; Preset POLLNVAL; Skip; Preset 0] /\
  zip_with final_revents slots [POLLIN; 0; 0; 0] = [POLLIN; POLLNVAL; 0; 0] /\
  1 + presets slots = 3 /\
  1 + presets slots = reported (zip_with final_revents slots [POLLIN; 0; 0; 0]) + silent_presets slots.
Proof.
  split; [vm_compute; reflexivity|]. split; [vm_compute; reflexivity|]. split; [vm_compute; reflexivity|].
  assert (H : honest_poll (poll_slot poll_kernel 1 <$> [(0, POLLIN); (9, POLLIN); (-1, POLLIN); (3, POLLPRI)]) 1 [POLLIN; 0; 0; 0]).
  { split; [reflexivity|]. split; [reflexivity|]. vm_compute. repeat constructor. }
  exact (proj2 (proj2 (poll_reports poll_kernel 1 [(0, POLLIN); (9, POLLIN); (-1, POLLIN); (3, POLLPRI)] 1 [POLLIN; 0; 0; 0] H))).
Defined.

(** ** Timeouts in milliseconds *)

(** The milliseconds of a timeout. For any [timespec] with a nanosecond field
    below one second the conversion stays within [int]: it never becomes
    negative, which would wait for ever; up to 2147482 seconds it is the timeout
    rounded down to a millisecond, and above it is the largest [int]. *)
Theorem timeout_ms_bounds (tv_sec tv_nsec : Z) (Hs : 0 <= tv_sec) (Hn : 0 <= tv_nsec < 10 ^ 9) :
  0 <= timeout_ms tv_sec tv_nsec <= INT_MAX /\
  (tv_sec <= 2147482 ->
     timeout_ms tv_sec tv_nsec * 10 ^ 6 <= tv_sec * 10 ^ 9 + tv_nsec < (timeout_ms tv_sec tv_nsec + 1) * 10 ^ 6) /\
  (2147482 < tv_sec -> timeout_ms tv_sec tv_nsec = INT_MAX).
Proof.
  unfold timeout_ms, INT_MAX. change ((2 ^ 31 - 1 - 1000) / 1000) with 2147482. destruct (Z.ltb_spec 2147482 tv_sec); [lia|].
  change (10 ^ 9) with 1000000000 in *. change (10 ^ 6) with 1000000. change (2 ^ 31 - 1) with 2147483647.
  pose proof (Z.div_mod tv_nsec 1000000 ltac:(lia)). pose proof (Z.mod_pos_bound tv_nsec 1000000 ltac:(lia)).
  rewrite sval_small by (change (2 ^ (32 - 1)) with 2147483648; lia). lia.
Qed.

Lemma timeout_ms_bounds_witness : timeout_ms 1 999999999 = 1999 /\ 0 <= timeout_ms 1 999999999 <= INT_MAX.
Proof. split; [reflexivity|]. exact (proj1 (timeout_ms_bounds 1 999999999 ltac:(lia) ltac:(lia))). Defined.

(** A timeout below a millisecond does not wait at all, and a nanosecond field
    past one second, which is not refused, can wait for ever. *)
Lemma timeout_ms_corners : timeout_ms 0 999999 = 0 /\ timeout_ms 0 (2 ^ 31 * 10 ^ 6) = - 2 ^ 31.
Proof. split; reflexivity. Qed.
