(* ===== verification/Sockets.v ===== *)
(** * Sockets: addresses, messages, epoll

    socket.cpp.  The host's sockets are the class [HostNet]; modelled is what is
    done around its calls: the translation of AF_UNIX addresses to and from the
    root of the process, of message headers with their vectors and control data
    (descriptors in SCM_RIGHTS messages), the descriptors that sockets,
    connections and received rights get, and the layout of epoll events.

    Main results: an address bound below the root reads back as the guest's own
    path; reading an address back never writes outside the buffer; descriptors
    in control messages are translated and nothing else of them is changed. *)

From S2P Require Import Prelude Bytes HostMem AddrSpace Isa Vm Frame Interp Kernel Signals SigCalls FdTable Session Process Paths VirtualFs Procfs FileSys Confine FileIo Waiting.
From Stdlib Require Import Lia Ascii.
From stdpp Require Import base numbers list gmap strings option fin_maps fin_sets.

Open Scope Z_scope.
Open Scope vm_scope.

Definition AF_UNIX : Z := 1.
Definition SUN_PATH : Z := 2.  (** [offsetof(sockaddr_un, sun_path)] *)
Definition SUN_PATH_SIZE : Z := 108.
Definition SOCKADDR_UN : Z := 110.
Definition SOL_SOCKET : Z := 1.
Definition SCM_RIGHTS : Z := 1.
Definition CMSGHDR : Z := 16.
Definition EMSGSIZE : Z := 90.
Definition EPOLL_CTL_DEL : Z := 2.

(** ** Addresses *)

Definition sa_family (l : list Z) : Z := byte_at l 0 + 256 * byte_at l 1.

(** The pathname an address of the given length holds, if it is one. *)
Definition unix_path (b : list Z) (len : Z) : bool :=
  negb (len <=? SUN_PATH) && (sa_family b =? AF_UNIX) && negb (byte_at b SUN_PATH =? 0).

(** The path with the root in front, as [sockaddr_to_host] writes it. *)
Definition under_root (root host : string) : string :=
  if String.eqb root EmptyString || String.eqb root "/" then host else lexically_normal (root +:+ host)%string.

(** [sockaddr_to_host]: the bytes for the host, [None] when they do not fit. *)
Definition sockaddr_to_host (k : Kernel) (ps : Z) (b : list Z) (len : Z) : option (list Z) :=
  if negb (unix_path b len) then Some b
  else
    let avail := Z.min (len - SUN_PATH) SUN_PATH_SIZE in
    let path := bytes_string (c_bytes (Z.to_nat avail) (drop 2 b)) in
    let host := under_root (from_option root EmptyString (shared k !! ps)) (guest_abs_path k ps path AT_FDCWD) in
    if SOCKADDR_UN <? SUN_PATH + Z.of_nat (String.length host) + 1 then None
    else Some ([AF_UNIX; 0] ++ string_bytes host ++ [0]).

(** [sockaddr_to_guest]: the buffer and the length after the rewriting. *)
Definition sockaddr_to_guest (rt : string) (b : list Z) (len capacity : Z) : list Z * Z :=
  if (capacity <=? SUN_PATH) || negb (unix_path b len) then (b, len)
  else if String.eqb rt EmptyString || String.eqb rt "/" then (b, len)
  else
    let written := Z.min capacity len - SUN_PATH in
    let host_path := bytes_string (c_bytes (Z.to_nat written) (drop 2 b)) in
    let prefix := (rt +:+ "/")%string in
    if negb (starts_with prefix host_path) then (b, len)
    else
      let guest := ("/" +:+ str_from (String.length prefix) host_path)%string in
      let text := string_bytes guest ++ [0] in
      (take 2 b ++ text ++ replicate (Z.to_nat written - length text) 0 ++ drop (2 + Z.to_nat written) b,
       SUN_PATH + Z.of_nat (String.length guest) + 1).

(** ** Control messages *)

Definition cmsg_align (n : Z) : Z := u64 (andnot (u64 (n + 7)) 7).

(** [CMSG_FIRSTHDR] and [CMSG_NXTHDR] as offsets into the buffer. *)
Definition cmsg_first (l : list Z) : option Z := if CMSGHDR <=? Z.of_nat (length l) then Some 0 else None.
Definition cmsg_next (l : list Z) (o : Z) : option Z :=
  let len := field l o 8 in
  if len <? CMSGHDR then None
  else
    let o' := o + cmsg_align len in
    let size := Z.of_nat (length l) in
    if size <? o' + CMSGHDR then None
    else if size <? o' + cmsg_align (field l o' 8) then None
    else Some o'.

(** The number of descriptors of a message, an [int]. *)
Definition cmsg_fds (len : Z) : Z := s32 (u64 (len - CMSGHDR) / 4).

Inductive rights_result :=
| RightsErr (e : Z)
| RightsOob (o : Z)  (** a descriptor outside the buffer is written *)
| RightsOk (l : list Z).

(** The inner loop: the descriptors at [o], each replaced by [f] of it. *)
Fixpoint map_fds (n : nat) (f : Z -> option Z) (l : list Z) (o : Z) : rights_result :=
  match n with
  | O => RightsOk l
  | Datatypes.S n' =>
    if Z.of_nat (length l) <? o + 4 then RightsOob o
    else match f (s32 (field l o 4)) with
         | None => RightsErr (- EBADF)
         | Some h => map_fds n' f (put_field l o 4 (u32 h)) (o + 4)
         end
  end.

Definition is_rights (l : list Z) (o : Z) : bool :=
  (s32 (field l (o + 8) 4) =? SOL_SOCKET) && (s32 (field l (o + 12) 4) =? SCM_RIGHTS).

(** The loop over the messages. *)
Fixpoint map_rights (fuel : nat) (f : Z -> option Z) (l : list Z) (o : option Z) : rights_result :=
  match fuel, o with
  | Datatypes.S fuel', Some o =>
    let rc := if is_rights l o then map_fds (Z.to_nat (cmsg_fds (field l o 8))) f l (o + CMSGHDR) else RightsOk l in
    match rc with
    | RightsOk l' => map_rights fuel' f l' (cmsg_next l' o)
    | _ => rc
    end
  | _, _ => RightsOk l
  end.

(** A step moves 16 bytes at least. *)
Definition rights_fuel (l : list Z) : nat := S (length l / 16).

Definition send_rights (k : Kernel) (ps : Z) (l : list Z) : rights_result :=
  map_rights (rights_fuel l) (fun fd => (fun h : Z * Fd => host_fd h.2) <$> find_fd k ps fd) l (cmsg_first l).

(** The received side: each descriptor is entered in the table. *)
Fixpoint take_fds (n : nat) (ps : Z) (l : list Z) (o : Z) (k : Kernel) : list Z * Kernel :=
  match n with
  | O => (l, k)
  | Datatypes.S n' =>
    let '(fd, k1) := fds_emplace ps (mkfd (s32 (field l o 4)) false EmptyString KHost) 0 k in
    take_fds n' ps (put_field l o 4 (u32 fd)) (o + 4) k1
  end.

Fixpoint take_rights (fuel : nat) (ps : Z) (l : list Z) (o : option Z) (k : Kernel) : list Z * Kernel :=
  match fuel, o with
  | Datatypes.S fuel', Some o =>
    let '(l', k') := if is_rights l o then take_fds (Z.to_nat (cmsg_fds (field l o 8))) ps l (o + CMSGHDR) k else (l, k) in
    take_rights fuel' ps l' (cmsg_next l' o) k'
  | _, _ => (l, k)
  end.

(** ** The host *)

(** What [sendmsg] gives the host: the address, the pieces of data and the
    control data. *)
Record host_msg := mkhmsg {
  hm_name : option (list Z); hm_data : list (list Z); hm_control : option (list Z); hm_controllen : Z
}.

(** What [recvmsg] gets back. *)
Record host_rmsg := mkrmsg { rm_data : list Z; rm_name : list Z; rm_namelen : Z; rm_control : list Z; rm_flags : Z }.

Class HostNet := {
  host_socket : Kernel -> Z -> Z -> Z -> Z;
  host_socketpair : Kernel -> Z -> Z -> Z -> Z + Z * Z;
  host_bind : Kernel -> Z -> list Z -> Z;
  host_listen : Kernel -> Z -> Z -> Z;
  host_connect : Kernel -> Z -> list Z -> Z;
  host_shutdown : Kernel -> Z -> Z -> Z;
  host_accept : Kernel -> Z -> option Z -> Z -> Z + Z * (list Z * Z);  (** capacity, flags; fd, address, its length *)
  host_sendto : Kernel -> Z -> list Z -> Z -> option (list Z) -> Z;
  host_recvfrom : Kernel -> Z -> Z -> Z -> option Z -> Z + list Z * (list Z * Z);
  host_sendmsg : Kernel -> Z -> host_msg -> Z -> Z;
  host_recvmsg : Kernel -> Z -> list Z -> Z -> Z -> Z -> Z + Z * host_rmsg;  (** lengths, name and control capacity, flags *)
  host_setsockopt : Kernel -> Z -> Z -> Z -> list Z -> Z;
  host_getsockopt : Kernel -> Z -> Z -> Z -> Z -> Z + list Z * Z;
  host_sockname : Kernel -> bool -> Z -> Z -> Z + list Z * Z;
  host_epoll_create : Kernel -> Z -> Z;
  host_epoll_ctl : Kernel -> Z -> Z -> Z -> Z * Z -> Z;
  host_epoll_wait : Kernel -> Z -> Z -> Z -> option (list Z) -> Z + list (Z * Z)
}.

Section Sockets.
Context {ord : HashOrder} {env : HostEnv} {hf : HostFds} {fs : HostFs} {io : HostIo} {net : HostNet}.

(** ** Making sockets *)

Definition new_socket (d : Z) (c : bool) : M World Z :=
  if d <? 0 then ret d else kernel_op (fun self k => fds_emplace (own_ps self k) (mkfd d c EmptyString KHost) 0 k).

Definition do_socket : M World Z :=
  a1 <- Vm.r 1 ;; a2 <- Vm.r 2 ;; a3 <- Vm.r 3 ;;
  d <- host_op (fun k => host_socket k (arg_s32 a1) (arg_s32 a2) (arg_s32 a3)) ;;
  new_socket d (nz (Z.land (arg_s32 a2) BPF_O_CLOEXEC)).

Definition do_socketpair : M World Z :=
  a1 <- Vm.r 1 ;; a2 <- Vm.r 2 ;; a3 <- Vm.r 3 ;; a4 <- Vm.r 4 ;;
  with_out a4 8 (fun sv =>
    rc <- host_op (fun k => host_socketpair k (arg_s32 a1) (arg_s32 a2) (arg_s32 a3)) ;;
    match rc with
    | inl e => ret e
    | inr (d0, d1) =>
      fdp <- kernel_op (pipe_kernel d0 d1 (arg_s32 a2)) ;;
      storeM sv 4 (u32 fdp.1) ;; storeM (padd sv 4) 4 (u32 fdp.2) ;; ret 0
    end).

(** ** Calls with an address to the host *)

Definition with_address (addr len : Z) (m : list Z -> M World Z) : M World Z :=
  with_in addr len (fun b =>
    h <- kget (fun self k => sockaddr_to_host k (own_ps self k) b len) ;;
    match h with None => ret (- EINVAL) | Some h => m h end).

Definition do_bind : M World Z :=
  a1 <- Vm.r 1 ;; a2 <- Vm.r 2 ;; a3 <- Vm.r 3 ;;
  with_fd (arg_s32 a1) (fun _ f => with_address a2 (u32 a3) (fun h => host_op (fun k => host_bind k (host_fd f) h))).

Definition do_listen : M World Z :=
  a1 <- Vm.r 1 ;; a2 <- Vm.r 2 ;;
  with_fd (arg_s32 a1) (fun _ f => host_op (fun k => host_listen k (host_fd f) (arg_s32 a2))).

Definition do_connect : M World Z :=
  a1 <- Vm.r 1 ;; a2 <- Vm.r 2 ;; a3 <- Vm.r 3 ;;
  with_fd (arg_s32 a1) (fun _ f =>
    with_address a2 (u32 a3) (fun h => restartable (host_op (fun k => host_connect k (host_fd f) h)))).

Definition do_shutdown : M World Z :=
  a1 <- Vm.r 1 ;; a2 <- Vm.r 2 ;;
  with_fd (arg_s32 a1) (fun _ f => host_op (fun k => host_shutdown k (host_fd f) (arg_s32 a2))).

(** ** Calls with an address from the host *)

(** The buffer and the length word of an address; [m] gets both translated, with
    the capacity. *)
Definition with_address_out (addr addrlen : Z) (m : option hptr -> hptr -> Z -> M World Z) : M World Z :=
  with_out addrlen 4 (fun lenp =>
    cap <- loadM lenp 4 ;;
    if 0 <? cap then with_out addr cap (fun p => m (Some p) lenp cap) else m None lenp cap).

(** The host's answer, then the rewriting of the path in place. *)
Definition put_address (p : option hptr) (lenp : hptr) (cap : Z) (b : list Z) (len : Z) : M World unit :=
  match p with Some p => store_bytes p (take (Z.to_nat cap) b) | None => ret tt end ;;
  storeM lenp 4 (u32 len) ;;
  match p with
  | None => ret tt
  | Some p =>
    n <- loadM lenp 4 ;; cur <- load_bytes p (Z.to_nat cap) ;;
    rt <- kget (fun self k => from_option root EmptyString (shared k !! own_ps self k)) ;;
    let '(b', n') := sockaddr_to_guest rt cur n cap in
    store_bytes p b' ;; storeM lenp 4 (u32 n')
  end.

Definition do_accept4 : M World Z :=
  a1 <- Vm.r 1 ;; a2 <- Vm.r 2 ;; a3 <- Vm.r 3 ;; a4 <- Vm.r 4 ;;
  let fl := arg_s32 a4 in
  with_fd (arg_s32 a1) (fun _ f =>
    let finish (cap : option Z) (put : list Z -> Z -> M World unit) : M World Z :=
      rc <- host_op (fun k => host_accept k (host_fd f) cap fl) ;;
      match rc with
      | inl e => ret (if e =? - EINTR then SYSCALL_RESTART else e)
      | inr (d, (b, len)) => put b len ;; new_socket d (nz (Z.land fl BPF_O_CLOEXEC))
      end in
    if (a2 =? 0) || (a3 =? 0) then finish None (fun _ _ => ret tt)
    else with_address_out a2 a3 (fun p lenp cap => finish (Some cap) (put_address p lenp cap))).

Definition do_sendto : M World Z :=
  a1 <- Vm.r 1 ;; a2 <- Vm.r 2 ;; a3 <- Vm.r 3 ;; a4 <- Vm.r 4 ;; a5 <- Vm.r 5 ;; a0 <- Vm.r 0 ;;
  with_fd (arg_s32 a1) (fun _ f =>
    with_in a2 a3 (fun b =>
      let send (addr : option (list Z)) := restartable (host_op (fun k => host_sendto k (host_fd f) b (arg_s32 a4) addr)) in
      if a5 =? 0 then send None else with_address a5 (u32 a0) (fun h => send (Some h)))).

Definition do_recvfrom : M World Z :=
  a1 <- Vm.r 1 ;; a2 <- Vm.r 2 ;; a3 <- Vm.r 3 ;; a4 <- Vm.r 4 ;; a5 <- Vm.r 5 ;; a0 <- Vm.r 0 ;;
  with_fd (arg_s32 a1) (fun _ f =>
    with_out a2 a3 (fun buf =>
      let receive (cap : option Z) (put : list Z -> Z -> M World unit) : M World Z :=
        rc <- host_op (fun k => host_recvfrom k (host_fd f) a3 (arg_s32 a4) cap) ;;
        match rc with
        | inl e => ret (if e =? - EINTR then SYSCALL_RESTART else e)
        | inr (b, (ab, len)) =>
          n <- store_read buf a3 (inr b) ;; put ab len ;; ret n
        end in
      if a5 =? 0 then receive None (fun _ _ => ret tt)
      else with_address_out a5 a0 (fun p lenp cap => receive (Some cap) (put_address p lenp cap)))).

Definition sockname_common (peer : bool) : M World Z :=
  a1 <- Vm.r 1 ;; a2 <- Vm.r 2 ;; a3 <- Vm.r 3 ;;
  with_fd (arg_s32 a1) (fun _ f =>
    with_address_out a2 a3 (fun p lenp cap =>
      rc <- host_op (fun k => host_sockname k peer (host_fd f) cap) ;;
      match rc with inl e => ret e | inr (b, len) => put_address p lenp cap b len ;; ret 0 end)).

Definition do_getsockname : M World Z := sockname_common false.
Definition do_getpeername : M World Z := sockname_common true.

Definition do_setsockopt : M World Z :=
  a1 <- Vm.r 1 ;; a2 <- Vm.r 2 ;; a3 <- Vm.r 3 ;; a4 <- Vm.r 4 ;; a5 <- Vm.r 5 ;;
  with_fd (arg_s32 a1) (fun _ f =>
    let n := u32 a5 in
    p <- mmuM a4 n ;;
    let set (b : list Z) : M World Z := host_op (fun k => host_setsockopt k (host_fd f) (arg_s32 a2) (arg_s32 a3) b) in
    match p with
    | None => if 0 <? n then ret (- EFAULT) else set []
    | Some p => b <- load_bytes p (Z.to_nat n) ;; set b
    end).

Definition do_getsockopt : M World Z :=
  a1 <- Vm.r 1 ;; a2 <- Vm.r 2 ;; a3 <- Vm.r 3 ;; a4 <- Vm.r 4 ;; a5 <- Vm.r 5 ;;
  with_fd (arg_s32 a1) (fun _ f =>
    with_address_out a4 a5 (fun p lenp cap =>
      rc <- host_op (fun k => host_getsockopt k (host_fd f) (arg_s32 a2) (arg_s32 a3) cap) ;;
      match rc with
      | inl e => ret e
      | inr (b, len) =>
        match p with Some p => store_bytes p (take (Z.to_nat cap) b) | None => ret tt end ;;
        storeM lenp 4 (u32 len) ;; ret 0
      end)).

(** ** Messages *)

(** [struct msghdr] in guest memory. *)
Record msghdr := mkmsghdr {
  msg_name : Z; msg_namelen : Z; msg_iov : Z; msg_iovlen : Z; msg_control : Z; msg_controllen : Z
}.

Definition load_msghdr (p : hptr) : M World msghdr :=
  name <- loadM p 8 ;; namelen <- loadM (padd p 8) 4 ;; iov <- loadM (padd p 16) 8 ;; iovlen <- loadM (padd p 24) 8 ;;
  control <- loadM (padd p 32) 8 ;; controllen <- loadM (padd p 40) 8 ;;
  ret (mkmsghdr name namelen iov iovlen control controllen).

Definition mmu_rw (writable : bool) (addr size : Z) : M World (option hptr) :=
  if writable then mmu_wM addr size else mmuM addr size.

(** An optional buffer: [Some None] when it is absent or empty. *)
Definition opt_buffer (writable : bool) (addr size : Z) : M World (option (option hptr)) :=
  if (addr =? 0) || (size =? 0) then ret (Some None)
  else p <- mmu_rw writable addr size ;; match p with None => ret None | Some p => ret (Some (Some p)) end.

Fixpoint translate_msg_iov (p : hptr) (n : nat) (writable : bool) : M World (option (list (option hptr * Z))) :=
  match n with
  | O => ret (Some [])
  | Datatypes.S n' =>
    base <- loadM p 8 ;; len <- loadM (padd p 8) 8 ;;
    b <- opt_buffer writable base len ;;
    match b with
    | None => ret None
    | Some b => l <- translate_msg_iov (padd p 16) n' writable ;; ret (cons (b, len) <$> l)
    end
  end.

(** [translate_msghdr]: [-errno], or the name, the vector and the control buffer. *)
Definition translate_msghdr (g : msghdr) (writable : bool) : M World (Z + option hptr * list (option hptr * Z) * option hptr) :=
  name <- opt_buffer writable (msg_name g) (msg_namelen g) ;;
  match name with
  | None => ret (inl (- EFAULT))
  | Some name =>
    let niov := s32 (msg_iovlen g) in
    if niov <? 0 then ret (inl (- EINVAL))
    else if 1024 <? niov then ret (inl (- EMSGSIZE))
    else
      iov <- (if (niov =? 0) || (msg_iov g =? 0) then ret (Some [])
              else p <- mmuM (msg_iov g) (16 * niov) ;;
                   match p with None => ret None | Some p => translate_msg_iov p (Z.to_nat niov) writable end) ;;
      match iov with
      | None => ret (inl (- EFAULT))
      | Some iov =>
        control <- opt_buffer writable (msg_control g) (msg_controllen g) ;;
        match control with None => ret (inl (- EFAULT)) | Some control => ret (inr (name, iov, control)) end
      end
  end.

Definition opt_load (p : option hptr) (n : Z) : M World (option (list Z)) :=
  match p with None => ret None | Some p => b <- load_bytes p (Z.to_nat n) ;; ret (Some b) end.

(** A null piece of a vector with a length is the host's to refuse. *)
Fixpoint gather_msg (l : list (option hptr * Z)) : M World (list (list Z)) :=
  match l with
  | [] => ret []
  | (Some p, len) :: r => b <- load_bytes p (Z.to_nat len) ;; bs <- gather_msg r ;; ret (b :: bs)
  | (None, _) :: r => bs <- gather_msg r ;; ret ([] :: bs)
  end.

Definition do_sendmsg : M World Z :=
  a1 <- Vm.r 1 ;; a2 <- Vm.r 2 ;; a3 <- Vm.r 3 ;;
  with_fd (arg_s32 a1) (fun _ f =>
    p <- mmuM a2 56 ;;
    match p with
    | None => ret (- EFAULT)
    | Some p =>
      g <- load_msghdr p ;;
      t <- translate_msghdr g false ;;
      match t with
      | inl e => ret e
      | inr (name, iov, control) =>
        nb <- opt_load name (msg_namelen g) ;;
        host_name <- kget (fun self k =>
          match nb with None => Some None | Some b => Some <$> sockaddr_to_host k (own_ps self k) b (msg_namelen g) end) ;;
        match host_name with
        | None => ret (- EINVAL)
        | Some host_name =>
          cb <- opt_load control (msg_controllen g) ;;
          rights <- kget (fun self k => match cb with None => None | Some l => Some (send_rights k (own_ps self k) l) end) ;;
          let send (c : option (list Z)) : M World Z :=
            data <- gather_msg iov ;;
            restartable (host_op (fun k => host_sendmsg k (host_fd f) (mkhmsg host_name data c (msg_controllen g)) (arg_s32 a3))) in
          match rights with
          | None => send None
          | Some (RightsOk l) => send (Some l)
          | Some (RightsErr e) => ret e
          | Some (RightsOob o) => kmod (fun _ => emit (EvOutOfBounds o)) ;; waitM
          end
        end
      end
    end).

Fixpoint scatter_msg (l : list (option hptr * Z)) (b : list Z) : M World unit :=
  match l with
  | [] => ret tt
  | (p, len) :: r =>
    match p with Some p => store_bytes p (take (Z.to_nat len) b) | None => ret tt end ;;
    scatter_msg r (match p with Some _ => drop (Z.to_nat len) b | None => b end)
  end.

Definition do_recvmsg : M World Z :=
  a1 <- Vm.r 1 ;; a2 <- Vm.r 2 ;; a3 <- Vm.r 3 ;;
  with_fd (arg_s32 a1) (fun _ f =>
    with_out a2 56 (fun gp =>
      g <- load_msghdr gp ;;
      t <- translate_msghdr g true ;;
      match t with
      | inl e => ret e
      | inr (name, iov, control) =>
        rc <- host_op (fun k => host_recvmsg k (host_fd f) ((fun x : option hptr * Z => match x.1 with Some _ => x.2 | None => 0 end) <$> iov)
                        (match name with Some _ => msg_namelen g | None => 0 end) (match control with Some _ => msg_controllen g | None => 0 end) (arg_s32 a3)) ;;
        match rc with
        | inl e => ret (if e =? - EINTR then SYSCALL_RESTART else e)
        | inr (n, m) =>
          let control_bytes := take (Z.to_nat (msg_controllen g)) (rm_control m) in
          scatter_msg iov (rm_data m) ;;
          match name with Some p => store_bytes p (take (Z.to_nat (msg_namelen g)) (rm_name m)) | None => ret tt end ;;
          match control with Some p => store_bytes p control_bytes | None => ret tt end ;;
          rt <- kget (fun self k => from_option root EmptyString (shared k !! own_ps self k)) ;;
          namelen <- match name with
                     | None => ret (rm_namelen m)
                     | Some p =>
                       cap <- loadM (padd gp 8) 4 ;; b <- load_bytes p (Z.to_nat cap) ;;
                       let '(b', n') := sockaddr_to_guest rt b (rm_namelen m) cap in
                       store_bytes p b' ;; ret n'
                     end ;;
          storeM (padd gp 48) 4 (u32 (rm_flags m)) ;; storeM (padd gp 8) 4 (u32 namelen) ;;
          storeM (padd gp 40) 8 (Z.of_nat (length control_bytes)) ;;
          match control with
          | None => ret n
          | Some p =>
            cur <- load_bytes p (length control_bytes) ;;
            l <- kernel_op (fun self k => take_rights (rights_fuel cur) (own_ps self k) cur (cmsg_first cur) k) ;;
            store_bytes p l ;; ret n
          end
        end
      end)).

(** ** epoll *)

Definition do_epoll_create1 : M World Z :=
  a1 <- Vm.r 1 ;;
  d <- host_op (fun k => host_epoll_create k (arg_s32 a1)) ;; new_socket d (nz (Z.land (arg_s32 a1) BPF_O_CLOEXEC)).

Definition do_epoll_ctl : M World Z :=
  a1 <- Vm.r 1 ;; a2 <- Vm.r 2 ;; a3 <- Vm.r 3 ;; a4 <- Vm.r 4 ;;
  with_fd (arg_s32 a1) (fun _ ep =>
    let op := arg_s32 a2 in
    target <- own_fd (arg_s32 a3) ;;
    if negb (op =? EPOLL_CTL_DEL) && bool_decide (target = None) then ret (- EBADF)
    else
      p <- mmuM a4 16 ;;
      match p with
      | None => ret (- EFAULT)
      | Some p =>
        ev <- loadM p 4 ;; data <- loadM (padd p 8) 8 ;;
        host_op (fun k => host_epoll_ctl k (host_fd ep) op (from_option (fun h : Z * Fd => host_fd h.2) (-1) target) (ev, data))
      end).

Fixpoint store_events (p : hptr) (l : list (Z * Z)) : M World unit :=
  match l with
  | [] => ret tt
  | (ev, data) :: r =>
    storeM p 4 ev ;; storeM (padd p 8) 8 data ;; storeM (padd p 4) 4 0 ;; store_events (padd p 16) r
  end.

Definition do_epoll_pwait : M World Z :=
  a1 <- Vm.r 1 ;; a2 <- Vm.r 2 ;; a3 <- Vm.r 3 ;; a4 <- Vm.r 4 ;; a5 <- Vm.r 5 ;;
  with_fd (arg_s32 a1) (fun _ f =>
    let maxev := arg_s32 a3 in
    if maxev <=? 0 then ret (- EINVAL)
    else
      let wait (sigs : option (list Z)) : M World Z :=
        rc <- host_op (fun k => host_epoll_wait k (host_fd f) maxev (arg_s32 a4) sigs) ;;
        match rc with
        | inl e => ret (if e =? - EINTR then SYSCALL_RESTART else e)
        | inr l =>
          let l := take (Z.to_nat maxev) l in
          with_out a2 (16 * maxev) (fun p => store_events p l ;; ret (Z.of_nat (length l)))
        end in
      if a5 =? 0 then wait None else with_in a5 128 (fun b => wait (Some b))).

End Sockets.

(** ** Strings and bytes *)

Lemma byte_ascii_of (c : ascii) : byte_ascii (Z.of_N (N_of_ascii c)) = c.
Proof.
  unfold byte_ascii. rewrite Z.mod_small.
  - by rewrite N2Z.id, ascii_N_embedding.
  - pose proof (N_ascii_bounded c). lia.
Qed.

Lemma bytes_string_of (s : string) : bytes_string (string_bytes s) = s.
Proof.
  unfold bytes_string, string_bytes. rewrite <- (String.string_of_list_ascii_of_string s) at 2. f_equal.
  rewrite <- list_fmap_compose. rewrite <- (list_fmap_id (String.list_ascii_of_string s)) at 2.
  apply list_fmap_ext. intros _ c _. apply byte_ascii_of.
Qed.

Lemma string_bytes_length (s : string) : length (string_bytes s) = String.length s.
Proof. unfold string_bytes. rewrite length_fmap. induction s as [|c s IH]; [done|]. cbn. by rewrite IH. Qed.

(** No NUL inside. *)
Definition no_nul (s : string) : Prop := Forall (fun b => b <> 0) (string_bytes s).

Lemma bytes_string_length (l : list Z) : String.length (bytes_string l) = length l.
Proof. unfold bytes_string. induction l as [|b l IH]; [done|]. cbn. by rewrite <- IH. Qed.

Lemma string_bytes_app (a b : string) : string_bytes (a +:+ b)%string = string_bytes a ++ string_bytes b.
Proof. unfold string_bytes. by rewrite list_ascii_app, fmap_app. Qed.

Lemma prefix_self (p x : string) : starts_with p (p +:+ x)%string = true.
Proof.
  unfold starts_with. induction p as [|c p IH]; [by destruct x|]. change (String c p +:+ x)%string with (String c (p +:+ x)).
  cbn. by destruct (ascii_dec c c).
Qed.

(** ** Paths below the root *)

(** A root as it is kept: canonical, and not the root of the host. *)
Definition proper_root (rt : string) : Prop := exists l, rt = assemble true l false /\ Forall plain l /\ l <> [].

Lemma join_app (a b : list string) : a <> [] -> b <> [] -> Paths.join (a ++ b) = (Paths.join a +:+ "/" +:+ Paths.join b)%string.
Proof.
  intros Ha Hb. induction a as [|x [|y a] IH]; [done| |].
  - destruct b; done.
  - change ((x :: y :: a) ++ b) with (x :: (y :: a) ++ b).
    change (Paths.join (x :: (y :: a) ++ b)) with (x +:+ "/" +:+ Paths.join ((y :: a) ++ b))%string.
    rewrite IH by done. change (Paths.join (x :: y :: a)) with (x +:+ "/" +:+ Paths.join (y :: a))%string.
    by rewrite !string_app_assoc.
Qed.

Lemma normal_assemble (l : list string) (d : bool) :
  Forall plain l -> l <> [] -> lexically_normal (assemble true l d) = assemble true l d.
Proof.
  intros Hl Hne. pose proof (plain_normal true l Hl) as Hn. pose proof (normal_valid _ _ Hn) as Hv.
  rewrite lexically_normal_ne by apply assemble_not_empty. rewrite is_absolute_assemble, names_assemble, norm_id by done.
  pose proof (ends_dir_assemble true l d Hn Hne) as H.
  rewrite (assemble_eq true l (ends_dir _)) by done. rewrite H. symmetry. by apply assemble_eq.
Qed.

Lemma under_root_app (rt : string) (l : list string) (d : bool) :
  proper_root rt -> Forall plain l -> under_root rt (assemble true l d) = (rt +:+ assemble true l d)%string.
Proof.
  intros (R & -> & HR & HRne) Hl. pose proof (plains_valid _ HR) as HRv. pose proof (plains_valid _ Hl) as Hlv.
  assert (E0 : assemble true R false = ("/" +:+ Paths.join R)%string).
  { rewrite assemble_eq by done. unfold tail_slash. cbn [andb]. by rewrite append_empty_r. }
  unfold under_root. rewrite (proj2 (String.eqb_neq _ _) (assemble_not_empty true R false)).
  assert (String.eqb (assemble true R false) "/" = false) as ->.
  { apply String.eqb_neq. rewrite E0. destruct (join_ne R HRne HRv) as (c & r & -> & _). done. }
  cbn [orb].
  assert (E : exists L d', (assemble true R false +:+ assemble true l d)%string = assemble true L d' /\ Forall plain L /\ L <> []).
  { destruct (decide (l = [])) as [->|Hne].
    - exists R, true. split_and!; [|done|done]. change (assemble true [] d) with "/"%string. rewrite E0.
      rewrite (assemble_eq true R true) by done. unfold tail_slash. rewrite bool_decide_false by done.
      assert (String.eqb (List.last R "") ".." = false) as ->; [|by rewrite string_app_assoc].
      apply String.eqb_neq. destruct (exists_last HRne) as (R' & y & ->). rewrite List.last_last.
      apply Forall_app in HR as [_ Hy]. apply Forall_inv in Hy. apply Hy.
    - exists (R ++ l), d. split_and!; [|by apply Forall_app|by destruct R]. rewrite E0, (assemble_eq true l) by done.
      rewrite (assemble_eq true (R ++ l)); [|by apply Forall_app|by destruct R].
      rewrite join_app by done. rewrite !string_app_assoc. do 4 f_equal. unfold tail_slash.
      rewrite !bool_decide_false by (done || by destruct R). destruct (exists_last Hne) as (l' & y & ->). by rewrite app_assoc, !List.last_last. }
  destruct E as (L & d' & -> & HL & HLne). by apply normal_assemble.
Qed.

Lemma guest_abs_path_assemble (k : Kernel) (ps : Z) (path : string) (dirfd : Z) :
  paths_ok k -> path <> EmptyString ->
  exists l d, guest_abs_path k ps path dirfd = assemble true l d /\ Forall plain l.
Proof.
  intros Hok Hne. unfold guest_abs_path. rewrite (proj2 (String.eqb_neq _ _) Hne).
  assert (Hp : exists p, is_absolute p = true /\
    (if is_absolute path then lexically_normal path else lexically_normal (path_div (base_dir k ps dirfd) path)) = lexically_normal p).
  { destruct (is_absolute path) eqn:E; [by exists path|]. eexists. split; [|done]. by apply is_absolute_div, base_dir_absolute. }
  destruct Hp as (p & Hp & ->). rewrite lexically_normal_ne by (by destruct p). rewrite Hp.
  rewrite (proj2 (String.eqb_neq _ _) (assemble_not_empty _ _ _)).
  eexists _, _. split; [done|]. apply normal_plain, norm_normal, names_valid.
Qed.

Lemma proper_root_ne (rt : string) : proper_root rt -> rt <> EmptyString /\ rt <> "/"%string.
Proof.
  intros (l & -> & Hl & Hne). pose proof (plains_valid _ Hl) as Hv. split; [apply assemble_not_empty|].
  rewrite assemble_eq by done. destruct (join_ne l Hne Hv) as (c & r & -> & _). done.
Qed.

Lemma proper_root_eqb (rt : string) : proper_root rt -> (String.eqb rt EmptyString || String.eqb rt "/")%bool = false.
Proof. intros [H1 H2]%proper_root_ne. by rewrite (proj2 (String.eqb_neq _ _) H1), (proj2 (String.eqb_neq _ _) H2). Qed.

Lemma absolute_slash (s : string) : is_absolute s = true -> exists x, s = ("/" +:+ x)%string.
Proof.
  destruct s as [|c x]; [done|]. intros H. exists x. cbn in H. unfold is_slash in H. by apply Ascii.eqb_eq in H as ->.
Qed.

(** The rewriting of an address whose path lies below the root. *)
Lemma sockaddr_to_guest_below (rt x : string) (rest : list Z) (cap : Z) :
  rt <> EmptyString -> rt <> "/"%string -> no_nul (rt +:+ "/" +:+ x)%string -> is_absolute rt = true ->
  let h := [AF_UNIX; 0] ++ string_bytes (rt +:+ "/" +:+ x)%string ++ [0] in
  Z.of_nat (length h) <= cap ->
  sockaddr_to_guest rt (h ++ rest) (Z.of_nat (length h)) cap =
  ([AF_UNIX; 0] ++ string_bytes ("/" +:+ x)%string ++ replicate (S (String.length rt)) 0 ++ rest,
   SUN_PATH + Z.of_nat (String.length ("/" +:+ x)%string) + 1).
Proof.
  intros Hne Hns Hnul Habs h Hcap. unfold sockaddr_to_guest.
  assert (Hl : length h = (2 + String.length rt + String.length ("/" +:+ x)%string + 1)%nat).
  { subst h. rewrite !length_app, string_bytes_length, str_append_length. cbn [length]. lia. }
  assert (Hx : String.length ("/" +:+ x)%string = S (String.length x)) by done.
  assert (Hu : unix_path (h ++ rest) (Z.of_nat (length h)) = true).
  { destruct (absolute_slash _ Habs) as [y ->]. unfold unix_path. rewrite (proj2 (Z.leb_gt _ _)) by (unfold SUN_PATH; lia). done. }
  rewrite Hu, (proj2 (Z.leb_gt _ _)) by (unfold SUN_PATH; lia). cbn [orb negb].
  rewrite (proj2 (String.eqb_neq _ _) Hne), (proj2 (String.eqb_neq _ _) Hns). cbn [orb].
  rewrite Z.min_r by lia.
  replace (Z.to_nat (Z.of_nat (length h) - SUN_PATH)) with (String.length rt + S (String.length x) + 1)%nat by (unfold SUN_PATH; lia).
  assert (Hd : drop 2 (h ++ rest) = string_bytes (rt +:+ "/" +:+ x)%string ++ 0 :: rest).
  { subst h. change ([AF_UNIX; 0] ++ ?a) with (AF_UNIX :: 0 :: a). cbn [drop app]. by rewrite <- app_assoc. }
  rewrite Hd, c_bytes_all by (done || rewrite string_bytes_length, str_append_length; lia).
  rewrite bytes_string_of. rewrite <- (string_app_assoc rt "/" x), prefix_self. cbn [negb].
  rewrite str_from_app. f_equal.
  rewrite drop_app_length' by lia. rewrite length_app, string_bytes_length. cbn [length].
  replace (_ + _ + 1 - _)%nat with (String.length rt) by lia. rewrite <- !app_assoc. done.
Qed.

(** a socket address survives the trip to the host and back.  A path bound by a
    program is stored by the host with the root in front; when the host reports
    that address into a buffer that holds it, the bytes the program reads are
    the family, its own absolute path and a NUL, the length is that of this
    address, and the bytes after the address stay as they are. *)
Theorem unix_address_roundtrip (k : Kernel) (ps : Z) (s : SharedState) (b h rest : list Z) (len cap : Z)
  (Hok : paths_ok k) (Hs : shared k !! ps = Some s) (Hroot : proper_root (root s))
  (Hu : unix_path b len = true) (Hh : sockaddr_to_host k ps b len = Some h) (Hcap : Z.of_nat (length h) <= cap) :
  let path := bytes_string (c_bytes (Z.to_nat (Z.min (len - SUN_PATH) SUN_PATH_SIZE)) (drop 2 b)) in
  let g := guest_abs_path k ps path AT_FDCWD in
  no_nul (root s) -> no_nul g ->
  sockaddr_to_guest (root s) (h ++ rest) (Z.of_nat (length h)) cap =
  ([AF_UNIX; 0] ++ string_bytes g ++ replicate (S (String.length (root s))) 0 ++ rest,
   SUN_PATH + Z.of_nat (String.length g) + 1).
Proof.
  intros path g Hr Hg. destruct (proper_root_ne _ Hroot) as [Hne Hns].
  unfold sockaddr_to_host in Hh. rewrite Hu in Hh. cbn [negb] in Hh. fold path g in Hh. rewrite Hs in Hh. cbn [from_option] in Hh.
  destruct (_ <? _) eqn:E in Hh; [done|]. injection Hh as <-.
  assert (Hp : path <> EmptyString).
  { unfold unix_path in Hu. apply andb_prop in Hu as [[Hl _]%andb_prop Hb].
    apply negb_true_iff, Z.leb_gt in Hl. apply negb_true_iff in Hb. unfold SUN_PATH in Hl. subst path.
    unfold byte_at in Hb. change (Z.to_nat SUN_PATH) with 2%nat in Hb.
    destruct b as [|b0 [|b1 [|b2 b]]]; try done. cbn [drop nth] in *.
    destruct (Z.to_nat (Z.min (len - SUN_PATH) SUN_PATH_SIZE)) eqn:E2; [unfold SUN_PATH, SUN_PATH_SIZE in E2; lia|].
    cbn [c_bytes]. rewrite Hb. done. }
  destruct (guest_abs_path_assemble k ps path AT_FDCWD Hok Hp) as (l & d & Eg & Hl). fold g in Eg.
  assert (Ha : is_absolute g = true) by (rewrite Eg; by apply is_absolute_assemble, plains_valid).
  destruct (absolute_slash _ Ha) as [x Ex].
  rewrite Eg, (under_root_app _ _ _ Hroot Hl), <- Eg in *. rewrite Ex in *. 
  apply sockaddr_to_guest_below; try done.
  - unfold no_nul in *. rewrite string_bytes_app. by apply Forall_app.
  - destruct Hroot as (R & -> & HR & _). by apply is_absolute_assemble, plains_valid.
Qed.

(** ** The bounds of the rewriting *)

Lemma guest_text_length (rt host x : string) :
  rt <> EmptyString -> host = ((rt +:+ "/") +:+ x)%string -> (String.length ("/" +:+ x)%string < String.length host)%nat.
Proof.
  intros Hne ->. rewrite !str_append_length. destruct rt; [done|]. cbn [String.length]. lia.
Qed.

(** reading an address back stays inside the buffer.  Whatever the host wrote,
    and whatever length it reports, the rewriting keeps the size of the buffer,
    changes no byte of the family and none after the bytes that were written
    (the capacity or the reported length, whichever is less), and never reports
    a longer address than the host did. *)
Theorem sockaddr_to_guest_bounds (rt : string) (b : list Z) (len cap : Z)
  (Hb : Z.min cap len <= Z.of_nat (length b)) :
  let '(b', n) := sockaddr_to_guest rt b len cap in
  length b' = length b /\ n <= len /\
  forall i : nat, Z.of_nat i < 2 \/ Z.min cap len <= Z.of_nat i -> b' !! i = b !! i.
Proof.
  unfold sockaddr_to_guest. destruct ((cap <=? SUN_PATH) || _) eqn:E1; [split_and!; [done|lia|done]|].
  destruct (String.eqb_spec rt EmptyString) as [|Hne]; cbn [orb]; [split_and!; [done|lia|done]|].
  destruct (String.eqb rt "/"); [split_and!; [done|lia|done]|].
  destruct (starts_with _ _) eqn:Es; cbn [negb]; [|split_and!; [done|lia|done]].
  apply orb_false_iff in E1 as [Hc Hu]. apply Z.leb_gt in Hc. apply negb_false_iff in Hu.
  unfold unix_path in Hu. apply andb_prop in Hu as [[Hl _]%andb_prop _]. apply negb_true_iff, Z.leb_gt in Hl.
  unfold SUN_PATH in *. set (w := Z.to_nat (Z.min cap len - 2)) in *.
  destruct (prefix_split _ _ Es) as [x Hx]. pose proof (guest_text_length _ _ _ Hne Hx) as Hlt.
  rewrite bytes_string_length in Hlt. pose proof (c_bytes_length w (drop 2 b)) as Hw.
  rewrite Hx, str_from_app. set (g := ("/" +:+ x)%string) in *. set (text := string_bytes g ++ [0]).
  assert (Ht : length text = S (String.length g)) by (unfold text; rewrite length_app, string_bytes_length; cbn; lia).
  split_and!.
  - rewrite !length_app, length_take, length_replicate, length_drop. lia.
  - lia.
  - intros i Hi. assert (Hi' : (i < 2 \/ 2 + w <= i)%nat) by lia. destruct Hi' as [Hi'|Hi'].
    + rewrite lookup_app_l by (rewrite length_take; lia). by rewrite lookup_take_lt.
    + rewrite !app_assoc, lookup_app_r; rewrite !length_app, length_take, length_replicate; [|lia].
      rewrite lookup_drop. f_equal. lia.
Qed.

(** ** Descriptors in control data *)

(** The messages of a control buffer. *)
Inductive cmsg :=
| Rights (fds : list Z)
| OtherMsg (level type : Z) (data : list Z).

Definition fds_bytes (l : list Z) : list Z := concat ((fun fd => le_bytes 4 (u32 fd)) <$> l).

Definition cmsg_bytes (c : cmsg) : list Z :=
  let '(level, type, data) := match c with Rights fds => (SOL_SOCKET, SCM_RIGHTS, fds_bytes fds) | OtherMsg lv ty d => (lv, ty, d) end in
  le_bytes 8 (CMSGHDR + Z.of_nat (length data)) ++ le_bytes 4 level ++ le_bytes 4 type ++ data ++
  replicate (Z.to_nat ((- Z.of_nat (length data)) mod 8)) 0.

Definition control_bytes (l : list cmsg) : list Z := concat (cmsg_bytes <$> l).

(** What the translation means: the descriptors of each message, replaced. *)
Definition map_cmsg (f : Z -> option Z) (c : cmsg) : option cmsg :=
  match c with Rights fds => Rights <$> mapM f fds | OtherMsg _ _ _ => Some c end.

Definition int_fd (fd : Z) : Prop := - 2 ^ 31 <= fd < 2 ^ 31.

Definition cmsg_ok (c : cmsg) : Prop :=
  match c with
  | Rights fds => Forall int_fd fds /\ Z.of_nat (length fds) < 2 ^ 31
  | OtherMsg lv ty d => ~ (lv = SOL_SOCKET /\ ty = SCM_RIGHTS) /\ int_fd lv /\ int_fd ty /\ Z.of_nat (length d) < 2 ^ 62
  end.

Lemma s32_field (pre post : list Z) (o fd : Z) :
  o = Z.of_nat (length pre) -> int_fd fd -> s32 (field (pre ++ le_bytes 4 (u32 fd) ++ post) o 4) = fd.
Proof. intros Ho Hfd. rewrite field_le by done. change (8 * Z.of_nat 4) with 32. unfold int_fd, sval, uwrap in *. zcases; mlia. Qed.

Lemma map_fds_spec (f : Z -> option Z) (fds : list Z) (pre post : list Z) (o : Z) :
  Forall int_fd fds -> o = Z.of_nat (length pre) ->
  map_fds (length fds) f (pre ++ fds_bytes fds ++ post) o =
  match mapM f fds with None => RightsErr (- EBADF) | Some hs => RightsOk (pre ++ fds_bytes hs ++ post) end.
Proof.
  intros Hfds. revert pre o. induction Hfds as [|fd fds Hfd Hfds IH]; intros pre o ->; [done|].
  cbn [length map_fds]. unfold fds_bytes. cbn [fmap list_fmap concat]. fold (fds_bytes fds).
  rewrite (proj2 (Z.ltb_ge _ _)) by (rewrite !length_app, le_bytes_length; lia).
  rewrite <- (app_assoc (le_bytes 4 _)). rewrite s32_field by done. cbn [mapM].
  destruct (f fd) as [h|]; [|done]. cbn [mbind option_bind].
  rewrite put_field_app by (done || apply le_bytes_length). rewrite (app_assoc pre).
  rewrite IH by (rewrite length_app, le_bytes_length; lia). destruct (mapM f fds); cbn [mbind option_bind]; [|done].
  cbn. by rewrite <- !app_assoc.
Qed.

Lemma fds_bytes_length (l : list Z) : length (fds_bytes l) = (4 * length l)%nat.
Proof. unfold fds_bytes. induction l as [|x l IH]; [done|]. cbn [fmap list_fmap concat]. rewrite length_app, le_bytes_length, IH. cbn [length]. lia. Qed.

Definition cmsg_data (c : cmsg) : list Z := match c with Rights fds => fds_bytes fds | OtherMsg _ _ d => d end.
Definition cmsg_type (c : cmsg) : Z * Z := match c with Rights _ => (SOL_SOCKET, SCM_RIGHTS) | OtherMsg lv ty _ => (lv, ty) end.

Lemma cmsg_bytes_eq (c : cmsg) :
  cmsg_bytes c = le_bytes 8 (CMSGHDR + Z.of_nat (length (cmsg_data c))) ++ le_bytes 4 (cmsg_type c).1 ++ le_bytes 4 (cmsg_type c).2 ++
    cmsg_data c ++ replicate (Z.to_nat ((- Z.of_nat (length (cmsg_data c))) mod 8)) 0.
Proof. by destruct c. Qed.

Definition cmsg_small (c : cmsg) : Prop := Z.of_nat (length (cmsg_data c)) < 2 ^ 62.

Lemma cmsg_ok_small (c : cmsg) : cmsg_ok c -> cmsg_small c.
Proof. unfold cmsg_small. destruct c as [fds|lv ty d]; cbn [cmsg_data]; intros H; [|by apply H]. rewrite fds_bytes_length. destruct H as [_ H]. lia. Qed.

Lemma cmsg_align_length (c : cmsg) :
  cmsg_small c -> cmsg_align (CMSGHDR + Z.of_nat (length (cmsg_data c))) = Z.of_nat (length (cmsg_bytes c)).
Proof.
  intros H. unfold cmsg_small in H. rewrite cmsg_bytes_eq, !length_app, !le_bytes_length, length_replicate. unfold cmsg_align.
  set (n := Z.of_nat (length (cmsg_data c))) in *. unfold CMSGHDR, uwrap. unfold andnot. rewrite (Z.ldiff_ones_r _ 3) by lia. rewrite Z.shiftl_mul_pow2, Z.shiftr_div_pow2 by lia. change (2 ^ 3) with 8. rewrite !Nat2Z.inj_add, Z2Nat.id by (apply Z.mod_pos_bound; lia). fold n. 
  change (Z.of_nat 8) with 8. change (Z.of_nat 4) with 4. mlia.
Qed.

Lemma cmsg_length (pre post : list Z) (c : cmsg) :
  cmsg_small c -> field (pre ++ cmsg_bytes c ++ post) (Z.of_nat (length pre)) 8 = CMSGHDR + Z.of_nat (length (cmsg_data c)).
Proof.
  intros H. unfold cmsg_small in H. rewrite cmsg_bytes_eq, <- app_assoc, field_le by done. apply Z.mod_small. unfold CMSGHDR. lia.
Qed.

Lemma cmsg_bytes_16 (c : cmsg) : (16 <= length (cmsg_bytes c))%nat.
Proof. rewrite cmsg_bytes_eq, !length_app, !le_bytes_length. lia. Qed.

Lemma cmsg_next_ok (pre : list Z) (c : cmsg) (cs : list cmsg) :
  Forall cmsg_small (c :: cs) ->
  cmsg_next (pre ++ cmsg_bytes c ++ control_bytes cs) (Z.of_nat (length pre)) =
  match cs with [] => None | _ => Some (Z.of_nat (length (pre ++ cmsg_bytes c))) end.
Proof.
  intros [Hc Hcs]%list.Forall_cons. unfold cmsg_next. rewrite cmsg_length by done.
  rewrite (proj2 (Z.ltb_ge _ _)) by (unfold CMSGHDR; lia). rewrite cmsg_align_length by done.
  assert (E : Z.of_nat (length pre) + Z.of_nat (length (cmsg_bytes c)) = Z.of_nat (length (pre ++ cmsg_bytes c))) by (rewrite length_app; lia).
  rewrite E. rewrite app_assoc. destruct cs as [|c' cs].
  - rewrite app_nil_r. rewrite (proj2 (Z.ltb_lt _ _)) by (unfold CMSGHDR; lia). done.
  - apply list.Forall_cons in Hcs as [Hc' _]. unfold control_bytes. cbn [fmap list_fmap concat]. pose proof (cmsg_bytes_16 c').
    rewrite cmsg_length, cmsg_align_length by done. rewrite !(length_app (_ ++ _)), !(length_app (cmsg_bytes c')).
    rewrite !(proj2 (Z.ltb_ge _ _)) by (unfold CMSGHDR; lia). done.
Qed.

Lemma is_rights_ok (pre post : list Z) (c : cmsg) :
  cmsg_ok c -> is_rights (pre ++ cmsg_bytes c ++ post) (Z.of_nat (length pre)) = match c with Rights _ => true | _ => false end.
Proof.
  intros H. unfold is_rights. rewrite cmsg_bytes_eq. rewrite <- !app_assoc.
  rewrite (app_assoc pre). rewrite field_le by (rewrite length_app, le_bytes_length; lia).
  rewrite app_assoc. rewrite field_le by (rewrite !length_app, !le_bytes_length; lia).
  assert (E : forall x, int_fd x -> s32 (x mod 2 ^ (8 * Z.of_nat 4)) = x).
  { intros x Hx. change (8 * Z.of_nat 4) with 32. unfold int_fd, sval in *. zcases; mlia. }
  destruct c as [fds|lv ty d]; [done|]. destruct H as (Hn & Hlv & Hty & _). cbn [cmsg_type fst snd].
  rewrite !E by done. destruct (Z.eqb_spec lv SOL_SOCKET), (Z.eqb_spec ty SCM_RIGHTS); try done. by destruct Hn.
Qed.

(** One message, wherever it stands. *)
Lemma map_one (f : Z -> option Z) (pre post : list Z) (c : cmsg) :
  cmsg_ok c ->
  let l := pre ++ cmsg_bytes c ++ post in
  let o := Z.of_nat (length pre) in
  (if is_rights l o then map_fds (Z.to_nat (cmsg_fds (field l o 8))) f l (o + CMSGHDR) else RightsOk l) =
  match map_cmsg f c with None => RightsErr (- EBADF) | Some c' => RightsOk (pre ++ cmsg_bytes c' ++ post) end.
Proof.
  intros H. cbn zeta. rewrite is_rights_ok by done. rewrite cmsg_length by by apply cmsg_ok_small. destruct c as [fds|]; [|done]. destruct H as [Hf Hn].
  unfold cmsg_fds, CMSGHDR. cbn [cmsg_data map_cmsg]. rewrite fds_bytes_length.
  replace (Z.to_nat _) with (length fds) by (unfold sval; zcases; mlia).
  rewrite cmsg_bytes_eq. cbn [cmsg_data cmsg_type fst snd].
  set (pad := replicate _ _). set (hd := le_bytes 8 _). 
  replace (pre ++ _ ++ post) with ((pre ++ hd ++ le_bytes 4 SOL_SOCKET ++ le_bytes 4 SCM_RIGHTS) ++ fds_bytes fds ++ pad ++ post)
    by (by rewrite <- !app_assoc).
  rewrite map_fds_spec by (done || subst hd; rewrite !length_app, !le_bytes_length; lia).
  destruct (mapM f fds) as [hs|] eqn:E; [|done]. cbn [fmap option_fmap option_map]. rewrite (cmsg_bytes_eq (Rights hs)). cbn [cmsg_data cmsg_type fst snd].
  apply length_mapM in E. 
  rewrite <- !app_assoc. subst hd pad. by rewrite !fds_bytes_length, E.
Qed.

Lemma map_cmsg_small (f : Z -> option Z) (c c' : cmsg) : cmsg_ok c -> map_cmsg f c = Some c' -> cmsg_small c'.
Proof.
  intros H. destruct c as [fds|lv ty d]; cbn; [|intros [= <-]; by apply (cmsg_ok_small (OtherMsg lv ty d))].
  intros (hs & E & ->)%fmap_Some. apply length_mapM in E. pose proof (cmsg_ok_small _ H) as Hs.
  unfold cmsg_small in *. cbn [cmsg_data] in *. rewrite fds_bytes_length in *. lia.
Qed.

Lemma map_rights_spec (f : Z -> option Z) (cs : list cmsg) (fuel : nat) (pre : list Z) :
  Forall cmsg_ok cs -> (length cs <= fuel)%nat ->
  map_rights fuel f (pre ++ control_bytes cs) (match cs with [] => None | _ => Some (Z.of_nat (length pre)) end) =
  match mapM (map_cmsg f) cs with None => RightsErr (- EBADF) | Some cs' => RightsOk (pre ++ control_bytes cs') end.
Proof.
  revert fuel pre. induction cs as [|c cs IH]; intros [|fuel] pre Hcs Hn; cbn [length] in Hn; try done; [lia|].
  pose proof Hcs as [Hc Hcs']%list.Forall_cons. unfold control_bytes. cbn [map_rights fmap list_fmap concat]. fold (control_bytes cs).
  rewrite map_one by done. cbn [mapM]. destruct (map_cmsg f c) as [c'|] eqn:E; [|done]. cbn [mbind option_bind].
  rewrite cmsg_next_ok; [|apply list.Forall_cons; split; [by eapply map_cmsg_small|]; eapply list.Forall_impl; [done|apply cmsg_ok_small]].
  rewrite app_assoc. rewrite IH by (done || lia). destruct (mapM (map_cmsg f) cs); [|done].
  cbn. by rewrite <- app_assoc.
Qed.

Lemma control_bytes_length (l : list cmsg) : (16 * length l <= length (control_bytes l))%nat.
Proof.
  induction l as [|c l IH]; [done|]. unfold control_bytes. cbn [fmap list_fmap concat]. rewrite length_app. pose proof (cmsg_bytes_16 c).
  unfold control_bytes in IH. cbn [length]. lia.
Qed.

(** descriptors passed between processes are the right ones.  A control buffer
    made of any sequence of messages reaches the host with each descriptor of
    each SCM_RIGHTS message replaced by the host's descriptor of that entry of
    the sender's table, every other byte kept; if one descriptor of one message
    is not open nothing is sent and the error is EBADF. *)
Theorem send_rights_translates (k : Kernel) (ps : Z) (l : list cmsg) (Hl : Forall cmsg_ok l) :
  send_rights k ps (control_bytes l) =
  match mapM (map_cmsg (fun fd => (fun h : Z * Fd => host_fd h.2) <$> find_fd k ps fd)) l with
  | None => RightsErr (- EBADF)
  | Some l' => RightsOk (control_bytes l')
  end.
Proof.
  unfold send_rights. pose proof (control_bytes_length l) as Hn.
  assert (E : cmsg_first (control_bytes l) = match l with [] => None | _ => Some (Z.of_nat (length (@nil Z))) end).
  { unfold cmsg_first, CMSGHDR. destruct l as [|c l]; [done|]. cbn [length] in Hn. by rewrite (proj2 (Z.leb_le _ _)) by lia. }
  rewrite E. apply (map_rights_spec _ l _ []); [done|]. unfold rights_fuel. pose proof (Nat.div_le_lower_bound (length (control_bytes l)) 16 (length l)). lia.
Qed.


(** ** Examples *)

(** [t] for every element of a concrete list. *)
Ltac each t := repeat (apply list.Forall_cons; split; [solve [t]|]); by apply list.Forall_nil.

(** A server below [/srv/jail], in [/home], binds [sock]. *)
Definition sock_addr : list Z := [AF_UNIX; 0] ++ string_bytes "sock" ++ [0].
Definition sock_host : list Z := [AF_UNIX; 0] ++ string_bytes "/srv/jail/home/sock" ++ [0].

Lemma unix_address_roundtrip_witness :
  sockaddr_to_host confined_kernel 1 sock_addr 7 = Some sock_host /\
  sockaddr_to_guest "/srv/jail" (sock_host ++ [5; 6]) 22 24 =
  ([AF_UNIX; 0] ++ string_bytes "/home/sock" ++ replicate 10 0 ++ [5; 6], 13).
Proof.
  assert (E : sockaddr_to_host confined_kernel 1 sock_addr 7 = Some sock_host) by (vm_compute; reflexivity).
  split; [exact E|].
  refine (unix_address_roundtrip confined_kernel 1 (mkshared [] 0 {[0 := 5]} "/home" "/srv/jail" "/bin/sh")
    sock_addr sock_host [5; 6] 7 24 confined_paths_ok _ _ _ E _ _ _).
  - reflexivity.
  - exists ["srv"; "jail"]%string. split; [reflexivity|]. split; [|discriminate].
    each ltac:(repeat split; first [discriminate | intros H; vm_compute in H; set_solver]).
  - reflexivity.
  - cbn. lia.
  - unfold no_nul. vm_compute. each ltac:(discriminate).
  - unfold no_nul. vm_compute. each ltac:(discriminate).
Defined.

(** The host reports 22 bytes, the buffer holds 15 of them. *)
Lemma sockaddr_to_guest_bounds_witness :
  sockaddr_to_guest "/srv/jail" (take 15 sock_host ++ [5; 6]) 22 15 =
    ([AF_UNIX; 0] ++ string_bytes "/hom" ++ replicate 9 0 ++ [5; 6], 7) /\
  length ([AF_UNIX; 0] ++ string_bytes "/hom" ++ replicate 9 0 ++ [5; 6]) = length (take 15 sock_host ++ [5; 6]).
Proof.
  assert (E : sockaddr_to_guest "/srv/jail" (take 15 sock_host ++ [5; 6]) 22 15 =
    ([AF_UNIX; 0] ++ string_bytes "/hom" ++ replicate 9 0 ++ [5; 6], 7)) by (vm_compute; reflexivity).
  split; [exact E|]. pose proof (sockaddr_to_guest_bounds "/srv/jail" (take 15 sock_host ++ [5; 6]) 22 15) as H.
  rewrite E in H. apply H. vm_compute. discriminate.
Defined.

(** Descriptor 0 of the table is descriptor 3 of the host. *)
Definition sent_messages : list cmsg := [OtherMsg 1 2 [7; 8; 9]; Rights [0; 0; 0]].

Lemma send_rights_translates_witness :
  send_rights confined_kernel 1 (control_bytes sent_messages) =
    RightsOk (control_bytes [OtherMsg 1 2 [7; 8; 9]; Rights [3; 3; 3]]) /\
  send_rights confined_kernel 1 (control_bytes [Rights [0; 4]]) = RightsErr (- EBADF).
Proof.
  split.
  - rewrite (send_rights_translates confined_kernel 1 sent_messages); [reflexivity|].
    apply list.Forall_cons. split; [|apply list.Forall_cons; split; [|by apply list.Forall_nil]].
    + cbn. unfold int_fd, SOL_SOCKET, SCM_RIGHTS. lia.
    + split; [|cbn; lia]. each ltac:(unfold int_fd; lia).
  - rewrite (send_rights_translates confined_kernel 1 [Rights [0; 4]]); [reflexivity|].
    apply list.Forall_cons. split; [|by apply list.Forall_nil]. split; [|cbn; lia].
    each ltac:(unfold int_fd; lia).
Defined.
