(* ===== verification/Loader.v ===== *)
(** * Loader: loading an ELF file into the guest's address space

    elf_loader.cpp: the headers of a file, the placing of its segments, their
    mapping, and the two ways to load a program: alone, or together with the
    dynamic linker named by PT_INTERP.  A file is the list of its bytes; the
    library search asks the host for readable files ([HostLib]).

    Main results: after a successful load of a file whose segments share no page
    every byte of every PT_LOAD segment is at its place, zeros follow the bytes
    of the file, and the table of segments is well formed; nothing outside the
    new mapping is written, whatever the headers say; the dynamic linker is
    placed above the program. *)

From S2P Require Import Prelude Bytes HostMem AddrSpace Isa Vm Segments Frame Writes MemSyscalls SetupStack Kernel FdTable Paths VirtualFs.
From Stdlib Require Import Lia Ascii.
From stdpp Require Import base numbers list gmap strings option sorting.

Open Scope Z_scope.
Open Scope vm_scope.

(** ** Files and headers *)

Definition ET_REL : Z := 1.
Definition ET_EXEC : Z := 2.
Definition ET_DYN : Z := 3.
Definition EM_BPF : Z := 247.
Definition ELFCLASS64 : Z := 1 + 1.
Definition ELFDATA2LSB : Z := 1.
Definition PT_LOAD : Z := 1.
Definition PT_INTERP : Z := 3.
Definition PT_PHDR : Z := 6.
Definition ELFMAG : list Z := [0x7f; 0x45; 0x4c; 0x46].
Definition EHDR_SIZE : Z := 64.
Definition PHDR_SIZE : Z := 56.
Definition ENOENT : Z := 2.
Definition ENOEXEC : Z := 8.

(** The fields of the headers that are used. *)
Record Elf64_Ehdr := mkehdr {
  e_ident : list Z; e_type : Z; e_machine : Z; e_entry : Z; e_phoff : Z; e_phentsize : Z; e_phnum : Z
}.
Record Elf64_Phdr := mkphdr {
  p_type : Z; p_flags : Z; p_offset : Z; p_vaddr : Z; p_filesz : Z; p_memsz : Z
}.

Definition ehdr_of (b : list Z) : Elf64_Ehdr :=
  mkehdr (take 16 b) (field b 16 2) (field b 18 2) (field b 24 8) (field b 32 8) (field b 54 2) (field b 56 2).
Definition phdr_of (b : list Z) : Elf64_Phdr :=
  mkphdr (field b 0 4) (field b 4 4) (field b 8 8) (field b 16 8) (field b 32 8) (field b 40 8).

(** [pread] of a regular file; a negative offset or a count above [SSIZE_MAX]
    is refused. *)
Definition pread (f : list Z) (off n : Z) : option (list Z) :=
  if (s64 off <? 0) || (2 ^ 63 <=? n) then None else Some (slice f (s64 off) n).

Definition has_size (n : Z) (b : list Z) : bool := Z.of_nat (length b) =? n.

(** [read_ehdr]: the reason of a failure, or the header. *)
Definition read_ehdr (f : list Z) : string + Elf64_Ehdr :=
  match pread f 0 EHDR_SIZE with
  | None => inl "short read on ehdr"%string
  | Some b =>
    if negb (has_size EHDR_SIZE b) then inl "short read on ehdr"%string
    else
      let eh := ehdr_of b in
      if negb (bool_decide (take 4 (e_ident eh) = ELFMAG)) then inl "bad ELF magic"%string
      else if negb (byte_at (e_ident eh) 4 =? ELFCLASS64) then inl "not ELF64"%string
      else if negb (byte_at (e_ident eh) 5 =? ELFDATA2LSB) then inl "not little-endian"%string
      else inr eh
  end.

(** [read_phdr]. *)
Definition read_phdr (f : list Z) (eh : Elf64_Ehdr) (i : Z) : option Elf64_Phdr :=
  match pread f (u64 (e_phoff eh + i * e_phentsize eh)) PHDR_SIZE with
  | Some b => if has_size PHDR_SIZE b then Some (phdr_of b) else None
  | None => None
  end.

Definition validate_ehdr (eh : Elf64_Ehdr) : bool :=
  if e_type eh =? ET_REL then false
  else if negb (e_type eh =? ET_EXEC) && negb (e_type eh =? ET_DYN) then false
  else e_machine eh =? EM_BPF.

(** The program headers, in order, [None] for one that cannot be read. *)
Definition phdrs (f : list Z) (eh : Elf64_Ehdr) : list (option Elf64_Phdr) := read_phdr f eh <$> seqZ 0 (e_phnum eh).

(** The loops over PT_LOAD skip what cannot be read. *)
Definition loads (f : list Z) (eh : Elf64_Ehdr) : list Elf64_Phdr :=
  base.filter (fun ph => p_type ph = PT_LOAD) (omap id (phdrs f eh)).

(** ** Placing a module *)

Record ElfFile := mkelf { ef_path : string; ef_ehdr : Elf64_Ehdr; ef_file : list Z }.

Record Seg := mkseg {
  s_file : nat; s_vaddr : Z; s_memsz : Z; s_offset : Z; s_filesz : Z; s_flags : Z
}.

Definition min_vaddr (l : list Elf64_Phdr) : Z :=
  foldl (fun m ph => if p_vaddr ph <? m then p_vaddr ph else m) (2 ^ 64 - 1) l.
Definition max_end (l : list Elf64_Phdr) : Z :=
  foldl (fun m ph => let e := u64 (p_vaddr ph + p_memsz ph) in if m <? e then e else m) 0 l.

Definition seg_of (fi : nat) (bias : Z) (ph : Elf64_Phdr) : Seg :=
  mkseg fi (u64 (bias + p_vaddr ph)) (p_memsz ph) (p_offset ph) (p_filesz ph) (p_flags ph).

Definition page_down (x : Z) : Z := andnot x (PAGE - 1).

(** [layout_module]: the next free address, the base, the segments. *)
Definition layout_module (ef : ElfFile) (fi : nat) (is_dyn : bool) (next_alloc : Z) : Z * Z * list Seg :=
  let l := loads (ef_file ef) (ef_ehdr ef) in
  if is_dyn then
    let min_v := min_vaddr l in
    let mod_base := u64 (next_alloc - min_v) in
    let mod_span := u64 (max_end l - min_v) in
    (page_up (next_alloc + mod_span), u64 (mod_base + min_v), seg_of fi mod_base <$> l)
  else (next_alloc, 0, seg_of fi 0 <$> l).

(** [check_overlaps]: every pair. *)
Definition overlap (s t : Seg) : bool :=
  (s_vaddr s <? u64 (s_vaddr t + s_memsz t)) && (s_vaddr t <? u64 (s_vaddr s + s_memsz s)).

Fixpoint check_overlaps (l : list Seg) : bool :=
  match l with
  | [] => true
  | s :: r => forallb (fun t => negb (overlap s t)) r && check_overlaps r
  end.

(** ** Mapping a segment *)

Definition page_start (s : Seg) : Z := page_down (s_vaddr s).
Definition page_end (s : Seg) : Z := page_up (s_vaddr s + s_memsz s).
Definition map_size (s : Seg) : Z := u64 (page_end s - page_start s).
Definition head_off (s : Seg) : Z := s_vaddr s - page_start s.

(** The bytes [pread] leaves at [p]. *)
Definition put_block (h : host) (p : hptr) (bs : list Z) : host :=
  set_bytes h (upd_block (h_bytes h) p.1 (fun j =>
    if (p.2 <=? j) && (j <? p.2 + Z.of_nat (length bs)) then nth (Z.to_nat (j - p.2)) bs 0 else h_bytes h p.1 j)).

Section Loader.
Context {env : HostEnv}.

(** [map_segment]; the segment has no path yet. *)
Definition map_segment (s : Seg) (f : list Z) (h : host) : option memmap * host :=
  if (s_memsz s <? s_filesz s) || (map_size s <? u64 (head_off s + s_filesz s)) then (None, h)
  else if (map_size s =? 0) || env_mmap_fails h (map_size s) then (None, h)
  else
    let '(p, h1) := host_mmap h (Z.lor PROT_READ PROT_WRITE) in
    let mp := mkmap p (mkDeleter (map_size s) true) (map_size s) (page_start s) (s_flags s) None EmptyString in
    if 0 <? s_filesz s then
      match pread f (s_offset s) (s_filesz s) with
      | None => (None, host_munmap h1 p (map_size s))
      | Some bs =>
        let h2 := put_block h1 (padd p (head_off s)) bs in
        if has_size (s_filesz s) bs then (Some mp, h2) else (None, host_munmap h2 p (map_size s))
      end
    else (Some mp, h1).

(** The loop that maps the segments: [extra] is or-ed to the flags.  Those mapped
    before a failure stay. *)
Definition set_seg (path : string) (flags : Z) (mp : memmap) : memmap :=
  mkmap (m_data mp) (m_deleter mp) (m_size mp) (m_paddr mp) flags (m_cow mp) path.

Fixpoint map_segs (root : string) (extra : Z) (files : list ElfFile) (l : list Seg) (m : mmem) : bool * mmem :=
  match l with
  | [] => (true, m)
  | s :: r =>
    match files !! s_file s with
    | None => (false, m)
    | Some ef =>
      match map_segment s (ef_file ef) (hst m) with
      | (None, h) => (false, set_host m h)
      | (Some mp, h) =>
        map_segs root extra files r (addmem (set_host m h) (set_seg (guest_view root (ef_path ef)) (Z.lor (s_flags s) extra) mp))
      end
    end
  end.

(** ** The program headers for the auxiliary vector *)

(** The loop stops at the first PT_PHDR with an address, or at one it cannot read. *)
Fixpoint phdr_addr (base : Z) (l : list (option Elf64_Phdr)) : Z :=
  match l with
  | Some ph :: r =>
    if p_type ph =? PT_PHDR then
      let a := u64 (base + p_vaddr ph) in if a =? 0 then phdr_addr base r else a
    else phdr_addr base r
  | _ => 0
  end.

Definition fail (err : Z) : ElfLoadInfo := mkinfo 0 0 0 0 0 0 0 err.

(** ** The dynamic linker *)

(** The host's files: [access(p, R_OK) == 0], [open]: [errno] or the contents;
    does [std::string(n, 0)] throw. *)
Class HostLib := {
  lib_readable : string -> bool;
  lib_open : string -> Z + list Z;
  lib_string_throws : Z -> bool
}.
Context {lib : HostLib}.
Variable loader_root : string.

Definition default_lib_search_dirs : list string :=
  let dirs := ["lib"; "."]%string in
  if String.eqb loader_root EmptyString then dirs
  else loader_root :: (loader_root +:+ "/lib64")%string :: (loader_root +:+ "/lib")%string :: dirs.

(** [std::getline] with ':', without the empty ones. *)
Fixpoint split_colon (s : string) : list string :=
  match s with
  | EmptyString => [EmptyString]
  | String c r =>
    if Ascii.eqb c ":"%char then EmptyString :: split_colon r
    else match split_colon r with w :: t => String c w :: t | [] => [String c EmptyString] end
  end.

Definition lib_search_dirs_from_envp (envp : list (string * string)) : list string :=
  match List.find (fun e => String.eqb e.1 "LD_LIBRARY_PATH") envp with
  | None => []
  | Some (_, v) => base.filter (fun d => d <> EmptyString) (split_colon v)
  end.

Definition find_library (extra_dirs : list string) (name : string) : string :=
  let at_dir (d : string) := (d +:+ "/" +:+ name)%string in
  match List.find lib_readable (at_dir <$> extra_dirs ++ default_lib_search_dirs) with
  | Some p => p
  | None => if lib_readable name then name else EmptyString
  end.

(** [interp_name.substr(find_last_of('/') + 1)]. *)
Definition file_name (p : string) : string := List.last (split_slash p) EmptyString.

(** The two modules of [load_elf_ldso] placed one after the other. *)
Definition layout_pair (main_ef ldso : ElfFile) : Z * Z * list Seg :=
  let is_dyn ef := e_type (ef_ehdr ef) =? ET_DYN in
  let '(n1, b0, l0) := layout_module main_ef 0 (is_dyn main_ef) 0x40000000 in
  let '(_, b1, l1) := layout_module ldso 1 (is_dyn ldso) n1 in
  (b0, b1, l0 ++ l1).

Definition load_elf_ldso (main_ef : ElfFile) (interp_path : string) (envp : list (string * string)) (m : mmem) :
    ElfLoadInfo * mmem :=
  let ldso_path := find_library (lib_search_dirs_from_envp envp) (file_name interp_path) in
  if String.eqb ldso_path EmptyString then (fail ENOENT, m)
  else match lib_open ldso_path with
  | inl e => (fail (if e =? 0 then ENOENT else e), m)
  | inr f =>
    match read_ehdr f with
    | inl _ => (fail ENOEXEC, m)
    | inr ldso_ehdr =>
      let ldso := mkelf ldso_path ldso_ehdr f in
      let '(base0, base1, segs) := layout_pair main_ef ldso in
      if bool_decide (segs = []) || negb (check_overlaps segs) then (fail ENOEXEC, m)
      else match map_segs loader_root PF_W [main_ef; ldso] segs m with
      | (false, m') => (fail ENOEXEC, m')
      | (true, m') =>
        let eh := ef_ehdr main_ef in
        (mkinfo (u64 (base1 + e_entry ldso_ehdr)) (phdr_addr base0 (phdrs (ef_file main_ef) eh)) (e_phentsize eh) (e_phnum eh)
           base1 (u64 (base0 + e_entry eh)) base0 0, m')
      end
    end
  end.

(** ** load_elf *)

(** What the scan for PT_INTERP finds; [InterpThrows]: the string that is to
    hold the path cannot be made. *)
Inductive interp := NoInterp | InterpThrows | Interp (path : string).

Definition interp_string (b : list Z) : string := bytes_string (c_bytes (length b) b).

Fixpoint find_interp (f : list Z) (l : list (option Elf64_Phdr)) : interp :=
  match l with
  | Some ph :: r =>
    if (p_type ph =? PT_INTERP) && (0 <? p_filesz ph) then
      if lib_string_throws (p_filesz ph) then InterpThrows
      else match pread f (p_offset ph) (p_filesz ph) with
           | Some (b :: bs) => Interp (interp_string (b :: bs))
           | _ => find_interp f r
           end
    else find_interp f r
  | _ => NoInterp
  end.

(** The path without PT_INTERP. *)
Definition load_elf_static (ef : ElfFile) (m : mmem) : ElfLoadInfo * mmem :=
  let eh := ef_ehdr ef in
  let '(_, base, segs) := layout_module ef 0 (e_type eh =? ET_DYN) 0x40000000 in
  if bool_decide (segs = []) || negb (check_overlaps segs) then (fail ENOEXEC, m)
  else match map_segs loader_root 0 [ef] segs m with
  | (false, m') => (fail ENOEXEC, m')
  | (true, m') =>
    let entry := if e_type eh =? ET_DYN then u64 (base + e_entry eh) else e_entry eh in
    (mkinfo entry (phdr_addr base (phdrs (ef_file ef) eh)) (e_phentsize eh) (e_phnum eh) 0 entry base 0, m')
  end.

(** [load_elf]; [None]: an exception nobody catches. *)
Definition load_elf (f : list Z) (path : string) (envp : list (string * string)) (m : mmem) : option (ElfLoadInfo * mmem) :=
  match read_ehdr f with
  | inl _ => Some (fail ENOEXEC, m)
  | inr eh =>
    if negb (validate_ehdr eh) then Some (fail ENOEXEC, m)
    else
      let ef := mkelf path eh f in
      match find_interp f (phdrs f eh) with
      | InterpThrows => None
      | Interp p => Some (load_elf_ldso ef p envp m)
      | NoInterp => Some (load_elf_static ef m)
      end
  end.

(** [vm::load_elf]. *)
Definition vm_load_elf {S} (f : list Z) (path : string) (envp : list (string * string)) : M S ElfLoadInfo := fun v =>
  match load_elf f path envp (mm v) with
  | None => Blocked v
  | Some (info, m) =>
    let v1 := set_mm m v in
    Ok info (if li_entry info =? 0 then v1 else set_image (Some (li_entry info)) v1)
  end.

End Loader.

(** ** One segment *)

(** The segment lies in the address space, and the file holds its bytes. *)
Record seg_fits (s : Seg) (f : list Z) : Prop := {
  sf_vaddr : 0 <= s_vaddr s;
  sf_memsz : 0 < s_memsz s;
  sf_end : s_vaddr s + s_memsz s + PAGE <= 2 ^ 64;
  sf_filesz : 0 <= s_filesz s <= s_memsz s;
  sf_offset : 0 <= s_offset s < 2 ^ 63;
  sf_file : s_offset s + s_filesz s <= Z.of_nat (length f);
  sf_small : Z.of_nat (length f) < 2 ^ 63
}.

Lemma page_down_eq (x : Z) : 0 <= x < 2 ^ 64 -> page_down x = x - x mod PAGE.
Proof. intros Hx. unfold page_down. rewrite andnot_page by lia. done. Qed.

(** The pages of a segment that fits. *)
Lemma seg_pages (s : Seg) (f : list Z) :
  seg_fits s f ->
  0 <= page_start s <= s_vaddr s /\ s_vaddr s + s_memsz s <= page_end s < 2 ^ 64 /\
  map_size s = page_end s - page_start s /\ s_vaddr s - page_start s < PAGE.
Proof.
  intros [H1 H2 H3 H4 H5 H6 H7]. unfold map_size, page_start, page_end, PAGE in *.
  rewrite page_down_eq by lia. pose proof (page_up_bounds (s_vaddr s + s_memsz s)) as Hu. unfold PAGE in *.
  pose proof (Z.mod_pos_bound (s_vaddr s) 0x1000 ltac:(lia)). pose proof (Z.mod_le (s_vaddr s) 0x1000).
  rewrite uwrap_small by lia. lia.
Qed.

Lemma pread_fits (s : Seg) (f : list Z) :
  seg_fits s f -> pread f (s_offset s) (s_filesz s) = Some (slice f (s_offset s) (s_filesz s)) /\
  has_size (s_filesz s) (slice f (s_offset s) (s_filesz s)) = true.
Proof.
  intros [H1 H2 H3 H4 H5 H6 H7]. unfold pread.
  assert (s64 (s_offset s) = s_offset s) as -> by (unfold sval; zcases; mlia).
  rewrite (proj2 (Z.ltb_ge _ _)), (proj2 (Z.leb_gt _ _)) by lia. split; [done|].
  unfold has_size. apply Z.eqb_eq. unfold slice. destruct (Z.leb_spec (Z.of_nat (length f)) (s_offset s)); cbn [length]; [lia|].
  rewrite length_take, length_drop. lia.
Qed.

(** The byte of the segment at guest address [a]. *)
Definition seg_byte (f : list Z) (s : Seg) (a : Z) : Z :=
  if (s_vaddr s <=? a) && (a <? s_vaddr s + s_filesz s) then byte_at f (s_offset s + (a - s_vaddr s)) else 0.

Definition new_seg (s : Seg) (h : host) : memmap :=
  mkmap (h_next h, 0) (mkDeleter (map_size s) true) (map_size s) (page_start s) (s_flags s) None EmptyString.

(** What the mapping of one segment does to the host. *)
Record seg_mapped (s : Seg) (f : list Z) (h h' : host) : Prop := {
  sm_ext : host_extends h h';
  sm_next : h_next h' = h_next h + 1;
  sm_cbs : h_cbs h' = h_cbs h;
  sm_cbnext : h_cbnext h' = h_cbnext h;
  sm_unmapped : h_unmapped h' = h_unmapped h;
  sm_bytes : forall a, h_bytes h' (h_next h) (a - page_start s) = seg_byte f s a
}.

Lemma slice_nth (f : list Z) (o n : Z) (i : Z) :
  0 <= o -> 0 <= i < n -> nth (Z.to_nat i) (slice f o n) 0 = byte_at f (o + i).
Proof.
  intros Ho Hi. unfold byte_at. rewrite !nth_lookup, slice_lookup by lia. do 2 f_equal. lia.
Qed.

Lemma byte_at_is_byte (l : list Z) (i : Z) : Forall is_byte l -> 0 <= byte_at l i < 256.
Proof.
  intros Hl. unfold byte_at. rewrite nth_lookup. destruct (l !! Z.to_nat i) as [b|] eqn:E; cbn; [|lia].
  by eapply Forall_lookup_1 in Hl.
Qed.

Lemma put_block_extends (h0 h : host) (p : hptr) (bs : list Z) :
  host_extends h0 h -> h_next h0 <= p.1 -> Forall is_byte bs -> host_extends h0 (put_block h p bs).
Proof.
  intros [E1 E2 E3] Hp Hb. split; [done| |]; unfold put_block, set_bytes; cbn [h_bytes].
  - intros b o Hlt. rewrite upd_block_ne by lia. by apply E2.
  - intros Hok b o. specialize (E3 Hok b). unfold upd_block. cbn [h_bytes]. destruct (Z.eqb_spec b p.1) as [->|_]; [|apply E3].
    destruct (_ && _); [|apply E3]. rewrite nth_lookup. destruct (bs !! _) as [x|] eqn:E; cbn; [|lia].
    by eapply Forall_lookup_1 in Hb.
Qed.

Lemma map_segment_fits {env : HostEnv} (s : Seg) (f : list Z) (h : host) :
  seg_fits s f -> Forall is_byte f -> env_mmap_fails h (map_size s) = false ->
  exists h', map_segment s f h = (Some (new_seg s h), h') /\ seg_mapped s f h h'.
Proof.
  intros Hs Hf Henv. pose proof (seg_pages s f Hs) as (P1 & P2 & P3 & P4). pose proof Hs as [H1 H2 H3 H4 H5 H6 H7].
  unfold map_segment. rewrite (proj2 (Z.ltb_ge _ _)) by lia.
  assert (Hh : u64 (head_off s + s_filesz s) <= map_size s) by (unfold head_off; rewrite uwrap_small; lia).
  rewrite (proj2 (Z.ltb_ge _ _) Hh), (proj2 (Z.eqb_neq (map_size s) 0)), Henv by lia. cbn [orb host_mmap].
  destruct (pread_fits s f Hs) as [-> ->]. fold (new_seg s h).
  pose proof (host_mmap_extends h (Z.lor PROT_READ PROT_WRITE)) as He. cbn [host_mmap snd] in He. set (h1 := mkhost _ _ _ _ _ _) in *.
  destruct (Z.ltb_spec 0 (s_filesz s)) as [Hz|Hz].
  - eexists. split; [reflexivity|]. split; try done.
    + apply put_block_extends; [done|cbn; lia|by apply slice_is_byte].
    + intros a. cbn. unfold upd_block. rewrite !Z.eqb_refl. unfold seg_byte, head_off.
      destruct (pread_fits s f Hs) as [_ Hlen%Z.eqb_eq]. rewrite Hlen.
      destruct (Z.leb_spec (s_vaddr s) a), (Z.ltb_spec a (s_vaddr s + s_filesz s)); cbn [andb];
        zcases; try lia; try done. rewrite slice_nth by lia. f_equal. lia.
  - eexists. split; [reflexivity|]. split; try done. intros a. cbn. unfold upd_block. rewrite Z.eqb_refl. unfold seg_byte.
    zcases; (done || lia).
Qed.

(** ** All segments *)

Definition on_pages (s : Seg) (a : Z) : Prop := page_start s <= a < page_end s.
Definition pages_apart (s t : Seg) : Prop := page_end s <= page_start t \/ page_end t <= page_start s.
Definition pages_free (ms : list memmap) (s : Seg) : Prop :=
  Forall (fun x => m_paddr x + m_size x <= page_start s \/ page_end s <= m_paddr x) ms.

(** No page belongs to two segments. *)
Fixpoint pages_disjoint (l : list Seg) : Prop :=
  match l with [] => True | s :: r => Forall (pages_apart s) r /\ pages_disjoint r end.

Definition seg_file (files : list ElfFile) (s : Seg) : list Z := from_option ef_file [] (files !! s_file s).
Definition seg_ok (files : list ElfFile) (s : Seg) : Prop :=
  is_Some (files !! s_file s) /\ seg_fits s (seg_file files s) /\ Forall is_byte (seg_file files s).

Section Segments.
Context {env : HostEnv} (root : string) (extra : Z) (files : list ElfFile) (others : list memmap).

(** One segment entered in the table. *)
Lemma map_seg_step (s : Seg) (m : mmem) (h' : host) (path : string) :
  mem_wf m -> share_ok (hst m) (maps m ++ others) ->
  seg_ok files s -> pages_free (maps m) s -> seg_mapped s (seg_file files s) (hst m) h' ->
  let m' := addmem (set_host m h') (set_seg path (Z.lor (s_flags s) extra) (new_seg s (hst m))) in
  mem_wf m' /\ share_ok (hst m') (maps m' ++ others) /\
  (forall a, on_pages s a -> gbyte m' a = Some (seg_byte (seg_file files s) s a)) /\
  (forall a, 0 <= a < 2 ^ 64 -> ~ on_pages s a -> gbyte m' a = gbyte m a).
Proof.
  intros Hwf Hsh [_ [Hs _]] Hfree [E1 E2 E3 E4 E5 E6]. pose proof (seg_pages s _ Hs) as (P1 & P2 & P3 & P4).
  set (mp := set_seg path _ _). intros m'. destruct (conj eq_refl eq_refl : m_paddr mp = page_start s /\ m_size mp = map_size s) as [Ep Esz].
  assert (Hmp : wf_map mp).
  { pose proof (sf_memsz _ _ Hs). unfold wf_map. lia. }
  assert (Hwf1 : mem_wf (set_host m h')).
  { destruct Hwf as [W1 W2 W3 W4]. constructor; try done; [|by apply E1].
    eapply Forall_impl; [exact W3|]. intros x Hx. destruct E1. cbn in *. lia. }
  assert (Hbel : Forall (fun x => below x mp \/ below mp x) (maps m)).
  { eapply Forall_impl; [exact Hfree|]. intros x Hx. cbn beta in Hx. unfold below. lia. }
  assert (Hwf2 : mem_wf m') by (apply addmem_wf; try done; cbn; lia).
  assert (Hg : forall a, 0 <= a < 2 ^ 64 -> gbyte m' a =
    if (page_start s <=? a) && (a <? page_start s + map_size s) then Some (seg_byte (seg_file files s) s a) else gbyte m a).
  { intros a Ha. unfold gbyte. cbn [m' addmem flush_tlb maps hst set_host]. rewrite translate_seg_at.
    rewrite (seg_at_insert mp (maps m)) by (done || apply Hwf || apply Hwf2). cbn [mp m_paddr m_size set_seg new_seg].
    destruct (_ && _).
    - change (Some (h_bytes h' (h_next (hst m)) (0 + (a - page_start s))) = Some (seg_byte (seg_file files s) s a)). by rewrite Z.add_0_l, E6.
    - rewrite <- translate_seg_at. change (gbyte_in h' (maps m) a = gbyte_in (hst m) (maps m) a).
      apply gbyte_in_extends; [done|apply Hwf]. }
  split_and!.
  - done.
  - cbn [m' addmem flush_tlb maps hst set_host]. rewrite insert_map_perm.
    apply (share_ok_fresh (hst m)); try done. cbn. lia.
  - intros a Ha. unfold on_pages in Ha. rewrite Hg by lia. zcases; (done || lia).
  - intros a Ha Hn. unfold on_pages in Hn. rewrite Hg by lia. zcases; (done || lia).
Qed.

Lemma pages_free_add (m : mmem) (h : host) (s t : Seg) (path : string) (fl : Z) :
  seg_ok files s -> pages_apart s t -> pages_free (maps m) t ->
  pages_free (maps (addmem (set_host m h) (set_seg path fl (new_seg s (hst m))))) t.
Proof.
  intros [_ [Hs _]] Ha Hf. pose proof (seg_pages s _ Hs) as (_ & _ & P3 & _). unfold pages_free. cbn.
  apply list.Forall_forall. intros x [->|Hx]%insert_map_elem.
  - cbn. rewrite P3. unfold pages_apart in Ha. lia.
  - by eapply list.Forall_forall in Hf.
Qed.

(** The loop over the segments: every one is mapped, and nothing else changes. *)
Lemma map_segs_ok (l : list Seg) (m : mmem) :
  (forall h n, env_mmap_fails h n = false) ->
  mem_wf m -> share_ok (hst m) (maps m ++ others) ->
  Forall (seg_ok files) l -> Forall (pages_free (maps m)) l -> pages_disjoint l ->
  exists m', map_segs root extra files l m = (true, m') /\ mem_wf m' /\ share_ok (hst m') (maps m' ++ others) /\
    (forall s a, s ∈ l -> on_pages s a -> gbyte m' a = Some (seg_byte (seg_file files s) s a)) /\
    (forall a, 0 <= a < 2 ^ 64 -> Forall (fun s => ~ on_pages s a) l -> gbyte m' a = gbyte m a).
Proof.
  intros Henv. revert m. induction l as [|s r IH]; intros m Hwf Hsh Hok Hfree Hdis.
  { exists m. split_and!; try done. intros s a Hs. by apply elem_of_nil in Hs. }
  apply list.Forall_cons in Hok as [Hs Hok]. apply list.Forall_cons in Hfree as [Hf Hfree]. destruct Hdis as [Hap Hdis].
  pose proof Hs as ([ef Hef] & Hfit & Hby).
  assert (Ef : seg_file files s = ef_file ef) by (unfold seg_file; by rewrite Hef).
  destruct (map_segment_fits s _ (hst m) Hfit Hby (Henv _ _)) as (h' & Em & Hm).
  cbn [map_segs]. rewrite Hef, <- Ef, Em.
  destruct (map_seg_step s m h' (guest_view root (ef_path ef)) Hwf Hsh Hs Hf Hm) as (W & S & G1 & G2).
  set (m1 := addmem _ _) in *.
  destruct (IH m1) as (m' & E & W' & S' & G1' & G2'); try done.
  { apply list.Forall_forall. intros t Ht. apply pages_free_add; [done| |]; by eapply list.Forall_forall in Ht. }
  exists m'. split_and!; try done.
  - intros t a [->|Ht]%elem_of_cons Ha; [|by apply G1'].
    rewrite G2', G1; try done.
    + pose proof (seg_pages s _ Hfit). unfold on_pages in Ha. lia.
    + eapply list.Forall_impl; [exact Hap|]. intros t Ht. unfold on_pages, pages_apart in *. lia.
  - intros a Ha [Hn Hr]%list.Forall_cons. by rewrite G2', G2.
Qed.

(** Segments on pages of their own pass the check for overlaps. *)
Lemma check_overlaps_disjoint (l : list Seg) : Forall (seg_ok files) l -> pages_disjoint l -> check_overlaps l = true.
Proof.
  induction l as [|s r IH]; intros Hok Hd; [done|]. apply list.Forall_cons in Hok as [Hs Hok]. destruct Hd as [Ha Hd].
  cbn [check_overlaps]. rewrite IH by done. rewrite andb_true_r. apply forallb_forall. intros t Ht. apply list_elem_of_In in Ht.
  pose proof (proj1 (list.Forall_forall _ _) Ha t Ht) as Hst. pose proof (proj1 (list.Forall_forall _ _) Hok t Ht) as (_ & Ht' & _).
  destruct Hs as (_ & Hs & _). pose proof (seg_pages _ _ Hs). pose proof (seg_pages _ _ Ht'). pose proof Hs as []. pose proof Ht' as [].
  unfold overlap, pages_apart, PAGE in *. rewrite !uwrap_small by lia. zcases; (done || lia).
Qed.

End Segments.

(** ** Placing *)

Definition phdr_ok (ph : Elf64_Phdr) : Prop := 0 <= p_vaddr ph /\ 0 < p_memsz ph /\ p_vaddr ph + p_memsz ph < 2 ^ 64.

Lemma foldl_min_le (l : list Elf64_Phdr) (m : Z) :
  let r := foldl (fun m ph => if p_vaddr ph <? m then p_vaddr ph else m) m l in
  r <= m /\ (forall ph, ph ∈ l -> r <= p_vaddr ph) /\ (0 <= m -> Forall phdr_ok l -> 0 <= r).
Proof.
  revert m. induction l as [|x l IH]; intros m; cbn [foldl].
  - split_and!; [done|by intros ph []%elem_of_nil|done].
  - destruct (IH (if p_vaddr x <? m then p_vaddr x else m)) as (H1 & H2 & H3). split_and!.
    + zcases; lia.
    + intros ph [->|Hin]%elem_of_cons; [|by apply H2]. zcases; lia.
    + intros Hm [Hx Hl]%list.Forall_cons. destruct Hx. apply H3; [|done]. zcases; lia.
Qed.

Lemma foldl_max_ge (l : list Elf64_Phdr) (m : Z) :
  Forall phdr_ok l ->
  let r := foldl (fun m ph => let e := u64 (p_vaddr ph + p_memsz ph) in if m <? e then e else m) m l in
  m <= r /\ (forall ph, ph ∈ l -> p_vaddr ph + p_memsz ph <= r).
Proof.
  intros Hl. revert m. induction Hl as [|x l Hx Hl IH]; intros m; cbn [foldl].
  - split; [done|by intros ph []%elem_of_nil].
  - destruct (IH (let e := u64 (p_vaddr x + p_memsz x) in if m <? e then e else m)) as (H1 & H2). destruct Hx as (X1 & X2 & X3).
    cbv zeta in *. rewrite (uwrap_small 64) in * by lia. split.
    + zcases; lia.
    + intros ph [->|Hin]%elem_of_cons; [|by apply H2]. zcases; lia.
Qed.

Lemma module_bounds (l : list Elf64_Phdr) :
  Forall phdr_ok l -> 0 <= min_vaddr l < 2 ^ 64 /\ forall ph, ph ∈ l -> min_vaddr l <= p_vaddr ph /\ p_vaddr ph + p_memsz ph <= max_end l.
Proof.
  intros Hl. destruct (foldl_min_le l (2 ^ 64 - 1)) as (M1 & M2 & M3). destruct (foldl_max_ge l 0 Hl) as (E1 & E2).
  fold (min_vaddr l) in *. fold (max_end l) in *. specialize (M3 ltac:(lia) Hl). split; [lia|]. auto.
Qed.

Lemma module_span (l : list Elf64_Phdr) : Forall phdr_ok l -> l <> [] -> 0 <= max_end l - min_vaddr l.
Proof.
  intros Hl Hne. destruct (module_bounds l Hl) as [_ Hb]. destruct l as [|x r]; [done|].
  destruct (Hb x ltac:(by left)). apply list.Forall_cons in Hl as [[] _]. lia.
Qed.

Lemma page_down_ge (n x : Z) : n mod PAGE = 0 -> 0 <= x < 2 ^ 64 -> n <= x -> n <= page_down x.
Proof. intros Hn Hx Hle. rewrite page_down_eq by done. unfold PAGE in *. mlia. Qed.

Lemma page_up_le (n x : Z) : n mod PAGE = 0 -> 0 <= x -> x + PAGE - 1 < 2 ^ 64 -> x <= n -> page_up x <= n.
Proof.
  intros Hn Hx Hb Hle. unfold page_up. rewrite uwrap_small by (unfold PAGE in *; lia). rewrite andnot_page by (unfold PAGE in *; lia).
  unfold PAGE in *. mlia.
Qed.

(** A position-independent module keeps its shape and lies between the two
    allocation marks; the base is the address of its lowest segment, which is
    where address 0 of the file would be only if that segment starts at 0. *)
Lemma layout_dyn (ef : ElfFile) (fi : nat) (next n' base : Z) (segs : list Seg) :
  let l := loads (ef_file ef) (ef_ehdr ef) in
  Forall phdr_ok l -> l <> [] -> 0 <= next -> next mod PAGE = 0 -> next + (max_end l - min_vaddr l) + PAGE <= 2 ^ 64 ->
  layout_module ef fi true next = (n', base, segs) ->
  base = next /\ next <= n' <= next + (max_end l - min_vaddr l) + PAGE /\ n' mod PAGE = 0 /\
  Forall2 (fun ph s => s_vaddr s = next + (p_vaddr ph - min_vaddr l) /\ next <= page_start s /\ page_end s <= n') l segs.
Proof.
  intros l Hl Hne Hn Hal Hfit. unfold layout_module. fold l. intros [= <- <- <-].
  destruct (module_bounds l Hl) as [Hm Hb].
  pose proof (module_span l Hl Hne) as Hspan.
  rewrite (uwrap_small 64 (max_end l - min_vaddr l)) by (unfold PAGE in Hfit; lia). set (span := max_end l - min_vaddr l) in *.
  pose proof (page_up_bounds (next + span) ltac:(lia)) as Hp. unfold PAGE in Hp, Hfit. specialize (Hp ltac:(lia)).
  split_and!; [|lia|unfold PAGE; lia|apply page_up_aligned|].
  - unfold uwrap. rewrite Zplus_mod_idemp_l. rewrite Z.mod_small by lia. lia.
  - apply Forall2_fmap_r, Forall_Forall2_diag, list.Forall_forall. intros ph Hin. destruct (Hb ph Hin) as [B1 B2].
    pose proof (proj1 (list.Forall_forall _ _) Hl ph Hin) as (O1 & O2 & O3).
    assert (E : u64 (u64 (next - min_vaddr l) + p_vaddr ph) = next + (p_vaddr ph - min_vaddr l)).
    { unfold uwrap. rewrite Zplus_mod_idemp_l. rewrite Z.mod_small by lia. lia. }
    unfold compose, page_start, page_end, seg_of. cbn [s_vaddr s_memsz]. rewrite E. split_and!; [done| |].
    + apply page_down_ge; [done|lia|lia].
    + apply page_up_le; [apply page_up_aligned|lia|unfold PAGE; lia|lia].
Qed.

(** the dynamic linker lies above the program.  When both are
    position-independent and fit in the address space, every segment of the
    program starts at 0x40000000 or above and every segment of the linker lies
    above all of the program's, on pages of its own, and both keep the distances
    their files give them. *)
Theorem ldso_above_program (main_ef ldso : ElfFile) (b0 b1 : Z) (segs : list Seg) :
  let l0 := loads (ef_file main_ef) (ef_ehdr main_ef) in
  let l1 := loads (ef_file ldso) (ef_ehdr ldso) in
  e_type (ef_ehdr main_ef) = ET_DYN -> e_type (ef_ehdr ldso) = ET_DYN ->
  Forall phdr_ok l0 -> Forall phdr_ok l1 -> l0 <> [] -> l1 <> [] ->
  (max_end l0 - min_vaddr l0) + (max_end l1 - min_vaddr l1) + 0x40000000 + 2 * PAGE <= 2 ^ 64 ->
  layout_pair main_ef ldso = (b0, b1, segs) ->
  exists s0 s1, segs = s0 ++ s1 /\
    Forall2 (fun ph s => s_vaddr s = b0 + (p_vaddr ph - min_vaddr l0)) l0 s0 /\
    Forall2 (fun ph s => s_vaddr s = b1 + (p_vaddr ph - min_vaddr l1)) l1 s1 /\
    Forall (fun s => 0x40000000 <= page_start s) s0 /\
    Forall (fun s => Forall (fun t => page_end s <= page_start t) s1) s0.
Proof.
  intros l0 l1 T0 T1 O0 O1 N0 N1 Hfit. unfold layout_pair. rewrite T0, T1, Z.eqb_refl.
  destruct (layout_module main_ef 0 true 0x40000000) as [[n1 b0'] s0] eqn:E0.
  pose proof (module_span l0 O0 N0). pose proof (module_span l1 O1 N1). unfold PAGE in Hfit.
  destruct (layout_dyn main_ef 0 0x40000000 n1 b0' s0 O0 N0 ltac:(lia) eq_refl ltac:(fold l0; unfold PAGE; lia) E0) as (-> & L0 & A0 & F0). fold l0 in F0, L0.
  destruct (layout_module ldso 1 true n1) as [[n2 b1'] s1] eqn:E1.
  destruct (layout_dyn ldso 1 n1 n2 b1' s1 O1 N1 ltac:(lia) A0 ltac:(fold l1; unfold PAGE in *; lia) E1) as (-> & L1 & A1 & F1). fold l1 in F1, L1.
  intros [= <- <- <-]. exists s0, s1. split_and!.
  - done.
  - eapply Forall2_impl; [exact F0|]. by intros ph s (H' & _).
  - eapply Forall2_impl; [exact F1|]. by intros ph s (H' & _).
  - eapply Forall2_Forall_r; [exact F0|]. apply list.Forall_forall. by intros ph _ s (_ & H' & _).
  - eapply Forall2_Forall_r; [exact F0|]. apply list.Forall_forall. intros ph _ s (_ & _ & H').
    eapply Forall2_Forall_r; [exact F1|]. apply list.Forall_forall. intros ph' _ t (_ & H'' & _). cbn beta. lia.
Qed.

(** ** Loading *)

(** What a successful load leaves: the segments' bytes at their addresses, the
    rest of the memory as it was. *)
Definition image_loaded (f : list Z) (eh : Elf64_Ehdr) (base : Z) (segs : list Seg) (others : list memmap) (m : mmem)
    (r : option (ElfLoadInfo * mmem)) : Prop :=
  exists info m', r = Some (info, m') /\
    li_err info = 0 /\ li_app_load_base info = base /\ li_entry info = (if e_type eh =? ET_DYN then u64 (base + e_entry eh) else e_entry eh) /\
    mem_wf m' /\ share_ok (hst m') (maps m' ++ others) /\
    (forall s i, s ∈ segs -> 0 <= i < s_memsz s ->
      gbyte m' (s_vaddr s + i) = Some (if i <? s_filesz s then byte_at f (s_offset s + i) else 0)) /\
    (forall a, 0 <= a < 2 ^ 64 -> Forall (fun s => ~ on_pages s a) segs -> gbyte m' a = gbyte m a).

Lemma load_image {env : HostEnv} {lib : HostLib} (root path : string) (f : list Z) (eh : Elf64_Ehdr)
    (envp : list (string * string)) (m : mmem) (others : list memmap) (n base : Z) (segs : list Seg)
  (Henv : forall h size, env_mmap_fails h size = false)
  (Hwf : mem_wf m) (Hsh : share_ok (hst m) (maps m ++ others))
  (Heh : read_ehdr f = inr eh) (Hval : validate_ehdr eh = true) (Hint : find_interp f (phdrs f eh) = NoInterp)
  (Hlay : layout_module (mkelf path eh f) 0 (e_type eh =? ET_DYN) 0x40000000 = (n, base, segs)) (Hne : segs <> [])
  (Hok : Forall (seg_ok [mkelf path eh f]) segs) (Hfree : Forall (pages_free (maps m)) segs) (Hdis : pages_disjoint segs) :
  image_loaded f eh base segs others m (load_elf root f path envp m).
Proof.
  unfold load_elf. rewrite Heh, Hval, Hint. cbn [negb]. unfold load_elf_static. cbn [ef_ehdr ef_file]. rewrite Hlay.
  rewrite bool_decide_false by done. rewrite (check_overlaps_disjoint _ _ Hok Hdis). cbn [orb negb].
  destruct (map_segs_ok root 0 _ others segs m Henv Hwf Hsh Hok Hfree Hdis) as (m' & E & W & S & G1 & G2). rewrite E.
  eexists _, m'. split; [reflexivity|]. split_and!; try done.
  intros s i Hs Hi. pose proof (proj1 (list.Forall_forall _ _) Hok s Hs) as ([ef Hef] & Hfit & _).
  pose proof (seg_pages _ _ Hfit) as (P1 & P2 & _).
  rewrite (G1 s) by (done || unfold on_pages; lia). unfold seg_byte, seg_file.
  assert (Ef : from_option ef_file [] ([mkelf path eh f] !! s_file s) = f).
  { rewrite Hef. cbn. destruct (s_file s) as [|k]; [|by destruct k]. by injection Hef as <-. }
  rewrite Ef. rewrite (proj2 (Z.leb_le _ _)) by lia. cbn [andb].
  replace (s_offset s + (s_vaddr s + i - s_vaddr s)) with (s_offset s + i) by lia. zcases; (done || lia).
Qed.

(** C22: a loaded program is its file.  For a file without PT_INTERP whose header
    is accepted and whose segments fit in the address space, have their bytes in
    the file and share no page with each other or with what is mapped, loading
    succeeds; every byte of every segment is then the byte of the file, or zero
    beyond the bytes the file has for it; all other guest memory, and the memory
    of every other address space, is as before, and the table of segments is
    well formed. *)
Theorem load_elf_image {env : HostEnv} {lib : HostLib} (root path : string) (f : list Z) (eh : Elf64_Ehdr)
    (envp : list (string * string)) (m : mmem) (others : list memmap) (n base : Z) (segs : list Seg)
  (Henv : forall h size, env_mmap_fails h size = false)
  (Hwf : mem_wf m) (Hsh : share_ok (hst m) (maps m ++ others))
  (Heh : read_ehdr f = inr eh) (Hval : validate_ehdr eh = true) (Hint : find_interp f (phdrs f eh) = NoInterp)
  (Hlay : layout_module (mkelf path eh f) 0 (e_type eh =? ET_DYN) 0x40000000 = (n, base, segs)) (Hne : segs <> [])
  (Hok : Forall (seg_ok [mkelf path eh f]) segs) (Hfree : Forall (pages_free (maps m)) segs) (Hdis : pages_disjoint segs) :
  exists info m', load_elf root f path envp m = Some (info, m') /\
    li_err info = 0 /\ li_app_load_base info = base /\ li_entry info = (if e_type eh =? ET_DYN then u64 (base + e_entry eh) else e_entry eh) /\
    mem_wf m' /\ share_ok (hst m') (maps m' ++ others) /\
    (forall s i, s ∈ segs -> 0 <= i < s_memsz s ->
      gbyte m' (s_vaddr s + i) = Some (if i <? s_filesz s then byte_at f (s_offset s + i) else 0)) /\
    (forall a, 0 <= a < 2 ^ 64 -> Forall (fun s => ~ on_pages s a) segs -> gbyte m' a = gbyte m a).
Proof. exact (load_image root path f eh envp m others n base segs Henv Hwf Hsh Heh Hval Hint Hlay Hne Hok Hfree Hdis). Qed.

(** ** Whatever the headers say *)

Definition seg_words (s : Seg) : Prop := in_u64 (s_vaddr s) /\ in_u64 (s_memsz s) /\ in_u64 (s_filesz s).

Lemma put_block_other (h : host) (p : hptr) (bs : list Z) (b o : Z) : b <> p.1 -> h_bytes (put_block h p bs) b o = h_bytes h b o.
Proof. intros Hb. unfold put_block, set_bytes. cbn [h_bytes]. by rewrite upd_block_ne. Qed.

Lemma put_block_outside (h : host) (p : hptr) (bs : list Z) (o : Z) :
  ~ (p.2 <= o < p.2 + Z.of_nat (length bs)) -> h_bytes (put_block h p bs) p.1 o = h_bytes h p.1 o.
Proof. intros Ho. unfold put_block, set_bytes. cbn [h_bytes]. unfold upd_block. rewrite Z.eqb_refl. zcases; (done || lia). Qed.

(** C28: mapping a segment never writes outside the new mapping.  For any header
    fields whatsoever, also sizes and offsets chosen to overflow, no byte of
    memory the virtual machine had before changes, and bytes are written only
    inside the [map_size] bytes that were asked of the host. *)
Theorem map_segment_bounds {env : HostEnv} (s : Seg) (f : list Z) (h h' : host) (r : option memmap)
  (Hs : seg_words s) (Hm : map_segment s f h = (r, h')) :
  (forall b o, b < h_next h -> h_bytes h' b o = h_bytes h b o) /\
  (h_next h < h_next h' -> forall o, ~ (0 <= o < map_size s) -> h_bytes h' (h_next h) o = 0) /\
  (forall mp, r = Some mp -> h_next h < h_next h' /\ m_data mp = (h_next h, 0) /\ m_size mp = map_size s /\ 0 < m_size mp).
Proof.
  destruct Hs as (Hv & Hms & Hfs). unfold map_segment in Hm.
  destruct (_ || _) eqn:E1 in Hm; [injection Hm as <- <-; split_and!; (done || lia)|].
  destruct (_ || _) eqn:E2 in Hm; [injection Hm as <- <-; split_and!; (done || lia)|].
  apply orb_false_iff in E1 as [E1a%Z.ltb_ge E1b%Z.ltb_ge]. apply orb_false_iff in E2 as [E2%Z.eqb_neq _].
  assert (Hsz : 0 < map_size s < 2 ^ 64) by (pose proof (u64_range (page_end s - page_start s)); unfold map_size in *; lia).
  cbn [host_mmap] in Hm. set (h1 := mkhost _ _ _ _ _ _) in Hm.
  assert (Hold : forall b o, b < h_next h -> h_bytes h1 b o = h_bytes h b o) by (intros b o Hb; cbn; by rewrite upd_block_ne by lia).
  assert (Hnew : forall o, h_bytes h1 (h_next h) o = 0) by (intros o; cbn; unfold upd_block; by rewrite Z.eqb_refl).
  destruct (0 <? s_filesz s); [|injection Hm as <- <-; split_and!; [done|intros _ o _; apply Hnew|intros mp [= <-]; cbn [m_data m_size]; split_and!; [cbn; lia|done|done|lia]]].
  destruct (pread f (s_offset s) (s_filesz s)) as [bs|] eqn:Ep; [|injection Hm as <- <-; split_and!; [done|intros _ o _; apply Hnew|done]].
  unfold pread in Ep. destruct (_ || _) eqn:E3 in Ep; [done|]. injection Ep as <-.
  apply orb_false_iff in E3 as [_ E3%Z.leb_gt].
  pose proof (slice_length f (s64 (s_offset s)) (s_filesz s)) as Hlen. unfold in_u64 in *. rewrite Z.max_r in Hlen by lia.
  set (bs := slice _ _ _) in *.
  assert (Hho : 0 <= head_off s < PAGE).
  { unfold head_off, page_start. rewrite page_down_eq by done. unfold PAGE. pose proof (Z.mod_pos_bound (s_vaddr s) 0x1000). lia. }
  rewrite uwrap_small in E1b by (unfold PAGE, in_u64 in *; lia).
  assert (H2 : forall b o, b < h_next h -> h_bytes (put_block h1 (padd (h_next h, 0) (head_off s)) bs) b o = h_bytes h b o).
  { intros b o Hb. rewrite put_block_other by (cbn; lia). by apply Hold. }
  assert (H3 : forall o, ~ (0 <= o < map_size s) -> h_bytes (put_block h1 (padd (h_next h, 0) (head_off s)) bs) (h_next h) o = 0).
  { intros o Ho. rewrite (put_block_outside h1 (padd (h_next h, 0) (head_off s))) by (unfold padd; cbn [fst snd]; lia). apply Hnew. }
  destruct (has_size (s_filesz s) bs); injection Hm as <- <-; split_and!; try done.
  intros mp [= <-]. cbn [m_data m_size]. split_and!; [cbn; lia|done|done|lia].
Qed.

(** What every outcome keeps: segments are only added, and the bytes of the host
    memory there was. *)
Record grown (m m' : mmem) : Prop := {
  gr_maps : maps m ⊆+ maps m';
  gr_next : h_next (hst m) <= h_next (hst m');
  gr_bytes : forall b o, b < h_next (hst m) -> h_bytes (hst m') b o = h_bytes (hst m) b o
}.

#[export] Instance grown_preorder : PreOrder grown.
Proof.
  split.
  - intros m. by split.
  - intros m1 m2 m3 [A1 A2 A3] [B1 B2 B3]. split; [by etransitivity|lia|]. intros b o Hb. by rewrite B3, A3 by lia.
Qed.

Lemma map_segment_grown {env : HostEnv} (s : Seg) (f : list Z) (m : mmem) (r : option memmap) (h' : host) :
  map_segment s f (hst m) = (r, h') -> grown m (set_host m h').
Proof.
  unfold map_segment. destruct (_ || _); [intros [= <- <-]; by destruct m|]. destruct (_ || _); [intros [= <- <-]; by destruct m|].
  cbn [host_mmap]. set (h1 := mkhost _ _ _ _ _ _).
  assert (Hg : forall h2, h_next h2 = h_next (hst m) + 1 ->
    (forall b o, b < h_next (hst m) -> h_bytes h2 b o = h_bytes h1 b o) -> grown m (set_host m h2)).
  { intros h2 Hn Hb. split; [done|cbn; lia|]. intros b o Hlt. cbn [hst set_host]. rewrite Hb by done. cbn. by rewrite upd_block_ne by lia. }
  assert (Hp : forall bs b o, b < h_next (hst m) -> h_bytes (put_block h1 (padd (h_next (hst m), 0) (head_off s)) bs) b o = h_bytes h1 b o).
  { intros bs b o Hb. apply put_block_other. cbn. lia. }
  destruct (0 <? s_filesz s); [|intros [= <- <-]; by apply Hg].
  destruct (pread _ _ _); [|intros [= <- <-]; by apply Hg].
  destruct (has_size _ _); intros [= <- <-]; apply Hg; (done || apply Hp).
Qed.

Lemma map_segs_grown {env : HostEnv} (root : string) (extra : Z) (files : list ElfFile) (l : list Seg) (m m' : mmem) (ok : bool) :
  map_segs root extra files l m = (ok, m') -> grown m m'.
Proof.
  revert m. induction l as [|s r IH]; intros m; cbn [map_segs]; [by intros [= <- <-]|].
  destruct (files !! s_file s) as [ef|]; [|by intros [= <- <-]].
  destruct (map_segment s (ef_file ef) (hst m)) as [[mp|] h'] eqn:E.
  - intros H. apply IH in H. transitivity (set_host m h'); [by eapply map_segment_grown|]. etransitivity; [|exact H].
    split; [|done..]. cbn [maps addmem flush_tlb set_host]. rewrite insert_map_perm. by apply submseteq_cons.
  - intros [= <- <-]. by eapply map_segment_grown.
Qed.

(** C29: a load that fails says why and leaves the program's memory alone.  In
    every outcome, for every file, no segment is removed and no byte of existing
    memory changes; an error comes with entry 0 and is ENOEXEC, ENOENT or the
    error the host gave for opening the dynamic linker. *)
Theorem load_elf_failure {env : HostEnv} {lib : HostLib} (root path : string) (f : list Z) (envp : list (string * string))
    (m m' : mmem) (info : ElfLoadInfo) (Hl : load_elf root f path envp m = Some (info, m')) :
  grown m m' /\
  (li_err info <> 0 ->
    li_entry info = 0 /\ (li_err info = ENOEXEC \/ li_err info = ENOENT \/ exists p, lib_open p = inl (li_err info))).
Proof.
  revert Hl. unfold load_elf. destruct (read_ehdr f) as [r|eh]; [intros [= <- <-]; split; [done|cbn; auto]|].
  destruct (validate_ehdr eh); cbn [negb]; [|intros [= <- <-]; split; [done|cbn; auto]].
  destruct (find_interp f (phdrs f eh)) as [| |ip]; [|done|].
  - unfold load_elf_static. destruct (layout_module _ _ _ _) as [[n base] segs].
    destruct (_ || _); [intros [= <- <-]; split; [done|cbn; auto]|].
    destruct (map_segs _ _ _ _ _) as [[] m1] eqn:E; intros [= <- <-]; apply map_segs_grown in E; (split; [done|]); cbn; [done|auto].
  - unfold load_elf_ldso. destruct (String.eqb _ _); [intros [= <- <-]; split; [done|cbn; auto]|].
    destruct (lib_open _) as [e|g] eqn:Eo.
    { intros [= <- <-]. split; [done|]. cbn. intros _. split; [done|]. destruct (e =? 0); [auto|]. right. right. by eexists. }
    destruct (read_ehdr g) as [?|leh]; [intros [= <- <-]; split; [done|cbn; auto]|].
    destruct (layout_pair _ _) as [[b0 b1] segs]. destruct (_ || _); [intros [= <- <-]; split; [done|cbn; auto]|].
    destruct (map_segs _ _ _ _ _) as [[] m1] eqn:E; intros [= <- <-]; apply map_segs_grown in E; (split; [done|]); cbn; [done|auto].
Qed.

(** ** Examples *)

Definition ehdr_bytes (type entry phnum : Z) : list Z :=
  ELFMAG ++ [2; 1; 1] ++ replicate 9 0 ++ le_bytes 2 type ++ le_bytes 2 EM_BPF ++ le_bytes 4 1 ++ le_bytes 8 entry ++
  le_bytes 8 64 ++ le_bytes 8 0 ++ le_bytes 4 0 ++ le_bytes 2 64 ++ le_bytes 2 56 ++ le_bytes 2 phnum ++ replicate 6 0.
Definition phdr_bytes (ph : Elf64_Phdr) : list Z :=
  le_bytes 4 (p_type ph) ++ le_bytes 4 (p_flags ph) ++ le_bytes 8 (p_offset ph) ++ le_bytes 8 (p_vaddr ph) ++ le_bytes 8 0 ++
  le_bytes 8 (p_filesz ph) ++ le_bytes 8 (p_memsz ph) ++ le_bytes 8 0x1000.

(** A static program: eight bytes of text and a variable with a tail of zeros. *)
Definition demo_elf : list Z :=
  ehdr_bytes ET_EXEC 0x10000b0 2 ++
  phdr_bytes (mkphdr PT_LOAD (Z.lor PF_R PF_X) 0 0x1000000 184 184) ++
  phdr_bytes (mkphdr PT_LOAD (Z.lor PF_R PF_W) 184 0x10010b8 4 32) ++
  [0x95; 0; 0; 0; 0; 0; 0; 0] ++ [1; 2; 3; 4].

Definition demo_lib : HostLib :=
  {| lib_readable := fun p => String.eqb p "/srv/tools/ld.so"; lib_open := fun _ => inl 2; lib_string_throws := fun n => 2 ^ 63 <=? n |}.

Definition empty_host : host := mkhost (fun _ _ => 0) (fun _ _ => 0) 0 ∅ 0 [].
Definition fresh_mem : mmem := mkmmem ∅ [] empty_host.

Lemma fresh_mem_wf : mem_wf fresh_mem.
Proof.
  constructor.
  - split; constructor.
  - intros i e H. unfold fresh_mem in H. cbn [tlb] in H. by rewrite lookup_empty in H.
  - constructor.
  - intros b o. cbn. lia.
Qed.

Lemma fresh_mem_share : share_ok (hst fresh_mem) (maps fresh_mem ++ []).
Proof.
  constructor; by constructor.
Qed.

(** [t] for every element of a concrete list. *)
Ltac each_elem t := repeat (apply list.Forall_cons; split; [solve [t]|]); by apply list.Forall_nil.

Definition demo_elf_ehdr : Elf64_Ehdr := ehdr_of (take 64 demo_elf).
Definition demo_elf_segs : list Seg :=
  [mkseg 0 0x1000000 184 0 184 5; mkseg 0 0x10010b8 32 184 4 6].

Lemma demo_elf_bytes : Forall is_byte demo_elf.
Proof. vm_compute. each_elem ltac:(split; [discriminate|reflexivity]). Qed.

Lemma demo_seg_ok (s : Seg) : s ∈ demo_elf_segs -> seg_ok [mkelf "/bin/demo" demo_elf_ehdr demo_elf] s.
Proof.
  intros Hs. assert (s_file s = 0%nat) as E by (repeat (apply elem_of_cons in Hs as [->|Hs]; [done|]); by apply elem_of_nil in Hs).
  unfold seg_ok, seg_file. rewrite E. cbn [lookup list_lookup from_option ef_file]. split_and!; [by eexists| |apply demo_elf_bytes].
  repeat (apply elem_of_cons in Hs as [->|Hs]; [constructor; cbn; unfold PAGE; lia|]). by apply elem_of_nil in Hs.
Qed.

Lemma load_elf_image_witness : exists info m',
  @load_elf permissive_env demo_lib "" demo_elf "/bin/demo" [] fresh_mem = Some (info, m') /\ li_entry info = 0x10000b0 /\
  gbyte m' 0x10000b0 = Some 0x95 /\ gbyte m' 0x10010bb = Some 4 /\ gbyte m' 0x10010c0 = Some 0.
Proof.
  destruct (@load_elf_image permissive_env demo_lib "" "/bin/demo" demo_elf demo_elf_ehdr [] fresh_mem [] 0x40000000 0 demo_elf_segs)
    as (info & m' & E & _ & _ & En & _ & _ & G & _).
  - reflexivity.
  - apply fresh_mem_wf.
  - apply fresh_mem_share.
  - vm_compute. reflexivity.
  - reflexivity.
  - vm_compute. reflexivity.
  - vm_compute. reflexivity.
  - discriminate.
  - apply list.Forall_forall. apply demo_seg_ok.
  - apply list.Forall_forall. intros s _. by apply list.Forall_nil.
  - split; [|split; [by apply list.Forall_nil|exact I]]. apply list.Forall_cons. split; [|by apply list.Forall_nil].
    left. vm_compute. discriminate.
  - exists info, m'. split; [exact E|]. split; [exact En|]. split_and!.
    + apply (G (mkseg 0 0x1000000 184 0 184 5) 0xb0); [by left|cbn; lia].
    + apply (G (mkseg 0 0x10010b8 32 184 4 6) 3); [by right; left|cbn; lia].
    + apply (G (mkseg 0 0x10010b8 32 184 4 6) 8); [by right; left|cbn; lia].
Defined.

(** Sizes chosen so that every sum wraps: the check passes, the host refuses to
    read so much, and the mapping is given back. *)
Definition wild_seg : Seg := mkseg 0 0xfff (2 ^ 64 - 1) 0 (2 ^ 64 - 1) 6.

Lemma map_segment_bounds_witness :
  map_size wild_seg = PAGE /\ (@map_segment permissive_env wild_seg [1; 2; 3] empty_host).1 = None /\
  h_bytes (@map_segment permissive_env wild_seg [1; 2; 3] empty_host).2 0 PAGE = 0.
Proof.
  assert (E : (@map_segment permissive_env wild_seg [1; 2; 3] empty_host).1 = None) by (vm_compute; reflexivity).
  assert (N : 0 < h_next (@map_segment permissive_env wild_seg [1; 2; 3] empty_host).2) by (vm_compute; reflexivity).
  split; [reflexivity|]. split; [exact E|].
  destruct (@map_segment permissive_env wild_seg [1; 2; 3] empty_host) as [r h'] eqn:Em. cbn [fst snd] in *.
  refine (proj1 (proj2 (@map_segment_bounds permissive_env wild_seg [1; 2; 3] empty_host h' r _ Em)) _ PAGE _).
  - unfold seg_words, in_u64. cbn. lia.
  - exact N.
  - unfold PAGE. change (map_size wild_seg) with 0x1000. lia.
Defined.

Lemma load_elf_failure_witness : exists info m',
  @load_elf permissive_env demo_lib "" (take 180 demo_elf) "/bin/demo" [] fresh_mem = Some (info, m') /\
  li_err info = ENOEXEC /\ li_entry info = 0 /\ h_next (hst m') = 1.
Proof.
  assert (Ex : match @load_elf permissive_env demo_lib "" (take 180 demo_elf) "/bin/demo" [] fresh_mem with
    Some (i, m) => li_err i = ENOEXEC /\ h_next (hst m) = 1 | None => False end) by (vm_compute; split; reflexivity).
  destruct (@load_elf permissive_env demo_lib "" (take 180 demo_elf) "/bin/demo" [] fresh_mem) as [[info m']|] eqn:E; [|destruct Ex].
  destruct Ex as [E1 E2]. exists info, m'. split; [reflexivity|]. split; [exact E1|]. split; [|exact E2].
  refine (proj1 (proj2 (@load_elf_failure permissive_env demo_lib "" "/bin/demo" (take 180 demo_elf) [] fresh_mem m' info E) _)).
  rewrite E1. discriminate.
Defined.

(** A program and a linker of one segment each. *)
Definition pie_elf (v n : Z) : list Z :=
  ehdr_bytes ET_DYN (v + 0x80) 1 ++ phdr_bytes (mkphdr PT_LOAD (Z.lor PF_R PF_X) 0 v n n) ++ replicate (Z.to_nat (n - 120)) 7.
Definition pie_file (v n : Z) : ElfFile := mkelf "/bin/pie" (ehdr_of (take 64 (pie_elf v n))) (pie_elf v n).

Lemma ldso_above_program_witness : exists s0 s1,
  layout_pair (pie_file 0x1000 200) (pie_file 0 300) = (0x40000000, 0x40001000, [s0; s1]) /\ page_end s0 <= page_start s1.
Proof.
  destruct (layout_pair (pie_file 0x1000 200) (pie_file 0 300)) as [[b0 b1] segs] eqn:E.
  pose proof E as E'. vm_compute in E'. injection E' as <- <- <-.
  destruct (ldso_above_program (pie_file 0x1000 200) (pie_file 0 300) 0x40000000 0x40001000 _ eq_refl eq_refl
    ltac:(apply list.Forall_cons; split; [vm_compute; repeat split; discriminate || reflexivity|by apply list.Forall_nil])
    ltac:(apply list.Forall_cons; split; [vm_compute; repeat split; discriminate || reflexivity|by apply list.Forall_nil])
    ltac:(discriminate) ltac:(discriminate) ltac:(vm_compute; discriminate) E) as (s0 & s1 & Es & F0 & F1 & _ & F).
  apply Forall2_length in F0, F1. destruct s0 as [|x0 [|]]; [discriminate F0| |discriminate F0].
  destruct s1 as [|x1 [|]]; [discriminate F1| |discriminate F1].
  exists x0, x1. split; [by rewrite Es|]. apply Forall_inv in F. by apply Forall_inv in F.
Defined.

(** ** Corners *)

(** The base of a position-independent program is the address of its lowest
    segment, not the distance it was moved by: a program whose segments start at
    0x1000 is entered 0x1000 too high, here where nothing is mapped, while its
    first instruction is at 0x40000080. *)
Lemma pie_entry_too_high :
  exists info m', @load_elf permissive_env demo_lib "" (pie_elf 0x1000 200) "/bin/pie" [] fresh_mem = Some (info, m') /\
    li_entry info = 0x40001080 /\ gbyte m' 0x40001080 = None /\ gbyte m' 0x40000080 = Some 7.
Proof. eexists _, _. split; [vm_compute; reflexivity|]. split_and!; vm_compute; reflexivity. Qed.

(** Two segments on one page pass the check for overlaps, and both map the page:
    the table has two segments for one address. *)
Definition tight_segs : list Seg := [mkseg 0 0x1000 0x100 0 0x100 5; mkseg 0 0x1800 0x100 0 0x100 6].

Lemma shared_page_maps_twice :
  check_overlaps tight_segs = true /\
  (m_paddr <$> maps (map_segs (env := permissive_env) "" 0 [pie_file 0 300] tight_segs fresh_mem).2) = [0x1000; 0x1000].
Proof. split; vm_compute; reflexivity. Qed.

(** The dynamic linker is searched in the directories the program's environment
    names, outside the root. *)
Lemma interp_outside_root :
  @find_library demo_lib "/srv/jail" (lib_search_dirs_from_envp [("LD_LIBRARY_PATH", "/srv/tools")%string]) (file_name "/lib/ld.so") = "/srv/tools/ld.so"%string.
Proof. vm_compute. reflexivity. Qed.
