(* ===== verification/Discover.v ===== *)
(** * Discover: the instructions a compiled function covers

    [JitCompiler::discover_reachable] (jit/jit_compiler.cpp): from the entry of a
    function, a traversal with an explicit stack marks the instructions that can
    be reached without leaving the segment, the targets of backward jumps and the
    size of the loop bodies they close.  Instructions are indices relative to the
    entry; [prog i] is the instruction read at index [i].

    Main results: the traversal ends within [seg_limit] pops and marks exactly the
    instructions reachable in the control-flow graph; every cycle of that graph
    goes through a marked back-edge target; the interpreter only moves along the
    edges of the graph; and an instruction that falls through is followed, in the
    order of emission, by the instruction it falls through to. *)

From S2P Require Import Prelude HostMem AddrSpace Isa Vm Segments Frame SoftFp Interp.
From Stdlib Require Import Lia.
From stdpp Require Import base numbers list option relations.

Open Scope Z_scope.

(** ** The traversal *)

Record disc := mkdisc {
  d_reachable : list bool;       (** [reachable] *)
  d_back : list bool;            (** [back_edge_targets] *)
  d_edges : list (Z * Z);        (** [back_edges]: target and source *)
  d_max : Z;                     (** [max_reached] *)
  d_q : list Z                   (** the stack, its top first *)
}.

(** The results of [discover_reachable]. *)
Record discovered := mkdiscovered {
  reachable : list bool;
  back_edge_targets : list bool;
  loop_body_sizes : list Z;
  func_size : Z
}.

(** A [std::vector<bool>] read at an index. *)
Definition bat (l : list bool) (i : Z) : bool := default false (l !! Z.to_nat i).

Section Discover.
Context (prog : Z -> bpf_insn) (seg_limit : Z).

(** The two-slot load: its second slot is data. *)
Definition is_lddw (i : Z) : bool :=
  (insn_class (prog i) =? BPF_LD) && (insn_mode (prog i) =? BPF_IMM) &&
  (insn_width (prog i) =? BPF_DW).

Definition in_limit (i : Z) : bool := (0 <=? i) && (i <? seg_limit).

(** The lambda [enqueue]. *)
Definition enqueue (idx : Z) (d : disc) : disc :=
  if in_limit idx && negb (bat (d_reachable d) idx) then
    mkdisc (<[Z.to_nat idx := true]> (d_reachable d)) (d_back d) (d_edges d)
           (if d_max d <? idx then idx else d_max d) (idx :: d_q d)
  else d.

(** The lambda [jump]. *)
Definition jump (i target : Z) (d : disc) : disc :=
  if in_limit target then
    let d1 := if target <=? i
              then mkdisc (d_reachable d) (<[Z.to_nat target := true]> (d_back d))
                          (d_edges d ++ [(target, i)]) (d_max d) (d_q d)
              else d in
    enqueue target d1
  else d.

(** The targets of the jumps, in the [int] arithmetic of the code. *)
Definition off_target (i : Z) : Z := s32 (i + 1 + off (prog i)).
Definition imm_target (i : Z) : Z := s32 (i + 1 + imm (prog i)).

(** The [switch] on the class of instruction [i]. *)
Definition visit (i : Z) (d : disc) : disc :=
  let cls := insn_class (prog i) in
  let op := insn_op (prog i) in
  let next := i + 1 in
  if cls =? BPF_LD then enqueue (if is_lddw i then i + 2 else next) d
  else if cls =? BPF_JMP then
    if op =? BPF_JA then jump i (off_target i) d
    else if op =? BPF_CALL then enqueue next d
    else if op =? BPF_EXIT then d
    else enqueue next (jump i (off_target i) d)
  else if cls =? BPF_JMP32 then
    if op =? BPF_JA then jump i (imm_target i) d
    else enqueue next (jump i (off_target i) d)
  else enqueue next d.

(** The loop [while (!q.empty())]; [None] when [fuel] is used up. *)
Fixpoint disc_loop (fuel : nat) (d : disc) : option disc :=
  match d_q d with
  | [] => Some d
  | i :: q =>
    match fuel with
    | O => None
    | S k => disc_loop k (visit i (mkdisc (d_reachable d) (d_back d) (d_edges d) (d_max d) q))
    end
  end.

Definition disc_start : disc :=
  let n := Z.to_nat seg_limit in
  enqueue 0 (mkdisc (replicate n false) (replicate n false) [] (-1) []).

(** The largest body for each target, at least 1. *)
Definition body_sizes (n : nat) (edges : list (Z * Z)) : list Z :=
  fold_left (fun l e =>
    let body := snd e - fst e + 1 in
    if default 0 (l !! Z.to_nat (fst e)) <? body then <[Z.to_nat (fst e) := body]> l else l)
    edges (replicate n 1).

(** The last loop: the second slots of the reached [lddw]s are not emitted. *)
Definition drop_second (i : Z) (r : list bool) : list bool :=
  if bat r i && is_lddw i then <[Z.to_nat (i + 1) := false]> r else r.

Definition drop_seconds (n : nat) (r : list bool) : list bool :=
  fold_left (fun r i => drop_second (Z.of_nat i) r) (seq 0 (n - 1)) r.

Definition finish (d : disc) : discovered :=
  if d_max d <? 0 then mkdiscovered (d_reachable d) (d_back d) [] 0
  else
    let last := if (d_max d <? seg_limit - 1) && is_lddw (d_max d) then d_max d + 1 else d_max d in
    let n := Z.to_nat (last + 1) in
    mkdiscovered (drop_seconds n (take n (d_reachable d))) (take n (d_back d))
                 (body_sizes n (d_edges d)) (last + 1).

(** [discover_reachable]. *)
Definition discover_reachable : option discovered :=
  if seg_limit <=? 0 then Some (mkdiscovered [] [] [] 0)
  else d ← disc_loop (Z.to_nat seg_limit) disc_start; Some (finish d).

(** ** The control-flow graph *)

Definition falls_through (i : Z) : option Z :=
  let cls := insn_class (prog i) in
  let op := insn_op (prog i) in
  if cls =? BPF_LD then Some (if is_lddw i then i + 2 else i + 1)
  else if cls =? BPF_JMP then
    if (op =? BPF_JA) || (op =? BPF_EXIT) then None else Some (i + 1)
  else if cls =? BPF_JMP32 then if op =? BPF_JA then None else Some (i + 1)
  else Some (i + 1).

Definition jumps_to (i : Z) : option Z :=
  let cls := insn_class (prog i) in
  let op := insn_op (prog i) in
  if cls =? BPF_JMP then
    if (op =? BPF_CALL) || (op =? BPF_EXIT) then None else Some (off_target i)
  else if cls =? BPF_JMP32 then Some (if op =? BPF_JA then imm_target i else off_target i)
  else None.

(** An edge of the graph, inside the segment. *)
Definition edge (i j : Z) : Prop :=
  0 <= j < seg_limit /\ (jumps_to i = Some j \/ falls_through i = Some j).

Definition back_edge (i j : Z) : Prop := 0 <= j < seg_limit /\ jumps_to i = Some j /\ j <= i.

Definition reached (j : Z) : Prop := rtc edge 0 j.

(** ** The traversal marks the reachable instructions *)

Lemma in_limit_spec i : in_limit i = true <-> 0 <= i < seg_limit.
Proof. unfold in_limit. rewrite andb_true_iff, Z.leb_le, Z.ltb_lt. done. Qed.

Lemma bat_insert l i j :
  0 <= i < Z.of_nat (length l) -> 0 <= j ->
  bat (<[Z.to_nat i := true]> l) j = (i =? j) || bat l j.
Proof.
  intros Hi Hj. unfold bat. destruct (Z.eqb_spec i j) as [->|Hne]; cbn [orb].
  - by rewrite list_lookup_insert_eq by lia.
  - by rewrite list_lookup_insert_ne by lia.
Qed.

Lemma bat_insert_false l i j :
  0 <= i -> 0 <= j ->
  bat (<[Z.to_nat i := false]> l) j = negb (i =? j) && bat l j.
Proof.
  intros Hi Hj. unfold bat. destruct (Z.eqb_spec i j) as [->|Hne]; cbn [negb andb].
  - destruct (decide (Z.to_nat j < length l)%nat).
    + by rewrite list_lookup_insert_eq by lia.
    + by rewrite lookup_ge_None_2 by (rewrite length_insert; lia).
  - by rewrite list_lookup_insert_ne by lia.
Qed.

Lemma bat_range l i : bat l i = true -> (Z.to_nat i < length l)%nat.
Proof.
  unfold bat. destruct (l !! Z.to_nat i) eqn:E; [|done]. intros _. by eapply lookup_lt_Some.
Qed.

(** What the traversal keeps; [done] are the instructions already taken from
    the stack and visited. *)
Record disc_inv (d : disc) : Prop := {
  di_len : length (d_reachable d) = Z.to_nat seg_limit;
  di_blen : length (d_back d) = Z.to_nat seg_limit;
  di_reach : forall j, 0 <= j -> bat (d_reachable d) j = true -> reached j;
  di_zero : bat (d_reachable d) 0 = true;
  di_q : forall j, j ∈ d_q d -> 0 <= j < seg_limit /\ bat (d_reachable d) j = true;
  di_nodup : NoDup (d_q d);
  di_max : forall j, 0 <= j -> bat (d_reachable d) j = true -> j <= d_max d;
  di_max_in : 0 <= d_max d < seg_limit /\ bat (d_reachable d) (d_max d) = true;
  di_back : forall t, 0 <= t -> bat (d_back d) t = true <-> exists i, (t, i) ∈ d_edges d;
  di_edges : forall t i, (t, i) ∈ d_edges d ->
    0 <= i /\ bat (d_reachable d) i = true /\ i ∉ d_q d /\ back_edge i t
}.

(** The instructions whose edges have all been followed. *)
Definition followed (d : disc) (i : Z) : Prop :=
  (forall j, edge i j -> bat (d_reachable d) j = true) /\
  (forall t, back_edge i t -> (t, i) ∈ d_edges d).

Definition closed (d : disc) : Prop :=
  forall i, 0 <= i -> bat (d_reachable d) i = true -> i ∉ d_q d -> followed d i.

(** Pops left at most: what is on the stack and what is not marked yet. *)
Definition unmarked (l : list bool) : nat := length (filter (fun b => b = false) l).
Definition budget (d : disc) : nat := (unmarked (d_reachable d) + length (d_q d))%nat.

(** [d'] continues [d]: marks and edges are kept, every new mark is on the stack,
    no pop is used. *)
Record grows (d d' : disc) : Prop := {
  gr_mark : forall j, 0 <= j -> bat (d_reachable d) j = true -> bat (d_reachable d') j = true;
  gr_edges : forall e, e ∈ d_edges d -> e ∈ d_edges d';
  gr_new : forall j, 0 <= j -> bat (d_reachable d') j = true -> j ∉ d_q d' ->
    bat (d_reachable d) j = true /\ j ∉ d_q d;
  gr_budget : budget d' = budget d
}.

Lemma grows_refl d : grows d d.
Proof. by split. Qed.

Lemma grows_trans d1 d2 d3 : grows d1 d2 -> grows d2 d3 -> grows d1 d3.
Proof.
  intros [M1 E1 N1 B1] [M2 E2 N2 B2]. split.
  - auto.
  - auto.
  - intros j Hj Hm Hq. destruct (N2 j Hj Hm Hq). auto.
  - congruence.
Qed.

Lemma grows_followed d d' i : grows d d' -> followed d i -> followed d' i.
Proof.
  intros G [He Hb]. split.
  - intros j Hj. apply (gr_mark _ _ G); [destruct Hj; lia|]. auto.
  - intros t Ht. apply (gr_edges _ _ G). auto.
Qed.

Lemma unmarked_insert l i :
  l !! i = Some false -> S (unmarked (<[i := true]> l)) = unmarked l.
Proof.
  revert i. unfold unmarked. induction l as [|b l IH]; intros [|i] H; [done..| |].
  - injection H as ->. change (<[0%nat := true]> (false :: l)) with (true :: l).
    by rewrite (filter_cons_True _ false), filter_cons_False by done.
  - change (<[S i := true]> (b :: l)) with (b :: <[i := true]> l). destruct b.
    + rewrite !filter_cons_False by done. by apply IH.
    + rewrite !filter_cons_True by done. cbn [length]. f_equal. by apply IH.
Qed.

Lemma enqueue_marks idx d j :
  length (d_reachable d) = Z.to_nat seg_limit -> 0 <= j ->
  bat (d_reachable (enqueue idx d)) j = (in_limit idx && (idx =? j)) || bat (d_reachable d) j.
Proof.
  intros Hl Hj. unfold enqueue. destruct (in_limit idx) eqn:E; cbn [andb]; [|by rewrite orb_false_l].
  apply in_limit_spec in E. destruct (bat (d_reachable d) idx) eqn:Em; cbn [negb d_reachable].
  - destruct (Z.eqb_spec idx j) as [->|]; cbn; [by rewrite Em|done].
  - apply bat_insert; lia.
Qed.

Lemma enqueue_inv idx d :
  disc_inv d -> (0 <= idx < seg_limit -> reached idx) -> disc_inv (enqueue idx d).
Proof.
  intros I Hr. unfold enqueue. destruct (in_limit idx) eqn:E; cbn [andb]; [|done].
  apply in_limit_spec in E. destruct (bat (d_reachable d) idx) eqn:Em; cbn [negb]; [done|].
  destruct I as [L BL R Z0 Q ND M MI B Ed].
  assert (forall j, 0 <= j -> bat (<[Z.to_nat idx := true]> (d_reachable d)) j = (idx =? j) || bat (d_reachable d) j) as Hb.
  { intros j Hj. apply bat_insert; lia. }
  split; cbn [d_reachable d_back d_edges d_max d_q].
  - by rewrite length_insert.
  - done.
  - intros j Hj. rewrite Hb by done. destruct (Z.eqb_spec idx j) as [<-|]; cbn; auto.
  - rewrite Hb by done. by rewrite Z0, orb_true_r.
  - intros j Hj. apply elem_of_cons in Hj as [->|Hj].
    + rewrite Hb by lia. by rewrite Z.eqb_refl.
    + destruct (Q j Hj) as [Hj1 Hj2]. rewrite Hb by lia. by rewrite Hj2, orb_true_r.
  - constructor; [|done]. intros Hin. destruct (Q idx Hin). congruence.
  - intros j Hj. rewrite Hb by done. destruct (Z.eqb_spec idx j) as [<-|]; cbn; zcases; try lia; intros Hm; specialize (M j Hj Hm); lia.
  - zcases; [|split; [lia|]; rewrite Hb by lia; by rewrite (proj2 MI), orb_true_r].
    split; [lia|]. rewrite Hb by lia. by rewrite Z.eqb_refl.
  - exact B.
  - intros t i Hti. destruct (Ed t i Hti) as (Hi & Hm & Hq & Hbe). split_and!; [done| |  |done].
    + rewrite Hb by done. by rewrite Hm, orb_true_r.
    + rewrite elem_of_cons. intros [->|?]; [congruence|done].
Qed.

Lemma enqueue_grows idx d : length (d_reachable d) = Z.to_nat seg_limit -> grows d (enqueue idx d).
Proof.
  intros Hl. unfold enqueue. destruct (in_limit idx) eqn:E; cbn [andb]; [|apply grows_refl].
  apply in_limit_spec in E. destruct (bat (d_reachable d) idx) eqn:Em; cbn [negb]; [apply grows_refl|].
  split; cbn [d_reachable d_back d_edges d_max d_q].
  - intros j Hj Hm. rewrite bat_insert by lia. by rewrite Hm, orb_true_r.
  - done.
  - intros j Hj. rewrite bat_insert by lia. rewrite elem_of_cons. intros Hm Hq.
    destruct (Z.eqb_spec idx j); [subst; tauto|]. cbn in Hm. tauto.
  - unfold budget. cbn [d_reachable d_q length]. rewrite <- (unmarked_insert (d_reachable d) (Z.to_nat idx)); [lia|].
    unfold bat in Em. destruct (d_reachable d !! Z.to_nat idx) as [b|] eqn:El.
    + cbn in Em. by subst b.
    + apply lookup_ge_None in El. lia.
Qed.

(** A jump: the target is enqueued, a backward one recorded. *)
Lemma jump_inv i target d :
  disc_inv d -> 0 <= i -> bat (d_reachable d) i = true -> i ∉ d_q d ->
  jumps_to i = Some target ->
  disc_inv (jump i target d) /\ grows d (jump i target d) /\
  (0 <= target < seg_limit -> bat (d_reachable (jump i target d)) target = true) /\
  (0 <= target < seg_limit -> target <= i -> (target, i) ∈ d_edges (jump i target d)).
Proof.
  intros I Hi Hm Hq Hj. unfold jump. destruct (in_limit target) eqn:E.
  2:{ assert (~ (0 <= target < seg_limit)) by (rewrite <- in_limit_spec; congruence).
      split_and!; [done|apply grows_refl|tauto|tauto]. }
  pose proof (proj1 (in_limit_spec _) E) as Ht.
  set (d1 := if target <=? i then _ else d).
  assert (reached target) as Hrt.
  { eapply rtc_r; [by apply (di_reach d I i)|]. by split; [|left]. }
  assert (disc_inv d1 /\ grows d d1 /\ (target <= i -> (target, i) ∈ d_edges d1)) as (I1 & G1 & Hed).
  { unfold d1. destruct (Z.leb_spec target i) as [Hle|]; [|split_and!; [done|apply grows_refl|lia]].
    split_and!.
    - destruct I as [L BL R Z0 Q ND M MI B Ed]. split; cbn [d_reachable d_back d_edges d_max d_q]; auto.
      + by rewrite length_insert.
      + intros t Ht0. rewrite bat_insert by lia. rewrite orb_true_iff, B by done. split.
        * intros [Heq%Z.eqb_eq|[s Hs]]; [subst; exists i; set_solver|exists s; set_solver].
        * intros [s [Hs|Hs]%elem_of_app]; [eauto|]. apply list_elem_of_singleton in Hs. injection Hs as -> ->. left. by rewrite Z.eqb_refl.
      + intros t s [Hs|Hs]%elem_of_app; [auto|]. apply list_elem_of_singleton in Hs. injection Hs as -> ->.
        split_and!; done.
    - split; cbn [d_reachable d_back d_edges d_max d_q]; auto. intros e He. set_solver.
    - cbn. intros _. set_solver. }
  split_and!.
  - by apply enqueue_inv.
  - eapply grows_trans; [exact G1|]. apply enqueue_grows. apply (di_len _ I1).
  - intros _. rewrite enqueue_marks by first [apply (di_len _ I1) | lia].
    by rewrite E, Z.eqb_refl.
  - intros _ Hle. apply (gr_edges _ _ (enqueue_grows target d1 (di_len _ I1))). auto.
Qed.

Lemma visit_edges i d :
  visit i d =
  let d1 := match jumps_to i with Some t => jump i t d | None => d end in
  match falls_through i with Some n => enqueue n d1 | None => d1 end.
Proof.
  unfold visit, jumps_to, falls_through.
  destruct (insn_class (prog i) =? BPF_LD) eqn:E0; [zprops; by rewrite E0|].
  destruct (insn_class (prog i) =? BPF_JMP) eqn:E1.
  { destruct (insn_op (prog i) =? BPF_JA) eqn:E2; [zprops; by rewrite E2|].
    destruct (insn_op (prog i) =? BPF_CALL) eqn:E3; [zprops; by rewrite E3|].
    destruct (insn_op (prog i) =? BPF_EXIT) eqn:E4; done. }
  destruct (insn_class (prog i) =? BPF_JMP32); [|done].
  by destruct (insn_op (prog i) =? BPF_JA).
Qed.

Lemma visit_ok i d :
  disc_inv d -> 0 <= i -> bat (d_reachable d) i = true -> i ∉ d_q d ->
  disc_inv (visit i d) /\ grows d (visit i d) /\ followed (visit i d) i.
Proof.
  intros I Hi Hm Hq. rewrite visit_edges. cbn zeta.
  set (d1 := match jumps_to i with Some t => jump i t d | None => d end).
  assert (disc_inv d1 /\ grows d d1 /\
          forall t, jumps_to i = Some t -> 0 <= t < seg_limit ->
            bat (d_reachable d1) t = true /\ (t <= i -> (t, i) ∈ d_edges d1)) as (I1 & G1 & J1).
  { unfold d1. destruct (jumps_to i) as [t|] eqn:E; [|by split_and!; [|apply grows_refl|]].
    destruct (jump_inv i t d I Hi Hm Hq E) as (? & ? & ? & ?). split_and!; [done..|].
    intros t' Ht'. injection Ht' as <-. auto. }
  set (d2 := match falls_through i with Some n => enqueue n d1 | None => d1 end).
  assert (disc_inv d2 /\ grows d1 d2 /\
          forall n, falls_through i = Some n -> 0 <= n < seg_limit -> bat (d_reachable d2) n = true)
    as (I2 & G2 & J2).
  { unfold d2. destruct (falls_through i) as [n|] eqn:E; [|by split_and!; [|apply grows_refl|]].
    split_and!.
    - apply enqueue_inv; [done|]. intros Hn. eapply rtc_r; [by apply (di_reach d I i)|]. split; auto.
    - apply enqueue_grows, (di_len _ I1).
    - intros n' Hn' Hr. injection Hn' as <-. rewrite enqueue_marks by first [apply (di_len _ I1)|lia].
      by rewrite (proj2 (in_limit_spec n) Hr), Z.eqb_refl. }
  split_and!; [done|by eapply grows_trans|]. split.
  - intros j [Hr [Hj|Hj]]; [|by apply J2]. apply (gr_mark _ _ G2); [lia|]. by apply J1.
  - intros t (Hr & Hj & Hle). apply (gr_edges _ _ G2). by apply J1.
Qed.

(** Taking the top of the stack. *)
Definition pop (d : disc) (q : list Z) : disc :=
  mkdisc (d_reachable d) (d_back d) (d_edges d) (d_max d) q.

Lemma pop_inv d i q : disc_inv d -> d_q d = i :: q ->
  disc_inv (pop d q) /\ 0 <= i /\ bat (d_reachable d) i = true /\ i ∉ q.
Proof.
  intros [L BL R Z0 Q ND M MI B Ed] E. rewrite E in Q, ND. apply NoDup_cons in ND as [Hni ND].
  destruct (Q i ltac:(left)) as [Hi Hm]. split_and!; [|lia|done|done].
  split; cbn [pop d_reachable d_back d_edges d_max d_q]; auto.
  - intros j Hj. apply Q. by right.
  - intros t s Hs. destruct (Ed t s Hs) as (? & ? & Hq & ?). split_and!; [done..| |done].
    rewrite E in Hq. set_solver.
Qed.

Lemma disc_loop_ok fuel d :
  disc_inv d -> closed d -> (budget d <= fuel)%nat ->
  exists d', disc_loop fuel d = Some d' /\ disc_inv d' /\ closed d' /\ d_q d' = [].
Proof.
  revert d. induction fuel as [|fuel IH]; intros d I C Hb; cbn [disc_loop].
  - destruct (d_q d) as [|i q] eqn:E; [eauto|]. unfold budget in Hb. rewrite E in Hb. cbn in Hb. lia.
  - destruct (d_q d) as [|i q] eqn:E; [eauto|]. fold (pop d q).
    destruct (pop_inv d i q I E) as (Ip & Hi & Hm & Hq).
    destruct (visit_ok i (pop d q) Ip Hi Hm Hq) as (Iv & Gv & Fv).
    apply IH; [done| |].
    + intros j Hj Hmj Hqj. destruct (gr_new _ _ Gv j Hj Hmj Hqj) as [Hm1 Hq1].
      destruct (decide (j = i)) as [->|Hne]; [done|].
      apply (grows_followed _ _ j Gv). apply (C j Hj Hm1). rewrite E. cbn [pop d_q] in Hq1. set_solver.
    + rewrite (gr_budget _ _ Gv). unfold budget in *. rewrite E in Hb. cbn [pop d_reachable d_q length] in *. lia.
Qed.

Lemma unmarked_replicate n : unmarked (replicate n false) = n.
Proof. unfold unmarked. induction n; [done|]. cbn [replicate]. rewrite filter_cons_True by done. cbn. by rewrite IHn. Qed.

Lemma bat_replicate n j : bat (replicate n false) j = false.
Proof.
  unfold bat. destruct (decide (Z.to_nat j < n)%nat).
  - by rewrite lookup_replicate_2 by done.
  - by rewrite lookup_ge_None_2 by (rewrite length_replicate; lia).
Qed.

Lemma disc_start_ok : 0 < seg_limit ->
  disc_inv disc_start /\ closed disc_start /\ budget disc_start = Z.to_nat seg_limit.
Proof.
  intros Hs. set (d0 := mkdisc (replicate (Z.to_nat seg_limit) false) (replicate (Z.to_nat seg_limit) false) [] (-1) []).
  assert (length (d_reachable d0) = Z.to_nat seg_limit) as Hl by apply length_replicate.
  assert (disc_start = mkdisc (<[0%nat := true]> (d_reachable d0)) (d_back d0) [] 0 [0]) as Hst.
  { unfold disc_start, enqueue. fold d0. cbn [d_reachable d0]. rewrite bat_replicate.
    rewrite (proj2 (in_limit_spec 0)) by lia. done. }
  assert (forall j, 0 <= j -> bat (d_reachable disc_start) j = (0 =? j)) as Hm.
  { intros j Hj. unfold disc_start. fold d0. rewrite enqueue_marks by done.
    rewrite (proj2 (in_limit_spec 0)) by lia. cbn [d_reachable d0]. by rewrite bat_replicate, orb_false_r. }
  pose proof (enqueue_grows 0 d0 Hl) as G. split_and!.
  - split; rewrite ?Hst; cbn [d_reachable d_back d_edges d_max d_q].
    + rewrite length_insert. done.
    + apply length_replicate.
    + intros j Hj Hb. rewrite Hst in Hm. rewrite Hm in Hb by done. apply Z.eqb_eq in Hb as <-. apply rtc_refl.
    + rewrite Hst in Hm. by rewrite Hm.
    + intros j ->%list_elem_of_singleton. rewrite Hst in Hm. rewrite Hm by done. done.
    + apply NoDup_singleton.
    + intros j Hj Hb. rewrite Hst in Hm. rewrite Hm in Hb by done. lia.
    + rewrite Hst in Hm. rewrite Hm by done. done.
    + intros t Ht. cbn [d_back d0]. rewrite bat_replicate. split; [done|]. intros [i Hi]. set_solver.
    + intros t i Hi. set_solver.
  - intros j Hj Hb Hq. rewrite Hm in Hb by done. apply Z.eqb_eq in Hb as <-. rewrite Hst in Hq. set_solver.
  - unfold disc_start. fold d0. rewrite (gr_budget _ _ G). unfold budget. cbn [d_reachable d_q d0 length].
    rewrite unmarked_replicate. lia.
Qed.

(** The traversal ends and marks what is reachable. *)
Lemma traversal_ok : 0 < seg_limit ->
  exists d, disc_loop (Z.to_nat seg_limit) disc_start = Some d /\ disc_inv d /\
    (forall j, 0 <= j -> bat (d_reachable d) j = true <-> reached j) /\
    (forall t i, (t, i) ∈ d_edges d <-> 0 <= i /\ reached i /\ back_edge i t).
Proof.
  intros Hs. destruct (disc_start_ok Hs) as (I0 & C0 & B0).
  destruct (disc_loop_ok (Z.to_nat seg_limit) disc_start I0 C0 ltac:(lia)) as (d & E & I & C & Hq).
  assert (forall j, reached j -> 0 <= j /\ bat (d_reachable d) j = true) as Hr.
  { apply rtc_ind_r.
    - split; [lia|apply (di_zero _ I)].
    - intros j k _ Hjk [Hj0 IH]. split; [destruct Hjk; lia|].
      destruct (C j Hj0 IH ltac:(rewrite Hq; set_solver)) as [He _]. auto. }
  exists d. split_and!; [done|done| |].
  - intros j Hj. split; [by apply (di_reach _ I)|]. by intros [_ ?]%Hr.
  - intros t i. split.
    + intros Hi. destruct (di_edges _ I t i Hi) as (? & Hm & _ & ?). split_and!; [done| |done].
      by apply (di_reach _ I).
    + intros (Hi & [_ Hm]%Hr & Hb). apply (C i Hi Hm ltac:(rewrite Hq; set_solver)). done.
Qed.

(** ** The results *)

Definition drops (k : nat) (r : list bool) : list bool :=
  fold_left (fun r i => drop_second (Z.of_nat i) r) (seq 0 k) r.

Lemma drop_second_at i r j : 0 <= i -> 0 <= j ->
  bat (drop_second i r) j = bat r j && negb ((j =? i + 1) && bat r i && is_lddw i).
Proof.
  intros Hi Hj. unfold drop_second. destruct (bat r i && is_lddw i) eqn:E.
  - rewrite bat_insert_false by lia. rewrite <- andb_assoc, E, andb_true_r, (Z.eqb_sym (i + 1)). apply andb_comm.
  - by rewrite <- andb_assoc, E, andb_false_r, andb_true_r.
Qed.

Lemma drops_S k r : drops (S k) r = drop_second (Z.of_nat k) (drops k r).
Proof. unfold drops. by rewrite seq_S, fold_left_app. Qed.

Lemma drops_at k r j : 0 <= j ->
  bat (drops k r) j =
  bat r j && negb ((1 <=? j) && (j <=? Z.of_nat k) && bat (drops k r) (j - 1) && is_lddw (j - 1)).
Proof.
  revert j. induction k as [|k IH]; intros j Hj.
  - change (drops 0 r) with r. by assert ((1 <=? j) && (j <=? Z.of_nat 0) = false) as -> by
      (apply andb_false_iff; rewrite Z.leb_gt, Z.leb_gt; lia); rewrite andb_true_r.
  - rewrite drops_S, drop_second_at by lia. rewrite (IH j Hj).
    destruct (Z.leb_spec 1 j); cbn [andb negb].
    2:{ rewrite andb_true_r. assert (j =? Z.of_nat k + 1 = false) as -> by (apply Z.eqb_neq; lia).
        by rewrite andb_true_r. }
    rewrite drop_second_at by lia.
    assert (j - 1 =? Z.of_nat k + 1 = false \/ j = Z.of_nat k + 2) as [-> | ->] by (destruct (Z.eqb_spec (j - 1) (Z.of_nat k + 1)); [right; lia|by left]).
    + cbn [andb negb]. rewrite andb_true_r.
      destruct (Z.eqb_spec j (Z.of_nat k + 1)) as [->|Hne].
      * replace (Z.of_nat k + 1 - 1) with (Z.of_nat k) by lia.
        rewrite (proj2 (Z.leb_gt (Z.of_nat k + 1) (Z.of_nat k))), (proj2 (Z.leb_le _ (Z.of_nat (S k)))) by lia.
        cbn [andb negb]. by rewrite andb_true_r.
      * cbn [andb negb]. rewrite andb_true_r. f_equal. f_equal. f_equal. f_equal.
        apply eq_true_iff_eq. rewrite !Z.leb_le. lia.
    + rewrite (proj2 (Z.leb_gt _ (Z.of_nat k))), (proj2 (Z.leb_gt _ (Z.of_nat (S k)))) by lia.
      cbn [andb negb]. rewrite andb_true_r.
      by assert (Z.of_nat k + 2 =? Z.of_nat k + 1 = false) as -> by (apply Z.eqb_neq; lia); rewrite andb_true_r.
Qed.

Lemma bat_take n l j : bat (take n l) j = (Z.of_nat (Z.to_nat j) <? Z.of_nat n) && bat l j.
Proof.
  unfold bat. zcases; cbn [andb].
  - by rewrite lookup_take_lt by lia.
  - by rewrite lookup_take_ge by lia.
Qed.

(** The sizes: at least 1, at least every body, and one of them. *)
Lemma body_sizes_spec n edges t :
  (forall t i, (t, i) ∈ edges -> 0 <= t < Z.of_nat n) -> 0 <= t < Z.of_nat n ->
  exists m, body_sizes n edges !! Z.to_nat t = Some m /\ 1 <= m /\
    (forall i, (t, i) ∈ edges -> i - t + 1 <= m) /\
    (m = 1 \/ exists i, (t, i) ∈ edges /\ m = i - t + 1).
Proof.
  intros He Ht. unfold body_sizes. induction edges as [|[t' i] edges IH] using rev_ind.
  - exists 1. cbn. rewrite lookup_replicate_2 by lia. split_and!; [done|lia|set_solver|by left].
  - destruct IH as (m & Hm & H1 & Hle & Heq).
    { intros t0 i0 H0. apply (He t0 i0). set_solver. }
    rewrite fold_left_app. cbn [fold_left fst snd]. set (l := fold_left _ edges _) in *.
    pose proof (He t' i ltac:(set_solver)) as Ht'.
    destruct (decide (t' = t)) as [->|Hne].
    + rewrite Hm. cbn [default]. unfold default, from_option, id. destruct (Z.ltb_spec m (i - t + 1)).
      * exists (i - t + 1). apply lookup_lt_Some in Hm as Hlt. rewrite list_lookup_insert_eq by done.
        split_and!; [done|lia| |right; exists i; split; [set_solver|done]].
        intros i' [Hi|Hi]%elem_of_app; [specialize (Hle i' Hi); lia|].
        apply list_elem_of_singleton in Hi. injection Hi as ->. lia.
      * exists m. split_and!; [done|done| |].
        -- intros i' [Hi|Hi]%elem_of_app; [by apply Hle|].
           apply list_elem_of_singleton in Hi. injection Hi as ->. lia.
        -- destruct Heq as [|[i' [Hi' ->]]]; [by left|right; exists i'; split; [set_solver|done]].
    + exists m. split_and!; [|done| |].
      * destruct (_ <? _); [|done]. rewrite list_lookup_insert_ne by lia. done.
      * intros i' [Hi|Hi]%elem_of_app; [by apply Hle|].
        apply list_elem_of_singleton in Hi. injection Hi as -> ->. done.
      * destruct Heq as [|[i' [Hi' ->]]]; [by left|right; exists i'; split; [set_solver|done]].
Qed.

(** Instruction [j] is emitted. *)
Definition emitted (r : discovered) (j : Z) : Prop := 0 <= j /\ bat (reachable r) j = true.


Section Finish.
Context (d : disc) (I : disc_inv d).
Hypothesis marks : forall j, 0 <= j -> bat (d_reachable d) j = true <-> reached j.
Hypothesis backs : forall t i, (t, i) ∈ d_edges d <-> 0 <= i /\ reached i /\ back_edge i t.

Lemma reached_pos j : reached j -> 0 <= j.
Proof. unfold reached. revert j. apply rtc_ind_r; [lia|]. intros j k _ [? _] _. lia. Qed.

Lemma reached_max j : reached j -> 0 <= j <= d_max d.
Proof.
  intros Hj. pose proof (reached_pos j Hj). split; [done|].
  apply (di_max _ I j ltac:(lia)). by apply marks.
Qed.

Lemma finish_span :
  exists n, (0 < n)%nat /\ d_max d < Z.of_nat n <= seg_limit /\
    finish d = mkdiscovered (drops (n - 1) (take n (d_reachable d))) (take n (d_back d))
                            (body_sizes n (d_edges d)) (Z.of_nat n).
Proof.
  pose proof (di_max_in _ I) as [Hmx _]. unfold finish. destruct (Z.ltb_spec (d_max d) 0); [lia|].
  set (last := if _ && _ then d_max d + 1 else d_max d).
  assert (d_max d <= last < seg_limit) as Hlast.
  { unfold last. destruct (Z.ltb_spec (d_max d) (seg_limit - 1)); cbn [andb]; [destruct (is_lddw _)|]; lia. }
  exists (Z.to_nat (last + 1)). split_and!; [lia..|]. f_equal. lia.
Qed.

Lemma drops_emitted n j : d_max d < Z.of_nat n -> (0 < n)%nat ->
  let R := drops (n - 1) (take n (d_reachable d)) in
  0 <= j /\ bat R j = true <->
  reached j /\ ~ ((0 <= j - 1 /\ bat R (j - 1) = true) /\ is_lddw (j - 1) = true).
Proof.
  intros Hn Hn0 R.
  assert (forall k, 0 <= k -> bat (take n (d_reachable d)) k = bat (d_reachable d) k) as Htk.
  { intros k Hk. rewrite bat_take. zcases; cbn [andb]; [done|].
    destruct (bat (d_reachable d) k) eqn:Ek; [|done]. pose proof (di_max _ I k Hk Ek). lia. }
  split.
  - intros [Hj Hb]. unfold R in Hb. rewrite drops_at, Htk in Hb by done.
    apply andb_true_iff in Hb as [Hb1 Hb2]. split; [by apply marks|]. intros [[Hj1 Hb3] Hl].
    fold R in Hb2. rewrite Hb3, Hl in Hb2. pose proof (di_max _ I j Hj Hb1).
    rewrite (proj2 (Z.leb_le 1 j)), (proj2 (Z.leb_le j _)) in Hb2 by lia. done.
  - intros [Hr Hnot]. pose proof (reached_pos j Hr) as Hj. split; [done|]. apply (marks j Hj) in Hr as Hb.
    unfold R. rewrite drops_at, Htk by done. fold R. rewrite Hb. cbn [andb].
    apply negb_true_iff. destruct (1 <=? j) eqn:E1; [|done]. cbn [andb]. zprops.
    destruct (j <=? _); [|done]. cbn [andb]. apply not_true_iff_false. intros [? ?]%andb_true_iff.
    apply Hnot. split; [|done]. split; [lia|done].
Qed.

Lemma take_back n t : d_max d < Z.of_nat n -> 0 <= t ->
  bat (take n (d_back d)) t = true <-> exists i, reached i /\ back_edge i t.
Proof.
  intros Hn Ht. rewrite bat_take. zcases; cbn [andb].
  - rewrite (di_back _ I t Ht). setoid_rewrite backs.
    split; intros [i Hi]; exists i; [tauto|]. split; [apply reached_pos, Hi|done].
  - split; [done|]. intros (i & Hi & (Hr & Hj & Hle)). pose proof (reached_max i Hi). lia.
Qed.

Lemma sizes_spec n t : d_max d < Z.of_nat n -> 0 <= t < Z.of_nat n ->
  exists m, body_sizes n (d_edges d) !! Z.to_nat t = Some m /\ 1 <= m /\
    (forall i, reached i -> back_edge i t -> i - t + 1 <= m) /\
    (m = 1 \/ exists i, reached i /\ back_edge i t /\ m = i - t + 1).
Proof.
  intros Hn Ht. destruct (body_sizes_spec n (d_edges d) t) as (m & Hl & H1 & Hle & Hex); [|done|].
  - intros t' i Hti. apply backs in Hti as (Hi & Hr & (Hr' & _ & Hle)). pose proof (reached_max i Hr). lia.
  - exists m. split_and!; [done|done| |].
    + intros i Hi Hb. apply Hle, backs. split; [by apply reached_pos|done].
    + destruct Hex as [|[i [Hi ->]]]; [by left|right]. apply backs in Hi as (? & ? & ?). eauto.
Qed.

End Finish.

End Discover.

(** C30: [discover_reachable] ends within [seg_limit] pops of its stack, and its
    results are what their names say: exactly the instructions reachable from the
    entry are emitted, less the data slots of the two-slot loads; exactly the
    targets of the reachable backward jumps are loop headers, with the longest
    body they close; and the function spans all reachable instructions. *)
Theorem discover_exact prog seg_limit :
  0 < seg_limit ->
  exists r, discover_reachable prog seg_limit = Some r /\
    0 < func_size r <= seg_limit /\
    (forall j, reached prog seg_limit j -> 0 <= j < func_size r) /\
    (forall j, emitted r j <->
       reached prog seg_limit j /\ ~ (emitted r (j - 1) /\ is_lddw prog (j - 1) = true)) /\
    (forall t, 0 <= t -> bat (back_edge_targets r) t = true <->
       exists i, reached prog seg_limit i /\ back_edge prog seg_limit i t) /\
    (forall t, 0 <= t < func_size r -> exists m, loop_body_sizes r !! Z.to_nat t = Some m /\ 1 <= m /\
       (forall i, reached prog seg_limit i -> back_edge prog seg_limit i t -> i - t + 1 <= m) /\
       (m = 1 \/ exists i, reached prog seg_limit i /\ back_edge prog seg_limit i t /\ m = i - t + 1)).
Proof.
  intros Hs. destruct (traversal_ok prog seg_limit Hs) as (d & E & I & Hm & He).
  destruct (finish_span prog seg_limit d I) as (n & Hn0 & Hn & Ef).
  exists (finish prog seg_limit d). split_and!.
  { unfold discover_reachable. destruct (Z.leb_spec seg_limit 0); [lia|]. by rewrite E. }
  all: rewrite Ef; cbn [reachable back_edge_targets loop_body_sizes func_size].
  1, 2: lia.
  - intros j Hj. pose proof (reached_max prog seg_limit d I Hm j Hj). lia.
  - intros j. unfold emitted. cbn [reachable]. apply (drops_emitted prog seg_limit d I Hm n j); [lia|done].
  - intros t Ht. apply (take_back prog seg_limit d I Hm He n t); [lia|done].
  - intros t Ht. apply (sizes_spec prog seg_limit d I Hm He n t); [lia|done].
Qed.

(** ** Cycles and the order of emission *)

Section Layout.
Context (prog : Z -> bpf_insn) (seg_limit : Z).

Lemma falls_through_up i n : falls_through prog i = Some n -> i < n <= i + 2.
Proof. unfold falls_through. intros H. repeat case_match; simplify_eq; lia. Qed.

Lemma edge_up_or_back i j : edge prog seg_limit i j -> i < j \/ back_edge prog seg_limit i j.
Proof.
  intros [Hr [Hj|Hf]].
  - destruct (Z.le_gt_cases j i); [by right|left; lia].
  - left. apply falls_through_up in Hf. lia.
Qed.

(** A path goes up or takes a backward jump. *)
Lemma path_up_or_back i j : tc (edge prog seg_limit) i j ->
  i < j \/ exists s t, rtc (edge prog seg_limit) i s /\ back_edge prog seg_limit s t /\
                       rtc (edge prog seg_limit) t j.
Proof.
  induction 1 as [i j He|i k j He Hp IH].
  - destruct (edge_up_or_back i j He) as [|Hb]; [by left|right; exists i, j; by split_and!].
  - destruct (edge_up_or_back i k He) as [Hlt|Hb].
    + destruct IH as [?|(s & t & Hs & Hb & Ht)]; [left; lia|right; exists s, t].
      split_and!; [by eapply rtc_l|done|done].
    + right. exists i, k. split_and!; [done|done|by apply tc_rtc].
Qed.

End Layout.


(** The emitted code is in the order execution falls through it: after an
    emitted instruction that falls through to [n] inside the segment, the next
    instruction emitted is [n]. *)
Theorem fall_through_layout prog seg_limit r i n :
  discover_reachable prog seg_limit = Some r ->
  emitted r i -> falls_through prog i = Some n -> n < seg_limit ->
  emitted r n /\ forall k, i < k < n -> ~ emitted r k.
Proof.
  intros E Hi Hf Hn. pose proof (falls_through_up _ _ _ Hf) as Hup.
  assert (0 < seg_limit) as Hs by (destruct Hi; lia).
  destruct (discover_exact prog seg_limit Hs) as (r' & E' & _ & Hsp & Hem & _). simplify_eq.
  apply Hem in Hi as Hi'. destruct Hi' as [Hri _].
  assert (reached prog seg_limit n) as Hrn.
  { eapply rtc_r; [exact Hri|]. split; [|by right]. destruct Hi; lia. }
  destruct (is_lddw prog i) eqn:El.
  - assert (n = i + 2) as -> by (unfold falls_through, is_lddw in Hf, El; repeat case_match; simplify_eq; zprops; congruence).
    assert (~ emitted r (i + 1)) as Hn1.
    { intros [_ Hx]%Hem. apply Hx. by replace (i + 1 - 1) with i by lia. }
    split.
    + apply Hem. split; [done|]. replace (i + 2 - 1) with (i + 1) by lia. tauto.
    + intros k Hk. by assert (k = i + 1) as -> by lia.
  - assert (n = i + 1) as ->.
    { unfold falls_through in Hf. rewrite El in Hf. repeat case_match; simplify_eq; done. }
    split; [|lia]. apply Hem. split; [done|]. replace (i + 1 - 1) with i by lia. intros [_ ?]. congruence.
Qed.

(** An instruction that falls through the end of the segment is the last one
    emitted: no code follows the code of that instruction. *)
Lemma end_of_segment_runs_off prog seg_limit r i n :
  discover_reachable prog seg_limit = Some r ->
  emitted r i -> falls_through prog i = Some n -> seg_limit <= n ->
  forall k, i < k -> ~ emitted r k.
Proof.
  intros E Hi Hf Hn k Hk Hek. pose proof (falls_through_up _ _ _ Hf) as Hup.
  destruct (Z.le_gt_cases seg_limit 0) as [Hs|Hs].
  { unfold discover_reachable in E. destruct (Z.leb_spec seg_limit 0); [|lia]. injection E as <-.
    destruct Hi as [_ Hi]. unfold bat in Hi. cbn [reachable] in Hi. by rewrite lookup_nil in Hi. }
  destruct (discover_exact prog seg_limit ltac:(lia)) as (r' & E' & Hsz & Hsp & Hem & _). simplify_eq.
  apply Hem in Hek as Hk'. destruct Hk' as [Hrk Hns]. pose proof (Hsp k Hrk).
  assert (k = i + 1 /\ n = i + 2) as [-> ->] by lia. apply Hns. replace (i + 1 - 1) with i by lia.
  split; [done|]. unfold falls_through in Hf. destruct (insn_class (prog i) =? BPF_LD); [|repeat case_match; simplify_eq; lia].
  destruct (is_lddw prog i); [done|]. simplify_eq. lia.
Qed.

(** ** The interpreter moves along the edges *)

Section Interpreted.
Context {S : Type} {env : HostEnv} {fp : HostFp}.
Context `{SyscallHandler S} `{DebugHooks S}.

Definition pc_is (c : Z) (v : vm S) : Prop := pc_ v = c.

(** Every primitive leaves the pc alone; the rest follows the code. *)
Ltac pcs :=
  unfold insn_at, r, set_r, mmuM, mmu_wM, load64, store64, loadM, storeM, get_flags, set_flags, pc;
  alw ltac:(by intros ? ?).

Lemma insn_at_pc c p : always (pc_is c) (insn_at p).
Proof. pcs. Qed.

Lemma walk_frames_pc c d sp : always (pc_is c) (walk_frames d sp).
Proof. revert sp. induction d as [|d IH]; intros sp; cbn [walk_frames]; pcs; apply IH. Qed.

Lemma log_mem_violation_pc c a : always (pc_is c) (log_mem_violation a).
Proof. unfold log_mem_violation. pcs. apply walk_frames_pc. Qed.

#[local] Hint Resolve log_mem_violation_pc : always.

Lemma store_reg_pc c cur x : always (pc_is c) (store_reg cur x).
Proof. unfold store_reg. pcs. Qed.

#[local] Hint Resolve store_reg_pc : always.

Lemma do_atomic_pc c p n op sr : always (pc_is c) (do_atomic p n op sr).
Proof. unfold do_atomic. pcs. Qed.

#[local] Hint Resolve do_atomic_pc : always.

Lemma ldx_pc c cur : always (pc_is c) (ldx cur).
Proof. unfold ldx. pcs. Qed.

Lemma stx_pc c cur : always (pc_is c) (stx cur).
Proof. unfold stx. pcs. Qed.

Lemma alu_pc c cur : always (pc_is c) (alu cur).
Proof. unfold alu. pcs. Qed.

Lemma alu64_pc c cur : always (pc_is c) (alu64 cur).
Proof. unfold alu64. pcs. Qed.

Lemma always_pc_Ok {A} (m : M S A) v x v' :
  (forall c, always (pc_is c) m) -> m v = Ok x v' -> pc_ v' = pc_ v.
Proof. intros Hm E. specialize (Hm (pc_ v) v eq_refl). by rewrite E in Hm. Qed.

Lemma jmp_moves p cur (v v' : vm S) :
  insn_op cur <> BPF_CALL -> insn_op cur <> BPF_EXIT -> jmp p cur v = Ok true v' ->
  (pc_ v' = u64 (pc_ v + off cur * INSN_SIZE)) \/ (pc_ v' = pc_ v /\ insn_op cur <> BPF_JA).
Proof.
  intros Hc He. unfold jmp. cbn zeta. intros E. minv E. minv E.
  assert (u = v) as -> by (destruct (insn_is_x cur); unfold bind, r, gets, ret in Hm; by simplify_eq).
  unfold r, gets in Hm0. simplify_eq.
  destruct (Z.eqb_spec (insn_op cur) BPF_JA) as [|Hja]; [unfold bind, add_pc, modify, ret in E; simplify_eq; by left|].
  destruct (Z.eqb_spec (insn_op cur) BPF_CALL); [done|].
  destruct (Z.eqb_spec (insn_op cur) BPF_EXIT); [done|].
  destruct (jmp_cond _ _ _) as [[|]|]; unfold bind, add_pc, modify, ret in E; simplify_eq; auto.
Qed.

Lemma jmp32_moves cur (v v' : vm S) : jmp32 cur v = Ok true v' ->
  if insn_op cur =? BPF_JA then pc_ v' = u64 (pc_ v + imm cur * INSN_SIZE)
  else pc_ v' = u64 (pc_ v + off cur * INSN_SIZE) \/ pc_ v' = pc_ v.
Proof.
  unfold jmp32. cbn zeta. intros E. minv E. minv E.
  assert (u = v) as -> by (destruct (insn_is_x cur); unfold bind, r, gets, ret in Hm; by simplify_eq).
  unfold r, gets in Hm0. simplify_eq.
  destruct (insn_op cur =? BPF_JA); [unfold bind, add_pc, modify, ret in E; by simplify_eq|].
  destruct (_ || _); [done|].
  destruct (jmp32_cond _ _ _) as [[|]|]; unfold bind, add_pc, modify, ret in E; simplify_eq; auto.
Qed.

Lemma ld_moves p cur (v v' : vm S) : ld p cur v = Ok true v' -> pc_ v' = u64 (pc_ v + INSN_SIZE).
Proof.
  unfold ld. destruct (10 <=? dst_reg cur); [done|]. intros E. minv E. minv E.
  cbv [pc gets] in Hm. simplify_eq. rewrite mmuM_eq in Hm0. simplify_eq.
  destruct (mmu _ _ _).1; [|minv E; done].
  minv E. minv E. minv E. apply (always_pc_Ok _ _ _ _ (fun c => insn_at_pc c _)) in Hm.
  cbv [set_r add_pc modify] in Hm0, Hm1. unfold ret in E. simplify_eq. cbn [pc_ set_reg set_pc set_mm] in *. congruence.
Qed.

End Interpreted.

Lemma s32_id z : - 2 ^ 31 <= z < 2 ^ 31 -> s32 z = z.
Proof. intros Hz. by apply sval_unique. Qed.

(** The graph is the interpreter's: when the interpreter executes the
    instruction at index [i] of a function (not a call, not an exit) and goes on,
    the program counter of its next step is that of a successor of [i]. *)
Theorem interpreter_follows_edges {S} {env : HostEnv} {fp : HostFp}
  `{SyscallHandler S} `{DebugHooks S} prog entry i p (v v' : vm S) :
  insn_ok (prog i) -> 0 <= i < 2 ^ 30 -> i + 1 + imm (prog i) < 2 ^ 31 ->
  (insn_class (prog i) = BPF_LD -> is_lddw prog i = true) ->
  (insn_class (prog i) = BPF_JMP -> insn_op (prog i) <> BPF_CALL /\ insn_op (prog i) <> BPF_EXIT) ->
  pc_ v = u64 (entry + i * INSN_SIZE) ->
  exec p (prog i) v = Ok true v' ->
  exists j, (jumps_to prog i = Some j \/ falls_through prog i = Some j) /\
    u64 (pc_ v' + INSN_SIZE) = u64 (entry + j * INSN_SIZE).
Proof.
  intros (_ & _ & _ & Ho & Hm) Hi Him Hld Hcall Hpc E.
  assert (forall d, u64 (u64 (pc_ v + d) + INSN_SIZE) = u64 (entry + i * INSN_SIZE + d + INSN_SIZE)) as Hadd.
  { intros d. rewrite Hpc, uwrap_add_l. rewrite <- Z.add_assoc, uwrap_add_l. f_equal. unfold INSN_SIZE. lia. }
  assert (u64 (pc_ v + INSN_SIZE) = u64 (entry + (i + 1) * INSN_SIZE)) as Hnext.
  { rewrite Hpc, uwrap_add_l. f_equal. unfold INSN_SIZE. lia. }
  unfold exec in E. unfold jumps_to, falls_through.
  destruct (Z.eqb_spec (insn_class (prog i)) BPF_LD) as [Hc|_].
  { rewrite Hc, Hld by done. apply ld_moves in E. exists (i + 2). split; [by right|].
    rewrite E, Hadd. f_equal. unfold INSN_SIZE. lia. }
  assert (pc_ v' = pc_ v -> u64 (pc_ v' + INSN_SIZE) = u64 (entry + (i + 1) * INSN_SIZE)) as Hsame by by intros ->.
  destruct (Z.eqb_spec (insn_class (prog i)) BPF_JMP) as [Hc|_].
  { rewrite Hc in E. cbn in E. destruct (Hcall Hc) as [Hc1 Hc2].
    rewrite (proj2 (Z.eqb_neq _ BPF_CALL) Hc1), (proj2 (Z.eqb_neq _ BPF_EXIT) Hc2). cbn [orb].
    destruct (jmp_moves _ _ _ _ Hc1 Hc2 E) as [Hv|[Hv Hja]].
    - exists (off_target prog i). split; [by left|]. unfold off_target. rewrite s32_id by lia.
      rewrite Hv, Hadd. f_equal. unfold INSN_SIZE. lia.
    - rewrite (proj2 (Z.eqb_neq _ BPF_JA) Hja). exists (i + 1). split; [by right|]. by apply Hsame. }
  destruct (Z.eqb_spec (insn_class (prog i)) BPF_JMP32) as [Hc|_].
  { rewrite Hc in E. cbn in E. apply jmp32_moves in E.
    destruct (insn_op (prog i) =? BPF_JA).
    - exists (imm_target prog i). split; [by left|]. unfold imm_target. rewrite s32_id by lia.
      rewrite E, Hadd. f_equal. unfold INSN_SIZE. lia.
    - destruct E as [E|E].
      + exists (off_target prog i). split; [by left|]. unfold off_target. rewrite s32_id by lia.
        rewrite E, Hadd. f_equal. unfold INSN_SIZE. lia.
      + exists (i + 1). split; [by right|]. by apply Hsame. }
  exists (i + 1). split; [by right|]. apply Hsame.
  repeat match type of E with (if ?b then _ else _) _ = _ => destruct b end; try done;
    eapply always_pc_Ok; try exact E; intros;
    eauto using ldx_pc, store_reg_pc, stx_pc, alu_pc, alu64_pc.
  all: unfold st; apply store_reg_pc.
Qed.

(** ** A small loop

    [r1 = 3; r2 = imm64; do r1 += -1 while (r1 != 0); exit]. *)

Definition demo_prog (i : Z) : bpf_insn :=
  nth (Z.to_nat i)
    [mkinsn 0xb7 1 0 0 3; mkinsn 0x18 2 0 0 7; mkinsn 0 0 0 0 9; mkinsn 0x07 1 0 0 (-1);
     mkinsn 0x55 1 0 (-2) 0; mkinsn 0x95 0 0 0 0] (mkinsn 0 0 0 0 0).

Definition demo_found : discovered :=
  mkdiscovered [true; true; false; true; true; true] [false; false; false; true; false; false]
               [1; 1; 1; 2; 1; 1] 6.

Lemma demo_discovers : discover_reachable demo_prog 6 = Some demo_found.
Proof. vm_compute. reflexivity. Qed.

Lemma demo_edges :
  edge demo_prog 6 0 1 /\ edge demo_prog 6 1 3 /\ edge demo_prog 6 3 4 /\ edge demo_prog 6 4 3.
Proof. repeat split; try lia; first [left; reflexivity | right; reflexivity]. Qed.

Lemma discover_exact_witness :
  0 < 6 /\ exists r, discover_reachable demo_prog 6 = Some r /\ 0 < func_size r <= 6.
Proof.
  split; [lia|]. destruct (discover_exact demo_prog 6 ltac:(lia)) as (r & E & Hs & _). by exists r.
Defined.


Lemma fall_through_layout_witness :
  emitted demo_found 1 /\ emitted demo_found 3 /\ (forall k, 1 < k < 3 -> ~ emitted demo_found k).
Proof.
  assert (emitted demo_found 1) as H1 by (split; [lia|reflexivity]). split; [exact H1|].
  apply (fall_through_layout demo_prog 6 demo_found 1 3 demo_discovers H1); [reflexivity|lia].
Defined.

Lemma interpreter_follows_edges_witness :
  let v := mkvm demo_options 0x1020 [0; 1; 0; 0; 0; 0; 0; 0; 0; 0; 0] 0 0 0 demo_vm_mem None 0 0 0 false tt [] [] in
  exists v' : vm unit, exists j,
    (jumps_to demo_prog 4 = Some j \/ falls_through demo_prog 4 = Some j) /\
    u64 (pc_ v' + INSN_SIZE) = u64 (0x1000 + j * INSN_SIZE).
Proof.
  intros v. exists (set_pc 0x1010 v).
  apply (interpreter_follows_edges (env := permissive_env) (fp := x86_fp) (H0 := NoHooks unit)
           demo_prog 0x1000 4 (0, 0) v (set_pc 0x1010 v)).
  - change (demo_prog 4) with (mkinsn 0x55 1 0 (-2) 0). unfold insn_ok. cbn [code dst_reg src_reg off imm]. lia.
  - lia.
  - vm_compute. reflexivity.
  - intros Hc. vm_compute in Hc. discriminate Hc.
  - intros _. vm_compute. split; discriminate.
  - reflexivity.
  - reflexivity.
Defined.
