(* ===== verification/Jit.v ===== *)
(** * Jit: the compiler driver

    jit/jit_compiler.cpp and jit/jit.h: the registry of compiled and failed
    entries with its shadow cache and hot counters ([JitCompiler::compile]), the
    translation of one instruction ([emit_instruction]), the patching of jumps,
    the code arenas ([finalize_code]), and the helpers compiled code calls.  The
    code emitters of the two processors are the interface [JitEmitter], as in
    jit/jit_compiler.h; A64 models one of them.

    Main results: the shadow cache always answers what the registry would, and a
    compiled entry stays compiled; after a successful compilation every branch of
    the emitted code goes to the code of its target instruction and every exit to
    the common exit; code is never written to a page that is already executable;
    a pc is compiled at its [threshold_]-th probe; the helpers for system calls
    and calls act as the interpreter does. *)

From S2P Require Import Prelude HostMem AddrSpace Isa Vm Segments Frame SoftFp Interp InterpFacts Discover.
From Stdlib Require Import Lia.
From stdpp Require Import base numbers list gmap option relations.

Open Scope Z_scope.
Open Scope vm_scope.

(** ** Data *)

Inductive PlaceholderKind := Conditional | Unconditional.

Record JumpPlaceholder := mkph {
  patch_offset : Z;
  target_bpf_index : Z;
  ph_kind : PlaceholderKind;
  deopt : bool
}.

Record AbortPatchInfo := mkabort { jump_offset : Z; bpf_index : Z }.

Inductive JitEntryKind := Counting | Failed | Compiled.

#[export] Instance JitEntryKind_dec : EqDecision JitEntryKind.
Proof. solve_decision. Defined.

(** A monomorphic cache of an indirect call site. *)
Record IndirectICSlot := mkic { ic_tag : Z; ic_entry : Z; ic_frame : Z }.
Definition empty_ic : IndirectICSlot := mkic (2 ^ 64 - 1) 0 0.

Record JitEntry := mkentry {
  je_kind : JitEntryKind;
  je_code : Z;                      (** host address, 0 for none *)
  je_insn_count : Z;
  je_gpa : Z;
  je_pc_offsets : list Z;
  entry_fast_offset : Z;
  call_cache : list Z;
  ic_slots : list IndirectICSlot
}.

Definition fresh_entry : JitEntry := mkentry Counting 0 0 0 [] 0 [] [].
Definition set_kind (k : JitEntryKind) (e : JitEntry) : JitEntry :=
  mkentry k (je_code e) (je_insn_count e) (je_gpa e) (je_pc_offsets e) (entry_fast_offset e)
          (call_cache e) (ic_slots e).

(** A pointer of the shadow cache: null, [&failed_sentinel_], or the address of
    the entry registered for a pc (entries never move). *)
Inductive entry_ref := NullEntry | FailedSentinel | EntryOf (gpa : Z).

Record CodeArena := mkarena { a_base : Z; a_size : Z; a_used : Z }.

Definition kPcCacheSlots : Z := 2 ^ 16.
Definition kHotCounterSlots : Z := 2 ^ 18.
Definition kHotCounterProbe : Z := 8.
Definition kCodeArenaSize : Z := 2 * 2 ^ 20.
Definition UINT32_MAX : Z := 2 ^ 32 - 1.

(** The compiler of one machine.  [rx_] is the host's side: the ranges that
    [mprotect] made executable. *)
Record JitCompiler := mkjit {
  enabled_ : bool;
  debug_enabled_ : bool;
  threshold_ : Z;
  entries_ : gmap Z JitEntry;
  pc_cache_ : gmap Z (Z * entry_ref);
  hot_counters_ : gmap Z (Z * Z);
  arenas_ : list CodeArena;
  rx_ : list (Z * Z);
  map_path_calls : Z;
  jit_compiles : Z;
  jit_compiled_insns : Z
}.

Definition set_entries (x : gmap Z JitEntry) (j : JitCompiler) : JitCompiler :=
  mkjit (enabled_ j) (debug_enabled_ j) (threshold_ j) x (pc_cache_ j) (hot_counters_ j)
        (arenas_ j) (rx_ j) (map_path_calls j) (jit_compiles j) (jit_compiled_insns j).
Definition set_cache (x : gmap Z (Z * entry_ref)) (j : JitCompiler) : JitCompiler :=
  mkjit (enabled_ j) (debug_enabled_ j) (threshold_ j) (entries_ j) x (hot_counters_ j)
        (arenas_ j) (rx_ j) (map_path_calls j) (jit_compiles j) (jit_compiled_insns j).
Definition set_hot (x : gmap Z (Z * Z)) (j : JitCompiler) : JitCompiler :=
  mkjit (enabled_ j) (debug_enabled_ j) (threshold_ j) (entries_ j) (pc_cache_ j) x
        (arenas_ j) (rx_ j) (map_path_calls j) (jit_compiles j) (jit_compiled_insns j).
Definition set_arenas (x : list CodeArena) (rx : list (Z * Z)) (j : JitCompiler) : JitCompiler :=
  mkjit (enabled_ j) (debug_enabled_ j) (threshold_ j) (entries_ j) (pc_cache_ j) (hot_counters_ j)
        x rx (map_path_calls j) (jit_compiles j) (jit_compiled_insns j).
Definition set_stats (m c i : Z) (j : JitCompiler) : JitCompiler :=
  mkjit (enabled_ j) (debug_enabled_ j) (threshold_ j) (entries_ j) (pc_cache_ j) (hot_counters_ j)
        (arenas_ j) (rx_ j) m c i.

(** The slot of a pc and its content; the arrays start zeroed. *)
Definition pc_slot (gpa : Z) : Z := Z.land (Z.shiftr gpa 3) (kPcCacheSlots - 1).
Definition cached (j : JitCompiler) (gpa : Z) : Z * entry_ref :=
  default (0, NullEntry) (pc_cache_ j !! pc_slot gpa).
Definition cache (gpa : Z) (e : entry_ref) (j : JitCompiler) : JitCompiler :=
  set_cache (<[pc_slot gpa := (gpa, e)]> (pc_cache_ j)) j.

(** [JitCompiler::clear], after execve: the arenas stay. *)
Definition clear (j : JitCompiler) : JitCompiler :=
  set_hot ∅ (set_cache ∅ (set_entries ∅ j)).

(** [resolve_call]: the fast entry of a compiled callee. *)
Definition resolve_call (j : JitCompiler) (callee_gpa : Z) : option Z :=
  match entries_ j !! callee_gpa with
  | Some f => if decide (je_kind f = Compiled) then Some (je_code f + entry_fast_offset f) else None
  | None => None
  end.

(** ** Hot counters *)

Definition hot_at (h : gmap Z (Z * Z)) (i : Z) : Z * Z :=
  default (0, 0) (h !! Z.land i (kHotCounterSlots - 1)).
Definition hot_put (i : Z) (s : Z * Z) (h : gmap Z (Z * Z)) : gmap Z (Z * Z) :=
  <[Z.land i (kHotCounterSlots - 1) := s]> h.

(** The probe over the window: the slot of [gpa], the first empty one, or the
    one with the smallest count.  The initial [slot] stands for the null pointer
    of the code; it is not reached, since counts stay below the threshold. *)
Fixpoint hot_probe (h : gmap Z (Z * Z)) (gpa base : Z) (n : nat) (k min_count slot : Z) : Z :=
  match n with
  | O => slot
  | S n' =>
    let s := hot_at h (base + k) in
    if (s.1 =? gpa) || (s.1 =? 0) then base + k
    else if s.2 <? min_count then hot_probe h gpa base n' (k + 1) s.2 (base + k)
    else hot_probe h gpa base n' (k + 1) min_count slot
  end.

(** One count for [gpa]: [true] when it reaches the threshold. *)
Definition hot_count (threshold gpa : Z) (h : gmap Z (Z * Z)) : bool * gmap Z (Z * Z) :=
  if 0 <? threshold then
    let base := Z.land (Z.shiftr gpa 3) (kHotCounterSlots - 1) in
    let slot := hot_probe h gpa base (Z.to_nat kHotCounterProbe) 0 UINT32_MAX base in
    let c0 := if (hot_at h slot).1 =? gpa then (hot_at h slot).2 else 0 in
    let c := if c0 =? UINT32_MAX then c0 else c0 + 1 in
    if c <? threshold then (false, hot_put slot (gpa, c) h)
    else (true, hot_put slot (0, 0) h)
  else (true, h).

(** ** Code memory *)

Definition page_round (n : Z) : Z := Z.land (n + 4095) (Z.lnot 4095).

(** The first arena with room. *)
Fixpoint find_arena (aligned : Z) (l : list CodeArena) : option nat :=
  match l with
  | [] => None
  | a :: l' => if a_used a + aligned <=? a_size a then Some O else S <$> find_arena aligned l'
  end.

(** [finalize_code]: [mmap_res] is what [mmap] returns if it is called ([None]
    for [MAP_FAILED]), [prot_ok] whether [mprotect] succeeds.  The result is the
    address of the code; the second component the range written, if any. *)
Definition finalize_code (code_size : Z) (mmap_res : option Z) (prot_ok : bool) (j : JitCompiler)
    : option Z * option (Z * Z) * JitCompiler :=
  let aligned := page_round code_size in
  let found :=
    match find_arena aligned (arenas_ j) with
    | Some k => Some (k, arenas_ j)
    | None =>
      match mmap_res with
      | None => None
      | Some base =>
        Some (length (arenas_ j),
              arenas_ j ++ [mkarena base (if kCodeArenaSize <? aligned then aligned else kCodeArenaSize) 0])
      end
    end in
  match found with
  | None => (None, None, j)
  | Some (k, arenas) =>
    match arenas !! k with
    | None => (None, None, j)
    | Some a =>
      let code_mem := a_base a + a_used a in
      if prot_ok then
        (Some code_mem, Some (code_mem, code_mem + code_size),
         set_arenas (<[k := mkarena (a_base a) (a_size a) (a_used a + aligned)]> arenas)
                    ((code_mem, code_mem + aligned) :: rx_ j) j)
      else (None, Some (code_mem, code_mem + code_size), set_arenas arenas (rx_ j) j)
    end
  end.

(** ** The emitter interface *)

(** The concept [JitEmitter] of jit_compiler.h: the state of an emitter and its
    operations.  A [false] result is [None]; the vectors an operation appends to
    are results.  [e_fresh] is the emitter after [reset], [set_vm_offsets],
    [set_budget] (called when the first flag holds; the second is its last
    argument) and [set_helpers]; [branch_at e o] reads off the buffer the form and
    the destination of the branch instruction at offset [o]. *)
Class JitEmitter (E : Type) := {
  e_fresh : bool -> bool -> E;
  e_size : E -> Z;
  get_entry_fast_offset : E -> Z;
  emit_prologue : E -> Z * E;
  emit_safepoint : Z -> Z -> E -> E;
  emit_alu : bpf_insn -> bool -> E -> option E;
  emit_ld : bpf_insn -> bpf_insn -> E -> option E;
  emit_ldx : bpf_insn -> Z -> E -> option (E * list AbortPatchInfo);
  emit_st : bpf_insn -> Z -> E -> option (E * list AbortPatchInfo);
  emit_stx : bpf_insn -> Z -> E -> option (E * list AbortPatchInfo);
  emit_jmp : bpf_insn -> Z -> bool -> E -> option (E * list JumpPlaceholder);
  emit_jmp_deopt : bpf_insn -> bool -> Z -> E -> option (E * list JumpPlaceholder);
  emit_set_pc_imm : Z -> E -> E;
  emit_ja : bpf_insn -> Z -> E -> E * list JumpPlaceholder;
  emit_ja32 : bpf_insn -> Z -> E -> E * list JumpPlaceholder;
  emit_call_syscall : bpf_insn -> Z -> Z -> E -> E;
  emit_call_softfp : bpf_insn -> E -> option E;
  emit_call_softfp_slow : bpf_insn -> Z -> Z -> E -> E;
  emit_call_bpf : Z -> Z -> Z -> Z -> E -> E * list AbortPatchInfo * list Z;
  emit_call_indirect : bpf_insn -> Z -> Z -> E -> E * list AbortPatchInfo * list Z;
  emit_exit : Z -> E -> E * list AbortPatchInfo;
  patch_branch_cond : Z -> Z -> E -> E;
  patch_branch_uncond : Z -> Z -> E -> E;
  patch_branch_abort : Z -> Z -> E -> E;
  write64 : Z -> Z -> E -> E;
  branch_at : E -> Z -> option (PlaceholderKind * Z)
}.

(** The vectors of one compilation, with the emitter. *)
Record work (E : Type) := mkwork {
  em : E;
  placeholders : list JumpPlaceholder;
  abort_patches : list AbortPatchInfo;
  call_cache_offs : list Z;
  ic_cache_offs : list Z;
  pc_offsets : list Z;
  compiled_count : Z
}.
Arguments mkwork {E}.
Arguments em {E}. Arguments placeholders {E}. Arguments abort_patches {E}.
Arguments call_cache_offs {E}. Arguments ic_cache_offs {E}. Arguments pc_offsets {E}.
Arguments compiled_count {E}.

Section Compile.
Context {S : Type} {env : HostEnv}.
Context {E : Type} `{JitEmitter E}.

(** An operation on the emitter that appends to the vectors and counts [n]. *)
Definition did (n : Z) (w : work E) (e : E) (js : list JumpPlaceholder) (ab : list AbortPatchInfo)
    (cs ics : list Z) : work E :=
  mkwork e (placeholders w ++ js) (abort_patches w ++ ab) (call_cache_offs w ++ cs)
         (ic_cache_offs w ++ ics) (pc_offsets w) (compiled_count w + n).

(** [placeholders.back().deopt = true]. *)
Definition mark_back (js : list JumpPlaceholder) : list JumpPlaceholder :=
  match rev js with
  | [] => []
  | p :: l => rev (mkph (patch_offset p) (target_bpf_index p) (ph_kind p) true :: l)
  end.

Definition set_em (e : E) (w : work E) : work E :=
  mkwork e (placeholders w) (abort_patches w) (call_cache_offs w) (ic_cache_offs w)
         (pc_offsets w) (compiled_count w).

(** [entry_gpa + (uint64_t)(int64_t)t * sizeof(bpf_insn)]. *)
Definition gpa_of (entry_gpa t : Z) : Z := u64 (entry_gpa + t * INSN_SIZE).

(** An unconditional jump: out of the function, the target pc is stored first
    and the jump is patched to the common exit. *)
Definition emit_jump_always (entry_gpa tgt num_insns : Z) (ja : E -> E * list JumpPlaceholder)
    (w : work E) : work E :=
  let out := (tgt <? 0) || (num_insns <=? tgt) in
  let e1 := if out then emit_set_pc_imm (gpa_of entry_gpa tgt) (em w) else em w in
  let '(e2, js) := ja e1 in
  did 1 w e2 (if out then mark_back js else js) [] [] [].

Definition emit_jump_cond (prog : Z -> bpf_insn) (entry_gpa i num_insns : Z) (is_64 : bool)
    (w : work E) : option (work E) :=
  let tgt := off_target prog i in
  let oos := (tgt <? 0) || (num_insns <=? tgt) in
  match (if oos then emit_jmp_deopt (prog i) is_64 (gpa_of entry_gpa tgt) (em w)
         else emit_jmp (prog i) i is_64 (em w)) with
  | None => None
  | Some (e, js) => Some (did 1 w e js [] [] [])
  end.

(** [emit_instruction]; [prog] is the code at the entry. *)
Definition emit_instruction (prog : Z -> bpf_insn) (entry_gpa i num_insns : Z) (w : work E)
    : M S (option (work E)) :=
  let insn := prog i in
  let cls := insn_class insn in
  let op := insn_op insn in
  let ret_gpa := gpa_of entry_gpa (i + 1) in
  if cls =? BPF_ALU64 then
    ret (if 10 <=? dst_reg insn then None
         else e ← emit_alu insn true (em w); Some (did 1 w e [] [] [] []))
  else if cls =? BPF_ALU then
    ret (if 10 <=? dst_reg insn then None
         else e ← emit_alu insn false (em w); Some (did 1 w e [] [] [] []))
  else if cls =? BPF_LD then
    ret (e ← emit_ld insn (prog (i + 1)) (em w); Some (did 2 w e [] [] [] []))
  else if cls =? BPF_LDX then
    ret (if 10 <=? dst_reg insn then None
         else '(e, ab) ← emit_ldx insn i (em w); Some (did 1 w e [] ab [] []))
  else if cls =? BPF_ST then
    ret ('(e, ab) ← emit_st insn i (em w); Some (did 1 w e [] ab [] []))
  else if cls =? BPF_STX then
    ret ('(e, ab) ← emit_stx insn i (em w); Some (did 1 w e [] ab [] []))
  else if cls =? BPF_JMP then
    if op =? BPF_JA then
      ret (Some (emit_jump_always entry_gpa (off_target prog i) num_insns (emit_ja insn i) w))
    else if op =? BPF_CALL then
      if insn_is_x insn then
        let '(e, ab, ics) := emit_call_indirect insn ret_gpa i (em w) in
        ret (Some (did 1 w e [] ab [] ics))
      else if src_reg insn =? 0 then ret (Some (did 1 w (emit_call_syscall insn i entry_gpa (em w)) [] [] [] []))
      else if src_reg insn =? 1 then
        let callee_gpa := gpa_of entry_gpa (s32 (i + 1 + imm insn)) in
        frame <- frame_size_of callee_gpa ;;
        let '(e, ab, cs) := emit_call_bpf ret_gpa callee_gpa frame i (em w) in
        ret (Some (did 1 w e [] ab cs []))
      else if src_reg insn =? 2 then
        ret (Some (did 1 w (match emit_call_softfp insn (em w) with
                            | Some e => e
                            | None => emit_call_softfp_slow insn i entry_gpa (em w)
                            end) [] [] [] []))
      else ret None
    else if op =? BPF_EXIT then
      let '(e, ab) := emit_exit i (em w) in ret (Some (did 1 w e [] ab [] []))
    else ret (emit_jump_cond prog entry_gpa i num_insns true w)
  else if cls =? BPF_JMP32 then
    if op =? BPF_JA then
      ret (Some (emit_jump_always entry_gpa (imm_target prog i) num_insns (emit_ja32 insn i) w))
    else ret (emit_jump_cond prog entry_gpa i num_insns false w)
  else ret None.

(** The emission loop of [compile]: the code, or the index it fails at. *)
Inductive emission := Emitted (w : work E) | Poisoned (i : Z).

Definition note_pc (i : Z) (w : work E) : work E :=
  mkwork (em w) (placeholders w) (abort_patches w) (call_cache_offs w) (ic_cache_offs w)
         (<[Z.to_nat i := u32 (e_size (em w))]> (pc_offsets w)) (compiled_count w).

Fixpoint emit_loop (prog : Z -> bpf_insn) (entry_gpa : Z) (r : discovered) (n : nat) (i : Z)
    (w : work E) : M S emission :=
  match n with
  | O => ret (Emitted w)
  | Datatypes.S n' =>
    if negb (bat (reachable r) i) then emit_loop prog entry_gpa r n' (i + 1) w
    else
      let w1 := note_pc i w in
      if (10 <? dst_reg (prog i)) || (10 <? src_reg (prog i)) then ret (Poisoned i)
      else
        let w2 := if bat (back_edge_targets r) i
                  then set_em (emit_safepoint (default 1 (loop_body_sizes r !! Z.to_nat i))
                                              (gpa_of entry_gpa i) (em w1)) w1
                  else w1 in
        o <- emit_instruction prog entry_gpa i (func_size r) w2 ;;
        match o with
        | None => ret (Poisoned i)
        | Some w3 => emit_loop prog entry_gpa r n' (i + 1) w3
        end
  end.

(** The patching of the jumps: [None] is a target that was not emitted. *)
Definition pc_offset (offs : list Z) (num_insns t : Z) : option Z :=
  if (t <? 0) || (num_insns <=? t) then None
  else match offs !! Z.to_nat t with
       | Some o => if o =? UINT32_MAX then None else Some o
       | None => None
       end.

Definition patch_one (offs : list Z) (num_insns flush : Z) (ph : JumpPlaceholder) (e : E) : option E :=
  match pc_offset offs num_insns (target_bpf_index ph) with
  | None => if deopt ph then Some (patch_branch_uncond (patch_offset ph) flush e) else None
  | Some target =>
    Some match ph_kind ph with
         | Conditional => patch_branch_cond (patch_offset ph) target e
         | Unconditional => patch_branch_uncond (patch_offset ph) target e
         end
  end.

Fixpoint patch_jumps (offs : list Z) (num_insns flush : Z) (phs : list JumpPlaceholder) (e : E)
    : option E :=
  match phs with
  | [] => Some e
  | ph :: l =>
    match patch_one offs num_insns flush ph e with
    | None => None
    | Some e' => patch_jumps offs num_insns flush l e'
    end
  end.

Definition patch_aborts (flush : Z) (aps : list AbortPatchInfo) (e : E) : E :=
  fold_left (fun e ap => patch_branch_abort (jump_offset ap) flush e) aps e.

(** The addresses of the cache slots, written at their places in the code. *)
Fixpoint write_slots (addr : nat -> Z) (k : nat) (offs : list Z) (e : E) : E :=
  match offs with
  | [] => e
  | o :: l => write_slots addr (Datatypes.S k) l (write64 o (addr k) e)
  end.

(** The lambda [mark_failed]. *)
Fixpoint poison (gpa : Z) (n : nat) (k : Z) (j : JitCompiler) : JitCompiler :=
  match n with
  | O => j
  | Datatypes.S n' =>
    let p := u64 (gpa + k * INSN_SIZE) in
    let j' := match entries_ j !! p with
              | Some e => if decide (je_kind e = Compiled) then j else cache p FailedSentinel j
              | None => cache p FailedSentinel j
              end in
    poison gpa n' (k + 1) j'
  end.

Definition mark_failed (gpa poison_idx : Z) (j : JitCompiler) : JitCompiler :=
  let j1 := set_entries (alter (set_kind Failed) gpa (entries_ j)) j in
  let upto := if 0 <=? poison_idx then poison_idx else 0 in
  poison gpa (Z.to_nat (upto + 1)) 0 j1.

(** The instructions from the entry to the end of its segment. *)
Fixpoint seg_rest (ms : list memmap) (gpa : Z) : option Z :=
  match ms with
  | [] => None
  | m :: l =>
    if (m_paddr m <=? gpa) && (gpa <? u64 (m_paddr m + m_size m))
    then Some (u64 (m_size m - (gpa - m_paddr m)) / INSN_SIZE)
    else seg_rest l gpa
  end.

(** The host addresses of the cache slots of an entry. *)
Context (call_slot ic_slot : Z -> nat -> Z).

(** The end of [compile], from the emitted code on. *)
Definition link (w : work E) (num_insns flush : Z) : option E :=
  e ← patch_jumps (pc_offsets w) num_insns flush (placeholders w) (em w);
  Some (patch_aborts flush (abort_patches w) e).

Definition fill_slots (gpa : Z) (w : work E) (e : E) : E :=
  write_slots (ic_slot gpa) 0 (ic_cache_offs w) (write_slots (call_slot gpa) 0 (call_cache_offs w) e).

(** The slots of the entry, allocated before the code is finalized. *)
Definition prepare (gpa : Z) (w : work E) (j : JitCompiler) : JitCompiler :=
  set_entries (alter (fun f => mkentry (je_kind f) (je_code f) (je_insn_count f) gpa (je_pc_offsets f)
                        (entry_fast_offset f) (replicate (length (call_cache_offs w)) 0)
                        (replicate (length (ic_cache_offs w)) empty_ic)) gpa (entries_ j)) j.

Definition install (gpa : Z) (w : work E) (e : E) (code : Z) (j : JitCompiler) : JitCompiler :=
  let j1 := set_stats (map_path_calls j) (jit_compiles j + 1) (jit_compiled_insns j + compiled_count w) j in
  let j2 := set_entries (alter (fun f => mkentry Compiled code (compiled_count w) (je_gpa f) (pc_offsets w)
                                  (get_entry_fast_offset e) (call_cache f) (ic_slots f)) gpa (entries_ j1)) j1 in
  cache gpa (EntryOf gpa) j2.

(** The real compilation, past the threshold; [gpa] is registered. *)
Definition compile_real (gpa : Z) (mmap_res : option Z) (prot_ok : bool) (j : JitCompiler)
    : M S (option Z * JitCompiler) :=
  entry <- mmuM gpa INSN_SIZE ;;
  match entry with
  | None => ret (None, j)
  | Some entry_pc =>
    ms <- gets (fun v => maps (mm v)) ;;
    match seg_rest ms gpa with
    | None => ret (None, j)
    | Some rest =>
      prog <- gets (fun v i => decode_insn (load (mm v) (padd entry_pc (INSN_SIZE * i)) 8)) ;;
      limit <- gets (fun v => insn_limit (options v)) ;;
      match discover_reachable prog (s32 rest) with
      | None => waitM
      | Some r =>
        if func_size r <=? 0 then ret (None, mark_failed gpa (-1) j)
        else
          let e0 := e_fresh (debug_enabled_ j || negb (limit =? 0)) (negb (limit =? 0)) in
          let '(flush, e1) := emit_prologue e0 in
          let w0 := mkwork e1 [] [] [] [] (replicate (Z.to_nat (func_size r)) UINT32_MAX) 0 in
          o <- emit_loop prog gpa r (Z.to_nat (func_size r)) 0 w0 ;;
          match o with
          | Poisoned i => ret (None, mark_failed gpa i j)
          | Emitted w =>
            if compiled_count w =? 0 then ret (None, mark_failed gpa (-1) j)
            else
              match link w (func_size r) flush with
              | None => ret (None, mark_failed gpa (func_size r - 1) j)
              | Some e2 =>
                let e3 := fill_slots gpa w e2 in
                match finalize_code (e_size e3) mmap_res prot_ok (prepare gpa w j) with
                | (None, _, j1) => ret (None, mark_failed gpa (-1) j1)
                | (Some code, _, j1) => ret (Some gpa, install gpa w e3 code j1)
                end
              end
          end
      end
    end
  end.

(** [JitCompiler::compile]: the entry to run (by its pc), or none. *)
Definition compile (gpa : Z) (mmap_res : option Z) (prot_ok : bool) (j : JitCompiler)
    : M S (option Z * JitCompiler) :=
  if negb (enabled_ j) then ret (None, j)
  else
    f <- get_flags ;;
    if has f VM_DEBUG_ATTACHED then ret (None, j)
    else
      let '(g, e) := cached j gpa in
      if g =? gpa then
        ret (match e with EntryOf k => Some k | _ => None end, j)
      else
        let j := set_stats (map_path_calls j + 1) (jit_compiles j) (jit_compiled_insns j) j in
        match entries_ j !! gpa with
        | Some en =>
          if decide (je_kind en = Compiled) then ret (Some gpa, cache gpa (EntryOf gpa) j)
          else ret (None, cache gpa FailedSentinel j)
        | None =>
          let '(hot, h) := hot_count (threshold_ j) gpa (hot_counters_ j) in
          let j := set_hot h j in
          if negb hot then ret (None, j)
          else compile_real gpa mmap_res prot_ok (set_entries (<[gpa := fresh_entry]> (entries_ j)) j)
        end.

End Compile.
Arguments Emitted {E}. Arguments Poisoned {E}.

(** ** The registry and its shadow cache *)

Definition compiled_at (j : JitCompiler) (gpa : Z) : Prop :=
  exists f, entries_ j !! gpa = Some f /\ je_kind f = Compiled.

(** A slot that names a pc agrees with the registry about it. *)
Definition jit_wf (j : JitCompiler) : Prop :=
  forall s g e, pc_cache_ j !! s = Some (g, e) ->
    s = pc_slot g /\
    match e with
    | EntryOf k => k = g /\ compiled_at j g
    | FailedSentinel => ~ compiled_at j g
    | NullEntry => False
    end.

(** [j'] registers at least what [j] does, and differs for [gpa] only. *)
Definition keeps_compiled (gpa : Z) (j j' : JitCompiler) : Prop :=
  forall p, p <> gpa -> compiled_at j p <-> compiled_at j' p.

Lemma jit_wf_cache gpa e j :
  jit_wf j ->
  match e with EntryOf k => k = gpa /\ compiled_at j gpa | FailedSentinel => ~ compiled_at j gpa | NullEntry => False end ->
  jit_wf (cache gpa e j).
Proof.
  intros Hw He s g e'. unfold cache. cbn [pc_cache_ set_cache]. intros Hs.
  destruct (decide (s = pc_slot gpa)) as [->|Hne].
  - rewrite lookup_insert_eq in Hs. injection Hs as <- <-. split; [done|]. destruct e; exact He.
  - rewrite lookup_insert_ne in Hs by done. apply (Hw s g e' Hs).
Qed.

(** Registering [gpa] or changing its entry: the slots of other pcs still agree;
    no slot names [gpa]. *)
Definition unnamed (gpa : Z) (j : JitCompiler) : Prop := fst (cached j gpa) <> gpa.

Lemma unnamed_slot gpa j s e : jit_wf j -> unnamed gpa j -> pc_cache_ j !! s <> Some (gpa, e).
Proof.
  intros Hw Hu Hs. destruct (Hw s gpa e Hs) as [-> _]. apply Hu. unfold cached. by rewrite Hs.
Qed.

Lemma jit_wf_entries gpa j m :
  jit_wf j -> unnamed gpa j -> (forall p, p <> gpa -> m !! p = entries_ j !! p) ->
  jit_wf (set_entries m j).
Proof.
  intros Hw Hu Hm s g e Hs. cbn [pc_cache_ set_entries] in Hs. destruct (Hw s g e Hs) as [Hs1 He].
  split; [done|]. assert (g <> gpa) as Hg by (intros ->; by apply (unnamed_slot gpa j s e)).
  assert (compiled_at (set_entries m j) g <-> compiled_at j g) as Hc.
  { unfold compiled_at. cbn [entries_ set_entries]. by rewrite Hm. }
  destruct e; rewrite ?Hc; done.
Qed.

(** What the bookkeeping of [compile] leaves alone. *)
Lemma jit_wf_same j j' : entries_ j' = entries_ j -> pc_cache_ j' = pc_cache_ j -> jit_wf j -> jit_wf j'.
Proof. intros He Hp Hw s g e. unfold compiled_at. rewrite He, Hp. apply Hw. Qed.

Lemma poison_ok gpa n k j : jit_wf j -> jit_wf (poison gpa n k j) /\ entries_ (poison gpa n k j) = entries_ j.
Proof.
  revert k j. induction n as [|n IH]; intros k j Hw; cbn [poison]; [done|].
  set (p := u64 (gpa + k * INSN_SIZE)).
  assert (~ compiled_at j p -> jit_wf (cache p FailedSentinel j)) as Hc by (intros; by apply jit_wf_cache).
  unfold compiled_at in Hc.
  destruct (entries_ j !! p) as [f|] eqn:Ef; [destruct (decide (je_kind f = Compiled))|].
  - by apply IH.
  - destruct (IH (k + 1) (cache p FailedSentinel j)) as [? ->]; [|done].
    apply Hc. intros (f' & ? & ?). congruence.
  - destruct (IH (k + 1) (cache p FailedSentinel j)) as [? ->]; [|done].
    apply Hc. by intros (f' & ? & ?).
Qed.

Lemma mark_failed_ok gpa i j : jit_wf j -> unnamed gpa j ->
  jit_wf (mark_failed gpa i j) /\
  entries_ (mark_failed gpa i j) = alter (set_kind Failed) gpa (entries_ j).
Proof.
  intros Hw Hu. unfold mark_failed. cbn zeta.
  destruct (poison_ok gpa (Z.to_nat ((if 0 <=? i then i else 0) + 1)) 0
              (set_entries (alter (set_kind Failed) gpa (entries_ j)) j)) as [? ->]; [|done].
  apply (jit_wf_entries gpa); [done|done|]. intros p Hp. by rewrite lookup_alter_ne.
Qed.

Lemma finalize_same size m p j : 
  entries_ (finalize_code size m p j).2 = entries_ j /\ pc_cache_ (finalize_code size m p j).2 = pc_cache_ j.
Proof.
  unfold finalize_code. cbn zeta. destruct (match find_arena _ _ with Some _ => _ | None => _ end) as [[k l]|]; [|done].
  destruct (l !! k); [|done]. by destruct p.
Qed.

(** A result of [compile] that [gpa]'s new state explains. *)
Record compile_post (gpa : Z) (j : JitCompiler) (o : option Z) (j' : JitCompiler) : Prop := {
  cp_wf : jit_wf j';
  cp_keep : keeps_compiled gpa j j';
  cp_grow : compiled_at j gpa -> compiled_at j' gpa;
  cp_some : forall k, o = Some k -> k = gpa /\ compiled_at j' gpa;
  cp_none : o = None -> ~ compiled_at j' gpa \/ j' = j
}.

(** ** [compile] returns and only touches the TLB *)

Section Quiet.
Context {S : Type} {env : HostEnv}.

Definition tlb_only (v v' : vm S) : Prop := exists m, same_mem (mm v) m /\ v' = set_mm m v.

Lemma tlb_only_refl v : mem_wf (mm v) -> tlb_only v v.
Proof. exists (mm v). rewrite set_mm_id. split; [by apply same_mem_refl|done]. Qed.

Lemma tlb_only_trans v1 v2 v3 : tlb_only v1 v2 -> tlb_only v2 v3 -> tlb_only v1 v3.
Proof.
  intros (m1 & H1 & ->) (m2 & H2 & ->). exists m2. split; [|done].
  eapply same_mem_trans; [exact H1|exact H2].
Qed.

Lemma tlb_only_wf v v' : tlb_only v v' -> mem_wf (mm v').
Proof. intros (m & (Hm & _) & ->). exact Hm. Qed.

(** [m] returns, changes the TLB at most, and its result satisfies [P]. *)
Definition quiet {A} (m : M S A) (P : A -> Prop) : Prop :=
  forall v, mem_wf (mm v) -> exists a v', m v = Ok a v' /\ tlb_only v v' /\ P a.

Lemma quiet_ret {A} (a : A) (P : A -> Prop) : P a -> quiet (ret a) P.
Proof. intros Ha v Hv. exists a, v. split_and!; [done|by apply tlb_only_refl|done]. Qed.

Lemma quiet_gets {A} (f : vm S -> A) (P : A -> Prop) : (forall v, P (f v)) -> quiet (gets f) P.
Proof. intros Hf v Hv. exists (f v), v. split_and!; [done|by apply tlb_only_refl|done]. Qed.

Lemma quiet_bind {A B} (m : M S A) (k : A -> M S B) P Q :
  quiet m P -> (forall a, P a -> quiet (k a) Q) -> quiet (bind m k) Q.
Proof.
  intros Hm Hk v Hv. destruct (Hm v Hv) as (a & v1 & E1 & T1 & Ha).
  destruct (Hk a Ha v1 (tlb_only_wf _ _ T1)) as (b & v2 & E2 & T2 & Hb).
  exists b, v2. unfold bind. rewrite E1. split_and!; [done|by eapply tlb_only_trans|done].
Qed.

Lemma quiet_weaken {A} (m : M S A) (P Q : A -> Prop) :
  quiet m P -> (forall a, P a -> Q a) -> quiet m Q.
Proof. intros Hm HPQ v Hv. destruct (Hm v Hv) as (a & v1 & ? & ? & ?). eauto 6. Qed.

Lemma quiet_mmu a n : in_u64 a -> 0 < n < 2 ^ 64 -> quiet (mmuM a n) (fun _ => True).
Proof. intros Ha Hn v Hv. destruct (mmuM_same v a n Hv Ha Hn) as (m & Hm & E). eexists _, _. split_and!; [exact E|by exists m|done]. Qed.

Lemma quiet_frame_size e : in_u64 e -> quiet (frame_size_of e) (fun _ => True).
Proof. intros He v Hv. destruct (frame_size_of_eq v e Hv He) as (m & Hm & E). eexists _, _. split_and!; [exact E|by exists m|done]. Qed.

End Quiet.

Lemma discover_total prog n : exists r, discover_reachable prog n = Some r.
Proof.
  destruct (Z.le_gt_cases n 0) as [Hn|Hn].
  - unfold discover_reachable. destruct (Z.leb_spec n 0); [eauto|lia].
  - destruct (discover_exact prog n ltac:(lia)) as (r & E & _). by exists r.
Qed.

Section Coherent.
Context {S : Type} {env : HostEnv}.
Context {E : Type} `{JitEmitter E}.
Context (call_slot ic_slot : Z -> nat -> Z).

Lemma emit_instruction_quiet prog g i n (w : work E) :
  quiet (S := S) (emit_instruction prog g i n w) (fun _ => True).
Proof.
  unfold emit_instruction. cbn zeta.
  repeat match goal with
  | |- quiet (if ?b then _ else _) _ => destruct b
  | |- quiet (let '(_, _) := ?x in _) _ => destruct x
  | |- quiet (ret _) _ => by apply quiet_ret
  | |- quiet (bind _ _) _ => eapply quiet_bind; [apply quiet_frame_size, u64_range|intros ? _]
  end.
Qed.

Lemma emit_loop_quiet prog g r n i (w : work E) :
  quiet (S := S) (emit_loop prog g r n i w) (fun _ => True).
Proof.
  revert i w. induction n as [|n IH]; intros i w; cbn [emit_loop]; [by apply quiet_ret|].
  destruct (negb _); [apply IH|]. destruct (_ || _); [by apply quiet_ret|].
  eapply quiet_bind; [apply emit_instruction_quiet|]. intros [w3|] _; [apply IH|by apply quiet_ret].
Qed.

(** [compile_real] after the registration: [gpa] becomes compiled or failed. *)
Definition real_post (gpa : Z) (j : JitCompiler) (x : option Z * JitCompiler) : Prop :=
  jit_wf x.2 /\ (forall p, p <> gpa -> entries_ x.2 !! p = entries_ j !! p) /\
  match x.1 with
  | Some k => k = gpa /\ compiled_at x.2 gpa
  | None => ~ compiled_at x.2 gpa
  end.

Lemma mark_failed_post gpa i j j1 :
  jit_wf j1 -> unnamed gpa j1 -> (forall p, p <> gpa -> entries_ j1 !! p = entries_ j !! p) ->
  real_post gpa j (None, mark_failed gpa i j1).
Proof.
  intros Hw Hu Hs. destruct (mark_failed_ok gpa i j1 Hw Hu) as [Hw1 He].
  split; [exact Hw1|]. cbn [fst snd]. rewrite He. split.
  - intros p Hp. rewrite lookup_alter_ne by done. by apply Hs.
  - intros (f & Hf & Hk). rewrite He, lookup_alter_eq in Hf. destruct (entries_ j1 !! gpa); [|done].
    cbn in Hf. injection Hf as <-. done.
Qed.

Lemma prepare_wf gpa (w : work E) j : jit_wf j -> unnamed gpa j -> jit_wf (prepare gpa w j).
Proof. intros Hw Hu. apply (jit_wf_entries gpa); [done|done|]. intros p Hp. by rewrite lookup_alter_ne. Qed.

Lemma install_post gpa (w : work E) e code j j1 f :
  jit_wf j1 -> unnamed gpa j1 -> entries_ j1 !! gpa = Some f ->
  (forall p, p <> gpa -> entries_ j1 !! p = entries_ j !! p) ->
  real_post gpa j (Some gpa, install gpa w e code j1).
Proof.
  intros Hw Hu Hf Hs. unfold install. cbn zeta. set (j2 := set_entries _ _).
  assert (compiled_at j2 gpa) as Hc.
  { eexists. split; [unfold j2; cbn [entries_ set_entries set_stats]; rewrite lookup_alter_eq, Hf; done|done]. }
  split; [|split; [|split; [done|exact Hc]]].
  - apply jit_wf_cache; [|done]. apply (jit_wf_entries gpa); [by eapply jit_wf_same; [| |exact Hw]|exact Hu|].
    intros p Hp. cbn [entries_ set_stats]. by rewrite lookup_alter_ne.
  - intros p Hp. unfold cache. cbn [snd entries_ set_cache j2 set_entries set_stats].
    rewrite lookup_alter_ne by done. by apply Hs.
Qed.

Lemma compile_real_quiet gpa mres pok j :
  in_u64 gpa -> jit_wf j -> unnamed gpa j -> ~ compiled_at j gpa -> is_Some (entries_ j !! gpa) ->
  quiet (S := S) (compile_real call_slot ic_slot gpa mres pok j) (real_post gpa j).
Proof.
  intros Hg Hw Hu Hn [f Hf]. unfold compile_real.
  assert (real_post gpa j (None, j)) as Hsame by (split; [done|by split]).
  assert (forall i, real_post gpa j (None, mark_failed gpa i j)) as Hfail by (intros i; by apply mark_failed_post).
  eapply quiet_bind; [apply quiet_mmu; [done|unfold INSN_SIZE; lia]|]. intros [p|] _; [|by apply quiet_ret].
  eapply quiet_bind; [by apply (quiet_gets _ (fun _ => True))|]. intros ms _. destruct (seg_rest ms gpa) as [rest|]; [|by apply quiet_ret].
  eapply quiet_bind; [by apply (quiet_gets _ (fun _ => True))|]. intros prog _. eapply quiet_bind; [by apply (quiet_gets _ (fun _ => True))|]. intros limit _.
  destruct (discover_total prog (s32 rest)) as [r ->].
  destruct (func_size r <=? 0); [by apply quiet_ret|]. cbn zeta. destruct (emit_prologue _) as [flush e1].
  eapply quiet_bind; [apply emit_loop_quiet|]. intros [w|i] _; [|by apply quiet_ret].
  destruct (compiled_count w =? 0); [by apply quiet_ret|].
  destruct (link w _ flush) as [e2|]; [|by apply quiet_ret].
  destruct (finalize_same (e_size (fill_slots call_slot ic_slot gpa w e2)) mres pok (prepare gpa w j)) as [He Hp].
  destruct (finalize_code _ _ _ _) as [[[code|] wr] j1]; cbn [snd] in He, Hp; apply quiet_ret.
  - apply (install_post _ _ _ _ _ _ (mkentry (je_kind f) (je_code f) (je_insn_count f) gpa (je_pc_offsets f)
             (entry_fast_offset f) (replicate (length (call_cache_offs w)) 0) (replicate (length (ic_cache_offs w)) empty_ic))).
    + eapply jit_wf_same; [exact He|exact Hp|]. by apply prepare_wf.
    + unfold unnamed, cached. rewrite Hp. exact Hu.
    + rewrite He. unfold prepare. cbn [entries_ set_entries]. by rewrite lookup_alter_eq, Hf.
    + intros q Hq. rewrite He. unfold prepare. cbn [entries_ set_entries]. by rewrite lookup_alter_ne.
  - apply mark_failed_post.
    + eapply jit_wf_same; [exact He|exact Hp|]. by apply prepare_wf.
    + unfold unnamed, cached. rewrite Hp. exact Hu.
    + intros q Hq. rewrite He. unfold prepare. cbn [entries_ set_entries]. by rewrite lookup_alter_ne.
Qed.

Lemma real_keeps gpa j x : real_post gpa j x -> keeps_compiled gpa j x.2.
Proof. intros (_ & He & _) p Hp. unfold compiled_at. by rewrite He. Qed.

(** A named slot answers for the registry. *)
Lemma cached_answer gpa j e : jit_wf j -> gpa <> 0 -> cached j gpa = (gpa, e) ->
  match e with EntryOf k => k = gpa /\ compiled_at j gpa | FailedSentinel => ~ compiled_at j gpa | NullEntry => False end.
Proof.
  intros Hw Hg Hc. unfold cached in Hc. destruct (pc_cache_ j !! pc_slot gpa) as [[g e']|] eqn:Es; cbn in Hc; [|congruence].
  injection Hc as -> ->. apply (Hw _ _ _ Es).
Qed.

End Coherent.

(** C32: The registry of compiled code and its shadow cache stay coherent: for
    every pc and every emitter, [compile] returns (it changes the TLB at most),
    keeps the cache's slots in agreement with the registry, never loses a
    compiled entry, answers only with the compiled entry of the pc asked for, and
    answers nothing only when that pc is not compiled or the compiler is off. *)
Theorem compile_coherent {S} {env : HostEnv} {E} `{JitEmitter E} call_slot ic_slot
    gpa mres pok j (v : vm S) :
  mem_wf (mm v) -> in_u64 gpa -> gpa <> 0 -> jit_wf j ->
  exists o j' v', compile call_slot ic_slot gpa mres pok j v = Ok (o, j') v' /\
    tlb_only v v' /\ compile_post gpa j o j'.
Proof.
  intros Hv Hg Hg0 Hw.
  assert (quiet (S := S) (compile call_slot ic_slot gpa mres pok j) (fun x => compile_post gpa j x.1 x.2)) as Hq.
  2:{ destruct (Hq v Hv) as ([o j'] & v' & E1 & T & Hpost). eauto 8. }
  assert (forall o, (forall k, o = Some k -> k = gpa /\ compiled_at j gpa) -> compile_post gpa j o j) as Hsame.
  { intros o Ho. split; [done|by intros p|done|done|by right]. }
  unfold compile. destruct (negb (enabled_ j)); [apply quiet_ret; by apply Hsame|].
  eapply quiet_bind; [by apply (quiet_gets _ (fun _ => True))|]. intros f _.
  destruct (has f VM_DEBUG_ATTACHED); [apply quiet_ret; by apply Hsame|].
  destruct (cached j gpa) as [g e] eqn:Ec. destruct (Z.eqb_spec g gpa) as [->|Hne].
  { pose proof (cached_answer gpa j e Hw Hg0 Ec) as Ha. apply quiet_ret. apply Hsame. cbn [fst].
    intros k Hk. destruct e; simplify_eq; try done; by destruct Ha as [-> ?]. }
  cbn zeta. set (j1 := set_stats _ _ _ j).
  assert (unnamed gpa j) as Hu by (unfold unnamed; by rewrite Ec).
  assert (jit_wf j1) as Hw1 by by eapply jit_wf_same; [| |exact Hw].
  change (entries_ j1) with (entries_ j).
  destruct (entries_ j !! gpa) as [en|] eqn:Een.
  - destruct (decide (je_kind en = Compiled)) as [Hk|Hk]; apply quiet_ret; cbn [fst snd].
    + assert (compiled_at j gpa) as Hc by by exists en.
      split; [by apply jit_wf_cache|by intros p|done| |done]. by intros k [= <-].
    + assert (~ compiled_at j gpa) as Hc by (intros (f' & ? & ?); congruence).
      split; [by apply jit_wf_cache|by intros p|done|done|by left].
  - destruct (hot_count _ _ _) as [hot h].
    assert (~ compiled_at j gpa) as Hc by (intros (f' & ? & ?); congruence).
    destruct (negb hot); [apply quiet_ret; split; cbn [fst snd]; [by eapply jit_wf_same; [| |exact Hw]|by intros p|done|done|by left]|].
    set (j2 := set_entries _ _).
    assert (forall p, p <> gpa -> entries_ j2 !! p = entries_ j !! p) as He.
    { intros p Hp. unfold j2. cbn [entries_ set_entries set_hot]. by rewrite lookup_insert_ne. }
    eapply quiet_weaken.
    + apply compile_real_quiet; [done| |exact Hu| |].
      * apply (jit_wf_entries gpa); [by eapply jit_wf_same; [| |exact Hw]|exact Hu|exact He].
      * intros (f' & Hf & Hk). unfold j2 in Hf. cbn [entries_ set_entries] in Hf. rewrite lookup_insert_eq in Hf. by simplify_eq.
      * unfold j2. cbn [entries_ set_entries]. rewrite lookup_insert_eq. by eexists.
    + intros [o j'] (Hwx & Hex & Ho). cbn [fst snd] in *. split.
      * done.
      * intros p Hp. unfold compiled_at. by rewrite Hex, He.
      * done.
      * intros k ->. exact Ho.
      * intros ->. by left.
Qed.

(** ** Hot counters *)

Section Hot.
Context (gpa : Z) (Hgpa : gpa <> 0).

Definition hot_match (h : gmap Z (Z * Z)) (i : Z) : Prop := (hot_at h i).1 = gpa \/ (hot_at h i).1 = 0.

(** The recorded count of [gpa]. *)
Definition hot_base : Z := Z.land (Z.shiftr gpa 3) (kHotCounterSlots - 1).
Definition hot_slot (h : gmap Z (Z * Z)) : Z :=
  hot_probe h gpa hot_base (Z.to_nat kHotCounterProbe) 0 UINT32_MAX hot_base.
Definition count_of (h : gmap Z (Z * Z)) : Z :=
  if (hot_at h (hot_slot h)).1 =? gpa then (hot_at h (hot_slot h)).2 else 0.

Lemma hot_at_put h i j s : 0 <= i -> i - 8 < j < i + 8 -> 0 <= j ->
  hot_at (hot_put i s h) j = if j =? i then s else hot_at h j.
Proof.
  intros Hi Hj Hj0. unfold hot_at, hot_put. unfold kHotCounterSlots. rewrite !land_mask by lia.
  destruct (Z.eqb_spec j i) as [->|Hne]; [by rewrite lookup_insert_eq|].
  rewrite lookup_insert_ne; [done|]. intros Heq. apply Hne.
  pose proof (Z.div_mod i (2 ^ 18) ltac:(lia)). pose proof (Z.div_mod j (2 ^ 18) ltac:(lia)). nia.
Qed.

Lemma hot_probe_spec h base n k mc sl :
  let s := hot_probe h gpa base n k mc sl in
  (exists k', k <= k' < k + Z.of_nat n /\ s = base + k' /\
     forall k2, k <= k2 < k' -> ~ hot_match h (base + k2)) \/
  (s = sl /\ forall k2, k <= k2 < k + Z.of_nat n -> ~ hot_match h (base + k2)).
Proof.
  revert k mc sl. induction n as [|n IH]; intros k mc sl; cbn [hot_probe]; cbn zeta.
  - right. split; [done|]. lia.
  - destruct ((_ =? gpa) || (_ =? 0)) eqn:Em.
    + left. exists k. split_and!; [lia..|]. lia.
    + assert (~ hot_match h (base + k)) as Hk by (unfold hot_match; zprops; lia).
      assert (forall mc' sl', (exists k', k <= k' < k + Z.of_nat (S n) /\
                hot_probe h gpa base n (k + 1) mc' sl' = base + k' /\
                forall k2, k <= k2 < k' -> ~ hot_match h (base + k2)) \/
              (hot_probe h gpa base n (k + 1) mc' sl' = sl' /\
               forall k2, k <= k2 < k + Z.of_nat (S n) -> ~ hot_match h (base + k2))) as Hgen.
      { intros mc' sl'. destruct (IH (k + 1) mc' sl') as [(k' & Hr & Hs & Hn)|[Hs Hn]].
        - left. exists k'. split_and!; [lia..|done|]. intros k2 Hk2.
          destruct (Z.eq_dec k2 k) as [->|]; [done|apply Hn; lia].
        - right. split; [done|]. intros k2 Hk2. destruct (Z.eq_dec k2 k) as [->|]; [done|apply Hn; lia]. }
      destruct (_ <? mc); [|apply Hgen]. destruct (Hgen (hot_at h (base + k)).2 (base + k)) as [?|[Hs Hn]]; [by left|].
      left. exists k. split_and!; [lia..|done|lia].
Qed.

Lemma hot_probe_first h base n k k' mc sl :
  k <= k' < k + Z.of_nat n -> hot_match h (base + k') ->
  (forall k2, k <= k2 < k' -> ~ hot_match h (base + k2)) ->
  hot_probe h gpa base n k mc sl = base + k'.
Proof.
  revert k mc sl. induction n as [|n IH]; intros k mc sl Hr Hm Hn; [lia|]. cbn [hot_probe]. cbn zeta.
  destruct (Z.eq_dec k k') as [->|Hne].
  - unfold hot_match in Hm. by assert (((hot_at h (base + k')).1 =? gpa) || ((hot_at h (base + k')).1 =? 0) = true) as ->
      by (apply orb_true_iff; rewrite !Z.eqb_eq; tauto).
  - assert (((hot_at h (base + k)).1 =? gpa) || ((hot_at h (base + k)).1 =? 0) = false) as ->.
    { specialize (Hn k ltac:(lia)). unfold hot_match in Hn. apply orb_false_iff. rewrite !Z.eqb_neq. tauto. }
    destruct (_ <? mc); apply IH; try done; try lia; intros k2 Hk2; apply Hn; lia.
Qed.

Lemma hot_base_pos : 0 <= hot_base.
Proof. unfold hot_base, kHotCounterSlots. rewrite land_mask by lia. mlia. Qed.

(** Counting [gpa] into its slot leaves the slot its slot. *)
Lemma hot_slot_put h c : hot_slot (hot_put (hot_slot h) (gpa, c) h) = hot_slot h.
Proof.
  pose proof hot_base_pos as Hb.
  assert (exists k', 0 <= k' < 8 /\ hot_slot h = hot_base + k' /\
            forall k2, 0 <= k2 < k' -> ~ hot_match h (hot_base + k2)) as (k' & Hk & Hs & Hn).
  { destruct (hot_probe_spec h hot_base (Z.to_nat kHotCounterProbe) 0 UINT32_MAX hot_base) as [(k' & ? & ? & ?)|[Hs Hn]].
    - exists k'. done.
    - exists 0. split_and!; [lia|lia| |lia]. unfold hot_slot. rewrite Hs. lia. }
  unfold hot_slot at 1. rewrite Hs. apply hot_probe_first; [unfold kHotCounterProbe; lia| |].
  - left. rewrite hot_at_put by lia. by rewrite Z.eqb_refl.
  - intros k2 Hk2. unfold hot_match. rewrite hot_at_put by lia.
    rewrite (proj2 (Z.eqb_neq (hot_base + k2) (hot_base + k'))) by lia. by apply Hn.
Qed.

Lemma hot_slot_pos h : 0 <= hot_slot h.
Proof.
  pose proof hot_base_pos as Hb.
  destruct (hot_probe_spec h hot_base (Z.to_nat kHotCounterProbe) 0 UINT32_MAX hot_base) as [(k' & ? & Hs & _)|[Hs _]];
    unfold hot_slot; rewrite Hs; lia.
Qed.

Lemma hot_count_step threshold h :
  0 < threshold < 2 ^ 32 -> 0 <= count_of h < threshold ->
  if count_of h + 1 <? threshold
  then (hot_count threshold gpa h).1 = false /\ count_of (hot_count threshold gpa h).2 = count_of h + 1
  else (hot_count threshold gpa h).1 = true.
Proof.
  intros Ht Hc. unfold hot_count. destruct (Z.ltb_spec 0 threshold); [|lia]. cbn zeta.
  fold hot_base. fold (hot_slot h). fold (count_of h).
  destruct (Z.eqb_spec (count_of h) UINT32_MAX); [unfold UINT32_MAX in *; lia|].
  destruct (Z.ltb_spec (count_of h + 1) threshold); [|done]. split; [done|]. cbn [snd].
  unfold count_of at 1. rewrite hot_slot_put, hot_at_put by (pose proof (hot_slot_pos h); lia).
  by rewrite Z.eqb_refl, Z.eqb_refl.
Qed.

Fixpoint probes (threshold : Z) (n : nat) (h : gmap Z (Z * Z)) : gmap Z (Z * Z) :=
  match n with
  | O => h
  | S k => (hot_count threshold gpa (probes threshold k h)).2
  end.

End Hot.

(** A pc is promoted to the compiler by exactly the probe that makes its count
    reach the threshold: with [c] probes already counted, the next
    [threshold - c - 1] probes of that pc are answered "cold" and the one after
    them "hot", whatever else the counter table holds. *)
Theorem hot_threshold_exact threshold gpa h n :
  gpa <> 0 -> 0 < threshold < 2 ^ 32 -> 0 <= count_of gpa h < threshold ->
  count_of gpa h + Z.of_nat n < threshold ->
  (hot_count threshold gpa (probes gpa threshold n h)).1 =
  (count_of gpa h + Z.of_nat n + 1 =? threshold).
Proof.
  intros Hg Ht Hc Hn.
  assert (count_of gpa (probes gpa threshold n h) = count_of gpa h + Z.of_nat n) as Hcn.
  { induction n as [|n IH]; [cbn; lia|]. specialize (IH ltac:(lia)). cbn [probes].
    pose proof (hot_count_step gpa Hg threshold (probes gpa threshold n h) Ht ltac:(lia)) as Hs.
    rewrite IH in Hs. destruct (Z.ltb_spec (count_of gpa h + Z.of_nat n + 1) threshold); [|lia].
    destruct Hs as [_ ->]. lia. }
  pose proof (hot_count_step gpa Hg threshold (probes gpa threshold n h) Ht ltac:(lia)) as Hs.
  rewrite Hcn in Hs. destruct (Z.ltb_spec (count_of gpa h + Z.of_nat n + 1) threshold); zcases; try lia.
  - by destruct Hs as [-> _].
  - done.
Qed.

Lemma hot_threshold_exact_witness :
  let h := hot_put 0x200 (0x9999, 3) ∅ in
  0x1000 <> 0 /\ count_of 0x1000 h = 0 /\
  (hot_count 100 0x1000 (probes 0x1000 100 99 h)).1 = true.
Proof.
  intros h. split; [done|]. split; [reflexivity|].
  assert (count_of 0x1000 h = 0) as Hc by reflexivity.
  pose proof (hot_threshold_exact 100 0x1000 h 99 ltac:(done) ltac:(lia)) as Hx. rewrite Hc in Hx.
  apply Hx; lia.
Defined.

(** ** Code memory *)

Definition apart (a b : Z * Z) : Prop := a.2 <= b.1 \/ b.2 <= a.1.

Record arena_ok (a : CodeArena) : Prop := {
  ao_used : 0 <= a_used a <= a_size a;
  ao_page : a_used a mod 4096 = 0;
  ao_base : a_base a mod 4096 = 0
}.

Definition arena_range (a : CodeArena) : Z * Z := (a_base a, a_base a + a_size a).

(** The arenas are apart, and what is executable is used space of one. *)
Record code_wf (j : JitCompiler) : Prop := {
  cw_arena : forall k a, arenas_ j !! k = Some a -> arena_ok a;
  cw_apart : forall k k' a b, k <> k' -> arenas_ j !! k = Some a -> arenas_ j !! k' = Some b ->
    apart (arena_range a) (arena_range b);
  cw_rx : forall lo hi, (lo, hi) ∈ rx_ j -> exists k a, arenas_ j !! k = Some a /\
    a_base a <= lo /\ hi <= a_base a + a_used a /\ lo mod 4096 = 0 /\ hi mod 4096 = 0
}.

(** What [mmap] promises: page-aligned memory that is not in use. *)
Definition mmap_fresh (j : JitCompiler) (size : Z) (res : option Z) : Prop :=
  forall base, res = Some base -> base mod 4096 = 0 /\
    forall k a, arenas_ j !! k = Some a -> apart (arena_range a) (base, base + size).

Lemma page_round_spec n : 0 <= n -> n <= page_round n < n + 4096 /\ page_round n mod 4096 = 0.
Proof.
  intros Hn. unfold page_round. change (Z.lnot 4095) with (Z.lnot (Z.ones 12)).
  rewrite <- Z.ldiff_land, Z.ldiff_ones_r by lia. rewrite Z.shiftl_mul_pow2, Z.shiftr_div_pow2 by lia.
  change (2 ^ 12) with 4096. split; [|apply Z.mod_mul; lia].
  pose proof (Z.div_mod (n + 4095) 4096 ltac:(lia)). pose proof (Z.mod_pos_bound (n + 4095) 4096 ltac:(lia)). lia.
Qed.

Lemma find_arena_spec n l k : find_arena n l = Some k ->
  exists a, l !! k = Some a /\ a_used a + n <= a_size a.
Proof.
  revert k. induction l as [|a l IH]; intros k Hf; [done|]. cbn in Hf.
  destruct (Z.leb_spec (a_used a + n) (a_size a)); [injection Hf as <-; by exists a|].
  destruct (find_arena n l) as [k'|]; [|done]. injection Hf as <-. by apply IH.
Qed.

(** The arenas after a possible new one, and the one chosen. *)
Lemma code_wf_arena n mres j k l :
  code_wf j -> 0 <= n ->
  mmap_fresh j (if kCodeArenaSize <? n then n else kCodeArenaSize) mres ->
  match find_arena n (arenas_ j) with
  | Some k => Some (k, arenas_ j)
  | None => match mres with
            | None => None
            | Some base => Some (length (arenas_ j),
                arenas_ j ++ [mkarena base (if kCodeArenaSize <? n then n else kCodeArenaSize) 0])
            end
  end = Some (k, l) ->
  code_wf (set_arenas l (rx_ j) j) /\ exists a, l !! k = Some a /\ a_used a + n <= a_size a.
Proof.
  intros [A P R] Hn Hfr Hf. destruct (find_arena n (arenas_ j)) as [k0|] eqn:Ea.
  - injection Hf as <- <-. split; [by split|]. by apply find_arena_spec.
  - destruct mres as [base|]; [|done]. injection Hf as <- <-. destruct (Hfr base eq_refl) as [Hb Hap].
    set (sz := if kCodeArenaSize <? n then n else kCodeArenaSize) in *.
    assert (0 < sz /\ n <= sz) as Hsz by (unfold sz, kCodeArenaSize; zcases; lia).
    split; [|exists (mkarena base sz 0); rewrite list_lookup_middle by done; split; [done|cbn; lia]].
    split; cbn [arenas_ rx_ set_arenas].
    + intros k a [Hk|[Hk Hk2]]%lookup_app_Some; [by eapply A|]. apply list_lookup_singleton_Some in Hk2 as [_ <-].
      split; cbn; [lia|done|done].
    + intros k k' a b Hne [Hk|[Hk Hk2]]%lookup_app_Some [Hk'|[Hk' Hk2']]%lookup_app_Some.
      * by apply (P k k').
      * apply list_lookup_singleton_Some in Hk2' as [_ <-]. by eapply Hap.
      * apply list_lookup_singleton_Some in Hk2 as [_ <-]. destruct (Hap k' b Hk'); [by right|by left].
      * apply list_lookup_singleton_Some in Hk2 as [? _]. apply list_lookup_singleton_Some in Hk2' as [? _]. lia.
    + intros lo hi Hr. destruct (R lo hi Hr) as (k & a & Hk & ?). exists k, a. split; [|done].
      by apply lookup_app_l_Some.
Qed.

(** Taking [n] bytes of arena [k] and making them executable. *)
Lemma code_wf_take n j k a :
  code_wf j -> 0 <= n -> n mod 4096 = 0 -> arenas_ j !! k = Some a -> a_used a + n <= a_size a ->
  let code := a_base a + a_used a in
  code_wf (set_arenas (<[k := mkarena (a_base a) (a_size a) (a_used a + n)]> (arenas_ j))
                      ((code, code + n) :: rx_ j) j) /\
  code mod 4096 = 0 /\ forall r, r ∈ rx_ j -> apart r (code, code + n).
Proof.
  intros [A P R] Hn Hp Hk Hfit code. destruct (A k a Hk) as [Hu Hup Hbp].
  assert (code mod 4096 = 0) as Hcp by (unfold code; rewrite Z.add_mod, Hup, Hbp by lia; done).
  assert (k < length (arenas_ j))%nat as Hlt by by eapply lookup_lt_Some.
  set (a' := mkarena (a_base a) (a_size a) (a_used a + n)).
  assert (forall k' b, <[k:=a']> (arenas_ j) !! k' = Some b ->
            (k' = k /\ b = a') \/ (k' <> k /\ arenas_ j !! k' = Some b)) as Hl.
  { intros k' b. destruct (decide (k' = k)) as [->|Hne].
    - rewrite list_lookup_insert_eq by done. intros [= <-]. by left.
    - rewrite list_lookup_insert_ne by done. by right. }
  split_and!.
  - split; cbn [arenas_ rx_ set_arenas].
    + intros k' b [[-> ->]|[_ Hb]]%Hl; [|by eapply A]. split; cbn; [lia| |done].
      rewrite Z.add_mod, Hup, Hp by lia. done.
    + assert (arena_range a' = arena_range a) as Har by done.
      intros k1 k2 b1 b2 Hne [[-> ->]|[Hn1 H1]]%Hl [[-> ->]|[Hn2 H2]]%Hl; rewrite ?Har; [done|by apply (P k k2)|by apply (P k1 k)|by apply (P k1 k2)].
    + intros lo hi [Heq|Hr]%elem_of_cons.
      * injection Heq as -> ->. exists k, a'. rewrite list_lookup_insert_eq by done.
        split_and!; [done|unfold code; cbn; lia|unfold code; cbn; lia|done|].
        rewrite Z.add_mod, Hcp, Hp by lia. done.
      * destruct (R lo hi Hr) as (k' & b & Hb & H1 & H2 & H3 & H4). destruct (decide (k' = k)) as [->|Hne].
        -- assert (b = a) as -> by congruence. exists k, a'. rewrite list_lookup_insert_eq by done.
           split_and!; [done|done|cbn; lia|done|done].
        -- exists k', b. by rewrite list_lookup_insert_ne.
  - done.
  - intros [lo hi] Hr. destruct (R lo hi Hr) as (k' & b & Hb & H1 & H2 & H3 & H4). unfold apart. cbn [fst snd].
    destruct (decide (k' = k)) as [->|Hne]; [assert (b = a) as -> by congruence; left; unfold code; lia|].
    destruct (A k' b Hb) as [Hub _ _].
    destruct (P k' k b a Hne Hb Hk) as [Hd|Hd]; unfold arena_range in Hd; cbn [fst snd] in Hd; unfold code; lia.
Qed.

(** Code memory obeys W^X: whatever [mmap] and [mprotect] answer,
    [finalize_code] writes only to pages none of which is executable yet, keeps
    the arenas apart, and the code it returns starts on a page boundary and lies
    in pages made executable. *)
Theorem finalize_code_wx code_size mres pok j :
  code_wf j -> 0 < code_size ->
  mmap_fresh j (if kCodeArenaSize <? page_round code_size then page_round code_size else kCodeArenaSize) mres ->
  let '(code, written, j') := finalize_code code_size mres pok j in
  code_wf j' /\
  (forall lo hi, written = Some (lo, hi) -> lo mod 4096 = 0 /\
     forall r, r ∈ rx_ j -> apart r (lo, lo + page_round code_size)) /\
  (forall c, code = Some c -> written = Some (c, c + code_size) /\
     (c, c + page_round code_size) ∈ rx_ j' /\ c + code_size <= c + page_round code_size).
Proof.
  intros Hw Hs Hfr. destruct (page_round_spec code_size ltac:(lia)) as [Hr1 Hr2].
  unfold finalize_code. cbn zeta. destruct (match find_arena _ _ with Some _ => _ | None => _ end) as [[k l]|] eqn:Ef; [|done].
  destruct (code_wf_arena (page_round code_size) mres j k l Hw ltac:(lia) Hfr Ef) as (Hw1 & a & Hk & Hfit). rewrite Hk.
  destruct (code_wf_take (page_round code_size) (set_arenas l (rx_ j) j) k a Hw1 ltac:(lia) Hr2 Hk Hfit) as (Hw2 & Hc & Hap).
  cbn [arenas_ rx_ set_arenas] in *. destruct pok.
  - split_and!; [exact Hw2| |].
    + intros lo hi [= <- <-]. split; [done|exact Hap].
    + intros c [= <-]. split_and!; [done|cbn; left|lia].
  - split_and!; [exact Hw1| |done]. intros lo hi [= <- <-]. split; [done|exact Hap].
Qed.

Definition empty_jit : JitCompiler := mkjit true false 1 ∅ ∅ ∅ [] [] 0 0 0.
Definition one_arena : JitCompiler :=
  set_arenas [mkarena 0x10000 kCodeArenaSize 0x2000] [(0x10000, 0x12000)] empty_jit.

Lemma one_arena_wf : code_wf one_arena.
Proof.
  split; cbn [arenas_ rx_ one_arena set_arenas].
  - intros [|k] a Hk; [|done]. injection Hk as <-. split; vm_compute; [|done..]. by split.
  - intros [|k] [|k'] a b Hne Ha Hb; done.
  - intros lo hi Hr. apply list_elem_of_singleton in Hr. injection Hr as -> ->. exists 0%nat. eexists. split; [done|]. vm_compute. by split_and!.
Qed.

Lemma finalize_code_wx_witness :
  code_wf one_arena /\
  let '(code, written, j') := finalize_code 5000 None true one_arena in code = Some 0x12000 /\ code_wf j'.
Proof.
  split; [exact one_arena_wf|].
  assert (mmap_fresh one_arena (if kCodeArenaSize <? page_round 5000 then page_round 5000 else kCodeArenaSize) None) as Hf by done.
  pose proof (finalize_code_wx 5000 None true one_arena one_arena_wf ltac:(lia) Hf) as Hx.
  destruct (finalize_code 5000 None true one_arena) as [[code written] j'] eqn:Ef.
  split; [|apply Hx]. vm_compute in Ef. by injection Ef as <- _ _.
Defined.

(** ** The helpers of compiled code *)

Section Helpers.
Context {S : Type} {env : HostEnv} {fp : HostFp}.
Context `{SyscallHandler S} `{DebugHooks S}.

(** [helper_push_frame] and [helper_pop_frame] are [push_frame] and [pop_frame].
    [helper_safepoint]: nonzero to leave the compiled code. *)
Definition helper_safepoint : M S Z :=
  saved_pc <- pc ;;
  ok <- safepoint ;;
  if negb ok then ret 1
  else pc' <- pc ;; ret (if negb (pc' =? saved_pc) then 1 else 0).

Definition helper_do_syscall (call_id : Z) : M S bool :=
  saved_pc <- pc ;;
  ok <- do_syscall call_id ;;
  pc' <- pc ;;
  if negb ok then
    (if pc' =? saved_pc then add_pc INSN_SIZE else ret tt) ;; ret false
  else if negb (pc' =? saved_pc) then
    set_flags VM_JIT_ABORT ;; add_pc INSN_SIZE ;; ret false
  else
    restart <- gets restart_syscall_pc_ ;;
    if negb (restart =? 0) then ret false
    else
      f <- get_flags ;;
      if has f (Z.lor (Z.lor VM_EXITED VM_KILLED) (Z.lor VM_STOPPED VM_SIGNAL_PENDING))
      then add_pc INSN_SIZE ;; ret false
      else ret true.

Definition helper_do_softfp (call_id : Z) : M S bool := do_softfp call_id ;; ret true.

Definition helper_call_indirect (ret_gpa target : Z) : M S unit :=
  ok <- push_frame ret_gpa target false false ;;
  if negb ok then ret tt
  else
    p <- mmuM target INSN_SIZE ;;
    match p with
    | None => log_mem_violation target ;; set_flags VM_KILLED
    | Some _ => put_pc target
    end.

(** [helper_call_indirect_ic]: the slot is the call site's, filled when the
    target is compiled. *)
Definition helper_call_indirect_ic (j : JitCompiler) (ret_gpa target : Z) (slot : IndirectICSlot)
    : M S IndirectICSlot :=
  helper_call_indirect ret_gpa target ;;
  f <- get_flags ;;
  if has f (Z.lor VM_KILLED VM_EXITED) then ret slot
  else if negb (ic_tag slot =? target) then
    match resolve_call j target with
    | Some e => frame <- frame_size_of target ;; ret (mkic target e frame)
    | None => ret slot
    end
  else ret slot.

Definition helper_call_bpf (ret_gpa callee_gpa : Z) : M S unit :=
  ok <- push_frame ret_gpa callee_gpa false false ;;
  if negb ok then set_flags VM_EXITED
  else
    p <- mmuM callee_gpa INSN_SIZE ;;
    match p with
    | None => log_mem_violation callee_gpa ;; set_flags VM_KILLED
    | Some _ => put_pc callee_gpa
    end.

Definition helper_return_to_caller (ret_gpa : Z) : M S Z :=
  p <- mmuM ret_gpa INSN_SIZE ;;
  match p with
  | None => log_mem_violation ret_gpa ;; set_flags VM_KILLED ;; ret (-1)
  | Some _ => put_pc ret_gpa ;; ret 0
  end.

(** [helper_resolve_and_cache]: the entry, and what the slot then holds. *)
Definition helper_resolve_and_cache (j : JitCompiler) (callee_gpa slot : Z) : M S (option Z * Z) :=
  match resolve_call j callee_gpa with
  | Some target => ret (Some target, target)
  | None => put_pc callee_gpa ;; ret (None, slot)
  end.

Definition helper_mmu (addr size : Z) : M S (option hptr) := mem_op (fun m => mmu_slow m addr size).
Definition helper_mmu_w (addr size : Z) : M S (option hptr) := mem_op (fun m => mmu_w_slow m addr size).

(** Leaving compiled code with [VM_JIT_ABORT] set makes no difference to the
    safepoint that follows. *)
Lemma safepoint_ignores_abort (v : vm S) :
  safepoint (put_flags (Z.lor (flags v) VM_JIT_ABORT) v) = safepoint v.
Proof.
  unfold safepoint. unfold bind at 1. symmetry. unfold bind at 1. unfold clear_flags, modify. cbn [flags put_flags].
  assert (andnot (Z.lor (flags v) VM_JIT_ABORT) VM_JIT_ABORT = andnot (flags v) VM_JIT_ABORT) as ->; [|done].
  unfold andnot. apply Z.bits_inj'. intros n Hn. rewrite !Z.ldiff_spec, Z.lor_spec.
  destruct (Z.testbit (flags v) n), (Z.testbit VM_JIT_ABORT n); done.
Qed.

(** The interpreter's machine state after the system call of [v], at its next
    instruction. *)
Definition after_syscall (v1 : vm S) : vm S := set_pc (u64 (pc_ v1 + INSN_SIZE)) v1.

End Helpers.

(** A system call from compiled code acts as the interpreter's: where the
    interpreter goes on after the call, the helper either stays in the compiled
    code, in the interpreter's state and with nothing pending; or, for a call to
    be restarted, leaves with the program counter still at the call; or leaves
    in a state the next safepoint takes for the interpreter's next state.  Where
    the interpreter stops, the helper leaves too, and only the program counter
    may differ. *)
Theorem helper_syscall_as_interpreted {S} {env : HostEnv} {fp : HostFp}
    `{SyscallHandler S} `{DebugHooks S} id (v v1 : vm S) ok :
  do_syscall id v = Ok ok v1 ->
  exists b v', helper_do_syscall id v = Ok b v' /\
    if ok then
      if b then v' = v1 /\ pc_ v1 = pc_ v /\
                has (flags v1) (Z.lor (Z.lor VM_EXITED VM_KILLED) (Z.lor VM_STOPPED VM_SIGNAL_PENDING)) = false
      else (restart_syscall_pc_ v1 <> 0 /\ pc_ v1 = pc_ v /\ v' = v1) \/
           (pc_ v' = pc_ (after_syscall v1) /\ safepoint v' = safepoint (after_syscall v1))
    else b = false /\ exists c, v' = set_pc c v1.
Proof.
  intros E. unfold helper_do_syscall. unfold bind at 1, pc at 1, gets at 1. unfold bind at 1. rewrite E.
  unfold bind at 1, pc at 1, gets at 1. destruct ok; cbn [negb].
  - destruct (Z.eqb_spec (pc_ v1) (pc_ v)) as [Hpc|Hpc]; cbn [negb].
    + unfold bind at 1, gets at 1. destruct (Z.eqb_spec (restart_syscall_pc_ v1) 0) as [Hr|Hr]; cbn [negb].
      * unfold bind at 1, get_flags, gets at 1. destruct (has (flags v1) _) eqn:Hf.
        -- eexists false, (after_syscall v1). split; [done|]. right. done.
        -- eexists true, v1. split; [done|]. done.
      * eexists false, v1. split; [done|]. by left.
    + eexists false, (put_flags (Z.lor (flags (after_syscall v1)) VM_JIT_ABORT) (after_syscall v1)).
      split; [done|]. right. split; [done|]. apply safepoint_ignores_abort.
  - destruct (pc_ v1 =? pc_ v).
    + eexists false, (after_syscall v1). split; [done|]. split; [done|]. by eexists.
    + eexists false, v1. split; [done|]. split; [done|]. exists (pc_ v1). by destruct v1.
Qed.

Lemma helper_syscall_as_interpreted_witness :
  exists v1 b v', do_syscall (H := EmptySyscall) (H0 := NoHooks unit) 3 demo_vm = Ok true v1 /\
    helper_do_syscall (H := EmptySyscall) (H0 := NoHooks unit) 3 demo_vm = Ok b v'.
Proof.
  eexists. assert (do_syscall (H := EmptySyscall) (H0 := NoHooks unit) 3 demo_vm = Ok true _) as E by reflexivity.
  destruct (helper_syscall_as_interpreted (env := permissive_env) (fp := x86_fp) 3 demo_vm _ true E) as (b & v' & Eh & _).
  exists b, v'. split; [exact E|exact Eh].
Defined.

(** Calls: the helper builds the frame and goes to the callee, as the
    interpreter does with its call instruction and the step to the next pc. *)
Lemma helper_call_as_interpreted {S} {env : HostEnv} {fp : HostFp}
    `{SyscallHandler S} `{DebugHooks S} p cur (v v1 : vm S) callee :
  insn_class cur = BPF_JMP -> insn_op cur = BPF_CALL -> insn_is_x cur = false -> src_reg cur = 1 ->
  callee = u64 (pc_ v + INSN_SIZE + imm cur * INSN_SIZE) ->
  exec p cur v = Ok true v1 -> (forall u, push_frame (u64 (pc_ v + INSN_SIZE)) callee false false v = Ok true u ->
     decode_insn (load (mm u) p 8) = cur /\ pc_ u = pc_ v /\ mem_wf (mm u) /\
     exists q, translate (maps (mm u)) callee INSN_SIZE = Some q) ->
  exists v', helper_call_bpf (u64 (pc_ v + INSN_SIZE)) callee v = Ok tt v' /\
    tlb_only (set_pc (u64 (pc_ v1 + INSN_SIZE)) v1) v'.
Proof.
  intros Hc Ho Hx Hsr Hcal E Hpush. unfold exec in E. rewrite Hc in E. cbn in E. unfold jmp in E. rewrite Ho, Hx in E.
  minv E. minv E. unfold ret in Hm. injection Hm as <- <-. unfold r, gets in Hm0. injection Hm0 as <- <-.
  cbn in E. rewrite Hsr in E. cbn in E.
  rewrite <- Hcal in E. minv E. rename x into ok. destruct ok; [|done]. cbn [negb] in E.
  destruct (Hpush u Hm) as (Hd & Hpc & Hwf & q & Hq). minv E. unfold insn_at in Hm0. minv Hm0.
  unfold loadM, gets in Hm1. injection Hm1 as <- <-. unfold ret in Hm0. injection Hm0 as <- <-. rewrite Hd in E.
  unfold bind, add_pc, modify, ret in E. injection E as <-.
  unfold helper_call_bpf. unfold bind at 1. rewrite Hm. cbn [negb].
  destruct (mmuM_same u callee INSN_SIZE Hwf) as (m & Hsm & Em); [rewrite Hcal; apply u64_range|unfold INSN_SIZE; lia|].
  unfold bind at 1. rewrite Em, Hq. eexists. split; [done|]. exists m. split; [exact Hsm|].
  cbn [pc_ set_pc]. rewrite uwrap_add_l, Hpc. replace (pc_ v + imm cur * INSN_SIZE + INSN_SIZE) with (pc_ v + INSN_SIZE + imm cur * INSN_SIZE) by lia.
  by rewrite <- Hcal.
Qed.
