(* ===== verification/Link.v ===== *)
(** * Link: the code the compiler puts together

    What [JitCompiler::compile] relies on in an emitter ([EmitterLaws]: an
    emitter only appends, the places it leaves to be patched lie in what it
    appended and do not overlap, a patch changes one branch), and what follows
    for the finished code: the emission loop ([emit_loop]) keeps the map from
    instructions to code offsets, and the patching sends every branch where the
    instruction it belongs to says ([compile_links]). *)

From S2P Require Import Prelude HostMem AddrSpace Isa Vm Segments Frame SoftFp Interp InterpFacts Discover Jit.
From Stdlib Require Import Lia.
From stdpp Require Import base numbers list gmap option relations.

Open Scope Z_scope.
Open Scope vm_scope.

(** ** What the compiler relies on

    An emitter only appends; the places it leaves to be patched lie in what it
    appended and do not overlap; patching a branch changes its destination and
    nothing else, as long as the code is no longer than the branch reaches. *)

Inductive place_tag := TJump (k : PlaceholderKind) | TAbort | TSlot.
Record place := mkplace { p_tag : place_tag; p_off : Z; p_len : Z }.

Definition jump_place (ph : JumpPlaceholder) : place := mkplace (TJump (ph_kind ph)) (patch_offset ph) 4.
Definition abort_place (ap : AbortPatchInfo) : place := mkplace TAbort (jump_offset ap) 4.
Definition slot_place (o : Z) : place := mkplace TSlot o 8.

Definition places_apart (p q : place) : Prop := p_off p + p_len p <= p_off q \/ p_off q + p_len q <= p_off p.

Section Laws.
Context {E : Type} `{JitEmitter E}.
Context (buf_ok : E -> Prop) (granule : Z) (reach : PlaceholderKind -> Z) (abort_kind : PlaceholderKind).

(** The branch a place stands for. *)
Definition place_branch (e : E) (p : place) : Prop :=
  match p_tag p with
  | TJump k => exists t, branch_at e (p_off p) = Some (k, t)
  | TAbort => exists t, branch_at e (p_off p) = Some (abort_kind, t)
  | TSlot => True
  end.

Record appended (e e' : E) (ps : list place) : Prop := {
  ap_ok : buf_ok e';
  ap_size : 0 <= e_size e <= e_size e';
  ap_granule : e_size e' mod granule = 0;
  ap_keep : forall o, o + 4 <= e_size e -> branch_at e' o = branch_at e o;
  ap_in : forall p, p ∈ ps -> e_size e <= p_off p /\ p_off p + p_len p <= e_size e' /\ 4 <= p_len p /\
            p_off p mod granule = 0 /\ place_branch e' p;
  ap_apart : forall p q, p ∈ ps -> q ∈ ps -> p = q \/ places_apart p q
}.

(** A patch at [o] that makes the branch there go to [t]. *)
Definition patches (patch : Z -> Z -> E -> E) (k : PlaceholderKind) : Prop :=
  forall o t e t0, buf_ok e -> 0 <= o -> o + 4 <= e_size e -> o mod granule = 0 ->
    0 <= t <= e_size e -> t mod granule = 0 -> e_size e <= reach k ->
    branch_at e o = Some (k, t0) ->
    let e' := patch o t e in
    buf_ok e' /\ e_size e' = e_size e /\ branch_at e' o = Some (k, t) /\
    forall o', o' + 4 <= o \/ o + 4 <= o' -> branch_at e' o' = branch_at e o'.

(** The forms of the branches left to patch. *)
Definition left_form (k : PlaceholderKind) : Prop := k = Unconditional \/ k = abort_kind.

(** One jump: a single placeholder for target [t], unconditional if [unc]. *)
Definition one_jump (e : E) (x : E * list JumpPlaceholder) (t : Z) (dp unc : bool) : Prop :=
  exists o k, x.2 = [mkph o t k dp] /\ left_form k /\ (unc = true -> k = Unconditional) /\
    appended e x.1 [mkplace (TJump k) o 4].

Class EmitterLaws : Prop := {
  el_fresh : forall a b, buf_ok (e_fresh a b) /\ e_size (e_fresh a b) = 0;
  el_prologue : forall e, buf_ok e -> e_size e = 0 ->
    appended e (emit_prologue e).2 [] /\
    0 <= (emit_prologue e).1 <= e_size (emit_prologue e).2 /\ (emit_prologue e).1 mod granule = 0;
  el_safepoint : forall e n g, buf_ok e -> appended e (emit_safepoint n g e) [];
  el_alu : forall e insn b e', buf_ok e -> emit_alu insn b e = Some e' -> appended e e' [];
  el_ld : forall e i1 i2 e', buf_ok e -> emit_ld i1 i2 e = Some e' -> appended e e' [];
  el_ldx : forall e insn i e' ab, buf_ok e -> emit_ldx insn i e = Some (e', ab) -> appended e e' (abort_place <$> ab);
  el_st : forall e insn i e' ab, buf_ok e -> emit_st insn i e = Some (e', ab) -> appended e e' (abort_place <$> ab);
  el_stx : forall e insn i e' ab, buf_ok e -> emit_stx insn i e = Some (e', ab) -> appended e e' (abort_place <$> ab);
  el_jmp : forall e insn i b x, buf_ok e -> emit_jmp insn i b e = Some x ->
    one_jump e x (s32 (i + 1 + off insn)) false false;
  el_jmp_deopt : forall e insn b g x, buf_ok e -> emit_jmp_deopt insn b g e = Some x -> one_jump e x (-1) true true;
  el_set_pc : forall e g, buf_ok e -> appended e (emit_set_pc_imm g e) [];
  el_ja : forall e insn i, buf_ok e -> one_jump e (emit_ja insn i e) (s32 (i + 1 + off insn)) false true;
  el_ja32 : forall e insn i, buf_ok e -> one_jump e (emit_ja32 insn i e) (s32 (i + 1 + imm insn)) false true;
  el_syscall : forall e insn i g, buf_ok e -> appended e (emit_call_syscall insn i g e) [];
  el_softfp : forall e insn e', buf_ok e -> emit_call_softfp insn e = Some e' -> appended e e' [];
  el_softfp_slow : forall e insn i g, buf_ok e -> appended e (emit_call_softfp_slow insn i g e) [];
  el_call_bpf : forall e r c f i, buf_ok e -> let '(e', ab, cs) := emit_call_bpf r c f i e in
    appended e e' ((abort_place <$> ab) ++ (slot_place <$> cs));
  el_call_indirect : forall e insn r i, buf_ok e -> let '(e', ab, cs) := emit_call_indirect insn r i e in
    appended e e' ((abort_place <$> ab) ++ (slot_place <$> cs));
  el_exit : forall e i, buf_ok e -> let '(e', ab) := emit_exit i e in appended e e' (abort_place <$> ab);
  el_cond : patches patch_branch_cond Conditional;
  el_uncond : patches patch_branch_uncond Unconditional;
  el_abort : patches patch_branch_abort abort_kind;
  el_write : forall e o x, buf_ok e -> 0 <= o -> o + 8 <= e_size e -> o mod granule = 0 ->
    buf_ok (write64 o x e) /\ e_size (write64 o x e) = e_size e /\
    forall o', o' + 4 <= o \/ o + 8 <= o' -> branch_at (write64 o x e) o' = branch_at e o'
}.

(** ** Composing emissions *)

Lemma appended_trans e1 e2 e3 ps qs :
  appended e1 e2 ps -> appended e2 e3 qs -> appended e1 e3 (ps ++ qs).
Proof.
  intros [O1 S1 G1 K1 I1 A1] [O2 S2 G2 K2 I2 A2]. split; [done|lia|done| | |].
  - intros o Ho. rewrite K2 by lia. by apply K1.
  - intros p [Hp|Hp]%elem_of_app.
    + destruct (I1 p Hp) as (H1 & H2 & H3 & H4 & H5). split_and!; [done|lia|done|done|].
      unfold place_branch in *. destruct (p_tag p); [|rewrite K2 by lia; exact H5|done].
      rewrite K2 by lia. exact H5.
    + destruct (I2 p Hp) as (H1 & H2 & H3 & H4 & H5). split_and!; [lia|done..].
  - intros p q [Hp|Hp]%elem_of_app [Hq|Hq]%elem_of_app; [by apply A1| | |by apply A2];
      right; [destruct (I1 p Hp) as (? & ? & _), (I2 q Hq) as (? & _)|destruct (I2 p Hp) as (? & _), (I1 q Hq) as (? & ? & _)];
      unfold places_apart; lia.
Qed.

Lemma appended_nil_l e1 e2 e3 qs : appended e1 e2 [] -> appended e2 e3 qs -> appended e1 e3 qs.
Proof. apply (appended_trans e1 e2 e3 [] qs). Qed.

Lemma appended_same e1 e2 ps qs :
  appended e1 e2 ps -> (forall p, p ∈ qs -> p ∈ ps) -> appended e1 e2 qs.
Proof. intros [O S1 G K I A] Hs. split; auto. Qed.

End Laws.
Arguments EmitterLaws E {_} buf_ok granule reach abort_kind.
Arguments el_fresh {E _ buf_ok granule reach abort_kind _}.
Arguments el_prologue {E _ buf_ok granule reach abort_kind _}.
Arguments el_safepoint {E _ buf_ok granule reach abort_kind _}.
Arguments el_alu {E _ buf_ok granule reach abort_kind _}.
Arguments el_ld {E _ buf_ok granule reach abort_kind _}.
Arguments el_ldx {E _ buf_ok granule reach abort_kind _}.
Arguments el_st {E _ buf_ok granule reach abort_kind _}.
Arguments el_stx {E _ buf_ok granule reach abort_kind _}.
Arguments el_jmp {E _ buf_ok granule reach abort_kind _}.
Arguments el_jmp_deopt {E _ buf_ok granule reach abort_kind _}.
Arguments el_set_pc {E _ buf_ok granule reach abort_kind _}.
Arguments el_ja {E _ buf_ok granule reach abort_kind _}.
Arguments el_ja32 {E _ buf_ok granule reach abort_kind _}.
Arguments el_syscall {E _ buf_ok granule reach abort_kind _}.
Arguments el_softfp {E _ buf_ok granule reach abort_kind _}.
Arguments el_softfp_slow {E _ buf_ok granule reach abort_kind _}.
Arguments el_call_bpf {E _ buf_ok granule reach abort_kind _}.
Arguments el_call_indirect {E _ buf_ok granule reach abort_kind _}.
Arguments el_exit {E _ buf_ok granule reach abort_kind _}.
Arguments el_cond {E _ buf_ok granule reach abort_kind _}.
Arguments el_uncond {E _ buf_ok granule reach abort_kind _}.
Arguments el_abort {E _ buf_ok granule reach abort_kind _}.
Arguments el_write {E _ buf_ok granule reach abort_kind _}.

Section Links.
Context {S : Type} {env : HostEnv} {E : Type} `{JitEmitter E}.
Context {buf_ok : E -> Prop} {granule : Z} {reach : PlaceholderKind -> Z} {abort_kind : PlaceholderKind}.
Context {EL : EmitterLaws E buf_ok granule reach abort_kind}.
Abbreviation appended := (appended buf_ok granule abort_kind).

Definition places (w : work E) : list place :=
  (jump_place <$> placeholders w) ++ (abort_place <$> abort_patches w) ++
  (slot_place <$> call_cache_offs w) ++ (slot_place <$> ic_cache_offs w).

(** One emitted instruction adds [js], [ab], [cs], [ics]. *)
Record adds (w w' : work E) (js : list JumpPlaceholder) : Prop := {
  ad_code : exists ps, appended (em w) (em w') ps /\ (forall ph, ph ∈ js -> jump_place ph ∈ ps) /\
    forall p, p ∈ places w' -> p ∈ places w \/ p ∈ ps;
  ad_js : placeholders w' = placeholders w ++ js;
  ad_pcs : pc_offsets w' = pc_offsets w
}.

Lemma did_adds n w e js ab cs ics :
  appended (em w) e ((jump_place <$> js) ++ (abort_place <$> ab) ++ (slot_place <$> cs) ++ (slot_place <$> ics)) ->
  adds w (did n w e js ab cs ics) js.
Proof.
  intros Ha. split; [|done|done]. eexists. split; [exact Ha|]. split.
  - intros ph Hph. apply elem_of_app. left. by apply list_elem_of_fmap_2.
  - intros p. unfold places. cbn [did placeholders abort_patches call_cache_offs ic_cache_offs].
    rewrite !fmap_app, !elem_of_app. tauto.
Qed.

(** The placeholders of instruction [i]: one for its jump, if it has one. *)
Definition jump_phs (prog : Z -> bpf_insn) (num_insns i : Z) (js : list JumpPlaceholder) : Prop :=
  match jumps_to prog i with
  | None => js = []
  | Some t =>
    exists ph, js = [ph] /\ left_form abort_kind (ph_kind ph) /\
      (0 <= t < num_insns -> target_bpf_index ph = t /\ deopt ph = false) /\
      (~ (0 <= t < num_insns) -> deopt ph = true /\ ph_kind ph = Unconditional /\
                                  ~ (0 <= target_bpf_index ph < num_insns))
  end.

Lemma one_jump_adds w e x t dp unc n :
  appended (em w) e [] -> one_jump buf_ok granule abort_kind e x t dp unc ->
  exists ph, x.2 = [ph] /\ target_bpf_index ph = t /\ deopt ph = dp /\
    left_form abort_kind (ph_kind ph) /\ (unc = true -> ph_kind ph = Unconditional) /\
    forall d, adds w (did n w x.1 [mkph (patch_offset ph) (target_bpf_index ph) (ph_kind ph) d] [] [] [])
                   [mkph (patch_offset ph) (target_bpf_index ph) (ph_kind ph) d].
Proof.
  intros Ha (o & k & Hx & Hf & Hk & Hap). exists (mkph o t k dp). split_and!; [done..|]. intros d. apply did_adds.
  eapply appended_nil_l; [exact Ha|exact Hap].
Qed.

Lemma out_of_range tgt n : (tgt <? 0) || (n <=? tgt) = negb ((0 <=? tgt) && (tgt <? n)).
Proof. apply eq_true_iff_eq. rewrite orb_true_iff, negb_true_iff, andb_false_iff. rewrite Z.ltb_lt, Z.leb_le, Z.leb_gt, Z.ltb_ge. tauto. Qed.

Lemma appended_refl e : buf_ok e -> 0 <= e_size e -> e_size e mod granule = 0 -> appended e e [].
Proof. intros. split; [done|lia|done|done|set_solver|set_solver]. Qed.

(** A buffer between two instructions. *)
Definition at_boundary (e : E) : Prop := buf_ok e /\ 0 <= e_size e /\ e_size e mod granule = 0.

Lemma jump_always_adds prog g i n w tgt ja :
  at_boundary (em w) -> jumps_to prog i = Some tgt ->
  (forall e, buf_ok e -> one_jump buf_ok granule abort_kind e (ja e) tgt false true) ->
  exists js, adds w (emit_jump_always g tgt n ja w) js /\ jump_phs prog n i js.
Proof.
  intros (Hok & Hs & Hg) Hj Hja. unfold emit_jump_always. rewrite out_of_range.
  destruct ((0 <=? tgt) && (tgt <? n)) eqn:Hin; cbn [negb].
  - destruct (one_jump_adds w (em w) (ja (em w)) tgt false true 1) as (ph & Hx & Ht & Hd & Hf & Hk & Ha);
      [by apply appended_refl|by apply Hja|].
    destruct (ja (em w)) as [e2 js]. cbn [fst snd] in *. subst js. exists [ph]. split.
    + specialize (Ha (deopt ph)). destruct ph; exact Ha.
    + unfold jump_phs. rewrite Hj. exists ph. zprops. split_and!; [done|done|by intros _|lia].
  - pose proof (el_set_pc (em w) (gpa_of g tgt) Hok) as Hsp.
    destruct (one_jump_adds w _ (ja (emit_set_pc_imm (gpa_of g tgt) (em w))) tgt false true 1 Hsp) as (ph & Hx & Ht & Hd & Hf & Hk & Ha);
      [apply Hja, (ap_ok _ _ _ _ _ _ Hsp)|].
    destruct (ja _) as [e2 js]. cbn [fst snd] in *. subst js. cbn [mark_back rev app].
    eexists. split; [apply (Ha true)|]. unfold jump_phs. rewrite Hj. eexists. split; [done|].
    cbn [target_bpf_index deopt ph_kind]. rewrite Ht. split; [done|]. split; [|by intros ?; split_and!; [|apply Hk|]].
    intros Hr. apply andb_false_iff in Hin as [?|?]; zprops; lia.
Qed.

Lemma jump_cond_adds prog g i n w b w' :
  at_boundary (em w) -> jumps_to prog i = Some (off_target prog i) ->
  emit_jump_cond prog g i n b w = Some w' -> exists js, adds w w' js /\ jump_phs prog n i js.
Proof.
  intros (Hok & Hs & Hg) Hj. unfold emit_jump_cond. rewrite out_of_range.
  destruct ((0 <=? off_target prog i) && (off_target prog i <? n)) eqn:Hin; cbn [negb]; intros He.
  - destruct (emit_jmp (prog i) i b (em w)) as [[e js]|] eqn:Ej; [|done]. simplify_eq.
    destruct (one_jump_adds w (em w) (e, js) (off_target prog i) false false 1) as (ph & Hx & Ht & Hd & Hf & Hk & Ha);
      [by apply appended_refl|by apply (el_jmp (em w) (prog i) i b)|]. cbn [fst snd] in *. subst js.
    exists [ph]. split; [specialize (Ha (deopt ph)); destruct ph; exact Ha|].
    unfold jump_phs. rewrite Hj. exists ph. zprops. split_and!; [done|done|by intros _|lia].
  - destruct (emit_jmp_deopt (prog i) b _ (em w)) as [[e js]|] eqn:Ej; [|done]. simplify_eq.
    destruct (one_jump_adds w (em w) (e, js) (-1) true true 1) as (ph & Hx & Ht & Hd & Hf & Hk & Ha);
      [by apply appended_refl|by eapply el_jmp_deopt|]. cbn [fst snd] in *. subst js.
    exists [ph]. split; [specialize (Ha (deopt ph)); destruct ph; exact Ha|].
    unfold jump_phs. rewrite Hj. exists ph. split_and!; [done|done| |by intros _; rewrite Ht; split_and!; [|apply Hk|lia]].
    intros Hr. apply andb_false_iff in Hin as [?|?]; zprops; lia.
Qed.

Lemma adds_boundary w w' js : adds w w' js -> at_boundary (em w').
Proof. intros [(ps & [O S1 G _ _ _] & _) _ _]. split_and!; [done|lia|done]. Qed.

Lemma jumps_none prog i :
  (insn_class (prog i) = BPF_JMP -> insn_op (prog i) = BPF_CALL \/ insn_op (prog i) = BPF_EXIT) ->
  insn_class (prog i) <> BPF_JMP32 -> jumps_to prog i = None.
Proof.
  intros Hj Hn. unfold jumps_to. destruct (Z.eqb_spec (insn_class (prog i)) BPF_JMP) as [E1|_].
  - destruct (Hj E1) as [-> | ->]; done.
  - by rewrite (proj2 (Z.eqb_neq _ _) Hn).
Qed.

(** The instructions that leave no jump to patch. *)
Lemma plain_adds prog i n m w e ab cs ics :
  jumps_to prog i = None ->
  appended (em w) e ((abort_place <$> ab) ++ (slot_place <$> cs) ++ (slot_place <$> ics)) ->
  exists js, adds w (did m w e [] ab cs ics) js /\ jump_phs prog n i js.
Proof. intros Hj Ha. exists []. split; [by apply did_adds|]. unfold jump_phs. by rewrite Hj. Qed.

Lemma emit_instruction_adds prog g i n (w w' : work E) (v v' : vm S) :
  at_boundary (em w) -> emit_instruction prog g i n w v = Ok (Some w') v' ->
  exists js, adds w w' js /\ jump_phs prog n i js.
Proof.
  intros Hb. pose proof Hb as (Hok & _ & _). unfold emit_instruction. cbn zeta.
  pose proof (jumps_none prog i) as Hnone.
  destruct (Z.eqb_spec (insn_class (prog i)) BPF_ALU64) as [Hc|_].
  { intros He. destruct (10 <=? dst_reg (prog i)); [done|]. destruct (emit_alu _ _ _) as [e|] eqn:Ee; [|done].
    injection He as <- _. apply plain_adds; [by apply Hnone; rewrite Hc|]. by eapply el_alu. }
  destruct (Z.eqb_spec (insn_class (prog i)) BPF_ALU) as [Hc|_].
  { intros He. destruct (10 <=? dst_reg (prog i)); [done|]. destruct (emit_alu _ _ _) as [e|] eqn:Ee; [|done].
    injection He as <- _. apply plain_adds; [by apply Hnone; rewrite Hc|]. by eapply el_alu. }
  destruct (Z.eqb_spec (insn_class (prog i)) BPF_LD) as [Hc|_].
  { intros He. destruct (emit_ld _ _ _) as [e|] eqn:Ee; [|done].
    injection He as <- _. apply plain_adds; [by apply Hnone; rewrite Hc|]. by eapply el_ld. }
  destruct (Z.eqb_spec (insn_class (prog i)) BPF_LDX) as [Hc|_].
  { intros He. destruct (10 <=? dst_reg (prog i)); [done|]. destruct (emit_ldx _ _ _) as [[e ab]|] eqn:Ee; [|done].
    injection He as <- _. apply plain_adds; [by apply Hnone; rewrite Hc|]. rewrite app_nil_r. by eapply el_ldx. }
  destruct (Z.eqb_spec (insn_class (prog i)) BPF_ST) as [Hc|_].
  { intros He. destruct (emit_st _ _ _) as [[e ab]|] eqn:Ee; [|done].
    injection He as <- _. apply plain_adds; [by apply Hnone; rewrite Hc|]. rewrite app_nil_r. by eapply el_st. }
  destruct (Z.eqb_spec (insn_class (prog i)) BPF_STX) as [Hc|_].
  { intros He. destruct (emit_stx _ _ _) as [[e ab]|] eqn:Ee; [|done].
    injection He as <- _. apply plain_adds; [by apply Hnone; rewrite Hc|]. rewrite app_nil_r. by eapply el_stx. }
  destruct (Z.eqb_spec (insn_class (prog i)) BPF_JMP) as [Hc|_].
  - assert (insn_class (prog i) <> BPF_JMP32) as Hc32 by by rewrite Hc.
    destruct (Z.eqb_spec (insn_op (prog i)) BPF_JA) as [Ho|Hja].
    { intros He. injection He as <- _. apply jump_always_adds; [done| |].
      - unfold jumps_to. by rewrite Hc, Ho.
      - intros e. apply (el_ja e (prog i) i). }
    destruct (Z.eqb_spec (insn_op (prog i)) BPF_CALL) as [Ho|Hcall].
    { specialize (Hnone (fun _ => or_introl Ho) Hc32).
      destruct (insn_is_x (prog i)).
      { pose proof (el_call_indirect (em w) (prog i) (gpa_of g (i + 1)) i Hok) as Hl.
        destruct (emit_call_indirect _ _ _ _) as [[e ab] ics]. intros He. injection He as <- _.
        by apply plain_adds. }
      destruct (src_reg (prog i) =? 0).
      { intros He. injection He as <- _. apply plain_adds; [done|]. by apply (el_syscall (em w)). }
      destruct (src_reg (prog i) =? 1).
      { intros He. minv He.
        pose proof (el_call_bpf (em w) (gpa_of g (i + 1)) (gpa_of g (s32 (i + 1 + imm (prog i)))) x i Hok) as Hl.
        destruct (emit_call_bpf _ _ _ _ _) as [[e ab] cs]. injection He as <- _.
        apply plain_adds; [done|]. by rewrite app_nil_r. }
      destruct (src_reg (prog i) =? 2); [|done].
      intros He. injection He as <- _. apply plain_adds; [done|].
      destruct (emit_call_softfp _ _) as [e|] eqn:Ee; [by eapply el_softfp|by apply el_softfp_slow]. }
    destruct (Z.eqb_spec (insn_op (prog i)) BPF_EXIT) as [Ho|Hexit].
    { specialize (Hnone (fun _ => or_intror Ho) Hc32). pose proof (el_exit (em w) i Hok) as Hl.
      destruct (emit_exit _ _) as [e ab]. intros He. injection He as <- _.
      apply plain_adds; [done|]. by rewrite app_nil_r. }
    intros He. unfold ret in He. injection He as He _. eapply jump_cond_adds; [done| |exact He].
    unfold jumps_to. rewrite Hc. cbn.
    by rewrite (proj2 (Z.eqb_neq _ _) Hcall), (proj2 (Z.eqb_neq _ _) Hexit).
  - destruct (Z.eqb_spec (insn_class (prog i)) BPF_JMP32) as [Hc|_]; [|done].
    destruct (Z.eqb_spec (insn_op (prog i)) BPF_JA) as [Ho|Hja]; intros He; unfold ret in He.
    + injection He as <- _. apply jump_always_adds; [done| |].
      * unfold jumps_to. by rewrite Hc, Ho.
      * intros e. apply (el_ja32 e (prog i) i).
    + injection He as He _. eapply jump_cond_adds; [done| |exact He].
      unfold jumps_to. rewrite Hc. by rewrite (proj2 (Z.eqb_neq _ _) Hja).
Qed.

(** ** The emission loop *)

Section Loop.
Context (prog : Z -> bpf_insn) (r : discovered) (e1 : E).

(** Where the code of instruction [k] starts. *)
Definition starts (w : work E) (k o : Z) : Prop :=
  0 <= k /\ pc_offsets w !! Z.to_nat k = Some o /\ o <> UINT32_MAX.

(** Offset [o] lies in the code of instruction [k], a branch included. *)
Definition in_code (w : work E) (k o : Z) : Prop :=
  (exists s, starts w k s /\ s <= o) /\ (forall k2 s2, starts w k2 s2 -> k < k2 -> o + 4 <= s2) /\
  o + 4 <= e_size (em w).

Record linv (i : Z) (w : work E) : Prop := {
  li_b : at_boundary (em w);
  li_app : appended e1 (em w) (places w);
  li_len : length (pc_offsets w) = Z.to_nat (func_size r);
  li_set : forall k o, starts w k o ->
    k < i /\ emitted r k /\ e_size e1 <= o <= e_size (em w) /\ o mod granule = 0;
  li_done : forall k, emitted r k -> k < i -> exists o, starts w k o;
  li_mono : forall k1 k2 o1 o2, starts w k1 o1 -> starts w k2 o2 -> k1 < k2 -> o1 <= o2;
  li_jumps : forall k, emitted r k -> k < i -> exists js, jump_phs prog (func_size r) k js /\
    forall ph, ph ∈ js -> ph ∈ placeholders w /\ in_code w k (patch_offset ph);
  li_nodup : NoDup (patch_offset <$> placeholders w);
  li_kinds : forall ph, ph ∈ placeholders w -> deopt ph = true -> ph_kind ph = Unconditional;
  li_forms : forall ph, ph ∈ placeholders w -> left_form abort_kind (ph_kind ph)
}.

Lemma jump_phs_kind n i js ph :
  jump_phs prog n i js -> ph ∈ js -> deopt ph = true -> ph_kind ph = Unconditional.
Proof.
  unfold jump_phs. destruct (jumps_to prog i) as [t|]; [|intros ->; set_solver].
  intros (ph' & -> & _ & Hin & Hout) ->%list_elem_of_singleton Hd.
  destruct (decide (0 <= t < n)) as [Hr|Hr]; [destruct (Hin Hr); congruence|by apply Hout].
Qed.

Lemma jump_phs_form n i js ph : jump_phs prog n i js -> ph ∈ js -> left_form abort_kind (ph_kind ph).
Proof.
  unfold jump_phs. destruct (jumps_to prog i) as [t|]; [|intros ->; set_solver].
  by intros (ph' & -> & Hf & _) ->%list_elem_of_singleton.
Qed.

Lemma jump_phs_nodup n i js : jump_phs prog n i js -> NoDup (patch_offset <$> js).
Proof.
  unfold jump_phs. destruct (jumps_to prog i) as [t|]; [intros (ph & -> & _)|intros ->]; cbn.
  - apply NoDup_singleton.
  - constructor.
Qed.

Lemma linv_skip i w : linv i w -> ~ emitted r i -> linv (i + 1) w.
Proof.
  intros [B A L St D Mo J N K F] Hn. split; try done.
  - intros k o Ho. destruct (St k o Ho) as (? & ?). split; [lia|done].
  - intros k Hk Hki. apply D; [done|]. assert (k <> i) by (intros ->; done). lia.
  - intros k Hk Hki. apply J; [done|]. assert (k <> i) by (intros ->; done). lia.
Qed.

Lemma starts_note w w3 i k o :
  0 <= i < func_size r -> length (pc_offsets w) = Z.to_nat (func_size r) ->
  pc_offsets w3 = <[Z.to_nat i := u32 (e_size (em w))]> (pc_offsets w) ->
  0 <= e_size (em w) < UINT32_MAX ->
  starts w3 k o <-> (k = i /\ o = e_size (em w)) \/ (k <> i /\ starts w k o).
Proof.
  intros Hi Hl Hp Hs. assert (u32 (e_size (em w)) = e_size (em w)) as Hu by (apply uwrap_small; unfold UINT32_MAX in Hs; lia).
  unfold starts. rewrite Hp, Hu. destruct (decide (k = i)) as [->|Hne].
  - rewrite list_lookup_insert_eq by lia. split; [intros (? & [= <-] & ?); by left|].
    intros [[_ ->]|[? _]]; [|done]. split_and!; [lia|done|unfold UINT32_MAX in *; lia].
  - destruct (decide (0 <= k)) as [Hk|Hk]; [|split; [lia|intros [[? _]|(_ & ? & _)]; [done|lia]]].
    rewrite list_lookup_insert_ne by lia. split; [intros; by right|]. by intros [[? _]|[_ ?]].
Qed.

Lemma linv_emit i w w2 w3 js :
  linv i w -> emitted r i -> 0 <= i < func_size r -> e_size (em w3) < UINT32_MAX ->
  appended (em w) (em w2) [] -> placeholders w2 = placeholders w -> places w2 = places w ->
  pc_offsets w2 = <[Z.to_nat i := u32 (e_size (em w))]> (pc_offsets w) ->
  adds w2 w3 js -> jump_phs prog (func_size r) i js ->
  linv (i + 1) w3.
Proof.
  intros [B A L St D Mo J N K F] He Hi Hmax A12 Hph Hpl Hpc Had Hjs.
  pose proof (adds_boundary _ _ _ Had) as B3. destruct Had as [(ps & A23 & Hin & Hps) Hj3 Hp3].
  pose proof (ap_size _ _ _ _ _ _ A12) as Hs12. pose proof (ap_size _ _ _ _ _ _ A23) as Hs23.
  assert (forall k o, starts w3 k o <-> (k = i /\ o = e_size (em w)) \/ (k <> i /\ starts w k o)) as Hst.
  { intros k o. apply starts_note; [done|done|congruence|lia]. }
  assert (forall ph, ph ∈ js -> e_size (em w) <= patch_offset ph /\ patch_offset ph + 4 <= e_size (em w3)) as Hjr.
  { intros ph Hp. destruct (ap_in _ _ _ _ _ _ A23 _ (Hin ph Hp)) as (H1 & H2 & _). cbn in H1, H2. lia. }
  assert (forall k o, in_code w k o -> k < i -> in_code w3 k o) as Hic.
  { intros k o ((s & Hs & Hso) & Hnext & Hend) Hk. split_and!.
    - exists s. split; [|done]. apply Hst. right. split; [lia|done].
    - intros k2 s2 [[-> ->]|[_ Hs2]]%Hst Hk2; [lia|by eapply Hnext].
    - lia. }
  split.
  - done.
  - eapply appended_same; [eapply appended_trans; [exact A|eapply appended_nil_l; [exact A12|exact A23]]|].
    intros p Hp. apply elem_of_app. destruct (Hps p Hp) as [Hq|Hq]; [left; by rewrite <- Hpl|by right].
  - rewrite Hp3, Hpc, length_insert. exact L.
  - intros k o [[-> ->]|[_ Hs]]%Hst.
    + pose proof (ap_size _ _ _ _ _ _ A). destruct B as (_ & _ & Bg). split_and!; [lia|done|lia..|done].
    + destruct (St k o Hs) as (? & ? & ? & ?). split_and!; [lia|done|lia..|done].
  - intros k Hk Hki. destruct (decide (k = i)) as [->|Hne].
    + exists (e_size (em w)). apply Hst. by left.
    + destruct (D k Hk ltac:(lia)) as [o Ho]. exists o. apply Hst. by right.
  - intros k1 k2 o1 o2 [[-> ->]|[Hn1 Hs1]]%Hst [[-> ->]|[Hn2 Hs2]]%Hst Hlt.
    + lia.
    + destruct (St k2 o2 Hs2). lia.
    + destruct (St k1 o1 Hs1). lia.
    + by eapply (Mo k1 k2).
  - intros k Hk Hki. destruct (decide (k = i)) as [->|Hne].
    + exists js. split; [done|]. intros ph Hp. rewrite Hj3. split; [set_solver|]. destruct (Hjr ph Hp). split_and!.
      * exists (e_size (em w)). split; [apply Hst; by left|lia].
      * intros k2 s2 [[-> ->]|[_ Hs2]]%Hst Hk2; [lia|]. destruct (St k2 s2 Hs2). lia.
      * done.
    + destruct (J k Hk ltac:(lia)) as (js' & Hjs' & Hp'). exists js'. split; [done|].
      intros ph Hp. destruct (Hp' ph Hp). rewrite Hj3, Hph. split; [set_solver|]. apply Hic; [done|lia].
  - rewrite Hj3, fmap_app, Hph. apply NoDup_app. split_and!; [done| |by eapply jump_phs_nodup].
    intros o Ho Ho'. apply list_elem_of_fmap in Ho as (ph & -> & Hp). apply list_elem_of_fmap in Ho' as (ph' & Heq & Hp').
    destruct (Hjr ph' Hp').
    destruct (ap_in _ _ _ _ _ _ A (jump_place ph)) as (_ & Hq & _); [|cbn in Hq; lia].
    unfold places. apply elem_of_app. left. by apply list_elem_of_fmap_2.
  - intros ph. rewrite Hj3, Hph, elem_of_app. intros [Hp|Hp]; [by apply K|by eapply jump_phs_kind].
  - intros ph. rewrite Hj3, Hph, elem_of_app. intros [Hp|Hp]; [by apply F|by eapply jump_phs_form].
Qed.

(** The polled and noted state an instruction is emitted into. *)
Definition before (g i : Z) (w : work E) : work E :=
  let w1 := note_pc i w in
  if bat (back_edge_targets r) i
  then set_em (emit_safepoint (default 1 (loop_body_sizes r !! Z.to_nat i)) (gpa_of g i) (em w1)) w1
  else w1.

Lemma before_ok g i w : at_boundary (em w) ->
  appended (em w) (em (before g i w)) [] /\ at_boundary (em (before g i w)) /\
  placeholders (before g i w) = placeholders w /\ places (before g i w) = places w /\
  pc_offsets (before g i w) = <[Z.to_nat i := u32 (e_size (em w))]> (pc_offsets w).
Proof.
  intros (Bok & Bs & Bg).
  assert (appended (em w) (em (before g i w)) []) as A.
  { unfold before. destruct (bat _ _); [by apply (el_safepoint (em w))|by apply appended_refl]. }
  split; [exact A|]. split; [destruct A as [? ? ? _ _ _]; split_and!; [done|lia|done]|].
  unfold before. by destruct (bat _ _).
Qed.

(** One turn of the loop on an emitted instruction. *)
Lemma emit_turn g n i w w' (v v' : vm S) :
  at_boundary (em w) -> bat (reachable r) i = true ->
  emit_loop prog g r (Datatypes.S n) i w v = Ok (Emitted w') v' ->
  exists w3 js v1, adds (before g i w) w3 js /\ jump_phs prog (func_size r) i js /\
    e_size (em w) <= e_size (em w3) /\ emit_loop prog g r n (i + 1) w3 v1 = Ok (Emitted w') v'.
Proof.
  intros Hb Hr. cbn [emit_loop]. rewrite Hr. cbn [negb]. destruct (_ || _); [done|]. cbn zeta. fold (before g i w).
  intros He. minv He. destruct x as [w3|]; [|done]. destruct (before_ok g i w Hb) as (A & B2 & _).
  destruct (emit_instruction_adds prog g i (func_size r) (before g i w) w3 v u B2 Hm) as (js & Had & Hjs).
  exists w3, js, u. split_and!; [done|done| |done].
  pose proof (ap_size _ _ _ _ _ _ A). destruct Had as [(ps & A23 & _) _ _]. pose proof (ap_size _ _ _ _ _ _ A23). lia.
Qed.

(** The loop only grows the buffer. *)
Lemma emit_loop_grows g n i w w' (v v' : vm S) :
  at_boundary (em w) -> emit_loop prog g r n i w v = Ok (Emitted w') v' -> e_size (em w) <= e_size (em w').
Proof.
  revert i w v. induction n as [|n IH]; intros i w v Hb He.
  { cbn in He. unfold ret in He. injection He as <- _. lia. }
  destruct (bat (reachable r) i) eqn:Hr.
  - destruct (emit_turn g n i w w' v v' Hb Hr He) as (w3 & js & v1 & Had & _ & Hs & He').
    specialize (IH _ _ _ (adds_boundary _ _ _ Had) He'). lia.
  - cbn [emit_loop] in He. rewrite Hr in He. cbn [negb] in He. by eapply IH.
Qed.

Lemma emit_loop_linv g n i w w' (v v' : vm S) :
  linv i w -> 0 <= i -> i + Z.of_nat n <= func_size r ->
  emit_loop prog g r n i w v = Ok (Emitted w') v' -> e_size (em w') < UINT32_MAX ->
  linv (i + Z.of_nat n) w'.
Proof.
  intros Hl Hi Hn He Hm. revert i w v Hl Hi Hn He. induction n as [|n IH]; intros i w v Hl Hi Hn He.
  { cbn in He. unfold ret in He. injection He as <- _. by replace (i + Z.of_nat 0) with i by lia. }
  replace (i + Z.of_nat (Datatypes.S n)) with (i + 1 + Z.of_nat n) by lia.
  destruct (bat (reachable r) i) eqn:Hr.
  - destruct (emit_turn g n i w w' v v' (li_b _ _ Hl) Hr He) as (w3 & js & v1 & Had & Hjs & Hs & He').
    destruct (before_ok g i w (li_b _ _ Hl)) as (A & _ & Hph & Hpl & Hpc).
    pose proof (emit_loop_grows g n (i + 1) w3 w' v1 v' (adds_boundary _ _ _ Had) He').
    apply (IH (i + 1) w3 v1); [|lia|lia|done].
    eapply linv_emit; [exact Hl|by split|lia|lia|exact A|exact Hph|exact Hpl|exact Hpc|exact Had|exact Hjs].
  - cbn [emit_loop] in He. rewrite Hr in He. cbn [negb] in He.
    apply (IH (i + 1) w v); [|lia|lia|done]. apply linv_skip; [done|]. intros [_ ?]. congruence.
Qed.

End Loop.

(** ** Patching *)

(** Where a placeholder is sent. *)
Definition dest (offs : list Z) (n flush : Z) (ph : JumpPlaceholder) : Z :=
  default flush (pc_offset offs n (target_bpf_index ph)).

(** A buffer of fixed length whose branches at [good] places can be patched. *)
Definition patchable (e : E) (k : PlaceholderKind) (o : Z) : Prop :=
  0 <= o /\ o + 4 <= e_size e /\ o mod granule = 0 /\ exists t, branch_at e o = Some (k, t).

Definition is_target (e : E) (t : Z) : Prop := 0 <= t <= e_size e /\ t mod granule = 0.

(** [e'] is [e] with the branches at the places [os] changed. *)
Record repatched (e e' : E) (os : list Z) : Prop := {
  rp_ok : buf_ok e';
  rp_size : e_size e' = e_size e;
  rp_keep : forall o', (forall o, o ∈ os -> o' + 4 <= o \/ o + 4 <= o') -> branch_at e' o' = branch_at e o'
}.

Lemma repatched_trans e1 e2 e3 os1 os2 :
  repatched e1 e2 os1 -> repatched e2 e3 os2 -> repatched e1 e3 (os1 ++ os2).
Proof.
  intros [O1 S1 K1] [O2 S2 K2]. split; [done|congruence|].
  intros o' Ho'. rewrite K2; [apply K1|]; intros o Ho; apply Ho'; set_solver.
Qed.

Lemma patch_one_ok offs n flush ph e e' :
  buf_ok e -> patchable e (ph_kind ph) (patch_offset ph) -> e_size e <= reach (ph_kind ph) ->
  is_target e (dest offs n flush ph) -> (deopt ph = true -> ph_kind ph = Unconditional) ->
  patch_one offs n flush ph e = Some e' ->
  repatched e e' [patch_offset ph] /\ branch_at e' (patch_offset ph) = Some (ph_kind ph, dest offs n flush ph).
Proof.
  intros Hok (H1 & H2 & H3 & t0 & H4) Hr [Ht1 Ht2] Hd He. unfold patch_one, dest in *.
  assert (forall patch, patches buf_ok granule reach patch (ph_kind ph) ->
            e' = patch (patch_offset ph) (default flush (pc_offset offs n (target_bpf_index ph))) e ->
            repatched e e' [patch_offset ph] /\
            branch_at e' (patch_offset ph) = Some (ph_kind ph, default flush (pc_offset offs n (target_bpf_index ph)))) as Hp.
  { intros patch Hp ->. destruct (Hp (patch_offset ph) _ e t0 Hok H1 H2 H3 Ht1 Ht2 Hr H4) as (P1 & P2 & P3 & P4).
    split; [|done]. split; [done|done|]. intros o' Ho'. apply P4. specialize (Ho' (patch_offset ph) ltac:(left)). lia. }
  destruct (pc_offset offs n (target_bpf_index ph)) as [t|] eqn:Et; cbn [default] in *.
  - injection He as <-. destruct (ph_kind ph) eqn:Ek; eapply Hp; [apply el_cond|done|apply el_uncond|done].
  - destruct (deopt ph); [|done]. injection He as <-. rewrite Hd in * by done. eapply Hp; [apply el_uncond|done].
Qed.

Definition apart4 (o o' : Z) : Prop := o + 4 <= o' \/ o' + 4 <= o.

Lemma patch_jumps_ok offs n flush phs e e' :
  buf_ok e ->
  (forall ph, ph ∈ phs -> patchable e (ph_kind ph) (patch_offset ph) /\ e_size e <= reach (ph_kind ph) /\
     is_target e (dest offs n flush ph) /\ (deopt ph = true -> ph_kind ph = Unconditional)) ->
  (forall p q, p ∈ phs -> q ∈ phs -> p = q \/ apart4 (patch_offset p) (patch_offset q)) ->
  NoDup (patch_offset <$> phs) ->
  patch_jumps offs n flush phs e = Some e' ->
  repatched e e' (patch_offset <$> phs) /\
  forall ph, ph ∈ phs -> branch_at e' (patch_offset ph) = Some (ph_kind ph, dest offs n flush ph).
Proof.
  revert e. induction phs as [|ph l IH]; intros e Hok Hall Hap Hnd He; cbn [patch_jumps] in He.
  { injection He as <-. split; [by split|set_solver]. }
  destruct (patch_one offs n flush ph e) as [e1|] eqn:E1; [|done].
  destruct (Hall ph ltac:(left)) as (Hp & Hr & Ht & Hd).
  destruct (patch_one_ok offs n flush ph e e1 Hok Hp Hr Ht Hd E1) as [R1 B1].
  apply NoDup_cons in Hnd as [Hni Hnd].
  assert (forall q, q ∈ l -> apart4 (patch_offset ph) (patch_offset q)) as Hapl.
  { intros q Hq. destruct (Hap ph q ltac:(left) ltac:(by right)) as [->|]; [|done].
    exfalso. apply Hni. by apply list_elem_of_fmap_2. }
  pose proof (rp_size _ _ _ R1) as Hsz. destruct (IH e1) as [R2 B2]; [apply R1| | |done|done|].
  - intros q Hq. destruct (Hall q ltac:(by right)) as ((P1 & P2 & P3 & P4) & Hr' & [T1 T2] & Hd').
    unfold patchable, is_target. rewrite Hsz, (rp_keep _ _ _ R1); [done|].
    intros o ->%list_elem_of_singleton. destruct (Hapl q Hq); [by right|by left].
  - intros p q Hp' Hq'. apply Hap; by right.
  - split; [by apply (repatched_trans e e1 e' [patch_offset ph])|].
    intros q [->|Hq]%elem_of_cons; [|by apply B2]. rewrite (rp_keep _ _ _ R2); [done|].
    intros o Ho. apply list_elem_of_fmap in Ho as (q & -> & Hq). exact (Hapl q Hq).
Qed.

Lemma patch_aborts_ok flush aps e :
  buf_ok e -> is_target e flush -> e_size e <= reach abort_kind ->
  (forall ap, ap ∈ aps -> patchable e abort_kind (jump_offset ap)) ->
  (forall p q, p ∈ aps -> q ∈ aps -> jump_offset p = jump_offset q \/ apart4 (jump_offset p) (jump_offset q)) ->
  repatched e (patch_aborts flush aps e) (jump_offset <$> aps) /\
  forall ap, ap ∈ aps -> branch_at (patch_aborts flush aps e) (jump_offset ap) = Some (abort_kind, flush).
Proof.
  unfold patch_aborts. revert e. induction aps as [|ap l IH]; intros e Hok [T1 T2] Hr Hall Hap; cbn [fold_left].
  { split; [by split|set_solver]. }
  destruct (Hall ap ltac:(left)) as (P1 & P2 & P3 & t0 & P4).
  destruct (el_abort (jump_offset ap) flush e t0 Hok P1 P2 P3 T1 T2 Hr P4) as (Q1 & Q2 & Q3 & Q4).
  set (e1 := patch_branch_abort (jump_offset ap) flush e) in *.
  assert (repatched e e1 [jump_offset ap]) as R1.
  { split; [done|done|]. intros o' Ho'. apply Q4. specialize (Ho' (jump_offset ap) ltac:(left)). lia. }
  destruct (IH e1 Q1) as [R2 B2].
  - unfold is_target. by rewrite Q2.
  - by rewrite Q2.
  - intros q Hq. destruct (Hall q ltac:(by right)) as (S1 & S2 & S3 & t1 & S4).
    unfold patchable. rewrite Q2. split_and!; [done..|].
    destruct (Hap ap q ltac:(left) ltac:(by right)) as [<-|Ha]; [by exists flush|].
    exists t1. rewrite Q4; [done|]. unfold apart4 in Ha. lia.
  - intros p q Hp Hq. apply Hap; by right.
  - split; [by apply (repatched_trans e e1 _ [jump_offset ap])|].
    intros q [->|Hq]%elem_of_cons; [|by apply B2].
    destruct (decide (jump_offset ap ∈ (jump_offset <$> l))) as [Hin|Hni].
    + apply list_elem_of_fmap in Hin as (q & -> & Hq). by apply B2.
    + rewrite (rp_keep _ _ _ R2); [done|]. intros o Ho. apply list_elem_of_fmap in Ho as (q & -> & Hq).
      destruct (Hap ap q ltac:(left) ltac:(by right)) as [Heq|Ha]; [|exact Ha].
      exfalso. apply Hni. rewrite Heq. by apply list_elem_of_fmap_2.
Qed.

(** Writing the addresses of the slots: eight bytes each. *)
Lemma write_slots_ok addr k offs e :
  buf_ok e -> (forall o, o ∈ offs -> 0 <= o /\ o + 8 <= e_size e /\ o mod granule = 0) ->
  let e' := write_slots addr k offs e in
  buf_ok e' /\ e_size e' = e_size e /\
  forall o', (forall o, o ∈ offs -> o' + 4 <= o \/ o + 8 <= o') -> branch_at e' o' = branch_at e o'.
Proof.
  revert k e. induction offs as [|o l IH]; intros k e Hok Hall; cbn [write_slots]; cbn zeta; [done|].
  destruct (Hall o ltac:(left)) as (H1 & H2 & H3).
  destruct (el_write e o (addr k) Hok H1 H2 H3) as (W1 & W2 & W3).
  destruct (IH (Datatypes.S k) (write64 o (addr k) e) W1) as (V1 & V2 & V3).
  { intros q Hq. rewrite W2. apply Hall. by right. }
  split_and!; [done|congruence|]. intros o' Ho'. rewrite V3, W3; [done| |].
  - apply Ho'. left.
  - intros q Hq. apply Ho'. by right.
Qed.

(** ** The finished code *)

Context (call_slot ic_slot : Z -> nat -> Z).

(** What the code of one function promises, [s] being where the code of an
    instruction starts. *)
Record linked (prog : Z -> bpf_insn) (r : discovered) (w : work E) (e : E) (flush : Z) : Prop := {
  lk_starts : forall i, emitted r i -> i < func_size r -> exists s, starts w i s;
  lk_order : forall i j si sj, starts w i si -> starts w j sj -> i < j -> si <= sj;
  lk_jump : forall i t, emitted r i -> i < func_size r -> jumps_to prog i = Some t ->
    exists o k, in_code w i o /\
      (0 <= t < func_size r -> exists s, starts w t s /\ branch_at e o = Some (k, s)) /\
      (~ (0 <= t < func_size r) -> branch_at e o = Some (k, flush));
  lk_abort : forall ap, ap ∈ abort_patches w -> branch_at e (jump_offset ap) = Some (abort_kind, flush)
}.

Lemma pc_offset_starts w r t o :
  pc_offset (pc_offsets w) (func_size r) t = Some o -> starts w t o.
Proof.
  unfold pc_offset, starts. destruct ((t <? 0) || _) eqn:Ht; [done|]. zprops.
  destruct (pc_offsets w !! Z.to_nat t) as [o'|]; [|done]. destruct (Z.eqb_spec o' UINT32_MAX); [done|].
  intros [= ->]. done.
Qed.

Lemma patch_jumps_dest offs n flush phs e e' ph :
  patch_jumps offs n flush phs e = Some e' -> ph ∈ phs -> deopt ph = false ->
  exists o, pc_offset offs n (target_bpf_index ph) = Some o.
Proof.
  revert e. induction phs as [|p l IH]; intros e He Hin Hd; [set_solver|]. cbn in He.
  destruct (patch_one offs n flush p e) as [e1|] eqn:E1; [|done].
  apply elem_of_cons in Hin as [->|Hin]; [|by eapply IH].
  unfold patch_one in E1. destruct (pc_offset offs n _) as [o|]; [by exists o|]. by rewrite Hd in E1.
Qed.

(** The state the loop leaves, patched. *)
Section Final.
Context (prog : Z -> bpf_insn) (r : discovered) (e1 : E) (flush : Z) (w : work E) (gpa : Z) (e2 : E).
Hypothesis Hl : linv prog r e1 (func_size r) w.
Hypothesis He1 : 0 <= e_size e1 /\ 0 <= flush <= e_size e1 /\ flush mod granule = 0.
Hypothesis Hreach : e_size (em w) <= reach Unconditional.
Hypothesis Hreach_abort : e_size (em w) <= reach abort_kind.
Hypothesis Hlink : link w (func_size r) flush = Some e2.

Lemma flush_target : is_target (em w) flush.
Proof. pose proof (ap_size _ _ _ _ _ _ (li_app _ _ _ _ _ Hl)). split; [lia|apply He1]. Qed.

Lemma dest_target ph : is_target (em w) (dest (pc_offsets w) (func_size r) flush ph).
Proof.
  unfold dest. destruct (pc_offset _ _ _) as [o|] eqn:Eo; [|apply flush_target]. cbn.
  apply pc_offset_starts in Eo. destruct (li_set _ _ _ _ _ Hl _ _ Eo) as (_ & _ & ? & ?). split; [lia|done].
Qed.

Lemma jump_patchable ph : ph ∈ placeholders w -> patchable (em w) (ph_kind ph) (patch_offset ph).
Proof.
  intros Hp. destruct (ap_in _ _ _ _ _ _ (li_app _ _ _ _ _ Hl) (jump_place ph)) as (H1 & H2 & _ & H4 & H5).
  { unfold places. apply elem_of_app. left. by apply list_elem_of_fmap_2. }
  cbn in *. split_and!; [lia|done|done|exact H5].
Qed.

Lemma abort_in ap : ap ∈ abort_patches w -> abort_place ap ∈ places w.
Proof. intros Hp. unfold places. rewrite !elem_of_app. right. left. by apply list_elem_of_fmap_2. Qed.

Lemma slot_in o : o ∈ call_cache_offs w \/ o ∈ ic_cache_offs w -> slot_place o ∈ places w.
Proof.
  intros [Hp|Hp]; unfold places; rewrite !elem_of_app; do 2 right; [left|right]; by apply list_elem_of_fmap_2.
Qed.

Lemma places_far p q : p ∈ places w -> q ∈ places w -> p_tag p <> p_tag q -> places_apart p q.
Proof. intros Hp Hq Ht. destruct (ap_apart _ _ _ _ _ _ (li_app _ _ _ _ _ Hl) p q Hp Hq) as [->|]; done. Qed.

Lemma slots_patched e : e_size e = e_size (em w) -> buf_ok e ->
  let e3 := fill_slots call_slot ic_slot gpa w e in
  e_size e3 = e_size (em w) /\
  forall p, p ∈ places w -> p_tag p <> TSlot -> branch_at e3 (p_off p) = branch_at e (p_off p).
Proof.
  intros Hs Hok. unfold fill_slots.
  assert (forall o, o ∈ call_cache_offs w \/ o ∈ ic_cache_offs w -> 0 <= o /\ o + 8 <= e_size e /\ o mod granule = 0) as Hin.
  { intros o Ho. destruct (ap_in _ _ _ _ _ _ (li_app _ _ _ _ _ Hl) _ (slot_in o Ho)) as (H1 & H2 & _ & H4 & _).
    cbn in *. rewrite Hs. split_and!; [lia|done|done]. }
  destruct (write_slots_ok (call_slot gpa) 0 (call_cache_offs w) e Hok) as (A1 & A2 & A3); [auto|].
  destruct (write_slots_ok (ic_slot gpa) 0 (ic_cache_offs w) _ A1) as (B1 & B2 & B3).
  { intros o Ho. rewrite A2. auto. }
  split; [congruence|]. intros p Hp Ht.
  destruct (ap_in _ _ _ _ _ _ (li_app _ _ _ _ _ Hl) p Hp) as (_ & _ & Hlen & _).
  assert (forall o, o ∈ call_cache_offs w \/ o ∈ ic_cache_offs w -> p_off p + 4 <= o \/ o + 8 <= p_off p) as Hfar.
  { intros o Ho. destruct (places_far p (slot_place o) Hp (slot_in o Ho) Ht) as [Hd|Hd]; cbn in Hd; lia. }
  rewrite B3, A3; [done|auto|auto].
Qed.

Lemma jump_in ph : ph ∈ placeholders w -> jump_place ph ∈ places w.
Proof. intros Hp. unfold places. apply elem_of_app. left. by apply list_elem_of_fmap_2. Qed.

Lemma jumps_patched ej :
  patch_jumps (pc_offsets w) (func_size r) flush (placeholders w) (em w) = Some ej ->
  repatched (em w) ej (patch_offset <$> placeholders w) /\
  (forall ph, ph ∈ placeholders w ->
     branch_at ej (patch_offset ph) = Some (ph_kind ph, dest (pc_offsets w) (func_size r) flush ph)) /\
  (forall p, p ∈ places w -> (forall k, p_tag p <> TJump k) -> branch_at ej (p_off p) = branch_at (em w) (p_off p)).
Proof.
  intros Ej. pose proof (li_b _ _ _ _ _ Hl) as (Bok & _ & _).
  destruct (patch_jumps_ok (pc_offsets w) (func_size r) flush (placeholders w) (em w) ej Bok) as [R1 B1]; [| | |done|].
  - intros ph Hp. split_and!; [by apply jump_patchable|by destruct (li_forms _ _ _ _ _ Hl ph Hp) as [-> | ->]|apply dest_target|apply (li_kinds _ _ _ _ _ Hl ph Hp)].
  - intros p q Hp Hq.
    destruct (ap_apart _ _ _ _ _ _ (li_app _ _ _ _ _ Hl) (jump_place p) (jump_place q) (jump_in p Hp) (jump_in q Hq)) as [Heq|Hd].
    + left. injection Heq as Hk Ho.
      apply list_elem_of_lookup in Hp as [kp Hp]. apply list_elem_of_lookup in Hq as [kq Hq].
      assert (kp = kq) as ->; [|congruence].
      apply (NoDup_lookup _ _ _ (patch_offset p) (li_nodup _ _ _ _ _ Hl)); rewrite list_lookup_fmap; [by rewrite Hp|by rewrite Hq; cbn; congruence].
    + right. exact Hd.
  - apply (li_nodup _ _ _ _ _ Hl).
  - split_and!; [done|done|]. intros p Hp Ht. apply (rp_keep _ _ _ R1). intros o Ho.
    apply list_elem_of_fmap in Ho as (ph & -> & Hph).
    destruct (ap_in _ _ _ _ _ _ (li_app _ _ _ _ _ Hl) p Hp) as (_ & _ & Hlen & _).
    destruct (places_far p (jump_place ph) Hp (jump_in ph Hph)) as [Hd|Hd]; [apply Ht|cbn in Hd; lia|cbn in Hd; lia].
Qed.

Lemma aborts_patched ej :
  patch_jumps (pc_offsets w) (func_size r) flush (placeholders w) (em w) = Some ej ->
  let ea := patch_aborts flush (abort_patches w) ej in
  buf_ok ea /\ e_size ea = e_size (em w) /\
  (forall ap, ap ∈ abort_patches w -> branch_at ea (jump_offset ap) = Some (abort_kind, flush)) /\
  (forall ph, ph ∈ placeholders w ->
     branch_at ea (patch_offset ph) = Some (ph_kind ph, dest (pc_offsets w) (func_size r) flush ph)).
Proof.
  intros Ej. destruct (jumps_patched ej Ej) as (R1 & B1 & Hej). pose proof (rp_size _ _ _ R1) as Hsz.
  destruct (patch_aborts_ok flush (abort_patches w) ej) as [R2 B2].
  - apply R1.
  - unfold is_target. rewrite Hsz. apply flush_target.
  - by rewrite Hsz.
  - intros ap Hp. destruct (ap_in _ _ _ _ _ _ (li_app _ _ _ _ _ Hl) _ (abort_in ap Hp)) as (H1 & H2 & _ & H4 & H5).
    cbn in *. unfold patchable. rewrite Hsz. split_and!; [lia|done|done|].
    destruct H5 as [t0 Ht0]. exists t0. pose proof (Hej (abort_place ap) (abort_in ap Hp)) as Hx. cbn in Hx. by rewrite Hx.
  - intros p q Hp Hq. destruct (ap_apart _ _ _ _ _ _ (li_app _ _ _ _ _ Hl) _ _ (abort_in p Hp) (abort_in q Hq)) as [Heq|Hd].
    + left. by injection Heq.
    + right. exact Hd.
  - cbn zeta. split_and!; [apply R2|rewrite (rp_size _ _ _ R2); exact Hsz|exact B2|].
    intros ph Hp. rewrite (rp_keep _ _ _ R2); [by apply B1|].
    intros o Ho. apply list_elem_of_fmap in Ho as (ap & -> & Hap).
    destruct (places_far (jump_place ph) (abort_place ap) (jump_in ph Hp) (abort_in ap Hap)) as [Hd|Hd]; [done|by left|by right].
Qed.

Lemma final_linked : linked prog r w (fill_slots call_slot ic_slot gpa w e2) flush /\
  e_size (fill_slots call_slot ic_slot gpa w e2) = e_size (em w).
Proof.
  unfold link in Hlink. destruct (patch_jumps _ _ _ _ _) as [ej|] eqn:Ej; [|done]. cbn in Hlink. injection Hlink as <-.
  destruct (aborts_patched ej Ej) as (A1 & A2 & A3 & A4).
  destruct (slots_patched (patch_aborts flush (abort_patches w) ej) A2 A1) as [S1 S2].
  split; [|exact S1]. split.
  - intros i Hi Hn. by apply (li_done _ _ _ _ _ Hl).
  - apply (li_mono _ _ _ _ _ Hl).
  - intros i t Hi Hn Hj. destruct (li_jumps _ _ _ _ _ Hl i Hi Hn) as (js & Hjs & Hin).
    unfold jump_phs in Hjs. rewrite Hj in Hjs. destruct Hjs as (ph & -> & _ & Hd1 & Hd2).
    destruct (Hin ph ltac:(left)) as [Hp Hc]. exists (patch_offset ph), (ph_kind ph). split; [exact Hc|].
    pose proof (S2 (jump_place ph) (jump_in ph Hp)) as Hx. cbn [jump_place p_off p_tag] in Hx.
    rewrite Hx, (A4 ph Hp) by done. unfold dest. split.
    + intros Hr. destruct (Hd1 Hr) as [Ht Hdp]. destruct (patch_jumps_dest _ _ _ _ _ _ ph Ej Hp Hdp) as [s Hs].
      rewrite Hs. exists s. split; [|done]. rewrite <- Ht. by apply (pc_offset_starts w r).
    + intros Hr. destruct (Hd2 Hr) as (_ & _ & Ht). unfold pc_offset.
      rewrite out_of_range. by assert ((0 <=? target_bpf_index ph) && (target_bpf_index ph <? func_size r) = false) as ->
        by (apply andb_false_iff; rewrite Z.leb_gt, Z.ltb_ge; lia).
  - intros ap Hp. pose proof (S2 (abort_place ap) (abort_in ap Hp)) as Hx. cbn [abort_place p_off p_tag] in Hx.
    rewrite Hx by done. by apply A3.
Qed.

End Final.

(** The loop starts from the prologue. *)
Lemma linv_start prog r e1 : 0 < func_size r -> at_boundary e1 ->
  linv prog r e1 0 (mkwork e1 [] [] [] [] (replicate (Z.to_nat (func_size r)) UINT32_MAX) 0).
Proof.
  intros Hn Hb. assert (forall k o, ~ starts (mkwork e1 [] [] [] [] (replicate (Z.to_nat (func_size r)) UINT32_MAX) 0) k o) as Hs.
  { intros k o (_ & Hk & Ho). cbn in Hk. apply lookup_replicate in Hk as [-> _]. done. }
  destruct Hb as (H1 & H2 & H3). split.
  - by split_and!.
  - by apply appended_refl.
  - apply length_replicate.
  - intros k o Ho. by apply Hs in Ho.
  - intros k [? _] ?. lia.
  - intros k1 k2 o1 o2 Ho. by apply Hs in Ho.
  - intros k [? _] ?. lia.
  - constructor.
  - intros ph Hp. cbn in Hp. set_solver.
  - intros ph Hp. cbn in Hp. set_solver.
Qed.

(** The code fits the reach of the branches left to patch. *)
Definition fits (w : work E) : Prop :=
  e_size (em w) < UINT32_MAX /\ e_size (em w) <= reach Unconditional /\ e_size (em w) <= reach abort_kind.

Lemma compile_real_links gpa mres pok j (v : vm S) k j' v' :
  compile_real call_slot ic_slot gpa mres pok j v = Ok (Some k, j') v' ->
  exists prog limit r w e flush code written j1,
    k = gpa /\ discover_reachable prog limit = Some r /\
    finalize_code (e_size e) mres pok (prepare gpa w j) = (Some code, written, j1) /\
    j' = install gpa w e code j1 /\
    (fits w -> linked prog r w e flush /\ e_size e = e_size (em w)).
Proof.
  unfold compile_real. intros He. minv He. destruct x as [p|]; [|done]. minv He.
  destruct (seg_rest x gpa) as [rest|]; [|done]. minv He. minv He. rename x0 into prog, x1 into limit.
  destruct (discover_reachable prog (s32 rest)) as [r|] eqn:Er; [|done].
  destruct (Z.leb_spec (func_size r) 0) as [|Hsz]; [done|]. cbn zeta in He.
  set (e0 := e_fresh _ _) in *. destruct (emit_prologue e0) as [flush e1] eqn:Ep.
  minv He. destruct x0 as [w|]; [|done]. destruct (compiled_count w =? 0); [done|].
  destruct (link w (func_size r) flush) as [e2|] eqn:El; [|done].
  destruct (finalize_code _ _ _ _) as [[[code|] wr] j1] eqn:Ef; [|done]. unfold ret in He. injection He as <- <- <-.
  exists prog, (s32 rest), r, w, (fill_slots call_slot ic_slot gpa w e2), flush, code, wr, j1.
  split_and!; [done..|]. intros (F1 & F2 & F3).
  destruct (el_fresh (debug_enabled_ j || negb (limit =? 0)) (negb (limit =? 0))) as [Fok Fsz].
  fold e0 in Fok, Fsz. destruct (el_prologue e0 Fok Fsz) as (Ap & Hfl & Hfg). rewrite Ep in Ap, Hfl, Hfg. cbn [fst snd] in *.
  assert (at_boundary e1) as Hb1 by (destruct Ap as [? ? ? _ _ _]; split_and!; [done|lia|done]).
  pose proof (linv_start prog r e1 Hsz Hb1) as Hl0.
  assert (linv prog r e1 (func_size r) w) as Hl.
  { replace (func_size r) with (0 + Z.of_nat (Z.to_nat (func_size r))) at 1 by lia.
    match goal with Hx : emit_loop _ _ _ _ _ _ _ = Ok (Emitted w) _ |- _ =>
      eapply emit_loop_linv; [exact Hl0|lia|lia|exact Hx|exact F1] end. }
  apply (final_linked prog r e1 flush w gpa e2 Hl); [|done..]. destruct Hb1. lia.
Qed.

(** The compiler links what it emits: when [compile] newly compiles a pc, the
    code handed to [finalize_code] has, for every emitted instruction, its code
    after that of the instructions before it; every jump of an instruction goes to
    the start of the code of its target, or to the common exit when the target is
    outside the function; and every failed memory access goes to the common exit.
    (For every emitter that obeys [EmitterLaws], provided the code is no longer
    than its branches reach.) *)
Lemma compile_links gpa mres pok j (v : vm S) k j' v' :
  jit_wf j -> gpa <> 0 -> ~ compiled_at j gpa ->
  compile call_slot ic_slot gpa mres pok j v = Ok (Some k, j') v' ->
  exists prog limit r w e flush code,
    discover_reachable prog limit = Some r /\ 
    (exists f, entries_ j' !! gpa = Some f /\ je_code f = code /\ je_pc_offsets f = pc_offsets w) /\
    (exists written j0 j1, finalize_code (e_size e) mres pok j0 = (Some code, written, j1)) /\
    (fits w -> linked prog r w e flush /\ e_size e = e_size (em w)).
Proof.
  intros Hw Hg Hn. unfold compile. destruct (negb (enabled_ j)); [done|]. intros He. minv He.
  destruct (has x VM_DEBUG_ATTACHED); [done|]. destruct (cached j gpa) as [g e] eqn:Ec.
  destruct (Z.eqb_spec g gpa) as [->|_].
  { pose proof (cached_answer gpa j e Hw Hg Ec) as Ha. unfold ret in He. destruct e; simplify_eq. tauto. }
  cbn zeta in He. cbn [entries_ set_stats] in He. destruct (entries_ j !! gpa) as [en|] eqn:Een.
  { destruct (decide (je_kind en = Compiled)); [|done]. exfalso. apply Hn. by exists en. }
  destruct (hot_count _ _ _) as [hot h]. destruct (negb hot); [done|]. set (j2 := set_entries _ _) in He.
  destruct (compile_real_links _ _ _ _ _ _ _ _ He) as (prog & limit & r & w & e' & flush & code & wr & j1 & -> & Er & Ef & -> & Hl).
  exists prog, limit, r, w, e', flush, code. split_and!; [done| |by exists wr, (prepare gpa w j2), j1|done].
  pose proof (finalize_same (e_size e') mres pok (prepare gpa w j2)) as [Hen _]. rewrite Ef in Hen. cbn [snd] in Hen.
  unfold install. cbn zeta. unfold cache. cbn [entries_ set_cache set_entries set_stats].
  rewrite lookup_alter_eq, Hen. unfold prepare. cbn [entries_ set_entries]. rewrite lookup_alter_eq.
  unfold j2. cbn [entries_ set_entries]. rewrite lookup_insert_eq. cbn. eexists. by split_and!.
Qed.

End Links.
