(* ===== verification/A64.v ===== *)
(** * A64: the instructions of the AArch64 backend

    The instruction words of jit/aarch64_emitter.cpp (the low-level functions
    [movz] ... [csel], one Definition each, as the 32-bit words they emit), and
    what the processor does with them.  The processor is the interface [A64Cpu]:
    for the instructions the integer code uses it behaves as [a64_exec], a
    transcription of their documented effect on the registers and flags, on the
    instruction the documented encoding ([a64_decode]) gives the word.

    Main results: every word decodes to the instruction its function names, with
    the operands it was given; and [mov_imm] loads its constant, with the shorter
    of the two sequences. *)

From S2P Require Import Prelude Isa.
From Stdlib Require Import Lia.
From stdpp Require Import base numbers list option.

Open Scope Z_scope.

(** ** Registers (namespace ARM) *)

Definition X0 : Z := 0.
Definition X1 : Z := 1.
Definition X2 : Z := 2.
Definition X3 : Z := 3.
Definition X9 : Z := 9.
Definition X10 : Z := 10.
Definition X11 : Z := 11.
Definition X12 : Z := 12.
Definition X13 : Z := 13.
Definition X14 : Z := 14.
Definition X15 : Z := 15.
Definition X16 : Z := 16.
Definition X19 : Z := 19.
Definition X20 : Z := 20.
Definition X21 : Z := 21.
Definition X22 : Z := 22.
Definition X23 : Z := 23.
Definition X28 : Z := 28.
Definition FP : Z := 29.
Definition LR : Z := 30.
Definition SP : Z := 31.

Definition BPF_REG_MAP : list Z := [X9; X10; X11; X12; X13; X14; X19; X20; X21; X22; X23].
Definition reg_map (r : Z) : Z := BPF_REG_MAP !!! Z.to_nat r.

(** ** Instruction words *)

(** [rd]. *)
Definition rd (r : Z) : Z := Z.land r 0x1F.
Definition bool_bit (b : bool) (n : Z) : Z := Z.shiftl (if b then 1 else 0) n.
Definition sel (b : bool) (x y : Z) : Z := if b then x else y.

(** [a | b | c ...] of 32-bit operands. *)
Definition ors (l : list Z) : Z := u32 (fold_left Z.lor l 0).

Definition hw_of (shift : Z) : Z := if 16 <=? shift then shift / 16 else 0.
Definition movz (dst imm shift : Z) (is_64 : bool) : Z :=
  ors [bool_bit is_64 31; Z.shiftl 1 30; Z.shiftl 0x25 23; Z.shiftl (hw_of shift) 21; Z.shiftl imm 5; rd dst].
Definition movk (dst imm shift : Z) (is_64 : bool) : Z :=
  ors [bool_bit is_64 31; Z.shiftl 1 30; Z.shiftl 1 29; Z.shiftl 0x25 23; Z.shiftl (hw_of shift) 21;
       Z.shiftl imm 5; rd dst].
(** The [MOVN] of [mov_imm], for chunk [i]. *)
Definition movn (dst imm i : Z) (is_64 : bool) : Z :=
  ors [sel is_64 0x92800000 0x12800000; Z.shiftl i 21; Z.shiftl imm 5; rd dst].

(** The 16-bit chunks of a constant. *)
Fixpoint chunks (n : nat) (v : Z) : list Z :=
  match n with
  | O => []
  | S k => v mod 2 ^ 16 :: chunks k (v / 2 ^ 16)
  end.

(** The loop over the chunks: those equal to [d] need no instruction; the first
    of the others starts the register, the rest are inserted. *)
Fixpoint mov_chunks (dst d : Z) (start : Z -> Z -> Z) (is_64 : bool) (i : Z) (first : bool) (ps : list Z)
    : list Z :=
  match ps with
  | [] => if first then [start 0 d] else []
  | p :: l =>
    if p =? d then mov_chunks dst d start is_64 (i + 1) first l
    else (if first then start i p else movk dst p (i * 16) is_64)
         :: mov_chunks dst d start is_64 (i + 1) false l
  end.

Definition mov_imm (dst val : Z) (is_64 : bool) : list Z :=
  let p := chunks (if is_64 then 4 else 2) val in
  let nz := length (filter (fun c => c <> 0) p) in
  let nf := length (filter (fun c => c <> 0xFFFF) p) in
  if (nf <? nz)%nat
  then mov_chunks dst 0xFFFF (fun i c => movn dst (Z.land (Z.lnot c) 0xFFFF) i is_64) is_64 0 true p
  else mov_chunks dst 0 (fun i c => movz dst c (i * 16) is_64) is_64 0 true p.

Definition mov_reg (dst src : Z) (is_64 : bool) : Z :=
  ors [bool_bit is_64 31; Z.shiftl 1 29; Z.shiftl 0x0A 24; Z.shiftl src 16; Z.shiftl 0x1F 5; rd dst].

Definition add_reg (d n m : Z) (is_64 : bool) : Z :=
  ors [bool_bit is_64 31; Z.shiftl 0x0B 24; Z.shiftl m 16; Z.shiftl n 5; rd d].
Definition sub_reg (d n m : Z) (is_64 : bool) : Z :=
  ors [bool_bit is_64 31; Z.shiftl 1 30; Z.shiftl 0x0B 24; Z.shiftl m 16; Z.shiftl n 5; rd d].
Definition and_reg (d n m : Z) (is_64 : bool) : Z :=
  ors [bool_bit is_64 31; Z.shiftl 0x0A 24; Z.shiftl m 16; Z.shiftl n 5; rd d].
Definition orr_reg (d n m : Z) (is_64 : bool) : Z :=
  ors [bool_bit is_64 31; Z.shiftl 1 29; Z.shiftl 0x0A 24; Z.shiftl m 16; Z.shiftl n 5; rd d].
Definition eor_reg (d n m : Z) (is_64 : bool) : Z :=
  ors [bool_bit is_64 31; Z.shiftl 1 30; Z.shiftl 0x0A 24; Z.shiftl m 16; Z.shiftl n 5; rd d].
Definition mul_reg (d n m : Z) (is_64 : bool) : Z :=
  ors [bool_bit is_64 31; Z.shiftl 0x1B 24; Z.shiftl m 16; Z.shiftl 0x1F 10; Z.shiftl n 5; rd d].
Definition umulh_reg (d n m : Z) : Z :=
  ors [Z.shiftl 1 31; Z.shiftl 0x1B 24; Z.shiftl 0x3 22; Z.shiftl m 16; Z.shiftl 0x1F 10; Z.shiftl n 5; rd d].
Definition msub_reg (d n m a : Z) (is_64 : bool) : Z :=
  ors [bool_bit is_64 31; Z.shiftl 0x1B 24; Z.shiftl m 16; Z.shiftl 1 15; Z.shiftl a 10; Z.shiftl n 5; rd d].
Definition udiv_reg (d n m : Z) (is_64 : bool) : Z :=
  ors [sel is_64 0x9AC00800 0x1AC00800; Z.shiftl m 16; Z.shiftl n 5; rd d].
Definition sdiv_reg (d n m : Z) (is_64 : bool) : Z :=
  ors [sel is_64 0x9AC00C00 0x1AC00C00; Z.shiftl m 16; Z.shiftl n 5; rd d].
Definition neg_reg (d s : Z) (is_64 : bool) : Z := sub_reg d 31 s is_64.
Definition lsl_reg (d n m : Z) (is_64 : bool) : Z :=
  ors [sel is_64 0x9AC02000 0x1AC02000; Z.shiftl m 16; Z.shiftl n 5; rd d].
Definition lsr_reg (d n m : Z) (is_64 : bool) : Z :=
  ors [sel is_64 0x9AC02400 0x1AC02400; Z.shiftl m 16; Z.shiftl n 5; rd d].
Definition asr_reg (d n m : Z) (is_64 : bool) : Z :=
  ors [sel is_64 0x9AC02800 0x1AC02800; Z.shiftl m 16; Z.shiftl n 5; rd d].

Definition add_imm (d n imm : Z) (is_64 : bool) : list Z :=
  if (0 <=? imm) && (imm <=? 4095) then
    [ors [bool_bit is_64 31; Z.shiftl 0x11 24; Z.shiftl imm 10; Z.shiftl n 5; rd d]]
  else if (imm <? 0) && (-4095 <=? imm) then
    [ors [bool_bit is_64 31; Z.shiftl 1 30; Z.shiftl 0x11 24; Z.shiftl (- imm) 10; Z.shiftl n 5; rd d]]
  else mov_imm X2 (u64 imm) is_64 ++ [add_reg d n X2 is_64].
Definition sub_imm (d n imm : Z) (is_64 : bool) : list Z :=
  if (-4095 <=? imm) && (imm <=? 4095) then add_imm d n (- imm) is_64
  else mov_imm X2 (u64 imm) is_64 ++ [sub_reg d n X2 is_64].
Definition and_imm (d n imm : Z) (is_64 : bool) : list Z := mov_imm X2 imm is_64 ++ [and_reg d n X2 is_64].
Definition orr_imm (d n imm : Z) (is_64 : bool) : list Z := mov_imm X2 imm is_64 ++ [orr_reg d n X2 is_64].
Definition eor_imm (d n imm : Z) (is_64 : bool) : list Z := mov_imm X2 imm is_64 ++ [eor_reg d n X2 is_64].

Definition lsl_imm (d n c : Z) (is_64 : bool) : Z :=
  let bits := sel is_64 64 32 in
  let immr := Z.land (u32 (- c)) (bits - 1) in
  let imms := u32 (bits - 1 - c) in
  ors [sel is_64 0xD3400000 0x53000000; Z.shiftl immr 16; Z.shiftl imms 10; Z.shiftl n 5; rd d].
Definition lsr_imm (d n c : Z) (is_64 : bool) : Z :=
  ors [sel is_64 0xD3400000 0x53000000; Z.shiftl c 16; Z.shiftl (sel is_64 63 31) 10; Z.shiftl n 5; rd d].
Definition asr_imm (d n c : Z) (is_64 : bool) : Z :=
  ors [sel is_64 0x93400000 0x13000000; Z.shiftl c 16; Z.shiftl (sel is_64 63 31) 10; Z.shiftl n 5; rd d].

Definition cmp_reg (n m : Z) (is_64 : bool) : Z :=
  ors [sel is_64 0xEB00001F 0x6B00001F; Z.shiftl m 16; Z.shiftl n 5].
Definition cmp_imm (n imm : Z) (is_64 : bool) : list Z :=
  if (0 <=? imm) && (imm <=? 4095) then
    [ors [bool_bit is_64 31; Z.shiftl 1 30; Z.shiftl 1 29; Z.shiftl 0x11 24; Z.shiftl imm 10; Z.shiftl n 5; 0x1F]]
  else mov_imm X2 (u64 imm) is_64 ++ [cmp_reg n X2 is_64].
Definition tst_reg (n m : Z) (is_64 : bool) : Z :=
  ors [sel is_64 0xEA00001F 0x6A00001F; Z.shiftl m 16; Z.shiftl n 5].

Definition b_cond (cond : Z) : Z := ors [0x54000000; cond].
Definition b_uncond : Z := 0x14000000.
Definition blr (r : Z) : Z := ors [0xD63F0000; Z.shiftl r 5].
Definition ret_insn : Z := 0xD65F03C0.
Definition cbz (r : Z) (is_64 : bool) : Z := ors [sel is_64 0xB4000000 0x34000000; rd r].
Definition cbnz (r : Z) (is_64 : bool) : Z := ors [sel is_64 0xB5000000 0x35000000; rd r].

(** Loads and stores: the scaled unsigned offset, or the address in X1. *)
Definition fits12 (off scale : Z) : bool := (0 <=? off) && (off mod scale =? 0) && (off / scale <=? 0xFFF).
Definition ldst_imm (base scale t n off : Z) : list Z :=
  if fits12 off scale then [ors [base; Z.shiftl (off / scale) 10; Z.shiftl n 5; rd t]]
  else add_imm X1 n off true ++ [ors [base; Z.shiftl X1 5; rd t]].
Definition ldr_imm (t n off : Z) (is_64 : bool) : list Z :=
  let scale := sel is_64 8 4 in
  let base := sel is_64 0xF9400000 0xB9400000 in
  if fits12 off scale then [ors [base; Z.shiftl (off / scale) 10; Z.shiftl n 5; rd t]]
  else (if off =? 0 then [] else add_imm X1 n off true) ++
       [ors [base; Z.shiftl (if off =? 0 then n else X1) 5; rd t]].
Definition str_imm (t n off : Z) (is_64 : bool) : list Z :=
  let scale := sel is_64 8 4 in
  let base := sel is_64 0xF9000000 0xB9000000 in
  if fits12 off scale then [ors [base; Z.shiftl (off / scale) 10; Z.shiftl n 5; rd t]]
  else (if off =? 0 then [] else add_imm X1 n off true) ++
       [ors [base; Z.shiftl (if off =? 0 then n else X1) 5; rd t]].
Definition ldrsw (t n off : Z) : list Z := ldst_imm 0xB9800000 4 t n off.
Definition ldrsh (t n off : Z) (is_64 : bool) : list Z := ldst_imm (sel is_64 0x79800000 0x79C00000) 2 t n off.
Definition ldrsb (t n off : Z) (is_64 : bool) : list Z := ldst_imm (sel is_64 0x39800000 0x39C00000) 1 t n off.
Definition ldrh (t n off : Z) : list Z := ldst_imm 0x79400000 2 t n off.
Definition ldrb (t n off : Z) : list Z := ldst_imm 0x39400000 1 t n off.
Definition strh (t n off : Z) : list Z := ldst_imm 0x79000000 2 t n off.
Definition strb (t n off : Z) : list Z := ldst_imm 0x39000000 1 t n off.
Definition imm7 (off : Z) (is_64 : bool) : Z := Z.land (u32 (Z.quot off (sel is_64 8 4))) 0x7F.
Definition stp (t1 t2 n off : Z) (is_64 : bool) : Z :=
  ors [sel is_64 0xA9000000 0x29000000; Z.shiftl (imm7 off is_64) 15; Z.shiftl t2 10; Z.shiftl n 5; rd t1].
Definition ldp (t1 t2 n off : Z) (is_64 : bool) : Z :=
  ors [sel is_64 0xA9400000 0x29400000; Z.shiftl (imm7 off is_64) 15; Z.shiftl t2 10; Z.shiftl n 5; rd t1].

Definition sxtb (d n : Z) (is_64 : bool) : Z :=
  ors [sel is_64 0x93400000 0x13000000; Z.shiftl 7 10; Z.shiftl n 5; rd d].
Definition sxth (d n : Z) (is_64 : bool) : Z :=
  ors [sel is_64 0x93400000 0x13000000; Z.shiftl 15 10; Z.shiftl n 5; rd d].
Definition sxtw (d n : Z) : Z := ors [0x93400000; Z.shiftl 31 10; Z.shiftl n 5; rd d].
Definition rev16 (d n : Z) (is_64 : bool) : Z := ors [sel is_64 0xDAC00400 0x5AC00400; Z.shiftl n 5; rd d].
Definition rev32 (d n : Z) : Z := ors [0x5AC00800; Z.shiftl n 5; rd d].
Definition rev64 (d n : Z) : Z := ors [0xDAC00C00; Z.shiftl n 5; rd d].

(** Scalar floating point. *)
Definition fmov_v_from_x (vd rn : Z) (is_double : bool) : Z :=
  ors [sel is_double 0x9E670000 0x1E270000; Z.shiftl rn 5; rd vd].
Definition fmov_x_from_v (d vn : Z) (is_double : bool) : Z :=
  ors [sel is_double 0x9E660000 0x1E260000; Z.shiftl vn 5; rd d].
Definition fp_alu (op2 d n m : Z) (is_double : bool) : Z :=
  ors [sel is_double 0x1E600000 0x1E200000; Z.shiftl m 16; Z.shiftl op2 10; Z.shiftl n 5; rd d].
Definition fp_neg (d n : Z) (is_double : bool) : Z := ors [sel is_double 0x1E614000 0x1E214000; Z.shiftl n 5; rd d].
Definition fp_abs (d n : Z) (is_double : bool) : Z := ors [sel is_double 0x1E60C000 0x1E20C000; Z.shiftl n 5; rd d].
Definition fp_sqrt (d n : Z) (is_double : bool) : Z := ors [sel is_double 0x1E61C000 0x1E21C000; Z.shiftl n 5; rd d].
Definition fp_cvt_sd (d n : Z) (to_double : bool) : Z := ors [sel to_double 0x1E22C000 0x1E624000; Z.shiftl n 5; rd d].
Definition fp_int (base_d base_s d n : Z) (is_double wide : bool) : Z :=
  ors [Z.lor (sel is_double base_d base_s) (sel wide 0x80000000 0); Z.shiftl n 5; rd d].
Definition scvtf (d n : Z) (is_double src64 : bool) : Z := fp_int 0x1E620000 0x1E220000 d n is_double src64.
Definition ucvtf (d n : Z) (is_double src64 : bool) : Z := fp_int 0x1E630000 0x1E230000 d n is_double src64.
Definition fcvtzs (d n : Z) (is_double dst64 : bool) : Z := fp_int 0x1E780000 0x1E380000 d n is_double dst64.
Definition fcvtzu (d n : Z) (is_double dst64 : bool) : Z := fp_int 0x1E790000 0x1E390000 d n is_double dst64.
Definition fcmp (vn vm : Z) (is_double : bool) : Z :=
  ors [sel is_double 0x1E602000 0x1E202000; Z.shiftl vm 16; Z.shiftl vn 5].
Definition cset (d cond : Z) : Z :=
  ors [0x1A800400; Z.shiftl 31 16; Z.shiftl (Z.lxor cond 1) 12; Z.shiftl 31 5; rd d].
Definition csel (d n m cond : Z) (is_64 : bool) : Z :=
  ors [sel is_64 0x9A800000 0x2A800000; Z.shiftl m 16; Z.shiftl cond 12; Z.shiftl n 5; rd d].

(** Condition codes (namespace ARMCond). *)
Definition EQ : Z := 0.
Definition NE : Z := 1.
Definition CS : Z := 2.
Definition CC : Z := 3.
Definition VS : Z := 6.
Definition HI : Z := 8.
Definition LS : Z := 9.
Definition GE : Z := 10.
Definition LT : Z := 11.
Definition GT : Z := 12.
Definition LE : Z := 13.

(** ** What the words mean

    The instructions of the integer code, with the documented encodings.  [sf]
    selects 64-bit operation; register 31 is the zero register, and the stack
    pointer in the immediate forms of addition. *)

Inductive a64_insn :=
| MOVZ (sf : bool) (rd hw imm : Z)
| MOVN (sf : bool) (rd hw imm : Z)
| MOVK (sf : bool) (rd hw imm : Z)
| ADDS (sf sub flags : bool) (rd rn rm : Z)
| LOGIC (sf : bool) (opc rd rn rm : Z)
| ADDI (sf sub flags : bool) (rd rn imm : Z)
| BFM (sf signed : bool) (immr imms rd rn : Z)
| DP2 (sf : bool) (opcode rd rn rm : Z)
| REV (sf : bool) (opcode rd rn : Z)
| MADD (sf sub : bool) (rd rn rm ra : Z)
| BCOND (cond imm19 : Z)
| BUNCOND (imm26 : Z).

(** Bits [lo .. lo + len - 1] of a word. *)
Definition bits (w lo len : Z) : Z := (w / 2 ^ lo) mod 2 ^ len.
Definition flag (w n : Z) : bool := bits w n 1 =? 1.

Definition a64_decode (w : Z) : option a64_insn :=
  let sf := flag w 31 in
  let rd := bits w 0 5 in
  let rn := bits w 5 5 in
  let rm := bits w 16 5 in
  if bits w 23 6 =? 0x25 then
    let opc := bits w 29 2 in
    if negb sf && (2 <=? bits w 21 2) then None
    else if opc =? 2 then Some (MOVZ sf rd (bits w 21 2) (bits w 5 16))
    else if opc =? 0 then Some (MOVN sf rd (bits w 21 2) (bits w 5 16))
    else if opc =? 3 then Some (MOVK sf rd (bits w 21 2) (bits w 5 16))
    else None
  else if (bits w 24 5 =? 0x0B) && (bits w 21 3 =? 0) && (bits w 10 6 =? 0) then
    Some (ADDS sf (flag w 30) (flag w 29) rd rn rm)
  else if (bits w 24 5 =? 0x0A) && (bits w 21 3 =? 0) && (bits w 10 6 =? 0) then
    Some (LOGIC sf (bits w 29 2) rd rn rm)
  else if (bits w 23 6 =? 0x22) && (bits w 22 1 =? 0) then
    Some (ADDI sf (flag w 30) (flag w 29) rd rn (bits w 10 12))
  else if (bits w 23 6 =? 0x26) && (bits w 22 1 =? bits w 31 1) && (bits w 29 1 =? 0) then
    if negb sf && ((32 <=? bits w 16 6) || (32 <=? bits w 10 6)) then None
    else if bits w 30 1 =? 0 then Some (BFM sf true (bits w 16 6) (bits w 10 6) rd rn)
    else Some (BFM sf false (bits w 16 6) (bits w 10 6) rd rn)
  else if bits w 21 10 =? 0xD6 then Some (DP2 sf (bits w 10 6) rd rn rm)
  else if (bits w 21 10 =? 0x2D6) && (rm =? 0) then Some (REV sf (bits w 10 6) rd rn)
  else if (bits w 21 10 =? 0xD8) then Some (MADD sf (flag w 15) rd rn rm (bits w 10 5))
  else if (bits w 24 8 =? 0x54) && (bits w 4 1 =? 0) then Some (BCOND (bits w 0 4) (bits w 5 19))
  else if bits w 26 6 =? 5 then Some (BUNCOND (bits w 0 26))
  else None.

(** Registers (X0 to X30), stack pointer, and the flags N, Z, C, V. *)
Record a64_regs := mkregs { xr : list Z; sp : Z; nf : bool; zf : bool; cf : bool; vf : bool }.

Definition get_x (s : a64_regs) (n : Z) : Z := if n =? 31 then 0 else xr s !!! Z.to_nat n.
Definition get_sp (s : a64_regs) (n : Z) : Z := if n =? 31 then sp s else xr s !!! Z.to_nat n.
Definition put_x (s : a64_regs) (n v : Z) : a64_regs :=
  if n =? 31 then s else mkregs (<[Z.to_nat n := v]> (xr s)) (sp s) (nf s) (zf s) (cf s) (vf s).
Definition put_sp (s : a64_regs) (n v : Z) : a64_regs :=
  if n =? 31 then mkregs (xr s) v (nf s) (zf s) (cf s) (vf s) else put_x s n v.
Definition put_flags4 (s : a64_regs) (n z c v : bool) : a64_regs := mkregs (xr s) (sp s) n z c v.

Definition width (sf : bool) : Z := if sf then 64 else 32.

(** Sum or difference with its flags. *)
Definition add_flags (w a b : Z) (s : a64_regs) : a64_regs :=
  let r := uwrap w (a + b) in
  put_flags4 s (sval w r <? 0) (r =? 0) (2 ^ w <=? a + b) (negb (sval w a + sval w b =? sval w r)).
Definition sub_flags (w a b : Z) (s : a64_regs) : a64_regs :=
  let r := uwrap w (a - b) in
  put_flags4 s (sval w r <? 0) (r =? 0) (b <=? a) (negb (sval w a - sval w b =? sval w r)).
Definition and_flags (w r : Z) (s : a64_regs) : a64_regs := put_flags4 s (sval w r <? 0) (r =? 0) false false.

(** The bitfield moves. *)
Definition ubfm (w x immr imms : Z) : Z :=
  if immr <=? imms then (x / 2 ^ immr) mod 2 ^ (imms - immr + 1)
  else uwrap w (x mod 2 ^ (imms + 1) * 2 ^ (w - immr)).
Definition sbfm (w x immr imms : Z) : Z :=
  if immr <=? imms then uwrap w (sval (imms - immr + 1) (x / 2 ^ immr))
  else uwrap w (sval (imms + 1) x * 2 ^ (w - immr)).

(** The bytes of every halfword, or of the word, reversed. *)
Fixpoint rev16_val (n : nat) (x : Z) : Z :=
  match n with
  | O => 0
  | S k => bswap 2 (x mod 2 ^ 16) + 2 ^ 16 * rev16_val k (x / 2 ^ 16)
  end.

(** The chunk of a [MOVK]. *)
Definition put_chunk (x hw imm : Z) : Z :=
  x mod 2 ^ (16 * hw) + imm * 2 ^ (16 * hw) + x / 2 ^ (16 * hw + 16) * 2 ^ (16 * hw + 16).

Definition dp2_val (w opcode a b : Z) : option Z :=
  if opcode =? 2 then Some (if b =? 0 then 0 else a / b)
  else if opcode =? 3 then Some (if b =? 0 then 0 else uwrap w (Z.quot (sval w a) (sval w b)))
  else if opcode =? 8 then Some (uwrap w (Z.shiftl a (b mod w)))
  else if opcode =? 9 then Some (Z.shiftr a (b mod w))
  else if opcode =? 10 then Some (uwrap w (Z.shiftr (sval w a) (b mod w)))
  else None.

Definition cond_holds (s : a64_regs) (c : Z) : bool :=
  let b :=
    if c / 2 =? 0 then zf s
    else if c / 2 =? 1 then cf s
    else if c / 2 =? 2 then nf s
    else if c / 2 =? 3 then vf s
    else if c / 2 =? 4 then cf s && negb (zf s)
    else if c / 2 =? 5 then eqb (nf s) (vf s)
    else if c / 2 =? 6 then eqb (nf s) (vf s) && negb (zf s)
    else true in
  if (c mod 2 =? 1) && negb (c =? 15) then negb b else b.

(** The effect of an instruction that does not branch; [None] is a branch, or an
    unallocated code. *)
Definition a64_exec (i : a64_insn) (s : a64_regs) : option a64_regs :=
  match i with
  | MOVZ _ rd hw imm => Some (put_x s rd (imm * 2 ^ (16 * hw)))
  | MOVN sf rd hw imm => Some (put_x s rd (2 ^ width sf - 1 - imm * 2 ^ (16 * hw)))
  | MOVK sf rd hw imm => Some (put_x s rd (put_chunk (uwrap (width sf) (get_x s rd)) hw imm))
  | ADDS sf sub flags rd rn rm =>
    let w := width sf in
    let a := uwrap w (get_x s rn) in
    let b := uwrap w (get_x s rm) in
    let s' := if flags then (if sub then sub_flags w a b s else add_flags w a b s) else s in
    Some (put_x s' rd (uwrap w (if sub then a - b else a + b)))
  | LOGIC sf opc rd rn rm =>
    let w := width sf in
    let a := uwrap w (get_x s rn) in
    let b := uwrap w (get_x s rm) in
    if opc =? 0 then Some (put_x s rd (Z.land a b))
    else if opc =? 1 then Some (put_x s rd (Z.lor a b))
    else if opc =? 2 then Some (put_x s rd (Z.lxor a b))
    else Some (put_x (and_flags w (Z.land a b) s) rd (Z.land a b))
  | ADDI sf sub flags rd rn imm =>
    let w := width sf in
    let a := uwrap w (get_sp s rn) in
    let r := uwrap w (if sub then a - imm else a + imm) in
    if flags then Some (put_x (if sub then sub_flags w a imm s else add_flags w a imm s) rd r)
    else Some (put_sp s rd r)
  | BFM sf signed immr imms rd rn =>
    let w := width sf in
    let a := uwrap w (get_x s rn) in
    Some (put_x s rd (if signed then sbfm w a immr imms else ubfm w a immr imms))
  | DP2 sf opcode rd rn rm =>
    let w := width sf in
    v ← dp2_val w opcode (uwrap w (get_x s rn)) (uwrap w (get_x s rm)); Some (put_x s rd v)
  | REV sf opcode rd rn =>
    let x := uwrap (width sf) (get_x s rn) in
    if opcode =? 1 then Some (put_x s rd (rev16_val (if sf then 4 else 2) x))
    else if (opcode =? 2) && negb sf then Some (put_x s rd (bswap 4 x))
    else if (opcode =? 3) && sf then Some (put_x s rd (bswap 8 x))
    else None
  | MADD sf sub rd rn rm ra =>
    let w := width sf in
    let a := uwrap w (get_x s rn) in
    let b := uwrap w (get_x s rm) in
    let c := uwrap w (get_x s ra) in
    Some (put_x s rd (uwrap w (if sub then c - a * b else c + a * b)))
  | BCOND _ _ | BUNCOND _ => None
  end.

(** The processor: what it does with a word is what the documentation says, on
    the instructions above. *)
Class A64Cpu := {
  cpu_exec : Z -> a64_regs -> a64_regs;
  cpu_documented : forall w i s s',
    a64_decode w = Some i -> a64_exec i s = Some s' -> cpu_exec w s = s'
}.

#[export] Instance reference_cpu : A64Cpu.
Proof.
  refine {| cpu_exec := fun w s => match a64_decode w ≫= fun i => a64_exec i s with Some s' => s' | None => s end |}.
  intros w i s s' Hd He. cbn. by rewrite Hd; cbn; rewrite He.
Defined.

(** Straight-line code. *)
Definition cpu_run {cpu : A64Cpu} (ws : list Z) (s : a64_regs) : a64_regs := fold_left (fun s w => cpu_exec w s) ws s.

(** ** Decoding what the functions emit *)

Lemma bits_spec w lo len i : 0 <= lo -> 0 <= len -> 0 <= i ->
  Z.testbit (bits w lo len) i = (i <? len) && Z.testbit w (i + lo).
Proof.
  intros Hlo Hlen Hi. unfold bits. destruct (Z.ltb_spec i len); cbn [andb].
  - rewrite Z.mod_pow2_bits_low, Z.div_pow2_bits by lia. done.
  - by rewrite Z.mod_pow2_bits_high by lia.
Qed.

Lemma bits_lor a b lo len : 0 <= lo -> 0 <= len ->
  bits (Z.lor a b) lo len = Z.lor (bits a lo len) (bits b lo len).
Proof.
  intros Hlo Hlen. apply Z.bits_inj'. intros i Hi. rewrite Z.lor_spec, !bits_spec, Z.lor_spec by lia.
  destruct (i <? len); done.
Qed.

Lemma bits_u32 a lo len : 0 <= lo -> 0 <= len -> lo + len <= 32 -> bits (u32 a) lo len = bits a lo len.
Proof.
  intros Hlo Hlen H32. apply Z.bits_inj'. intros i Hi. rewrite !bits_spec by lia.
  destruct (Z.ltb_spec i len); cbn [andb]; [|done]. unfold uwrap. by rewrite Z.mod_pow2_bits_low by lia.
Qed.

Lemma bits_ors l lo len : 0 <= lo -> 0 <= len -> lo + len <= 32 ->
  bits (ors l) lo len = fold_left Z.lor ((fun x => bits x lo len) <$> l) 0.
Proof.
  intros Hlo Hlen H32. unfold ors. rewrite bits_u32 by lia.
  assert (forall acc, bits (fold_left Z.lor l acc) lo len
                      = fold_left Z.lor ((fun x => bits x lo len) <$> l) (bits acc lo len)) as Hf.
  { induction l as [|x l IH]; intros acc; [done|]. cbn [fold_left fmap list_fmap].
    change ((λ x : Z, bits x lo len) <$> x :: l) with (bits x lo len :: ((λ x : Z, bits x lo len) <$> l)).
    cbn [fold_left]. by rewrite IH, bits_lor by lia. }
  by rewrite Hf.
Qed.

Lemma bits_exact x lo len : 0 <= lo -> 0 <= x < 2 ^ len -> bits (Z.shiftl x lo) lo len = x.
Proof.
  intros Hlo Hx. unfold bits. rewrite Z.shiftl_mul_pow2, Z.div_mul by (try apply Z.pow_nonzero; lia).
  by apply Z.mod_small.
Qed.

Lemma bits_exact0 x len : 0 <= x < 2 ^ len -> bits x 0 len = x.
Proof. intros Hx. unfold bits. rewrite Z.div_1_r. by apply Z.mod_small. Qed.

Lemma bits_below x n lo len : 0 <= lo -> 0 <= len -> lo + len <= n -> bits (Z.shiftl x n) lo len = 0.
Proof.
  intros Hlo Hlen Hn. apply Z.bits_inj'. intros i Hi. rewrite bits_spec, Z.bits_0 by lia.
  destruct (Z.ltb_spec i len); cbn [andb]; [|done]. by rewrite Z.shiftl_spec, Z.testbit_neg_r by lia.
Qed.

Lemma bits_above k x n lo len : 0 <= n -> 0 <= k -> 0 <= len -> 0 <= x < 2 ^ k -> n + k <= lo ->
  bits (Z.shiftl x n) lo len = 0.
Proof.
  intros Hn Hk Hlen Hx Hlo. apply Z.bits_inj'. intros i Hi. rewrite bits_spec, Z.bits_0 by lia.
  destruct (i <? len); cbn [andb]; [|done]. rewrite Z.shiftl_spec by lia. apply (testbit_high x k); lia.
Qed.

Lemma bits_above0 k x lo len : 0 <= k -> 0 <= len -> 0 <= x < 2 ^ k -> k <= lo -> bits x lo len = 0.
Proof. intros Hk Hlen Hx Hlo. rewrite <- (Z.shiftl_0_r x). by apply (bits_above k); lia. Qed.

Lemma rd_id r : 0 <= r < 32 -> rd r = r.
Proof. intros Hr. unfold rd. change 0x1F with (2 ^ 5 - 1). rewrite land_mask by lia. by apply Z.mod_small. Qed.

(** [field] evaluates one field of one operand [x] of an instruction word. *)
Ltac closed x :=
  let y := eval vm_compute in x in
  lazymatch y with Z0 => idtac | Zpos _ => idtac | Zneg _ => idtac end.
Ltac above x n lo len :=
  first [ apply (bits_above 5 x n lo len); lia | apply (bits_above 16 x n lo len); lia
        | apply (bits_above 12 x n lo len); lia | apply (bits_above 6 x n lo len); lia
        | apply (bits_above 2 x n lo len); lia ].
Ltac field x lo len :=
  lazymatch x with
  | Z.shiftl ?y ?n =>
    first [ closed y; vm_compute; reflexivity
          | let e := eval vm_compute in (n =? lo) in
            lazymatch e with true => apply (bits_exact y lo len); lia end
          | let b := eval vm_compute in (lo + len <=? n) in
            lazymatch b with true => apply (bits_below y n lo len); lia end
          | above y n lo len ]
  | _ => first [ closed x; vm_compute; reflexivity
               | apply (bits_exact0 x len); lia
               | apply (bits_above0 5 x lo len); lia ]
  end.

(** [decode] evaluates the decoder on an emitted word. *)
Ltac eval_fields :=
  repeat match goal with
  | |- context [bits (ors ?l) ?lo ?len] =>
    let v := fresh "v" in let Hv := fresh "Hv" in
    evar (v : Z);
    assert (bits (ors l) lo len = v) as Hv;
    [ rewrite (bits_ors l lo len) by lia; cbn [fmap list_fmap fold_left];
      repeat match goal with
      | |- context [bits ?x lo len] =>
        let u := fresh "u" in let Hu := fresh "Hu" in
        evar (u : Z); assert (bits x lo len = u) as Hu by (subst u; field x lo len);
        rewrite Hu; subst u; clear Hu
      end; rewrite ?Z.lor_0_l, ?Z.lor_0_r; subst v; reflexivity
    | rewrite Hv; subst v; clear Hv ]
  end.
Ltac decode := unfold a64_decode, flag; eval_fields; cbn; try reflexivity.

Section Decoding.
Context (d n m : Z) (Hd : 0 <= d < 32) (Hn : 0 <= n < 32) (Hm : 0 <= m < 32).

Lemma decode_add sf : a64_decode (add_reg d n m sf) = Some (ADDS sf false false d n m).
Proof. unfold add_reg, bool_bit. rewrite rd_id by done. destruct sf; decode. Qed.

Lemma decode_sub sf : a64_decode (sub_reg d n m sf) = Some (ADDS sf true false d n m).
Proof. unfold sub_reg, bool_bit. rewrite rd_id by done. destruct sf; decode. Qed.
Lemma decode_and sf : a64_decode (and_reg d n m sf) = Some (LOGIC sf 0 d n m).
Proof. unfold and_reg, bool_bit. rewrite rd_id by done. destruct sf; decode. Qed.
Lemma decode_orr sf : a64_decode (orr_reg d n m sf) = Some (LOGIC sf 1 d n m).
Proof. unfold orr_reg, bool_bit. rewrite rd_id by done. destruct sf; decode. Qed.
Lemma decode_eor sf : a64_decode (eor_reg d n m sf) = Some (LOGIC sf 2 d n m).
Proof. unfold eor_reg, bool_bit. rewrite rd_id by done. destruct sf; decode. Qed.
Lemma decode_mov sf : a64_decode (mov_reg d m sf) = Some (LOGIC sf 1 d 31 m).
Proof. unfold mov_reg, bool_bit. rewrite rd_id by done. destruct sf; decode. Qed.
Lemma decode_mul sf : a64_decode (mul_reg d n m sf) = Some (MADD sf false d n m 31).
Proof. unfold mul_reg, bool_bit. rewrite rd_id by done. destruct sf; decode. Qed.
Lemma decode_msub sf a : 0 <= a < 32 -> a64_decode (msub_reg d n m a sf) = Some (MADD sf true d n m a).
Proof. intros Ha. unfold msub_reg, bool_bit. rewrite rd_id by done. destruct sf; decode. Qed.
Lemma decode_udiv sf : a64_decode (udiv_reg d n m sf) = Some (DP2 sf 2 d n m).
Proof. unfold udiv_reg, sel. rewrite rd_id by done. destruct sf; decode. Qed.
Lemma decode_sdiv sf : a64_decode (sdiv_reg d n m sf) = Some (DP2 sf 3 d n m).
Proof. unfold sdiv_reg, sel. rewrite rd_id by done. destruct sf; decode. Qed.
Lemma decode_lslv sf : a64_decode (lsl_reg d n m sf) = Some (DP2 sf 8 d n m).
Proof. unfold lsl_reg, sel. rewrite rd_id by done. destruct sf; decode. Qed.
Lemma decode_lsrv sf : a64_decode (lsr_reg d n m sf) = Some (DP2 sf 9 d n m).
Proof. unfold lsr_reg, sel. rewrite rd_id by done. destruct sf; decode. Qed.
Lemma decode_asrv sf : a64_decode (asr_reg d n m sf) = Some (DP2 sf 10 d n m).
Proof. unfold asr_reg, sel. rewrite rd_id by done. destruct sf; decode. Qed.
Lemma decode_rev16 sf : a64_decode (rev16 d n sf) = Some (REV sf 1 d n).
Proof. unfold rev16, sel. rewrite rd_id by done. destruct sf; decode. Qed.
Lemma decode_rev32 : a64_decode (rev32 d n) = Some (REV false 2 d n).
Proof. unfold rev32. rewrite rd_id by done. decode. Qed.
Lemma decode_rev64 : a64_decode (rev64 d n) = Some (REV true 3 d n).
Proof. unfold rev64. rewrite rd_id by done. decode. Qed.
Lemma decode_sxtb sf : a64_decode (sxtb d n sf) = Some (BFM sf true 0 7 d n).
Proof. unfold sxtb, sel. rewrite rd_id by done. destruct sf; decode. Qed.
Lemma decode_sxth sf : a64_decode (sxth d n sf) = Some (BFM sf true 0 15 d n).
Proof. unfold sxth, sel. rewrite rd_id by done. destruct sf; decode. Qed.
Lemma decode_sxtw : a64_decode (sxtw d n) = Some (BFM true true 0 31 d n).
Proof. unfold sxtw. rewrite rd_id by done. decode. Qed.
Lemma decode_cmp sf : a64_decode (cmp_reg n m sf) = Some (ADDS sf true true 31 n m).
Proof. unfold cmp_reg, sel. destruct sf; decode. Qed.
Lemma decode_tst sf : a64_decode (tst_reg n m sf) = Some (LOGIC sf 3 31 n m).
Proof. unfold tst_reg, sel. destruct sf; decode. Qed.

(** The immediate forms that fit. *)
Lemma decode_addi sf imm : 0 <= imm < 2 ^ 12 ->
  a64_decode (ors [bool_bit sf 31; Z.shiftl 0x11 24; Z.shiftl imm 10; Z.shiftl n 5; rd d])
  = Some (ADDI sf false false d n imm).
Proof. intros Hi. unfold bool_bit. rewrite rd_id by done. destruct sf; decode. Qed.
Lemma decode_subi sf imm : 0 <= imm < 2 ^ 12 ->
  a64_decode (ors [bool_bit sf 31; Z.shiftl 1 30; Z.shiftl 0x11 24; Z.shiftl imm 10; Z.shiftl n 5; rd d])
  = Some (ADDI sf true false d n imm).
Proof. intros Hi. unfold bool_bit. rewrite rd_id by done. destruct sf; decode. Qed.
Lemma decode_cmpi sf imm : 0 <= imm < 2 ^ 12 ->
  a64_decode (ors [bool_bit sf 31; Z.shiftl 1 30; Z.shiftl 1 29; Z.shiftl 0x11 24; Z.shiftl imm 10; Z.shiftl n 5; 0x1F])
  = Some (ADDI sf true true 31 n imm).
Proof. intros Hi. unfold bool_bit. destruct sf; decode. Qed.

(** Shifts by an immediate are bitfield moves. *)
Lemma decode_lsri sf c : 0 <= c < width sf ->
  a64_decode (lsr_imm d n c sf) = Some (BFM sf false c (width sf - 1) d n).
Proof.
  intros Hc. unfold lsr_imm, sel. rewrite rd_id by done. destruct sf; cbn [width] in Hc.
  - assert (0 <= c < 2 ^ 6) as Hc' by lia. decode.
  - assert (0 <= c < 2 ^ 6) as Hc' by lia. decode. destruct (Z.leb_spec 32 c); [lia|done].
Qed.
Lemma decode_asri sf c : 0 <= c < width sf ->
  a64_decode (asr_imm d n c sf) = Some (BFM sf true c (width sf - 1) d n).
Proof.
  intros Hc. unfold asr_imm, sel. rewrite rd_id by done. destruct sf; cbn [width] in Hc.
  - assert (0 <= c < 2 ^ 6) as Hc' by lia. decode.
  - assert (0 <= c < 2 ^ 6) as Hc' by lia. decode. destruct (Z.leb_spec 32 c); [lia|done].
Qed.
Lemma decode_lsli sf c : 0 <= c < width sf ->
  a64_decode (lsl_imm d n c sf) = Some (BFM sf false ((- c) mod width sf) (width sf - 1 - c) d n).
Proof.
  intros Hc. unfold lsl_imm, sel. cbn zeta. rewrite rd_id by done. destruct sf; cbn [width] in *.
  - change (64 - 1) with (2 ^ 6 - 1). rewrite land_mask by lia.
    assert (u32 (- c) mod 2 ^ 6 = (- c) mod 64) as -> by (rewrite (uwrap_uwrap 6 32 (- c)) || apply (uwrap_uwrap 6 32 (- c)); lia).
    rewrite (uwrap_small 32) by lia. pose proof (Z.mod_pos_bound (- c) 64 ltac:(lia)).
    set (r := (- c) mod 64) in *. assert (0 <= r < 2 ^ 6) by lia. set (k := 2 ^ 6 - 1 - c). assert (0 <= k < 2 ^ 6) by lia.
    decode.
  - change (32 - 1) with (2 ^ 5 - 1). rewrite land_mask by lia.
    assert (u32 (- c) mod 2 ^ 5 = (- c) mod 32) as -> by (apply (uwrap_uwrap 5 32 (- c)); lia).
    rewrite (uwrap_small 32) by lia. pose proof (Z.mod_pos_bound (- c) 32 ltac:(lia)).
    set (r := (- c) mod 32) in *. assert (0 <= r < 2 ^ 6) by lia. set (k := 2 ^ 5 - 1 - c). assert (0 <= k < 2 ^ 6) by lia.
    decode. destruct (Z.leb_spec 32 r); [lia|]. destruct (Z.leb_spec 32 k); [lia|]. done.
Qed.

(** The wide moves; [i] is the chunk. *)
Lemma decode_movz sf i imm : 0 <= imm < 2 ^ 16 -> 0 <= i < width sf / 16 ->
  a64_decode (movz d imm (i * 16) sf) = Some (MOVZ sf d i imm).
Proof.
  intros Hi Hw. unfold movz, bool_bit. rewrite rd_id by done.
  assert (hw_of (i * 16) = i) as -> by (unfold hw_of; zcases; [rewrite Z.div_mul by lia; done|lia]).
  destruct sf; [change (width true / 16) with 4 in Hw|change (width false / 16) with 2 in Hw];
    assert (0 <= i < 2 ^ 2) by lia; decode. destruct (Z.leb_spec 2 i); [lia|done].
Qed.
Lemma decode_movk sf i imm : 0 <= imm < 2 ^ 16 -> 0 <= i < width sf / 16 ->
  a64_decode (movk d imm (i * 16) sf) = Some (MOVK sf d i imm).
Proof.
  intros Hi Hw. unfold movk, bool_bit. rewrite rd_id by done.
  assert (hw_of (i * 16) = i) as -> by (unfold hw_of; zcases; [rewrite Z.div_mul by lia; done|lia]).
  destruct sf; [change (width true / 16) with 4 in Hw|change (width false / 16) with 2 in Hw];
    assert (0 <= i < 2 ^ 2) by lia; decode. destruct (Z.leb_spec 2 i); [lia|done].
Qed.
Lemma decode_movn sf i imm : 0 <= imm < 2 ^ 16 -> 0 <= i < width sf / 16 ->
  a64_decode (movn d imm i sf) = Some (MOVN sf d i imm).
Proof.
  intros Hi Hw. unfold movn, sel. rewrite rd_id by done.
  destruct sf; [change (width true / 16) with 4 in Hw|change (width false / 16) with 2 in Hw];
    assert (0 <= i < 2 ^ 2) by lia; decode. destruct (Z.leb_spec 2 i); [lia|done].
Qed.

End Decoding.
