(* ===== verification/A64Run.v ===== *)
(** * A64Run: running A64 code

    Straight-line code on the processor of A64.v: how a run steps, the register
    file, and the constants: the chunks of a word, and [mov_imm] (both of its
    sequences), which loads the constant and changes nothing else. *)

From S2P Require Import Prelude Isa A64.
From Stdlib Require Import Lia.
From stdpp Require Import base numbers list option.

Open Scope Z_scope.


(** ** Running straight-line code *)

Section Running.
Context {cpu : A64Cpu}.

Lemma run_cons w ws i s s' :
  a64_decode w = Some i -> a64_exec i s = Some s' -> cpu_run (w :: ws) s = cpu_run ws s'.
Proof. intros Hd He. unfold cpu_run. cbn [fold_left]. by rewrite (cpu_documented w i s s' Hd He). Qed.

Lemma run_app ws ws' s : cpu_run (ws ++ ws') s = cpu_run ws' (cpu_run ws s).
Proof. unfold cpu_run. apply fold_left_app. Qed.

Lemma run_nil s : cpu_run [] s = s.
Proof. done. Qed.

(** The registers hold 64-bit words. *)
Definition regs_wf (s : a64_regs) : Prop := length (xr s) = 31%nat /\ Forall (fun v => 0 <= v < 2 ^ 64) (xr s).

Lemma get_x_range s n : regs_wf s -> 0 <= get_x s n < 2 ^ 64.
Proof.
  intros [Hl Hf]. unfold get_x. destruct (n =? 31); [lia|].
  destruct (decide (Z.to_nat n < length (xr s))%nat) as [Hn|Hn].
  - destruct (lookup_lt_is_Some_2 (xr s) (Z.to_nat n) Hn) as [v Hv].
    rewrite (list_lookup_total_correct _ _ _ Hv). rewrite list.Forall_forall in Hf. apply Hf.
    by eapply list_elem_of_lookup_2.
  - rewrite list_lookup_total_alt, lookup_ge_None_2 by lia. cbn. lia.
Qed.

Lemma put_x_wf s n v : regs_wf s -> 0 <= v < 2 ^ 64 -> regs_wf (put_x s n v).
Proof.
  intros [Hl Hf] Hv. unfold put_x. destruct (n =? 31); [by split|]. split; cbn [xr].
  - by rewrite length_insert.
  - by apply Forall_insert.
Qed.

Lemma get_put_eq s n v : regs_wf s -> 0 <= n < 31 -> get_x (put_x s n v) n = v.
Proof.
  intros [Hl _] Hn. unfold get_x, put_x. rewrite (proj2 (Z.eqb_neq n 31)) by lia. cbn [xr].
  apply list_lookup_total_insert_eq. lia.
Qed.

Lemma get_put_ne s n m v : 0 <= n < 31 -> 0 <= m <= 31 -> n <> m -> get_x (put_x s n v) m = get_x s m.
Proof.
  intros Hn Hm Hne. unfold get_x, put_x. rewrite (proj2 (Z.eqb_neq n 31)) by lia. cbn [xr].
  destruct (m =? 31); [done|]. apply list_lookup_total_insert_ne. lia.
Qed.

Lemma put_put s n v v' : put_x (put_x s n v) n v' = put_x s n v'.
Proof. unfold put_x. destruct (n =? 31); [done|]. cbn. by rewrite list_insert_insert_eq. Qed.

(** *** Constants *)

Fixpoint cval (cs : list Z) : Z :=
  match cs with
  | [] => 0
  | c :: l => c + 2 ^ 16 * cval l
  end.

Definition chunk_ok (c : Z) : Prop := 0 <= c < 2 ^ 16.

Lemma cval_range cs : Forall chunk_ok cs -> 0 <= cval cs < 2 ^ (16 * Z.of_nat (length cs)).
Proof.
  induction 1 as [|c l Hc Hl IH]; cbn [cval length]; [done|]. unfold chunk_ok in Hc.
  replace (16 * Z.of_nat (S (length l))) with (16 + 16 * Z.of_nat (length l)) by lia.
  rewrite Z.pow_add_r by lia. nia.
Qed.

Lemma cval_chunks n v : cval (chunks n v) = v mod 2 ^ (16 * Z.of_nat n).
Proof.
  revert v. induction n as [|n IH]; intros v; cbn [chunks cval].
  - change (16 * Z.of_nat 0) with 0. by rewrite Z.mod_1_r.
  - rewrite IH. replace (16 * Z.of_nat (S n)) with (16 + 16 * Z.of_nat n) by lia.
    rewrite Z.pow_add_r by lia. rewrite Z.rem_mul_r; [lia|apply Z.pow_nonzero; lia|apply Z.pow_pos_nonneg; lia].
Qed.

Lemma chunks_ok n v : Forall chunk_ok (chunks n v).
Proof. revert v. induction n; intros v; cbn [chunks]; constructor; [apply Z.mod_pos_bound; lia|done]. Qed.

Lemma length_chunks n v : length (chunks n v) = n.
Proof. revert v. induction n; intros v; cbn [chunks length]; [done|by rewrite IHn]. Qed.

(** Inserting a chunk is inserting a digit. *)
Lemma put_chunk_cval cs i c : Forall chunk_ok cs -> (i < length cs)%nat -> chunk_ok c ->
  put_chunk (cval cs) (Z.of_nat i) c = cval (<[i := c]> cs).
Proof.
  intros Hcs Hi Hc. unfold put_chunk. revert i Hi. induction Hcs as [|d l Hd Hl IH]; intros i Hi; [cbn in Hi; lia|].
  unfold chunk_ok in Hd. destruct i as [|i].
  - change (<[0%nat := c]> (d :: l)) with (c :: l). cbn [cval]. change (16 * Z.of_nat 0) with 0.
    change (2 ^ 0) with 1. change (2 ^ (0 + 16)) with (2 ^ 16). rewrite Z.mod_1_r.
    assert ((d + 2 ^ 16 * cval l) / 2 ^ 16 = cval l) as -> by (rewrite Z.mul_comm, Z.div_add, Z.div_small by lia; lia). lia.
  - change (<[S i := c]> (d :: l)) with (d :: <[i := c]> l). cbn [cval length] in *.
    rewrite <- IH by lia. set (y := cval l). set (e := 16 * Z.of_nat i).
    replace (16 * Z.of_nat (S i)) with (16 + e) by lia. replace (16 + e + 16) with (16 + (e + 16)) by lia.
    rewrite !Z.pow_add_r with (b := 16) by lia. 
    assert (0 < 2 ^ e) by (apply Z.pow_pos_nonneg; lia). assert (0 < 2 ^ (e + 16)) by (apply Z.pow_pos_nonneg; lia).
    assert ((d + 2 ^ 16 * y) / 2 ^ 16 = y) as Hdiv by (rewrite Z.mul_comm, Z.div_add, Z.div_small by lia; lia).
    assert ((d + 2 ^ 16 * y) mod 2 ^ 16 = d) as Hmod by (rewrite Z.mul_comm, Z.mod_add by lia; by apply Z.mod_small).
    rewrite (Z.rem_mul_r _ (2 ^ 16) (2 ^ e)) by lia. rewrite Hdiv, Hmod.
    rewrite <- Z.div_div by lia. rewrite Hdiv. lia.
Qed.


Lemma lnot_chunk c : chunk_ok c -> Z.land (Z.lnot c) 0xFFFF = 0xFFFF - c.
Proof.
  intros Hc. unfold chunk_ok in Hc. change 0xFFFF with (2 ^ 16 - 1) at 1. rewrite land_mask by lia.
  unfold Z.lnot. symmetry. apply (Z.mod_unique _ _ (-1)); lia.
Qed.

Section Wide.
Context (dst : Z) (sf : bool) (d0 : Z) (start : Z -> Z -> Z) (Hdst : 0 <= dst < 31) (Hd0 : chunk_ok d0).
Let N : nat := if sf then 4%nat else 2%nat.
Context (Hstart : forall i p s, chunk_ok p -> (i < N)%nat ->
  exists ins, a64_decode (start (Z.of_nat i) p) = Some ins /\
    a64_exec ins s = Some (put_x s dst (cval (<[i := p]> (replicate N d0))))).

Lemma run_chunks_rest l pre s : regs_wf s -> Forall chunk_ok pre -> Forall chunk_ok l ->
  (length pre + length l = N)%nat ->
  cpu_run (mov_chunks dst d0 start sf (Z.of_nat (length pre)) false l)
          (put_x s dst (cval (pre ++ replicate (length l) d0)))
  = put_x s dst (cval (pre ++ l)).
Proof using All.
  intros Hs. revert pre. induction l as [|p l IH]; intros pre Hpre Hl HN; [done|].
  inversion Hl as [|? ? Hp Hl']; subst. cbn [mov_chunks length replicate] in *.
  assert (forall q, cpu_run (mov_chunks dst d0 start sf (Z.of_nat (length pre) + 1) false l)
      (put_x s dst (cval (pre ++ q :: replicate (length l) d0))) = put_x s dst (cval (pre ++ q :: l)) \/ ~ chunk_ok q) as Hq.
  { intros q. destruct (decide (0 <= q < 2 ^ 16)) as [Hq|Hq]; [left|by right].
    specialize (IH (pre ++ [q])). rewrite length_app in IH. cbn [length] in IH.
    rewrite Nat2Z.inj_add in IH. change (Z.of_nat 1) with 1 in IH. rewrite <- !app_assoc in IH. cbn [app] in IH. apply IH; [|done|lia].
    by apply Forall_app_2, Forall_singleton. }
  destruct (Z.eqb_spec p d0) as [->|Hne].
  - destruct (Hq d0); [done|tauto].
  - assert (Forall chunk_ok (pre ++ d0 :: replicate (length l) d0)).
    { apply Forall_app_2; [done|]. constructor; [done|]. by apply Forall_replicate. }
    erewrite run_cons; [|apply decode_movk; [lia|done|replace (width sf / 16) with (Z.of_nat N) by (by destruct sf); lia]|cbn [a64_exec]; reflexivity].
    rewrite get_put_eq by done. rewrite put_put.
    pose proof (cval_range _ H) as Hr. rewrite length_app in Hr. cbn [length] in Hr. rewrite length_replicate in Hr.
    replace (length pre + S (length l))%nat with N in Hr.
    rewrite uwrap_small by (destruct sf; exact Hr).
    rewrite put_chunk_cval; [|done|rewrite length_app; cbn [length]; lia|done].
    rewrite insert_app_r_alt, Nat.sub_diag by done. cbn. destruct (Hq p); [done|tauto].
Qed.

Lemma run_chunks_first l k s : regs_wf s -> Forall chunk_ok l -> (k + length l = N)%nat ->
  cpu_run (mov_chunks dst d0 start sf (Z.of_nat k) true l) s = put_x s dst (cval (replicate k d0 ++ l)).
Proof using All.
  intros Hs. revert k. induction l as [|p l IH]; intros k Hl HN; cbn [mov_chunks].
  - destruct (Hstart 0 d0 s) as (ins & Hd & He); [done|destruct sf; cbn; lia|].
    erewrite run_cons by eassumption. rewrite run_nil, app_nil_r. cbn [length] in HN.
    rewrite Nat.add_0_r in HN. rewrite HN. do 2 f_equal. by destruct sf.
  - inversion Hl as [|? ? Hp Hl']; subst. cbn [length] in HN. destruct (Z.eqb_spec p d0) as [->|Hne].
    + replace (Z.of_nat k + 1) with (Z.of_nat (S k)) by lia. rewrite IH by (done || lia).
      by rewrite replicate_S_end, <- app_assoc.
    + destruct (Hstart k p s) as (ins & Hd & He); [done|lia|].
      erewrite run_cons by eassumption.
      assert (<[k:=p]> (replicate N d0) = (replicate k d0 ++ [p]) ++ replicate (length l) d0) as ->.
      { rewrite <- HN. replace (k + S (length l))%nat with (k + (1 + length l))%nat by lia.
        rewrite replicate_add. rewrite insert_app_r_alt by (rewrite length_replicate; lia).
        rewrite length_replicate, Nat.sub_diag. cbn. by rewrite <- app_assoc. }
      pose proof (run_chunks_rest l (replicate k d0 ++ [p]) s) as Hr.
      rewrite length_app, length_replicate in Hr. cbn [length] in Hr. rewrite Nat2Z.inj_add in Hr. change (Z.of_nat 1) with 1 in Hr.
      rewrite Hr; [by rewrite <- app_assoc|done| |done|lia].
      apply Forall_app_2; [by apply Forall_replicate|by apply Forall_singleton].
Qed.
End Wide.

Lemma chunk_index n i : (i < n)%nat -> n = 2%nat \/ n = 4%nat -> i = 0%nat \/ i = 1%nat \/ i = 2%nat \/ i = 3%nat.
Proof. lia. Qed.

Lemma run_mov_imm dst val sf s : regs_wf s -> 0 <= dst < 31 ->
  cpu_run (mov_imm dst val sf) s = put_x s dst (uwrap (width sf) val).
Proof.
  intros Hs Hd.
  assert (forall d0 start, chunk_ok d0 -> (forall i p s, chunk_ok p -> (i < if sf then 4 else 2)%nat ->
    exists ins, a64_decode (start (Z.of_nat i) p) = Some ins /\
    a64_exec ins s = Some (put_x s dst (cval (<[i := p]> (replicate (if sf then 4 else 2)%nat d0))))) ->
    cpu_run (mov_chunks dst d0 start sf 0 true (chunks (if sf then 4 else 2) val)) s
    = put_x s dst (uwrap (width sf) val)) as Hrun.
  { intros d0 start Hd0 Hst. rewrite (run_chunks_first dst sf d0 start Hd Hd0 Hst _ 0 s Hs);
      [|apply chunks_ok|rewrite length_chunks; by destruct sf].
    cbn [replicate app]. rewrite cval_chunks. by destruct sf. }
  unfold mov_imm. cbn zeta. destruct (_ <? _)%nat; apply Hrun; try (unfold chunk_ok; lia);
    intros i p s' Hp Hi; eexists; (split; [first
      [ apply decode_movz | apply decode_movn ]; [lia|exact Hp || (rewrite lnot_chunk by done; unfold chunk_ok in *; lia)
        |revert Hi; clear; destruct sf; intros Hi; [change (width true / 16) with 4|change (width false / 16) with 2]; lia]|]); cbn [a64_exec]; do 2 f_equal.
  all: rewrite ?lnot_chunk by done; destruct sf.
  all: destruct (chunk_index _ i Hi ltac:(lia)) as [-> | [-> | [-> | ->]]]; try lia.
  all: cbn [replicate insert list_insert cval width].
  all: lia.
Qed.

End Running.
