(* ===== verification/A64Emit.v ===== *)
(** * A64Emit: the AArch64 backend

    The emitter of jit/aarch64_emitter.cpp and jit_base_emitter.h: the code
    buffer, branch placeholders and their patching, the inline TLB lookup, and
    the code of every BPF instruction.  An emitter is its buffer as 32-bit words
    (everything the backend writes is a multiple of four bytes: [emit_insn],
    [emit64] of a literal, and patches of whole words), with the offsets and the
    switches of the base class.

    Code that needs no offset is a list of words ([alu_words], [mov_imm], ...);
    the rest threads the buffer in the monad [W]. *)

From S2P Require Import Prelude Isa AddrSpace Vm Frame SoftFp Jit A64.
From Stdlib Require Import Lia.
From stdpp Require Import base numbers list option.

Open Scope Z_scope.

(** What the compiler hands over: field offsets of the vm ([set_vm_offsets],
    [set_budget]) and the addresses of the helpers ([set_helpers]). *)
Class A64Layout := {
  off_reg_ : Z; off_pc_ : Z; off_flags_ : Z; off_tlb_ : Z;
  off_insn_count_ : Z; off_insn_limit_ : Z; off_scratch_ : Z;
  h_safepoint : Z; h_pop_frame : Z; h_do_syscall : Z; h_do_softfp : Z; h_call_bpf : Z;
  h_mmu : Z; h_mmu_w : Z; h_resolve_and_cache : Z; h_call_indirect_ic : Z
}.

(** The fields of [TlbEntry] (insn.h): three 8-byte words, [flags], [cow]. *)
Definition off_gb : Z := 0.
Definition off_ge : Z := 8.
Definition off_hb : Z := 16.
Definition off_fl : Z := 24.
Definition off_cw : Z := 28.
Definition log2_tlb_entry : Z := 5.

Module AArch64.

(** ** The buffer *)

Record AArch64Emitter := mkem {
  buf_ : list Z;
  vm_exit_offset : Z;
  entry_fast_offset : Z;
  insn_count_enabled_ : bool;
  budget_enabled_ : bool
}.
Definition set_buf (b : list Z) (e : AArch64Emitter) : AArch64Emitter :=
  mkem b (vm_exit_offset e) (entry_fast_offset e) (insn_count_enabled_ e) (budget_enabled_ e).

(** [reset], and the switches set by [set_budget]. *)
Definition fresh (counting budget : bool) : AArch64Emitter := mkem [] 0 0 counting (counting && budget).

Definition size (e : AArch64Emitter) : Z := 4 * Z.of_nat (length (buf_ e)).

(** Emitting code: the value and the emitter afterwards. *)
Definition W (A : Type) : Type := AArch64Emitter -> A * AArch64Emitter.
Definition wret {A} (a : A) : W A := fun e => (a, e).
Definition wbind {A B} (m : W A) (k : A -> W B) : W B := fun e => let '(a, e') := m e in k a e'.

Declare Scope emit_scope.
Delimit Scope emit_scope with emit.
Bind Scope emit_scope with W.
Notation "x <- m ;; k" := (wbind m (fun x => k)) (at level 100, m at next level, right associativity) : emit_scope.
Notation "m ;; k" := (wbind m (fun _ => k)) (at level 100, right associativity) : emit_scope.
Open Scope emit_scope.

Definition emit (ws : list Z) : W unit := fun e => (tt, set_buf (buf_ e ++ ws) e).
Definition here : W Z := fun e => (size e, e).
Definition get_vm_exit : W Z := fun e => (vm_exit_offset e, e).
Definition set_vm_exit (o : Z) : W unit := fun e =>
  (tt, mkem (buf_ e) o (entry_fast_offset e) (insn_count_enabled_ e) (budget_enabled_ e)).
Definition set_entry_fast (o : Z) : W unit := fun e =>
  (tt, mkem (buf_ e) (vm_exit_offset e) o (insn_count_enabled_ e) (budget_enabled_ e)).

(** A branch instruction to be patched, and its offset. *)
Definition branch (w : Z) : W Z := o <- here ;; emit [w] ;; wret o.

(** ** Patching *)

Definition rel_words (off target : Z) : Z := Z.quot (s32 (target - off)) 4.
Definition patch_word (off : Z) (f : Z -> Z) : W unit := fun e =>
  (tt, set_buf (alter f (Z.to_nat (off / 4)) (buf_ e)) e).
Definition cond_patched (rel insn : Z) : Z :=
  Z.lor (Z.land insn 0xFF00001F) (u32 (Z.shiftl (Z.land (u32 rel) 0x7FFFF) 5)).
Definition uncond_patched (rel insn : Z) : Z :=
  Z.lor (Z.land insn 0xFC000000) (Z.land (u32 rel) 0x3FFFFFF).
Definition patch_branch_cond (off target : Z) : W unit := patch_word off (cond_patched (rel_words off target)).
Definition patch_branch_uncond (off target : Z) : W unit := patch_word off (uncond_patched (rel_words off target)).

(** [w] patched to go back to [target] ([patch_branch_cond(size() - 4, target)]). *)
Definition loop_back (w target : Z) : W unit := o <- branch w ;; patch_branch_cond o target.

(** Far forms: the inverted condition skips an unconditional branch. *)
Definition emit_far_cond (cond : Z) : W Z :=
  emit [ors [0x54000000; Z.shiftl 2 5; Z.lxor cond 1]] ;; branch b_uncond.
Definition emit_far_czero (reg : Z) (is_64 taken_when_zero : bool) : W Z :=
  o <- branch (if taken_when_zero then cbnz reg is_64 else cbz reg is_64) ;;
  b_off <- branch b_uncond ;;
  patch_branch_cond o (b_off + 4) ;; wret b_off.

(** An unconditional branch to [vm_exit_offset]. *)
Definition b_vm_exit (off : Z) : W unit := x <- get_vm_exit ;; patch_branch_uncond off x.

Definition ldr_literal_at (dst data_off : Z) : W unit :=
  n <- here ;;
  emit [ors [0x58000000; u32 (Z.shiftl (Z.land (u32 (Z.quot (s32 (data_off - n)) 4)) 0x7FFFF) 5); rd dst]].

(** What a branch instruction at an offset is, and where it goes. *)
Definition sign_ext (n z : Z) : Z := sval n z.
Definition branch_form (w : Z) : option (PlaceholderKind * Z) :=
  if (bits w 24 8 =? 0x54) || (bits w 25 6 =? 0x1A) then Some (Conditional, sval 19 (bits w 5 19))
  else if bits w 26 6 =? 5 then Some (Unconditional, sval 26 (bits w 0 26))
  else None.
Definition branch_at (e : AArch64Emitter) (o : Z) : option (PlaceholderKind * Z) :=
  if (0 <=? o) && (o mod 4 =? 0) then
    w ← buf_ e !! Z.to_nat (o / 4); '(k, d) ← branch_form w; Some (k, o + 4 * d)
  else None.

(** [memcpy] of an 8-byte slot address over its placeholder. *)
Definition write64 (o x : Z) (e : AArch64Emitter) : AArch64Emitter :=
  set_buf (<[Z.to_nat (o / 4 + 1) := u32 (x / 2 ^ 32)]> (<[Z.to_nat (o / 4) := u32 x]> (buf_ e))) e.

(** ** Registers of the guest *)

Definition load_bpf (bpf_r dst : Z) : list Z :=
  if reg_map bpf_r =? dst then [] else [mov_reg dst (reg_map bpf_r) true].
Definition store_bpf (bpf_r src : Z) (is_64 : bool) : list Z :=
  if negb is_64 then [mov_reg (reg_map bpf_r) src false]
  else if reg_map bpf_r =? src then [] else [mov_reg (reg_map bpf_r) src true].

(** Exclusive load and store ([LDAXR], [STLXR]). *)
Definition ldaxr (is_dw : bool) (n t : Z) : Z := ors [sel is_dw 0xC85FFC00 0x885FFC00; Z.shiftl n 5; rd t].
Definition stlxr (is_dw : bool) (s n t : Z) : Z :=
  ors [sel is_dw 0xC800FC00 0x8800FC00; Z.shiftl s 16; Z.shiftl n 5; rd t].

(** ** ALU *)

(** [None] is [return false]. *)
Definition alu_end (insn : bpf_insn) (is_64 is_x : bool) : option (list Z) :=
  let load_dst := load_bpf (dst_reg insn) X0 in
  let store_dst := store_bpf (dst_reg insn) X0 is_64 in
  if is_64 then
    if imm insn =? 16 then Some (load_dst ++ [rev16 X0 X0 true] ++ and_imm X0 X0 0xFFFF true ++ store_dst)
    else if imm insn =? 32 then Some (load_dst ++ [rev32 X0 X0] ++ store_dst)
    else if imm insn =? 64 then Some (load_dst ++ [rev64 X0 X0] ++ store_dst)
    else None
  else if negb is_x && (imm insn =? 64) then Some []
  else if is_x then
    if imm insn =? 16 then Some (load_dst ++ [rev16 X0 X0 false] ++ and_imm X0 X0 0xFFFF true ++ store_dst)
    else if imm insn =? 32 then Some (load_dst ++ [rev32 X0 X0] ++ store_dst)
    else None
  else
    if imm insn =? 16 then Some (load_dst ++ and_imm X0 X0 0xFFFF true ++ store_dst)
    else if imm insn =? 32 then Some (load_dst ++ [mov_reg X0 X0 false] ++ store_dst)
    else None.

Definition alu_mov (insn : bpf_insn) (is_64 is_x : bool) : list Z :=
  let sd := reg_map (dst_reg insn) in
  if is_64 && is_x && (dst_reg insn =? src_reg insn) then []
  else if is_x then
    let ss := reg_map (src_reg insn) in
    if negb is_64 then [mov_reg sd ss false] else if sd =? ss then [] else [mov_reg sd ss true]
  else if is_64 then mov_imm X0 (u64 (imm insn)) true ++ [mov_reg sd X0 true]
  else mov_imm sd (u32 (imm insn)) false.

Definition alu_movsx (insn : bpf_insn) (is_64 is_x : bool) : option (list Z) :=
  let load := if is_x then load_bpf (src_reg insn) X0 else mov_imm X0 (u64 (imm insn)) true in
  let store_dst := store_bpf (dst_reg insn) X0 is_64 in
  if off insn =? 8 then Some (load ++ [sxtb X0 X0 is_64] ++ store_dst)
  else if off insn =? 16 then Some (load ++ [sxth X0 X0 is_64] ++ store_dst)
  else if is_64 && (off insn =? 32) then Some (load ++ [sxtw X0 X0] ++ store_dst)
  else None.

(** The immediate operations that do nothing. *)
Definition alu_noop (insn : bpf_insn) (op : Z) : bool :=
  ((imm insn =? 0) && ((op =? BPF_ADD) || (op =? BPF_SUB) || (op =? BPF_OR) || (op =? BPF_XOR)
                       || (op =? BPF_LSH) || (op =? BPF_RSH) || (op =? BPF_ARSH)))
  || ((imm insn =? 1) && ((op =? BPF_MUL) || (op =? BPF_DIV))).

Definition zero_extend (insn : bpf_insn) (is_64 : bool) : list Z :=
  if negb is_64 then [mov_reg (reg_map (dst_reg insn)) (reg_map (dst_reg insn)) false] else [].

(** The operation between the operands in X0 and X1 (or the immediate). *)
Definition alu_body (insn : bpf_insn) (is_64 is_x : bool) : option (list Z) :=
  let op := insn_op insn in
  let immu := u64 (imm insn) in
  let count := Z.land (imm insn) (if is_64 then 0x3F else 0x1F) in
  if op =? BPF_ADD then Some (if is_x then [add_reg X0 X0 X1 is_64] else add_imm X0 X0 (imm insn) is_64)
  else if op =? BPF_SUB then Some (if is_x then [sub_reg X0 X0 X1 is_64] else sub_imm X0 X0 (imm insn) is_64)
  else if op =? BPF_OR then Some (if is_x then [orr_reg X0 X0 X1 is_64] else orr_imm X0 X0 immu is_64)
  else if op =? BPF_AND then Some (if is_x then [and_reg X0 X0 X1 is_64] else and_imm X0 X0 immu is_64)
  else if op =? BPF_XOR then Some (if is_x then [eor_reg X0 X0 X1 is_64] else eor_imm X0 X0 immu is_64)
  else if op =? BPF_LSH then Some [if is_x then lsl_reg X0 X0 X1 is_64 else lsl_imm X0 X0 count is_64]
  else if op =? BPF_RSH then Some [if is_x then lsr_reg X0 X0 X1 is_64 else lsr_imm X0 X0 count is_64]
  else if op =? BPF_ARSH then Some [if is_x then asr_reg X0 X0 X1 is_64 else asr_imm X0 X0 count is_64]
  else if op =? BPF_MUL then
    Some ((if is_x then [] else if is_64 then mov_imm X1 immu true else mov_imm X1 (u32 (imm insn)) false)
          ++ [mul_reg X0 X0 X1 is_64])
  else None.

Definition alu_div (insn : bpf_insn) (is_64 is_x : bool) : list Z :=
  let store_dst := store_bpf (dst_reg insn) X0 is_64 in
  if negb is_x && (imm insn =? 0) then mov_imm X0 0 is_64 ++ store_dst
  else (if is_x then [] else mov_imm X1 (u64 (imm insn)) is_64)
       ++ [if off insn =? 0 then udiv_reg X0 X0 X1 is_64 else sdiv_reg X0 X0 X1 is_64] ++ store_dst.
Definition alu_mod (insn : bpf_insn) (is_64 is_x : bool) : list Z :=
  let store_dst := store_bpf (dst_reg insn) X0 is_64 in
  if negb is_x && (imm insn =? 0) then zero_extend insn is_64
  else (if is_x then [] else mov_imm X1 (u64 (imm insn)) is_64)
       ++ [if off insn =? 0 then udiv_reg X2 X0 X1 is_64 else sdiv_reg X2 X0 X1 is_64; msub_reg X0 X2 X1 X0 is_64]
       ++ store_dst.

(** [emit_alu], as the words it emits. *)
Definition alu_words (insn : bpf_insn) (is_64 : bool) : option (list Z) :=
  let is_x := insn_is_x insn in
  let op := insn_op insn in
  let load_dst := load_bpf (dst_reg insn) X0 in
  let store_dst := store_bpf (dst_reg insn) X0 is_64 in
  let loads := load_dst ++ (if is_x then load_bpf (src_reg insn) X1 else []) in
  if (op =? BPF_MOV) && (off insn =? 0) then Some (alu_mov insn is_64 is_x)
  else if op =? BPF_NEG then Some (load_dst ++ [neg_reg X0 X0 is_64] ++ store_dst)
  else if op =? BPF_MOV then alu_movsx insn is_64 is_x
  else if op =? BPF_END then alu_end insn is_64 is_x
  else if negb is_x && alu_noop insn op then Some (zero_extend insn is_64)
  else if op =? BPF_DIV then Some (loads ++ alu_div insn is_64 is_x)
  else if op =? BPF_MOD then Some (loads ++ alu_mod insn is_64 is_x)
  else body ← alu_body insn is_64 is_x; Some (loads ++ body ++ store_dst).

Definition append (ws : list Z) (e : AArch64Emitter) : AArch64Emitter := set_buf (buf_ e ++ ws) e.
Definition emit_alu (insn : bpf_insn) (is_64 : bool) (e : AArch64Emitter) : option AArch64Emitter :=
  ws ← alu_words insn is_64; Some (append ws e).

(** [emit_ld]: the 64-bit immediate of two slots. *)
Definition emit_ld (insn insn1 : bpf_insn) (e : AArch64Emitter) : option AArch64Emitter :=
  if negb (insn_mode insn =? BPF_IMM) || negb (insn_width insn =? BPF_DW) || (10 <=? dst_reg insn) then None
  else Some (append (mov_imm (reg_map (dst_reg insn))
                             (Z.lor (u64 (Z.shiftl (u32 (imm insn1)) 32)) (u32 (imm insn))) true) e).

Section Emission.
Context {lay : A64Layout}.

(** ** Flush, reload, helper calls *)

(** The slot of a BPF register in the vm. *)
Definition slot_off (i : Z) : Z := s32 (off_reg_ + i * 8).
Definition reg_range (n : nat) : list Z := Z.of_nat <$> seq 0 n.
Definition flush_to_vm : list Z := reg_range 10 ≫= fun i => str_imm (reg_map i) X28 (slot_off i) true.
Definition reload_from_vm : list Z := reg_range 10 ≫= fun i => ldr_imm (reg_map i) X28 (slot_off i) true.
Definition reload_caller_saved : list Z := reg_range 6 ≫= fun i => ldr_imm (reg_map i) X28 (slot_off i) true.
Definition spill_caller_saved : list Z :=
  add_imm SP SP (-48) true ++ [stp X9 X10 SP 0 true; stp X11 X12 SP 16 true; stp X13 X14 SP 32 true].
Definition restore_caller_saved : list Z :=
  [ldp X9 X10 SP 0 true; ldp X11 X12 SP 16 true; ldp X13 X14 SP 32 true] ++ add_imm SP SP 48 true.
Definition call_helper (addr : Z) : list Z := mov_imm X15 addr true ++ [blr X15].

(** [vm->pc_ = gpa], through [tmp]. *)
Definition set_pc_words (tmp gpa : Z) : list Z := mov_imm tmp gpa true ++ str_imm tmp X28 (s32 off_pc_) true.

(** Atomically [flags |= W0], with the address in X1 ([LDAXR]/[STLXR] retry loop). *)
Definition or_flags (fl : Z) : W unit :=
  emit (mov_imm X0 fl false ++ add_imm X1 X28 off_flags_ true) ;;
  retry <- here ;;
  emit [ldaxr false X1 X2; orr_reg X2 X2 X0 false; stlxr false X15 X1 X2] ;;
  loop_back (cbnz X15 false) retry.

(** ** Guest memory: the inline TLB lookup and its slow path *)

Record MemAccessContext := mkctx {
  miss_jumps : list Z;
  abort_jumps : list Z;
  slow_start : Z;
  done_offset : Z;
  done_jmp : Z
}.

(** The host address of a guest access, in X0. *)
Definition begin_mem_access (base_reg offset access_size : Z) (is_write : bool) : W MemAccessContext :=
  emit ((if base_reg =? X0 then [] else [mov_reg X0 base_reg true]) ++
        (if offset =? 0 then [] else add_imm X0 X0 offset true) ++
        [lsr_imm X1 X0 20 true; lsr_imm X15 X0 12 true; eor_reg X15 X15 X1 true] ++
        and_imm X15 X15 (TLB_SIZE - 1) true ++
        [lsl_imm X15 X15 log2_tlb_entry true; add_reg X15 X15 X28 true] ++
        add_imm X15 X15 off_tlb_ true ++
        ldr_imm X1 X15 off_gb true ++ [cmp_reg X0 X1 true]) ;;
  below <- branch (b_cond CC) ;;
  emit (add_imm X2 X0 access_size true ++ [cmp_reg X2 X0 true]) ;;
  wrapped <- branch (b_cond CC) ;;
  emit (ldr_imm X1 X15 off_ge true ++ [cmp_reg X2 X1 true]) ;;
  above <- branch (b_cond HI) ;;
  wr <- (if is_write then
           emit (ldr_imm X1 X15 off_fl false ++ mov_imm X2 2 false ++ [tst_reg X1 X2 false]) ;;
           ro <- branch (b_cond EQ) ;;
           emit (ldrb X1 X15 off_cw) ;;
           cw <- branch (cbnz X1 true) ;;
           wret [ro; cw]
         else wret []) ;;
  emit (ldr_imm X1 X15 off_gb true ++ [sub_reg X0 X0 X1 true] ++
        ldr_imm X1 X15 off_hb true ++ [add_reg X0 X0 X1 true]) ;;
  jdone <- branch b_uncond ;;
  slow <- here ;;
  emit (spill_caller_saved ++ [mov_reg X1 X0 true; mov_reg X0 X28 true] ++
        mov_imm X2 access_size true ++ call_helper (if is_write then h_mmu_w else h_mmu) ++ restore_caller_saved) ;;
  ab <- emit_far_czero X0 true true ;;
  fin <- here ;;
  wret (mkctx ([below; wrapped; above] ++ wr) [ab] slow fin jdone).

Fixpoint patch_all_cond (offs : list Z) (target : Z) : W unit :=
  match offs with
  | [] => wret tt
  | o :: l => patch_branch_cond o target ;; patch_all_cond l target
  end.
Definition finish_mem_access (ctx : MemAccessContext) (bpf_index : Z) : W (list AbortPatchInfo) :=
  patch_all_cond (miss_jumps ctx) (slow_start ctx) ;;
  patch_branch_uncond (done_jmp ctx) (done_offset ctx) ;;
  wret ((fun o => mkabort o bpf_index) <$> abort_jumps ctx).

(** [switch (sf)] of the loads and stores. *)
Definition load_words (mode sf : Z) : list Z :=
  if mode =? BPF_MEM then
    if sf =? BPF_DW then ldr_imm X0 X0 0 true
    else if sf =? BPF_W then ldr_imm X0 X0 0 false
    else if sf =? BPF_H then ldrh X0 X0 0
    else ldrb X0 X0 0
  else
    if sf =? BPF_W then ldrsw X0 X0 0
    else if sf =? BPF_H then ldrsh X0 X0 0 true
    else ldrsb X0 X0 0 true.
Definition store_words (sf : Z) : list Z :=
  if sf =? BPF_DW then str_imm X1 X0 0 true
  else if sf =? BPF_W then str_imm X1 X0 0 false
  else if sf =? BPF_H then strh X1 X0 0
  else strb X1 X0 0.

Definition run_w {A} (m : W A) (e : AArch64Emitter) : AArch64Emitter * A := let '(a, e') := m e in (e', a).

Definition ldx_body (insn : bpf_insn) (bi : Z) : W (list AbortPatchInfo) :=
  ctx <- begin_mem_access (reg_map (src_reg insn)) (off insn) (access_size (code insn)) false ;;
  emit (load_words (insn_mode insn) (insn_width insn) ++ [mov_reg (reg_map (dst_reg insn)) X0 true]) ;;
  finish_mem_access ctx bi.
Definition emit_ldx (insn : bpf_insn) (bi : Z) (e : AArch64Emitter) : option (AArch64Emitter * list AbortPatchInfo) :=
  let mode := insn_mode insn in
  let sf := insn_width insn in
  if (negb (mode =? BPF_MEM) && negb (mode =? BPF_MEMSX)) || ((mode =? BPF_MEMSX) && (sf =? BPF_DW))
     || (10 <=? dst_reg insn) then None
  else Some (run_w (ldx_body insn bi) e).

(** [emit_st] and the plain form of [emit_stx]: the value comes from [operand]. *)
Definition st_body (insn : bpf_insn) (operand : list Z) (bi : Z) : W (list AbortPatchInfo) :=
  ctx <- begin_mem_access (reg_map (dst_reg insn)) (off insn) (access_size (code insn)) true ;;
  emit (operand ++ store_words (insn_width insn)) ;;
  finish_mem_access ctx bi.
Definition emit_st (insn : bpf_insn) (bi : Z) (e : AArch64Emitter) : option (AArch64Emitter * list AbortPatchInfo) :=
  if negb (insn_mode insn =? BPF_MEM) then None
  else Some (run_w (st_body insn (mov_imm X1 (u64 (imm insn)) true) bi) e).

(** ** Atomics *)

Definition atom_alu (op d n m : Z) (is_dw : bool) : list Z :=
  if op =? BPF_ADD then [add_reg d n m is_dw]
  else if op =? BPF_OR then [orr_reg d n m is_dw]
  else if op =? BPF_AND then [and_reg d n m is_dw]
  else if op =? BPF_XOR then [eor_reg d n m is_dw]
  else [].
Definition is_atom_alu (op : Z) : bool :=
  (op =? BPF_ADD) || (op =? BPF_OR) || (op =? BPF_AND) || (op =? BPF_XOR).

(** The retry loop: load, compute, store exclusively, with the host address in X2. *)
Definition atom_loop (is_dw : bool) (loaded : Z) (compute : list Z) (stored : Z) : W unit :=
  loop_start <- here ;;
  emit ([ldaxr is_dw X2 loaded] ++ compute ++ [stlxr is_dw X15 X2 stored]) ;;
  loop_back (cbnz X15 false) loop_start.

Definition atom_cmpxchg (is_dw : bool) : W unit :=
  emit (load_bpf 0 X3) ;;
  loop_start <- here ;;
  emit [ldaxr is_dw X2 X0; cmp_reg X0 X3 is_dw] ;;
  ne_jcc <- branch (b_cond NE) ;;
  emit [stlxr is_dw X15 X2 X1] ;;
  loop_back (cbnz X15 false) loop_start ;;
  skip <- here ;;
  patch_branch_cond ne_jcc skip ;;
  emit (store_bpf 0 X0 true).

(** The operation of an atomic instruction; [None] is [ok = false]. *)
Definition atom_body (insn : bpf_insn) (is_dw : bool) : option (W unit) :=
  let atom_op := imm insn in
  if nz (Z.land atom_op BPF_FETCH) && negb (atom_op =? BPF_XCHG) && negb (atom_op =? BPF_CMPXCHG) then
    let base_op := u8 (Z.land atom_op (Z.lnot BPF_FETCH)) in
    if negb (is_atom_alu base_op) then None
    else Some (atom_loop is_dw X0 (atom_alu base_op X3 X0 X1 is_dw) X3 ;; emit (store_bpf (src_reg insn) X0 true))
  else if is_atom_alu atom_op then Some (atom_loop is_dw X0 (atom_alu atom_op X0 X0 X1 is_dw) X0)
  else if atom_op =? BPF_XCHG then Some (atom_loop is_dw X3 [] X1 ;; emit (store_bpf (src_reg insn) X3 true))
  else if atom_op =? BPF_CMPXCHG then Some (atom_cmpxchg is_dw)
  else None.

Definition emit_stx_atomic (insn : bpf_insn) (bi : Z) (e : AArch64Emitter)
    : option (AArch64Emitter * list AbortPatchInfo) :=
  let sf := insn_width insn in
  if negb (sf =? BPF_DW) && negb (sf =? BPF_W) then None
  else
    let is_dw := sf =? BPF_DW in
    body ← atom_body insn is_dw;
    Some (run_w (ctx <- begin_mem_access (reg_map (dst_reg insn)) (off insn) (if is_dw then 8 else 4) true ;;
                 emit ([mov_reg X2 X0 true] ++ load_bpf (src_reg insn) X1) ;;
                 body ;;
                 finish_mem_access ctx bi) e).

Definition emit_stx (insn : bpf_insn) (bi : Z) (e : AArch64Emitter) : option (AArch64Emitter * list AbortPatchInfo) :=
  if insn_mode insn =? BPF_ATOMIC then emit_stx_atomic insn bi e
  else if negb (insn_mode insn =? BPF_MEM) then None
  else Some (run_w (st_body insn (load_bpf (src_reg insn) X1) bi) e).

(** ** Jumps *)

(** The condition code of a jump, and whether it tests bits. *)
Definition jmp_cc (op : Z) : option (Z * bool) :=
  if op =? BPF_JEQ then Some (EQ, false)
  else if op =? BPF_JNE then Some (NE, false)
  else if op =? BPF_JGT then Some (HI, false)
  else if op =? BPF_JGE then Some (CS, false)
  else if op =? BPF_JLT then Some (CC, false)
  else if op =? BPF_JLE then Some (LS, false)
  else if op =? BPF_JSGT then Some (GT, false)
  else if op =? BPF_JSGE then Some (GE, false)
  else if op =? BPF_JSLT then Some (LT, false)
  else if op =? BPF_JSLE then Some (LE, false)
  else if op =? BPF_JSET then Some (NE, true)
  else None.

Definition jmp_load_operands (insn : bpf_insn) (is_64 : bool) : option (Z * list Z) :=
  let op := insn_op insn in
  let is_x := insn_is_x insn in
  if is_64 && ((op =? BPF_JA) || (op =? BPF_CALL) || (op =? BPF_EXIT)) then None
  else if negb is_64 && (op =? BPF_JA) then None
  else
    c ← jmp_cc op; let '(cc, is_test) := (c : Z * bool) in
    Some (cc, load_bpf (dst_reg insn) X0 ++
      if is_test then
        (if is_x then load_bpf (src_reg insn) X1 else mov_imm X1 (u32 (imm insn)) is_64) ++ [tst_reg X0 X1 is_64]
      else if is_x then load_bpf (src_reg insn) X1 ++ [cmp_reg X0 X1 is_64]
      else cmp_imm X0 (imm insn) is_64).

Definition emit_jmp (insn : bpf_insn) (cur : Z) (is_64 : bool) (e : AArch64Emitter)
    : option (AArch64Emitter * list JumpPlaceholder) :=
  c ← jmp_load_operands insn is_64; let '(cc, ws) := (c : Z * list Z) in
  Some (run_w (emit ws ;; o <- emit_far_cond cc ;;
               wret [mkph o (s32 (cur + 1 + off insn)) Unconditional false]) e).

Definition emit_set_pc_imm (gpa : Z) (e : AArch64Emitter) : AArch64Emitter := append (set_pc_words X0 gpa) e.

Definition emit_jmp_deopt (insn : bpf_insn) (is_64 : bool) (target_gpa : Z) (e : AArch64Emitter)
    : option (AArch64Emitter * list JumpPlaceholder) :=
  c ← jmp_load_operands insn is_64; let '(cc, ws) := (c : Z * list Z) in
  Some (run_w (emit ws ;;
               skip <- branch (b_cond (Z.lxor cc 1)) ;;
               emit (set_pc_words X0 target_gpa) ;;
               o <- branch b_uncond ;;
               patch_branch_cond skip (o + 4) ;;
               wret [mkph o (-1) Unconditional true]) e).

Definition ja_to (t : Z) (e : AArch64Emitter) : AArch64Emitter * list JumpPlaceholder :=
  run_w (o <- branch b_uncond ;; wret [mkph o t Unconditional false]) e.
Definition emit_ja (insn : bpf_insn) (cur : Z) : AArch64Emitter -> AArch64Emitter * list JumpPlaceholder :=
  ja_to (s32 (cur + 1 + off insn)).
Definition emit_ja32 (insn : bpf_insn) (cur : Z) : AArch64Emitter -> AArch64Emitter * list JumpPlaceholder :=
  ja_to (s32 (cur + 1 + imm insn)).

(** ** Calls of the host *)

Definition emit_call_softfp_words (i : Z) : option (list Z) :=
  let r0 := X9 in let a := X10 in let b := X11 in
  let d_binop op2 := [fmov_v_from_x 0 a true; fmov_v_from_x 1 b true; fp_alu op2 0 0 1 true; fmov_x_from_v r0 0 true] in
  let f_binop op2 := [fmov_v_from_x 0 a true; fmov_v_from_x 1 b true; fp_alu op2 0 0 1 false; fmov_x_from_v r0 0 false] in
  let cmp dbl := [fmov_v_from_x 0 a true; fmov_v_from_x 1 b true; fcmp 0 1 dbl] ++ mov_imm r0 0 false
                 ++ [cset r0 GT] ++ mov_imm X0 (2 ^ 64 - 1) true ++ [csel r0 X0 r0 LT true] in
  let unord dbl := [fmov_v_from_x 0 a true; fmov_v_from_x 1 b true; fcmp 0 1 dbl; cset r0 VS] in
  let unop w dbl := [fmov_v_from_x 0 a true; w; fmov_x_from_v r0 0 dbl] in
  let to_int w := [fmov_v_from_x 0 a true; w] in
  let of_int w dbl := [w; fmov_x_from_v r0 0 dbl] in
  if i =? BPF_FP_ADD_D then Some (d_binop 0x0A)
  else if i =? BPF_FP_SUB_D then Some (d_binop 0x0E)
  else if i =? BPF_FP_MUL_D then Some (d_binop 0x02)
  else if i =? BPF_FP_DIV_D then Some (d_binop 0x06)
  else if i =? BPF_FP_ADD_F then Some (f_binop 0x0A)
  else if i =? BPF_FP_SUB_F then Some (f_binop 0x0E)
  else if i =? BPF_FP_MUL_F then Some (f_binop 0x02)
  else if i =? BPF_FP_DIV_F then Some (f_binop 0x06)
  else if i =? BPF_FP_NEG_D then Some (unop (fp_neg 0 0 true) true)
  else if i =? BPF_FP_NEG_F then Some (unop (fp_neg 0 0 false) false)
  else if i =? BPF_FP_SQRT_D then Some (unop (fp_sqrt 0 0 true) true)
  else if i =? BPF_FP_SQRT_F then Some (unop (fp_sqrt 0 0 false) false)
  else if i =? BPF_FP_FABS_D then Some (unop (fp_abs 0 0 true) true)
  else if i =? BPF_FP_FABS_F then Some (unop (fp_abs 0 0 false) false)
  else if i =? BPF_FP_COPYSIGN_D then
    Some (mov_imm X0 0x7FFFFFFFFFFFFFFF true ++ [and_reg X0 a X0 true] ++
          mov_imm X1 0x8000000000000000 true ++ [and_reg X1 b X1 true; orr_reg r0 X0 X1 true])
  else if i =? BPF_FP_COPYSIGN_F then
    Some (mov_imm X0 0x7FFFFFFF false ++ [and_reg X0 a X0 false] ++
          mov_imm X1 0x80000000 false ++ [and_reg X1 b X1 false; orr_reg r0 X0 X1 false])
  else if i =? BPF_FP_D2SI then Some (to_int (fcvtzs r0 0 true false))
  else if i =? BPF_FP_D2DI then Some (to_int (fcvtzs r0 0 true true))
  else if i =? BPF_FP_F2SI then Some (to_int (fcvtzs r0 0 false false))
  else if i =? BPF_FP_F2DI then Some (to_int (fcvtzs r0 0 false true))
  else if i =? BPF_FP_D2USI then Some (to_int (fcvtzu r0 0 true false))
  else if i =? BPF_FP_D2UDI then Some (to_int (fcvtzu r0 0 true true))
  else if i =? BPF_FP_F2USI then Some (to_int (fcvtzu r0 0 false false))
  else if i =? BPF_FP_F2UDI then Some (to_int (fcvtzu r0 0 false true))
  else if i =? BPF_FP_DI2D then Some (of_int (scvtf 0 a true true) true)
  else if i =? BPF_FP_SI2D then Some (of_int (scvtf 0 a true false) true)
  else if i =? BPF_FP_DI2F then Some (of_int (scvtf 0 a false true) false)
  else if i =? BPF_FP_SI2F then Some (of_int (scvtf 0 a false false) false)
  else if i =? BPF_FP_UDI2D then Some (of_int (ucvtf 0 a true true) true)
  else if i =? BPF_FP_USI2D then Some (of_int (ucvtf 0 a true false) true)
  else if i =? BPF_FP_UDI2F then Some (of_int (ucvtf 0 a false true) false)
  else if i =? BPF_FP_USI2F then Some (of_int (ucvtf 0 a false false) false)
  else if i =? BPF_FP_EXTEND then Some (unop (fp_cvt_sd 0 0 true) true)
  else if i =? BPF_FP_TRUNC then Some (unop (fp_cvt_sd 0 0 false) false)
  else if i =? BPF_FP_CMP_D then Some (cmp true)
  else if i =? BPF_FP_CMP_F then Some (cmp false)
  else if i =? BPF_FP_UNORD_D then Some (unord true)
  else if i =? BPF_FP_UNORD_F then Some (unord false)
  else if i =? BPF_FP_UMULH then Some [umulh_reg r0 a b]
  else None.
Definition emit_call_softfp (insn : bpf_insn) (e : AArch64Emitter) : option AArch64Emitter :=
  ws ← emit_call_softfp_words (u32 (imm insn)); Some (append ws e).

(** Flush, store the pc of the call, and set up the arguments of the helper. *)
Definition host_call_words (insn : bpf_insn) (cur entry_gpa helper : Z) : list Z :=
  flush_to_vm ++ set_pc_words X2 (u64 (entry_gpa + u64 cur * INSN_SIZE)) ++
  [mov_reg X0 X28 true] ++ mov_imm X1 (u32 (imm insn)) true ++ call_helper helper.

Definition emit_call_syscall (insn : bpf_insn) (cur entry_gpa : Z) (e : AArch64Emitter) : AArch64Emitter :=
  fst (run_w (emit (host_call_words insn cur entry_gpa h_do_syscall) ;;
              o <- emit_far_czero X0 false true ;;
              b_vm_exit o ;;
              emit reload_from_vm) e).
Definition emit_call_softfp_slow (insn : bpf_insn) (cur entry_gpa : Z) (e : AArch64Emitter) : AArch64Emitter :=
  append (host_call_words insn cur entry_gpa h_do_softfp ++ reload_from_vm) e.

(** ** Calls between guest functions *)

Record FrameSrc := mkframesrc { from_slot : bool; fs_imm : Z; lit_off : Z }.

Definition emit_call_flags_check : W Z :=
  emit (ldr_imm X0 X28 (s32 off_flags_) false) ;; branch (cbnz X0 false).

Definition emit_push_frame_inline (src : FrameSrc) (ret_gpa bpf_index : Z) : W (Z * list AbortPatchInfo) :=
  rctx <- begin_mem_access X23 0 8 false ;;
  emit (ldr_imm X1 X0 0 true ++ [lsr_imm X15 X1 FRAME_ALLOCA_SHIFT true] ++
        and_imm X1 X1 FRAME_SIZE_MASK true ++ and_imm X15 X15 FRAME_ALLOCA_MASK true ++
        [add_reg X1 X1 X15 true; mov_reg X0 X23 true; sub_reg X0 X0 X1 true] ++
        sub_imm X0 X0 64 true ++ mov_imm X2 STACK_BASE true ++ [cmp_reg X0 X2 true]) ;;
  overflow_b <- branch (b_cond CC) ;;
  emit (str_imm X0 X28 (s32 off_scratch_) true) ;;
  ab1 <- finish_mem_access rctx bpf_index ;;
  wctx <- begin_mem_access X0 0 64 true ;;
  (if from_slot src then
     ldr_literal_at X1 (lit_off src) ;; emit (ldr_imm X2 X1 16 true ++ str_imm X2 X0 0 true)
   else emit (mov_imm X1 (fs_imm src) true ++ str_imm X1 X0 0 true)) ;;
  emit (str_imm X23 X0 8 true ++ mov_imm X1 ret_gpa true ++ str_imm X1 X0 16 true ++
        str_imm X19 X0 24 true ++ str_imm X20 X0 32 true ++ str_imm X21 X0 40 true ++ str_imm X22 X0 48 true ++
        ldr_imm X23 X28 (s32 off_scratch_) true ++ str_imm X23 X28 (slot_off 10) true) ;;
  ab2 <- finish_mem_access wctx bpf_index ;;
  wret (overflow_b, ab1 ++ ab2).

Definition emit_call_overflow_stub (overflow_b : Z) : W unit :=
  overflow <- here ;;
  patch_branch_cond overflow_b overflow ;;
  or_flags VM_KILLED ;;
  ov_b <- branch b_uncond ;;
  b_vm_exit ov_b.

Fixpoint patch_all_uncond (offs : list Z) (target : Z) : W unit :=
  match offs with
  | [] => wret tt
  | o :: l => patch_branch_uncond o target ;; patch_all_uncond l target
  end.
Definition emit_call_cont_tail (ret_gpa : Z) (cont_jmps : list Z) : W unit :=
  cont_target <- here ;;
  patch_all_uncond cont_jmps cont_target ;;
  emit (ldr_imm X23 X28 (slot_off 10) true ++ ldr_imm X0 X28 (s32 off_flags_) false) ;;
  cont_cbnz <- emit_far_czero X0 false false ;;
  emit (ldr_imm X1 X28 (s32 off_pc_) true ++ mov_imm X2 ret_gpa true ++ [cmp_reg X1 X2 true]) ;;
  cont_bne <- emit_far_cond NE ;;
  b_vm_exit cont_cbnz ;;
  b_vm_exit cont_bne.

(** The 8-byte literal read by the [LDR] two instructions before it, and skipped
    by the branch between them. *)
Definition slot_literal (ldr_word : Z) : W Z :=
  emit [ldr_word; 0x14000003] ;; o <- here ;; emit [0; 0] ;; wret o.

(** Enter the code whose address is in X16. *)
Definition enter_callee : W Z := emit [blr X16] ;; branch b_uncond.

Definition call_bpf_body (ret_gpa callee_gpa callee_frame bpf_index : Z) : W (list AbortPatchInfo * list Z) :=
  flags_cbnz <- emit_call_flags_check ;;
  pf <- emit_push_frame_inline (mkframesrc false callee_frame 0) ret_gpa bpf_index ;;
  slot_data_off <- slot_literal 0x58000040 ;;
  emit (ldr_imm X0 X0 0 true) ;;
  cache_cbz <- branch (cbz X0 true) ;;
  emit [mov_reg X16 X0 true] ;;
  after_call_b <- enter_callee ;;
  slow_resolve <- here ;;
  patch_branch_cond cache_cbz slow_resolve ;;
  emit (spill_caller_saved ++ [mov_reg X0 X28 true] ++ mov_imm X1 callee_gpa true) ;;
  ldr_literal_at X2 slot_data_off ;;
  emit (call_helper h_resolve_and_cache ++ restore_caller_saved) ;;
  nc_cbz <- branch (cbz X0 true) ;;
  emit [mov_reg X16 X0 true] ;;
  sr_b <- enter_callee ;;
  not_compiled <- here ;;
  patch_branch_cond nc_cbz not_compiled ;;
  emit flush_to_vm ;;
  nc_b <- branch b_uncond ;;
  b_vm_exit nc_b ;;
  slow <- here ;;
  patch_branch_cond flags_cbnz slow ;;
  emit (flush_to_vm ++ [mov_reg X0 X28 true] ++ mov_imm X1 ret_gpa true ++ mov_imm X2 callee_gpa true
        ++ call_helper h_call_bpf) ;;
  slow_b <- branch b_uncond ;;
  b_vm_exit slow_b ;;
  emit_call_overflow_stub (fst pf) ;;
  emit_call_cont_tail ret_gpa [after_call_b; sr_b] ;;
  wret (snd pf, [slot_data_off]).

Definition call_indirect_body (insn : bpf_insn) (ret_gpa bpf_index : Z) : W (list AbortPatchInfo * list Z) :=
  flags_cbnz <- emit_call_flags_check ;;
  emit (load_bpf (dst_reg insn) X0) ;;
  slot_data_off <- slot_literal 0x58000041 ;;
  emit (ldr_imm X2 X1 0 true ++ [cmp_reg X2 X0 true]) ;;
  miss_b <- branch (b_cond NE) ;;
  pf <- emit_push_frame_inline (mkframesrc true 0 slot_data_off) ret_gpa bpf_index ;;
  ldr_literal_at X16 slot_data_off ;;
  emit (ldr_imm X16 X16 8 true) ;;
  entry_cbz <- branch (cbz X16 true) ;;
  after_call_b <- enter_callee ;;
  slow <- here ;;
  patch_branch_cond flags_cbnz slow ;;
  patch_branch_cond miss_b slow ;;
  patch_branch_cond entry_cbz slow ;;
  emit (flush_to_vm ++ ldr_imm X2 X28 (s32 (off_reg_ + dst_reg insn * 8)) true ++ [mov_reg X0 X28 true]
        ++ mov_imm X1 ret_gpa true) ;;
  ldr_literal_at X3 slot_data_off ;;
  emit (call_helper h_call_indirect_ic) ;;
  slow_b <- branch b_uncond ;;
  b_vm_exit slow_b ;;
  emit_call_overflow_stub (fst pf) ;;
  emit_call_cont_tail ret_gpa [after_call_b] ;;
  wret (snd pf, [slot_data_off]).

Definition with_slots (m : W (list AbortPatchInfo * list Z)) (e : AArch64Emitter)
    : AArch64Emitter * list AbortPatchInfo * list Z := let '((ab, cs), e') := m e in (e', ab, cs).
Definition emit_call_bpf (ret_gpa callee_gpa callee_frame bpf_index : Z) :=
  with_slots (call_bpf_body ret_gpa callee_gpa callee_frame bpf_index).
Definition emit_call_indirect (insn : bpf_insn) (ret_gpa bpf_index : Z) :=
  with_slots (call_indirect_body insn ret_gpa bpf_index).

(** [vm->reg[r] = frame word at off] for r6 to r9, the frame being at X0. *)
Definition restore_callee_saved : list Z :=
  [(0x18, 6); (0x20, 7); (0x28, 8); (0x30, 9)] ≫= fun '(o, r) =>
    ldr_imm X1 X0 o true ++ str_imm X1 X28 (slot_off r) true.

Definition exit_body (bpf_index : Z) : W (list AbortPatchInfo) :=
  ctx <- begin_mem_access X23 0 56 false ;;
  emit (ldr_imm X1 X0 0x10 true ++ ldr_imm X2 X0 0x08 true ++ ldr_imm X15 X0 0 true ++
        str_imm X0 X28 (s32 off_scratch_) true) ;;
  ab <- finish_mem_access ctx bpf_index ;;
  stack_bottom_jcc <- branch (cbz X1 true) ;;
  emit [lsr_imm X15 X15 48 true] ;;
  sig_je <- branch (cbz X15 true) ;;
  emit (str_imm X23 X28 (slot_off 10) true ++ [mov_reg X0 X28 true] ++ call_helper h_pop_frame ++
        str_imm X0 X28 (s32 off_pc_) true) ;;
  sig_jmp <- branch b_uncond ;;
  b_vm_exit sig_jmp ;;
  no_signal <- here ;;
  patch_branch_cond sig_je no_signal ;;
  emit (str_imm X1 X28 (s32 off_pc_) true ++ str_imm X9 X28 (slot_off 0) true ++
        ([1; 2; 3; 4; 5] ≫= fun i => str_imm (reg_map i) X28 (slot_off i) true) ++
        ldr_imm X0 X28 (s32 off_scratch_) true ++ restore_callee_saved ++
        str_imm X2 X28 (slot_off 10) true) ;;
  exit_jmp <- branch b_uncond ;;
  b_vm_exit exit_jmp ;;
  stack_bottom <- here ;;
  patch_branch_cond stack_bottom_jcc stack_bottom ;;
  emit flush_to_vm ;;
  or_flags VM_EXITED ;;
  bottom_jmp <- branch b_uncond ;;
  b_vm_exit bottom_jmp ;;
  wret ab.
Definition emit_exit (bpf_index : Z) : AArch64Emitter -> AArch64Emitter * list AbortPatchInfo :=
  run_w (exit_body bpf_index).

(** ** Prologue and safepoints *)

Definition save_callee_saved : list Z :=
  add_imm SP SP (-64) true ++
  [stp X19 X20 SP 0 true; stp X21 X22 SP 16 true; stp X23 X28 SP 32 true; stp FP LR SP 48 true].
Definition leave_words : list Z :=
  [ldp X19 X20 SP 0 true; ldp X21 X22 SP 16 true; ldp X23 X28 SP 32 true; ldp FP LR SP 48 true] ++
  add_imm SP SP 64 true ++ [ret_insn].

(** From the common exit on: [jmp_off] is the branch to [.entry] before it. *)
Definition prologue_rest (entry_jmp : Z) : W unit :=
  emit flush_to_vm ;;
  jmp_off <- branch b_uncond ;;
  b_vm_exit jmp_off ;;
  entry_fast <- here ;;
  set_entry_fast entry_fast ;;
  emit save_callee_saved ;;
  fast_jmp <- branch b_uncond ;;
  entry <- here ;;
  patch_branch_uncond entry_jmp entry ;;
  emit (flush_to_vm ++ [mov_reg X0 X28 true] ++ call_helper h_safepoint) ;;
  x <- get_vm_exit ;;
  loop_back (cbnz X0 false) x ;;
  emit reload_caller_saved ;;
  body <- here ;;
  patch_branch_uncond fast_jmp body.

Definition emit_prologue : W Z :=
  emit (save_callee_saved ++ [mov_reg X28 X0 true] ++
        (reg_range 11 ≫= fun i => ldr_imm (reg_map i) X28 (slot_off i) true)) ;;
  entry_jmp <- branch b_uncond ;;
  vm_exit <- here ;;
  set_vm_exit vm_exit ;;
  emit leave_words ;;
  flush_and_exit_offset <- here ;;
  prologue_rest entry_jmp ;;
  wret flush_and_exit_offset.

(** The instruction count, and the check of the budget. *)
Definition budget_check : W unit :=
  emit (ldr_imm X1 X28 (s32 off_insn_limit_) true ++ [cmp_reg X0 X1 true]) ;;
  budget_ok_b <- branch (b_cond CC) ;;
  emit (add_imm X2 X28 off_flags_ true) ;;
  retry <- here ;;
  emit ([ldaxr false X2 X0] ++ mov_imm X15 VM_BUDGET_EXCEEDED false ++
        [orr_reg X0 X0 X15 false; stlxr false X1 X2 X0]) ;;
  loop_back (cbnz X1 false) retry ;;
  budget_exit <- branch b_uncond ;;
  b_vm_exit budget_exit ;;
  check_flags <- here ;;
  patch_branch_cond budget_ok_b check_flags.

Definition count_insns (loop_body_size : Z) : list Z :=
  ldr_imm X0 X28 (s32 off_insn_count_) true ++ add_imm X0 X0 loop_body_size true ++
  str_imm X0 X28 (s32 off_insn_count_) true.

Definition safepoint_body (counting budget : bool) (loop_body_size insn_gpa : Z) : W unit :=
  (if counting then
     emit (count_insns loop_body_size) ;; if budget then budget_check else wret tt
   else wret tt) ;;
  emit (ldr_imm X0 X28 (s32 off_flags_) false) ;;
  slow_patch <- branch (cbnz X0 false) ;;
  fast_jmp <- branch b_uncond ;;
  slow <- here ;;
  patch_branch_cond slow_patch slow ;;
  emit (flush_to_vm ++ set_pc_words X2 insn_gpa ++ [mov_reg X0 X28 true] ++ call_helper h_safepoint) ;;
  o <- emit_far_czero X0 false false ;;
  b_vm_exit o ;;
  emit reload_caller_saved ;;
  done <- here ;;
  patch_branch_uncond fast_jmp done.
Definition emit_safepoint (loop_body_size insn_gpa : Z) (e : AArch64Emitter) : AArch64Emitter :=
  snd (safepoint_body (insn_count_enabled_ e) (budget_enabled_ e) loop_body_size insn_gpa e).

(** ** The emitter *)

#[export] Instance aarch64_emitter : JitEmitter AArch64Emitter := {|
  Jit.e_fresh := fresh;
  Jit.e_size := size;
  Jit.get_entry_fast_offset := entry_fast_offset;
  Jit.emit_prologue := emit_prologue;
  Jit.emit_safepoint := emit_safepoint;
  Jit.emit_alu := emit_alu;
  Jit.emit_ld := emit_ld;
  Jit.emit_ldx := emit_ldx;
  Jit.emit_st := emit_st;
  Jit.emit_stx := emit_stx;
  Jit.emit_jmp := emit_jmp;
  Jit.emit_jmp_deopt := emit_jmp_deopt;
  Jit.emit_set_pc_imm := emit_set_pc_imm;
  Jit.emit_ja := emit_ja;
  Jit.emit_ja32 := emit_ja32;
  Jit.emit_call_syscall := emit_call_syscall;
  Jit.emit_call_softfp := emit_call_softfp;
  Jit.emit_call_softfp_slow := emit_call_softfp_slow;
  Jit.emit_call_bpf := emit_call_bpf;
  Jit.emit_call_indirect := emit_call_indirect;
  Jit.emit_exit := emit_exit;
  Jit.patch_branch_cond := fun o t e => snd (patch_branch_cond o t e);
  Jit.patch_branch_uncond := fun o t e => snd (patch_branch_uncond o t e);
  Jit.patch_branch_abort := fun o t e => snd (patch_branch_uncond o t e);
  Jit.write64 := write64;
  Jit.branch_at := branch_at
|}.

End Emission.
End AArch64.
