(* ===== verification/A64Laws.v ===== *)
(** * A64Laws: the AArch64 backend keeps the compiler's contract

    The emitter of A64Emit.v obeys [EmitterLaws]: every operation only appends
    to the buffer, whatever it patches on the way is a branch of its own, the
    placeholders it hands out are branches of the kind it says, and a patch
    sends a branch to its target as long as the code is within the branch's
    range (1 MB for a conditional branch, 128 MB otherwise).

    The operations are checked with a small program logic ([wp]): the state is
    what was appended, the assertions are the branches known to be there. *)

From S2P Require Import Prelude HostMem AddrSpace Isa Vm Segments Frame SoftFp Interp InterpFacts Discover Jit Link A64 A64Emit.
From Stdlib Require Import Lia.
From stdpp Require Import base numbers list option sets gmap.

Open Scope Z_scope.
Import AArch64.
Open Scope emit_scope.

(** ** Branch words *)

Lemma bits_land_mask w m lo len : 0 <= lo -> 0 <= len ->
  bits (Z.land w m) lo len = Z.land (bits w lo len) (bits m lo len).
Proof.
  intros Hlo Hlen. apply Z.bits_inj'. intros i Hi. rewrite Z.land_spec, !bits_spec, Z.land_spec by lia.
  destruct (i <? len); [done|]. by rewrite andb_false_l.
Qed.

Lemma bits_range w lo len : 0 <= len -> 0 <= bits w lo len < 2 ^ len.
Proof. intros Hl. unfold bits. apply Z.mod_pos_bound. by apply Z.pow_pos_nonneg. Qed.

Lemma bits_land_full w m lo len : 0 <= lo -> 0 <= len -> bits m lo len = 2 ^ len - 1 ->
  bits (Z.land w m) lo len = bits w lo len.
Proof.
  intros Hlo Hlen Hm. rewrite bits_land_mask, Hm, land_mask by lia. apply Z.mod_small. by apply bits_range.
Qed.

Lemma bits_land_none w m lo len : 0 <= lo -> 0 <= len -> bits m lo len = 0 -> bits (Z.land w m) lo len = 0.
Proof. intros Hlo Hlen Hm. by rewrite bits_land_mask, Hm, Z.land_0_r by lia. Qed.

(** The operand fields of a patched word. *)
Lemma cond_patched_bits rel w : let w' := cond_patched rel w in
  bits w' 24 8 = bits w 24 8 /\ bits w' 25 6 = bits w 25 6 /\ bits w' 26 6 = bits w 26 6 /\
  bits w' 5 19 = rel mod 2 ^ 19.
Proof.
  cbn zeta. unfold cond_patched. change 0x7FFFF with (2 ^ 19 - 1). rewrite land_mask by lia.
  assert (u32 rel mod 2 ^ 19 = rel mod 2 ^ 19) as -> by (apply (uwrap_uwrap 19 32); lia). set (r := rel mod 2 ^ 19). assert (0 <= r < 2 ^ 19) as Hr by (apply Z.mod_pos_bound; lia).
  assert (u32 (Z.shiftl r 5) = Z.shiftl r 5) as ->.
  { apply uwrap_small. rewrite Z.shiftl_mul_pow2 by lia. lia. }
  split_and!; rewrite bits_lor by lia.
  1-3: rewrite bits_land_full, (bits_above 19 r 5), Z.lor_0_r by (done || lia); done.
  rewrite bits_land_none, bits_exact, Z.lor_0_l by (done || lia). done.
Qed.

Lemma uncond_patched_bits rel w : let w' := uncond_patched rel w in
  bits w' 24 8 = Z.lor (Z.land (bits w 24 8) 0xFC) (bits (rel mod 2 ^ 26) 24 8) /\
  bits w' 26 6 = bits w 26 6 /\ bits w' 0 26 = rel mod 2 ^ 26.
Proof.
  cbn zeta. unfold uncond_patched. change 0x3FFFFFF with (2 ^ 26 - 1). rewrite land_mask by lia.
  assert (u32 rel mod 2 ^ 26 = rel mod 2 ^ 26) as -> by (apply (uwrap_uwrap 26 32); lia). set (r := rel mod 2 ^ 26). assert (0 <= r < 2 ^ 26) as Hr by (apply Z.mod_pos_bound; lia).
  split_and!; rewrite bits_lor by lia.
  - by rewrite bits_land_mask by lia.
  - rewrite bits_land_full, (bits_above0 26 r), Z.lor_0_r by (done || lia). done.
  - rewrite bits_land_none, (bits_exact0 r), Z.lor_0_l by (done || lia). done.
Qed.

Lemma bits_split w lo n m : 0 <= lo -> 0 <= n -> 0 <= m -> bits w lo (n + m) = bits w lo n + 2 ^ n * bits w (lo + n) m.
Proof.
  intros. unfold bits. rewrite Z.pow_add_r, (Z.pow_add_r 2 lo) by lia.
  rewrite Z.rem_mul_r by (try apply Z.pow_nonzero; try apply Z.pow_pos_nonneg; lia).
  by rewrite Z.div_div by (try apply Z.pow_nonzero; try apply Z.pow_pos_nonneg; lia).
Qed.

(** The two forms exclude each other. *)
Lemma branch_form_uncond w : bits w 26 6 = 5 -> branch_form w = Some (Unconditional, sval 26 (bits w 0 26)).
Proof.
  intros H. unfold branch_form. 
  pose proof (bits_split w 24 2 6 ltac:(lia) ltac:(lia) ltac:(lia)) as H1.
  change (2 + 6) with 8 in H1. change (24 + 2) with 26 in H1.
  pose proof (bits_split w 26 5 1 ltac:(lia) ltac:(lia) ltac:(lia)) as H2. change (5 + 1) with 6 in H2. change (26 + 5) with 31 in H2.
  pose proof (bits_split w 25 1 5 ltac:(lia) ltac:(lia) ltac:(lia)) as H3. change (1 + 5) with 6 in H3. change (25 + 1) with 26 in H3.
  pose proof (bits_range w 24 2 ltac:(lia)). pose proof (bits_range w 25 1 ltac:(lia)). pose proof (bits_range w 26 5 ltac:(lia)).
  pose proof (bits_range w 31 1 ltac:(lia)).
  rewrite H in *. destruct (Z.eqb_spec (bits w 24 8) 0x54); [lia|]. destruct (Z.eqb_spec (bits w 25 6) 0x1A); [lia|]. done.
Qed.

Lemma cond_patched_form rel w d : branch_form w = Some (Conditional, d) ->
  branch_form (cond_patched rel w) = Some (Conditional, sval 19 (rel mod 2 ^ 19)).
Proof.
  destruct (cond_patched_bits rel w) as (H1 & H2 & H3 & H4). unfold branch_form. rewrite H1, H2, H3, H4.
  destruct (_ || _); [done|]. by destruct (_ =? 5).
Qed.

Lemma uncond_patched_form rel w d : branch_form w = Some (Unconditional, d) ->
  branch_form (uncond_patched rel w) = Some (Unconditional, sval 26 (rel mod 2 ^ 26)).
Proof.
  destruct (uncond_patched_bits rel w) as (_ & H2 & H3). unfold branch_form at 1.
  destruct (_ || _); [done|]. destruct (Z.eqb_spec (bits w 26 6) 5) as [H|]; [|done]. intros _.
  rewrite branch_form_uncond by (by rewrite H2). by rewrite H3.
Qed.

(** The displacement is exact within the range of the field. *)
Lemma rel_exact n o t : 0 < n <= 26 -> o mod 4 = 0 -> t mod 4 = 0 -> - 2 ^ (n + 1) <= t - o < 2 ^ (n + 1) ->
  o + 4 * sval n (rel_words o t mod 2 ^ n) = t.
Proof.
  intros Hn Ho Ht Hr. unfold rel_words.
  assert (2 ^ (n + 1) <= 2 ^ 27) by (apply Z.pow_le_mono_r; lia).
  rewrite (sval_small_abs 32) by (change (2 ^ (32 - 1)) with (2 ^ 31); lia).
  assert (exists q, t - o = q * 4) as [q Hq] by (exists (t / 4 - o / 4); revert Ho Ht; clear; intros; Z.to_euclidean_division_equations; lia).
  rewrite Hq, Z.quot_mul by lia. change (q mod 2 ^ n) with (uwrap n q). rewrite sval_uwrap.
  rewrite Z.pow_add_r in Hr by lia. change (2 ^ 1) with 2 in Hr.
  assert (2 ^ n = 2 * 2 ^ (n - 1)) by (rewrite <- Z.pow_succ_r by lia; do 2 f_equal; lia).
  assert (sval n q = q) as -> by (apply sval_unique; [lia|lia|done]); lia.
Qed.

(** ** Buffers *)

Section Logic.
Context {lay : A64Layout}.
Implicit Types e : AArch64Emitter.

Lemma size_pos e : 0 <= size e.
Proof. unfold size. lia. Qed.
Lemma size_granule e : size e mod 4 = 0.
Proof. unfold size. rewrite Z.mul_comm. by apply Z.mod_mul. Qed.

Definition extends e e' : Prop := exists ws, buf_ e' = buf_ e ++ ws.

Lemma extends_refl e : extends e e.
Proof. exists []. by rewrite app_nil_r. Qed.
Lemma extends_size e e' : extends e e' -> size e <= size e'.
Proof. intros [ws H]. unfold size. rewrite H, length_app. lia. Qed.

Lemma branch_at_inv e o x : branch_at e o = Some x -> 0 <= o /\ o mod 4 = 0 /\ o + 4 <= size e.
Proof.
  unfold branch_at. destruct (_ && _) eqn:Hc; [|done]. zprops. destruct (buf_ e !! _) as [w|] eqn:Hw; [|done].
  intros _. apply lookup_lt_Some in Hw. unfold size. split_and!; [done|done|].
  revert Hw H H0; clear. intros. Z.to_euclidean_division_equations. lia.
Qed.

Lemma branch_at_extends e e' o : extends e e' -> o + 4 <= size e -> branch_at e' o = branch_at e o.
Proof.
  intros [ws H] Ho. unfold branch_at. destruct (_ && _) eqn:Hc; [|done]. zprops.
  rewrite H, lookup_app_l; [done|]. unfold size in Ho. revert Ho H0 H1; clear; intros. Z.to_euclidean_division_equations. lia.
Qed.

Lemma branch_at_new e w : branch_at (append [w] e) (size e) = ('(k, d) ← branch_form w; Some (k, size e + 4 * d)).
Proof.
  unfold branch_at. rewrite size_granule. pose proof (size_pos e). rewrite (proj2 (Z.leb_le _ _)) by done. cbn [andb Z.eqb].
  cbn [append set_buf buf_]. assert (Z.to_nat (size e / 4) = length (buf_ e)) as ->.
  { unfold size. rewrite Z.mul_comm, Z.div_mul by lia. lia. }
  by rewrite lookup_app_r, Nat.sub_diag by lia.
Qed.

(** *** Patches *)

Definition patched (o : Z) (f : Z -> Z) e : AArch64Emitter := set_buf (alter f (Z.to_nat (o / 4)) (buf_ e)) e.

Lemma size_patched o f e : size (patched o f e) = size e.
Proof. unfold size, patched. cbn. by rewrite length_alter. Qed.

Lemma branch_at_patched_ne o f e o' : 0 <= o -> o mod 4 = 0 -> o' <> o ->
  branch_at (patched o f e) o' = branch_at e o'.
Proof.
  intros Ho Hm Hne. unfold branch_at. destruct (_ && _) eqn:Hc; [|done]. zprops.
  cbn [patched set_buf buf_]. rewrite list_lookup_alter_ne; [done|].
  revert Ho Hm Hne H H0; clear; intros. Z.to_euclidean_division_equations. lia.
Qed.

Lemma branch_at_patched o f e : 
  branch_at (patched o f e) o =
    if (0 <=? o) && (o mod 4 =? 0) then
      w ← buf_ e !! Z.to_nat (o / 4); '(k, d) ← branch_form (f w); Some (k, o + 4 * d)
    else None.
Proof.
  unfold branch_at. destruct (_ && _); [|done]. cbn [patched set_buf buf_]. rewrite list_lookup_alter_eq.
  by destruct (buf_ e !! _).
Qed.

(** A patch function for branches of one kind. *)
Definition keeps_kind (k : PlaceholderKind) (f : Z -> Z) : Prop :=
  forall w d, branch_form w = Some (k, d) -> exists d', branch_form (f w) = Some (k, d').

Lemma keeps_cond rel : keeps_kind Conditional (cond_patched rel).
Proof. intros w d H. eexists. by eapply cond_patched_form. Qed.
Lemma keeps_uncond rel : keeps_kind Unconditional (uncond_patched rel).
Proof. intros w d H. eexists. by eapply uncond_patched_form. Qed.

Lemma branch_at_word e o k t : branch_at e o = Some (k, t) ->
  0 <= o /\ o mod 4 = 0 /\ exists w d, buf_ e !! Z.to_nat (o / 4) = Some w /\ branch_form w = Some (k, d) /\ t = o + 4 * d.
Proof.
  unfold branch_at. destruct (_ && _) eqn:Hc; [|done]. zprops.
  destruct (buf_ e !! _) as [w|]; [|done]. cbn. destruct (branch_form w) as [[k' d]|] eqn:Hf; [|done].
  cbn. intros [= -> <-]. eauto 10.
Qed.

Lemma patched_kind e o k t f : keeps_kind k f -> branch_at e o = Some (k, t) ->
  exists t', branch_at (patched o f e) o = Some (k, t').
Proof.
  intros Hf (Ho & Hm & w & d & Hw & Hk & _)%branch_at_word. rewrite branch_at_patched, Hw, Hm.
  rewrite (proj2 (Z.leb_le _ _)) by done. cbn. destruct (Hf w d Hk) as [d' ->]. cbn. eauto.
Qed.

(** ** The program logic *)

(** A place in what was appended since [e0]. *)
Definition good e0 e (p : place) : Prop :=
  size e0 <= p_off p /\ p_off p mod 4 = 0 /\ p_off p + p_len p <= size e /\
  match p_tag p with
  | TJump k => p_len p = 4 /\ exists t, branch_at e (p_off p) = Some (k, t)
  | TSlot => p_len p = 8 /\ branch_at e (p_off p) = None /\ branch_at e (p_off p + 4) = None
  | TAbort => False
  end.

Definition st e0 e (ps : list place) : Prop := extends e0 e /\ Forall (good e0 e) ps.

Definition wp e0 {A} (m : W A) (ps : list place) (Q : A -> list place -> Prop) : Prop :=
  forall e, st e0 e ps -> exists qs, st e0 (m e).2 qs /\ Q (m e).1 qs.

Lemma wp_ret e0 {A} (a : A) ps (Q : A -> list place -> Prop) : Q a ps -> wp e0 (wret a) ps Q.
Proof. intros HQ e Hs. by exists ps. Qed.

Lemma wp_bind e0 {A B} (m : W A) (k : A -> W B) ps (R : A -> list place -> Prop) (Q : B -> list place -> Prop) :
  wp e0 m ps R -> (forall a qs, R a qs -> wp e0 (k a) qs Q) -> wp e0 (wbind m k) ps Q.
Proof.
  intros Hm Hk e Hs. unfold wbind. destruct (Hm e Hs) as (qs & Hq & HR). destruct (m e) as [a e'].
  destruct (Hk a qs HR e' Hq) as (rs & Hr & HQ). eauto.
Qed.

Lemma wp_mono e0 {A} (m : W A) ps (Q R : A -> list place -> Prop) :
  wp e0 m ps Q -> (forall a qs, Q a qs -> R a qs) -> wp e0 m ps R.
Proof. intros Hm HQ e Hs. destruct (Hm e Hs) as (qs & Hq & H). eauto. Qed.

Lemma good_extends e0 e e' p : extends e e' -> good e0 e p -> good e0 e' p.
Proof.
  intros He (H1 & H2 & H3 & H4). pose proof (extends_size _ _ He). split_and!; [done|done|lia|].
  destruct (p_tag p); [|done|].
  - destruct H4 as (Hl & t & H4). split; [done|]. exists t. rewrite <- H4. apply (branch_at_extends e); [done|lia].
  - destruct H4 as (Hl & H4 & H5). split_and!; [done|..]; rewrite (branch_at_extends e); (done || lia).
Qed.

Lemma st_append e0 e ws ps : st e0 e ps -> st e0 (append ws e) ps.
Proof.
  intros [[ws0 He] Hp]. split.
  - exists (ws0 ++ ws). cbn. by rewrite He, <- app_assoc.
  - eapply list.Forall_impl; [exact Hp|]. intros p. apply good_extends. by exists ws.
Qed.

Lemma wp_emit e0 ws ps (Q : unit -> list place -> Prop) : Q tt ps -> wp e0 (emit ws) ps Q.
Proof. intros HQ e Hs. exists ps. split; [by apply st_append|done]. Qed.

Lemma wp_here e0 ps (Q : Z -> list place -> Prop) : (forall o, Q o ps) -> wp e0 here ps Q.
Proof. intros HQ e Hs. exists ps. split; [done|apply HQ]. Qed.

Lemma wp_get_vm_exit e0 ps (Q : Z -> list place -> Prop) : (forall o, Q o ps) -> wp e0 get_vm_exit ps Q.
Proof. intros HQ e Hs. exists ps. split; [done|apply HQ]. Qed.

Lemma wp_set_vm_exit e0 o ps (Q : unit -> list place -> Prop) : Q tt ps -> wp e0 (set_vm_exit o) ps Q.
Proof. intros HQ e Hs. by exists ps. Qed.
Lemma wp_set_entry_fast e0 o ps (Q : unit -> list place -> Prop) : Q tt ps -> wp e0 (set_entry_fast o) ps Q.
Proof. intros HQ e Hs. by exists ps. Qed.

Definition jump (k : PlaceholderKind) (o : Z) : place := mkplace (TJump k) o 4.

Lemma wp_branch e0 w k d ps (Q : Z -> list place -> Prop) :
  branch_form w = Some (k, d) -> (forall o, Q o (jump k o :: ps)) -> wp e0 (branch w) ps Q.
Proof.
  intros Hw HQ e Hs. exists (jump k (size e) :: ps). split; [|apply HQ].
  change (branch w e).2 with (append [w] e). 
  destruct (st_append e0 e [w] ps Hs) as [He Hp]. split; [done|]. constructor; [|done].
  destruct Hs as [Hs _]. pose proof (extends_size _ _ Hs). unfold good, jump. cbn [p_off p_len p_tag].
  split_and!; [done|apply size_granule|unfold size; cbn; rewrite length_app; cbn; lia|done|].
  rewrite branch_at_new, Hw. cbn. eauto.
Qed.

Lemma good_patched e0 e o k f p : keeps_kind k f -> good e0 e (jump k o) -> good e0 e p -> good e0 (patched o f e) p.
Proof.
  intros Hf (H1 & H2 & H3 & _ & t & Ht) (P1 & P2 & P3 & P4). unfold jump in *. cbn [p_off p_len p_tag] in *.
  split_and!; [done|done|by rewrite size_patched|]. pose proof (size_pos e0) as H0.
  destruct (p_tag p) as [k'| |]; [|done|].
  - destruct P4 as (Pl & t' & P4). split; [done|]. destruct (decide (p_off p = o)) as [E|Hne]; [rewrite E in *|].
    + rewrite Ht in P4. injection P4 as <- <-. by eapply patched_kind.
    + exists t'. rewrite <- P4. apply branch_at_patched_ne; [lia|done|done].
  - destruct P4 as (Pl & P4 & P5). split_and!; [done|..].
    + rewrite branch_at_patched_ne; [done|lia|done|]. intros E. by rewrite E, Ht in P4.
    + rewrite branch_at_patched_ne; [done|lia|done|]. intros E. by rewrite E, Ht in P5.
Qed.

Lemma extends_patched e0 e o f : extends e0 e -> size e0 <= o -> extends e0 (patched o f e).
Proof.
  intros [ws He] Ho. exists (alter f (Z.to_nat (o / 4) - length (buf_ e0))%nat ws). cbn.
  rewrite He. rewrite <- alter_app_r_alt; [done|]. unfold size in Ho. Z.to_euclidean_division_equations. lia.
Qed.

Lemma wp_patch e0 k o f ps (Q : unit -> list place -> Prop) :
  keeps_kind k f -> jump k o ∈ ps -> Q tt ps -> wp e0 (patch_word o f) ps Q.
Proof.
  intros Hf Hin HQ e [He Hp]. exists ps. split; [|done]. change (patch_word o f e).2 with (patched o f e).
  assert (good e0 e (jump k o)) as Hg by (rewrite list.Forall_forall in Hp; by apply Hp).
  split.
  - apply extends_patched; [done|apply Hg].
  - eapply list.Forall_impl; [exact Hp|]. intros p. by eapply good_patched.
Qed.

Lemma wp_patch_cond e0 o t ps (Q : unit -> list place -> Prop) :
  jump Conditional o ∈ ps -> Q tt ps -> wp e0 (patch_branch_cond o t) ps Q.
Proof. apply wp_patch, keeps_cond. Qed.
Lemma wp_patch_uncond e0 o t ps (Q : unit -> list place -> Prop) :
  jump Unconditional o ∈ ps -> Q tt ps -> wp e0 (patch_branch_uncond o t) ps Q.
Proof. apply wp_patch, keeps_uncond. Qed.


Lemma wp_seq e0 {A B} (m : W A) (k : A -> W B) ps (Q : B -> list place -> Prop) :
  wp e0 m ps (fun a qs => wp e0 (k a) qs Q) -> wp e0 (wbind m k) ps Q.
Proof. intros H. eapply wp_bind; [exact H|]. done. Qed.

Lemma wp_sub e0 {A} (m : W A) ps (Q : A -> list place -> Prop) :
  wp e0 m ps (fun a qs => exists rs, rs ⊆ qs /\ Q a rs) -> wp e0 m ps Q.
Proof.
  intros Hm e Hs. destruct (Hm e Hs) as (qs & [He Hq] & rs & Hrs & HQ). exists rs. split; [|done].
  split; [done|]. rewrite list.Forall_forall in Hq |- *. auto.
Qed.

Lemma wp_if e0 {A} (b : bool) (m n : W A) ps (Q : A -> list place -> Prop) :
  (b = true -> wp e0 m ps Q) -> (b = false -> wp e0 n ps Q) -> wp e0 (if b then m else n) ps Q.
Proof. destruct b; auto. Qed.

Lemma wp_patch_all_cond e0 os t ps (Q : unit -> list place -> Prop) :
  (forall o, o ∈ os -> jump Conditional o ∈ ps) -> Q tt ps -> wp e0 (patch_all_cond os t) ps Q.
Proof.
  intros Hin HQ. induction os as [|o os IH]; [by apply wp_ret|]. apply wp_seq, wp_patch_cond; [apply Hin; left|].
  apply IH. intros o' Ho'. apply Hin. by right.
Qed.
Lemma wp_patch_all_uncond e0 os t ps (Q : unit -> list place -> Prop) :
  (forall o, o ∈ os -> jump Unconditional o ∈ ps) -> Q tt ps -> wp e0 (patch_all_uncond os t) ps Q.
Proof.
  intros Hin HQ. induction os as [|o os IH]; [by apply wp_ret|]. apply wp_seq, wp_patch_uncond; [apply Hin; left|].
  apply IH. intros o' Ho'. apply Hin. by right.
Qed.

Lemma wp_loop_back e0 w d t ps (Q : unit -> list place -> Prop) :
  branch_form w = Some (Conditional, d) -> (forall o, Q tt (jump Conditional o :: ps)) -> wp e0 (loop_back w t) ps Q.
Proof.
  intros Hw HQ. apply wp_seq. eapply wp_branch; [exact Hw|]. intros o. apply wp_patch_cond; [left|apply HQ].
Qed.

Lemma wp_far_cond e0 c ps (Q : Z -> list place -> Prop) :
  (forall o, Q o (jump Unconditional o :: ps)) -> wp e0 (emit_far_cond c) ps Q.
Proof. intros HQ. apply wp_seq, wp_emit. eapply wp_branch; [by vm_compute|done]. Qed.

Lemma wp_far_czero e0 r (b z : bool) d ps (Q : Z -> list place -> Prop) :
  branch_form (if z then cbnz r b else cbz r b) = Some (Conditional, d) ->
  (forall o o', Q o (jump Unconditional o :: jump Conditional o' :: ps)) -> wp e0 (emit_far_czero r b z) ps Q.
Proof.
  intros Hw HQ. apply wp_seq. eapply wp_branch; [exact Hw|]. intros o.
  apply wp_seq. eapply wp_branch; [by vm_compute|]. intros o'.
  apply wp_seq, wp_patch_cond; [right; left|]. apply wp_ret, HQ.
Qed.

Lemma wp_b_vm_exit e0 o ps (Q : unit -> list place -> Prop) :
  jump Unconditional o ∈ ps -> Q tt ps -> wp e0 (b_vm_exit o) ps Q.
Proof. intros Hin HQ. apply wp_seq, wp_get_vm_exit. intros x. by apply wp_patch_uncond. Qed.

Lemma wp_ldr_literal e0 d o ps (Q : unit -> list place -> Prop) : Q tt ps -> wp e0 (ldr_literal_at d o) ps Q.
Proof. intros HQ. apply wp_seq, wp_here. intros n. by apply wp_emit. Qed.

(** A slot: two words that are no branches. *)
Lemma wp_slot e0 w ps (Q : Z -> list place -> Prop) :
  (forall o, Q o (mkplace TSlot o 8 :: ps)) -> wp e0 (slot_literal w) ps Q.
Proof.
  intros HQ. apply wp_seq, wp_emit. intros e Hs.
  unfold wbind, here, emit, wret. cbn [fst snd]. exists (mkplace TSlot (size e) 8 :: ps). split; [|apply HQ].
  change (set_buf (buf_ e ++ [0; 0]) e) with (append [0; 0] e).
  destruct (st_append e0 e [0; 0] ps Hs) as [He Hp]. split; [done|]. constructor; [|done].
  destruct Hs as [Hs _]. pose proof (extends_size _ _ Hs). pose proof (size_pos e) as Hsz.
  assert (size (append [0] e) = size e + 4) as Hs1 by (unfold size; cbn; rewrite length_app; cbn; lia).
  assert (append [0; 0] e = append [0] (append [0] e)) as Ha.
  { unfold append, set_buf. cbn. by rewrite <- app_assoc. }
  unfold good. cbn [p_off p_len p_tag]. split_and!; [done|apply size_granule| |done|..].
  - unfold size. cbn. rewrite length_app. cbn. lia.
  - rewrite Ha, (branch_at_extends (append [0] e)), branch_at_new by (lia || by exists [0]). done.
  - by rewrite Ha, <- Hs1, branch_at_new.
Qed.

End Logic.

(** [inn] finds a place in the list of known places; [wstep] runs one operation. *)
Ltac inn := solve [repeat first [apply list_elem_of_here | apply list_elem_of_further]].
Ltac wstep :=
  cbn beta;
  lazymatch goal with
  | |- wp _ (wbind _ _) _ _ => apply wp_seq
  | |- wp _ (wret _) _ _ => apply wp_ret
  | |- wp _ (emit _) _ _ => apply wp_emit
  | |- wp _ here _ _ => apply wp_here; intros ?
  | |- wp _ get_vm_exit _ _ => apply wp_get_vm_exit; intros ?
  | |- wp _ (set_vm_exit _) _ _ => apply wp_set_vm_exit
  | |- wp _ (set_entry_fast _) _ _ => apply wp_set_entry_fast
  | |- wp _ (branch _) _ _ => eapply wp_branch; [vm_compute; reflexivity|intros ?]
  | |- wp _ (loop_back _ _) _ _ => eapply wp_loop_back; [vm_compute; reflexivity|intros ?]
  | |- wp _ (emit_far_cond _) _ _ => apply wp_far_cond; intros ?
  | |- wp _ (emit_far_czero _ _ _) _ _ => eapply wp_far_czero; [vm_compute; reflexivity|intros ? ?]
  | |- wp _ (b_vm_exit _) _ _ => apply wp_b_vm_exit; [inn|]
  | |- wp _ (patch_branch_cond _ _) _ _ => apply wp_patch_cond; [inn|]
  | |- wp _ (patch_branch_uncond _ _) _ _ => apply wp_patch_uncond; [inn|]
  | |- wp _ (ldr_literal_at _ _) _ _ => apply wp_ldr_literal
  | |- wp _ (slot_literal _) _ _ => apply wp_slot; intros ?
  end.
Ltac wsteps := repeat wstep.

Section Laws.
Context {lay : A64Layout}.
Implicit Types e : AArch64Emitter.

Lemma wp_or_flags e0 fl ps (Q : unit -> list place -> Prop) :
  (forall o, Q tt (jump Conditional o :: ps)) -> wp e0 (or_flags fl) ps Q.
Proof. intros HQ. unfold or_flags. wsteps. apply HQ. Qed.

(** The branches a memory access leaves. *)
Definition ctx_places (ctx : MemAccessContext) : list place :=
  (jump Conditional <$> miss_jumps ctx) ++ [jump Unconditional (done_jmp ctx)] ++ (jump Unconditional <$> abort_jumps ctx).

Lemma wp_begin e0 r o n b ps (Q : MemAccessContext -> list place -> Prop) :
  (forall ctx, Q ctx (ctx_places ctx ++ ps)) -> wp e0 (begin_mem_access r o n b) ps Q.
Proof.
  intros HQ. apply wp_sub. unfold begin_mem_access. wsteps.
  apply wp_if; intros _; wsteps; (eexists; split; [|apply HQ]); cbn; set_solver.
Qed.

Lemma wp_finish e0 ctx bi ps (Q : list AbortPatchInfo -> list place -> Prop) :
  (forall p, p ∈ ctx_places ctx -> p ∈ ps) -> Q ((fun o => mkabort o bi) <$> abort_jumps ctx) ps ->
  wp e0 (finish_mem_access ctx bi) ps Q.
Proof.
  intros Hin HQ. unfold finish_mem_access. apply wp_seq, wp_patch_all_cond.
  { intros o Ho. apply Hin. unfold ctx_places. apply elem_of_app. left. by apply list_elem_of_fmap_2. }
  apply wp_seq, wp_patch_uncond.
  { apply Hin. unfold ctx_places. apply elem_of_app. right. left. }
  by apply wp_ret.
Qed.

(** ** From the logic to the laws *)

Abbreviation appended := (Link.appended (fun _ : AArch64Emitter => True) 4 Unconditional).

Definition untag (p : place) : place :=
  match p_tag p with TAbort => mkplace (TJump Unconditional) (p_off p) (p_len p) | _ => p end.

(** The places handed out are among the known ones. *)
Definition covers (qs ps : list place) : Prop :=
  (forall q, q ∈ qs -> untag q ∈ ps) /\
  (forall p q, p ∈ qs -> q ∈ qs -> untag p = untag q \/ (p_tag p = TSlot /\ p_tag q = TSlot) -> p = q).

Lemma st_appended e0 e ps qs : st e0 e ps -> covers qs ps -> appended e0 e qs.
Proof.
  intros [He Hp] [Hc Hu]. rewrite list.Forall_forall in Hp. pose proof (size_pos e0). pose proof (extends_size _ _ He).
  assert (forall q, q ∈ qs -> good e0 e (untag q)) as Hg by auto.
  split; [done|cbn; lia|apply size_granule| | |].
  - intros o Ho. by apply branch_at_extends.
  - intros p Hq. specialize (Hg p Hq). destruct Hg as (H1 & H2 & H3 & H4). unfold untag, place_branch in *.
    destruct (p_tag p) as [k| |] eqn:Ep; rewrite ?Ep in *; cbn [p_tag p_off p_len] in *.
    + destruct H4 as (Hl & H4). rewrite Hl in *. split_and!; [done|done|lia|done|exact H4].
    + destruct H4 as (Hl & H4). rewrite Hl in *. split_and!; [done|done|lia|done|exact H4].
    + destruct H4 as (Hl & H4). rewrite Hl in *. split_and!; [done|done|lia|done|done].
  - intros p q Ip Iq. pose proof (Hg p Ip) as Gp. pose proof (Hg q Iq) as Gq. specialize (Hu p q Ip Iq).
    unfold untag in *.
    assert (forall x y, good e0 e x -> good e0 e y -> x = y \/ places_apart x y \/ (p_tag x = TSlot /\ p_tag y = TSlot)) as Hxy.
    { clear. intros x y (X1 & X2 & X3 & X4) (Y1 & Y2 & Y3 & Y4). unfold places_apart.
      assert (forall a b : Z, a mod 4 = 0 -> b mod 4 = 0 -> a <> b -> a + 4 <= b \/ b + 4 <= a) as Hap
        by (clear; intros; Z.to_euclidean_division_equations; lia).
      destruct x as [tx ox lx], y as [ty oy ly]. cbn [p_tag p_off p_len] in *.
      destruct tx as [k| |], ty as [k'| |]; try done; try tauto.
      - destruct X4 as (-> & t & X4), Y4 as (-> & t' & Y4). destruct (decide (ox = oy)) as [->|Hne].
        + left. rewrite X4 in Y4. by injection Y4 as <- <-.
        + right. left. by apply Hap.
      - destruct X4 as (-> & t & X4), Y4 as (-> & Y4 & Y5). right. left.
        destruct (decide (ox = oy)) as [->|Hne]; [congruence|]. destruct (decide (ox = oy + 4)) as [->|Hne']; [congruence|].
        destruct (Hap ox oy); [done..|tauto|]. destruct (Hap ox (oy + 4)); [done| |done|lia..].
        rewrite Z.add_mod, Y2 by lia. done.
      - destruct X4 as (-> & X4 & X5), Y4 as (-> & t & Y4). right. left.
        destruct (decide (ox = oy)) as [->|Hne]; [congruence|]. destruct (decide (oy = ox + 4)) as [->|Hne']; [congruence|].
        destruct (Hap ox oy); [done..| |tauto]. destruct (Hap oy (ox + 4)); [done| |done|lia..].
        rewrite Z.add_mod, X2 by lia. done. }
    destruct (Hxy _ _ Gp Gq) as [E|[E|E]].
    + left. apply Hu. by left.
    + right. unfold places_apart in *. by destruct (p_tag p), (p_tag q).
    + left. apply Hu. right. by destruct (p_tag p) eqn:Ep, (p_tag q) eqn:Eq; rewrite ?Ep, ?Eq in E; destruct E.
Qed.

Lemma st_refl e : st e e [].
Proof. split; [apply extends_refl|by constructor]. Qed.

Lemma wp_appended {A} e (m : W A) (qs : A -> list place) :
  wp e m [] (fun a ps => covers (qs a) ps) -> appended e (m e).2 (qs (m e).1).
Proof. intros Hm. destruct (Hm e (st_refl e)) as (ps & Hs & Hc). by eapply st_appended. Qed.

Lemma covers_nil ps : covers [] ps.
Proof. split; [intros q H|intros p q H]; by apply not_elem_of_nil in H. Qed.

Lemma covers_jump k o ps : jump k o ∈ ps -> covers [mkplace (TJump k) o 4] ps.
Proof.
  intros Hin. split.
  - intros q ->%list_elem_of_singleton. exact Hin.
  - by intros p q ->%list_elem_of_singleton ->%list_elem_of_singleton.
Qed.

(** Aborts, and at most one slot. *)
Lemma covers_aborts ab cs ps :
  (forall a, a ∈ ab -> jump Unconditional (jump_offset a) ∈ ps) ->
  (forall o, o ∈ cs -> mkplace TSlot o 8 ∈ ps) -> (forall o o', o ∈ cs -> o' ∈ cs -> o = o') ->
  covers ((abort_place <$> ab) ++ (slot_place <$> cs)) ps.
Proof.
  intros Hab Hcs Hu. split.
  - intros q [Hq|Hq]%elem_of_app; apply list_elem_of_fmap in Hq as (x & -> & Hx); [by apply Hab|by apply Hcs].
  - intros p q [Hp|Hp]%elem_of_app [Hq|Hq]%elem_of_app; apply list_elem_of_fmap in Hp as (x & -> & Hx);
      apply list_elem_of_fmap in Hq as (y & -> & Hy); unfold abort_place, slot_place, untag; cbn [p_tag p_off p_len];
      intros [E|E]; try (by destruct E); try congruence; by rewrite (Hu x y).
Qed.

Lemma covers_aborts_only ab ps :
  (forall a, a ∈ ab -> jump Unconditional (jump_offset a) ∈ ps) -> covers (abort_place <$> ab) ps.
Proof.
  intros Hab. pose proof (covers_aborts ab [] ps Hab) as H. cbn in H. rewrite app_nil_r in H. apply H.
  - intros o Ho. by apply not_elem_of_nil in Ho.
  - intros o o' Ho. by apply not_elem_of_nil in Ho.
Qed.

(** The aborts of an access. *)
Lemma aborts_of ctx bi (ps : list place) a :
  a ∈ (fun o => mkabort o bi) <$> abort_jumps ctx -> (forall p, p ∈ ctx_places ctx -> p ∈ ps) ->
  jump Unconditional (jump_offset a) ∈ ps.
Proof.
  intros Ha Hin. apply Hin. unfold ctx_places. apply list_elem_of_fmap in Ha as (o & -> & Ho). cbn.
  apply elem_of_app. right. right. by apply list_elem_of_fmap_2.
Qed.

Lemma in_app_l {A} (x : A) l k : x ∈ l -> x ∈ l ++ k.
Proof. intros. apply elem_of_app. by left. Qed.

(** ** The laws *)

#[local] Strategy 100 [run_w wbind wret emit branch begin_mem_access finish_mem_access].

Lemma appended_words e ws : appended e (append ws e) [].
Proof. apply (wp_appended e (emit ws) (fun _ => [])). wsteps. apply covers_nil. Qed.

(** An access: the lookup, something that uses the address, and the patches. *)
Lemma law_access e r o n b bi (rest : MemAccessContext -> W (list AbortPatchInfo)) x :
  (forall ctx ps (Q : list AbortPatchInfo -> list place -> Prop),
     (forall qs, ps ⊆ qs -> wp e (finish_mem_access ctx bi) qs Q) -> wp e (rest ctx) ps Q) ->
  run_w (ctx <- begin_mem_access r o n b ;; rest ctx) e = x -> appended e x.1 (abort_place <$> x.2).
Proof.
  intros Hr <-. unfold run_w. set (m := wbind _ _). pose proof (wp_appended e m (fun ab => abort_place <$> ab)) as H.
  destruct (m e) as [ab e']. apply H. unfold m. apply wp_seq, wp_begin. intros ctx. apply Hr. intros qs Hqs.
  assert (forall p, p ∈ ctx_places ctx -> p ∈ qs) as Hin by (intros p Hp; apply Hqs, in_app_l, Hp).
  apply wp_finish; [done|]. apply covers_aborts_only. intros a Ha. by eapply aborts_of.
Qed.

Lemma law_ldx e insn i e' ab : emit_ldx insn i e = Some (e', ab) -> appended e e' (abort_place <$> ab).
Proof.
  unfold emit_ldx. cbn zeta. destruct (_ || _); [done|]. intros H%(inj Some).
  refine (law_access _ _ _ _ _ i _ _ _ H). intros ctx ps Q HQ. apply wp_seq, wp_emit. by apply HQ.
Qed.

Lemma law_st_body e insn ops i e' ab : run_w (st_body insn ops i) e = (e', ab) -> appended e e' (abort_place <$> ab).
Proof.
  intros H. refine (law_access _ _ _ _ _ i _ _ _ H). intros ctx ps Q HQ. apply wp_seq, wp_emit. by apply HQ.
Qed.

Lemma sub_cons {A} (x : A) l k : l ⊆ k -> l ⊆ x :: k.
Proof. intros H y Hy. right. by apply H. Qed.

Lemma wp_atom_loop e0 dw l c s ps (Q : unit -> list place -> Prop) :
  (forall o, Q tt (jump Conditional o :: ps)) -> wp e0 (atom_loop dw l c s) ps Q.
Proof. intros HQ. unfold atom_loop. wsteps. apply HQ. Qed.

Lemma wp_atom_body e0 insn dw body ps (Q : unit -> list place -> Prop) :
  atom_body insn dw = Some body -> (forall qs, ps ⊆ qs -> Q tt qs) -> wp e0 body ps Q.
Proof.
  intros Hb HQ. unfold atom_body in Hb. cbn zeta in Hb.
  repeat (match goal with H : (if ?b then _ else _) = Some _ |- _ => destruct b end); try done;
    injection Hb as <-.
  1,3: wstep; apply wp_atom_loop; intros o; wsteps; apply HQ; repeat apply sub_cons; done.
  - apply wp_atom_loop. intros o. apply HQ. by repeat apply sub_cons.
  - unfold atom_cmpxchg. wsteps. apply HQ. by repeat apply sub_cons.
Qed.

Lemma law_stx e insn i e' ab : emit_stx insn i e = Some (e', ab) -> appended e e' (abort_place <$> ab).
Proof.
  unfold emit_stx. destruct (insn_mode insn =? BPF_ATOMIC).
  - unfold emit_stx_atomic. cbn zeta. destruct (_ && _); [done|]. destruct (atom_body _ _) as [body|] eqn:Hb; [|done].
    cbn [mbind option_bind]. intros H%(inj Some).
    refine (law_access _ _ _ _ _ i _ _ _ H). intros ctx ps Q HQ. apply wp_seq, wp_emit, wp_seq.
    by apply (wp_atom_body _ _ _ _ _ _ Hb).
  - destruct (negb _); [done|]. intros H%(inj Some). by eapply law_st_body.
Qed.

(** *** Jumps *)

Lemma one_jump_of {e} (m : W (list JumpPlaceholder)) t dp b x :
  wp e m [] (fun js ps => exists o, js = [mkph o t Unconditional dp] /\ jump Unconditional o ∈ ps) ->
  run_w m e = x -> one_jump (fun _ => True) 4 Unconditional e x t dp b.
Proof.
  intros Hm <-. destruct (Hm e (st_refl e)) as (ps & Hs & o & Hj & Hin). unfold run_w.
  destruct (m e) as [js e']. cbn [fst snd] in *. exists o, Unconditional. split_and!; [done|by left|done|].
  eapply st_appended; [exact Hs|]. by apply covers_jump.
Qed.

Lemma law_jmp e insn i b x : emit_jmp insn i b e = Some x ->
  one_jump (fun _ => True) 4 Unconditional e x (s32 (i + 1 + off insn)) false false.
Proof.
  unfold emit_jmp. destruct (jmp_load_operands insn b) as [[cc ws]|]; [|done]. cbn [mbind option_bind].
  intros H%(inj Some). refine (one_jump_of _ _ _ _ _ _ H). wsteps. eexists. split; [done|left].
Qed.

Lemma b_cond_form op cc t : jmp_cc op = Some (cc, t) ->
  exists d, branch_form (b_cond (Z.lxor cc 1)) = Some (Conditional, d).
Proof.
  unfold jmp_cc. repeat (match goal with |- (if ?b then _ else _) = Some _ -> _ => destruct b end); try done;
    intros [= <- <-]; by eexists.
Qed.

Lemma jmp_operands_cc insn b cc ws : jmp_load_operands insn b = Some (cc, ws) -> exists t, jmp_cc (insn_op insn) = Some (cc, t).
Proof.
  unfold jmp_load_operands. cbn zeta. destruct (_ && _); [done|]. destruct (_ && _); [done|].
  destruct (jmp_cc _) as [[c t]|]; [|done]. cbn. intros [= -> _]. by exists t.
Qed.

Lemma law_jmp_deopt e insn b g x : emit_jmp_deopt insn b g e = Some x ->
  one_jump (fun _ => True) 4 Unconditional e x (-1) true true.
Proof.
  unfold emit_jmp_deopt. destruct (jmp_load_operands insn b) as [[cc ws]|] eqn:Hc; [|done]. cbn [mbind option_bind].
  intros H%(inj Some). refine (one_jump_of _ _ _ _ _ _ H).
  destruct (jmp_operands_cc _ _ _ _ Hc) as [t Ht]. destruct (b_cond_form _ _ _ Ht) as [d Hd].
  wstep. wstep. wstep. eapply wp_branch; [exact Hd|]. intros skip. wsteps. eexists. split; [done|left].
Qed.

Lemma law_ja e t b : one_jump (fun _ => True) 4 Unconditional e (ja_to t e) t false b.
Proof. refine (one_jump_of _ _ _ _ _ _ eq_refl). wsteps. eexists. split; [done|left]. Qed.

(** *** Calls *)

Lemma law_unit e (m : W unit) : wp e m [] (fun _ _ => True) -> appended e (m e).2 [].
Proof.
  intros Hm. apply (wp_appended e m (fun _ => [])). eapply wp_mono; [exact Hm|]. intros. apply covers_nil.
Qed.

Lemma law_unit_fst e (m : W unit) : wp e m [] (fun _ _ => True) -> appended e (run_w m e).1 [].
Proof. intros Hm. pose proof (law_unit e m Hm) as H. unfold run_w. by destruct (m e). Qed.

Lemma law_syscall e insn i g : appended e (emit_call_syscall insn i g e) [].
Proof. apply law_unit_fst. wsteps. done. Qed.

Lemma wp_flags_check e0 ps (Q : Z -> list place -> Prop) :
  (forall o, Q o (jump Conditional o :: ps)) -> wp e0 emit_call_flags_check ps Q.
Proof. intros HQ. unfold emit_call_flags_check. wsteps. apply HQ. Qed.

Lemma wp_overflow e0 o ps (Q : unit -> list place -> Prop) :
  jump Conditional o ∈ ps -> (forall qs, ps ⊆ qs -> Q tt qs) -> wp e0 (emit_call_overflow_stub o) ps Q.
Proof.
  intros Hin HQ. unfold emit_call_overflow_stub. wstep. wstep. wstep. apply wp_patch_cond; [done|].
  wstep. apply wp_or_flags. intros o'. wsteps. apply HQ. by repeat apply sub_cons.
Qed.

Lemma wp_cont e0 g os ps (Q : unit -> list place -> Prop) :
  (forall o, o ∈ os -> jump Unconditional o ∈ ps) -> (forall qs, ps ⊆ qs -> Q tt qs) ->
  wp e0 (emit_call_cont_tail g os) ps Q.
Proof.
  intros Hin HQ. unfold emit_call_cont_tail. wstep. wstep. wstep. apply wp_patch_all_uncond; [done|].
  wsteps. apply HQ. by repeat apply sub_cons.
Qed.

Lemma sub_app {A} (l k1 k2 : list A) : l ⊆ k2 -> l ⊆ k1 ++ k2.
Proof. intros H y Hy. apply elem_of_app. right. by apply H. Qed.

Definition aborts_in (ab : list AbortPatchInfo) (ps : list place) : Prop :=
  forall a, a ∈ ab -> jump Unconditional (jump_offset a) ∈ ps.

Lemma aborts_in_sub ab ps qs : aborts_in ab ps -> ps ⊆ qs -> aborts_in ab qs.
Proof. intros H Hs a Ha. by apply Hs, H. Qed.

Lemma wp_push_frame e0 src g bi ps (Q : Z * list AbortPatchInfo -> list place -> Prop) :
  (forall o ab qs, ps ⊆ qs -> jump Conditional o ∈ qs -> aborts_in ab qs -> Q (o, ab) qs) ->
  wp e0 (emit_push_frame_inline src g bi) ps Q.
Proof.
  intros HQ. unfold emit_push_frame_inline. wstep. apply wp_begin. intros c1. wsteps.
  apply wp_finish. { intros p Hp. right. by apply in_app_l. }
  wsteps. apply wp_begin. intros c2. wstep. apply wp_if; intros _; wsteps;
    (apply wp_finish; [intros p Hp; by apply in_app_l|]); wsteps; apply HQ.
  1,4: by apply sub_app, sub_cons, sub_app.
  1,3: apply elem_of_app; right; left.
  all: intros a [Ha|Ha]%elem_of_app; eapply aborts_of; try exact Ha; intros p Hp; apply elem_of_app;
    [right; right; by apply elem_of_app; left|by left].
Qed.

Lemma law_slots e (m : W (list AbortPatchInfo * list Z)) :
  wp e m [] (fun x ps => aborts_in x.1 ps /\ exists o, x.2 = [o] /\ mkplace TSlot o 8 ∈ ps) ->
  let '(e', ab, cs) := with_slots m e in appended e e' ((abort_place <$> ab) ++ (slot_place <$> cs)).
Proof.
  intros Hm. destruct (Hm e (st_refl e)) as (ps & Hs & Ha & o & Ho & Hin). unfold with_slots.
  destruct (m e) as [[ab cs] e']. cbn [fst snd] in *. subst cs. eapply st_appended; [exact Hs|].
  apply covers_aborts; [done| |].
  - by intros o' ->%list_elem_of_singleton.
  - by intros o1 o2 ->%list_elem_of_singleton ->%list_elem_of_singleton.
Qed.

#[local] Strategy 100 [emit_push_frame_inline emit_call_overflow_stub emit_call_cont_tail].

(** Membership through the places added since. *)
Ltac inn_sub :=
  repeat first
    [ assumption
    | apply list_elem_of_here
    | match goal with H : ?ps ⊆ ?qs |- _ ∈ ?qs => apply H end
    | apply list_elem_of_further ].

Lemma law_call_bpf e r c f i :
  let '(e', ab, cs) := emit_call_bpf r c f i e in appended e e' ((abort_place <$> ab) ++ (slot_place <$> cs)).
Proof.
  unfold emit_call_bpf. apply law_slots. unfold call_bpf_body, enter_callee.
  wstep. apply wp_flags_check. intros fl. wstep. apply wp_push_frame. intros ov ab qs Hqs Hov Hab.
  repeat first [wstep | apply wp_patch_cond; [solve [inn_sub]|]].
  cbn [fst snd]. apply wp_overflow; [solve [inn_sub]|]. intros qs1 Hqs1.
  wsteps. apply wp_cont.
  { intros z [-> | ->%list_elem_of_singleton]%elem_of_cons; solve [inn_sub]. }
  intros qs2 Hqs2. wsteps. cbn [fst snd]. split.
  - intros a Ha. apply Hqs2, Hqs1. repeat apply list_elem_of_further. by apply Hab.
  - eexists. split; [done|]. solve [inn_sub].
Qed.

Lemma law_call_indirect e insn r i :
  let '(e', ab, cs) := emit_call_indirect insn r i e in appended e e' ((abort_place <$> ab) ++ (slot_place <$> cs)).
Proof.
  unfold emit_call_indirect. apply law_slots. unfold call_indirect_body, enter_callee.
  wstep. apply wp_flags_check. intros fl. wsteps. apply wp_push_frame. intros ov ab qs Hqs Hov Hab.
  repeat first [wstep | apply wp_patch_cond; [solve [inn_sub]|]].
  cbn [fst snd]. apply wp_overflow; [solve [inn_sub]|]. intros qs1 Hqs1.
  wsteps. apply wp_cont.
  { intros z ->%list_elem_of_singleton; solve [inn_sub]. }
  intros qs2 Hqs2. wsteps. cbn [fst snd]. split.
  - intros a Ha. apply Hqs2, Hqs1. repeat apply list_elem_of_further. by apply Hab.
  - eexists. split; [done|]. solve [inn_sub].
Qed.

Lemma law_exit e i : let '(e', ab) := emit_exit i e in appended e e' (abort_place <$> ab).
Proof.
  pose proof (wp_appended e (exit_body i) (fun ab => abort_place <$> ab)) as H. unfold emit_exit, run_w.
  destruct (exit_body i e) as [ab e'] eqn:He. cbn [fst snd] in H. apply H. clear H He ab e'. unfold exit_body.
  wstep. apply wp_begin. intros ctx. wsteps. apply wp_finish. { intros p Hp. by apply in_app_l. }
  repeat first [wstep | apply wp_or_flags; intros ?].
  apply covers_aborts_only. intros a Ha. repeat apply list_elem_of_further.
  eapply aborts_of; [exact Ha|]. intros p Hp. by apply in_app_l.
Qed.

(** *** Safepoints and the prologue *)

Lemma wp_budget e0 ps (Q : unit -> list place -> Prop) : (forall qs, ps ⊆ qs -> Q tt qs) -> wp e0 budget_check ps Q.
Proof. intros HQ. unfold budget_check. wsteps. apply HQ. by repeat apply sub_cons. Qed.

Lemma law_safepoint e n g : appended e (emit_safepoint n g e) [].
Proof.
  unfold emit_safepoint. apply law_unit. unfold safepoint_body.
  apply wp_seq, wp_if; intros _; [apply wp_seq, wp_emit, wp_if; intros _|]; [apply wp_budget; intros qs _|apply wp_ret..];
    wsteps; done.
Qed.

Lemma size_emit ws e : size e <= size (emit ws e).2.
Proof. unfold emit, size. cbn. rewrite length_app. lia. Qed.

(** Sizes only grow. *)
Definition grows {A} (m : W A) : Prop := forall e, size e <= size (m e).2.
Lemma grows_bind {A B} (m : W A) (k : A -> W B) : grows m -> (forall a, grows (k a)) -> grows (wbind m k).
Proof. intros Hm Hk e. unfold wbind. specialize (Hm e). destruct (m e) as [a e']. specialize (Hk a e'). cbn in *. lia. Qed.
Lemma grows_same {A} (m : W A) : (forall e, buf_ (m e).2 = buf_ e) -> grows m.
Proof. intros H e. unfold size. rewrite H. lia. Qed.
Lemma grows_emit ws : grows (emit ws).
Proof. intros e. apply size_emit. Qed.
Lemma grows_patch o f : grows (patch_word o f).
Proof. intros e. unfold patch_word, size. cbn. rewrite length_alter. lia. Qed.

Lemma grows_prologue_rest o : grows (prologue_rest o).
Proof.
  unfold prologue_rest, b_vm_exit, loop_back, branch, patch_branch_cond, patch_branch_uncond.
  repeat lazymatch goal with
  | |- grows (wbind _ _) => apply grows_bind; [|intros ?]
  | |- grows (emit _) => apply grows_emit
  | |- grows (patch_word _ _) => apply grows_patch
  | |- grows _ => apply grows_same; intros ?; reflexivity
  end.
Qed.

(** A result that is a place of the code. *)
Definition label (m : W Z) : Prop := forall e, 0 <= (m e).1 <= size (m e).2 /\ (m e).1 mod 4 = 0.
Lemma label_bind {A} (m : W A) (k : A -> W Z) : (forall a, label (k a)) -> label (wbind m k).
Proof. intros Hk e. unfold wbind. destruct (m e) as [a e']. apply Hk. Qed.
Lemma label_here {A} (m : W A) : grows m -> label (o <- here ;; m ;; wret o).
Proof.
  intros Hg e. pose proof (Hg e) as H. unfold wbind, here. destruct (m e) as [a e']. cbn in *.
  pose proof (size_pos e). split; [lia|apply size_granule].
Qed.

Lemma label_prologue : label emit_prologue.
Proof. unfold emit_prologue. do 5 (apply label_bind; intros ?). apply label_here, grows_prologue_rest. Qed.

Lemma law_prologue e : size e = 0 ->
  appended e (emit_prologue e).2 [] /\
  0 <= (emit_prologue e).1 <= size (emit_prologue e).2 /\ (emit_prologue e).1 mod 4 = 0.
Proof.
  intros _. split.
  - apply (wp_appended e emit_prologue (fun _ => [])). unfold emit_prologue, prologue_rest. wsteps. apply covers_nil.
  - apply label_prologue.
Qed.

(** *** Patches *)

Lemma patched_target n k o t e t0 (f : Z -> Z -> Z) :
  0 < n <= 26 ->
  (forall rel w d, branch_form w = Some (k, d) -> branch_form (f rel w) = Some (k, sval n (rel mod 2 ^ n))) ->
  0 <= o -> o + 4 <= size e -> o mod 4 = 0 -> 0 <= t <= size e -> t mod 4 = 0 -> size e <= 2 ^ (n + 1) - 4 ->
  branch_at e o = Some (k, t0) ->
  let e' := patched o (f (rel_words o t)) e in
  size e' = size e /\ branch_at e' o = Some (k, t) /\
  forall o', o' + 4 <= o \/ o + 4 <= o' -> branch_at e' o' = branch_at e o'.
Proof.
  intros Hn Hf Ho1 Ho2 Hom Ht Htm Hs (H0 & H1 & w & d & Hw & Hk & _)%branch_at_word. cbn zeta. split_and!.
  - apply size_patched.
  - rewrite branch_at_patched, Hw, H1. rewrite (proj2 (Z.leb_le _ _)) by done. cbn [andb Z.eqb mbind option_bind].
    rewrite (Hf _ _ _ Hk). cbn. do 2 f_equal. apply rel_exact; [done..|]. lia.
  - intros o' Ho'. apply branch_at_patched_ne; [done|done|lia].
Qed.

Definition a64_reach (k : PlaceholderKind) : Z :=
  match k with Conditional => 2 ^ 20 - 4 | Unconditional => 2 ^ 27 - 4 end.

Lemma law_cond : patches (fun _ => True) 4 a64_reach Jit.patch_branch_cond Conditional.
Proof.
  intros o t e t0 _ H1 H2 H3 H4 H5 H6 H7. cbn zeta. split; [done|].
  apply (patched_target 19 Conditional o t e t0 cond_patched ltac:(lia)); try done. intros. by eapply cond_patched_form.
Qed.
Lemma law_uncond : patches (fun _ => True) 4 a64_reach Jit.patch_branch_uncond Unconditional.
Proof.
  intros o t e t0 _ H1 H2 H3 H4 H5 H6 H7. cbn zeta. split; [done|].
  apply (patched_target 26 Unconditional o t e t0 uncond_patched ltac:(lia)); try done. intros. by eapply uncond_patched_form.
Qed.

Lemma law_write e o x : 0 <= o -> o + 8 <= size e -> o mod 4 = 0 ->
  size (write64 o x e) = size e /\
  forall o', o' + 4 <= o \/ o + 8 <= o' -> branch_at (write64 o x e) o' = branch_at e o'.
Proof.
  intros H1 H2 H3. split; [unfold size; cbn; by rewrite !length_insert|].
  intros o' Ho'. unfold branch_at. destruct (_ && _) eqn:Hc; [|done]. zprops. cbn [write64 set_buf buf_].
  rewrite !list_lookup_insert_ne; [done|..]; revert H1 H3 Ho' H H0; clear; intros; Z.to_euclidean_division_equations; lia.
Qed.

(** The AArch64 backend keeps the contract the compiler relies on. *)
#[export] Instance aarch64_emitter_laws :
  EmitterLaws AArch64Emitter (fun _ => True) 4 a64_reach Unconditional.
Proof.
  split.
  - by intros a b.
  - intros e _ H. by apply law_prologue.
  - intros e n g _. apply law_safepoint.
  - intros e insn b e' _. unfold Jit.emit_alu, aarch64_emitter, emit_alu. destruct (alu_words insn b) as [ws|]; [|done].
    intros [= <-]. apply appended_words.
  - intros e i1 i2 e' _. unfold Jit.emit_ld, aarch64_emitter, emit_ld. destruct (_ || _); [done|].
    intros [= <-]. apply appended_words.
  - intros e insn i e' ab _. apply law_ldx.
  - intros e insn i e' ab _. unfold Jit.emit_st, aarch64_emitter, emit_st. destruct (negb _); [done|].
    intros H%(inj Some). by eapply law_st_body.
  - intros e insn i e' ab _. apply law_stx.
  - intros e insn i b x _. apply law_jmp.
  - intros e insn b g x _. apply law_jmp_deopt.
  - intros e g _. apply appended_words.
  - intros e insn i _. apply law_ja.
  - intros e insn i _. apply law_ja.
  - intros e insn i g _. apply law_syscall.
  - intros e insn e' _. unfold Jit.emit_call_softfp, aarch64_emitter, emit_call_softfp.
    destruct (emit_call_softfp_words _) as [ws|]; [|done]. intros [= <-]. apply appended_words.
  - intros e insn i g _. apply appended_words.
  - intros e r c f i _. apply law_call_bpf.
  - intros e insn r i _. apply law_call_indirect.
  - intros e i _. apply law_exit.
  - apply law_cond.
  - apply law_uncond.
  - apply law_uncond.
  - intros e o x _ H1 H2 H3. split; [done|]. by apply law_write.
Qed.



End Laws.

Definition demo_layout : A64Layout :=
  Build_A64Layout 8 96 104 4096 112 120 128 0x10 0x20 0x30 0x40 0x50 0x60 0x70 0x80 0x90.

(** A countdown, a conditional jump to before the entry, and the return. *)
Definition count_code : Z -> Z :=
  store_le (store_le (store_le (store_le demo_code 8 8 (encode_insn (mkinsn 0x07 0 0 0 (-1))))
    16 8 (encode_insn (mkinsn 0x55 0 0 (-2) 0)))
    24 8 (encode_insn (mkinsn 0x15 1 0 (-5) 0)))
    32 8 (encode_insn (mkinsn 0x95 0 0 0 0)).
Definition count_vm : vm unit :=
  mkvm demo_options 0x40000008 (replicate 11 0) 0 0 0
    (mkmmem ∅ [demo_stack; demo_text] (mkhost (fun b => if b =? 1 then count_code else fun _ => 0) (fun _ _ => 3) 2 ∅ 0 []))
    (Some 0x40000008) 0 0 0 false tt [] [].

Lemma empty_jit_wf : jit_wf empty_jit.
Proof. intros s g e Hs. change (pc_cache_ empty_jit) with (∅ : gmap Z (Z * entry_ref)) in Hs. by rewrite lookup_empty in Hs. Qed.
Lemma empty_jit_compiled g : ~ compiled_at empty_jit g.
Proof. intros (f & Hf & _). change (entries_ empty_jit) with (∅ : gmap Z JitEntry) in Hf. by rewrite lookup_empty in Hf. Qed.

(** Its compilation, code placed at 0x10000. *)
Definition count_compile : outcome unit (option Z * JitCompiler) :=
  compile (E := AArch64Emitter) (H := aarch64_emitter (lay := demo_layout)) (fun _ _ => 0x7000) (fun _ _ => 0x8000)
    0x40000008 (Some 0x10000) true empty_jit count_vm.


Lemma compile_coherent_witness :
  exists o j' v', count_compile = Ok (o, j') v' /\ compile_post 0x40000008 empty_jit o j'.
Proof.
  destruct (compile_coherent (env := permissive_env) (E := AArch64Emitter) (H := aarch64_emitter (lay := demo_layout)) (fun _ _ => 0x7000) (fun _ _ => 0x8000)
    0x40000008 (Some 0x10000) true empty_jit count_vm) as (o & j' & v' & E & _ & Hp).
  - split.
    + split; repeat constructor; cbv; congruence.
    + intros i e He. change (tlb (mm count_vm)) with (∅ : gmap Z TlbEntry) in He. by rewrite lookup_empty in He.
    + repeat constructor.
    + intros b o. cbn. destruct (b =? 1); [|lia].
      do 4 (apply store_le_byte; intros ?). apply store_le_byte. lia.
  - unfold in_u64. lia.
  - lia.
  - apply empty_jit_wf.
  - exists o, j', v'. split; [exact E|exact Hp].
Defined.
