(* ===== verification/A64Alu.v ===== *)
(** * A64Alu: arithmetic and comparisons of the AArch64 backend

    The code [emit_alu] emits computes what the interpreter computes: run on the
    processor of A64.v it leaves in the destination register the result of
    [alu64_op] or [alu32_op], and every other guest register, the vm pointer and
    the stack pointer as they were ([emit_alu_correct]).  The code of a
    conditional jump sets the flags so that its condition code decides what
    [jmp_cond] and [jmp32_cond] decide ([jump_condition_correct]), but for
    [BPF_JSET] with a negative immediate ([jset_negative_differs]). *)

From S2P Require Import Prelude HostMem AddrSpace Isa Vm Segments Frame SoftFp Interp InterpFacts Discover Jit A64 A64Run A64Emit.
From Stdlib Require Import Lia.
From stdpp Require Import base numbers list option.

Open Scope Z_scope.
Import AArch64.

(** ** Registers *)

Lemma reg_map_range r : 0 <= r <= 10 -> 9 <= reg_map r <= 23.
Proof.
  intros Hr. assert (exists n, r = Z.of_nat n /\ (n <= 10)%nat) as (n & -> & Hn) by (exists (Z.to_nat r); lia).
  unfold reg_map. rewrite Nat2Z.id. do 11 (destruct n as [|n]; [by vm_compute|]). lia.
Qed.

Lemma reg_map_inj r q : 0 <= r <= 10 -> 0 <= q <= 10 -> reg_map r = reg_map q -> r = q.
Proof.
  intros Hr Hq. assert (exists n, r = Z.of_nat n /\ (n <= 10)%nat) as (n & -> & Hn) by (exists (Z.to_nat r); lia).
  assert (exists m, q = Z.of_nat m /\ (m <= 10)%nat) as (m & -> & Hm) by (exists (Z.to_nat q); lia).
  unfold reg_map. rewrite !Nat2Z.id.
  do 11 (destruct n as [|n]; [do 11 (destruct m as [|m]; [first [done|by vm_compute]|]); lia|]). lia.
Qed.

Section Alu.
Context {cpu : A64Cpu}.
Implicit Types s : a64_regs.

Lemma exec1 w i s s' : a64_decode w = Some i -> a64_exec i s = Some s' -> cpu_run [w] s = s'.
Proof. intros Hd He. by rewrite (run_cons w [] i s s' Hd He). Qed.

Lemma run_cons1 w ws s : cpu_run (w :: ws) s = cpu_run ws (cpu_run [w] s).
Proof. done. Qed.

(** Only the scratch registers X0 to X2 differ. *)
Definition frame s s' : Prop :=
  regs_wf s' /\ sp s' = sp s /\ forall n, 3 <= n <= 31 -> get_x s' n = get_x s n.

Lemma frame_refl s : regs_wf s -> frame s s.
Proof. by split. Qed.
Lemma frame_trans s1 s2 s3 : frame s1 s2 -> frame s2 s3 -> frame s1 s3.
Proof. intros (_ & P1 & G1) (W & P2 & G2). split_and!; [done|congruence|]. intros n Hn. by rewrite G2, G1. Qed.
Lemma frame_put s n v : regs_wf s -> 0 <= n <= 2 -> 0 <= v < 2 ^ 64 -> frame s (put_x s n v).
Proof.
  intros Hs Hn Hv. split_and!; [by apply put_x_wf| |].
  - unfold put_x. destruct (n =? 31); done.
  - intros m Hm. apply get_put_ne; lia.
Qed.

Lemma width_pos sf : 0 < width sf <= 64.
Proof. destruct sf; cbn; lia. Qed.
Lemma width_pow sf : 0 < 2 ^ width sf <= 2 ^ 64.
Proof. destruct sf; cbn; lia. Qed.
Lemma uwrap_word sf z : 0 <= uwrap (width sf) z < 2 ^ 64.
Proof. pose proof (uwrap_range (width sf) z ltac:(destruct sf; cbn; lia)). pose proof (width_pow sf). lia. Qed.
Lemma uwrap_get s n : regs_wf s -> u64 (get_x s n) = get_x s n.
Proof. intros Hs. apply uwrap_small. by apply get_x_range. Qed.

(** Words below [2^w], for either width. *)
Lemma word_of sf z : 0 <= z < 2 ^ width sf -> 0 <= z < 2 ^ 64.
Proof. pose proof (width_pow sf). lia. Qed.

(** What the emitted instructions do. *)
Section Effects.
Context (d n m : Z) (Hd : 0 <= d < 31) (Hn : 0 <= n < 32) (Hm : 0 <= m < 32) (sf : bool) (s : a64_regs).
Abbreviation w := (width sf).
Abbreviation a := (uwrap w (get_x s n)).
Abbreviation b := (uwrap w (get_x s m)).

Lemma ex_add : cpu_run [add_reg d n m sf] s = put_x s d (uwrap w (a + b)).
Proof. eapply exec1; [apply decode_add; lia|done]. Qed.
Lemma ex_sub : cpu_run [sub_reg d n m sf] s = put_x s d (uwrap w (a - b)).
Proof. eapply exec1; [apply decode_sub; lia|done]. Qed.
Lemma ex_and : cpu_run [and_reg d n m sf] s = put_x s d (Z.land a b).
Proof. eapply exec1; [apply decode_and; lia|done]. Qed.
Lemma ex_orr : cpu_run [orr_reg d n m sf] s = put_x s d (Z.lor a b).
Proof. eapply exec1; [apply decode_orr; lia|done]. Qed.
Lemma ex_eor : cpu_run [eor_reg d n m sf] s = put_x s d (Z.lxor a b).
Proof. eapply exec1; [apply decode_eor; lia|done]. Qed.
Lemma ex_mov : cpu_run [mov_reg d m sf] s = put_x s d b.
Proof.
  eapply exec1; [apply decode_mov; lia|]. cbn [a64_exec]. change (get_x s 31) with 0.
  assert (uwrap (width sf) 0 = 0) as -> by by destruct sf. done.
Qed.
Lemma ex_mul : cpu_run [mul_reg d n m sf] s = put_x s d (uwrap w (a * b)).
Proof.
  eapply exec1; [apply decode_mul; lia|]. cbn [a64_exec]. change (get_x s 31) with 0.
  assert (uwrap (width sf) 0 = 0) as -> by by destruct sf. done.
Qed.
Lemma ex_msub c : 0 <= c < 32 ->
  cpu_run [msub_reg d n m c sf] s = put_x s d (uwrap w (uwrap w (get_x s c) - a * b)).
Proof. intros Hc. eapply exec1; [apply decode_msub; lia|done]. Qed.
Lemma ex_udiv : cpu_run [udiv_reg d n m sf] s = put_x s d (if b =? 0 then 0 else a / b).
Proof. eapply exec1; [apply decode_udiv; lia|done]. Qed.
Lemma ex_sdiv : cpu_run [sdiv_reg d n m sf] s = put_x s d (if b =? 0 then 0 else uwrap w (Z.quot (sval w a) (sval w b))).
Proof. eapply exec1; [apply decode_sdiv; lia|done]. Qed.
Lemma ex_lslv : cpu_run [lsl_reg d n m sf] s = put_x s d (uwrap w (Z.shiftl a (b mod w))).
Proof. eapply exec1; [apply decode_lslv; lia|done]. Qed.
Lemma ex_lsrv : cpu_run [lsr_reg d n m sf] s = put_x s d (Z.shiftr a (b mod w)).
Proof. eapply exec1; [apply decode_lsrv; lia|done]. Qed.
Lemma ex_asrv : cpu_run [asr_reg d n m sf] s = put_x s d (uwrap w (Z.shiftr (sval w a) (b mod w))).
Proof. eapply exec1; [apply decode_asrv; lia|done]. Qed.
Lemma ex_lsli c : 0 <= c < w -> cpu_run [lsl_imm d n c sf] s = put_x s d (ubfm w a ((- c) mod w) (w - 1 - c)).
Proof. intros Hc. eapply exec1; [apply decode_lsli; lia|done]. Qed.
Lemma ex_lsri c : 0 <= c < w -> cpu_run [lsr_imm d n c sf] s = put_x s d (ubfm w a c (w - 1)).
Proof. intros Hc. eapply exec1; [apply decode_lsri; lia|done]. Qed.
Lemma ex_asri c : 0 <= c < w -> cpu_run [asr_imm d n c sf] s = put_x s d (sbfm w a c (w - 1)).
Proof. intros Hc. eapply exec1; [apply decode_asri; lia|done]. Qed.
Lemma ex_sxtb : cpu_run [sxtb d n sf] s = put_x s d (sbfm w a 0 7).
Proof. eapply exec1; [apply decode_sxtb; lia|done]. Qed.
Lemma ex_sxth : cpu_run [sxth d n sf] s = put_x s d (sbfm w a 0 15).
Proof. eapply exec1; [apply decode_sxth; lia|done]. Qed.
Lemma ex_rev16 : cpu_run [rev16 d n sf] s = put_x s d (rev16_val (if sf then 4 else 2) a).
Proof. eapply exec1; [apply decode_rev16; lia|done]. Qed.
End Effects.

Lemma ex_sxtw d n s : 0 <= d < 31 -> 0 <= n < 32 -> cpu_run [sxtw d n] s = put_x s d (sbfm 64 (u64 (get_x s n)) 0 31).
Proof. intros Hd Hn. eapply exec1; [apply decode_sxtw; lia|done]. Qed.
Lemma ex_rev32 d n s : 0 <= d < 31 -> 0 <= n < 32 -> cpu_run [rev32 d n] s = put_x s d (bswap 4 (u32 (get_x s n))).
Proof. intros Hd Hn. eapply exec1; [apply decode_rev32; lia|done]. Qed.
Lemma ex_rev64 d n s : 0 <= d < 31 -> 0 <= n < 32 -> cpu_run [rev64 d n] s = put_x s d (bswap 8 (u64 (get_x s n))).
Proof. intros Hd Hn. eapply exec1; [apply decode_rev64; lia|done]. Qed.

(** ** Values *)

Lemma uwrap_mod_width sf z : uwrap (width sf) z mod width sf = z mod width sf.
Proof.
  unfold uwrap. destruct sf; cbn [width].
  - apply (Z.mod_mod_divide z (2 ^ 64) 64). by exists (2 ^ 58).
  - apply (Z.mod_mod_divide z (2 ^ 32) 32). by exists (2 ^ 27).
Qed.

Lemma ubfm_lsl w x c : 0 < w -> 0 <= x < 2 ^ w -> 0 <= c < w ->
  ubfm w x ((- c) mod w) (w - 1 - c) = uwrap w (x * 2 ^ c).
Proof.
  intros Hw Hx Hc. unfold ubfm. destruct (decide (c = 0)) as [->|Hne].
  - change (- 0) with 0. rewrite Z.mod_0_l, Z.sub_0_r by lia. rewrite (proj2 (Z.leb_le _ _)) by lia.
    rewrite Z.div_1_r, Z.mul_1_r. unfold uwrap. do 2 f_equal. lia.
  - assert ((- c) mod w = w - c) as -> by (symmetry; apply (Z.mod_unique _ _ (-1)); lia).
    destruct (Z.leb_spec (w - c) (w - 1 - c)); [lia|]. replace (w - 1 - c + 1) with (w - c) by lia.
    replace (w - (w - c)) with c by lia. unfold uwrap.
    rewrite <- Z.mul_mod_distr_r by (apply Z.pow_nonzero; lia).
    rewrite <- Z.pow_add_r by lia. replace (w - c + c) with w by lia. by rewrite Zmod_mod.
Qed.

Lemma div_pow_bound w x c : 0 <= x < 2 ^ w -> 0 <= c <= w -> 0 <= x / 2 ^ c < 2 ^ (w - c).
Proof.
  intros Hx Hc. assert (0 < 2 ^ c) by (apply Z.pow_pos_nonneg; lia).
  split; [apply Z.div_pos; lia|]. apply Z.div_lt_upper_bound; [done|].
  rewrite <- Z.pow_add_r by lia. replace (c + (w - c)) with w by lia. lia.
Qed.

Lemma ubfm_lsr w x c : 0 < w -> 0 <= x < 2 ^ w -> 0 <= c < w -> ubfm w x c (w - 1) = x / 2 ^ c.
Proof.
  intros Hw Hx Hc. unfold ubfm. rewrite (proj2 (Z.leb_le _ _)) by lia. apply Z.mod_small.
  replace (w - 1 - c + 1) with (w - c) by lia. apply div_pow_bound; lia.
Qed.

Lemma sval_shift w x c : 0 < w -> 0 <= x < 2 ^ w -> 0 <= c < w -> sval (w - c) (x / 2 ^ c) = sval w x / 2 ^ c.
Proof.
  intros Hw Hx Hc. assert (0 < 2 ^ c) as Hp by (apply Z.pow_pos_nonneg; lia).
  pose proof (sval_range w x Hw) as Hr.
  assert (2 ^ (w - 1) = 2 ^ (w - c - 1) * 2 ^ c) as E1 by (rewrite <- Z.pow_add_r by lia; f_equal; lia).
  apply sval_unique; [lia| |].
  - split; [apply Z.div_le_lower_bound; lia|apply Z.div_lt_upper_bound; lia].
  - unfold sval. cbn zeta. rewrite (Z.mod_small x) by done. destruct (x <? 2 ^ (w - 1)); [done|].
    assert (2 ^ w = 2 ^ (w - c) * 2 ^ c) as -> by (rewrite <- Z.pow_add_r by lia; f_equal; lia).
    unfold uwrap. replace (x - 2 ^ (w - c) * 2 ^ c) with (x + (- 2 ^ (w - c)) * 2 ^ c) by lia.
    rewrite Z.div_add by lia. replace (x / 2 ^ c + - 2 ^ (w - c)) with (x / 2 ^ c + (-1) * 2 ^ (w - c)) by lia.
    by rewrite Z_mod_plus_full.
Qed.

Lemma sbfm_asr w x c : 0 < w -> 0 <= x < 2 ^ w -> 0 <= c < w -> sbfm w x c (w - 1) = uwrap w (sval w x / 2 ^ c).
Proof.
  intros Hw Hx Hc. unfold sbfm. rewrite (proj2 (Z.leb_le _ _)) by lia.
  replace (w - 1 - c + 1) with (w - c) by lia. by rewrite sval_shift.
Qed.

Lemma rev16_low n x : u16 (rev16_val (S n) x) = bswap 2 (u16 x).
Proof.
  change (rev16_val (S n) x) with (bswap 2 (x mod 2 ^ 16) + 2 ^ 16 * rev16_val n (x / 2 ^ 16)).
  unfold uwrap. rewrite (Z.mul_comm (2 ^ 16)), Z_mod_plus_full. apply Z.mod_small. apply (bswap_range 2).
Qed.
Lemma rev16_range n x : 0 <= rev16_val n x < 2 ^ (16 * Z.of_nat n).
Proof.
  revert x. induction n as [|n IH]; intros x; [done|].
  change (rev16_val (S n) x) with (bswap 2 (x mod 2 ^ 16) + 2 ^ 16 * rev16_val n (x / 2 ^ 16)).
  specialize (IH (x / 2 ^ 16)). pose proof (bswap_range 2 (x mod 2 ^ 16)) as Hb. change (8 * Z.of_nat 2) with 16 in Hb.
  replace (16 * Z.of_nat (S n)) with (16 + 16 * Z.of_nat n) by lia. rewrite Z.pow_add_r by lia. nia.
Qed.

(** Unsigned and signed remainders through a multiply-subtract. *)
Lemma umod_msub d b : b <> 0 -> d - d / b * b = d mod b.
Proof. intros Hb. pose proof (Z.div_mod d b Hb). lia. Qed.
Lemma smod_msub w d b : 0 < w ->
  uwrap w (d - uwrap w (Z.quot (sval w d) (sval w b)) * b) = uwrap w (Z.rem (sval w d) (sval w b)).
Proof.
  intros Hw. pose proof (quot_rem_recompose w d b Hw) as H.
  set (q := uwrap w (Z.quot (sval w d) (sval w b))) in *. set (r := Z.rem (sval w d) (sval w b)) in *.
  rewrite <- uwrap_sub_l, <- H, uwrap_sub_l. replace (q * b + uwrap w r - q * b) with (uwrap w r) by lia.
  by rewrite uwrap_idem.
Qed.

(** ** The operation between the scratch registers *)

Definition yields s (ws : list Z) (v : Z) : Prop := frame s (cpu_run ws s) /\ get_x (cpu_run ws s) X0 = v.

Lemma yields_put s ws v : regs_wf s -> 0 <= v < 2 ^ 64 -> cpu_run ws s = put_x s X0 v -> yields s ws v.
Proof.
  unfold yields. intros Hs Hv ->. split; [apply frame_put; [done|unfold X0; lia|done]|]. apply get_put_eq; [done|unfold X0; lia].
Qed.

(** A constant loaded into X1 or X2 first. *)
Lemma yields_imm s n c sf ws v : regs_wf s -> n = X1 \/ n = X2 ->
  (forall s1, regs_wf s1 -> get_x s1 X0 = get_x s X0 -> get_x s1 n = uwrap (width sf) c -> yields s1 ws v) ->
  yields s (mov_imm n c sf ++ ws) v.
Proof.
  intros Hs Hn Hk. assert (0 <= n <= 2 /\ n <> X0) as [Hr Hne] by (unfold X0, X1, X2 in *; lia).
  unfold yields. rewrite run_app, run_mov_imm by (done || lia).
  set (s1 := put_x s n _). assert (frame s s1) as Hf by (apply frame_put; [done|done|apply uwrap_word]).
  destruct (Hk s1) as [Hf' Hv].
  - apply Hf.
  - unfold s1. apply get_put_ne; unfold X0 in *; lia.
  - unfold s1. apply get_put_eq; [done|lia].
  - split; [by eapply frame_trans|done].
Qed.

Ltac regs := unfold X0, X1, X2 in *; lia.

Section Ops.
Context (sf : bool).
Abbreviation w := (width sf).

Lemma uwrap_u64 c : uwrap w (u64 c) = uwrap w c.
Proof. apply uwrap_uwrap. pose proof (width_pos sf). lia. Qed.

Lemma yields_add_imm s imm : regs_wf s ->
  yields s (add_imm X0 X0 imm sf) (uwrap w (uwrap w (get_x s X0) + imm)).
Proof.
  intros Hs. unfold add_imm. destruct ((0 <=? imm) && (imm <=? 4095)) eqn:H1; [|destruct ((imm <? 0) && (-4095 <=? imm)) eqn:H2].
  - zprops. apply yields_put; [done|apply uwrap_word|]. eapply exec1; [apply decode_addi; regs|done].
  - zprops. apply yields_put; [done|apply uwrap_word|]. eapply exec1; [apply decode_subi; regs|].
    cbn [a64_exec]. unfold put_sp, get_sp, get_x. change (X0 =? 31) with false. cbn [negb]. do 3 f_equal. lia.
  - apply yields_imm; [done|by right|]. intros s1 Hs1 E0 E2. apply yields_put; [done|apply uwrap_word|].
    rewrite ex_add by regs. rewrite E0, E2, uwrap_idem, uwrap_u64. by rewrite uwrap_add_r.
Qed.

Lemma yields_sub_imm s imm : regs_wf s ->
  yields s (sub_imm X0 X0 imm sf) (uwrap w (uwrap w (get_x s X0) - imm)).
Proof.
  intros Hs. unfold sub_imm. destruct ((-4095 <=? imm) && (imm <=? 4095)).
  - apply (yields_add_imm s (- imm) Hs).
  - apply yields_imm; [done|by right|]. intros s1 Hs1 E0 E2. apply yields_put; [done|apply uwrap_word|].
    rewrite ex_sub by regs. rewrite E0, E2, uwrap_idem, uwrap_u64. by rewrite uwrap_sub_r.
Qed.

(** The logical operations with an immediate. *)
Lemma yields_and_imm s imm : regs_wf s ->
  yields s (and_imm X0 X0 imm sf) (Z.land (uwrap w (get_x s X0)) (uwrap w imm)).
Proof.
  intros Hs. apply yields_imm; [done|by right|]. intros s1 Hs1 E0 E2. rewrite <- E0, <- (uwrap_idem _ imm), <- E2.
  apply yields_put; [done| |by rewrite ex_and by regs].
  apply land_range_l; [apply uwrap_word|apply uwrap_word].
Qed.
Lemma yields_orr_imm s imm : regs_wf s ->
  yields s (orr_imm X0 X0 imm sf) (Z.lor (uwrap w (get_x s X0)) (uwrap w imm)).
Proof.
  intros Hs. apply yields_imm; [done|by right|]. intros s1 Hs1 E0 E2. rewrite <- E0, <- (uwrap_idem _ imm), <- E2.
  apply yields_put; [done| |by rewrite ex_orr by regs]. apply lor_range; [lia|apply uwrap_word..].
Qed.
Lemma yields_eor_imm s imm : regs_wf s ->
  yields s (eor_imm X0 X0 imm sf) (Z.lxor (uwrap w (get_x s X0)) (uwrap w imm)).
Proof.
  intros Hs. apply yields_imm; [done|by right|]. intros s1 Hs1 E0 E2. rewrite <- E0, <- (uwrap_idem _ imm), <- E2.
  apply yields_put; [done| |by rewrite ex_eor by regs]. apply lxor_range; [lia|apply uwrap_word..].
Qed.

(** [alu_math], one opcode at a time. *)
Ltac math E := unfold alu_math; rewrite E; cbn -[uwrap sval Z.mul Z.add Z.sub Z.div Z.modulo Z.pow Z.land Z.lor Z.lxor width].

Lemma shift_count c : 0 <= Z.land c (if sf then 0x3F else 0x1F) < w /\ Z.land c (if sf then 0x3F else 0x1F) = c mod w.
Proof.
  destruct sf; cbn [width]; [rewrite land_63; pose proof (Z.mod_pos_bound c 64)|rewrite land_31; pose proof (Z.mod_pos_bound c 32)]; lia.
Qed.

Lemma uwrap_range_w z : 0 <= uwrap w z < 2 ^ w.
Proof. apply uwrap_range. pose proof (width_pos sf). lia. Qed.

Lemma div_word z c : 0 <= c -> 0 <= uwrap w z / 2 ^ c < 2 ^ w.
Proof.
  intros Hc. pose proof (uwrap_range_w z) as H. assert (0 < 2 ^ c) by (apply Z.pow_pos_nonneg; lia).
  split; [apply Z.div_pos; lia|]. apply Z.div_lt_upper_bound; [done|]. nia.
Qed.

Lemma alu_body_ok insn is_x body s opnd :
  regs_wf s -> (is_x = true -> get_x s X1 = opnd) -> (is_x = false -> opnd = u64 (imm insn)) ->
  alu_body insn sf is_x = Some body ->
  yields s body (uwrap w (alu_math w insn (uwrap w (get_x s X0)) (uwrap w opnd))).
Proof.
  intros Hs Hx Hk. unfold alu_body. cbn zeta.
  pose proof (width_pos sf) as Hw. destruct (shift_count (imm insn)) as [Hc Hc'].
  assert (is_x = false -> uwrap w opnd = uwrap w (imm insn)) as Hu by (intros E; rewrite (Hk E); apply uwrap_u64).
  assert (is_x = false -> uwrap w opnd mod w = imm insn mod w) as Hm by (intros E; rewrite (Hu E); apply uwrap_mod_width).
  pose proof (uwrap_range_w (get_x s X0)) as Ha. pose proof (uwrap_range_w opnd) as Hb.
  pose proof (Z.mod_pos_bound (uwrap w opnd) w ltac:(lia)) as Hmb.
  destruct (Z.eqb_spec (insn_op insn) BPF_ADD) as [E|_].
  { intros [= <-]. math E. destruct is_x.
    - apply yields_put; [done|apply uwrap_word|]. by rewrite ex_add, Hx by (done || regs).
    - rewrite Hu, uwrap_add_r by done. by apply yields_add_imm. }
  destruct (Z.eqb_spec (insn_op insn) BPF_SUB) as [E|_].
  { intros [= <-]. math E. destruct is_x.
    - apply yields_put; [done|apply uwrap_word|]. by rewrite ex_sub, Hx by (done || regs).
    - rewrite Hu, uwrap_sub_r by done. by apply yields_sub_imm. }
  destruct (Z.eqb_spec (insn_op insn) BPF_OR) as [E|_].
  { intros [= <-]. math E. rewrite (uwrap_small w) by (apply lor_range; [lia|done..]). destruct is_x.
    - apply yields_put; [done|apply (word_of sf), lor_range; [lia|done..]|]. by rewrite ex_orr, Hx by (done || regs).
    - rewrite Hk by done. by apply yields_orr_imm. }
  destruct (Z.eqb_spec (insn_op insn) BPF_AND) as [E|_].
  { intros [= <-]. math E. rewrite (uwrap_small w) by (apply land_range_l; [done|lia]). destruct is_x.
    - apply yields_put; [done|apply (word_of sf), land_range_l; [done|lia]|]. by rewrite ex_and, Hx by (done || regs).
    - rewrite Hk by done. by apply yields_and_imm. }
  destruct (Z.eqb_spec (insn_op insn) BPF_XOR) as [E|_].
  { intros [= <-]. math E. rewrite (uwrap_small w) by (apply lxor_range; [lia|done..]). destruct is_x.
    - apply yields_put; [done|apply (word_of sf), lxor_range; [lia|done..]|]. by rewrite ex_eor, Hx by (done || regs).
    - rewrite Hk by done. by apply yields_eor_imm. }
  destruct (Z.eqb_spec (insn_op insn) BPF_LSH) as [E|_].
  { intros [= <-]. math E. apply yields_put; [done|apply uwrap_word|]. destruct is_x.
    - rewrite ex_lslv, Hx by (done || regs). by rewrite Z.shiftl_mul_pow2 by lia.
    - rewrite ex_lsli by (done || regs). by rewrite ubfm_lsl, Hm, Hc' by (done || lia). }
  destruct (Z.eqb_spec (insn_op insn) BPF_RSH) as [E|_].
  { intros [= <-]. math E. rewrite (uwrap_small w) by (apply div_word; lia).
    apply yields_put; [done|apply (word_of sf), div_word; lia|]. destruct is_x.
    - rewrite ex_lsrv, Hx by (done || regs). by rewrite Z.shiftr_div_pow2 by lia.
    - rewrite ex_lsri by (done || regs). by rewrite ubfm_lsr, Hm, Hc' by (done || lia). }
  destruct (Z.eqb_spec (insn_op insn) BPF_ARSH) as [E|_].
  { intros [= <-]. math E. apply yields_put; [done|apply uwrap_word|]. destruct is_x.
    - rewrite ex_asrv, Hx by (done || regs). by rewrite Z.shiftr_div_pow2 by lia.
    - rewrite ex_asri by (done || regs). by rewrite sbfm_asr, Hm, Hc' by (done || lia). }
  destruct (Z.eqb_spec (insn_op insn) BPF_MUL) as [E|_]; [|done].
  intros [= <-]. math E. destruct is_x; [cbn [app]|].
  - apply yields_put; [done|apply uwrap_word|]. by rewrite ex_mul, Hx by (done || regs).
  - assert (exists c, (if sf then mov_imm X1 (u64 (imm insn)) true else mov_imm X1 (u32 (imm insn)) false) = mov_imm X1 c sf
              /\ uwrap w c = uwrap w opnd) as (c & -> & Ec).
    { rewrite Hu by done. destruct sf; eexists; (split; [done|]); cbn [width]; apply uwrap_idem. }
    apply yields_imm; [done|by left|]. intros s1 Hs1 E0 E1. apply yields_put; [done|apply uwrap_word|].
    rewrite ex_mul by regs. by rewrite E0, E1, uwrap_idem, Ec.
Qed.

End Ops.

(** ** Whole instructions *)

(** The destination gets [v]; the other registers, the scratch ones apart, stay. *)
Definition sets s (ws : list Z) (dst v : Z) : Prop :=
  let s' := cpu_run ws s in
  regs_wf s' /\ sp s' = sp s /\ get_x s' (reg_map dst) = v /\
  forall n, 3 <= n <= 31 -> n <> reg_map dst -> get_x s' n = get_x s n.

(** The operand of an instruction, as 64 bits. *)
Definition operand s (insn : bpf_insn) : Z :=
  if insn_is_x insn then get_x s (reg_map (src_reg insn)) else u64 (imm insn).

(** What the interpreter computes. *)
Definition alu_result (insn : bpf_insn) (is_64 : bool) (d src : Z) : option Z :=
  if is_64 then alu64_op insn d src else alu32_op insn d (u32 src).

Lemma operand_range s insn : regs_wf s -> 0 <= operand s insn < 2 ^ 64.
Proof. intros Hs. unfold operand. destruct (insn_is_x insn); [by apply get_x_range|apply u64_range]. Qed.

Lemma alu_result_math insn sf d src : 0 <= d < 2 ^ 64 -> 0 <= src < 2 ^ 64 -> insn_op insn <> BPF_END ->
  alu_result insn sf d src = Some (uwrap (width sf) (alu_math (width sf) insn (uwrap (width sf) d) (uwrap (width sf) src))).
Proof.
  intros Hd Hs Hne. unfold alu_result. destruct sf; cbn [width].
  - rewrite alu64_math by done. by rewrite !(uwrap_small 64) with (z := d), (uwrap_small 64 src) by done.
  - rewrite alu32_math; [done|apply u32_range|done].
Qed.

Section Insn.
Context (insn : bpf_insn) (sf : bool) (Hdst : 0 <= dst_reg insn <= 10) (Hsrc : 0 <= src_reg insn <= 10).
Abbreviation w := (width sf).
Abbreviation dst := (dst_reg insn).

Lemma store_sets s ws v : yields s ws v -> sets s (ws ++ store_bpf dst X0 sf) dst (uwrap w v).
Proof.
  intros [(Hw & Hp & Hf) Hv]. unfold sets. cbn zeta. rewrite run_app. set (s1 := cpu_run ws s) in *.
  pose proof (reg_map_range dst Hdst) as Hm.
  assert (cpu_run (store_bpf dst X0 sf) s1 = put_x s1 (reg_map dst) (uwrap w v)) as ->.
  { unfold store_bpf. rewrite (proj2 (Z.eqb_neq _ X0)) by (unfold X0; lia).
    destruct sf; cbn [negb]; rewrite ex_mov by (unfold X0; lia); by rewrite Hv. }
  split_and!.
  - apply put_x_wf; [done|apply uwrap_word].
  - unfold put_x. by destruct (reg_map dst =? 31).
  - apply get_put_eq; [done|lia].
  - intros n Hn Hne. rewrite get_put_ne by lia. by apply Hf.
Qed.

(** A register move into a scratch register. *)
Lemma load_bpf_run r n s : 0 <= r <= 10 -> 0 <= n <= 2 -> regs_wf s ->
  cpu_run (load_bpf r n) s = put_x s n (get_x s (reg_map r)).
Proof.
  intros Hr Hn Hs. pose proof (reg_map_range r Hr). unfold load_bpf. rewrite (proj2 (Z.eqb_neq _ n)) by lia.
  rewrite ex_mov by lia. cbn [width]. by rewrite uwrap_get.
Qed.

Lemma sets_frame s s1 ws ws' v : frame s s1 -> cpu_run ws s = s1 -> sets s1 ws' dst v -> sets s (ws ++ ws') dst v.
Proof.
  intros (_ & Hp & Hf) Hr (Hw & Hp' & Hv & Hf'). unfold sets. cbn zeta. rewrite run_app, Hr.
  split_and!; [done|congruence|done|]. intros n Hn Hne. rewrite Hf' by done. by apply Hf.
Qed.

(** Both operands loaded. *)
Lemma loads_sets s ws v : regs_wf s ->
  (forall s1, frame s s1 -> get_x s1 X0 = get_x s (reg_map dst) ->
     (insn_is_x insn = true -> get_x s1 X1 = operand s insn) -> sets s1 ws dst v) ->
  sets s ((load_bpf dst X0 ++ (if insn_is_x insn then load_bpf (src_reg insn) X1 else [])) ++ ws) dst v.
Proof.
  intros Hs Hk. set (s0 := put_x s X0 (get_x s (reg_map dst))).
  assert (frame s s0) as F0 by (apply frame_put; [done|unfold X0; lia|by apply get_x_range]).
  assert (get_x s0 X0 = get_x s (reg_map dst)) as G0 by (apply get_put_eq; [done|unfold X0; lia]).
  destruct (insn_is_x insn) eqn:Hx.
  - set (s1 := put_x s0 X1 (get_x s (reg_map (src_reg insn)))).
    assert (frame s0 s1) as F1 by (apply frame_put; [apply F0|unfold X1; lia|by apply get_x_range]).
    apply (sets_frame s s1); [by eapply frame_trans| |apply Hk].
    + rewrite run_app, (load_bpf_run dst X0 s) by (done || (unfold X0; lia)). fold s0.
      rewrite load_bpf_run by (apply F0 || done || (unfold X1; lia)). unfold s1. f_equal.
      apply F0. pose proof (reg_map_range _ Hsrc). lia.
    + by eapply frame_trans.
    + unfold s1. rewrite get_put_ne by (unfold X0, X1; lia). exact G0.
    + intros _. unfold s1, operand. rewrite Hx. apply get_put_eq; [apply F0|unfold X1; lia].
  - rewrite app_nil_r. apply (sets_frame s s0); [done|rewrite load_bpf_run; [done|done|unfold X0; lia|done]|].
    apply Hk; [exact F0|exact G0|done].
Qed.

Lemma load_dst_sets s ws v : regs_wf s ->
  (forall s1, regs_wf s1 -> get_x s1 X0 = get_x s (reg_map dst) -> sets s1 ws dst v) ->
  sets s (load_bpf dst X0 ++ ws) dst v.
Proof.
  intros Hs Hk. set (s0 := put_x s X0 (get_x s (reg_map dst))).
  apply (sets_frame s s0); [apply frame_put; [done|unfold X0; lia|by apply get_x_range]|rewrite load_bpf_run; [done|done|unfold X0; lia|done]|].
  apply Hk; [apply put_x_wf; [done|by apply get_x_range]|apply get_put_eq; [done|unfold X0; lia]].
Qed.

(** A destination written directly. *)
Lemma put_sets s ws v : regs_wf s -> 0 <= v < 2 ^ 64 -> cpu_run ws s = put_x s (reg_map dst) v -> sets s ws dst v.
Proof.
  intros Hs Hv Hr. pose proof (reg_map_range dst Hdst). unfold sets. cbn zeta. rewrite Hr. split_and!.
  - by apply put_x_wf.
  - unfold put_x. by destruct (reg_map dst =? 31).
  - apply get_put_eq; [done|lia].
  - intros n Hn Hne. apply get_put_ne; lia.
Qed.

Lemma nil_sets s : regs_wf s -> sets s [] dst (get_x s (reg_map dst)).
Proof. intros Hs. by split_and!. Qed.

Lemma zero_extend_sets s : regs_wf s -> sets s (zero_extend insn sf) dst (uwrap w (get_x s (reg_map dst))).
Proof.
  intros Hs. pose proof (reg_map_range dst Hdst). unfold zero_extend. destruct sf; cbn [negb width].
  - rewrite uwrap_get by done. by apply nil_sets.
  - apply put_sets; [done|apply (uwrap_word false)|]. by rewrite ex_mov by lia.
Qed.

Lemma mov_sets s : regs_wf s -> sets s (alu_mov insn sf (insn_is_x insn)) dst (uwrap w (operand s insn)).
Proof.
  intros Hs. pose proof (reg_map_range _ Hdst). pose proof (reg_map_range _ Hsrc). unfold alu_mov, operand. cbn zeta.
  destruct (insn_is_x insn) eqn:Hx; [rewrite andb_true_r|rewrite andb_false_r; cbn [andb]].
  - destruct sf; cbn [andb negb width].
    + rewrite uwrap_get by done. destruct (Z.eqb_spec (dst_reg insn) (src_reg insn)) as [E|Hne].
      { rewrite <- E. by apply nil_sets. }
      destruct (Z.eqb_spec (reg_map dst) (reg_map (src_reg insn))) as [E|_]; [by apply reg_map_inj in E|].
      apply put_sets; [done|by apply get_x_range|]. rewrite ex_mov by lia. cbn [width]. by rewrite uwrap_get.
    + apply put_sets; [done|apply (uwrap_word false)|]. by rewrite ex_mov by lia.
  - destruct sf; cbn [width].
    + set (s0 := put_x s X0 (u64 (imm insn))).
      apply (sets_frame s s0); [apply frame_put; [done|unfold X0; lia|apply u64_range]| |].
      * rewrite run_mov_imm by (done || (unfold X0; lia)). cbn [width]. by rewrite uwrap_idem.
      * assert (regs_wf s0) by (apply put_x_wf; [done|apply u64_range]).
        apply put_sets; [done|apply u64_range|]. rewrite ex_mov by (unfold X0; lia). cbn [width].
        unfold s0. by rewrite get_put_eq by (done || (unfold X0; lia)).
    + apply put_sets; [done|apply (uwrap_word false)|]. rewrite run_mov_imm by (done || lia). cbn [width].
      rewrite uwrap_idem. by rewrite (uwrap_uwrap 32 64) by lia.
Qed.

(** *** Sign extension *)

Ltac math E := unfold alu_math; rewrite E; cbn -[uwrap sval Z.mul Z.add Z.sub Z.div Z.modulo Z.pow Z.land Z.lor Z.lxor width].

Lemma sbfm_ext ww x imms : 0 <= imms -> sbfm ww x 0 imms = uwrap ww (sval (imms + 1) x).
Proof.
  intros Hi. unfold sbfm. rewrite (proj2 (Z.leb_le _ _)) by lia. rewrite Z.div_1_r. do 2 f_equal. lia.
Qed.
Lemma sval_narrow v ww x : 0 < v <= ww -> sval v (uwrap ww x) = sval v x.
Proof. intros Hv. rewrite <- sval_uwrap, uwrap_uwrap by lia. apply sval_uwrap. Qed.

(** The operand moved to X0. *)
Lemma movsx_load s ws v : regs_wf s ->
  (forall s1, regs_wf s1 -> get_x s1 X0 = operand s insn -> sets s1 ws dst v) ->
  sets s ((if insn_is_x insn then load_bpf (src_reg insn) X0 else mov_imm X0 (u64 (imm insn)) true) ++ ws) dst v.
Proof.
  intros Hs Hk. pose proof (operand_range s insn Hs) as Ho. set (s0 := put_x s X0 (operand s insn)).
  apply (sets_frame s s0); [by apply frame_put; [|unfold X0; lia|]| |].
  - unfold s0, operand. destruct (insn_is_x insn).
    + by rewrite load_bpf_run by (done || (unfold X0; lia)).
    + rewrite run_mov_imm by (done || (unfold X0; lia)). cbn [width]. by rewrite uwrap_idem.
  - apply Hk; [by apply put_x_wf|apply get_put_eq; [done|unfold X0; lia]].
Qed.

Lemma movsx_sets s ws : regs_wf s -> insn_op insn = BPF_MOV -> off insn <> 0 ->
  alu_movsx insn sf (insn_is_x insn) = Some ws ->
  sets s ws dst (uwrap w (alu_math w insn (uwrap w (get_x s (reg_map dst))) (uwrap w (operand s insn)))).
Proof.
  intros Hs Ho Hoff. math Ho. rewrite (proj2 (Z.eqb_neq _ 0)) by done. unfold alu_movsx. cbn zeta.
  pose proof (width_pos sf) as Hw.
  destruct (Z.eqb_spec (off insn) 8) as [E|_]; [|destruct (Z.eqb_spec (off insn) 16) as [E|_]];
    [..|destruct (sf && (off insn =? 32)) eqn:E32; [|done]]; intros <-%(inj Some); apply movsx_load; try done; intros s1 Hs1 G;
    rewrite <- uwrap_idem.
  1,2: apply store_sets, yields_put; [done|apply uwrap_word|]; rewrite ?ex_sxtb, ?ex_sxth, sbfm_ext by (unfold X0; lia);
    f_equal; rewrite G, !sval_narrow by (destruct sf; cbn [width]; lia); done.
  apply andb_true_iff in E32 as [Hsf Eoff%Z.eqb_eq]. apply store_sets, yields_put; [done|apply uwrap_word|].
  rewrite ex_sxtw, sbfm_ext by (unfold X0; lia). rewrite Hsf, Eoff, G. cbn [width].
  change (32 =? 8) with false. change (32 =? 16) with false. change ((32 =? 32) && (64 =? 64)) with true. cbv iota.
  done.
Qed.

(** *** Operations that change nothing *)

Lemma alu_noop_math d : alu_noop insn (insn_op insn) = true -> 
  uwrap w (alu_math w insn (uwrap w d) (uwrap w (imm insn))) = uwrap w d.
Proof.
  unfold alu_noop. intros Hn.
  assert (forall x c, 0 <= x < 2 ^ w -> c = 0 -> uwrap w (sval w x / 2 ^ (c mod w)) = x) as Hsar.
  { intros x c Hx ->. rewrite Z.mod_0_l by (destruct sf; done). rewrite Z.div_1_r.
    rewrite uwrap_sval by (destruct sf; done). by apply uwrap_small. }
  pose proof (uwrap_range_w sf d) as Hd.
  apply orb_true_iff in Hn as [Hn|Hn]; apply andb_true_iff in Hn as [Hi%Z.eqb_eq Hop]; rewrite Hi.
  - change (uwrap w 0) with (uwrap (width sf) 0). assert (uwrap w 0 = 0) as -> by by destruct sf.
    rewrite !orb_true_iff, !Z.eqb_eq in Hop.
    destruct Hop as [[[[[[E|E]|E]|E]|E]|E]|E]; math E.
    + by rewrite Z.add_0_r, uwrap_idem.
    + by rewrite Z.sub_0_r, uwrap_idem.
    + by rewrite Z.lor_0_r, uwrap_idem.
    + by rewrite Z.lxor_0_r, uwrap_idem.
    + rewrite Z.mod_0_l by (destruct sf; done). by rewrite Z.mul_1_r, uwrap_idem.
    + rewrite Z.mod_0_l by (destruct sf; done). by rewrite Z.div_1_r, uwrap_idem.
    + by apply Hsar.
  - assert (uwrap w 1 = 1) as -> by by destruct sf. rewrite orb_true_iff, !Z.eqb_eq in Hop.
    destruct Hop as [E|E]; math E.
    + by rewrite Z.mul_1_r, uwrap_idem.
    + destruct (off insn =? 0); [by rewrite Z.div_1_r, uwrap_idem|].
      assert (sval w 1 = 1) as -> by by destruct sf. rewrite Z.quot_1_r, uwrap_sval by (destruct sf; done). apply uwrap_idem.
Qed.

(** *** Division *)

Lemma div_yields s opnd : regs_wf s -> get_x s X1 = opnd -> insn_op insn = BPF_DIV ->
  yields s [if off insn =? 0 then udiv_reg X0 X0 X1 sf else sdiv_reg X0 X0 X1 sf]
    (uwrap w (alu_math w insn (uwrap w (get_x s X0)) (uwrap w opnd))).
Proof.
  intros Hs H1 Ho. math Ho. pose proof (uwrap_range_w sf (get_x s X0)) as Ha. pose proof (uwrap_range_w sf opnd) as Hb.
  apply yields_put; [done|apply uwrap_word|]. destruct (off insn =? 0).
  - rewrite ex_udiv, H1 by (unfold X0, X1; lia). f_equal. destruct (Z.eqb_spec (uwrap w opnd) 0) as [E|Hne]; [by destruct sf|].
    symmetry. apply uwrap_small. split; [apply Z.div_pos; lia|]. apply Z.div_lt_upper_bound; [lia|nia].
  - rewrite ex_sdiv, H1 by (unfold X0, X1; lia). f_equal. destruct (Z.eqb_spec (uwrap w opnd) 0) as [E|Hne]; [by destruct sf|done].
Qed.

Lemma mod_yields s opnd : regs_wf s -> get_x s X1 = opnd -> insn_op insn = BPF_MOD ->
  yields s [if off insn =? 0 then udiv_reg X2 X0 X1 sf else sdiv_reg X2 X0 X1 sf; msub_reg X0 X2 X1 X0 sf]
    (uwrap w (alu_math w insn (uwrap w (get_x s X0)) (uwrap w opnd))).
Proof.
  intros Hs H1 Ho. math Ho. set (a := uwrap w (get_x s X0)). set (b := uwrap w opnd).
  pose proof (uwrap_range_w sf (get_x s X0)) as Ha. pose proof (uwrap_range_w sf opnd) as Hb. fold a in Ha. fold b in Hb.
  set (q := if off insn =? 0 then (if b =? 0 then 0 else a / b)
            else (if b =? 0 then 0 else uwrap w (Z.quot (sval w a) (sval w b)))).
  assert (0 <= q < 2 ^ w) as Hq.
  { unfold q. destruct (off insn =? 0), (Z.eqb_spec b 0); try lia; try apply uwrap_range_w.
    split; [apply Z.div_pos; lia|apply Z.div_lt_upper_bound; [lia|nia]]. }
  assert (cpu_run [if off insn =? 0 then udiv_reg X2 X0 X1 sf else sdiv_reg X2 X0 X1 sf] s = put_x s X2 q) as Hr.
  { unfold q. destruct (off insn =? 0); [rewrite ex_udiv|rewrite ex_sdiv]; by rewrite ?H1 by (unfold X0, X1, X2; lia). }
  set (s1 := put_x s X2 q) in *.
  assert (frame s s1) as F by (apply frame_put; [done|unfold X2; lia|by apply (word_of sf)]).
  unfold yields. rewrite run_cons1, Hr.
  assert (yields s1 [msub_reg X0 X2 X1 X0 sf] (uwrap w (a - q * b))) as [F1 G1].
  { apply yields_put; [apply F|apply uwrap_word|]. rewrite ex_msub by (unfold X0, X1, X2; lia). unfold s1.
    rewrite get_put_eq, !get_put_ne by (done || (unfold X0, X1, X2; lia)). rewrite H1. fold a b.
    by rewrite (uwrap_small w q). }
  split; [by eapply frame_trans|]. rewrite G1. unfold q. destruct (Z.eqb_spec b 0) as [E|Hne]; cbv iota.
  - rewrite Tauto.if_same, Z.mul_0_l, Z.sub_0_r. by destruct (off insn =? 0).
  - destruct (off insn =? 0); [by rewrite umod_msub|]. apply smod_msub. destruct sf; done.
Qed.

(** The divisor of an immediate form. *)
Lemma divisor_yields s ws v opnd : regs_wf s ->
  (insn_is_x insn = true -> get_x s X1 = opnd) -> (insn_is_x insn = false -> opnd = u64 (imm insn)) ->
  (forall s1, regs_wf s1 -> get_x s1 X0 = get_x s X0 -> uwrap w (get_x s1 X1) = uwrap w opnd -> yields s1 ws v) ->
  yields s ((if insn_is_x insn then [] else mov_imm X1 (u64 (imm insn)) sf) ++ ws) v.
Proof.
  intros Hs Hx Hi Hk. destruct (insn_is_x insn).
  - apply Hk; [done|done|]. by rewrite Hx.
  - apply yields_imm; [done|by left|]. intros s1 Hs1 E0 E1. apply Hk; [done|done|].
    by rewrite E1, uwrap_idem, Hi.
Qed.

(** *** Byte order *)

Lemma yields_seq s ws ws' v v' : yields s ws v ->
  (forall s1, regs_wf s1 -> get_x s1 X0 = v -> yields s1 ws' v') -> yields s (ws ++ ws') v'.
Proof.
  intros [F1 G1] Hk. destruct (Hk (cpu_run ws s)) as [F2 G2]; [apply F1|done|].
  unfold yields. rewrite run_app. split; [by eapply frame_trans|done].
Qed.

(** Keep the low halfword. *)
Lemma yields_low16 s : regs_wf s -> yields s (and_imm X0 X0 0xFFFF true) (u16 (get_x s X0)).
Proof.
  intros Hs. pose proof (yields_and_imm true s 0xFFFF Hs) as H. cbn [width] in H.
  assert (Z.land (u64 (get_x s X0)) (u64 0xFFFF) = u16 (get_x s X0)) as <-; [|done].
  change (u64 0xFFFF) with (2 ^ 16 - 1). rewrite land_mask, uwrap_get by (done || lia). done.
Qed.

Lemma yields_rev16 s b : regs_wf s ->
  yields s ([rev16 X0 X0 b] ++ and_imm X0 X0 0xFFFF true) (bswap 2 (u16 (get_x s X0))).
Proof.
  intros Hs. set (x := uwrap (width b) (get_x s X0)).
  apply (yields_seq _ _ _ (rev16_val (if b then 4 else 2) x)).
  - apply yields_put; [done| |by rewrite ex_rev16 by (unfold X0; lia)].
    pose proof (rev16_range (if b then 4%nat else 2%nat) x). destruct b; [done|].
    change (2 ^ (16 * Z.of_nat 2)) with (2 ^ 32) in H. lia.
  - intros s1 Hs1 G. pose proof (yields_low16 s1 Hs1) as H. rewrite G in H.
    assert (u16 (rev16_val (if b then 4 else 2) x) = bswap 2 (u16 (get_x s X0))) as <-; [|done].
    assert (u16 x = u16 (get_x s X0)) as <- by (apply uwrap_uwrap; destruct b; cbn [width]; lia).
    destruct b; apply rev16_low.
Qed.

Lemma bswap_small n z : (Z.of_nat n * 8 <= width sf)%Z -> uwrap w (bswap n z) = bswap n z.
Proof.
  intros Hn. apply uwrap_small. pose proof (bswap_range n z).
  assert (2 ^ (8 * Z.of_nat n) <= 2 ^ w) by (apply Z.pow_le_mono_r; lia). lia.
Qed.

(** A byte-order instruction: load, compute, store. *)
Lemma end_form s body v : regs_wf s -> uwrap w v = v ->
  (forall s1, regs_wf s1 -> get_x s1 X0 = get_x s (reg_map dst) -> yields s1 body v) ->
  sets s (load_bpf dst X0 ++ body ++ store_bpf dst X0 sf) dst v.
Proof.
  intros Hs Hv Hk. apply load_dst_sets; [done|]. intros s1 Hs1 G. rewrite <- Hv. by apply store_sets, Hk.
Qed.

Lemma yields_rev32 s : regs_wf s -> yields s [rev32 X0 X0] (bswap 4 (u32 (get_x s X0))).
Proof.
  intros Hs. apply yields_put; [done|apply bswap_word; lia|]. by rewrite ex_rev32 by (unfold X0; lia).
Qed.

Lemma end_sets s ws : regs_wf s -> insn_op insn = BPF_END ->
  alu_end insn sf (insn_is_x insn) = Some ws ->
  exists v, alu_result insn sf (get_x s (reg_map dst)) (operand s insn) = Some v /\ sets s ws dst v.
Proof.
  intros Hs Ho. pose proof (get_x_range s (reg_map dst) Hs) as Hd.
  assert (u16 (u32 (get_x s (reg_map dst))) = u16 (get_x s (reg_map dst))) as H16 by (apply uwrap_uwrap; lia).
  unfold alu_end, alu_result, alu64_op, alu32_op. rewrite Ho. cbn -[bswap store_bpf load_bpf uwrap and_imm app].
  rewrite uwrap_idem, H16. pose proof (nil_sets s Hs) as Hnil.
  pose proof (fun body v => end_form s body v Hs) as Hform. pose proof bswap_small as Hb. revert Hform Hb.
  assert (forall b, forall s1, regs_wf s1 -> get_x s1 X0 = get_x s (reg_map dst) ->
            yields s1 ([rev16 X0 X0 b] ++ and_imm X0 X0 0xFFFF true) (bswap 2 (u16 (get_x s (reg_map dst))))) as Hr16.
  { intros b s1 Hs1 <-. by apply yields_rev16. }
  assert (forall s1, regs_wf s1 -> get_x s1 X0 = get_x s (reg_map dst) ->
            yields s1 [rev32 X0 X0] (bswap 4 (u32 (get_x s (reg_map dst))))) as Hr32.
  { intros s1 Hs1 <-. by apply yields_rev32. }
  destruct sf; cbn [width negb andb]; intros Hform Hb.
  - destruct (imm insn =? 16); [|destruct (imm insn =? 32); [|destruct (imm insn =? 64); [|done]]];
      intros <-%(inj Some); eexists; (split; [reflexivity|]).
    + apply (Hform ([rev16 X0 X0 true] ++ _)); [apply Hb; lia|apply Hr16].
    + apply Hform; [apply Hb; lia|done].
    + apply Hform; [apply Hb; lia|]. intros s1 Hs1 G. apply yields_put; [done|apply bswap_word; lia|].
      rewrite ex_rev64, G by (unfold X0; lia). by rewrite uwrap_get.
  - destruct (insn_is_x insn); cbn [negb andb].
    + destruct (imm insn =? 16); [|destruct (imm insn =? 32); [|done]];
        intros <-%(inj Some); eexists; (split; [reflexivity|]).
      * apply (Hform ([rev16 X0 X0 false] ++ _)); [apply Hb; lia|apply Hr16].
      * apply Hform; [apply Hb; lia|done].
    + destruct (imm insn =? 64) eqn:E64; [|destruct (imm insn =? 16); [|destruct (imm insn =? 32); [|done]]];
        intros <-%(inj Some).
      * rewrite (proj2 (Z.eqb_neq (imm insn) 16)), (proj2 (Z.eqb_neq (imm insn) 32)) by (apply Z.eqb_eq in E64; lia).
        by eexists.
      * eexists. split; [reflexivity|]. apply Hform; [apply uwrap_small; pose proof (uwrap_range 16 (get_x s (reg_map dst))); lia|].
        intros s1 Hs1 <-. by apply yields_low16.
      * eexists. split; [reflexivity|]. apply Hform; [apply uwrap_idem|]. intros s1 Hs1 G.
        apply yields_put; [done|apply (uwrap_word false)|]. by rewrite ex_mov, G by (unfold X0; lia).
Qed.

(** *** [emit_alu] *)

Lemma alu_sets s ws : regs_wf s -> alu_words insn sf = Some ws ->
  exists v, alu_result insn sf (get_x s (reg_map dst)) (operand s insn) = Some v /\ sets s ws dst v.
Proof.
  intros Hs. pose proof (get_x_range s (reg_map dst) Hs) as Hd. pose proof (operand_range s insn Hs) as Ho.
  destruct (decide (insn_op insn = BPF_END)) as [Ee|He].
  { unfold alu_words. rewrite Ee. by apply end_sets. }
  rewrite alu_result_math by done. set (v := uwrap w _).
  intros Hw. exists v. split; [done|]. revert Hw. unfold alu_words. cbn zeta.
  assert (uwrap w v = v) as Hv by apply uwrap_idem.
  destruct ((insn_op insn =? BPF_MOV) && (off insn =? 0)) eqn:Hmov.
  { apply andb_true_iff in Hmov as [Em%Z.eqb_eq E0%Z.eqb_eq]. intros <-%(inj Some).
    assert (v = uwrap w (operand s insn)) as ->; [|by apply mov_sets].
    unfold v. math Em. rewrite E0. apply uwrap_idem. }
  destruct (Z.eqb_spec (insn_op insn) BPF_NEG) as [En|_].
  { intros <-%(inj Some). apply load_dst_sets; [done|]. intros s1 Hs1 G. rewrite <- Hv.
    apply store_sets, yields_put; [done|apply uwrap_word|]. unfold neg_reg. rewrite ex_sub by (unfold X0; lia).
    change (get_x s1 31) with 0. rewrite G. assert (uwrap w 0 = 0) as -> by by destruct sf.
    unfold v. math En. by rewrite ?Z.sub_0_l. }
  destruct (Z.eqb_spec (insn_op insn) BPF_MOV) as [Em|_].
  { intros Hw. apply movsx_sets; [done|done| |done]. intros E0. by rewrite E0 in Hmov. }
  rewrite (proj2 (Z.eqb_neq _ _) He).
  destruct (negb (insn_is_x insn) && alu_noop insn (insn_op insn)) eqn:Hno.
  { apply andb_true_iff in Hno as [Hx%negb_true_iff Hno]. intros <-%(inj Some).
    assert (v = uwrap w (get_x s (reg_map dst))) as ->; [|by apply zero_extend_sets].
    unfold v, operand. rewrite Hx, uwrap_u64. by apply alu_noop_math. }
  destruct (Z.eqb_spec (insn_op insn) BPF_DIV) as [Ed|_]; [|destruct (Z.eqb_spec (insn_op insn) BPF_MOD) as [Em|_]].
  - intros <-%(inj Some). apply loads_sets; [done|]. intros s1 F1 G0 G1. pose proof F1 as (Hs1 & _ & Hf). unfold alu_div. cbn zeta.
    destruct (negb (insn_is_x insn) && (imm insn =? 0)) eqn:Hz.
    + apply andb_true_iff in Hz as [Hx%negb_true_iff Hi%Z.eqb_eq]. rewrite <- Hv. apply store_sets.
      unfold v, operand. rewrite Hx, Hi. math Ed. assert (uwrap w (u64 0) = 0) as -> by by destruct sf.
      cbv iota. change (0 =? 0) with true. cbv iota.
      apply yields_put; [done|apply uwrap_word|]. by rewrite run_mov_imm by (done || (unfold X0; lia)).
    + rewrite app_assoc, <- Hv. apply store_sets. apply (divisor_yields _ _ _ (operand s insn)); [done|done| |].
      { intros Hx. unfold operand. by rewrite Hx. }
      intros s2 Hs2 E0 E1. unfold v. rewrite <- E1, <- G0, <- E0. by apply div_yields.
  - intros <-%(inj Some). apply loads_sets; [done|]. intros s1 F1 G0 G1. pose proof F1 as (Hs1 & _ & Hf). unfold alu_mod. cbn zeta.
    destruct (negb (insn_is_x insn) && (imm insn =? 0)) eqn:Hz.
    + apply andb_true_iff in Hz as [Hx%negb_true_iff Hi%Z.eqb_eq].
      assert (v = uwrap w (get_x s1 (reg_map dst))) as ->; [|by apply zero_extend_sets].
      rewrite Hf by (pose proof (reg_map_range dst Hdst); lia). unfold v, operand. rewrite Hx, Hi.
      assert (uwrap w (u64 0) = 0) as -> by by destruct sf. math Em. apply uwrap_idem.
    + rewrite app_assoc, <- Hv. apply store_sets. apply (divisor_yields _ _ _ (operand s insn)); [done|done| |].
      { intros Hx. unfold operand. by rewrite Hx. }
      intros s2 Hs2 E0 E1. unfold v. rewrite <- E1, <- G0, <- E0. by apply mod_yields.
  - destruct (alu_body insn sf (insn_is_x insn)) as [body|] eqn:Hb; [|done]. cbn [mbind option_bind].
    intros <-%(inj Some). apply loads_sets; [done|]. intros s1 F1 G0 G1. pose proof F1 as (Hs1 & _ & Hf). rewrite <- Hv. apply store_sets.
    unfold v. rewrite <- G0. apply (alu_body_ok sf insn (insn_is_x insn)); [done|done| |done].
    intros Hx. unfold operand. by rewrite Hx.
Qed.
End Insn.

(** ** Comparisons *)

Section Compare.
Context (sf : bool).
Abbreviation w := (width sf).

Lemma get_x_flags s n z c v m : get_x (put_flags4 s n z c v) m = get_x s m.
Proof. done. Qed.

Lemma ex_cmp n m s : 0 <= n < 32 -> 0 <= m < 32 ->
  cpu_run [cmp_reg n m sf] s = sub_flags w (uwrap w (get_x s n)) (uwrap w (get_x s m)) s.
Proof. intros Hn Hm. eapply exec1; [apply (decode_cmp n m); lia|done]. Qed.
Lemma ex_tst n m s : 0 <= n < 32 -> 0 <= m < 32 ->
  cpu_run [tst_reg n m sf] s = and_flags w (Z.land (uwrap w (get_x s n)) (uwrap w (get_x s m))) s.
Proof. intros Hn Hm. eapply exec1; [apply (decode_tst n m); lia|done]. Qed.

Lemma frame_flags s n z c v : regs_wf s -> frame s (put_flags4 s n z c v).
Proof. intros Hs. by split_and!. Qed.

(** Comparing X0 with a constant is comparing with its value at the width. *)
Lemma cmp_imm_run s c : regs_wf s -> exists s1, frame s s1 /\ get_x s1 X0 = get_x s X0 /\
  cpu_run (cmp_imm X0 c sf) s = sub_flags w (uwrap w (get_x s X0)) (uwrap w c) s1.
Proof.
  intros Hs. unfold cmp_imm. destruct ((0 <=? c) && (c <=? 4095)) eqn:Hc.
  - zprops. exists s. split_and!; [by apply frame_refl|done|].
    assert (uwrap w c = c) as -> by (apply uwrap_small; destruct sf; cbn [width]; lia).
    eapply exec1; [apply (decode_cmpi X0); unfold X0; lia|done].
  - set (s1 := put_x s X2 (uwrap w c)).
    assert (frame s s1) as F by (apply frame_put; [done|unfold X2; lia|apply uwrap_word]).
    assert (get_x s1 X0 = get_x s X0) as G0 by (apply get_put_ne; unfold X0, X2; lia).
    exists s1. split_and!; [done|done|]. rewrite run_app, run_mov_imm by (done || (unfold X2; lia)).
    rewrite (uwrap_u64 sf c). fold s1. rewrite ex_cmp by (unfold X0, X2; lia).
    rewrite G0. unfold s1 at 1. by rewrite get_put_eq, uwrap_idem by (done || (unfold X2; lia)).
Qed.

(** The signed order, from the sign and the overflow of the difference. *)
Lemma signed_flags a b : 
  eqb (sval w (uwrap w (a - b)) <? 0) (negb (sval w a - sval w b =? sval w (uwrap w (a - b)))) = (sval w b <=? sval w a).
Proof.
  pose proof (width_pos sf) as Hw. pose proof (sval_range w a ltac:(lia)) as Ra. pose proof (sval_range w b ltac:(lia)) as Rb.
  set (x := sval w a) in *. set (y := sval w b) in *.
  assert (uwrap w (a - b) = uwrap w (x - y)) as ->.
  { rewrite <- uwrap_sub_l, <- uwrap_sub_r. unfold x, y. rewrite <- (uwrap_sval w a), <- (uwrap_sval w b) by lia.
    by rewrite uwrap_sub_l, uwrap_sub_r. }
  rewrite sval_uwrap. pose proof (sval_range w (x - y) ltac:(lia)) as Rd.
  assert (2 ^ w = 2 * 2 ^ (w - 1)) as Hp by (rewrite <- Z.pow_succ_r by lia; f_equal; lia).
  destruct (decide (- 2 ^ (w - 1) <= x - y < 2 ^ (w - 1))) as [Hr|Hr].
  - rewrite (sval_unique w (x - y) (x - y)) by (lia || done). rewrite Z.eqb_refl. cbn [negb].
    destruct (Z.ltb_spec (x - y) 0), (Z.leb_spec y x); try done; lia.
  - assert (exists k, (k = 1 \/ k = -1) /\ sval w (x - y) = x - y + k * 2 ^ w) as (k & Hk & E).
    { destruct (Z.ltb_spec (x - y) 0).
      - exists 1. split; [by left|]. apply sval_unique; [lia|lia|]. unfold uwrap. by rewrite Z_mod_plus_full.
      - exists (-1). split; [by right|]. apply sval_unique; [lia|lia|]. unfold uwrap. by rewrite Z_mod_plus_full. }
    rewrite E in *. destruct (Z.eqb_spec (x - y) (x - y + k * 2 ^ w)); [nia|]. cbn [negb].
    destruct (Z.ltb_spec (x - y + k * 2 ^ w) 0), (Z.leb_spec y x); try done; destruct Hk as [-> | ->]; lia.
Qed.

Lemma zero_diff a b : 0 <= a < 2 ^ w -> 0 <= b < 2 ^ w -> (uwrap w (a - b) =? 0) = (a =? b).
Proof.
  intros Ha Hb. destruct (Z.eqb_spec a b) as [->|Hne]; [rewrite Z.sub_diag; by destruct sf|].
  apply Z.eqb_neq. unfold uwrap. intros E. destruct (Z.ltb_spec (a - b) 0).
  - rewrite <- (Z_mod_plus_full _ 1), Z.mod_small in E by lia. lia.
  - rewrite Z.mod_small in E by lia. lia.
Qed.

(** What a condition code decides after a comparison. *)
Definition cmp_cond (op a b : Z) : option bool :=
  if op =? BPF_JEQ then Some (a =? b)
  else if op =? BPF_JGT then Some (b <? a)
  else if op =? BPF_JGE then Some (b <=? a)
  else if op =? BPF_JNE then Some (negb (a =? b))
  else if op =? BPF_JSGT then Some (sval w b <? sval w a)
  else if op =? BPF_JSGE then Some (sval w b <=? sval w a)
  else if op =? BPF_JLT then Some (a <? b)
  else if op =? BPF_JLE then Some (a <=? b)
  else if op =? BPF_JSLT then Some (sval w a <? sval w b)
  else if op =? BPF_JSLE then Some (sval w a <=? sval w b)
  else None.

Lemma cmp_decides op cc a b s : 0 <= a < 2 ^ w -> 0 <= b < 2 ^ w -> jmp_cc op = Some (cc, false) ->
  cmp_cond op a b = Some (cond_holds (sub_flags w a b s) cc).
Proof.
  intros Ha Hb. unfold jmp_cc, cmp_cond.
  assert (sval w a = sval w b -> a = b) as Hinj.
  { intros E. pose proof (width_pos sf). rewrite <- (uwrap_small w a), <- (uwrap_small w b) by done.
    rewrite <- (uwrap_sval w a), <- (uwrap_sval w b) by lia. by rewrite E. }
  pose proof (signed_flags a b) as Hs. pose proof (zero_diff a b Ha Hb) as Hz.
  assert (zf (sub_flags w a b s) = (a =? b)) as Ez by exact Hz.
  assert (cf (sub_flags w a b s) = (b <=? a)) as Ec by done.
  assert (eqb (nf (sub_flags w a b s)) (vf (sub_flags w a b s)) = (sval w b <=? sval w a)) as Es.
  { unfold sub_flags. cbn [nf vf put_flags4]. by rewrite <- Hs. }
  assert (forall x, cond_holds x EQ = zf x) as C1 by done.
  assert (forall x, cond_holds x NE = negb (zf x)) as C2 by done.
  assert (forall x, cond_holds x CS = cf x) as C3 by done.
  assert (forall x, cond_holds x CC = negb (cf x)) as C4 by done.
  assert (forall x, cond_holds x HI = cf x && negb (zf x)) as C5 by done.
  assert (forall x, cond_holds x LS = negb (cf x && negb (zf x))) as C6 by done.
  assert (forall x, cond_holds x GE = eqb (nf x) (vf x)) as C7 by done.
  assert (forall x, cond_holds x LT = negb (eqb (nf x) (vf x))) as C8 by done.
  assert (forall x, cond_holds x GT = eqb (nf x) (vf x) && negb (zf x)) as C9 by done.
  assert (forall x, cond_holds x LE = negb (eqb (nf x) (vf x) && negb (zf x))) as C10 by done.
  assert (forall x y, (x <? y) = negb (y <=? x)) as Hlt by (intros x y; destruct (Z.ltb_spec x y), (Z.leb_spec y x); done || lia).
  assert (forall x y, (x <=? y) = negb ((y <=? x) && negb (y =? x))) as Hle
    by (intros x y; destruct (Z.leb_spec x y), (Z.leb_spec y x), (Z.eqb_spec y x); done || lia).
  assert ((a =? b) = (sval w a =? sval w b)) as Heq.
  { destruct (Z.eqb_spec a b) as [->|Hne]; [by rewrite Z.eqb_refl|]. symmetry. apply Z.eqb_neq. auto. }
  repeat match goal with
  | |- (if op =? ?c then _ else _) = Some _ -> _ => destruct (Z.eqb_spec op c) as [->|_]
  end; try done; intros [= <-]; rewrite ?C1, ?C2, ?C3, ?C4, ?C5, ?C6, ?C7, ?C8, ?C9, ?C10, ?Ez, ?Ec, ?Es;
    cbn -[sval uwrap Z.ltb Z.leb Z.eqb width]; try done; f_equal.
  all: clear - Hlt Hle Heq; rewrite ?Hlt; try done; rewrite ?(Hle a b), ?(Hle (sval w a) (sval w b)), ?Heq, ?negb_involutive; try done.
  all: by rewrite (Z.eqb_sym (sval w b) (sval w a)) || by rewrite (Z.eqb_sym b a), Heq.
Qed.

Lemma tst_decides x s : cond_holds (and_flags w x s) NE = nz x.
Proof. unfold nz. change (cond_holds (and_flags w x s) NE) with (negb (zf (and_flags w x s))). done. Qed.

End Compare.

(** The condition the interpreter evaluates. *)
Definition jmp_taken (insn : bpf_insn) (is_64 : bool) (d src : Z) : option bool :=
  if is_64 then jmp_cond (insn_op insn) d src else jmp32_cond (insn_op insn) (u32 d) (u32 src).

(** Its two parts: comparisons at the width, and the bit test. *)
Lemma jmp_taken_cmp insn sf d src : insn_op insn <> BPF_JSET -> 0 <= d < 2 ^ 64 -> 0 <= src < 2 ^ 64 ->
  jmp_taken insn sf d src = cmp_cond sf (insn_op insn) (uwrap (width sf) d) (uwrap (width sf) src).
Proof.
  intros Hne Hd Hs. unfold jmp_taken, jmp_cond, jmp32_cond, cmp_cond.
  rewrite (proj2 (Z.eqb_neq _ BPF_JSET)) by done. destruct sf; cbn [width]; [|done].
  by rewrite (uwrap_small 64 d), (uwrap_small 64 src) by done.
Qed.
Lemma jmp_taken_set insn sf d src : insn_op insn = BPF_JSET -> 0 <= d < 2 ^ 64 -> 0 <= src < 2 ^ 64 ->
  jmp_taken insn sf d src = Some (nz (Z.land (uwrap (width sf) d) (uwrap (width sf) src))).
Proof.
  intros E Hd Hs. unfold jmp_taken, jmp_cond, jmp32_cond. rewrite E. destruct sf; cbn [width]; [|done].
  by rewrite (uwrap_small 64 d), (uwrap_small 64 src) by done.
Qed.

Section Jump.
Context (insn : bpf_insn) (sf : bool) (Hdst : 0 <= dst_reg insn <= 10) (Hsrc : 0 <= src_reg insn <= 10)
  (Himm : - 2 ^ 31 <= imm insn < 2 ^ 31).
Abbreviation w := (width sf).

(** Immediate bit tests of the 64-bit class see the zero-extended immediate. *)
Definition jset_sign_lost : Prop :=
  insn_op insn = BPF_JSET /\ insn_is_x insn = false /\ sf = true /\ imm insn < 0.

Lemma after_load_dst s ws (Q : a64_regs -> Prop) : regs_wf s ->
  (forall s1, frame s s1 -> get_x s1 X0 = get_x s (reg_map (dst_reg insn)) -> Q (cpu_run ws s1)) ->
  Q (cpu_run (load_bpf (dst_reg insn) X0 ++ ws) s).
Proof.
  intros Hs Hk. rewrite run_app, load_bpf_run by (done || (unfold X0; lia)). apply Hk.
  - apply frame_put; [done|unfold X0; lia|by apply get_x_range].
  - apply get_put_eq; [done|unfold X0; lia].
Qed.

(** The second operand in X1. *)
Lemma src_in_x1 s c : regs_wf s ->
  exists s1, cpu_run (if insn_is_x insn then load_bpf (src_reg insn) X1 else mov_imm X1 c sf) s = s1 /\
    frame s s1 /\ get_x s1 X0 = get_x s X0 /\
    uwrap w (get_x s1 X1) = uwrap w (if insn_is_x insn then get_x s (reg_map (src_reg insn)) else c).
Proof.
  intros Hs. eexists. split; [done|]. destruct (insn_is_x insn).
  - rewrite load_bpf_run by (done || (unfold X1; lia)). split_and!.
    + apply frame_put; [done|unfold X1; lia|by apply get_x_range].
    + apply get_put_ne; unfold X0, X1; lia.
    + by rewrite get_put_eq by (done || (unfold X1; lia)).
  - rewrite run_mov_imm by (done || (unfold X1; lia)). split_and!.
    + apply frame_put; [done|unfold X1; lia|apply uwrap_word].
    + apply get_put_ne; unfold X0, X1; lia.
    + by rewrite get_put_eq, uwrap_idem by (done || (unfold X1; lia)).
Qed.

Lemma operands_decide cc ws s : regs_wf s -> ~ jset_sign_lost -> jmp_load_operands insn sf = Some (cc, ws) ->
  frame s (cpu_run ws s) /\
  jmp_taken insn sf (get_x s (reg_map (dst_reg insn))) (operand s insn) = Some (cond_holds (cpu_run ws s) cc).
Proof.
  intros Hs Hj. unfold jmp_load_operands. cbn zeta. destruct (_ && _); [done|]. destruct (_ && _); [done|].
  destruct (jmp_cc (insn_op insn)) as [[cc' t]|] eqn:Hcc; [|done]. cbn [mbind option_bind].
  intros H%(inj Some). injection H as -> <-.
  pose proof (get_x_range s (reg_map (dst_reg insn)) Hs) as Hd. pose proof (operand_range s insn Hs) as Ho.
  apply (after_load_dst s _ (fun s' => frame s s' /\ _ = Some (cond_holds s' cc))); [done|]. intros s1 F1 G0.
  assert (get_x s1 (reg_map (src_reg insn)) = get_x s (reg_map (src_reg insn))) as Gs
    by (apply F1; pose proof (reg_map_range _ Hsrc); lia).
  destruct t.
  - assert (insn_op insn = BPF_JSET /\ cc = NE) as [E ->].
    { revert Hcc. unfold jmp_cc. repeat match goal with |- (if ?b then _ else _) = Some _ -> _ => destruct b eqn:? end; try done.
      intros [= <-]. split; [by apply Z.eqb_eq|done]. }
    rewrite run_app. destruct (src_in_x1 s1 (u32 (imm insn)) (proj1 F1)) as (s2 & -> & F2 & H0 & H1).
    rewrite ex_tst by (unfold X0, X1; lia). split; [eapply frame_trans; [exact F1|]; eapply frame_trans; [exact F2|apply frame_flags, F2]|].
    rewrite tst_decides, jmp_taken_set by done. rewrite H0, G0, H1, Gs. do 3 f_equal.
    unfold operand. destruct (insn_is_x insn) eqn:Hx; [done|]. rewrite (uwrap_u64 sf). destruct sf eqn:Hsf; cbn [width].
    + unfold jset_sign_lost in Hj. destruct (decide (imm insn < 0)); [tauto|].
      by rewrite (uwrap_small 32) by lia.
    + by rewrite uwrap_idem.
  - assert (insn_op insn <> BPF_JSET) as Hne by (intros E; by rewrite E in Hcc).
    rewrite jmp_taken_cmp by done. destruct (insn_is_x insn) eqn:Hx.
    + rewrite run_app, load_bpf_run by (apply F1 || done || (unfold X1; lia)). set (s2 := put_x s1 X1 _).
      assert (frame s1 s2) as F2 by (apply frame_put; [apply F1|unfold X1; lia|apply get_x_range, F1]).
      rewrite ex_cmp by (unfold X0, X1; lia).
      split; [eapply frame_trans; [exact F1|]; eapply frame_trans; [exact F2|apply frame_flags, F2]|].
      rewrite (cmp_decides sf _ cc _ _ s2 (uwrap_range_w sf _) (uwrap_range_w sf _) Hcc). do 3 f_equal.
      * unfold s2. rewrite get_put_ne by (unfold X0, X1; lia). by rewrite G0.
      * unfold s2, operand. rewrite Hx, get_put_eq by (apply F1 || (unfold X1; lia)). by rewrite Gs.
    + destruct (cmp_imm_run sf s1 (imm insn) (proj1 F1)) as (s2 & F2 & G2 & ->).
      split; [eapply frame_trans; [exact F1|]; eapply frame_trans; [exact F2|apply frame_flags, F2]|].
      rewrite (cmp_decides sf _ cc _ _ s2 (uwrap_range_w sf _) (uwrap_range_w sf _) Hcc). unfold operand.
      by rewrite Hx, (uwrap_u64 sf), G0.
Qed.
End Jump.

End Alu.

(** ** The theorems *)

(** The processor holds the guest registers. *)
Definition holds (s : a64_regs) (R : list Z) : Prop :=
  length R = 11%nat /\ forall r, 0 <= r <= 10 -> R !!! Z.to_nat r = get_x s (reg_map r).

Lemma sets_holds {cpu : A64Cpu} s ws dst v R : 0 <= dst <= 10 -> holds s R -> sets s ws dst v ->
  holds (cpu_run ws s) (<[Z.to_nat dst := v]> R).
Proof.
  intros Hd [Hl Hr] (_ & _ & Hv & Hf). split; [by rewrite length_insert|]. intros r Hr'.
  destruct (decide (r = dst)) as [->|Hne].
  - rewrite Hv. apply list_lookup_total_insert_eq. lia.
  - rewrite list_lookup_total_insert_ne by lia. rewrite Hr by done. symmetry.
    pose proof (reg_map_range r Hr'). apply Hf; [lia|]. intros E. by apply Hne, reg_map_inj.
Qed.

(** C34: The arithmetic code of the AArch64 backend simulates the interpreter: for
    every instruction [emit_alu] accepts, of either width, with a register or an
    immediate operand (arithmetic, logic, shifts, multiplication, division and
    remainder signed or not and by zero, sign-extending moves, byte swaps, and the
    immediate operations it skips), the interpreter executes the instruction, and
    running the emitted words on the processor gives the guest registers of the
    interpreter's result; the vm pointer and the stack pointer stay. *)
Theorem emit_alu_simulates {cpu : A64Cpu} {S} (v : vm S) insn is_64 e e' s :
  regs_wf s -> holds s (reg v) -> 0 <= dst_reg insn < 10 -> 0 <= src_reg insn <= 10 ->
  emit_alu insn is_64 e = Some e' ->
  exists ws v', buf_ e' = buf_ e ++ ws /\ (if is_64 then alu64 insn else alu insn) v = Ok true v' /\
    let s' := cpu_run ws s in
    regs_wf s' /\ holds s' (reg v') /\ get_x s' X28 = get_x s X28 /\ sp s' = sp s.
Proof.
  intros Hs Hh Hd Hr. unfold emit_alu. destruct (alu_words insn is_64) as [ws|] eqn:Hw; [|done].
  cbn [mbind option_bind]. intros [= <-].
  destruct (alu_sets insn is_64 ltac:(lia) Hr s ws Hs Hw) as (x & Hx & Hset).
  exists ws, (set_reg (<[Z.to_nat (dst_reg insn) := x]> (reg v)) v). split; [done|]. split.
  - pose proof Hh as [_ Hh']. assert (10 <=? dst_reg insn = false) as Hlt by (apply Z.leb_gt; lia).
    unfold alu_result, operand in Hx. unfold alu64, alu. rewrite Hlt.
    destruct is_64; unfold bind, ret, r, gets; destruct (insn_is_x insn); rewrite ?Hh' by lia;
      rewrite ?Hx; try done; (rewrite (uwrap_uwrap 32 64) in Hx by lia); by rewrite Hx.
  - pose proof (sets_holds s ws (dst_reg insn) x (reg v) ltac:(lia) Hh Hset).
    destruct Hset as (H1 & H2 & H3 & H4). cbn zeta. split_and!; [done|done| |done].
    pose proof (reg_map_range (dst_reg insn) ltac:(lia)). apply H4; unfold X28; lia.
Qed.


(** The 64-bit [BPF_JSET] with a negative immediate: the interpreter extends the
    immediate with its sign, the emitted code with zeros. *)
Lemma jset_negative_differs :
  let insn := mkinsn 0x45 1 0 5 (-1) in
  let s := mkregs (<[10%nat := 2 ^ 32]> (replicate 31 0)) 0 false false false false in
  exists cc ws, jmp_load_operands insn true = Some (cc, ws) /\
    jmp_taken insn true (get_x s (reg_map 1)) (operand s insn) = Some true /\
    cond_holds (cpu_run (cpu := reference_cpu) ws s) cc = false.
Proof. do 2 eexists. split; [reflexivity|]. split; vm_compute; reflexivity. Qed.

Definition demo_regs : a64_regs := mkregs (<[9%nat := 7]> (replicate 31 0)) 0 false false false false.
Lemma demo_regs_wf : regs_wf demo_regs.
Proof. split; [done|]. repeat constructor; done. Qed.

Lemma emit_alu_simulates_witness :
  let insn := mkinsn 0x37 0 0 1 (-2) in
  let v := set_reg [7; 0; 0; 0; 0; 0; 0; 0; 0; 0; 0] demo_vm in
  exists ws v', alu64 insn v = Ok true v' /\ get_x (cpu_run (cpu := reference_cpu) ws demo_regs) X9 = 2 ^ 64 - 3.
Proof.
  cbn zeta. set (insn := mkinsn 0x37 0 0 1 (-2)). set (v := set_reg _ _).
  assert (holds demo_regs (reg v)) as Hh.
  { split; [reflexivity|]. intros r Hr. assert (exists n, r = Z.of_nat n /\ (n <= 10)%nat) as (n & -> & Hn) by (exists (Z.to_nat r); lia).
    do 11 (destruct n as [|n]; [reflexivity|]). lia. }
  destruct (emit_alu_simulates (cpu := reference_cpu) v insn true (fresh false false) _ demo_regs demo_regs_wf Hh
              ltac:(cbn; lia) ltac:(cbn; lia) eq_refl) as (ws & v' & _ & Hv & _ & [_ Hh'] & _).
  exists ws, v'. split; [exact Hv|]. specialize (Hh' 0 ltac:(lia)). change (reg_map 0) with X9 in Hh'.
  rewrite <- Hh'. unfold insn, v, alu64 in Hv. vm_compute in Hv. injection Hv as <-. reflexivity.
Defined.

