(* ===== verification/Rsp.v ===== *)
(** * The GDB remote serial protocol: numbers and packets (gdb_server.cpp)

    Hexadecimal numbers in both directions, the [strtoull] and [snprintf] the
    server uses on them, and the framing of packets: [$data#checksum].  A
    character is a byte, a [std::string] the list of its bytes.  The theorems
    are the round trips: what the server writes is read back as it was meant,
    and a packet is received as it was sent, whatever stands around it. *)

From Stdlib Require Import Lia Ascii String.
From stdpp Require Import base numbers list gmap strings option.
From S2P Require Import Prelude Bytes.

Open Scope Z_scope.

(** ** Characters and strings *)

Definition str (s : string) : list Z := (fun c => Z.of_N (N_of_ascii c)) <$> list_ascii_of_string s.

Definition chr (c : ascii) : Z := Z.of_N (N_of_ascii c).

(** [std::string::find(char)], as what stands before and after the match. *)
Fixpoint split_at (c : Z) (l : list Z) : option (list Z * list Z) :=
  match l with
  | [] => None
  | x :: t => if x =? c then Some ([], t)
              else match split_at c t with Some (a, b) => Some (x :: a, b) | None => None end
  end.

(** [std::string::rfind(prefix, 0) == 0]. *)
Fixpoint starts (p l : list Z) : bool :=
  match p, l with
  | [], _ => true
  | x :: p', y :: l' => (x =? y) && starts p' l'
  | _, [] => false
  end.

(** [find(s) != npos]. *)
Fixpoint contains (p l : list Z) : bool :=
  starts p l || match l with [] => false | _ :: t => contains p t end.

(** The pieces between the characters [c]. *)
Fixpoint pieces (c : Z) (l : list Z) : list (list Z) :=
  match l with
  | [] => [[]]
  | x :: t => if x =? c then [] :: pieces c t
              else match pieces c t with [] => [[x]] | p :: ps => (x :: p) :: ps end
  end.

Definition str_eqb (a b : list Z) : bool := bool_decide (a = b).

(** ** Hexadecimal *)

(** [hex_val]. *)
Definition hex_val (c : Z) : Z :=
  if (48 <=? c) && (c <=? 57) then c - 48
  else if (97 <=? c) && (c <=? 102) then c - 97 + 10
  else if (65 <=? c) && (c <=? 70) then c - 65 + 10
  else -1.

Definition hex_char (d : Z) : Z := if d <? 10 then 48 + d else 87 + d.

(** [to_hex2]. *)
Definition to_hex2 (v : Z) : list Z := [hex_char (Z.land (Z.shiftr v 4) 0xF); hex_char (Z.land v 0xF)].

(** [reg_to_hex]: eight bytes, the lowest first. *)
Definition reg_to_hex (v : Z) : list Z :=
  (seq 0 8) ≫= fun i => to_hex2 (Z.land (Z.shiftr v (8 * Z.of_nat i)) 0xFF).

(** [hex_to_reg]: byte [i] on; [s\[s.size()\]] is the terminating 0. *)
Fixpoint hex_to_reg_from (n : nat) (i : Z) (s : list Z) : Z :=
  match n, s with
  | Datatypes.S n', h :: t =>
    let hi := hex_val h in
    let lo := hex_val (default 0 (head t)) in
    if (hi <? 0) || (lo <? 0) then 0
    else Z.lor (Z.shiftl (Z.lor (Z.shiftl hi 4) lo) (8 * i)) (hex_to_reg_from n' (i + 1) (tail t))
  | _, _ => 0
  end.
Definition hex_to_reg (s : list Z) : Z := hex_to_reg_from 8 0 s.

(** [hex_encode]. *)
Definition hex_encode (data : list Z) : list Z := data ≫= to_hex2.

(** [hex_decode]: whether it succeeds, and the bytes it has written. *)
Fixpoint hex_decode_loop (n : nat) (s : list Z) : bool * list Z :=
  match n with
  | O => (true, [])
  | Datatypes.S n' =>
    match s with
    | h :: l :: t =>
      let hi := hex_val h in
      let lo := hex_val l in
      if (hi <? 0) || (lo <? 0) then (false, [])
      else let '(ok, bs) := hex_decode_loop n' t in (ok, Z.lor (Z.shiftl hi 4) lo :: bs)
    | _ => (false, [])
    end
  end.
Definition hex_decode (s : list Z) (len : Z) : bool * list Z :=
  if Z.of_nat (length s) <? u64 (len * 2) then (false, []) else hex_decode_loop (Z.to_nat len) s.

(** [snprintf("%lx")]. *)
Fixpoint hexd_loop (n : nat) (z : Z) : list Z :=
  match n with
  | O => []
  | Datatypes.S n' => if z <? 16 then [hex_char z] else hexd_loop n' (z / 16) ++ [hex_char (z mod 16)]
  end.
Definition hexd (z : Z) : list Z := hexd_loop 16 z.

(** [strtoull(s, &endp, 16)]: the value and what [endp] points to. *)
Definition is_space (c : Z) : bool := ((9 <=? c) && (c <=? 13)) || (c =? 32).
Fixpoint skip_space (l : list Z) : list Z :=
  match l with c :: t => if is_space c then skip_space t else l | [] => [] end.
Fixpoint hex_digits (l : list Z) : list Z * list Z :=
  match l with
  | c :: t => if 0 <=? hex_val c then let '(ds, r) := hex_digits t in (hex_val c :: ds, r) else ([], l)
  | [] => ([], [])
  end.
Definition digits_value (ds : list Z) : Z := fold_left (fun a d => 16 * a + d) ds 0.
Definition sign_of (l : list Z) : bool * list Z :=
  match l with
  | c :: t => if c =? 45 then (true, t) else if c =? 43 then (false, t) else (false, l)
  | [] => (false, [])
  end.
Definition skip_0x (l : list Z) : list Z :=
  match l with
  | z :: x :: d :: t => if (z =? 48) && ((x =? 120) || (x =? 88)) && (0 <=? hex_val d) then d :: t else l
  | _ => l
  end.
Definition strtoull16 (l : list Z) : Z * list Z :=
  let '(neg, s1) := sign_of (skip_space l) in
  let '(ds, rest) := hex_digits (skip_0x s1) in
  match ds with
  | [] => (0, l)
  | _ => let v := digits_value ds in
         ((if 2 ^ 64 <=? v then 2 ^ 64 - 1 else if neg then u64 (- v) else v), rest)
  end.
Definition strtoull (l : list Z) : Z := (strtoull16 l).1.

(** ** Packets *)

Definition checksum (data : list Z) : Z := u8 (fold_left Z.add data 0).

(** What [send_packet] writes. *)
Definition frame (payload : list Z) : list Z :=
  str "$" ++ payload ++ str "#" ++ to_hex2 (checksum payload).

(** [recv_packet] on the bytes that have arrived: the data, the acknowledgement
    it sends, and the bytes left; [None] when the stream ends before. *)
Definition recv_packet (no_ack : bool) (input : list Z) : option (list Z * list Z * list Z) :=
  match split_at 36 input with
  | None => None
  | Some (_, l) =>
    match split_at 35 l with
    | Some (data, c0 :: c1 :: rest) =>
      let hi := hex_val c0 in
      let lo := hex_val c1 in
      let bad := (hi <? 0) || (lo <? 0) || negb (u8 (Z.lor (Z.shiftl hi 4) lo) =? checksum data) in
      Some (data, (if no_ack then [] else if bad then str "-" else str "+"), rest)
    | _ => None
    end
  end.

(** ** Facts on digits *)

(** A property of all the numbers below a small bound, by computation. *)
Lemma all_below (n : nat) (P : Z -> bool) :
  forallb (fun k => P (Z.of_nat k)) (seq 0 n) = true -> forall z, 0 <= z < Z.of_nat n -> P z = true.
Proof.
  intros Hall z Hz. rewrite List.forallb_forall in Hall.
  rewrite <- (Z2Nat.id z) by lia. apply Hall, in_seq. lia.
Qed.

Lemma hex_val_char d : 0 <= d < 16 -> hex_val (hex_char d) = d.
Proof.
  intros Hd. apply Z.eqb_eq. revert d Hd.
  exact (all_below 16 (fun d => hex_val (hex_char d) =? d) eq_refl).
Qed.

Lemma hex_encode_cons b l : hex_encode (b :: l) = to_hex2 b ++ hex_encode l.
Proof. done. Qed.

(** A lower-case digit. *)
Definition is_hexc (c : Z) : Prop := 48 <= c <= 57 \/ 97 <= c <= 102.

Lemma hex_char_is d : 0 <= d < 16 -> is_hexc (hex_char d).
Proof. intros Hd. unfold hex_char, is_hexc. case_match; lia. Qed.

Lemma to_hex2_eq v : 0 <= v < 256 -> to_hex2 v = [hex_char (v / 16); hex_char (v mod 16)].
Proof.
  intros Hv. unfold to_hex2. rewrite Z.shiftr_div_pow2 by lia.
  change 0xF with (2 ^ 4 - 1). rewrite !land_mask by lia. change (2 ^ 4) with 16.
  by rewrite (Z.mod_small (v / 16)) by (Z.to_euclidean_division_equations; lia).
Qed.

(** The byte two digits stand for. *)
Lemma hex2_value v : is_byte v ->
  Z.lor (Z.shiftl (hex_val (hex_char (v / 16))) 4) (hex_val (hex_char (v mod 16))) = v /\
  (hex_val (hex_char (v / 16)) <? 0) = false /\ (hex_val (hex_char (v mod 16)) <? 0) = false.
Proof.
  unfold is_byte. intros Hv.
  rewrite !hex_val_char by (Z.to_euclidean_division_equations; lia).
  rewrite Z.lor_comm, (lor_shiftl_add (v mod 16) (v / 16) 4) by (Z.to_euclidean_division_equations; lia).
  change (2 ^ 4) with 16. Z.to_euclidean_division_equations; lia.
Qed.

Lemma to_hex2_hexc v : Forall is_hexc (to_hex2 v).
Proof.
  unfold to_hex2. change 0xF with (2 ^ 4 - 1). rewrite !land_mask by lia. change (2 ^ 4) with 16.
  apply Forall_cons_2; [|apply Forall_cons_2; [|constructor]]; apply hex_char_is; Z.to_euclidean_division_equations; lia.
Qed.

Lemma hex_encode_hexc l : Forall is_hexc (hex_encode l).
Proof.
  induction l as [|b l IH]; [constructor|].
  rewrite hex_encode_cons. apply Forall_app. split; [apply to_hex2_hexc|done].
Qed.

Lemma reg_to_hex_hexc v : Forall is_hexc (reg_to_hex v).
Proof.
  unfold reg_to_hex. apply list.Forall_forall. intros c (i & Hc & _)%list_elem_of_bind.
  by eapply list.Forall_forall in Hc; [|apply to_hex2_hexc].
Qed.

Lemma hexd_hexc n z : 0 <= z -> Forall is_hexc (hexd_loop n z).
Proof.
  revert z. induction n as [|n IH]; intros z Hz; [constructor|]. cbn. case_match.
  - apply Forall_cons_2; [|constructor]. apply hex_char_is. lia.
  - apply Forall_app. split; [apply IH; Z.to_euclidean_division_equations; lia|].
    apply Forall_cons_2; [|constructor]. apply hex_char_is. Z.to_euclidean_division_equations; lia.
Qed.

(** ** Round trips of numbers *)

Lemma hex_decode_encode l rest : Forall is_byte l ->
  hex_decode_loop (length l) (hex_encode l ++ rest) = (true, l).
Proof.
  induction 1 as [|b l Hb Hl IH]; [done|].
  rewrite hex_encode_cons, to_hex2_eq by done.
  destruct (hex2_value b Hb) as (Hv & Hh & Hlo).
  cbn [app hex_decode_loop length]. rewrite Hh, Hlo, Hv. cbn [orb]. by rewrite IH.
Qed.

(** The bytes of a register, and back. *)
Lemma hex_to_reg_bytes n i l rest : (length l <= n)%nat -> Forall is_byte l -> 0 <= i ->
  (length l = n \/ rest = []) ->
  hex_to_reg_from n i (hex_encode l ++ rest) = Z.shiftl (le_value l) (8 * i).
Proof.
  revert i l. induction n as [|n IH]; intros i l Hl Hb Hi Hr.
  - destruct l; [|cbn in Hl; lia]. by rewrite Z.shiftl_0_l.
  - destruct l as [|b l].
    { destruct Hr as [Hr| ->]; [done|]. by rewrite Z.shiftl_0_l. }
    apply list.Forall_cons in Hb as [Hb Hbs]. rewrite hex_encode_cons, to_hex2_eq by done.
    destruct (hex2_value b Hb) as (Hv & Hh & Hlo).
    cbn [app hex_to_reg_from head tail]. unfold default, id. rewrite Hh, Hlo, Hv. cbn [orb].
    cbn [length] in Hl.
    rewrite IH; [|lia|done|lia|destruct Hr as [Hr| ->]; [cbn in Hr; left; lia|by right]].
    cbn [le_value foldr]. fold (le_value l). pose proof (le_value_range l Hbs) as Hlv. unfold is_byte in Hb.
    replace (8 * (i + 1)) with (8 + 8 * i) by lia.
    rewrite <- (Z.shiftl_shiftl (le_value l) 8) by lia. rewrite <- Z.shiftl_lor.
    f_equal. rewrite (lor_shiftl_add b (le_value l) 8) by lia. lia.
Qed.

Lemma reg_to_hex_bytes v : reg_to_hex v = hex_encode (le_bytes 8 v).
Proof.
  unfold reg_to_hex, hex_encode. cbn [seq le_bytes].
  assert (forall k, 0 <= k -> Z.land (Z.shiftr v (8 * k)) 0xFF = (v / 256 ^ k) mod 256) as Hk.
  { intros k Hk. change 0xFF with (2 ^ 8 - 1). rewrite land_mask, Z.shiftr_div_pow2 by lia.
    by rewrite Z.pow_mul_r by lia. }
  cbn [mbind list_bind]. rewrite !Hk by lia. rewrite !Z.div_div by lia.
  repeat match goal with
  | |- context [v / ?a] =>
    lazymatch a with
    | Zpos _ => fail
    | _ => let x := eval vm_compute in a in change a with x
    end
  end.
  by rewrite Z.div_1_r.
Qed.

Lemma hex_to_reg_to_hex v rest : hex_to_reg (reg_to_hex v ++ rest) = u64 v.
Proof.
  unfold hex_to_reg. rewrite reg_to_hex_bytes.
  rewrite hex_to_reg_bytes; [|by rewrite le_bytes_length|apply le_bytes_is_byte|lia|left; apply le_bytes_length].
  by rewrite Z.shiftl_0_r, le_value_bytes.
Qed.

(** The digits of a number, the highest first. *)
Fixpoint digits (n : nat) (z : Z) : list Z :=
  match n with
  | O => []
  | Datatypes.S n' => if z <? 16 then [z] else digits n' (z / 16) ++ [z mod 16]
  end.

Lemma hexd_digits n z : hexd_loop n z = hex_char <$> digits n z.
Proof.
  revert z. induction n as [|n IH]; intros z; [done|]. cbn. case_match; [done|].
  by rewrite fmap_app, IH.
Qed.

Lemma digits_range n z : 0 <= z -> Forall (fun d => 0 <= d < 16) (digits n z).
Proof.
  revert z. induction n as [|n IH]; intros z Hz; [constructor|]. cbn. case_match.
  - constructor; [lia|constructor].
  - apply Forall_app. split; [apply IH; Z.to_euclidean_division_equations; lia|].
    constructor; [Z.to_euclidean_division_equations; lia|constructor].
Qed.

Lemma digits_value_digits n z : 0 <= z < 16 ^ Z.of_nat n -> digits_value (digits n z) = z.
Proof.
  revert z. induction n as [|n IH]; intros z Hz; [cbn in *; lia|].
  rewrite Nat2Z.inj_succ, Z.pow_succ_r in Hz by lia. cbn [digits]. case_match eqn:Hlt; [done|].
  unfold digits_value in *. rewrite fold_left_app, IH; [cbn|]; Z.to_euclidean_division_equations; lia.
Qed.

Lemma digits_ne n z : (0 < n)%nat -> digits n z <> [].
Proof. destruct n; [lia|]. cbn. case_match; [done|]. intros _ []%app_eq_nil. done. Qed.

(** What may follow a number in a packet. *)
Definition stops (rest : list Z) : Prop :=
  match rest with [] => True | c :: _ => hex_val c < 0 /\ c <> 120 /\ c <> 88 end.

Lemma hex_digits_fmap ds rest : Forall (fun d => 0 <= d < 16) ds -> stops rest ->
  hex_digits ((hex_char <$> ds) ++ rest) = (ds, rest).
Proof.
  intros Hds Hr. induction Hds as [|d ds Hd Hds IH].
  - destruct rest as [|c t]; [done|]. cbn. destruct Hr as (Hc & _).
    destruct (Z.leb_spec 0 (hex_val c)); [lia|done].
  - cbn [fmap list_fmap app hex_digits]. rewrite hex_val_char by done.
    destruct (Z.leb_spec 0 d); [|lia]. change (list_fmap Z Z hex_char ds) with (hex_char <$> ds). by rewrite IH.
Qed.

(** A number that begins with a digit has neither blanks nor a sign nor [0x]. *)
Lemma plain_number c l rest : is_hexc c -> Forall is_hexc l -> stops rest ->
  skip_0x (sign_of (skip_space ((c :: l) ++ rest))).2 = (c :: l) ++ rest /\
  (sign_of (skip_space ((c :: l) ++ rest))).1 = false.
Proof.
  intros Hc Hl Hr. assert (skip_space ((c :: l) ++ rest) = (c :: l) ++ rest) as ->.
  { cbn. assert (is_space c = false) as ->; [|done]. unfold is_space, is_hexc in *. lia. }
  cbn [app sign_of].
  destruct (Z.eqb_spec c 45); [unfold is_hexc in Hc; lia|].
  destruct (Z.eqb_spec c 43); [unfold is_hexc in Hc; lia|]. split; [|done].
  assert (match l ++ rest with x :: _ => x <> 120 /\ x <> 88 | [] => True end) as Hx.
  { destruct l as [|x l]; cbn.
    - destruct rest; [done|]. by destruct Hr.
    - inversion Hl as [|? ? Hx]; subst. unfold is_hexc in Hx. lia. }
  cbn [snd skip_0x]. destruct (l ++ rest) as [|x [|d t]]; [done|done|].
  destruct (Z.eqb_spec x 120); [tauto|]. destruct (Z.eqb_spec x 88); [tauto|].
  cbn [orb]. by rewrite andb_false_r.
Qed.

Lemma strtoull16_hexd z rest : in_u64 z -> stops rest -> strtoull16 (hexd z ++ rest) = (z, rest).
Proof.
  unfold in_u64. intros Hz Hr. unfold hexd. rewrite hexd_digits.
  pose proof (digits_range 16 z (proj1 Hz)) as Hd.
  assert (digits_value (digits 16 z) = z) as Hv by (apply digits_value_digits; cbn; lia).
  destruct (digits 16 z) as [|d ds] eqn:Hds; [by apply digits_ne in Hds; [|lia]|].
  assert (Forall is_hexc (hex_char <$> d :: ds)) as Hx.
  { apply list.Forall_fmap. eapply list.Forall_impl; [exact Hd|]. intros x Hx. by apply hex_char_is. }
  rewrite fmap_cons in *. apply list.Forall_cons in Hx as [Hc Hl].
  destruct (plain_number _ _ rest Hc Hl Hr) as [H0 Hs].
  unfold strtoull16. destruct (sign_of _) as [neg s1]. cbn in H0, Hs. subst neg.
  cbn [snd] in H0. rewrite H0. pose proof (hex_digits_fmap (d :: ds) rest Hd Hr) as Hx.
  rewrite fmap_cons in Hx. cbn [app] in Hx. rewrite Hx. rewrite Hv. destruct (Z.leb_spec (2 ^ 64) z); [lia|done].
Qed.

(** ** Round trips of packets *)

Lemma split_at_app c a b : Forall (fun x => x <> c) a -> split_at c (a ++ c :: b) = Some (a, b).
Proof.
  induction 1 as [|x a Hx Ha IH]; cbn; [by rewrite Z.eqb_refl|].
  destruct (Z.eqb_spec x c); [done|]. by rewrite IH.
Qed.

Lemma split_at_first c l a b : split_at c l = Some (a, b) -> l = a ++ c :: b /\ Forall (fun x => x <> c) a.
Proof.
  revert a b. induction l as [|x l IH]; intros a b; [done|]. cbn.
  destruct (Z.eqb_spec x c) as [->|]; [intros [= <- <-]; done|].
  destruct (split_at c l) as [[a' b']|]; [|done]. intros [= <- <-].
  destruct (IH a' b' eq_refl) as [-> Ha]. split; [done|]. by constructor.
Qed.

Lemma checksum_range p : 0 <= checksum p < 256.
Proof. unfold checksum. apply (uwrap_range 8). lia. Qed.

(** A packet is received as it was sent: with anything but the start
    character in front of it (stray acknowledgements, an interrupt) and anything
    behind it, [recv_packet] on what [send_packet] wrote returns exactly the
    payload, acknowledges it with [+] unless acknowledgements are off, and leaves
    what follows, for every payload without the end character. *)
Theorem packet_roundtrip no_ack junk p rest :
  Forall (fun c => c <> 36) junk -> Forall (fun c => c <> 35) p ->
  recv_packet no_ack (junk ++ frame p ++ rest) = Some (p, if no_ack then [] else str "+", rest).
Proof.
  intros Hj Hp. unfold recv_packet, frame.
  change (str "$") with [36]. change (str "#") with [35].
  rewrite <- !app_assoc. cbn [app]. rewrite split_at_app by done.
  rewrite split_at_app by done. pose proof (checksum_range p) as Hc.
  rewrite to_hex2_eq by done. cbn [app]. destruct (hex2_value (checksum p) Hc) as (Hv & -> & ->).
  rewrite Hv, uwrap_small, Z.eqb_refl by done. done.
Qed.

Lemma packet_roundtrip_witness :
  recv_packet false (str "+" ++ frame (str "qC") ++ str "$g#67") = Some (str "qC", str "+", str "$g#67").
Proof. apply (packet_roundtrip false (str "+") (str "qC") (str "$g#67")); cbn; repeat constructor; discriminate. Defined.
