(* ===== verification/Gdb.v ===== *)
(** * The GDB server (gdb_server.cpp, gdb_server.h)

    The task table, the stop model, the all-stop coordination and the packets
    of the remote protocol.  A [vm] is known by its pointer; [tracee] holds what
    the server reads and writes of it.  [World] is everything the server thread
    shares with the rest: the tracees, host memory, its own state, the bytes the
    client sent and the bytes sent back.

    The threads of the guest and the client run concurrently.  What they do is
    an [event]: a guest thread reaches a stop point, makes a system call, forks,
    executes, changes flags; the client sends bytes.  Whenever the server sleeps
    it consumes one turn of a script, the events of that time; when the script
    is used up the server is still waiting ([Waits]).  [Throws] is an exception
    nobody catches.  Packets between two sleeps and a critical section of
    [tasks_mutex_] are atomic. *)

From Stdlib Require Import Lia Ascii.
From stdpp Require Import base numbers list gmap strings option.
From S2P Require Import Prelude Bytes HostMem AddrSpace Vm Kernel Rsp.

Open Scope Z_scope.

(** ** Data *)

(** What the server uses of a [vm]: [sys()->id()], the thread group, the flag
    word, pc, registers, address space, load base and host path of the program,
    and whether its thread sits in [debug_park]. *)
Record tracee := mktracee {
  t_id : Z;
  t_tgid : Z;
  t_flags : Z;
  t_pc : Z;
  t_reg : list Z;
  t_tlb : gmap Z TlbEntry;
  t_maps : list memmap;
  t_base : Z;
  t_exe : list Z;
  t_parked : bool
}.

(** [struct TaskEntry]; a [vm*] is a key of [w_vms]. *)
Record TaskEntry := mktask {
  vmp : Z;
  breakpoints : gset Z;
  exec_path : list Z;
  stepping : bool;
  fork_child : option Z;
  syscall_event : Z * bool
}.

(** [struct SyscallCatchCfg]. *)
Record SyscallCatchCfg := mkcfg { catch_enabled : bool; sysnos : gset Z }.
Definition no_catch : SyscallCatchCfg := mkcfg false ∅.

(** The fields of [class GdbServer]. *)
Record GdbServer := mkgdb {
  main_vm : Z;
  current_vm : Z;
  no_ack_ : bool;
  multiprocess_ : bool;
  report_fork_events_ : bool;
  report_exec_events_ : bool;
  syscall_catch_ : SyscallCatchCfg;
  tasks_ : gmap Z TaskEntry
}.

(** What other threads do, one atomic action each. *)
Inductive event :=
| EvHook (v : Z)  (** the stop point of [vm::step] *)
| EvSyscall (v : Z) (is_entry : bool) (call : Z)  (** the stop points of [vm::do_syscall] *)
| EvAttachChild (parent child : Z) (t : tracee)  (** [do_clone] and the first part of [on_create_vm] *)
| EvRegisterChild (parent child : Z) (is_thread : bool)  (** ... and its locked part *)
| EvRun (v pc : Z) (regs : list Z) (m : mmem)  (** the guest executes *)
| EvFlags (v set clr : Z)  (** the POSIX layer changes flags *)
| EvExec (v base : Z) (exe : list Z)  (** the image is replaced *)
| EvReap (pid : Z)  (** the POSIX layer forgets a pid *)
| EvWake (v : Z)  (** the thread looks at its flags in [debug_park] *)
| EvClient (bytes : list Z).  (** the client sends *)

Record World := mkworld {
  w_vms : gmap Z tracee;
  w_host : host;
  w_gdb : GdbServer;
  w_pids : gmap Z Z;  (** [pid_map] of the POSIX layer *)
  w_pending : gmap Z bool;  (** children between the two parts of [on_create_vm] *)
  w_in : list Z;
  w_out : list Z;
  w_script : list (list event)
}.

Definition set_vms x w := mkworld x (w_host w) (w_gdb w) (w_pids w) (w_pending w) (w_in w) (w_out w) (w_script w).
Definition set_whost x w := mkworld (w_vms w) x (w_gdb w) (w_pids w) (w_pending w) (w_in w) (w_out w) (w_script w).
Definition set_gdb x w := mkworld (w_vms w) (w_host w) x (w_pids w) (w_pending w) (w_in w) (w_out w) (w_script w).
Definition set_pids x w := mkworld (w_vms w) (w_host w) (w_gdb w) x (w_pending w) (w_in w) (w_out w) (w_script w).
Definition set_pending x w := mkworld (w_vms w) (w_host w) (w_gdb w) (w_pids w) x (w_in w) (w_out w) (w_script w).
Definition set_in x w := mkworld (w_vms w) (w_host w) (w_gdb w) (w_pids w) (w_pending w) x (w_out w) (w_script w).
Definition set_out x w := mkworld (w_vms w) (w_host w) (w_gdb w) (w_pids w) (w_pending w) (w_in w) x (w_script w).
Definition set_script x w := mkworld (w_vms w) (w_host w) (w_gdb w) (w_pids w) (w_pending w) (w_in w) (w_out w) x.

Definition set_tasks x g := mkgdb (main_vm g) (current_vm g) (no_ack_ g) (multiprocess_ g)
  (report_fork_events_ g) (report_exec_events_ g) (syscall_catch_ g) x.
Definition set_current x g := mkgdb (main_vm g) x (no_ack_ g) (multiprocess_ g)
  (report_fork_events_ g) (report_exec_events_ g) (syscall_catch_ g) (tasks_ g).
Definition set_catch x g := mkgdb (main_vm g) (current_vm g) (no_ack_ g) (multiprocess_ g)
  (report_fork_events_ g) (report_exec_events_ g) x (tasks_ g).
Definition set_negotiated na mp fe ee g := mkgdb (main_vm g) (current_vm g) na mp fe ee (syscall_catch_ g) (tasks_ g).

Definition put_tflags x t := mktracee (t_id t) (t_tgid t) x (t_pc t) (t_reg t) (t_tlb t) (t_maps t) (t_base t) (t_exe t) (t_parked t).
Definition put_tpc x t := mktracee (t_id t) (t_tgid t) (t_flags t) x (t_reg t) (t_tlb t) (t_maps t) (t_base t) (t_exe t) (t_parked t).
Definition put_treg x t := mktracee (t_id t) (t_tgid t) (t_flags t) (t_pc t) x (t_tlb t) (t_maps t) (t_base t) (t_exe t) (t_parked t).
Definition put_tmem tl ms t := mktracee (t_id t) (t_tgid t) (t_flags t) (t_pc t) (t_reg t) tl ms (t_base t) (t_exe t) (t_parked t).
Definition put_timage b e t := mktracee (t_id t) (t_tgid t) (t_flags t) (t_pc t) (t_reg t) (t_tlb t) (t_maps t) b e (t_parked t).
Definition put_parked x t := mktracee (t_id t) (t_tgid t) (t_flags t) (t_pc t) (t_reg t) (t_tlb t) (t_maps t) (t_base t) (t_exe t) x.

Definition put_stepping x e := mktask (vmp e) (breakpoints e) (exec_path e) x (fork_child e) (syscall_event e).
Definition put_bps x e := mktask (vmp e) x (exec_path e) (stepping e) (fork_child e) (syscall_event e).
Definition put_exec x e := mktask (vmp e) (breakpoints e) x (stepping e) (fork_child e) (syscall_event e).
Definition put_fork x e := mktask (vmp e) (breakpoints e) (exec_path e) (stepping e) x (syscall_event e).
Definition put_event x e := mktask (vmp e) (breakpoints e) (exec_path e) (stepping e) (fork_child e) x.

Definition no_event : Z * bool := (0, false).
Definition fresh_task (v : Z) (bps : gset Z) : TaskEntry := mktask v bps [] false None no_event.

(** ** Elementary updates *)

Definition no_tracee : tracee := mktracee 0 0 0 0 [] ∅ [] 0 [] false.
Definition vm_at (w : World) (v : Z) : tracee := default no_tracee (w_vms w !! v).
Definition upd_vm (v : Z) (f : tracee -> tracee) (w : World) : World := set_vms (alter f v (w_vms w)) w.
Definition upd_gdb (f : GdbServer -> GdbServer) (w : World) : World := set_gdb (f (w_gdb w)) w.
Definition upd_tasks (f : gmap Z TaskEntry -> gmap Z TaskEntry) (w : World) : World :=
  upd_gdb (fun g => set_tasks (f (tasks_ g)) g) w.

Definition id_of (w : World) (v : Z) : Z := t_id (vm_at w v).
Definition flags_of (w : World) (v : Z) : Z := t_flags (vm_at w v).
Definition raise_flags (v mask : Z) : World -> World := upd_vm v (fun t => put_tflags (Z.lor (t_flags t) mask) t).
Definition drop_flags (v mask : Z) : World -> World := upd_vm v (fun t => put_tflags (andnot (t_flags t) mask) t).

Definition tasks (w : World) : gmap Z TaskEntry := tasks_ (w_gdb w).
(** [with_task], [find_task]. *)
Definition with_task (v : Z) (f : TaskEntry -> TaskEntry) (w : World) : World := upd_tasks (alter f (id_of w v)) w.
Definition task_of (w : World) (v : Z) : option TaskEntry := tasks w !! id_of w v.
Definition find_task (w : World) (pid : Z) : option Z := vmp <$> tasks w !! pid.

(** The bits only the debugger changes, and those the POSIX layer never clears. *)
Definition DEBUG_BITS : Z := Z.lor VM_DEBUG_ATTACHED VM_DEBUG_STOP.
Definition VM_GONE : Z := Z.lor VM_EXITED VM_KILLED.
Definition KEPT_BITS : Z := Z.lor DEBUG_BITS VM_GONE.

Definition is_vm_exited (w : World) (v : Z) : bool := has (flags_of w v) VM_GONE.
Definition is_attached (w : World) (v : Z) : bool := has (flags_of w v) VM_DEBUG_ATTACHED.
Definition has_breakpoint (w : World) (v addr : Z) : bool :=
  match task_of w v with Some e => bool_decide (addr ∈ breakpoints e) | None => false end.

(** ** Stop points and forks, in the threads of the guest *)

(** The breakpoint hook of [start]. *)
Definition breakpoint_hook (v : Z) (w : World) : World :=
  if has (flags_of w v) VM_DEBUG_STOP then w
  else match task_of w v with
       | None => w
       | Some e =>
         if stepping e then raise_flags v VM_DEBUG_STOP (with_task v (put_stepping false) w)
         else if decide (t_pc (vm_at w v) ∈ breakpoints e) then raise_flags v VM_DEBUG_STOP w
         else w
       end.

Definition BPF_CALL_BASE : Z := 0x10000.
Definition BPF_SYS_EXECVEAT : Z := 12.
Definition call_to_id (call : Z) : Z := u32 (u32 call - BPF_CALL_BASE).

(** The callbacks of [make_syscall_cb]. *)
Definition syscall_cb (is_entry : bool) (v call : Z) (w : World) : World :=
  let exec := negb is_entry && (call_to_id call =? BPF_SYS_EXECVEAT) &&
              has (flags_of w v) VM_DEBUG_ATTACHED && (default 0 (head (t_reg (vm_at w v))) =? 0) in
  match (if exec && report_exec_events_ (w_gdb w) then task_of w v else None) with
  | Some _ =>
    raise_flags v VM_DEBUG_STOP
      (with_task v (fun e => put_exec (t_exe (vm_at w v)) (put_bps ∅ e)) w)
  | None =>
    let cfg := syscall_catch_ (w_gdb w) in
    let sysno := call_to_id call in
    if catch_enabled cfg && (bool_decide (sysnos cfg = ∅) || bool_decide (sysno ∈ sysnos cfg)) then
      raise_flags v VM_DEBUG_STOP (with_task v (put_event (sysno, is_entry)) w)
    else w
  end.

(** The two parts of [on_create_vm]: the child is attached; then it is entered
    into the table, stopped, and the fork is noted. *)
Definition attach_child (parent child : Z) (t : tracee) (w : World) : World :=
  let w1 := set_pids (<[t_id t := child]> (w_pids w)) (set_vms (<[child := t]> (w_vms w)) w) in
  if has (flags_of w1 parent) VM_DEBUG_ATTACHED
  then set_pending (<[child := true]> (w_pending w1)) (raise_flags child VM_DEBUG_ATTACHED w1)
  else w1.
Definition register_child (parent child : Z) (is_thread : bool) (w : World) : World :=
  let want := negb is_thread && report_fork_events_ (w_gdb w) in
  let pit := task_of w parent in
  let bps := match pit with Some e => breakpoints e | None => ∅ end in
  let ce := match task_of w child with
            | Some e => mktask child bps (exec_path e) (stepping e) (fork_child e) (syscall_event e)
            | None => fresh_task child bps
            end in
  let w1 := raise_flags child VM_DEBUG_STOP
              (upd_tasks (insert (id_of w child) ce) (set_pending (delete child (w_pending w)) w)) in
  if want && bool_decide (is_Some pit)
  then raise_flags parent VM_DEBUG_STOP (with_task parent (put_fork (Some child)) w1)
  else w1.

Definition park_if_stopped (v : Z) (w : World) : World :=
  if has (flags_of w v) VM_DEBUG_STOP && negb (has (flags_of w v) VM_KILLED)
  then upd_vm v (put_parked true) w else w.

(** A thread in [debug_park] does nothing but look at its flags, and the thread
    of a child does not run before [on_create_vm] has returned. *)
Definition if_running (v : Z) (f : World -> World) (w : World) : World :=
  if t_parked (vm_at w v) || bool_decide (is_Some (w_pending w !! v)) || negb (bool_decide (is_Some (w_vms w !! v)))
  then w else f w.

(** A child is a new object with an id of its own, and not yet traced. *)
Definition fresh_child (child : Z) (t : tracee) (w : World) : bool :=
  bool_decide (w_vms w !! child = None) &&
  bool_decide (map_Forall (fun _ t' => t_id t' <> t_id t) (w_vms w)) &&
  negb (has (t_flags t) DEBUG_BITS) && negb (t_parked t).

Definition guest_event (e : event) (w : World) : World :=
  match e with
  | EvHook v =>
    if_running v (fun w =>
      if is_attached w v then park_if_stopped v (breakpoint_hook v w) else w) w
  | EvSyscall v is_entry call =>
    if_running v (fun w =>
      if is_attached w v then park_if_stopped v (syscall_cb is_entry v call w) else w) w
  | EvAttachChild parent child t =>
    if_running parent (fun w => if fresh_child child t w then attach_child parent child t w else w) w
  | EvRegisterChild parent child is_thread =>
    if decide (is_Some (w_pending w !! child)) then register_child parent child is_thread w else w
  | EvRun v pc regs m =>
    if_running v (fun w => set_whost (hst m)
      (upd_vm v (fun t => put_tmem (tlb m) (maps m) (put_treg regs (put_tpc pc t))) w)) w
  | EvFlags v set clr =>
    upd_vm v (fun t => put_tflags (Z.lor (andnot (t_flags t) (andnot clr KEPT_BITS)) (andnot set DEBUG_BITS)) t) w
  | EvExec v base exe => if_running v (upd_vm v (put_timage base exe)) w
  | EvReap pid => set_pids (delete pid (w_pids w)) w
  | EvWake v =>
    let f := flags_of w v in
    if negb (has f VM_DEBUG_STOP) || has f VM_KILLED then upd_vm v (put_parked false) w else w
  | EvClient bytes => set_in (w_in w ++ bytes) w
  end.

(** ** The server thread *)

Inductive res (A : Type) :=
| Done (a : A) (w : World)
| Throws
| Waits (w : World).
Arguments Done {A} a w.
Arguments Throws {A}.
Arguments Waits {A} w.

Definition G (A : Type) : Type := World -> res A.
Definition gret {A} (a : A) : G A := fun w => Done a w.
Definition gbind {A B} (m : G A) (k : A -> G B) : G B := fun w =>
  match m w with Done a w' => k a w' | Throws => Throws | Waits w' => Waits w' end.

Declare Scope gdb_scope.
Delimit Scope gdb_scope with gdb.
Notation "x <- m ;; k" := (gbind m (fun x => k))
  (at level 100, m at next level, k at level 200, right associativity) : gdb_scope.
Notation "m ;; k" := (gbind m (fun _ => k))
  (at level 100, k at level 200, right associativity) : gdb_scope.
Open Scope gdb_scope.

Definition gets {A} (f : World -> A) : G A := fun w => Done (f w) w.
Definition modify (f : World -> World) : G unit := fun w => Done tt (f w).

(** [nanosleep] in the waiting loops: one turn of the script passes. *)
Definition sleep : G unit := fun w =>
  match w_script w with
  | [] => Waits w
  | evs :: l => Done tt (foldl (fun w e => guest_event e w) (set_script l w) evs)
  end.

Definition send (bytes : list Z) : G unit := modify (fun w => set_out (w_out w ++ bytes) w).
(** [send_packet]. *)
Definition send_packet (payload : list Z) : G unit := send (frame payload).

(** The peek for a Ctrl-C of the waiting loops. *)
Definition peek_ctrl_c : G bool := fun w =>
  match w_in w with
  | c :: l => if c =? 3 then Done true (set_in l w) else Done false w
  | [] => Done false w
  end.

(** Whether [std::string::reserve] finds room for [n] characters. *)
Class HostAlloc := can_reserve : Z -> bool.

Section Server.
Context {ord : HashOrder} {env : HostEnv}.

(** [for_each_task]: the entries in the order of the hash table. *)
Definition task_list (w : World) : list TaskEntry :=
  omap (fun pid => tasks w !! pid) (hash_order (dom (tasks w))).
Definition update_tasks (f : TaskEntry -> TaskEntry) : World -> World := upd_tasks (fmap f).

(** [request_stop]; waking the thread changes no state. *)
Definition request_stop (v : Z) : World -> World := raise_flags v VM_DEBUG_STOP.

Definition register_task (v : Z) (w : World) : World := upd_tasks (insert (id_of w v) (fresh_task v ∅)) w.

(** [start] with [--stop]: the main vm, not yet running, is entered under pid 1
    and frozen. *)
Definition start_stopped (w : World) : World :=
  let v := main_vm (w_gdb w) in
  upd_tasks (insert 1 (fresh_task v ∅)) (raise_flags v (Z.lor VM_DEBUG_ATTACHED VM_DEBUG_STOP) w).

Definition attach_on_connect (w : World) : World :=
  let v := main_vm (w_gdb w) in
  if is_attached w v then w
  else request_stop v (raise_flags v VM_DEBUG_ATTACHED (register_task v w)).

Definition release (v : Z) (w : World) : World :=
  if is_vm_exited w v then w else drop_flags v DEBUG_BITS w.

Definition end_session (w : World) : World :=
  let l := vmp <$> task_list w in
  let w1 := foldl (fun w v => release v w) (upd_tasks (fun _ => ∅) w) l in
  upd_gdb (fun g => set_catch no_catch (set_current (main_vm g) (set_negotiated false false false false g))) w1.

Definition continue_all_vms (w : World) : World :=
  let w1 := update_tasks (fun e => put_exec [] (put_event no_event (put_stepping false e))) w in
  foldl (fun w v => if is_attached w v then drop_flags v VM_DEBUG_STOP w else w) w1 (vmp <$> task_list w1).

Definition VM_SETTLED : Z := Z.lor VM_DEBUG_STOP VM_GONE.

Definition stop_one (w : World) (v : Z) : World :=
  if negb (is_attached w v) || has (flags_of w v) (Z.lor VM_SETTLED VM_STOPPED) then w
  else raise_flags v VM_DEBUG_STOP w.
Definition stop_all_vms (w : World) : World := foldl stop_one w (vmp <$> task_list w).

Definition detach_vm (v : Z) (w : World) : World :=
  match task_of w v with
  | None => w
  | Some e => release (vmp e) (upd_tasks (delete (id_of w v)) w)
  end.

(** *** Waiting for the guest *)

Fixpoint wait_stopped_loop (n : nat) (v : Z) : G unit :=
  f <- gets (fun w => flags_of w v) ;;
  if has f VM_SETTLED then gret tt
  else
    c <- peek_ctrl_c ;;
    match n with
    | O => fun w => Waits w
    | Datatypes.S k =>
      (if c then modify (request_stop v) else sleep) ;; wait_stopped_loop k v
    end.
(** One turn more than the script: a Ctrl-C takes no sleep. *)
Definition wait_stopped (v : Z) : G unit :=
  n <- gets (fun w => length (w_script w)) ;; wait_stopped_loop (2 + n) v.

Definition mark_stepping (v : Z) : World -> World := with_task v (put_stepping true).
Definition unstop (v : Z) : World -> World := drop_flags v VM_DEBUG_STOP.

(** The step over a breakpoint, shared by the ways to resume. *)
Definition step_over (v : Z) : G unit :=
  modify (fun w => mark_stepping v (unstop v w)) ;; wait_stopped v.

Definition resume (v : Z) (single_step : bool) : G unit :=
  over <- gets (fun w => negb single_step && has_breakpoint w v (t_pc (vm_at w v))) ;;
  modify (unstop v) ;;
  (if single_step || over then modify (mark_stepping v) ;; wait_stopped v else gret tt) ;;
  gone <- gets (fun w => is_vm_exited w v) ;;
  if ((single_step || over) && gone) || single_step then gret tt
  else modify (unstop v) ;; wait_stopped v.

Definition resume_continue (v : Z) : G unit :=
  over <- gets (fun w => has_breakpoint w v (t_pc (vm_at w v))) ;;
  (if over then step_over v else gret tt) ;;
  gone <- gets (fun w => is_vm_exited w v) ;;
  if over && gone then gret tt else modify (unstop v).

(** One pass over the table: the first vm to report, by priority (3: the
    preferred one, 2: stopped, 1: exited), its fork event, and whether every
    attached vm has settled. *)
Record scan := mkscan { s_phase : Z; s_hit : option (Z * option Z); s_settled : bool }.
Definition scan_task (w : World) (preferred : option Z) (watch : list Z) (s : scan) (e : TaskEntry) : scan :=
  let v := vmp e in
  let f := flags_of w v in
  let in_watch := bool_decide (v ∈ watch) in
  let '(ph, hit) :=
    if bool_decide (Some v = preferred) && in_watch && has f VM_SETTLED && (s_phase s <? 3)
    then (3, Some (v, fork_child e))
    else if in_watch && has f VM_DEBUG_STOP && (s_phase s <? 2) then (2, Some (v, fork_child e))
    else if in_watch && has f VM_GONE && (s_phase s <? 1) then (1, Some (v, fork_child e))
    else (s_phase s, s_hit s) in
  let ok := negb (has f VM_DEBUG_ATTACHED) || has f (Z.lor VM_SETTLED VM_STOPPED) || stepping e in
  mkscan ph hit (s_settled s && ok).
Definition scan_tasks (w : World) (preferred : option Z) (watch : list Z) : scan :=
  foldl (scan_task w preferred watch) (mkscan 0 None true) (task_list w).

(** The report of a hit: the vm and the fork event, which is consumed. *)
Definition take_fork (hit : Z * option Z) : G (Z * option Z) :=
  rep <- gets (fun w => report_fork_events_ (w_gdb w)) ;;
  match hit.2 with
  | Some c => if rep then modify (with_task hit.1 (put_fork None)) ;; gret (hit.1, Some c) else gret (hit.1, None)
  | None => gret (hit.1, None)
  end.

Fixpoint wait_any_loop (n : nat) (preferred : option Z) (watch : list Z) (propagated : bool) : G (Z * option Z) :=
  s <- gets (fun w => scan_tasks w preferred watch) ;;
  (match s_hit s with Some _ => if propagated then gret tt else modify stop_all_vms | None => gret tt end) ;;
  match s_hit s with
  | Some hit =>
    if s_settled s then take_fork hit
    else
      c <- peek_ctrl_c ;;
      (if c then modify stop_all_vms else gret tt) ;;
      match n with O => fun w => Waits w | Datatypes.S k => sleep ;; wait_any_loop k preferred watch true end
  | None =>
    c <- peek_ctrl_c ;;
    (if c then modify stop_all_vms else gret tt) ;;
    match n with O => fun w => Waits w | Datatypes.S k => sleep ;; wait_any_loop k preferred watch (propagated || c) end
  end.

Definition attached_vms (w : World) : list Z := filter (fun v => is_attached w v = true) (vmp <$> task_list w).

(** [wait_any_stopped]; an empty watch list stands for every attached vm. *)
Definition wait_any_stopped (preferred : option Z) (watch_vms : list Z) : G (Z * option Z) :=
  watch <- gets (fun w => match watch_vms with [] => attached_vms w | _ => watch_vms end) ;;
  n <- gets (fun w => length (w_script w)) ;;
  wait_any_loop n preferred watch false.

(** *** Replies *)

Definition encode_tid (w : World) (v : Z) : list Z :=
  let t := vm_at w v in
  if multiprocess_ (w_gdb w) then str "p" ++ hexd (u64 (t_tgid t)) ++ str "." ++ hexd (u64 (t_id t)) else hexd (u64 (t_id t)).

Definition decode_pid (s : list Z) : Z :=
  match s with
  | [] => 0
  | c :: rest =>
    if c =? chr "p"%char then
      let tid_str := match split_at (chr "."%char) rest with Some (_, t) => t | None => rest end in
      if str_eqb tid_str (str "0") || str_eqb tid_str (str "-1") then 0 else strtoull tid_str
    else if str_eqb s (str "0") || str_eqb s (str "-1") then 0 else strtoull s
  end.
Definition decode_tid (w : World) (s : list Z) (search_pid_map : bool) : option Z :=
  let pid := decode_pid s in
  if pid =? 0 then None
  else match find_task w pid with
       | Some v => Some v
       | None => if search_pid_map then w_pids w !! pid else None
       end.

Definition exit_code (w : World) (v : Z) : list Z :=
  to_hex2 (Z.land (default 0 (head (t_reg (vm_at w v)))) 0xFF).

Definition send_exit_reply (v : Z) : G unit := fun w =>
  match task_of w v with
  | None => Done tt w
  | Some _ =>
    (send_packet (str "W" ++ exit_code w v ++
       (if multiprocess_ (w_gdb w) then str ";process:" ++ hexd (u64 (t_tgid (vm_at w v))) else [])) ;;
     modify (upd_tasks (delete (id_of w v)))) w
  end.

Definition focus (v : Z) : World -> World := upd_gdb (set_current v).

Definition send_stop_reply (v sig : Z) (child : option Z) : G unit := fun w =>
  (modify (focus v) ;;
   send_packet (str "T" ++ to_hex2 sig ++
     (match child with Some c => str "fork:" ++ encode_tid w c ++ str ";" | None => [] end) ++
     str "thread:" ++ encode_tid w v ++ str ";")) w.

Definition try_send_syscall_stop (v : Z) : G bool := fun w =>
  match task_of w v with
  | None => Done false w
  | Some e =>
    let '(sysno, is_entry) := syscall_event e in
    if sysno =? 0 then Done false w
    else
      (modify (fun w => focus v (with_task v (put_event no_event) w)) ;;
       send_packet (str "T05" ++ str (if is_entry then "syscall_entry:" else "syscall_return:") ++ hexd (u32 sysno) ++
                    str ";thread:" ++ encode_tid w v ++ str ";") ;;
       gret true) w
  end.

Definition try_send_exec_stop (v : Z) : G bool := fun w =>
  match task_of w v with
  | None => Done false w
  | Some e =>
    match exec_path e with
    | [] => Done false w
    | path =>
      (modify (fun w => focus v (with_task v (put_exec []) w)) ;;
       send_packet (str "T05exec:" ++ hex_encode path ++ str ";thread:" ++ encode_tid w v ++ str ";") ;;
       gret true) w
    end
  end.

(** What [c], [s] and [vCont] send when the guest has stopped. *)
Definition report_hit (hit : Z * option Z) : G unit :=
  gone <- gets (fun w => is_vm_exited w hit.1) ;;
  if gone then send_exit_reply hit.1
  else
    x <- try_send_exec_stop hit.1 ;;
    if x then gret tt
    else y <- try_send_syscall_stop hit.1 ;; if y then gret tt else send_stop_reply hit.1 5 hit.2.

(** *** vCont *)

Record ParsedAction := mkaction { pa_act : Z; pa_target : option Z; pa_has_tid : bool; pa_scope : option Z }.

Definition norm_act (c : Z) : option Z :=
  if (c =? chr "c"%char) || (c =? chr "C"%char) then Some (chr "c"%char)
  else if (c =? chr "s"%char) || (c =? chr "S"%char) then Some (chr "s"%char)
  else if c =? chr "t"%char then Some (chr "t"%char)
  else None.

(** The thread id of an action: target, whether it names a thread, scope. *)
Definition parse_target (w : World) (tidstr : list Z) : option Z * bool * option Z :=
  match tidstr with
  | c :: ((_ :: _) as rest) =>
    if c =? chr "p"%char then
      let '(pid_str, tid_str) :=
        match split_at (chr "."%char) rest with Some (a, b) => (a, b) | None => (rest, []) end in
      if str_eqb tid_str (str "-1") || str_eqb tid_str (str "0") || str_eqb tid_str []
      then (None, false, find_task w (strtoull pid_str))
      else (find_task w (strtoull tid_str), true, None)
    else if str_eqb tidstr (str "-1") then (None, false, None)
    else let tid := strtoull tidstr in if tid =? 0 then (None, false, None) else (find_task w tid, true, None)
  | _ =>
    if str_eqb tidstr (str "0") then (None, false, None)
    else let tid := strtoull tidstr in if tid =? 0 then (None, false, None) else (find_task w tid, true, None)
  end.

Definition parse_action (w : World) (a : list Z) : option ParsedAction :=
  match a with
  | [] => None
  | c :: _ =>
    norm ← norm_act c;
    let '(target, has_tid, scope) :=
      match split_at (chr ":"%char) a with Some (_, t) => parse_target w t | None => (None, false, None) end in
    Some (mkaction norm target has_tid scope)
  end.

Definition parse_actions (w : World) (pkt : list Z) : list ParsedAction :=
  let l := tail (pieces (chr ";"%char) pkt) in
  omap (parse_action w) (match l with [] => [str "c"] | _ => l end).

Definition last_of {A} (l : list A) : option A := head (reverse l).

(** [default_act], when some action has neither thread nor scope. *)
Definition default_act (l : list ParsedAction) : option Z :=
  pa_act <$> last_of (filter (fun a => pa_has_tid a = false /\ pa_scope a = None) l).

Definition step_vm (l : list ParsedAction) : option Z :=
  match last_of (filter (fun a => pa_act a = chr "s"%char /\ pa_has_tid a = true) l) with
  | Some a => pa_target a
  | None => None
  end.

Definition set_action (o : option Z) (act : Z) (m : gmap Z Z) : gmap Z Z :=
  match o with Some v => <[v := act]> m | None => m end.

(** The first phase: the action of each vm. *)
Definition decide_actions (live : list Z) (l : list ParsedAction) : gmap Z Z :=
  let explicit := omap (fun a => if pa_has_tid a then pa_target a else None) l in
  let m0 := match default_act l with
            | Some d => foldl (fun m v => <[v := d]> m) ∅ live
            | None => ∅
            end in
  let m1 := foldl (fun m a =>
      if negb (pa_has_tid a) && bool_decide (is_Some (pa_scope a))
         && negb (bool_decide (pa_scope a ∈ Some <$> explicit))
      then set_action (pa_scope a) (pa_act a) m else m) m0 l in
  foldl (fun m a => if pa_has_tid a then set_action (pa_target a) (pa_act a) m else m) m1 l.

Definition live_attached (w : World) : list TaskEntry :=
  filter (fun e => negb (is_vm_exited w (vmp e)) && is_attached w (vmp e) = true) (task_list w).

(** The second phase: the vms to be moved off their breakpoints. *)
Definition need_step (w : World) (actions : gmap Z Z) : list Z :=
  vmp <$> filter (fun e => actions !! vmp e = Some (chr "c"%char) /\ t_pc (vm_at w (vmp e)) ∈ breakpoints e) (live_attached w).

Fixpoint step_all (l : list Z) (actions : gmap Z Z) : G (gmap Z Z) :=
  match l with
  | [] => gret actions
  | v :: r =>
    step_over v ;;
    gone <- gets (fun w => is_vm_exited w v) ;;
    step_all r (if gone then delete v actions else actions)
  end.

(** The third phase. *)
Definition released (w : World) (actions : gmap Z Z) : list Z :=
  filter (fun v => is_Some (actions !! v) /\ actions !! v <> Some (chr "t"%char)) (vmp <$> live_attached w).
Definition release_one (actions : gmap Z Z) (w : World) (v : Z) : World :=
  let w1 := unstop v w in
  if decide (actions !! v = Some (chr "s"%char)) then mark_stepping v w1 else w1.

Definition handle_vcont (pkt : list Z) : G unit :=
  l <- gets (fun w => parse_actions w pkt) ;;
  actions <- gets (fun w => decide_actions (vmp <$> live_attached w) l) ;;
  over <- gets (fun w => need_step w actions) ;;
  actions <- step_all over actions ;;
  rel <- gets (fun w => released w actions) ;;
  modify (fun w => foldl (release_one actions) w rel) ;;
  hit <- wait_any_stopped (step_vm l) rel ;;
  report_hit hit.

(** *** Guest memory *)

Definition mem_of (w : World) (v : Z) : mmem := mkmmem (t_tlb (vm_at w v)) (t_maps (vm_at w v)) (w_host w).
Definition put_mem (v : Z) (m : mmem) (w : World) : World :=
  set_whost (hst m) (upd_vm v (put_tmem (tlb m) (maps m)) w).
Definition on_mem {A} (v : Z) (f : mmem -> A * mmem) : G A := fun w =>
  let '(a, m) := f (mem_of w v) in Done a (put_mem v m w).

(** The [n] bytes at a host address, and [memcpy] to it. *)
Definition host_bytes (h : host) (p : hptr) (n : Z) : list Z :=
  (fun i => h_bytes h p.1 (p.2 + Z.of_nat i)) <$> seq 0 (Z.to_nat n).
Definition put_bytes (m : mmem) (p : hptr) (bs : list Z) : mmem := store m p (length bs) (le_value bs).

(** The loop of [m]: the rest in one piece, or else one byte; [None] is [E14]. *)
Fixpoint read_loop (n : nat) (v addr off len : Z) : G (option (list Z)) :=
  match n with
  | O => gret (Some [])
  | Datatypes.S n' =>
    if len <=? off then gret (Some [])
    else
      let a := u64 (addr + off) in
      p <- on_mem v (fun m => mmu m a (len - off)) ;;
      match p with
      | Some p => h <- gets w_host ;; gret (Some (hex_encode (host_bytes h p (len - off))))
      | None =>
        p1 <- on_mem v (fun m => mmu m a 1) ;;
        match p1 with
        | None => gret None
        | Some p =>
          h <- gets w_host ;;
          rest <- read_loop n' v addr (off + 1) len ;;
          gret (match rest with Some t => Some (hex_encode (host_bytes h p 1) ++ t) | None => None end)
        end
      end
  end.

(** [h.substr(pos, n)]: an exception when [pos] is behind the end. *)
Definition substr (h : list Z) (pos n : Z) : option (list Z) :=
  if Z.of_nat (length h) <? pos then None else Some (take (Z.to_nat n) (drop (Z.to_nat pos) h)).

(** [hex_decode] into guest memory: what was decoded before an error is written. *)
Definition decode_to (v : Z) (p : hptr) (s : list Z) (n : Z) : G bool :=
  let '(ok, bs) := hex_decode s n in
  on_mem v (fun m => (tt, put_bytes m p bs)) ;; gret ok.

(** The loop of [M]; [Some 0xE14] and [Some 0xE03] are the errors. *)
Fixpoint write_loop (n : nat) (v addr off len : Z) (h : list Z) : G (option Z) :=
  match n with
  | O => gret None
  | Datatypes.S n' =>
    if len <=? off then gret None
    else
      let a := u64 (addr + off) in
      p <- on_mem v (fun m => mmu_w m a (len - off)) ;;
      let write p step next : G (option Z) :=
        match substr h (u64 (off * 2)) (u64 (step * 2)) with
        | None => fun _ => Throws
        | Some s => ok <- decode_to v p s step ;; if (ok : bool) then next else gret (Some 0xE03)
        end in
      match p with
      | Some p => write p (len - off) (gret None)
      | None =>
        p1 <- on_mem v (fun m => mmu_w m a 1) ;;
        match p1 with
        | None => gret (Some 0xE14)
        | Some p => write p 1 (write_loop n' v addr (off + 1) len h)
        end
      end
  end.

(** *** Packets

    [Reply l] is answered with [l], [Self] has sent its own answer. *)

Inductive reply := Reply (l : list Z) | Self.
Definition answer (s : string) : G reply := gret (Reply (str s)).

Definition reg_of (w : World) (v n : Z) : Z := t_reg (vm_at w v) !!! Z.to_nat n.
Definition put_reg (v n x : Z) : World -> World := upd_vm v (fun t => put_treg (<[Z.to_nat n := x]> (t_reg t)) t).
Definition put_vpc (v x : Z) : World -> World := upd_vm v (put_tpc x).
Definition reg_list : list Z := Z.of_nat <$> seq 0 11.

(** [qSupported]. *)
Definition handle_supported (pkt : list Z) : G reply := fun w =>
  let g := w_gdb w in
  let mp := multiprocess_ g || contains (str "multiprocess+") pkt in
  let fe := mp && contains (str "fork-events+") pkt in
  let ee := mp && contains (str "exec-events+") pkt in
  (modify (upd_gdb (set_negotiated (no_ack_ g) mp (report_fork_events_ g || fe) (report_exec_events_ g || ee))) ;;
   gret (Reply (str "PacketSize=4096;swbreak+;vContSupported+;QStartNoAckMode+;QCatchSyscalls+" ++
     (if mp then str ";multiprocess+" else []) ++
     (if fe then str ";fork-events+;vfork-events+" else []) ++
     (if ee then str ";exec-events+" else [])))) w.

(** [qfThreadInfo]. *)
Definition thread_info (w : World) : list Z :=
  match (fun v => encode_tid w v) <$> attached_vms w with
  | [] => str "l"
  | t :: ts => str "m" ++ t ++ (ts ≫= fun x => str "," ++ x)
  end.

Definition offsets (w : World) : list Z :=
  let base := hexd (u64 (t_base (vm_at w (current_vm (w_gdb w))))) in
  str "Text=" ++ base ++ str ";Data=" ++ base ++ str ";Bss=" ++ base.

Definition handle_q (pkt : list Z) : G reply :=
  if starts (str "qSupported") pkt then handle_supported pkt
  else if str_eqb pkt (str "qAttached") then answer "1"
  else if starts (str "qfThreadInfo") pkt then gets (fun w => Reply (thread_info w))
  else if starts (str "qsThreadInfo") pkt then answer "l"
  else if starts (str "qThreadExtraInfo") pkt then answer ""
  else if starts (str "qC") pkt then gets (fun w => Reply (str "QC" ++ encode_tid w (current_vm (w_gdb w))))
  else if starts (str "qOffsets") pkt then gets (fun w => Reply (offsets w))
  else answer "".

(** The numbers of [QCatchSyscalls:1;...]; [None] is [E01]. *)
Fixpoint catch_list (toks : list (list Z)) : option (gset Z) :=
  match toks with
  | [] => Some ∅
  | [] :: r => catch_list r
  | tok :: r =>
    let '(x, e) := strtoull16 tok in
    if bool_decide (length e = length tok) || negb (default 0 (head e) =? 0) then None
    else (fun s => {[ u32 x ]} ∪ s) <$> catch_list r
  end.

Definition catch_config (rest : list Z) : option SyscallCatchCfg :=
  if str_eqb rest (str "0") then Some no_catch
  else if str_eqb rest (str "1") then Some (mkcfg true ∅)
  else match rest with
       | a :: b :: l =>
         if (a =? chr "1"%char) && (b =? chr ";"%char)
         then mkcfg true <$> catch_list (pieces (chr ";"%char) l) else None
       | _ => None
       end.

Definition handle_Q (pkt : list Z) : G reply :=
  if str_eqb pkt (str "QStartNoAckMode") then
    modify (upd_gdb (fun g => set_negotiated true (multiprocess_ g) (report_fork_events_ g) (report_exec_events_ g) g)) ;;
    answer "OK"
  else if starts (str "QCatchSyscalls:") pkt then
    match catch_config (drop 15 pkt) with
    | Some cfg => modify (upd_gdb (set_catch cfg)) ;; answer "OK"
    | None => answer "E01"
    end
  else answer "".

Definition handle_why : G reply := gets (fun w =>
  let v := current_vm (w_gdb w) in
  Reply (if is_vm_exited w v then str "W" ++ exit_code w v
         else str "T05thread:" ++ encode_tid w v ++ str ";")).

Definition handle_H (pkt : list Z) : G reply :=
  if (length pkt <? 2)%nat then answer "E01"
  else modify (fun w => focus (default (main_vm (w_gdb w)) (decode_tid w (drop 2 pkt) false)) w) ;; answer "OK".

Definition current : G Z := gets (fun w => current_vm (w_gdb w)).

Definition read_regs (w : World) (v : Z) : list Z :=
  (reg_list ≫= fun i => reg_to_hex (reg_of w v i)) ++ reg_to_hex (t_pc (vm_at w v)).

Fixpoint write_regs (l : list Z) (v : Z) (h : list Z) : G unit :=
  match l with
  | [] => match substr h (11 * 16) 16 with Some s => modify (put_vpc v (hex_to_reg s)) | None => fun _ => Throws end
  | i :: r =>
    match substr h (i * 16) 16 with
    | Some s => modify (put_reg v i (hex_to_reg s)) ;; write_regs r v h
    | None => fun _ => Throws
    end
  end.

Definition handle_p (pkt : list Z) : G reply :=
  v <- current ;;
  let n := strtoull (tail pkt) in
  gets (fun w => Reply (if n <=? 10 then reg_to_hex (reg_of w v n)
                        else if n =? 11 then reg_to_hex (t_pc (vm_at w v)) else str "E01")).

Definition handle_P (pkt : list Z) : G reply :=
  v <- current ;;
  match split_at (chr "="%char) pkt with
  | None => answer "E02"
  | Some (a, h) =>
    let n := strtoull (tail a) in
    (if n <=? 10 then modify (put_reg v n (hex_to_reg h))
     else if n =? 11 then modify (put_vpc v (hex_to_reg h)) else gret tt) ;;
    answer "OK"
  end.

Definition handle_m {alloc : HostAlloc} (pkt : list Z) : G reply :=
  v <- current ;;
  match split_at (chr ","%char) pkt with
  | None => answer "E02"
  | Some (a, l) =>
    let addr := strtoull (tail a) in
    let len := strtoull l in
    if len =? 0 then answer ""
    else if negb (can_reserve (u64 (len * 2))) then fun _ => Throws
    else
      o <- read_loop (Z.to_nat len) v addr 0 len ;;
      match o with Some out => gret (Reply out) | None => answer "E14" end
  end.

Definition handle_M (pkt : list Z) : G reply :=
  v <- current ;;
  match split_at (chr ","%char) pkt, split_at (chr ":"%char) pkt with
  | Some (a, l), Some (c, h) =>
    let addr := strtoull (tail a) in
    (* the count of the substring wraps around when the colon comes first *)
    let lens := if (length c <? length a)%nat then l else take (length c - length a - 1) l in
    let len := strtoull lens in
    if Z.of_nat (length h) <? u64 (len * 2) then answer "E03"
    else
      o <- write_loop (Z.to_nat len) v addr 0 len h ;;
      match o with
      | None => answer "OK"
      | Some e => gret (Reply (str "E" ++ to_hex2 e))
      end
  | _, _ => answer "E02"
  end.

Definition handle_c : G reply :=
  v <- current ;;
  gone <- gets (fun w => is_vm_exited w v) ;;
  if gone then send_exit_reply v ;; gret Self
  else
    resume_continue v ;;
    modify continue_all_vms ;;
    hit <- wait_any_stopped (Some v) [] ;;
    report_hit hit ;; gret Self.

Definition handle_s : G reply :=
  v <- current ;;
  gone <- gets (fun w => is_vm_exited w v) ;;
  if gone then send_exit_reply v ;; gret Self
  else
    resume v true ;;
    hit <- wait_any_stopped (Some v) [] ;;
    report_hit hit ;; gret Self.

(** The text before the last [c]. *)
Definition before_last (c : Z) (l : list Z) : list Z :=
  match split_at c (reverse l) with Some (_, b) => reverse b | None => l end.

Definition handle_Z (set : bool) (pkt : list Z) : G reply :=
  match split_at (chr ","%char) pkt with
  | None => answer "E02"
  | Some (a, l) =>
    let type := strtoull (tail a) in
    let addr := strtoull (before_last (chr ","%char) l) in
    if negb (type =? 0) then answer ""
    else
      v <- current ;;
      e <- gets (fun w => task_of w v) ;;
      match e with
      | None => answer "E01"
      | Some e =>
        modify (with_task v (fun e => put_bps (if set then {[ addr ]} ∪ breakpoints e else breakpoints e ∖ {[ addr ]}) e)) ;;
        answer "OK"
      end
  end.

Definition kill (v : Z) : World -> World := raise_flags v VM_KILLED.

Definition after_semicolon (pkt : list Z) : option (list Z) := snd <$> split_at (chr ";"%char) pkt.

Definition handle_D (pkt : list Z) : G reply :=
  modify (fun w =>
    match after_semicolon pkt with
    | None => end_session w
    | Some s => match decode_tid w s false with Some v => detach_vm v w | None => end_session w end
    end) ;;
  answer "OK".

Definition attach_vm (v : Z) (w : World) : World :=
  let w1 := register_task v w in
  focus v (if is_attached w1 v then w1 else request_stop v (raise_flags v VM_DEBUG_ATTACHED w1)).

Definition handle_attach (pkt : list Z) : G reply :=
  match after_semicolon pkt with
  | None => answer "E01"
  | Some s =>
    o <- gets (fun w => decode_tid w s true) ;;
    match o with
    | None => answer "E01"
    | Some v =>
      modify (attach_vm v) ;;
      gets (fun w => Reply (if multiprocess_ (w_gdb w) then str "T05thread:" ++ encode_tid w v ++ str ";"
                            else str "S05"))
    end
  end.

Definition handle_v (pkt : list Z) : G reply :=
  if starts (str "vCont?") pkt then answer "vCont;c;C;s;S;t"
  else if starts (str "vCont") pkt then handle_vcont pkt ;; gret Self
  else if starts (str "vAttach") pkt then handle_attach pkt
  else if starts (str "vKill") pkt then
    modify (fun w =>
      let v := match after_semicolon pkt with
               | Some s => default (current_vm (w_gdb w)) (decode_tid w s false)
               | None => current_vm (w_gdb w)
               end in
      kill v w) ;;
    answer "OK"
  else answer "".

Definition handle_T (pkt : list Z) : G reply := gets (fun w =>
  let t := tail pkt in
  match decode_tid w t false with
  | Some _ => Reply (str "OK")
  | None =>
    let special := str_eqb t (str "0") || str_eqb t (str "-1") ||
      ((1 <? length t)%nat && (default 0 (head t) =? chr "p"%char) && (contains (str ".0") t || contains (str ".-1") t)) in
    Reply (str (if special then "OK" else "E01"))
  end).

(** [handle_packet], on a packet that is not empty. *)
Definition handle_packet {alloc : HostAlloc} (pkt : list Z) : G reply :=
  let cmd := default 0 (head pkt) in
  if cmd =? chr "q"%char then handle_q pkt
  else if cmd =? chr "Q"%char then handle_Q pkt
  else if cmd =? chr "?"%char then handle_why
  else if cmd =? chr "H"%char then handle_H pkt
  else if cmd =? chr "g"%char then gets (fun w => Reply (read_regs w (current_vm (w_gdb w))))
  else if cmd =? chr "G"%char then v <- current ;; write_regs reg_list v (tail pkt) ;; answer "OK"
  else if cmd =? chr "p"%char then handle_p pkt
  else if cmd =? chr "P"%char then handle_P pkt
  else if cmd =? chr "m"%char then handle_m pkt
  else if cmd =? chr "M"%char then handle_M pkt
  else if cmd =? chr "c"%char then handle_c
  else if cmd =? chr "s"%char then handle_s
  else if cmd =? chr "Z"%char then handle_Z true pkt
  else if cmd =? chr "z"%char then handle_Z false pkt
  else if cmd =? chr "k"%char then v <- current ;; modify (kill v) ;; answer "OK"
  else if cmd =? chr "D"%char then handle_D pkt
  else if cmd =? chr "v"%char then handle_v pkt
  else if cmd =? chr "T"%char then handle_T pkt
  else answer "".

(** *** Sessions *)

(** One packet of the inner loop of [server_loop]; waiting for the client takes
    turns of the script. *)
Fixpoint recv_loop (n : nat) : G (list Z) := fun w =>
  match recv_packet (no_ack_ (w_gdb w)) (w_in w) with
  | Some (data, ack, rest) => (modify (set_in rest) ;; send ack ;; gret data) w
  | None => match n with O => Waits w | Datatypes.S k => (sleep ;; recv_loop k) w end
  end.

Definition serve_packet {alloc : HostAlloc} : G unit :=
  n <- gets (fun w => length (w_script w)) ;;
  pkt <- recv_loop n ;;
  match pkt with
  | [] => send_packet []
  | _ => r <- handle_packet pkt ;; match r with Reply l => send_packet l | Self => gret tt end
  end.

(** A connection: [n] packets, then the client closes it. *)
Fixpoint serve {alloc : HostAlloc} (n : nat) : G unit :=
  match n with O => gret tt | Datatypes.S k => serve_packet ;; serve k end.

Definition session {alloc : HostAlloc} (n : nat) : G unit :=
  modify attach_on_connect ;;
  serve n ;;
  main <- gets (fun w => main_vm (w_gdb w)) ;;
  gone <- gets (fun w => is_vm_exited w main) ;;
  (if gone then send_exit_reply main else gret tt) ;;
  modify end_session.

End Server.
