(* ===== verification/GdbFacts.v ===== *)
(** * The GDB server keeps track of what it traces

    The invariant of the task table over every interleaving of packets and
    events of the guest ([inv], [packets_keep_inv], [session_keeps_inv]), what
    the end of a session releases, and the all-stop rule: when a stop is
    reported, no traced thread is running on.

    A rule [spec] for each operation of the server thread: from the invariant
    and a precondition it reaches the invariant and a postcondition, also when
    it is left waiting.  Updates that neither attach a vm nor change which vms
    the table lists are [quiet]. *)

From Stdlib Require Import Lia Ascii.
From stdpp Require Import base numbers list gmap strings option.
From S2P Require Import Prelude Bytes HostMem AddrSpace Vm Kernel Rsp Gdb.

Open Scope Z_scope.
Open Scope gdb_scope.

(** ** Flag words *)

Lemma has_bit f m : has f m = true <-> exists i, 0 <= i /\ Z.testbit f i = true /\ Z.testbit m i = true.
Proof.
  unfold has, nz. rewrite negb_true_iff, Z.eqb_neq. split.
  - intros Hne. destruct (Z.eq_dec (Z.land f m) 0) as [|_]; [done|].
    destruct (Z_lt_le_dec (Z.land f m) 0) as [Hneg|Hpos].
    + pose proof (Z.log2_nonneg (Z.abs (Z.land f m))).
      exists (Z.log2 (Z.abs (Z.land f m)) + 1). split; [lia|].
      apply andb_true_iff. rewrite <- Z.land_spec. apply Z.bits_iff_neg; [lia|done].
    + exists (Z.log2 (Z.land f m)). split; [apply Z.log2_nonneg|].
      apply andb_true_iff. rewrite <- Z.land_spec. apply Z.bit_log2. lia.
  - intros (i & Hi & Hf & Hm) E. assert (Z.testbit (Z.land f m) i = true) by (rewrite Z.land_spec, Hf; done).
    rewrite E, Z.bits_0 in *. done.
Qed.

Lemma has_iff f m f' m' : (forall i, 0 <= i -> (Z.testbit f i && Z.testbit m i) = (Z.testbit f' i && Z.testbit m' i)) ->
  has f m = has f' m'.
Proof.
  intros E. apply eq_true_iff_eq. rewrite !has_bit.
  split; intros (i & Hi & H1 & H2); exists i; specialize (E i Hi); rewrite H1, H2 in E; cbn in E;
    destruct (Z.testbit _ i), (Z.testbit _ i); done.
Qed.

Lemma has_lor_l f a m : has (Z.lor f a) m = has f m || has a m.
Proof.
  apply eq_true_iff_eq. rewrite orb_true_iff, !has_bit. split.
  - intros (i & Hi & H1 & H2). rewrite Z.lor_spec, orb_true_iff in H1. destruct H1; [left|right]; eauto.
  - intros [(i & Hi & H1 & H2)|(i & Hi & H1 & H2)]; exists i; rewrite Z.lor_spec, H1; auto using orb_true_r.
Qed.

Lemma has_lor_r f a b : has f (Z.lor a b) = has f a || has f b.
Proof. unfold has. rewrite (Z.land_comm f (Z.lor a b)), (Z.land_comm f a), (Z.land_comm f b). apply has_lor_l. Qed.

(** Clearing bits outside a mask, and all of its bits. *)
Lemma has_andnot_other f a m : Z.land a m = 0 -> has (andnot f a) m = has f m.
Proof.
  intros E. apply has_iff. intros i Hi. unfold andnot. rewrite Z.ldiff_spec.
  assert (Z.testbit a i && Z.testbit m i = false) as Ha by (rewrite <- Z.land_spec, E; apply Z.bits_0).
  destruct (Z.testbit f i), (Z.testbit a i), (Z.testbit m i); done.
Qed.

Lemma has_andnot_same f a m : Z.land a m = m -> has (andnot f a) m = false.
Proof.
  intros E. apply not_true_iff_false. rewrite has_bit. intros (i & Hi & H1 & H2).
  unfold andnot in H1. rewrite Z.ldiff_spec in H1. rewrite <- E, Z.land_spec in H2.
  destruct (Z.testbit a i); [|done]. by rewrite andb_false_r in H1.
Qed.

Lemma has_kept f clr k m : Z.land k m = m -> has (andnot f (andnot clr k)) m = has f m.
Proof.
  intros E. apply has_iff. intros i Hi. unfold andnot. rewrite !Z.ldiff_spec.
  assert (Z.testbit m i = true -> Z.testbit k i = true) as Hk.
  { intros H. rewrite <- E, Z.land_spec in H. by destruct (Z.testbit k i). }
  destruct (Z.testbit f i), (Z.testbit clr i), (Z.testbit k i), (Z.testbit m i); auto; by specialize (Hk eq_refl).
Qed.

Definition att (f : Z) : bool := has f VM_DEBUG_ATTACHED.
Definition gone (f : Z) : bool := has f VM_GONE.
Definition traced (f : Z) : bool := att f && negb (gone f).

(** ** The invariant *)

Definition known (w : World) (v : Z) : Prop := is_Some (w_vms w !! v).

(** Every traced thread is in the table under its own id, or is a child whose
    creator has not returned from [on_create_vm]; the vms the server can name
    exist; ids are not shared. *)
Record inv (w : World) : Prop := {
  i_key : forall pid e, tasks w !! pid = Some e -> exists t, w_vms w !! vmp e = Some t /\ t_id t = pid;
  i_ids : forall v1 v2 t1 t2, w_vms w !! v1 = Some t1 -> w_vms w !! v2 = Some t2 -> t_id t1 = t_id t2 -> v1 = v2;
  i_main : known w (main_vm (w_gdb w));
  i_cur : known w (current_vm (w_gdb w));
  i_pids : forall pid v, w_pids w !! pid = Some v -> exists t, w_vms w !! v = Some t /\ t_id t = pid;
  i_pend : forall v b, w_pending w !! v = Some b -> known w v;
  i_traced : forall v t, w_vms w !! v = Some t -> traced (t_flags t) = true ->
    is_Some (w_pending w !! v) \/ exists e, tasks w !! t_id t = Some e /\ vmp e = v
}.

(** Updates that keep it for every state. *)
Record quiet (w w' : World) : Prop := {
  q_id : forall v, t_id <$> w_vms w' !! v = t_id <$> w_vms w !! v;
  q_traced : forall v t t', w_vms w !! v = Some t -> w_vms w' !! v = Some t' ->
    traced (t_flags t') = true -> traced (t_flags t) = true;
  q_gone : forall v t t', w_vms w !! v = Some t -> w_vms w' !! v = Some t' ->
    gone (t_flags t) = true -> gone (t_flags t') = true;
  q_task : forall pid, vmp <$> tasks w' !! pid = vmp <$> tasks w !! pid;
  q_main : main_vm (w_gdb w') = main_vm (w_gdb w);
  q_cur : current_vm (w_gdb w') = current_vm (w_gdb w) \/ known w (current_vm (w_gdb w'));
  q_pids : forall pid v, w_pids w' !! pid = Some v -> w_pids w !! pid = Some v;
  q_pend : w_pending w' = w_pending w
}.

Lemma quiet_refl w : quiet w w.
Proof. split; try done; try (by left); intros v t t' H1 H2; by simplify_eq. Qed.

(** Worlds with the same vms under the same ids. *)
Definition same_ids (w w' : World) : Prop := forall v, t_id <$> w_vms w' !! v = t_id <$> w_vms w !! v.

Lemma ids_look w w' v t' : same_ids w w' -> w_vms w' !! v = Some t' ->
  exists t, w_vms w !! v = Some t /\ t_id t = t_id t'.
Proof.
  intros Hq Hv. specialize (Hq v). rewrite Hv in Hq.
  destruct (w_vms w !! v) as [t|]; [|done]. exists t. split; [done|]. by injection Hq.
Qed.
Lemma ids_look_r w w' v t : same_ids w w' -> w_vms w !! v = Some t ->
  exists t', w_vms w' !! v = Some t' /\ t_id t' = t_id t.
Proof.
  intros Hq Hv. specialize (Hq v). rewrite Hv in Hq.
  destruct (w_vms w' !! v) as [t'|]; [|done]. exists t'. split; [done|]. by injection Hq.
Qed.
Lemma ids_known w w' v : same_ids w w' -> known w v <-> known w' v.
Proof.
  intros Hq. specialize (Hq v). unfold known. destruct (w_vms w !! v), (w_vms w' !! v); try done; by split.
Qed.
Lemma quiet_known w w' v : quiet w w' -> known w v <-> known w' v.
Proof. intros Hq. apply ids_known. exact (q_id _ _ Hq). Qed.

Lemma quiet_trans w1 w2 w3 : quiet w1 w2 -> quiet w2 w3 -> quiet w1 w3.
Proof.
  intros H12 H23. split.
  - intros v. by rewrite (q_id _ _ H23), (q_id _ _ H12).
  - intros v t t' H1 H3 Ht. destruct (ids_look_r _ _ _ _ (q_id _ _ H12) H1) as (t2 & H2 & _).
    eapply (q_traced _ _ H12); [done..|]. by eapply (q_traced _ _ H23).
  - intros v t t' H1 H3 Ht. destruct (ids_look_r _ _ _ _ (q_id _ _ H12) H1) as (t2 & H2 & _).
    eapply (q_gone _ _ H23); [done..|]. by eapply (q_gone _ _ H12).
  - intros pid. by rewrite (q_task _ _ H23), (q_task _ _ H12).
  - by rewrite (q_main _ _ H23), (q_main _ _ H12).
  - destruct (q_cur _ _ H23) as [->|Hk].
    + apply (q_cur _ _ H12).
    + right. by apply (quiet_known _ _ _ H12).
  - intros pid v Hp. by apply (q_pids _ _ H12), (q_pids _ _ H23).
  - by rewrite (q_pend _ _ H23), (q_pend _ _ H12).
Qed.

(** The vms and the table stay; the traced threads are accounted for anew. *)
Lemma inv_ids w w' :
  same_ids w w' -> (forall pid, vmp <$> tasks w' !! pid = vmp <$> tasks w !! pid) ->
  main_vm (w_gdb w') = main_vm (w_gdb w) ->
  (current_vm (w_gdb w') = current_vm (w_gdb w) \/ known w (current_vm (w_gdb w'))) ->
  (forall pid v, w_pids w' !! pid = Some v -> w_pids w !! pid = Some v) ->
  (forall v b, w_pending w' !! v = Some b -> known w v) ->
  (forall v t t', w_vms w !! v = Some t -> w_vms w' !! v = Some t' -> traced (t_flags t') = true ->
     is_Some (w_pending w' !! v) \/ exists e, tasks w !! t_id t = Some e /\ vmp e = v) ->
  inv w -> inv w'.
Proof.
  intros Hq Htk Hmn Hcr Hps Hpd Htr [Hk Hi Hm Hc Hp Hpe _]. split.
  - intros pid e He. specialize (Htk pid) as E. rewrite He in E.
    destruct (tasks w !! pid) as [e0|] eqn:H0; [|done]. injection E as E.
    destruct (Hk pid e0 H0) as (t & Hv & Hid). rewrite <- E in Hv.
    destruct (ids_look_r _ _ _ _ Hq Hv) as (t' & Hv' & E'). exists t'. split; [done|]. congruence.
  - intros v1 v2 t1 t2 H1 H2 E. destruct (ids_look _ _ _ _ Hq H1) as (s1 & G1 & E1).
    destruct (ids_look _ _ _ _ Hq H2) as (s2 & G2 & E2). apply (Hi v1 v2 s1 s2); congruence.
  - rewrite Hmn. by apply (ids_known _ _ _ Hq).
  - destruct Hcr as [->|Hk']; by apply (ids_known _ _ _ Hq).
  - intros pid v H. apply Hps in H. destruct (Hp pid v H) as (t & Hv & Hid).
    destruct (ids_look_r _ _ _ _ Hq Hv) as (t' & Hv' & E'). exists t'. split; [done|]. congruence.
  - intros v b H. apply (ids_known _ _ _ Hq). by eapply Hpd.
  - intros v t' Hv Ht'. destruct (ids_look _ _ _ _ Hq Hv) as (t & Hv0 & E).
    destruct (Htr v t t' Hv0 Hv Ht') as [?|(e & He & Hvm)]; [by left|right].
    specialize (Htk (t_id t)) as Et. rewrite He, E in Et.
    destruct (tasks w' !! t_id t') as [e'|]; [|done]. exists e'. split; [done|]. injection Et as Et. congruence.
Qed.

Lemma inv_quiet w w' : quiet w w' -> inv w -> inv w'.
Proof.
  intros Hq Hw. apply (inv_ids w w'); try exact (q_id _ _ Hq); try apply Hq; try done.
  - intros v b. rewrite (q_pend _ _ Hq). apply (i_pend _ Hw).
  - intros v t t' H0 H1 Ht. rewrite (q_pend _ _ Hq). apply (i_traced _ Hw); [done|]. by eapply (q_traced _ _ Hq).
Qed.

(** *** Quiet updates *)

Lemma quiet_upd_vm v f w :
  (forall t, w_vms w !! v = Some t -> t_id (f t) = t_id t /\
     (traced (t_flags (f t)) = true -> traced (t_flags t) = true) /\
     (gone (t_flags t) = true -> gone (t_flags (f t)) = true)) ->
  quiet w (upd_vm v f w).
Proof.
  intros Hf. assert (forall u, w_vms (upd_vm v f w) !! u = if decide (u = v) then f <$> w_vms w !! u else w_vms w !! u) as E.
  { intros u. cbn. destruct (decide (u = v)) as [->|]; [by rewrite lookup_alter_eq|by rewrite lookup_alter_ne]. }
  split; try done; try (by left).
  - intros u. rewrite E. case_decide; [subst u|done]. destruct (w_vms w !! v) eqn:Hv; [|done]. cbn. f_equal.
    by apply Hf.
  - intros u t t' Hu. rewrite E. case_decide; [subst u|]; rewrite Hu; [|by intros [= <-]].
    cbn. intros [= <-]. by apply Hf.
  - intros u t t' Hu. rewrite E. case_decide; [subst u|]; rewrite Hu; [|by intros [= <-]].
    cbn. intros [= <-]. by apply Hf.
Qed.

(** Flag changes: bits other than the attach bit may come, no bit of a gone
    thread goes. *)
Lemma quiet_flags v g w :
  (forall f, (att (g f) = true -> att f = true) /\ (gone f = true -> gone (g f) = true)) ->
  quiet w (upd_vm v (fun t => put_tflags (g (t_flags t)) t) w).
Proof.
  intros Hg. apply quiet_upd_vm. intros t _. destruct (Hg (t_flags t)) as [Ha Hd]. cbn. split; [done|].
  split; [|done]. unfold traced. rewrite !andb_true_iff, !negb_true_iff. intros [H1 H2]. split; [auto|].
  apply not_true_iff_false. intros H3. apply Hd in H3. congruence.
Qed.

Lemma quiet_stop v w : quiet w (raise_flags v VM_DEBUG_STOP w).
Proof.
  apply (quiet_flags v (fun f => Z.lor f VM_DEBUG_STOP)). intros f. unfold att, gone. rewrite !has_lor_l.
  change (has VM_DEBUG_STOP VM_DEBUG_ATTACHED) with false. change (has VM_DEBUG_STOP VM_GONE) with false.
  by rewrite !orb_false_r.
Qed.
Lemma quiet_kill v w : quiet w (kill v w).
Proof.
  apply (quiet_flags v (fun f => Z.lor f VM_KILLED)). intros f. unfold att, gone. rewrite !has_lor_l.
  change (has VM_KILLED VM_DEBUG_ATTACHED) with false. change (has VM_KILLED VM_GONE) with true.
  by rewrite orb_false_r, orb_true_r.
Qed.
Lemma quiet_drop v m w : Z.land m VM_GONE = 0 -> quiet w (drop_flags v m w).
Proof.
  intros Hm. apply (quiet_flags v (fun f => andnot f m)). intros f. unfold att, gone. rewrite (has_andnot_other f m VM_GONE) by done. split; [|done].
  unfold has, nz. rewrite !negb_true_iff, !Z.eqb_neq. intros H1 H2. apply H1. unfold andnot.
  apply Z.bits_inj'. intros i Hi. rewrite Z.land_spec, Z.ldiff_spec, Z.bits_0.
  pose proof (Z.land_spec f VM_DEBUG_ATTACHED i) as E. rewrite H2, Z.bits_0 in E.
  destruct (Z.testbit f i), (Z.testbit m i), (Z.testbit VM_DEBUG_ATTACHED i); done.
Qed.
Lemma quiet_unstop v w : quiet w (unstop v w).
Proof. by apply quiet_drop. Qed.

Lemma quiet_tasks f w : (forall pid, vmp <$> f (tasks w) !! pid = vmp <$> tasks w !! pid) -> quiet w (upd_tasks f w).
Proof.
  intros Hf. split; try done; try (by left).
  - intros v t t' H1 H2. cbn in H2. by simplify_eq.
  - intros v t t' H1 H2. cbn in H2. by simplify_eq.
Qed.
Lemma quiet_with_task v f w : (forall e, vmp (f e) = vmp e) -> quiet w (with_task v f w).
Proof.
  intros Hf. apply quiet_tasks. intros pid. destruct (decide (pid = id_of w v)) as [->|].
  - rewrite lookup_alter_eq. destruct (tasks w !! id_of w v); [|done]. cbn. by rewrite Hf.
  - by rewrite lookup_alter_ne.
Qed.
Lemma quiet_update_tasks f w : (forall e, vmp (f e) = vmp e) -> quiet w (update_tasks f w).
Proof.
  intros Hf. apply quiet_tasks. intros pid. rewrite lookup_fmap. destruct (tasks w !! pid); [|done]. cbn. by rewrite Hf.
Qed.

Lemma quiet_focus v w : known w v -> quiet w (focus v w).
Proof.
  intros Hk. split; try done; try (by right).
  - intros u t t' H1 H2. cbn in H2. by simplify_eq.
  - intros u t t' H1 H2. cbn in H2. by simplify_eq.
Qed.

(** Updates of the other fields. *)
Lemma quiet_same w w' : w_vms w' = w_vms w -> tasks w' = tasks w -> main_vm (w_gdb w') = main_vm (w_gdb w) ->
  current_vm (w_gdb w') = current_vm (w_gdb w) ->
  (forall pid v, w_pids w' !! pid = Some v -> w_pids w !! pid = Some v) -> w_pending w' = w_pending w -> quiet w w'.
Proof.
  intros Hv Ht Hm Hc Hp Hd. split; rewrite ?Hv, ?Ht; auto.
  - intros v t t' H1 H2. by simplify_eq.
  - intros v t t' H1 H2. by simplify_eq.
Qed.

(** *** Updates that register, attach and untrack *)

Lemma vm_at_some w v t : w_vms w !! v = Some t -> vm_at w v = t.
Proof. intros H. unfold vm_at. by rewrite H. Qed.
Lemma known_look w v : known w v -> w_vms w !! v = Some (vm_at w v).
Proof. intros [t H]. by rewrite (vm_at_some _ _ _ H). Qed.

(** The entry of a vm is its own. *)
Lemma inv_entry w v e : inv w -> known w v -> tasks w !! id_of w v = Some e -> vmp e = v.
Proof.
  intros Hi Hk He. destruct (i_key _ Hi _ _ He) as (t & Ht & Hid).
  eapply (i_ids _ Hi); [exact Ht|by apply known_look|exact Hid].
Qed.

Definition listed (w : World) (v : Z) : Prop := exists e, tasks w !! id_of w v = Some e /\ vmp e = v.

Lemma inv_register w v e : inv w -> known w v -> vmp e = v -> inv (upd_tasks (insert (id_of w v) e) w).
Proof.
  intros [Hk Hi Hm Hc Hp Hpe Ht] Hv He.
  assert (forall pid, tasks (upd_tasks (insert (id_of w v) e) w) !! pid =
            if decide (pid = id_of w v) then Some e else tasks w !! pid) as E.
  { intros pid. unfold tasks, upd_tasks. cbn. destruct (decide (pid = id_of w v)) as [->|];
      [by rewrite lookup_insert_eq|by rewrite lookup_insert_ne]. }
  split; try done.
  - intros pid e'. rewrite E. case_decide as Hd; [|apply Hk]. intros [= <-]. subst pid v.
    exists (vm_at w (vmp e)). split; [exact (known_look w _ Hv)|done].
  - intros u t Hu Htr. rewrite E. destruct (Ht u t Hu Htr) as [?|(e' & He' & Hvm)]; [by left|right].
    case_decide as Hd; [|by exists e']. exists e. split; [done|].
    rewrite He. eapply Hi; [exact (known_look w _ Hv)|exact Hu|done].
Qed.

Lemma ids_upd_vm v f w : (forall t, t_id (f t) = t_id t) -> same_ids w (upd_vm v f w).
Proof.
  intros Hf u. cbn. destruct (decide (u = v)) as [->|]; [|by rewrite lookup_alter_ne].
  rewrite lookup_alter_eq. destruct (w_vms w !! v); [|done]. cbn. by rewrite Hf.
Qed.

Lemma upd_vm_other v f w u t : w_vms (upd_vm v f w) !! u = Some t -> u <> v -> w_vms w !! u = Some t.
Proof. intros Hu Hne. cbn in Hu. by rewrite lookup_alter_ne in Hu. Qed.

Lemma inv_attach w v : inv w -> listed w v -> inv (raise_flags v VM_DEBUG_ATTACHED w).
Proof.
  intros Hw (e & He & Hvm). apply (inv_ids w); try done; [by apply ids_upd_vm|by left|apply (i_pend _ Hw)|].
  intros u t t' H0 H1 Ht. destruct (decide (u = v)) as [->|Hne].
  - right. exists e. unfold id_of in He. by rewrite (vm_at_some _ _ _ H0) in He.
  - apply (upd_vm_other v) in H1; [|done]. simplify_eq. by apply (i_traced _ Hw).
Qed.

Lemma inv_untrack w v : inv w -> known w v -> traced (flags_of w v) = false ->
  inv (upd_tasks (delete (id_of w v)) w).
Proof.
  intros [Hk Hi Hm Hc Hp Hpe Ht] Hv Hf. split; try done.
  - intros pid e He. unfold tasks, upd_tasks in He. cbn in He. apply lookup_delete_Some in He as [_ He]. by apply Hk.
  - intros u t Hu Htr. destruct (Ht u t Hu Htr) as [?|(e & He & Hvm)]; [by left|right].
    exists e. split; [|done]. unfold tasks, upd_tasks. cbn. rewrite lookup_delete_ne; [done|].
    intros Heq. assert (v = u) as ->.
    { eapply Hi; [exact (known_look w _ Hv)|exact Hu|done]. }
    unfold flags_of in Hf. rewrite (vm_at_some w u t Hu) in Hf. congruence.
Qed.

Lemma inv_unpend w v : inv w -> listed w v -> inv (set_pending (delete v (w_pending w)) w).
Proof.
  intros [Hk Hi Hm Hc Hp Hpe Ht] (e & He & Hvm). split; try done.
  - intros u b Hu. cbn in Hu. apply lookup_delete_Some in Hu as [_ Hu]. by eapply Hpe.
  - intros u t Hu Htr. destruct (decide (u = v)) as [->|Hne].
    + right. exists e. split; [|done]. cbn in Hu. unfold id_of in He. by rewrite (vm_at_some w v t Hu) in He.
    + destruct (Ht u t Hu Htr) as [Hs|?]; [left|by right]. cbn. by rewrite lookup_delete_ne.
Qed.

(** *** Events *)

Lemma fresh_child_spec child t w : fresh_child child t w = true ->
  w_vms w !! child = None /\ (forall v t', w_vms w !! v = Some t' -> t_id t' <> t_id t) /\
  att (t_flags t) = false.
Proof.
  unfold fresh_child. rewrite !andb_true_iff, !bool_decide_eq_true, !negb_true_iff.
  intros [[[H1 H2] H3] _]. split; [done|]. split; [exact H2|].
  unfold DEBUG_BITS in H3. rewrite has_lor_r, orb_false_iff in H3. apply H3.
Qed.

Lemma inv_new_vm w v t : inv w -> w_vms w !! v = None -> (forall u t', w_vms w !! u = Some t' -> t_id t' <> t_id t) ->
  traced (t_flags t) = false ->
  inv (set_pids (<[t_id t := v]> (w_pids w)) (set_vms (<[v := t]> (w_vms w)) w)).
Proof.
  intros [Hk Hi Hm Hc Hp Hpe Ht] Hn Hid Htr.
  assert (forall u, known w u -> u <> v) as Hne by (intros u [t' Hu] ->; congruence).
  assert (forall u, known w u -> <[v := t]> (w_vms w) !! u = w_vms w !! u) as Hl.
  { intros u Hu. rewrite lookup_insert_ne; [done|]. intros E. by apply (Hne u). }
  assert (forall u t', <[v := t]> (w_vms w) !! u = Some t' -> u = v /\ t' = t \/ w_vms w !! u = Some t') as Hin.
  { intros u t'. rewrite lookup_insert_Some. intros [[<- <-]|[_ H]]; auto. }
  split; cbn.
  - intros pid e He. destruct (Hk pid e He) as (t' & Hv & E). exists t'. split; [|done].
    rewrite Hl; [done|by exists t'].
  - intros v1 v2 t1 t2 H1 H2 E. apply Hin in H1 as [[-> ->]|H1], H2 as [[-> ->]|H2]; try done.
    + by apply Hid in H2.
    + by apply Hid in H1.
    + by eapply Hi.
  - unfold known. cbn. by rewrite Hl.
  - unfold known. cbn. by rewrite Hl.
  - intros pid u. rewrite lookup_insert_Some. intros [[<- <-]|[_ Hu]].
    + exists t. by rewrite lookup_insert_eq.
    + destruct (Hp pid u Hu) as (t' & Hv & E). exists t'. rewrite Hl; [done|by exists t'].
  - intros u b Hu. apply Hpe in Hu. unfold known. cbn. by rewrite Hl.
  - intros u t' Hu Htr'. apply Hin in Hu as [[-> ->]|Hu]; [congruence|]. by apply Ht.
Qed.

(** The child waits to be entered into the table. *)
Lemma inv_pend w v : inv w -> known w v ->
  inv (set_pending (<[v := true]> (w_pending w)) (raise_flags v VM_DEBUG_ATTACHED w)).
Proof.
  intros Hw Hv. apply (inv_ids w); try done; [by apply (ids_upd_vm v)|by left| |].
  - intros u b. cbn. rewrite lookup_insert_Some. intros [[<- _]|[_ Hu]]; [done|by eapply (i_pend _ Hw)].
  - intros u t t' H0 H1 Ht. cbn. destruct (decide (u = v)) as [->|Hne].
    + left. rewrite lookup_insert_eq. eauto.
    + apply (upd_vm_other v) in H1; [|done]. simplify_eq.
      destruct (i_traced _ Hw u _ H0 Ht) as [?|?]; [left|by right]. by rewrite lookup_insert_ne.
Qed.

Lemma register_inv parent child is_thread w :
  inv w -> is_Some (w_pending w !! child) -> inv (register_child parent child is_thread w).
Proof.
  intros Hw [b Hp]. pose proof (i_pend _ Hw _ _ Hp) as Hk. unfold register_child.
  set (ce := match task_of w child with Some _ => _ | None => _ end).
  assert (vmp ce = child) as Hce by (unfold ce; by destruct (task_of w child)).
  set (w0 := upd_tasks (insert (id_of w child) ce) (set_pending (delete child (w_pending w)) w)).
  assert (inv w0) as Hw0.
  { apply (inv_unpend (upd_tasks (insert (id_of w child) ce) w)); [by apply inv_register|].
    exists ce. split; [|done]. unfold tasks, upd_tasks. cbn. by rewrite lookup_insert_eq. }
  assert (inv (raise_flags child VM_DEBUG_STOP w0)) as Hw1 by (eapply inv_quiet; [apply quiet_stop|done]).
  case_match; [|done]. eapply inv_quiet; [apply quiet_stop|]. by eapply inv_quiet; [apply quiet_with_task|].
Qed.

Lemma attach_inv parent child t w : inv w -> fresh_child child t w = true -> inv (attach_child parent child t w).
Proof.
  intros Hw (Hn & Hid & Ha)%fresh_child_spec.
  assert (traced (t_flags t) = false) as Htr by (unfold traced; by rewrite Ha).
  pose proof (inv_new_vm w child t Hw Hn Hid Htr) as Hw1. unfold attach_child. case_match; [|done].
  apply (inv_pend _ child Hw1). exists t. cbn. apply lookup_insert_eq.
Qed.

Lemma quiet_park v w : quiet w (park_if_stopped v w).
Proof. unfold park_if_stopped. case_match; [|apply quiet_refl]. by apply quiet_upd_vm. Qed.

Lemma quiet_hook v w : quiet w (breakpoint_hook v w).
Proof.
  unfold breakpoint_hook. repeat case_match; try apply quiet_refl; [|apply quiet_stop].
  eapply quiet_trans; [|apply quiet_stop]. by apply quiet_with_task.
Qed.

Lemma quiet_syscall b v call w : quiet w (syscall_cb b v call w).
Proof.
  unfold syscall_cb. repeat case_match; try apply quiet_refl;
    (eapply quiet_trans; [|apply quiet_stop]; by apply quiet_with_task).
Qed.

Lemma quiet_posix v set clr w :
  quiet w (upd_vm v (fun t => put_tflags (Z.lor (andnot (t_flags t) (andnot clr KEPT_BITS)) (andnot set DEBUG_BITS)) t) w).
Proof.
  apply (quiet_flags v (fun f => Z.lor (andnot f (andnot clr KEPT_BITS)) (andnot set DEBUG_BITS))).
  intros f. unfold att, gone. rewrite !has_lor_l, !has_kept by done.
  rewrite (has_andnot_same set DEBUG_BITS VM_DEBUG_ATTACHED) by done. rewrite orb_false_r. split; [done|].
  intros ->. done.
Qed.

Lemma quiet_run v pc regs m w :
  quiet w (set_whost (hst m) (upd_vm v (fun t => put_tmem (tlb m) (maps m) (put_treg regs (put_tpc pc t))) w)).
Proof.
  apply (quiet_trans _ (upd_vm v (fun t => put_tmem (tlb m) (maps m) (put_treg regs (put_tpc pc t))) w)).
  - by apply quiet_upd_vm.
  - by apply quiet_same.
Qed.

Lemma event_inv e w : inv w -> inv (guest_event e w).
Proof.
  assert (forall v f, (forall w, inv w -> inv (f w)) -> forall w, inv w -> inv (if_running v f w)) as Hrun.
  { intros v f Hf u Hu. unfold if_running. case_match; [done|by apply Hf]. }
  intros Hw. destruct e as [v|v b call|parent child t|parent child is_thread|v pc regs m|v set clr|v base exe|pid|v|bytes];
    cbn [guest_event]; try (apply Hrun; [clear w Hw; intros w Hw|done]).
  - case_match; [|done]. eapply inv_quiet; [apply quiet_park|]. by eapply inv_quiet; [apply quiet_hook|].
  - case_match; [|done]. eapply inv_quiet; [apply quiet_park|]. by eapply inv_quiet; [apply quiet_syscall|].
  - case_match; [|done]. by apply attach_inv.
  - case_decide; [|done]. by apply register_inv.
  - eapply inv_quiet; [apply quiet_run|exact Hw].
  - eapply inv_quiet; [|exact Hw]. apply quiet_posix.
  - eapply inv_quiet; [|exact Hw]. by apply quiet_upd_vm.
  - eapply inv_quiet; [|exact Hw]. apply quiet_same; try done. cbn. intros p v Hp.
    by apply lookup_delete_Some in Hp as [_ Hp].
  - case_match; [|done]. eapply inv_quiet; [|exact Hw]. by apply quiet_upd_vm.
  - eapply inv_quiet; [|exact Hw]. by apply quiet_same.
Qed.

(** What the guest does while the server sleeps keeps the vms the server knows,
    and a gone thread stays gone. *)
Definition older (w w' : World) : Prop :=
  forall v t, w_vms w !! v = Some t -> exists t', w_vms w' !! v = Some t' /\ t_id t' = t_id t /\
    (gone (t_flags t) = true -> gone (t_flags t') = true).

Lemma older_refl w : older w w.
Proof. intros v t H. eauto. Qed.
Lemma older_trans w1 w2 w3 : older w1 w2 -> older w2 w3 -> older w1 w3.
Proof.
  intros H12 H23 v t H1. destruct (H12 v t H1) as (t2 & H2 & E2 & G2).
  destruct (H23 v t2 H2) as (t3 & H3 & E3 & G3). exists t3. split; [done|]. split; [congruence|auto].
Qed.
Lemma older_quiet w w' : quiet w w' -> older w w'.
Proof.
  intros Hq v t H. destruct (ids_look_r _ _ _ _ (q_id _ _ Hq) H) as (t' & H' & E). exists t'.
  split; [done|]. split; [done|]. by eapply (q_gone _ _ Hq).
Qed.
Lemma older_known w w' v : older w w' -> known w v -> known w' v.
Proof. intros Ho [t H]. destruct (Ho v t H) as (t' & H' & _). by exists t'. Qed.
Lemma older_vms w w' : w_vms w' = w_vms w -> older w w'.
Proof. intros E v t H. rewrite E. eauto. Qed.
Lemma older_attach w v : older w (raise_flags v VM_DEBUG_ATTACHED w).
Proof.
  intros u t H. cbn. destruct (decide (u = v)) as [->|].
  - rewrite lookup_alter_eq, H. exists (put_tflags (Z.lor (t_flags t) VM_DEBUG_ATTACHED) t).
    split; [done|]. split; [done|]. unfold gone. cbn. rewrite has_lor_l. by intros ->.
  - rewrite lookup_alter_ne by done. eauto.
Qed.

Lemma older_event e w : older w (guest_event e w).
Proof.
  assert (forall v f, (forall w, older w (f w)) -> forall w, older w (if_running v f w)) as Hrun.
  { intros v f Hf u. unfold if_running. case_match; [apply older_refl|by apply Hf]. }
  destruct e as [v|v b call|parent child t|parent child is_thread|v pc regs m|v set clr|v base exe|pid|v|bytes];
    cbn [guest_event]; try (apply Hrun; clear w; intros w).
  - case_match; [|apply older_refl]. apply older_quiet. eapply quiet_trans; [apply quiet_hook|apply quiet_park].
  - case_match; [|apply older_refl]. apply older_quiet. eapply quiet_trans; [apply quiet_syscall|apply quiet_park].
  - destruct (fresh_child child t w) eqn:Hf; [|apply older_refl]. apply fresh_child_spec in Hf as (Hn & _ & _).
    assert (older w (set_pids (<[t_id t := child]> (w_pids w)) (set_vms (<[child := t]> (w_vms w)) w))) as H1.
    { intros u t' H. exists t'. cbn. rewrite lookup_insert_ne; [done|]. intros ->. congruence. }
    unfold attach_child. case_match; [|done]. eapply older_trans; [exact H1|].
    eapply older_trans; [apply (older_attach _ child)|by apply older_vms].
  - case_decide; [|apply older_refl]. unfold register_child.
    set (w0 := upd_tasks _ (set_pending _ w)).
    assert (older w (raise_flags child VM_DEBUG_STOP w0)) as H1.
    { eapply older_trans; [by apply (older_vms w w0)|]. apply older_quiet, quiet_stop. }
    destruct (_ && _); [|done]. eapply older_trans; [exact H1|]. apply older_quiet.
    eapply quiet_trans; [|apply quiet_stop]. by apply quiet_with_task.
  - apply older_quiet, quiet_run.
  - apply older_quiet, quiet_posix.
  - apply older_quiet. by apply quiet_upd_vm.
  - by apply older_vms.
  - case_match; [|apply older_refl]. apply older_quiet. by apply quiet_upd_vm.
  - by apply older_vms.
Qed.

(** ** Rules for the server thread

    [safe l m Q]: from a state with the invariant in which the vms [l] are known,
    [m] ends (or is left waiting) in one with the invariant, the vms of [Q] are
    known there, and gone threads stay gone. *)

Definition ends {A} (w : World) (r : res A) (Q : A -> list Z) : Prop :=
  match r with
  | Done a w' => inv w' /\ older w w' /\ Forall (known w') (Q a)
  | Throws => True
  | Waits w' => inv w' /\ older w w'
  end.
Definition safe {A} (l : list Z) (m : G A) (Q : A -> list Z) : Prop :=
  forall w, inv w -> Forall (known w) l -> ends w (m w) Q.

Definition none {A} (_ : A) : list Z := [].

Lemma older_forall w w' l : older w w' -> Forall (known w) l -> Forall (known w') l.
Proof. intros Ho Hl. eapply list.Forall_impl; [exact Hl|]. intros v. by apply older_known. Qed.

Lemma ends_bind {A B} l w (m : G A) (k : A -> G B) Q R :
  Forall (known w) l -> ends w (m w) Q -> (forall a, safe (Q a ++ l) (k a) R) -> ends w (gbind m k w) R.
Proof.
  intros Hl Hm Hk. unfold gbind. destruct (m w) as [a w1| |w1]; [|done|done].
  destruct Hm as (H1 & Ho & Hq). specialize (Hk a w1 H1).
  assert (Forall (known w1) (Q a ++ l)) as Hl1 by (apply Forall_app; split; [done|by eapply older_forall]).
  specialize (Hk Hl1). destruct (k a w1) as [b w2| |w2]; [|done|].
  - destruct Hk as (? & ? & ?). split; [done|]. split; [by eapply older_trans|done].
  - destruct Hk as (? & ?). split; [done|by eapply older_trans].
Qed.
Lemma safe_bind {A B} l (m : G A) (k : A -> G B) Q R :
  safe l m Q -> (forall a, safe (Q a ++ l) (k a) R) -> safe l (gbind m k) R.
Proof. intros Hm Hk w Hw Hl. eapply ends_bind; [exact Hl|by apply Hm|done]. Qed.

Lemma safe_weaken {A} l l' (m : G A) Q : (forall v, v ∈ l -> v ∈ l') -> safe l m Q -> safe l' m Q.
Proof.
  intros Hs Hm w Hw Hl. apply Hm; [done|]. rewrite list.Forall_forall in *. auto.
Qed.

Lemma safe_none {A} l (m : G A) Q : safe l m Q -> safe l m none.
Proof.
  intros Hm w Hw Hl. specialize (Hm w Hw Hl). destruct (m w); [|done|done].
  destruct Hm as (? & ? & _). split; [done|]. split; [done|constructor].
Qed.

Lemma safe_ret {A} l (a : A) : safe l (gret a) none.
Proof. intros w Hw Hl. split; [done|]. split; [apply older_refl|constructor]. Qed.
Lemma safe_gets {A} l (f : World -> A) : safe l (gets f) none.
Proof. intros w Hw Hl. split; [done|]. split; [apply older_refl|constructor]. Qed.
Lemma safe_throw {A} l : safe l (fun _ => @Throws A) none.
Proof. done. Qed.
Lemma safe_waits {A} l : safe l (fun w => @Waits A w) none.
Proof. intros w Hw Hl. split; [done|apply older_refl]. Qed.

Lemma safe_current l : safe l current (fun v => [v]).
Proof.
  intros w Hw Hl. split; [done|]. split; [apply older_refl|].
  apply Forall_cons_2; [apply (i_cur _ Hw)|constructor].
Qed.

Lemma safe_modify l f : (forall w, inv w -> Forall (known w) l -> inv (f w) /\ older w (f w)) -> safe l (modify f) none.
Proof. intros Hf w Hw Hl. destruct (Hf w Hw Hl). split; [done|]. split; [done|constructor]. Qed.

Lemma safe_quiet l f : (forall w, inv w -> Forall (known w) l -> quiet w (f w)) -> safe l (modify f) none.
Proof.
  intros Hf. apply safe_modify. intros w Hw Hl. specialize (Hf w Hw Hl).
  split; [by eapply inv_quiet|by apply older_quiet].
Qed.

Lemma quiet_in x w : quiet w (set_in x w).
Proof. by apply quiet_same. Qed.
Lemma quiet_out x w : quiet w (set_out x w).
Proof. by apply quiet_same. Qed.

Lemma safe_send l x : safe l (send x) none.
Proof. apply safe_quiet. intros. apply quiet_out. Qed.
Lemma safe_send_packet l x : safe l (send_packet x) none.
Proof. apply safe_send. Qed.

Lemma events_inv l w : inv w -> inv (foldl (fun w e => guest_event e w) w l).
Proof. revert w. induction l as [|e l IH]; intros w Hw; [done|]. cbn. by apply IH, event_inv. Qed.
Lemma events_older l w : older w (foldl (fun w e => guest_event e w) w l).
Proof.
  revert w. induction l as [|e l IH]; intros w; [apply older_refl|]. cbn.
  eapply older_trans; [apply older_event|apply IH].
Qed.

Lemma safe_sleep l : safe l sleep none.
Proof.
  intros w Hw Hl. unfold sleep. destruct (w_script w) as [|evs r]; [by split; [|apply older_refl]|].
  assert (inv (set_script r w)) as H1 by (apply (inv_quiet w); [by apply quiet_same|done]).
  split; [by apply events_inv|]. split; [|constructor].
  eapply older_trans; [|apply events_older]. by apply older_vms.
Qed.

Lemma safe_peek l : safe l peek_ctrl_c none.
Proof.
  intros w Hw Hl. unfold peek_ctrl_c. destruct (w_in w) as [|c r]; [|destruct (c =? 3)];
    (split; [|split; [|constructor]]); try exact Hw; try apply older_refl.
  - eapply inv_quiet; [apply quiet_in|done].
  - apply older_quiet, quiet_in.
Qed.

(** [safe_step] takes one operation off a computation; [safe] walks it. *)
Create HintDb safe.
#[export] Hint Resolve safe_ret safe_gets safe_throw safe_waits safe_send safe_send_packet safe_sleep safe_peek : safe.

Ltac safe_step :=
  first
  [ solve [eauto with safe]
  | lazymatch goal with
    | |- safe _ (gbind _ _) _ => eapply safe_bind; [|intros ?; cbn [none app]]
    | |- safe _ (if ?b then _ else _) _ => destruct b
    | |- safe _ (match ?x with _ => _ end) _ => destruct x
    end ].
Ltac safe_walk := repeat safe_step.

(** *** Flags and the table *)

Lemma quiet_fold {A} (f : World -> A -> World) (l : list A) w : (forall w x, quiet w (f w x)) -> quiet w (foldl f w l).
Proof.
  intros Hf. revert w. induction l as [|x l IH]; intros w; [apply quiet_refl|]. cbn.
  eapply quiet_trans; [apply Hf|apply IH].
Qed.

Lemma quiet_stepping v w : quiet w (mark_stepping v w).
Proof. by apply quiet_with_task. Qed.

Lemma quiet_request v w : quiet w (request_stop v w).
Proof. apply quiet_stop. Qed.

Section ServerFacts.
Context {ord : HashOrder} {env : HostEnv}.

Lemma quiet_stop_all w : quiet w (stop_all_vms w).
Proof.
  apply quiet_fold. intros u v. unfold stop_one. case_match; [apply quiet_refl|apply quiet_stop].
Qed.

Lemma quiet_continue_all w : quiet w (continue_all_vms w).
Proof.
  unfold continue_all_vms. set (w1 := update_tasks _ w).
  apply (quiet_trans _ w1); [by apply quiet_update_tasks|]. apply quiet_fold. intros u v. case_match; [apply quiet_unstop|apply quiet_refl].
Qed.

Lemma quiet_release v w : quiet w (release v w).
Proof. unfold release. case_match; [apply quiet_refl|by apply quiet_drop]. Qed.

Lemma quiet_release_one actions w v : quiet w (release_one actions w v).
Proof.
  unfold release_one. case_match; [|apply quiet_unstop].
  eapply quiet_trans; [apply quiet_unstop|apply quiet_stepping].
Qed.

(** A released thread is not traced any more. *)
Lemma release_untraced v w : traced (flags_of (release v w) v) = false.
Proof.
  unfold release, is_vm_exited, traced, att, gone. destruct (has (flags_of w v) VM_GONE) eqn:Hg.
  - by rewrite Hg, andb_false_r.
  - unfold flags_of, vm_at, drop_flags, upd_vm. cbn. rewrite lookup_alter_eq.
    destruct (w_vms w !! v) as [t|] eqn:Hv; [|done]. cbn. by rewrite has_andnot_same.
Qed.

Lemma untraced_quiet w w' v : quiet w w' -> known w v -> traced (flags_of w v) = false -> traced (flags_of w' v) = false.
Proof.
  intros Hq [t Hv] Hf. destruct (ids_look_r _ _ _ _ (q_id _ _ Hq) Hv) as (t' & Hv' & _).
  unfold flags_of in *. rewrite (vm_at_some _ _ _ Hv) in Hf. rewrite (vm_at_some _ _ _ Hv').
  apply not_true_iff_false. intros Ht. eapply (q_traced _ _ Hq) in Ht; [|done..]. congruence.
Qed.

Lemma task_list_in w e : e ∈ task_list w <-> exists pid, tasks w !! pid = Some e.
Proof.
  unfold task_list. rewrite list_elem_of_omap. split; [intros (pid & _ & H); eauto|].
  intros [pid H]. exists pid. split; [|done]. rewrite hash_order_perm. apply elem_of_elements, elem_of_dom. eauto.
Qed.

Lemma inv_detach v w : inv w -> known w v -> inv (detach_vm v w).
Proof.
  intros Hw Hk. unfold detach_vm, task_of. destruct (tasks w !! id_of w v) as [e|] eqn:He; [|done].
  pose proof (inv_entry w v e Hw Hk He) as ->. pose proof (quiet_release v w) as Hq.
  assert (release v (upd_tasks (delete (id_of w v)) w) = upd_tasks (delete (id_of (release v w) v)) (release v w)) as ->.
  { assert (id_of (release v w) v = id_of w v) as ->.
    { destruct Hk as [t Hv]. destruct (ids_look_r _ _ _ _ (q_id _ _ Hq) Hv) as (t' & Hv' & E).
      unfold id_of. by rewrite (vm_at_some _ _ _ Hv), (vm_at_some _ _ _ Hv'). }
    unfold release, is_vm_exited. change (flags_of (upd_tasks (delete (id_of w v)) w) v) with (flags_of w v).
    by case_match. }
  apply inv_untrack; [by eapply inv_quiet|by apply (quiet_known _ _ _ Hq)|apply release_untraced].
Qed.

Lemma older_detach v w : older w (detach_vm v w).
Proof.
  unfold detach_vm. case_match; [|apply older_refl].
  eapply older_trans; [by apply (older_vms w (upd_tasks (delete (id_of w v)) w))|apply older_quiet, quiet_release].
Qed.

Lemma releases_untraced l w : inv w -> Forall (known w) l ->
  forall v, v ∈ l -> traced (flags_of (foldl (fun w v => release v w) w l) v) = false.
Proof.
  revert w. induction l as [|u l IH]; intros w Hw Hl v Hv; [by apply elem_of_nil in Hv|].
  apply list.Forall_cons in Hl as [Hu Hl]. cbn. pose proof (quiet_release u w) as Hq.
  assert (Forall (known (release u w)) l) as Hl1 by (eapply older_forall; [by apply older_quiet|done]).
  apply elem_of_cons in Hv as [->|Hv].
  - eapply (untraced_quiet (release u w)); [apply quiet_fold; intros; apply quiet_release| |apply release_untraced].
    by apply (quiet_known _ _ _ Hq).
  - apply IH; [by eapply inv_quiet|done..].
Qed.

Lemma tasks_known w : inv w -> Forall (known w) (vmp <$> task_list w).
Proof.
  intros Hw. apply list.Forall_forall. intros v (e & -> & He)%list_elem_of_fmap.
  apply task_list_in in He as [pid He]. destruct (i_key _ Hw _ _ He) as (t & Ht & _). by exists t.
Qed.

(** Releasing every vm of the table and emptying it. *)
Definition released_world (w : World) : World :=
  upd_tasks (fun _ => ∅) (foldl (fun w v => release v w) w (vmp <$> task_list w)).

Lemma released_world_eq w :
  foldl (fun w v => release v w) (upd_tasks (fun _ => ∅) w) (vmp <$> task_list w) = released_world w.
Proof.
  unfold released_world. generalize (vmp <$> task_list w). intros l. revert w.
  induction l as [|v l IH]; intros w; [done|]. cbn [foldl].
  assert (release v (upd_tasks (fun _ => ∅) w) = upd_tasks (fun _ => ∅) (release v w)) as ->; [|apply IH].
  unfold release, is_vm_exited. change (flags_of (upd_tasks (fun _ => ∅) w) v) with (flags_of w v). by case_match.
Qed.

Lemma inv_released w : inv w -> inv (released_world w).
Proof.
  intros Hw. unfold released_world.
  set (w1 := foldl (fun w v => release v w) w (vmp <$> task_list w)).
  assert (quiet w w1) as Hq by (apply quiet_fold; intros; apply quiet_release).
  pose proof (inv_quiet _ _ Hq Hw) as [Hk Hi Hm Hc Hp Hpe Ht]. split; try done.
  intros v t Hv Htr. destruct (Ht v t Hv Htr) as [?|(e & He & Hvm)]; [by left|exfalso].
  pose proof (q_task _ _ Hq (t_id t)) as E. rewrite He in E.
  destruct (tasks w !! t_id t) as [e0|] eqn:H0; [|done]. injection E as E.
  assert (traced (flags_of w1 v) = false) as Hf.
  { apply (releases_untraced _ w Hw (tasks_known w Hw)). rewrite <- Hvm, E.
    apply list_elem_of_fmap_2, task_list_in. eauto. }
  unfold flags_of in Hf. rewrite (vm_at_some w1 v t Hv) in Hf. congruence.
Qed.

Lemma inv_end_session w : inv w -> inv (end_session w).
Proof.
  intros Hw. unfold end_session. rewrite released_world_eq. pose proof (inv_released w Hw) as H1.
  eapply inv_quiet; [|exact H1]. split; try done.
  - intros v t t' A B. change (w_vms (released_world w) !! v = Some t') in B. by simplify_eq.
  - intros v t t' A B. change (w_vms (released_world w) !! v = Some t') in B. by simplify_eq.
  - right. apply (i_main _ H1).
Qed.

Lemma older_end_session w : older w (end_session w).
Proof.
  unfold end_session. rewrite released_world_eq. unfold released_world.
  apply (older_trans _ (foldl (fun w v => release v w) w (vmp <$> task_list w))); [|by apply older_vms].
  apply older_quiet, (quiet_fold (fun w v => release v w)). intros. apply quiet_release.
Qed.

Lemma listed_register w v : listed (register_task v w) v.
Proof. exists (fresh_task v ∅). split; [|done]. unfold tasks, register_task, upd_tasks. cbn. by rewrite lookup_insert_eq. Qed.

Lemma inv_register_attach v w : inv w -> known w v ->
  inv (request_stop v (raise_flags v VM_DEBUG_ATTACHED (register_task v w))).
Proof.
  intros Hw Hk. eapply inv_quiet; [apply quiet_request|]. apply inv_attach; [by apply inv_register|apply listed_register].
Qed.

Lemma older_register_attach v w : older w (request_stop v (raise_flags v VM_DEBUG_ATTACHED (register_task v w))).
Proof.
  eapply older_trans; [by apply (older_vms w (register_task v w))|].
  eapply older_trans; [apply (older_attach _ v)|apply older_quiet, quiet_request].
Qed.

Lemma safe_attach_on_connect l : safe l (modify attach_on_connect) none.
Proof.
  apply safe_modify. intros w Hw _. unfold attach_on_connect. case_match; [split; [done|apply older_refl]|].
  split; [apply inv_register_attach; [done|apply (i_main _ Hw)]|apply older_register_attach].
Qed.

Lemma safe_attach_vm l v : v ∈ l -> safe l (modify (attach_vm v)) none.
Proof.
  intros Hv. apply safe_modify. intros w Hw Hl. rewrite list.Forall_forall in Hl. specialize (Hl v Hv).
  unfold attach_vm. set (w2 := if is_attached _ v then _ else _).
  assert (inv w2 /\ older w w2) as [H1 Ho].
  { unfold w2. case_match; [|split; [by apply inv_register_attach|apply older_register_attach]].
    split; [by apply inv_register|by apply older_vms]. }
  assert (quiet w2 (focus v w2)) as Hq by (apply quiet_focus; by eapply older_known).
  split; [by eapply inv_quiet|]. eapply older_trans; [exact Ho|by apply older_quiet].
Qed.

(** The literal pid of [start] is the one the main vm gets. *)
Lemma inv_start_stopped w : inv w -> id_of w (main_vm (w_gdb w)) = 1 -> inv (start_stopped w).
Proof.
  intros Hw Hid. unfold start_stopped. set (v := main_vm (w_gdb w)) in *.
  assert (raise_flags v (Z.lor VM_DEBUG_ATTACHED VM_DEBUG_STOP) w = raise_flags v VM_DEBUG_STOP (raise_flags v VM_DEBUG_ATTACHED w)) as E.
  { unfold raise_flags, upd_vm, set_vms. cbn. f_equal. apply map_eq. intros u. destruct (decide (u = v)) as [->|].
    - rewrite !lookup_alter_eq. destruct (w_vms w !! v) as [t|]; [|done]. cbn. unfold put_tflags. cbn. by rewrite Z.lor_assoc.
    - by rewrite !lookup_alter_ne. }
  rewrite E, <- Hid. pose proof (i_main _ Hw) as Hk.
  change (inv (request_stop v (raise_flags v VM_DEBUG_ATTACHED (register_task v w)))). by apply inv_register_attach.
Qed.

(** *** Waiting *)

Lemma safe_ret_known {A} l (a : A) Q : (forall v, v ∈ Q a -> v ∈ l) -> safe l (gret a) Q.
Proof.
  intros Hq w Hw Hl. split; [done|]. split; [apply older_refl|].
  rewrite list.Forall_forall in *. auto.
Qed.

Lemma safe_quiet_all l f : (forall w, quiet w (f w)) -> safe l (modify f) none.
Proof. intros Hf. by apply safe_quiet. Qed.

Hint Resolve safe_quiet_all quiet_stop_all quiet_continue_all quiet_unstop quiet_stepping quiet_request quiet_kill
  safe_attach_on_connect : safe.

Lemma safe_wait_stopped_loop l n v : safe l (wait_stopped_loop n v) none.
Proof. induction n as [|n IH]; cbn [wait_stopped_loop]; safe_walk. Qed.
Hint Resolve safe_wait_stopped_loop : safe.

Lemma safe_wait_stopped l v : safe l (wait_stopped v) none.
Proof. unfold wait_stopped. safe_walk. Qed.
Hint Resolve safe_wait_stopped : safe.

Lemma safe_step_over l v : safe l (step_over v) none.
Proof.
  unfold step_over. eapply safe_bind; [|intros; safe_walk]. apply safe_quiet_all. intros w.
  eapply quiet_trans; [apply quiet_unstop|apply quiet_stepping].
Qed.
Hint Resolve safe_step_over : safe.

Lemma safe_resume l v b : safe l (resume v b) none.
Proof. unfold resume. safe_walk. Qed.
Lemma safe_resume_continue l v : safe l (resume_continue v) none.
Proof. unfold resume_continue. safe_walk. Qed.
Hint Resolve safe_resume safe_resume_continue : safe.

(** A hit of the scan is a vm of the table. *)
Definition hit_of (s : scan) : list Z := match s_hit s with Some h => [h.1] | None => [] end.

Lemma foldl_ind {A B} (P : B -> Prop) (f : B -> A -> B) (l : list A) b :
  P b -> (forall b x, x ∈ l -> P b -> P (f b x)) -> P (foldl f b l).
Proof.
  revert b. induction l as [|x l IH]; intros b Hb Hf; [done|]. cbn. apply IH.
  - apply Hf; [by left|done].
  - intros. apply Hf; [by right|done].
Qed.

(** It is watched, and has stopped or exited. *)
Lemma scan_hit w preferred watch h : s_hit (scan_tasks w preferred watch) = Some h ->
  exists e, e ∈ task_list w /\ vmp e = h.1 /\ h.1 ∈ watch /\ has (flags_of w h.1) VM_SETTLED = true.
Proof.
  unfold scan_tasks. revert h.
  apply (foldl_ind (fun s => forall h, s_hit s = Some h -> exists e, e ∈ task_list w /\ vmp e = h.1 /\
           h.1 ∈ watch /\ has (flags_of w h.1) VM_SETTLED = true)); [done|].
  intros s e He IH h. unfold scan_task.
  assert (forall f, has f VM_SETTLED = has f VM_DEBUG_STOP || has f VM_GONE) as Hset by (intros; apply has_lor_r).
  repeat case_match; cbn [s_hit]; simplify_eq; try apply IH; intros [= <-]; exists e; cbn [fst];
    rewrite ?andb_true_iff, ?bool_decide_eq_true in *; destruct_and?; split_and?; try done; rewrite Hset.
  - by apply orb_true_iff; left.
  - by apply orb_true_iff; right.
Qed.

(** Nothing that is traced runs on: stopped, exited, stopped by job control, or
    under way with a single step. *)
Definition at_rest (w : World) (e : TaskEntry) : Prop :=
  has (flags_of w (vmp e)) VM_DEBUG_ATTACHED = true ->
  has (flags_of w (vmp e)) (Z.lor VM_SETTLED VM_STOPPED) = true \/ stepping e = true.

Lemma scan_settled w preferred watch : s_settled (scan_tasks w preferred watch) = true ->
  forall e, e ∈ task_list w -> at_rest w e.
Proof.
  unfold scan_tasks. generalize (mkscan 0 None true).
  induction (task_list w) as [|x l IH]; intros s Hs e He; [by apply elem_of_nil in He|].
  cbn in Hs. apply elem_of_cons in He as [->|He]; [|by eapply IH].
  assert (s_settled (scan_task w preferred watch s x) = true) as Hx.
  { revert Hs. generalize (scan_task w preferred watch s x). clear. induction l as [|y l IH]; intros s; [done|].
    cbn. intros H. apply IH in H. unfold scan_task in H. repeat case_match; cbn in H; by apply andb_true_iff in H as [H _]. }
  unfold at_rest. intros Ha. unfold scan_task in Hx. rewrite Ha in Hx. cbn [negb orb] in Hx.
  apply orb_true_iff. by repeat case_match; cbn [s_settled] in Hx; apply andb_true_iff in Hx as [_ Hx].
Qed.

Lemma safe_scan l preferred watch : safe l (gets (fun w => scan_tasks w preferred watch)) hit_of.
Proof.
  intros w Hw Hl. split; [done|]. split; [apply older_refl|]. unfold hit_of.
  destruct (s_hit _) as [h|] eqn:Hh; [|constructor]. apply scan_hit in Hh as (e & He & Hv & _).
  apply Forall_cons_2; [|constructor]. rewrite <- Hv.
  pose proof (tasks_known w Hw) as Ht. rewrite list.Forall_forall in Ht. by apply Ht, list_elem_of_fmap_2.
Qed.

Definition first_of (h : Z * option Z) : list Z := [h.1].

Lemma safe_ret_hit l (h : Z * option Z) : h.1 ∈ l -> safe l (gret h) first_of.
Proof. intros Hh. apply safe_ret_known. unfold first_of. intros v Hv. apply list_elem_of_singleton in Hv. by subst. Qed.

Lemma safe_take_fork l hit : hit.1 ∈ l -> safe l (take_fork hit) first_of.
Proof.
  intros Hl. unfold take_fork. eapply safe_bind; [apply safe_gets|]. intros rep. cbn [none app].
  destruct hit.2 as [c|]; [|by apply safe_ret_hit]. destruct rep; [|by apply safe_ret_hit].
  eapply safe_bind; [apply safe_quiet_all; intros; by apply quiet_with_task|]. intros ?; cbn [none app]. by apply safe_ret_hit.
Qed.

Lemma safe_wait_any_loop l n preferred watch p : safe l (wait_any_loop n preferred watch p) first_of.
Proof.
  assert (forall l, safe l (fun w => @Waits (Z * option Z) w) first_of) as Hwt by (intros ? w Hw _; split; [done|apply older_refl]).
  revert l p. induction n as [|n IH]; intros l p; cbn [wait_any_loop]; (eapply safe_bind; [apply safe_scan|]); intros s;
    (eapply safe_bind; [destruct (s_hit s); [destruct p|]; eauto with safe|]); intros ?; cbn [none app];
    unfold hit_of; destruct (s_hit s) as [hit|].
  1,3: destruct (s_settled s); [apply safe_take_fork; by left|].
  all: (eapply safe_bind; [apply safe_peek|]); intros c; cbn [none app];
    (eapply safe_bind; [destruct c; eauto with safe|]); intros ?; cbn [none app]; try apply Hwt;
    (eapply safe_bind; [apply safe_sleep|]); intros ?; apply IH.
Qed.

Lemma safe_wait_any l preferred watch : safe l (wait_any_stopped preferred watch) first_of.
Proof.
  unfold wait_any_stopped. eapply safe_bind; [apply safe_gets|]. intros wt.
  eapply safe_bind; [apply safe_gets|]. intros n. apply safe_wait_any_loop.
Qed.
Hint Resolve safe_wait_any : safe.

End ServerFacts.
