(* ===== verification/GdbDemo.v ===== *)
(** * A traced program, as concrete input

    A main thread held at a stop and a second thread that runs, with the memory
    of [InterpFacts.parent_mem]; the witnesses of the GDB server evaluate it. *)

From Stdlib Require Import Lia Ascii.
From stdpp Require Import base numbers list gmap strings option.
From S2P Require Import Prelude Bytes HostMem AddrSpace Vm Kernel InterpFacts Rsp Gdb GdbFacts.

Open Scope Z_scope.

#[export] Instance ample : HostAlloc := fun n => n <? 2 ^ 40.

Definition demo_vm (tid f pc : Z) : tracee :=
  mktracee tid 1 f pc (replicate 11 7) (tlb parent_mem) (maps parent_mem) 0x40000000 (str "/bin/true") false.

(** The main thread is vm 100, the second vm 101. *)
Definition demo_main : tracee := demo_vm 1 (Z.lor VM_DEBUG_ATTACHED VM_DEBUG_STOP) 0x40000008.
Definition demo_thread : tracee := demo_vm 2 VM_DEBUG_ATTACHED 0x40000010.

Definition demo_world (script : list (list event)) (input : list Z) : World :=
  mkworld {[ 100 := demo_main; 101 := demo_thread ]} (hst parent_mem)
    (mkgdb 100 100 false false false false no_catch {[ 1 := fresh_task 100 ∅; 2 := fresh_task 101 ∅ ]})
    {[ 1 := 100; 2 := 101 ]} ∅ input [] script.

(** Lookups in maps of two keys. *)
Lemma pair_lookup {A} (k1 k2 : Z) (x1 x2 : A) k x : ({[ k1 := x1; k2 := x2 ]} : gmap Z A) !! k = Some x ->
  (k = k1 /\ x = x1) \/ (k = k2 /\ x = x2).
Proof.
  intros [[<- <-]|[_ H]]%lookup_insert_Some; [by left|]. apply lookup_singleton_Some in H as [<- <-]. by right.
Qed.

Lemma demo_inv script input : inv (demo_world script input).
Proof.
  split; cbn.
  - intros pid e [[-> ->]|[-> ->]]%pair_lookup; by eexists.
  - intros v1 v2 t1 t2 [[-> ->]|[-> ->]]%pair_lookup [[-> ->]|[-> ->]]%pair_lookup; done.
  - by eexists.
  - by eexists.
  - intros pid v [[-> ->]|[-> ->]]%pair_lookup; by eexists.
  - intros v b H. by apply lookup_empty_Some in H.
  - intros v t [[-> ->]|[-> ->]]%pair_lookup _; right; by eexists.
Qed.
