(* ===== verification/GdbSafe.v ===== *)
(** * Every packet keeps the task table sound

    The handlers of the GDB server against the invariant of [GdbFacts], and what
    the end of a connection leaves behind. *)

From Stdlib Require Import Lia Ascii.
From stdpp Require Import base numbers list gmap strings option.
From S2P Require Import Prelude Bytes HostMem AddrSpace Vm Kernel Rsp Gdb GdbFacts GdbDemo.

Open Scope Z_scope.
Open Scope gdb_scope.

(** A precondition that holds for one branch of a test on the world. *)
Lemma safe_tested {A} l (test : World -> bool) (k : bool -> G A) Q :
  (forall w, inv w -> Forall (known w) l -> test w = true -> ends w (k true w) Q) ->
  safe l (k false) Q -> safe l (gbind (gets test) k) Q.
Proof.
  intros Ht Hf w Hw Hl. unfold gbind, gets. destruct (test w) eqn:E; [by apply Ht|by apply Hf].
Qed.

Lemma safe_gets_known {A} l (f : World -> A) Q :
  (forall w, inv w -> Forall (known w) l -> Forall (known w) (Q (f w))) -> safe l (gets f) Q.
Proof. intros Hf w Hw Hl. split; [done|]. split; [apply older_refl|by apply Hf]. Qed.

(** A vm looked up in the table or among the processes exists. *)
Lemma find_known w pid v : inv w -> find_task w pid = Some v -> known w v.
Proof.
  intros Hw. unfold find_task. destruct (tasks w !! pid) as [e|] eqn:He; [|done]. cbn. intros [= <-].
  destruct (i_key _ Hw _ _ He) as (t & Ht & _). by exists t.
Qed.

Lemma decode_known w s b v : inv w -> decode_tid w s b = Some v -> known w v.
Proof.
  intros Hw. unfold decode_tid. case_match; [done|]. destruct (find_task w _) as [u|] eqn:Hf.
  - intros [= <-]. by eapply find_known.
  - destruct b; [|done]. intros Hp. destruct (i_pids _ Hw _ _ Hp) as (t & Ht & _). by exists t.
Qed.

Section Handlers.
Context {ord : HashOrder} {env : HostEnv} {alloc : HostAlloc}.

Hint Resolve safe_quiet_all quiet_stop_all quiet_continue_all quiet_unstop quiet_stepping quiet_request quiet_kill
  safe_attach_on_connect safe_wait_stopped safe_step_over safe_resume safe_resume_continue safe_wait_any : safe.

(** ** Replies *)

Lemma ends_exit_reply w v : inv w -> known w v -> is_vm_exited w v = true -> ends w (send_exit_reply v w) none.
Proof.
  intros Hw Hk Hx. unfold send_exit_reply. case_match; [|by split_and!; [|apply older_refl|constructor]].
  unfold gbind, send_packet, send, modify. set (w1 := set_out _ w).
  assert (quiet w w1) as Hq by apply quiet_out.
  split_and!; [|by apply older_vms|constructor].
  apply (inv_untrack w1 v); [by eapply inv_quiet|done|]. unfold traced. change (flags_of w1 v) with (flags_of w v).
  unfold is_vm_exited in Hx. unfold gone. by rewrite Hx, andb_false_r.
Qed.

Lemma safe_focus l v : v ∈ l -> safe l (modify (focus v)) none.
Proof.
  intros Hv. apply safe_quiet. intros w _ Hl. apply quiet_focus. rewrite list.Forall_forall in Hl. by apply Hl.
Qed.

Lemma safe_focus_task l v f : v ∈ l -> (forall e, vmp (f e) = vmp e) ->
  safe l (modify (fun w => focus v (with_task v f w))) none.
Proof.
  intros Hv Hf. apply safe_quiet. intros w _ Hl. rewrite list.Forall_forall in Hl.
  assert (quiet w (with_task v f w)) as Hq by by apply quiet_with_task.
  apply (quiet_trans _ _ _ Hq). apply quiet_focus. apply (quiet_known _ _ _ Hq), Hl, Hv.
Qed.

Lemma safe_stop_reply l v sig c : v ∈ l -> safe l (send_stop_reply v sig c) none.
Proof.
  intros Hv w Hw Hl. unfold send_stop_reply. eapply ends_bind; [exact Hl|by apply (safe_focus l v)|].
  intros ?. apply safe_send_packet.
Qed.

Lemma safe_syscall_stop l v : v ∈ l -> safe l (try_send_syscall_stop v) none.
Proof.
  intros Hv w Hw Hl. unfold try_send_syscall_stop. destruct (task_of w v) as [e|]; [|by apply (safe_ret l)].
  destruct (syscall_event e) as [sysno b]. destruct (sysno =? 0); [by apply (safe_ret l)|].
  eapply ends_bind; [exact Hl|by apply (safe_focus_task l v)|]. intros ?. cbn [none app]. safe_walk.
Qed.

Lemma safe_exec_stop l v : v ∈ l -> safe l (try_send_exec_stop v) none.
Proof.
  intros Hv w Hw Hl. unfold try_send_exec_stop. destruct (task_of w v) as [e|]; [|by apply (safe_ret l)].
  destruct (exec_path e); [by apply (safe_ret l)|].
  eapply ends_bind; [exact Hl|by apply (safe_focus_task l v)|]. intros ?. cbn [none app]. safe_walk.
Qed.

Lemma safe_report l hit : hit.1 ∈ l -> safe l (report_hit hit) none.
Proof.
  intros Hh. unfold report_hit. apply safe_tested.
  - intros w Hw Hl Hx. rewrite list.Forall_forall in Hl. apply ends_exit_reply; auto.
  - eapply safe_bind; [by apply safe_exec_stop|]. intros x. cbn [none app]. destruct x; [apply safe_ret|].
    eapply safe_bind; [by apply safe_syscall_stop|]. intros y. cbn [none app]. destruct y; [apply safe_ret|].
    by apply safe_stop_reply.
Qed.

(** Waiting for a stop and reporting it. *)
Lemma safe_wait_report {A} l preferred watch (k : G A) : safe l k none ->
  safe l (hit <- wait_any_stopped preferred watch ;; (report_hit hit ;; k)) none.
Proof.
  intros Hk. eapply safe_bind; [apply safe_wait_any|]. intros hit.
  eapply safe_bind; [apply safe_report; by left|]. intros ?. cbn [none app].
  eapply safe_weaken; [|exact Hk]. intros v Hv. by right.
Qed.

(** ** The handlers that let the guest run *)

Lemma safe_gone_first {A} l v (k m : G A) : v ∈ l -> safe l k none -> safe l m none ->
  safe l (gone <- gets (fun w => is_vm_exited w v) ;; (if gone then send_exit_reply v ;; k else m)) none.
Proof.
  intros Hv Hk Hm. apply (safe_tested l (fun w => is_vm_exited w v) (fun gone => if gone then send_exit_reply v ;; k else m)).
  - intros w Hw Hl Hx. eapply ends_bind; [exact Hl| |].
    + apply ends_exit_reply; [done| |done]. rewrite list.Forall_forall in Hl. by apply Hl.
    + intros ?. exact Hk.
  - exact Hm.
Qed.

Lemma safe_c l : safe l handle_c none.
Proof.
  unfold handle_c. eapply safe_bind; [apply safe_current|]. intros v.
  apply safe_gone_first; [by left|apply safe_ret|]. do 2 (eapply safe_bind; [eauto with safe|]; intros ?; cbn [none app]).
  apply safe_wait_report, safe_ret.
Qed.

Lemma safe_s l : safe l handle_s none.
Proof.
  unfold handle_s. eapply safe_bind; [apply safe_current|]. intros v.
  apply safe_gone_first; [by left|apply safe_ret|]. eapply safe_bind; [eauto with safe|]; intros ?; cbn [none app].
  apply safe_wait_report, safe_ret.
Qed.

Lemma safe_step_all l over actions : safe l (step_all over actions) none.
Proof. revert actions. induction over as [|v r IH]; intros actions; cbn [step_all]; safe_walk. Qed.

Lemma safe_vcont l pkt : safe l (handle_vcont pkt) none.
Proof.
  unfold handle_vcont. do 3 (eapply safe_bind; [apply safe_gets|]; intros ?; cbn [none app]).
  eapply safe_bind; [apply safe_step_all|]. intros acts. cbn [none app].
  eapply safe_bind; [apply safe_gets|]. intros rel. cbn [none app].
  eapply safe_bind; [apply safe_quiet_all; intros; apply quiet_fold; intros; apply quiet_release_one|].
  intros ?. cbn [none app]. eapply safe_bind; [apply safe_wait_any|]. intros hit. apply safe_report. by left.
Qed.

(** ** Registers and memory *)

Lemma quiet_put_mem v m w : quiet w (put_mem v m w).
Proof.
  unfold put_mem. apply (quiet_trans _ (upd_vm v (put_tmem (tlb m) (maps m)) w)); [by apply quiet_upd_vm|].
  by apply quiet_same.
Qed.

Lemma safe_on_mem {A} l v (f : mmem -> A * mmem) : safe l (on_mem v f) none.
Proof.
  intros w Hw Hl. unfold on_mem. destruct (f (mem_of w v)) as [a m]. pose proof (quiet_put_mem v m w) as Hq.
  split_and!; [by eapply inv_quiet|by apply older_quiet|constructor].
Qed.
Hint Resolve safe_on_mem : safe.

Lemma safe_read_loop l n v addr off len : safe l (read_loop n v addr off len) none.
Proof. revert off. induction n as [|n IH]; intros off; cbn [read_loop]; safe_walk. Qed.

Lemma safe_decode_to l v p s n : safe l (decode_to v p s n) none.
Proof. unfold decode_to. destruct (hex_decode s n) as [ok bs]. safe_walk. Qed.
Hint Resolve safe_read_loop safe_decode_to : safe.

Lemma safe_write_loop l n v addr off len h : safe l (write_loop n v addr off len h) none.
Proof. revert off. induction n as [|n IH]; intros off; cbn [write_loop]; safe_walk. Qed.
Hint Resolve safe_write_loop : safe.

Lemma quiet_put_reg v n x w : quiet w (put_reg v n x w).
Proof. by apply quiet_upd_vm. Qed.
Lemma quiet_put_vpc v x w : quiet w (put_vpc v x w).
Proof. by apply quiet_upd_vm. Qed.
Lemma quiet_negotiated f w : (forall g, main_vm (f g) = main_vm g /\ current_vm (f g) = current_vm g /\ tasks_ (f g) = tasks_ g) ->
  quiet w (upd_gdb f w).
Proof. intros Hf. destruct (Hf (w_gdb w)) as (? & ? & ?). by apply quiet_same. Qed.
Hint Resolve quiet_put_reg quiet_put_vpc quiet_negotiated : safe.

Lemma safe_write_regs l r v h : safe l (write_regs r v h) none.
Proof. induction r as [|i r IH]; cbn [write_regs]; safe_walk. Qed.
Hint Resolve safe_write_regs : safe.

Lemma safe_answer l s : safe l (answer s) none.
Proof. apply safe_ret. Qed.
Hint Resolve safe_answer : safe.

(** A walk that begins with the current vm. *)
Ltac safe_on_current := eapply safe_bind; [apply safe_current|]; intros v; cbn [app]; safe_walk.

Lemma safe_p l pkt : safe l (handle_p pkt) none.
Proof. unfold handle_p. safe_on_current. Qed.
Lemma safe_P l pkt : safe l (handle_P pkt) none.
Proof. unfold handle_P. safe_on_current. Qed.
Lemma safe_m l pkt : safe l (handle_m pkt) none.
Proof. unfold handle_m. safe_on_current. Qed.
Lemma safe_M l pkt : safe l (handle_M pkt) none.
Proof. unfold handle_M. safe_on_current. Qed.

Lemma safe_Z l set pkt : safe l (handle_Z set pkt) none.
Proof.
  unfold handle_Z. case_match; [|apply safe_answer]. case_match. case_match; [apply safe_answer|]. safe_on_current.
  apply safe_quiet_all. intros w. by apply quiet_with_task.
Qed.

(** ** The other handlers *)

Lemma safe_supported l pkt : safe l (handle_supported pkt) none.
Proof.
  intros w Hw Hl. unfold handle_supported. eapply ends_bind; [exact Hl| |].
  - apply (safe_quiet_all l); [|done..]. intros u. by apply quiet_negotiated.
  - intros ?. apply safe_ret.
Qed.
Hint Resolve safe_supported : safe.

Lemma safe_q l pkt : safe l (handle_q pkt) none.
Proof. unfold handle_q. safe_walk. Qed.

Lemma safe_Q l pkt : safe l (handle_Q pkt) none.
Proof. unfold handle_Q. safe_walk. Qed.

Lemma safe_H l pkt : safe l (handle_H pkt) none.
Proof.
  unfold handle_H. case_match; [apply safe_answer|]. eapply safe_bind; [|intros ?; apply safe_answer].
  apply safe_quiet. intros w Hw _. apply quiet_focus. destruct (decode_tid _ _ _) eqn:Hd; [by eapply decode_known|].
  apply (i_main _ Hw).
Qed.

Lemma safe_D l pkt : safe l (handle_D pkt) none.
Proof.
  unfold handle_D. eapply safe_bind; [|intros ?; apply safe_answer]. apply safe_modify. intros w Hw _.
  destruct (after_semicolon pkt) as [s|]; [|split; [by apply inv_end_session|apply older_end_session]].
  destruct (decode_tid w s false) as [v|] eqn:Hd; [|split; [by apply inv_end_session|apply older_end_session]].
  split; [apply inv_detach; [done|by eapply decode_known]|apply older_detach].
Qed.

Lemma safe_attach l pkt : safe l (handle_attach pkt) none.
Proof.
  unfold handle_attach. destruct (after_semicolon pkt) as [s|]; [|apply safe_answer].
  eapply safe_bind.
  - apply (safe_gets_known l _ (fun o => match o with Some v => [v] | None => [] end)). intros w Hw _.
    destruct (decode_tid w s true) as [v|] eqn:Hd; [|constructor].
    apply Forall_cons_2; [by eapply decode_known|constructor].
  - intros [v|]; [|apply safe_answer]. eapply safe_bind; [apply (safe_attach_vm _ v); by left|]. intros ?. apply safe_gets.
Qed.

Hint Resolve safe_q safe_Q safe_H safe_D safe_attach safe_p safe_P safe_m safe_M safe_c safe_s safe_Z safe_vcont : safe.

Lemma safe_v l pkt : safe l (handle_v pkt) none.
Proof. unfold handle_v. safe_walk. Qed.
Hint Resolve safe_v : safe.

Lemma safe_packet l pkt : safe l (handle_packet pkt) none.
Proof. unfold handle_packet, handle_why, handle_T. safe_walk. Qed.

(** ** Sessions *)

Lemma safe_recv l n : safe l (recv_loop n) none.
Proof.
  induction n as [|n IH]; intros w Hw Hl; cbn [recv_loop]; destruct (recv_packet _ _) as [[[data ack] rest]|].
  1,3: eapply ends_bind; [exact Hl|apply (safe_quiet_all l); [|done..]; intros u; apply quiet_in|];
    intros ?; cbn [none app]; safe_walk.
  - by apply (safe_waits l).
  - eapply ends_bind; [exact Hl|by apply (safe_sleep l)|]. intros ?. cbn [none app]. exact IH.
Qed.
Hint Resolve safe_recv safe_packet : safe.

Lemma safe_serve_packet l : safe l serve_packet none.
Proof. unfold serve_packet. safe_walk. Qed.
Hint Resolve safe_serve_packet : safe.

Lemma safe_serve l n : safe l (serve n) none.
Proof. revert l. induction n as [|n IH]; intros l; cbn [serve]; safe_walk. Qed.
Hint Resolve safe_serve : safe.

Lemma safe_session l n : safe l (session n) none.
Proof.
  unfold session. do 2 (eapply safe_bind; [eauto with safe|]; intros ?; cbn [none app]).
  assert (forall l, safe l (modify end_session) none) as He.
  { intros l'. apply safe_modify. intros w Hw _. split; [by apply inv_end_session|apply older_end_session]. }
  eapply safe_bind.
  - apply (safe_gets_known l _ (fun v => [v])). intros w Hw _. apply Forall_cons_2; [apply (i_main _ Hw)|constructor].
  - intros main. cbn [app].
    apply (safe_tested _ (fun w => is_vm_exited w main) (fun gone => (if gone then send_exit_reply main else gret tt) ;; modify end_session)).
    + intros w Hw Hl Hx. eapply ends_bind; [exact Hl| |intros ?; apply He].
      apply list.Forall_cons in Hl as [Hk _]. by apply ends_exit_reply.
    + eapply safe_bind; [apply safe_ret|]. intros ?. apply He.
Qed.

(** ** The end of a session *)

Lemma release_vms v w u : w_vms (release v w) !! u =
  if decide (u = v /\ is_vm_exited w v = false) then (fun t => put_tflags (andnot (t_flags t) DEBUG_BITS) t) <$> w_vms w !! u
  else w_vms w !! u.
Proof.
  unfold release. destruct (is_vm_exited w v); [by rewrite decide_False by naive_solver|].
  cbn. destruct (decide (u = v)) as [->|Hne].
  - by rewrite lookup_alter_eq, decide_True.
  - by rewrite lookup_alter_ne, decide_False by naive_solver.
Qed.

Lemma andnot_twice f m : andnot (andnot f m) m = andnot f m.
Proof.
  unfold andnot. apply Z.bits_inj'. intros i Hi. rewrite !Z.ldiff_spec.
  by destruct (Z.testbit f i), (Z.testbit m i).
Qed.

(** Releasing twice is releasing once. *)
Lemma releases_vms l w u : w_vms (foldl (fun w v => release v w) w l) !! u =
  if decide (u ∈ l /\ is_vm_exited w u = false) then (fun t => put_tflags (andnot (t_flags t) DEBUG_BITS) t) <$> w_vms w !! u
  else w_vms w !! u.
Proof.
  revert w. induction l as [|v l IH]; intros w.
  { rewrite decide_False; [done|]. intros [H _]. by apply elem_of_nil in H. }
  cbn [foldl]. rewrite IH, release_vms.
  assert (is_vm_exited (release v w) u = is_vm_exited w u) as Hx.
  { unfold is_vm_exited, flags_of, vm_at. rewrite release_vms.
    destruct (decide (u = v /\ is_vm_exited w v = false)); [|reflexivity].
    destruct (w_vms w !! u); [|reflexivity]. cbn. by rewrite has_andnot_other. }
  rewrite Hx. destruct (decide (u = v)) as [->|Hne].
  - destruct (is_vm_exited w v) eqn:E.
    + by rewrite !decide_False by naive_solver.
    + destruct (decide (v = v /\ false = false)) as [_|[]]; [|done].
      destruct (decide (v ∈ v :: l /\ false = false)) as [_|[]]; [|by split; [left|]].
      destruct (decide (v ∈ l /\ false = false)); [|reflexivity]. destruct (w_vms w !! v) as [t|]; [|done].
      unfold put_tflags. cbn. by rewrite andnot_twice.
  - destruct (decide (u = v /\ is_vm_exited w v = false)) as [[??]|_]; [done|].
    destruct (decide (u ∈ l /\ is_vm_exited w u = false)) as [[H1 H2]|H].
    + rewrite decide_True; [done|]. split; [by right|done].
    + rewrite decide_False; [done|]. intros [[]%elem_of_cons ?]; [done|]. by apply H.
Qed.

Lemma releases_rest l w : let w' := foldl (fun w v => release v w) w l in
  w_gdb w' = w_gdb w /\ w_host w' = w_host w /\ w_out w' = w_out w /\ w_pending w' = w_pending w.
Proof.
  apply (foldl_ind (fun w' => w_gdb w' = w_gdb w /\ w_host w' = w_host w /\ w_out w' = w_out w /\ w_pending w' = w_pending w));
    [done|]. intros u x _ H. unfold release. by case_match.
Qed.

Lemma session_done n w u w' : session n w = Done u w' -> exists w0, w' = end_session w0.
Proof.
  unfold session, gbind, modify. destruct (serve n _) as [a w1| |w1]; [|done|done]. cbn.
  destruct (if is_vm_exited _ _ then _ else _) as [b w2| |w2]; [|done|done]. intros [= _ <-]. by exists w2.
Qed.

End Handlers.

Section Sessions.
Context {ord : HashOrder} {env : HostEnv} {alloc : HostAlloc}.


(** [end_session] undoes the tracing: every thread of the task table that
    has not exited loses exactly the two debugger bits of its flag word, so a
    stopped one runs on; everything else of it, the exited threads and the vms
    that are not in the table stay as they are, as do host memory and the
    connection; the negotiated options are reset. *)
Theorem end_session_releases w v :
  let w' := end_session w in
  w_vms w' !! v =
    (if decide (v ∈ (vmp <$> task_list w) /\ is_vm_exited w v = false)
     then (fun t => put_tflags (andnot (t_flags t) DEBUG_BITS) t) <$> w_vms w !! v
     else w_vms w !! v) /\
  w_gdb w' = mkgdb (main_vm (w_gdb w)) (main_vm (w_gdb w)) false false false false no_catch ∅ /\
  w_host w' = w_host w /\ w_out w' = w_out w /\ w_pending w' = w_pending w.
Proof.
  unfold end_session. rewrite released_world_eq. unfold released_world. cbn zeta. split; [apply releases_vms|].
  destruct (releases_rest (vmp <$> task_list w) w) as (Hg & Hh & Ho & Hp). cbn. by rewrite Hg, Hh, Ho, Hp.
Qed.

End Sessions.

(** The debugger asks for the registers, lets the program run on and detaches;
    in the meantime the second thread calls the kernel. *)
Definition demo_script : list (list event) := [[EvSyscall 101 true 0x10004]; [EvFlags 101 0x2 0]].
Definition demo_input : list Z := str "$?#3f$D#44".

