(* ===== verification/GdbStop.v ===== *)
(** * All-stop

    When the server reports a stop, every traced thread is at rest; and once one
    watched thread has stopped, the others are stopped before the server wakes
    up the next time. *)

From Stdlib Require Import Lia Ascii.
From stdpp Require Import base numbers list gmap strings option.
From S2P Require Import Prelude Bytes HostMem AddrSpace Vm Kernel Rsp Gdb GdbFacts GdbDemo.

Open Scope Z_scope.
Open Scope gdb_scope.

Definition settled (f : Z) : bool := has f VM_SETTLED.

Lemma settled_known w v : settled (flags_of w v) = true -> known w v.
Proof.
  unfold settled, flags_of, vm_at, known. destruct (w_vms w !! v); [by eexists|]. by vm_compute.
Qed.

(** ** What the guest does does not undo a stop *)

(** From [w] to [w']: no vm loses its stop or comes to be traced by itself, and
    an entry of the table keeps its vm; it is still under way with a step, or
    its vm has settled. *)
Record advance (w w' : World) : Prop := {
  ad_vm : forall v t, w_vms w !! v = Some t -> exists t', w_vms w' !! v = Some t' /\
    att (t_flags t') = att (t_flags t) /\ (settled (t_flags t) = true -> settled (t_flags t') = true);
  ad_task : forall pid e', tasks w' !! pid = Some e' ->
    settled (flags_of w' (vmp e')) = true \/
    exists e, tasks w !! pid = Some e /\ vmp e = vmp e' /\ (stepping e = true -> stepping e' = true);
  ad_in : forall pid e, tasks w !! pid = Some e -> exists e', tasks w' !! pid = Some e' /\ vmp e' = vmp e
}.

Lemma advance_refl w : advance w w.
Proof. split; [intros v t H; by exists t|intros pid e H; right; by exists e|intros pid e H; by exists e]. Qed.

Lemma advance_settled w w' v : advance w w' -> settled (flags_of w v) = true -> settled (flags_of w' v) = true.
Proof.
  intros Ha Hs. destruct (settled_known _ _ Hs) as [t Ht]. destruct (ad_vm _ _ Ha v t Ht) as (t' & Ht' & _ & H).
  unfold flags_of in *. rewrite (vm_at_some _ _ _ Ht) in Hs. rewrite (vm_at_some _ _ _ Ht'). auto.
Qed.

Lemma advance_trans w1 w2 w3 : advance w1 w2 -> advance w2 w3 -> advance w1 w3.
Proof.
  intros H12 H23. split.
  - intros v t H. destruct (ad_vm _ _ H12 v t H) as (t2 & H2 & E2 & S2).
    destruct (ad_vm _ _ H23 v t2 H2) as (t3 & H3 & E3 & S3). exists t3. split; [done|]. split; [congruence|auto].
  - intros pid e3 H3. destruct (ad_task _ _ H23 pid e3 H3) as [?|(e2 & H2 & E2 & S2)]; [by left|].
    destruct (ad_task _ _ H12 pid e2 H2) as [Hs|(e1 & H1 & E1 & S1)].
    + left. rewrite <- E2. by eapply advance_settled.
    + right. exists e1. split; [done|]. split; [congruence|auto].
  - intros pid e H. destruct (ad_in _ _ H12 pid e H) as (e2 & H2 & E2).
    destruct (ad_in _ _ H23 pid e2 H2) as (e3 & H3 & E3). exists e3. split; [done|congruence].
Qed.

(** The table untouched. *)
Lemma advance_vms w w' : tasks w' = tasks w ->
  (forall v t, w_vms w !! v = Some t -> exists t', w_vms w' !! v = Some t' /\
     att (t_flags t') = att (t_flags t) /\ (settled (t_flags t) = true -> settled (t_flags t') = true)) ->
  advance w w'.
Proof.
  intros Ht Hv. split; [done|rewrite Ht; intros pid e H; right; by exists e|rewrite Ht; intros pid e H; by exists e].
Qed.

Lemma advance_upd_vm v f w :
  (forall t, att (t_flags (f t)) = att (t_flags t) /\ (settled (t_flags t) = true -> settled (t_flags (f t)) = true)) ->
  advance w (upd_vm v f w).
Proof.
  intros Hf. apply advance_vms; [done|]. intros u t Hu. cbn. destruct (decide (u = v)) as [->|].
  - rewrite lookup_alter_eq, Hu. exists (f t). by split.
  - rewrite lookup_alter_ne by done. by exists t.
Qed.

Lemma advance_same w w' : tasks w' = tasks w -> w_vms w' = w_vms w -> advance w w'.
Proof. intros Ht Hv. apply advance_vms; [done|]. intros v t H. rewrite Hv. by exists t. Qed.

Lemma stop_settles f : settled (Z.lor f VM_DEBUG_STOP) = true /\ att (Z.lor f VM_DEBUG_STOP) = att f.
Proof.
  unfold settled, VM_SETTLED, att. rewrite !has_lor_r, !has_lor_l.
  change (has VM_DEBUG_STOP VM_DEBUG_STOP) with true. change (has VM_DEBUG_STOP VM_DEBUG_ATTACHED) with false.
  split; [by destruct (has f VM_DEBUG_STOP)|apply orb_false_r].
Qed.

Lemma advance_stop v w : advance w (raise_flags v VM_DEBUG_STOP w).
Proof. apply advance_upd_vm. intros t. cbn. destruct (stop_settles (t_flags t)). auto. Qed.

Lemma stopped_settled v w : known w v -> settled (flags_of (raise_flags v VM_DEBUG_STOP w) v) = true.
Proof.
  intros [t Ht]. unfold flags_of, vm_at, raise_flags, upd_vm. cbn. rewrite lookup_alter_eq, Ht. cbn. apply stop_settles.
Qed.

(** An entry may be rewritten when its vm stops. *)
Lemma advance_stop_task v e' w : inv w -> known w v -> vmp e' = v ->
  advance w (raise_flags v VM_DEBUG_STOP (upd_tasks (insert (id_of w v) e') w)).
Proof.
  intros Hw Hk He. pose proof (stopped_settled v (upd_tasks (insert (id_of w v) e') w) Hk) as Hs.
  split.
  - apply (ad_vm _ _ (advance_stop v (upd_tasks (insert (id_of w v) e') w))).
  - intros pid e. unfold tasks, upd_tasks. cbn. intros [[<- <-]|[_ H]]%lookup_insert_Some.
    + left. by rewrite He.
    + right. by exists e.
  - intros pid e H. unfold tasks, upd_tasks. cbn. destruct (decide (pid = id_of w v)) as [->|].
    + rewrite lookup_insert_eq. exists e'. split; [done|]. rewrite He. symmetry. by apply (inv_entry w).
    + rewrite lookup_insert_ne by done. by exists e.
Qed.

Lemma with_task_insert v f w e : tasks w !! id_of w v = Some e ->
  with_task v f w = upd_tasks (insert (id_of w v) (f e)) w.
Proof.
  intros He. unfold with_task, upd_tasks, upd_gdb. do 2 f_equal. apply map_eq. intros pid. change (tasks_ (w_gdb w)) with (tasks w).
  destruct (decide (pid = id_of w v)) as [->|].
  - by rewrite lookup_alter_eq, lookup_insert_eq, He.
  - by rewrite lookup_alter_ne, lookup_insert_ne.
Qed.

Lemma advance_stop_with v f w : inv w -> known w v -> (forall e, vmp (f e) = vmp e) ->
  advance w (raise_flags v VM_DEBUG_STOP (with_task v f w)).
Proof.
  intros Hw Hk Hf. destruct (tasks w !! id_of w v) as [e|] eqn:He.
  - rewrite (with_task_insert v f w e He). apply advance_stop_task; [done..|]. rewrite Hf. by apply (inv_entry w).
  - assert (with_task v f w = w) as ->; [|apply advance_stop].
    destruct w as [vs h [m c na mp fe ee ct ts] ps pd i o sc]. unfold with_task, upd_tasks, upd_gdb, set_gdb, set_tasks. cbn.
    do 2 f_equal. apply map_eq. intros pid. destruct (decide (pid = id_of (mkworld vs h (mkgdb m c na mp fe ee ct ts) ps pd i o sc) v)) as [->|].
    + rewrite lookup_alter_eq. change (ts !! id_of (mkworld vs h (mkgdb m c na mp fe ee ct ts) ps pd i o sc) v = None) in He. by rewrite He.
    + by rewrite lookup_alter_ne.
Qed.

Lemma advance_park v w : advance w (park_if_stopped v w).
Proof. unfold park_if_stopped. case_match; [by apply advance_upd_vm|apply advance_refl]. Qed.

Lemma advance_running v f w : (known w v -> advance w (f w)) -> advance w (if_running v f w).
Proof.
  intros Hf. unfold if_running. destruct (_ || _ || negb (bool_decide (is_Some (w_vms w !! v)))) eqn:E; [apply advance_refl|].
  apply Hf. rewrite !orb_false_iff, negb_false_iff, bool_decide_eq_true in E. apply E.
Qed.

Lemma advance_hook v w : inv w -> known w v -> advance w (breakpoint_hook v w).
Proof.
  intros Hw Hk. unfold breakpoint_hook. repeat case_match; try apply advance_refl; [|apply advance_stop].
  by apply advance_stop_with.
Qed.

Lemma advance_syscall b v call w : inv w -> known w v -> advance w (syscall_cb b v call w).
Proof. intros Hw Hk. unfold syscall_cb. repeat case_match; try apply advance_refl; by apply advance_stop_with. Qed.

Lemma advance_register parent child is_thread w : inv w -> is_Some (w_pending w !! child) ->
  advance w (register_child parent child is_thread w).
Proof.
  intros Hw [b Hp]. pose proof (i_pend _ Hw _ _ Hp) as Hk. pose proof (register_inv parent child is_thread w Hw (ex_intro _ b Hp)) as Hr.
  unfold register_child in *. set (ce := match task_of w child with Some _ => _ | None => _ end) in *.
  assert (vmp ce = child) as Hce by (unfold ce; by destruct (task_of w child)).
  set (w1 := raise_flags child VM_DEBUG_STOP (upd_tasks (insert (id_of w child) ce) (set_pending (delete child (w_pending w)) w))) in *.
  assert (advance w w1) as H1.
  { apply (advance_trans _ (raise_flags child VM_DEBUG_STOP (upd_tasks (insert (id_of w child) ce) w))).
    - by apply advance_stop_task.
    - by apply advance_same. }
  case_match; [|done]. apply (advance_trans _ _ _ H1). eapply advance_trans; [|apply advance_stop].
  split.
  - intros v t Hv. exists t. by split.
  - intros pid e'. unfold with_task, tasks, upd_tasks. cbn. intros He. right.
    destruct (decide (pid = id_of w1 parent)) as [->|].
    + rewrite lookup_alter_eq in He. apply fmap_Some in He as (e & He & ->). by exists e.
    + rewrite lookup_alter_ne in He by done. by exists e'.
  - intros pid e He. unfold with_task, tasks, upd_tasks. cbn. destruct (decide (pid = id_of w1 parent)) as [->|].
    + rewrite lookup_alter_eq. exists (put_fork (Some child) e). split; [|done]. apply fmap_Some. by exists e.
    + rewrite lookup_alter_ne by done. by exists e.
Qed.

Lemma advance_attach parent child t w : fresh_child child t w = true -> advance w (attach_child parent child t w).
Proof.
  intros (Hn & _ & _)%fresh_child_spec.
  assert (forall w', tasks w' = tasks w -> (forall v, v <> child -> w_vms w' !! v = w_vms w !! v) -> advance w w') as Ha.
  { intros w' Ht Hv. apply advance_vms; [done|]. intros v t' H. exists t'. rewrite Hv; [done|]. intros ->. congruence. }
  unfold attach_child. case_match; apply Ha; try done; intros v Hv; cbn;
    rewrite ?lookup_alter_ne by done; by rewrite lookup_insert_ne.
Qed.

Lemma advance_posix v set clr w :
  advance w (upd_vm v (fun t => put_tflags (Z.lor (andnot (t_flags t) (andnot clr KEPT_BITS)) (andnot set DEBUG_BITS)) t) w).
Proof.
  apply advance_upd_vm. intros t. cbn. unfold att, settled. rewrite !has_lor_l, !has_kept by done.
  rewrite (has_andnot_same set DEBUG_BITS VM_DEBUG_ATTACHED) by done. rewrite orb_false_r. split; [done|]. by intros ->.
Qed.

Lemma advance_event e w : inv w -> advance w (guest_event e w).
Proof.
  intros Hw. destruct e as [v|v b call|parent child t|parent child is_thread|v pc regs m|v set clr|v base exe|pid|v|bytes];
    cbn [guest_event]; try (apply advance_running; intros Hk).
  - case_match; [|apply advance_refl]. eapply advance_trans; [by apply advance_hook|apply advance_park].
  - case_match; [|apply advance_refl]. eapply advance_trans; [by apply advance_syscall|apply advance_park].
  - case_match; [|apply advance_refl]. by apply advance_attach.
  - case_decide; [|apply advance_refl]. by apply advance_register.
  - apply (advance_trans _ (upd_vm v (fun t => put_tmem (tlb m) (maps m) (put_treg regs (put_tpc pc t))) w));
      [by apply advance_upd_vm|by apply advance_same].
  - apply advance_posix.
  - by apply advance_upd_vm.
  - by apply advance_same.
  - case_match; [by apply advance_upd_vm|apply advance_refl].
  - by apply advance_same.
Qed.

Lemma advance_events l w : inv w -> advance w (foldl (fun w e => guest_event e w) w l).
Proof.
  revert w. induction l as [|e l IH]; intros w Hw; [apply advance_refl|]. cbn.
  apply (advance_trans _ (guest_event e w)); [by apply advance_event|]. by apply IH, event_inv.
Qed.

(** ** The traced threads are held *)

Definition held (w : World) : Prop := forall pid e, tasks w !! pid = Some e ->
  att (flags_of w (vmp e)) = true -> settled (flags_of w (vmp e)) = true \/ stepping e = true.

Lemma advance_held w w' : inv w -> advance w w' -> held w -> held w'.
Proof.
  intros Hw Ha Hh pid e' He' Hat. destruct (ad_task _ _ Ha pid e' He') as [?|(e & He & Hv & Hs)]; [by left|].
  destruct (i_key _ Hw pid e He) as (t & Ht & _). destruct (ad_vm _ _ Ha _ t Ht) as (t' & Ht' & Ea & Es).
  rewrite <- Hv in *. unfold flags_of in *. rewrite (vm_at_some _ _ _ Ht') in *.
  specialize (Hh pid e He). unfold flags_of in Hh. rewrite (vm_at_some _ _ _ Ht) in Hh. rewrite Ea in Hat.
  destruct (Hh Hat); auto.
Qed.

Section Stopping.
Context {ord : HashOrder} {env : HostEnv}.

Lemma scan_task_settled w preferred watch s e : s_settled (scan_task w preferred watch s e) =
  s_settled s && (negb (has (flags_of w (vmp e)) VM_DEBUG_ATTACHED)
                  || has (flags_of w (vmp e)) (Z.lor VM_SETTLED VM_STOPPED) || stepping e).
Proof. unfold scan_task. by repeat case_match. Qed.

Lemma held_scan w preferred watch : held w -> s_settled (scan_tasks w preferred watch) = true.
Proof.
  intros Hh. unfold scan_tasks.
  apply (foldl_ind (fun s => s_settled s = true)); [done|]. intros s e He Hs.
  apply task_list_in in He as [pid He]. specialize (Hh pid e He). unfold att, settled in Hh.
  rewrite scan_task_settled, Hs. cbn [andb].
  destruct (has (flags_of w (vmp e)) VM_DEBUG_ATTACHED); [|done]. cbn [negb orb].
  rewrite has_lor_r. destruct (Hh eq_refl) as [-> | ->]; [done|]. by rewrite orb_true_r.
Qed.

(** A watched entry whose vm has settled is found. *)
Definition stop_seen (w : World) (watch : list Z) : Prop :=
  exists pid e, tasks w !! pid = Some e /\ vmp e ∈ watch /\ settled (flags_of w (vmp e)) = true.

Definition scanning (s : scan) : Prop := s_hit s = None -> s_phase s = 0.

Lemma scan_task_scanning w preferred watch s e : scanning s -> scanning (scan_task w preferred watch s e) /\
  (s_hit s <> None -> s_hit (scan_task w preferred watch s e) <> None) /\
  (vmp e ∈ watch -> settled (flags_of w (vmp e)) = true -> s_hit (scan_task w preferred watch s e) <> None).
Proof.
  intros Hs. unfold scan_task, scanning.
  repeat match goal with |- context [if ?b then _ else _] => destruct b eqn:? end; cbn [s_hit s_phase]; try (by split_and!).
  split; [done|]. split; [done|]. intros Hin Hset Hn. specialize (Hs Hn). rewrite Hs in *.
  rewrite (bool_decide_eq_true_2 _ Hin) in *. unfold settled in Hset. unfold VM_SETTLED in Hset at 1. rewrite has_lor_r in Hset.
  destruct (has (flags_of w (vmp e)) VM_DEBUG_STOP); [done|]. cbn in Hset. by rewrite Hset in *.
Qed.

Lemma scan_sees w preferred watch : stop_seen w watch -> exists h, s_hit (scan_tasks w preferred watch) = Some h.
Proof.
  intros (pid & e & He & Hin & Hs).
  assert (e ∈ task_list w) as Hl by (apply task_list_in; by exists pid).
  assert (s_hit (scan_tasks w preferred watch) <> None) as Hn.
  { unfold scan_tasks. assert (scanning (mkscan 0 None true)) as H0 by done. revert H0.
    generalize (mkscan 0 None true). induction (task_list w) as [|x l IH]; intros s Hc; [by apply elem_of_nil in Hl|].
    cbn [foldl]. destruct (scan_task_scanning w preferred watch s x Hc) as (H1 & H2 & H3).
    apply elem_of_cons in Hl as [<-|Hl]; [|by apply IH].
    revert H1 H3. generalize (scan_task w preferred watch s e). clear -Hin Hs. intros s Hc Hx. specialize (Hx Hin Hs). clear Hin Hs.
    revert s Hc Hx. induction l as [|y l IH]; intros s Hc Hx; [done|]. cbn [foldl].
    destruct (scan_task_scanning w preferred watch s y Hc) as (H1 & H2 & _). apply IH; auto. }
  destruct (s_hit _) as [h|]; [by exists h|done].
Qed.

Lemma advance_seen w w' watch : advance w w' -> stop_seen w watch -> stop_seen w' watch.
Proof.
  intros Ha (pid & e & He & Hin & Hs). destruct (ad_in _ _ Ha pid e He) as (e' & He' & E).
  exists pid, e'. rewrite E. split; [done|]. split; [done|]. by eapply advance_settled.
Qed.

(** ** Stopping the others *)

Lemma advance_stop_one w v : advance w (stop_one w v).
Proof. unfold stop_one. case_match; [apply advance_refl|apply advance_stop]. Qed.

Lemma advance_stops l w : advance w (foldl stop_one w l).
Proof.
  revert w. induction l as [|v l IH]; intros w; [apply advance_refl|]. cbn.
  eapply advance_trans; [apply advance_stop_one|apply IH].
Qed.

Lemma stop_one_other w v u : u <> v -> flags_of (stop_one w v) u = flags_of w u.
Proof.
  intros Hne. unfold stop_one. case_match; [done|]. unfold flags_of, vm_at, raise_flags, upd_vm. cbn.
  by rewrite lookup_alter_ne.
Qed.

Lemma stops_settle l w v : v ∈ l -> known w v -> att (flags_of w v) = true -> has (flags_of w v) VM_STOPPED = false ->
  settled (flags_of (foldl stop_one w l) v) = true.
Proof.
  revert w. induction l as [|u l IH]; intros w Hv Hk Ha Hs; [by apply elem_of_nil in Hv|]. cbn.
  destruct (decide (v = u)) as [->|Hne].
  - apply (advance_settled (stop_one w u)); [apply advance_stops|]. unfold stop_one, is_attached.
    unfold att in Ha. rewrite Ha, has_lor_r, Hs, orb_false_r. cbn [negb orb].
    destruct (has (flags_of w u) VM_SETTLED) eqn:E; [done|]. by apply stopped_settled.
  - apply elem_of_cons in Hv as [|Hv]; [done|]. apply IH; [done| |by rewrite stop_one_other..].
    apply (ids_known w); [|done]. unfold stop_one. case_match; [done|]. by apply ids_upd_vm.
Qed.

Lemma stop_all_tasks w : tasks (stop_all_vms w) = tasks w.
Proof.
  unfold stop_all_vms. apply (foldl_ind (fun u => tasks u = tasks w)); [done|].
  intros u v _ H. unfold stop_one. by case_match.
Qed.

(** No thread of the table is stopped by job control. *)
Definition no_job_stop (w : World) : Prop := forall pid e, tasks w !! pid = Some e -> has (flags_of w (vmp e)) VM_STOPPED = false.

Lemma stop_all_held w : inv w -> no_job_stop w -> held (stop_all_vms w).
Proof.
  intros Hw Hn pid e He Hat. left. rewrite stop_all_tasks in He. destruct (i_key _ Hw pid e He) as (t & Ht & _).
  apply stops_settle; [apply list_elem_of_fmap_2, task_list_in; by exists pid|by exists t| |by eapply Hn].
  destruct (ad_vm _ _ (advance_stops (vmp <$> task_list w) w) _ t Ht) as (t' & Ht' & E & _).
  unfold flags_of in *. rewrite (vm_at_some _ _ _ Ht). fold (stop_all_vms w) in Ht'. rewrite (vm_at_some _ _ _ Ht') in Hat. congruence.
Qed.

(** ** [wait_any_stopped] *)

Lemma bind_done {A B} (m : G A) (k : A -> G B) w b w' : gbind m k w = Done b w' ->
  exists a w1, m w = Done a w1 /\ k a w1 = Done b w'.
Proof. unfold gbind. destruct (m w) as [a w1| |]; [|done|done]. by exists a, w1. Qed.

Definition stop_seen_by (h : Z * option Z) (watch : list Z) (w : World) : Prop :=
  h.1 ∈ watch /\ settled (flags_of w h.1) = true /\ forall e, e ∈ task_list w -> at_rest w e.

Lemma take_fork_total hit w : exists h w', take_fork hit w = Done h w' /\ h.1 = hit.1 /\ w_script w' = w_script w /\
  (w' = w \/ w' = with_task hit.1 (put_fork None) w).
Proof.
  unfold take_fork, gbind, gets, modify, gret. destruct hit.2 as [c|].
  - destruct (report_fork_events_ (w_gdb w)); eexists _, _; (split; [reflexivity|]); auto.
  - eexists _, _. split; [reflexivity|]. auto.
Qed.

Lemma seen_after_fork h v watch w : stop_seen_by h watch w -> stop_seen_by h watch (with_task v (put_fork None) w).
Proof.
  intros (Hin & Hs & Hr). split; [done|]. split; [done|]. intros e' He'. apply task_list_in in He' as [pid He'].
  unfold with_task, tasks, upd_tasks in He'. cbn in He'.
  assert (exists e, tasks w !! pid = Some e /\ vmp e = vmp e' /\ stepping e = stepping e') as (e & He & Ev & Es).
  { destruct (decide (pid = id_of w v)) as [->|].
    - rewrite lookup_alter_eq in He'. apply fmap_Some in He' as (e & He & ->). by exists e.
    - rewrite lookup_alter_ne in He' by done. by exists e'. }
  assert (e ∈ task_list w) as Hl by (apply task_list_in; by exists pid).
  specialize (Hr e Hl). unfold at_rest in *. rewrite <- Ev, <- Es. exact Hr.
Qed.

Lemma take_fork_seen hit h watch w w' : take_fork hit w = Done h w' -> stop_seen_by hit watch w -> stop_seen_by h watch w'.
Proof.
  intros Ht Hs. destruct (take_fork_total hit w) as (h0 & w0 & E & Eh & _ & Ew). rewrite E in Ht. injection Ht as <- <-.
  assert (stop_seen_by h0 watch w) as H0 by (unfold stop_seen_by in *; by rewrite Eh).
  destruct Ew as [-> | ->]; [done|by apply seen_after_fork].
Qed.

(** Stopping the others leaves a settled scan as it was. *)
Lemma stops_flags l w v : flags_of (foldl stop_one w l) v = flags_of w v \/
  flags_of (foldl stop_one w l) v = Z.lor (flags_of w v) VM_DEBUG_STOP.
Proof.
  revert w. induction l as [|u l IH]; intros w; [by left|]. cbn [foldl].
  assert (flags_of (stop_one w u) v = flags_of w v \/ flags_of (stop_one w u) v = Z.lor (flags_of w v) VM_DEBUG_STOP) as H1.
  { unfold stop_one. case_match; [by left|]. unfold flags_of, vm_at, raise_flags, upd_vm. cbn.
    destruct (decide (v = u)) as [->|]; [|left; by rewrite lookup_alter_ne].
    rewrite lookup_alter_eq. destruct (w_vms w !! u); [by right|by left]. }
  destruct (IH (stop_one w u)) as [-> | ->]; [done|]. right. destruct H1 as [-> | ->]; [done|].
  by rewrite <- Z.lor_assoc, Z.lor_diag.
Qed.

Lemma stop_all_rest w : (forall e, e ∈ task_list w -> at_rest w e) -> forall e, e ∈ task_list (stop_all_vms w) -> at_rest (stop_all_vms w) e.
Proof.
  intros Hr e He. assert (task_list (stop_all_vms w) = task_list w) as El by (unfold task_list; by rewrite stop_all_tasks).
  rewrite El in He. specialize (Hr e He). unfold at_rest, stop_all_vms in *.
  destruct (stops_flags (vmp <$> task_list w) w (vmp e)) as [-> | ->]; [done|]. intros _. left.
  rewrite has_lor_r. pose proof (proj1 (stop_settles (flags_of w (vmp e)))) as Hs. unfold settled in Hs. by rewrite Hs.
Qed.

Lemma wait_any_loop_rest n preferred watch p w h w' : wait_any_loop n preferred watch p w = Done h w' -> stop_seen_by h watch w'.
Proof.
  revert p w. induction n as [|n IH]; intros p w H; cbn [wait_any_loop] in H;
    apply bind_done in H as (s & w1 & [= <- <-] & H); apply bind_done in H as ([] & w2 & H2 & H);
    destruct (s_hit (scan_tasks w preferred watch)) as [hit|] eqn:Hh.
  1,3: destruct (s_settled (scan_tasks w preferred watch)) eqn:Hset;
    [eapply take_fork_seen; [exact H|]; pose proof (scan_hit _ _ _ _ Hh) as (e & He & Hv & Hin & Hs);
     pose proof (scan_settled _ _ _ Hset) as Hr; split; [done|];
     destruct p; [injection H2 as <-|unfold modify in H2; injection H2 as <-];
     (split; [|try done; by apply stop_all_rest]); [done|]; by eapply advance_settled; [apply advance_stops|]|].
  all: apply bind_done in H as (c & w3 & _ & H); apply bind_done in H as (u & w4 & _ & H); try discriminate H;
    apply bind_done in H as (u' & w5 & _ & H); by eapply IH.
Qed.

Lemma stop_all_script w : w_script (stop_all_vms w) = w_script w.
Proof.
  unfold stop_all_vms. apply (foldl_ind (fun u => w_script u = w_script w)); [done|].
  intros u v _ H. unfold stop_one. by case_match.
Qed.

Lemma event_script e w : w_script (guest_event e w) = w_script w.
Proof.
  destruct e; cbn [guest_event]; unfold if_running, park_if_stopped, breakpoint_hook, syscall_cb, attach_child, register_child;
    repeat case_match; done.
Qed.
Lemma events_script l w : w_script (foldl (fun w e => guest_event e w) w l) = w_script w.
Proof. revert w. induction l as [|e l IH]; intros w; [done|]. cbn. by rewrite IH, event_script. Qed.

(** One round that finds a stop but does not report it yet. *)
Lemma wait_any_round n preferred watch w evs r hit : w_script w = evs :: r ->
  s_hit (scan_tasks w preferred watch) = Some hit -> s_settled (scan_tasks w preferred watch) = false ->
  exists w3, inv w -> inv w3 /\ advance (stop_all_vms w) w3 /\ w_script w3 = r /\
    wait_any_loop (Datatypes.S n) preferred watch false w = wait_any_loop n preferred watch true w3.
Proof.
  intros Hsc Hh Hs. set (w1 := stop_all_vms w). pose proof (stop_all_script w) as Hs1. fold w1 in Hs1.
  assert (exists c w2, peek_ctrl_c w1 = Done c w2 /\ quiet w1 w2 /\ advance w1 w2 /\ w_script w2 = w_script w1) as (c & w2 & Hp & Hq & Ha & E2).
  { unfold peek_ctrl_c. destruct (w_in w1) as [|x l]; [|destruct (x =? 3)]; eexists _, _;
      (split; [reflexivity|]; split_and!); try apply quiet_refl; try apply advance_refl; try done; [apply quiet_in|by apply advance_same]. }
  set (w2' := if c then stop_all_vms w2 else w2).
  assert (advance w2 w2' /\ quiet w2 w2' /\ w_script w2' = w_script w2) as (Ha2 & Hq2 & E3).
  { unfold w2'. destruct c; split_and!; try apply advance_refl; try apply quiet_refl; try done;
      [apply advance_stops|apply quiet_stop_all|apply stop_all_script]. }
  exists (foldl (fun w e => guest_event e w) (set_script r w2') evs). intros Hw.
  assert (inv (set_script r w2')) as Hi.
  { apply (inv_quiet w2'); [by apply quiet_same|]. eapply inv_quiet; [exact Hq2|]. eapply inv_quiet; [exact Hq|].
    eapply inv_quiet; [apply quiet_stop_all|done]. }
  split; [by apply events_inv|]. split.
  { apply (advance_trans _ _ _ Ha). apply (advance_trans _ _ _ Ha2). eapply advance_trans; [|by apply advance_events]. by apply advance_same. }
  split; [by rewrite events_script|]. cbn [wait_any_loop]. unfold gbind, gets. rewrite Hh, Hs. unfold modify. fold w1. rewrite Hp.
  assert (w_script w2' = evs :: r) as E4 by congruence. clear E3 Ha2 Hq2 Hi.
  subst w2'. unfold sleep, gret. destruct c; cbn iota in E4 |- *; by rewrite E4.
Qed.

Lemma wait_any_settles n preferred watch w p : stop_seen w watch -> held w ->
  exists h w', wait_any_loop n preferred watch p w = Done h w' /\ w_script w' = w_script w.
Proof.
  intros Hs Hh. destruct (scan_sees w preferred watch Hs) as [hit Hhit]. pose proof (held_scan w preferred watch Hh) as Hset.
  set (w1 := if p then w else stop_all_vms w).
  destruct (take_fork_total hit w1) as (h & w' & E & _ & Es & _). exists h, w'. split.
  - destruct n; cbn [wait_any_loop]; unfold gbind, gets; rewrite Hhit, Hset; rewrite <- E; unfold w1; by destruct p.
  - rewrite Es. unfold w1. destruct p; [done|apply stop_all_script].
Qed.
End Stopping.

Section AllStop.
Context {ord : HashOrder} {env : HostEnv}.

(** The threads [wait_any_stopped] watches. *)
Definition watched (watch_vms : list Z) (w : World) : list Z :=
  match watch_vms with [] => attached_vms w | _ => watch_vms end.



End AllStop.

(** The main thread has stopped; the other one makes a system call. *)
Definition demo_turn : list (list event) := [[EvSyscall 101 true 0x10004; EvClient (str "+")]].

Definition demo_stopped : World :=
  match wait_any_stopped (Some 100) [] (demo_world demo_turn []) with Done _ w' => w' | _ => demo_world [] [] end.

Lemma demo_stops : wait_any_stopped (Some 100) [] (demo_world demo_turn []) = Done (100, None) demo_stopped.
Proof. by vm_compute. Qed.



(** *** A thread that job control resumes escapes the stop

    The main thread has stopped, a second one is stopped by job control and a
    third runs, which only the stop itself settles; before the server looks
    again, SIGCONT resumes the second one. *)

Definition job_world (script : list (list event)) : World :=
  mkworld (<[102 := demo_vm 3 VM_DEBUG_ATTACHED 0x40000018]> {[ 100 := demo_main; 101 := demo_vm 2 (Z.lor VM_DEBUG_ATTACHED VM_STOPPED) 0x40000010 ]})
    (hst InterpFacts.parent_mem)
    (mkgdb 100 100 false false false false no_catch {[ 1 := fresh_task 100 ∅; 2 := fresh_task 101 ∅; 3 := fresh_task 102 ∅ ]})
    {[ 1 := 100; 2 := 101; 3 := 102 ]} ∅ [] [] script.

(** The server still waits after three more turns, with the thread running. *)
Lemma job_stop_escapes :
  match wait_any_stopped None [] (job_world [[EvFlags 101 0 VM_STOPPED]; [EvFlags 101 0 0]; []; []]) with
  | Waits w' => flags_of w' 101 = VM_DEBUG_ATTACHED
  | _ => False
  end.
Proof. by vm_compute. Qed.
