(* ===== verification/GdbReply.v ===== *)
(** * What the GDB server sends

    Every packet is acknowledged and answered at most once, with a packet the
    client can read. *)

From Stdlib Require Import Lia Ascii.
From stdpp Require Import base numbers list gmap strings option.
From S2P Require Import Prelude Bytes HostMem AddrSpace Vm Kernel Rsp Gdb GdbFacts GdbDemo.

Open Scope Z_scope.
Open Scope gdb_scope.

(** ** Payloads without the framing characters *)

Definition clean (l : list Z) : Prop := forallb (fun c => negb (c =? 36) && negb (c =? 35)) l = true.

Lemma clean_app a b : clean a -> clean b -> clean (a ++ b).
Proof. unfold clean. rewrite forallb_app. by intros -> ->. Qed.
Lemma clean_hexc l : Forall is_hexc l -> clean l.
Proof. unfold clean. induction 1 as [|c l Hc Hl IH]; [done|]. cbn. rewrite IH. unfold is_hexc in Hc. lia. Qed.
Lemma clean_str s : forallb (fun c => negb (c =? 36) && negb (c =? 35)) (str s) = true -> clean (str s).
Proof. done. Qed.
Lemma clean_hexd z : clean (hexd (u64 z)).
Proof. apply clean_hexc, hexd_hexc. apply (uwrap_range 64). lia. Qed.
Lemma clean_hexd32 z : clean (hexd (u32 z)).
Proof. apply clean_hexc, hexd_hexc. apply (uwrap_range 32). lia. Qed.
Lemma clean_hex2 z : clean (to_hex2 z).
Proof. apply clean_hexc, to_hex2_hexc. Qed.
Lemma clean_encode l : clean (hex_encode l).
Proof. apply clean_hexc, hex_encode_hexc. Qed.
Lemma clean_reg z : clean (reg_to_hex z).
Proof. apply clean_hexc, reg_to_hex_hexc. Qed.
Lemma clean_if (b : bool) x y : clean x -> clean y -> clean (if b then x else y).
Proof. by destruct b. Qed.
Lemma clean_bind {A} (l : list A) f : (forall x, clean (f x)) -> clean (l ≫= f).
Proof. intros Hf. induction l as [|x l IH]; [done|]. by apply clean_app. Qed.

Create HintDb clean.
#[export] Hint Resolve clean_app clean_hexd clean_hexd32 clean_hex2 clean_encode clean_reg clean_if clean_bind : clean.
#[export] Hint Extern 5 (clean (str _)) => exact eq_refl : clean.
#[export] Hint Extern 5 (clean []) => exact eq_refl : clean.

Lemma clean_tid w v : clean (encode_tid w v).
Proof. unfold encode_tid. auto 10 with clean. Qed.
Lemma clean_exit w v : clean (exit_code w v).
Proof. apply clean_hex2. Qed.
#[export] Hint Resolve clean_tid clean_exit : clean.

(** The client reads a clean packet as it was sent. *)
Lemma clean_received ack p rest : clean ack -> clean p ->
  recv_packet true (ack ++ frame p ++ rest) = Some (p, [], rest).
Proof.
  intros Ha Hp. unfold recv_packet, frame. change (str "$") with [36]. change (str "#") with [35].
  rewrite <- !app_assoc. cbn [app].
  assert (forall l c, clean l -> c = 36 \/ c = 35 -> Forall (fun x => x <> c) l) as Hne.
  { clear. intros l c Hl Hc. apply list.Forall_forall. intros x Hx -> . unfold clean in Hl. rewrite forallb_forall in Hl.
    specialize (Hl c). apply list_elem_of_In in Hx. specialize (Hl Hx). lia. }
  rewrite split_at_app by (apply Hne; auto). rewrite split_at_app by (apply Hne; auto).
  by rewrite to_hex2_eq by apply checksum_range.
Qed.

(** ** Operations that send nothing, and those that send one packet *)

Definition mute {A} (m : G A) (P : A -> Prop) : Prop := forall w,
  match m w with
  | Done a w' => w_out w' = w_out w /\ P a
  | Throws => True
  | Waits w' => w_out w' = w_out w
  end.
Definition speaks {A} (m : G A) (Q : A -> list (list Z) -> Prop) : Prop := forall w,
  match m w with
  | Done a w' => exists ps, w_out w' = w_out w ++ (ps ≫= frame) /\ Q a ps
  | Throws => True
  | Waits w' => w_out w' = w_out w
  end.
Definition any {A} (_ : A) : Prop := True.

Lemma mute_bind {A B} (m : G A) (k : A -> G B) P R :
  mute m P -> (forall a, P a -> mute (k a) R) -> mute (gbind m k) R.
Proof.
  intros Hm Hk w. unfold gbind. specialize (Hm w). destruct (m w) as [a w1| |w1]; [|done|done]. destruct Hm as [E Ha].
  specialize (Hk a Ha w1). destruct (k a w1); [|done|congruence]. destruct Hk. split; [congruence|done].
Qed.
Lemma speaks_bind {A B} (m : G A) (k : A -> G B) P Q :
  mute m P -> (forall a, P a -> speaks (k a) Q) -> speaks (gbind m k) Q.
Proof.
  intros Hm Hk w. unfold gbind. specialize (Hm w). destruct (m w) as [a w1| |w1]; [|done|done]. destruct Hm as [E Ha].
  specialize (Hk a Ha w1). destruct (k a w1); [|done|congruence]. by rewrite E in Hk.
Qed.
Lemma speaks_mute {A} (m : G A) P (Q : A -> list (list Z) -> Prop) : mute m P -> (forall a, P a -> Q a []) -> speaks m Q.
Proof.
  intros Hm HQ w. specialize (Hm w). destruct (m w) as [a w1| |]; [|done|done]. destruct Hm as [E Ha].
  exists []. rewrite E, app_nil_r. auto.
Qed.
Lemma mute_ret {A} (a : A) (P : A -> Prop) : P a -> mute (gret a) P.
Proof. by intros H w. Qed.
Lemma mute_gets {A} (f : World -> A) (P : A -> Prop) : (forall w, P (f w)) -> mute (gets f) P.
Proof. by intros H w. Qed.
Lemma mute_modify f : (forall w, w_out (f w) = w_out w) -> mute (modify f) any.
Proof. by intros H w. Qed.
Lemma mute_throw {A} (P : A -> Prop) : mute (fun _ => Throws) P.
Proof. done. Qed.
Lemma mute_waits {A} (P : A -> Prop) : mute (fun w => Waits w) P.
Proof. done. Qed.
Lemma mute_any {A} (m : G A) P : mute m P -> mute m any.
Proof. intros H w. specialize (H w). destruct (m w); [|done|done]. by destruct H. Qed.

Lemma event_out e w : w_out (guest_event e w) = w_out w.
Proof.
  destruct e; cbn [guest_event]; unfold if_running, park_if_stopped, breakpoint_hook, syscall_cb, attach_child, register_child;
    repeat case_match; done.
Qed.

Lemma mute_sleep : mute sleep any.
Proof.
  intros w. unfold sleep. destruct (w_script w) as [|evs r]; [done|]. split; [|done].
  apply (foldl_ind (fun u => w_out u = w_out w)); [done|]. intros u e _ H. by rewrite event_out.
Qed.
Lemma mute_peek : mute peek_ctrl_c any.
Proof. intros w. unfold peek_ctrl_c. destruct (w_in w) as [|c r]; [done|]. by destruct (c =? 3). Qed.

Lemma out_fold {A} (f : World -> A -> World) l w : (forall w x, w_out (f w x) = w_out w) -> w_out (foldl f w l) = w_out w.
Proof. intros Hf. apply (foldl_ind (fun u => w_out u = w_out w)); [done|]. intros u x _ <-. apply Hf. Qed.

Create HintDb mute.
#[export] Hint Resolve mute_sleep mute_peek mute_throw mute_waits : mute.
#[export] Hint Extern 2 (mute (gret _) any) => apply mute_ret; exact I : mute.
#[export] Hint Extern 2 (mute (gets _) any) => apply mute_gets; intros; exact I : mute.
#[export] Hint Extern 3 (mute (modify _) any) => (apply mute_modify; intros; reflexivity) : mute.

Ltac mute_step :=
  first
  [ solve [eauto with mute]
  | lazymatch goal with
    | |- mute (gbind _ _) _ => eapply (mute_bind _ _ any); [|intros ? _]
    | |- mute (if ?b then _ else _) _ => destruct b
    | |- mute (match ?x with _ => _ end) _ => destruct x
    end ].
Ltac mute_walk := repeat mute_step.

Section Replies.
Context {ord : HashOrder} {env : HostEnv} {alloc : HostAlloc}.

Lemma out_stop_all w : w_out (stop_all_vms w) = w_out w.
Proof. apply out_fold. intros u v. unfold stop_one. by case_match. Qed.
Lemma out_continue_all w : w_out (continue_all_vms w) = w_out w.
Proof. unfold continue_all_vms. rewrite out_fold; [done|]. intros u v. by case_match. Qed.
Lemma out_release v w : w_out (release v w) = w_out w.
Proof. unfold release. by case_match. Qed.
Lemma out_end_session w : w_out (end_session w) = w_out w.
Proof. unfold end_session. cbn. rewrite out_fold; [done|]. intros; apply out_release. Qed.

Hint Extern 2 (mute (modify stop_all_vms) any) => (apply mute_modify, out_stop_all) : mute.
Hint Extern 2 (mute (modify continue_all_vms) any) => (apply mute_modify, out_continue_all) : mute.

Lemma mute_wait_stopped_loop n v : mute (wait_stopped_loop n v) any.
Proof. induction n as [|n IH]; cbn [wait_stopped_loop]; mute_walk. Qed.
Hint Resolve mute_wait_stopped_loop : mute.
Lemma mute_wait_stopped v : mute (wait_stopped v) any.
Proof. unfold wait_stopped. mute_walk. Qed.
Hint Resolve mute_wait_stopped : mute.
Lemma mute_step_over v : mute (step_over v) any.
Proof. unfold step_over. mute_walk. Qed.
Hint Resolve mute_step_over : mute.
Lemma mute_resume v b : mute (resume v b) any.
Proof. unfold resume. mute_walk. Qed.
Lemma mute_resume_continue v : mute (resume_continue v) any.
Proof. unfold resume_continue. mute_walk. Qed.
Lemma mute_take_fork h : mute (take_fork h) any.
Proof. unfold take_fork. mute_walk. Qed.
Hint Resolve mute_resume mute_resume_continue mute_take_fork : mute.
Lemma mute_wait_any_loop n preferred watch p : mute (wait_any_loop n preferred watch p) any.
Proof. revert p. induction n as [|n IH]; intros p; cbn [wait_any_loop]; mute_walk. Qed.
Hint Resolve mute_wait_any_loop : mute.
Lemma mute_wait_any preferred watch : mute (wait_any_stopped preferred watch) any.
Proof. unfold wait_any_stopped. mute_walk. Qed.
Lemma mute_step_all l a : mute (step_all l a) any.
Proof. revert a. induction l as [|v l IH]; intros a; cbn [step_all]; mute_walk. Qed.
Hint Resolve mute_wait_any mute_step_all : mute.

(** *** Stop replies *)

Definition spoken {A} (_ : A) (ps : list (list Z)) : Prop := Forall clean ps /\ (length ps <= 1)%nat.
Definition if_spoken (b : bool) (ps : list (list Z)) : Prop := if b then spoken b ps else ps = [].

Lemma spoken_nil {A} (a : A) : spoken a [].
Proof. split; [constructor|cbn; lia]. Qed.

Lemma silent {A} (a : A) (Q : A -> list (list Z) -> Prop) w : Q a [] -> exists ps, w_out w = w_out w ++ (ps ≫= frame) /\ Q a ps.
Proof. intros H. exists []. by rewrite app_nil_r. Qed.

(** A packet and then an update that sends nothing. *)
Lemma speaks_packet {A} p f (a : A) (Q : A -> list (list Z) -> Prop) : clean p -> (forall w, w_out (f w) = w_out w) ->
  (forall ps, spoken a ps -> Q a ps) -> speaks (fun w => (send_packet p ;; modify f ;; gret a) w) Q.
Proof.
  intros Hp Hf HQ w. unfold gbind, send_packet, send, modify, gret. exists [p]. rewrite Hf. cbn. rewrite app_nil_r.
  split; [done|]. apply HQ. split; [|cbn; lia]. by apply Forall_cons_2.
Qed.

Lemma speaks_exit_reply v : speaks (send_exit_reply v) spoken.
Proof.
  intros w. unfold send_exit_reply. destruct (task_of w v); [|by apply silent, spoken_nil].
  apply (speaks_packet _ (upd_tasks (delete (id_of w v))) tt spoken); [|done..]. auto 10 with clean.
Qed.

(** The focus moves, then the packet is sent. *)
Lemma speaks_focused {A} f p (a : A) (Q : A -> list (list Z) -> Prop) : (forall w, w_out (f w) = w_out w) -> clean p ->
  (forall ps, spoken a ps -> Q a ps) -> speaks (modify f ;; send_packet p ;; gret a) Q.
Proof.
  intros Hf Hp HQ w. unfold gbind, send_packet, send, modify, gret. exists [p]. cbn. rewrite Hf, app_nil_r.
  split; [done|]. apply HQ. split; [|cbn; lia]. by apply Forall_cons_2.
Qed.

Lemma speaks_stop_reply v sig c : speaks (send_stop_reply v sig c) spoken.
Proof.
  intros w. unfold send_stop_reply. apply (speaks_focused (focus v) _ tt spoken); [done| |done].
  destruct c; auto 10 with clean.
Qed.

Lemma speaks_syscall_stop v : speaks (try_send_syscall_stop v) if_spoken.
Proof.
  intros w. unfold try_send_syscall_stop. destruct (task_of w v) as [e|]; [|by apply silent].
  destruct (syscall_event e) as [sysno b]. destruct (sysno =? 0); [exists []; by rewrite app_nil_r|].
  apply (speaks_focused _ _ true if_spoken); [done| |done]. destruct b; auto 10 with clean.
Qed.

Lemma speaks_exec_stop v : speaks (try_send_exec_stop v) if_spoken.
Proof.
  intros w. unfold try_send_exec_stop. destruct (task_of w v) as [e|]; [|by apply silent].
  destruct (exec_path e); [exists []; by rewrite app_nil_r|].
  apply (speaks_focused _ _ true if_spoken); [done| |done]. auto 10 with clean.
Qed.

(** The first of the two that has something to say. *)
Lemma speaks_or (m : G bool) (k : G unit) : speaks m if_spoken -> speaks k spoken ->
  speaks (x <- m ;; if x then gret tt else k) spoken.
Proof.
  intros Hm Hk w. unfold gbind. specialize (Hm w). destruct (m w) as [[|] w1| |w1]; [| |done|done].
  - destruct Hm as (ps & E & Hs). by exists ps.
  - destruct Hm as (ps & E & ->). rewrite app_nil_r in E. specialize (Hk w1). by rewrite E in Hk.
Qed.

Lemma speaks_report hit : speaks (report_hit hit) spoken.
Proof.
  unfold report_hit. apply (speaks_bind _ _ any); [auto with mute|]. intros [|] _; [apply speaks_exit_reply|].
  apply speaks_or; [apply speaks_exec_stop|]. apply speaks_or; [apply speaks_syscall_stop|apply speaks_stop_reply].
Qed.

(** *** Handlers *)

(** A text to be sent, or the handler has spoken itself. *)
Definition answered (r : reply) (ps : list (list Z)) : Prop :=
  match r with Reply l => ps = [] /\ clean l | Self => spoken r ps end.
Definition text (r : reply) : Prop := match r with Reply l => clean l | Self => False end.

Lemma speaks_text m : mute m text -> speaks m answered.
Proof. intros H. eapply speaks_mute; [exact H|]. by intros [l|]. Qed.

Lemma speaks_self (m : G unit) : speaks m spoken -> speaks (m ;; gret Self) answered.
Proof.
  intros H w. unfold gbind, gret. specialize (H w). destruct (m w) as [[] w1| |]; [|done|done].
  destruct H as (ps & E & Hs). by exists ps.
Qed.

Lemma mute_answer s : forallb (fun c => negb (c =? 36) && negb (c =? 35)) (str s) = true -> mute (answer s) text.
Proof. intros H w. split; [done|]. exact H. Qed.
Lemma mute_reply f : (forall w, clean (f w)) -> mute (gets (fun w => Reply (f w))) text.
Proof. intros H. apply mute_gets. exact H. Qed.

Hint Extern 2 (mute (answer _) text) => (apply mute_answer; exact eq_refl) : mute.
Hint Extern 3 (mute (gets (fun w => Reply _)) text) => (apply mute_reply; intros; auto 10 with clean) : mute.
Hint Extern 3 (mute (gret (Reply _)) text) => (apply mute_ret; cbn [text]; auto 10 with clean) : mute.

Lemma mute_on_mem {A} v (f : mmem -> A * mmem) : mute (on_mem v f) any.
Proof. intros w. unfold on_mem. by destruct (f (mem_of w v)). Qed.
Hint Resolve mute_on_mem : mute.

Definition clean_opt (o : option (list Z)) : Prop := match o with Some l => clean l | None => True end.

Lemma mute_read_loop n v addr off len : mute (read_loop n v addr off len) clean_opt.
Proof.
  revert off. induction n as [|n IH]; intros off; cbn [read_loop]; [by apply mute_ret|].
  case_match; [by apply mute_ret|]. cbn zeta. apply (mute_bind _ _ any); [auto with mute|]. intros [p|] _.
  - apply (mute_bind _ _ any); [auto with mute|]. intros h _. apply mute_ret. cbn. auto with clean.
  - apply (mute_bind _ _ any); [auto with mute|]. intros [p|] _; [|by apply mute_ret].
    apply (mute_bind _ _ any); [auto with mute|]. intros h _. eapply mute_bind; [apply IH|].
    intros [l|] Hl; apply mute_ret; [|done]. cbn in *. auto with clean.
Qed.

Lemma mute_decode_to v p s n : mute (decode_to v p s n) any.
Proof. unfold decode_to. destruct (hex_decode s n). mute_walk. Qed.
Hint Resolve mute_decode_to : mute.
Lemma mute_write_loop n v addr off len h : mute (write_loop n v addr off len h) any.
Proof. revert off. induction n as [|n IH]; intros off; cbn [write_loop]; mute_walk. Qed.
Lemma mute_write_regs l v h : mute (write_regs l v h) any.
Proof. induction l as [|i l IH]; cbn [write_regs]; mute_walk. Qed.
Hint Resolve mute_write_loop mute_write_regs : mute.
Hint Extern 1 (mute current any) => (apply mute_gets; intros; exact I) : mute.

Lemma mute_supported pkt : mute (handle_supported pkt) text.
Proof.
  intros w. unfold handle_supported. refine (mute_bind (modify _) (fun _ => gret _) any text _ _ w); [auto with mute|].
  intros _ _. apply mute_ret. unfold text. auto 12 with clean.
Qed.
Lemma clean_thread_info w : clean (thread_info w).
Proof. unfold thread_info. destruct ((fun v => encode_tid w v) <$> attached_vms w) as [|t ts] eqn:E; [done|].
  assert (Forall clean (t :: ts)) as Hc.
  { rewrite <- E. apply list.Forall_fmap, list.Forall_forall. intros x _. apply clean_tid. }
  apply list.Forall_cons in Hc as [Ht Hts]. repeat apply clean_app; [done..|].
  clear E. induction Hts; [done|]. cbn. repeat apply clean_app; done.
Qed.
Lemma clean_offsets w : clean (offsets w).
Proof. unfold offsets. auto 10 with clean. Qed.
Lemma clean_read_regs w v : clean (read_regs w v).
Proof. unfold read_regs. auto 10 with clean. Qed.
Hint Resolve mute_supported clean_thread_info clean_offsets clean_read_regs : mute clean.

(** A handler that only sends through its caller. *)
Ltac text_step :=
  first
  [ solve [eauto with mute]
  | lazymatch goal with
    | |- mute (gbind _ _) _ => eapply (mute_bind _ _ any); [|intros ? _]
    | |- mute (if ?b then _ else _) _ => destruct b
    | |- mute (match ?x with _ => _ end) _ => destruct x
    end ].
Ltac text_walk := repeat text_step.

Lemma text_q pkt : mute (handle_q pkt) text.
Proof. unfold handle_q. text_walk. Qed.
Lemma text_Q pkt : mute (handle_Q pkt) text.
Proof. unfold handle_Q. text_walk. Qed.
Lemma text_H pkt : mute (handle_H pkt) text.
Proof. unfold handle_H. text_walk. Qed.
Lemma text_p pkt : mute (handle_p pkt) text.
Proof. unfold handle_p. text_walk. Qed.
Lemma text_P pkt : mute (handle_P pkt) text.
Proof. unfold handle_P. text_walk. Qed.
Lemma text_m pkt : mute (handle_m pkt) text.
Proof.
  unfold handle_m. apply (mute_bind _ _ any); [auto with mute|]. intros v _. case_match; [|auto with mute]. case_match.
  cbn zeta. case_match; [auto with mute|]. case_match; [auto with mute|].
  eapply mute_bind; [apply mute_read_loop|]. intros [l'|] Hl; [by apply mute_ret|auto with mute].
Qed.
Lemma text_M pkt : mute (handle_M pkt) text.
Proof. unfold handle_M. text_walk. Qed.
Lemma text_Z set pkt : mute (handle_Z set pkt) text.
Proof. unfold handle_Z. text_walk. Qed.
Lemma text_D pkt : mute (handle_D pkt) text.
Proof.
  unfold handle_D. apply (mute_bind _ _ any); [|auto with mute]. apply mute_modify. intros w.
  repeat case_match; try apply out_end_session. unfold detach_vm. case_match; [by rewrite out_release|done].
Qed.
Lemma out_attach_vm v w : w_out (attach_vm v w) = w_out w.
Proof. unfold attach_vm. by case_match. Qed.
Lemma text_attach pkt : mute (handle_attach pkt) text.
Proof.
  unfold handle_attach. text_walk. apply mute_modify. intros w. apply out_attach_vm.
Qed.
Lemma text_T pkt : mute (handle_T pkt) text.
Proof.
  unfold handle_T. apply mute_gets. intros w. destruct (decode_tid _ _ _); [exact eq_refl|]. unfold text. by case_match.
Qed.

(** ... and those that let the guest run. *)
Lemma speaks_wait_report preferred watch :
  speaks (hit <- wait_any_stopped preferred watch ;; report_hit hit ;; gret Self) answered.
Proof. apply (speaks_bind _ _ any); [auto with mute|]. intros hit _. apply speaks_self, speaks_report. Qed.

Lemma answers_c : speaks handle_c answered.
Proof.
  unfold handle_c. do 2 (apply (speaks_bind _ _ any); [auto with mute|]; intros ? _).
  case_match; [apply speaks_self, speaks_exit_reply|].
  do 2 (apply (speaks_bind _ _ any); [auto with mute|]; intros ? _). apply speaks_wait_report.
Qed.
Lemma answers_s : speaks handle_s answered.
Proof.
  unfold handle_s. do 2 (apply (speaks_bind _ _ any); [auto with mute|]; intros ? _).
  case_match; [apply speaks_self, speaks_exit_reply|].
  apply (speaks_bind _ _ any); [auto with mute|]; intros ? _. apply speaks_wait_report.
Qed.
Lemma speaks_vcont pkt : speaks (handle_vcont pkt) spoken.
Proof.
  unfold handle_vcont. do 5 (apply (speaks_bind _ _ any); [auto with mute|]; intros ? _).
  apply (speaks_bind _ _ any).
  { apply mute_modify. intros w. apply out_fold. intros u v. unfold release_one. by case_decide. }
  intros ? _. apply (speaks_bind _ _ any); [auto with mute|]. intros hit _. apply speaks_report.
Qed.

Lemma answers_v pkt : speaks (handle_v pkt) answered.
Proof.
  unfold handle_v. case_match; [apply speaks_text; auto with mute|]. case_match; [apply speaks_self, speaks_vcont|].
  case_match; [apply speaks_text, text_attach|]. apply speaks_text. text_walk.
Qed.

Lemma answers_packet pkt : speaks (handle_packet pkt) answered.
Proof.
  unfold handle_packet, handle_why.
  repeat match goal with |- speaks (if ?b then _ else _) _ => destruct b end;
    try (apply speaks_text; (first [solve [auto using text_q, text_Q, text_H, text_p, text_P, text_m, text_M, text_Z, text_D, text_T with mute]
      | solve [text_walk]]); fail).
  - apply answers_c.
  - apply answers_s.
  - apply answers_v.
Qed.

(** An acknowledgement, sent while the packet is received. *)
Definition is_ack (a : list Z) : Prop := a = [] \/ a = str "+" \/ a = str "-".

Lemma clean_ack a : is_ack a -> clean a.
Proof. by intros [-> | [-> | ->]]. Qed.

Lemma recv_ack n w : match recv_loop n w with
  | Done _ w' => exists a, w_out w' = w_out w ++ a /\ is_ack a
  | Throws => False
  | Waits w' => w_out w' = w_out w
  end.
Proof.
  revert w. induction n as [|n IH]; intros w; cbn [recv_loop]; destruct (recv_packet _ _) as [[[data ack] rest]|] eqn:Hr.
  1,3: exists ack; split; [done|]; unfold recv_packet in Hr; repeat case_match; try done; injection Hr as _ <- _; unfold is_ack; auto.
  - done.
  - unfold gbind. pose proof (mute_sleep w) as Hs. destruct (sleep w) as [u w1| |w1] eqn:E; [|unfold sleep in E; by case_match|done].
    destruct Hs as [Hs _]. specialize (IH w1). destruct (recv_loop n w1); [|done|congruence]. by rewrite <- Hs.
Qed.

End Replies.

Section OneReply.
Context {ord : HashOrder} {env : HostEnv} {alloc : HostAlloc}.


End OneReply.
