(* ===== verification/GdbMem.v ===== *)
(** * Guest memory through the debugger

    The packets [m] and [M] against the bytes the guest sees: what is read, what
    is written, and that a reading gives back what was written. *)

From Stdlib Require Import Lia Ascii.
From stdpp Require Import base numbers list gmap strings option.
From S2P Require Import Prelude Bytes HostMem AddrSpace Vm Kernel InterpFacts Rsp Gdb GdbFacts GdbDemo.

Open Scope Z_scope.
Open Scope gdb_scope.

(** ** Bytes and digits *)

Lemma le_value_byte l i b : Forall is_byte l -> l !! i = Some b ->
  (le_value l / 2 ^ (8 * Z.of_nat i)) mod 256 = b.
Proof.
  revert i. induction l as [|x l IH]; intros i Hl Hi; [done|]. apply list.Forall_cons in Hl as [Hx Hl]. unfold is_byte in Hx.
  cbn [le_value foldr]. fold (le_value l). destruct i as [|i]; cbn in Hi.
  - injection Hi as ->. change (2 ^ (8 * Z.of_nat 0)) with 1. rewrite Z.div_1_r.
    replace (b + 256 * le_value l) with (b + le_value l * 256) by lia. rewrite Z_mod_plus_full. by apply Z.mod_small.
  - replace (8 * Z.of_nat (Datatypes.S i)) with (8 + 8 * Z.of_nat i) by lia. rewrite Z.pow_add_r by lia. change (2 ^ 8) with 256.
    rewrite <- Z.div_div by lia. replace (x + 256 * le_value l) with (x + le_value l * 256) by lia.
    rewrite Z.div_add by lia. rewrite (Z.div_small x) by lia. by apply IH.
Qed.

Lemma hex_encode_app a b : hex_encode (a ++ b) = hex_encode a ++ hex_encode b.
Proof. apply bind_app. Qed.
Lemma hex_encode_length l : length (hex_encode l) = (2 * length l)%nat.
Proof. induction l as [|x l IH]; [done|]. rewrite hex_encode_cons, length_app, IH. cbn. lia. Qed.

(** The digits of a range of the bytes. *)
Lemma substr_encode l o n : (o + n <= length l)%nat ->
  substr (hex_encode l) (2 * Z.of_nat o) (2 * Z.of_nat n) = Some (hex_encode (take n (drop o l))).
Proof.
  intros Hle. unfold substr. rewrite hex_encode_length. destruct (Z.ltb_spec (Z.of_nat (2 * length l)) (2 * Z.of_nat o)); [lia|]. f_equal.
  replace (Z.to_nat (2 * Z.of_nat n)) with (2 * n)%nat by lia. replace (Z.to_nat (2 * Z.of_nat o)) with (2 * o)%nat by lia.
  assert (drop (2 * o) (hex_encode l) = hex_encode (drop o l)) as ->.
  { rewrite <- (take_drop o l) at 1. rewrite hex_encode_app, drop_app_length'; [done|]. rewrite hex_encode_length, length_take. lia. }
  rewrite <- (take_drop n (drop o l)) at 1. rewrite hex_encode_app, take_app_length'; [done|].
  rewrite hex_encode_length, length_take, length_drop. lia.
Qed.

Lemma hex_decode_exact l : Forall is_byte l -> Z.of_nat (length l) < 2 ^ 62 -> hex_decode (hex_encode l) (Z.of_nat (length l)) = (true, l).
Proof.
  intros Hl Hn. unfold hex_decode. rewrite hex_encode_length, (uwrap_small 64) by lia.
  destruct (Z.ltb_spec (Z.of_nat (2 * length l)) (Z.of_nat (length l) * 2)); [lia|]. rewrite Nat2Z.id.
  rewrite <- (app_nil_r (hex_encode l)). by apply hex_decode_encode.
Qed.

(** ** The memory of a vm *)

Lemma mem_put v m w : known w v -> mem_of (put_mem v m w) v = m.
Proof.
  intros [t Ht]. unfold mem_of, put_mem, upd_vm, vm_at. cbn. rewrite lookup_alter_eq, Ht. by destruct m.
Qed.
Lemma known_put v m w u : known (put_mem v m w) u <-> known w u.
Proof.
  unfold known, put_mem, upd_vm. cbn. destruct (decide (u = v)) as [->|]; [|by rewrite lookup_alter_ne].
  rewrite lookup_alter_eq. by destruct (w_vms w !! v).
Qed.
Lemma put_rest v m w : w_gdb (put_mem v m w) = w_gdb w /\ w_out (put_mem v m w) = w_out w /\ w_script (put_mem v m w) = w_script w.
Proof. done. Qed.

(** The bytes from [a] on, when all are mapped. *)
Definition gbytes (m : mmem) (a : Z) (n : nat) : option (list Z) :=
  mapM (fun i => gbyte m (a + Z.of_nat i)) (seq 0 n).

Lemma mapM_seq_shift {A} (f : nat -> option A) k n : mapM f (seq (Datatypes.S k) n) = mapM (fun i => f (Datatypes.S i)) (seq k n).
Proof. revert k. induction n as [|n IH]; intros k; [done|]. cbn. by rewrite IH. Qed.

Lemma gbytes_S m a n : gbytes m a (Datatypes.S n) =
  match gbyte m a with Some b => match gbytes m (a + 1) n with Some l => Some (b :: l) | None => None end | None => None end.
Proof.
  unfold gbytes. cbn [seq mapM]. replace (a + Z.of_nat 0) with a by lia. destruct (gbyte m a) as [b|]; [|done]. cbn.
  rewrite mapM_seq_shift. erewrite (mapM_ext _ (fun i => gbyte m (a + 1 + Z.of_nat i))); [by destruct (mapM _ _)|].
  intros i. f_equal. lia.
Qed.

Lemma gbytes_ext m m' a n : (forall b, gbyte m' b = gbyte m b) -> gbytes m' a n = gbytes m a n.
Proof. intros H. unfold gbytes. apply mapM_ext. intros i. apply H. Qed.

Lemma gbytes_some m a n l : length l = n -> (forall i b, l !! i = Some b -> gbyte m (a + Z.of_nat i) = Some b) ->
  gbytes m a n = Some l.
Proof.
  revert a n. induction l as [|b l IH]; intros a n Hn Hl; cbn in Hn; subst n; [done|].
  rewrite gbytes_S. replace a with (a + Z.of_nat 0) at 1 by lia. rewrite (Hl 0%nat b eq_refl).
  rewrite (IH (a + 1) (length l)); [done|done|]. intros i x Hi. specialize (Hl (Datatypes.S i) x Hi). rewrite <- Hl. f_equal. lia.
Qed.

Section Memory.
Context {env : HostEnv}.

(** A translated range is the bytes at the host address. *)
Lemma gbytes_host m a n p : mem_wf m -> valid_access a (Z.of_nat n) -> translate (maps m) a (Z.of_nat n) = Some p ->
  gbytes m a n = Some (host_bytes (hst m) p (Z.of_nat n)).
Proof.
  intros Hm Hv Ht. apply gbytes_some; [unfold host_bytes; by rewrite length_fmap, length_seq, Nat2Z.id|].
  intros i b Hi. unfold host_bytes in Hi. rewrite Nat2Z.id in Hi. apply list_lookup_fmap_Some in Hi as (j & -> & Hj).
  apply lookup_seq in Hj as [-> Hj]. unfold gbyte.
  rewrite (translate_byte (maps m) a (Z.of_nat n) p (Z.of_nat i)); [done|apply Hm|done|done|lia].
Qed.

Lemma host_byte h p : host_bytes h p 1 = [h_bytes h p.1 p.2].
Proof.
  unfold host_bytes. change (seq 0 (Z.to_nat 1)) with [0%nat]. change (Z.of_nat 0) with 0. cbn [fmap list_fmap].
  by rewrite Z.add_0_r.
Qed.

(** What a read leaves: the world but for the TLB of [v]. *)
Definition same_but_tlb (v : Z) (w w' : World) : Prop :=
  exists tl, w' = put_mem v (mkmmem tl (t_maps (vm_at w v)) (w_host w)) w /\ mem_wf (mem_of w' v).

Lemma same_gbyte v w w' a : known w v -> same_but_tlb v w w' -> gbyte (mem_of w' v) a = gbyte (mem_of w v) a.
Proof. intros Hk (tl & -> & _). by rewrite mem_put. Qed.

Lemma on_mmu v w a n : known w v -> mem_wf (mem_of w v) -> valid_access a n ->
  exists w', on_mem v (fun m => mmu m a n) w = Done (translate (maps (mem_of w v)) a n) w' /\ same_but_tlb v w w'.
Proof.
  intros Hk Hm Hv. unfold on_mem. destruct (mmu_spec (mem_of w v) a n Hm Hv) as (Ht & Hw' & Hms & Hh).
  destruct (mmu (mem_of w v) a n) as [o m'] eqn:E. cbn in Ht, Hw', Hms, Hh. subst o.
  exists (put_mem v m' w). split; [done|]. exists (tlb m'). rewrite <- Hms at 1. cbn [mem_of hst] in Hh. rewrite <- Hh.
  assert (mkmmem (tlb m') (maps m') (hst m') = m') as -> by by destruct m'.
  split; [done|]. by rewrite mem_put.
Qed.

Lemma same_trans v w1 w2 w3 : known w1 v -> same_but_tlb v w1 w2 -> same_but_tlb v w2 w3 -> same_but_tlb v w1 w3.
Proof.
  intros [t Ht] (tl2 & -> & _) (tl3 & -> & H3). exists tl3. split; [|done].
  unfold put_mem, upd_vm, vm_at, set_whost, set_vms. cbn. rewrite lookup_alter_eq, Ht. cbn.
  f_equal. apply map_eq. intros u. destruct (decide (u = v)) as [->|]; [|by rewrite !lookup_alter_ne].
  by rewrite !lookup_alter_eq, Ht.
Qed.

Lemma same_refl v w : known w v -> mem_wf (mem_of w v) -> same_but_tlb v w w.
Proof.
  intros [t Ht] Hm. exists (t_tlb (vm_at w v)). split; [|done]. destruct w as [vs h g ps pd i o sc].
  unfold put_mem, upd_vm, vm_at, set_whost, set_vms in *. cbn in *. rewrite Ht. cbn. f_equal.
  symmetry. apply map_eq. intros u. destruct (decide (u = v)) as [->|]; [|by rewrite lookup_alter_ne].
  rewrite lookup_alter_eq, Ht. by destruct t.
Qed.

Lemma same_known v w w' u : same_but_tlb v w w' -> known w u -> known w' u.
Proof. intros (tl & -> & _). apply known_put. Qed.

(** [m] reads exactly the bytes the guest sees, if all are mapped. *)
Lemma read_loop_spec n v addr off len w : known w v -> mem_wf (mem_of w v) -> 0 <= addr -> 0 <= off <= len -> addr + len < 2 ^ 64 ->
  (Z.to_nat (len - off) <= n)%nat ->
  exists w', read_loop n v addr off len w = Done (hex_encode <$> gbytes (mem_of w v) (addr + off) (Z.to_nat (len - off))) w' /\
    same_but_tlb v w w'.
Proof.
  revert off w. induction n as [|n IH]; intros off w Hk Hm Ha Ho Hl Hn; cbn [read_loop].
  - replace (Z.to_nat (len - off)) with 0%nat by lia. exists w. split; [done|by apply same_refl].
  - destruct (Z.leb_spec len off) as [Hle|Hlt].
    + replace (Z.to_nat (len - off)) with 0%nat by lia. exists w. split; [done|by apply same_refl].
    + rewrite (uwrap_small 64) by lia. unfold gbind.
      assert (valid_access (addr + off) (len - off)) as Hv by (unfold valid_access; lia).
      assert (valid_access (addr + off) 1) as Hv1 by (unfold valid_access; lia).
      destruct (on_mmu v w (addr + off) (len - off) Hk Hm Hv) as (w1 & -> & H1).
      destruct (translate _ _ (len - off)) as [p|] eqn:Ht.
      * exists w1. split; [|done]. unfold gets, gret.
        rewrite (gbytes_host (mem_of w v) (addr + off) _ p); [|done|by rewrite Z2Nat.id by lia..].
        rewrite Z2Nat.id by lia. cbn. do 3 f_equal. destruct H1 as (tl & -> & _). done.
      * assert (known w1 v) as Hk1 by by eapply same_known.
        assert (mem_wf (mem_of w1 v)) as Hm1 by (by destruct H1 as (tl & _ & ?)).
        destruct (on_mmu v w1 (addr + off) 1 Hk1 Hm1 Hv1) as (w2 & -> & H2).
        pose proof (same_trans v w w1 w2 Hk H1 H2) as H12.
        assert (known w2 v) as Hk2 by by eapply same_known.
        assert (mem_wf (mem_of w2 v)) as Hm2 by (by destruct H2 as (tl & _ & ?)).
        assert (Z.to_nat (len - off) = Datatypes.S (Z.to_nat (len - (off + 1)))) as En by lia.
        rewrite En, gbytes_S. pose proof (same_gbyte v w w1 (addr + off) Hk H1) as Eb. unfold gbyte in Eb at 1.
        destruct (translate (maps (mem_of w1 v)) (addr + off) 1) as [p|] eqn:Ht1; cbn in Eb; rewrite <- Eb.
        -- unfold gets, gret. destruct (IH (off + 1) w2) as (w3 & -> & H3); [done|done|lia..|].
           exists w3. split; [|by eapply (same_trans v w w2 w3)].
           rewrite (gbytes_ext (mem_of w v)) by (intros b; by apply same_gbyte).
           replace (addr + (off + 1)) with (addr + off + 1) by lia.
           destruct (gbytes _ _ _) as [l|]; cbn; [|done]. do 2 f_equal.
           assert (host_bytes (w_host w2) p 1 = [h_bytes (hst (mem_of w1 v)) p.1 p.2]) as ->; [|done].
           destruct H2 as (tl & -> & _). apply host_byte.
        -- exists w2. done.
Qed.

(** ** Writing *)

Section Writes.
Context (v : Z) (pre ms rest : list memmap).
Context (Hms : wf_maps ms).

(** From [w] to [w'] the bytes [bs] have been written at [a] in the memory of
    [v]; another address space, with segments [ms], is as before. *)
Record wrote (a : Z) (bs : list Z) (w w' : World) : Prop := {
  wr_known : forall u, known w u -> known w' u;
  wr_wf : mem_wf (mem_of w' v);
  wr_share : share_ok (w_host w') (maps (mem_of w' v) ++ pre ++ ms ++ rest);
  wr_own : forall x, 0 <= x < 2 ^ 64 -> gbyte (mem_of w' v) x =
    if (a <=? x) && (x <? a + Z.of_nat (length bs)) then Some (bs !!! Z.to_nat (x - a)) else gbyte (mem_of w v) x;
  wr_other : forall x, 0 <= x < 2 ^ 64 -> gbyte_in (w_host w') ms x = gbyte_in (w_host w) ms x;
  wr_gdb : w_gdb w' = w_gdb w
}.

Definition ready (w : World) : Prop :=
  known w v /\ mem_wf (mem_of w v) /\ share_ok (w_host w) (maps (mem_of w v) ++ pre ++ ms ++ rest).

Lemma wrote_ready a bs w w' : ready w -> wrote a bs w w' -> ready w'.
Proof. intros (Hk & _ & _) Hr. split_and!; [by apply Hr|apply Hr..]. Qed.

Lemma in_empty a x : (a <=? x) && (x <? a + Z.of_nat (@length Z [])) = false.
Proof. change (Z.of_nat (@length Z [])) with 0. lia. Qed.

Lemma wrote_nil a w : ready w -> wrote a [] w w.
Proof.
  intros (Hk & Hm & Hs). split; try done. intros x _. by rewrite in_empty.
Qed.

Lemma wrote_app a b1 b2 w1 w2 w3 : wrote a b1 w1 w2 -> wrote (a + Z.of_nat (length b1)) b2 w2 w3 -> wrote a (b1 ++ b2) w1 w3.
Proof.
  intros H12 H23. split; try apply H23.
  - intros u Hu. by apply (wr_known _ _ _ _ H23), (wr_known _ _ _ _ H12).
  - intros x Hx. rewrite (wr_own _ _ _ _ H23 x Hx), (wr_own _ _ _ _ H12 x Hx), length_app.
    destruct (Z.leb_spec a x), (Z.ltb_spec x (a + Z.of_nat (length b1))), (Z.leb_spec (a + Z.of_nat (length b1)) x),
      (Z.ltb_spec x (a + Z.of_nat (length b1) + Z.of_nat (length b2))), (Z.ltb_spec x (a + Z.of_nat (length b1 + length b2)));
      cbn; try lia; try done.
    + by rewrite lookup_total_app_l by lia.
    + rewrite lookup_total_app_r by lia. do 2 f_equal. lia.
  - intros x Hx. by rewrite (wr_other _ _ _ _ H23 x Hx), (wr_other _ _ _ _ H12 x Hx).
  - by rewrite (wr_gdb _ _ _ _ H23), (wr_gdb _ _ _ _ H12).
Qed.

(** Resolving copy-on-write writes nothing. *)
Lemma on_mmu_w w a n : ready w -> valid_access a n ->
  exists o w', on_mem v (fun m => mmu_w m a n) w = Done o w' /\ wrote a [] w w' /\
    (forall p, o = Some p -> private_at (maps (mem_of w' v)) a n p).
Proof.
  intros (Hk & Hm & Hs) Hv. unfold on_mem. pose proof (mmu_w_spec (mem_of w v) a n Hm Hv) as [Hw' He _ Hg Hp].
  pose proof (mmu_w_share (mem_of w v) (pre ++ ms ++ rest) a n Hm Hs) as Hs'.
  destruct (mmu_w (mem_of w v) a n) as [o m']. cbn [fst snd] in *. exists o, (put_mem v m' w). split; [done|].
  pose proof (mem_put v m' w Hk) as Em. split; [|intros p Ho; rewrite Em; by apply Hp]. split; try done.
  - intros u. apply known_put.
  - by rewrite Em.
  - rewrite Em. exact Hs'.
  - intros x Hx. by rewrite Em, Hg, in_empty.
  - intros x Hx. change (w_host (put_mem v m' w)) with (hst m'). apply gbyte_in_extends; [done|].
    pose proof (sh_blocks _ _ Hs) as Hb. apply Forall_app in Hb as [_ Hb]. apply Forall_app in Hb as [_ Hb].
    by apply Forall_app in Hb as [Hb _].
Qed.

(** Storing decoded digits through the pointer. *)
Lemma decode_spec w a bs p : ready w -> Forall is_byte bs -> bs <> [] -> Z.of_nat (length bs) < 2 ^ 62 ->
  valid_access a (Z.of_nat (length bs)) -> private_at (maps (mem_of w v)) a (Z.of_nat (length bs)) p ->
  exists w', decode_to v p (hex_encode bs) (Z.of_nat (length bs)) w = Done true w' /\ wrote a bs w w'.
Proof.
  intros (Hk & Hm & Hs) Hb Hne Hlen Hv Hp. unfold decode_to. rewrite hex_decode_exact by done.
  unfold gbind, on_mem, gret. set (m' := put_bytes (mem_of w v) p bs). exists (put_mem v m' w). split; [done|].
  pose proof (mem_put v m' w Hk) as Em. split; try done.
  - intros u. apply known_put.
  - rewrite Em. by apply store_wf.
  - rewrite Em. change (w_host (put_mem v m' w)) with (hst m'). by apply host_write_share.
  - intros x Hx. rewrite Em. unfold m', put_bytes. rewrite (store_gbyte _ (pre ++ ms ++ rest) a) by done.
    destruct (Z.leb_spec a x), (Z.ltb_spec x (a + Z.of_nat (length bs))); cbn; try done. f_equal.
    destruct (lookup_lt_is_Some_2 bs (Z.to_nat (x - a))) as [b Eb]; [lia|].
    rewrite (list_lookup_total_correct _ _ _ Eb). rewrite <- (le_value_byte bs (Z.to_nat (x - a)) b) by done.
    do 3 f_equal. lia.
  - intros x Hx. change (w_host (put_mem v m' w)) with (hst m'). unfold m', put_bytes.
    by apply (store_gbyte_other (mem_of w v) pre ms rest a p (length bs)).
Qed.

Lemma write_loop_spec n off addr bs w : ready w -> Forall is_byte bs -> 0 <= addr -> addr + Z.of_nat (length bs) < 2 ^ 64 ->
  Z.of_nat (length bs) < 2 ^ 62 -> (off <= length bs)%nat -> (length bs - off <= n)%nat ->
  exists o w' k, write_loop n v addr (Z.of_nat off) (Z.of_nat (length bs)) (hex_encode bs) w = Done o w' /\
    wrote (addr + Z.of_nat off) (take k (drop off bs)) w w' /\
    (o = None /\ k = (length bs - off)%nat \/ o = Some 0xE14 /\ (k < length bs - off)%nat).
Proof.
  revert off w. induction n as [|n IH]; intros off w Hr Hb Ha Hl Hlen Ho Hn; cbn [write_loop].
  - exists None, w, 0%nat. split; [done|]. split; [by apply wrote_nil|]. left. split; [done|lia].
  - destruct (Z.leb_spec (Z.of_nat (length bs)) (Z.of_nat off)) as [Hle|Hlt].
    + exists None, w, 0%nat. split; [done|]. split; [by apply wrote_nil|]. left. split; [done|lia].
    + rewrite (uwrap_small 64 (addr + _)) by lia. unfold gbind at 1.
      destruct (on_mmu_w w (addr + Z.of_nat off) (Z.of_nat (length bs) - Z.of_nat off) Hr ltac:(unfold valid_access; lia)) as (o & w1 & -> & H1 & P1).
      pose proof (wrote_ready _ _ _ _ Hr H1) as Hr1. rewrite !(uwrap_small 64 (Z.of_nat off * 2)) by lia.
      destruct o as [p|].
      * rewrite (uwrap_small 64) by lia. specialize (P1 p eq_refl).
        replace (Z.of_nat off * 2) with (2 * Z.of_nat off) by lia.
        replace ((Z.of_nat (length bs) - Z.of_nat off) * 2) with (2 * Z.of_nat (length bs - off)) by lia.
        rewrite substr_encode by lia. rewrite (take_ge (drop off bs)) by (rewrite length_drop; lia).
        assert (Z.of_nat (length bs) - Z.of_nat off = Z.of_nat (length (drop off bs))) as En by (rewrite length_drop; lia).
        rewrite En in *. destruct (decode_spec w1 (addr + Z.of_nat off) (drop off bs) p) as (w2 & Hd & H2); try done.
        { by apply Forall_drop. } { intros E. rewrite E in En. cbn in En. lia. } { lia. } { unfold valid_access. lia. }
        unfold gbind. rewrite Hd. exists None, w2, (length bs - off)%nat. split; [done|]. split; [|by left].
        rewrite (take_ge (drop off bs)) by (rewrite length_drop; lia). rewrite <- (app_nil_l (drop off bs)).
        eapply wrote_app; [exact H1|]. cbn. by rewrite Z.add_0_r.
      * unfold gbind at 1.
        destruct (on_mmu_w w1 (addr + Z.of_nat off) 1 Hr1 ltac:(unfold valid_access; lia)) as (o1 & w2 & -> & H2 & P2).
        assert (wrote (addr + Z.of_nat off) [] w w2) as H12.
        { rewrite <- (app_nil_l []). eapply wrote_app; [exact H1|]. cbn. by rewrite Z.add_0_r. }
        pose proof (wrote_ready _ _ _ _ Hr H12) as Hr2.
        destruct o1 as [p|]; [|exists (Some 0xE14), w2, 0%nat; split; [done|]; split; [done|]; right; split; [done|lia]].
        specialize (P2 p eq_refl). rewrite (uwrap_small 64) by lia.
        replace (Z.of_nat off * 2) with (2 * Z.of_nat off) by lia. change (1 * 2) with (2 * Z.of_nat 1).
        rewrite substr_encode by lia.
        destruct (lookup_lt_is_Some_2 bs off ltac:(lia)) as [b Eb].
        assert (take 1 (drop off bs) = [b]) as E1.
        { rewrite (drop_S bs b off Eb). done. }
        rewrite E1. destruct (decode_spec w2 (addr + Z.of_nat off) [b] p) as (w3 & Hd & H3); try done.
        { apply Forall_cons_2; [|constructor]. by eapply Forall_lookup_1 in Hb. } { unfold valid_access. cbn. lia. }
        unfold gbind. change 1 with (Z.of_nat (length [b])) at 1. rewrite Hd.
        assert (wrote (addr + Z.of_nat off) [b] w w3) as H13.
        { rewrite <- (app_nil_l [b]). eapply wrote_app; [exact H12|]. cbn. by rewrite Z.add_0_r. }
        pose proof (wrote_ready _ _ _ _ Hr H13) as Hr3.
        replace (Z.of_nat off + 1) with (Z.of_nat (Datatypes.S off)) by lia.
        destruct (IH (Datatypes.S off) w3) as (o & w4 & k & -> & H4 & Hk); [done..|lia|lia|].
        exists o, w4, (Datatypes.S k). split; [done|]. split.
        -- rewrite (drop_S bs b off Eb). cbn [take]. change (b :: take k (drop (Datatypes.S off) bs)) with ([b] ++ take k (drop (Datatypes.S off) bs)).
           eapply wrote_app; [exact H13|]. cbn [length]. replace (addr + Z.of_nat off + Z.of_nat 1) with (addr + Z.of_nat (Datatypes.S off)) by lia. done.
        -- destruct Hk as [[-> ->]|[-> ?]]; [left|right]; (split; [done|lia]).
Qed.

End Writes.

(** ** The packets *)

Context {ord : HashOrder} {alloc : HostAlloc}.

(** What the client sends to read and to write memory. *)
Definition m_packet (addr len : Z) : list Z := str "m" ++ hexd addr ++ str "," ++ hexd len.
Definition M_packet (addr : Z) (bs : list Z) : list Z :=
  str "M" ++ hexd addr ++ str "," ++ hexd (Z.of_nat (length bs)) ++ str ":" ++ hex_encode bs.

Lemma hexd_no c z : 0 <= z -> (forall x, is_hexc x -> x <> c) -> Forall (fun x => x <> c) (hexd z).
Proof. intros Hz Hc. eapply list.Forall_impl; [by apply hexd_hexc|]. exact Hc. Qed.

Lemma hexc_comma x : is_hexc x -> x <> 44.
Proof. unfold is_hexc. lia. Qed.
Lemma hexc_colon x : is_hexc x -> x <> 58.
Proof. unfold is_hexc. lia. Qed.

Lemma number z : in_u64 z -> strtoull (hexd z) = z.
Proof. intros Hz. unfold strtoull. rewrite <- (app_nil_r (hexd z)). by rewrite strtoull16_hexd. Qed.

(** The command letter, the address, and what follows the comma. *)
Lemma split_command c z rest : c <> 44 -> in_u64 z ->
  split_at 44 ([c] ++ hexd z ++ str "," ++ rest) = Some ([c] ++ hexd z, rest).
Proof.
  intros Hc Hz. rewrite app_assoc. apply (split_at_app 44 ([c] ++ hexd z) rest).
  apply Forall_app. split; [by apply Forall_cons_2|]. apply hexd_no; [unfold in_u64 in Hz; lia|apply hexc_comma].
Qed.

Lemma handle_m_spec addr len w : in_u64 addr -> in_u64 len -> handle_packet (m_packet addr len) w =
  (v <- current ;;
   if len =? 0 then answer ""
   else if negb (can_reserve (u64 (len * 2))) then fun _ => Throws
   else o <- read_loop (Z.to_nat len) v addr 0 len ;; match o with Some out => gret (Reply out) | None => answer "E14" end) w.
Proof.
  intros Ha Hl. transitivity (handle_m (m_packet addr len) w); [reflexivity|]. unfold handle_m, m_packet.
  unfold gbind at 1 3. cbn [current gets]. change (chr ","%char) with 44. change (str "m") with [109].
  rewrite split_command by done. cbn [app tail]. by rewrite !number.
Qed.

Lemma handle_M_spec addr bs w : in_u64 addr -> Z.of_nat (length bs) < 2 ^ 62 -> handle_packet (M_packet addr bs) w =
  (v <- current ;;
   o <- write_loop (length bs) v addr 0 (Z.of_nat (length bs)) (hex_encode bs) ;;
   match o with None => answer "OK" | Some e => gret (Reply (str "E" ++ to_hex2 e)) end) w.
Proof.
  intros Ha Hl. set (n := Z.of_nat (length bs)) in *. assert (in_u64 n) as Hn by (unfold in_u64; lia).
  transitivity (handle_M (M_packet addr bs) w); [reflexivity|]. unfold handle_M, M_packet. fold n.
  unfold gbind at 1 3. cbn [current gets]. change (chr ","%char) with 44. change (chr ":"%char) with 58. change (str "M") with [77].
  rewrite split_command by done.
  assert (split_at 58 ([77] ++ hexd addr ++ str "," ++ hexd n ++ str ":" ++ hex_encode bs) =
    Some ([77] ++ hexd addr ++ str "," ++ hexd n, hex_encode bs)) as ->.
  { replace ([77] ++ hexd addr ++ str "," ++ hexd n ++ str ":" ++ hex_encode bs)
      with (([77] ++ hexd addr ++ str "," ++ hexd n) ++ 58 :: hex_encode bs) by (by rewrite <- !app_assoc).
    apply split_at_app. repeat (apply Forall_app; split); try (by repeat constructor);
      (apply hexd_no; [unfold in_u64 in *; lia|apply hexc_colon]). }
  assert (length ([77]%Z ++ hexd addr ++ str "," ++ hexd n) = (length ([77]%Z ++ hexd addr) + 1 + length (hexd n))%nat) as Elen.
  { rewrite !length_app. change (length (str ",")) with 1%nat. cbn [length]. lia. }
  rewrite Elen. destruct (Nat.ltb_spec (length ([77]%Z ++ hexd addr) + 1 + length (hexd n)) (length ([77]%Z ++ hexd addr))); [lia|].
  replace (length ([77]%Z ++ hexd addr) + 1 + length (hexd n) - length ([77]%Z ++ hexd addr) - 1)%nat with (length (hexd n)) by lia.
  rewrite take_app_length. cbn [app tail]. rewrite !number by done.
  rewrite hex_encode_length, (uwrap_small 64) by lia. destruct (Z.ltb_spec (Z.of_nat (2 * length bs)) (n * 2)); [lia|].
  unfold n. by rewrite Nat2Z.id.
Qed.

End Memory.

Section MemoryPackets.
Context {ord : HashOrder} {env : HostEnv} {alloc : HostAlloc}.

(** The packet [m] reads what the guest sees: for the vm in focus, with
    well-formed memory, and any range that does not reach the end of the
    address space, the reply is the two hex digits of every byte of the range
    in order, if all are mapped, also across segments, and [E14] otherwise;
    reading changes nothing but the TLB of that vm. *)
Theorem read_packet_exact w v addr len
  (Hv : current_vm (w_gdb w) = v) (Hk : known w v) (Hm : mem_wf (mem_of w v))
  (Ha : 0 <= addr) (Hl : 0 < len) (He : addr + len < 2 ^ 64) (Hr : can_reserve (u64 (len * 2)) = true) :
  exists w', handle_packet (m_packet addr len) w =
    Done (Reply (match gbytes (mem_of w v) addr (Z.to_nat len) with Some bs => hex_encode bs | None => str "E14" end)) w' /\
  same_but_tlb v w w'.
Proof.
  rewrite handle_m_spec by (unfold in_u64; lia). unfold gbind at 1. cbn [current gets]. rewrite Hv.
  destruct (Z.eqb_spec len 0); [lia|]. rewrite Hr. cbn [negb].
  destruct (read_loop_spec (Z.to_nat len) v addr 0 len w) as (w' & E & Hs); [done|done|lia..|].
  exists w'. split; [|done]. unfold gbind. rewrite E. rewrite Z.add_0_r, Z.sub_0_r.
  destruct (gbytes (mem_of w v) addr (Z.to_nat len)); reflexivity.
Qed.

(** C40: What the debugger writes it reads back: for the vm in focus and a
    non-empty range, the packet [M] is answered [OK] or [E14]; after [OK] the
    packet [m] on the same range returns the same digits, every other byte the
    vm sees is as it was, no byte of another address space on the host has
    changed, even of one that shares pages copy-on-write, and the server's own
    state is untouched. *)
Theorem memory_roundtrip w v pre ms rest addr bs
  (Hv : current_vm (w_gdb w) = v) (Hms : wf_maps ms) (Hrd : ready v pre ms rest w) (Hb : Forall is_byte bs)
  (Ha : 0 <= addr) (Hn : 0 < Z.of_nat (length bs) < 2 ^ 62) (He : addr + Z.of_nat (length bs) < 2 ^ 64)
  (Hr : can_reserve (u64 (Z.of_nat (length bs) * 2)) = true) :
  exists ans w', handle_packet (M_packet addr bs) w = Done (Reply (str ans)) w' /\
    (ans = "OK"%string \/ ans = "E14"%string) /\ w_gdb w' = w_gdb w /\
    (forall x, 0 <= x < 2 ^ 64 -> gbyte_in (w_host w') ms x = gbyte_in (w_host w) ms x) /\
    (ans = "OK"%string ->
      (exists w'', handle_packet (m_packet addr (Z.of_nat (length bs))) w' = Done (Reply (hex_encode bs)) w'') /\
      forall x, 0 <= x < 2 ^ 64 -> ~ (addr <= x < addr + Z.of_nat (length bs)) -> gbyte (mem_of w' v) x = gbyte (mem_of w v) x).
Proof.
  rewrite handle_M_spec by (unfold in_u64; lia). unfold gbind at 1. cbn [current gets]. rewrite Hv.
  destruct (write_loop_spec v pre ms rest Hms (length bs) 0 addr bs w) as (o & w' & k & E & Hw & Hk); [done || lia..|].
  change (Z.of_nat 0) with 0 in E. rewrite Z.add_0_r, drop_0 in Hw. rewrite Nat.sub_0_r in Hk. unfold gbind. rewrite E.
  destruct Hk as [[-> ->]|[-> Hk]].
  - rewrite take_ge in Hw by lia. exists "OK"%string, w'. split; [done|]. split; [by left|]. split; [apply Hw|]. split; [apply Hw|]. intros _.
    destruct (wrote_ready _ _ _ _ _ _ _ _ Hrd Hw) as (Hk' & Hm' & _). split.
    + destruct (read_packet_exact w' v addr (Z.of_nat (length bs))) as (w'' & E2 & _); try done; [by rewrite (wr_gdb _ _ _ _ _ _ _ _ Hw)|lia|].
      exists w''. rewrite E2. rewrite Nat2Z.id, (gbytes_some _ _ _ bs); [done|done|]. intros i b Hi.
      pose proof (lookup_lt_Some _ _ _ Hi). rewrite (wr_own _ _ _ _ _ _ _ _ Hw) by lia.
      destruct (Z.leb_spec addr (addr + Z.of_nat i)), (Z.ltb_spec (addr + Z.of_nat i) (addr + Z.of_nat (length bs))); try lia. cbn.
      f_equal. apply list_lookup_total_correct. rewrite <- Hi. f_equal. lia.
    + intros x Hx Hout. rewrite (wr_own _ _ _ _ _ _ _ _ Hw x Hx).
      destruct (Z.leb_spec addr x), (Z.ltb_spec x (addr + Z.of_nat (length bs))); cbn; (lia || done).
  - exists "E14"%string, w'. split; [done|]. split; [by right|]. split; [apply Hw|]. split; [apply Hw|]. done.
Qed.

End MemoryPackets.

(** The demo program: a stack of its own and a page it shares. *)
Lemma demo_ready script input : ready 100 [] [shared_page] [] (demo_world script input).
Proof.
  split_and!; [by eexists|exact parent_mem_wf|exact (vw_share _ _ _ _ _ parent_vm_wf)].
Qed.

Lemma read_packet_exact_witness :
  exists w', handle_packet (env := permissive_env) (m_packet 0x50000ffe 2) (demo_world [] []) = Done (Reply (str "0505")) w'.
Proof.
  destruct (read_packet_exact (env := permissive_env) (demo_world [] []) 100 0x50000ffe 2) as (w' & E & _);
    [reflexivity|by eexists|exact parent_mem_wf|lia|lia|lia|reflexivity|].
  exists w'. rewrite E. reflexivity.
Defined.

Lemma memory_roundtrip_witness :
  exists w' w'', handle_packet (env := permissive_env) (M_packet 0x50000010 [1; 0xAB]) (demo_world [] []) = Done (Reply (str "OK")) w' /\
    handle_packet (env := permissive_env) (m_packet 0x50000010 2) w' = Done (Reply (str "01ab")) w'' /\
    gbyte_in (w_host w') [shared_page] 0x50000010 = Some 5.
Proof.
  destruct (memory_roundtrip (env := permissive_env) (demo_world [] []) 100 [] [shared_page] [] 0x50000010 [1; 0xAB])
    as (ans & w' & E & Ho & _ & Hg & Hok);
    [reflexivity|split; repeat constructor; cbv; congruence|apply demo_ready|repeat constructor; unfold is_byte; lia|lia|cbn; lia|cbn; lia|reflexivity|].
  assert (ans = "OK"%string) as ->.
  { destruct Ho as [-> | ->]; [done|]. exfalso. revert E. clear. intros E. apply (f_equal (fun r => match r with Done (Reply l) _ => l | _ => [] end)) in E.
    vm_compute in E. discriminate. }
  destruct (Hok eq_refl) as ((w'' & E2) & _). exists w', w''. split; [exact E|]. split; [exact E2|].
  rewrite (Hg 0x50000010) by lia. reflexivity.
Defined.
