(* ===== verification/Ld.v ===== *)
(** * Ld: the linker bpfvm-ld, from the input files to relocated sections

    elf_linker.cpp up to [Linker::run]: the archive reader, the loading of
    relocatable objects into the pool, the table of global symbols, the
    synthesis of .got and .plt, the layout of the three segments, the boundary
    symbols, the relocations and the frame slots.

    What libelf reports of a file is a parameter ([LibElf]): sections with their
    headers and bytes, symbols and relocations as [gelf_getsym] and
    [gelf_getrel] deliver them.  The part of the pool an object owns is the byte
    list [o_mem].  A function ends with [Done], with [Failed] where the code
    returns false, or with [Escaped] where it reads or writes outside the object
    it works on (the C++ behaviour is undefined then). *)

From S2P Require Import Prelude Bytes HostMem AddrSpace MemSyscalls Frame Paths Loader.
From Stdlib Require Import Lia Ascii.
From stdpp Require Import base numbers list gmap strings option sorting.

Open Scope Z_scope.

Declare Scope ld_scope.
Delimit Scope ld_scope with ld.

(** ** Outcomes *)

Inductive res (A : Type) := Done (a : A) | Failed | Escaped.
Arguments Done {A} a.
Arguments Failed {A}.
Arguments Escaped {A}.

Definition rbind {A B} (m : res A) (k : A -> res B) : res B :=
  match m with Done a => k a | Failed => Failed | Escaped => Escaped end.
Notation "'let!' x := m 'in' k" := (rbind m (fun x => k))
  (at level 10, x binder, m at level 100, k at level 200) : ld_scope.
Open Scope ld_scope.

(** An access that must be inside. *)
Definition inside {A} (o : option A) : res A := match o with Some a => Done a | None => Escaped end.

Fixpoint rfold {A B} (f : A -> B -> res A) (a : A) (l : list B) : res A :=
  match l with [] => Done a | b :: r => let! a' := f a b in rfold f a' r end.

(** An element at an index of the code's [size_t]. *)
Definition get {A} (l : list A) (i : Z) : option A :=
  if (0 <=? i) && (i <? Z.of_nat (length l)) then l !! Z.to_nat i else None.

(** Bytes at an offset of a buffer. *)
Definition read_at (m : list Z) (off : Z) (n : nat) : option Z :=
  if (0 <=? off) && (off + Z.of_nat n <=? Z.of_nat (length m)) then Some (field m off n) else None.
Definition write_at (m : list Z) (off : Z) (bs : list Z) : option (list Z) :=
  if (0 <=? off) && (off + Z.of_nat (length bs) <=? Z.of_nat (length m))
  then Some (take (Z.to_nat off) m ++ bs ++ drop (Z.to_nat off + length bs) m) else None.

(** ** ELF constants *)

Definition SHT_NULL : Z := 0.
Definition SHT_PROGBITS : Z := 1.
Definition SHT_SYMTAB : Z := 1 + 1.
Definition SHT_STRTAB : Z := 3.
Definition SHT_RELA : Z := 4.
Definition SHT_DYNAMIC : Z := 6.
Definition SHT_NOBITS : Z := 8.
Definition SHT_REL : Z := 9.
Definition SHT_DYNSYM : Z := 11.
Definition SHT_INIT_ARRAY : Z := 14.
Definition SHT_FINI_ARRAY : Z := 15.
Definition SHF_WRITE : Z := 1.
Definition SHF_ALLOC : Z := 1 + 1.
Definition SHF_EXECINSTR : Z := 4.
Definition SHN_UNDEF : Z := 0.
Definition SHN_LORESERVE : Z := 0xff00.
Definition SHN_ABS : Z := 0xfff1.
Definition STB_LOCAL : Z := 0.
Definition STB_GLOBAL : Z := 1.
Definition STB_WEAK : Z := 1 + 1.
Definition STT_OBJECT : Z := 1.
Definition STT_FUNC : Z := 1 + 1.
Definition STT_FILE : Z := 4.
Definition STV_DEFAULT : Z := 0.
Definition STV_HIDDEN : Z := 1 + 1.
Definition DT_SONAME : Z := 14.
Definition SIZE_MAX : Z := 2 ^ 64 - 1.

(** ** What libelf reports *)

Record ElfSym := mkelfsym {
  st_name : string; st_info : Z; st_other : Z; st_shndx : Z; st_value : Z; st_size : Z
}.
Record ElfRel := mkelfrel { r_offset : Z; r_info : Z; r_addend : Z }.
(** A section: its header, its bytes ([None]: no data), and, by its type, its
    symbols (with their names) or relocations. *)
Record ElfScn := mkscn {
  sh_name : string; sh_type : Z; sh_flags : Z; sh_size : Z; sh_info : Z; sh_addralign : Z; sh_entsize : Z;
  sc_data : option (list Z); sc_syms : list ElfSym; sc_rels : list ElfRel
}.
(** The type of the file and the sections after the null section. *)
Record ElfImage := mkimage { im_type : Z; im_scns : list ElfScn }.

Class LibElf := {
  elf_image : list Z -> option ElfImage;
  read_file : string -> option (list Z)
}.

(** ** The linker's data *)

Inductive SegClass := SEG_TEXT | SEG_RODATA | SEG_DATA.
#[export] Instance SegClass_eq_dec : EqDecision SegClass.
Proof. solve_decision. Defined.

Record LoadedSection := mksec {
  ls_name : string; ls_guest_addr : Z; ls_offset : Z; ls_size : Z; ls_type : Z;
  ls_writable : bool; ls_executable : bool; ls_seg : SegClass; ls_loadable : bool;
  ls_sh_flags : Z; ls_addralign : Z; ls_entsize : Z; ls_slotted : bool
}.

Record LoadedSym := mksym {
  sy_name : string; sy_sec_idx : Z; sy_value : Z; sy_size : Z; sy_binding : Z; sy_type : Z;
  sy_visibility : Z; sy_defined : bool
}.

Record LoadedReloc := mkreloc {
  rl_target_sec : Z; rl_offset : Z; rl_type : Z; rl_sym_idx : Z; rl_addend : Z; rl_is_rela : bool
}.

Record DebugSec := mkdebug { ds_name : string; ds_sec_idx : Z; ds_addralign : Z; ds_data : list Z }.

Record LoadedObject := mkobj {
  o_source : string;
  o_sections : list LoadedSection;
  o_symbols : list LoadedSym;
  o_relocations : list LoadedReloc;
  o_base : Z;
  o_pool_offset : Z;
  o_mem : list Z;
  o_debug_secs : list DebugSec;
  o_stack_sizes_secs : list (Z * list Z)
}.

Inductive Mode := STATIC_EXE | SHARED_LIB | DYNAMIC_EXE | RELOCATABLE.
#[export] Instance Mode_eq_dec : EqDecision Mode.
Proof. solve_decision. Defined.

Record SegInfo := mkseginfo {
  sg_used : bool; sg_vaddr : Z; sg_filesz : Z; sg_memsz : Z; sg_flags : Z; sg_secs : list (nat * nat)
}.
Definition no_seg : SegInfo := mkseginfo false 0 0 0 0 [].

(** [InitFiniArray]. *)
Record ArrayBounds := mkarray { ar_start : Z; ar_end : Z; ar_present : bool }.
Definition no_array : ArrayBounds := mkarray 0 0 false.

(** The options of a link and the state of the class [Linker]. *)
Record Options := mkoptions {
  op_mode : Mode; op_base : Z; op_entry : string; op_soname : string; op_deps : list string; op_archives : list string;
  op_keep_debug : bool
}.

Record Linker := mklinker {
  l_pool_used : Z;
  l_entry : Z;
  l_objects : list LoadedObject;
  l_globals : gmap string (nat * nat);
  l_synthetic : gmap string Z;
  l_bpfso : gmap string Z;
  l_und_strong : gset string;
  l_needed : list string;
  l_got_slots : gmap string (nat * Z);
  l_plt_entries : gmap string (nat * Z);
  l_plt_addr : gmap string Z;
  l_got_enabled : bool;
  l_got_obj : option nat;
  l_plt_obj : option nat;
  l_got_syms : list string;
  l_segs : SegClass -> SegInfo;
  l_init_array : ArrayBounds;
  l_fini_array : ArrayBounds;
  l_stack_sizes : gmap Z Z
}.

Definition POOL_SIZE : Z := 64 * 1024 * 1024.
Definition kPltStubSize : Z := 40.
Definition kPltEntrySize : Z := 8 + kPltStubSize.

Definition new_linker : Linker :=
  mklinker 0 0 [] ∅ ∅ ∅ ∅ [] ∅ ∅ ∅ false None None [] (fun _ => no_seg) no_array no_array ∅.

(** The constructor: a fixed base for static programs only. *)
Definition guest_base (op : Options) : Z := if decide (op_mode op = STATIC_EXE) then op_base op else 0.

Definition set_objects (os : list LoadedObject) (L : Linker) : Linker :=
  mklinker (l_pool_used L) (l_entry L) os (l_globals L) (l_synthetic L) (l_bpfso L) (l_und_strong L) (l_needed L)
    (l_got_slots L) (l_plt_entries L) (l_plt_addr L) (l_got_enabled L) (l_got_obj L) (l_plt_obj L) (l_got_syms L)
    (l_segs L) (l_init_array L) (l_fini_array L) (l_stack_sizes L).
Definition set_pool (used : Z) (L : Linker) : Linker :=
  mklinker used (l_entry L) (l_objects L) (l_globals L) (l_synthetic L) (l_bpfso L) (l_und_strong L) (l_needed L)
    (l_got_slots L) (l_plt_entries L) (l_plt_addr L) (l_got_enabled L) (l_got_obj L) (l_plt_obj L) (l_got_syms L)
    (l_segs L) (l_init_array L) (l_fini_array L) (l_stack_sizes L).
Definition set_entry (e : Z) (L : Linker) : Linker :=
  mklinker (l_pool_used L) e (l_objects L) (l_globals L) (l_synthetic L) (l_bpfso L) (l_und_strong L) (l_needed L)
    (l_got_slots L) (l_plt_entries L) (l_plt_addr L) (l_got_enabled L) (l_got_obj L) (l_plt_obj L) (l_got_syms L)
    (l_segs L) (l_init_array L) (l_fini_array L) (l_stack_sizes L).
Definition set_globals (g : gmap string (nat * nat)) (L : Linker) : Linker :=
  mklinker (l_pool_used L) (l_entry L) (l_objects L) g (l_synthetic L) (l_bpfso L) (l_und_strong L) (l_needed L)
    (l_got_slots L) (l_plt_entries L) (l_plt_addr L) (l_got_enabled L) (l_got_obj L) (l_plt_obj L) (l_got_syms L)
    (l_segs L) (l_init_array L) (l_fini_array L) (l_stack_sizes L).
Definition set_synthetic (g : gmap string Z) (L : Linker) : Linker :=
  mklinker (l_pool_used L) (l_entry L) (l_objects L) (l_globals L) g (l_bpfso L) (l_und_strong L) (l_needed L)
    (l_got_slots L) (l_plt_entries L) (l_plt_addr L) (l_got_enabled L) (l_got_obj L) (l_plt_obj L) (l_got_syms L)
    (l_segs L) (l_init_array L) (l_fini_array L) (l_stack_sizes L).
Definition set_bpfso (b : gmap string Z) (u : gset string) (n : list string) (L : Linker) : Linker :=
  mklinker (l_pool_used L) (l_entry L) (l_objects L) (l_globals L) (l_synthetic L) b u n
    (l_got_slots L) (l_plt_entries L) (l_plt_addr L) (l_got_enabled L) (l_got_obj L) (l_plt_obj L) (l_got_syms L)
    (l_segs L) (l_init_array L) (l_fini_array L) (l_stack_sizes L).
Definition set_got (slots entries : gmap string (nat * Z)) (g p : nat) (syms : list string) (L : Linker) : Linker :=
  mklinker (l_pool_used L) (l_entry L) (l_objects L) (l_globals L) (l_synthetic L) (l_bpfso L) (l_und_strong L) (l_needed L)
    slots entries (l_plt_addr L) true (Some g) (Some p) syms
    (l_segs L) (l_init_array L) (l_fini_array L) (l_stack_sizes L).
Definition set_plt_addr (m : gmap string Z) (L : Linker) : Linker :=
  mklinker (l_pool_used L) (l_entry L) (l_objects L) (l_globals L) (l_synthetic L) (l_bpfso L) (l_und_strong L) (l_needed L)
    (l_got_slots L) (l_plt_entries L) m (l_got_enabled L) (l_got_obj L) (l_plt_obj L) (l_got_syms L)
    (l_segs L) (l_init_array L) (l_fini_array L) (l_stack_sizes L).
Definition set_segs (s : SegClass -> SegInfo) (i f : ArrayBounds) (L : Linker) : Linker :=
  mklinker (l_pool_used L) (l_entry L) (l_objects L) (l_globals L) (l_synthetic L) (l_bpfso L) (l_und_strong L) (l_needed L)
    (l_got_slots L) (l_plt_entries L) (l_plt_addr L) (l_got_enabled L) (l_got_obj L) (l_plt_obj L) (l_got_syms L)
    s i f (l_stack_sizes L).
Definition set_stack_sizes (m : gmap Z Z) (L : Linker) : Linker :=
  mklinker (l_pool_used L) (l_entry L) (l_objects L) (l_globals L) (l_synthetic L) (l_bpfso L) (l_und_strong L) (l_needed L)
    (l_got_slots L) (l_plt_entries L) (l_plt_addr L) (l_got_enabled L) (l_got_obj L) (l_plt_obj L) (l_got_syms L)
    (l_segs L) (l_init_array L) (l_fini_array L) m.

(** ** Sections and names *)

Definition is_loadable_section (type : Z) : bool :=
  (type =? SHT_PROGBITS) || (type =? SHT_NOBITS) || (type =? SHT_INIT_ARRAY) || (type =? SHT_FINI_ARRAY).

Definition kSectionStartPrefix : string := "__start_".
Definition kSectionStopPrefix : string := "__stop_".

Definition string_tail (n : nat) (s : string) : string := String.substring n (String.length s - n) s.

Definition parse_section_boundary_sym (sym : string) : option (bool * string) :=
  if (8 <? Z.of_nat (String.length sym)) && starts_with kSectionStartPrefix sym then Some (true, string_tail 8 sym)
  else if (7 <? Z.of_nat (String.length sym)) && starts_with kSectionStopPrefix sym then Some (false, string_tail 7 sym)
  else None.

Definition make_section_boundary_sym (sec : string) (is_start : bool) : string :=
  ((if is_start then kSectionStartPrefix else kSectionStopPrefix) +:+ sec)%string.

Definition classify_section (executable writable : bool) : SegClass :=
  if writable then SEG_DATA else if executable then SEG_TEXT else SEG_RODATA.

Definition is_dwarf_section (name : string) : bool := starts_with ".debug" name || starts_with ".rel.debug" name.
Definition is_debug_section (name : string) : bool :=
  String.eqb name ".BTF" || String.eqb name ".BTF.ext" || starts_with ".rel.BTF" name || String.eqb name ".llvm_addrsig".

Definition reloc_write_len (type : Z) : Z :=
  if type =? 1 then 16 else if type =? 2 then 8 else if type =? 3 then 4 else if type =? 10 then 8
  else if type =? 4 then 4 else 0.

(** The bytes at [patch], an offset of [m]. *)
Definition read_embedded_addend (m : list Z) (patch type : Z) : option Z :=
  if type =? 1 then
    lo ← read_at m (patch + 4) 4; hi ← read_at m (patch + 12) 4; Some (s64 (Z.lor (Z.shiftl hi 32) lo))
  else if type =? 2 then s64 <$> read_at m patch 8
  else if (type =? 4) || (type =? 3) then s32 <$> read_at m patch 4
  else Some 0.

(** ** Numbers in text *)

Definition isspace (c : Z) : bool := (c =? 32) || ((9 <=? c) && (c <=? 13)).
Definition isdigit (c : Z) : bool := (48 <=? c) && (c <=? 57).

Fixpoint skip_spaces (l : list Z) : list Z :=
  match l with c :: r => if isspace c then skip_spaces r else l | [] => [] end.

(** The value of the leading digits and what follows them. *)
Fixpoint read_digits (acc : Z) (l : list Z) : Z * list Z :=
  match l with c :: r => if isdigit c then read_digits (acc * 10 + (c - 48)) r else (acc, l) | [] => (acc, []) end.

(** [strtoul] in base 10: white space, a sign, digits; [None] without digits.
    The sign, the magnitude and the rest. *)
Definition strtoul (l : list Z) : option (bool * Z * list Z) :=
  let l := skip_spaces l in
  let (neg, l) := match l with c :: r => if c =? 45 then (true, r) else if c =? 43 then (false, r) else (false, l) | [] => (false, []) end in
  match l with
  | c :: _ => if isdigit c then let (v, r) := read_digits 0 l in Some (neg, v, r) else None
  | [] => None
  end.

(** [std::stoul]: [None] for an exception; a minus sign negates modulo 2^64. *)
Definition stoul (l : list Z) : option Z :=
  match strtoul l with
  | Some (neg, v, _) => if SIZE_MAX <? v then None else Some (if neg : bool then u64 (- v) else v)
  | None => None
  end.

(** ** Archives *)

Definition AR_MAGIC : list Z := [33; 60; 97; 114; 99; 104; 62; 10].

Record ArMember := mkmember { am_name : string; am_data : list Z }.

Definition trim_right (l : list Z) : list Z := rev (skip_spaces (rev l)).
Fixpoint until (p : Z -> bool) (l : list Z) : list Z :=
  match l with c :: r => if p c then [] else c :: until p r | [] => [] end.

(** The name of a member and whether it is one, from the 16 bytes of the header
    and the table of long names. *)
Definition member_name (long_names raw : list Z) : option (list Z) :=
  let c1 := byte_at raw 1 in
  if byte_at raw 0 =? 47 then
    if c1 =? 47 then None
    else if isdigit c1 then
      let off := default 0 (stoul (drop 1 raw)) in
      Some (if off <? Z.of_nat (length long_names)
            then until (fun c => (c =? 47) || (c =? 10)) (drop (Z.to_nat off) long_names) else [])
    else None
  else
    let name := trim_right (until (fun c => c =? 47) raw) in
    match name with [] => None | _ => Some name end.

Definition long_names_of (long_names raw member : list Z) : list Z :=
  if (byte_at raw 0 =? 47) && (byte_at raw 1 =? 47) then member else long_names.

(** The loop of [parse_archive]: [p] is what is left of the file, [pos] the
    distance to its start.  Every turn takes 60 bytes or more. *)
Fixpoint members (fuel : nat) (pos : Z) (p long_names : list Z) : res (list ArMember) :=
  match fuel with
  | O => Done []
  | Datatypes.S fuel' =>
    if Z.of_nat (length p) <? 60 then Done []
    else
      let raw := take 16 p in
      if negb (bool_decide (slice p 58 2 = [96; 10])) then Done []
      else
        match stoul (trim_right (slice p 48 10)) with
        | None => Done []
        | Some size =>
          let body := drop 60 p in
          if 2 ^ 63 <=? size then Escaped
          else if Z.of_nat (length body) <? size then Done []
          else
            let data := take (Z.to_nat size) body in
            let next := pos + 60 + size in
            let rest := drop (Z.to_nat size) body in
            let rest := if Z.odd next then drop 1 rest else rest in
            let! out := members fuel' (if Z.odd next then next + 1 else next) rest (long_names_of long_names raw data) in
            Done (match member_name long_names raw with Some n => mkmember (bytes_string n) data :: out | None => out end)
        end
  end.

Definition parse_archive (data : list Z) : res (list ArMember) :=
  if negb (bool_decide (take 8 data = AR_MAGIC)) then Failed
  else members (length data) 8 (drop 8 data) [].

(** ** Loading a relocatable object *)

Definition align8 (v : Z) : Z := andnot (u64 (v + 7)) 7.
Definition round_page (v : Z) : Z := andnot (u64 (v + 0xFFF)) 0xFFF.

Definition null_section : LoadedSection :=
  mksec "" 0 0 0 SHT_NULL false false SEG_RODATA false 0 1 0 false.

Definition flag (f m : Z) : bool := nz (Z.land f m).
Definition or_one (a : Z) : Z := if a =? 0 then 1 else a.

Definition load_section (mode : Mode) (s : ElfScn) : LoadedSection :=
  let loadable := is_loadable_section (sh_type s) && negb (is_debug_section (sh_name s))
                  && negb (is_dwarf_section (sh_name s)) && negb (String.eqb (sh_name s) ".stack_sizes") in
  let writable := flag (sh_flags s) SHF_WRITE in
  let executable := flag (sh_flags s) SHF_EXECINSTR in
  let slotted := negb (bool_decide (mode = RELOCATABLE)) && executable && (sh_type s =? SHT_PROGBITS) && (0 <? sh_size s) in
  mksec (sh_name s) 0 0 (if slotted then u64 (sh_size s + 8) else sh_size s) (sh_type s)
    writable executable (classify_section executable writable) loadable
    (sh_flags s) (or_one (sh_addralign s)) (sh_entsize s) slotted.

Definition set_offset (off : Z) (s : LoadedSection) : LoadedSection :=
  mksec (ls_name s) (ls_guest_addr s) off (ls_size s) (ls_type s) (ls_writable s) (ls_executable s) (ls_seg s)
    (ls_loadable s) (ls_sh_flags s) (ls_addralign s) (ls_entsize s) (ls_slotted s).
Definition set_guest_addr (a : Z) (s : LoadedSection) : LoadedSection :=
  mksec (ls_name s) a (ls_offset s) (ls_size s) (ls_type s) (ls_writable s) (ls_executable s) (ls_seg s)
    (ls_loadable s) (ls_sh_flags s) (ls_addralign s) (ls_entsize s) (ls_slotted s).
Definition set_mem (m : list Z) (o : LoadedObject) : LoadedObject :=
  mkobj (o_source o) (o_sections o) (o_symbols o) (o_relocations o) (o_base o) (o_pool_offset o) m
    (o_debug_secs o) (o_stack_sizes_secs o).
Definition set_sections (l : list LoadedSection) (o : LoadedObject) : LoadedObject :=
  mkobj (o_source o) l (o_symbols o) (o_relocations o) (o_base o) (o_pool_offset o) (o_mem o)
    (o_debug_secs o) (o_stack_sizes_secs o).

(** The offsets of the loadable sections and the total. *)
Fixpoint place_sections (total : Z) (l : list LoadedSection) : list LoadedSection * Z :=
  match l with
  | [] => ([], total)
  | s :: r =>
    if ls_loadable s then
      let off := align8 total in
      let (r', e) := place_sections (u64 (off + ls_size s)) r in (set_offset off s :: r', e)
    else let (r', e) := place_sections total r in (s :: r', e)
  end.

Definition region_size (total : Z) : Z := let t := round_page total in if t =? 0 then 0x1000 else t.

Definition slot_len (s : LoadedSection) : Z := if ls_slotted s then 8 else 0.

(** [memcpy] of a section's bytes behind its frame slot. *)
Definition copy_section (m : list Z) (p : LoadedSection * ElfScn) : res (list Z) :=
  let (s, scn) := p in
  if negb (ls_loadable s) then Done m
  else if negb ((sh_type scn =? SHT_PROGBITS) || (sh_type scn =? SHT_INIT_ARRAY) || (sh_type scn =? SHT_FINI_ARRAY)) then Done m
  else match sc_data scn with
       | Some (b :: d) => inside (write_at m (ls_offset s + slot_len s) (b :: d))
       | _ => Done m
       end.

Definition nonempty_data (s : ElfScn) : option (list Z) :=
  match sc_data s with Some (b :: d) => Some (b :: d) | _ => None end.

Definition debug_sec (op : Options) (i : nat) (p : LoadedSection * ElfScn) : option DebugSec :=
  let (s, scn) := p in
  if negb (ls_loadable s) && op_keep_debug op && (sh_type scn =? SHT_PROGBITS) && is_dwarf_section (ls_name s)
  then d ← nonempty_data scn; Some (mkdebug (ls_name s) (Z.of_nat i + 1) (or_one (sh_addralign scn)) d)
  else None.

Definition stack_sizes_sec (i : nat) (p : LoadedSection * ElfScn) : option (Z * list Z) :=
  let (s, scn) := p in
  if negb (ls_loadable s) && (sh_type scn =? SHT_PROGBITS) && String.eqb (ls_name s) ".stack_sizes"
  then d ← nonempty_data scn; Some (Z.of_nat i + 1, d)
  else None.

Definition load_sym (s : ElfSym) : LoadedSym :=
  let undef := (st_shndx s =? SHN_UNDEF) || (SHN_LORESERVE <=? st_shndx s) in
  mksym (st_name s) (if undef then SIZE_MAX else st_shndx s) (st_value s) (st_size s)
    (Z.shiftr (st_info s) 4) (Z.land (st_info s) 15) (Z.land (st_other s) 3) (negb undef).

(** The symbols of the first symbol table. *)
Definition load_symbols (scns : list ElfScn) : list LoadedSym :=
  match base.filter (fun s => sh_type s = SHT_SYMTAB) scns with s :: _ => load_sym <$> sc_syms s | [] => [] end.

Definition find_debug (ds : list DebugSec) (sec : Z) : option DebugSec :=
  List.find (fun d => ds_sec_idx d =? sec) ds.

(** The addend of a relocation without one of its own. *)
Definition embedded_addend (secs : list LoadedSection) (syms : list LoadedSym) (m : list Z) (ds : list DebugSec)
    (target : Z) (offset type sym : Z) : res Z :=
  let sym_defined := match get syms sym with Some s => sy_defined s | None => false end in
  if negb (sym_defined || negb (type =? 10)) then Done 0
  else match get secs target with
       | None => Done 0
       | Some tgt =>
         if ls_loadable tgt then inside (read_embedded_addend m (ls_offset tgt + offset + slot_len tgt) type)
         else match find_debug ds target with
              | Some d =>
                if u64 (offset + reloc_write_len type) <=? ls_size tgt then inside (read_embedded_addend (ds_data d) offset type)
                else Done 0
              | None => Done 0
              end
       end.

Definition load_reloc (secs : list LoadedSection) (syms : list LoadedSym) (m : list Z) (ds : list DebugSec)
    (scn : ElfScn) (r : ElfRel) : res LoadedReloc :=
  let type := s32 (r_info r) in
  let sym := Z.shiftr (r_info r) 32 in
  if sh_type scn =? SHT_RELA then Done (mkreloc (sh_info scn) (r_offset r) type sym (r_addend r) true)
  else let! a := embedded_addend secs syms m ds (sh_info scn) (r_offset r) type sym in
       Done (mkreloc (sh_info scn) (r_offset r) type sym a false).

Fixpoint rmap {A B} (f : A -> res B) (l : list A) : res (list B) :=
  match l with [] => Done [] | a :: r => let! b := f a in let! bs := rmap f r in Done (b :: bs) end.

Definition load_relocs (secs : list LoadedSection) (syms : list LoadedSym) (m : list Z) (ds : list DebugSec)
    (scns : list ElfScn) : res (list LoadedReloc) :=
  let rels := base.filter (fun s => sh_type s = SHT_REL \/ sh_type s = SHT_RELA) scns in
  rmap (fun p => load_reloc secs syms m ds p.1 p.2) (rels ≫= fun s => pair s <$> sc_rels s).

(** Slotted sections move by 8: their symbols and the places to patch. *)
Definition slotted_at (secs : list LoadedSection) (i : Z) : bool :=
  match get secs i with Some s => ls_slotted s | None => false end.
Definition shift_sym (secs : list LoadedSection) (s : LoadedSym) : LoadedSym :=
  if sy_defined s && slotted_at secs (sy_sec_idx s)
  then mksym (sy_name s) (sy_sec_idx s) (u64 (sy_value s + 8)) (sy_size s) (sy_binding s) (sy_type s) (sy_visibility s) (sy_defined s)
  else s.
Definition shift_reloc (secs : list LoadedSection) (r : LoadedReloc) : LoadedReloc :=
  if slotted_at secs (rl_target_sec r)
  then mkreloc (rl_target_sec r) (u64 (rl_offset r + 8)) (rl_type r) (rl_sym_idx r) (rl_addend r) (rl_is_rela r)
  else r.

(** [.guest_addr] before the layout. *)
Definition preset_addr (base : Z) (s : LoadedSection) : LoadedSection :=
  if ls_loadable s then set_guest_addr (u64 (base + ls_offset s)) s else s.

Section Load.
Context {lib : LibElf}.

(** [load_rel_memory]; [Failed] leaves the linker as it was.  A region larger
    than the pool passes the test when the sum wraps around; clearing it leaves
    the pool. *)
Definition load_rel_memory (op : Options) (data : list Z) (name : string) (L : Linker) : res Linker :=
  match elf_image data with
  | None => Failed
  | Some im =>
    if negb (im_type im =? ET_REL) then Failed
    else
      let scns := im_scns im in
      let (placed, total) := place_sections 0 (load_section (op_mode op) <$> scns) in
      let size := region_size total in
      if POOL_SIZE <? u64 (l_pool_used L + size) then Failed
      else if POOL_SIZE <? size then Escaped
      else
        let base := u64 (guest_base op + l_pool_used L) in
        let secs := null_section :: (preset_addr base <$> placed) in
        let! m := rfold copy_section (replicate (Z.to_nat size) 0) (combine placed scns) in
        let ds := omap id (imap (debug_sec op) (combine placed scns)) in
        let ss := omap id (imap stack_sizes_sec (combine placed scns)) in
        let syms := load_symbols scns in
        let! rels := load_relocs secs syms m ds scns in
        let obj := mkobj name secs (shift_sym secs <$> syms) (shift_reloc secs <$> rels) base (l_pool_used L) m ds ss in
        Done (set_pool (l_pool_used L + size) (set_objects (l_objects L ++ [obj]) L))
  end.

Definition load_rel_file (op : Options) (path : string) (L : Linker) : res Linker :=
  match read_file path with None => Failed | Some data => load_rel_memory op data path L end.

(** A member that cannot be loaded is passed over. *)
Definition load_member (op : Options) (path : string) (L : Linker) (m : ArMember) : res Linker :=
  match load_rel_memory op (am_data m) (path +:+ ":" +:+ am_name m) L with Failed => Done L | r => r end.

Definition load_archive_file (op : Options) (path : string) (L : Linker) : res Linker :=
  match read_file path with
  | None => Done L
  | Some data =>
    match parse_archive data with
    | Failed => Done L
    | Escaped => Escaped
    | Done ms => rfold (load_member op path) L ms
    end
  end.

(** The dynamic symbols of a shared object: what it exports, what it needs. *)
Definition dynsym_entry (b : gmap string Z) (u : gset string) (s : ElfSym) : gmap string Z * gset string :=
  let binding := Z.shiftr (st_info s) 4 in
  let type := Z.land (st_info s) 15 in
  if negb (binding =? STB_GLOBAL) && negb (binding =? STB_WEAK) then (b, u)
  else if st_shndx s =? SHN_UNDEF then
    (b, if (binding =? STB_GLOBAL) && negb (String.eqb (st_name s) "") then {[ st_name s ]} ∪ u else u)
  else if negb (type =? STT_FUNC) && negb (type =? STT_OBJECT) then (b, u)
  else if Z.land (st_other s) 3 =? STV_HIDDEN then (b, u)
  else if String.eqb (st_name s) "" then (b, u)
  else (<[st_name s := st_value s]> b, u).

(** The first DT_SONAME entry; [Escaped]: the name does not end inside .dynstr. *)
Fixpoint soname_of (n : nat) (dyn dynstr : list Z) : res (option string) :=
  match n with
  | O => Done None
  | Datatypes.S n' =>
    if field dyn 0 8 =? DT_SONAME then
      let v := field dyn 8 8 in
      if v <? Z.of_nat (length dynstr) then
        let s := until (fun c => c =? 0) (drop (Z.to_nat v) dynstr) in
        if (Z.to_nat v + length s <? length dynstr)%nat then Done (Some (bytes_string s)) else Escaped
      else Done None
    else soname_of n' (drop 16 dyn) dynstr
  end.

Definition last_scn (p : ElfScn -> bool) (l : list ElfScn) : option ElfScn := List.last (Some <$> List.filter p l) None.

Definition load_bpfso_symbols (path : string) (L : Linker) : res Linker :=
  match read_file path with
  | None => Failed
  | Some data =>
    match elf_image data with
    | None => Failed
    | Some im =>
      let scns := im_scns im in
      match last_scn (fun s => sh_type s =? SHT_DYNSYM) scns with
      | None => Failed
      | Some dynsym =>
        let dynstr := last_scn (fun s => negb (sh_type s =? SHT_DYNSYM) && (sh_type s =? SHT_STRTAB) && String.eqb (sh_name s) ".dynstr") scns in
        let dynamic := last_scn (fun s => sh_type s =? SHT_DYNAMIC) scns in
        match sc_data dynsym with
        | None => Escaped
        | Some _ =>
          let '(b, u) := foldl (fun st s => dynsym_entry st.1 st.2 s) (l_bpfso L, l_und_strong L) (sc_syms dynsym) in
          match dynamic ≫= sc_data, dynstr ≫= sc_data with
          | Some dd, Some ds =>
            let! so := soname_of (length dd / 16) dd ds in
            Done (set_bpfso b u (match so with Some n => l_needed L ++ [n] | None => l_needed L end) L)
          | _, _ => Done (set_bpfso b u (l_needed L) L)
          end
        end
      end
    end
  end.

(** [classify_input], by the content of the file. *)
Inductive InputKind := ARCHIVE | REL | DYN | NOT_FOUND.

Definition classify_input (path : string) : InputKind :=
  match read_file path with
  | None => NOT_FOUND
  | Some data =>
    if bool_decide (take 8 data = AR_MAGIC) then ARCHIVE
    else match elf_image data with
         | Some im => if im_type im =? ET_REL then REL else DYN
         | None => REL
         end
  end.

Definition load_input (op : Options) (L : Linker) (path : string) : res Linker :=
  match classify_input path with
  | NOT_FOUND => Failed
  | ARCHIVE => load_archive_file op path L
  | DYN => load_bpfso_symbols path L
  | REL => load_rel_file op path L
  end.

End Load.

(** ** Symbols *)

Definition nth_sym (os : list LoadedObject) (oi : nat) (si : Z) : option LoadedSym := o ← os !! oi; get (o_symbols o) si.

(** One symbol of [register_globals]. *)
Definition exported (s : LoadedSym) : bool :=
  sy_defined s && ((sy_binding s =? STB_GLOBAL) || (sy_binding s =? STB_WEAK))
  && ((sy_type s =? STT_FUNC) || (sy_type s =? STT_OBJECT)) && negb (String.eqb (sy_name s) "").

Definition register_sym (os : list LoadedObject) (g : gmap string (nat * nat)) (p : nat * nat * LoadedSym) : gmap string (nat * nat) :=
  let '(k, s) := p in
  if exported s then
    match g !! sy_name s with
    | None => <[sy_name s := k]> g
    | Some (oi, si) =>
      match nth_sym os oi (Z.of_nat si) with
      | Some e => if (sy_binding e =? STB_WEAK) && (sy_binding s =? STB_GLOBAL) then <[sy_name s := k]> g else g
      | None => g
      end
    end
  else g.

Definition numbered_syms (oi : nat) (o : LoadedObject) : list (nat * nat * LoadedSym) := imap (fun si s => (oi, si, s)) (o_symbols o).

Definition register_globals (os : list LoadedObject) (oi : nat) (g : gmap string (nat * nat)) : gmap string (nat * nat) :=
  match os !! oi with Some o => foldl (register_sym os) g (numbered_syms oi o) | None => g end.

Definition register_all (L : Linker) : Linker :=
  set_globals (foldl (fun g oi => register_globals (l_objects L) oi g) (l_globals L) (seq 0 (length (l_objects L)))) L.

(** Floating-point instructions named by a symbol. *)
Definition kFpKsymPrefix : string := "__bpf_fp_".
Definition is_fp_ksym (name : string) : bool := starts_with kFpKsymPrefix name.

Definition string_bytes (s : string) : list Z := (fun c => Z.of_N (Ascii.N_of_ascii c)) <$> String.list_ascii_of_string s.

Definition parse_fp_ksym_id (name : string) : option Z :=
  match strtoul (drop 9 (string_bytes name)) with
  | Some (neg, v, []) =>
    let v := if SIZE_MAX <? v then SIZE_MAX else if neg : bool then u64 (- v) else v in Some (u32 v)
  | _ => None
  end.

(** [resolve_symbol]: the address of a defined symbol. *)
Definition sym_addr (os : list LoadedObject) (oi : nat) (s : LoadedSym) : res Z :=
  let! o := inside (os !! oi) in
  let! sec := inside (get (o_sections o) (sy_sec_idx s)) in
  Done (u64 (ls_guest_addr sec + sy_value s)).

Definition resolve_symbol (op : Options) (L : Linker) (oi : nat) (si : Z) : res (option Z) :=
  let os := l_objects L in
  let! s := inside (nth_sym os oi si) in
  if sy_binding s =? STB_LOCAL then let! a := sym_addr os oi s in Done (Some a)
  else match l_globals L !! sy_name s with
       | Some (doi, dsi) => let! d := inside (nth_sym os doi (Z.of_nat dsi)) in let! a := sym_addr os doi d in Done (Some a)
       | None =>
         match l_synthetic L !! sy_name s with
         | Some a => Done (Some a)
         | None => Done (if (sy_binding s =? STB_WEAK) && bool_decide (op_mode op = STATIC_EXE) then Some 0 else None)
         end
       end.

(** [check_undefined_symbols]: the names it reports, in order. *)
Definition undefined_ref (L : Linker) (o : LoadedObject) (r : LoadedReloc) : option string :=
  match get (o_symbols o) (rl_sym_idx r) with
  | None => None
  | Some s =>
    if sy_defined s || String.eqb (sy_name s) "" || (sy_binding s =? STB_WEAK)
       || bool_decide (is_Some (l_globals L !! sy_name s)) || bool_decide (is_Some (l_synthetic L !! sy_name s))
       || bool_decide (is_Some (l_bpfso L !! sy_name s)) || is_fp_ksym (sy_name s)
    then None else Some (sy_name s)
  end.

Definition undefined_refs (L : Linker) : list string :=
  l_objects L ≫= fun o => omap (undefined_ref L o) (o_relocations o).
Definition check_undefined_symbols (L : Linker) : bool := bool_decide (undefined_refs L = []).

(** ** Boundary symbols of sections *)

Definition section_names (os : list LoadedObject) : gset string :=
  list_to_set (os ≫= fun o => ls_name <$> List.filter (fun s => ls_loadable s && negb (String.eqb (ls_name s) "")) (o_sections o)).

Definition boundary_ref (names : gset string) (g : gmap string Z) (s : LoadedSym) : gmap string Z :=
  if sy_defined s || String.eqb (sy_name s) "" then g
  else match parse_section_boundary_sym (sy_name s) with
       | Some (_, sec) => if bool_decide (sec ∈ names) then <[sy_name s := 1]> g else g
       | None => g
       end.

Definition collect_section_boundary_refs (L : Linker) : Linker :=
  set_synthetic (foldl (boundary_ref (section_names (l_objects L))) (l_synthetic L) (l_objects L ≫= o_symbols)) L.

(** The least address and the greatest end of the sections of a name. *)
Definition widen (b : option (Z * Z)) (s : LoadedSection) : option (Z * Z) :=
  let e := u64 (ls_guest_addr s + ls_size s) in
  match b with
  | None => Some (ls_guest_addr s, e)
  | Some (lo, hi) => Some (Z.min lo (ls_guest_addr s), Z.max hi e)
  end.
Definition section_bounds (os : list LoadedObject) (name : string) : option (Z * Z) :=
  foldl widen None (List.filter (fun s => ls_loadable s && String.eqb (ls_name s) name) (os ≫= o_sections)).

Definition define_boundary (os : list LoadedObject) (g : gmap string Z) (sec : string) : gmap string Z :=
  if String.eqb sec "" then g
  else match section_bounds os sec with
       | Some (lo, hi) => <[make_section_boundary_sym sec false := hi]> (<[make_section_boundary_sym sec true := lo]> g)
       | None => g
       end.

Definition wanted_sections (g : gmap string Z) : gset string :=
  list_to_set (omap (fun p => snd <$> parse_section_boundary_sym p.1) (map_to_list g)).

Definition define_section_boundary_symbols (L : Linker) : Linker :=
  set_synthetic (foldl (define_boundary (l_objects L)) (l_synthetic L) (elements (wanted_sections (l_synthetic L)))) L.

Definition define_array (start_name end_name : string) (b : ArrayBounds) (g : gmap string Z) : gmap string Z :=
  if ar_present b then <[end_name := ar_end b]> (<[start_name := ar_start b]> g) else g.

Definition define_init_fini_symbols (L : Linker) : Linker :=
  set_synthetic (define_array "__fini_array_start" "__fini_array_end" (l_fini_array L)
                  (define_array "__init_array_start" "__init_array_end" (l_init_array L) (l_synthetic L))) L.

(** ** The synthetic .got.plt and .plt *)

(** A name that needs a stub, in the order of the first use. *)
Definition stub_ref (L : Linker) (o : LoadedObject) (r : LoadedReloc) : option string :=
  if negb (rl_type r =? 10) then None
  else match get (o_symbols o) (rl_sym_idx r) with
       | None => None
       | Some s =>
         if sy_defined s || bool_decide (is_Some (l_globals L !! sy_name s)) || is_fp_ksym (sy_name s) then None
         else Some (sy_name s)
       end.

Definition add_once (l : list string) (n : string) : list string := if bool_decide (n ∈ l) then l else l ++ [n].

Definition stub_names (op : Options) (L : Linker) : list string :=
  let called := foldl add_once [] (l_objects L ≫= fun o => omap (stub_ref L o) (o_relocations o)) in
  if bool_decide (op_mode op = DYNAMIC_EXE) && negb (String.eqb (op_entry op) "")
     && bool_decide (l_globals L !! op_entry op = None)
  then add_once called (op_entry op) else called.

Definition pool_align (v : Z) : Z := andnot (v + 7) 7.

Definition synthetic_object (source name : string) (exec : bool) (seg : SegClass) (base off : Z) (mem : list Z) : LoadedObject :=
  mkobj source
    [null_section; mksec name 0 0 (Z.of_nat (length mem)) SHT_PROGBITS (negb exec) exec seg true 0 1 0 false]
    [] [] (u64 (base + off)) off mem [] [].

(** A table of stubs: the frame slot of size 0 and 40 bytes to be filled. *)
Definition plt_bytes (n : nat) : list Z :=
  concat (replicate n (le_bytes 8 (make_frame_slot 0) ++ replicate (Z.to_nat kPltStubSize) 0)).

Definition synthesize_got_plt (op : Options) (L : Linker) : res Linker :=
  let syms := stub_names op L in
  match syms with
  | [] => Done L
  | _ =>
    let n := length syms in
    let got_off := pool_align (l_pool_used L) in
    let got_bytes := Z.of_nat n * 8 in
    if POOL_SIZE <? got_off + got_bytes then Failed
    else
      let plt_off := pool_align (got_off + got_bytes) in
      let plt_size := Z.of_nat n * kPltEntrySize in
      if POOL_SIZE <? plt_off + plt_size then Failed
      else
        let got_obj := length (l_objects L) in
        let plt_obj := Datatypes.S got_obj in
        let go := synthetic_object ".got (synthetic)" ".got.plt" false SEG_DATA (guest_base op) got_off (replicate (n * 8) 0) in
        let po := synthetic_object ".plt (synthetic)" ".plt" true SEG_TEXT (guest_base op) plt_off (plt_bytes n) in
        let slots := list_to_map (imap (fun i s => (s, (got_obj, Z.of_nat i * 8))) syms) in
        let entries := list_to_map (imap (fun i s => (s, (plt_obj, kPltEntrySize * Z.of_nat i + 8))) syms) in
        Done (set_got slots entries got_obj plt_obj syms
                (set_pool (plt_off + plt_size) (set_objects (l_objects L ++ [go; po]) L)))
  end.

(** ** The layout of the segments *)

Abbreviation key := (nat * nat)%type.

(** The sections of an object after the null section, with their keys. *)
Definition numbered (oi : nat) (o : LoadedObject) : list (key * LoadedSection) :=
  imap (fun i s => ((oi, Datatypes.S i), s)) (tail (o_sections o)).
Definition all_sections (os : list LoadedObject) : list (key * LoadedSection) := concat (imap numbered os).

Definition in_array (p : key * LoadedSection) : bool := (ls_type p.2 =? SHT_INIT_ARRAY) || (ls_type p.2 =? SHT_FINI_ARRAY).
Definition of_class (c : SegClass) (p : key * LoadedSection) : bool := ls_loadable p.2 && bool_decide (ls_seg p.2 = c).
Definition of_type (t : Z) (p : key * LoadedSection) : bool := ls_type p.2 =? t.

(** The sections of a segment in their order: the arrays come last. *)
Definition array_secs (t : Z) (os : list LoadedObject) : list (key * LoadedSection) :=
  List.filter (fun p => of_class SEG_DATA p && of_type t p) (all_sections os).
Definition bucket (os : list LoadedObject) (c : SegClass) : list (key * LoadedSection) :=
  match c with
  | SEG_DATA =>
    List.filter (fun p => of_class c p && negb (in_array p)) (all_sections os)
    ++ array_secs SHT_INIT_ARRAY os ++ array_secs SHT_FINI_ARRAY os
  | _ => List.filter (of_class c) (all_sections os)
  end.

Definition is_nobits (p : key * LoadedSection) : bool := of_type SHT_NOBITS p.

(** One pass over the sections of a segment: the addresses [base + offset] and
    the end of the last one. *)
Fixpoint pass (base e : Z) (l : list (key * LoadedSection)) : list (key * Z) * Z :=
  match l with
  | [] => ([], e)
  | (k, s) :: r =>
    let e := align8 e in
    let (t, e') := pass base (u64 (e + ls_size s)) r in ((k, u64 (base + e)) :: t, e')
  end.

Definition seg_flags (c : SegClass) : Z :=
  match c with SEG_TEXT => Z.lor PF_R PF_X | SEG_RODATA => PF_R | SEG_DATA => Z.lor PF_R PF_W end.

(** The offsets inside a segment and its sizes; the address comes later. *)
Definition place_segment (l : list (key * LoadedSection)) (c : SegClass) : list (key * Z) * SegInfo :=
  let (t1, pe) := pass 0 0 (List.filter (fun p => negb (is_nobits p)) l) in
  let (t2, bss) := pass pe 0 (List.filter is_nobits l) in
  (t1 ++ t2, mkseginfo (negb (bool_decide (l = []))) 0 pe (u64 (pe + bss)) (seg_flags c) (fst <$> l)).

Definition with_vaddr (v : Z) (s : SegInfo) : SegInfo :=
  mkseginfo (sg_used s) v (sg_filesz s) (sg_memsz s) (sg_flags s) (sg_secs s).
Definition classes : list SegClass := [SEG_TEXT; SEG_RODATA; SEG_DATA].

(** The chain of segment addresses. *)
Fixpoint chain (cur : Z) (l : list SegInfo) : list SegInfo :=
  match l with
  | [] => []
  | s :: r => if sg_used s then with_vaddr cur s :: chain (andnot (u64 (cur + sg_memsz s + 0xFFF)) 0xFFF) r else s :: chain cur r
  end.

Definition seg_of_list (l : list SegInfo) (c : SegClass) : SegInfo :=
  nth (match c with SEG_TEXT => 0 | SEG_RODATA => 1 | SEG_DATA => Nat.succ 1 end)%nat l no_seg.

(** The addresses the layout gives, as a table. *)
Definition placed_at (c : SegClass) (os : list LoadedObject) (vaddr : Z) : list (key * Z) :=
  (fun p => (p.1, u64 (p.2 + vaddr))) <$> (place_segment (bucket os c) c).1.

Definition laid_out (base : Z) (os : list LoadedObject) : SegClass -> SegInfo :=
  seg_of_list (chain (u64 (base + 0x1000)) ((fun c => (place_segment (bucket os c) c).2) <$> classes)).

Definition layout_table (base : Z) (os : list LoadedObject) : gmap key Z :=
  list_to_map (classes ≫= fun c => placed_at c os (sg_vaddr (laid_out base os c))).

Definition assign_section (t : gmap key Z) (oi si : nat) (s : LoadedSection) : LoadedSection :=
  match t !! (oi, si) with Some a => set_guest_addr a s | None => s end.
Definition assign_object (t : gmap key Z) (oi : nat) (o : LoadedObject) : LoadedObject :=
  set_sections (imap (assign_section t oi) (o_sections o)) o.

Definition nth_section (os : list LoadedObject) (k : key) : option LoadedSection := o ← os !! k.1; o_sections o !! k.2.

Definition compute_array_boundary (os : list LoadedObject) (l : list key) : ArrayBounds :=
  match head l ≫= nth_section os, last l ≫= nth_section os with
  | Some f, Some b => mkarray (ls_guest_addr f) (u64 (ls_guest_addr b + ls_size b)) true
  | _, _ => no_array
  end.

Definition layout_segments (op : Options) (L : Linker) : Linker :=
  let os := l_objects L in
  let os' := imap (assign_object (layout_table (guest_base op) os)) os in
  set_segs (laid_out (guest_base op) os)
    (compute_array_boundary os' (fst <$> array_secs SHT_INIT_ARRAY os))
    (compute_array_boundary os' (fst <$> array_secs SHT_FINI_ARRAY os))
    (set_objects os' L).

(** The stubs, once the addresses are known:
    [lddw r6, slot; ldx r6, [r6]; call *r6; exit]. *)
Definition stub_code (slot_addr : Z) : list Z :=
  [0x18; 0x06; 0; 0] ++ le_bytes 4 slot_addr ++ [0; 0; 0; 0] ++ le_bytes 4 (Z.shiftr slot_addr 32)
  ++ [0x79; 0x66; 0; 0; 0; 0; 0; 0] ++ [0x8d; 0x06; 0; 0; 0; 0; 0; 0] ++ [0x95; 0; 0; 0; 0; 0; 0; 0].

(** [emit_plt_stub] writes only the bytes that are not zero. *)
Definition emit_plt_stub (m : list Z) (p slot_addr : Z) : option (list Z) :=
  m ← write_at m p [0x18; 0x06];
  m ← write_at m (p + 4) (le_bytes 4 slot_addr);
  m ← write_at m (p + 12) (le_bytes 4 (Z.shiftr slot_addr 32));
  m ← write_at m (p + 16) [0x79; 0x66];
  m ← write_at m (p + 24) [0x8d; 0x06];
  write_at m (p + 32) [0x95].

Definition finalize_stub (L : Linker) (p : string * (nat * Z)) : res Linker :=
  let '(sym, (poi, poff)) := p in
  match l_got_slots L !! sym with
  | None => Done L
  | Some (goi, goff) =>
    let! got := inside (nth_section (l_objects L) (goi, 1%nat)) in
    let! plt := inside (nth_section (l_objects L) (poi, 1%nat)) in
    let! po := inside (l_objects L !! poi) in
    let! m := inside (emit_plt_stub (o_mem po) poff (u64 (ls_guest_addr got + goff))) in
    Done (set_plt_addr (<[sym := u64 (ls_guest_addr plt + poff)]> (l_plt_addr L))
            (set_objects (<[poi := set_mem m po]> (l_objects L)) L))
  end.

Definition finalize_plt_stubs (L : Linker) : res Linker := rfold finalize_stub L (map_to_list (l_plt_entries L)).

(** ** Relocations *)

Definition pic (op : Options) : bool := bool_decide (op_mode op = SHARED_LIB \/ op_mode op = DYNAMIC_EXE).

(** The immediate of a call: the distance in instructions to the next one. *)
Definition call_imm (tgt call_site : Z) : Z := s32 (Z.quot (s64 (tgt - call_site)) 8 - 1).

(** What [apply_relocations] writes at [patch] of the memory [m]. *)
Definition patch_64 (m : list Z) (patch V : Z) : option (list Z) :=
  m ← write_at m (patch + 4) (le_bytes 4 V); write_at m (patch + 12) (le_bytes 4 (Z.shiftr V 32)).

Definition patch_fp (m : list Z) (patch id : Z) : option (list Z) :=
  b ← read_at m (patch + 1) 1;
  m ← write_at m (patch + 1) [Z.lor (Z.land b 0x0f) 0x20];
  write_at m (patch + 4) (le_bytes 4 id).

Definition apply_one (op : Options) (L : Linker) (secs : list LoadedSection) (m : list Z) (r : LoadedReloc)
    (target : LoadedSection) (s : LoadedSym) (resolved : option Z) : res (list Z) :=
  let S := default 0 resolved in
  let patch := ls_offset target + rl_offset r in
  let t := rl_type r in
  if ls_size target <? u64 (rl_offset r + reloc_write_len t) then Failed
  else if t =? 1 then if pic op then Done m else inside (patch_64 m patch (u64 (S + rl_addend r)))
  else if t =? 2 then if pic op then Done m else inside (write_at m patch (le_bytes 8 (u64 (S + rl_addend r))))
  else if t =? 10 then
    if is_fp_ksym (sy_name s) then
      match parse_fp_ksym_id (sy_name s) with None => Failed | Some id => inside (patch_fp m patch id) end
    else
      let call_site := u64 (ls_guest_addr target + rl_offset r) in
      let tgt := match resolved with
                 | Some a => a
                 | None => if l_got_enabled L then default S (l_plt_addr L !! sy_name s) else S
                 end in
      inside (write_at m (patch + 4) (le_bytes 4 (call_imm tgt call_site)))
  else if t =? 4 then inside (write_at m patch (le_bytes 4 (S + rl_addend r)))
  else Done m.

Definition apply_reloc (op : Options) (L : Linker) (oi : nat) (secs : list LoadedSection) (m : list Z) (r : LoadedReloc) : res (list Z) :=
  match get secs (rl_target_sec r) with
  | None => Done m
  | Some target =>
    if negb (ls_loadable target) then Done m
    else
      let! resolved := resolve_symbol op L oi (rl_sym_idx r) in
      let! s := inside (nth_sym (l_objects L) oi (rl_sym_idx r)) in
      if bool_decide (resolved = None) && negb (is_fp_ksym (sy_name s))
         && negb ((rl_type r =? 10) && l_got_enabled L && bool_decide (is_Some (l_plt_addr L !! sy_name s)))
      then Done m
      else apply_one op L secs m r target s resolved
  end.

Definition apply_relocations (op : Options) (L : Linker) (oi : nat) : res Linker :=
  let! o := inside (l_objects L !! oi) in
  let! m := rfold (apply_reloc op L oi (o_sections o)) (o_mem o) (o_relocations o) in
  Done (set_objects (<[oi := set_mem m o]> (l_objects L)) L).

(** ** Frame slots *)

(** The size in ULEB128 at [p]; a shift of 64 bits or more is undefined. *)
Fixpoint uleb128 (shift acc : Z) (l : list Z) : res Z :=
  match l with
  | [] => Done acc
  | b :: r =>
    if 64 <=? shift then Escaped
    else
      let acc := Z.lor acc (u64 (Z.shiftl (Z.land b 0x7f) shift)) in
      if nz (Z.land b 0x80) then uleb128 (shift + 7) acc r else Done acc
  end.

Definition stack_size_record (op : Options) (oi : nat) (data : list Z) (L : Linker) (r : LoadedReloc) : res Linker :=
  match nth_sym (l_objects L) oi (rl_sym_idx r) with
  | None => Done L
  | Some _ =>
    let! symval := resolve_symbol op L oi (rl_sym_idx r) in
    match symval with
    | None => Done L
    | Some a =>
      if Z.of_nat (length data) <? u64 (rl_offset r + 8) then Done L
      else
        let! addend := inside (read_at data (rl_offset r) 8) in
        let p := rl_offset r + 8 in
        if Z.of_nat (length data) <=? p then Done L
        else
          let! size := uleb128 0 0 (drop (Z.to_nat p) data) in
          Done (set_stack_sizes (<[u64 (a + addend) := size]> (l_stack_sizes L)) L)
    end
  end.

Definition by_offset (a b : LoadedReloc) : Prop := rl_offset a <= rl_offset b.
#[export] Instance by_offset_dec : RelDecision by_offset.
Proof. intros a b. unfold by_offset. apply _. Defined.

Definition build_stack_size_map_one (op : Options) (oi : nat) (L : Linker) (p : Z * list Z) : res Linker :=
  let (ss_idx, data) := p in
  match l_objects L !! oi with
  | None => Done L
  | Some o =>
    rfold (stack_size_record op oi data) L
      (merge_sort by_offset (List.filter (fun r => rl_target_sec r =? ss_idx) (o_relocations o)))
  end.

Definition build_stack_size_map (op : Options) (L : Linker) : res Linker :=
  rfold (fun L oi => rfold (build_stack_size_map_one op oi) L (match l_objects L !! oi with Some o => o_stack_sizes_secs o | None => [] end))
    L (seq 0 (length (l_objects L))).

Definition fill_slot (sizes : gmap Z Z) (m : list Z) (s : LoadedSection) : res (list Z) :=
  if negb (ls_slotted s) then Done m
  else
    let size := default FRAME_SLOT_FALLBACK (sizes !! u64 (ls_guest_addr s + 8)) in
    inside (write_at m (ls_offset s) (le_bytes 8 (make_frame_slot size))).

Definition fill_object (sizes : gmap Z Z) (o : LoadedObject) : res LoadedObject :=
  let! m := rfold (fill_slot sizes) (o_mem o) (o_sections o) in Done (set_mem m o).

Definition fill_frame_slots (L : Linker) : res Linker :=
  let! os := rmap (fill_object (l_stack_sizes L)) (l_objects L) in Done (set_objects os L).

(** ** A link *)

Section Run.
Context {lib : LibElf}.

(** A dependency of a dynamic program, by its content. *)
Definition load_dep (op : Options) (L : Linker) (dep : string) : res Linker := load_input op L dep.

(** The inputs, in the order the mode takes them. *)
Definition load_all (op : Options) (inputs : list string) : res Linker :=
  match op_mode op with
  | STATIC_EXE =>
    let! L := rfold (load_input op) new_linker inputs in
    rfold (fun L p => load_archive_file op p L) L (op_archives op)
  | SHARED_LIB =>
    let! L := rfold (fun L d => load_bpfso_symbols d L) new_linker (op_deps op) in
    rfold (load_input op) L inputs
  | DYNAMIC_EXE =>
    let! L := rfold (load_dep op) new_linker (op_deps op) in
    rfold (load_input op) L inputs
  | RELOCATABLE =>
    let! L := rfold (fun L i => match classify_input i with DYN => Failed | _ => load_input op L i end) new_linker inputs in
    rfold (fun L p => load_archive_file op p L) L (op_archives op)
  end.

(** The address of the entry symbol; a warning and 0 when there is none. *)
Definition find_entry (op : Options) (L : Linker) : res Z :=
  match l_globals L !! op_entry op with
  | Some (oi, si) => let! s := inside (nth_sym (l_objects L) oi (Z.of_nat si)) in sym_addr (l_objects L) oi s
  | None => Done (if decide (op_mode op = DYNAMIC_EXE) then default 0 (l_plt_addr L !! op_entry op) else 0)
  end.

Definition presynthesize (L : Linker) : Linker :=
  collect_section_boundary_refs (set_synthetic (<["__dso_handle"%string := 1]> (l_synthetic L)) L).

(** [Linker::run] after the loading. *)
Definition run_link (op : Options) (L : Linker) : res Linker :=
  let L := presynthesize (register_all L) in
  if negb (bool_decide (op_mode op = SHARED_LIB)) && negb (check_undefined_symbols L) then Failed
  else
    let! L := if pic op then synthesize_got_plt op L else Done L in
    let L := define_section_boundary_symbols (define_init_fini_symbols (layout_segments op L)) in
    let! L := if l_got_enabled L then finalize_plt_stubs L else Done L in
    let! L := rfold (apply_relocations op) L (seq 0 (length (l_objects L))) in
    let! e := find_entry op L in
    Done (set_entry e L).

Definition run (op : Options) (inputs : list string) : res Linker :=
  let! L := load_all op inputs in
  match op_mode op with RELOCATABLE => Done (register_all L) | _ => run_link op L end.

End Run.
