(* ===== verification/LdDemo.v ===== *)
(** * LdDemo: a small link, evaluated

    Two relocatable objects and an archive, given as libelf would report them,
    linked statically and as a dynamic program. *)

From S2P Require Import Prelude Bytes HostMem AddrSpace Frame Loader Ld.
From Stdlib Require Import Lia Ascii.
From stdpp Require Import base numbers list gmap strings option sorting.

Open Scope Z_scope.

(** [call foo; exit], a reference to [tbl] in a data section, 16 bytes of bss. *)
Definition demo_text : list Z :=
  [0x85; 0x10; 0; 0; 0xff; 0xff; 0xff; 0xff] ++ [0x18; 1; 0; 0; 4; 0; 0; 0] ++ replicate 8 0 ++ [0x95; 0; 0; 0; 0; 0; 0; 0].
Definition scn (name : string) (type flags : Z) (data : list Z) : ElfScn :=
  mkscn name type flags (Z.of_nat (length data)) 0 8 0 (Some data) [] [].
Definition syms_scn (l : list ElfSym) : ElfScn := mkscn ".symtab" SHT_SYMTAB 0 0 0 8 24 (Some []) l [].
Definition rel_scn (type target : Z) (l : list ElfRel) : ElfScn := mkscn ".rel" type 0 0 target 8 16 (Some []) [] l.
Definition null_sym : ElfSym := mkelfsym "" 0 0 0 0 0.
Definition info (sym type : Z) : Z := sym * 2 ^ 32 + type.

Definition main_image : ElfImage := mkimage ET_REL
  [scn ".text" SHT_PROGBITS 6 demo_text;
   rel_scn SHT_REL 1 [mkelfrel 0 (info 2 10) 0; mkelfrel 8 (info 3 1) 0];
   scn ".stack_sizes" SHT_PROGBITS 0 (replicate 8 0 ++ [0x80; 0x01]);
   rel_scn SHT_REL 3 [mkelfrel 0 (info 4 2) 0];
   syms_scn [null_sym; mkelfsym "_start" 0x12 0 1 0 32; mkelfsym "foo" 0x10 0 0 0 0; mkelfsym "tbl" 0x10 0 0 0 0; mkelfsym "" 3 0 1 0 0]].
Definition foo_image : ElfImage := mkimage ET_REL
  [scn ".text.foo" SHT_PROGBITS 6 [0x95; 0; 0; 0; 0; 0; 0; 0];
   scn ".data" SHT_PROGBITS 3 (replicate 5 7);
   mkscn ".bss" SHT_NOBITS 3 16 0 8 0 None [] [];
   rel_scn SHT_RELA 2 [];
   syms_scn [null_sym; mkelfsym "foo" 0x12 0 1 0 8; mkelfsym "tbl" 0x11 0 2 1 4]].

(** A reference to a label without a type, and one to a name of a shared object. *)
Definition lab_image : ElfImage := mkimage ET_REL
  [scn ".text" SHT_PROGBITS 6 demo_text;
   rel_scn SHT_RELA 1 [mkelfrel 8 (info 2 1) 0];
   syms_scn [null_sym; mkelfsym "_start" 0x12 0 1 0 32; mkelfsym "lab" 0x10 0 1 24 0]].
Definition ext_image : ElfImage := mkimage ET_REL
  [scn ".text" SHT_PROGBITS 6 demo_text;
   rel_scn SHT_RELA 1 [mkelfrel 0 (info 2 10) 0];
   syms_scn [null_sym; mkelfsym "_start" 0x12 0 1 0 32; mkelfsym "ext" 0x10 0 0 0 0]].
Definition so_image : ElfImage := mkimage ET_DYN
  [mkscn ".dynsym" SHT_DYNSYM 0 0 0 8 24 (Some []) [null_sym; mkelfsym "ext" 0x12 0 1 0x1000 8] []].

#[export] Instance demo_lib : LibElf := {
  elf_image d := match d with [1] => Some main_image | [2] => Some foo_image | [3] => Some lab_image | [4] => Some ext_image
                 | [5] => Some so_image | _ => None end;
  read_file p := if String.eqb p "main.o" then Some [1]
                 else if String.eqb p "libfoo.a" then
                   Some (AR_MAGIC ++ string_bytes "foo.o/          0           0     0     644     1         " ++ [96; 10; 2; 10])
                 else if String.eqb p "lab.o" then Some [3] else if String.eqb p "ext.o" then Some [4]
                 else if String.eqb p "libext.so" then Some [5] else None
}.

Definition demo_options (m : Mode) (deps : list string) : Options := mkoptions m 0x40000000 "_start" "" deps ["libfoo.a"%string] false.

Definition demo_static : res Linker := run (demo_options STATIC_EXE []) ["main.o"%string].
Definition show (r : res Linker) :=
  match r with
  | Done L => Some (l_entry L, (fun o => (take 48 (o_mem o), ls_guest_addr <$> o_sections o)) <$> l_objects L, map_to_list (l_stack_sizes L))
  | _ => None end.
Definition the (r : res Linker) : Linker := match r with Done L => L | _ => new_linker end.

(** The linker after the inputs are loaded. *)
Definition demo_loaded : Linker := the (load_all (demo_options STATIC_EXE []) ["main.o"%string]).

(** The call reaches [foo], the pair of immediates holds the address of [tbl]. *)
Example demo_links :
  match demo_static with
  | Done L => l_entry L = 0x40001008 /\ (fun o => take 40 (o_mem o)) <$> (l_objects L !! 0%nat) =
      Some (replicate 8 0 ++ [0x85; 0x10; 0; 0; 4; 0; 0; 0; 0x18; 1; 0; 0; 5; 0x20; 0; 0x40] ++ replicate 8 0 ++ [0x95; 0; 0; 0; 0; 0; 0; 0])
  | _ => False
  end.
Proof. vm_compute. done. Qed.

(** The first bytes of the first object. *)
Definition first_bytes (r : res Linker) : option (list Z) :=
  match r with Done L => (fun o => take 24 (o_mem o)) <$> head (l_objects L) | _ => None end.
