(* ===== verification/LdLayout.v ===== *)
(** * LdLayout: where the linker puts the sections

    [layout_segments] on sections whose sizes leave the address space room
    ([fits]): the order of the segments, the place of every section in its
    segment, the alignment of what is in the file, and that no two sections
    share a byte.  Code lies in the segment that is mapped executable only. *)

From S2P Require Import Prelude Bytes HostMem AddrSpace Frame Loader Ld LdDemo.
From Stdlib Require Import Lia.
From stdpp Require Import base numbers list gmap strings option sorting.

Open Scope Z_scope.

(** ** Ranges one after the other *)

(** A list of (address, length) between two bounds, in order, without overlap. *)
Fixpoint stacked (lo : Z) (l : list (Z * Z)) (hi : Z) : Prop :=
  match l with
  | [] => lo <= hi
  | (a, n) :: r => lo <= a /\ 0 <= n /\ stacked (a + n) r hi
  end.

Lemma stacked_le lo l hi : stacked lo l hi -> lo <= hi.
Proof. revert lo. induction l as [|[a n] r IH]; intros lo; cbn; [done|]. intros (? & ? & H%IH). lia. Qed.

Lemma stacked_app lo l1 mid l2 hi : stacked lo l1 mid -> stacked mid l2 hi -> stacked lo (l1 ++ l2) hi.
Proof.
  revert lo. induction l1 as [|[a n] r IH]; intros lo; cbn.
  - intros H. destruct l2 as [|[a n] l2]; cbn; [lia|]. intros (? & ? & ?). split; [lia|done].
  - intros (? & ? & H1) H2. split; [done|]. split; [done|]. by apply IH.
Qed.

Lemma stacked_weaken lo lo' l hi hi' : lo' <= lo -> hi <= hi' -> stacked lo l hi -> stacked lo' l hi'.
Proof.
  revert lo lo'. induction l as [|[a n] r IH]; intros lo lo' H1 H2; cbn; [lia|].
  intros (? & ? & H). split; [lia|]. split; [lia|]. by eapply IH; [| |done].
Qed.

Lemma stacked_elem lo l hi a n : stacked lo l hi -> (a, n) ∈ l -> lo <= a /\ 0 <= n /\ a + n <= hi.
Proof.
  revert lo. induction l as [|[b m] r IH]; intros lo Hs Hin; [by apply elem_of_nil in Hin|].
  cbn in Hs. destruct Hs as (H1 & H2 & Hs). apply elem_of_cons in Hin as [[= -> ->]|Hin].
  - apply stacked_le in Hs. lia.
  - specialize (IH _ Hs Hin). lia.
Qed.

Lemma stacked_disjoint lo l hi i j a n b m :
  stacked lo l hi -> (i < j)%nat -> l !! i = Some (a, n) -> l !! j = Some (b, m) -> a + n <= b.
Proof.
  revert lo i j. induction l as [|[c k] r IH]; intros lo i j Hs Hij Hi Hj; [done|].
  cbn in Hs. destruct Hs as (H1 & H2 & Hs). destruct j as [|j]; [lia|]. destruct i as [|i].
  - injection Hi as -> ->. cbn in Hj. apply list_elem_of_lookup_2 in Hj. by apply (stacked_elem _ _ _ _ _ Hs) in Hj as [? _].
  - cbn in Hi, Hj. exact (IH _ i j Hs ltac:(lia) Hi Hj).
Qed.

Lemma stacked_shift d lo l hi : stacked lo l hi -> stacked (lo + d) ((fun p => (p.1 + d, p.2)) <$> l) (hi + d).
Proof.
  revert lo. induction l as [|[a n] r IH]; intros lo; cbn; [lia|]. intros (? & ? & H). split; [lia|]. split; [done|].
  replace (a + d + n) with (a + n + d) by lia. by apply IH.
Qed.

(** ** Rounding *)

Definition up8 (v : Z) : Z := (v + 7) / 8 * 8.
Definition up_page (v : Z) : Z := (v + 0xFFF) / 0x1000 * 0x1000.

Lemma andnot_low n v : 0 <= n -> andnot v (2 ^ n - 1) = v / 2 ^ n * 2 ^ n.
Proof.
  intros Hn. unfold andnot. rewrite <- (Z.pred_succ (2 ^ n - 1)). replace (Z.succ (2 ^ n - 1)) with (2 ^ n) by lia.
  rewrite <- Z.ones_equiv. rewrite Z.ldiff_ones_r by done. rewrite Z.shiftr_div_pow2, Z.shiftl_mul_pow2 by done. done.
Qed.

Lemma align8_up8 v : 0 <= v -> v + 7 < 2 ^ 64 -> align8 v = up8 v.
Proof. intros. unfold align8. rewrite uwrap_small by lia. apply (andnot_low 3). lia. Qed.

Lemma round_page_up v : 0 <= v -> v + 0xFFF < 2 ^ 64 -> andnot (u64 (v + 0xFFF)) 0xFFF = up_page v.
Proof. intros. rewrite uwrap_small by lia. apply (andnot_low 12). lia. Qed.

Lemma up8_spec v : v <= up8 v < v + 8 /\ up8 v mod 8 = 0.
Proof. unfold up8. split; [Z.to_euclidean_division_equations; lia|apply Z.mod_mul; lia]. Qed.
Lemma up_page_spec v : v <= up_page v < v + 0x1000 /\ up_page v mod 0x1000 = 0.
Proof. unfold up_page. split; [Z.to_euclidean_division_equations; lia|apply Z.mod_mul; lia]. Qed.

(** ** One segment *)

Abbreviation spot := (key * LoadedSection * Z)%type.

Definition spot_key (x : spot) : key := x.1.1.
Definition spot_range (x : spot) : Z * Z := (x.2, ls_size x.1.2).
Definition spot_entry (x : spot) : key * Z := (x.1.1, x.2).

Definition sized (l : list (key * LoadedSection)) : Prop := Forall (fun p => 0 <= ls_size p.2) l.

Fixpoint extent (e : Z) (l : list (key * LoadedSection)) : Z :=
  match l with [] => e | (_, s) :: r => extent (up8 e + ls_size s) r end.
Fixpoint spots (base e : Z) (l : list (key * LoadedSection)) : list spot :=
  match l with [] => [] | (k, s) :: r => (k, s, base + up8 e) :: spots base (up8 e + ls_size s) r end.

Lemma extent_ge e l : sized l -> e <= extent e l.
Proof.
  revert e. induction l as [|[k s] r IH]; intros e Hs; cbn; [lia|]. apply list.Forall_cons in Hs as [Hs Hr]. cbn in Hs.
  pose proof (up8_spec e). specialize (IH (up8 e + ls_size s) Hr). lia.
Qed.

Lemma pass_spots base e l :
  0 <= base -> 0 <= e -> sized l -> base + extent e l + 8 <= 2 ^ 64 -> pass base e l = (spot_entry <$> spots base e l, extent e l).
Proof.
  revert e. induction l as [|[k s] r IH]; intros e Hb He Hs Hx; cbn [pass]; [done|]. cbn [extent] in Hx.
  apply list.Forall_cons in Hs as [Hs Hr]. cbn in Hs. pose proof (up8_spec e).
  pose proof (extent_ge (up8 e + ls_size s) r Hr). rewrite align8_up8 by lia. rewrite uwrap_small by lia.
  rewrite IH by (lia || done). cbn [extent spots fmap list_fmap]. by rewrite uwrap_small by lia.
Qed.

Lemma spots_stacked base e l : sized l -> stacked (base + e) (spot_range <$> spots base e l) (base + extent e l).
Proof.
  revert e. induction l as [|[k s] r IH]; intros e Hs; cbn; [lia|]. apply list.Forall_cons in Hs as [Hs Hr]. cbn in Hs.
  pose proof (up8_spec e). split; [lia|]. split; [lia|]. replace (base + up8 e + ls_size s) with (base + (up8 e + ls_size s)) by lia. by apply IH.
Qed.

Lemma spots_key base e l : (fun x => x.1) <$> spots base e l = l.
Proof. revert e. induction l as [|[k s] r IH]; intros e; cbn; [done|]. by rewrite IH. Qed.

Lemma spots_elem base e l x : x ∈ spots base e l -> x.1 ∈ l /\ (x.2 - base) mod 8 = 0.
Proof.
  revert e. induction l as [|[k s] r IH]; intros e Hin; cbn in Hin; [by apply elem_of_nil in Hin|].
  apply elem_of_cons in Hin as [->|Hin].
  - cbn. split; [by left|]. replace (base + up8 e - base) with (up8 e) by lia. apply up8_spec.
  - destruct (IH _ Hin). split; [by right|done].
Qed.

Definition prog_secs (l : list (key * LoadedSection)) := List.filter (fun p => negb (is_nobits p)) l.
Definition bss_secs (l : list (key * LoadedSection)) := List.filter is_nobits l.
Definition prog_end (l : list (key * LoadedSection)) : Z := extent 0 (prog_secs l).
Definition mem_end (l : list (key * LoadedSection)) : Z := prog_end l + extent 0 (bss_secs l).
Definition seg_spots (v : Z) (l : list (key * LoadedSection)) : list spot :=
  spots v 0 (prog_secs l) ++ spots (v + prog_end l) 0 (bss_secs l).

Lemma sized_filter f l : sized l -> sized (List.filter f l).
Proof.
  unfold sized. rewrite !list.Forall_forall. intros H x Hx. apply H. rewrite !list_elem_of_In in *. by apply List.filter_In in Hx as [? _].
Qed.
#[local] Hint Resolve sized_filter : core.

Lemma spots_shift v base e l : (fun p => (p.1, p.2 + v)) <$> (spot_entry <$> spots base e l) = spot_entry <$> spots (v + base) e l.
Proof. revert e. induction l as [|[k s] r IH]; intros e; cbn; [done|]. rewrite IH. unfold spot_entry. cbn. do 2 f_equal. lia. Qed.

Lemma place_segment_spots l c :
  sized l -> mem_end l + 8 <= 2 ^ 64 ->
  place_segment l c = (spot_entry <$> seg_spots 0 l, mkseginfo (negb (bool_decide (l = []))) 0 (prog_end l) (mem_end l) (seg_flags c) (fst <$> l)).
Proof.
  intros Hs Hm. unfold place_segment. fold (prog_secs l) (bss_secs l).
  assert (sized (prog_secs l)) as Hp by (by apply sized_filter). assert (sized (bss_secs l)) as Hb by (by apply sized_filter).
  pose proof (extent_ge 0 _ Hp). pose proof (extent_ge 0 _ Hb). unfold mem_end, prog_end in *.
  rewrite (pass_spots 0 0) by (done || lia). rewrite (pass_spots (extent 0 (prog_secs l)) 0) by (done || lia).
  rewrite uwrap_small by lia. unfold seg_spots, prog_end. rewrite fmap_app. done.
Qed.

Lemma seg_spots_stacked v l : sized l -> stacked v (spot_range <$> seg_spots v l) (v + mem_end l).
Proof.
  intros Hs. unfold seg_spots, mem_end. rewrite fmap_app. eapply stacked_app.
  - replace v with (v + 0) at 1 by lia. apply spots_stacked. by apply sized_filter.
  - replace (v + (prog_end l + extent 0 (bss_secs l))) with (v + prog_end l + extent 0 (bss_secs l)) by lia.
    fold (prog_end l). replace (v + prog_end l) with (v + prog_end l + 0) at 1 by lia. apply spots_stacked. by apply sized_filter.
Qed.

(** ** The three segments *)

Definition seg_next (cur : Z) (l : list (key * LoadedSection)) : Z := if bool_decide (l = []) then cur else up_page (cur + mem_end l).
Definition start (base : Z) (os : list LoadedObject) (c : SegClass) : Z :=
  let t := base + 0x1000 in
  let r := seg_next t (bucket os SEG_TEXT) in
  match c with SEG_TEXT => t | SEG_RODATA => r | SEG_DATA => seg_next r (bucket os SEG_RODATA) end.
Definition layout_end (base : Z) (os : list LoadedObject) : Z := seg_next (start base os SEG_DATA) (bucket os SEG_DATA).
Definition all_spots (base : Z) (os : list LoadedObject) : list spot := classes ≫= fun c => seg_spots (start base os c) (bucket os c).

(** The base is a page, the sizes are sizes, and the segments end below 2^64. *)
Definition fits (base : Z) (os : list LoadedObject) : Prop :=
  0 <= base /\ base mod 0x1000 = 0 /\ sized (all_sections os) /\ layout_end base os + 0x2000 <= 2 ^ 64.

Lemma sized_app l1 l2 : sized l1 -> sized l2 -> sized (l1 ++ l2).
Proof. apply Forall_app_2. Qed.
Lemma bucket_sized os c : sized (all_sections os) -> sized (bucket os c).
Proof. intros H. destruct c; cbn; unfold array_secs; repeat apply sized_app; by apply sized_filter. Qed.

Lemma mem_end_ge l : sized l -> 0 <= prog_end l <= mem_end l.
Proof.
  intros H. unfold mem_end, prog_end.
  pose proof (extent_ge 0 _ (sized_filter (fun p => negb (is_nobits p)) _ H)).
  pose proof (extent_ge 0 _ (sized_filter is_nobits _ H)). unfold prog_secs, bss_secs. lia.
Qed.

Lemma seg_next_ge cur l : sized l -> cur mod 0x1000 = 0 ->
  cur <= seg_next cur l /\ (l <> [] -> cur + mem_end l <= seg_next cur l < cur + mem_end l + 0x1000) /\ seg_next cur l mod 0x1000 = 0.
Proof.
  intros H Hc. pose proof (mem_end_ge l H). unfold seg_next. case_bool_decide as Hl.
  - split; [lia|]. split; [done|done].
  - pose proof (up_page_spec (cur + mem_end l)). split; [lia|]. split; [lia|]. lia.
Qed.

Lemma starts base os : fits base os ->
  let T := start base os SEG_TEXT in let R := start base os SEG_RODATA in let D := start base os SEG_DATA in
  (T mod 0x1000 = 0 /\ R mod 0x1000 = 0 /\ D mod 0x1000 = 0) /\
  T = base + 0x1000 /\ T <= R /\ R <= D /\ D <= layout_end base os /\
  (bucket os SEG_TEXT <> [] -> T + mem_end (bucket os SEG_TEXT) <= R < T + mem_end (bucket os SEG_TEXT) + 0x1000) /\
  (bucket os SEG_RODATA <> [] -> R + mem_end (bucket os SEG_RODATA) <= D < R + mem_end (bucket os SEG_RODATA) + 0x1000) /\
  (bucket os SEG_DATA <> [] -> D + mem_end (bucket os SEG_DATA) <= layout_end base os < D + mem_end (bucket os SEG_DATA) + 0x1000).
Proof.
  intros (H0 & Hp & Hs & Ht). cbn zeta.
  assert (start base os SEG_TEXT mod 0x1000 = 0) as HT by (cbn; Z.to_euclidean_division_equations; lia).
  destruct (seg_next_ge (start base os SEG_TEXT) _ (bucket_sized os SEG_TEXT Hs) HT) as (HR1 & HR2 & HR).
  change (seg_next (start base os SEG_TEXT) (bucket os SEG_TEXT)) with (start base os SEG_RODATA) in *.
  destruct (seg_next_ge (start base os SEG_RODATA) _ (bucket_sized os SEG_RODATA Hs) HR) as (HD1 & HD2 & HD).
  change (seg_next (start base os SEG_RODATA) (bucket os SEG_RODATA)) with (start base os SEG_DATA) in *.
  destruct (seg_next_ge (start base os SEG_DATA) _ (bucket_sized os SEG_DATA Hs) HD) as (HX1 & HX2 & _).
  change (seg_next (start base os SEG_DATA) (bucket os SEG_DATA)) with (layout_end base os) in *.
  split; [done|]. split; [done|]. done.
Qed.

Lemma mem_end_nil : mem_end [] = 0. Proof. done. Qed.

(** Every segment, used or not, ends before the next one starts. *)
Lemma seg_room base os c : fits base os -> 0 <= start base os c /\ start base os c + mem_end (bucket os c) <= layout_end base os.
Proof.
  intros H. pose proof (starts _ _ H) as Hst. cbn zeta in Hst. destruct H as (H0 & _ & Hs & _).
  destruct Hst as (_ & HT & H1 & H2 & H3 & A & B & C).
  destruct (decide (bucket os c = [])) as [E|E]; destruct c; try rewrite E, mem_end_nil; try specialize (A E); try specialize (B E); try specialize (C E); lia.
Qed.

Definition info_at (base : Z) (os : list LoadedObject) (c : SegClass) : SegInfo :=
  let l := bucket os c in
  mkseginfo (negb (bool_decide (l = []))) (if bool_decide (l = []) then 0 else start base os c) (prog_end l) (mem_end l) (seg_flags c) (fst <$> l).

Lemma chain_step cur i r :
  chain cur (i :: r) = (if sg_used i then with_vaddr cur i else i) :: chain (if sg_used i then andnot (u64 (cur + sg_memsz i + 0xFFF)) 0xFFF else cur) r.
Proof. cbn. by destruct (sg_used i). Qed.

Lemma place_info base os c : fits base os ->
  place_segment (bucket os c) c =
  (spot_entry <$> seg_spots 0 (bucket os c),
   mkseginfo (negb (bool_decide (bucket os c = []))) 0 (prog_end (bucket os c)) (mem_end (bucket os c)) (seg_flags c) (fst <$> bucket os c)).
Proof.
  intros H. pose proof (seg_room _ _ c H). destruct H as (H0b & _ & Hs & Ht). apply place_segment_spots; [by apply bucket_sized|]. lia.
Qed.

Lemma chain_next base os c cur : fits base os -> cur = start base os c ->
  (if sg_used (place_segment (bucket os c) c).2 then andnot (u64 (cur + sg_memsz (place_segment (bucket os c) c).2 + 0xFFF)) 0xFFF else cur)
  = seg_next cur (bucket os c).
Proof.
  intros H ->. pose proof (seg_room _ _ c H) as [? ?]. pose proof (mem_end_ge _ (bucket_sized os c (proj1 (proj2 (proj2 H))))).
  rewrite (place_info _ _ c H). cbn. unfold seg_next. case_bool_decide; cbn; [done|].
  apply round_page_up; destruct H as (_ & _ & _ & ?); lia.
Qed.

Lemma laid_out_info base os c : fits base os -> laid_out base os c = info_at base os c.
Proof.
  intros H. pose proof H as (H0 & _ & Hs & Ht). pose proof (seg_room _ _ SEG_TEXT H) as [? HT]. 
  pose proof (mem_end_ge _ (bucket_sized os SEG_TEXT Hs)). cbn [start] in HT.
  unfold laid_out. rewrite uwrap_small by lia. unfold classes. cbn [fmap list_fmap].
  rewrite !chain_step. rewrite (chain_next base os SEG_TEXT) by done.
  change (seg_next (base + 4096) (bucket os SEG_TEXT)) with (start base os SEG_RODATA).
  rewrite (chain_next base os SEG_RODATA) by done.
  change (seg_next (start base os SEG_RODATA) (bucket os SEG_RODATA)) with (start base os SEG_DATA).
  destruct c; cbn [seg_of_list nth Nat.succ chain]; rewrite (place_info _ _ _ H); unfold info_at; cbn;
    by case_bool_decide.
Qed.

(** ** The table of addresses *)

Lemma seg_spots_shift v l : (fun p => (p.1, p.2 + v)) <$> (spot_entry <$> seg_spots 0 l) = spot_entry <$> seg_spots v l.
Proof.
  unfold seg_spots. rewrite !fmap_app, !spots_shift.
  replace (v + 0) with v by lia. replace (v + (0 + prog_end l)) with (v + prog_end l) by lia. done.
Qed.

Lemma all_spots_stacked base os : fits base os -> stacked (base + 0x1000) (spot_range <$> all_spots base os) (layout_end base os).
Proof.
  intros H. pose proof (starts _ _ H) as Hst. cbn zeta in Hst. destruct H as (H0 & _ & Hs & _).
  destruct Hst as (_ & HT & H1 & H2 & H3 & A & B & C).
  unfold all_spots, classes. cbn [mbind list_bind]. rewrite app_nil_r, !fmap_app.
  assert (forall c hi, (bucket os c <> [] -> start base os c + mem_end (bucket os c) <= hi) -> start base os c <= hi ->
    stacked (start base os c) (spot_range <$> seg_spots (start base os c) (bucket os c)) hi) as Hone.
  { intros c hi Hn Hle. eapply stacked_weaken; [| |apply seg_spots_stacked; by apply bucket_sized]; [lia|].
    destruct (decide (bucket os c = [])) as [E|E]; [rewrite E, mem_end_nil; lia|by apply Hn]. }
  rewrite <- HT. eapply stacked_app; [apply (Hone SEG_TEXT (start base os SEG_RODATA)); [by intros []%A|done]|].
  eapply stacked_app; [apply (Hone SEG_RODATA (start base os SEG_DATA)); [by intros []%B|done]|].
  apply (Hone SEG_DATA); [by intros []%C|done].
Qed.

Lemma placed_spots base os c : fits base os ->
  placed_at c os (sg_vaddr (laid_out base os c)) = spot_entry <$> seg_spots (start base os c) (bucket os c).
Proof.
  intros H. rewrite laid_out_info by done. unfold placed_at. rewrite (place_info _ _ _ H). cbn [fst].
  unfold info_at. cbn [sg_vaddr]. case_bool_decide as E; [by rewrite E|].
  rewrite <- (seg_spots_shift (start base os c)). apply list_fmap_ext. intros i [k a] Hi. cbn. f_equal. apply uwrap_small.
  apply list_elem_of_lookup_2 in Hi. apply list_elem_of_fmap in Hi as (x & [= -> ->] & Hx).
  pose proof (seg_room _ _ c H) as [? ?]. destruct H as (H0b & _ & Hs & Ht).
  pose proof (seg_spots_stacked 0 _ (bucket_sized os c Hs)) as Hst.
  apply (list_elem_of_fmap_2 spot_range) in Hx. apply (stacked_elem _ _ _ _ _ Hst) in Hx. lia.
Qed.

Lemma layout_table_spots base os : fits base os -> layout_table base os = list_to_map (spot_entry <$> all_spots base os).
Proof.
  intros H. unfold layout_table, all_spots, classes. cbn [mbind list_bind]. rewrite !app_nil_r, !fmap_app.
  by rewrite !(placed_spots base os _ H).
Qed.

Lemma filter_split {A} (f g : A -> bool) (l : list A) :
  List.filter (fun x => f x && g x) l ++ List.filter (fun x => f x && negb (g x)) l ≡ₚ List.filter f l.
Proof.
  induction l as [|x l IH]; cbn; [done|]. destruct (f x), (g x); cbn; try done; [by rewrite IH|].
  rewrite <- Permutation_middle. by rewrite IH.
Qed.

Lemma filter_perm {A} (g : A -> bool) (l : list A) : List.filter (fun x => negb (g x)) l ++ List.filter g l ≡ₚ l.
Proof. induction l as [|x l IH]; cbn; [done|]. destruct (g x); cbn; [rewrite <- Permutation_middle|]; by rewrite IH. Qed.

Lemma filter_ext {A} (f g : A -> bool) (l : list A) : (forall x, f x = g x) -> List.filter f l = List.filter g l.
Proof. intros H. induction l as [|x l IH]; cbn; [done|]. by rewrite H, IH. Qed.

Lemma bucket_data os : bucket os SEG_DATA ≡ₚ List.filter (of_class SEG_DATA) (all_sections os).
Proof.
  cbn [bucket]. rewrite <- (filter_split (of_class SEG_DATA) in_array). rewrite Permutation_app_comm. apply Permutation_app_tail.
  unfold array_secs. rewrite <- (filter_split (fun p => of_class SEG_DATA p && in_array p) (of_type SHT_INIT_ARRAY)).
  apply Permutation_app; apply reflexive_eq, filter_ext; intros [k s]; unfold in_array, of_type; cbn [snd];
    destruct (of_class SEG_DATA (k, s)); cbn; [|done| |done].
  - by destruct (ls_type s =? SHT_INIT_ARRAY), (ls_type s =? SHT_FINI_ARRAY).
  - destruct (Z.eqb_spec (ls_type s) SHT_INIT_ARRAY) as [->|], (Z.eqb_spec (ls_type s) SHT_FINI_ARRAY); done.
Qed.

Lemma bucket_class os c : bucket os c ≡ₚ List.filter (of_class c) (all_sections os).
Proof. destruct c; [done|done|apply bucket_data]. Qed.

Definition loadables (os : list LoadedObject) : list (key * LoadedSection) := List.filter (fun p => ls_loadable p.2) (all_sections os).

Lemma all_buckets os : (classes ≫= bucket os) ≡ₚ loadables os.
Proof.
  unfold classes, loadables. cbn [mbind list_bind]. rewrite app_nil_r. rewrite (bucket_class os SEG_TEXT), (bucket_class os SEG_RODATA), (bucket_class os SEG_DATA).
  rewrite <- (filter_split (fun p => ls_loadable p.2) (fun p => bool_decide (ls_seg p.2 = SEG_TEXT))). apply Permutation_app_head.
  rewrite <- (filter_split (fun p => ls_loadable p.2 && negb (bool_decide (ls_seg p.2 = SEG_TEXT))) (fun p => bool_decide (ls_seg p.2 = SEG_RODATA))).
  apply Permutation_app; apply reflexive_eq, filter_ext; intros [k s]; unfold of_class; cbn [snd]; by destruct (ls_loadable s), (ls_seg s).
Qed.

Lemma seg_spots_secs v l : (fun x : spot => x.1) <$> seg_spots v l ≡ₚ l.
Proof. unfold seg_spots. rewrite fmap_app, !spots_key. apply filter_perm. Qed.

Lemma all_spots_secs base os : (fun x : spot => x.1) <$> all_spots base os ≡ₚ loadables os.
Proof.
  rewrite <- all_buckets. unfold all_spots, classes. cbn [mbind list_bind]. rewrite !app_nil_r, !fmap_app.
  by rewrite !seg_spots_secs.
Qed.

(** ** Sections by their keys *)

Definition sections_from (n : nat) (os : list LoadedObject) : list (key * LoadedSection) := concat (imap (fun i => numbered (n + i)) os).

Lemma sections_from_cons n o os : sections_from n (o :: os) = numbered n o ++ sections_from (S n) os.
Proof.
  unfold sections_from. cbn [imap concat]. rewrite Nat.add_0_r. f_equal. f_equal. apply imap_ext. intros i x _. cbn. f_equal. lia.
Qed.

Lemma all_sections_from os : all_sections os = sections_from 0 os.
Proof. done. Qed.

Lemma numbered_elem n o k s : (k, s) ∈ numbered n o <-> k.1 = n /\ k.2 <> 0%nat /\ o_sections o !! k.2 = Some s.
Proof.
  unfold numbered. rewrite list_elem_of_lookup. setoid_rewrite list_lookup_imap. split.
  - intros (i & Hi). apply fmap_Some in Hi as (x & Hx & [= -> ->]). cbn. split; [done|]. split; [done|].
    by destruct (o_sections o).
  - destruct k as [a [|b]]; cbn; intros (-> & Hb & Hs); [done|]. exists b.
    destruct (o_sections o) as [|x l]; [done|]. change (l !! b = Some s) in Hs. cbn [tail]. by rewrite Hs.
Qed.

Lemma sections_from_elem n os k s :
  (k, s) ∈ sections_from n os <-> (n <= k.1)%nat /\ k.2 <> 0%nat /\ nth_section os ((k.1 - n)%nat, k.2) = Some s.
Proof.
  revert n. induction os as [|o os IH]; intros n.
  - cbn. split; [by intros ?%elem_of_nil|]. intros (_ & _ & H). unfold nth_section in H. by rewrite lookup_nil in H.
  - rewrite sections_from_cons, elem_of_app, numbered_elem, IH. unfold nth_section. cbn [fst snd]. split.
    + intros [(Hk & H0 & Hs)|(Hk & H0 & Hs)].
      * rewrite Hk, Nat.sub_diag. done.
      * split; [lia|]. split; [done|]. replace (k.1 - n)%nat with (S (k.1 - S n)) by lia. done.
    + intros (Hk & H0 & Hs). destruct (decide (k.1 = n)) as [E|E].
      * left. rewrite E, Nat.sub_diag in Hs. cbn in Hs. done.
      * right. split; [lia|]. split; [done|]. replace (k.1 - n)%nat with (S (k.1 - S n)) in Hs by lia. done.
Qed.

Lemma all_sections_elem os k s : (k, s) ∈ all_sections os <-> k.2 <> 0%nat /\ nth_section os k = Some s.
Proof. rewrite all_sections_from, sections_from_elem. rewrite Nat.sub_0_r. destruct k as [a b]. cbn [fst snd]. split; [intros (? & ? & ?)|intros (? & ?)]; split_and?; done || lia. Qed.

Lemma numbered_nodup n o : NoDup (fst <$> numbered n o).
Proof.
  unfold numbered. apply NoDup_alt. intros i j x. rewrite !list_lookup_fmap, !list_lookup_imap.
  destruct (tail (o_sections o) !! i), (tail (o_sections o) !! j); cbn; congruence.
Qed.

Lemma sections_from_nodup n os : NoDup (fst <$> sections_from n os).
Proof.
  revert n. induction os as [|o os IH]; intros n; [apply NoDup_nil_2|]. rewrite sections_from_cons, fmap_app. apply NoDup_app.
  split; [apply numbered_nodup|]. split; [|done]. intros k Hk Hk'.
  apply list_elem_of_fmap in Hk as ([k1 s1] & -> & H1%numbered_elem). apply list_elem_of_fmap in Hk' as ([k2 s2] & E & H2%sections_from_elem).
  cbn in *. subst. lia.
Qed.

Lemma loadables_elem os k s : (k, s) ∈ loadables os <-> k.2 <> 0%nat /\ nth_section os k = Some s /\ ls_loadable s = true.
Proof.
  unfold loadables. rewrite list_elem_of_In, List.filter_In, <- list_elem_of_In, all_sections_elem. cbn. tauto.
Qed.

Lemma filter_fst_nodup {A B} (f : A * B -> bool) (l : list (A * B)) : NoDup (fst <$> l) -> NoDup (fst <$> List.filter f l).
Proof.
  induction l as [|x l IH]; cbn; [done|]. rewrite NoDup_cons. intros [Hx Hn]. destruct (f x); cbn; [|by apply IH].
  apply NoDup_cons. split; [|by apply IH]. intros Hin. apply Hx. apply list_elem_of_fmap in Hin as (y & -> & Hy).
  apply list_elem_of_fmap. exists y. split; [done|]. apply list_elem_of_In in Hy. apply List.filter_In in Hy as [Hy _]. by apply list_elem_of_In.
Qed.

Lemma all_spots_nodup base os : NoDup (spot_key <$> all_spots base os).
Proof.
  change (spot_key <$> all_spots base os) with ((fun x : spot => fst (fst x)) <$> all_spots base os).
  rewrite (list_fmap_compose (fun x : spot => x.1) fst). rewrite all_spots_secs.
  apply filter_fst_nodup. exact (sections_from_nodup 0 os).
Qed.

Lemma table_lookup base os k a : fits base os ->
  layout_table base os !! k = Some a <-> exists s, (k, s, a) ∈ all_spots base os.
Proof.
  intros H. rewrite layout_table_spots by done. rewrite <- elem_of_list_to_map.
  - rewrite list_elem_of_fmap. split.
    + intros ([[k' s] a'] & [= -> ->] & Hin). by exists s.
    + intros [s Hs]. exists (k, s, a). done.
  - rewrite <- list_fmap_compose. apply all_spots_nodup.
Qed.

(** A spot carries the section of its key. *)
Lemma spot_section base os k s a : (k, s, a) ∈ all_spots base os -> k.2 <> 0%nat /\ nth_section os k = Some s /\ ls_loadable s = true.
Proof.
  intros H. assert ((k, s) ∈ (fun x : spot => x.1) <$> all_spots base os) as Hin by (apply list_elem_of_fmap; by exists (k, s, a)).
  rewrite all_spots_secs in Hin. by apply loadables_elem.
Qed.

Lemma section_spot base os k s : k.2 <> 0%nat -> nth_section os k = Some s -> ls_loadable s = true -> exists a, (k, s, a) ∈ all_spots base os.
Proof.
  intros Hk Hs Hl. assert ((k, s) ∈ loadables os) as Hin by (by apply loadables_elem).
  rewrite <- (all_spots_secs base) in Hin. apply list_elem_of_fmap in Hin as ([[k' s'] a] & [= <- <-] & Hin). by exists a.
Qed.

Lemma assigned_section t os k : nth_section (imap (assign_object t) os) k = assign_section t k.1 k.2 <$> nth_section os k.
Proof.
  unfold nth_section. rewrite list_lookup_imap. destruct (os !! k.1) as [o|]; cbn; [|done]. apply list_lookup_imap.
Qed.

(** Writable and executable at once. *)
Definition has_both_wx (f : Z) : bool := nz (Z.land f PF_W) && nz (Z.land f PF_X).

(** Where a section of a segment lies: behind the start of the segment, what is
    in the file 8-aligned and inside the file part, what is not behind it. *)
Definition lies_in (g : SegInfo) (a : Z) (s : LoadedSection) : Prop :=
  sg_used g = true /\ sg_vaddr g mod 0x1000 = 0 /\
  if ls_type s =? SHT_NOBITS then sg_vaddr g + sg_filesz g <= a /\ a + ls_size s <= sg_vaddr g + sg_memsz g
  else sg_vaddr g <= a /\ a mod 8 = 0 /\ a + ls_size s <= sg_vaddr g + sg_filesz g.

Lemma spots_stacked_in base e l k s a : sized l -> (k, s, a) ∈ spots base e l -> base + e <= a /\ a + ls_size s <= base + extent e l.
Proof.
  intros Hs Hin. pose proof (spots_stacked base e l Hs) as H.
  apply (list_elem_of_fmap_2 spot_range) in Hin. apply (stacked_elem _ _ _ _ _ H) in Hin as (? & _ & ?). done.
Qed.

Lemma spot_class base os k s a : (k, s, a) ∈ all_spots base os ->
  (k, s, a) ∈ seg_spots (start base os (ls_seg s)) (bucket os (ls_seg s)) /\ (k, s) ∈ bucket os (ls_seg s).
Proof.
  intros Hin. assert (exists c, (k, s, a) ∈ seg_spots (start base os c) (bucket os c)) as [c Hc].
  { unfold all_spots, classes in Hin. cbn [mbind list_bind] in Hin. rewrite app_nil_r, !elem_of_app in Hin.
    destruct Hin as [?|[?|?]]; by eexists. }
  assert ((k, s) ∈ bucket os c) as Hb.
  { rewrite <- (seg_spots_secs (start base os c)). apply list_elem_of_fmap. by exists (k, s, a). }
  assert (ls_seg s = c) as ->; [|done].
  pose proof Hb as Hb'. rewrite bucket_class in Hb'. apply list_elem_of_In, List.filter_In in Hb' as [_ Hf]. unfold of_class in Hf. cbn in Hf.
  apply andb_true_iff in Hf as [_ Hf]. by apply bool_decide_eq_true in Hf.
Qed.

Lemma spot_lies base os k s a : fits base os -> (k, s, a) ∈ all_spots base os -> lies_in (laid_out base os (ls_seg s)) a s /\ k ∈ sg_secs (laid_out base os (ls_seg s)).
Proof.
  intros H Hin. apply spot_class in Hin as [Hin Hb]. set (c := ls_seg s) in *. rewrite laid_out_info by done.
  pose proof (starts _ _ H) as ((HT & HR & HD) & _). pose proof H as (H0 & _ & Hs & _).
  assert (start base os c mod 0x1000 = 0) as Hp by (destruct c; done).
  pose proof (bucket_sized os c Hs) as Hbs. unfold lies_in, info_at. cbn [sg_used sg_vaddr sg_filesz sg_memsz sg_secs].
  rewrite (bool_decide_eq_false_2 (bucket os c = [])) by (by intros E; rewrite E in Hb; apply elem_of_nil in Hb). cbn [negb].
  split; [|by apply (list_elem_of_fmap_2 fst) in Hb]. split; [done|]. split; [done|].
  unfold seg_spots in Hin. apply elem_of_app in Hin as [Hin|Hin].
  - destruct (spots_elem _ _ _ _ Hin) as [Hf Hm]. cbn [fst snd] in Hf, Hm. apply list_elem_of_In, List.filter_In in Hf as [_ Hf].
    unfold is_nobits, of_type in Hf. cbn [snd] in Hf. apply negb_true_iff in Hf. rewrite Hf.
    apply spots_stacked_in in Hin; [|by apply sized_filter]. fold (prog_end (bucket os c)) in Hin. split; [lia|]. split; [|lia].
    Z.to_euclidean_division_equations; lia.
  - destruct (spots_elem _ _ _ _ Hin) as [Hf _]. cbn [fst] in Hf. apply list_elem_of_In, List.filter_In in Hf as [_ Hf].
    unfold is_nobits, of_type in Hf. cbn [snd] in Hf. rewrite Hf.
    apply spots_stacked_in in Hin; [|by apply sized_filter]. unfold mem_end. lia.
Qed.

Lemma spots_disjoint base os k1 s1 a1 k2 s2 a2 : fits base os ->
  (k1, s1, a1) ∈ all_spots base os -> (k2, s2, a2) ∈ all_spots base os -> k1 <> k2 -> a1 + ls_size s1 <= a2 \/ a2 + ls_size s2 <= a1.
Proof.
  intros H H1 H2 Hk. pose proof (all_spots_stacked _ _ H) as Hst.
  apply list_elem_of_lookup in H1 as [i H1]. apply list_elem_of_lookup in H2 as [j H2].
  assert ((spot_range <$> all_spots base os) !! i = Some (a1, ls_size s1)) as R1 by (by rewrite list_lookup_fmap, H1).
  assert ((spot_range <$> all_spots base os) !! j = Some (a2, ls_size s2)) as R2 by (by rewrite list_lookup_fmap, H2).
  destruct (lt_eq_lt_dec i j) as [[Hij| ->]|Hij].
  - left. by eapply stacked_disjoint.
  - congruence.
  - right. by eapply stacked_disjoint.
Qed.

Lemma before_layout op L k s : nth_section (l_objects (layout_segments op L)) k = Some s -> ls_loadable s = true ->
  exists t, nth_section (l_objects L) k = Some t /\ ls_loadable t = true.
Proof.
  cbn [layout_segments l_objects set_segs set_objects]. rewrite assigned_section. intros (t & Ht & ->)%fmap_Some Hl. exists t.
  split; [done|]. unfold assign_section in Hl. by destruct (_ !! _) in Hl.
Qed.

(** C26: [layout_segments] gives every loadable section an address in the
    segment of its kind: page-aligned segments in the order code, constants,
    data, on different pages, none both writable and executable; what is in the
    file lies 8-aligned in the file part of its segment, what is not behind it;
    no two sections share a byte; nothing but the address of a section changes.
    (Stated for sizes that leave the address space room.) *)
Theorem layout_sound (op : Options) (L : Linker) (Hfit : fits (guest_base op) (l_objects L)) :
  let L' := layout_segments op L in
  let os := l_objects L in let os' := l_objects L' in
  (forall k s, k.2 <> 0%nat -> nth_section os k = Some s -> ls_loadable s = true ->
     exists a, nth_section os' k = Some (set_guest_addr a s) /\ lies_in (l_segs L' (ls_seg s)) a s /\ k ∈ sg_secs (l_segs L' (ls_seg s))) /\
  (forall k1 k2 s1 s2, k1 <> k2 -> k1.2 <> 0%nat -> k2.2 <> 0%nat ->
     nth_section os' k1 = Some s1 -> nth_section os' k2 = Some s2 -> ls_loadable s1 = true -> ls_loadable s2 = true ->
     ls_guest_addr s1 + ls_size s1 <= ls_guest_addr s2 \/ ls_guest_addr s2 + ls_size s2 <= ls_guest_addr s1) /\
  (forall c, has_both_wx (sg_flags (l_segs L' c)) = false) /\
  (forall c d, (c, d) ∈ [(SEG_TEXT, SEG_RODATA); (SEG_TEXT, SEG_DATA); (SEG_RODATA, SEG_DATA)] ->
     sg_used (l_segs L' c) = true -> sg_used (l_segs L' d) = true -> up_page (sg_vaddr (l_segs L' c) + sg_memsz (l_segs L' c)) <= sg_vaddr (l_segs L' d)) /\
  (forall i o, os !! i = Some o -> exists secs, os' !! i = Some (set_sections secs o)).
Proof.
  cbn zeta. pose proof (starts _ _ Hfit) as Hst. cbn zeta in Hst. destruct Hst as (_ & HT & HTR & HRD & _ & A & B & _).
  assert (forall k s, k.2 <> 0%nat -> nth_section (l_objects L) k = Some s -> ls_loadable s = true ->
    exists a, (k, s, a) ∈ all_spots (guest_base op) (l_objects L) /\
      nth_section (l_objects (layout_segments op L)) k = Some (set_guest_addr a s)) as Hsec.
  { intros k s Hk Hs Hl. destruct (section_spot (guest_base op) _ k s Hk Hs Hl) as [a Ha]. exists a. split; [done|].
    change (l_objects (layout_segments op L)) with (imap (assign_object (layout_table (guest_base op) (l_objects L))) (l_objects L)).
    rewrite assigned_section, Hs. cbn [fmap option_fmap option_map]. f_equal. unfold assign_section.
    destruct k as [k1 k2]. cbn [fst snd] in *. by rewrite (proj2 (table_lookup _ _ (k1, k2) a Hfit) (ex_intro _ s Ha)). }
  split_and!.
  - intros k s Hk Hs Hl. destruct (Hsec k s Hk Hs Hl) as (a & Ha & Hn). exists a. split; [done|]. by apply spot_lies.
  - intros k1 k2 s1 s2 Hne Hk1 Hk2 Hs1 Hs2 Hl1 Hl2.
    destruct (before_layout _ _ _ _ Hs1 Hl1) as (t1 & Ht1 & Hl1'). destruct (before_layout _ _ _ _ Hs2 Hl2) as (t2 & Ht2 & Hl2').
    destruct (Hsec k1 t1 Hk1 Ht1 Hl1') as (a1 & Ha1 & E1). destruct (Hsec k2 t2 Hk2 Ht2 Hl2') as (a2 & Ha2 & E2).
    rewrite Hs1 in E1. rewrite Hs2 in E2. injection E1 as ->. injection E2 as ->. cbn. by apply (spots_disjoint _ _ _ _ _ _ _ _ Hfit Ha1 Ha2).
  - intros c. change (l_segs (layout_segments op L) c) with (laid_out (guest_base op) (l_objects L) c).
    rewrite laid_out_info by done. by destruct c.
  - intros c d Hcd. change (l_segs (layout_segments op L)) with (laid_out (guest_base op) (l_objects L)). rewrite !laid_out_info by done.
    cbn. intros Hc Hd. apply negb_true_iff, bool_decide_eq_false in Hc, Hd. rewrite !bool_decide_eq_false_2 by done.
    rewrite !elem_of_cons, elem_of_nil in Hcd. unfold start in A, B, HTR, HRD. cbn zeta iota in A, B, HTR, HRD.
    assert (forall cur l, l <> [] -> up_page (cur + mem_end l) = seg_next cur l) as Hup by (intros; unfold seg_next; by rewrite bool_decide_eq_false_2).
    destruct Hcd as [[= -> ->]|[[= -> ->]|[[= -> ->]|[]]]]; rewrite Hup by done; cbn [start]; [done|done|done].
  - intros i o Ho. eexists. cbn. rewrite list_lookup_imap, Ho. done.
Qed.

Definition demo_text_section : LoadedSection :=
  preset_addr 0x40000000 (load_section STATIC_EXE (scn ".text" SHT_PROGBITS 6 demo_text)).

Lemma layout_sound_witness :
  let op := demo_options STATIC_EXE [] in
  fits (guest_base op) (l_objects demo_loaded) /\
  exists a, nth_section (l_objects (layout_segments op demo_loaded)) (0, 1)%nat = Some (set_guest_addr a demo_text_section)
    /\ a mod 8 = 0.
Proof.
  assert (fits (guest_base (demo_options STATIC_EXE [])) (l_objects demo_loaded)) as H.
  { unfold fits, sized. apply (bool_decide_unpack _). vm_compute. exact I. }
  split; [exact H|].
  destruct (proj1 (layout_sound (demo_options STATIC_EXE []) demo_loaded H) (0, 1)%nat
    demo_text_section ltac:(done) ltac:(vm_compute; reflexivity) ltac:(done)) as (a & Ha & (_ & _ & _ & Hm & _) & _).
  by exists a.
Defined.

(** What is not in the file starts right behind what is, without rounding: a
    section .bss behind 5 bytes of data is not aligned. *)
Example bss_not_aligned :
  ls_guest_addr <$> nth_section (l_objects (layout_segments (demo_options STATIC_EXE []) demo_loaded)) (1, 3)%nat = Some (0x40002005).
Proof. vm_compute. reflexivity. Qed.
