(* ===== verification/LdSym.v ===== *)
(** * LdSym: which definition a name stands for

    [register_globals] over all objects against a specification: the first
    strong definition, else the first weak one.  What a successful check of the
    undefined symbols promises the relocations. *)

From S2P Require Import Prelude Bytes HostMem AddrSpace Frame Loader Ld LdDemo.
From Stdlib Require Import Lia.
From stdpp Require Import base numbers list gmap strings option sorting.

Open Scope Z_scope.
Open Scope ld_scope.

(** ** The table of global symbols *)

Definition syms_from (n : nat) (os : list LoadedObject) : list (nat * nat * LoadedSym) := concat (imap (fun i => numbered_syms (n + i)) os).

(** The definitions of a name, in the order of the objects. *)
Definition definitions (os : list LoadedObject) (name : string) : list (nat * nat * LoadedSym) :=
  base.filter (fun p => exported p.2 = true /\ sy_name p.2 = name) (syms_from 0 os).

(** The first strong one, else the first. *)
Definition winner (l : list (nat * nat * LoadedSym)) : option (nat * nat * LoadedSym) :=
  match base.filter (fun p => sy_binding p.2 = STB_GLOBAL) l with p :: _ => Some p | [] => head l end.

Lemma winner_elem l p : winner l = Some p -> p ∈ l.
Proof.
  unfold winner. destruct (base.filter _ l) as [|q t] eqn:E; [destruct l; [done|intros [= ->]; by left]|].
  intros [= ->]. assert (p ∈ base.filter (fun p => sy_binding p.2 = STB_GLOBAL) l) as H by (rewrite E; by left). by apply list_elem_of_filter in H as [_ ?].
Qed.

Lemma exported_binding s : exported s = true -> sy_binding s = STB_GLOBAL \/ sy_binding s = STB_WEAK.
Proof. unfold exported. destruct (Z.eqb_spec (sy_binding s) STB_GLOBAL); [by left|]. destruct (Z.eqb_spec (sy_binding s) STB_WEAK); [by right|]. by rewrite andb_false_r. Qed.

Lemma winner_snoc l p : Forall (fun p => exported p.2 = true) (l ++ [p]) ->
  winner (l ++ [p]) = match winner l with
                      | None => Some p
                      | Some e => if (sy_binding e.2 =? STB_WEAK) && (sy_binding p.2 =? STB_GLOBAL) then Some p else Some e
                      end.
Proof.
  intros H. apply Forall_app in H as [Hl Hp]. apply Forall_singleton in Hp. unfold winner. rewrite filter_app.
  destruct (base.filter _ l) as [|q t] eqn:E.
  - cbn [app]. assert (forall e, e ∈ l -> sy_binding e.2 = STB_WEAK) as Hweak.
    { intros e He. rewrite list.Forall_forall in Hl. destruct (exported_binding _ (Hl e He)) as [Hb|Hb]; [|done].
      assert (e ∈ base.filter (fun p => sy_binding p.2 = STB_GLOBAL) l) as Hin by (by apply list_elem_of_filter). rewrite E in Hin. by apply elem_of_nil in Hin. }
    destruct l as [|e l]; cbn [app head].
    + destruct (decide (sy_binding p.2 = STB_GLOBAL)); [by rewrite filter_cons_True by done|by rewrite filter_cons_False by done].
    + rewrite (Hweak e) by (by left). cbn [Z.eqb Pos.eqb STB_WEAK andb]. change (STB_WEAK =? STB_WEAK) with true. cbn [andb].
      destruct (Z.eqb_spec (sy_binding p.2) STB_GLOBAL); [by rewrite filter_cons_True by done|by rewrite filter_cons_False by done].
  - cbn [app]. assert (q ∈ base.filter (fun p => sy_binding p.2 = STB_GLOBAL) l) as Hq by (rewrite E; by left).
    apply list_elem_of_filter in Hq as [Hq _]. by rewrite Hq.
Qed.

Lemma numbered_syms_elem oi o i j s : (i, j, s) ∈ numbered_syms oi o <-> i = oi /\ o_symbols o !! j = Some s.
Proof.
  unfold numbered_syms. rewrite list_elem_of_lookup. setoid_rewrite list_lookup_imap. split.
  - intros (k & Hk). apply fmap_Some in Hk as (x & Hx & [= -> -> ->]). done.
  - intros [-> Hs]. exists j. by rewrite Hs.
Qed.

Lemma syms_from_cons n o os : syms_from n (o :: os) = numbered_syms n o ++ syms_from (S n) os.
Proof. unfold syms_from. cbn [imap concat]. rewrite Nat.add_0_r. do 2 f_equal. apply imap_ext. intros i x _. cbn. f_equal. lia. Qed.

Lemma get_nat {A} (l : list A) (i : nat) : get l (Z.of_nat i) = l !! i.
Proof.
  unfold get. rewrite Nat2Z.id. destruct (Z.leb_spec 0 (Z.of_nat i)); [|lia]. cbn. zcases; [done|]. symmetry. apply lookup_ge_None. lia.
Qed.

Lemma get_lookup {A} (l : list A) i x : get l i = Some x -> 0 <= i /\ l !! Z.to_nat i = Some x.
Proof. unfold get. intros H. destruct (_ && _) eqn:E; [|done]. zprops. done. Qed.

Lemma get_elem {A} (l : list A) i x : get l i = Some x -> x ∈ l.
Proof. intros [_ H]%get_lookup. by eapply list_elem_of_lookup_2. Qed.

Lemma syms_from_elem n os i j s :
  (i, j, s) ∈ syms_from n os <-> (n <= i)%nat /\ (o ← os !! (i - n)%nat; o_symbols o !! j) = Some s.
Proof.
  revert n. induction os as [|o os IH]; intros n.
  - cbn. split; [by intros ?%elem_of_nil|]. intros [_ H]. by rewrite lookup_nil in H.
  - rewrite syms_from_cons, elem_of_app, numbered_syms_elem, IH. split.
    + intros [[-> Hs]|[Hi Hs]]; [by rewrite Nat.sub_diag|]. split; [lia|]. by replace (i - n)%nat with (S (i - S n)) by lia.
    + intros [Hi Hs]. destruct (decide (i = n)) as [->|E]; [rewrite Nat.sub_diag in Hs; by left|]. right. split; [lia|].
      by replace (i - n)%nat with (S (i - S n)) in Hs by lia.
Qed.

Lemma syms_nth os i j s : (i, j, s) ∈ syms_from 0 os -> nth_sym os i (Z.of_nat j) = Some s.
Proof.
  rewrite syms_from_elem, Nat.sub_0_r. intros [_ H]. unfold nth_sym. destruct (os !! i); cbn in *; [|done]. by rewrite get_nat.
Qed.

(** The table after the symbols of [l]. *)
Definition table_ok (l : list (nat * nat * LoadedSym)) (g : gmap string (nat * nat)) : Prop :=
  forall name, g !! name = fst <$> winner (base.filter (fun p => exported p.2 = true /\ sy_name p.2 = name) l).

Lemma register_sym_ok os l p g :
  (forall q, q ∈ l -> nth_sym os q.1.1 (Z.of_nat q.1.2) = Some q.2) -> table_ok l g -> table_ok (l ++ [p]) (register_sym os g p).
Proof.
  intros Hn Hg name. rewrite filter_app. destruct p as [k s]. specialize (Hg (sy_name s)) as Hs. unfold register_sym. cbn [fst snd].
  destruct (exported s) eqn:Ex.
  2: { rewrite (filter_cons_False _ _ _); [|cbn; by rewrite Ex; intros [? _]]. rewrite filter_nil, app_nil_r. apply Hg. }
  destruct (decide (sy_name s = name)) as [E|E].
  - rewrite filter_cons_True, filter_nil by done. rewrite winner_snoc.
    + rewrite E in Hs. rewrite E. destruct (winner _) as [[[oi si] e]|] eqn:W; cbn [fmap option_fmap option_map fst] in Hs; rewrite Hs; cbn [snd].
      * apply winner_elem, list_elem_of_filter in W as [[_ _] W]. specialize (Hn _ W). cbn [fst snd] in Hn. rewrite Hn.
        destruct (_ && _); [by rewrite lookup_insert_eq|by rewrite Hs].
      * by rewrite lookup_insert_eq.
    + apply Forall_app. split; [|by constructor]. apply list.Forall_forall. intros x [[? _] _]%list_elem_of_filter. done.
  - rewrite (filter_cons_False _ _ _) by (by intros [_ ?]). rewrite filter_nil, app_nil_r. rewrite <- Hg.
    destruct (g !! sy_name s) as [[oi si]|]; [|by apply lookup_insert_ne].
    destruct (nth_sym os oi (Z.of_nat si)); [|done]. destruct (_ && _); [by apply lookup_insert_ne|done].
Qed.

Lemma register_syms_ok os done todo g :
  (forall q, q ∈ done ++ todo -> nth_sym os q.1.1 (Z.of_nat q.1.2) = Some q.2) -> table_ok done g ->
  table_ok (done ++ todo) (foldl (register_sym os) g todo).
Proof.
  revert done g. induction todo as [|p todo IH]; intros l g Hn Hg; [by rewrite app_nil_r|].
  cbn [foldl]. replace (l ++ p :: todo) with ((l ++ [p]) ++ todo) in * by (by rewrite <- app_assoc). apply IH; [done|].
  apply register_sym_ok; [|done]. intros q Hq. apply Hn. rewrite !elem_of_app. tauto.
Qed.

Lemma foldl_concat {A B} (f : A -> B -> A) (ls : list (list B)) a : foldl f a (concat ls) = foldl (foldl f) a ls.
Proof. revert a. induction ls as [|l ls IH]; intros a; cbn; [done|]. by rewrite foldl_app, IH. Qed.

Lemma register_all_foldl os g n l : (forall i, os !! (n + i)%nat = l !! i) ->
  foldl (fun g oi => register_globals os oi g) g (seq n (length l)) = foldl (register_sym os) g (syms_from n l).
Proof.
  revert g n. induction l as [|o l IH]; intros g n H; [done|]. cbn [length seq foldl]. rewrite syms_from_cons, foldl_app.
  pose proof (H 0%nat) as H0. rewrite Nat.add_0_r in H0. cbn in H0. unfold register_globals at 2. rewrite H0.
  apply (IH _ (S n)). intros i. specialize (H (S i)). change ((o :: l) !! S i) with (l !! i) in H. rewrite <- H. f_equal. lia.
Qed.

Lemma registered (L : Linker) (name : string) : l_globals L = ∅ ->
  l_globals (register_all L) !! name = fst <$> winner (definitions (l_objects L) name).
Proof.
  intros Hnew. unfold register_all. cbn. rewrite Hnew. rewrite (register_all_foldl (l_objects L) ∅ 0 (l_objects L)) by done.
  apply (register_syms_ok _ [] (syms_from 0 (l_objects L))).
  - intros [[i j] s] Hq. by apply syms_nth.
  - intros n. by rewrite lookup_empty.
Qed.

(** C27: After all objects are registered a name stands for its first strong
    definition in the order of the inputs, and without one for its first weak
    definition; local, undefined and unnamed symbols and those that are neither
    functions nor objects play no part. *)
Theorem register_all_winner (L : Linker) (Hnew : l_globals L = ∅) (name : string) :
  l_globals (register_all L) !! name = fst <$> winner (definitions (l_objects L) name).
Proof. by apply registered. Qed.

(** A definition that counts is in the table. *)
Lemma registered_exported L oi si s : l_globals L = ∅ -> nth_sym (l_objects L) oi (Z.of_nat si) = Some s -> exported s = true ->
  is_Some (l_globals (register_all L) !! sy_name s).
Proof.
  intros Hnew Hs Hx. rewrite registered by done. apply fmap_is_Some. unfold winner.
  destruct (base.filter (fun p => sy_binding p.2 = STB_GLOBAL) _) as [|p t]; [|done].
  assert ((oi, si, s) ∈ definitions (l_objects L) (sy_name s)) as Hin.
  { unfold definitions. apply list_elem_of_filter. split; [done|]. apply syms_from_elem. rewrite Nat.sub_0_r. split; [lia|].
    unfold nth_sym in Hs. destruct (l_objects L !! oi); cbn in *; [|done]. by rewrite get_nat in Hs. }
  destruct (definitions _ _); [by apply elem_of_nil in Hin|done].
Qed.

Lemma register_all_winner_witness :
  l_globals demo_loaded = ∅ /\ l_globals (register_all demo_loaded) !! "foo"%string = Some (1, 1)%nat.
Proof.
  assert (l_globals demo_loaded = ∅) as H by (vm_compute; reflexivity). split; [exact H|].
  etransitivity; [exact (register_all_winner demo_loaded H "foo")|]. vm_compute. reflexivity.
Defined.
