(* ===== verification/LdReloc.v ===== *)
(** * LdReloc: what a relocated program computes with

    [apply_relocations] patches the fields the relocations name and nothing
    else; what the interpreter then reads at a patched place is the address of
    the definition: the register an [lddw] loads, the word a data pointer
    holds, the place a call reaches.  Composed over a whole link. *)

From S2P Require Import Prelude Bytes HostMem AddrSpace Isa Frame Loader Ld LdDemo LdLayout LdSym.
From Stdlib Require Import Lia.
From stdpp Require Import base numbers list gmap strings option sorting.

Open Scope Z_scope.
Open Scope ld_scope.

(** ** Reading and writing *)

Definition bytes_ok (m : list Z) : Prop := Forall is_byte m.

(** [b] agrees with [a] outside the offsets [t]. *)
Definition agree (t : Z -> Prop) (a b : list Z) : Prop :=
  length b = length a /\ forall i : nat, ~ t (Z.of_nat i) -> b !! i = a !! i.

Lemma agree_refl t a : agree t a a.
Proof. by split. Qed.
Lemma agree_trans t a b c : agree t a b -> agree t b c -> agree t a c.
Proof. intros [L1 H1] [L2 H2]. split; [congruence|]. intros i Hi. by rewrite H2, H1. Qed.
Lemma agree_weaken (t u : Z -> Prop) a b : (forall i, t i -> u i) -> agree t a b -> agree u a b.
Proof. intros H [L1 H1]. split; [done|]. intros i Hi. apply H1. by intros ?%H. Qed.

Lemma read_at_field m off n v : read_at m off n = Some v -> 0 <= off /\ off + Z.of_nat n <= Z.of_nat (length m) /\ v = field m off n.
Proof. unfold read_at. destruct (_ && _) eqn:E; [|done]. intros [= <-]. zprops. done. Qed.

Lemma write_at_spec m off bs m' : write_at m off bs = Some m' ->
  0 <= off /\ off + Z.of_nat (length bs) <= Z.of_nat (length m) /\
  m' = take (Z.to_nat off) m ++ bs ++ drop (Z.to_nat off + length bs) m.
Proof. unfold write_at. destruct (_ && _) eqn:E; [|done]. intros [= <-]. zprops. done. Qed.

Lemma write_at_agree m off bs m' : write_at m off bs = Some m' -> agree (fun i => off <= i < off + Z.of_nat (length bs)) m m'.
Proof.
  intros (H0 & H1 & ->)%write_at_spec. split.
  - rewrite !length_app, length_take, length_drop. lia.
  - intros i Hi. destruct (decide (Z.of_nat i < off)) as [Hl|Hl].
    + rewrite lookup_app_l by (rewrite length_take; lia). by rewrite lookup_take_lt by lia.
    + rewrite lookup_app_r by (rewrite length_take; lia). rewrite lookup_app_r by (rewrite length_take; lia).
      rewrite lookup_drop. f_equal. rewrite length_take. lia.
Qed.

Lemma write_at_bytes m off bs m' : write_at m off bs = Some m' -> bytes_ok m -> Forall is_byte bs -> bytes_ok m'.
Proof. intros (_ & _ & ->)%write_at_spec Hm Hb. apply Forall_app. split; [by apply Forall_take|]. apply Forall_app. split; [done|by apply Forall_drop]. Qed.

Lemma write_at_field m off n x m' : write_at m off (le_bytes n x) = Some m' -> field m' off n = x mod 2 ^ (8 * Z.of_nat n).
Proof.
  intros (H0 & H1 & ->)%write_at_spec. rewrite le_bytes_length in *. apply field_le. rewrite length_take. lia.
Qed.

Lemma field_agree t a b off n : agree t a b -> 0 <= off -> (forall i, off <= i < off + Z.of_nat n -> ~ t i) -> field b off n = field a off n.
Proof.
  intros [Hl H] H0 Ht. unfold field. f_equal. apply list_eq. intros i. destruct (decide (i < n)%nat).
  - rewrite !lookup_take_lt, !lookup_drop by lia. apply H. apply Ht. lia.
  - by rewrite !lookup_take_ge by lia.
Qed.

Lemma le_value_app a b : le_value (a ++ b) = le_value a + 2 ^ (8 * Z.of_nat (length a)) * le_value b.
Proof.
  induction a as [|x a IH]; [cbn [app length]; change (2 ^ (8 * Z.of_nat 0)) with 1; unfold le_value at 2; cbn [foldr]; lia|].
  cbn [app length le_value foldr]. fold (le_value (a ++ b)) (le_value a). rewrite IH.
  replace (8 * Z.of_nat (S (length a))) with (8 + 8 * Z.of_nat (length a)) by lia. rewrite Z.pow_add_r by lia. change (2 ^ 8) with 256. lia.
Qed.

Lemma field_split m off n k : 0 <= off -> off + Z.of_nat n <= Z.of_nat (length m) ->
  field m off (n + k) = field m off n + 2 ^ (8 * Z.of_nat n) * field m (off + Z.of_nat n) k.
Proof.
  intros H0 H1. unfold field. rewrite <- take_take_drop, le_value_app, length_take, length_drop.
  replace (n `min` (length m - Z.to_nat off))%nat with n by lia. rewrite drop_drop. do 5 f_equal. lia.
Qed.

(** ** Instructions in memory *)

Definition insn_in (m : list Z) (p : Z) : bpf_insn := decode_insn (field m p 8).

Lemma insn_imm m p : bytes_ok m -> 0 <= p -> p + 8 <= Z.of_nat (length m) -> imm (insn_in m p) = s32 (field m (p + 4) 4).
Proof.
  intros Hm H0 H1. unfold insn_in, decode_insn. cbn [imm]. change 8%nat with (4 + 4)%nat. rewrite (field_split m p 4 4) by lia.
  pose proof (field_range m p 4 Hm). change (8 * Z.of_nat 4) with 32 in *. change (p + Z.of_nat 4) with (p + 4).
  rewrite Z.mul_comm, Z.div_add by lia. rewrite Z.div_small by lia. done.
Qed.

(** The second byte of an instruction: two register numbers. *)
Lemma insn_regs m p : bytes_ok m -> 0 <= p -> p + 8 <= Z.of_nat (length m) ->
  dst_reg (insn_in m p) = field m (p + 1) 1 mod 2 ^ 4 /\ src_reg (insn_in m p) = field m (p + 1) 1 / 2 ^ 4.
Proof.
  intros Hm H0 H1. unfold insn_in, decode_insn. cbn [dst_reg src_reg]. change 8%nat with (1 + 7)%nat. rewrite (field_split m p 1 7) by lia. change 7%nat with (1 + 6)%nat. rewrite (field_split m (p + Z.of_nat 1) 1 6) by lia.
  pose proof (field_range m p 1 Hm). pose proof (field_range m (p + 1) 1 Hm).
  change (8 * Z.of_nat 1) with 8 in *. change (p + Z.of_nat 1) with (p + 1).
  set (a := field m p 1) in *. set (b := field m (p + 1) 1) in *. set (c := field m (p + 1 + Z.of_nat 1) 6).
  change (2 ^ 8) with 256 in *. change (2 ^ 4) with 16. change (2 ^ 12) with (256 * 16).
  assert ((a + 256 * (b + 256 * c)) / 256 = b + 256 * c) as E by (rewrite Z.mul_comm, Z.div_add by lia; rewrite Z.div_small by lia; lia).
  rewrite <- Z.div_div by lia. rewrite E. split; Z.to_euclidean_division_equations; lia.
Qed.

(** ** The meaning of a relocation *)

(** The value the pair of instructions at [p] loads ([Interp.ld]). *)
Definition lddw_value (m : list Z) (p : Z) : Z :=
  Z.lor (u64 (Z.shiftl (imm (insn_in m (p + 8))) 32)) (u32 (imm (insn_in m p))).
(** Where the call at [p], executed at the address [site], goes ([Interp.jmp]). *)
Definition callee (m : list Z) (p site : Z) : Z := u64 (site + INSN_SIZE + imm (insn_in m p) * INSN_SIZE).

(** A call reaches whole instructions within 2^31 of its own. *)
Definition reaches (site tgt : Z) : Prop :=
  0 <= site < 2 ^ 64 /\ 0 <= tgt < 2 ^ 64 /\ (tgt - site) mod 8 = 0 /\ - 2 ^ 34 + 8 <= tgt - site <= 2 ^ 34.

Lemma lddw_halves V : 0 <= V < 2 ^ 64 -> Z.lor (u64 (Z.shiftl (s32 (V / 2 ^ 32)) 32)) (u32 (s32 V)) = V.
Proof.
  intros HV. rewrite uwrap_sval by lia.
  assert (u64 (Z.shiftl (s32 (V / 2 ^ 32)) 32) = Z.shiftl (V / 2 ^ 32) 32) as ->.
  { rewrite !Z.shiftl_mul_pow2 by lia. unfold sval. rewrite (Z.mod_small (V / 2 ^ 32)) by (Z.to_euclidean_division_equations; lia). cbn zeta.
    zcases.
    - apply uwrap_small. Z.to_euclidean_division_equations; lia.
    - unfold uwrap. rewrite Z.mul_sub_distr_r. change (2 ^ 32 * 2 ^ 32) with (1 * 2 ^ 64).
      rewrite <- (Z_mod_plus_full _ 1). rewrite Z.mod_small; Z.to_euclidean_division_equations; lia. }
  rewrite Z.lor_comm, lor_shiftl_add by first [lia | unfold uwrap; apply Z.mod_pos_bound; lia]. unfold uwrap.
  pose proof (Z.div_mod V (2 ^ 32) ltac:(lia)). lia.
Qed.

Lemma callee_imm tgt site : reaches site tgt -> u64 (site + INSN_SIZE + s32 (call_imm tgt site) * INSN_SIZE) = tgt.
Proof.
  intros (Hs & Ht & Hm & Hr). unfold call_imm, INSN_SIZE. rewrite (sval_unique 64 (tgt - site) (tgt - site)) by lia || done.
  assert (exists q, tgt - site = 8 * q) as [q Hq] by (exists ((tgt - site) / 8); Z.to_euclidean_division_equations; lia).
  rewrite Hq. rewrite (Z.mul_comm 8 q), Z.quot_mul by lia.
  assert (s32 (q - 1) = q - 1) as -> by (apply sval_unique; lia || done). rewrite (sval_unique 32 (q - 1) (q - 1)) by lia || done.
  replace (site + 8 + (q - 1) * 8) with tgt by lia. by apply uwrap_small.
Qed.

(** The fields a relocation writes. *)
Definition writes_at (type p i : Z) : Prop :=
  if type =? 1 then p + 4 <= i < p + 8 \/ p + 12 <= i < p + 16
  else if type =? 2 then p <= i < p + 8
  else if type =? 10 then p + 1 <= i < p + 2 \/ p + 4 <= i < p + 8
  else if type =? 4 then p <= i < p + 4
  else False.

(** The fields an instruction or a word at a relocation consists of. *)
Definition reads_at (type p i : Z) : Prop :=
  if type =? 1 then p <= i < p + 16 else if type =? 4 then p <= i < p + 4 else p <= i < p + 8.

(** Where a call goes: the definition, or the stub of a name defined nowhere. *)
Definition call_target (L : Linker) (s : LoadedSym) (resolved : option Z) : Z :=
  match resolved with Some a => a | None => default 0 (l_plt_addr L !! sy_name s) end.

(** What the bytes at [p] mean after the relocation [r]: [site] is the address
    of [p], [resolved] the address of the symbol [s]. *)
Definition relocated (op : Options) (L : Linker) (m : list Z) (p site : Z) (r : LoadedReloc) (s : LoadedSym) (resolved : option Z) : Prop :=
  let V := default 0 resolved + rl_addend r in
  let t := rl_type r in
  if t =? 1 then pic op = true \/ lddw_value m p = u64 V
  else if t =? 2 then pic op = true \/ field m p 8 = u64 V
  else if t =? 4 then field m p 4 = u32 V
  else if t =? 10 then
    if is_fp_ksym (sy_name s)
    then exists id, parse_fp_ksym_id (sy_name s) = Some id /\ src_reg (insn_in m p) = 1 + 1 /\ u32 (imm (insn_in m p)) = id
    else reaches site (call_target L s resolved) -> callee m p site = call_target L s resolved
  else True.

Lemma insn_agree t a b p : agree t a b -> 0 <= p -> (forall i, p <= i < p + 8 -> ~ t i) -> insn_in b p = insn_in a p.
Proof. intros Hab H0 Ht. unfold insn_in. by rewrite (field_agree t a b) by (done || lia). Qed.

(** Writes elsewhere do not change the meaning. *)
Lemma relocated_agree op L t a b p site r s v :
  0 <= p -> agree t a b -> (forall i, reads_at (rl_type r) p i -> ~ t i) -> relocated op L a p site r s v -> relocated op L b p site r s v.
Proof.
  intros H0 Hab Ht. unfold relocated, reads_at, lddw_value, callee in *.
  destruct (rl_type r =? 1).
  { rewrite (insn_agree t a b p), (insn_agree t a b (p + 8)); try done; try lia; intros i Hi; apply Ht; lia. }
  destruct (Z.eqb_spec (rl_type r) 2) as [E|]; [rewrite E in Ht; change (2 =? 4) with false in Ht; by rewrite (field_agree t a b) by (done || lia)|].
  destruct (rl_type r =? 4); [by rewrite (field_agree t a b) by (done || lia)|].
  by rewrite (insn_agree t a b p).
Qed.

(** ** One relocation *)

Lemma inside_done {A} (o : option A) a : inside o = Done a -> o = Some a.
Proof. destruct o; cbn; congruence. Qed.

Lemma write4_imm m p x m' : write_at m (p + 4) (le_bytes 4 x) = Some m' -> bytes_ok m -> 0 <= p ->
  imm (insn_in m' p) = s32 x /\ bytes_ok m' /\ agree (fun i => p + 4 <= i < p + 8) m m'.
Proof.
  intros Hw Hm H0. assert (bytes_ok m') as Hm' by (eapply write_at_bytes; [done|done|apply le_bytes_is_byte]).
  pose proof (write_at_agree _ _ _ _ Hw) as Ha. rewrite le_bytes_length in Ha. change (Z.of_nat 4) with 4 in Ha.
  pose proof Hw as (_ & Hlen & _)%write_at_spec. rewrite le_bytes_length in Hlen.
  split_and!; [|done|eapply agree_weaken; [|done]; cbn; lia].
  rewrite insn_imm by (done || rewrite ?(proj1 Ha); lia). rewrite (write_at_field _ _ 4 x _ Hw). apply (sval_uwrap 32).
Qed.

Lemma patch_64_value m p V m' : patch_64 m p V = Some m' -> bytes_ok m -> 0 <= p -> 0 <= V < 2 ^ 64 ->
  lddw_value m' p = V /\ bytes_ok m' /\ agree (writes_at 1 p) m m'.
Proof.
  unfold patch_64. intros Hw Hm H0 HV. destruct (write_at m (p + 4) _) as [m1|] eqn:W1; [|done]. cbn [mbind option_bind] in Hw.
  destruct (write4_imm _ _ _ _ W1 Hm H0) as (I1 & Hm1 & A1).
  replace (p + 12) with (p + 8 + 4) in Hw by lia. destruct (write4_imm _ _ _ _ Hw Hm1 ltac:(lia)) as (I2 & Hm2 & A2).
  split_and!; [|done|].
  - unfold lddw_value. rewrite I2. rewrite (insn_agree _ _ _ p A2) by (lia || (cbn; lia)). rewrite I1.
    rewrite Z.shiftr_div_pow2 by lia. by apply lddw_halves.
  - eapply agree_trans; (eapply agree_weaken; [|done]); unfold writes_at; cbn; lia.
Qed.

Lemma patch_fp_value m p id m' : patch_fp m p id = Some m' -> bytes_ok m -> 0 <= p -> 0 <= id < 2 ^ 32 ->
  src_reg (insn_in m' p) = 1 + 1 /\ u32 (imm (insn_in m' p)) = id /\ bytes_ok m' /\ agree (writes_at 10 p) m m'.
Proof.
  unfold patch_fp. intros Hw Hm H0 Hid. destruct (read_at m (p + 1) 1) as [b|] eqn:R; [|done]. cbn [mbind option_bind] in Hw.
  apply read_at_field in R as (_ & _ & ->). set (b := field m (p + 1) 1) in *.
  pose proof (field_range m (p + 1) 1 Hm) as Hb. fold b in Hb. change (2 ^ (8 * Z.of_nat 1)) with 256 in Hb.
  assert (Z.lor (Z.land b 0x0f) 0x20 = b mod 16 + 32) as E.
  { change 0x20 with (Z.shiftl 2 4). change 0x0f with (2 ^ 4 - 1). rewrite land_mask by lia. change (2 ^ 4) with 16.
    rewrite (lor_shiftl_add (b mod 16) 2 4) by first [lia | apply Z.mod_pos_bound; lia]. done. }
  rewrite E in Hw. pose proof (Z.mod_pos_bound b 16 ltac:(lia)) as Hb16.
  destruct (write_at m (p + 1) _) as [m1|] eqn:W1; [|done]. cbn [mbind option_bind] in Hw.
  assert (bytes_ok m1) as Hm1 by (eapply write_at_bytes; [done|done|apply Forall_singleton; unfold is_byte; lia]).
  pose proof (write_at_agree _ _ _ _ W1) as A1. cbn [length] in A1.
  destruct (write4_imm _ _ _ _ Hw Hm1 H0) as (I2 & Hm2 & A2).
  pose proof Hw as (_ & Hlen & _)%write_at_spec. rewrite le_bytes_length in Hlen.
  split_and!; [| |done|].
  - destruct (insn_regs m' p Hm2 H0 ltac:(rewrite (proj1 A2); lia)) as [_ ->].
    rewrite (field_agree _ _ _ (p + 1) 1 A2) by (cbn; lia).
    change [b mod 16 + 32] with ([b mod 16 + 32] : list Z) in W1.
    assert ([b mod 16 + 32] = le_bytes 1 (b mod 16 + 32)) as El by (unfold le_bytes; rewrite (Z.mod_small (b mod 16 + 32)) by lia; done).
    rewrite El in W1. rewrite (write_at_field _ _ _ _ _ W1). change (2 ^ (8 * Z.of_nat 1)) with 256. rewrite (Z.mod_small (b mod 16 + 32)) by lia.
    change (2 ^ 4) with 16. Z.to_euclidean_division_equations; lia.
  - rewrite I2. rewrite uwrap_sval by lia. by apply uwrap_small.
  - eapply agree_trans; (eapply agree_weaken; [|done]); unfold writes_at; cbn; lia.
Qed.

Lemma fp_id_range name id : parse_fp_ksym_id name = Some id -> 0 <= id < 2 ^ 32.
Proof. unfold parse_fp_ksym_id. destruct (strtoul _) as [[[neg v] [|]]|]; [|done|done]. intros [= <-]. apply u32_range. Qed.

(** The case the code passes over: a name another module provides. *)
Definition passed_over (L : Linker) (r : LoadedReloc) (s : LoadedSym) (resolved : option Z) : bool :=
  bool_decide (resolved = None) && negb (is_fp_ksym (sy_name s))
  && negb ((rl_type r =? 10) && l_got_enabled L && bool_decide (is_Some (l_plt_addr L !! sy_name s))).

Lemma call_target_code L r s resolved :
  rl_type r = 10 -> is_fp_ksym (sy_name s) = false -> passed_over L r s resolved = false ->
  match resolved with Some a => a | None => if l_got_enabled L then default (default 0 resolved) (l_plt_addr L !! sy_name s) else default 0 resolved end
  = call_target L s resolved.
Proof.
  intros Ht Hf. unfold passed_over, call_target. rewrite Hf, Ht. destruct resolved as [a|]; [by intros _|].
  rewrite bool_decide_eq_true_2 by done. cbn. by destruct (l_got_enabled L).
Qed.

Lemma apply_one_relocated op L secs m r target s resolved m' :
  apply_one op L secs m r target s resolved = Done m' -> passed_over L r s resolved = false ->
  bytes_ok m -> 0 <= ls_offset target -> 0 <= rl_offset r ->
  let p := ls_offset target + rl_offset r in
  agree (writes_at (rl_type r) p) m m' /\ bytes_ok m' /\
  relocated op L m' p (u64 (ls_guest_addr target + rl_offset r)) r s resolved.
Proof.
  intros Hap Hpass Hm Ho Hr p. unfold apply_one in Hap. fold p in Hap. assert (0 <= p) as Hp by (unfold p; lia).
  destruct (_ <? _); [done|]. unfold relocated.
  destruct (Z.eqb_spec (rl_type r) 1) as [E|E1].
  { rewrite E. destruct (pic op) eqn:Ep; [injection Hap as <-; split_and!; [apply agree_refl|done|by left]|].
    apply inside_done, patch_64_value in Hap as (H1 & H2 & H3); [|done|done|apply u64_range]. split_and!; [done|done|by right]. }
  destruct (Z.eqb_spec (rl_type r) 2) as [E|E2].
  { rewrite E. destruct (pic op) eqn:Ep; [injection Hap as <-; split_and!; [apply agree_refl|done|by left]|].
    apply inside_done in Hap. split_and!; [by apply write_at_agree in Hap|by eapply write_at_bytes; [done|done|apply le_bytes_is_byte]|].
    right. rewrite (write_at_field _ _ 8 _ _ Hap). apply uwrap_small. apply u64_range. }
  destruct (Z.eqb_spec (rl_type r) 10) as [E|E10].
  - rewrite E in *. cbn [Z.eqb Pos.eqb]. destruct (is_fp_ksym (sy_name s)) eqn:Ef.
    + destruct (parse_fp_ksym_id (sy_name s)) as [id|] eqn:Eid; [|done]. apply inside_done, patch_fp_value in Hap as (H1 & H2 & H3 & H4);
        [|done|done|by eapply fp_id_range]. split_and!; [done|done|]. by exists id.
    + apply inside_done in Hap. rewrite (call_target_code L r) in Hap by done.
      apply write4_imm in Hap as (HI & Hm' & Ha); [|done|done]. split_and!; [|done|].
      * eapply agree_weaken; [|done]. unfold writes_at. cbn. lia.
      * intros Hre. unfold callee. rewrite HI. by apply callee_imm.
  - destruct (Z.eqb_spec (rl_type r) 4) as [E|E4].
    + rewrite E. apply inside_done in Hap. split_and!; [by apply write_at_agree in Hap|by eapply write_at_bytes; [done|done|apply le_bytes_is_byte]|].
      exact (write_at_field _ _ 4 _ _ Hap).
    + injection Hap as <-. split_and!; [apply agree_refl|done|done].
Qed.

(** ** The relocations of an object *)

#[export] Instance LoadedReloc_eq_dec : EqDecision LoadedReloc.
Proof. solve_decision. Defined.

(** The section and the offset a relocation patches. *)
Definition place (secs : list LoadedSection) (r : LoadedReloc) : option (LoadedSection * Z) :=
  t ← get secs (rl_target_sec r); if ls_loadable t then Some (t, ls_offset t + rl_offset r) else None.

Definition writes (secs : list LoadedSection) (r : LoadedReloc) (i : Z) : Prop :=
  exists t p, place secs r = Some (t, p) /\ writes_at (rl_type r) p i.

Definition offsets_ok (secs : list LoadedSection) (l : list LoadedReloc) : Prop :=
  Forall (fun s => 0 <= ls_offset s) secs /\ Forall (fun r => 0 <= rl_offset r) l.

(** [r] is not disturbed by another relocation. *)
Definition apart (secs : list LoadedSection) (l : list LoadedReloc) (r : LoadedReloc) : Prop :=
  forall r' t p i, r' ∈ l -> r' <> r -> place secs r = Some (t, p) -> reads_at (rl_type r) p i -> ~ writes secs r' i.

(** [r] is resolved, and what it patched means what it should. *)
Definition done_right (op : Options) (L : Linker) (oi : nat) (secs : list LoadedSection) (m : list Z) (r : LoadedReloc) : Prop :=
  forall t p, place secs r = Some (t, p) ->
  exists v s, resolve_symbol op L oi (rl_sym_idx r) = Done v /\ nth_sym (l_objects L) oi (rl_sym_idx r) = Some s /\
    (passed_over L r s v = false -> relocated op L m p (u64 (ls_guest_addr t + rl_offset r)) r s v).

Lemma place_pos secs l r t p : offsets_ok secs l -> r ∈ l -> place secs r = Some (t, p) -> 0 <= ls_offset t /\ 0 <= rl_offset r /\ p = ls_offset t + rl_offset r.
Proof.
  intros [Hs Hl] Hr Hp. unfold place in Hp. destruct (get secs (rl_target_sec r)) as [t'|] eqn:G; [|done]. cbn in Hp.
  destruct (ls_loadable t'); [|done]. injection Hp as <- <-. apply get_elem in G. rewrite list.Forall_forall in Hs. rewrite list.Forall_forall in Hl.
  split; [by apply Hs|]. split; [by apply Hl|done].
Qed.

Lemma apply_reloc_right op L oi secs l m r m' :
  apply_reloc op L oi secs m r = Done m' -> bytes_ok m -> offsets_ok secs l -> r ∈ l ->
  bytes_ok m' /\ agree (writes secs r) m m' /\ done_right op L oi secs m' r.
Proof.
  intros Ha Hm Hok Hr. unfold apply_reloc in Ha. destruct (get secs (rl_target_sec r)) as [t|] eqn:G.
  2: { injection Ha as <-. split_and!; [done|apply agree_refl|]. intros t p Hp. unfold place in Hp. by rewrite G in Hp. }
  destruct (ls_loadable t) eqn:Lt; cbn [negb] in Ha.
  2: { injection Ha as <-. split_and!; [done|apply agree_refl|]. intros t' p Hp. unfold place in Hp. rewrite G in Hp. cbn in Hp. by rewrite Lt in Hp. }
  assert (place secs r = Some (t, ls_offset t + rl_offset r)) as Hpl by (unfold place; rewrite G; cbn; by rewrite Lt).
  destruct (place_pos _ _ _ _ _ Hok Hr Hpl) as (H1 & H2 & _).
  destruct (resolve_symbol op L oi (rl_sym_idx r)) as [v| |] eqn:Ev; [|done|done]. cbn [rbind] in Ha.
  destruct (nth_sym (l_objects L) oi (rl_sym_idx r)) as [s|] eqn:Es; [|done]. cbn [inside rbind] in Ha.
  fold (passed_over L r s v) in Ha. unfold done_right. destruct (passed_over L r s v) eqn:Ep.
  - injection Ha as <-. split_and!; [done|apply agree_refl|]. intros t' p Hp. exists v, s. rewrite Ep. done.
  - apply apply_one_relocated in Ha as (A1 & A2 & A3); [|done..]. split_and!; [done| |].
    + eapply agree_weaken; [|done]. intros i Hi. by exists t, (ls_offset t + rl_offset r).
    + intros t' p Hp. rewrite Hpl in Hp. injection Hp as <- <-. by exists v, s.
Qed.

Lemma done_right_agree op L oi secs l a b r (t : Z -> Prop) :
  offsets_ok secs l -> r ∈ l -> agree t a b -> (forall sec p i, place secs r = Some (sec, p) -> reads_at (rl_type r) p i -> ~ t i) ->
  done_right op L oi secs a r -> done_right op L oi secs b r.
Proof.
  intros Hok Hr Hab Ht H sec p Hp. destruct (H _ _ Hp) as (v & s & H1 & H2 & H3). exists v, s. split_and!; [done|done|]. intros Hpass.
  destruct (place_pos _ _ _ _ _ Hok Hr Hp) as (? & ? & ->). eapply relocated_agree; [|done| |by apply H3]; [lia|]. intros i Hi. by eapply Ht.
Qed.

(** All relocations of a list are carried out, each undisturbed by the others. *)
Lemma apply_relocs_right op L oi secs l todo m m' :
  rfold (apply_reloc op L oi secs) m todo = Done m' -> bytes_ok m -> offsets_ok secs l -> (forall r, r ∈ todo -> r ∈ l) ->
  bytes_ok m' /\ agree (fun i => exists r, r ∈ todo /\ writes secs r i) m m' /\
  forall r, r ∈ todo -> apart secs l r -> done_right op L oi secs m' r.
Proof.
  revert m. induction todo as [|x todo IH]; intros m Hf Hm Hok Hin.
  - injection Hf as <-. split_and!; [done|apply agree_refl|]. by intros r ?%elem_of_nil.
  - cbn in Hf. destruct (apply_reloc op L oi secs m x) as [m1| |] eqn:E1; [|done|done]. cbn in Hf.
    destruct (apply_reloc_right _ _ _ _ l _ _ _ E1 Hm Hok ltac:(apply Hin; by left)) as (Hm1 & A1 & D1).
    destruct (IH m1 Hf Hm1 Hok ltac:(intros; apply Hin; by right)) as (Hm' & A2 & D2). split_and!; [done| |].
    + eapply agree_trans; (eapply agree_weaken; [|done]).
      * intros i Hi. exists x. split; [by left|done].
      * intros i (r & Hr & Hi). exists r. split; [by right|done].
    + intros r Hr Hap. destruct (decide (r ∈ todo)) as [Ht|Ht]; [by apply D2|].
      apply elem_of_cons in Hr as [->|Hr]; [|done]. eapply (done_right_agree _ _ _ _ l); [done|apply Hin; by left|exact A2| |done].
      intros sec p i Hp Hi (r' & Hr' & Hw). eapply (Hap r' sec p i); try done; [apply Hin; by right|by intros ->].
Qed.

(** ** All objects *)

(** Nothing the resolution of symbols looks at differs. *)
Definition like (o o' : LoadedObject) : Prop :=
  o_sections o' = o_sections o /\ o_symbols o' = o_symbols o /\ o_relocations o' = o_relocations o /\
  o_stack_sizes_secs o' = o_stack_sizes_secs o.
Definition alike (L L' : Linker) : Prop :=
  Forall2 like (l_objects L) (l_objects L') /\ l_globals L' = l_globals L /\ l_synthetic L' = l_synthetic L /\
  l_plt_addr L' = l_plt_addr L /\ l_got_enabled L' = l_got_enabled L.

#[export] Instance like_preorder : PreOrder like.
Proof. split; [done|]. intros a b c (A1 & A2 & A3 & A4) (B1 & B2 & B3 & B4). repeat split; congruence. Qed.
Lemma like_set_mem m o : like o (set_mem m o).
Proof. done. Qed.

#[export] Instance alike_preorder : PreOrder alike.
Proof.
  split.
  - intros L. by split.
  - intros L1 L2 L3 (A0 & A1 & A2 & A3 & A4) (B0 & B1 & B2 & B3 & B4). split; [by etransitivity|split_and!; congruence].
Qed.

Lemma like_lookup L L' oi : alike L L' ->
  match l_objects L !! oi, l_objects L' !! oi with Some o, Some o' => like o o' | None, None => True | _, _ => False end.
Proof.
  intros [H _]. destruct (l_objects L !! oi) as [o|] eqn:E.
  - destruct (Forall2_lookup_l _ _ _ _ _ H E) as (o' & -> & ?). done.
  - apply lookup_ge_None in E. rewrite (Forall2_length _ _ _ H) in E. by rewrite (proj2 (lookup_ge_None _ _) E).
Qed.

Lemma nth_sym_alike L L' oi si : alike L L' -> nth_sym (l_objects L') oi si = nth_sym (l_objects L) oi si.
Proof.
  intros H. pose proof (like_lookup _ _ oi H) as Hl. unfold nth_sym. destruct (l_objects L !! oi), (l_objects L' !! oi); try done.
  cbn. by rewrite (proj1 (proj2 Hl)).
Qed.

Lemma sym_addr_alike L L' oi s : alike L L' -> sym_addr (l_objects L') oi s = sym_addr (l_objects L) oi s.
Proof.
  intros H. pose proof (like_lookup _ _ oi H) as Hl. unfold sym_addr. destruct (l_objects L !! oi), (l_objects L' !! oi); try done.
  cbn. by rewrite (proj1 Hl).
Qed.

Lemma resolve_alike op L L' oi si : alike L L' -> resolve_symbol op L' oi si = resolve_symbol op L oi si.
Proof.
  intros H. unfold resolve_symbol. rewrite (nth_sym_alike _ _ _ _ H). destruct (nth_sym _ _ _) as [s|]; [|done]. cbn [inside rbind].
  rewrite (sym_addr_alike _ _ _ _ H). destruct (_ =? _); [done|]. pose proof H as (_ & -> & -> & _).
  destruct (l_globals L !! _) as [[doi dsi]|]; [|done]. rewrite (nth_sym_alike _ _ _ _ H). destruct (nth_sym _ _ _); [|done]. cbn [inside rbind].
  by rewrite (sym_addr_alike _ _ _ _ H).
Qed.

Lemma done_right_alike op L L' oi secs m r : alike L L' -> done_right op L oi secs m r -> done_right op L' oi secs m r.
Proof.
  intros H Hd t p Hp. destruct (Hd t p Hp) as (v & s & H1 & H2 & H3). exists v, s.
  rewrite (resolve_alike _ _ _ _ _ H), (nth_sym_alike _ _ _ _ H). pose proof H as (_ & _ & _ & Epl & Eg).
  split_and!; [done|done|]. unfold passed_over, relocated, call_target in *. rewrite Epl, Eg. done.
Qed.

Lemma alike_set_mem L oi o m : l_objects L !! oi = Some o -> alike L (set_objects (<[oi := set_mem m o]> (l_objects L)) L).
Proof.
  intros Ho. split; [|done]. cbn. apply Forall2_same_length_lookup. split; [by rewrite length_insert|].
  intros i x y Hx Hy. destruct (decide (i = oi)) as [->|E].
  - rewrite list_lookup_insert_eq in Hy by (by eapply lookup_lt_Some). rewrite Ho in Hx. injection Hx as <-. injection Hy as <-. apply like_set_mem.
  - rewrite list_lookup_insert_ne in Hy by done. rewrite Hx in Hy. by injection Hy as <-.
Qed.

(** What a link did to an object: [o] before the relocations, [o'] after. *)
Definition linked (op : Options) (L : Linker) (oi : nat) (o o' : LoadedObject) : Prop :=
  like o o' /\ bytes_ok (o_mem o') /\
  agree (fun i => exists r, r ∈ o_relocations o /\ writes (o_sections o) r i) (o_mem o) (o_mem o') /\
  forall r, r ∈ o_relocations o -> apart (o_sections o) (o_relocations o) r -> done_right op L oi (o_sections o) (o_mem o') r.

Definition object_ok (o : LoadedObject) : Prop := bytes_ok (o_mem o) /\ offsets_ok (o_sections o) (o_relocations o).

Lemma apply_relocations_linked op L oi L' : apply_relocations op L oi = Done L' ->
  alike L L' /\ exists o m, l_objects L !! oi = Some o /\ l_objects L' = <[oi := set_mem m o]> (l_objects L) /\
  (object_ok o -> linked op L' oi o (set_mem m o)).
Proof.
  unfold apply_relocations. destruct (l_objects L !! oi) as [o|] eqn:Ho; [|done]. cbn [inside rbind].
  destruct (rfold _ _ _) as [m| |] eqn:Ef; [|done|done]. cbn [rbind]. intros [= <-].
  assert (alike L (set_objects (<[oi := set_mem m o]> (l_objects L)) L)) as Hal by (by apply alike_set_mem).
  split; [done|]. exists o, m. split; [done|]. split; [done|]. intros [Hm Hok].
  destruct (apply_relocs_right _ _ _ _ (o_relocations o) _ _ _ Ef Hm Hok ltac:(done)) as (H1 & H2 & H3).
  split; [apply like_set_mem|]. split; [done|]. split; [done|]. intros r Hr Hap. eapply done_right_alike; [done|]. by apply H3.
Qed.

Lemma apply_all_linked op ois L L' : rfold (apply_relocations op) L ois = Done L' -> NoDup ois ->
  alike L L' /\ forall oi o, l_objects L !! oi = Some o -> exists o', l_objects L' !! oi = Some o' /\
    (if decide (oi ∈ ois) then object_ok o -> linked op L' oi o o' else o' = o).
Proof.
  revert L. induction ois as [|x ois IH]; intros L Hf Hn.
  - injection Hf as <-. split; [done|]. intros oi o Ho. exists o. split; [done|]. by rewrite decide_False by apply not_elem_of_nil.
  - apply NoDup_cons in Hn as [Hx Hn]. cbn in Hf. destruct (apply_relocations op L x) as [L1| |] eqn:E1; [|done|done]. cbn in Hf.
    destruct (apply_relocations_linked _ _ _ _ E1) as (A1 & ox & m & Hox & Ho1 & Hl). destruct (IH L1 Hf Hn) as [A2 H2].
    split; [by etransitivity|]. intros oi o Ho. destruct (decide (oi = x)) as [->|E].
    + rewrite Hox in Ho. injection Ho as <-.
      destruct (H2 x (set_mem m ox)) as (o' & Ho' & Hr); [rewrite Ho1; apply list_lookup_insert_eq; by eapply lookup_lt_Some|].
      rewrite decide_False in Hr by done. subst o'. exists (set_mem m ox). split; [done|]. rewrite decide_True by (by left). intros Hok.
      destruct (Hl Hok) as (B1 & B2 & B3 & B4). split; [done|]. split; [done|]. split; [done|]. intros r Hr Hap. eapply done_right_alike; [done|]. by apply B4.
    + destruct (H2 oi o) as (o' & Ho' & Hr); [rewrite Ho1; by rewrite list_lookup_insert_ne by done|]. exists o'. split; [done|].
      destruct (decide (oi ∈ ois)) as [Hin|Hin].
      * by rewrite decide_True by (by right).
      * rewrite decide_False; [done|]. by rewrite not_elem_of_cons.
Qed.
