(* ===== verification/LdRun.v ===== *)
(** * LdRun: a whole link

    From the input files to the relocated program: the objects [load_all]
    delivers are well formed when libelf is ([LibElfFacts]), the later phases
    keep them, and every relocation of a finished link is carried out with the
    final addresses. *)

From S2P Require Import Prelude Bytes HostMem AddrSpace Isa Frame Paths Loader Ld LdDemo LdLayout LdSym LdReloc.
From Stdlib Require Import Lia.
From stdpp Require Import base numbers list gmap strings option sorting.

Open Scope Z_scope.
Open Scope ld_scope.

(** What libelf promises of a section it reports. *)
Definition scn_ok (s : ElfScn) : Prop :=
  0 <= sh_size s /\ (forall d, sc_data s = Some d -> bytes_ok d) /\ Forall (fun r => 0 <= r_offset r) (sc_rels s).
Class LibElfFacts {lib : LibElf} := {
  image_ok : forall d im, elf_image d = Some im -> Forall scn_ok (im_scns im)
}.

(** ** Loading *)

Lemma rfold_keeps {A B} (P : A -> Prop) (f : A -> B -> res A) (l : list B) a a' :
  (forall x y z, P x -> y ∈ l -> f x y = Done z -> P z) -> P a -> rfold f a l = Done a' -> P a'.
Proof.
  revert a. induction l as [|b l IH]; intros a Hf Ha; cbn; [by intros [= <-]|].
  destruct (f a b) as [a1| |] eqn:E; [|done|done]. cbn. apply IH; [|eapply Hf; [done|by left|done]]. intros x y z Hx Hy. apply Hf; [done|by right].
Qed.

Lemma rmap_forall {A B} (P : B -> Prop) (f : A -> res B) (l : list A) bs :
  (forall a b, a ∈ l -> f a = Done b -> P b) -> rmap f l = Done bs -> Forall P bs.
Proof.
  revert bs. induction l as [|a l IH]; intros bs Hf; cbn; [intros [= <-]; by apply list.Forall_nil|].
  destruct (f a) as [b| |] eqn:E; [|done|done]. cbn. destruct (rmap f l) as [bs'| |]; [|done|done]. cbn. intros [= <-].
  apply list.Forall_cons. split; [by apply (Hf a); [left|]|]. apply IH; [|done]. intros x y Hx. apply Hf. by right.
Qed.

Lemma andnot_nonneg a m : 0 <= a -> 0 <= m -> 0 <= andnot a m.
Proof. intros. unfold andnot. apply Z.ldiff_nonneg. by left. Qed.

Lemma align8_nonneg v : 0 <= align8 v.
Proof. apply andnot_nonneg; [apply u64_range|done]. Qed.

Lemma place_sections_offsets total l : 0 <= total -> Forall (fun s => 0 <= ls_offset s) l -> Forall (fun s => 0 <= ls_offset s) (place_sections total l).1.
Proof.
  revert total. induction l as [|s l IH]; intros total Ht Hl; cbn; [by apply list.Forall_nil|].
  apply list.Forall_cons in Hl as [Hs Hl]. destruct (ls_loadable s).
  - specialize (IH (u64 (align8 total + ls_size s)) (proj1 (u64_range _)) Hl). destruct (place_sections _ l) as [r e]. cbn in *.
    apply list.Forall_cons. split; [apply align8_nonneg|done].
  - specialize (IH total Ht Hl). destruct (place_sections _ l) as [r e]. cbn in *. by apply list.Forall_cons.
Qed.

Lemma copy_section_bytes m p m' : copy_section m p = Done m' -> scn_ok p.2 -> bytes_ok m -> bytes_ok m'.
Proof.
  destruct p as [s scn]. unfold copy_section. intros H (_ & Hd & _) Hm. cbn [snd] in Hd. destruct (negb (ls_loadable s)); [by injection H as <-|].
  destruct (negb _); [by injection H as <-|]. destruct (sc_data scn) as [[|b d]|]; [by injection H as <-| |by injection H as <-].
  apply inside_done in H. eapply write_at_bytes; [done|done|by apply Hd].
Qed.

Lemma load_reloc_offset secs syms m ds scn r b : load_reloc secs syms m ds scn r = Done b -> 0 <= r_offset r -> 0 <= rl_offset b.
Proof.
  unfold load_reloc. intros H H0. destruct (_ =? _); [by injection H as <-|].
  destruct (embedded_addend _ _ _ _ _ _ _ _); [|done|done]. by injection H as <-.
Qed.

Section Facts.
Context {lib : LibElf} {facts : LibElfFacts}.

Definition linker_ok (L : Linker) : Prop := Forall object_ok (l_objects L).

(** What loading leaves alone. *)
Definition fresh (L : Linker) : Prop :=
  l_globals L = ∅ /\ l_synthetic L = ∅ /\ l_plt_entries L = ∅ /\ l_got_slots L = ∅ /\ l_plt_addr L = ∅ /\ l_got_enabled L = false.

Lemma load_rel_memory_ok op data name L L' : load_rel_memory op data name L = Done L' ->
  linker_ok L /\ fresh L -> linker_ok L' /\ fresh L'.
Proof.
  unfold load_rel_memory. destruct (elf_image data) as [im|] eqn:Ei; [|done]. apply image_ok in Ei.
  destruct (negb _); [done|].
  pose proof (place_sections_offsets 0 (load_section (op_mode op) <$> im_scns im) ltac:(done)) as Hoff.
  destruct (place_sections 0 _) as [placed total]. cbn [fst] in Hoff.
  destruct (_ <? _); [done|]. destruct (_ <? _); [done|].
  destruct (rfold copy_section _ _) as [m| |] eqn:Em; [|done|done]. cbn [rbind].
  destruct (load_relocs _ _ _ _ _) as [rels| |] eqn:Er; [|done|done]. cbn [rbind].
  intros [= <-] [Hok Hfr]. split; [|done]. unfold linker_ok. cbn. apply Forall_app. split; [done|]. apply Forall_singleton.
  split; cbn.
  - refine (rfold_keeps bytes_ok _ _ _ _ _ _ Em); [|by apply Forall_replicate].
    intros x y z Hx Hy Hz. eapply copy_section_bytes; [done| |done]. rewrite list.Forall_forall in Ei. apply Ei.
    destruct y as [s scn]. rewrite list_elem_of_In in Hy. apply in_combine_r in Hy. by apply list_elem_of_In.
  - split.
    + apply list.Forall_cons. split; [done|]. apply Forall_fmap. eapply list.Forall_impl; [apply Hoff|].
      * apply Forall_fmap, list.Forall_forall. intros s _. cbn. done.
      * intros s Hs. cbn. unfold preset_addr. by destruct (ls_loadable s).
    + apply Forall_fmap. unfold load_relocs in Er.
      assert (Forall (fun r => 0 <= rl_offset r) rels) as Hr.
      { eapply rmap_forall; [|exact Er]. intros [scn r] b Hin Hl. apply list_elem_of_bind in Hin as (y & Hy & Hs).
        apply list_elem_of_fmap in Hy as (r' & [= <- <-] & Hr). apply list_elem_of_filter in Hs as [_ Hs].
        rewrite list.Forall_forall in Ei. destruct (Ei _ Hs) as (_ & _ & Hrels). rewrite list.Forall_forall in Hrels.
        by eapply load_reloc_offset, Hrels. }
      eapply list.Forall_impl; [done|]. intros r H0. cbn. unfold shift_reloc. destruct (slotted_at _ _); [apply u64_range|done].
Qed.

Definition loaded_ok (L : Linker) : Prop := linker_ok L /\ fresh L.

Lemma load_rel_file_ok op p L L' : load_rel_file op p L = Done L' -> loaded_ok L -> loaded_ok L'.
Proof. unfold load_rel_file. destruct (read_file p); [|done]. apply load_rel_memory_ok. Qed.

Lemma load_archive_ok op p L L' : load_archive_file op p L = Done L' -> loaded_ok L -> loaded_ok L'.
Proof.
  unfold load_archive_file. intros H HL. destruct (read_file p) as [d|]; [|by injection H as <-].
  destruct (parse_archive d) as [ms| |]; [|by injection H as <-|done]. refine (rfold_keeps loaded_ok _ _ _ _ _ HL H).
  intros x y z Hx _. unfold load_member. destruct (load_rel_memory _ _ _ _) as [x'| |] eqn:E; [|by intros [= <-]|done].
  intros [= <-]. by eapply load_rel_memory_ok.
Qed.

Lemma load_bpfso_ok p L L' : load_bpfso_symbols p L = Done L' -> loaded_ok L -> loaded_ok L'.
Proof.
  unfold load_bpfso_symbols. intros H HL. destruct (read_file p) as [d|]; [|done]. destruct (elf_image d) as [im|]; [|done].
  destruct (last_scn _ _) as [ds|]; [|done]. destruct (sc_data ds); [|done]. destruct (foldl _ _ _) as [b u].
  destruct (_ ≫= sc_data) as [dd|]; [|by injection H as <-]. destruct (_ ≫= sc_data) as [dy|]; [|by injection H as <-].
  destruct (soname_of _ _ _) as [so| |]; [|done|done]. by injection H as <-.
Qed.

Lemma load_input_ok op L p L' : load_input op L p = Done L' -> loaded_ok L -> loaded_ok L'.
Proof.
  unfold load_input. destruct (classify_input p); [apply load_archive_ok|apply load_rel_file_ok|apply load_bpfso_ok|done].
Qed.

Lemma load_all_ok op inputs L : load_all op inputs = Done L -> loaded_ok L.
Proof.
  assert (loaded_ok new_linker) as H0 by (split; [by apply list.Forall_nil|done]).
  assert (forall l L1 L2, loaded_ok L1 -> rfold (load_input op) L1 l = Done L2 -> loaded_ok L2) as Hin.
  { intros l L1 L2 H1. apply (rfold_keeps loaded_ok); [|done]. intros x y z Hx _ Hz. by eapply load_input_ok. }
  unfold load_all. destruct (op_mode op); intros H.
  - destruct (rfold (load_input op) _ _) as [L1| |] eqn:E; [|done|done]. cbn in H. refine (rfold_keeps loaded_ok _ _ _ _ _ (Hin _ _ _ H0 E) H).
    intros x y z Hx _ Hz. by eapply load_archive_ok.
  - destruct (rfold _ new_linker _) as [L1| |] eqn:E; [|done|done]. cbn in H. refine (Hin _ _ _ _ H). refine (rfold_keeps loaded_ok _ _ _ _ _ H0 E).
    intros x y z Hx _ Hz. by eapply load_bpfso_ok.
  - destruct (rfold _ new_linker _) as [L1| |] eqn:E; [|done|done]. cbn in H. exact (Hin _ _ _ (Hin _ _ _ H0 E) H).
  - destruct (rfold _ new_linker _) as [L1| |] eqn:E; [|done|done]. cbn in H. refine (rfold_keeps loaded_ok _ _ _ _ _ _ H).
    + intros x y z Hx _ Hz. by eapply load_archive_ok.
    + refine (rfold_keeps loaded_ok _ _ _ _ _ H0 E). intros x y z Hx _ Hz. destruct (classify_input y); try done; by eapply load_input_ok.
Qed.

(** ** Later phases *)

(** The objects below [n] are as they were. *)
Definition keeps_objects (n : nat) (L L' : Linker) : Prop := forall oi, (oi < n)%nat -> l_objects L' !! oi = l_objects L !! oi.

Lemma stub_entries op L : Forall (fun p : string * (nat * Z) => (length (l_objects L) <= p.2.1)%nat)
  (map_to_list (list_to_map (imap (fun i s => (s, (S (length (l_objects L)), kPltEntrySize * Z.of_nat i + 8))) (stub_names op L)) : gmap string (nat * Z))).
Proof.
  apply list.Forall_forall. intros [s [o f]] Hin. apply elem_of_map_to_list, elem_of_list_to_map_2 in Hin.
  apply list_elem_of_lookup in Hin as [i Hi]. rewrite list_lookup_imap in Hi. apply fmap_Some in Hi as (x & _ & [= -> -> ->]). cbn. lia.
Qed.

Lemma synthesize_got_ok op L L' : synthesize_got_plt op L = Done L' -> l_plt_entries L = ∅ ->
  keeps_objects (length (l_objects L)) L L' /\ (exists os, l_objects L' = l_objects L ++ os /\ Forall (fun o => o_relocations o = []) os) /\ Forall (fun p => (length (l_objects L) <= p.2.1)%nat) (map_to_list (l_plt_entries L')) /\ l_globals L' = l_globals L /\ l_synthetic L' = l_synthetic L.
Proof.
  unfold synthesize_got_plt. intros H He. destruct (stub_names op L) as [|s l] eqn:Es.
  - injection H as <-. split; [done|]. split; [exists []; by rewrite app_nil_r|]. by rewrite He, map_to_list_empty.
  - destruct (_ <? _); [done|]. destruct (_ <? _); [done|]. rewrite <- Es in H. injection H as <-. split; [|split; [|split; [|done]]].
    + intros oi Hoi. cbn. by rewrite lookup_app_l.
    + eexists. split; [done|]. by repeat constructor.
    + apply stub_entries.
Qed.

Lemma finalize_stub_ok n L p L' : finalize_stub L p = Done L' -> (n <= p.2.1)%nat ->
  keeps_objects n L L' /\ length (l_objects L') = length (l_objects L) /\ l_globals L' = l_globals L /\ l_synthetic L' = l_synthetic L.
Proof.
  destruct p as [s [poi poff]]. unfold finalize_stub. cbn. intros H Hn. destruct (l_got_slots L !! s) as [[goi goff]|]; [|by injection H as <-].
  destruct (nth_section _ (goi, 1%nat)); [|done]. destruct (nth_section _ (poi, 1%nat)); [|done]. cbn in H. destruct (l_objects L !! poi) as [po|]; [|done].
  cbn in H. destruct (emit_plt_stub _ _ _) as [m|]; [|done]. injection H as <-. split; [|cbn; by rewrite length_insert].
  intros oi Hoi. cbn. apply list_lookup_insert_ne. lia.
Qed.

Lemma finalize_ok n L L' : finalize_plt_stubs L = Done L' -> Forall (fun p => (n <= p.2.1)%nat) (map_to_list (l_plt_entries L)) ->
  keeps_objects n L L' /\ length (l_objects L') = length (l_objects L) /\ l_globals L' = l_globals L /\ l_synthetic L' = l_synthetic L.
Proof.
  unfold finalize_plt_stubs. intros H Hn.
  refine (rfold_keeps (fun X => keeps_objects n L X /\ length (l_objects X) = length (l_objects L) /\ l_globals X = l_globals L /\ l_synthetic X = l_synthetic L)
    _ _ _ _ _ _ H); [|done].
  intros x y z (Hx1 & Hx2 & Hx3 & Hx4) Hy Hz. rewrite list.Forall_forall in Hn. destruct (finalize_stub_ok n _ _ _ Hz (Hn _ Hy)) as (H1 & H2 & H3 & H4).
  split; [|split_and!; congruence]. intros oi Hoi. by rewrite H1, Hx1.
Qed.

Lemma layout_object op L oi o : l_objects L !! oi = Some o ->
  l_objects (layout_segments op L) !! oi = Some (assign_object (layout_table (guest_base op) (l_objects L)) oi o).
Proof. intros Ho. cbn. by rewrite list_lookup_imap, Ho. Qed.

Lemma assign_object_ok t oi o : object_ok o -> object_ok (assign_object t oi o).
Proof.
  intros (H1 & H2 & H3). split; [done|]. split; [|done]. cbn. apply list.Forall_forall. intros s Hs.
  apply list_elem_of_lookup in Hs as [i Hi]. rewrite list_lookup_imap in Hi. apply fmap_Some in Hi as (x & Hx & ->).
  apply list_elem_of_lookup_2 in Hx. rewrite list.Forall_forall in H2. specialize (H2 _ Hx). unfold assign_section. by destruct (t !! _).
Qed.

Definition after_layout (op : Options) (L : Linker) : Linker :=
  define_section_boundary_symbols (define_init_fini_symbols (layout_segments op L)).

Lemma after_layout_objects op L : l_objects (after_layout op L) = l_objects (layout_segments op L).
Proof. done. Qed.

(** The states between the phases of a link. *)
Lemma run_link_phases op L0 L : run_link op L0 = Done L ->
  exists L1 L2 L3 e,
    let Lr := presynthesize (register_all L0) in
    (op_mode op = SHARED_LIB \/ check_undefined_symbols Lr = true) /\
    (if pic op then synthesize_got_plt op Lr else Done Lr) = Done L1 /\
    (if l_got_enabled (after_layout op L1) then finalize_plt_stubs (after_layout op L1) else Done (after_layout op L1)) = Done L2 /\
    rfold (apply_relocations op) L2 (seq 0 (length (l_objects L2))) = Done L3 /\ find_entry op L3 = Done e /\ L = set_entry e L3.
Proof.
  unfold run_link. intros H. destruct (_ && _) eqn:Ec; [done|].
  destruct (if pic op then _ else _) as [L1| |] eqn:E1; [|done|done]. cbn [rbind] in H.
  fold (after_layout op L1) in H. destruct (if l_got_enabled _ then _ else _) as [L2| |] eqn:E2; [|done|done]. cbn [rbind] in H.
  destruct (rfold _ L2 _) as [L3| |] eqn:E3; [|done|done]. cbn [rbind] in H.
  destruct (find_entry op L3) as [e| |] eqn:E4; [|done|done]. injection H as <-. exists L1, L2, L3, e. cbn zeta. split_and!; try done.
  apply andb_false_iff in Ec as [Ec|Ec]; apply negb_false_iff in Ec; [left; by apply bool_decide_eq_true in Ec|by right].
Qed.

Lemma alike_set_entry e L : alike L (set_entry e L).
Proof. by split. Qed.

(** ** What a finished link promises *)

Lemma define_boundary_keeps os g sec n : is_Some (g !! n) -> is_Some (define_boundary os g sec !! n).
Proof.
  intros H. unfold define_boundary. destruct (String.eqb sec ""); [done|]. destruct (section_bounds os sec) as [[lo hi]|]; [|done].
  by rewrite !lookup_insert_is_Some'; right; right.
Qed.

Lemma define_array_keeps a b x g n : is_Some (g !! n) -> is_Some (define_array a b x g !! n).
Proof. intros H. unfold define_array. destruct (ar_present x); [|done]. rewrite !lookup_insert_is_Some'. tauto. Qed.

Lemma after_layout_synthetic op L n : is_Some (l_synthetic L !! n) -> is_Some (l_synthetic (after_layout op L) !! n).
Proof.
  intros H. cbn. set (g := define_array _ _ _ _). assert (is_Some (g !! n)) as Hg by (by apply define_array_keeps, define_array_keeps).
  clearbody g. generalize (elements (wanted_sections g)) as l. intros l. revert g Hg. induction l as [|x l IH]; intros g Hg; cbn; [done|].
  by apply IH, define_boundary_keeps.
Qed.

Lemma layout_nth_sym op L oi si : nth_sym (l_objects (layout_segments op L)) oi si = nth_sym (l_objects L) oi si.
Proof. unfold nth_sym. cbn. rewrite list_lookup_imap. by destruct (l_objects L !! oi). Qed.

(** A reference of a static program that cannot be resolved is one of these. *)
Definition may_stay (L : Linker) (s : LoadedSym) : Prop :=
  sy_name s = ""%string \/ is_fp_ksym (sy_name s) = true \/ is_Some (l_bpfso L !! sy_name s) \/ (sy_defined s = true /\ exported s = false).

Lemma static_unresolved op L0 oi o r s :
  op_mode op = STATIC_EXE -> l_globals L0 = ∅ ->
  let Lr := presynthesize (register_all L0) in
  check_undefined_symbols Lr = true -> l_objects L0 !! oi = Some o -> r ∈ o_relocations o -> nth_sym (l_objects L0) oi (rl_sym_idx r) = Some s ->
  resolve_symbol op (after_layout op Lr) oi (rl_sym_idx r) = Done None -> may_stay L0 s.
Proof.
  intros Hmode Hnew Lr Hck Ho Hr Hs Hres. unfold resolve_symbol in Hres. cbv zeta in Hres. rewrite after_layout_objects, layout_nth_sym in Hres.
  change (l_objects Lr) with (l_objects L0) in Hres. rewrite Hs in Hres. cbn [inside rbind] in Hres.
  destruct (sy_binding s =? STB_LOCAL); [by destruct (sym_addr _ _ _)|].
  change (l_globals (after_layout op Lr)) with (l_globals (register_all L0)) in Hres.
  destruct (l_globals (register_all L0) !! sy_name s) as [[doi dsi]|] eqn:Eg.
  { rewrite layout_nth_sym in Hres. change (l_objects Lr) with (l_objects L0) in Hres.
    destruct (nth_sym (l_objects L0) doi (Z.of_nat dsi)) as [d|]; cbn [inside rbind] in Hres; [by destruct (sym_addr _ _ _)|done]. }
  destruct (l_synthetic (after_layout op Lr) !! sy_name s) eqn:Esy; [done|].
  injection Hres as Hw. rewrite Hmode, bool_decide_eq_true_2, andb_true_r in Hw by done. destruct (sy_binding s =? STB_WEAK) eqn:Ew; [done|].
  assert (l_synthetic Lr !! sy_name s = None) as Esl.
  { destruct (l_synthetic Lr !! sy_name s) eqn:E; [|done]. destruct (after_layout_synthetic op Lr (sy_name s) ltac:(rewrite E; done)) as [w Hw2]. congruence. }
  unfold check_undefined_symbols in Hck. apply bool_decide_eq_true in Hck.
  assert (undefined_ref Lr o r = None) as Hu.
  { destruct (undefined_ref Lr o r) as [n|] eqn:E; [|done]. assert (n ∈ undefined_refs Lr) as Hin; [|rewrite Hck in Hin; by apply elem_of_nil in Hin].
    unfold undefined_refs. apply list_elem_of_bind. exists o. split; [apply list_elem_of_omap; by exists r|]. by eapply list_elem_of_lookup_2. }
  unfold undefined_ref in Hu. unfold nth_sym in Hs. rewrite Ho in Hs. cbn in Hs. rewrite Hs in Hu.
  change (l_globals Lr) with (l_globals (register_all L0)) in Hu. rewrite Eg, Esl, Ew in Hu. change (l_bpfso Lr) with (l_bpfso L0) in Hu.
  rewrite (bool_decide_eq_false_2 (is_Some (@None (nat * nat)))), (bool_decide_eq_false_2 (is_Some (@None Z))) in Hu by (by intros []). unfold may_stay.
  destruct (sy_defined s) eqn:Ed.
  { right. right. right. split; [done|]. destruct (exported s) eqn:Ex; [|done]. apply get_lookup in Hs as [H0 Hs].
    destruct (registered_exported L0 oi (Z.to_nat (rl_sym_idx r)) s Hnew) as [y Hy]; [|done|congruence].
    unfold nth_sym. rewrite Ho. cbn. by rewrite get_nat. }
  destruct (String.eqb_spec (sy_name s) ""); [by left|]. destruct (is_fp_ksym (sy_name s)); [by right; left|].
  case_bool_decide as Hb; [by right; right; left|done].
Qed.


(** C25: In a finished link every relocation of every input object is carried
    out: unless the name is left to another module, the address of the
    definition is what the patched instructions and words mean - the pair of an
    [lddw] loads it, a data pointer holds it, a call whose distance fits reaches
    it - and no other byte of the object is changed.  In a static program only
    unnamed symbols, the floating-point pseudo functions, names of a shared
    object among the inputs and defined symbols that are neither functions nor
    objects can stay unresolved. *)
Theorem run_relocates op inputs L0 L
    (Hload : load_all op inputs = Done L0) (Hrun : run op inputs = Done L) (Hmode : op_mode op <> RELOCATABLE) :
  forall oi o0, l_objects L0 !! oi = Some o0 -> exists o,
    l_objects L !! oi = Some o /\ o_relocations o = o_relocations o0 /\ linked op L oi (set_mem (o_mem o0) o) o /\
    forall r s, r ∈ o_relocations o -> nth_sym (l_objects L) oi (rl_sym_idx r) = Some s -> op_mode op = STATIC_EXE ->
      resolve_symbol op L oi (rl_sym_idx r) = Done None -> may_stay L0 s.
Proof.
  intros oi o0 Ho0. assert (run_link op L0 = Done L) as Hrl by (unfold run in Hrun; rewrite Hload in Hrun; cbn in Hrun; by destruct (op_mode op)).
  destruct (load_all_ok _ _ _ Hload) as [Hok (Hg & Hs0 & He & Hgs & Hpa & Hgot)].
  destruct (run_link_phases _ _ _ Hrl) as (L1 & L2 & L3 & e & Hck & HL1 & HL2 & HL3 & _ & ->).
  set (Lr := presynthesize (register_all L0)) in *. pose proof (lookup_lt_Some _ _ _ Ho0) as Hlt.
  assert (object_ok o0) as Hok0 by (unfold linker_ok in Hok; rewrite list.Forall_forall in Hok; by apply Hok; eapply list_elem_of_lookup_2).
  assert (l_objects L1 !! oi = Some o0 /\ Forall (fun p => (length (l_objects L0) <= p.2.1)%nat) (map_to_list (l_plt_entries L1))) as [Ho1 Hent].
  { destruct (pic op) eqn:Ep.
    - destruct (synthesize_got_ok _ _ _ HL1 He) as (Hk & _ & Hf & _). split; [|done]. rewrite Hk by done. done.
    - injection HL1 as <-. split; [done|]. change (l_plt_entries Lr) with (l_plt_entries L0). by rewrite He, map_to_list_empty. }
  set (oL := assign_object (layout_table (guest_base op) (l_objects L1)) oi o0).
  assert (l_objects L2 !! oi = Some oL) as Ho2.
  { destruct (l_got_enabled (after_layout op L1)).
    - destruct (finalize_ok _ _ _ HL2 Hent) as (Hk & _). rewrite Hk by done. by apply layout_object.
    - injection HL2 as <-. by apply layout_object. }
  destruct (apply_all_linked _ _ _ _ HL3 (NoDup_seq _ _)) as [Hal Hobj].
  destruct (Hobj oi oL Ho2) as (o & Ho & Hlinked). rewrite decide_True in Hlinked by (apply elem_of_seq; apply lookup_lt_Some in Ho2; lia).
  specialize (Hlinked (assign_object_ok _ _ _ Hok0)). pose proof Hlinked as ((Es & Ey & Er & Ess) & B & A & D).
  exists o. split; [done|]. split; [done|]. split.
  - split; [done|]. split; [done|]. cbn. rewrite Er, Es. split; [done|]. intros r Hr Hap.
    eapply done_right_alike; [apply alike_set_entry|]. by apply D.
  - intros r s Hr Hs Hst Hres. rewrite Er in Hr. cbn in Hr. change (l_objects (set_entry e L3)) with (l_objects L3) in Hs.
    rewrite (nth_sym_alike _ _ _ _ Hal) in Hs. change (resolve_symbol op L3 oi (rl_sym_idx r) = Done None) in Hres.
    rewrite (resolve_alike _ _ _ _ _ Hal) in Hres.
    assert (pic op = false) as Ep by (unfold pic; rewrite Hst; done). rewrite Ep in HL1. injection HL1 as <-.
    change (l_got_enabled (after_layout op Lr)) with (l_got_enabled L0) in HL2. rewrite Hgot in HL2. injection HL2 as <-.
    eapply (static_unresolved op L0 oi o0 r s); try done.
    + destruct Hck as [Hsh|Hck]; [congruence|done].
    + by rewrite after_layout_objects, layout_nth_sym in Hs.
Qed.

End Facts.

#[export] Instance demo_facts : LibElfFacts.
Proof.
  constructor. intros d im H. cbn in H. repeat (case_match; try done); injection H as <-; apply list.Forall_forall; intros s Hs;
    repeat (apply elem_of_cons in Hs as [->|Hs];
      [split; [done|]; split;
       [intros b Hb; try discriminate Hb; injection Hb as <-; unfold bytes_ok, is_byte; apply (bool_decide_unpack _); vm_compute; exact I
       |apply (bool_decide_unpack _); vm_compute; exact I]|]); by apply elem_of_nil in Hs.
Qed.

Definition demo_final : Linker := the demo_static.

Lemma run_relocates_witness :
  run (demo_options STATIC_EXE []) ["main.o"%string] = Done demo_final /\
  exists o, l_objects demo_final !! 0%nat = Some o /\
    agree (fun i => exists r, r ∈ o_relocations o /\ writes (o_sections o) r i) (from_option o_mem [] (l_objects demo_loaded !! 0%nat)) (o_mem o).
Proof.
  assert (run (demo_options STATIC_EXE []) ["main.o"%string] = Done demo_final) as Hrun by (vm_compute; reflexivity).
  assert (load_all (demo_options STATIC_EXE []) ["main.o"%string] = Done demo_loaded) as Hload by (vm_compute; reflexivity).
  split; [exact Hrun|].
  destruct (l_objects demo_loaded !! 0%nat) as [o0|] eqn:E0; [|vm_compute in E0; discriminate E0].
  destruct (run_relocates (demo_options STATIC_EXE []) ["main.o"%string] demo_loaded demo_final Hload Hrun ltac:(discriminate) 0 o0 E0) as (o & Ho & Hr & (_ & _ & Ha & _) & _).
  exists o. split; [exact Ho|exact Ha].
Defined.

(** A global label without a type is left out of the table of symbols: the link
    succeeds and the [lddw] that names it is not relocated. *)
Example label_not_relocated :
  first_bytes (run (demo_options STATIC_EXE []) ["lab.o"%string]) = Some (replicate 8 0 ++ take 16 demo_text).
Proof. vm_compute. reflexivity. Qed.

(** A shared object among the inputs of a static link satisfies the check of
    undefined symbols; the call to its function keeps the placeholder -1. *)
Example static_call_not_relocated :
  first_bytes (run (demo_options STATIC_EXE []) ["ext.o"; "libext.so"]%string) = Some (replicate 8 0 ++ take 16 demo_text).
Proof. vm_compute. reflexivity. Qed.
