(* ===== verification/LdOut.v ===== *)
(** * LdOut: the linker's output file

    [Linker::write_elf_impl] of elf_linker.cpp: the symbol tables, the dynamic
    sections, the layout of the file and the headers, as the bytes written.  The
    debug sections are an argument ([debug]: what the passes over the DWARF data
    leave in [extras], nothing when they are stripped); so is the order in which
    [std::unordered_map] is traversed ([StringOrder]).  Errors of the host while
    writing are not modelled. *)

From S2P Require Import Prelude Bytes HostMem AddrSpace Frame Paths Loader Ld.
From Stdlib Require Import Lia.
From stdpp Require Import base numbers list gmap strings option sorting.

Open Scope Z_scope.
Open Scope ld_scope.

Class StringOrder := {
  string_order : gset string -> list string;
  string_order_perm : forall s, string_order s ≡ₚ elements s
}.
#[export] Instance name_order : StringOrder := {
  string_order s := elements s;
  string_order_perm s := Permutation_refl (elements s)
}.

(** The entries of a map in the order of a traversal. *)
Definition entries {ord : StringOrder} {A} (m : gmap string A) : list (string * A) :=
  omap (fun n => pair n <$> m !! n) (string_order (dom m)).

(** ** Sections of the file that are not in a segment *)

Record SecBuf := mksecbuf {
  sb_name : string; sb_type : Z; sb_flags : Z; sb_data : list Z; sb_link : Z; sb_info : Z; sb_addralign : Z; sb_entsize : Z
}.

Definition SHT_HASH : Z := 5.
Definition STB_LOCAL_INFO (bind type : Z) : Z := Z.lor (Z.shiftl bind 4) (Z.land type 15).

Definition sym_bytes (name info other shndx value size : Z) : list Z :=
  le_bytes 4 name ++ le_bytes 1 info ++ le_bytes 1 other ++ le_bytes 2 shndx ++ le_bytes 8 value ++ le_bytes 8 size.
Definition rela_bytes (offset info addend : Z) : list Z := le_bytes 8 offset ++ le_bytes 8 info ++ le_bytes 8 addend.
Definition dyn_bytes (tag val : Z) : list Z := le_bytes 8 tag ++ le_bytes 8 val.
Definition r_info_of (sym type : Z) : Z := u64 (Z.shiftl sym 32 + u64 type).

(** The name table: the offset of a name that is appended. *)
Definition put_name (tab : list Z) (n : string) : Z * list Z := (u32 (Z.of_nat (length tab)), tab ++ string_bytes n ++ [0]).
Definition put_name_or_0 (tab : list Z) (n : string) : Z * list Z := if String.eqb n "" then (0, tab) else put_name tab n.

(** The section numbers of the segments and of .bss; 0 for none. *)
Record Shndx := mkshndx { sx_seg : SegClass -> Z; sx_bss : Z; sx_extras : Z }.

Definition has_bss (L : Linker) : bool := sg_used (l_segs L SEG_DATA) && (sg_filesz (l_segs L SEG_DATA) <? sg_memsz (l_segs L SEG_DATA)).
Definition has_obj (L : Linker) (o : option nat) : bool := match o with Some i => bool_decide (i < length (l_objects L))%nat | None => false end.

Definition bool_z (b : bool) : Z := if b then 1 else 0.

Definition section_numbers (L : Linker) : Shndx :=
  let used c := bool_z (sg_used (l_segs L c)) in
  let plt := bool_z (sg_used (l_segs L SEG_TEXT) && has_obj L (l_plt_obj L)) in
  let got := bool_z (sg_used (l_segs L SEG_DATA) && has_obj L (l_got_obj L)) in
  let text := 1 in
  let rodata := text + used SEG_TEXT + plt in
  let data := rodata + used SEG_RODATA in
  let bss := data + used SEG_DATA + got in
  mkshndx (fun c => used c * match c with SEG_TEXT => text | SEG_RODATA => rodata | SEG_DATA => data end)
    (bool_z (has_bss L) * bss) (bss + bool_z (has_bss L)).

Definition sym_to_shndx (sx : Shndx) (o : LoadedObject) (sec_idx : Z) : Z :=
  match get (o_sections o) sec_idx with
  | None => SHN_ABS
  | Some ls =>
    let n := if (ls_type ls =? SHT_NOBITS) && bool_decide (ls_seg ls = SEG_DATA) then sx_bss sx else sx_seg sx (ls_seg ls) in
    if n =? 0 then SHN_ABS else n
  end.

Definition sec_guest_addr_of (o : LoadedObject) (sec_idx : Z) : Z :=
  match get (o_sections o) sec_idx with Some s => ls_guest_addr s | None => 0 end.

Definition sym_value (o : LoadedObject) (s : LoadedSym) : Z := u64 (sec_guest_addr_of o (sy_sec_idx s) + sy_value s).
Definition type_or_func (t : Z) : Z := if t =? 0 then STT_FUNC else t.

(** A table of names and one of symbols that grow together. *)
Definition emit_sym (sx : Shndx) (bind : Z) (st : list Z * list Z) (p : LoadedObject * LoadedSym) : list Z * list Z :=
  let '(o, s) := p in
  let (off, strtab) := put_name_or_0 st.1 (sy_name s) in
  (strtab, st.2 ++ sym_bytes off (STB_LOCAL_INFO bind (type_or_func (sy_type s))) (Z.land (sy_visibility s) 3)
                     (sym_to_shndx sx o (sy_sec_idx s)) (sym_value o s) (sy_size s)).

Definition emit_synthetic_sym (st : list Z * list Z) (p : string * Z) : list Z * list Z :=
  let (off, strtab) := put_name_or_0 st.1 p.1 in
  (strtab, st.2 ++ sym_bytes off (STB_LOCAL_INFO STB_GLOBAL STT_OBJECT) 0 SHN_ABS p.2 0).

Definition is_local_named (s : LoadedSym) : bool :=
  (sy_binding s =? STB_LOCAL) && sy_defined s && ((sy_type s =? STT_FUNC) || (sy_type s =? STT_OBJECT)).

(** The definitions of the global table, in the order of a traversal. *)
Definition global_defs {ord : StringOrder} (L : Linker) : list (LoadedObject * LoadedSym) :=
  omap (fun p => o ← l_objects L !! p.2.1; s ← o_symbols o !! p.2.2; Some (o, s)) (entries (l_globals L)).

Definition zero_sym : list Z := replicate 24 0.

Section Out.
Context {ord : StringOrder}.

Definition build_static_symtab (L : Linker) (sx : Shndx) (extras : list SecBuf) : list SecBuf :=
  let locals := l_objects L ≫= fun o => pair o <$> List.filter is_local_named (tail (o_symbols o)) in
  let st := foldl (emit_sym sx STB_LOCAL) ([0], zero_sym) locals in
  let first_global := Z.of_nat (length st.2) / 24 in
  let st := foldl (emit_sym sx STB_GLOBAL) st (global_defs L) in
  let st := foldl emit_synthetic_sym st (entries (l_synthetic L)) in
  let strtab_idx := Z.of_nat (length extras) in
  extras ++ [mksecbuf ".strtab" SHT_STRTAB 0 st.1 0 0 1 0;
             mksecbuf ".symtab" SHT_SYMTAB 0 st.2 (u32 (sx_extras sx + strtab_idx)) (u32 first_global) 8 24].

(** ** Dynamic sections *)

(** [collect_und_names]: the names to import, with the weak ones marked. *)
Definition add_und (acc : list (string * bool)) (n : string) (weak : bool) : list (string * bool) :=
  if bool_decide (n ∈ fst <$> acc) then (if weak then acc else (fun p => (p.1, if String.eqb p.1 n then false else p.2)) <$> acc)
  else acc ++ [(n, weak)].

Definition und_ref (L : Linker) (acc : list (string * bool)) (s : LoadedSym) : list (string * bool) :=
  if sy_defined s || String.eqb (sy_name s) "" || String.eqb (sy_name s) "_DYNAMIC"
     || bool_decide (is_Some (l_synthetic L !! sy_name s)) || bool_decide (is_Some (l_globals L !! sy_name s))
  then acc else add_und acc (sy_name s) (sy_binding s =? STB_WEAK).

Definition collect_und_names (op : Options) (L : Linker) : list (string * bool) :=
  let refs := l_objects L ≫= fun o => omap (fun r => get (o_symbols o) (rl_sym_idx r)) (o_relocations o) in
  let acc := foldl (und_ref L) [] refs in
  if bool_decide (op_mode op = DYNAMIC_EXE) && negb (String.eqb (op_entry op) "")
     && negb (bool_decide (op_entry op ∈ fst <$> acc)) && bool_decide (l_globals L !! op_entry op = None)
  then acc ++ [(op_entry op, false)] else acc.

(** [elf_hash] of a name. *)
Definition hash_byte (h c : Z) : Z :=
  let h := u32 (u32 (Z.shiftl h 4) + c) in
  let g := Z.land h 0xf0000000 in
  let h := if nz g then Z.lxor h (Z.shiftr g 24) else h in
  Z.ldiff h g.
Definition elf_hash (name : list Z) : Z := foldl hash_byte 0 name.

Definition hidden_kept (op : Options) (L : Linker) (s : LoadedSym) : bool :=
  (sy_visibility s =? STV_HIDDEN) && negb (bool_decide (op_mode op = DYNAMIC_EXE) && bool_decide (sy_name s ∈ l_und_strong L)).

(** Names entered once, with their offsets. *)
Definition export_name (st : gmap string Z * list Z) (n : string) : gmap string Z * list Z :=
  let (off, tab) := put_name st.2 n in (<[n := off]> st.1, tab).
Definition export_new (st : gmap string Z * list Z) (n : string) : gmap string Z * list Z :=
  if String.eqb n "" || bool_decide (is_Some (st.1 !! n)) then st else export_name st n.

Fixpoint put_names (tab : list Z) (l : list string) : list Z * list Z :=
  match l with
  | [] => ([], tab)
  | n :: r => let (off, tab) := put_name tab n in let (offs, tab) := put_names tab r in (off :: offs, tab)
  end.

(** The symbols of .dynsym with their names: one entry is 24 bytes. *)
Definition und_sym (off : Z) (weak : bool) : list Z := sym_bytes off (STB_LOCAL_INFO (if weak then STB_WEAK else STB_GLOBAL) 0) 0 SHN_UNDEF 0 0.
Definition export_sym (sx : Shndx) (offs : gmap string Z) (p : LoadedObject * LoadedSym) : string * list Z :=
  let '(o, s) := p in
  (sy_name s, sym_bytes (default 0 (offs !! sy_name s)) (STB_LOCAL_INFO STB_GLOBAL (type_or_func (sy_type s)))
    (if sy_visibility s =? STV_HIDDEN then STV_DEFAULT else Z.land (sy_visibility s) 3) (sym_to_shndx sx o (sy_sec_idx s)) (sym_value o s) (sy_size s)).
Definition abs_sym (off value : Z) : list Z := sym_bytes off (STB_LOCAL_INFO STB_GLOBAL STT_OBJECT) 0 SHN_ABS value 0.

(** The number a name has last in a list of symbols. *)
Definition index_in (l : list (string * list Z)) (n : string) : option Z :=
  (fun i => Z.of_nat i) <$> last (omap id (imap (fun i p => if String.eqb p.1 n then Some i else None) l)).

(** The table [.hash]: heads, tails and links of the chains. *)
Record HashTable := mkhash { ht_buckets : list Z; ht_chains : list Z; ht_last : list Z }.
Definition hash_put (nbucket : Z) (t : HashTable) (p : nat * list Z) : HashTable :=
  let '(i, name) := p in
  let h := Z.to_nat (elf_hash name mod nbucket) in
  let l := nth h (ht_last t) 0 in
  mkhash (if l =? 0 then <[h := Z.of_nat i]> (ht_buckets t) else ht_buckets t)
         (if l =? 0 then ht_chains t else <[Z.to_nat l := Z.of_nat i]> (ht_chains t))
         (<[h := Z.of_nat i]> (ht_last t)).

Definition hash_table (dynstr dynsym : list Z) : HashTable :=
  let nsym := (length dynsym / 24)%nat in
  let nbucket := if (1 <? nsym)%nat then nsym else 2%nat in
  let named := omap (fun i => let off := field dynsym (24 * Z.of_nat i) 4 in
                              if off =? 0 then None else Some (i, until (fun c => c =? 0) (drop (Z.to_nat off) dynstr))) (seq 1 (nsym - 1)) in
  foldl (hash_put (Z.of_nat nbucket)) (mkhash (replicate nbucket 0) (replicate nsym 0) (replicate nbucket 0)) named.

Definition hash_bytes (t : HashTable) : list Z :=
  le_bytes 4 (Z.of_nat (length (ht_buckets t))) ++ le_bytes 4 (Z.of_nat (length (ht_chains t)))
  ++ concat (le_bytes 4 <$> ht_buckets t) ++ concat (le_bytes 4 <$> ht_chains t).

(** One entry of .rela.dyn; [None]: the relocation is none of the loader's. *)
Definition rela_dyn (op : Options) (L : Linker) (syms : list (string * list Z)) (oi : nat) (o : LoadedObject) (r : LoadedReloc) : res (option (list Z)) :=
  match get (o_symbols o) (rl_sym_idx r), get (o_sections o) (rl_target_sec r) with
  | Some s, Some target =>
    if (rl_type r =? 10) || negb (ls_loadable target) then Done None
    else
      let offset := u64 (ls_guest_addr target + rl_offset r) in
      let def_in_unit := sy_defined s || bool_decide (is_Some (l_globals L !! sy_name s)) || bool_decide (is_Some (l_synthetic L !! sy_name s)) in
      if def_in_unit then
        let! resolved := resolve_symbol op L oi (rl_sym_idx r) in
        let addr := default (if sy_defined s then sym_value o s else 0) resolved in
        Done (Some (rela_bytes offset (r_info_of 0 (rl_type r)) (u64 (addr + rl_addend r))))
      else Done (Some (rela_bytes offset (r_info_of (default 0 (index_in syms (sy_name s))) (rl_type r)) (rl_addend r)))
  | _, _ => Done None
  end.

Definition text_rel (o : LoadedObject) (r : LoadedReloc) : bool :=
  match get (o_symbols o) (rl_sym_idx r), get (o_sections o) (rl_target_sec r) with
  | Some _, Some t => negb (rl_type r =? 10) && ls_loadable t && ls_executable t
  | _, _ => false
  end.

(** The entries of a stub: the address its [lddw] loads, and the slot itself. *)
Definition stub_relas (L : Linker) (n : string) : option (list Z) :=
  match l_plt_entries L !! n, l_got_slots L !! n with
  | Some (poi, poff), Some (goi, goff) =>
    p ← nth_section (l_objects L) (poi, 1%nat); g ← nth_section (l_objects L) (goi, 1%nat);
    Some (rela_bytes (u64 (ls_guest_addr p + poff)) (r_info_of 0 1) (u64 (ls_guest_addr g + goff)))
  | _, _ => None
  end.
Definition slot_rela (L : Linker) (syms : list (string * list Z)) (n : string) : option (list Z) :=
  match l_got_slots L !! n with
  | Some (goi, goff) =>
    g ← nth_section (l_objects L) (goi, 1%nat);
    Some (rela_bytes (u64 (ls_guest_addr g + goff)) (r_info_of (default 0 (index_in syms n)) 2) 0)
  | None => None
  end.

Record DynSecOut := mkdynout {
  dn_dynstr : nat; dn_dynsym : nat; dn_hash : nat; dn_reladyn : nat; dn_relaplt : option nat; dn_dynamic : nat; dn_dynamic_sym : Z
}.

Definition DT_NULL : Z := 0.
Definition DT_NEEDED : Z := 1.
Definition DT_PLTRELSZ : Z := 1 + 1.
Definition DT_PLTGOT : Z := 3.
Definition DT_HASH : Z := 4.
Definition DT_STRTAB : Z := 5.
Definition DT_SYMTAB : Z := 6.
Definition DT_RELA : Z := 7.
Definition DT_RELASZ : Z := 8.
Definition DT_RELAENT : Z := 9.
Definition DT_STRSZ : Z := 10.
Definition DT_SYMENT : Z := 11.
Definition DT_PLTREL : Z := 20.
Definition DT_TEXTREL : Z := 22.
Definition DT_JMPREL : Z := 23.
Definition DT_INIT_ARRAY : Z := 25.
Definition DT_FINI_ARRAY : Z := 26.
Definition DT_INIT_ARRAYSZ : Z := 27.
Definition DT_FINI_ARRAYSZ : Z := 28.
Definition DT_FLAGS_1 : Z := 0x6ffffffb.
Definition DF_1_PIE : Z := 0x08000000.

Definition array_entries (tag size_tag : Z) (b : ArrayBounds) : list (list Z) :=
  if ar_end b <=? ar_start b then [] else [dyn_bytes tag (ar_start b); dyn_bytes size_tag (u64 (ar_end b - ar_start b))].

Definition when (b : bool) (l : list (list Z)) : list (list Z) := if b then l else [].

Definition build_dynamic_sections (op : Options) (L : Linker) (sx : Shndx) (extras : list SecBuf) : res (list SecBuf * DynSecOut) :=
  let und := collect_und_names op L in
  let '(und_offs, tab) := put_names [0] (fst <$> und) in
  let soname := bool_decide (op_mode op = SHARED_LIB) && negb (String.eqb (op_soname op) "") in
  let '(soname_off, tab) := if soname then put_name tab (op_soname op) else (0, tab) in
  let '(needed_offs, tab) := put_names tab (l_needed L) in
  let exports := List.filter (fun p => negb (hidden_kept op L p.2)) (global_defs L) in
  let '(offs, tab) := foldl (fun st p => export_new st (sy_name p.2)) (∅, tab) exports in
  let '(offs, tab) := foldl (fun st p => export_name st p.1) (offs, tab) (entries (l_synthetic L)) in
  let '(dynamic_off, dynstr) := put_name tab "_DYNAMIC" in
  let n0 := length extras in
  let link i := u32 (sx_extras sx + Z.of_nat i) in
  let unds := zip_with (fun p off => (p.1, und_sym off p.2)) und und_offs in
  let before := (""%string, zero_sym) :: unds ++ (export_sym sx offs <$> exports) in
  let syms := before ++ ("_DYNAMIC"%string, abs_sym dynamic_off 0)
              :: ((fun p => (p.1, abs_sym (default 0 (offs !! p.1)) p.2)) <$> entries (l_synthetic L)) in
  let dynsym := concat (snd <$> syms) in
  let! rels := rmap (fun p => rela_dyn op L syms p.1.1 p.1.2 p.2)
                 (concat (imap (fun oi o => pair (oi, o) <$> o_relocations o) (l_objects L))) in
  let stubs := if l_got_enabled L then omap (stub_relas L) (l_got_syms L) else [] in
  let reladyn := concat (omap id rels ++ stubs) in
  let relaplt := if l_got_enabled L then Some (concat (omap (slot_rela L syms) (l_got_syms L))) else None in
  let textrel := existsb (fun o => existsb (text_rel o) (o_relocations o)) (l_objects L) in
  let dynamic := concat (
    when (bool_decide (op_mode op = SHARED_LIB) && negb (soname_off =? 0)) [dyn_bytes DT_SONAME soname_off]
    ++ (dyn_bytes DT_NEEDED <$> needed_offs)
    ++ when (bool_decide (op_mode op = DYNAMIC_EXE)) [dyn_bytes DT_FLAGS_1 DF_1_PIE]
    ++ [dyn_bytes DT_SYMTAB 0; dyn_bytes DT_STRTAB 0; dyn_bytes DT_STRSZ (Z.of_nat (length dynstr)); dyn_bytes DT_SYMENT 24;
        dyn_bytes DT_HASH 0; dyn_bytes DT_RELA 0; dyn_bytes DT_RELASZ (Z.of_nat (length reladyn)); dyn_bytes DT_RELAENT 24]
    ++ when textrel [dyn_bytes DT_TEXTREL 0]
    ++ match relaplt with
       | Some d => [dyn_bytes DT_JMPREL 0; dyn_bytes DT_PLTRELSZ (Z.of_nat (length d)); dyn_bytes DT_PLTREL DT_RELA; dyn_bytes DT_PLTGOT 0]
       | None => [] end
    ++ array_entries DT_INIT_ARRAY DT_INIT_ARRAYSZ (l_init_array L)
    ++ array_entries DT_FINI_ARRAY DT_FINI_ARRAYSZ (l_fini_array L)
    ++ [dyn_bytes DT_NULL 0]) in
  let extras := extras ++
    [mksecbuf ".dynstr" SHT_STRTAB 0 dynstr 0 0 1 0;
     mksecbuf ".dynsym" SHT_DYNSYM 0 dynsym (link n0) (u32 (1 + Z.of_nat (length und))) 8 24;
     mksecbuf ".hash" SHT_HASH 0 (hash_bytes (hash_table dynstr dynsym)) (link (n0 + 1)%nat) 0 8 4;
     mksecbuf ".rela.dyn" SHT_RELA 0 reladyn (link (n0 + 1)%nat) 0 8 24]
    ++ match relaplt with Some d => [mksecbuf ".rela.plt" SHT_RELA 0 d (link (n0 + 1)%nat) 0 8 24] | None => [] end in
  Done (extras ++ [mksecbuf ".dynamic" SHT_DYNAMIC 0 dynamic (link n0) 0 8 16],
        mkdynout n0 (n0 + 1) (n0 + 2) (n0 + 3) (if l_got_enabled L then Some (n0 + 4)%nat else None) (length extras)
          (24 * Z.of_nat (length before))).

Definition interp_path : list Z := string_bytes "/lib/ld-bpf.so" ++ [0].
Definition build_interp (extras : list SecBuf) : list SecBuf * nat := (extras ++ [mksecbuf ".interp" SHT_PROGBITS 0 interp_path 0 0 1 0], length extras).

(** ** Section names *)

Record ShstrtabOut := mkshstrtab {
  ss_idx : nat; ss_text : Z; ss_plt : Z; ss_rodata : Z; ss_data : Z; ss_gotplt : Z; ss_bss : Z; ss_extras : list Z
}.

Definition name_if (b : bool) (n : string) (tab : list Z) : Z * list Z := if b then put_name tab n else (0, tab).

Definition build_shstrtab (L : Linker) (extras : list SecBuf) : list SecBuf * ShstrtabOut :=
  let idx := length extras in
  let used c := sg_used (l_segs L c) in
  let '(text, tab) := name_if (used SEG_TEXT) ".text" [0] in
  let '(plt, tab) := name_if (has_obj L (l_plt_obj L)) ".plt" tab in
  let '(rodata, tab) := name_if (used SEG_RODATA) ".rodata" tab in
  let '(data, tab) := name_if (used SEG_DATA) ".data" tab in
  let '(gotplt, tab) := name_if (has_obj L (l_got_obj L)) ".got.plt" tab in
  let '(bss, tab) := name_if (has_bss L) ".bss" tab in
  let '(offs, tab) := put_names tab ((sb_name <$> extras) ++ [".shstrtab"%string]) in
  (extras ++ [mksecbuf ".shstrtab" SHT_STRTAB 0 tab 0 0 1 0], mkshstrtab idx text plt rodata data gotplt bss offs).

(** ** The layout of the file *)

Record FileLayout := mklayout {
  fl_phnum : Z; fl_shnum : Z; fl_shstrndx : Z; fl_has_phdr : bool; fl_seg_data_off : Z; fl_sh_off : Z;
  fl_seg_file_off : SegClass -> Z; fl_extra_offs : list Z
}.

Definition need_ehdr (op : Options) : bool := negb (bool_decide (op_mode op = SHARED_LIB)) || negb (String.eqb (op_entry op) "_start").
Definition need_dynamic (op : Options) : bool := pic op.

(** The file offsets of the segments that are used. *)
Fixpoint seg_offsets (cur : Z) (l : list (SegClass * SegInfo)) : list (SegClass * Z) * Z :=
  match l with
  | [] => ([], cur)
  | (c, s) :: r =>
    if sg_used s then
      let off := round_page cur in
      let (t, e) := seg_offsets (u64 (off + sg_filesz s)) r in ((c, off) :: t, e)
    else seg_offsets cur r
  end.

Definition align_to (cur a : Z) : Z := if 1 <? a then andnot (u64 (cur + (a - 1))) (a - 1) else cur.

Fixpoint extra_offsets (cur : Z) (l : list SecBuf) : list Z * Z :=
  match l with
  | [] => ([], cur)
  | e :: r =>
    let off := align_to cur (sb_addralign e) in
    let (t, e') := extra_offsets (u64 (off + Z.of_nat (length (sb_data e)))) r in (off :: t, e')
  end.

Definition find_off (l : list (SegClass * Z)) (c : SegClass) : Z :=
  match List.find (fun p => bool_decide (p.1 = c)) l with Some p => p.2 | None => 0 end.

Definition header_count (op : Options) (L : Linker) (interp : bool) : Z :=
  bool_z (sg_used (l_segs L SEG_TEXT)) + bool_z (sg_used (l_segs L SEG_RODATA)) + bool_z (sg_used (l_segs L SEG_DATA))
  + (if need_dynamic op then 2 else 0) + bool_z interp + bool_z (need_ehdr op).

Definition compute_file_layout (op : Options) (L : Linker) (sx : Shndx) (extras : list SecBuf) (shstrtab_idx : nat) (interp : option nat) : FileLayout :=
  let phnum := header_count op L (bool_decide (is_Some interp)) in
  let seg_data_off := round_page (EHDR_SIZE + PHDR_SIZE * phnum) in
  let '(segs, cur) := seg_offsets seg_data_off ((fun c => (c, l_segs L c)) <$> classes) in
  let '(offs, cur) := extra_offsets cur extras in
  mklayout phnum (u16 (sx_extras sx + Z.of_nat (length extras))) (u16 (sx_extras sx + Z.of_nat shstrtab_idx)) (need_ehdr op)
    seg_data_off cur (find_off segs) offs.

(** ** The addresses of the dynamic sections *)

Definition seg_ends (L : Linker) : list Z :=
  (fun s => u64 (sg_vaddr s + sg_memsz s)) <$> List.filter sg_used (l_segs L <$> classes).
Definition max_seg_end (op : Options) (L : Linker) : Z := foldl Z.max (guest_base op) (seg_ends L).

Definition off_at (offs : list Z) (i : nat) : Z := nth i offs 0.

Definition dyn_sections (d : DynSecOut) (interp : option nat) : list nat :=
  [dn_dynstr d; dn_dynsym d; dn_hash d; dn_reladyn d] ++ option_list (dn_relaplt d) ++ [dn_dynamic d] ++ option_list interp.

Definition dyn_addr (op : Options) (L : Linker) (d : DynSecOut) (offs : list Z) (i : nat) : Z :=
  let first := off_at offs (dn_dynstr d) in
  u64 (u64 (round_page (max_seg_end op L) + Z.land first 0xFFF) + u64 (off_at offs i - first)).

Definition dyn_vaddrs (op : Options) (L : Linker) (offs : list Z) (d : DynSecOut) (interp : option nat) : gmap nat Z :=
  list_to_map ((fun i => (i, dyn_addr op L d offs i)) <$> dyn_sections d interp).

(** The value of an entry of .dynamic that holds an address. *)
Definition dyn_pointer (L : Linker) (m : gmap nat Z) (d : DynSecOut) (tag : Z) : option Z :=
  let at_ i := Some (default 0 (m !! i)) in
  if tag =? DT_SYMTAB then at_ (dn_dynsym d) else if tag =? DT_STRTAB then at_ (dn_dynstr d) else if tag =? DT_HASH then at_ (dn_hash d)
  else if tag =? DT_RELA then at_ (dn_reladyn d)
  else if tag =? DT_JMPREL then Some (default 0 (dn_relaplt d ≫= fun i => m !! i))
  else if tag =? DT_PLTGOT then ls_guest_addr <$> (g ← l_got_obj L; nth_section (l_objects L) (g, 1%nat))
  else None.

Fixpoint patch_dynamic (n : nat) (L : Linker) (m : gmap nat Z) (d : DynSecOut) (data : list Z) : list Z :=
  match n with
  | O => data
  | Datatypes.S n' =>
    let e := take 16 data in
    let e := match dyn_pointer L m d (field e 0 8) with Some v => put_field e 8 8 v | None => e end in
    e ++ patch_dynamic n' L m d (drop 16 data)
  end.

Definition set_data (bs : list Z) (s : SecBuf) : SecBuf :=
  mksecbuf (sb_name s) (sb_type s) (sb_flags s) bs (sb_link s) (sb_info s) (sb_addralign s) (sb_entsize s).

Definition backfill_dynamic_vaddrs (L : Linker) (m : gmap nat Z) (d : DynSecOut) (extras : list SecBuf) : list SecBuf :=
  let extras := alter (fun s => set_data (put_field (sb_data s) (dn_dynamic_sym d + 8) 8 (default 0 (m !! dn_dynamic d))) s) (dn_dynsym d) extras in
  alter (fun s => set_data (patch_dynamic (length (sb_data s) / 16) L m d (sb_data s)) s) (dn_dynamic d) extras.

(** ** Headers *)

Definition ehdr_bytes (op : Options) (L : Linker) (fl : FileLayout) : list Z :=
  ELFMAG ++ [ELFCLASS64; ELFDATA2LSB; 1; 0] ++ replicate 8 0
  ++ le_bytes 2 (if decide (op_mode op = STATIC_EXE) then ET_EXEC else ET_DYN) ++ le_bytes 2 EM_BPF ++ le_bytes 4 1
  ++ le_bytes 8 (l_entry L) ++ le_bytes 8 EHDR_SIZE ++ le_bytes 8 (fl_sh_off fl) ++ le_bytes 4 0 ++ le_bytes 2 EHDR_SIZE ++ le_bytes 2 PHDR_SIZE
  ++ le_bytes 2 (fl_phnum fl) ++ le_bytes 2 64 ++ le_bytes 2 (fl_shnum fl) ++ le_bytes 2 (fl_shstrndx fl).

Definition phdr_bytes (type flags offset vaddr filesz memsz align : Z) : list Z :=
  le_bytes 4 type ++ le_bytes 4 flags ++ le_bytes 8 offset ++ le_bytes 8 vaddr ++ le_bytes 8 vaddr ++ le_bytes 8 filesz ++ le_bytes 8 memsz ++ le_bytes 8 align.

(** The first segment that is used starts at the start of the file when the
    headers are to be mapped. *)
Definition head_seg (L : Linker) : option SegClass := List.find (fun c => sg_used (l_segs L c)) classes.
Definition head_len (L : Linker) (fl : FileLayout) : Z := if fl_has_phdr fl then from_option (fl_seg_file_off fl) 0 (head_seg L) else 0.

Definition load_phdr (L : Linker) (fl : FileLayout) (c : SegClass) : list Z :=
  let s := l_segs L c in
  let off := fl_seg_file_off fl c in
  if fl_has_phdr fl && bool_decide (head_seg L = Some c) && negb (off =? 0) then
    let h := head_len L fl in
    phdr_bytes PT_LOAD (sg_flags s) 0 (u64 (sg_vaddr s - h)) (u64 (sg_filesz s + h)) (u64 (sg_memsz s + h)) 0x1000
  else phdr_bytes PT_LOAD (sg_flags s) off (sg_vaddr s) (sg_filesz s) (sg_memsz s) 0x1000.

Definition PT_DYNAMIC : Z := 1 + 1.

Definition data_len (extras : list SecBuf) (i : nat) : Z := match extras !! i with Some s => Z.of_nat (length (sb_data s)) | None => 0 end.

(** [write_phdrs]; [Escaped]: PT_PHDR of a program without segments. *)
Definition write_phdrs (op : Options) (L : Linker) (fl : FileLayout) (extras : list SecBuf) (m : gmap nat Z) (d : option DynSecOut) (interp : option nat) : res (list Z) :=
  let! phdr :=
    if fl_has_phdr fl then
      let! c := inside (head_seg L) in
      let v := u64 (u64 (sg_vaddr (l_segs L c) - head_len L fl) + EHDR_SIZE) in
      let n := PHDR_SIZE * fl_phnum fl in
      Done (phdr_bytes PT_PHDR PF_R EHDR_SIZE v n n 8)
    else Done [] in
  let segs := concat (load_phdr L fl <$> List.filter (fun c => sg_used (l_segs L c)) classes) in
  let offs := fl_extra_offs fl in
  let addr i := default 0 (m !! i) in
  let dyn := match d with
             | Some d =>
               let first := off_at offs (dn_dynstr d) in
               let last := match interp with
                           | Some i => u64 (off_at offs i + data_len extras i)
                           | None => u64 (off_at offs (dn_dynamic d) + data_len extras (dn_dynamic d)) end in
               let n := u64 (last - first) in
               phdr_bytes PT_LOAD PF_R first (addr (dn_dynstr d)) n n 0x1000
             | None => [] end in
  let int := match interp with
             | Some i => phdr_bytes PT_INTERP PF_R (off_at offs i) (addr i) (data_len extras i) (data_len extras i) 1
             | None => [] end in
  let pdyn := match d with
              | Some d => phdr_bytes PT_DYNAMIC PF_R (off_at offs (dn_dynamic d)) (addr (dn_dynamic d)) (data_len extras (dn_dynamic d)) (data_len extras (dn_dynamic d)) 8
              | None => [] end in
  Done (phdr ++ segs ++ dyn ++ int ++ pdyn).

(** ** The payload *)

(** Zeros up to an offset of the file; nothing when it is reached. *)
Definition pad_to (f : list Z) (target : Z) : list Z := f ++ replicate (Z.to_nat (target - Z.of_nat (length f))) 0.

Definition read_bytes (m : list Z) (off n : Z) : option (list Z) :=
  if (0 <=? off) && (0 <=? n) && (off + n <=? Z.of_nat (length m)) then Some (take (Z.to_nat n) (drop (Z.to_nat off) m)) else None.

(** A section of a segment: its bytes at its offset in the segment. *)
Definition write_section (L : Linker) (vaddr : Z) (out : list Z) (k : nat * nat) : res (list Z) :=
  let! o := inside (l_objects L !! k.1) in
  let! s := inside (o_sections o !! k.2) in
  if ls_type s =? SHT_NOBITS then Done out
  else let! bs := inside (read_bytes (o_mem o) (ls_offset s) (ls_size s)) in
       Done (pad_to out (u64 (ls_guest_addr s - vaddr)) ++ bs).

Definition segment_bytes (L : Linker) (c : SegClass) : res (list Z) :=
  let s := l_segs L c in
  let! out := rfold (write_section L (sg_vaddr s)) [] (sg_secs s) in Done (pad_to out (sg_filesz s)).

Definition write_segment (L : Linker) (fl : FileLayout) (f : list Z) (c : SegClass) : res (list Z) :=
  if sg_used (l_segs L c) then let! bs := segment_bytes L c in Done (pad_to f (fl_seg_file_off fl c) ++ bs) else Done f.

Definition write_extra (f : list Z) (p : SecBuf * Z) : list Z := pad_to f p.2 ++ sb_data p.1.

Definition write_payload (L : Linker) (fl : FileLayout) (extras : list SecBuf) (f : list Z) : res (list Z) :=
  let! f := rfold (write_segment L fl) (pad_to f (fl_seg_data_off fl)) classes in
  Done (foldl write_extra f (combine extras (fl_extra_offs fl))).

(** ** Section headers *)

Definition shdr_bytes (name type flags addr offset size link info align entsize : Z) : list Z :=
  le_bytes 4 name ++ le_bytes 4 type ++ le_bytes 8 flags ++ le_bytes 8 addr ++ le_bytes 8 offset ++ le_bytes 8 size
  ++ le_bytes 4 link ++ le_bytes 4 info ++ le_bytes 8 align ++ le_bytes 8 entsize.

Definition emit_seg (L : Linker) (fl : FileLayout) (c : SegClass) (name flags extra_size : Z) : list Z :=
  let s := l_segs L c in
  if sg_used s then
    shdr_bytes name SHT_PROGBITS flags (sg_vaddr s) (fl_seg_file_off fl c) (if extra_size <? sg_filesz s then sg_filesz s - extra_size else 0) 0 0 0x1000 0
  else [].

Definition synthetic_section (L : Linker) (o : option nat) : option LoadedSection := i ← o; nth_section (l_objects L) (i, 1%nat).

Definition emit_synthetic (L : Linker) (fl : FileLayout) (o : option nat) (c : SegClass) (name flags : Z) : list Z :=
  match synthetic_section L o with
  | Some s => shdr_bytes name SHT_PROGBITS flags (ls_guest_addr s) (u64 (fl_seg_file_off fl c + u64 (ls_guest_addr s - sg_vaddr (l_segs L c)))) (ls_size s) 0 0 8 0
  | None => []
  end.

Definition extra_shdr (m : gmap nat Z) (i : nat) (p : SecBuf * Z * Z) : list Z :=
  let '(s, off, name) := p in
  shdr_bytes name (sb_type s) (sb_flags s) (default 0 (m !! i)) off (Z.of_nat (length (sb_data s))) (sb_link s) (sb_info s) (sb_addralign s) (sb_entsize s).

Definition write_shdrs (L : Linker) (fl : FileLayout) (extras : list SecBuf) (m : gmap nat Z) (names : ShstrtabOut) : list Z :=
  let size o := from_option ls_size 0 (synthetic_section L o) in
  let d := l_segs L SEG_DATA in
  replicate 64 0
  ++ emit_seg L fl SEG_TEXT (ss_text names) (Z.lor SHF_ALLOC SHF_EXECINSTR) (size (l_plt_obj L))
  ++ emit_synthetic L fl (l_plt_obj L) SEG_TEXT (ss_plt names) (Z.lor SHF_ALLOC SHF_EXECINSTR)
  ++ emit_seg L fl SEG_RODATA (ss_rodata names) SHF_ALLOC 0
  ++ emit_seg L fl SEG_DATA (ss_data names) (Z.lor SHF_ALLOC SHF_WRITE) (size (l_got_obj L))
  ++ emit_synthetic L fl (l_got_obj L) SEG_DATA (ss_gotplt names) (Z.lor SHF_ALLOC SHF_WRITE)
  ++ (if negb (ss_bss names =? 0) then
        shdr_bytes (ss_bss names) SHT_NOBITS (Z.lor SHF_ALLOC SHF_WRITE) (u64 (sg_vaddr d + sg_filesz d)) (u64 (fl_seg_file_off fl SEG_DATA + sg_filesz d))
          (u64 (sg_memsz d - sg_filesz d)) 0 0 0x10 0
      else [])
  ++ concat (imap (extra_shdr m) (combine (combine extras (fl_extra_offs fl)) (ss_extras names))).

(** ** The file *)

Definition add_symtab (keep_symtab : bool) (L : Linker) (sx : Shndx) (extras : list SecBuf) : list SecBuf :=
  if keep_symtab then build_static_symtab L sx extras else extras.

(** The sections outside the segments, before the addresses are known. *)
Definition build_extras (op : Options) (keep_symtab : bool) (L : Linker) (debug : list SecBuf)
    : res (list SecBuf * option DynSecOut * option nat * ShstrtabOut) :=
  let sx := section_numbers L in
  let extras := add_symtab keep_symtab L sx debug in
  let! '(extras, d) := if need_dynamic op then let! p := build_dynamic_sections op L sx extras in Done (p.1, Some p.2) else Done (extras, None) in
  let '(extras, interp) := if decide (op_mode op = DYNAMIC_EXE) then let p := build_interp extras in (p.1, Some p.2) else (extras, None) in
  let '(extras, names) := build_shstrtab L extras in
  Done (extras, d, interp, names).

(** The slots are filled at the start of [write_elf_impl]. *)
Definition fill_slots (op : Options) (L : Linker) : res Linker := let! L := build_stack_size_map op L in fill_frame_slots L.

Definition write_file (op : Options) (keep_symtab : bool) (L : Linker) (debug : list SecBuf) : res (list Z) :=
  let sx := section_numbers L in
  let! '(extras, d, interp, names) := build_extras op keep_symtab L debug in
  let fl := compute_file_layout op L sx extras (ss_idx names) interp in
  let m := match d with Some d => dyn_vaddrs op L (fl_extra_offs fl) d interp | None => ∅ end in
  let extras := match d with Some d => backfill_dynamic_vaddrs L m d extras | None => extras end in
  let! ph := write_phdrs op L fl extras m d interp in
  let! f := write_payload L fl extras (ehdr_bytes op L fl ++ ph) in
  Done (f ++ write_shdrs L fl extras m names).

Definition write_elf (op : Options) (keep_symtab : bool) (L : Linker) (debug : Linker -> list SecBuf) : res (list Z) :=
  if l_pool_used L =? 0 then Failed
  else let! L := fill_slots op L in write_file op keep_symtab L (debug L).

End Out.

(** [link_bpf_object], [link_bpf_shared], [link_bpf_exe]: the bytes of the
    output. *)
Definition link {lib : LibElf} {ord : StringOrder} (op : Options) (keep_symtab : bool) (inputs : list string) (debug : Linker -> list SecBuf) : res (list Z) :=
  let! L := run op inputs in write_elf op keep_symtab L debug.
