(* ===== verification/LdPlace.v ===== *)
(** * LdPlace: the layout in a finished link

    The later phases of a link keep the places [layout_segments] gave: in the
    finished linker the segments and the addresses of the sections are those
    the sections' sizes determine ([placed]). *)

From S2P Require Import Prelude Bytes HostMem AddrSpace Isa Frame Paths Loader Ld LdDemo LdLayout LdSym LdReloc LdRun LdOut.
From Stdlib Require Import Lia.
From stdpp Require Import base numbers list gmap strings option sorting.

Open Scope Z_scope.
Open Scope ld_scope.

(** Segments and addresses are what the layout computes from the sizes. *)
Definition placed (base : Z) (L : Linker) : Prop :=
  (forall c, l_segs L c = info_at base (l_objects L) c) /\
  Forall (fun x => ls_guest_addr x.1.2 = x.2) (all_spots base (l_objects L)).

(** ** The layout does not depend on the addresses there were *)

Definition readdress (t : gmap key Z) (p : key * LoadedSection) : key * LoadedSection := (p.1, assign_section t p.1.1 p.1.2 p.2).

Lemma assign_keeps t i j s : ls_size (assign_section t i j s) = ls_size s /\ ls_type (assign_section t i j s) = ls_type s /\
  ls_seg (assign_section t i j s) = ls_seg s /\ ls_loadable (assign_section t i j s) = ls_loadable s.
Proof. unfold assign_section. by destruct (t !! _). Qed.

Lemma filter_fmap {A B} (f : B -> bool) (g : A -> B) (l : list A) : List.filter f (g <$> l) = g <$> List.filter (fun x => f (g x)) l.
Proof. induction l as [|x l IH]; cbn; [done|]. destruct (f (g x)); cbn; by rewrite IH. Qed.

Lemma numbered_readdress t oi o : numbered oi (assign_object t oi o) = readdress t <$> numbered oi o.
Proof.
  unfold numbered. apply list_eq. intros i. rewrite list_lookup_fmap, !list_lookup_imap. cbn [assign_object o_sections set_sections].
  destruct (o_sections o) as [|s l]; [done|]. cbn [imap tail]. rewrite list_lookup_imap. by destruct (l !! i).
Qed.

Lemma sections_readdress t n os :
  sections_from n (imap (fun i => assign_object t (n + i)) os) = readdress t <$> sections_from n os.
Proof.
  revert n. induction os as [|o os IH]; intros n; [done|]. cbn [imap]. rewrite !sections_from_cons, fmap_app, Nat.add_0_r, numbered_readdress. f_equal.
  rewrite <- IH. f_equal. apply imap_ext. intros i x _. cbn. by rewrite Nat.add_succ_r.
Qed.

Lemma all_sections_readdress t os : all_sections (imap (assign_object t) os) = readdress t <$> all_sections os.
Proof. exact (sections_readdress t 0 os). Qed.

Section Readdress.
Context (t : gmap key Z).

Lemma filter_readdress f l : (forall p, f (readdress t p) = f p) -> List.filter f (readdress t <$> l) = readdress t <$> List.filter f l.
Proof. intros H. rewrite filter_fmap. f_equal. apply LdLayout.filter_ext. done. Qed.

Lemma shape_tests p : (forall c, of_class c (readdress t p) = of_class c p) /\ in_array (readdress t p) = in_array p /\
  (forall ty, of_type ty (readdress t p) = of_type ty p) /\ is_nobits (readdress t p) = is_nobits p /\ ls_size (readdress t p).2 = ls_size p.2.
Proof.
  destruct p as [[i j] s]. unfold of_class, in_array, is_nobits, of_type. cbn [snd readdress fst].
  destruct (assign_keeps t i j s) as (-> & -> & -> & ->). done.
Qed.

Lemma bucket_readdress os c : bucket (imap (assign_object t) os) c = readdress t <$> bucket os c.
Proof.
  unfold bucket, array_secs. rewrite all_sections_readdress.
  destruct c; [apply filter_readdress; intros p; apply shape_tests|apply filter_readdress; intros p; apply shape_tests|].
  rewrite !fmap_app. repeat f_equal; apply filter_readdress; intros p; destruct (shape_tests p) as (Hc & Ha & Ht & _); by rewrite ?Hc, ?Ha, ?Ht.
Qed.

Lemma extent_readdress e l : extent e (readdress t <$> l) = extent e l.
Proof.
  revert e. induction l as [|[[i j] s] l IH]; intros e; [done|]. cbn [fmap list_fmap extent readdress fst snd].
  destruct (assign_keeps t i j s) as (-> & _). apply IH.
Qed.

Lemma spots_readdress v e l : spots v e (readdress t <$> l) = (fun x => (readdress t x.1, x.2)) <$> spots v e l.
Proof.
  revert e. induction l as [|[[i j] s] l IH]; intros e; [done|]. cbn [fmap list_fmap spots readdress fst snd].
  destruct (assign_keeps t i j s) as (-> & _). f_equal. apply IH.
Qed.

Lemma halves_readdress l : prog_secs (readdress t <$> l) = readdress t <$> prog_secs l /\ bss_secs (readdress t <$> l) = readdress t <$> bss_secs l.
Proof. split; apply filter_readdress; intros p; destruct (shape_tests p) as (_ & _ & _ & H & _); by rewrite H. Qed.

Lemma ends_readdress l : prog_end (readdress t <$> l) = prog_end l /\ mem_end (readdress t <$> l) = mem_end l.
Proof. unfold mem_end, prog_end. destruct (halves_readdress l) as [-> ->]. by rewrite !extent_readdress. Qed.

Lemma seg_next_readdress cur l : seg_next cur (readdress t <$> l) = seg_next cur l.
Proof. unfold seg_next. rewrite (proj2 (ends_readdress l)). by destruct l. Qed.

Lemma start_readdress base os c : start base (imap (assign_object t) os) c = start base os c.
Proof. unfold start. rewrite !bucket_readdress. cbn zeta. rewrite !seg_next_readdress. done. Qed.

Lemma top_readdress base os : layout_end base (imap (assign_object t) os) = layout_end base os.
Proof. unfold layout_end. by rewrite start_readdress, bucket_readdress, seg_next_readdress. Qed.

Lemma seg_spots_readdress v l : seg_spots v (readdress t <$> l) = (fun x => (readdress t x.1, x.2)) <$> seg_spots v l.
Proof. unfold seg_spots. destruct (halves_readdress l) as [-> ->]. by rewrite (proj1 (ends_readdress l)), !spots_readdress, fmap_app. Qed.

Lemma all_spots_readdress base os : all_spots base (imap (assign_object t) os) = (fun x => (readdress t x.1, x.2)) <$> all_spots base os.
Proof.
  unfold all_spots, classes. cbn [mbind list_bind]. rewrite !app_nil_r, !fmap_app, !start_readdress, !bucket_readdress, !seg_spots_readdress. done.
Qed.

Lemma info_readdress base os c : info_at base (imap (assign_object t) os) c = info_at base os c.
Proof.
  unfold info_at. rewrite bucket_readdress, start_readdress. destruct (ends_readdress (bucket os c)) as [-> ->].
  rewrite <- list_fmap_compose. destruct (bucket os c) as [|x l]; [done|]. done.
Qed.

Lemma fits_readdress base os : fits base (imap (assign_object t) os) <-> fits base os.
Proof.
  unfold fits. rewrite top_readdress, all_sections_readdress. assert (sized (readdress t <$> all_sections os) <-> sized (all_sections os)) as ->; [|done].
  unfold sized. rewrite Forall_fmap. split; intros H; (eapply list.Forall_impl; [exact H|]); intros p Hp; cbn in *;
    destruct p as [[i j] s]; cbn in *; destruct (assign_keeps t i j s) as (E & _); congruence || (by rewrite E in Hp) || (by rewrite E).
Qed.

End Readdress.

Lemma layout_placed op L : fits (guest_base op) (l_objects L) -> placed (guest_base op) (layout_segments op L).
Proof.
  intros H. split.
  - intros c. change (laid_out (guest_base op) (l_objects L) c = info_at (guest_base op) (imap (assign_object (layout_table (guest_base op) (l_objects L))) (l_objects L)) c).
    by rewrite laid_out_info, info_readdress.
  - change (l_objects (layout_segments op L)) with (imap (assign_object (layout_table (guest_base op) (l_objects L))) (l_objects L)).
    rewrite all_spots_readdress. apply Forall_fmap, list.Forall_forall. intros [[[i j] s] a] Hin.
    pose proof (proj2 (table_lookup _ _ (i, j) a H) (ex_intro _ s Hin)) as E.
    change (ls_guest_addr (assign_section (layout_table (guest_base op) (l_objects L)) i j s) = a). unfold assign_section. by rewrite E.
Qed.

(** ** Later phases change bytes only *)

Definition same_place (L L' : Linker) : Prop := Forall2 like (l_objects L) (l_objects L') /\ l_segs L' = l_segs L.
#[export] Instance same_place_preorder : PreOrder same_place.
Proof.
  split; [by intros L; split|]. intros L1 L2 L3 [A1 A2] [B1 B2]. split; [by etransitivity|congruence].
Qed.

Lemma like_sections n os os' : Forall2 like os os' -> sections_from n os' = sections_from n os.
Proof.
  intros H. revert n. induction H as [|o o' os os' Ho Hos IH]; intros n; [done|]. rewrite !sections_from_cons, IH. f_equal.
  unfold numbered. by rewrite (proj1 Ho).
Qed.

Lemma placed_same base L L' : same_place L L' -> placed base L -> placed base L'.
Proof.
  intros [Hl Hs] [H1 H2]. assert (all_sections (l_objects L') = all_sections (l_objects L)) as E by exact (like_sections 0 _ _ Hl).
  assert (forall c, bucket (l_objects L') c = bucket (l_objects L) c) as Eb by (intros c; destruct c; unfold bucket, array_secs; by rewrite E).
  assert (forall c, start base (l_objects L') c = start base (l_objects L) c) as Est by (intros c; unfold start; by rewrite !Eb).
  split.
  - intros c. rewrite Hs, H1. unfold info_at. by rewrite Eb, Est.
  - unfold all_spots, classes in *. cbn [mbind list_bind] in *. by rewrite !Eb, !Est.
Qed.

Lemma fits_same base L L' : same_place L L' -> fits base (l_objects L') <-> fits base (l_objects L).
Proof.
  intros [Hl _]. assert (all_sections (l_objects L') = all_sections (l_objects L)) as E by exact (like_sections 0 _ _ Hl).
  assert (forall c, bucket (l_objects L') c = bucket (l_objects L) c) as Eb by (intros c; destruct c; unfold bucket, array_secs; by rewrite E).
  unfold fits, layout_end, start. by rewrite !Eb, E.
Qed.

Lemma alike_same_place L L' : alike L L' -> l_segs L' = l_segs L -> same_place L L'.
Proof. intros [H _] E. by split. Qed.

Lemma set_mem_same_place L oi o m : l_objects L !! oi = Some o -> same_place L (set_objects (<[oi := set_mem m o]> (l_objects L)) L).
Proof. intros H. apply alike_same_place; [by apply alike_set_mem|done]. Qed.

Lemma finalize_same_place L L' : finalize_plt_stubs L = Done L' -> same_place L L'.
Proof.
  unfold finalize_plt_stubs. intros H. refine (rfold_keeps (same_place L) _ _ _ _ _ _ H); [|done]. intros x [s [poi poff]] z Hx _ Hz. rewrite Hx.
  cbn [finalize_stub] in Hz. destruct (l_got_slots x !! s) as [[goi goff]|]; [|by injection Hz as <-].
  destruct (nth_section _ (goi, 1%nat)); [|done]. destruct (nth_section _ (poi, 1%nat)); [|done]. cbn [inside rbind] in Hz.
  destruct (l_objects x !! poi) as [po|] eqn:E; [|done]. cbn [inside rbind] in Hz. destruct (emit_plt_stub _ _ _) as [m|]; [|done]. injection Hz as <-.
  pose proof (set_mem_same_place x poi po m E) as [Hf Hs]. by split.
Qed.

Lemma apply_same_place op ois L L' : rfold (apply_relocations op) L ois = Done L' -> same_place L L'.
Proof.
  intros H. refine (rfold_keeps (same_place L) _ _ _ _ _ _ H); [|done]. clear H. intros x oi z Hx _ Hz. rewrite Hx.
  unfold apply_relocations in Hz. destruct (l_objects x !! oi) as [o|] eqn:E; [|done]. cbn [inside rbind] in Hz.
  destruct (rfold _ _ _) as [m| |]; [|done|done]. injection Hz as <-. by apply set_mem_same_place.
Qed.

Lemma run_link_same_place op L0 L : run_link op L0 = Done L -> exists L1, same_place (layout_segments op L1) L.
Proof.
  intros H. destruct (run_link_phases _ _ _ H) as (L1 & L2 & L3 & e & _ & _ & HL2 & HL3 & _ & ->). exists L1.
  transitivity (after_layout op L1); [by split|]. transitivity L2.
  { destruct (l_got_enabled (after_layout op L1)); [by apply finalize_same_place|by injection HL2 as <-]. }
  transitivity L3; [by eapply apply_same_place|]. by split.
Qed.

(** A finished link whose sections leave room is laid out as [layout_sound]
    says. *)
Lemma run_link_placed op L0 L : run_link op L0 = Done L -> fits (guest_base op) (l_objects L) -> placed (guest_base op) L.
Proof.
  intros H Hf. destruct (run_link_same_place _ _ _ H) as [L1 Hp]. apply (placed_same _ _ _ Hp). apply layout_placed.
  apply (fits_same _ _ _ Hp) in Hf. exact (proj1 (fits_readdress _ _ _) Hf).
Qed.

(** ** The frame slots *)

Lemma rmap_forall2 {A B} (P : A -> B -> Prop) (f : A -> res B) (l : list A) bs :
  (forall a b, a ∈ l -> f a = Done b -> P a b) -> rmap f l = Done bs -> Forall2 P l bs.
Proof.
  revert bs. induction l as [|a l IH]; intros bs Hf; cbn; [by intros [= <-]|].
  destruct (f a) as [b| |] eqn:E; [|done|done]. cbn. destruct (rmap f l) as [bs'| |]; [|done|done]. cbn. intros [= <-].
  constructor; [by apply Hf; [left|]|]. apply IH; [|done]. intros x y Hx. apply Hf. by right.
Qed.

Lemma sizes_same_objects op L L' : build_stack_size_map op L = Done L' ->
  l_objects L' = l_objects L /\ l_segs L' = l_segs L /\ l_entry L' = l_entry L.
Proof.
  unfold build_stack_size_map. intros H. set (P := fun X => l_objects X = l_objects L /\ l_segs X = l_segs L /\ l_entry X = l_entry L).
  refine (rfold_keeps P _ _ _ _ _ _ H); [|done]. intros x oi z Hx _ Hz. refine (rfold_keeps P _ _ _ _ _ Hx Hz).
  intros x' [i data] z' Hx' _ Hz'. unfold build_stack_size_map_one in Hz'. destruct (l_objects x' !! oi); [|by injection Hz' as <-].
  refine (rfold_keeps P _ _ _ _ _ Hx' Hz'). intros y r w Hy _ Hw. unfold stack_size_record in Hw.
  destruct (nth_sym _ _ _); [|by injection Hw as <-]. destruct (resolve_symbol _ _ _ _) as [[a|]| |]; [|by injection Hw as <-|done|done].
  cbn [rbind] in Hw. destruct (_ <? _); [by injection Hw as <-|]. destruct (read_at _ _ _) as [ad|]; [|done]. cbn [inside rbind] in Hw.
  destruct (_ <=? _); [by injection Hw as <-|]. destruct (uleb128 _ _ _); [|done|done]. by injection Hw as <-.
Qed.

Lemma fill_slots_same_place op L L' : fill_slots op L = Done L' -> same_place L L'.
Proof.
  unfold fill_slots. destruct (build_stack_size_map op L) as [L1| |] eqn:E; [|done|done]. cbn [rbind].
  apply sizes_same_objects in E as (Eo & Es & _). unfold fill_frame_slots. destruct (rmap _ _) as [os| |] eqn:Er; [|done|done]. cbn [rbind]. intros [= <-].
  split; [|done]. cbn. rewrite <- Eo. eapply rmap_forall2; [|exact Er]. intros o o' _. unfold fill_object.
  destruct (rfold _ _ _); [|done|done]. by intros [= <-].
Qed.

Lemma fill_slots_entry op L L' : fill_slots op L = Done L' -> l_entry L' = l_entry L.
Proof.
  unfold fill_slots. destruct (build_stack_size_map op L) as [L1| |] eqn:E; [|done|done]. cbn [rbind].
  apply sizes_same_objects in E as (_ & _ & Ee). unfold fill_frame_slots. destruct (rmap _ _); [|done|done]. cbn [rbind]. by intros [= <-].
Qed.
