(* ===== verification/LdFile.v ===== *)
(** * LdFile: a linked program, loaded

    What the writer puts where ([write_segment], [write_payload], the headers),
    and what the loader of elf_loader.cpp makes of it: loading the file of a
    static link gives a guest memory in which every section lies at its address
    with the bytes the linker has for it. *)

From S2P Require Import Prelude Bytes HostMem AddrSpace Isa MemSyscalls SetupStack Frame Paths Loader Ld LdDemo LdLayout LdSym LdReloc LdRun LdOut LdPlace.
From Stdlib Require Import Lia.
From stdpp Require Import base numbers list gmap strings option sorting.

Open Scope Z_scope.
Open Scope ld_scope.

(** ** Bytes of a list that grows *)

Lemma byte_at_app_l a b i : 0 <= i < Z.of_nat (length a) -> byte_at (a ++ b) i = byte_at a i.
Proof. intros Hi. unfold byte_at. rewrite app_nth1; [done|lia]. Qed.

Lemma byte_at_app_r a b i : Z.of_nat (length a) <= i -> byte_at (a ++ b) i = byte_at b (i - Z.of_nat (length a)).
Proof. intros Hi. unfold byte_at. rewrite app_nth2 by lia. f_equal. lia. Qed.

Lemma byte_at_prefix a b i : a `prefix_of` b -> 0 <= i < Z.of_nat (length a) -> byte_at b i = byte_at a i.
Proof. intros [k ->] Hi. by apply byte_at_app_l. Qed.

Lemma byte_at_take_drop m off n i : 0 <= off -> 0 <= i < n -> off + n <= Z.of_nat (length m) ->
  byte_at (take (Z.to_nat n) (drop (Z.to_nat off) m)) i = byte_at m (off + i).
Proof.
  intros H0 Hi Hn. unfold byte_at. rewrite !nth_lookup, lookup_take_lt, lookup_drop by lia. do 2 f_equal. lia.
Qed.

Lemma pad_to_prefix f t : f `prefix_of` pad_to f t.
Proof. by eexists. Qed.

Lemma pad_to_length f t : Z.of_nat (length f) <= t -> Z.of_nat (length (pad_to f t)) = t.
Proof. intros H. unfold pad_to. rewrite length_app, length_replicate. lia. Qed.

Lemma pad_to_same f t : t <= Z.of_nat (length f) -> pad_to f t = f.
Proof. intros H. unfold pad_to. replace (Z.to_nat (t - Z.of_nat (length f))) with 0%nat by lia. apply app_nil_r. Qed.

Lemma read_bytes_spec m off n bs : read_bytes m off n = Some bs ->
  0 <= off /\ 0 <= n /\ off + n <= Z.of_nat (length m) /\ Z.of_nat (length bs) = n /\ forall i, 0 <= i < n -> byte_at bs i = byte_at m (off + i).
Proof.
  unfold read_bytes. destruct (_ && _) eqn:E; [|done]. intros [= <-]. zprops. split_and!; try done.
  - rewrite length_take, length_drop. lia.
  - intros i Hi. by apply byte_at_take_drop.
Qed.

(** ** The bytes of a segment *)

(** The bytes the linker has for a section. *)
Definition section_byte (L : Linker) (k : key) (s : LoadedSection) (i : Z) : Z :=
  if ls_type s =? SHT_NOBITS then 0 else from_option (fun o => byte_at (o_mem o) (ls_offset s + i)) 0 (l_objects L !! k.1).

Lemma prog_cons p l : prog_secs (p :: l) = if is_nobits p then prog_secs l else p :: prog_secs l.
Proof. unfold prog_secs. cbn. by destruct (is_nobits p). Qed.

Lemma write_secs L v l e out out' :
  rfold (write_section L v) out (fst <$> l) = Done out' -> sized l -> 0 <= e -> 0 <= v -> v + extent e (prog_secs l) + 8 <= 2 ^ 64 ->
  Z.of_nat (length out) = e -> (forall k s, (k, s) ∈ l -> nth_section (l_objects L) k = Some s) ->
  Forall (fun x => ls_guest_addr x.1.2 = x.2) (spots v e (prog_secs l)) ->
  out `prefix_of` out' /\ Z.of_nat (length out') = extent e (prog_secs l) /\
  forall k s a i, (k, s, a) ∈ spots v e (prog_secs l) -> 0 <= i < ls_size s -> byte_at out' (a - v + i) = section_byte L k s i.
Proof.
  revert e out. induction l as [|[k s] l IH]; intros e out Hf Hsz He Hv Hx Hlen Hsec Had.
  { cbn in Hf. injection Hf as <-. split_and!; [done|done|]. by intros k s a i ?%elem_of_nil. }
  apply list.Forall_cons in Hsz as [Hs0 Hsz]. cbn [snd] in Hs0. cbn [fmap list_fmap fst rfold] in Hf.
  destruct (write_section L v out k) as [out1| |] eqn:Ew; [|done|done]. cbn [rbind] in Hf. unfold write_section in Ew.
  assert (nth_section (l_objects L) k = Some s) as Hk by (apply Hsec; by left). unfold nth_section in Hk.
  destruct (l_objects L !! k.1) as [o|] eqn:Eo; [|done]. cbn in Hk. cbn [inside rbind] in Ew. rewrite Hk in Ew. cbn [inside rbind] in Ew.
  rewrite prog_cons in *. unfold is_nobits, of_type in *. cbn [snd] in *. destruct (ls_type s =? SHT_NOBITS) eqn:Et.
  { injection Ew as <-. apply IH; try done. intros; apply Hsec; by right. }
  cbn [extent spots] in *. apply list.Forall_cons in Had as [Ha Had]. cbn [fst snd] in Ha.
  destruct (read_bytes (o_mem o) (ls_offset s) (ls_size s)) as [bs|] eqn:Eb; [|done]. cbn [inside rbind] in Ew. injection Ew as <-.
  destruct (read_bytes_spec _ _ _ _ Eb) as (_ & _ & _ & Lbs & Hbs). pose proof (up8_spec e) as [Hup _].
  pose proof (extent_ge (up8 e + ls_size s) (prog_secs l) (sized_filter _ _ Hsz)) as Hge.
  rewrite Ha in Hf. replace (v + up8 e - v) with (up8 e) in Hf by lia. rewrite uwrap_small in Hf by lia.
  pose proof (pad_to_length out (up8 e) ltac:(lia)) as Lp.
  destruct (IH (up8 e + ls_size s) _ Hf Hsz ltac:(lia) Hv Hx ltac:(rewrite length_app; lia) ltac:(intros; apply Hsec; by right) Had) as (P & Len & B).
  split; [etransitivity; [|exact P]; etransitivity; [apply pad_to_prefix|by eexists]|]. split; [done|].
  intros k' s' a' i Hin Hi. apply elem_of_cons in Hin as [[= -> -> ->]|Hin]; [|by apply B].
  unfold section_byte. rewrite Et, Eo. cbn [from_option]. rewrite (byte_at_prefix _ _ _ P) by (rewrite length_app; lia).
  rewrite byte_at_app_r by lia. rewrite Lp. replace (v + up8 e - v + i - up8 e) with i by lia. by apply Hbs.
Qed.

(** The sections of a segment that is placed: every one at its offset. *)
Section Placed.
Context (base : Z) (L : Linker) (Hfit : fits base (l_objects L)) (Hpl : placed base L).

Lemma placed_segs c : l_segs L c = info_at base (l_objects L) c.
Proof. apply Hpl. Qed.

Lemma used_bucket c : sg_used (l_segs L c) = true -> bucket (l_objects L) c <> [] /\ sg_vaddr (l_segs L c) = start base (l_objects L) c.
Proof. rewrite placed_segs. unfold info_at. cbn [sg_used sg_vaddr]. case_bool_decide; [done|]. done. Qed.

Lemma bucket_section c k s : (k, s) ∈ bucket (l_objects L) c -> nth_section (l_objects L) k = Some s.
Proof.
  rewrite bucket_class. intros Hin. apply list_elem_of_In, List.filter_In in Hin as [Hin _]. apply list_elem_of_In in Hin.
  by apply all_sections_elem in Hin as [_ ?].
Qed.

Lemma spots_in_place c l : (forall x, x ∈ spots (start base (l_objects L) c) 0 l -> x ∈ seg_spots (start base (l_objects L) c) (bucket (l_objects L) c)) ->
  Forall (fun x => ls_guest_addr x.1.2 = x.2) (spots (start base (l_objects L) c) 0 l).
Proof.
  intros H. apply list.Forall_forall. intros x Hx. destruct Hpl as [_ Ha]. rewrite list.Forall_forall in Ha. apply Ha.
  unfold all_spots. apply list_elem_of_bind. exists c. split; [by apply H|]. unfold classes. rewrite !elem_of_cons. destruct c; tauto.
Qed.

Lemma segment_bytes_spec c bs : segment_bytes L c = Done bs -> sg_used (l_segs L c) = true ->
  Z.of_nat (length bs) = sg_filesz (l_segs L c) /\
  forall k s a i, (k, s, a) ∈ spots (sg_vaddr (l_segs L c)) 0 (prog_secs (bucket (l_objects L) c)) -> 0 <= i < ls_size s ->
    byte_at bs (a - sg_vaddr (l_segs L c) + i) = section_byte L k s i.
Proof.
  intros Hb Hu. destruct (used_bucket c Hu) as [Hne Hv]. unfold segment_bytes in Hb. rewrite Hv in *.
  assert (sg_secs (l_segs L c) = fst <$> bucket (l_objects L) c) as Es by (by rewrite placed_segs).
  assert (sg_filesz (l_segs L c) = prog_end (bucket (l_objects L) c)) as Ef by (by rewrite placed_segs).
  rewrite Es, Ef in *. destruct (rfold _ _ _) as [out| |] eqn:Er; [|done|done]. cbn [rbind] in Hb. injection Hb as <-.
  destruct (seg_room base (l_objects L) c Hfit) as [R1 R2]. pose proof Hfit as (H0 & _ & Hs & He).
  pose proof (mem_end_ge _ (bucket_sized _ c Hs)) as Hm. unfold prog_end in *.
  destruct (write_secs L _ (bucket (l_objects L) c) 0 [] out Er (bucket_sized _ c Hs) ltac:(lia) R1 ltac:(lia) eq_refl) as (_ & Hl & B).
  - intros k s. apply bucket_section.
  - apply spots_in_place. intros x Hx. unfold seg_spots. apply elem_of_app. by left.
  - rewrite pad_to_same by lia. by split.
Qed.

End Placed.

(** ** The segments in the file *)

Lemma up_page_id v : v mod 0x1000 = 0 -> up_page v = v.
Proof. intros H. unfold up_page. Z.to_euclidean_division_equations; lia. Qed.

Definition with_info (L : Linker) (l : list SegClass) : list (SegClass * SegInfo) := (fun c => (c, l_segs L c)) <$> l.

Lemma seg_offsets_keys L cur l : fst <$> (seg_offsets cur (with_info L l)).1 = List.filter (fun c => sg_used (l_segs L c)) l.
Proof.
  revert cur. induction l as [|c l IH]; intros cur; [done|]. cbn [with_info fmap list_fmap seg_offsets List.filter].
  destruct (sg_used (l_segs L c)); [|apply IH]. specialize (IH (u64 (round_page cur + sg_filesz (l_segs L c)))).
  destruct (seg_offsets _ _) as [t e]. cbn [fst fmap list_fmap] in IH |- *. by rewrite IH.
Qed.

(** A segment is in the file at its offset. *)
Definition seg_at (L : Linker) (f : list Z) (off : Z) (c : SegClass) : Prop :=
  0 <= off /\ off mod 0x1000 = 0 /\ off + sg_filesz (l_segs L c) <= Z.of_nat (length f) /\
  exists bs, segment_bytes L c = Done bs /\ Z.of_nat (length bs) = sg_filesz (l_segs L c) /\
    forall i, 0 <= i < sg_filesz (l_segs L c) -> byte_at f (off + i) = byte_at bs i.

Lemma seg_at_prefix L f f' off c : f `prefix_of` f' -> seg_at L f off c -> seg_at L f' off c.
Proof.
  intros Hp (H0 & Hm & Hl & bs & Hb & Hbl & H). pose proof (prefix_length _ _ Hp).
  split; [done|]. split; [done|]. split; [lia|]. exists bs. split; [done|]. split; [done|]. intros i Hi. rewrite (byte_at_prefix _ _ _ Hp) by lia. by apply H.
Qed.

Lemma write_segments L fl l cur f f' :
  (forall c bs, segment_bytes L c = Done bs -> sg_used (l_segs L c) = true -> Z.of_nat (length bs) = sg_filesz (l_segs L c)) ->
  (forall c off, (c, off) ∈ (seg_offsets cur (with_info L l)).1 -> fl_seg_file_off fl c = off) ->
  rfold (write_segment L fl) f l = Done f' -> Z.of_nat (length f) = cur -> Z.of_nat (length f') + 0x1000 < 2 ^ 64 ->
  f `prefix_of` f' /\ (forall c, c ∈ l -> sg_used (l_segs L c) = true -> cur <= fl_seg_file_off fl c /\ seg_at L f' (fl_seg_file_off fl c) c).
Proof.
  intros Hseg. revert cur f. induction l as [|c l IH]; intros cur f Hoff Hf Hc Hlen.
  { injection Hf as <-. split; [done|]. by intros c ?%elem_of_nil. }
  cbn [rfold] in Hf. destruct (write_segment L fl f c) as [f1| |] eqn:Ew; [|done|done]. cbn [rbind] in Hf. unfold write_segment in Ew.
  cbn [with_info fmap list_fmap seg_offsets] in Hoff. destruct (sg_used (l_segs L c)) eqn:Eu.
  2: { injection Ew as <-. destruct (IH cur f Hoff Hf Hc Hlen) as [P H]. split; [done|]. intros d [->|Hd]%elem_of_cons Hud; [congruence|by apply H]. }
  destruct (segment_bytes L c) as [bs| |] eqn:Eb; [|done|done]. cbn [rbind] in Ew. injection Ew as <-. pose proof (Hseg _ _ Eb Eu) as Lbs.
  destruct (seg_offsets (u64 (round_page cur + sg_filesz (l_segs L c))) _) as [t e] eqn:Es. cbn [fst] in Hoff.
  pose proof (Hoff c (round_page cur) ltac:(left)) as Eo. rewrite Eo in Hf.
  assert (Hp : forall g, rfold (write_segment L fl) g l = Done f' -> Z.of_nat (length g) <= Z.of_nat (length f')).
  { clear. revert f'. induction l as [|d l IH]; intros f' g Hg; cbn in Hg; [by injection Hg as ->|]. destruct (write_segment L fl g d) as [g1| |] eqn:E; [|done|done].
    cbn in Hg. apply IH in Hg. unfold write_segment in E. destruct (sg_used _); [|by injection E as <-]. destruct (segment_bytes L d); [|done|done].
    injection E as <-. unfold pad_to in Hg. rewrite !length_app in Hg. lia. }
  pose proof (Hp _ Hf) as Hle. unfold pad_to in Hle. rewrite !length_app in Hle.
  assert (round_page cur = up_page cur) as Er by (unfold round_page; apply round_page_up; lia). pose proof (up_page_spec cur) as [Hup Hal].
  rewrite Er in *. pose proof (pad_to_length f (up_page cur) ltac:(lia)) as Lp. unfold pad_to in Lp. rewrite length_app in Lp.
  destruct (IH (up_page cur + sg_filesz (l_segs L c)) _ ltac:(rewrite uwrap_small in Es by lia; fold (with_info L l) in Es; rewrite Es; intros; apply Hoff; by right) Hf
    ltac:(unfold pad_to; rewrite !length_app; lia) Hlen) as [P H].
  split; [etransitivity; [|exact P]; etransitivity; [apply pad_to_prefix|by eexists]|].
  intros d [->|Hd]%elem_of_cons Hud; [|destruct (H d Hd Hud); split; [lia|done]]. rewrite Eo. split; [lia|].
  eapply seg_at_prefix; [exact P|]. split; [lia|]. split; [done|]. unfold pad_to. rewrite !length_app. split; [lia|]. exists bs. split; [done|]. split; [done|].
  intros i Hi. rewrite byte_at_app_r; rewrite length_app; [|lia]. f_equal. lia.
Qed.

(** ** Headers *)

Lemma ehdr_bytes_length op L fl : length (ehdr_bytes op L fl) = 64%nat.
Proof. done. Qed.
Lemma phdr_bytes_length t fl o v fs ms a : length (phdr_bytes t fl o v fs ms a) = 56%nat.
Proof. done. Qed.

Definition exe_ehdr (entry phnum : Z) : Elf64_Ehdr := mkehdr (ELFMAG ++ [ELFCLASS64; ELFDATA2LSB; 1; 0] ++ replicate 8 0) ET_EXEC EM_BPF entry EHDR_SIZE PHDR_SIZE phnum.

Lemma ehdr_of_bytes op L fl : op_mode op = STATIC_EXE ->
  ehdr_of (ehdr_bytes op L fl) = exe_ehdr (l_entry L mod 2 ^ 64) (fl_phnum fl mod 2 ^ 16).
Proof.
  intros Hm. unfold ehdr_bytes. rewrite decide_True by done. unfold ehdr_of, exe_ehdr. f_equal.
  - exact (le_value_bytes 8 (l_entry L)).
  - exact (le_value_bytes 2 (fl_phnum fl)).
Qed.

Lemma phdr_of_bytes t flags o v fs ms a :
  phdr_of (phdr_bytes t flags o v fs ms a) = mkphdr (t mod 2 ^ 32) (flags mod 2 ^ 32) (o mod 2 ^ 64) (v mod 2 ^ 64) (fs mod 2 ^ 64) (ms mod 2 ^ 64).
Proof.
  unfold phdr_of. f_equal.
  - exact (le_value_bytes 4 t).
  - exact (le_value_bytes 4 flags).
  - exact (le_value_bytes 8 o).
  - exact (le_value_bytes 8 v).
  - exact (le_value_bytes 8 fs).
  - exact (le_value_bytes 8 ms).
Qed.

Lemma slice_app a b c n : Z.of_nat (length b) = n -> slice (a ++ b ++ c) (Z.of_nat (length a)) n = b.
Proof.
  intros <-. unfold slice. rewrite !length_app. zcases.
  - destruct b; [done|cbn in *; lia].
  - rewrite Z.min_l by lia. by rewrite !Nat2Z.id, drop_app_length, take_app_length.
Qed.

Lemma pread_app a b c n : Z.of_nat (length b) = n -> Z.of_nat (length (a ++ b ++ c)) < 2 ^ 63 -> pread (a ++ b ++ c) (Z.of_nat (length a)) n = Some b.
Proof.
  intros Hn Hl. rewrite !length_app in Hl. unfold pread. rewrite (sval_unique 64 _ (Z.of_nat (length a))) by (done || lia).
  rewrite (proj2 (Z.ltb_ge _ _)), (proj2 (Z.leb_gt _ _)) by lia. cbn [orb]. by rewrite slice_app.
Qed.

(** A header and the program headers behind it are read back. *)
Section Headers.
Context (op : Options) (L : Linker) (fl : FileLayout) (phs : list (list Z)) (rest : list Z).
Context (Hst : op_mode op = STATIC_EXE) (Hph : Forall (fun p => length p = 56%nat) phs) (Hn : fl_phnum fl = Z.of_nat (length phs))
  (Hfew : Z.of_nat (length phs) < 2 ^ 16).
Let f := ehdr_bytes op L fl ++ concat phs ++ rest.
Context (Hshort : Z.of_nat (length f) < 2 ^ 63).

Lemma read_ehdr_written : read_ehdr f = inr (exe_ehdr (l_entry L mod 2 ^ 64) (fl_phnum fl)).
Proof.
  unfold read_ehdr. pose proof (pread_app [] (ehdr_bytes op L fl) (concat phs ++ rest) EHDR_SIZE eq_refl Hshort) as E. cbn [app length] in E.
  change (Z.of_nat 0) with 0 in E. fold f in E. rewrite E. unfold has_size. rewrite ehdr_bytes_length. change (Z.of_nat 64 =? EHDR_SIZE) with true. cbn [negb].
  rewrite ehdr_of_bytes by done. cbn zeta. rewrite (Z.mod_small (fl_phnum fl)) by lia. done.
Qed.

Lemma read_phdr_written eh i p : e_phoff eh = 64 -> e_phentsize eh = 56 -> phs !! i = Some p -> read_phdr f eh (Z.of_nat i) = Some (phdr_of p).
Proof.
  intros Ho He Hp. pose proof (lookup_lt_Some _ _ _ Hp) as Hi. pose proof Hph as Hph'. rewrite list.Forall_forall in Hph'.
  assert (length p = 56%nat) as Lp by (apply Hph'; by eapply list_elem_of_lookup_2).
  assert (forall l : list (list Z), Forall (fun p => length p = 56%nat) l -> length (concat l) = (56 * length l)%nat) as Hc.
  { intros l. induction 1 as [|x l Hx _ IH]; [done|]. cbn [concat length]. rewrite length_app. lia. }
  pose proof (take_drop_middle _ _ _ Hp) as Em. unfold read_phdr. rewrite Ho, He.
  assert (f = (ehdr_bytes op L fl ++ concat (take i phs)) ++ p ++ concat (drop (Datatypes.S i) phs) ++ rest) as Ef.
  { unfold f. rewrite <- Em at 1. rewrite concat_app. cbn [concat]. by rewrite <- !app_assoc. }
  assert (u64 (64 + Z.of_nat i * 56) = Z.of_nat (length (ehdr_bytes op L fl ++ concat (take i phs)))) as ->.
  { rewrite length_app, Hc by (by apply Forall_take). rewrite ehdr_bytes_length, length_take_le by lia. rewrite uwrap_small by lia. lia. }
  rewrite Ef. rewrite pread_app; [|by rewrite Lp|by rewrite <- Ef]. unfold has_size. by rewrite Lp.
Qed.

Lemma phdrs_written eh : e_phoff eh = 64 -> e_phentsize eh = 56 -> e_phnum eh = fl_phnum fl -> phdrs f eh = (fun p => Some (phdr_of p)) <$> phs.
Proof.
  intros Ho He En. unfold phdrs. rewrite En, Hn. apply list_eq. intros i. rewrite !list_lookup_fmap. destruct (phs !! i) as [p|] eqn:Ep.
  - pose proof (lookup_lt_Some _ _ _ Ep). rewrite lookup_seqZ_lt by lia. cbn [fmap option_fmap option_map]. rewrite Z.add_0_l. f_equal. by apply read_phdr_written.
  - apply lookup_ge_None in Ep. by rewrite lookup_seqZ_ge by lia.
Qed.

End Headers.

(** ** The file of a static program *)

Lemma find_off_elem t c off : NoDup (fst <$> t) -> (c, off) ∈ t -> find_off t c = off.
Proof.
  unfold find_off. induction t as [|[d o] t IH]; intros Hn Hin; [by apply elem_of_nil in Hin|]. cbn [fmap list_fmap fst] in Hn.
  apply NoDup_cons in Hn as [Hd Hn]. cbn [List.find fst]. apply elem_of_cons in Hin as [[= -> ->]|Hin]; [by rewrite bool_decide_true|].
  rewrite bool_decide_false; [by apply IH|]. intros ->. apply Hd. apply list_elem_of_fmap. by exists (c, off).
Qed.

Lemma seg_offsets_head L cur l h : List.find (fun c => sg_used (l_segs L c)) l = Some h -> (h, round_page cur) ∈ (seg_offsets cur (with_info L l)).1.
Proof.
  induction l as [|c l IH]; [done|]. cbn [List.find with_info fmap list_fmap seg_offsets]. destruct (sg_used (l_segs L c)); [|done].
  intros [= ->]. destruct (seg_offsets (u64 _) _) as [t e]. left.
Qed.

Lemma classes_nodup : NoDup classes.
Proof. unfold classes. repeat (apply NoDup_cons; split; [rewrite ?elem_of_cons, elem_of_nil; intuition congruence|]). apply NoDup_nil_2. Qed.

Lemma classes_all c : c ∈ classes.
Proof. unfold classes. rewrite !elem_of_cons. destruct c; tauto. Qed.

Lemma filter_nodup {A} (f : A -> bool) (l : list A) : NoDup l -> NoDup (List.filter f l).
Proof.
  induction 1 as [|x l Hx _ IH]; cbn; [constructor|]. destruct (f x); [|done]. constructor; [|done].
  intros Hin. apply Hx. apply list_elem_of_In in Hin. apply List.filter_In in Hin as [Hin _]. by apply list_elem_of_In.
Qed.

Definition used_classes (L : Linker) : list SegClass := List.filter (fun c => sg_used (l_segs L c)) classes.

Lemma used_elem L c : c ∈ used_classes L <-> sg_used (l_segs L c) = true.
Proof.
  unfold used_classes. rewrite list_elem_of_In, List.filter_In, <- list_elem_of_In. split; [by intros [_ ?]|]. intros H. split; [apply classes_all|done].
Qed.

Section StaticFile.
Context (op : Options) (Hst : op_mode op = STATIC_EXE).

Lemma static_pic : pic op = false.
Proof. unfold pic. by rewrite Hst. Qed.

Lemma layout_static L sx extras idx : let fl := compute_file_layout op L sx extras idx None in
  fl_phnum fl = 1 + Z.of_nat (length (used_classes L)) /\ fl_has_phdr fl = true /\ fl_seg_data_off fl = 0x1000 /\
  (forall c off, (c, off) ∈ (seg_offsets 0x1000 (with_info L classes)).1 -> fl_seg_file_off fl c = off).
Proof.
  cbn zeta. unfold compute_file_layout, header_count, need_dynamic, need_ehdr, used_classes. rewrite static_pic, Hst.
  change ((fun c => (c, l_segs L c)) <$> classes) with (with_info L classes).
  set (n := bool_z (sg_used (l_segs L SEG_TEXT)) + _ + _ + _ + _ + _).
  assert (round_page (EHDR_SIZE + PHDR_SIZE * n) = 0x1000 /\ n = 1 + Z.of_nat (length (List.filter (fun c => sg_used (l_segs L c)) classes))) as [Er En].
  { unfold n. cbn [classes List.filter]. destruct (sg_used (l_segs L SEG_TEXT)), (sg_used (l_segs L SEG_RODATA)), (sg_used (l_segs L SEG_DATA)); done. }
  rewrite Er. destruct (seg_offsets _ _) as [t e] eqn:Es. destruct (extra_offsets _ _) as [t' e']. cbn [fl_phnum fl_has_phdr fl_seg_data_off fl_seg_file_off fst].
  split_and!; [done|done|done|]. intros c off Hin. apply find_off_elem; [|done].
  change t with (t, e).1. rewrite <- Es, seg_offsets_keys. apply filter_nodup, classes_nodup.
Qed.

(** What [write_file] does without dynamic sections. *)
Lemma write_file_static {ord : StringOrder} keep L debug f : write_file op keep L debug = Done f ->
  exists fl ph f1 rest,
    fl_phnum fl = 1 + Z.of_nat (length (used_classes L)) /\ fl_has_phdr fl = true /\
    (forall c off, (c, off) ∈ (seg_offsets 0x1000 (with_info L classes)).1 -> fl_seg_file_off fl c = off) /\
    is_Some (head_seg L) /\ length ph = 56%nat /\ p_type (phdr_of ph) = PT_PHDR /\
    let hdr := ehdr_bytes op L fl ++ concat (ph :: (load_phdr L fl <$> used_classes L)) in
    rfold (write_segment L fl) (pad_to hdr 0x1000) classes = Done f1 /\ f = f1 ++ rest.
Proof.
  unfold write_file, build_extras, need_dynamic. rewrite static_pic. cbn [rbind].
  rewrite decide_False by congruence. destruct (build_shstrtab _ _) as [extras names]. cbn [rbind].
  set (fl := compute_file_layout _ _ _ _ _ _). destruct (layout_static L (section_numbers L) extras (ss_idx names)) as (Hn & Hp & Hd & Ho). fold fl in Hn, Hp, Hd, Ho.
  unfold write_phdrs. rewrite Hp. destruct (head_seg L) as [h|] eqn:Eh; [|done]. cbn [inside rbind].
  set (ph := phdr_bytes PT_PHDR _ _ _ _ _ _). rewrite !app_nil_r. unfold write_payload. rewrite Hd.
  change (ph ++ concat (load_phdr L fl <$> List.filter _ classes)) with (concat (ph :: (load_phdr L fl <$> used_classes L))).
  destruct (rfold _ _ _) as [f1| |] eqn:Ef; [|done|done]. cbn [rbind]. intros [= <-].
  assert (forall l g, exists r, foldl write_extra g l = g ++ r) as Hx.
  { induction l as [|x l IH]; intros g; [exists []; by rewrite app_nil_r|]. cbn [foldl]. destruct (IH (write_extra g x)) as [r ->].
    unfold write_extra, pad_to. rewrite <- !app_assoc. by eexists. }
  destruct (Hx (combine extras (fl_extra_offs fl)) f1) as [r ->]. exists fl, ph, f1. eexists. do 6 (split; [done|]). cbn zeta.
  split; [exact Ef|]. by rewrite <- app_assoc.
Qed.
End StaticFile.

(** ** The segments the loader maps *)

Definition head_room (L : Linker) (c : SegClass) : Z := if bool_decide (head_seg L = Some c) then 0x1000 else 0.

(** The segment of a class as the loader sees it: the first one starts with the
    headers. *)
Definition file_seg (L : Linker) (fl : FileLayout) (c : SegClass) : Seg :=
  let s := l_segs L c in let d := head_room L c in
  mkseg 0 (sg_vaddr s - d) (sg_memsz s + d) (fl_seg_file_off fl c - d) (sg_filesz s + d) (sg_flags s).

Section Mapped.
Context (base : Z) (L : Linker) (Hfit : fits base (l_objects L)) (Hpl : placed base L).
Local Notation os := (l_objects L).

Lemma layout_end_page : layout_end base os mod 0x1000 = 0.
Proof.
  pose proof (starts _ _ Hfit) as ((_ & _ & HD) & _). destruct Hfit as (_ & _ & Hs & _).
  exact (proj2 (proj2 (seg_next_ge (start base os SEG_DATA) _ (bucket_sized os SEG_DATA Hs) HD))).
Qed.

(** A used segment lies behind the headers and below the end. *)
Lemma used_range c : sg_used (l_segs L c) = true -> let s := l_segs L c in
  base + 0x1000 <= sg_vaddr s /\ sg_vaddr s mod 0x1000 = 0 /\ 0 <= sg_filesz s <= sg_memsz s /\ sg_vaddr s + sg_memsz s <= layout_end base os /\
  0 <= sg_flags s < 8.
Proof.
  intros Hu. cbn zeta. destruct (used_bucket base L Hpl c Hu) as [Hne ->]. rewrite (placed_segs base L Hpl c). unfold info_at. cbn [sg_filesz sg_memsz sg_flags].
  pose proof (starts _ _ Hfit) as ((T1 & R1 & D1) & T2 & TR & RD & _). pose proof (seg_room base os c Hfit) as [_ Hend]. destruct Hfit as (_ & _ & Hs & _).
  pose proof (mem_end_ge _ (bucket_sized os c Hs)). assert (0 <= seg_flags c < 8) by (by destruct c). destruct c; split_and!; lia || done.
Qed.

Lemma head_vaddr h : head_seg L = Some h -> sg_used (l_segs L h) = true /\ sg_vaddr (l_segs L h) = base + 0x1000.
Proof.
  unfold head_seg, classes. cbn [List.find]. rewrite !(placed_segs base L Hpl). unfold info_at. cbn [sg_used sg_vaddr].
  destruct (bool_decide (bucket os SEG_TEXT = [])) eqn:ET; cbn [negb]; [|by intros [= <-]; rewrite ET].
  assert (start base os SEG_RODATA = base + 0x1000) as ER by (unfold start, seg_next; by rewrite ET).
  destruct (bool_decide (bucket os SEG_RODATA = [])) eqn:ERO; cbn [negb]; [|by intros [= <-]; rewrite ERO].
  assert (start base os SEG_DATA = base + 0x1000) as ED by (rewrite <- ER; unfold start; unfold seg_next at 1; by rewrite ERO).
  destruct (bool_decide (bucket os SEG_DATA = [])) eqn:EDA; cbn [negb]; [done|]. intros [= <-]. by rewrite EDA.
Qed.

Lemma room_range c : sg_used (l_segs L c) = true -> base <= sg_vaddr (l_segs L c) - head_room L c /\ (head_room L c = 0 \/ head_room L c = 0x1000) /\
  (sg_vaddr (l_segs L c) - head_room L c) mod 0x1000 = 0.
Proof.
  intros Hu. destruct (used_range c Hu) as (A & B & _). unfold head_room.
  case_bool_decide; (split; [lia|]; split; [lia|]); Z.to_euclidean_division_equations; lia.
Qed.

(** The used segments in order, each ends before the next one's pages. *)
Lemma used_before c d : (c, d) ∈ [(SEG_TEXT, SEG_RODATA); (SEG_TEXT, SEG_DATA); (SEG_RODATA, SEG_DATA)] ->
  sg_used (l_segs L c) = true -> sg_used (l_segs L d) = true ->
  sg_vaddr (l_segs L c) + sg_memsz (l_segs L c) <= sg_vaddr (l_segs L d) /\ head_room L d = 0.
Proof.
  intros Hcd Hc Hd. split.
  - destruct (used_bucket base L Hpl c Hc) as [Nc ->]. destruct (used_bucket base L Hpl d Hd) as [Nd ->].
    rewrite (placed_segs base L Hpl c). cbn [sg_memsz info_at].
    pose proof (starts _ _ Hfit) as (_ & _ & TR & RD & _ & A & B & _).
    rewrite !elem_of_cons, elem_of_nil in Hcd. destruct Hcd as [[= -> ->]|[[= -> ->]|[[= -> ->]|[]]]]; [specialize (A Nc)|specialize (A Nc)|specialize (B Nc)]; lia.
  - unfold head_room. rewrite bool_decide_false; [done|]. unfold head_seg, classes. cbn [List.find].
    rewrite !elem_of_cons, elem_of_nil in Hcd. destruct Hcd as [[= -> ->]|[[= -> ->]|[[= -> ->]|[]]]]; rewrite Hc; [done|done|]. by destruct (sg_used (l_segs L SEG_TEXT)).
Qed.

(** The pages of the segments. *)
Lemma file_seg_pages fl c : sg_used (l_segs L c) = true -> let s := l_segs L c in
  page_start (file_seg L fl c) = sg_vaddr s - head_room L c /\
  sg_vaddr s + sg_memsz s <= page_end (file_seg L fl c) /\ forall n, n mod 0x1000 = 0 -> sg_vaddr s + sg_memsz s <= n -> page_end (file_seg L fl c) <= n.
Proof.
  intros Hu. cbn zeta. destruct (used_range c Hu) as (A & B & C & D & _). destruct (room_range c Hu) as (E & F & G). pose proof Hfit as (H0 & _ & _ & He).
  unfold page_start, page_end, file_seg. cbn [s_vaddr s_memsz].
  replace (sg_vaddr (l_segs L c) - head_room L c + (sg_memsz (l_segs L c) + head_room L c)) with (sg_vaddr (l_segs L c) + sg_memsz (l_segs L c)) by lia.
  split; [rewrite page_down_eq by lia; unfold PAGE; rewrite G; lia|]. split.
  - pose proof (page_up_bounds (sg_vaddr (l_segs L c) + sg_memsz (l_segs L c))) as Hb. unfold PAGE in Hb. lia.
  - intros n Hn Hle. apply page_up_le; unfold PAGE; lia || done.
Qed.

Lemma file_segs_disjoint fl : pages_disjoint (file_seg L fl <$> used_classes L).
Proof.
  assert (forall c d, (c, d) ∈ [(SEG_TEXT, SEG_RODATA); (SEG_TEXT, SEG_DATA); (SEG_RODATA, SEG_DATA)] ->
    sg_used (l_segs L c) = true -> sg_used (l_segs L d) = true -> pages_apart (file_seg L fl c) (file_seg L fl d)) as H.
  { intros c d Hcd Hc Hd. destruct (used_before c d Hcd Hc Hd) as [Hb Hr]. left. destruct (file_seg_pages fl d Hd) as (-> & _).
    rewrite Hr, Z.sub_0_r. apply (file_seg_pages fl c Hc); [|done]. by apply used_range. }
  assert (forall c d, (c, d) ∈ [(SEG_TEXT, SEG_RODATA); (SEG_TEXT, SEG_DATA); (SEG_RODATA, SEG_DATA)] <-> (c, d) = (SEG_TEXT, SEG_RODATA) \/ (c, d) = (SEG_TEXT, SEG_DATA) \/ (c, d) = (SEG_RODATA, SEG_DATA)) as Hp.
  { intros. rewrite !elem_of_cons, elem_of_nil. tauto. }
  unfold used_classes, classes. cbn [List.filter].
  destruct (sg_used (l_segs L SEG_TEXT)) eqn:ET, (sg_used (l_segs L SEG_RODATA)) eqn:ER, (sg_used (l_segs L SEG_DATA)) eqn:ED;
    cbn [fmap list_fmap pages_disjoint]; rewrite ?list.Forall_cons, ?list.Forall_nil; split_and?; try done; (apply H; [apply Hp; tauto|done|done]).
Qed.

(** The program header of a segment, read back. *)
Lemma load_phdr_seg fl c : fl_has_phdr fl = true -> (forall h, head_seg L = Some h -> fl_seg_file_off fl h = 0x1000) ->
  sg_used (l_segs L c) = true -> 0 <= fl_seg_file_off fl c < 2 ^ 64 ->
  length (load_phdr L fl c) = 56%nat /\ p_type (phdr_of (load_phdr L fl c)) = PT_LOAD /\ seg_of 0 0 (phdr_of (load_phdr L fl c)) = file_seg L fl c.
Proof.
  intros Hp Hh Hu Hoff. destruct (used_range c Hu) as (A & B & C & D & F). destruct (room_range c Hu) as (E & E' & _). pose proof Hfit as (H0 & _ & _ & He).
  unfold load_phdr, head_len, file_seg, head_room in *. rewrite Hp. cbn [andb]. case_bool_decide as Eh; cbn [andb].
  - rewrite Eh. cbn [from_option]. rewrite (Hh _ Eh). change (0x1000 =? 0) with false. cbn [negb]. rewrite phdr_of_bytes. unfold seg_of. cbn [p_type p_flags p_offset p_vaddr p_filesz p_memsz].
    split; [done|]. split; [done|]. rewrite (uwrap_small 64 (sg_vaddr _ - _)), (uwrap_small 64 (sg_filesz _ + _)), (uwrap_small 64 (sg_memsz _ + _)) by lia.
    rewrite !Z.mod_small by lia. rewrite uwrap_small by lia. done.
  - rewrite phdr_of_bytes. unfold seg_of. cbn [p_type p_flags p_offset p_vaddr p_filesz p_memsz]. split; [done|]. split; [done|].
    rewrite !Z.mod_small by lia. rewrite uwrap_small by lia. f_equal; lia.
Qed.

End Mapped.

(** ** The loader on the file *)

Lemma find_interp_none {lib : HostLib} f (l : list Elf64_Phdr) : Forall (fun p => p_type p <> PT_INTERP) l -> find_interp f (Some <$> l) = NoInterp.
Proof.
  induction 1 as [|p l Hp _ IH]; [done|]. cbn [fmap list_fmap find_interp]. rewrite (proj2 (Z.eqb_neq _ _)) by done. exact IH.
Qed.

Lemma load_phdr_length L fl c : length (load_phdr L fl c) = 56%nat.
Proof. unfold load_phdr. by destruct (_ && _). Qed.

Lemma used_few L : (length (used_classes L) <= 3)%nat.
Proof. unfold used_classes, classes. cbn [List.filter]. destruct (sg_used (l_segs L SEG_TEXT)), (sg_used (l_segs L SEG_RODATA)), (sg_used (l_segs L SEG_DATA)); cbn; lia. Qed.

(** What a loader needs to know of a file that was written. *)
Lemma written_image {ord : StringOrder} op keep L debug f :
  op_mode op = STATIC_EXE -> fits (guest_base op) (l_objects L) -> placed (guest_base op) L ->
  write_file op keep L debug = Done f -> Z.of_nat (length f) < 2 ^ 63 ->
  exists fl eh, read_ehdr f = inr eh /\ eh = exe_ehdr (l_entry L mod 2 ^ 64) (e_phnum eh) /\
    (forall lib : HostLib, find_interp f (phdrs f eh) = NoInterp) /\
    (forall path n, layout_module (mkelf path eh f) 0 (e_type eh =? ET_DYN) n = (n, 0, file_seg L fl <$> used_classes L)) /\
    used_classes L <> [] /\
    forall c, sg_used (l_segs L c) = true -> seg_at L f (fl_seg_file_off fl c) c /\ head_room L c <= fl_seg_file_off fl c.
Proof.
  intros Hst Hfit Hpl Hw Hlen. destruct (write_file_static op Hst _ _ _ _ Hw) as (fl & ph & f1 & rest & Hn & Hp & Ho & [h Eh] & Lph & Tph & Hf & Ef).
  cbn zeta in Hf. set (phs := ph :: (load_phdr L fl <$> used_classes L)) in *. pose proof (used_few L) as Hfew.
  assert (length phs = Datatypes.S (length (used_classes L))) as Lphs by (unfold phs; cbn [length]; by rewrite length_fmap).
  assert (Forall (fun p => length p = 56%nat) phs) as Fphs.
  { constructor; [done|]. apply Forall_fmap, list.Forall_forall. intros c _. apply load_phdr_length. }
  assert (length (concat phs) <= 224)%nat as Lc by (unfold phs, used_classes, classes; cbn [List.filter];
    destruct (sg_used (l_segs L SEG_TEXT)), (sg_used (l_segs L SEG_RODATA)), (sg_used (l_segs L SEG_DATA)); cbn [fmap list_fmap concat]; rewrite !length_app, ?load_phdr_length; cbn [length]; lia).
  assert (length f1 <= length f)%nat as Lf by (rewrite Ef, length_app; lia).
  destruct (write_segments L fl classes 0x1000 _ _ ltac:(intros c bs Hb Hu; exact (proj1 (segment_bytes_spec _ _ Hfit Hpl c bs Hb Hu))) Ho Hf) as [Pf Hc].
  { apply pad_to_length. rewrite length_app, ehdr_bytes_length. lia. }
  { lia. }
  assert (f1 `prefix_of` f) as Pf1 by (rewrite Ef; by eexists).
  assert (exists r, f = ehdr_bytes op L fl ++ concat phs ++ r) as [r Er].
  { destruct Pf as [r1 ->]. rewrite Ef. unfold pad_to. rewrite <- !app_assoc. by eexists. }
  assert (Forall (fun c => p_type (phdr_of (load_phdr L fl c)) = PT_LOAD /\ seg_of 0 0 (phdr_of (load_phdr L fl c)) = file_seg L fl c) (used_classes L)) as Hloads.
  { apply list.Forall_forall. intros c Hu%used_elem. destruct (Hc c (classes_all c) Hu) as [Hlo (H0 & _ & Hhi & _)].
    destruct (used_range _ L Hfit Hpl c Hu) as (_ & _ & Hfs & _).
    apply (load_phdr_seg _ L Hfit Hpl fl c Hp); [|done|lia].
    intros h' Eh'. rewrite (Ho h' (round_page 0x1000)); [done|]. by apply seg_offsets_head. }
  assert (p_type <$> (phdr_of <$> phs) = PT_PHDR :: ((fun _ => PT_LOAD) <$> used_classes L)) as Htypes.
  { unfold phs. cbn [fmap list_fmap]. rewrite Tph. f_equal. rewrite <- !list_fmap_compose. apply list_fmap_ext. intros i c Hi.
    rewrite list.Forall_forall in Hloads. apply Hloads. by eapply list_elem_of_lookup_2. }
  set (eh := exe_ehdr (l_entry L mod 2 ^ 64) (fl_phnum fl)).
  assert (phdrs f eh = Some <$> (phdr_of <$> phs)) as Eph.
  { rewrite <- list_fmap_compose. rewrite Er. rewrite Er in Hlen. apply phdrs_written; try done; lia. }
  exists fl, eh. split.
  { rewrite Er. rewrite Er in Hlen. apply read_ehdr_written; try done; lia. }
  split; [done|]. split.
  { intros lib. rewrite Eph. apply find_interp_none. assert (Forall (fun t => t <> PT_INTERP) (p_type <$> (phdr_of <$> phs))) as Ht.
    { rewrite Htypes. constructor; [done|]. apply Forall_fmap, list.Forall_forall. done. }
    exact (proj1 (Forall_fmap p_type (fun t => t <> PT_INTERP) _) Ht). }
  split.
  { intros path n. unfold layout_module. cbn [ef_file ef_ehdr]. unfold loads. rewrite Eph. change (e_type eh =? ET_DYN) with false. cbn iota. f_equal.
    assert (forall l : list Elf64_Phdr, omap id (Some <$> l) = l) as -> by (induction l as [|x l IH]; cbn; [done|by f_equal]).
    unfold phs. cbn [fmap list_fmap]. rewrite filter_cons_False by (rewrite Tph; done). rewrite <- list_fmap_compose. clear -Hloads.
    induction Hloads as [|c l [Ht Hs] _ IH]; [done|]. cbn [fmap list_fmap compose]. rewrite filter_cons_True by done. cbn [fmap list_fmap]. f_equal; [done|exact IH]. }
  split.
  { intros En. eapply (head_vaddr (guest_base op)) in Eh as [Hu _]; [|eassumption..]. apply used_elem in Hu. rewrite En in Hu. by apply elem_of_nil in Hu. }
  intros c Hu. destruct (Hc c (classes_all c) Hu) as [Hlo Hat]. split; [by apply (seg_at_prefix L f1)|]. unfold head_room. case_bool_decide; lia.
Qed.

(** The entry of a finished link is an address. *)
Lemma run_entry {lib : LibElf} op inputs L : op_mode op = STATIC_EXE -> run op inputs = Done L ->
  0 <= l_entry L < 2 ^ 64 /\ exists L0, run_link op L0 = Done L.
Proof.
  intros Hst Hrun. unfold run in Hrun. destruct (load_all op inputs) as [L0| |]; [|done|done]. cbn [rbind] in Hrun. rewrite Hst in Hrun.
  split; [|by exists L0]. destruct (run_link_phases _ _ _ Hrun) as (L1 & L2 & L3 & e & _ & _ & _ & _ & He & ->). cbn [set_entry l_entry].
  unfold find_entry in He. rewrite decide_False in He by congruence. destruct (l_globals L3 !! op_entry op) as [[oi si]|]; [|injection He as <-; lia].
  destruct (nth_sym _ _ _) as [s|]; [|done]. cbn [inside rbind] in He. unfold sym_addr in He.
  destruct (l_objects L3 !! oi) as [o|]; [|done]. cbn [inside rbind] in He. destruct (get _ _); [|done]. cbn [inside rbind] in He. injection He as <-. apply u64_range.
Qed.

Section Load.
Context (base : Z) (L : Linker) (Hfit : fits base (l_objects L)) (Hpl : placed base L) (fl : FileLayout) (f : list Z).
Context (Hat : forall c, sg_used (l_segs L c) = true -> seg_at L f (fl_seg_file_off fl c) c /\ head_room L c <= fl_seg_file_off fl c).

Lemma file_seg_ok path eh c : sg_used (l_segs L c) = true -> 0 < sg_memsz (l_segs L c) -> Z.of_nat (length f) < 2 ^ 63 -> Forall is_byte f ->
  seg_ok [mkelf path eh f] (file_seg L fl c).
Proof.
  intros Hu Hpos Hlen Hb. destruct (used_range base L Hfit Hpl c Hu) as (A & B & C & D & _). destruct (room_range base L Hfit Hpl c Hu) as (E & E' & _).
  destruct (Hat c Hu) as [(H0 & _ & H1 & _) H2]. pose proof Hfit as (Hb0 & _ & _ & He).
  split; [by eexists|]. split; [|done]. constructor; unfold file_seg, seg_file, PAGE; cbn [s_vaddr s_memsz s_filesz s_offset s_file lookup list_lookup from_option ef_file]; lia.
Qed.

(** The byte the segment has for a section. *)
Lemma section_in_file k s i : k.2 <> 0%nat -> nth_section (l_objects L) k = Some s -> ls_loadable s = true -> 0 <= i < ls_size s ->
  let c := ls_seg s in let g := file_seg L fl c in let j := ls_guest_addr s + i - s_vaddr g in
  sg_used (l_segs L c) = true /\ 0 <= j < s_memsz g /\ (if j <? s_filesz g then byte_at f (s_offset g + j) else 0) = section_byte L k s i.
Proof.
  intros Hk Hs Hl Hi. cbn zeta. destruct (section_spot base _ k s Hk Hs Hl) as [a Ha].
  assert (ls_guest_addr s = a) as ->.
  { destruct Hpl as [_ Hp]. rewrite list.Forall_forall in Hp. exact (Hp _ Ha). }
  pose proof (spot_lies _ _ _ _ _ Hfit Ha) as [Hlies _]. pose proof (spot_class _ _ _ _ _ Ha) as [Hin _].
  rewrite laid_out_info in Hlies by done. rewrite <- (placed_segs base L Hpl) in Hlies. destruct Hlies as (Hu & _ & Hlies). split; [done|].
  destruct (used_range base L Hfit Hpl (ls_seg s) Hu) as (A & B & C & D & _). destruct (room_range base L Hfit Hpl (ls_seg s) Hu) as (E & E' & _).
  destruct (Hat (ls_seg s) Hu) as [(H0 & _ & H1 & bs & Hbs & Lbs & Hf) H2]. destruct (segment_bytes_spec base L Hfit Hpl _ _ Hbs Hu) as [_ Hspec].
  destruct (used_bucket base L Hpl _ Hu) as [_ Hv]. rewrite <- Hv in Hin.
  unfold file_seg. cbn [s_vaddr s_memsz s_filesz s_offset]. unfold section_byte. destruct (ls_type s =? SHT_NOBITS) eqn:Et.
  - split; [lia|]. rewrite (proj2 (Z.ltb_ge _ _)) by lia. done.
  - split; [lia|]. rewrite (proj2 (Z.ltb_lt _ _)) by lia. unfold seg_spots in Hin. apply elem_of_app in Hin as [Hin|Hin].
    + pose proof (Hspec k s a i Hin Hi) as Hb. unfold section_byte in Hb. rewrite Et in Hb. rewrite <- Hb, <- Hf by lia. f_equal. lia.
    + exfalso. destruct (spots_elem _ _ _ _ Hin) as [Hb _]. cbn [fst] in Hb. apply list_elem_of_In, List.filter_In in Hb as [_ Hb].
      unfold is_nobits, of_type in Hb. cbn [snd] in Hb. congruence.
Qed.

End Load.

(** C23: A static program that links can be run: when its segments have room and
    the guest memory is free there, [load_elf] accepts the file the linker
    wrote, starts it at the entry the linker computed, and every section lies
    at its address with exactly the bytes the linker has for it - relocations
    and frame slots included, zeros for .bss -, while nothing outside the
    program's pages changes. *)
Theorem linked_program_loads {lib : LibElf} {ord : StringOrder} {env : HostEnv} {host : HostLib}
    op keep inputs debug L0 L f root path envp m others
  (Hst : op_mode op = STATIC_EXE) (Hrun : run op inputs = Done L0) (Hslots : fill_slots op L0 = Done L) (Hlink : link op keep inputs debug = Done f)
  (Hfit : fits (guest_base op) (l_objects L)) (Hfull : forall c, sg_used (l_segs L c) = true -> 0 < sg_memsz (l_segs L c))
  (Hlen : Z.of_nat (length f) < 2 ^ 63) (Hbytes : Forall is_byte f)
  (Henv : forall h size, env_mmap_fails h size = false) (Hwf : mem_wf m) (Hsh : share_ok (hst m) (maps m ++ others))
  (Hfree : Forall (fun x => m_paddr x + m_size x <= guest_base op \/ layout_end (guest_base op) (l_objects L) <= m_paddr x) (maps m)) :
  exists info m', load_elf root f path envp m = Some (info, m') /\ li_err info = 0 /\ li_entry info = l_entry L0 /\ mem_wf m' /\
    share_ok (hst m') (maps m' ++ others) /\
    (forall k s i, k.2 <> 0%nat -> nth_section (l_objects L) k = Some s -> ls_loadable s = true -> 0 <= i < ls_size s ->
       gbyte m' (ls_guest_addr s + i) = Some (section_byte L k s i)) /\
    (forall a, 0 <= a < 2 ^ 64 -> a < guest_base op \/ layout_end (guest_base op) (l_objects L) <= a -> gbyte m' a = gbyte m a).
Proof.
  destruct (run_entry _ _ _ Hst Hrun) as [Hentry [Lin Hrl]]. pose proof (fill_slots_same_place _ _ _ Hslots) as Hsame.
  assert (placed (guest_base op) L) as Hpl.
  { apply (placed_same _ _ _ Hsame). apply (run_link_placed _ _ _ Hrl). by apply (fits_same _ _ _ Hsame). }
  assert (write_file op keep L (debug L) = Done f) as Hw.
  { unfold link in Hlink. rewrite Hrun in Hlink. cbn [rbind] in Hlink. unfold write_elf in Hlink. destruct (_ =? _); [done|]. by rewrite Hslots in Hlink. }
  destruct (written_image op keep L (debug L) f Hst Hfit Hpl Hw Hlen) as (fl & eh & Eeh & Heh & Hint & Hlay & Hne & Hat).
  assert (forall c, c ∈ used_classes L -> sg_used (l_segs L c) = true) as Hused by (intros c; by rewrite used_elem).
  destruct (load_image root path f eh envp m others 0x40000000 0 (file_seg L fl <$> used_classes L)) as (info & m' & E & Eerr & _ & Een & W & Sh & G1 & G2); try done.
  - by rewrite Heh.
  - by destruct (used_classes L).
  - apply Forall_fmap, list.Forall_forall. intros c Hc. apply (file_seg_ok (guest_base op) L Hfit Hpl fl f Hat); [by apply Hused|apply Hfull; by apply Hused|done|done].
  - apply Forall_fmap, list.Forall_forall. intros c Hc%Hused. unfold compose, pages_free. eapply list.Forall_impl; [exact Hfree|]. intros x Hx. cbn beta in *.
    destruct (file_seg_pages _ L Hfit Hpl fl c Hc) as (-> & _ & P). destruct (used_range _ L Hfit Hpl c Hc) as (_ & _ & _ & D & _). destruct (room_range _ L Hfit Hpl c Hc) as (R & _).
    specialize (P _ (layout_end_page _ L Hfit) D). lia.
  - by apply (file_segs_disjoint (guest_base op)).
  - exists info, m'. split; [done|]. split; [done|]. split.
    { rewrite Een, Heh. cbn [exe_ehdr e_type e_entry]. change (ET_EXEC =? ET_DYN) with false. cbn iota. rewrite (fill_slots_entry _ _ _ Hslots). by apply Z.mod_small. }
    split; [done|]. split; [done|]. split.
    + intros k s i Hk Hs Hl Hi. destruct (section_in_file (guest_base op) L Hfit Hpl fl f Hat k s i Hk Hs Hl Hi) as (Hu & Hj & Hb).
      pose proof (G1 (file_seg L fl (ls_seg s)) _ ltac:(apply list_elem_of_fmap; exists (ls_seg s); by rewrite used_elem) Hj) as G. rewrite Hb in G. rewrite <- G. f_equal. lia.
    + intros a Ha Hout. apply G2; [done|]. apply Forall_fmap, list.Forall_forall. intros c Hc%Hused. unfold compose, on_pages.
      destruct (file_seg_pages _ L Hfit Hpl fl c Hc) as (-> & _ & P). destruct (used_range _ L Hfit Hpl c Hc) as (_ & _ & _ & D & _). destruct (room_range _ L Hfit Hpl c Hc) as (R & _).
      specialize (P _ (layout_end_page _ L Hfit) D). lia.
Qed.

(** ** The demo program, linked and loaded *)

Definition demo_exe : Linker := the (fill_slots (demo_options STATIC_EXE []) demo_final).
Definition demo_file : list Z := match link (demo_options STATIC_EXE []) true ["main.o"%string] (fun _ => []) with Done f => f | _ => [] end.

Definition byte_list (l : list Z) : bool := forallb (fun b => (0 <=? b) && (b <? 256)) l.
Lemma byte_list_spec l : byte_list l = true -> Forall is_byte l.
Proof. intros H. apply list.Forall_forall. intros b Hb. unfold byte_list in H. rewrite forallb_forall in H. apply list_elem_of_In in Hb. apply H in Hb. unfold is_byte. lia. Qed.

Definition sized_list (l : list (key * LoadedSection)) : bool := forallb (fun p => 0 <=? ls_size p.2) l.
Lemma sized_list_spec l : sized_list l = true -> sized l.
Proof. intros H. apply list.Forall_forall. intros p Hp. unfold sized_list in H. rewrite forallb_forall in H. apply list_elem_of_In in Hp. apply H in Hp. lia. Qed.

Lemma linked_program_loads_witness : exists info m',
  @load_elf permissive_env Loader.demo_lib "" demo_file "/bin/demo" [] fresh_mem = Some (info, m') /\ li_entry info = 0x40001008 /\
  gbyte m' 0x40001008 = Some 0x85 /\ gbyte m' 0x4000100c = Some 4.
Proof.
  destruct (@linked_program_loads LdDemo.demo_lib name_order permissive_env Loader.demo_lib (demo_options STATIC_EXE []) true ["main.o"%string] (fun _ => [])
    demo_final demo_exe demo_file "" "/bin/demo" [] fresh_mem []) as (info & m' & E & _ & En & _ & _ & G & _).
  - reflexivity.
  - vm_compute. reflexivity.
  - vm_compute. reflexivity.
  - vm_compute. reflexivity.
  - split; [vm_compute; discriminate|]. split; [reflexivity|]. split; [apply sized_list_spec; vm_compute; reflexivity|]. vm_compute. discriminate.
  - intros c. destruct c; vm_compute; (reflexivity || discriminate).
  - vm_compute. reflexivity.
  - apply byte_list_spec. vm_compute. reflexivity.
  - reflexivity.
  - apply fresh_mem_wf.
  - apply fresh_mem_share.
  - by apply list.Forall_nil.
  - exists info, m'. split; [exact E|]. split; [rewrite En; vm_compute; reflexivity|].
    match eval vm_compute in (nth_section (l_objects demo_exe) (0%nat, 1%nat)) with
    | Some ?s =>
      assert (nth_section (l_objects demo_exe) (0%nat, 1%nat) = Some s) as Es by (vm_compute; reflexivity);
      pose proof (G (0%nat, 1%nat) s 8 ltac:(discriminate) Es eq_refl ltac:(split; [discriminate|reflexivity])) as G8;
      pose proof (G (0%nat, 1%nat) s 12 ltac:(discriminate) Es eq_refl ltac:(split; [discriminate|reflexivity])) as G12;
      assert (section_byte demo_exe (0%nat, 1%nat) s 8 = 0x85 /\ section_byte demo_exe (0%nat, 1%nat) s 12 = 4) as [E8 E12] by (vm_compute; split; reflexivity);
      rewrite E8 in G8; rewrite E12 in G12; split; [exact G8|exact G12]
    end.
Defined.
