(* ===== verification/LdRel.v ===== *)
(** * LdRel: partial links

    The writer of [bpfvm-ld -r]: [merge_rel_sections], [merge_rel_debug_sections],
    [build_rel_symtab], [build_rel_relocations] and [write_rel_impl] of
    elf_linker.cpp.  Sections of one name are put behind each other, symbols and
    relocations move with them; nothing is resolved. *)

From S2P Require Import Prelude Bytes HostMem AddrSpace Isa Frame Paths Loader Ld LdDemo LdOut.
From Stdlib Require Import Lia.
From stdpp Require Import base numbers list gmap strings option sorting.

Open Scope Z_scope.
Open Scope ld_scope.

(** A section of the output and its logical size ([SecBuf::size]; the bytes of a
    NOBITS section are not kept). *)
Record RelSec := mkrelsec { rs_buf : SecBuf; rs_size : Z }.

(** The output so far, where each input section went ([rel_contrib_off_] and
    [rel_sec_out_index_]), and the sections of this pass by name with their
    sizes. *)
Record RelState := mkrel {
  r_extras : list RelSec;
  r_contrib : gmap key Z;
  r_out : gmap key nat;
  r_merged : gmap string (nat * Z)
}.

(** ** Merging sections *)

Definition nobits (s : RelSec) : bool := sb_type (rs_buf s) =? SHT_NOBITS.
Definition pad_len (acc align : Z) : Z := if (1 <? align) && negb (acc mod align =? 0) then align - acc mod align else 0.

(** One contribution: the first of its name makes the section, the others are
    appended behind padding. *)
Definition append_data (acc : Z) (align size : Z) (data : list Z) (s : RelSec) : RelSec :=
  let b := rs_buf s in
  let pad := pad_len acc align in
  let d := sb_data b ++ (if nobits s then [] else replicate (Z.to_nat pad) 0) ++ data in
  mkrelsec (mksecbuf (sb_name b) (sb_type b) (sb_flags b) d (sb_link b) (sb_info b) (Z.max (sb_addralign b) align) (sb_entsize b))
    (u64 (u64 (acc + pad) + size)).

Definition contribute (k : key) (b : SecBuf) (size : Z) (st : RelState) : RelState :=
  match r_merged st !! sb_name b with
  | None =>
    let n := length (r_extras st) in
    mkrel (r_extras st ++ [mkrelsec b size]) (<[k := 0]> (r_contrib st)) (<[k := n]> (r_out st)) (<[sb_name b := (n, size)]> (r_merged st))
  | Some (n, acc) =>
    let off := u64 (acc + pad_len acc (sb_addralign b)) in
    mkrel (alter (append_data acc (sb_addralign b) size (sb_data b)) n (r_extras st)) (<[k := off]> (r_contrib st)) (<[k := n]> (r_out st))
      (<[sb_name b := (n, u64 (off + size))]> (r_merged st))
  end.

(** The bytes a loadable section brings. *)
Definition section_data (o : LoadedObject) (s : LoadedSection) : res (list Z) :=
  if negb (ls_type s =? SHT_NOBITS) && (0 <? ls_size s) then inside (read_bytes (o_mem o) (ls_offset s) (ls_size s)) else Done [].

Definition merge_section (os : list LoadedObject) (st : RelState) (p : key * LoadedSection) : res RelState :=
  let '(k, s) := p in
  if negb (ls_loadable s) then Done st
  else
    let! o := inside (os !! k.1) in
    let! d := section_data o s in
    let type := if ls_type s =? SHT_NOBITS then SHT_NOBITS else SHT_PROGBITS in
    Done (contribute k (mksecbuf (ls_name s) type (ls_sh_flags s) d 0 0 (or_one (ls_addralign s)) (ls_entsize s)) (ls_size s) st).

Definition no_rel : RelState := mkrel [] ∅ ∅ ∅.

Definition merge_rel_sections (os : list LoadedObject) : res RelState := rfold (merge_section os) no_rel (all_sections os).

(** The debug sections and [.stack_sizes]; sections of the first pass are not
    looked at any more. *)
Definition debug_contribution (oi : nat) (st : RelState) (p : Z * string * Z * list Z) : RelState :=
  let '(i, name, align, data) := p in
  contribute (oi, Z.to_nat i) (mksecbuf name SHT_PROGBITS 0 data 0 0 (or_one align) 0) (Z.of_nat (length data)) st.

Definition debug_parts (o : LoadedObject) : list (Z * string * Z * list Z) :=
  ((fun d => (ds_sec_idx d, ds_name d, ds_addralign d, ds_data d)) <$> o_debug_secs o)
  ++ ((fun p => (p.1, ".stack_sizes"%string, 1, p.2)) <$> o_stack_sizes_secs o).

Definition merge_rel_debug_sections (op : Options) (os : list LoadedObject) (st : RelState) : RelState :=
  if op_keep_debug op then
    foldl (fun st p => foldl (debug_contribution p.1) st (debug_parts p.2)) (mkrel (r_extras st) (r_contrib st) (r_out st) ∅) (imap pair os)
  else st.

(** Both passes. *)
Definition rel_state (op : Options) (L : Linker) : res RelState :=
  let! st := merge_rel_sections (l_objects L) in Done (merge_rel_debug_sections op (l_objects L) st).

(** ** Symbols *)

Definition rel_key (oi : nat) (sec : Z) : key := (oi, Z.to_nat sec).

Definition rel_sym_value (st : RelState) (oi : nat) (s : LoadedSym) : Z :=
  if sy_sec_idx s =? SIZE_MAX then sy_value s
  else match r_contrib st !! rel_key oi (sy_sec_idx s) with Some c => u64 (c + sy_value s) | None => sy_value s end.

Definition rel_sym_shndx (st : RelState) (oi : nat) (s : LoadedSym) : Z :=
  if sy_sec_idx s =? SIZE_MAX then (if sy_type s =? STT_FILE then SHN_ABS else SHN_UNDEF)
  else match r_out st !! rel_key oi (sy_sec_idx s) with Some n => u16 (Z.of_nat n + 1) | None => SHN_UNDEF end.

(** The tables while they grow: names, entries, and the numbers given to the
    symbols of the inputs ([rel_sym_out_index_]) and to undefined names
    ([rel_und_name_index_]). *)
Record RelSyms := mkrelsyms {
  ry_strtab : list Z; ry_syms : list (list Z); ry_index : gmap (nat * Z) Z; ry_und : gmap string Z
}.

Definition rel_count (y : RelSyms) : Z := Z.of_nat (length (ry_syms y)).

Definition emit_rel_sym (st : RelState) (y : RelSyms) (p : nat * Z * LoadedSym) : RelSyms :=
  let '(oi, si, s) := p in
  let (off, tab) := put_name_or_0 (ry_strtab y) (sy_name s) in
  let e := sym_bytes off (STB_LOCAL_INFO (sy_binding s) (sy_type s)) (Z.land (sy_visibility s) 3) (rel_sym_shndx st oi s) (rel_sym_value st oi s) (sy_size s) in
  mkrelsyms tab (ry_syms y ++ [e]) (<[(oi, si) := rel_count y]> (ry_index y)) (ry_und y).

Definition emit_rel_und (L : Linker) (y : RelSyms) (s : LoadedSym) : RelSyms :=
  if sy_defined s || (sy_binding s =? STB_LOCAL) || bool_decide (is_Some (l_globals L !! sy_name s)) || bool_decide (is_Some (ry_und y !! sy_name s)) then y
  else
    let (off, tab) := put_name_or_0 (ry_strtab y) (sy_name s) in
    mkrelsyms tab (ry_syms y ++ [sym_bytes off (STB_LOCAL_INFO (sy_binding s) (sy_type s)) (Z.land (sy_visibility s) 3) SHN_UNDEF 0 0])
      (ry_index y) (<[sy_name s := rel_count y]> (ry_und y)).

(** The symbols of an object after the null symbol, with their numbers. *)
Definition input_syms (oi : nat) (o : LoadedObject) : list (nat * Z * LoadedSym) :=
  imap (fun i s => (oi, Z.of_nat i + 1, s)) (tail (o_symbols o)).
Definition all_syms (L : Linker) : list (nat * Z * LoadedSym) := concat (imap input_syms (l_objects L)).

Section Rel.
Context {ord : StringOrder}.

(** The defining symbols of the global table. *)
Definition global_syms (L : Linker) : list (nat * Z * LoadedSym) :=
  omap (fun p => s ← nth_sym (l_objects L) p.2.1 (Z.of_nat p.2.2); Some (p.2.1, Z.of_nat p.2.2, s)) (entries (l_globals L)).

(** The tables and the number of the first symbol that is not local. *)
Definition rel_symtab (L : Linker) (st : RelState) : RelSyms * Z :=
  let y := mkrelsyms [0] [zero_sym] ∅ ∅ in
  let y := foldl (emit_rel_sym st) y (List.filter (fun p => sy_binding p.2 =? STB_LOCAL) (all_syms L)) in
  let first := rel_count y in
  let y := foldl (emit_rel_sym st) y (global_syms L) in
  (foldl (emit_rel_und L) y ((fun p => p.2) <$> all_syms L), first).

Definition bare_section (b : SecBuf) : RelSec := mkrelsec b 0.

Definition build_rel_symtab (L : Linker) (st : RelState) : list RelSec * RelSyms * nat :=
  let '(y, first) := rel_symtab L st in
  let n := length (r_extras st) in
  (r_extras st ++ [bare_section (mksecbuf ".strtab" SHT_STRTAB 0 (ry_strtab y) 0 0 1 0);
                   bare_section (mksecbuf ".symtab" SHT_SYMTAB 0 (concat (ry_syms y)) (u32 (u32 (Z.of_nat n) + 1)) (u32 first) 8 24)], y, (n + 1)%nat).

(** ** Relocations *)

(** The number of the symbol a relocation names in the output. *)
Definition rel_symbol (L : Linker) (y : RelSyms) (oi : nat) (si : Z) : Z :=
  match ry_index y !! (oi, si) with
  | Some i => i
  | None =>
    match nth_sym (l_objects L) oi si with
    | None => 0
    | Some s =>
      let g := match l_globals L !! sy_name s with Some (oi', si') => default 0 (ry_index y !! (oi', Z.of_nat si')) | None => 0 end in
      if g =? 0 then default 0 (ry_und y !! sy_name s) else g
    end
  end.

(** The relocation of the output, and the section it goes to. *)
Definition rel_reloc (L : Linker) (st : RelState) (y : RelSyms) (oi : nat) (o : LoadedObject) (r : LoadedReloc) : option (nat * string * list Z) :=
  target ← get (o_sections o) (rl_target_sec r);
  out ← r_out st !! rel_key oi (rl_target_sec r);
  let c := default 0 (r_contrib st !! rel_key oi (rl_target_sec r)) in
  Some (out, ls_name target, rela_bytes (u64 (c + rl_offset r)) (r_info_of (rel_symbol L y oi (rl_sym_idx r)) (rl_type r)) (rl_addend r)).

(** The [.rela] section of an output section is made when the first relocation
    comes. *)
Definition put_rela (symtab : nat) (st : list RelSec * gmap nat nat) (p : nat * string * list Z) : list RelSec * gmap nat nat :=
  let '(out, name, bytes) := p in
  match st.2 !! out with
  | Some i => (alter (fun s => mkrelsec (set_data (sb_data (rs_buf s) ++ bytes) (rs_buf s)) (rs_size s)) i st.1, st.2)
  | None =>
    (st.1 ++ [bare_section (mksecbuf (".rela" +:+ name) SHT_RELA 0 bytes (u32 (u32 (Z.of_nat symtab) + 1)) (u32 (u32 (Z.of_nat out) + 1)) 8 24)],
     <[out := length st.1]> st.2)
  end.

Definition rel_relocs (L : Linker) (st : RelState) (y : RelSyms) : list (nat * string * list Z) :=
  concat (imap (fun oi o => omap (rel_reloc L st y oi o) (o_relocations o)) (l_objects L)).

Definition build_rel_relocations (L : Linker) (st : RelState) (y : RelSyms) (symtab : nat) (extras : list RelSec) : list RelSec :=
  (foldl (put_rela symtab) (extras, ∅) (rel_relocs L st y)).1.

(** ** The file *)

Fixpoint rel_offsets (off : Z) (l : list RelSec) : list Z * Z :=
  match l with
  | [] => ([], off)
  | s :: r =>
    let a := or_one (sb_addralign (rs_buf s)) in
    let off := if 1 <? a then andnot (u64 (off + a - 1)) (a - 1) else off in
    let (t, e) := rel_offsets (if nobits s then off else u64 (off + Z.of_nat (length (sb_data (rs_buf s))))) r in (off :: t, e)
  end.

(** [fseek] and [fwrite]: a gap reads as zeros; no offset above [LONG_MAX]. *)
Definition write_pos (f : list Z) (off : Z) (bs : list Z) : res (list Z) :=
  if 2 ^ 63 <=? off then Failed
  else Done (match bs with [] => f | _ => take (Z.to_nat off) (pad_to f off) ++ bs ++ drop (Z.to_nat off + length bs) f end).

Definition write_rel_sec (f : list Z) (p : RelSec * Z) : res (list Z) :=
  if nobits p.1 then Done f else write_pos f p.2 (sb_data (rs_buf p.1)).

Definition rel_ehdr (sh_off shnum shstrndx : Z) : list Z :=
  ELFMAG ++ [ELFCLASS64; ELFDATA2LSB; 1; 0] ++ replicate 8 0
  ++ le_bytes 2 ET_REL ++ le_bytes 2 EM_BPF ++ le_bytes 4 1 ++ le_bytes 8 0 ++ le_bytes 8 0 ++ le_bytes 8 sh_off ++ le_bytes 4 0
  ++ le_bytes 2 EHDR_SIZE ++ le_bytes 2 0 ++ le_bytes 2 0 ++ le_bytes 2 64 ++ le_bytes 2 shnum ++ le_bytes 2 shstrndx.

Definition rel_shdr (p : RelSec * Z * Z) : list Z :=
  let '(s, off, name) := p in
  let b := rs_buf s in
  shdr_bytes name (sb_type b) (sb_flags b) 0 (if nobits s then 0 else off)
    (if nobits s then rs_size s else Z.of_nat (length (sb_data b))) (sb_link b) (sb_info b) (sb_addralign b) (sb_entsize b).

(** The sections of the output, in order. *)
Definition rel_sections (op : Options) (L : Linker) : res (list RelSec) :=
  let! st := rel_state op L in
  let '(extras, y, symtab) := build_rel_symtab L st in
  Done (build_rel_relocations L st y symtab extras).

Definition write_rel_impl (op : Options) (L : Linker) : res (list Z) :=
  let! extras := rel_sections op L in
  let '(offs, tab) := put_names [0] (((fun s => sb_name (rs_buf s)) <$> extras) ++ [".shstrtab"%string]) in
  let n := Z.of_nat (length extras) in
  let extras := extras ++ [bare_section (mksecbuf ".shstrtab" SHT_STRTAB 0 tab 0 0 1 0)] in
  let '(file_offs, off) := rel_offsets EHDR_SIZE extras in
  let sh_off := align8 off in
  let! f := rfold write_rel_sec (rel_ehdr sh_off (u16 (n + 2)) (u16 (u16 n + 1))) (combine extras file_offs) in
  write_pos f sh_off (replicate 64 0 ++ concat (rel_shdr <$> combine (combine extras file_offs) offs)).

End Rel.

(** [link_bpf_relocatable]: the bytes of the output. *)
Definition link_rel {lib : LibElf} {ord : StringOrder} (op : Options) (inputs : list string) : res (list Z) :=
  let! L := run op inputs in
  if l_pool_used L =? 0 then Failed else write_rel_impl op L.
