(* ===== verification/LdMerge.v ===== *)
(** * LdMerge: what a partial link keeps

    The sections of a partial link hold the bytes of the inputs at the places
    the maps of the linker say, the symbol table holds their symbols, moved by
    those places, and every relocation of an input is in the output, moved and
    pointing to the symbol it pointed to. *)

From S2P Require Import Prelude Bytes HostMem AddrSpace Isa Frame Paths Loader Ld LdDemo LdLayout LdSym LdReloc LdRun LdOut LdRel.
From Stdlib Require Import Lia.
From stdpp Require Import base numbers list gmap strings option sorting.

Open Scope Z_scope.
Open Scope ld_scope.

(** ** Contributions *)

(** A section of an input on its way into the output: its key, its content, its
    size. *)
Abbreviation contribution := (key * SecBuf * Z)%type.

Definition is_bss (b : SecBuf) : bool := sb_type b =? SHT_NOBITS.

Definition sound_part (x : contribution) : Prop :=
  0 <= x.2 /\ 1 <= sb_addralign x.1.2 /\ (if is_bss x.1.2 then sb_data x.1.2 = [] else Z.of_nat (length (sb_data x.1.2)) = x.2).

(** Room for the sections and their padding. *)
Definition room (l : list contribution) : Z := foldr (fun x a => x.2 + sb_addralign x.1.2 + a) 0 l.

(** Where a contribution lies in the output. *)
Definition lies_at (st : RelState) (x : contribution) (n : nat) (c : Z) (out : RelSec) : Prop :=
  r_out st !! x.1.1 = Some n /\ r_contrib st !! x.1.1 = Some c /\ r_extras st !! n = Some out /\
  sb_name (rs_buf out) = sb_name x.1.2 /\ nobits out = is_bss x.1.2 /\
  0 <= c /\ c mod sb_addralign x.1.2 = 0 /\ c + x.2 <= rs_size out /\
  (is_bss x.1.2 = false -> Z.of_nat (length (sb_data (rs_buf out))) = rs_size out /\ forall i, 0 <= i < x.2 -> byte_at (sb_data (rs_buf out)) (c + i) = byte_at (sb_data x.1.2) i).

Definition apart_in (st : RelState) (x y : contribution) : Prop :=
  forall n c d out out', lies_at st x n c out -> lies_at st y n d out' -> c + x.2 <= d \/ d + y.2 <= c.

(** What holds after the contributions [l], the last of which, [cur], are those
    of the current pass. *)
Record merged_ok (l cur : list contribution) (st : RelState) : Prop := {
  mo_place : forall x, x ∈ l -> exists n c out, lies_at st x n c out;
  mo_apart : forall x y, x ∈ l -> y ∈ l -> x.1.1 <> y.1.1 -> apart_in st x y;
  mo_names : forall name n acc, r_merged st !! name = Some (n, acc) ->
    0 <= acc <= room cur /\ exists out, r_extras st !! n = Some out /\ sb_name (rs_buf out) = name /\ rs_size out = acc /\
      (nobits out = false -> Z.of_nat (length (sb_data (rs_buf out))) = acc) /\ exists x, x ∈ cur /\ sb_name x.1.2 = name /\ is_bss x.1.2 = nobits out
}.

(** ** One step *)

Lemma pad_len_spec acc align : 0 <= acc -> 1 <= align -> 0 <= pad_len acc align < align /\ (acc + pad_len acc align) mod align = 0.
Proof.
  intros Ha Hl. unfold pad_len. pose proof (Z.mod_pos_bound acc align ltac:(lia)) as Hm.
  destruct (Z.ltb_spec 1 align) as [H1|H1]; cbn [andb].
  - destruct (Z.eqb_spec (acc mod align) 0) as [H0|H0]; cbn [negb]; [split; [lia|by rewrite Z.add_0_r]|]. split; [lia|].
    replace (acc + (align - acc mod align)) with ((acc / align + 1) * align) by (pose proof (Z.div_mod acc align ltac:(lia)); lia). apply Z.mod_mul. lia.
  - assert (align = 1) as -> by lia. split; [lia|]. apply Z.mod_1_r.
Qed.

(** A section that grew. *)
Definition grown (s s' : RelSec) : Prop :=
  sb_name (rs_buf s') = sb_name (rs_buf s) /\ sb_type (rs_buf s') = sb_type (rs_buf s) /\ rs_size s <= rs_size s' /\
  sb_data (rs_buf s) `prefix_of` sb_data (rs_buf s') /\ (nobits s = false -> Z.of_nat (length (sb_data (rs_buf s))) = rs_size s -> Z.of_nat (length (sb_data (rs_buf s'))) = rs_size s').

Lemma append_grown acc align size data s : 0 <= acc -> 1 <= align -> 0 <= size -> acc + align + size < 2 ^ 64 -> rs_size s = acc ->
  (nobits s = false -> Z.of_nat (length data) = size) ->
  grown s (append_data acc align size data s) /\ rs_size (append_data acc align size data s) = acc + pad_len acc align + size.
Proof.
  intros Ha Hl Hs Hr Hacc Hd. pose proof (pad_len_spec acc align Ha Hl) as [Hp _]. unfold append_data, grown, nobits. cbn [rs_buf rs_size sb_name sb_type sb_data].
  rewrite !uwrap_small by (rewrite ?uwrap_small by lia; lia). split; [|done]. split_and!; try done; [lia|by eexists|].
  intros Hn Hlen. rewrite Hn, !length_app, length_replicate. specialize (Hd Hn). lia.
Qed.

Definition add_part (st : RelState) (x : contribution) : RelState := contribute x.1.1 x.1.2 x.2 st.

Lemma byte_prefix (a b : list Z) i : a `prefix_of` b -> 0 <= i < Z.of_nat (length a) -> byte_at b i = byte_at a i.
Proof. intros [k ->] Hi. unfold byte_at. rewrite app_nth1; [done|lia]. Qed.

Lemma grown_refl s : grown s s.
Proof. by split_and!. Qed.

Lemma lies_at_grow st st' y m c o o' : sound_part y -> lies_at st y m c o -> r_out st' !! y.1.1 = r_out st !! y.1.1 -> r_contrib st' !! y.1.1 = r_contrib st !! y.1.1 ->
  r_extras st' !! m = Some o' -> grown o o' -> lies_at st' y m c o'.
Proof.
  intros _ (H1 & H2 & _ & Hn & Hb & H0 & Hm & Hs & Hd) E1 E2 He (G1 & G2 & G3 & G4 & G5). unfold lies_at. rewrite E1, E2. split; [done|]. split; [done|]. split; [done|].
  split; [congruence|]. split; [by unfold nobits in *; rewrite G2|]. split; [done|]. split; [done|]. split; [lia|]. intros Hx. destruct (Hd Hx) as [Hl Hi].
  split; [apply G5; [by rewrite Hb|done]|]. intros i Hr. rewrite (byte_prefix _ _ _ G4) by lia. by apply Hi.
Qed.

Lemma room_nonneg l : Forall sound_part l -> 0 <= room l.
Proof. induction 1 as [|y l (A & B & _) _ IH]; [done|]. change (room (y :: l)) with (y.2 + sb_addralign y.1.2 + room l). lia. Qed.

Lemma room_app l x : room (l ++ [x]) = room l + x.2 + sb_addralign x.1.2.
Proof. unfold room. induction l as [|y l IH]; cbn [app foldr]; lia. Qed.

(** The places before a step are the places after it. *)
Lemma apart_step l cur st st' : merged_ok l cur st -> (forall y, y ∈ l -> r_out st' !! y.1.1 = r_out st !! y.1.1 /\ r_contrib st' !! y.1.1 = r_contrib st !! y.1.1) ->
  forall y z, y ∈ l -> z ∈ l -> y.1.1 <> z.1.1 -> apart_in st' y z.
Proof.
  intros [Hp Ha _] Hsame y z Hy Hz Hne n c d o o' (Y1 & Y2 & _) (Z1 & Z2 & _).
  destruct (Hp y Hy) as (n1 & c1 & o1 & L1). destruct (Hp z Hz) as (n2 & c2 & o2 & L2). destruct (Hsame y Hy) as [A1 A2]. destruct (Hsame z Hz) as [B1 B2].
  pose proof L1 as (P1 & P2 & _). pose proof L2 as (Q1 & Q2 & _). rewrite A1, P1 in Y1. rewrite A2, P2 in Y2. rewrite B1, Q1 in Z1. rewrite B2, Q2 in Z2.
  injection Y1 as ->. injection Y2 as ->. injection Z1 as ->. injection Z2 as ->. by eapply Ha.
Qed.

Section Step.
Context (l cur : list contribution) (st : RelState) (x : contribution).
Context (Hok : merged_ok l cur st) (Hall : Forall sound_part l) (Hx : sound_part x) (Hnew : forall y, y ∈ l -> y.1.1 <> x.1.1).
Context (Hroom : room (cur ++ [x]) < 2 ^ 64) (Hcur : Forall sound_part cur) (Hkind : forall y, y ∈ cur -> sb_name y.1.2 = sb_name x.1.2 -> is_bss y.1.2 = is_bss x.1.2).

Lemma first_part : r_merged st !! sb_name x.1.2 = None -> merged_ok (l ++ [x]) (cur ++ [x]) (add_part st x).
Proof.
  intros Hn. destruct Hx as (S1 & S2 & S3). unfold add_part, contribute. rewrite Hn. set (n := length (r_extras st)). set (st' := mkrel _ _ _ _).
  assert (lies_at st' x n 0 (mkrelsec x.1.2 x.2)) as Lx.
  { unfold lies_at, st'. cbn [r_out r_contrib r_extras rs_buf rs_size]. rewrite !lookup_insert_eq. split; [done|]. split; [done|].
    split; [by apply list_lookup_middle|]. split; [done|]. split; [done|]. split; [lia|]. split; [by apply Z.mod_0_l; lia|]. split; [lia|].
    intros Hb. rewrite Hb in S3. split; [done|]. intros i Hi. by rewrite Z.add_0_l. }
  assert (forall y, y ∈ l -> r_out st' !! y.1.1 = r_out st !! y.1.1 /\ r_contrib st' !! y.1.1 = r_contrib st !! y.1.1) as Hsame.
  { intros y Hy. unfold st'. cbn [r_out r_contrib]. rewrite !lookup_insert_ne by (apply not_eq_sym; by apply Hnew). done. }
  assert (forall y, y ∈ l -> exists m c o, lies_at st y m c o /\ (m < n)%nat /\ lies_at st' y m c o) as Hold.
  { intros y Hy. destruct (mo_place _ _ _ Hok y Hy) as (m & c & o & L). exists m, c, o. split; [done|]. pose proof L as (_ & _ & Le & _).
    apply lookup_lt_Some in Le as Hlt. split; [done|]. destruct (Hsame y Hy). rewrite list.Forall_forall in Hall.
    apply (lies_at_grow st st' y m c o o); [by apply Hall|done|done|done| |apply grown_refl]. unfold st'. cbn [r_extras]. by apply lookup_app_l_Some. }
  split.
  - intros y [Hy| ->%list_elem_of_singleton]%elem_of_app; [|by exists n, 0, (mkrelsec x.1.2 x.2)]. destruct (Hold y Hy) as (m & c & o & _ & _ & L). by exists m, c, o.
  - intros y z [Hy| ->%list_elem_of_singleton]%elem_of_app [Hz| ->%list_elem_of_singleton]%elem_of_app Hne; [by apply (apart_step l cur st)| | |done];
      intros m c d o o' (Y1 & _) (Z1 & _); destruct Lx as (X1 & _); [destruct (Hold y Hy) as (m' & ? & ? & _ & Hlt & (O1 & _))|destruct (Hold z Hz) as (m' & ? & ? & _ & Hlt & (O1 & _))];
      exfalso; assert (m' = m) by congruence; assert (m = n) by congruence; lia.
  - intros name m acc. unfold st'. cbn [r_merged r_extras]. destruct (decide (name = sb_name x.1.2)) as [->|Hnn].
    + rewrite lookup_insert_eq. intros [= <- <-]. rewrite room_app. pose proof (room_nonneg _ Hcur).
      split; [lia|]. exists (mkrelsec x.1.2 x.2). split; [by apply list_lookup_middle|]. split; [done|]. split; [done|].
      split; [intros Hb; cbn [rs_buf]; unfold nobits, is_bss in *; cbn [rs_buf] in *; by rewrite Hb in S3|]. exists x. split; [apply elem_of_app; right; by left|done].
    + rewrite lookup_insert_ne by congruence. intros H. destruct (mo_names _ _ _ Hok _ _ _ H) as (R & o & E & N & Sz & Ln & y & Hy & Ny & By). rewrite room_app. split; [lia|].
      exists o. split; [by apply lookup_app_l_Some|]. split; [done|]. split; [done|]. split; [done|]. exists y. split; [apply elem_of_app; by left|done].
Qed.

Lemma next_part n acc : r_merged st !! sb_name x.1.2 = Some (n, acc) -> merged_ok (l ++ [x]) (cur ++ [x]) (add_part st x).
Proof.
  intros Hn. destruct Hx as (S1 & S2 & S3). destruct (mo_names _ _ _ Hok _ _ _ Hn) as (R & out & E & N & Sz & Ln & y0 & Hy0 & Ny0 & By0). rewrite room_app in Hroom.
  pose proof (Hkind y0 Hy0 Ny0) as Hk. rewrite By0 in Hk. pose proof (pad_len_spec acc (sb_addralign x.1.2) ltac:(lia) S2) as [Hp Hmod].
  destruct (append_grown acc (sb_addralign x.1.2) x.2 (sb_data x.1.2) out ltac:(lia) S2 S1 ltac:(lia) Sz) as [G Gs].
  { intros Hb. rewrite Hk in Hb. by rewrite Hb in S3. }
  unfold add_part, contribute. rewrite Hn. set (off := u64 (acc + _)). assert (off = acc + pad_len acc (sb_addralign x.1.2)) as Eoff by (apply uwrap_small; lia).
  set (out' := append_data acc (sb_addralign x.1.2) x.2 (sb_data x.1.2) out) in *. set (st' := mkrel _ _ _ _).
  assert (r_extras st' !! n = Some out') as E' by (unfold st'; cbn [r_extras]; rewrite list_lookup_alter_eq, E; done).
  assert (lies_at st' x n off out') as Lx.
  { unfold lies_at, st'. cbn [r_out r_contrib]. rewrite !lookup_insert_eq. split; [done|]. split; [done|]. split; [exact E'|].
    destruct G as (G1 & G2 & _ & G4 & G5). split; [congruence|]. assert (nobits out' = is_bss x.1.2) as Hb by (unfold nobits in *; by rewrite G2). split; [done|]. split; [lia|].
    split; [by rewrite Eoff|]. split; [lia|]. intros Hf. rewrite Hf in S3. rewrite Hf in Hk. specialize (Ln Hk). split; [apply G5; [done|by rewrite Ln, Sz]|].
    intros i Hi. unfold out', append_data. cbn [rs_buf sb_data]. rewrite Hk. unfold byte_at. rewrite app_assoc, app_nth2; rewrite length_app, length_replicate; [f_equal; lia|lia]. }
  assert (forall y, y ∈ l -> r_out st' !! y.1.1 = r_out st !! y.1.1 /\ r_contrib st' !! y.1.1 = r_contrib st !! y.1.1) as Hsame.
  { intros y Hy. unfold st'. cbn [r_out r_contrib]. rewrite !lookup_insert_ne by (apply not_eq_sym; by apply Hnew). done. }
  assert (forall y, y ∈ l -> exists m c o o', lies_at st y m c o /\ lies_at st' y m c o') as Hold.
  { intros y Hy. destruct (mo_place _ _ _ Hok y Hy) as (m & c & o & L). pose proof L as (_ & _ & Le & _). destruct (Hsame y Hy). rewrite list.Forall_forall in Hall.
    destruct (decide (m = n)) as [->|Hmn].
    - assert (o = out) as -> by congruence. exists n, c, out, out'. split; [done|]. apply (lies_at_grow st st' y n c out out'); try done. by apply Hall.
    - exists m, c, o, o. split; [done|]. apply (lies_at_grow st st' y m c o o); [by apply Hall|done|done|done| |apply grown_refl]. unfold st'. cbn [r_extras]. by rewrite list_lookup_alter_ne. }
  assert (forall y c o, y ∈ l -> lies_at st' y n c o -> c + y.2 <= off) as Hbelow.
  { intros y c o Hy (Y1 & Y2 & _). destruct (Hold y Hy) as (m & c1 & o1 & o2 & L & _). destruct (Hsame y Hy) as [A B]. pose proof L as (L1 & L2 & L3 & _ & _ & _ & _ & L4 & _).
    rewrite A, L1 in Y1. rewrite B, L2 in Y2. injection Y1 as ->. injection Y2 as ->. rewrite E in L3. injection L3 as <-. lia. }
  split.
  - intros y [Hy| ->%list_elem_of_singleton]%elem_of_app; [|by exists n, off, out']. destruct (Hold y Hy) as (m & c & o & o' & _ & L). by exists m, c, o'.
  - intros y z [Hy| ->%list_elem_of_singleton]%elem_of_app [Hz| ->%list_elem_of_singleton]%elem_of_app Hne; [by apply (apart_step l cur st)| | |done];
      intros m c d o o' Ly Lz; destruct Lx as (X1 & X2 & _).
    + pose proof Lz as (Z1 & Z2 & _). rewrite X1 in Z1. rewrite X2 in Z2. injection Z1 as <-. injection Z2 as <-. left. by apply (Hbelow y c o).
    + pose proof Ly as (Y1 & Y2 & _). rewrite X1 in Y1. rewrite X2 in Y2. injection Y1 as <-. injection Y2 as <-. right. by apply (Hbelow z d o').
  - intros name m acc'. unfold st' at 1. cbn [r_merged]. rewrite room_app. destruct (decide (name = sb_name x.1.2)) as [->|Hnn].
    + rewrite lookup_insert_eq. intros [= <- <-]. rewrite (uwrap_small 64 (off + x.2)) by lia. split; [lia|]. exists out'. split; [done|].
      destruct G as (G1 & G2 & _ & G4 & G5). split; [congruence|]. split; [lia|]. assert (nobits out' = nobits out) as Eb by (unfold nobits; by rewrite G2).
      split; [intros Hb; rewrite Eb in Hb; rewrite G5 by (try done; by rewrite Ln, Sz); lia|]. exists x. split; [apply elem_of_app; right; by left|]. split; [done|]. by rewrite Eb.
    + rewrite lookup_insert_ne by congruence. intros H. destruct (mo_names _ _ _ Hok _ _ _ H) as (R' & o & E0 & N0 & Sz0 & Ln0 & y & Hy & Ny & By). split; [lia|].
      assert (m <> n) as Hmn by (intros ->; rewrite E in E0; injection E0 as <-; congruence).
      exists o. split; [unfold st'; cbn [r_extras]; by rewrite list_lookup_alter_ne|]. split; [done|]. split; [done|]. split; [done|]. exists y. split; [apply elem_of_app; by left|done].
Qed.

End Step.

(** ** All steps *)

(** Sections of one name are all kept in the file or all not. *)
Definition uniform (l : list contribution) : Prop := forall x y, x ∈ l -> y ∈ l -> sb_name x.1.2 = sb_name y.1.2 -> is_bss x.1.2 = is_bss y.1.2.

Lemma room_prefix a b : Forall sound_part b -> room a <= room (a ++ b).
Proof.
  intros Hb. pose proof (room_nonneg _ Hb). induction a as [|x a IH]; [exact H|].
  change (room ((x :: a) ++ b)) with (x.2 + sb_addralign x.1.2 + room (a ++ b)). change (room (x :: a)) with (x.2 + sb_addralign x.1.2 + room a). lia.
Qed.

Lemma parts_ok new l cur st :
  merged_ok l cur st -> Forall sound_part l -> Forall sound_part cur -> Forall sound_part new -> NoDup ((fun x : contribution => x.1.1) <$> l ++ new) ->
  uniform (cur ++ new) -> room (cur ++ new) < 2 ^ 64 -> merged_ok (l ++ new) (cur ++ new) (foldl add_part st new).
Proof.
  revert l cur st. induction new as [|x new IH]; intros l cur st Hok Hl Hc Hn Hd Hu Hr; [by rewrite !app_nil_r|].
  apply list.Forall_cons in Hn as [Hx Hn]. cbn [foldl]. change (x :: new) with ([x] ++ new) in *. rewrite !app_assoc in *.
  assert (room (cur ++ [x]) < 2 ^ 64) as Hr' by (pose proof (room_prefix (cur ++ [x]) new Hn); lia).
  apply IH; [|by apply Forall_app; split; [|apply Forall_singleton]..|done|done|done|done].
  assert (forall y, y ∈ l -> y.1.1 <> x.1.1) as Hnew.
  { intros y Hy He. rewrite fmap_app in Hd. apply NoDup_app in Hd as (Hd & _ & _). rewrite fmap_app in Hd. apply NoDup_app in Hd as (_ & Hd & _).
    apply (Hd y.1.1); [by apply (list_elem_of_fmap_2 (fun x : contribution => x.1.1))|]. rewrite He. by left. }
  assert (forall y, y ∈ cur -> sb_name y.1.2 = sb_name x.1.2 -> is_bss y.1.2 = is_bss x.1.2) as Hk.
  { intros y Hy. apply Hu; rewrite !elem_of_app; [tauto|]. left. right. by left. }
  destruct (r_merged st !! sb_name x.1.2) as [[n acc]|] eqn:E; [by apply (next_part l cur st x Hok Hl Hx Hnew Hr' Hk n acc)|by apply first_part].
Qed.

(** The contribution of a section. *)
Definition section_part (os : list LoadedObject) (p : key * LoadedSection) : contribution :=
  let d := match os !! p.1.1 with Some o => match section_data o p.2 with Done d => d | _ => [] end | None => [] end in
  (p.1, mksecbuf (ls_name p.2) (if ls_type p.2 =? SHT_NOBITS then SHT_NOBITS else SHT_PROGBITS) (ls_sh_flags p.2) d 0 0 (or_one (ls_addralign p.2)) (ls_entsize p.2), ls_size p.2).

Definition section_parts (os : list LoadedObject) : list contribution := section_part os <$> List.filter (fun p => ls_loadable p.2) (all_sections os).

Definition debug_part (oi : nat) (p : Z * string * Z * list Z) : contribution :=
  let '(i, name, align, data) := p in ((oi, Z.to_nat i), mksecbuf name SHT_PROGBITS 0 data 0 0 (or_one align) 0, Z.of_nat (length data)).
Definition debug_contributions (op : Options) (os : list LoadedObject) : list contribution :=
  if op_keep_debug op then concat (imap (fun oi o => debug_part oi <$> debug_parts o) os) else [].

Lemma merge_parts os l st st' : rfold (merge_section os) st l = Done st' ->
  st' = foldl add_part st (section_part os <$> List.filter (fun p => ls_loadable p.2) l) /\
  Forall (fun p => ls_loadable p.2 = true -> exists o d, os !! p.1.1 = Some o /\ section_data o p.2 = Done d) l.
Proof.
  revert st. induction l as [|[k s] l IH]; intros st H; cbn in H; [injection H as ->; by split|]. unfold merge_section in H at 1. cbn [List.filter fmap list_fmap snd].
  destruct (ls_loadable s) eqn:El; cbn [negb] in H.
  - destruct (os !! k.1) as [o|] eqn:Eo; [|done]. cbn [inside rbind] in H. destruct (section_data o s) as [d| |] eqn:Ed; [|done|done]. cbn [rbind] in H.
    destruct (IH _ H) as [-> F]. split; [|constructor; [intros _; by exists o, d|done]]. cbn [fmap list_fmap foldl]. f_equal. unfold add_part, section_part. cbn [fst snd]. by rewrite Eo, Ed.
  - destruct (IH _ H) as [-> F]. split; [done|]. constructor; [cbn; congruence|done].
Qed.

Lemma debug_fold os st n : foldl (fun st p => foldl (debug_contribution p.1) st (debug_parts p.2)) st (imap (fun i => pair (n + i)%nat) os) =
  foldl add_part st (concat (imap (fun i o => debug_part (n + i) <$> debug_parts o) os)).
Proof.
  revert st n. induction os as [|o os IH]; intros st n; [done|]. cbn [imap foldl concat]. rewrite foldl_app. cbn [fst snd]. rewrite Nat.add_0_r.
  assert (forall l st, foldl (debug_contribution n) st l = foldl add_part st (debug_part n <$> l)) as ->.
  { clear. induction l as [|[[[i nm] al] d] l IH]; intros st; [done|]. cbn [foldl fmap list_fmap]. by rewrite IH. }
  rewrite (imap_ext _ (fun i => pair (Datatypes.S n + i)%nat)) by (intros; cbn; f_equal; lia).
  rewrite (imap_ext _ (fun i o => debug_part (Datatypes.S n + i) <$> debug_parts o)) by (intros; cbn; do 2 f_equal; lia). apply IH.
Qed.

(** Inputs that can be merged: sizes and alignments are what they should be, no
    two sections share a key, sections of one name are of one kind, and the
    output has room. *)
Record mergeable (op : Options) (os : list LoadedObject) : Prop := {
  mg_sound : Forall sound_part (section_parts os ++ debug_contributions op os);
  mg_keys : NoDup ((fun x : contribution => x.1.1) <$> section_parts os ++ debug_contributions op os);
  mg_uniform : uniform (section_parts os);
  mg_room : room (section_parts os) < 2 ^ 64 /\ room (debug_contributions op os) < 2 ^ 64
}.

Lemma rel_state_ok op L st : rel_state op L = Done st -> mergeable op (l_objects L) ->
  (exists cur, merged_ok (section_parts (l_objects L) ++ debug_contributions op (l_objects L)) cur st) /\
  Forall (fun p => ls_loadable p.2 = true -> exists o d, l_objects L !! p.1.1 = Some o /\ section_data o p.2 = Done d) (all_sections (l_objects L)).
Proof.
  intros H [Hs Hk Hu [R1 R2]]. unfold rel_state, merge_rel_sections in H. destruct (rfold _ _ _) as [st1| |] eqn:E1; [|done|done]. injection H as <-.
  destruct (merge_parts _ _ _ _ E1) as [-> F]. split; [|done]. fold (section_parts (l_objects L)). apply Forall_app in Hs as [S1 S2]. set (os := l_objects L) in *.
  assert (merged_ok (section_parts os) (section_parts os) (foldl add_part no_rel (section_parts os))) as H1.
  { apply (parts_ok (section_parts os) [] []); try done; [|by rewrite fmap_app in Hk; apply NoDup_app in Hk as (Hk & _)].
    split; [by intros x ?%elem_of_nil|by intros x y ?%elem_of_nil|]. intros name n acc. cbn. by rewrite lookup_empty. }
  set (st1 := foldl add_part no_rel _) in *.
  assert (forall cur, merged_ok (section_parts os) cur (mkrel (r_extras st1) (r_contrib st1) (r_out st1) ∅)) as H2.
  { intros cur. destruct H1 as [P A _]. split; [exact P|exact A|]. intros name n acc. cbn. by rewrite lookup_empty. }
  unfold merge_rel_debug_sections, debug_contributions in *. destruct (op_keep_debug op); [|rewrite app_nil_r; by exists (section_parts os)].
  set (new := concat (imap (fun oi o => debug_part oi <$> debug_parts o) os)) in *.
  exists new. rewrite (debug_fold os (mkrel (r_extras st1) (r_contrib st1) (r_out st1) ∅) 0 : foldl _ _ (imap pair os) = foldl add_part _ new).
  apply (parts_ok new (section_parts os) []); [apply H2|done|done|done|done| |done]. intros x y Hx Hy _.
  assert (forall z, z ∈ new -> is_bss z.1.2 = false) as Hb; [|cbn [app] in *; by rewrite !Hb].
  intros z Hz. apply list_elem_of_In, in_concat in Hz as (l & Hl & Hz). apply list_elem_of_In, elem_of_lookup_imap in Hl as (i & o & -> & _).
  apply list_elem_of_In, list_elem_of_fmap in Hz as ([[[a b] c] d] & -> & _). done.
Qed.

(** ** Symbols *)

(** The table of names has [n] at offset [off]. *)
Definition named_at (tab : list Z) (off : Z) (n : string) : Prop :=
  if String.eqb n "" then off = 0
  else 0 <= off /\ take (Datatypes.S (length (string_bytes n))) (drop (Z.to_nat off) tab) = string_bytes n ++ [0].

(** An entry of the output for a symbol of an input. *)
Definition entry_of (st : RelState) (tab e : list Z) (oi : nat) (s : LoadedSym) : Prop :=
  exists off, named_at tab off (sy_name s) /\
    e = sym_bytes off (STB_LOCAL_INFO (sy_binding s) (sy_type s)) (Z.land (sy_visibility s) 3) (rel_sym_shndx st oi s) (rel_sym_value st oi s) (sy_size s).
(** An entry for a name that stays undefined. *)
Definition undefined_entry (tab e : list Z) (n : string) : Prop :=
  exists off info other, named_at tab off n /\ e = sym_bytes off info other SHN_UNDEF 0 0.

Lemma named_prefix tab tab' off n : tab `prefix_of` tab' -> named_at tab off n -> named_at tab' off n.
Proof.
  intros [k ->]. unfold named_at. destruct (String.eqb n ""); [done|]. intros [H0 H]. split; [done|]. rewrite drop_app, take_app, H.
  assert (length (take (Datatypes.S (length (string_bytes n))) (drop (Z.to_nat off) tab)) = length (string_bytes n ++ [0])) as E by (by rewrite H).
  rewrite length_take, length_app in E. cbn [length] in E. replace (Datatypes.S (length (string_bytes n)) - length (drop (Z.to_nat off) tab))%nat with 0%nat by lia. cbn [take]. by rewrite app_nil_r.
Qed.

Lemma put_name_named tab n off tab' : put_name_or_0 tab n = (off, tab') -> Z.of_nat (length tab') < 2 ^ 32 -> tab `prefix_of` tab' /\ named_at tab' off n.
Proof.
  unfold put_name_or_0, named_at. destruct (String.eqb n "") eqn:E; [by intros [= <- <-]|]. unfold put_name. intros [= <- <-] Hl. split; [by eexists|].
  rewrite length_app in Hl. rewrite uwrap_small by lia. split; [lia|]. rewrite Nat2Z.id, drop_app_length. apply take_ge. rewrite length_app. cbn [length]. lia.
Qed.

Record tables_ok (L : Linker) (st : RelState) (y : RelSyms) : Prop := {
  to_index : forall oi si i, ry_index y !! (oi, si) = Some i -> 0 < i /\ exists s e,
    nth_sym (l_objects L) oi si = Some s /\ ry_syms y !! Z.to_nat i = Some e /\ entry_of st (ry_strtab y) e oi s;
  to_und : forall n i, ry_und y !! n = Some i -> 0 < i /\ exists e, ry_syms y !! Z.to_nat i = Some e /\ undefined_entry (ry_strtab y) e n;
  to_first : (0 < length (ry_syms y))%nat
}.

(** The tables only grow. *)
Definition longer (y y' : RelSyms) : Prop := ry_strtab y `prefix_of` ry_strtab y' /\ ry_syms y `prefix_of` ry_syms y' /\
  (forall k, is_Some (ry_index y !! k) -> is_Some (ry_index y' !! k)) /\ (forall n, is_Some (ry_und y !! n) -> is_Some (ry_und y' !! n)).
#[export] Instance longer_preorder : PreOrder longer.
Proof. split; [by intros y; split_and!|]. intros a b c (A1 & A2 & A3 & A4) (B1 & B2 & B3 & B4). split_and!; [by etransitivity|by etransitivity|auto|auto]. Qed.

Lemma entry_prefix st tab tab' e oi s : tab `prefix_of` tab' -> entry_of st tab e oi s -> entry_of st tab' e oi s.
Proof. intros Hp (off & Hn & He). exists off. split; [by eapply named_prefix|done]. Qed.
Lemma undefined_prefix tab tab' e n : tab `prefix_of` tab' -> undefined_entry tab e n -> undefined_entry tab' e n.
Proof. intros Hp (off & i & o & Hn & He). exists off, i, o. split; [by eapply named_prefix|done]. Qed.

Section Tables.
Context (L : Linker) (st : RelState).

Lemma emit_longer y p : longer y (emit_rel_sym st y p).
Proof.
  destruct p as [[oi si] s]. unfold emit_rel_sym. destruct (put_name_or_0 (ry_strtab y) (sy_name s)) as [off tab] eqn:E.
  assert (ry_strtab y `prefix_of` tab) as Hp by (unfold put_name_or_0, put_name in E; destruct (String.eqb _ _); injection E as <- <-; [done|by eexists]).
  split_and!; cbn; [done|by eexists| |done]. intros k Hk. destruct (decide (k = (oi, si))) as [->|Hn]; [by rewrite lookup_insert_eq|by rewrite lookup_insert_ne].
Qed.

Lemma und_longer y s : longer y (emit_rel_und L y s).
Proof.
  unfold emit_rel_und. destruct (_ || _); [done|]. destruct (put_name_or_0 (ry_strtab y) (sy_name s)) as [off tab] eqn:E.
  assert (ry_strtab y `prefix_of` tab) as Hp by (unfold put_name_or_0, put_name in E; destruct (String.eqb _ _); injection E as <- <-; [done|by eexists]).
  split_and!; cbn; [done|by eexists|done|]. intros n Hn. destruct (decide (n = sy_name s)) as [->|Hne]; [by rewrite lookup_insert_eq|by rewrite lookup_insert_ne].
Qed.

(** A step that adds one entry keeps what is there. *)
Lemma tables_grow y tab e idx und : tables_ok L st y -> ry_strtab y `prefix_of` tab ->
  (forall oi si i, idx !! (oi, si) = Some i -> ry_index y !! (oi, si) = Some i \/ (i = rel_count y /\ exists s, nth_sym (l_objects L) oi si = Some s /\ entry_of st tab e oi s)) ->
  (forall n i, und !! n = Some i -> ry_und y !! n = Some i \/ (i = rel_count y /\ undefined_entry tab e n)) ->
  tables_ok L st (mkrelsyms tab (ry_syms y ++ [e]) idx und).
Proof.
  intros [Hi Hu Hf] Hp Hidx Hund. unfold rel_count in *.
  assert ((ry_syms y ++ [e]) !! Z.to_nat (Z.of_nat (length (ry_syms y))) = Some e) as Ee by (rewrite Nat2Z.id; by apply list_lookup_middle).
  split; cbn [ry_index ry_und ry_syms ry_strtab].
  - intros oi si i [H|[-> (s & Hs & He)]]%Hidx; [|split; [lia|]; by exists s, e].
    destruct (Hi _ _ _ H) as (H0 & s & e' & Hs & Hl & He). split; [done|]. exists s, e'. split; [done|]. split; [by apply lookup_app_l_Some|by eapply entry_prefix].
  - intros n i [H|[-> He]]%Hund; [|split; [lia|]; by exists e].
    destruct (Hu _ _ H) as (H0 & e' & Hl & He). split; [done|]. exists e'. split; [by apply lookup_app_l_Some|by eapply undefined_prefix].
  - rewrite length_app. cbn [length]. lia.
Qed.

Lemma emit_tables y p : tables_ok L st y -> nth_sym (l_objects L) p.1.1 p.1.2 = Some p.2 -> Z.of_nat (length (ry_strtab (emit_rel_sym st y p))) < 2 ^ 32 ->
  tables_ok L st (emit_rel_sym st y p).
Proof.
  destruct p as [[oi si] s]. cbn [fst snd]. intros Hok Hs Hl. unfold emit_rel_sym in *. destruct (put_name_or_0 (ry_strtab y) (sy_name s)) as [off tab] eqn:E. cbn [ry_strtab] in Hl.
  destruct (put_name_named _ _ _ _ E Hl) as [Hp Hn]. apply tables_grow; [done|done| |by left].
  intros oi' si' i. destruct (decide ((oi, si) = (oi', si'))) as [[= <- <-]|Hne]; [|rewrite lookup_insert_ne by done; by left].
  rewrite lookup_insert_eq. intros [= <-]. right. split; [done|]. exists s. split; [done|]. by exists off.
Qed.

Lemma und_tables y s : tables_ok L st y -> Z.of_nat (length (ry_strtab (emit_rel_und L y s))) < 2 ^ 32 -> tables_ok L st (emit_rel_und L y s).
Proof.
  intros Hok Hl. unfold emit_rel_und in *. destruct (_ || _); [done|]. destruct (put_name_or_0 (ry_strtab y) (sy_name s)) as [off tab] eqn:E. cbn [ry_strtab] in Hl.
  destruct (put_name_named _ _ _ _ E Hl) as [Hp Hn]. apply tables_grow; [done|done|by left|].
  intros n i. destruct (decide (sy_name s = n)) as [<-|Hne]; [|rewrite lookup_insert_ne by done; by left].
  rewrite lookup_insert_eq. intros [= <-]. right. split; [done|]. by eexists off, _, _.
Qed.

Lemma fold_longer {A} (f : RelSyms -> A -> RelSyms) l y : (forall y a, longer y (f y a)) -> longer y (foldl f y l).
Proof. intros Hf. revert y. induction l as [|a l IH]; intros y; [done|]. cbn. etransitivity; [apply Hf|apply IH]. Qed.

Lemma fold_tables {A} (f : RelSyms -> A -> RelSyms) l y : (forall y a, longer y (f y a)) ->
  (forall y a, a ∈ l -> tables_ok L st y -> Z.of_nat (length (ry_strtab (f y a))) < 2 ^ 32 -> tables_ok L st (f y a)) ->
  tables_ok L st y -> Z.of_nat (length (ry_strtab (foldl f y l))) < 2 ^ 32 -> tables_ok L st (foldl f y l).
Proof.
  intros Hf. revert y. induction l as [|a l IH]; intros y Hok Hy Hl; [done|]. cbn in *. apply IH; [intros; apply Hok; [by right|done|done]| |done].
  apply Hok; [by left|done|]. destruct (fold_longer f l (f y a) Hf) as (Hp & _). apply prefix_length in Hp. lia.
Qed.

End Tables.

Lemma fold_reaches {A} (f : RelSyms -> A -> RelSyms) (P : A -> RelSyms -> Prop) l y a :
  (forall y a, longer y (f y a)) -> (forall y a, P a (f y a)) -> (forall a y y', longer y y' -> P a y -> P a y') -> a ∈ l -> P a (foldl f y l).
Proof.
  intros Hf H1 H2. revert y. induction l as [|b l IH]; intros y Hin; [by apply elem_of_nil in Hin|]. cbn.
  apply elem_of_cons in Hin as [->|Hin]; [|by apply IH]. eapply H2; [apply fold_longer, Hf|apply H1].
Qed.

Lemma all_syms_elem L oi si s : (oi, si, s) ∈ all_syms L <-> 0 < si /\ nth_sym (l_objects L) oi si = Some s.
Proof.
  unfold all_syms, nth_sym. rewrite list_elem_of_In, in_concat. split.
  - intros (l & Hl & Hin). apply list_elem_of_In, elem_of_lookup_imap in Hl as (i & o & -> & Ho). apply list_elem_of_In in Hin. unfold input_syms in Hin.
    apply elem_of_lookup_imap in Hin as (j & s' & [= -> -> ->] & Hs). split; [lia|]. rewrite Ho. cbn [mbind option_bind]. unfold get.
    destruct (o_symbols o) as [|s0 l]; [done|]. cbn [tail] in Hs. pose proof (lookup_lt_Some _ _ _ Hs). cbn [length].
    rewrite (proj2 (Z.leb_le _ _)), (proj2 (Z.ltb_lt _ _)) by lia. cbn [andb]. replace (Z.to_nat (Z.of_nat j + 1)) with (Datatypes.S j) by lia. done.
  - intros [H0 H]. destruct (l_objects L !! oi) as [o|] eqn:Ho; [|done]. cbn [mbind option_bind] in H. unfold get in H. destruct (_ && _) eqn:E; [|done]. zprops.
    exists (input_syms oi o). split; [apply list_elem_of_In, elem_of_lookup_imap; by exists oi, o|]. apply list_elem_of_In. unfold input_syms. apply elem_of_lookup_imap.
    exists (Z.to_nat si - 1)%nat, s. split; [do 2 f_equal; lia|]. destruct (o_symbols o) as [|s0 l]; [cbn in *; lia|]. cbn [tail].
    replace (Z.to_nat si) with (Datatypes.S (Z.to_nat si - 1)) in H by lia. done.
Qed.

Lemma entries_elem {ord : StringOrder} {A} (m : gmap string A) n a : (n, a) ∈ entries m <-> m !! n = Some a.
Proof.
  unfold entries. rewrite list_elem_of_omap. split.
  - intros (x & _ & Hx). destruct (m !! x) eqn:E; [|done]. by injection Hx as -> ->.
  - intros H. exists n. rewrite H. split; [|done]. rewrite string_order_perm, elem_of_elements, elem_of_dom. by eexists.
Qed.

Section Symtab.
Context {ord : StringOrder} (L : Linker) (st : RelState) (y : RelSyms) (first : Z).
Context (Hy : rel_symtab L st = (y, first)) (Hl : Z.of_nat (length (ry_strtab y)) < 2 ^ 32).

Lemma symtab_tables : tables_ok L st y.
Proof.
  unfold rel_symtab in Hy. injection Hy as <- _. apply fold_tables; [intros; apply und_longer|intros; by apply und_tables| |exact Hl].
  destruct (fold_longer (emit_rel_und L) ((fun p => p.2) <$> all_syms L) (foldl (emit_rel_sym st) (foldl (emit_rel_sym st) (mkrelsyms [0] [zero_sym] ∅ ∅)
    (List.filter (fun p => sy_binding p.2 =? STB_LOCAL) (all_syms L))) (global_syms L)) (und_longer L)) as (Hp & _). apply prefix_length in Hp.
  apply fold_tables; [intros; apply emit_longer| | |lia].
  - intros y0 [[oi si] s] Hin Hok Hlen. apply emit_tables; [done| |done]. unfold global_syms in Hin. apply list_elem_of_omap in Hin as ((n & oi' & si') & _ & Hx).
    cbn [fst snd] in Hx. destruct (nth_sym _ _ _) eqn:E; [|done]. by injection Hx as <- <- <-.
  - destruct (fold_longer (emit_rel_sym st) (global_syms L) (foldl (emit_rel_sym st) (mkrelsyms [0] [zero_sym] ∅ ∅) (List.filter (fun p => sy_binding p.2 =? STB_LOCAL) (all_syms L)))
      (emit_longer st)) as (Hp' & _). apply prefix_length in Hp'.
    apply fold_tables; [intros; apply emit_longer| | |lia].
    + intros y0 [[oi si] s] Hin Hok Hlen. apply emit_tables; [done| |done]. apply list_elem_of_In, List.filter_In in Hin as [Hin _]. apply list_elem_of_In in Hin.
      by apply all_syms_elem in Hin as [_ ?].
    + split; cbn; [intros oi si i; by rewrite lookup_empty|intros n i; by rewrite lookup_empty|lia].
Qed.

(** A local symbol and a definition that counts have a number of their own, an
    undefined name has one. *)
Lemma symtab_local oi si s : 0 < si -> nth_sym (l_objects L) oi si = Some s -> sy_binding s = STB_LOCAL -> is_Some (ry_index y !! (oi, si)).
Proof.
  intros H0 Hs Hb. unfold rel_symtab in Hy. injection Hy as <- _.
  eapply (fold_longer (emit_rel_und L)); [apply und_longer|]. eapply (fold_longer (emit_rel_sym st)); [apply emit_longer|].
  apply (fold_reaches (emit_rel_sym st) (fun p y => is_Some (ry_index y !! (p.1.1, p.1.2))) _ _ (oi, si, s)).
  - apply emit_longer.
  - intros y0 [[oi' si'] s']. unfold emit_rel_sym. destruct (put_name_or_0 _ _). cbn. by rewrite lookup_insert_eq.
  - intros a y1 y2 (_ & _ & H & _). apply H.
  - apply list_elem_of_In, List.filter_In. cbn [snd]. rewrite Hb. split; [|done]. apply list_elem_of_In. by apply all_syms_elem.
Qed.

Lemma symtab_global n oi si s : l_globals L !! n = Some (oi, si) -> nth_sym (l_objects L) oi (Z.of_nat si) = Some s -> is_Some (ry_index y !! (oi, Z.of_nat si)).
Proof.
  intros Hg Hs. unfold rel_symtab in Hy. injection Hy as <- _. eapply (fold_longer (emit_rel_und L)); [apply und_longer|].
  apply (fold_reaches (emit_rel_sym st) (fun p y => is_Some (ry_index y !! (p.1.1, p.1.2))) _ _ (oi, Z.of_nat si, s)).
  - apply emit_longer.
  - intros y0 [[oi' si'] s']. unfold emit_rel_sym. destruct (put_name_or_0 _ _). cbn. by rewrite lookup_insert_eq.
  - intros a y1 y2 (_ & _ & H & _). apply H.
  - unfold global_syms. apply list_elem_of_omap. exists (n, (oi, si)). split; [by apply entries_elem|]. cbn [fst snd]. by rewrite Hs.
Qed.

Lemma symtab_und oi si s : 0 < si -> nth_sym (l_objects L) oi si = Some s -> sy_binding s <> STB_LOCAL -> sy_defined s = false -> l_globals L !! sy_name s = None ->
  is_Some (ry_und y !! sy_name s).
Proof.
  intros H0 Hs Hb Hd Hg. unfold rel_symtab in Hy. injection Hy as <- _.
  apply (fold_reaches (emit_rel_und L) (fun a y => sy_defined a = false -> sy_binding a <> STB_LOCAL -> l_globals L !! sy_name a = None -> is_Some (ry_und y !! sy_name a)) _ _ s); try done.
  - apply und_longer.
  - intros y0 a Hd' Hb' Hg'. unfold emit_rel_und. rewrite Hd', (proj2 (Z.eqb_neq _ _) Hb'), (bool_decide_false (is_Some (l_globals L !! sy_name a))) by (by rewrite Hg'; intros [? ?]). cbn [orb].
    case_bool_decide as Hc; [done|]. destruct (put_name_or_0 _ _). cbn. by rewrite lookup_insert_eq.
  - intros a y1 y2 (_ & _ & _ & H) Hp ? ? ?. by apply H, Hp.
  - apply list_elem_of_fmap. exists (oi, si, s). split; [done|]. by apply all_syms_elem.
Qed.

End Symtab.
