(* ===== verification/LdPartial.v ===== *)
(** * LdPartial: a partial link is faithful

    Relocations of a partial link, the sections in the file, and what [bpfvm-ld -r]
    promises as a whole; at the end a link of the demo and what it loses. *)

From S2P Require Import Prelude Bytes HostMem AddrSpace Isa Frame Paths Loader Ld LdDemo LdLayout LdSym LdReloc LdRun LdOut LdFile LdRel LdMerge.
From Stdlib Require Import Lia.
From stdpp Require Import base numbers list gmap strings option sorting.

Open Scope Z_scope.
Open Scope ld_scope.

(** ** Tables of entries of one size *)

(** Entry [i] of a table whose entries have [n] bytes. *)
Definition row (n i : nat) (tab : list Z) : list Z := take n (drop (n * i) tab).

Lemma row_concat n i (l : list (list Z)) e : Forall (fun x => length x = n) l -> l !! i = Some e -> row n i (concat l) = e.
Proof.
  unfold row. intros Hl. revert i. induction Hl as [|x l Hx _ IH]; intros i He; [done|]. cbn [concat]. destruct i as [|i].
  - injection He as ->. rewrite Nat.mul_0_r, drop_0, take_app_le by lia. apply take_ge. lia.
  - rewrite drop_app_ge by (rewrite Hx; lia). rewrite Hx. replace (n * S i - n)%nat with (n * i)%nat by lia. by apply IH.
Qed.

(** ** The relocation sections *)

(** The relocations among [l] that go to section [out]. *)
Definition relocs_into (out : nat) (l : list (nat * string * list Z)) : list (list Z) :=
  snd <$> List.filter (fun p => Nat.eqb p.1.1 out) l.

Record relas_ok (base : list RelSec) (symtab : nat) (l : list (nat * string * list Z)) (st : list RelSec * gmap nat nat) : Prop := {
  ra_prefix : base `prefix_of` st.1;
  ra_known : forall p, p ∈ l -> is_Some (st.2 !! p.1.1);
  ra_one : forall out out' i, st.2 !! out = Some i -> st.2 !! out' = Some i -> out = out';
  ra_sec : forall out i, st.2 !! out = Some i -> (length base <= i)%nat /\ exists s, st.1 !! i = Some s /\
    sb_type (rs_buf s) = SHT_RELA /\ sb_link (rs_buf s) = u32 (u32 (Z.of_nat symtab) + 1) /\ sb_info (rs_buf s) = u32 (u32 (Z.of_nat out) + 1) /\
    sb_data (rs_buf s) = concat (relocs_into out l)
}.

Lemma relocs_into_snoc out l p : relocs_into out (l ++ [p]) = relocs_into out l ++ (if Nat.eqb p.1.1 out then [p.2] else []).
Proof. unfold relocs_into. rewrite List.filter_app, fmap_app. cbn [List.filter]. by destruct (Nat.eqb _ _). Qed.

Lemma put_rela_ok base symtab l st p : relas_ok base symtab l st -> relas_ok base symtab (l ++ [p]) (put_rela symtab st p).
Proof.
  intros [Hp Hk H1 Hs]. destruct p as [[out name] bytes]. unfold put_rela. destruct st as [ex tab]. cbn [fst snd] in *. destruct (tab !! out) as [i|] eqn:E.
  - destruct (Hs _ _ E) as (Hi & s & Es & T & Ln & Inf & D).
    split; cbn [fst snd]; [|intros p [Hin| ->%list_elem_of_singleton]%elem_of_app; [by apply Hk|by eexists]|done|].
    + destruct Hp as [k ->]. exists (alter (fun s => mkrelsec (set_data (sb_data (rs_buf s) ++ bytes) (rs_buf s)) (rs_size s)) (i - length base)%nat k). by apply alter_app_r_alt.
    + intros out' j Ej. rewrite relocs_into_snoc. cbn [fst snd]. destruct (Hs _ _ Ej) as (Hj & s' & Es' & T' & Ln' & I' & D'). split; [done|]. destruct (Nat.eqb_spec out out') as [<-|Hn].
      * assert (j = i) as -> by congruence. rewrite Es in Es'. injection Es' as <-. rewrite list_lookup_alter_eq, Es. eexists. split; [done|]. cbn. rewrite concat_app, D. cbn. by rewrite app_nil_r.
      * rewrite app_nil_r, list_lookup_alter_ne by (intros ->; apply Hn; by eapply H1). by exists s'.
  - assert (forall out' j, tab !! out' = Some j -> (j < length ex)%nat) as Hlt by (intros out' j (_ & s & Es & _)%Hs; by eapply lookup_lt_Some).
    split; cbn [fst snd]; [by apply prefix_app_r| | |].
    + intros p [Hin| ->%list_elem_of_singleton]%elem_of_app; [|by rewrite lookup_insert_eq]. destruct (decide (p.1.1 = out)) as [->|Hn]; [by rewrite lookup_insert_eq|rewrite lookup_insert_ne by done; by apply Hk].
    + intros o o' j. destruct (decide (o = out)) as [->|Ho]; [rewrite lookup_insert_eq|rewrite lookup_insert_ne by done]; (destruct (decide (o' = out)) as [->|Ho']; [rewrite lookup_insert_eq|rewrite lookup_insert_ne by done]); [done| | |by apply H1].
      * intros [= <-] H. apply Hlt in H. lia.
      * intros H [= <-]. apply Hlt in H. lia.
    + intros o j. rewrite relocs_into_snoc. cbn [fst snd]. destruct (decide (o = out)) as [->|Ho]; [rewrite lookup_insert_eq|rewrite lookup_insert_ne by done].
      * intros [= <-]. apply prefix_length in Hp. split; [done|]. eexists. split; [by apply list_lookup_middle|]. split; [done|]. split; [done|]. split; [done|]. rewrite Nat.eqb_refl.
        assert (relocs_into out l = []) as ->; [|cbn; by rewrite app_nil_r]. unfold relocs_into. destruct (List.filter _ l) as [|q r] eqn:Ef; [done|]. exfalso.
        assert (In q (List.filter (fun p => Nat.eqb p.1.1 out) l)) as Hq by (rewrite Ef; by left). apply List.filter_In in Hq as [Hq He%Nat.eqb_eq].
        apply list_elem_of_In, Hk in Hq as [? Hq]. congruence.
      * intros H. destruct (Nat.eqb_spec out o) as [->|_]; [done|]. rewrite app_nil_r. destruct (Hs _ _ H) as (Hj & s & Es & R). split; [done|]. exists s. split; [by apply lookup_app_l_Some|done].
Qed.

Lemma relas_fold base symtab l0 l st : relas_ok base symtab l0 st -> relas_ok base symtab (l0 ++ l) (foldl (put_rela symtab) st l).
Proof.
  revert l0 st. induction l as [|p l IH]; intros l0 st H; [by rewrite app_nil_r|]. cbn [foldl]. change (p :: l) with ([p] ++ l). rewrite app_assoc. apply IH. by apply put_rela_ok.
Qed.


(** ** The symbol of a relocation *)

Lemma emit_keys st l y k : is_Some (ry_index (foldl (emit_rel_sym st) y l) !! k) -> is_Some (ry_index y !! k) \/ exists p, p ∈ l /\ p.1 = k.
Proof.
  revert y. induction l as [|p l IH]; intros y H; [by left|]. cbn in H. apply IH in H as [H|(q & Hq & <-)]; [|right; exists q; split; [by right|done]].
  destruct p as [[oi si] s]. unfold emit_rel_sym in H. destruct (put_name_or_0 _ _). cbn in H. destruct (decide (k = (oi, si))) as [->|Hn].
  - right. exists (oi, si, s). split; [by left|done].
  - rewrite lookup_insert_ne in H by done. by left.
Qed.

Lemma und_keys L l y : ry_index (foldl (emit_rel_und L) y l) = ry_index y.
Proof. revert y. induction l as [|s l IH]; intros y; [done|]. cbn. rewrite IH. unfold emit_rel_und. destruct (_ || _); [done|]. by destruct (put_name_or_0 _ _). Qed.

(** The global table after [register_globals]. *)
Definition globals_sound (L : Linker) : Prop := forall n oi si, l_globals L !! n = Some (oi, si) ->
  exists s, nth_sym (l_objects L) oi (Z.of_nat si) = Some s /\ sy_name s = n /\ sy_binding s <> STB_LOCAL.

Lemma registered_sound L : l_globals L = ∅ -> globals_sound (register_all L).
Proof.
  intros Hnew n oi si H. rewrite registered in H by done. apply fmap_Some in H as ([[oi' si'] s] & Hw & [= -> ->]).
  apply winner_elem in Hw. unfold definitions in Hw. apply list_elem_of_filter in Hw as [[Hx Hn] Hin]. cbn [snd] in *. exists s.
  split; [by apply syms_nth|]. split; [done|]. apply exported_binding in Hx as [-> | ->]; done.
Qed.

(** Entry [i] of the output stands for what symbol [si] of object [oi] stands
    for: itself when it is local, the definition of its name that counts, or its
    name when there is none. *)
Definition stands_for (L : Linker) (st : RelState) (strtab symtab : list Z) (i : Z) (oi : nat) (s : LoadedSym) : Prop :=
  0 < i /\
  if sy_binding s =? STB_LOCAL then entry_of st strtab (row 24 (Z.to_nat i) symtab) oi s
  else match l_globals L !! sy_name s with
  | Some (oi', si') => exists s', nth_sym (l_objects L) oi' (Z.of_nat si') = Some s' /\ entry_of st strtab (row 24 (Z.to_nat i) symtab) oi' s'
  | None => undefined_entry strtab (row 24 (Z.to_nat i) symtab) (sy_name s)
  end.

Lemma sym_bytes_length a b c d e f : length (sym_bytes a b c d e f) = 24%nat.
Proof. unfold sym_bytes. rewrite !length_app. by rewrite !le_bytes_length. Qed.
Lemma rela_bytes_length a b c : length (rela_bytes a b c) = 24%nat.
Proof. unfold rela_bytes. rewrite !length_app. by rewrite !le_bytes_length. Qed.

Lemma emit_rows {A} (f : RelSyms -> A -> RelSyms) l y :
  (forall y a, Forall (fun x => length x = 24%nat) (ry_syms y) -> Forall (fun x => length x = 24%nat) (ry_syms (f y a))) ->
  Forall (fun x => length x = 24%nat) (ry_syms y) -> Forall (fun x => length x = 24%nat) (ry_syms (foldl f y l)).
Proof. intros Hf. revert y. induction l as [|a l IH]; intros y H; [done|]. cbn. by apply IH, Hf. Qed.

Section Names.
Context {ord : StringOrder} (L : Linker) (st : RelState) (y : RelSyms) (first : Z).
Context (Hy : rel_symtab L st = (y, first)) (Hl : Z.of_nat (length (ry_strtab y)) < 2 ^ 32) (Hg : globals_sound L).

Lemma symtab_rows : Forall (fun x => length x = 24%nat) (ry_syms y).
Proof.
  unfold rel_symtab in Hy. injection Hy as <- _. assert (forall y p, Forall (fun x => length x = 24%nat) (ry_syms y) -> Forall (fun x => length x = 24%nat) (ry_syms (emit_rel_sym st y p))) as He.
  { intros y0 [[oi si] s] H. unfold emit_rel_sym. destruct (put_name_or_0 _ _). cbn [ry_syms]. apply Forall_app. split; [done|]. apply Forall_singleton. by rewrite sym_bytes_length. }
  apply emit_rows; [|apply emit_rows; [exact He|apply emit_rows; [exact He|by apply Forall_singleton]]].
  intros y0 s H. unfold emit_rel_und. destruct (_ || _); [done|]. destruct (put_name_or_0 _ _). cbn [ry_syms]. apply Forall_app. split; [done|]. apply Forall_singleton. by rewrite sym_bytes_length.
Qed.

(** A symbol with a number of its own is local or counts for its name. *)
Lemma index_origin oi si s i : ry_index y !! (oi, si) = Some i -> nth_sym (l_objects L) oi si = Some s ->
  sy_binding s = STB_LOCAL \/ exists si', si = Z.of_nat si' /\ l_globals L !! sy_name s = Some (oi, si').
Proof.
  intros Hi Hs. unfold rel_symtab in Hy. injection Hy as <- _. rewrite und_keys in Hi.
  destruct (emit_keys st _ _ (oi, si) ltac:(by eexists)) as [H|(p & Hp & Hk)].
  - apply emit_keys in H as [H|(p & Hp & Hk)]; [cbn in H; rewrite lookup_empty in H; by destruct H|]. left.
    apply list_elem_of_In, List.filter_In in Hp as [Hp Hb%Z.eqb_eq]. apply list_elem_of_In in Hp. destruct p as [[oi' si'] s']. cbn [fst snd] in *. injection Hk as -> ->.
    apply all_syms_elem in Hp as [_ Hp]. by simplify_eq.
  - right. unfold global_syms in Hp. apply list_elem_of_omap in Hp as ((n & oi' & si') & Hin & Hx). cbn [fst snd] in Hx. destruct (nth_sym _ oi' _) as [s'|] eqn:E; [|done].
    injection Hx as <-. cbn in Hk. injection Hk as -> <-. apply entries_elem in Hin. exists si'. split; [done|]. destruct (Hg _ _ _ Hin) as (s2 & H2 & <- & _). by simplify_eq.
Qed.

(** A relocation names what it named: its own symbol or its name must count for
    something. *)
Lemma rel_symbol_stands oi si s : 0 < si -> nth_sym (l_objects L) oi si = Some s ->
  (sy_binding s = STB_LOCAL \/ sy_defined s = false \/ is_Some (l_globals L !! sy_name s)) ->
  stands_for L st (ry_strtab y) (concat (ry_syms y)) (rel_symbol L y oi si) oi s.
Proof.
  intros H0 Hs Hcase. pose proof (symtab_tables L st y first Hy Hl) as [Ti Tu _].
  assert (forall i e, ry_syms y !! Z.to_nat i = Some e -> row 24 (Z.to_nat i) (concat (ry_syms y)) = e) as Hrow by (intros i e; apply row_concat, symtab_rows).
  unfold stands_for, rel_symbol. destruct (ry_index y !! (oi, si)) as [i|] eqn:Ei.
  - destruct (Ti _ _ _ Ei) as (Hi & s' & e & Hs' & He & Hen). rewrite Hs in Hs'. injection Hs' as <-. split; [done|]. rewrite (Hrow _ _ He).
    destruct (Z.eqb_spec (sy_binding s) STB_LOCAL) as [_|Hn]; [done|]. destruct (index_origin _ _ _ _ Ei Hs) as [?|(si' & -> & ->)]; [done|]. by exists s.
  - destruct (Z.eqb_spec (sy_binding s) STB_LOCAL) as [Hb|Hn]; [destruct (symtab_local L st y first Hy Hl oi si s H0 Hs Hb) as [? ?]; congruence|]. rewrite Hs.
    destruct (l_globals L !! sy_name s) as [[oi' si']|] eqn:Eg.
    + destruct (Hg _ _ _ Eg) as (s' & Hs' & _). destruct (symtab_global L st y first Hy Hl _ _ _ _ Eg Hs') as [i Ei']. rewrite Ei'. change (default 0 (Some i)) with i.
      destruct (Ti _ _ _ Ei') as (Hi & s2 & e & Hs2 & He & Hen). rewrite (proj2 (Z.eqb_neq i 0)) by lia. split; [done|]. exists s2. rewrite (Hrow _ _ He). done.
    + destruct Hcase as [?|[Hd|[? ?]]]; [done| |done]. destruct (symtab_und L st y first Hy Hl oi si s H0 Hs Hn Hd Eg) as [i Ei']. change (Z.eqb 0 0) with true; cbv iota. rewrite Ei'. change (default 0 (Some i)) with i.
      destruct (Tu _ _ Ei') as (Hi & e & He & Hen). split; [done|]. by rewrite (Hrow _ _ He).
Qed.

End Names.

(** ** The sections in the file *)

(** The bytes [bs] lie at [off]. *)
Definition holds (f : list Z) (off : Z) (bs : list Z) : Prop := take (length bs) (drop (Z.to_nat off) f) = bs.

Lemma holds_prefix f f' off bs : f `prefix_of` f' -> holds f off bs -> holds f' off bs.
Proof.
  intros [k ->] H. unfold holds in *. rewrite drop_app, take_app, H. pose proof (f_equal length H) as E. rewrite length_take in E.
  replace (length bs - length (drop (Z.to_nat off) f))%nat with 0%nat by lia. apply app_nil_r.
Qed.

Lemma holds_end f bs : holds (f ++ bs) (Z.of_nat (length f)) bs.
Proof. unfold holds. rewrite Nat2Z.id, drop_app_length. by apply take_ge. Qed.

Lemma write_pos_end f off bs f' : write_pos f off bs = Done f' -> 0 <= off -> Z.of_nat (length f) <= off ->
  f `prefix_of` f' /\ Z.of_nat (length f') <= off + Z.of_nat (length bs) /\ holds f' off bs /\ off < 2 ^ 63.
Proof.
  unfold write_pos. destruct (Z.leb_spec (2 ^ 63) off) as [|Ho]; [done|]. intros H H0 Hf. pose proof (pad_to_length f off Hf) as Hl.
  destruct bs as [|b bs]; [injection H as <-; split_and!; [done|cbn; lia|done|done]|]. injection H as <-. rewrite (drop_ge f), app_nil_r, take_ge by (cbn; lia).
  split; [by apply prefix_app_r, pad_to_prefix|]. split; [rewrite length_app; lia|]. split; [|done]. pose proof (holds_end (pad_to f off) (b :: bs)) as E. by rewrite Hl in E.
Qed.

Lemma sub_land x m : x - Z.land x m = Z.ldiff x m.
Proof.
  rewrite (Z.sub_nocarry_ldiff x (Z.land x m)).
  - apply Z.bits_inj'. intros i _. rewrite !Z.ldiff_spec, Z.land_spec. by destruct (Z.testbit x i), (Z.testbit m i).
  - apply Z.bits_inj'. intros i _. rewrite Z.ldiff_spec, Z.land_spec, Z.bits_0. by destruct (Z.testbit x i), (Z.testbit m i).
Qed.

Lemma andnot_bounds x m : 0 <= x -> 0 <= m -> x - m <= andnot x m <= x.
Proof.
  intros Hx Hm. change (andnot x m) with (Z.ldiff x m). pose proof (sub_land x m) as A. pose proof (sub_land m x) as B. rewrite Z.land_comm in B.
  assert (0 <= Z.ldiff m x) by (apply Z.ldiff_nonneg; by left). assert (0 <= Z.land x m) by (apply Z.land_nonneg; by left). lia.
Qed.

(** Room for sections in the file. *)
Definition file_room (l : list RelSec) : Z := foldr (fun s a => Z.of_nat (length (sb_data (rs_buf s))) + or_one (sb_addralign (rs_buf s)) + a) 0 l.

Lemma file_room_app a b : file_room (a ++ b) = file_room a + file_room b.
Proof. induction a as [|s a IH]; [done|]. change (file_room ((s :: a) ++ b)) with (Z.of_nat (length (sb_data (rs_buf s))) + or_one (sb_addralign (rs_buf s)) + file_room (a ++ b)). rewrite IH. unfold file_room. cbn [foldr]. lia. Qed.

Definition aligns_ok (l : list RelSec) : Prop := Forall (fun s => 0 <= sb_addralign (rs_buf s)) l.

Lemma file_room_nonneg l : aligns_ok l -> 0 <= file_room l.
Proof. induction 1 as [|s l Ha _ IH]; [done|]. unfold file_room in *. cbn [foldr]. unfold or_one at 1. destruct (_ =? 0); lia. Qed.

Lemma rel_offset_step off s l : 0 <= off -> 0 <= sb_addralign (rs_buf s) -> aligns_ok l -> off + file_room (s :: l) < 2 ^ 63 ->
  let a := or_one (sb_addralign (rs_buf s)) in let off' := if 1 <? a then andnot (u64 (off + a - 1)) (a - 1) else off in
  off <= off' /\ off' + Z.of_nat (length (sb_data (rs_buf s))) + file_room l < 2 ^ 63 /\
  u64 (off' + Z.of_nat (length (sb_data (rs_buf s)))) = off' + Z.of_nat (length (sb_data (rs_buf s))) /\ off' <= off + a.
Proof.
  intros H0 Ha Hl Hr. cbn zeta. change (file_room (s :: l)) with (Z.of_nat (length (sb_data (rs_buf s))) + or_one (sb_addralign (rs_buf s)) + file_room l) in Hr.
  pose proof (file_room_nonneg l Hl). set (a := or_one _) in *. assert (1 <= a) by (unfold a, or_one; destruct (Z.eqb_spec (sb_addralign (rs_buf s)) 0); lia).
  assert (off <= (if 1 <? a then andnot (u64 (off + a - 1)) (a - 1) else off) <= off + a - 1) as Hb.
  { destruct (Z.ltb_spec 1 a); [|lia]. rewrite (uwrap_small 64) by lia. pose proof (andnot_bounds (off + a - 1) (a - 1) ltac:(lia) ltac:(lia)). lia. }
  split_and!; [lia|lia| |lia]. apply uwrap_small. lia.
Qed.

Lemma write_rel_secs l off offs e f f' : rel_offsets off l = (offs, e) -> rfold write_rel_sec f (combine l offs) = Done f' ->
  0 <= off -> aligns_ok l -> off + file_room l < 2 ^ 63 -> Z.of_nat (length f) <= off ->
  f `prefix_of` f' /\ Z.of_nat (length f') <= e /\ off <= e <= off + file_room l /\
  forall i s, l !! i = Some s -> exists o, offs !! i = Some o /\ 0 <= o < 2 ^ 63 /\ (nobits s = false -> holds f' o (sb_data (rs_buf s))).
Proof.
  revert off offs f. induction l as [|s l IH]; intros off offs f Ho Hw H0 Ha Hr Hf; cbn in Ho.
  { injection Ho as <- <-. injection Hw as ->. split_and!; [done|done|lia|unfold file_room; cbn; lia|done]. }
  apply list.Forall_cons in Ha as [Ha Hal]. pose proof (rel_offset_step off s l H0 Ha Hal Hr) as (S1 & S2 & S3 & S4).
  change (file_room (s :: l)) with (Z.of_nat (length (sb_data (rs_buf s))) + or_one (sb_addralign (rs_buf s)) + file_room l).
  set (off' := if 1 <? _ then _ else off) in *. destruct (rel_offsets _ l) as [t e'] eqn:Et. injection Ho as <- <-. cbn [combine rfold] in Hw. unfold write_rel_sec in Hw at 1. cbn [fst snd] in Hw.
  pose proof (file_room_nonneg l Hal) as Hn. destruct (nobits s) eqn:Eb.
  - cbn [rbind] in Hw. destruct (IH _ _ _ Et Hw) as (P & Hl & He & Hs); [lia|done|lia|lia|]. split; [done|]. split; [done|]. split; [lia|].
    intros [|i] s' Hi; [injection Hi as <-; exists off'; split; [done|]; split; [lia|congruence]|]. by apply Hs.
  - destruct (write_pos f off' (sb_data (rs_buf s))) as [f1| |] eqn:Ew; [|done|done]. cbn [rbind] in Hw. destruct (write_pos_end _ _ _ _ Ew ltac:(lia) ltac:(lia)) as (P1 & L1 & H1 & B1).
    rewrite S3 in Et. destruct (IH _ _ _ Et Hw) as (P & Hl & He & Hs); [lia|done|lia|lia|]. split; [by etransitivity|]. split; [done|]. split; [lia|].
    intros [|i] s' Hi; [injection Hi as <-; exists off'; split; [done|]; split; [lia|]; intros _; by eapply holds_prefix|]. by apply Hs.
Qed.

Lemma holds_app f off a b : 0 <= off -> holds f off (a ++ b) -> holds f off a /\ holds f (off + Z.of_nat (length a)) b.
Proof.
  intros H0 H. unfold holds in *. replace (Z.to_nat (off + Z.of_nat (length a))) with (Z.to_nat off + length a)%nat by lia. rewrite <- drop_drop. set (g := drop (Z.to_nat off) f) in *.
  assert (length a + length b <= length g)%nat as Hg by (pose proof (f_equal length H) as E; rewrite length_take, length_app in E; lia).
  rewrite length_app in H. rewrite <- (take_drop (length a) g) in H at 1. rewrite take_app_ge in H by (rewrite length_take; lia). rewrite length_take in H.
  replace (length a + length b - length a `min` length g)%nat with (length b) in H by lia. apply app_inj_1 in H; [done|]. rewrite length_take. lia.
Qed.

Lemma holds_row f off n l i e : 0 <= off -> holds f off (concat l) -> Forall (fun x : list Z => length x = n) l -> l !! i = Some e -> holds f (off + Z.of_nat (n * i)) e.
Proof.
  intros H0 Hh Hl. revert off i H0 Hh. induction Hl as [|x l Hx _ IH]; intros off i H0 Hh He; [done|]. cbn [concat] in Hh. apply holds_app in Hh as [H1 H2]; [|done]. destruct i as [|i].
  - injection He as ->. by rewrite Nat.mul_0_r, Z.add_0_r.
  - rewrite Hx in H2. replace (off + Z.of_nat (n * S i)) with (off + Z.of_nat n + Z.of_nat (n * i)) by lia. apply IH; [lia|done|done].
Qed.

Lemma put_names_hold tab l offs tab' : put_names tab l = (offs, tab') -> Z.of_nat (length tab') < 2 ^ 32 ->
  tab `prefix_of` tab' /\ forall i n, l !! i = Some n -> exists o, offs !! i = Some o /\ holds tab' o (string_bytes n ++ [0]).
Proof.
  revert tab offs. induction l as [|n l IH]; intros tab offs H Hl; cbn in H; [by injection H as <- <-|]. destruct (put_names _ l) as [offs' tab1] eqn:E. injection H as <- <-.
  destruct (IH _ _ E Hl) as [P Hn]. split; [etransitivity; [|exact P]; by eexists|]. intros [|i] n' Hi; [|by apply Hn]. injection Hi as <-. exists (u32 (Z.of_nat (length tab))). split; [done|].
  apply prefix_length in P as Hp. rewrite !length_app in Hp. rewrite uwrap_small by lia. eapply holds_prefix; [exact P|]. apply holds_end.
Qed.

Lemma put_names_length tab l offs tab' : put_names tab l = (offs, tab') ->
  length tab' = (length tab + sum_list_with (fun n => S (length (string_bytes n))) l)%nat.
Proof.
  revert tab offs. induction l as [|n l IH]; intros tab offs H; cbn in H; [injection H as _ <-; cbn; lia|]. destruct (put_names _ l) as [offs' tab1] eqn:E. injection H as _ <-.
  rewrite (IH _ _ E), !length_app. cbn. lia.
Qed.

Lemma combine_lookup {A B} (l : list A) (k : list B) i a b : l !! i = Some a -> k !! i = Some b -> combine l k !! i = Some (a, b).
Proof. revert k i. induction l as [|x l IH]; intros [|y k] [|i] Ha Hb; try done; [by injection Ha as ->; injection Hb as ->|]. by apply IH. Qed.

(** The file of the sections [extras]: the header, the header of each section
    with its name, and its bytes. *)
Definition file_of (f : list Z) (extras : list RelSec) : Prop :=
  exists sh_off tab tab_off tab_name, let n := Z.of_nat (length extras) in
  EHDR_SIZE <= sh_off /\ holds f 0 (rel_ehdr sh_off (u16 (n + 2)) (u16 (n + 1))) /\
  holds f (sh_off + 64 * (n + 1)) (rel_shdr (bare_section (mksecbuf ".shstrtab" SHT_STRTAB 0 tab 0 0 1 0), tab_off, tab_name)) /\ holds f tab_off tab /\
  forall i s, extras !! i = Some s -> exists off name,
    holds f (sh_off + 64 * (Z.of_nat i + 1)) (rel_shdr (s, off, name)) /\ holds tab name (string_bytes (sb_name (rs_buf s)) ++ [0]) /\
    (nobits s = false -> holds f off (sb_data (rs_buf s))).

(** Room for the sections and for their names. *)
Record fits (extras : list RelSec) : Prop := {
  fi_aligns : aligns_ok extras;
  fi_room : file_room extras < 2 ^ 62;
  fi_names : Z.of_nat (sum_list_with (fun s => S (length (string_bytes (sb_name (rs_buf s))))) extras) < 2 ^ 31;
  fi_strtab : forall s, s ∈ extras -> sb_type (rs_buf s) = SHT_STRTAB -> Z.of_nat (length (sb_data (rs_buf s))) < 2 ^ 32
}.

Lemma rel_ehdr_length a b c : length (rel_ehdr a b c) = 64%nat.
Proof. unfold rel_ehdr. rewrite !length_app, !le_bytes_length, length_replicate. done. Qed.
Lemma rel_shdr_length p : length (rel_shdr p) = 64%nat.
Proof. destruct p as [[s o] n]. unfold rel_shdr, shdr_bytes. rewrite !length_app, !le_bytes_length. done. Qed.

Section File.
Context {ord : StringOrder}.

Lemma rel_file op L extras f : rel_sections op L = Done extras -> fits extras -> write_rel_impl op L = Done f -> file_of f extras.
Proof.
  intros He [Fa Fr Fn _] Hw. unfold write_rel_impl in Hw. rewrite He in Hw. cbn [rbind] in Hw. destruct (put_names [0] _) as [offs tab] eqn:En.
  set (st := bare_section (mksecbuf ".shstrtab" _ _ _ _ _ _ _)) in *. destruct (rel_offsets EHDR_SIZE (extras ++ [st])) as [fo off] eqn:Eo. set (n := Z.of_nat (length extras)) in *.
  destruct (rfold write_rel_sec _ _) as [f1| |] eqn:Ew; [|done|done]. cbn [rbind] in Hw. set (sh := align8 off) in *.
  assert (Z.of_nat (length tab) < 2 ^ 32) as Ht.
  { rewrite (put_names_length _ _ _ _ En), sum_list_with_app. change (sum_list_with _ [".shstrtab"%string]) with 10%nat. change (length [0]) with 1%nat. assert (forall l, sum_list_with (fun n => S (length (string_bytes n))) ((fun s => sb_name (rs_buf s)) <$> l) =
      sum_list_with (fun s => S (length (string_bytes (sb_name (rs_buf s))))) l) as -> by (clear; induction l as [|s l IH]; [done|]; cbn [fmap list_fmap sum_list_with]; by rewrite <- IH). lia. }
  destruct (put_names_hold _ _ _ _ En Ht) as [_ Hnames]. destruct (write_rel_secs _ _ _ _ _ _ Eo Ew) as (P & Hl & Hb & Hs).
  { done. } { apply Forall_app. split; [done|]. by apply Forall_singleton. }
  { rewrite file_room_app. change (file_room [st]) with (Z.of_nat (length tab) + 1 + 0). unfold EHDR_SIZE. lia. }
  { by rewrite rel_ehdr_length. }
  assert (file_room (extras ++ [st]) < 2 ^ 62 + 2 ^ 33) as Hroom by (rewrite file_room_app; change (file_room [st]) with (Z.of_nat (length tab) + 1 + 0); lia).
  assert (off <= sh < 2 ^ 63) as Hsh.
  { unfold sh, align8. rewrite (uwrap_small 64) by (unfold EHDR_SIZE in *; lia). pose proof (andnot_bounds (off + 7) 7 ltac:(unfold EHDR_SIZE in *; lia) ltac:(lia)). unfold EHDR_SIZE in *. lia. }
  destruct (write_pos_end _ _ _ _ Hw ltac:(unfold EHDR_SIZE in *; lia) ltac:(lia)) as (P2 & _ & Hh & _).
  apply holds_app in Hh as [_ Hh]; [|unfold EHDR_SIZE in *; lia]. rewrite length_replicate in Hh.
  assert (forall i s, (extras ++ [st]) !! i = Some s -> exists o nm, offs !! i = Some nm /\ holds tab nm (string_bytes (sb_name (rs_buf s)) ++ [0]) /\
    holds f (sh + 64 * (Z.of_nat i + 1)) (rel_shdr (s, o, nm)) /\ (nobits s = false -> holds f o (sb_data (rs_buf s)))) as Hall.
  { intros i s Hi. destruct (Hs _ _ Hi) as (o & Eo' & Ho & Hd). destruct (Hnames i (sb_name (rs_buf s))) as (nm & Enm & Hnm).
    { apply (f_equal (fmap (fun s => sb_name (rs_buf s)))) in Hi. rewrite <- list_lookup_fmap, fmap_app in Hi. exact Hi. }
    exists o, nm. split; [done|]. split; [done|]. split; [|intros Hnb; eapply holds_prefix; [exact P2|by apply Hd]].
    assert ((rel_shdr <$> combine (combine (extras ++ [st]) fo) offs) !! i = Some (rel_shdr (s, o, nm))) as Er by (rewrite list_lookup_fmap, (combine_lookup _ _ i (s, o) nm); [done|by apply combine_lookup|done]).
    assert (Forall (fun x => length x = 64%nat) (rel_shdr <$> combine (combine (extras ++ [st]) fo) offs)) as Hlen by (apply Forall_fmap, Forall_true; intros; apply rel_shdr_length).
    assert (0 <= sh + Z.of_nat 64) as H64 by (unfold EHDR_SIZE in *; lia). pose proof (holds_row _ _ _ _ _ _ H64 Hh Hlen Er) as R. replace (sh + 64 * (Z.of_nat i + 1)) with (sh + Z.of_nat 64 + Z.of_nat (64 * i)) by lia. exact R. }
  destruct (Hall (length extras) st (list_lookup_middle _ _ _ _ eq_refl)) as (o & nm & _ & _ & Hsh1 & Hsh2).
  exists sh, tab, o, nm. cbv zeta. fold n. split; [lia|]. split; [|split; [exact Hsh1|split; [by apply Hsh2|]]].
  - assert (u16 (u16 n + 1) = u16 (n + 1)) as <- by (unfold uwrap; apply Zplus_mod_idemp_l). eapply holds_prefix; [etransitivity; [exact P|exact P2]|]. unfold holds. by rewrite drop_0, firstn_all.
  - intros i s Hi. destruct (Hall i s (lookup_app_l_Some _ _ _ _ Hi)) as (o' & nm' & _ & A & B & C). by exists o', nm'.
Qed.

End File.

(** ** What a partial link promises *)

(** A loadable section of an input is in the output, with its name and its
    alignment, and its bytes are there. *)
Definition section_kept (st : RelState) (extras : list RelSec) (k : key) (o : LoadedObject) (s : LoadedSection) : Prop :=
  exists n c out, r_out st !! k = Some n /\ r_contrib st !! k = Some c /\ extras !! n = Some out /\
    sb_name (rs_buf out) = ls_name s /\ nobits out = (ls_type s =? SHT_NOBITS) /\ 0 <= c /\ c mod or_one (ls_addralign s) = 0 /\ c + ls_size s <= rs_size out /\
    (ls_type s <> SHT_NOBITS -> c + ls_size s <= Z.of_nat (length (sb_data (rs_buf out))) /\
      forall i, 0 <= i < ls_size s -> byte_at (sb_data (rs_buf out)) (c + i) = byte_at (o_mem o) (ls_offset s + i)).

(** A relocation of a loadable section is in the output: it patches the same
    place of the same section in the same way, and names what it named. *)
Definition reloc_kept (L : Linker) (st : RelState) (strtab symtab : list Z) (extras : list RelSec) (oi : nat) (r : LoadedReloc) : Prop :=
  exists k rs n c j i, r_out st !! (oi, Z.to_nat (rl_target_sec r)) = Some n /\ r_contrib st !! (oi, Z.to_nat (rl_target_sec r)) = Some c /\
    extras !! k = Some rs /\ sb_type (rs_buf rs) = SHT_RELA /\ sb_info (rs_buf rs) = u32 (u32 (Z.of_nat n) + 1) /\
    row 24 j (sb_data (rs_buf rs)) = rela_bytes (u64 (c + rl_offset r)) (r_info_of i (rl_type r)) (rl_addend r) /\
    forall s, 0 < rl_sym_idx r -> nth_sym (l_objects L) oi (rl_sym_idx r) = Some s ->
      sy_binding s = STB_LOCAL \/ sy_defined s = false \/ is_Some (l_globals L !! sy_name s) -> stands_for L st strtab symtab i oi s.

Lemma section_listed os oi o si s : os !! oi = Some o -> (0 < si)%nat -> o_sections o !! si = Some s -> ((oi, si), s) ∈ all_sections os.
Proof. intros Ho H0 Hs. apply all_sections_elem. split; [cbn; lia|]. unfold nth_section. cbn [fst snd]. by rewrite Ho. Qed.

Section Promise.
Context {lib : LibElf} {ord : StringOrder} (op : Options) (L : Linker) (st : RelState) (extras : list RelSec).
Context (Hst : rel_state op L = Done st) (Hm : mergeable op (l_objects L)) (Hp : r_extras st `prefix_of` extras).

(** The part a section contributes. *)
Lemma section_part_elem oi o si s : l_objects L !! oi = Some o -> (0 < si)%nat -> o_sections o !! si = Some s -> ls_loadable s = true ->
  section_part (l_objects L) ((oi, si), s) ∈ section_parts (l_objects L) ++ debug_contributions op (l_objects L).
Proof.
  intros Ho H0 Hs Hl. apply elem_of_app. left. unfold section_parts. apply list_elem_of_fmap. eexists. split; [done|]. apply list_elem_of_In, List.filter_In. split; [|done].
  apply list_elem_of_In. by apply (section_listed _ oi o).
Qed.

Lemma sections_kept oi o si s : l_objects L !! oi = Some o -> (0 < si)%nat -> o_sections o !! si = Some s -> ls_loadable s = true -> section_kept st extras (oi, si) o s.
Proof.
  intros Ho H0 Hs Hl. destruct (rel_state_ok op L st Hst Hm) as [[cur Hok] F]. rewrite list.Forall_forall in F.
  destruct (F _ (section_listed _ oi o si s Ho H0 Hs) Hl) as (o' & d & Ho' & Hd). cbn [fst snd] in Ho', Hd. rewrite Ho in Ho'. injection Ho' as <-.
  pose proof (section_part_elem oi o si s Ho H0 Hs Hl) as Hin. destruct (mo_place _ _ _ Hok _ Hin) as (n & c & out & L1 & L2 & L3 & L4 & L5 & L6 & L7 & L8 & L9).
  pose proof (mg_sound _ _ Hm) as Hsnd. rewrite list.Forall_forall in Hsnd. specialize (Hsnd _ Hin). unfold section_part in *. cbn [fst snd sb_name sb_addralign sb_type sb_data] in *. rewrite Ho, Hd in *.
  exists n, c, out. split; [done|]. split; [done|]. split; [by eapply prefix_lookup_Some|]. split; [done|]. unfold is_bss in *. cbn [sb_type] in *.
  assert ((if ls_type s =? SHT_NOBITS then SHT_NOBITS else SHT_PROGBITS) =? SHT_NOBITS = (ls_type s =? SHT_NOBITS)) as Eb by (by destruct (ls_type s =? SHT_NOBITS)). rewrite Eb in *.
  split; [done|]. split; [done|]. split; [done|]. split; [done|]. intros Hn%Z.eqb_neq. destruct (L9 Hn) as [Hlen Hb]. split; [lia|]. intros i Hi. rewrite Hb by done.
  unfold section_data in Hd. rewrite Hn, (proj2 (Z.ltb_lt _ _)) in Hd by lia. cbn [negb andb] in Hd. apply inside_done, read_bytes_spec in Hd as (_ & _ & _ & _ & Hd). by apply Hd.
Qed.

Lemma sections_apart oi o si s oi' o' si' s' n c c' :
  l_objects L !! oi = Some o -> (0 < si)%nat -> o_sections o !! si = Some s -> ls_loadable s = true ->
  l_objects L !! oi' = Some o' -> (0 < si')%nat -> o_sections o' !! si' = Some s' -> ls_loadable s' = true -> (oi, si) <> (oi', si') ->
  r_out st !! (oi, si) = Some n -> r_contrib st !! (oi, si) = Some c -> r_out st !! (oi', si') = Some n -> r_contrib st !! (oi', si') = Some c' ->
  c + ls_size s <= c' \/ c' + ls_size s' <= c.
Proof.
  intros Ho H0 Hs Hl Ho' H0' Hs' Hl' Hne A1 A2 B1 B2. destruct (rel_state_ok op L st Hst Hm) as [[cur Hok] _].
  pose proof (section_part_elem oi o si s Ho H0 Hs Hl) as X. pose proof (section_part_elem oi' o' si' s' Ho' H0' Hs' Hl') as Y.
  destruct (mo_place _ _ _ Hok _ X) as (n1 & c1 & o1 & L1). destruct (mo_place _ _ _ Hok _ Y) as (n2 & c2 & o2 & L2).
  pose proof L1 as (P1 & P2 & _). pose proof L2 as (Q1 & Q2 & _). cbn [section_part fst snd] in P1, P2, Q1, Q2. assert (n1 = n /\ n2 = n /\ c1 = c /\ c2 = c') as (-> & -> & -> & ->) by (split_and!; congruence).
  exact (mo_apart _ _ _ Hok _ _ X Y Hne n c c' o1 o2 L1 L2).
Qed.

End Promise.

(** A relocation of a loadable section comes out of [rel_reloc]. *)
Lemma reloc_out L st extras y oi o r target : l_objects L !! oi = Some o -> r ∈ o_relocations o -> get (o_sections o) (rl_target_sec r) = Some target ->
  section_kept st extras (oi, Z.to_nat (rl_target_sec r)) o target -> exists n c, r_out st !! (oi, Z.to_nat (rl_target_sec r)) = Some n /\
    r_contrib st !! (oi, Z.to_nat (rl_target_sec r)) = Some c /\
    (n, ls_name target, rela_bytes (u64 (c + rl_offset r)) (r_info_of (rel_symbol L y oi (rl_sym_idx r)) (rl_type r)) (rl_addend r)) ∈ rel_relocs L st y.
Proof.
  intros Ho Hr Ht (n & c & out & A & B & _). exists n, c. split; [done|]. split; [done|]. unfold rel_relocs. apply list_elem_of_In, in_concat.
  exists (omap (rel_reloc L st y oi o) (o_relocations o)). split; apply list_elem_of_In; [apply elem_of_lookup_imap; by exists oi, o|].
  apply list_elem_of_omap. exists r. split; [done|]. unfold rel_reloc, rel_key. rewrite Ht. cbn [mbind option_bind]. by rewrite A, B.
Qed.

Lemma relas_row extras0 symtab l ex tab p : relas_ok extras0 symtab l (ex, tab) -> Forall (fun p => length p.2 = 24%nat) l -> p ∈ l ->
  exists k rs j, ex !! k = Some rs /\ sb_type (rs_buf rs) = SHT_RELA /\ sb_info (rs_buf rs) = u32 (u32 (Z.of_nat p.1.1) + 1) /\ row 24 j (sb_data (rs_buf rs)) = p.2.
Proof.
  intros [_ Hk _ Hs] Hl Hp. destruct (Hk p Hp) as [k Ek]. destruct (Hs _ _ Ek) as (_ & rs & E & T & _ & I & D).
  assert (p.2 ∈ relocs_into p.1.1 l) as Hin.
  { unfold relocs_into. apply list_elem_of_fmap. exists p. split; [done|]. apply list_elem_of_In, List.filter_In. split; [by apply list_elem_of_In|by apply Nat.eqb_refl]. }
  apply list_elem_of_lookup_1 in Hin as [j Hj]. exists k, rs, j. split; [done|]. split; [done|]. split; [done|]. rewrite D. apply row_concat; [|done].
  unfold relocs_into. apply Forall_fmap, list.Forall_forall. intros q Hq. rewrite list.Forall_forall in Hl. apply Hl. apply list_elem_of_In, List.filter_In in Hq as [Hq _]. by apply list_elem_of_In.
Qed.

Lemma rel_relocs_rows L st y : Forall (fun p => length p.2 = 24%nat) (rel_relocs L st y).
Proof.
  apply list.Forall_forall. intros p Hp. unfold rel_relocs in Hp. apply list_elem_of_In, in_concat in Hp as (l & Hl & Hp). apply list_elem_of_In, elem_of_lookup_imap in Hl as (i & o & -> & _).
  apply list_elem_of_In, list_elem_of_omap in Hp as (r & _ & Hr). unfold rel_reloc in Hr. destruct (get _ _); [|done]. cbn [mbind option_bind] in Hr. destruct (r_out st !! _); [|done].
  cbn [mbind option_bind] in Hr. injection Hr as <-. cbn [snd]. by rewrite rela_bytes_length.
Qed.

(** The sections of the output: those of the inputs, the tables, the relocations. *)
Lemma rel_sections_parts {ord : StringOrder} op L extras : rel_sections op L = Done extras -> exists st y first tab,
  rel_state op L = Done st /\ rel_symtab L st = (y, first) /\
  relas_ok (r_extras st ++ [bare_section (mksecbuf ".strtab" SHT_STRTAB 0 (ry_strtab y) 0 0 1 0);
                            bare_section (mksecbuf ".symtab" SHT_SYMTAB 0 (concat (ry_syms y)) (u32 (u32 (Z.of_nat (length (r_extras st))) + 1)) (u32 first) 8 24)])
    (length (r_extras st) + 1)%nat (rel_relocs L st y) (extras, tab).
Proof.
  unfold rel_sections. intros H. destruct (rel_state op L) as [st| |] eqn:E; [|done|done]. cbn [rbind] in H. unfold build_rel_symtab in H. destruct (rel_symtab L st) as [y first] eqn:Ey.
  injection H as <-. unfold build_rel_relocations. set (base := r_extras st ++ _). set (n := (length (r_extras st) + 1)%nat).
  exists st, y, first, (foldl (put_rela n) (base, ∅) (rel_relocs L st y)).2. split; [done|]. split; [done|]. rewrite <- surjective_pairing.
  apply (relas_fold base n [] (rel_relocs L st y)). split; cbn [fst snd]; [done|by intros p ?%elem_of_nil| |]; intros out; [intros out'|]; intros i; by rewrite lookup_empty.
Qed.


(** ** The demo, linked with [-r] *)

Definition sound_partb (x : contribution) : bool :=
  (0 <=? x.2) && (1 <=? sb_addralign x.1.2) && (if is_bss x.1.2 then bool_decide (sb_data x.1.2 = []) else Z.of_nat (length (sb_data x.1.2)) =? x.2).
Lemma sound_partb_spec x : sound_partb x = true -> sound_part x.
Proof. unfold sound_partb, sound_part. destruct (is_bss _); intros H; zprops; [|by split_and!]. by apply bool_decide_eq_true in H0 as ->. Qed.

Definition uniformb (l : list contribution) : bool :=
  forallb (fun x => forallb (fun y => negb (String.eqb (sb_name x.1.2) (sb_name y.1.2)) || eqb (is_bss x.1.2) (is_bss y.1.2)) l) l.
Lemma uniformb_spec l : uniformb l = true -> uniform l.
Proof.
  intros H x y Hx%list_elem_of_In Hy%list_elem_of_In Hn. unfold uniformb in H. rewrite forallb_forall in H. specialize (H x Hx). rewrite forallb_forall in H. specialize (H y Hy).
  rewrite (proj2 (String.eqb_eq _ _) Hn) in H. by apply eqb_prop.
Qed.

(** The hypotheses of the theorem as a test. *)
Definition mergeableb (op : Options) (os : list LoadedObject) : bool :=
  let a := section_parts os in let b := debug_contributions op os in
  forallb sound_partb (a ++ b) && bool_decide (NoDup ((fun x : contribution => x.1.1) <$> a ++ b)) && uniformb a && (room a <? 2 ^ 64) && (room b <? 2 ^ 64).
Lemma mergeableb_spec op os : mergeableb op os = true -> mergeable op os.
Proof.
  unfold mergeableb. intros H. rewrite !andb_true_iff in H. destruct H as ((((A & B) & C) & D%Z.ltb_lt) & E%Z.ltb_lt). split; [|by apply bool_decide_eq_true in B|by apply uniformb_spec|done].
  apply list.Forall_forall. intros x Hx%list_elem_of_In. rewrite forallb_forall in A. by apply sound_partb_spec, A.
Qed.

Definition fitsb (l : list RelSec) : bool :=
  forallb (fun s => (0 <=? sb_addralign (rs_buf s)) && (Z.of_nat (length (sb_data (rs_buf s))) <? 2 ^ 32)) l && (file_room l <? 2 ^ 62)
  && (Z.of_nat (sum_list_with (fun s => S (length (string_bytes (sb_name (rs_buf s))))) l) <? 2 ^ 31).
Lemma fitsb_spec l : fitsb l = true -> fits l.
Proof.
  unfold fitsb. intros H. rewrite !andb_true_iff in H. destruct H as ((A & B%Z.ltb_lt) & C%Z.ltb_lt). rewrite forallb_forall in A.
  split; [apply list.Forall_forall; intros s Hs%list_elem_of_In|done|done|intros s Hs%list_elem_of_In _]; specialize (A _ Hs); zprops; done.
Qed.

Definition demo_rel_options : Options := demo_options RELOCATABLE [].
Definition done_list {A} (r : res (list A)) : list A := match r with Done l => l | _ => [] end.

(** Two objects with a [.text] each: the second goes to offset 32. *)
Definition demo_rel_inputs : list string := ["main.o"; "ext.o"]%string.
Definition demo_rel : Linker := the (run demo_rel_options demo_rel_inputs).
Definition demo_rel_sections : list RelSec := done_list (rel_sections demo_rel_options demo_rel).
Definition demo_rel_file : list Z := done_list (link_rel demo_rel_options demo_rel_inputs).

Definition the_contrib (r : res RelState) (k : key) : option Z := match r with Done st => r_contrib st !! k | _ => None end.


(** ** What a partial link loses *)

(** Every merged section is NOBITS or PROGBITS, whatever the inputs were. *)
Lemma merged_types op L st : rel_state op L = Done st ->
  Forall (fun s => sb_type (rs_buf s) = SHT_NOBITS \/ sb_type (rs_buf s) = SHT_PROGBITS) (r_extras st).
Proof.
  set (P := fun s => sb_type (rs_buf s) = SHT_NOBITS \/ sb_type (rs_buf s) = SHT_PROGBITS).
  assert (forall k b size st, sb_type b = SHT_NOBITS \/ sb_type b = SHT_PROGBITS -> Forall P (r_extras st) -> Forall P (r_extras (contribute k b size st))) as Hc.
  { intros k b size st0 Hb H. unfold contribute. destruct (r_merged st0 !! sb_name b) as [[n acc]|]; cbn [r_extras]; [by apply Forall_alter|]. apply Forall_app. split; [done|by apply Forall_singleton]. }
  unfold rel_state. intros H. destruct (merge_rel_sections (l_objects L)) as [st1| |] eqn:E; [|done|done]. injection H as <-.
  assert (Forall P (r_extras st1)) as H1.
  { refine (rfold_keeps (fun st => Forall P (r_extras st)) _ _ _ _ _ _ E); [|by apply list.Forall_nil]. intros s0 [k s] s1 H0 _ Hs. unfold merge_section in Hs.
    destruct (ls_loadable s); cbn [negb] in Hs; [|by injection Hs as <-]. destruct (l_objects L !! k.1) as [o|]; [|done]. cbn [inside rbind] in Hs. destruct (section_data o s); [|done|done].
    injection Hs as <-. apply Hc; [|done]. cbn [sb_type]. destruct (_ =? _); tauto. }
  unfold merge_rel_debug_sections. destruct (op_keep_debug op); [|done]. rewrite (debug_fold (l_objects L) _ 0 : foldl _ _ (imap pair (l_objects L)) = _).
  set (l := concat _). assert (Forall (fun x : contribution => sb_type x.1.2 = SHT_PROGBITS) l) as Hl.
  { apply list.Forall_forall. intros x Hx%list_elem_of_In. apply in_concat in Hx as (m & Hm & Hx). apply list_elem_of_In, elem_of_lookup_imap in Hm as (i & o & -> & _).
    apply list_elem_of_In, list_elem_of_fmap in Hx as ([[[a b] c] d] & -> & _). done. }
  assert (forall st0, Forall P (r_extras st0) -> Forall P (r_extras (foldl add_part st0 l))) as Hf; [|by apply Hf].
  induction Hl as [|x m Hx _ IH]; intros st0 H0; [done|]. cbn [foldl]. apply IH. unfold add_part. apply Hc; [by right|done].
Qed.

(** An object with a constructor. *)
Definition ctor_image : ElfImage := mkimage ET_REL
  [scn ".text" SHT_PROGBITS 6 demo_text; scn ".init_array" SHT_INIT_ARRAY 3 (replicate 8 0); syms_scn [null_sym; mkelfsym "_start" 0x12 0 1 0 32]].
Definition ctor_lib : LibElf := {| elf_image := fun _ => Some ctor_image; read_file := fun _ => Some [] |}.
Definition ctor_options (m : Mode) : Options := mkoptions m 0x40000000 "_start" "" [] [] false.

(** A link finds the constructors; a partial link makes their section an
    ordinary one, so that a link of its output does not. *)
Example constructors_lost :
  let L := the (@run ctor_lib (ctor_options STATIC_EXE) ["ctor.o"%string]) in
  let R := the (@run ctor_lib (ctor_options RELOCATABLE) ["ctor.o"%string]) in
  l_synthetic L !! "__init_array_start"%string <> None /\
  (fun s => (sb_name (rs_buf s), sb_type (rs_buf s))) <$> take 2 (done_list (rel_sections (ctor_options RELOCATABLE) R)) =
    [(".text"%string, SHT_PROGBITS); (".init_array"%string, SHT_PROGBITS)].
Proof. vm_compute. split; [discriminate|reflexivity]. Qed.

(** A global label without a type is not in the symbol table of the output, and
    the relocation that named it names the null symbol. *)
Example label_lost :
  let R := the (run (ctor_options RELOCATABLE) ["lab.o"%string]) in
  let out := done_list (rel_sections (ctor_options RELOCATABLE) R) in
  (fun s => length (sb_data (rs_buf s))) <$> out !! 2%nat = Some (24 * 2)%nat /\
  (fun s => sb_data (rs_buf s)) <$> out !! 3%nat = Some (rela_bytes 8 (r_info_of 0 1) 0).
Proof. vm_compute. split; reflexivity. Qed.
